(* ===== verification/_CoqProject ===== *)
-Q . S2P
Prelude.v
Endian.v
Syntax.v
Comparable.v
Gas.v
BigMap.v
BigMapDump.v
Stack.v
External.v
ByteRepr.v
Serializer.v
Context.v
TypeProps.v
Typechecker.v
Typing.v
TypecheckerSound.v
Interpreter.v
InterpreterSound.v
Soundness.v
Instructions.v
Structures.v
Types.v
Findings.v
Words.v
RiscvCsr.v
RiscvCsrProps.v
RiscvHart.v
RiscvLayout.v
RiscvMemory.v
KernelPath.v
KernelHost.v
KernelRuntime.v
KernelStore.v
KernelStoreLaws.v
KernelStorage.v
KernelTransactions.v
KernelInput.v
SdkNom.v
SdkMicheline.v
SdkMichelineProps.v
SdkMichelson.v
SdkMessages.v
SdkDac.v
SdkDacProps.v
SdkInstaller.v
SdkRuns.v
Rlp.v
EvmErrors.v
EvmStorage.v
LinkedList.v
LinkedListProps.v
EthTypes.v
EthSign.v
EvmTx.v
EthBlock.v
EvmStore.v
EvmChunks.v
EvmBlueprints.v
EvmExamples.v
EvmParsing.v
EvmAccounts.v
EvmApply.v
EvmTicks.v
EvmBlockHashes.v
EvmHandler.v
EvmPrecompiles.v
EvmExec.v
EvmWorld.v
EvmExecProps.v
EvmTransfers.v
EvmBlock.v
EvmBlockProps.v
EvmExecRuns.v
EvmStageZero.v
EvmSimulation.v
EvmInbox.v
EvmSafe.v
EvmKernel.v
EvmKernelProps.v
EvmKernelRuns.v
