(* ===== verification/Prelude.v ===== *)
(** MIR and the rollup kernels, verified.

    The repository holds several Rust programs.  This development covers MIR,
    "Michelson in Rust" ([contrib/mir]), a library that typechecks and interprets
    smart contracts in Michelson, the stack language of Tezos; the state of the
    RISC-V machine of rollups ([src/risc_v/machine_state]); the kernel SDK
    ([src/kernel_sdk]): paths, the host interface with the wrappers kernels
    call, the mock host of tests, nested transactions, the encodings of what kernels and
    layer one send each other, and data availability; and the Etherlink kernel
    ([etherlink/kernel_evm]), an Ethereum chain run by a rollup: its transactions, blocks,
    blueprints, accounts, the execution of contracts, and the kernel from the messages of its
    inbox to the storage it leaves.

    * MIR and its model

    A host parses a script into Micheline, typechecks it
    ([Micheline::typecheck_script]) into a [ContractScript], and calls it
    ([ContractScript::interpret]) on a parameter and a storage.  Both passes thread
    a mutable context ([Ctx]): the gas counter, the data of the block and of the
    operation, the contracts that can be called and the lazy storage of big maps.

    - [Prelude]: outcomes of Rust functions ([outcome]: [Ok], [Err], [Panic], and
      [Diverge] for a model out of fuel), the state-and-outcome monad [M], bytes,
      generic lemmas.  [Endian]: numbers as bytes, ranges of byte strings.
    - [Syntax] ([ast.rs], [ast/*.rs], [lexer.rs]): primitives, Micheline, types,
      typed values, instructions.
    - [Comparable] ([ast/comparable.rs]): the order of typed values.
    - [Gas] ([gas.rs]): the gas counter, checked arithmetic, every cost function.
    - [BigMap] ([ast/big_map.rs]): ordered trees, big maps, the [LazyStorage]
      interface (a class with laws) and its in-memory implementation.
      [BigMapDump]: writing the big maps of a storage back, [dump_big_map_updates].
    - [Stack] ([stack.rs]): stacks as vectors, and as lists from the top.
    - [External] ([bls/*.rs] and what they call): third-party code as a class of
      functions with the laws the library relies on; a concrete instance shows the
      laws can hold.
    - [ByteRepr] ([ast/michelson_*.rs]): textual and binary addresses and keys.
    - [Serializer] ([serializer/*.rs]): binary Micheline, [PACK] and [UNPACK].
    - [Context] ([context.rs]): [Ctx], and the program logic used in the proofs:
      [triple], a total-correctness triple that accounts for gas, and [charges_as],
      exact runs.
    - [TypeProps], [Typechecker] ([typechecker.rs], [typechecker/type_props.rs]).
    - [Interpreter] ([interpreter.rs]).

    Functions keep their Rust names.  A handler of a match arm of
    [typecheck_instruction] is [tc_<instr>], one of [interpret_one] is [i_<instr>].

    * The RISC-V machine and its model

    - [Words]: operators of [u64] and their bits.
    - [RiscvCsr] ([csregisters.rs], [csregisters/xstatus.rs]): control and status
      registers, the values each accepts, privileges, the register file.
    - [RiscvHart] ([registers.rs], [mode.rs], [interpreter/*.rs], [lib.rs]): register
      files, modes, [ADDI], [ADDIW] and the CSR instructions on the state of a hart.
    - [RiscvLayout] ([backend/alloc.rs], [backend/layout.rs]): placement of a layout in
      the storage by the [Choreographer], with the hooks of overlapping layouts.
    - [RiscvMemory] ([memory_backend.rs], [backend.rs], [backend/region.rs], [bus.rs],
      [bus/*.rs]): the storage as bytes at an address, regions as pointers into it, the
      main memory as four regions at one place, the bus.

    * The storage of kernels and its model

    A kernel reaches its durable storage through host functions on paths and bytes
    ([SmartRollupCore]), wrapped by [Runtime]; [Storage] builds nested transactions on it.

    - [KernelPath] ([host/src/path.rs]): validation, concatenation and steps of paths.
    - [KernelHost] ([host/src/lib.rs], [host/src/runtime.rs], [core]): error codes, the host
      functions as a class, the wrappers as functions of the state of the host.
    - [KernelRuntime]: what a host promises ([CoreLaws], against a map from paths to
      values) and what the wrappers do on any such host.
    - [KernelStore] ([mock/src/state/*.rs]): the tree of the in-memory host.
      [KernelStoreLaws]: it keeps the promise of [CoreLaws].
    - [KernelStorage] ([storage/src/*.rs]): layers and transactions.  [KernelTransactions]:
      they are snapshots, with runs on the in-memory host.
    - [KernelInput] ([host/src/runtime.rs], [input.rs], [metadata.rs], [mock/src/state/mod.rs]): the inbox
      and the metadata of the rollup, what host functions leave alone ([HostFrame]), the mock host.

    * The encodings of the kernel SDK and their model

    Layer one sends Michelson data to a kernel in messages of its inbox, and the kernel sends
    batches of contract calls back.  Large payloads are not sent: a committee signs the root of a tree of
    pages, and the kernel reveals the pages by their hashes.

    - [Endian], [SdkNom]: integers and strings as bytes, the crates nom and tezos_data_encoding as classes with laws, and the rules of
      values that are read back ([coded]).
    - [SdkMicheline] ([encoding/src/michelson/micheline.rs]): expressions as trees and as typed values,
      traits as the classes [BinWriter], [NomReader], and [Codec] for types whose values are read back.
    - [SdkMichelson] ([michelson.rs], [ticket.rs], [contract.rs], [public_key*.rs], [smart_rollup.rs],
      [entrypoint.rs], [timestamp.rs]), [SdkMessages] ([inbox.rs], [outbox.rs]).
    - [SdkDac] ([dac.rs], [dac/pages.rs], [dac/certificate.rs]): pages, their preparation, certificates
      and revealing them to the storage.
    - [SdkInstaller] ([installer-config], [installer-kernel], [installer-client]): configurations that reveal, move
      and set values, their encoding and evaluation, the kernel that runs the configuration at the end of its own
      code, and how the client makes it.  Etherlink upgrades evaluate such a configuration.

    * The Etherlink kernel and its model

    Users send Ethereum transactions, and layer one sends deposits, to the inbox of the
    rollup.  The kernel collects them in blueprints, executes the blueprints transaction by
    transaction, over several kernel runs when a run lacks ticks, and stores blocks, receipts
    and accounts in the durable storage.  A run of the kernel works on a copy of its storage: stage
    zero migrates it, stage one reads the inbox, stage two produces blocks, and the copy replaces
    the storage if all of them succeed.

    - [Rlp], [EvmErrors], [EvmStorage] ([rlp_helpers.rs], [error.rs], [indexable_storage.rs]):
      the crate rlp as a class with laws, helpers, errors, stored values and indexes.
    - [LinkedList] ([linked_list.rs]): the stored list of the delayed inbox.
    - [EthTypes], [EthSign] ([tx_common.rs], [tx_signature.rs], [access_list.rs]): transactions of
      the three types, their encodings and signatures.  [EthBlock] ([block.rs],
      [transaction.rs]): blocks, receipts, logs.  [EvmTx]: the data of the kernel with their encodings.
    - [EvmStore] ([storage.rs]), [EvmChunks] ([inbox.rs]): the storage, chunked transactions.
      [EvmBlueprints] ([blueprint_storage.rs], [delayed_inbox.rs]): blueprints in chunks.
    - [EvmAccounts] ([account_storage.rs]), [EvmApply] ([apply.rs]): accounts, validity and effects
      of transactions, over an interface of execution ([EvmExecution]).
    - [EvmTicks], [EvmBlockHashes], [EvmHandler], [EvmPrecompiles], [EvmExec]
      ([evm_execution/src]): ticks of opcodes, hashes of blocks, the handler with its
      layers and gas, the precompiled contracts, nested calls and [run_transaction], which
      implements [EvmExecution].  The virtual machine of the crate evm is a parameter: a step of
      it is a program of requests to the handler.
    - [EvmBlock] ([tick_model.rs], [block_in_progress.rs], [block.rs], [upgrade.rs]): blocks in
      progress and their production.
    - [EvmParsing] ([parsing.rs]): the inputs of the kernel.  [EvmStageZero] ([migration.rs], [lib.rs]): migrations
      and parameters of the chain.  [EvmSimulation] ([simulation.rs]): evaluation of calls and validation of
      transactions for the node.  [EvmInbox] ([inbox.rs], [stage_one.rs]): reading the inbox.
    - [EvmSafe] ([safe_storage.rs]): the copy as a host, whose states are those that the operations below [/tmp]
      reach.  [EvmKernel] ([lib.rs]): [main] on that host, and [kernel_loop].

    * What is shown

    - [Typing] is a declarative type system of values, instructions and scripts;
      [TypecheckerSound]: what the typechecker accepts is typed; [InterpreterSound]:
      typed programs keep types and reach no panic.  [Soundness] states both on runs:
      typechecking and calls return, what they return is typed, and which panics
      remain.  The typechecker and the interpreter recurse on fuel; each recursive
      call has charged gas, so fuel above the milligas left is enough, and the
      theorems prove that it never runs out.
    - [Instructions], [Structures]: instructions compute what their documentation
      says, with the exact gas charged: mutez arithmetic, bitwise operations and
      conversions of bytes, slices, tickets, stack permutations, combs, sets, maps,
      [ITER], [MAP], [COMPARE].
    - [Types]: printing and parsing of types, entrypoints of parameters.
    - [BigMap], [Stack], [ByteRepr], [Serializer], [TypeProps]: properties of the
      component (refinement of an abstract map, of lists; round trips; totality).
    - [BigMapDump], [Soundness]: dumping the big maps left by a successful call into a
      lawful storage succeeds and preserves what they read.
    - [RiscvCsrProps]: registers hold values they accept once they were written, and from then on;
      [sstatus] is a view of [mstatus].  [RiscvHart]: access rights and effects of the CSR instructions.
      [RiscvLayout]: locations are disjoint, aligned and in bounds, overlapping ones
      coincide.  [RiscvMemory]: regions refine arrays of integers, and the main memory behind the
      bus refines an array of bytes for every sequence of aligned accesses; others are rounded down.
    - [KernelPath]: the scan of paths decides a grammar.  [KernelRuntime]: chunked reads and
      writes are exact at any size.  [KernelStoreLaws]: the tree refines a map from paths to
      values.  [KernelTransactions]: transactions over any lawful host refine a stack of maps,
      in their results, in the storage they leave and in what they leave alone.
    - [SdkMichelineProps], [SdkMichelson], [SdkMessages]: expressions, Michelson data and messages
      are read back, typed values agree with trees, hashes identify tickets.  [SdkDacProps]: payloads are
      revealed as they were prepared; revealing is bounded whatever the pages are.
      [SdkInstaller]: installers do what their program says, and install the kernel they were made for.  [SdkRuns]:
      instances of the crates, and runs.
    - [EthTypes], [EthSign], [EvmTx]: encodings round trip; the recovered caller is the signer.
      [LinkedListProps], [EvmChunks], [EvmBlueprints]: the stored list refines a
      sequence, and chunks of transactions and of blueprints are assembled in any order.
    - [EvmWorld], [EvmExecProps]: whatever contracts do, an execution is a sequence of steps of
      a stack of maps; failed transactions leave no trace and no value is created.
      [EvmTransfers]: plain transfers succeed, malformed calls of a precompiled contract fail the run.
      [EvmBlockProps]: the accounts of a block against the outcomes of its transactions, and that reboots finish it.
    - [EvmParsing]: every input has the authority it needs, and messages in the documented format are
      read.  [EvmInbox]: a transaction sent in chunks is read from the inbox, among level messages and
      messages about other transactions.  [EvmSafe]: the methods of the
      safe storage agree with its use as a host.  [EvmKernelProps]: a run of the kernel changes the storage of the
      rollup all at once or not at all, on any lawful host; successful runs are promoted, and failed migrations
      fall back to the previous kernel.
    - [EvmExamples], [EvmExecRuns], [EvmKernelRuns]: instances of the parameters, runs
      on the in-memory host, and runs that show errors of the code.
    - [Findings]: programs that show the panics left open by [Soundness] are real, and that [APPLY] duplicates tickets.

    * Bounds and conventions

    Machine integers are [Z] or [N] with their width written out where the source
    computes with it; [usize] is 64 bits, and 32 in [SdkDac],
    [SdkInstaller] and [EvmPrecompiles], as on the machine of kernels.  [BigInt] and [BigUint] are [Z] and [N].
    Sharing through [Rc] and arenas is not observable and is left out; mutation
    through [&mut] is state passing.

    Placement of layouts recurses on fuel that bounds the nesting of layouts and hooks;
    the theorems give a bound that is enough.  Reads and writes through raw pointers
    outside of the allocation give the outcome [Panic PUndefined], which the theorems
    exclude.  Sizes of layouts are not bounded by [usize]: they are computed from types,
    which are smaller than the address space.

    Loops on chunks recurse on the bytes left.  Values of the durable storage are shorter
    than [2^31] bytes, as the host requires, and transactions nest less deep than ten
    digits can number.  Reading and writing Micheline recurse on fuel that bounds the depth
    of the expression; the loop that reveals pages ends within [MAX_REVEALS] steps.  The loop of the
    installer kernel has more fuel than its code has bytes, and each turn moves it by four bytes or more.

    The execution of contracts recurses on fuel; its theorems hold for any fuel, and a plain
    transfer needs one unit.  No fuel is enough in general: [EvmExecProps] shows creations that
    never return.  Producing blocks recurses on fuel that bounds the number of blueprints, and reading the
    inbox on fuel that bounds the number of messages; one more unit than there are messages is enough.
    Paths that are too long below [/tmp], which the kernel never makes, are refused with the error of an
    invalid key in place of [PathNotFound].  Panics of a kernel trap: the host keeps the storage as it is then.

    * Not modelled

    The lexer, the grammar and the macros of the textual syntax (generated by logos
    and lalrpop at build time) and the tzt test runner; the sandbox and the loaders of
    the RISC-V machine (command line tools); of the kernel SDK, reveals of data layer pages and debug output
    (calls to the host), the command line and the files of the client that makes installers; the runner of the Ethereum tests of Etherlink (files and reports); the
    demonstration kernels. *)
From Stdlib Require Export ZArith NArith Lia.
From Stdlib Require Import Strings.Byte.
From Stdlib Require Strings.String.
From Stdlib Require Export Sorted.
From stdpp Require Export base option numbers countable gmap list_numbers list.
Export String.StringSyntax.
#[export] Set Warnings "-clear-no-such-hyp".


(** * Bytes *)

Abbreviation byte := Byte.byte.
Abbreviation bytes := (list byte).

#[global] Instance byte_eq_dec : EqDecision byte := Byte.byte_eq_dec.

Definition byte_of_N (n : N) : byte :=
  match Byte.of_N (n mod 256) with
  | Some b => b
  | None => Byte.x00
  end.

Lemma byte_of_to_N b : byte_of_N (Byte.to_N b) = b.
Proof. destruct b; reflexivity. Qed.

Lemma byte_to_of_N n : (n < 256)%N -> Byte.to_N (byte_of_N n) = n.
Proof.
  intros Hn. unfold byte_of_N. rewrite N.mod_small by done.
  destruct (Byte.of_N n) eqn:E; [by apply Byte.to_of_N|].
  apply Byte.of_N_None_iff in E. lia.
Qed.

Lemma byte_to_N_bound b : (Byte.to_N b < 256)%N.
Proof. pose proof (Byte.to_N_bounded b). lia. Qed.

#[global] Program Instance byte_countable : Countable byte :=
  inj_countable' Byte.to_N byte_of_N _.
Next Obligation. intros b. apply byte_of_to_N. Qed.

(** ASCII literals, as Rust writes byte strings. *)
Definition str (s : String.string) : bytes := String.list_byte_of_string s.
Arguments str s%_string_scope.

(** * Outcomes

    What running a Rust function of this program can produce.  [Panic] is
    kept apart from [Err]: the library never catches panics, so a caller
    that swallows an [Err] (with [.ok()]) does not swallow a [Panic].
    [Diverge] is the model running out of fuel. *)

Inductive panic : Set :=
  | PGasExhausted    (* gas.rs: "Access to gas after exhaustion" *)
  | PUnreachable     (* interpreter.rs: unreachable_state, irrefutable_match *)
  | PIncomparable    (* comparison of incomparable typed values *)
  | PStackBounds     (* stack.rs: out of bounds stack access *)
  | PUnwrap          (* unwrap/expect on None or Err, failed assert *)
  | PSlice           (* slicing a str or a slice out of bounds *)
  | POverflow        (* primitive_types: overflow of the arithmetic of U256 *)
  | PNoBigMap        (* big_map.rs: "Non-existent big map by id" *)
  | PUndefined.      (* not a panic: access through a raw pointer outside of its allocation *)

Inductive outcome (E A : Type) : Type :=
  | Ok (a : A)
  | Err (e : E)
  | Panic (p : panic)
  | Diverge.
Arguments Ok {E A} _.
Arguments Err {E A} _.
Arguments Panic {E A} _.
Arguments Diverge {E A}.

#[global] Instance outcome_ret E : MRet (outcome E) := fun A a => Ok a.
#[global] Instance outcome_bind E : MBind (outcome E) := fun A B k m =>
  match m with
  | Ok a => k a
  | Err e => Err e
  | Panic p => Panic p
  | Diverge => Diverge
  end.

(** [map_err]. *)
Definition map_err {E F A} (f : E -> F) (m : outcome E A) : outcome F A :=
  match m with
  | Ok a => Ok a
  | Err e => Err (f e)
  | Panic p => Panic p
  | Diverge => Diverge
  end.

(** [Option::ok_or]. *)
Definition ok_or {E A} (e : E) (o : option A) : outcome E A :=
  match o with Some a => Ok a | None => Err e end.

(** [Option::expect] and [Option::unwrap]. *)
Definition expect {E A} (p : panic) (o : option A) : outcome E A :=
  match o with Some a => Ok a | None => Panic p end.

Lemma ok_or_Ok {E A} (e : E) (o : option A) a : ok_or e o = Ok a -> o = Some a.
Proof. destruct o; cbn; congruence. Qed.

Definition is_ok {E A} (m : outcome E A) : bool :=
  match m with Ok _ => true | _ => false end.

Lemma outcome_bind_ok {E A B} (m : outcome E A) (k : A -> outcome E B) b :
  (m ≫= k) = Ok b <-> exists a, m = Ok a /\ k a = Ok b.
Proof.
  destruct m; cbn; split; try (intros (?&?&?)); naive_solver.
Qed.

(** * State, error and panic monad

    [&mut S] together with [Result<_, E>]: the state survives an error, as a
    mutable reference does. *)

Definition M (S E A : Type) : Type := S -> outcome E A * S.

#[global] Instance M_ret S E : MRet (M S E) := fun A a s => (Ok a, s).
#[global] Instance M_bind S E : MBind (M S E) := fun A B k m s =>
  match m s with
  | (Ok a, s') => k a s'
  | (Err e, s') => (Err e, s')
  | (Panic p, s') => (Panic p, s')
  | (Diverge, s') => (Diverge, s')
  end.

Section monad_ops.
Context {S E : Type}.

Definition fail {A} (e : E) : M S E A := fun s => (Err e, s).
Definition panicked {A} (p : panic) : M S E A := fun s => (Panic p, s).
Definition diverge {A} : M S E A := fun s => (Diverge, s).
(** An outcome computed without touching the state. *)
Definition lift {A} (o : outcome E A) : M S E A := fun s => (o, s).
Definition get : M S E S := fun s => (Ok s, s).
Definition put (s' : S) : M S E unit := fun _ => (Ok tt, s').

(** [iter().map(f).collect::<Result<Vec<_>, _>>()]: left to right, stopping at
    the first error. *)
Fixpoint mapM {A B} (f : A -> M S E B) (l : list A) : M S E (list B) :=
  match l with
  | [] => mret []
  | x :: l => y ← f x; ys ← mapM f l; mret (y :: ys)
  end.
End monad_ops.

(** [.map_err(f)] on a computation that threads the state. *)
Definition M_map_err {S E F A} (f : E -> F) (m : M S E A) : M S F A := fun s =>
  let '(o, s') := m s in (map_err f o, s').

(** [.ok()]: the error is dropped, the state it left behind is not. *)
Definition M_ok {S E F A} (m : M S E A) : M S F (option A) := fun s =>
  match m s with
  | (Ok a, s') => (Ok (Some a), s')
  | (Err _, s') => (Ok None, s')
  | (Panic p, s') => (Panic p, s')
  | (Diverge, s') => (Diverge, s')
  end.

(** * Weakest preconditions

    [wp P m s Q]: running [m] from [s] panics only with a panic allowed by
    [P]; when it returns [a] in state [s'], [Q a s'] holds. *)

Definition wp {S E A} (P : panic -> Prop) (m : M S E A) (s : S) (Q : A -> S -> Prop) : Prop :=
  match m s with
  | (Ok a, s') => Q a s'
  | (Panic p, _) => P p
  | _ => True
  end.

Section wp_rules.
Context {S E : Type} (P : panic -> Prop).
Implicit Types (s : S).

Lemma wp_ret {A} (a : A) s (Q : A -> S -> Prop) : Q a s -> wp (E := E) P (mret a) s Q.
Proof. done. Qed.

Lemma wp_bind {A B} (m : M S E A) (k : A -> M S E B) s Q :
  wp P m s (fun a s' => wp P (k a) s' Q) -> wp P (m ≫= k) s Q.
Proof.
  unfold wp, mbind, M_bind. destruct (m s) as [[a|e|p|] s']; done.
Qed.

Lemma wp_mono {A} (m : M S E A) s (Q Q' : A -> S -> Prop) :
  wp P m s Q -> (forall a s', Q a s' -> Q' a s') -> wp P m s Q'.
Proof. unfold wp. destruct (m s) as [[a|e|p|] s']; auto. Qed.

Lemma wp_fail {A} (e : E) s (Q : A -> S -> Prop) : wp P (fail e) s Q.
Proof. done. Qed.

Lemma wp_diverge {A} s (Q : A -> S -> Prop) : wp (E := E) P diverge s Q.
Proof. done. Qed.

Lemma wp_panicked {A} p s (Q : A -> S -> Prop) : P p -> wp (E := E) P (panicked p) s Q.
Proof. done. Qed.

Lemma wp_lift {A} (o : outcome E A) s (Q : A -> S -> Prop) :
  match o with Ok a => Q a s | Panic p => P p | _ => True end -> wp P (lift o) s Q.
Proof. unfold wp, lift. by destruct o. Qed.
End wp_rules.

Lemma wp_map_err {S E F A} P (f : E -> F) (m : M S E A) s Q :
  wp P m s Q -> wp P (M_map_err f m) s Q.
Proof. unfold wp, M_map_err. destruct (m s) as [[a|e|p|] s']; done. Qed.

(** [.ok()] turns an error into [None], so the continuation must also be
    established from whatever state the error left. *)
Lemma wp_ok {S E F A} (P : panic -> Prop) (m : M S E A) s Q :
  match m s with
  | (Ok a, s') => Q (Some a) s'
  | (Err _, s') => Q None s'
  | (Panic p, _) => P p
  | (Diverge, _) => True
  end ->
  wp P (M_ok (F := F) m) s Q.
Proof. unfold wp, M_ok. destruct (m s) as [[a|e|p|] s']; done. Qed.

(** * Tactics *)

(** Case analysis on the head [match] of the goal or of a hypothesis. *)
Ltac case_on_goal :=
  match goal with
  | |- context [match ?x with _ => _ end] => destruct x eqn:?
  end.

Ltac case_on H :=
  match type of H with
  | context [match ?x with _ => _ end] => destruct x eqn:?
  end.

(** Undo a successful outcome: split the binds of an equation [_ = Ok _]. *)
Ltac inv_ok :=
  repeat match goal with
  | H : outcome_bind _ _ _ _ _ = Ok _ |- _ =>
      apply outcome_bind_ok in H as (?&?&?)
  | H : (_ ≫= _) = Ok _ |- _ => apply outcome_bind_ok in H as (?&?&?)
  | H : Ok _ = Ok _ |- _ => injection H as H; subst
  | H : Err _ = Ok _ |- _ => discriminate H
  | H : Panic _ = Ok _ |- _ => discriminate H
  | H : Diverge = Ok _ |- _ => discriminate H
  end.

(** * Generic lemmas *)

Lemma nth_error_lookup {A} (l : list A) i : nth_error l i = l !! i.
Proof. revert i; induction l; intros [|i]; cbn; auto. Qed.

Lemma Forall2_lookup_r {A B} (P : A -> B -> Prop) l k i y :
  Forall2 P l k -> k !! i = Some y -> exists x, l !! i = Some x /\ P x y.
Proof.
  intros H Hy. apply (Forall2_lookup_r _ _ _ _ _ H) in Hy as (x&?&?). eauto.
Qed.

(** An outcome whose only possible panic is [p]. *)
Definition panics_only (p : panic) {E A} (c : outcome E A) : Prop :=
  match c with Panic q => q = p | Diverge => False | _ => True end.

Lemma panics_only_bind p {E A B} (m : outcome E A) (k : A -> outcome E B) :
  panics_only p m -> (forall a, panics_only p (k a)) -> panics_only p (m ≫= k).
Proof. destruct m; cbn; auto. Qed.
