(* ===== verification/Endian.v ===== *)
(** Integers as byte strings, least significant byte first.

    [to_le_bytes] and [from_le_bytes] of Rust's integers and of num_bigint, for numbers of any width,
    the ranges of a byte string, and the byte strings that are UTF-8. *)

From S2P Require Import Prelude.

#[local] Open Scope N_scope.

(** Digits in base 256, [n] of them. *)
Fixpoint le_bytes (n : nat) (z : N) : bytes :=
  match n with
  | O => []
  | S n => byte_of_N (z mod 256) :: le_bytes n (z / 256)
  end.

Fixpoint of_le_bytes (l : bytes) : N :=
  match l with
  | [] => 0
  | b :: l => Byte.to_N b + 256 * of_le_bytes l
  end.

Lemma length_le_bytes n z : length (le_bytes n z) = n.
Proof. revert z. induction n; intros; cbn; auto. Qed.

Lemma pow256_S n : 256 ^ N.of_nat (S n) = 256 * 256 ^ N.of_nat n.
Proof. rewrite Nat2N.inj_succ. apply N.pow_succ_r'. Qed.

Lemma of_le_bytes_bound l : of_le_bytes l < 256 ^ N.of_nat (length l).
Proof.
  induction l as [|b l IH]; [done|]. cbn [of_le_bytes length]. rewrite pow256_S.
  pose proof (byte_to_N_bound b). lia.
Qed.

Lemma of_le_bytes_le_bytes n z : z < 256 ^ N.of_nat n -> of_le_bytes (le_bytes n z) = z.
Proof.
  revert z. induction n as [|n IH]; intros z Hz; [cbn in *; lia|].
  cbn [le_bytes of_le_bytes]. rewrite pow256_S in Hz.
  rewrite byte_to_of_N by (apply N.mod_lt; lia).
  rewrite IH by (apply N.Div0.div_lt_upper_bound; lia).
  pose proof (N.div_mod z 256). lia.
Qed.

Lemma le_bytes_of_le_bytes l : le_bytes (length l) (of_le_bytes l) = l.
Proof.
  induction l as [|b l IH]; cbn [length of_le_bytes le_bytes]; [done|]. pose proof (byte_to_N_bound b).
  rewrite N.mul_comm, N.Div0.mod_add, N.mod_small, byte_of_to_N by done.
  by rewrite N.div_add, N.div_small, N.add_0_l, IH by done.
Qed.

(** * Most significant byte first *)

(** [to_be_bytes] and [from_be_bytes], [to_big_endian] and [from_big_endian]. *)
Definition be_bytes (n : nat) (v : N) : bytes := rev (le_bytes n v).
Definition of_be_bytes (bs : bytes) : N := of_le_bytes (rev bs).
Lemma length_be_bytes n v : length (be_bytes n v) = n.
Proof. unfold be_bytes. by rewrite length_rev, length_le_bytes. Qed.
Lemma of_be_bytes_be_bytes n v : v < 256 ^ N.of_nat n -> of_be_bytes (be_bytes n v) = v.
Proof. intros H. unfold of_be_bytes, be_bytes. by rewrite rev_involutive, of_le_bytes_le_bytes. Qed.

(** * Ranges of a byte string *)

(** [&s[i..i + n]]. *)
Definition slice (i n : nat) (s : bytes) : bytes := take n (drop i s).

Lemma length_slice i n s : (i + n <= length s)%nat -> length (slice i n s) = n.
Proof. intros H. unfold slice. rewrite length_take, length_drop. lia. Qed.

Lemma lookup_slice i n s j : (j < n)%nat -> slice i n s !! j = s !! (i + j)%nat.
Proof. intros H. unfold slice. by rewrite lookup_take_lt, lookup_drop. Qed.
Lemma lookup_slice_ge i n s j : (n <= j)%nat -> slice i n s !! j = None.
Proof. intros H. apply lookup_ge_None. unfold slice. rewrite length_take. lia. Qed.

Lemma slice_slice i n j k s : (j + k <= n)%nat -> slice j k (slice i n s) = slice (i + j) k s.
Proof.
  intros H. apply list_eq. intros x. destruct (decide (x < k)%nat).
  - rewrite !lookup_slice by lia. f_equal. lia.
  - by rewrite !lookup_slice_ge by lia.
Qed.

(** What is written is read back; other ranges are untouched. *)
Lemma slice_inserts_eq i bs s : (i + length bs <= length s)%nat -> slice i (length bs) (list_inserts i bs s) = bs.
Proof.
  intros H. apply list_eq. intros j. destruct (decide (j < length bs)%nat).
  - rewrite lookup_slice, list_lookup_inserts by lia. f_equal. lia.
  - rewrite lookup_slice_ge by lia. symmetry. apply lookup_ge_None. lia.
Qed.
Lemma slice_inserts_ne i bs s j n : (j + n <= i \/ i + length bs <= j)%nat ->
  slice j n (list_inserts i bs s) = slice j n s.
Proof.
  intros H. apply list_eq. intros x. destruct (decide (x < n)%nat).
  - rewrite !lookup_slice by done. destruct H; [apply list_lookup_inserts_lt|apply list_lookup_inserts_ge]; lia.
  - by rewrite !lookup_slice_ge by lia.
Qed.
(** A write inside a range is a write in the range. *)
Lemma slice_inserts_in i n j bs s : (j + length bs <= n)%nat -> (i + n <= length s)%nat ->
  slice i n (list_inserts (i + j) bs s) = list_inserts j bs (slice i n s).
Proof.
  intros H Hs. apply list_eq. intros x. destruct (decide (x < n)%nat).
  - rewrite lookup_slice by done. destruct (decide (x < j)%nat).
    { rewrite !list_lookup_inserts_lt, lookup_slice by lia. done. }
    destruct (decide (x < j + length bs)%nat).
    + rewrite !list_lookup_inserts by (rewrite ?length_slice; lia). f_equal. lia.
    + rewrite !list_lookup_inserts_ge, lookup_slice by lia. done.
  - rewrite lookup_slice_ge by lia. symmetry. apply lookup_ge_None. rewrite length_inserts, length_slice; lia.
Qed.

(** * UTF-8 *)

(** [from_utf8]: whether bytes are the encoding of a string. *)
Definition between (a b : N) (x : byte) : bool := (a <=? Byte.to_N x)%N && (Byte.to_N x <=? b)%N.
Definition cont : byte -> bool := between 0x80 0xbf.
Fixpoint utf8_valid (bs : bytes) : bool :=
  match bs with
  | [] => true
  | a :: bs1 =>
      if between 0 0x7f a then utf8_valid bs1
      else match bs1 with
      | [] => false
      | b :: bs2 =>
          if between 0xc2 0xdf a && cont b then utf8_valid bs2
          else match bs2 with
          | [] => false
          | c :: bs3 =>
              if (between 0xe0 0xe0 a && between 0xa0 0xbf b || between 0xe1 0xec a && cont b || between 0xed 0xed a && between 0x80 0x9f b
                  || between 0xee 0xef a && cont b) && cont c then utf8_valid bs3
              else match bs3 with
              | [] => false
              | d :: bs4 =>
                  (between 0xf0 0xf0 a && between 0x90 0xbf b || between 0xf1 0xf3 a && cont b || between 0xf4 0xf4 a && between 0x80 0x8f b)
                  && cont c && cont d && utf8_valid bs4
              end
          end
      end
  end.

(** ASCII is its own encoding. *)
Lemma utf8_ascii bs : Forall (fun b => between 0 0x7f b = true) bs -> utf8_valid bs = true.
Proof. induction 1 as [|b bs Hb _ IH]; [done|]. cbn [utf8_valid]. by rewrite Hb. Qed.
