(* ===== verification/Syntax.v ===== *)
(** Raw and typed Michelson syntax.

    Models [contrib/mir/src/lexer.rs] (primitives), [ast/annotations.rs],
    [ast/micheline.rs], [ast.rs] (types, values, instructions),
    [ast/overloads.rs], [ast/or.rs] and the data of [ast/michelson_*.rs].

    Names: a Rust variant [Type::Nat] is [T_Nat], [TypedValue::Nat] is [V_Nat],
    [Instruction::Nat] is [I_Nat], [Prim::NAT] is [P_NAT] and
    [Micheline::Int] is [M_Int].  [BigInt] is [Z], [BigUint] is [N], the machine
    integers are [Z] or [nat] with their range stated where it matters,
    [String] and [Vec<u8>] are byte lists, boxes and [Rc]s are their contents. *)

From S2P Require Import Prelude.
#[local] Set Warnings "-register-all".

(** * Primitives (lexer.rs, [defprim!]) *)

(** In the order of the source, which is the order of the binary encoding. *)
Inductive Prim : Set :=
  | P_parameter | P_storage | P_code | P_False | P_Elt | P_Left
  | P_None | P_Pair | P_Right | P_Some | P_True | P_Unit
  | P_PACK | P_UNPACK | P_BLAKE2B | P_SHA256 | P_SHA512 | P_ABS
  | P_ADD | P_AMOUNT | P_AND | P_BALANCE | P_CAR | P_CDR
  | P_CHECK_SIGNATURE | P_COMPARE | P_CONCAT | P_CONS
  | P_CREATE_ACCOUNT | P_CREATE_CONTRACT | P_IMPLICIT_ACCOUNT | P_DIP
  | P_DROP | P_DUP | P_EDIV | P_EMPTY_MAP | P_EMPTY_SET | P_EQ
  | P_EXEC | P_FAILWITH | P_GE | P_GET | P_GT | P_HASH_KEY
  | P_IF | P_IF_CONS | P_IF_LEFT | P_IF_NONE | P_INT | P_LAMBDA
  | P_LE | P_LEFT | P_LOOP | P_LSL | P_LSR | P_LT | P_MAP
  | P_MEM | P_MUL | P_NEG | P_NEQ | P_NIL | P_NONE | P_NOT
  | P_NOW | P_OR | P_PAIR | P_PUSH | P_RIGHT | P_SIZE
  | P_SOME | P_SOURCE | P_SENDER | P_SELF | P_STEPS_TO_QUOTA
  | P_SUB | P_SWAP | P_TRANSFER_TOKENS | P_SET_DELEGATE | P_UNIT
  | P_UPDATE | P_XOR | P_ITER | P_LOOP_LEFT | P_ADDRESS
  | P_CONTRACT | P_ISNAT | P_CAST | P_RENAME | P_bool
  | P_contract | P_int | P_key | P_key_hash | P_lambda | P_list
  | P_map | P_big_map | P_nat | P_option | P_or | P_pair
  | P_set | P_signature | P_string | P_bytes | P_mutez
  | P_timestamp | P_unit | P_operation | P_address | P_SLICE
  | P_DIG | P_DUG | P_EMPTY_BIG_MAP | P_APPLY | P_chain_id
  | P_CHAIN_ID | P_LEVEL | P_SELF_ADDRESS | P_never | P_NEVER
  | P_UNPAIR | P_VOTING_POWER | P_TOTAL_VOTING_POWER | P_KECCAK
  | P_SHA3 | P_PAIRING_CHECK | P_bls12_381_g1 | P_bls12_381_g2
  | P_bls12_381_fr | P_sapling_state | P_sapling_transaction_deprecated
  | P_SAPLING_EMPTY_STATE | P_SAPLING_VERIFY_UPDATE | P_ticket
  | P_TICKET_DEPRECATED | P_READ_TICKET | P_SPLIT_TICKET
  | P_JOIN_TICKETS | P_GET_AND_UPDATE | P_chest | P_chest_key
  | P_OPEN_CHEST | P_VIEW | P_view | P_constant | P_SUB_MUTEZ
  | P_tx_rollup_l2_address | P_MIN_BLOCK_TIME | P_sapling_transaction
  | P_EMIT | P_Lambda_rec | P_LAMBDA_REC | P_TICKET | P_BYTES
  | P_NAT
  | P_Transfer_tokens | P_Set_delegate | P_Create_contract | P_Emit.

(** Every primitive in declaration order: the position is the discriminant. *)
Definition all_prims : list Prim := [
   P_parameter; P_storage; P_code; P_False; P_Elt; P_Left; P_None; P_Pair; P_Right; P_Some;
   P_True; P_Unit; P_PACK; P_UNPACK; P_BLAKE2B; P_SHA256; P_SHA512; P_ABS; P_ADD; P_AMOUNT;
   P_AND; P_BALANCE; P_CAR; P_CDR; P_CHECK_SIGNATURE; P_COMPARE; P_CONCAT; P_CONS;
   P_CREATE_ACCOUNT; P_CREATE_CONTRACT; P_IMPLICIT_ACCOUNT; P_DIP; P_DROP; P_DUP; P_EDIV;
   P_EMPTY_MAP; P_EMPTY_SET; P_EQ; P_EXEC; P_FAILWITH; P_GE; P_GET; P_GT; P_HASH_KEY; P_IF;
   P_IF_CONS; P_IF_LEFT; P_IF_NONE; P_INT; P_LAMBDA; P_LE; P_LEFT; P_LOOP; P_LSL; P_LSR; P_LT;
   P_MAP; P_MEM; P_MUL; P_NEG; P_NEQ; P_NIL; P_NONE; P_NOT; P_NOW; P_OR; P_PAIR; P_PUSH;
   P_RIGHT; P_SIZE; P_SOME; P_SOURCE; P_SENDER; P_SELF; P_STEPS_TO_QUOTA; P_SUB; P_SWAP;
   P_TRANSFER_TOKENS; P_SET_DELEGATE; P_UNIT; P_UPDATE; P_XOR; P_ITER; P_LOOP_LEFT; P_ADDRESS;
   P_CONTRACT; P_ISNAT; P_CAST; P_RENAME; P_bool; P_contract; P_int; P_key; P_key_hash;
   P_lambda; P_list; P_map; P_big_map; P_nat; P_option; P_or; P_pair; P_set; P_signature;
   P_string; P_bytes; P_mutez; P_timestamp; P_unit; P_operation; P_address; P_SLICE; P_DIG;
   P_DUG; P_EMPTY_BIG_MAP; P_APPLY; P_chain_id; P_CHAIN_ID; P_LEVEL; P_SELF_ADDRESS; P_never;
   P_NEVER; P_UNPAIR; P_VOTING_POWER; P_TOTAL_VOTING_POWER; P_KECCAK; P_SHA3; P_PAIRING_CHECK;
   P_bls12_381_g1; P_bls12_381_g2; P_bls12_381_fr; P_sapling_state;
   P_sapling_transaction_deprecated; P_SAPLING_EMPTY_STATE; P_SAPLING_VERIFY_UPDATE; P_ticket;
   P_TICKET_DEPRECATED; P_READ_TICKET; P_SPLIT_TICKET; P_JOIN_TICKETS; P_GET_AND_UPDATE;
   P_chest; P_chest_key; P_OPEN_CHEST; P_VIEW; P_view; P_constant; P_SUB_MUTEZ;
   P_tx_rollup_l2_address; P_MIN_BLOCK_TIME; P_sapling_transaction; P_EMIT; P_Lambda_rec;
   P_LAMBDA_REC; P_TICKET; P_BYTES; P_NAT; P_Transfer_tokens; P_Set_delegate; P_Create_contract;
   P_Emit].

(** [*self as u8]. *)
Definition prim_code (p : Prim) : nat :=
  match p with
   | P_parameter => 0 | P_storage => 1 | P_code => 2 | P_False => 3 | P_Elt => 4 | P_Left => 5
   | P_None => 6 | P_Pair => 7 | P_Right => 8 | P_Some => 9 | P_True => 10 | P_Unit => 11
   | P_PACK => 12 | P_UNPACK => 13 | P_BLAKE2B => 14 | P_SHA256 => 15 | P_SHA512 => 16
   | P_ABS => 17 | P_ADD => 18 | P_AMOUNT => 19 | P_AND => 20 | P_BALANCE => 21 | P_CAR => 22
   | P_CDR => 23 | P_CHECK_SIGNATURE => 24 | P_COMPARE => 25 | P_CONCAT => 26 | P_CONS => 27
   | P_CREATE_ACCOUNT => 28 | P_CREATE_CONTRACT => 29 | P_IMPLICIT_ACCOUNT => 30 | P_DIP => 31
   | P_DROP => 32 | P_DUP => 33 | P_EDIV => 34 | P_EMPTY_MAP => 35 | P_EMPTY_SET => 36
   | P_EQ => 37 | P_EXEC => 38 | P_FAILWITH => 39 | P_GE => 40 | P_GET => 41 | P_GT => 42
   | P_HASH_KEY => 43 | P_IF => 44 | P_IF_CONS => 45 | P_IF_LEFT => 46 | P_IF_NONE => 47
   | P_INT => 48 | P_LAMBDA => 49 | P_LE => 50 | P_LEFT => 51 | P_LOOP => 52 | P_LSL => 53
   | P_LSR => 54 | P_LT => 55 | P_MAP => 56 | P_MEM => 57 | P_MUL => 58 | P_NEG => 59
   | P_NEQ => 60 | P_NIL => 61 | P_NONE => 62 | P_NOT => 63 | P_NOW => 64 | P_OR => 65
   | P_PAIR => 66 | P_PUSH => 67 | P_RIGHT => 68 | P_SIZE => 69 | P_SOME => 70 | P_SOURCE => 71
   | P_SENDER => 72 | P_SELF => 73 | P_STEPS_TO_QUOTA => 74 | P_SUB => 75 | P_SWAP => 76
   | P_TRANSFER_TOKENS => 77 | P_SET_DELEGATE => 78 | P_UNIT => 79 | P_UPDATE => 80
   | P_XOR => 81 | P_ITER => 82 | P_LOOP_LEFT => 83 | P_ADDRESS => 84 | P_CONTRACT => 85
   | P_ISNAT => 86 | P_CAST => 87 | P_RENAME => 88 | P_bool => 89 | P_contract => 90
   | P_int => 91 | P_key => 92 | P_key_hash => 93 | P_lambda => 94 | P_list => 95 | P_map => 96
   | P_big_map => 97 | P_nat => 98 | P_option => 99 | P_or => 100 | P_pair => 101 | P_set => 102
   | P_signature => 103 | P_string => 104 | P_bytes => 105 | P_mutez => 106 | P_timestamp => 107
   | P_unit => 108 | P_operation => 109 | P_address => 110 | P_SLICE => 111 | P_DIG => 112
   | P_DUG => 113 | P_EMPTY_BIG_MAP => 114 | P_APPLY => 115 | P_chain_id => 116
   | P_CHAIN_ID => 117 | P_LEVEL => 118 | P_SELF_ADDRESS => 119 | P_never => 120
   | P_NEVER => 121 | P_UNPAIR => 122 | P_VOTING_POWER => 123 | P_TOTAL_VOTING_POWER => 124
   | P_KECCAK => 125 | P_SHA3 => 126 | P_PAIRING_CHECK => 127 | P_bls12_381_g1 => 128
   | P_bls12_381_g2 => 129 | P_bls12_381_fr => 130 | P_sapling_state => 131
   | P_sapling_transaction_deprecated => 132 | P_SAPLING_EMPTY_STATE => 133
   | P_SAPLING_VERIFY_UPDATE => 134 | P_ticket => 135 | P_TICKET_DEPRECATED => 136
   | P_READ_TICKET => 137 | P_SPLIT_TICKET => 138 | P_JOIN_TICKETS => 139
   | P_GET_AND_UPDATE => 140 | P_chest => 141 | P_chest_key => 142 | P_OPEN_CHEST => 143
   | P_VIEW => 144 | P_view => 145 | P_constant => 146 | P_SUB_MUTEZ => 147
   | P_tx_rollup_l2_address => 148 | P_MIN_BLOCK_TIME => 149 | P_sapling_transaction => 150
   | P_EMIT => 151 | P_Lambda_rec => 152 | P_LAMBDA_REC => 153 | P_TICKET => 154
   | P_BYTES => 155 | P_NAT => 156 | P_Transfer_tokens => 157 | P_Set_delegate => 158
   | P_Create_contract => 159 | P_Emit => 160
  end.

Lemma prim_code_lookup p : all_prims !! prim_code p = Some p.
Proof. by destruct p. Qed.

#[global] Instance prim_code_inj : Inj (=) (=) prim_code.
Proof.
  intros p q H. pose proof (prim_code_lookup p) as Hp.
  rewrite H, prim_code_lookup in Hp. congruence.
Qed.

#[global] Instance Prim_eq_dec : EqDecision Prim := fun p q =>
  match decide (prim_code p = prim_code q) with
  | left H => left (inj prim_code p q H)
  | right H => right (fun E => H (f_equal prim_code E))
  end.

(** * Annotations and Micheline *)

Inductive Annotation : Set :=
  | Ann_Special (s : bytes)
  | Ann_Field (s : bytes)
  | Ann_Variable (s : bytes)
  | Ann_Type (s : bytes).

#[global] Instance Annotation_eq_dec : EqDecision Annotation.
Proof. solve_decision. Defined.

Abbreviation Annotations := (list Annotation).
Definition NO_ANNS : Annotations := [].

Inductive Micheline : Set :=
  | M_Int (z : Z)
  | M_String (s : bytes)
  | M_Bytes (b : bytes)
  | M_App (p : Prim) (args : list Micheline) (anns : Annotations)
  | M_Seq (l : list Micheline).

Definition prim0 (p : Prim) : Micheline := M_App p [] NO_ANNS.
Definition prim1 (p : Prim) (a : Micheline) : Micheline := M_App p [a] NO_ANNS.
Definition prim2 (p : Prim) (a b : Micheline) : Micheline := M_App p [a; b] NO_ANNS.
Definition prim3 (p : Prim) (a b c : Micheline) : Micheline := M_App p [a; b; c] NO_ANNS.

(** Structural induction through the nested argument lists. *)
Lemma Micheline_ind' (P : Micheline -> Prop) :
  (forall z, P (M_Int z)) ->
  (forall s, P (M_String s)) ->
  (forall b, P (M_Bytes b)) ->
  (forall p args anns, Forall P args -> P (M_App p args anns)) ->
  (forall l, Forall P l -> P (M_Seq l)) ->
  forall m, P m.
Proof.
  intros HI HS HB HA HQ. fix IH 1. intros [z|s|b|p args anns|l].
  - apply HI.
  - apply HS.
  - apply HB.
  - apply HA. induction args; constructor; [apply IH|assumption].
  - apply HQ. induction l; constructor; [apply IH|assumption].
Qed.

(** [Annotations::get_single_field_ann]: at most one field annotation. *)
Fixpoint get_single_field_ann_from (res : option bytes) (anns : Annotations)
  : outcome bytes (option bytes) :=
  match anns with
  | [] => Ok res
  | Ann_Field s :: anns =>
      match res with
      | None => get_single_field_ann_from (Some s) anns
      | Some _ => Err s
      end
  | (Ann_Special _ | Ann_Type _ | Ann_Variable _) :: anns =>
      get_single_field_ann_from res anns
  end.
Definition get_single_field_ann (anns : Annotations) : outcome bytes (option bytes) :=
  get_single_field_ann_from None anns.

(** * Types *)

Inductive Type_ : Set :=
  | T_Nat | T_Int | T_Bool | T_Mutez | T_String | T_Unit | T_Never
  | T_Pair (a b : Type_)
  | T_Option (t : Type_)
  | T_List (t : Type_)
  | T_Operation
  | T_Set (t : Type_)
  | T_Map (k v : Type_)
  | T_BigMap (k v : Type_)
  | T_Or (a b : Type_)
  | T_Contract (t : Type_)
  | T_Address | T_ChainId | T_Bytes | T_Key | T_Signature | T_KeyHash
  | T_Lambda (a b : Type_)
  | T_Ticket (t : Type_)
  | T_Timestamp | T_Bls12381Fr | T_Bls12381G1 | T_Bls12381G2.

#[global] Instance Type_eq_dec : EqDecision Type_.
Proof. solve_decision. Defined.

(** [Type::size_for_gas]; the [usize] cannot overflow, as it counts the nodes of
    a tree held in memory. *)
Fixpoint size_for_gas (t : Type_) : N :=
  match t with
  | T_Nat | T_Int | T_Bool | T_Mutez | T_String | T_Unit | T_Never | T_Operation | T_Address
  | T_ChainId | T_Bytes | T_Key | T_Signature | T_KeyHash | T_Timestamp | T_Bls12381Fr
  | T_Bls12381G1 | T_Bls12381G2 => 1
  | T_Pair a b | T_Or a b | T_Map a b | T_BigMap a b | T_Lambda a b =>
      1 + size_for_gas a + size_for_gas b
  | T_Option x | T_List x | T_Set x | T_Contract x | T_Ticket x => 1 + size_for_gas x
  end.

(** [LinearizePairIter]: the right comb of a pair type as a list. *)
Fixpoint linearize_pair (t : Type_) : list Type_ :=
  match t with
  | T_Pair a b => a :: linearize_pair b
  | t => [t]
  end.

(** [IntoMicheline for &Type]: a comb is flattened into one application of
    [pair]; see [type_into_micheline_pair]. *)
Definition pair_args (t : Type_) (m : Micheline) : list Micheline :=
  match t, m with
  | T_Pair _ _, M_App _ args _ => args
  | _, m => [m]
  end.

Fixpoint type_into_micheline (t : Type_) : Micheline :=
  match t with
  | T_Nat => prim0 P_nat
  | T_Int => prim0 P_int
  | T_Bool => prim0 P_bool
  | T_Mutez => prim0 P_mutez
  | T_String => prim0 P_string
  | T_Unit => prim0 P_unit
  | T_Operation => prim0 P_operation
  | T_Address => prim0 P_address
  | T_ChainId => prim0 P_chain_id
  | T_Bytes => prim0 P_bytes
  | T_Key => prim0 P_key
  | T_Signature => prim0 P_signature
  | T_Timestamp => prim0 P_timestamp
  | T_KeyHash => prim0 P_key_hash
  | T_Never => prim0 P_never
  | T_Bls12381Fr => prim0 P_bls12_381_fr
  | T_Bls12381G1 => prim0 P_bls12_381_g1
  | T_Bls12381G2 => prim0 P_bls12_381_g2
  | T_Option x => prim1 P_option (type_into_micheline x)
  | T_List x => prim1 P_list (type_into_micheline x)
  | T_Set x => prim1 P_set (type_into_micheline x)
  | T_Contract x => prim1 P_contract (type_into_micheline x)
  | T_Ticket x => prim1 P_ticket (type_into_micheline x)
  | T_Pair a b => M_App P_pair (type_into_micheline a :: pair_args b (type_into_micheline b)) NO_ANNS
  | T_Map k v => prim2 P_map (type_into_micheline k) (type_into_micheline v)
  | T_BigMap k v => prim2 P_big_map (type_into_micheline k) (type_into_micheline v)
  | T_Or a b => prim2 P_or (type_into_micheline a) (type_into_micheline b)
  | T_Lambda a b => prim2 P_lambda (type_into_micheline a) (type_into_micheline b)
  end.

(** The arguments of [pair] are the linearized components, each converted, as
    [LinearizePairIter(..).map(..)] yields them. *)
Lemma type_into_micheline_pair a b :
  type_into_micheline (T_Pair a b) =
  M_App P_pair (map type_into_micheline (linearize_pair (T_Pair a b))) NO_ANNS.
Proof.
  revert a. induction b; intros a'; try reflexivity.
  cbn [type_into_micheline linearize_pair map pair_args] in *.
  specialize (IHb2 b1). by injection IHb2 as ->.
Qed.

(** * Hashes, keys, addresses (ast/michelson_*.rs)

    The payloads are the raw bytes the Rust newtypes over [Vec<u8>] hold. *)

Inductive KeyHash : Set :=
  | Tz1 (h : bytes) | Tz2 (h : bytes) | Tz3 (h : bytes) | Tz4 (h : bytes).

Inductive Key : Set :=
  | Key_Ed25519 (k : bytes) | Key_Secp256k1 (k : bytes) | Key_P256 (k : bytes) | Key_Bls (k : bytes).

Inductive Signature : Set :=
  | Sig_Ed25519 (s : bytes) | Sig_Secp256k1 (s : bytes) | Sig_P256 (s : bytes)
  | Sig_Bls (s : bytes) | Sig_Generic (s : bytes).

Inductive AddressHash : Set :=
  | Implicit (k : KeyHash) | Kt1 (h : bytes) | Sr1 (h : bytes).

(** [Entrypoint(String)]. *)
Record Entrypoint : Set := mkEntrypoint { ep_name : bytes }.

Record Address : Set := mkAddress { addr_hash : AddressHash; addr_entrypoint : Entrypoint }.

#[global] Instance KeyHash_eq_dec : EqDecision KeyHash.
Proof. solve_decision. Defined.
#[global] Instance Key_eq_dec : EqDecision Key.
Proof. solve_decision. Defined.
#[global] Instance Signature_eq_dec : EqDecision Signature.
Proof. solve_decision. Defined.
#[global] Instance AddressHash_eq_dec : EqDecision AddressHash.
Proof. solve_decision. Defined.
#[global] Instance Entrypoint_eq_dec : EqDecision Entrypoint.
Proof. solve_decision. Defined.
#[global] Instance Address_eq_dec : EqDecision Address.
Proof. solve_decision. Defined.
#[global] Program Instance Entrypoint_countable : Countable Entrypoint :=
  inj_countable' ep_name mkEntrypoint _.
Next Obligation. by intros []. Qed.

(** [type Entrypoints = HashMap<Entrypoint, Type>]. *)
Abbreviation Entrypoints := (gmap Entrypoint Type_).

(** [DEFAULT_EP_NAME], [Entrypoint::default] and [is_default]. *)
Definition default_ep : Entrypoint := mkEntrypoint (str "default").
Definition is_default (e : Entrypoint) : bool := bool_decide (e = default_ep).

(** * Overloads (ast/overloads.rs) *)

Inductive ov_Add : Set :=
  | Add_IntInt | Add_NatNat | Add_IntNat | Add_NatInt | Add_MutezMutez
  | Add_Bls12381G1 | Add_Bls12381G2 | Add_Bls12381Fr.
Inductive ov_And : Set := And_Bool | And_NatNat | And_IntNat | And_Bytes.
Inductive ov_Or : Set := Or_Bool | Or_Nat | Or_Bytes.
Inductive ov_Xor : Set := Xor_Bool | Xor_Nat | Xor_Bytes.
Inductive ov_Not : Set := Not_Bool | Not_Nat | Not_Int | Not_Bytes.
Inductive ov_Mem : Set := Mem_Set | Mem_Map | Mem_BigMap.
Inductive ov_Mul : Set :=
  | Mul_NatNat | Mul_NatInt | Mul_IntNat | Mul_IntInt | Mul_MutezNat | Mul_NatMutez
  | Mul_Bls12381G1Bls12381Fr | Mul_Bls12381G2Bls12381Fr | Mul_Bls12381FrBls12381Fr
  | Mul_NatBls12381Fr | Mul_IntBls12381Fr | Mul_Bls12381FrNat | Mul_Bls12381FrInt.
Inductive ov_Neg : Set := Neg_Nat | Neg_Int | Neg_Bls12381G1 | Neg_Bls12381G2 | Neg_Bls12381Fr.
Inductive ov_Get : Set := Get_Map | Get_BigMap.
Inductive ov_Update : Set := Update_Set | Update_Map | Update_BigMap.
Inductive ov_GetAndUpdate : Set := GetAndUpdate_Map | GetAndUpdate_BigMap.
Inductive ov_Size : Set := Size_String | Size_Bytes | Size_List | Size_Set | Size_Map.
Inductive ov_Iter : Set := Iter_List | Iter_Set | Iter_Map.
Inductive ov_Slice : Set := Slice_String | Slice_Bytes.
Inductive ov_Concat : Set :=
  | Concat_TwoStrings | Concat_TwoBytes | Concat_ListOfStrings | Concat_ListOfBytes.
Inductive ov_Int : Set := Int_Nat | Int_Bls12381Fr | Int_Bytes.
Inductive ov_Bytes : Set := Bytes_Int | Bytes_Nat.
Inductive ov_Map : Set := Map_List | Map_Option | Map_Map.

(** * Values and instructions (ast.rs, ast/michelson_{lambda,operation}.rs, ast/big_map.rs) *)

(** [Or<L, R>] of ast/or.rs. *)
Inductive Or (L R : Type) : Type :=
  | Or_Left (l : L)
  | Or_Right (r : R).
Arguments Or_Left {L R} _.
Arguments Or_Right {L R} _.

(** A [BTreeSet] or [BTreeMap] is the list of its elements in ascending order; a
    [MichelsonList] is the list of its elements from the head; [Fr], [G1] and
    [G2] are represented by their serialization ([to_bytes]). *)
Inductive TypedValue : Type :=
  | V_Int (z : Z)
  | V_Nat (n : N)
  | V_Mutez (z : Z)
  | V_Bool (b : bool)
  | V_String (s : bytes)
  | V_Unit
  | V_Pair (l r : TypedValue)
  | V_Option (o : option TypedValue)
  | V_List (l : list TypedValue)
  | V_Set (l : list TypedValue)
  | V_Map (m : list (TypedValue * TypedValue))
  | V_BigMap (m : BigMap)
  | V_Or (o : Or TypedValue TypedValue)
  | V_Address (a : Address)
  | V_ChainId (c : bytes)
  | V_Contract (a : Address)
  | V_Bytes (b : bytes)
  | V_Key (k : Key)
  | V_Signature (s : Signature)
  | V_Lambda (c : Closure)
  | V_KeyHash (k : KeyHash)
  | V_Operation (o : OperationInfo)
  | V_Ticket (t : Ticket)
  | V_Timestamp (z : Z)
  | V_Bls12381Fr (x : bytes)
  | V_Bls12381G1 (x : bytes)
  | V_Bls12381G2 (x : bytes)
with BigMap : Type :=
  | mkBigMap (id : option Z) (overlay : list (TypedValue * option TypedValue))
      (key_type value_type : Type_)
with Ticket : Type :=
  | mkTicket (ticketer : AddressHash) (content : TypedValue) (amount : N)
with Closure : Type :=
  | Closure_Lambda (l : Lambda)
  | Closure_Apply (arg_ty : Type_) (arg_val : TypedValue) (closure : Closure)
with Lambda : Type :=
  | Lambda_Lambda (micheline_code : Micheline) (code : list Instruction)
  | Lambda_LambdaRec (in_ty out_ty : Type_) (micheline_code : Micheline) (code : list Instruction)
with OperationInfo : Type :=
  | mkOperationInfo (operation : Operation) (counter : Z)
with Operation : Type :=
  | Op_TransferTokens (param : TypedValue) (destination_address : Address) (amount : Z)
  | Op_SetDelegate (delegate : option KeyHash)
  | Op_Emit (tag : option bytes) (value : TypedValue) (arg_ty : Or Type_ Micheline)
  | Op_CreateContract (delegate : option KeyHash) (amount : Z) (storage : TypedValue)
      (code : ContractScript) (micheline_code : Micheline)
with ContractScript : Type :=
  | mkContractScript (parameter storage : Type_) (code : Instruction)
with Instruction : Type :=
  | I_Add (o : ov_Add)
  | I_Mul (o : ov_Mul)
  | I_Neg (o : ov_Neg)
  | I_SubMutez
  | I_Dip (n : option nat) (nested : list Instruction)
  | I_Drop (n : option nat)
  | I_Dup (n : option nat)
  | I_Dig (n : nat)
  | I_Dug (n : nat)
  | I_Gt | I_Ge | I_Eq | I_Neq | I_Lt | I_Le
  | I_If (t f : list Instruction)
  | I_IfNone (when_none when_some : list Instruction)
  | I_Int (o : ov_Int)
  | I_Nat
  | I_Bytes (o : ov_Bytes)
  | I_Abs
  | I_IsNat
  | I_Loop (nested : list Instruction)
  | I_Push (v : TypedValue)
  | I_Swap
  | I_Failwith (t : Type_)
  | I_Never
  | I_Unit
  | I_Car
  | I_Cdr
  | I_Pair
  | I_PairN (n : nat)
  | I_ISome
  | I_None
  | I_Compare
  | I_Amount
  | I_Nil
  | I_EmptySet
  | I_EmptyBigMap (k v : Type_)
  | I_Mem (o : ov_Mem)
  | I_Get (o : ov_Get)
  | I_GetN (n : nat)
  | I_Update (o : ov_Update)
  | I_GetAndUpdate (o : ov_GetAndUpdate)
  | I_Concat (o : ov_Concat)
  | I_Size (o : ov_Size)
  | I_UpdateN (n : nat)
  | I_Seq (l : list Instruction)
  | I_Unpair
  | I_UnpairN (n : nat)
  | I_Cons
  | I_And (o : ov_And)
  | I_Or (o : ov_Or)
  | I_Xor (o : ov_Xor)
  | I_Not (o : ov_Not)
  | I_IfCons (when_cons when_nil : list Instruction)
  | I_Iter (o : ov_Iter) (nested : list Instruction)
  | I_IfLeft (when_left when_right : list Instruction)
  | I_ChainId
  | I_ISelf (e : Entrypoint)
  | I_Pack
  | I_Unpack (t : Type_)
  | I_CheckSignature
  | I_TransferTokens
  | I_SetDelegate
  | I_Address
  | I_Slice (o : ov_Slice)
  | I_Left
  | I_Right
  | I_Lambda (l : Lambda)
  | I_Exec
  | I_Ticket
  | I_HashKey
  | I_Apply (arg_ty : Type_)
  | I_ReadTicket
  | I_SplitTicket
  | I_JoinTickets
  | I_LoopLeft (nested : list Instruction)
  | I_Blake2b | I_Keccak | I_Sha256 | I_Sha3 | I_Sha512
  | I_Balance
  | I_Level
  | I_MinBlockTime
  | I_SelfAddress
  | I_Sender
  | I_Source
  | I_Now
  | I_ImplicitAccount
  | I_TotalVotingPower
  | I_VotingPower
  | I_Contract (t : Type_) (e : Entrypoint)
  | I_PairingCheck
  | I_Emit (tag : option bytes) (arg_ty : Or Type_ Micheline)
  | I_CreateContract (cs : ContractScript) (m : Micheline)
  | I_Map (o : ov_Map) (nested : list Instruction).

Definition bm_id (m : BigMap) : option Z := let 'mkBigMap i _ _ _ := m in i.
Definition bm_overlay (m : BigMap) : list (TypedValue * option TypedValue) :=
  let 'mkBigMap _ o _ _ := m in o.
Definition bm_key_type (m : BigMap) : Type_ := let 'mkBigMap _ _ k _ := m in k.
Definition bm_value_type (m : BigMap) : Type_ := let 'mkBigMap _ _ _ v := m in v.
Definition tk_ticketer (t : Ticket) : AddressHash := let 'mkTicket a _ _ := t in a.
Definition tk_content (t : Ticket) : TypedValue := let 'mkTicket _ c _ := t in c.
Definition tk_amount (t : Ticket) : N := let 'mkTicket _ _ n := t in n.
Definition cs_parameter (c : ContractScript) : Type_ := let 'mkContractScript p _ _ := c in p.
Definition cs_storage (c : ContractScript) : Type_ := let 'mkContractScript _ s _ := c in s.
Definition cs_code (c : ContractScript) : Instruction := let 'mkContractScript _ _ i := c in i.

(** [unwrap_ticket]: the pair a ticket is read as. *)
Definition unwrap_ticket (t : Ticket) : TypedValue :=
  V_Pair (V_Address (mkAddress (tk_ticketer t) default_ep))
    (V_Pair (tk_content t) (V_Nat (tk_amount t))).
