(* ===== verification/Comparable.v ===== *)
(** The ordering of typed values.

    Models [contrib/mir/src/ast/comparable.rs] ([PartialOrd]/[Ord] for
    [TypedValue]) and the derived orderings of addresses, key hashes, keys and
    signatures it delegates to.  The main facts: on the values of a comparable
    type [partial_cmp] is defined, decides equality, is antisymmetric and
    transitive, so that [Ord::cmp] never panics there and [BTreeMap]s keyed by
    such values behave as finite maps. *)

From S2P Require Import Prelude Syntax.

(** * Component orders *)

(** Lexicographic combination, as derived for tuples and structs. *)
Definition cmp_then (c d : comparison) : comparison :=
  match c with Eq => d | c => c end.

Definition byte_cmp (a b : byte) : comparison := N.compare (Byte.to_N a) (Byte.to_N b).

Fixpoint bytes_cmp (a b : bytes) : comparison :=
  match a, b with
  | [], [] => Eq
  | [], _ :: _ => Lt
  | _ :: _, [] => Gt
  | x :: a, y :: b => cmp_then (byte_cmp x y) (bytes_cmp a b)
  end.

Definition bool_cmp (a b : bool) : comparison :=
  match a, b with
  | false, true => Lt
  | true, false => Gt
  | _, _ => Eq
  end.

(** Derived [Ord] on an enum: the variant's position, then the payload. *)
Definition variant_cmp (i j : nat) (a b : bytes) : comparison :=
  cmp_then (Nat.compare i j) (bytes_cmp a b).

Definition KeyHash_parts (k : KeyHash) : nat * bytes :=
  match k with Tz1 h => (0, h) | Tz2 h => (1, h) | Tz3 h => (2, h) | Tz4 h => (3, h) end.
Definition Key_parts (k : Key) : nat * bytes :=
  match k with
  | Key_Ed25519 k => (0, k) | Key_Secp256k1 k => (1, k) | Key_P256 k => (2, k) | Key_Bls k => (3, k)
  end.
Definition Signature_parts (s : Signature) : nat * bytes :=
  match s with
  | Sig_Ed25519 s => (0, s) | Sig_Secp256k1 s => (1, s) | Sig_P256 s => (2, s)
  | Sig_Bls s => (3, s) | Sig_Generic s => (4, s)
  end.
Definition parts_cmp (a b : nat * bytes) : comparison := variant_cmp a.1 b.1 a.2 b.2.

Definition KeyHash_cmp (a b : KeyHash) : comparison := parts_cmp (KeyHash_parts a) (KeyHash_parts b).
Definition Key_cmp (a b : Key) : comparison := parts_cmp (Key_parts a) (Key_parts b).
Definition Signature_cmp (a b : Signature) : comparison :=
  parts_cmp (Signature_parts a) (Signature_parts b).

Definition AddressHash_cmp (a b : AddressHash) : comparison :=
  match a, b with
  | Implicit x, Implicit y => KeyHash_cmp x y
  | Implicit _, _ => Lt
  | Kt1 _, Implicit _ => Gt
  | Kt1 x, Kt1 y => bytes_cmp x y
  | Kt1 _, Sr1 _ => Lt
  | Sr1 x, Sr1 y => bytes_cmp x y
  | Sr1 _, _ => Gt
  end.

Definition Address_cmp (a b : Address) : comparison :=
  cmp_then (AddressHash_cmp (addr_hash a) (addr_hash b))
    (bytes_cmp (ep_name (addr_entrypoint a)) (ep_name (addr_entrypoint b))).

(** * Typed values *)

(** [PartialOrd::partial_cmp] for [TypedValue]. *)
Fixpoint partial_cmp (a b : TypedValue) {struct a} : option comparison :=
  match a, b with
  | V_Int x, V_Int y => Some (Z.compare x y)
  | V_Nat x, V_Nat y => Some (N.compare x y)
  | V_Mutez x, V_Mutez y => Some (Z.compare x y)
  | V_Bool x, V_Bool y => Some (bool_cmp x y)
  | V_String x, V_String y => Some (bytes_cmp x y)
  | V_Unit, V_Unit => Some Eq
  | V_Pair x1 x2, V_Pair y1 y2 =>
      match partial_cmp x1 y1 with
      | Some Eq => partial_cmp x2 y2
      | r => r
      end
  | V_Option x, V_Option y =>
      match x, y with
      | None, None => Some Eq
      | None, Some _ => Some Lt
      | Some _, None => Some Gt
      | Some x, Some y => partial_cmp x y
      end
  | V_Or x, V_Or y =>
      match x, y with
      | Or_Left x, Or_Left y => partial_cmp x y
      | Or_Left _, Or_Right _ => Some Lt
      | Or_Right _, Or_Left _ => Some Gt
      | Or_Right x, Or_Right y => partial_cmp x y
      end
  | V_Address x, V_Address y => Some (Address_cmp x y)
  | V_ChainId x, V_ChainId y => Some (bytes_cmp x y)
  | V_Bytes x, V_Bytes y => Some (bytes_cmp x y)
  | V_Key x, V_Key y => Some (Key_cmp x y)
  | V_Signature x, V_Signature y => Some (Signature_cmp x y)
  | V_KeyHash x, V_KeyHash y => Some (KeyHash_cmp x y)
  | V_Timestamp x, V_Timestamp y => Some (Z.compare x y)
  | _, _ => None
  end.

(** [Ord::cmp]. *)
Definition value_cmp {E} (a b : TypedValue) : outcome E comparison :=
  expect PIncomparable (partial_cmp a b).

(** [==] on two values known to be comparable: [JOIN_TICKETS] computes the cost
    of comparing the contents first, which panics on anything else. *)
Definition comparable_eqb (a b : TypedValue) : bool :=
  match partial_cmp a b with Some Eq => true | _ => false end.

(** * Values of comparable types *)

(** The comparable types: those [ensure_prop Comparable] accepts, see
    [TypeProps.ensure_prop_ok]. *)
Fixpoint comparable (t : Type_) : bool :=
  match t with
  | T_Nat | T_Int | T_Bool | T_Mutez | T_String | T_Unit | T_Never | T_Address | T_ChainId
  | T_Bytes | T_Key | T_Signature | T_KeyHash | T_Timestamp => true
  | T_Pair a b | T_Or a b => comparable a && comparable b
  | T_Option a => comparable a
  | _ => false
  end.

(** Membership in a comparable type. *)
Fixpoint comparable_value (t : Type_) (v : TypedValue) : bool :=
  match t, v with
  | T_Nat, V_Nat _ | T_Int, V_Int _ | T_Bool, V_Bool _ | T_Mutez, V_Mutez _
  | T_String, V_String _ | T_Unit, V_Unit | T_Address, V_Address _ | T_ChainId, V_ChainId _
  | T_Bytes, V_Bytes _ | T_Key, V_Key _ | T_Signature, V_Signature _ | T_KeyHash, V_KeyHash _
  | T_Timestamp, V_Timestamp _ => true
  | T_Pair a b, V_Pair x y => comparable_value a x && comparable_value b y
  | T_Or a b, V_Or (Or_Left x) => comparable_value a x
  | T_Or a b, V_Or (Or_Right y) => comparable_value b y
  | T_Option a, V_Option None => true
  | T_Option a, V_Option (Some x) => comparable_value a x
  | _, _ => false
  end.

(** * Order laws *)

(** A comparison function that is a total order, with [Eq] exactly equality. *)
Class TotalCmp {A} (f : A -> A -> comparison) : Prop := {
  cmp_eq a b : f a b = Eq <-> a = b;
  cmp_opp a b : f b a = CompOpp (f a b);
  cmp_trans a b c : f a b = Lt -> f b c = Lt -> f a c = Lt
}.

Lemma cmp_refl `{TotalCmp A f} a : f a a = Eq.
Proof. by apply cmp_eq. Qed.

(** The lexicographic combination of two total orders along a pair of
    projections that is jointly injective. *)
Lemma cmp_then_total {A B C} (f : B -> B -> comparison) (g : C -> C -> comparison)
    `{!TotalCmp f, !TotalCmp g} (p : A -> B) (q : A -> C) :
  (forall a b, p a = p b -> q a = q b -> a = b) ->
  TotalCmp (fun a b => cmp_then (f (p a) (p b)) (g (q a) (q b))).
Proof.
  intros Hinj. split.
  - intros a b. unfold cmp_then. destruct (f (p a) (p b)) eqn:E.
    + apply cmp_eq in E. rewrite cmp_eq. naive_solver.
    + split; [done|]. intros ->. by rewrite cmp_refl in E.
    + split; [done|]. intros ->. by rewrite cmp_refl in E.
  - intros a b. unfold cmp_then. rewrite (cmp_opp (p a)), (cmp_opp (q a)).
    by destruct (f (p a) (p b)).
  - intros a b c. unfold cmp_then.
    destruct (f (p a) (p b)) eqn:E1; destruct (f (p b) (p c)) eqn:E2; try done.
    + apply cmp_eq in E1 as ->, E2 as ->. rewrite cmp_refl. apply cmp_trans.
    + apply cmp_eq in E1 as ->. by rewrite E2.
    + apply cmp_eq in E2 as <-. by rewrite E1.
    + by rewrite (cmp_trans _ _ _ E1 E2).
Qed.

#[global] Instance Z_cmp_total : TotalCmp Z.compare.
Proof.
  split; [apply Z.compare_eq_iff|intros; apply Z.compare_antisym|].
  intros a b c. rewrite !Z.compare_lt_iff. lia.
Qed.
#[global] Instance N_cmp_total : TotalCmp N.compare.
Proof.
  split; [apply N.compare_eq_iff|intros; apply N.compare_antisym|].
  intros a b c. rewrite !N.compare_lt_iff. lia.
Qed.
#[global] Instance nat_cmp_total : TotalCmp Nat.compare.
Proof.
  split; [apply Nat.compare_eq_iff|intros; apply Nat.compare_antisym|].
  intros a b c. rewrite !Nat.compare_lt_iff. lia.
Qed.
#[global] Instance bool_cmp_total : TotalCmp bool_cmp.
Proof. split; [intros [] []|intros [] []|intros [] [] []]; cbn; naive_solver. Qed.

(** A total order pulled back along an injection. *)
Lemma total_cmp_inj {A B} (g : A -> B) (f : B -> B -> comparison) `{!TotalCmp f, !Inj (=) (=) g} :
  TotalCmp (fun a b => f (g a) (g b)).
Proof.
  split.
  - intros a b. rewrite cmp_eq. split; [apply inj, _|congruence].
  - intros. apply cmp_opp.
  - intros a b c. apply cmp_trans.
Qed.

#[global] Instance byte_to_N_inj : Inj (=) (=) Byte.to_N.
Proof. intros a b H. rewrite <- (byte_of_to_N a), <- (byte_of_to_N b). congruence. Qed.
#[global] Instance byte_cmp_total : TotalCmp byte_cmp.
Proof. apply (total_cmp_inj Byte.to_N N.compare). Qed.

#[global] Instance bytes_cmp_total : TotalCmp bytes_cmp.
Proof.
  split.
  - induction a as [|x a IH]; intros [|y b]; cbn; try done.
    unfold cmp_then. destruct (byte_cmp x y) eqn:E.
    + apply cmp_eq in E as ->. rewrite IH. split; congruence.
    + split; [done|]. intros [= -> ->]. by rewrite cmp_refl in E.
    + split; [done|]. intros [= -> ->]. by rewrite cmp_refl in E.
  - induction a as [|x a IH]; intros [|y b]; cbn; try done.
    rewrite (cmp_opp x). rewrite IH. by destruct (byte_cmp x y).
  - induction a as [|x a IH]; intros [|y b] [|z c]; cbn; try done.
    unfold cmp_then.
    destruct (byte_cmp x y) eqn:E1; destruct (byte_cmp y z) eqn:E2; try done.
    + apply cmp_eq in E1 as ->, E2 as ->. rewrite cmp_refl. apply IH.
    + apply cmp_eq in E1 as ->. by rewrite E2.
    + apply cmp_eq in E2 as <-. by rewrite E1.
    + by rewrite (cmp_trans _ _ _ E1 E2).
Qed.

#[global] Instance parts_cmp_total : TotalCmp parts_cmp.
Proof.
  apply (cmp_then_total Nat.compare bytes_cmp fst snd).
  intros [] []; naive_solver.
Qed.
#[global] Instance KeyHash_parts_inj : Inj (=) (=) KeyHash_parts.
Proof. intros [] []; naive_solver. Qed.
#[global] Instance Key_parts_inj : Inj (=) (=) Key_parts.
Proof. intros [] []; naive_solver. Qed.
#[global] Instance Signature_parts_inj : Inj (=) (=) Signature_parts.
Proof. intros [] []; naive_solver. Qed.
#[global] Instance KeyHash_cmp_total : TotalCmp KeyHash_cmp.
Proof. apply (total_cmp_inj KeyHash_parts parts_cmp). Qed.
#[global] Instance Key_cmp_total : TotalCmp Key_cmp.
Proof. apply (total_cmp_inj Key_parts parts_cmp). Qed.
#[global] Instance Signature_cmp_total : TotalCmp Signature_cmp.
Proof. apply (total_cmp_inj Signature_parts parts_cmp). Qed.

#[global] Instance AddressHash_cmp_total : TotalCmp AddressHash_cmp.
Proof.
  split.
  - intros [] []; cbn; rewrite ?cmp_eq; naive_solver.
  - intros [] []; cbn; done || apply cmp_opp.
  - intros [] [] []; cbn; try done; apply cmp_trans.
Qed.
#[global] Instance Address_cmp_total : TotalCmp Address_cmp.
Proof.
  apply (cmp_then_total AddressHash_cmp bytes_cmp addr_hash (fun a => ep_name (addr_entrypoint a))).
  intros [? []] [? []]; naive_solver.
Qed.

(** ** Laws of [partial_cmp] on a comparable type *)

(** Destruct two values of the same comparable type by recursion on the type. *)
Ltac comparable_cases :=
  repeat match goal with
  | H : comparable_value ?t ?v = true |- _ =>
      assert_fails (is_var t); is_var v; destruct v; try discriminate H
  | H : comparable_value ?t (V_Or ?o) = true |- _ =>
      assert_fails (is_var t); is_var o; destruct o
  | H : comparable_value ?t (V_Option ?o) = true |- _ =>
      assert_fails (is_var t); is_var o; destruct o
  | H : _ && _ = true |- _ => apply andb_prop in H as [? ?]
  | H : comparable_value ?t _ = true |- _ =>
      assert_fails (is_var t); cbn [comparable_value] in H
  end.

(** Rewrite with the induction hypothesis that applies to a comparison of the goal. *)
Ltac comparable_IH :=
  match goal with
  | IH : forall a b : TypedValue, _,
    H : comparable_value ?t ?x = true, H' : comparable_value ?t ?y = true
    |- context [partial_cmp ?x ?y] => rewrite (IH x y H H')
  end.

Lemma partial_cmp_some t a b :
  comparable_value t a = true -> comparable_value t b = true ->
  exists c, partial_cmp a b = Some c.
Proof.
  revert a b. induction t; intros a b Ha Hb;
    comparable_cases; cbn [partial_cmp]; eauto.
  edestruct IHt1 as [c ->]; [done..|]. destruct c; eauto.
Qed.

Lemma partial_cmp_eq t a b :
  comparable_value t a = true -> comparable_value t b = true ->
  partial_cmp a b = Some Eq <-> a = b.
Proof.
  revert a b. induction t; intros a b Ha Hb;
    comparable_cases; cbn [partial_cmp];
    try (split; [intros [= E%cmp_eq]; congruence|intros [= ->]; by rewrite cmp_refl]);
    try (split; congruence);
    try solve [comparable_IH; split; congruence].
  match goal with |- context [partial_cmp ?x ?y] =>
    destruct (partial_cmp_some t1 x y) as [c Hc]; [done..|];
    specialize (IHt1 x y ltac:(done) ltac:(done))
  end.
  rewrite Hc in *. clear Hc. destruct c; try comparable_IH;
    (split; [try done|intros [= -> ->]; try done; by apply IHt1]).
  intros ->. f_equal. by apply IHt1.
Qed.

Lemma partial_cmp_opp t a b :
  comparable_value t a = true -> comparable_value t b = true ->
  partial_cmp b a = CompOpp <$> partial_cmp a b.
Proof.
  revert a b. induction t; intros a b Ha Hb;
    comparable_cases; cbn [partial_cmp]; try done;
    try (cbn; f_equal; apply cmp_opp); auto.
  match goal with |- context [partial_cmp ?x ?y] => rewrite (IHt1 y x) by done end.
  match goal with |- context [CompOpp <$> partial_cmp ?x ?y] =>
    destruct (partial_cmp x y) as [[]|]; cbn; auto
  end.
Qed.

Lemma partial_cmp_trans t a b c :
  comparable_value t a = true -> comparable_value t b = true -> comparable_value t c = true ->
  partial_cmp a b = Some Lt -> partial_cmp b c = Some Lt -> partial_cmp a c = Some Lt.
Proof.
  revert a b c. induction t; intros a b c Ha Hb Hc;
    comparable_cases; cbn [partial_cmp]; try done;
    try (intros [= H1] [= H2]; f_equal; by eapply cmp_trans); eauto.
  match goal with
  | |- match partial_cmp ?x ?y with _ => _ end = _ ->
       match partial_cmp _ ?z with _ => _ end = _ -> _ =>
    destruct (partial_cmp x y) as [[]|] eqn:E1; destruct (partial_cmp y z) as [[]|] eqn:E2; try done
  end.
  - apply (partial_cmp_eq t1) in E1 as ->, E2 as ->; [|done..].
    match goal with |- context [partial_cmp ?x ?x] =>
      rewrite (proj2 (partial_cmp_eq t1 x x ltac:(done) ltac:(done)) eq_refl)
    end. eauto.
  - apply (partial_cmp_eq t1) in E1 as ->; [|done..]. by rewrite E2.
  - apply (partial_cmp_eq t1) in E2 as ->; [|done..]. by rewrite E1.
  - by rewrite (IHt1 a1 b1 c1).
Qed.
