(* ===== verification/Gas.v ===== *)
(** Gas accounting and the cost model.

    Models [contrib/mir/src/gas.rs].  [interpret_cost::f] is [ic_f] and
    [tc_cost::f] is [tc_f].  Costs are computed in checked machine arithmetic
    ([checked::Checked]): [None] is an overflow, which becomes [OutOfGas] when the
    value is used as a cost.  [usize] is 64 bits wide. *)

From S2P Require Import Prelude Syntax Comparable.
#[local] Open Scope N_scope.

(** * The gas counter *)

Inductive OutOfGas : Set := out_of_gas.

(** [struct Gas]: [None] once exhausted. *)
Record Gas : Set := mkGas { milligas_amount : option N }.

Definition DEFAULT_GAS_AMOUNT : N := 1040000.
(** [Gas::new]. *)
Definition gas_new (m : N) : Gas := mkGas (Some m).
Definition gas_default : Gas := gas_new (DEFAULT_GAS_AMOUNT * 1000).

(** [Gas::milligas]: panics after exhaustion. *)
Definition milligas {E} (g : Gas) : outcome E N := expect PGasExhausted (milligas_amount g).

(** [Gas::consume]. *)
Definition consume (cost : N) : M Gas OutOfGas unit := fun g =>
  match milligas (E := OutOfGas) g with
  | Ok m =>
      let g' := mkGas (if cost <=? m then Some (m - cost) else None) in
      match milligas_amount g' with
      | None => (Err out_of_gas, g')
      | Some _ => (Ok tt, g')
      end
  | Err e => (Err e, g)
  | Panic p => (Panic p, g)
  | Diverge => (Diverge, g)
  end.

(** * Checked arithmetic *)

Abbreviation Checked := (option N).
Definition U32_MAX : N := 4294967295.
Definition U64_MAX : N := 18446744073709551615.

Definition chk (max : N) (n : N) : Checked := if n <=? max then Some n else None.
Definition cadd (max : N) (a b : Checked) : Checked := x ← a; y ← b; chk max (x + y).
Definition cmul (max : N) (a b : Checked) : Checked := x ← a; y ← b; chk max (x * y).
Definition csub (a b : Checked) : Checked := x ← a; y ← b; if y <=? x then Some (x - y) else None.
Definition cshr (a : Checked) (n : N) : Checked := x ← a; Some (N.shiftr x n).
Definition chalf (a : Checked) : Checked := x ← a; Some (x / 2).

Declare Scope c32_scope.
Delimit Scope c32_scope with c32.
Notation "a + b" := (cadd U32_MAX a b) : c32_scope.
Notation "a * b" := (cmul U32_MAX a b) : c32_scope.
Notation "a >> n" := (cshr a n) (at level 45, n at next level) : c32_scope.
Declare Scope c64_scope.
Delimit Scope c64_scope with c64.
Notation "a + b" := (cadd U64_MAX a b) : c64_scope.
Notation "a * b" := (cmul U64_MAX a b) : c64_scope.
Notation "a - b" := (csub a b) : c64_scope.
Notation "a >> n" := (cshr a n) (at level 45, n at next level) : c64_scope.

(** [Checked::from]. *)
Definition cst (n : N) : Checked := Some n.
Arguments cst n%_N_scope.
Arguments cshr a n%_N_scope.

(** A cost: [Result<u32, OutOfGas>]. *)
Abbreviation cost := (outcome OutOfGas N).

(** [AsGasCost::as_gas_cost], also for the wider types. *)
Definition as_gas_cost (c : Checked) : cost :=
  match c with
  | Some n => if n <=? U32_MAX then Ok n else Err out_of_gas
  | None => Err out_of_gas
  end.

(** [ok_or(OutOfGas)]. *)
Definition checked_ok (c : Checked) : cost := ok_or out_of_gas c.

(** [Log2i::log2i]: the base 2 logarithm rounded up, by way of
    [next_power_of_two().trailing_zeros()]; asserts the argument is not 0. *)
Definition log2i (n : N) : cost := if n =? 0 then Panic PUnwrap else Ok (N.log2_up n).

(** [bits_to_bytes] and [BigIntByteSize]. *)
Definition bits_to_bytes (bits : N) : N := N.shiftr (bits + 7) 3.
Class BigIntByteSize (A : Type) := byte_size : A -> N.
#[global] Instance BigUint_byte_size : BigIntByteSize N := fun n => bits_to_bytes (N.size n).
#[global] Instance BigInt_byte_size : BigIntByteSize Z := fun z => bits_to_bytes (N.size (Z.abs_N z)).

(** Lengths of slices, strings and collections. *)
Definition len {A} (l : list A) : N := N.of_nat (length l).

(** * Typechecking costs ([tc_cost]) *)

Definition tc_INSTR_STEP : N := 220 * 2.
Definition tc_VALUE_STEP : N := 100.
Definition tc_PARSE_TYPE_STEP : N := 60.
Definition tc_TYPE_PROP_STEP : N := 60.
Definition tc_KEY_HASH_READABLE : N := 3200.
Definition tc_KEY_HASH_OPTIMIZED : N := 80.
Definition tc_BLS_FR : N := 120.
Definition tc_BLS_G1 : N := 54600.
Definition tc_BLS_G2 : N := 69000.
Definition tc_KEY_READABLE : N := 3600.
Definition tc_KEY_OPTIMIZED : N := 60.
Definition tc_CHAIN_ID_READABLE : N := 1600.
Definition tc_CHAIN_ID_OPTIMIZED : N := 50.

Definition tc_timestamp_decoding (l : N) : cost :=
  let v0 := (cst (N.sqrt l) * cst l)%c64 in
  as_gas_cost (cst 105 + ((v0 >> 5) + (v0 >> 6)))%c64.
Definition tc_variadic (depth : nat) : cost := as_gas_cost (cst (N.of_nat depth) * cst 50)%c32.
Definition tc_dig_n (depth : nat) : cost := as_gas_cost (cst (N.of_nat depth) * cst 50)%c64.
Definition tc_dug_n (depth : nat) : cost := as_gas_cost (cst (N.of_nat depth) * cst 50)%c64.
Definition tc_drop_n (depth : option nat) : cost := from_option tc_variadic (Ok 0) depth.
Definition tc_dip_n (depth : option nat) : cost := from_option tc_variadic (Ok 0) depth.
Definition tc_ty_eq (sz1 sz2 : N) : cost := as_gas_cost (cst (N.min sz1 sz2) * cst 60)%c64.
Definition tc_construct_map (key_size sz : N) : cost :=
  let n := cst sz in
  n1 ← checked_ok (n + cst 1)%c64;
  log2n ← log2i n1;
  as_gas_cost (cst 80 * n + cst key_size * n * cst log2n)%c64.
Definition tc_construct_set (val_size sz : N) : cost :=
  let n := cst sz in
  n1 ← checked_ok (n + cst 1)%c64;
  log2n ← log2i n1;
  as_gas_cost (cst 130 * n + cst val_size * n * cst log2n)%c64.
Definition tc_pair_n (size : nat) : cost := as_gas_cost (cst (N.of_nat size) * cst 50)%c64.
Definition tc_unpair_n (size : nat) : cost := as_gas_cost (cst (N.of_nat size) * cst 50)%c64.
Definition tc_get_n (size : nat) : cost := as_gas_cost (cst (N.of_nat size) * cst 50)%c64.

(** * Interpretation costs ([interpret_cost]) *)

Definition ic_DIP : N := 10.
Definition ic_DROP : N := 10.
Definition ic_DUP : N := 10.
Definition ic_GT : N := 10.
Definition ic_GE : N := 10.
Definition ic_EQ : N := 10.
Definition ic_NEQ : N := 10.
Definition ic_LE : N := 10.
Definition ic_LT : N := 10.
Definition ic_IF : N := 10.
Definition ic_IF_NONE : N := 10.
Definition ic_IF_CONS : N := 10.
Definition ic_IF_LEFT : N := 10.
Definition ic_LOOP : N := 10.
Definition ic_ITER : N := 20.
Definition ic_SWAP : N := 10.
Definition ic_INT_NAT : N := 10.
Definition ic_ISNAT : N := 10.
Definition ic_INT_BLS_FR : N := 115.
Definition ic_PUSH : N := 10.
Definition ic_ADD_TEZ : N := 20.
Definition ic_ADD_BLS_FR : N := 30.
Definition ic_ADD_BLS_G1 : N := 900.
Definition ic_ADD_BLS_G2 : N := 2470.
Definition ic_MUL_BLS_G1 : N := 103000.
Definition ic_MUL_BLS_G2 : N := 220000.
Definition ic_MUL_BLS_FR : N := 45.
Definition ic_MUL_TEZ_NAT : N := 50.
Definition ic_MUL_NAT_TEZ : N := ic_MUL_TEZ_NAT.
Definition ic_NEG_FR : N := 30.
Definition ic_NEG_G1 : N := 50.
Definition ic_NEG_G2 : N := 70.
Definition ic_SUB_MUTEZ : N := 15.
Definition ic_UNIT : N := 10.
Definition ic_AND_BOOL : N := 10.
Definition ic_OR_BOOL : N := 10.
Definition ic_XOR_BOOL : N := 15.
Definition ic_NOT_BOOL : N := 10.
Definition ic_CAR : N := 10.
Definition ic_CDR : N := 10.
Definition ic_PAIR : N := 10.
Definition ic_UNPAIR : N := 10.
Definition ic_SOME : N := 10.
Definition ic_NONE : N := 10.
Definition ic_AMOUNT : N := 10.
Definition ic_NIL : N := 10.
Definition ic_CONS : N := 15.
Definition ic_EMPTY_SET : N := 300.
Definition ic_SIZE_STRING : N := 15.
Definition ic_SIZE_BYTES : N := 10.
Definition ic_SIZE_LIST : N := 10.
Definition ic_SIZE_SET : N := 10.
Definition ic_SIZE_MAP : N := 10.
Definition ic_EMPTY_BIG_MAP : N := 300.
Definition ic_CHAIN_ID : N := 15.
Definition ic_PACK : N := 0.
Definition ic_SELF : N := 10.
Definition ic_ADDRESS : N := 10.
Definition ic_LEFT : N := 10.
Definition ic_RIGHT : N := 10.
Definition ic_MAP_OPTION : N := 10.
Definition ic_MAP_LIST : N := 10.
Definition ic_MAP_MAP : N := 20.
Definition ic_TRANSFER_TOKENS : N := 60.
Definition ic_SET_DELEGATE : N := 60.
Definition ic_LAMBDA : N := 10.
Definition ic_EXEC : N := 10.
Definition ic_HASH_KEY : N := 605.
Definition ic_APPLY : N := 140.
Definition ic_TICKET : N := 10.
Definition ic_READ_TICKET : N := 10.
Definition ic_BALANCE : N := 10.
Definition ic_CONTRACT : N := 30.
Definition ic_LEVEL : N := 10.
Definition ic_MIN_BLOCK_TIME : N := 20.
Definition ic_SELF_ADDRESS : N := 10.
Definition ic_SENDER : N := 10.
Definition ic_SOURCE : N := 10.
Definition ic_NOW : N := 10.
Definition ic_IMPLICIT_ACCOUNT : N := 10.
Definition ic_VOTING_POWER : N := 640.
Definition ic_TOTAL_VOTING_POWER : N := 450.
Definition ic_EMIT : N := 30.
Definition ic_INTERPRET_RET : N := 15.
Definition ic_LOOP_ENTER : N := 10.
Definition ic_LOOP_LEFT_ENTER : N := 10.
Definition ic_LOOP_EXIT : N := 10.
Definition ic_CREATE_CONTRACT : N := 60.

Definition ic_dropn (n : nat) : cost :=
  let n := cst (N.of_nat n) in as_gas_cost (cst 30 + n * cst 2 + (n >> 1) + (n >> 3))%c32.
Definition ic_drop (mb_n : option nat) : cost := from_option ic_dropn (Ok ic_DROP) mb_n.
Definition ic_dipn (n : nat) : cost :=
  let n := cst (N.of_nat n) in as_gas_cost (cst 15 + n * cst 4)%c32.
Definition ic_dip (mb_n : option nat) : cost := from_option ic_dipn (Ok ic_DIP) mb_n.
Definition ic_undip (n : nat) : cost :=
  let n := cst (N.of_nat n) in as_gas_cost ((n + cst 1) * cst 10)%c32.
Definition ic_dupn (n : nat) : cost :=
  let n := cst (N.of_nat n) in as_gas_cost (cst 20 + n + (n >> 2))%c32.
Definition ic_dig (n : nat) : cost :=
  let n := cst (N.of_nat n) in as_gas_cost (cst 30 + cst 6 * n + (n >> 1) + (n >> 2))%c32.
Definition ic_dug (n : nat) : cost :=
  let n := cst (N.of_nat n) in as_gas_cost (cst 35 + cst 6 * n + (n >> 1) + (n >> 2))%c32.
Definition ic_dup (mb_n : option nat) : cost := from_option ic_dupn (Ok ic_DUP) mb_n.

Section num_costs.
Context `{BigIntByteSize A, BigIntByteSize B}.
Definition ic_add_num (i1 : A) (i2 : B) : cost :=
  let sz := cst (N.max (byte_size i1) (byte_size i2)) in as_gas_cost (cst 35 + (sz >> 1))%c64.
Definition ic_and_num (i1 : A) (i2 : B) : cost :=
  let sz := cst (N.min (byte_size i1) (byte_size i2)) in as_gas_cost (cst 35 + (sz >> 1))%c64.
Definition ic_or_num (i1 : A) (i2 : B) : cost :=
  let sz := cst (N.min (byte_size i1) (byte_size i2)) in as_gas_cost (cst 35 + (sz >> 1))%c64.
Definition ic_not_num (i : A) : cost :=
  let sz := cst (byte_size i) in as_gas_cost (cst 25 + (sz >> 1))%c64.
Definition ic_mul_int (i1 : A) (i2 : B) : cost :=
  let a := (cst (byte_size i1) + cst (byte_size i2))%c64 in
  v0 ← (if decide (a = Some 0) then Ok (cst 0)
        else x ← checked_ok a; l ← log2i x; Ok (a * cst l)%c64);
  as_gas_cost (cst 55 + (v0 >> 1) + (v0 >> 2) + (v0 >> 4))%c64.
Definition ic_mul_bls_fr_big_int (i : A) : cost :=
  let size := cst (byte_size i) in as_gas_cost (cst 265 + ((size >> 4) + size))%c64.
Definition ic_neg_int (i : A) : cost :=
  let size := cst (byte_size i) in as_gas_cost (cst 25 + (size >> 1))%c64.
Definition ic_abs (i : A) : cost :=
  let size := cst (byte_size i) in as_gas_cost (cst 20 + (size >> 1))%c64.
End num_costs.

Definition ic_and_bytes (b1 b2 : bytes) : cost :=
  as_gas_cost (cst 35 + (cst (N.min (len b1) (len b2)) >> 1))%c64.
Definition ic_or_bytes (b1 b2 : bytes) : cost :=
  as_gas_cost (cst 35 + (cst (N.min (len b1) (len b2)) >> 1))%c64.
Definition ic_xor_nat (i1 i2 : N) : cost :=
  as_gas_cost (cst 35 + (cst (N.min (byte_size i1) (byte_size i2)) >> 1))%c64.
Definition ic_not_bytes (b : bytes) : cost := as_gas_cost (cst 30 + (cst (len b) >> 1))%c64.

(** [compare]: panics on incomparable values, before any gas is charged. *)
Definition ic_cmp_bytes (s1 s2 : N) : cost :=
  let v := cst (N.min s1 s2) in as_gas_cost (cst 35 + (v >> 6) + (v >> 7))%c64.
Definition ADDRESS_SIZE : N := 20 + 31.
Definition CMP_CHAIN_ID : N := 30.
Definition CMP_KEY : N := 92.
Definition CMP_SIGNATURE : N := 92.
Definition KEY_HASH_BYTE_SIZE : N := 20 + 1.

Fixpoint ic_compare (v1 v2 : TypedValue) {struct v1} : cost :=
  match v1, v2 with
  | V_Nat l, V_Nat r => ic_cmp_bytes (byte_size l) (byte_size r)
  | V_Int l, V_Int r => ic_cmp_bytes (byte_size l) (byte_size r)
  | V_Timestamp l, V_Timestamp r => ic_cmp_bytes (byte_size l) (byte_size r)
  | V_Bool _, V_Bool _ => ic_cmp_bytes 1 1
  | V_Mutez _, V_Mutez _ => ic_cmp_bytes 8 8
  | V_String l, V_String r => ic_cmp_bytes (len l) (len r)
  | V_Unit, V_Unit => Ok 10
  | V_Pair l1 l2, V_Pair r1 r2 =>
      c1 ← ic_compare l1 r1;
      c2 ← ic_compare l2 r2;
      as_gas_cost (cst 10 + cst c1 + cst c2)%c32
  | V_Option None, V_Option None => as_gas_cost (cst 10)
  | V_Option None, V_Option (Some _) => as_gas_cost (cst 10)
  | V_Option (Some _), V_Option None => as_gas_cost (cst 10)
  | V_Option (Some l), V_Option (Some r) => c ← ic_compare l r; as_gas_cost (cst 10 + cst c)%c32
  | V_Address _, V_Address _ => ic_cmp_bytes ADDRESS_SIZE ADDRESS_SIZE
  | V_ChainId _, V_ChainId _ => Ok CMP_CHAIN_ID
  | V_Bytes l, V_Bytes r => ic_cmp_bytes (len l) (len r)
  | V_Key _, V_Key _ => Ok CMP_KEY
  | V_Signature _, V_Signature _ => Ok CMP_SIGNATURE
  | V_KeyHash _, V_KeyHash _ => ic_cmp_bytes KEY_HASH_BYTE_SIZE KEY_HASH_BYTE_SIZE
  | V_Or (Or_Left l), V_Or (Or_Left r) => c ← ic_compare l r; as_gas_cost (cst 10 + cst c)%c32
  | V_Or (Or_Right l), V_Or (Or_Right r) => c ← ic_compare l r; as_gas_cost (cst 10 + cst c)%c32
  | V_Or (Or_Left _), V_Or (Or_Right _) => as_gas_cost (cst 10)
  | V_Or (Or_Right _), V_Or (Or_Left _) => as_gas_cost (cst 10)
  | _, _ => Panic PIncomparable
  end.

(** The cost of comparing the contents is computed and dropped. *)
Definition ic_join_tickets (t1 t2 : Ticket) : cost :=
  _ ← ic_compare (tk_content t1) (tk_content t2);
  ic_add_num (tk_amount t1) (tk_amount t2).

(** [size_of_val] of a [BigUint] is the size of its [Vec] header, 24 bytes,
    whatever the number. *)
Definition size_of_BigUint : N := 24.
Definition ic_split_ticket (amount1 amount2 : N) : cost :=
  let sz := cst (N.max size_of_BigUint size_of_BigUint) in as_gas_cost (cst 40 + (sz >> 1))%c64.

Definition ic_concat_list_precheck (list_size : N) : cost := as_gas_cost (cst 10 * cst list_size)%c64.
Definition ic_concat_string_list (total_len : Checked) : cost :=
  as_gas_cost (chalf total_len + cst 100)%c64.
Definition ic_concat_bytes_list (total_len : Checked) : cost :=
  as_gas_cost (chalf total_len + cst 100)%c64.
Definition ic_concat_string_pair (len1 len2 : N) : cost :=
  as_gas_cost (chalf (cst len1 + cst len2) + cst 45)%c64.
Definition ic_concat_bytes_pair (len1 len2 : N) : cost :=
  as_gas_cost (chalf (cst len1 + cst len2) + cst 45)%c64.

(** Lookup cost shared by the container operations: comparing a key [log2 (n+1)] times. *)
Definition ic_lookup_cost (k : TypedValue) (map_size : N) : outcome OutOfGas Checked :=
  compare_cost ← ic_compare k k;
  n1 ← checked_ok (cst map_size + cst 1)%c64;
  size_log ← log2i n1;
  Ok (cst compare_cost * cst size_log)%c32.
Definition ic_map_get (k : TypedValue) (map_size : N) : cost :=
  lookup_cost ← ic_lookup_cost k map_size; as_gas_cost (cst 80 + lookup_cost)%c32.
Definition ic_map_mem (k : TypedValue) (map_size : N) : cost := ic_map_get k map_size.
Definition ic_set_mem (k : TypedValue) (map_size : N) : cost :=
  lookup_cost ← ic_lookup_cost k map_size; as_gas_cost (cst 115 + lookup_cost)%c32.
Definition ic_map_update (k : TypedValue) (map_size : N) : cost :=
  lookup_cost ← ic_lookup_cost k map_size; as_gas_cost (cst 80 + cst 2 * lookup_cost)%c32.
Definition ic_set_update (k : TypedValue) (map_size : N) : cost :=
  lookup_cost ← ic_lookup_cost k map_size; as_gas_cost (cst 130 + cst 2 * lookup_cost)%c32.
Definition ic_map_get_and_update (k : TypedValue) (map_size : N) : cost :=
  lookup_cost ← ic_lookup_cost k map_size; as_gas_cost (cst 80 + cst 3 * lookup_cost)%c32.

(** ** Micheline encoding cost *)

(** [struct MichelineSize]. *)
Record MichelineSize : Set := mkMichelineSize {
  nodes_num : Checked; str_byte : Checked; zariths : Checked }.

Definition ann_size (a : Annotation) : N :=
  match a with
  | Ann_Field a | Ann_Variable a | Ann_Type a => len a + 1
  | Ann_Special a => len a
  end.

Definition add_str_byte (n : N) (s : MichelineSize) : MichelineSize :=
  mkMichelineSize (nodes_num s) (str_byte s + cst n)%c64 (zariths s).

Fixpoint collect_micheline_size (m : Micheline) (size : MichelineSize) {struct m} : MichelineSize :=
  let size := mkMichelineSize (nodes_num size + cst 1)%c64 (str_byte size) (zariths size) in
  match m with
  | M_String s => add_str_byte (len s) size
  | M_Bytes bs => add_str_byte (len bs) size
  | M_Int i => mkMichelineSize (nodes_num size) (str_byte size) (zariths size + cst (byte_size i))%c64
  | M_Seq ms => fold_left (fun size m => collect_micheline_size m size) ms size
  | M_App _ args annots =>
      let size := fold_left (fun size m => collect_micheline_size m size) args size in
      fold_left (fun size a => add_str_byte (ann_size a) size) annots size
  end.

Definition ic_micheline_encoding (m : Micheline) : cost :=
  let size := collect_micheline_size m (mkMichelineSize (cst 0) (cst 0) (cst 0)) in
  as_gas_cost (nodes_num size * cst 100 + zariths size * cst 25 + str_byte size * cst 10)%c64.

(** ** Remaining costs *)

Definition ic_check_signature (k : Key) (msg : bytes) : cost :=
  let l := cst (len msg) in
  as_gas_cost
    match k with
    | Key_Ed25519 _ => cst 65800 + ((l >> 3) + l)
    | Key_Secp256k1 _ => cst 51600 + ((l >> 3) + l)
    | Key_P256 _ => cst 341000 + ((l >> 3) + l)
    | Key_Bls _ => cst 1570000 + (l * cst 3)
    end%c64.
Definition ic_slice (length : N) : cost := as_gas_cost ((cst length >> 1) + cst 25)%c64.
Definition ic_blake2b (msg : bytes) : cost :=
  let size := cst (len msg) in as_gas_cost (cst 430 + ((size >> 3) + size))%c64.
Definition ic_keccak (msg : bytes) : cost :=
  let size := cst (len msg) in as_gas_cost (cst 1350 + ((size >> 2) + (size * cst 8)))%c64.
Definition ic_sha256 (msg : bytes) : cost :=
  let size := cst (len msg) in
  as_gas_cost (cst 600 + ((size >> 2) + ((size >> 1) + (size * cst 4))))%c64.
Definition ic_sha3 (msg : bytes) : cost :=
  let size := cst (len msg) in as_gas_cost (cst 1350 + ((size >> 2) + (size * cst 8)))%c64.
Definition ic_sha512 (msg : bytes) : cost :=
  let size := cst (len msg) in as_gas_cost (cst 680 + (size * cst 3))%c64.
Definition ic_pairing_check (size : N) : cost := as_gas_cost (cst 450000 + cst 342500 * cst size)%c64.
Definition ic_int_bytes (size : N) : cost :=
  let size := cst size in as_gas_cost (cst 20 + ((size >> 1) + (size * cst 2)))%c64.
Definition ic_bytes_int (i : Z) : cost :=
  let size := cst (byte_size i) in as_gas_cost (cst 90 + (size * cst 3))%c64.
Definition ic_bytes_nat (i : N) : cost :=
  let size := cst (byte_size i) in as_gas_cost (cst 75 + (size * cst 3))%c64.
Definition ic_unpack (b : bytes) : cost :=
  let size := cst (len b) in as_gas_cost (cst 260 + (size >> 1))%c64.
Definition ic_pair_n (size : nat) : cost :=
  let v0 := (cst (N.of_nat size) - cst 2)%c64 in as_gas_cost (cst 40 + ((v0 >> 2) + (v0 * cst 3)))%c64.
Definition ic_unpair_n (size : nat) : cost :=
  let v0 := (cst (N.of_nat size) - cst 2)%c64 in as_gas_cost (cst 30 + (v0 * cst 4))%c64.
Definition ic_get_n (size : nat) : cost :=
  let size := cst (N.of_nat size) in as_gas_cost (cst 20 + ((size >> 1) + (size >> 4)))%c64.
Definition ic_update_n (size : nat) : cost :=
  let size := cst (N.of_nat size) in
  as_gas_cost (cst 30 + ((size >> 5) + ((size >> 2) + size)))%c64.

(** * Facts *)

Example log2i_3 : log2i 3 = Ok 2. Proof. reflexivity. Qed.
Example log2i_70000 : log2i 70000 = Ok 17. Proof. reflexivity. Qed.
Example log2i_300000 : log2i 300000 = Ok 19. Proof. reflexivity. Qed.

(** ** Costs that panic only on incomparable values *)

(** A computation that never panics. *)
Definition cost_safe {E A} (c : outcome E A) : Prop := match c with Panic _ | Diverge => False | _ => True end.

Lemma as_gas_cost_safe c : cost_safe (as_gas_cost c).
Proof. unfold as_gas_cost. destruct c; [case_match|]; exact I. Qed.

Lemma cost_safe_bind {E A B} (m : outcome E A) (k : A -> outcome E B) :
  cost_safe m -> (forall a, m = Ok a -> cost_safe (k a)) -> cost_safe (m ≫= k).
Proof. destruct m; cbn; auto. Qed.

Create HintDb gas.
#[export] Hint Resolve as_gas_cost_safe : gas.

Lemma ic_compare_safe t a b :
  comparable_value t a = true -> comparable_value t b = true -> cost_safe (ic_compare a b).
Proof.
  revert a b. induction t; intros a b Ha Hb; comparable_cases; cbn [ic_compare];
    unfold ic_cmp_bytes; auto with gas; try exact I;
    repeat (apply cost_safe_bind; [eauto|intros ? _]); auto with gas.
Qed.

(** On anything else comparing panics, and only that way. *)
Lemma as_gas_cost_panics p c : panics_only p (as_gas_cost c).
Proof. unfold as_gas_cost. destruct c; [case_match|]; exact I. Qed.

(** Case analysis on two values, inside options and unions too. *)
Ltac two_values :=
  intros [] []; cbn [ic_compare partial_cmp];
  repeat match goal with |- context [match ?o with _ => _ end] => is_var o; destruct o end.

Lemma ic_compare_panics v1 v2 : panics_only PIncomparable (ic_compare v1 v2).
Proof.
  revert v1 v2. fix IH 1.
  two_values; try reflexivity; repeat (apply panics_only_bind; [apply IH|intros ?]);
    first [exact I | apply as_gas_cost_panics].
Qed.

Lemma total_cmp_eqb {A} (f : A -> A -> comparison) `{!TotalCmp f} (C : A -> TypedValue) `{!Inj (=) (=) C} x y :
  match f x y with Eq => true | _ => false end = true <-> C x = C y.
Proof.
  pose proof (cmp_eq (f := f) x y) as Heq. destruct (f x y); split; intros Hx; try done.
  all: try (apply (inj C) in Hx; by apply Heq in Hx). f_equal. by apply Heq.
Qed.

(** Once the cost of comparing two values is known, the comparison decides their
    equality. *)
Lemma compared_eq a b n : ic_compare a b = Ok n -> comparable_eqb a b = true <-> a = b.
Proof.
  unfold comparable_eqb. revert a b n. fix IH 1.
  two_values; intros ? ?; inv_ok; try discriminate;
    try match goal with
        | |- match ?f ?x ?y with _ => _ end = true <-> ?C ?x = ?C ?y =>
            apply (total_cmp_eqb f C (Inj0 := ltac:(by intros ? ? [=])))
        end; try done.
  - rename select (ic_compare l l0 = _) into Ha. rename select (ic_compare r r0 = _) into Hb.
    apply IH in Ha, Hb. destruct (partial_cmp l l0) as [[]|].
    + rewrite Hb. assert (l = l0) as -> by by apply Ha. split; congruence.
    + split; [done|]. intros [= -> ->]. by apply Ha.
    + split; [done|]. intros [= -> ->]. by apply Ha.
    + split; [done|]. intros [= -> ->]. by apply Ha.
  - rename select (ic_compare _ _ = _) into Ha. apply IH in Ha. rewrite Ha. split; congruence.
  - rename select (ic_compare _ _ = _) into Ha. apply IH in Ha. rewrite Ha. split; congruence.
  - rename select (ic_compare _ _ = _) into Ha. apply IH in Ha. rewrite Ha. split; congruence.
Qed.

Lemma checked_ok_safe c : cost_safe (checked_ok c).
Proof. by destruct c. Qed.
#[export] Hint Resolve checked_ok_safe : gas.

Lemma checked_succ n m : checked_ok (cst n + cst 1)%c64 = Ok m -> m = n + 1.
Proof. unfold checked_ok, cadd, chk, cst. cbn. case_match; cbn; congruence. Qed.

Lemma log2i_succ_safe n m : checked_ok (cst n + cst 1)%c64 = Ok m -> cost_safe (log2i m).
Proof.
  intros ->%checked_succ. unfold log2i. destruct (N.eqb_spec (n + 1) 0); [lia|exact I].
Qed.
#[export] Hint Resolve log2i_succ_safe : gas.

Lemma ic_lookup_cost_safe t k n :
  comparable_value t k = true -> cost_safe (ic_lookup_cost k n).
Proof.
  intros Hk. unfold ic_lookup_cost.
  apply cost_safe_bind; [by eapply ic_compare_safe|intros c _].
  apply cost_safe_bind; [auto with gas|intros m Hm].
  apply cost_safe_bind; [eauto with gas|intros; exact I].
Qed.

(** The container costs panic only when the key is not comparable with itself. *)
Lemma container_costs_safe t k n :
  comparable_value t k = true ->
  cost_safe (ic_map_get k n) /\ cost_safe (ic_set_mem k n) /\ cost_safe (ic_map_update k n) /\
  cost_safe (ic_set_update k n) /\ cost_safe (ic_map_get_and_update k n).
Proof.
  intros Hk. pose proof (ic_lookup_cost_safe t k n Hk).
  repeat split; (apply cost_safe_bind; [done|auto with gas]).
Qed.

Lemma ic_mul_int_safe `{BigIntByteSize A, BigIntByteSize B} (x : A) (y : B) :
  cost_safe (ic_mul_int x y).
Proof.
  unfold ic_mul_int. apply cost_safe_bind; [|auto with gas].
  case_decide as Hz; [exact I|]. apply cost_safe_bind; [auto with gas|intros z Hz'].
  apply cost_safe_bind; [|intros; exact I].
  unfold log2i. destruct (N.eqb_spec z 0) as [->|]; [|exact I].
  unfold checked_ok, ok_or in Hz'. case_match; congruence.
Qed.

Lemma tc_construct_safe ks n : cost_safe (tc_construct_map ks n) /\ cost_safe (tc_construct_set ks n).
Proof.
  split; (apply cost_safe_bind; [auto with gas|intros m Hm];
    apply cost_safe_bind; [eauto with gas|auto with gas]).
Qed.

Lemma from_option_cost_safe (f : nat -> cost) n o :
  (forall n, cost_safe (f n)) -> cost_safe (from_option f (Ok n) o).
Proof. destruct o; cbn; auto. Qed.
