(* ===== verification/BigMap.v ===== *)
(** Ordered containers and big maps.

    Models the [BTreeSet]/[BTreeMap] operations the interpreter uses, and
    [contrib/mir/src/ast/big_map.rs]: a big map is an in-memory overlay over a map
    of the lazy storage; [LazyStorage] is the interface of that storage and
    [InMemoryLazyStorage] the implementation the library ships.

    A tree is the list of its elements in ascending key order.  Searching
    compares the key with the elements from the smallest one, as the search in a
    B-tree node does, with [Ord::cmp], which panics on incomparable values. *)

From S2P Require Import Prelude Syntax Comparable.

(** * BTree operations *)

Section btree.
Context {A : Type} (key : A -> TypedValue).

(** [get]/[contains]. *)
Fixpoint bt_find {E} (k : TypedValue) (l : list A) : outcome E (option A) :=
  match l with
  | [] => Ok None
  | a :: l =>
      c ← value_cmp k (key a);
      match c with
      | Lt => Ok None
      | Eq => Ok (Some a)
      | Gt => bt_find k l
      end
  end.

(** [insert]: returns the element displaced by the new one. *)
Fixpoint bt_insert {E} (x : A) (l : list A) : outcome E (option A * list A) :=
  match l with
  | [] => Ok (None, [x])
  | a :: l' =>
      c ← value_cmp (key x) (key a);
      match c with
      | Lt => Ok (None, x :: l)
      | Eq => Ok (Some a, x :: l')
      | Gt => '(o, l'') ← bt_insert x l'; Ok (o, a :: l'')
      end
  end.

(** [remove]: returns the removed element. *)
Fixpoint bt_remove {E} (k : TypedValue) (l : list A) : outcome E (option A * list A) :=
  match l with
  | [] => Ok (None, [])
  | a :: l' =>
      c ← value_cmp k (key a);
      match c with
      | Lt => Ok (None, l)
      | Eq => Ok (Some a, l')
      | Gt => '(o, l'') ← bt_remove k l'; Ok (o, a :: l'')
      end
  end.

(** [from_iter]. *)
Fixpoint bt_from_list {E} (acc : list A) (l : list A) : outcome E (list A) :=
  match l with
  | [] => Ok acc
  | x :: l => '(_, acc) ← bt_insert x acc; bt_from_list acc l
  end.

(** The representation invariant: keys strictly ascending. *)
Definition bt_lt (a b : A) : Prop := partial_cmp (key a) (key b) = Some Lt.
Definition bt_sorted (l : list A) : Prop := StronglySorted bt_lt l.

(** The element with a given key, as a specification. *)
Definition bt_spec (k : TypedValue) (l : list A) : option A := find (fun a => comparable_eqb k (key a)) l.
End btree.
Arguments bt_spec : simpl never.

(** ** Laws, on keys of one comparable type *)

Section btree_laws.
Context {A : Type} (key : A -> TypedValue) (t : Type_).
Abbreviation keyed l := (Forall (fun a => comparable_value t (key a) = true) l).
Abbreviation K k := (comparable_value t k = true).

Lemma value_cmp_ok {E} a b : K a -> K b -> exists c, value_cmp (E := E) a b = Ok c /\ partial_cmp a b = Some c.
Proof.
  intros Ha Hb. destruct (partial_cmp_some t a b Ha Hb) as [c Hc].
  exists c. unfold value_cmp. by rewrite Hc.
Qed.

Lemma comparable_eqb_eq a b : K a -> K b -> comparable_eqb a b = true <-> a = b.
Proof.
  intros Ha Hb. rewrite <- (partial_cmp_eq t a b Ha Hb). unfold comparable_eqb.
  destruct (partial_cmp a b) as [[]|]; split; congruence.
Qed.

Lemma comparable_eqb_refl a : K a -> comparable_eqb a a = true.
Proof. intros Ha. by apply comparable_eqb_eq. Qed.

Lemma partial_cmp_Gt a b : K a -> K b -> partial_cmp a b = Some Gt <-> partial_cmp b a = Some Lt.
Proof.
  intros Ha Hb. rewrite (partial_cmp_opp t a b Ha Hb).
  destruct (partial_cmp a b) as [[]|]; cbn; split; congruence.
Qed.

Lemma bt_spec_cons k a l :
  bt_spec key k (a :: l) = if comparable_eqb k (key a) then Some a else bt_spec key k l.
Proof. done. Qed.

(** A key below every key of a list is not in it. *)
Lemma bt_spec_below k l :
  Forall (fun a => partial_cmp k (key a) = Some Lt) l -> bt_spec key k l = None.
Proof.
  intros Hl. unfold bt_spec. induction Hl as [|a l Ha _ IH]; cbn; [done|].
  unfold comparable_eqb. by rewrite Ha.
Qed.

Lemma bt_below_trans k a l :
  K k -> K (key a) -> keyed l -> partial_cmp k (key a) = Some Lt ->
  Forall (bt_lt key a) l -> Forall (fun b => partial_cmp k (key b) = Some Lt) l.
Proof.
  intros Hk Ha Hl Hlt Hall. induction Hall; [constructor|].
  apply Forall_cons in Hl as [? ?]. constructor; [|by auto].
  by eapply (partial_cmp_trans t k (key a)).
Qed.

(** [get] finds exactly the element with that key. *)
Lemma bt_find_ok {E} k l :
  K k -> keyed l -> bt_sorted key l -> bt_find (E := E) key k l = Ok (bt_spec key k l).
Proof.
  intros Hk Hl Hs. induction Hs as [|a l _ IH Ha]; [done|].
  apply Forall_cons in Hl as [Hka Hl]. cbn [bt_find].
  destruct (value_cmp_ok (E := E) k (key a) Hk Hka) as (c&->&Hc). cbn.
  unfold bt_spec. cbn. unfold comparable_eqb at 1. rewrite Hc.
  destruct c; [done| |by apply IH].
  by rewrite <- (bt_spec_below k l) by (by eapply bt_below_trans).
Qed.

(** [insert] keeps the invariant, returns the previous element and changes the
    meaning of the tree at the inserted key only. *)
Lemma bt_insert_ok {E} x l :
  K (key x) -> keyed l -> bt_sorted key l ->
  exists l', bt_insert (E := E) key x l = Ok (bt_spec key (key x) l, l') /\
    keyed l' /\ bt_sorted key l' /\
    (forall y, y ∈ l' -> y = x \/ y ∈ l) /\
    (forall k, K k -> bt_spec key k l' = if comparable_eqb k (key x) then Some x else bt_spec key k l).
Proof.
  intros Hx Hl Hs. induction Hs as [|a l Hs IH Ha]; cbn [bt_insert].
  { exists [x]. repeat split; try done; repeat constructor; try done. set_solver. }
  apply Forall_cons in Hl as [Hka Hl].
  destruct (value_cmp_ok (E := E) (key x) (key a) Hx Hka) as (c&->&Hc). cbn.
  rewrite (bt_spec_cons (key x)). unfold comparable_eqb at 1. rewrite Hc. destruct c.
  - apply (partial_cmp_eq t) in Hc; [|done..]. exists (x :: l). repeat split.
    + by constructor.
    + constructor; [done|]. unfold bt_lt. by rewrite Hc.
    + set_solver.
    + intros k Hk. rewrite !bt_spec_cons, Hc. by destruct (comparable_eqb k (key a)).
  - exists (x :: a :: l). repeat split; try by repeat constructor.
    + rewrite bt_spec_below; [done|by eapply bt_below_trans].
    + repeat constructor; try done. by eapply bt_below_trans.
    + set_solver.
  - destruct (IH Hl) as (l'&->&Hl'&Hs'&Hin&Hspec). exists (a :: l'). cbn. repeat split.
    + by constructor.
    + constructor; [done|]. apply Forall_forall. intros y [->|Hy]%Hin.
      * unfold bt_lt. by apply partial_cmp_Gt.
      * by eapply Forall_forall in Ha.
    + intros y [->|Hy]%elem_of_cons; [set_solver|]. destruct (Hin y Hy); set_solver.
    + intros k Hk. rewrite !bt_spec_cons, (Hspec k Hk).
      destruct (comparable_eqb k (key a)) eqn:E1; [|done].
      destruct (comparable_eqb k (key x)) eqn:E2; [|done].
      apply comparable_eqb_eq in E1 as ->, E2; [|done..].
      rewrite E2 in Hc. rewrite (proj2 (partial_cmp_eq t _ _ Hx Hx) eq_refl) in Hc. done.
Qed.

(** [remove] keeps the invariant and forgets the removed key only. *)
Lemma bt_remove_ok {E} k0 l :
  K k0 -> keyed l -> bt_sorted key l ->
  exists l', bt_remove (E := E) key k0 l = Ok (bt_spec key k0 l, l') /\
    keyed l' /\ bt_sorted key l' /\
    (forall y, y ∈ l' -> y ∈ l) /\
    (forall k, K k -> bt_spec key k l' = if comparable_eqb k k0 then None else bt_spec key k l).
Proof.
  intros Hk0 Hl Hs. induction Hs as [|a l Hs IH Ha]; cbn [bt_remove].
  { exists []. repeat split; try done; [constructor|]. intros. by case_match. }
  apply Forall_cons in Hl as [Hka Hl].
  destruct (value_cmp_ok (E := E) k0 (key a) Hk0 Hka) as (c&->&Hc). cbn.
  rewrite (bt_spec_cons k0). unfold comparable_eqb at 1. rewrite Hc. destruct c.
  - apply (partial_cmp_eq t) in Hc; [|done..]. exists l. repeat split; try done; [set_solver|].
    intros k Hk. rewrite bt_spec_cons, Hc.
    destruct (comparable_eqb k (key a)) eqn:E1; [|done].
    apply comparable_eqb_eq in E1 as ->; [|done..].
    apply bt_spec_below. done.
  - exists (a :: l). repeat split; try by constructor.
    + rewrite bt_spec_below; [done|by eapply bt_below_trans].
    + done.
    + intros k Hk. destruct (comparable_eqb k k0) eqn:E1; [|done].
      apply comparable_eqb_eq in E1 as ->; [|done..].
      apply bt_spec_below. constructor; [done|by eapply bt_below_trans].
  - destruct (IH Hl) as (l'&->&Hl'&Hs'&Hin&Hspec). exists (a :: l'). cbn. repeat split.
    + by constructor.
    + constructor; [done|]. apply Forall_forall. intros y Hy%Hin. by eapply Forall_forall in Ha.
    + set_solver.
    + intros k Hk. rewrite !bt_spec_cons, (Hspec k Hk).
      destruct (comparable_eqb k (key a)) eqn:E1; [|done].
      destruct (comparable_eqb k k0) eqn:E2; [|done].
      apply comparable_eqb_eq in E1 as ->, E2; [|done..].
      rewrite E2, (proj2 (partial_cmp_eq t _ _ Hk0 Hk0) eq_refl) in Hc. done.
Qed.

(** An already sorted sequence is collected as it is. *)
Lemma bt_from_list_sorted {E} acc l :
  keyed (acc ++ l) -> bt_sorted key (acc ++ l) -> bt_from_list (E := E) key acc l = Ok (acc ++ l).
Proof.
  revert acc. induction l as [|x l IH]; intros acc Hk Hs; cbn; [by rewrite app_nil_r|].
  enough (Hins : bt_insert (E := E) key x acc = Ok (None, acc ++ [x])).
  { rewrite Hins. cbn. rewrite IH; by rewrite <- app_assoc. }
  clear IH. induction acc as [|a acc IH]; cbn; [done|].
  cbn in Hk, Hs. apply Forall_cons in Hk as [Hka Hk].
  apply StronglySorted_inv in Hs as [Hs Ha].
  assert (Hx : K (key x)) by (eapply (proj1 (Forall_forall _ _) Hk); set_solver).
  destruct (value_cmp_ok (E := E) (key x) (key a) Hx Hka) as (c&->&Hc). cbn.
  assert (Hlt : partial_cmp (key a) (key x) = Some Lt).
  { eapply (proj1 (Forall_forall _ _) Ha). set_solver. }
  apply partial_cmp_Gt in Hlt; [|done..]. rewrite Hlt in Hc. injection Hc as <-.
  by rewrite (IH Hk Hs).
Qed.
End btree_laws.

(** * Lazy storage *)

Inductive LazyStorageError : Set :=
  | DecodingError (msg : bytes)
  | OtherError (msg : bytes).

(** [BigMapId(BigInt)]. *)
Abbreviation BigMapId := Z.

(** [trait LazyStorage]: reads take [&self], writes [&mut self]. *)
Class LazyStorage (S : Type) := {
  big_map_get : S -> BigMapId -> TypedValue -> outcome LazyStorageError (option TypedValue);
  big_map_mem : S -> BigMapId -> TypedValue -> outcome LazyStorageError bool;
  big_map_update : BigMapId -> TypedValue -> option TypedValue -> M S LazyStorageError unit;
  big_map_get_type : S -> BigMapId -> outcome LazyStorageError (option (Type_ * Type_));
  big_map_new : Type_ -> Type_ -> M S LazyStorageError BigMapId;
  big_map_copy : BigMapId -> M S LazyStorageError BigMapId;
  big_map_remove : BigMapId -> M S LazyStorageError unit
}.

(** [LazyStorageBulkUpdate::big_map_bulk_update]. *)
Fixpoint big_map_bulk_update {St : Type} `{LS : LazyStorage St} (id : BigMapId)
    (entries : list (TypedValue * option TypedValue)) : M St LazyStorageError unit :=
  match entries with
  | [] => mret tt
  | (k, v) :: entries => _ ← big_map_update id k v; big_map_bulk_update id entries
  end.

(** [Box<dyn LazyStorage>]: some implementation with its state. *)
Record DynLazyStorage : Type := mkDyn {
  dyn_type : Type;
  dyn_impl : LazyStorage dyn_type;
  dyn_state : dyn_type
}.
Definition dyn_get (d : DynLazyStorage) (id : BigMapId) (k : TypedValue) :=
  big_map_get (LazyStorage := dyn_impl d) (dyn_state d) id k.
Definition dyn_mem (d : DynLazyStorage) (id : BigMapId) (k : TypedValue) :=
  big_map_mem (LazyStorage := dyn_impl d) (dyn_state d) id k.
Definition dyn_get_type (d : DynLazyStorage) (id : BigMapId) :=
  big_map_get_type (LazyStorage := dyn_impl d) (dyn_state d) id.

(** ** [BigMap]: the overlay first, then the storage *)

Definition BigMap_get (m : BigMap) (key : TypedValue) (d : DynLazyStorage)
  : outcome LazyStorageError (option TypedValue) :=
  change ← bt_find fst key (bm_overlay m);
  match change with
  | Some (_, change) => Ok change
  | None =>
      match bm_id m with
      | Some id => dyn_get d id key
      | None => Ok None
      end
  end.

Definition BigMap_mem (m : BigMap) (key : TypedValue) (d : DynLazyStorage)
  : outcome LazyStorageError bool :=
  change ← bt_find fst key (bm_overlay m);
  match change with
  | Some (_, change) => Ok (bool_decide (is_Some change))
  | None =>
      match bm_id m with
      | Some id => dyn_mem d id key
      | None => Ok false
      end
  end.

Definition BigMap_update {E} (m : BigMap) (key : TypedValue) (value : option TypedValue)
  : outcome E BigMap :=
  '(_, overlay) ← bt_insert fst (key, value) (bm_overlay m);
  Ok (mkBigMap (bm_id m) overlay (bm_key_type m) (bm_value_type m)).

(** ** [InMemoryLazyStorage] *)

Record MapInfo : Type := mkMapInfo {
  mi_map : list (TypedValue * TypedValue);
  mi_key_type : Type_;
  mi_value_type : Type_
}.

Record InMemoryLazyStorage : Type := mkInMemory {
  im_next_id : Z;
  im_big_maps : gmap Z MapInfo
}.

Definition im_new : InMemoryLazyStorage := mkInMemory 0 ∅.

Definition get_next_id : M InMemoryLazyStorage LazyStorageError BigMapId := fun s =>
  (Ok (im_next_id s), mkInMemory (im_next_id s + 1)%Z (im_big_maps s)).

(** A missing map is a panic, in the closure given to [ok_or_else]. *)
Definition access_big_map (s : InMemoryLazyStorage) (id : BigMapId)
  : outcome LazyStorageError MapInfo :=
  expect PNoBigMap (im_big_maps s !! id).

Definition im_insert (id : BigMapId) (info : MapInfo) : M InMemoryLazyStorage LazyStorageError unit :=
  fun s => (Ok tt, mkInMemory (im_next_id s) (<[id := info]> (im_big_maps s))).

Definition im_big_map_get (s : InMemoryLazyStorage) (id : BigMapId) (key : TypedValue)
  : outcome LazyStorageError (option TypedValue) :=
  info ← access_big_map s id;
  r ← bt_find fst key (mi_map info);
  Ok (option_map snd r).

Definition im_big_map_mem (s : InMemoryLazyStorage) (id : BigMapId) (key : TypedValue)
  : outcome LazyStorageError bool :=
  info ← access_big_map s id;
  r ← bt_find fst key (mi_map info);
  Ok (bool_decide (is_Some r)).

Definition im_big_map_update (id : BigMapId) (key : TypedValue) (value : option TypedValue)
  : M InMemoryLazyStorage LazyStorageError unit :=
  s ← get;
  info ← lift (access_big_map s id);
  map ← lift match value with
             | None => '(_, m) ← bt_remove fst key (mi_map info); Ok m
             | Some value => '(_, m) ← bt_insert fst (key, value) (mi_map info); Ok m
             end;
  im_insert id (mkMapInfo map (mi_key_type info) (mi_value_type info)).

Definition im_big_map_get_type (s : InMemoryLazyStorage) (id : BigMapId)
  : outcome LazyStorageError (option (Type_ * Type_)) :=
  Ok (option_map (fun info => (mi_key_type info, mi_value_type info)) (im_big_maps s !! id)).

Definition im_big_map_new (key_type value_type : Type_)
  : M InMemoryLazyStorage LazyStorageError BigMapId :=
  id ← get_next_id;
  _ ← im_insert id (mkMapInfo [] key_type value_type);
  mret id.

Definition im_big_map_remove (id : BigMapId) : M InMemoryLazyStorage LazyStorageError unit :=
  fun s => (Ok tt, mkInMemory (im_next_id s) (delete id (im_big_maps s))).

Definition im_big_map_copy (copied_id : BigMapId) : M InMemoryLazyStorage LazyStorageError BigMapId :=
  id ← get_next_id;
  s ← get;
  info ← lift (access_big_map s copied_id);
  _ ← im_insert id info;
  mret id.

#[global] Instance InMemory_LazyStorage : LazyStorage InMemoryLazyStorage := {
  big_map_get := im_big_map_get;
  big_map_mem := im_big_map_mem;
  big_map_update := im_big_map_update;
  big_map_get_type := im_big_map_get_type;
  big_map_new := im_big_map_new;
  big_map_copy := im_big_map_copy;
  big_map_remove := im_big_map_remove
}.

Definition dyn_in_memory (s : InMemoryLazyStorage) : DynLazyStorage :=
  mkDyn InMemoryLazyStorage InMemory_LazyStorage s.

(** * What a lazy storage promises

    The documented contract of the trait: on an id that points to a map of the
    storage and on keys of its key type the reads return the current binding,
    writes change that binding only, allocation returns an id that was not in use
    and does not disturb the other maps. *)

Class LazyStorageLaws (St : Type) `{LS : LazyStorage St} := {
  ls_inv : St -> Prop;
  ls_types : St -> BigMapId -> option (Type_ * Type_);
  ls_view : St -> BigMapId -> TypedValue -> option TypedValue;
  ls_get_type s id : big_map_get_type s id = Ok (ls_types s id);
  ls_get s id kt vt k :
    ls_inv s -> ls_types s id = Some (kt, vt) -> comparable_value kt k = true ->
    big_map_get s id k = Ok (ls_view s id k);
  ls_mem s id kt vt k :
    ls_inv s -> ls_types s id = Some (kt, vt) -> comparable_value kt k = true ->
    big_map_mem s id k = Ok (bool_decide (is_Some (ls_view s id k)));
  ls_update s id kt vt k v :
    ls_inv s -> ls_types s id = Some (kt, vt) -> comparable_value kt k = true ->
    exists s', big_map_update id k v s = (Ok tt, s') /\ ls_inv s' /\
      (forall id', ls_types s' id' = ls_types s id') /\
      (forall id' k', id' <> id -> ls_view s' id' k' = ls_view s id' k') /\
      (forall k', comparable_value kt k' = true ->
         ls_view s' id k' = if comparable_eqb k' k then v else ls_view s id k');
  ls_new s kt vt :
    ls_inv s ->
    exists id s', big_map_new kt vt s = (Ok id, s') /\ ls_inv s' /\ ls_types s id = None /\
      (forall id', ls_types s' id' = if decide (id' = id) then Some (kt, vt) else ls_types s id') /\
      (forall id' k, ls_view s' id' k = if decide (id' = id) then None else ls_view s id' k);
  ls_copy s src kt vt :
    ls_inv s -> ls_types s src = Some (kt, vt) ->
    exists id s', big_map_copy src s = (Ok id, s') /\ ls_inv s' /\ ls_types s id = None /\
      (forall id', ls_types s' id' = ls_types s (if decide (id' = id) then src else id')) /\
      (forall id' k, ls_view s' id' k = ls_view s (if decide (id' = id) then src else id') k);
  ls_remove s id :
    ls_inv s ->
    exists s', big_map_remove id s = (Ok tt, s') /\ ls_inv s' /\ ls_types s' id = None /\
      (forall id', id' <> id -> ls_types s' id' = ls_types s id') /\
      (forall id' k, id' <> id -> ls_view s' id' k = ls_view s id' k)
}.

(** ** [InMemoryLazyStorage] keeps the promise *)

(** Every map is a search tree on keys of its type, and ids are below [next_id]. *)
Definition map_info_ok (info : MapInfo) : Prop :=
  Forall (fun e => comparable_value (mi_key_type info) e.1 = true) (mi_map info) /\
  bt_sorted fst (mi_map info).
Definition im_inv (s : InMemoryLazyStorage) : Prop :=
  forall id info, im_big_maps s !! id = Some info -> (id < im_next_id s)%Z /\ map_info_ok info.
Definition im_types (s : InMemoryLazyStorage) (id : BigMapId) : option (Type_ * Type_) :=
  option_map (fun info => (mi_key_type info, mi_value_type info)) (im_big_maps s !! id).
Definition im_view (s : InMemoryLazyStorage) (id : BigMapId) (k : TypedValue) : option TypedValue :=
  info ← im_big_maps s !! id; option_map snd (bt_spec fst k (mi_map info)).

Lemma im_types_Some s id kt vt :
  im_types s id = Some (kt, vt) ->
  exists m, im_big_maps s !! id = Some (mkMapInfo m kt vt).
Proof.
  unfold im_types. destruct (im_big_maps s !! id) as [[m ? ?]|]; cbn; [|done].
  intros [= -> ->]. eauto.
Qed.

Lemma im_fresh s : im_inv s -> im_big_maps s !! im_next_id s = None.
Proof.
  intros Hs. destruct (im_big_maps s !! im_next_id s) eqn:E; [|done].
  apply Hs in E as [? _]. lia.
Qed.

Lemma im_insert_inv s id info next :
  im_inv s -> map_info_ok info -> (id < next)%Z -> (im_next_id s <= next)%Z ->
  im_inv (mkInMemory next (<[id := info]> (im_big_maps s))).
Proof.
  intros Hs Hi Hid Hnext id' info'. cbn. rewrite lookup_insert_Some.
  intros [[<- <-]|[_ H]]; [done|]. apply Hs in H as [? ?]. split; [lia|done].
Qed.

Lemma im_types_insert s id info next id' :
  im_types (mkInMemory next (<[id := info]> (im_big_maps s))) id' =
  if decide (id' = id) then Some (mi_key_type info, mi_value_type info) else im_types s id'.
Proof.
  unfold im_types. cbn. case_decide as H; [subst; by rewrite lookup_insert_eq|].
  by rewrite lookup_insert_ne.
Qed.

Lemma im_view_insert s id info next id' k :
  im_view (mkInMemory next (<[id := info]> (im_big_maps s))) id' k =
  if decide (id' = id) then option_map snd (bt_spec fst k (mi_map info)) else im_view s id' k.
Proof.
  unfold im_view. cbn. case_decide as H; [subst; by rewrite lookup_insert_eq|].
  by rewrite lookup_insert_ne.
Qed.

Lemma im_read_ok s id kt vt k :
  im_inv s -> im_types s id = Some (kt, vt) -> comparable_value kt k = true ->
  im_big_map_get s id k = Ok (im_view s id k) /\
  im_big_map_mem s id k = Ok (bool_decide (is_Some (im_view s id k))).
Proof.
  intros Hs (m&Hm)%im_types_Some Hk. destruct (Hs _ _ Hm) as [_ [Hkeys Hsort]].
  unfold im_big_map_get, im_big_map_mem, im_view, access_big_map. rewrite Hm. cbn.
  rewrite (bt_find_ok fst kt) by done. cbn. split; [done|].
  f_equal. by destruct (bt_spec fst k m).
Qed.

Lemma im_update_ok s id kt vt k v :
  im_inv s -> im_types s id = Some (kt, vt) -> comparable_value kt k = true ->
  exists m', im_big_map_update id k v s =
      (Ok tt, mkInMemory (im_next_id s) (<[id := mkMapInfo m' kt vt]> (im_big_maps s))) /\
    map_info_ok (mkMapInfo m' kt vt) /\
    (forall k', comparable_value kt k' = true ->
       option_map snd (bt_spec fst k' m') = if comparable_eqb k' k then v else im_view s id k').
Proof.
  intros Hs (m&Hm)%im_types_Some Hk. destruct (Hs _ _ Hm) as [_ [Hkeys Hsort]].
  unfold im_big_map_update, im_view, access_big_map, get, mbind, M_bind, lift.
  rewrite Hm. cbn. destruct v as [v|].
  - destruct (bt_insert_ok fst kt (E := LazyStorageError) (k, v) m Hk Hkeys Hsort)
      as (m'&->&?&?&_&Hspec). exists m'. repeat split; try done.
    intros k' Hk'. rewrite Hspec by done. cbn. by destruct (comparable_eqb k' k).
  - destruct (bt_remove_ok fst kt (E := LazyStorageError) k m Hk Hkeys Hsort)
      as (m'&->&?&?&_&Hspec). exists m'. repeat split; try done.
    intros k' Hk'. rewrite Hspec by done. cbn. by destruct (comparable_eqb k' k).
Qed.

#[global] Program Instance InMemory_laws : LazyStorageLaws InMemoryLazyStorage := {|
  ls_inv := im_inv; ls_types := im_types; ls_view := im_view
|}.
Next Obligation. done. Qed.
Next Obligation. intros. by eapply im_read_ok. Qed.
Next Obligation. intros. by eapply im_read_ok. Qed.
Next Obligation.
  intros s id kt vt k v Hs Ht Hk. destruct (im_update_ok s id kt vt k v Hs Ht Hk) as (m'&Hu&Hok&Hview).
  eexists. split; [exact Hu|]. pose proof Ht as (m&Hm)%im_types_Some. split_and!.
  - apply im_insert_inv; [done..| |lia]. by apply Hs in Hm as [? _].
  - intros id'. rewrite im_types_insert. case_decide; [by subst|done].
  - intros id' k' Hne. rewrite im_view_insert. by rewrite decide_False.
  - intros k' Hk'. rewrite im_view_insert, decide_True by done. by apply Hview.
Qed.
Next Obligation.
  intros s kt vt Hs. exists (im_next_id s). eexists. split; [reflexivity|]. split_and!.
  - apply (im_insert_inv s); [done| |cbn; lia..]. split; constructor.
  - unfold im_types. by rewrite im_fresh.
  - intros id'. apply (im_types_insert s).
  - intros id' k. rewrite (im_view_insert s). by case_decide.
Qed.
Next Obligation.
  intros s src kt vt Hs (m&Hm)%im_types_Some. exists (im_next_id s).
  unfold big_map_copy, InMemory_LazyStorage, im_big_map_copy, get_next_id, access_big_map, get,
    mbind, M_bind, lift. cbn. rewrite Hm. eexists. split; [reflexivity|]. split_and!.
  - apply (im_insert_inv s); [done| |cbn; lia..]. by apply Hs in Hm as [_ ?].
  - unfold im_types. by rewrite im_fresh.
  - intros id'. rewrite (im_types_insert s). case_decide; [|done]. unfold im_types. by rewrite Hm.
  - intros id' k. rewrite (im_view_insert s). case_decide; [|done]. unfold im_view. by rewrite Hm.
Qed.
Next Obligation.
  intros s id Hs. eexists. split; [reflexivity|]. split_and!.
  - intros id' info. cbn. rewrite lookup_delete_Some. intros [_ ?]. by apply Hs.
  - unfold im_types. cbn. by rewrite lookup_delete_eq.
  - intros id' Hne. unfold im_types. cbn. by rewrite lookup_delete_ne.
  - intros id' k Hne. unfold im_view. cbn. by rewrite lookup_delete_ne.
Qed.

(** * Big maps against the interface *)

Section big_map_laws.
Context {St : Type} `{LSL : LazyStorageLaws St}.

(** A big map that fits a storage: its overlay is a search tree on keys of its
    type, its id, if any, is a map of the storage with its types. *)
Definition big_map_ok (s : St) (m : BigMap) : Prop :=
  Forall (fun e => comparable_value (bm_key_type m) e.1 = true) (bm_overlay m) /\
  bt_sorted fst (bm_overlay m) /\
  (forall id, bm_id m = Some id -> ls_types s id = Some (bm_key_type m, bm_value_type m)).

Definition to_dyn (s : St) : DynLazyStorage := mkDyn St LS s.

(** The meaning of a big map: the overlay wins over the storage. *)
Definition big_map_view (s : St) (m : BigMap) (k : TypedValue) : option TypedValue :=
  match bt_spec fst k (bm_overlay m) with
  | Some (_, change) => change
  | None => id ← bm_id m; ls_view s id k
  end.

Lemma BigMap_get_ok s m k :
  ls_inv s -> big_map_ok s m -> comparable_value (bm_key_type m) k = true ->
  BigMap_get m k (to_dyn s) = Ok (big_map_view s m k).
Proof.
  intros Hs (Hk&Hsort&Hid) Hkey. unfold BigMap_get, big_map_view.
  rewrite (bt_find_ok fst (bm_key_type m)) by done. cbn.
  destruct (bt_spec fst k (bm_overlay m)) as [[? c]|]; [done|].
  destruct (bm_id m) as [id|]; [|done]. cbn.
  by apply (ls_get s id _ _ k Hs (Hid id eq_refl)).
Qed.

Lemma BigMap_mem_ok s m k :
  ls_inv s -> big_map_ok s m -> comparable_value (bm_key_type m) k = true ->
  BigMap_mem m k (to_dyn s) = Ok (bool_decide (is_Some (big_map_view s m k))).
Proof.
  intros Hs (Hk&Hsort&Hid) Hkey. unfold BigMap_mem, big_map_view.
  rewrite (bt_find_ok fst (bm_key_type m)) by done. cbn.
  destruct (bt_spec fst k (bm_overlay m)) as [[? c]|]; [done|].
  destruct (bm_id m) as [id|]; [|done]. cbn.
  by apply (ls_mem s id _ _ k Hs (Hid id eq_refl)).
Qed.

Lemma BigMap_update_ok {E} s m k v :
  big_map_ok s m -> comparable_value (bm_key_type m) k = true ->
  exists m', BigMap_update (E := E) m k v = Ok m' /\ big_map_ok s m' /\
    bm_id m' = bm_id m /\ bm_key_type m' = bm_key_type m /\ bm_value_type m' = bm_value_type m /\
    (forall e, e ∈ bm_overlay m' -> e = (k, v) \/ e ∈ bm_overlay m) /\
    forall k', comparable_value (bm_key_type m) k' = true ->
      big_map_view s m' k' = if comparable_eqb k' k then v else big_map_view s m k'.
Proof.
  destruct m as [i o kt vt]. intros (Hk&Hsort&Hid) Hkey. cbn in *. unfold BigMap_update. cbn.
  destruct (bt_insert_ok fst kt (E := E) (k, v) o Hkey Hk Hsort) as (o'&->&?&?&Hin&Hspec).
  eexists. split; [reflexivity|]. cbn. split; [done|]. split_and!; try done.
  intros k' Hk'. unfold big_map_view. cbn. rewrite Hspec by done. cbn. by destruct (comparable_eqb k' k).
Qed.

(** Writing a list of changes into the storage, later ones winning. *)
Lemma bulk_update_ok id kt vt entries s :
  ls_inv s -> ls_types s id = Some (kt, vt) ->
  Forall (fun e => comparable_value kt e.1 = true) entries -> bt_sorted fst entries ->
  exists s', big_map_bulk_update id entries s = (Ok tt, s') /\ ls_inv s' /\
    (forall id', ls_types s' id' = ls_types s id') /\
    (forall id' k, id' <> id -> ls_view s' id' k = ls_view s id' k) /\
    forall k, comparable_value kt k = true ->
      ls_view s' id k = match bt_spec fst k entries with
                        | Some (_, change) => change
                        | None => ls_view s id k
                        end.
Proof.
  intros Hs Ht Hk Hsort. revert s Hs Ht.
  induction Hsort as [|[k v] entries Hsort IH Hlt]; intros s Hs Ht; [by eauto 10|].
  apply Forall_cons in Hk as [Hk Hks]. cbn in Hk.
  destruct (ls_update s id kt vt k v Hs Ht Hk) as (s1&Hu&Hs1&Ht1&Hother&Hview).
  destruct (IH Hks s1 Hs1) as (s2&Hb&Hs2&Ht2&Hother2&Hview2); [by rewrite Ht1|].
  exists s2. cbn. unfold mbind at 1, M_bind. rewrite Hu. split; [done|]. split; [done|].
  split; [intros; by rewrite Ht2, Ht1|]. split; [intros; by rewrite Hother2, Hother by done|].
  intros k' Hk'. rewrite bt_spec_cons, Hview2, Hview by done. cbn.
  destruct (comparable_eqb k' k) eqn:E; [|done].
  apply (comparable_eqb_eq kt) in E as ->; [|done..].
  by rewrite (bt_spec_below fst k).
Qed.
End big_map_laws.

(** * Properties *)

(** A storage with one map [0 : int -> string]. *)
Definition ex_storage : InMemoryLazyStorage :=
  mkInMemory 1 {[ 0%Z := mkMapInfo [(V_Int 1, V_String (str "a")); (V_Int 2, V_String (str "b"))]
                    T_Int T_String ]}.
Lemma ex_storage_inv : im_inv ex_storage.
Proof.
  intros id info. cbn. rewrite lookup_singleton_Some. intros [<- <-].
  split; [done|]. split; cbn; repeat constructor.
Qed.
(** The storage the library ships: copying a map returns an id that was not in use;
    the copy reads like the source, and updating the copy afterwards changes neither the source nor
    the types of any map. *)
Theorem in_memory_copy_isolated (s : InMemoryLazyStorage) (src : BigMapId) (kt vt : Type_)
    (k : TypedValue) (v : option TypedValue)
    (Hs : im_inv s) (Hsrc : im_types s src = Some (kt, vt)) (Hk : comparable_value kt k = true) :
  exists id s1 s2,
    im_big_map_copy src s = (Ok id, s1) /\ im_big_maps s !! id = None /\
    (forall k', comparable_value kt k' = true -> im_big_map_get s1 id k' = im_big_map_get s src k') /\
    im_big_map_update id k v s1 = (Ok tt, s2) /\ im_inv s2 /\
    im_big_map_get s2 id k = Ok v /\
    (forall k', comparable_value kt k' = true -> im_big_map_get s2 src k' = im_big_map_get s src k') /\
    (forall id', im_types s2 id' = im_types s (if decide (id' = id) then src else id')).
Proof.
  destruct (ls_copy (LazyStorageLaws := InMemory_laws) s src kt vt Hs Hsrc) as (id&s1&Hc&Hs1&Hfresh&Ht1&Hv1). cbn in *.
  assert (Hid : im_types s1 id = Some (kt, vt)) by (by rewrite Ht1, decide_True).
  destruct (ls_update (LazyStorageLaws := InMemory_laws) s1 id kt vt k v Hs1 Hid Hk) as (s2&Hu&Hs2&Ht2&Ho2&Hv2). cbn in *.
  assert (Hne : src <> id) by congruence.
  assert (Hsrc1 : im_types s1 src = Some (kt, vt)) by (by rewrite Ht1, decide_False).
  exists id, s1, s2. split_and!; try done.
  - unfold im_types in Hfresh. by destruct (im_big_maps s !! id).
  - intros k' Hk'. rewrite (proj1 (im_read_ok s1 id kt vt k' Hs1 Hid Hk')).
    rewrite (proj1 (im_read_ok s src kt vt k' Hs Hsrc Hk')). by rewrite Hv1, decide_True.
  - rewrite (proj1 (im_read_ok s2 id kt vt k Hs2 (eq_trans (Ht2 id) Hid) Hk)).
    by rewrite Hv2, (comparable_eqb_refl kt).
  - intros k' Hk'. rewrite (proj1 (im_read_ok s2 src kt vt k' Hs2 (eq_trans (Ht2 src) Hsrc1) Hk')).
    rewrite (proj1 (im_read_ok s src kt vt k' Hs Hsrc Hk')). by rewrite Ho2, Hv1, decide_False.
  - intros id'. by rewrite Ht2, Ht1.
Qed.

Lemma in_memory_copy_isolated_witness :
  exists id s1 s2, im_big_map_copy 0%Z ex_storage = (Ok id, s1) /\
    im_big_map_update id (V_Int 1) None s1 = (Ok tt, s2) /\
    im_big_map_get s2 0%Z (V_Int 1) = Ok (Some (V_String (str "a"))).
Proof.
  destruct (in_memory_copy_isolated ex_storage 0%Z T_Int T_String (V_Int 1) None
    ex_storage_inv eq_refl eq_refl) as (id&s1&s2&Hc&_&_&Hu&_&_&Hsrc&_).
  exists id, s1, s2. split; [exact Hc|]. split; [exact Hu|].
  rewrite Hsrc by reflexivity. reflexivity.
Defined.
