(* ===== verification/BigMapDump.v ===== *)
(** Writing big maps back to the storage after a call.

    Models the last part of [contrib/mir/src/ast/big_map.rs]: collecting the big maps of a
    value ([collect_big_maps], [view_big_maps_mut], [view_big_map_ids]) and
    [dump_big_map_updates].

    [finished_with_maps] is a slice of distinct mutable references: the state holds the
    maps and a reference is an index.  [grouped_maps], a [BTreeMap], is the list of its
    entries in ascending order of ids. *)

From S2P Require Import Prelude Syntax Comparable BigMap.

(** * Collecting *)

(** [collect_big_maps] with the closure that pushes to a vector: [view_big_maps_mut]. *)
Fixpoint view_big_maps (v : TypedValue) : list BigMap :=
  match v with
  | V_Pair l r => view_big_maps l ++ view_big_maps r
  | V_Or (Or_Left x) | V_Or (Or_Right x) => view_big_maps x
  | V_Option (Some x) => view_big_maps x
  | V_List l => mjoin (map view_big_maps l)
  | V_Map m => mjoin (map (fun e => view_big_maps e.2) m)
  | V_BigMap m => [m]
  | V_Operation (mkOperationInfo (Op_TransferTokens p _ _) _) => view_big_maps p
  | V_Operation (mkOperationInfo (Op_CreateContract _ _ s _ _) _) => view_big_maps s
  | _ => []
  end.

Definition view_big_map_ids (v : TypedValue) : list BigMapId := omap bm_id (view_big_maps v).

(** * Dumping *)

(** [NonEmpty] lists of references, by id. *)
Abbreviation Grouped := (list (BigMapId * (nat * list nat))).

(** [grouped_maps.entry(id)]: a new group, or one more map in the group. *)
Fixpoint group_insert (id : BigMapId) (i : nat) (g : Grouped) : Grouped :=
  match g with
  | [] => [(id, (i, []))]
  | (id', (main, others)) :: g' =>
      match Z.compare id id' with
      | Lt => (id, (i, [])) :: g
      | Eq => (id', (main, others ++ [i])) :: g'
      | Gt => (id', (main, others)) :: group_insert id i g'
      end
  end.
Definition group_contains (id : BigMapId) (g : Grouped) : bool := bool_decide (id ∈ g.*1).

Section dump.
Context {St : Type} `{LS : LazyStorage St}.

(** The storage and the referenced maps. *)
Abbreviation dumpM := (M (St * list BigMap) LazyStorageError).

Definition store {A} (m : M St LazyStorageError A) : dumpM A := fun s =>
  let '(r, st) := m s.1 in (r, (st, s.2)).
Definition deref (i : nat) : dumpM BigMap := fun s =>
  match s.2 !! i with Some m => (Ok m, s) | None => (Panic PUnwrap, s) end.
Definition assign (i : nat) (m : BigMap) : dumpM unit := fun s => (Ok tt, (s.1, <[i := m]> s.2)).

(** [storage.big_map_bulk_update(&id, mem::take(&mut map.overlay))]. *)
Definition flush_overlay (id : BigMapId) (i : nat) : dumpM unit :=
  map ← deref i;
  _ ← assign i (mkBigMap (bm_id map) [] (bm_key_type map) (bm_value_type map));
  store (big_map_bulk_update id (bm_overlay map)).
(** [map.id = Some(id)]. *)
Definition set_id (id : BigMapId) (i : nat) : dumpM unit :=
  map ← deref i;
  assign i (mkBigMap (Some id) (bm_overlay map) (bm_key_type map) (bm_value_type map)).

(** The first loop: group the maps of the storage, create those still in memory. *)
Fixpoint group_maps (refs : list nat) (g : Grouped) : dumpM Grouped :=
  match refs with
  | [] => mret g
  | i :: refs =>
      map ← deref i;
      g ← match bm_id map with
          | Some id => mret (group_insert id i g)
          | None =>
              id ← store (big_map_new (bm_key_type map) (bm_value_type map));
              _ ← flush_overlay id i;
              _ ← set_id id i;
              mret g
          end;
      group_maps refs g
  end.

(** The second loop: remove big maps that were gone. *)
Fixpoint remove_gone (started : list BigMapId) (g : Grouped) : dumpM unit :=
  match started with
  | [] => mret tt
  | id :: started =>
      _ ← match group_contains id g with true => mret tt | false => store (big_map_remove id) end;
      remove_gone started g
  end.

(** The third loop: copies for the maps that share an id, the first one in place. *)
Fixpoint copy_others (id : BigMapId) (others : list nat) : dumpM unit :=
  match others with
  | [] => mret tt
  | i :: others =>
      new_id ← store (big_map_copy id);
      _ ← flush_overlay new_id i;
      _ ← set_id new_id i;
      copy_others id others
  end.
Fixpoint update_groups (g : Grouped) : dumpM unit :=
  match g with
  | [] => mret tt
  | (id, (main, others)) :: g =>
      _ ← copy_others id others;
      _ ← flush_overlay id main;
      update_groups g
  end.

Definition dump_big_map_updates (started_with_map_ids : list BigMapId) : dumpM unit := fun s =>
  (g ← group_maps (seq 0 (length s.2)) [];
   _ ← remove_gone started_with_map_ids g;
   update_groups g) s.
End dump.

(** * Correctness *)

Section correct.
Context {St : Type} `{LSL : LazyStorageLaws St}.
(** The storage, the maps and the ids the dump starts from. *)
Context (s0 : St) (maps0 : list BigMap) (started : list BigMapId).

(** Maps of the storage the dump has no business with. *)
Definition unrelated (id : BigMapId) : Prop :=
  is_Some (ls_types s0 id) /\ (id ∉ started) /\ forall m, m ∈ maps0 -> bm_id m <> Some id.

Definition holds (maps : list BigMap) (i : nat) (id : BigMapId) : Prop :=
  exists m, maps !! i = Some m /\ bm_id m = Some id.

(** What a reference holds during the dump: the original map, or, once flushed, a map without
    overlay; it always reads as the original. *)
Definition ref_ok (s : St) (flushed : gset nat) (i : nat) (m : BigMap) : Prop :=
  exists m0, maps0 !! i = Some m0 /\
    bm_key_type m = bm_key_type m0 /\ bm_value_type m = bm_value_type m0 /\ big_map_ok s m /\
    (forall k, comparable_value (bm_key_type m0) k = true -> big_map_view s m k = big_map_view s0 m0 k) /\
    (if decide (i ∈ flushed) then bm_overlay m = [] /\ is_Some (bm_id m) else m = m0).

Record dump_inv (removed : list BigMapId) (flushed : gset nat) (s : St) (maps : list BigMap) : Prop := {
  di_inv : ls_inv s;
  di_len : length maps = length maps0;
  di_ref i m : maps !! i = Some m -> ref_ok s flushed i m;
  di_distinct i j id : i ∈ flushed -> i <> j -> holds maps i id -> holds maps j id -> False;
  di_dom id : is_Some (ls_types s id) <->
    (exists i, holds maps i id) \/ (is_Some (ls_types s0 id) /\ id ∉ removed);
  di_frame id : unrelated id ->
    ls_types s id = ls_types s0 id /\ (forall k, ls_view s id k = ls_view s0 id k) /\ forall i, ~ holds maps i id
}.

Lemma holds_insert maps i m j id :
  i < length maps ->
  holds (<[i := m]> maps) j id <-> (j = i /\ bm_id m = Some id) \/ (j <> i /\ holds maps j id).
Proof.
  intros Hi. unfold holds. destruct (decide (j = i)) as [->|Hne].
  - rewrite list_lookup_insert_eq by done. naive_solver.
  - rewrite list_lookup_insert_ne by done. naive_solver.
Qed.

Lemma ref_in_storage removed flushed s maps i id :
  dump_inv removed flushed s maps -> holds maps i id -> is_Some (ls_types s id).
Proof. intros H Hi. apply (di_dom _ _ _ _ H). eauto. Qed.

(** Flushing the reference [i] into the map [id] of a storage [s1] that differs from [s] at most
    at [id]. *)
Lemma flush_step removed flushed s maps i m id s1 :
  dump_inv removed flushed s maps -> i ∉ flushed -> maps !! i = Some m ->
  ls_inv s1 -> (forall id', id' <> id -> ls_types s1 id' = ls_types s id' /\ forall k, ls_view s1 id' k = ls_view s id' k) ->
  ls_types s1 id = Some (bm_key_type m, bm_value_type m) ->
  (forall k, ls_view s1 id k = (id0 ← bm_id m; ls_view s id0 k)) ->
  (forall j, j <> i -> ~ holds maps j id) -> ~ unrelated id ->
  (forall id0, bm_id m = Some id0 -> id0 = id \/ exists j, j <> i /\ holds maps j id0) ->
  exists s2, big_map_bulk_update id (bm_overlay m) s1 = (Ok tt, s2) /\
    dump_inv removed ({[i]} ∪ flushed) s2 (<[i := mkBigMap (Some id) [] (bm_key_type m) (bm_value_type m)]> maps).
Proof.
  intros Hinv Hi Hm Hs1 Hother Ht Hbase Hfresh Hun Hold.
  pose proof (lookup_lt_Some _ _ _ Hm) as Hlt.
  destruct (di_ref _ _ _ _ Hinv i m Hm) as (m0&Hm0&Hkt&Hvt&(Hkeys&Hsort&_)&Hview&Hc).
  rewrite decide_False in Hc by done. subst m0.
  destruct (bulk_update_ok id _ _ _ s1 Hs1 Ht Hkeys Hsort) as (s2&Hu&Hs2&Ht2&Ho2&Hv2).
  exists s2. split; [done|]. split.
  - done.
  - rewrite length_insert. apply Hinv.
  - intros j mj. rewrite list_lookup_insert_Some. intros [(<-&<-&_)|[Hne Hj]].
    + exists m. split_and!; [done..| | |].
      * split; [constructor|]. split; [constructor|]. intros ? [= <-]. by rewrite Ht2.
      * intros k Hk. rewrite <- (Hview k Hk). unfold big_map_view. cbn. rewrite Hv2 by done. by rewrite Hbase.
      * rewrite decide_True by set_solver. done.
    + destruct (di_ref _ _ _ _ Hinv j mj Hj) as (mj0&Hmj0&?&?&(?&?&Hid)&Hvj&Hcj).
      assert (Hnid : forall id', bm_id mj = Some id' -> id' <> id).
      { intros id' Hid' ->. by apply (Hfresh j); [|exists mj]. }
      exists mj0. split_and!; [done..| | |].
      * split_and!; [done..|]. intros id' Hid'. rewrite Ht2. rewrite (proj1 (Hother id' (Hnid _ Hid'))). by apply Hid.
      * intros k Hk. rewrite <- (Hvj k Hk). unfold big_map_view. destruct (bt_spec fst k (bm_overlay mj)); [done|].
        destruct (bm_id mj) as [id'|]; [|done]. cbn. specialize (Hnid _ eq_refl).
        by rewrite Ho2, (proj2 (Hother id' Hnid)).
      * destruct (decide (j ∈ flushed)); [rewrite decide_True by set_solver|rewrite decide_False by set_solver]; done.
  - intros a b id' Ha Hab. rewrite !holds_insert by done. cbn.
    intros [[-> Ha1]|[Ha1 Ha2]] [[-> Hb1]|[Hb1 Hb2]]; simplify_eq; try done.
    + by apply (Hfresh b).
    + by apply (Hfresh a).
    + eapply (di_distinct _ _ _ _ Hinv a b); [set_solver|done..].
  - intros id'. rewrite Ht2. destruct (decide (id' = id)) as [->|Hne].
    + rewrite Ht. split; [|by eauto]. intros _. left. exists i. rewrite holds_insert by done. naive_solver.
    + rewrite (proj1 (Hother id' Hne)), (di_dom _ _ _ _ Hinv). apply or_iff_compat_r. split.
      * intros [j Hj]. destruct (decide (j = i)) as [->|Hji].
        -- destruct Hj as (?&?&Hid). simplify_eq. destruct (Hold id' Hid) as [|(j&?&?)]; [done|].
           exists j. rewrite holds_insert by done. naive_solver.
        -- exists j. rewrite holds_insert by done. naive_solver.
      * intros [j Hj]. rewrite holds_insert in Hj by done. cbn in Hj. naive_solver.
  - intros id' Hid'. assert (Hne : id' <> id) by naive_solver.
    destruct (di_frame _ _ _ _ Hinv id' Hid') as (Hft&Hfv&Hfh). split_and!.
    + by rewrite Ht2, (proj1 (Hother id' Hne)).
    + intros k. by rewrite Ho2, (proj2 (Hother id' Hne)).
    + intros j. rewrite holds_insert by done. cbn. naive_solver.
Qed.

Lemma flush_overlay_run id i m s1 s2 maps :
  maps !! i = Some m -> big_map_bulk_update id (bm_overlay m) s1 = (Ok tt, s2) ->
  flush_overlay id i (s1, maps) = (Ok tt, (s2, <[i := mkBigMap (bm_id m) [] (bm_key_type m) (bm_value_type m)]> maps)).
Proof.
  intros Hm Hu. unfold flush_overlay, deref, assign, store, mbind, M_bind. cbn. rewrite Hm. cbn. by rewrite Hu.
Qed.

Lemma bind_run {S A B} (m : M S LazyStorageError A) (f : A -> M S LazyStorageError B) s a s' :
  m s = (Ok a, s') -> (m ≫= f) s = f a s'.
Proof. intros H. unfold mbind, M_bind. by rewrite H. Qed.

(** Allocating a map and moving the overlay there. *)
Lemma move_run {A} alloc id i m s s1 s2 maps (k : M (St * list BigMap) LazyStorageError A) :
  alloc s = (Ok id, s1) -> maps !! i = Some m -> big_map_bulk_update id (bm_overlay m) s1 = (Ok tt, s2) ->
  (id ← store alloc; _ ← flush_overlay id i; _ ← set_id id i; k) (s, maps) =
  k (s2, <[i := mkBigMap (Some id) [] (bm_key_type m) (bm_value_type m)]> maps).
Proof.
  intros Ha Hm Hu. rewrite (bind_run _ _ _ id (s1, maps)) by (unfold store; cbn; by rewrite Ha).
  erewrite bind_run by (by apply (flush_overlay_run _ _ m _ s2)). cbn beta.
  unfold set_id, deref, assign, mbind, M_bind. cbn.
  rewrite list_lookup_insert_eq by (by eapply lookup_lt_Some). cbn. by rewrite list_insert_insert_eq.
Qed.

(** ** Groups *)

(** Groups are sorted by id and list references to maps with that id. *)
Definition group_ok (e : BigMapId * (nat * list nat)) : Prop :=
  NoDup (e.2.1 :: e.2.2) /\ forall i, i ∈ e.2.1 :: e.2.2 -> holds maps0 i e.1.
Definition grouped_ok (g : Grouped) : Prop := StronglySorted Z.lt g.*1 /\ Forall group_ok g.
Definition covers (g : Grouped) (i : nat) : Prop := exists e, e ∈ g /\ i ∈ e.2.1 :: e.2.2.

Lemma covers_cons e g i : covers (e :: g) i <-> i ∈ e.2.1 :: e.2.2 \/ covers g i.
Proof. unfold covers. set_solver. Qed.

Lemma covers_holds g i : grouped_ok g -> covers g i -> exists id, holds maps0 i id.
Proof.
  intros [_ Hg] (e&He&Hi). apply (proj1 (Forall_forall _ _) Hg) in He as [_ He]. eauto.
Qed.

Lemma group_insert_keys id i g k : k ∈ (group_insert id i g).*1 -> k = id \/ k ∈ g.*1.
Proof.
  induction g as [|[id' [main others]] g IH]; cbn; [set_solver|].
  destruct (Z.compare id id'); cbn; set_solver.
Qed.

Lemma group_insert_covers id i g j : covers (group_insert id i g) j <-> j = i \/ covers g j.
Proof.
  induction g as [|[id' [main others]] g IH]; cbn [group_insert].
  - rewrite covers_cons. cbn. set_solver.
  - destruct (Z.compare id id'); rewrite !covers_cons; cbn; [set_solver|set_solver|rewrite IH; tauto].
Qed.

Lemma group_insert_ok id i g :
  grouped_ok g -> holds maps0 i id -> ~ covers g i -> grouped_ok (group_insert id i g).
Proof.
  intros [Hs Hg] Hi Hc. assert (Hnew : group_ok (id, (i, []))).
  { split; cbn; [apply NoDup_singleton|]. intros j Hj. by apply list_elem_of_singleton in Hj as ->. }
  induction g as [|[id' [main others]] g IH]; cbn [group_insert].
  { split; [cbn; repeat constructor|by constructor]. }
  cbn in Hs. apply StronglySorted_inv in Hs as [Hs Hlt]. apply Forall_cons in Hg as [Hg1 Hg].
  destruct (Z.compare_spec id id') as [->|Hid|Hid].
  - split; [by constructor|]. constructor; [|done]. destruct Hg1 as [Hnd Hh]. split; cbn in *.
    + rewrite app_comm_cons, NoDup_app. split_and!; [done| |apply NoDup_singleton].
      intros j Hj ->%list_elem_of_singleton. apply Hc. exists (id', (main, others)). set_solver.
    + intros j Hj. assert (j ∈ main :: others \/ j = i) as [| ->] by set_solver; [by apply Hh|done].
  - split; [|by constructor; [|constructor]]. cbn. constructor; [by constructor|].
    constructor; [done|]. eapply Forall_impl; [exact Hlt|]. cbn. lia.
  - rewrite covers_cons in Hc. destruct IH as [IH1 IH2]; [done|done|tauto|].
    split; [|by constructor]. cbn. constructor; [done|]. apply Forall_forall. intros k Hk.
    apply group_insert_keys in Hk as [-> |Hk]; [done|]. by eapply (proj1 (Forall_forall _ _) Hlt).
Qed.

(** ** The three loops *)

(** Maps created by the first loop: they had no id, and the one they get is new. *)
Definition created (flushed : gset nat) (maps : list BigMap) : Prop :=
  forall i id, i ∈ flushed -> ~ holds maps0 i id /\ (holds maps i id -> ls_types s0 id = None).

Lemma unflushed_original removed flushed s maps i m :
  dump_inv removed flushed s maps -> i ∉ flushed -> maps !! i = Some m -> maps0 !! i = Some m.
Proof.
  intros H Hi Hm. destruct (di_ref _ _ _ _ H i m Hm) as (m0&Hm0&_&_&_&_&Hc).
  rewrite decide_False in Hc by done. by subst.
Qed.

Lemma create_step flushed s maps i m :
  dump_inv [] flushed s maps -> created flushed maps -> i ∉ flushed -> maps !! i = Some m -> bm_id m = None ->
  exists id s1 s2, big_map_new (bm_key_type m) (bm_value_type m) s = (Ok id, s1) /\
    big_map_bulk_update id (bm_overlay m) s1 = (Ok tt, s2) /\
    let maps' := <[i := mkBigMap (Some id) [] (bm_key_type m) (bm_value_type m)]> maps in
    dump_inv [] ({[i]} ∪ flushed) s2 maps' /\ created ({[i]} ∪ flushed) maps'.
Proof.
  intros Hinv Hcr Hi Hm Hid.
  destruct (ls_new s (bm_key_type m) (bm_value_type m) (di_inv _ _ _ _ Hinv)) as (id&s1&Hn&Hs1&Hfr&Ht1&Hv1).
  assert (Hno : forall j, ~ holds maps j id).
  { intros j Hj. apply (ref_in_storage _ _ _ _ _ _ Hinv) in Hj. rewrite Hfr in Hj. by destruct Hj. }
  assert (H0 : ls_types s0 id = None).
  { apply eq_None_not_Some. intros Hsome. assert (is_Some (ls_types s id)) as Habs.
    { apply (di_dom _ _ _ _ Hinv). right. split; [done|]. by apply not_elem_of_nil. }
    rewrite Hfr in Habs. by destruct Habs. }
  destruct (flush_step [] flushed s maps i m id s1) as (s2&Hu&Hinv'); try done.
  - intros id' Hne. split; [by rewrite Ht1, decide_False|]. intros k. by rewrite Hv1, decide_False.
  - by rewrite Ht1, decide_True.
  - intros k. by rewrite Hv1, decide_True, Hid.
  - intros [Hsome _]. rewrite H0 in Hsome. by destruct Hsome.
  - by rewrite Hid.
  - exists id, s1, s2. cbn zeta. split_and!; [done..|]. intros j id' Hj.
    pose proof (lookup_lt_Some _ _ _ Hm) as Hlt. rewrite holds_insert by done.
    apply elem_of_union in Hj as [->%elem_of_singleton|Hj]; [|destruct (Hcr j id' Hj); naive_solver].
    split; [|cbn; naive_solver]. intros (m0&Hm0&Hid0).
    rewrite (unflushed_original _ _ _ _ _ _ Hinv Hi Hm) in Hm0. by simplify_eq.
Qed.

Lemma group_maps_ok refs : forall g flushed s maps,
  dump_inv [] flushed s maps -> created flushed maps -> grouped_ok g -> NoDup refs ->
  (forall i, i ∈ refs -> i < length maps0 /\ (i ∉ flushed) /\ ~ covers g i) ->
  exists g' flushed' s' maps', group_maps refs g (s, maps) = (Ok g', (s', maps')) /\
    dump_inv [] flushed' s' maps' /\ created flushed' maps' /\ grouped_ok g' /\
    forall i, i ∈ refs \/ covers g i \/ i ∈ flushed -> covers g' i \/ i ∈ flushed'.
Proof.
  induction refs as [|i refs IH]; intros g flushed s maps Hinv Hcr Hg Hnd Hrefs.
  { exists g, flushed, s, maps. split_and!; [done..|]. intros i [[]%not_elem_of_nil|?]; done. }
  apply NoDup_cons in Hnd as [Hi Hnd]. destruct (Hrefs i ltac:(set_solver)) as (Hlt&Hf&Hc).
  destruct (lookup_lt_is_Some_2 maps i) as [m Hm]; [by rewrite (di_len _ _ _ _ Hinv)|].
  cbn [group_maps]. rewrite (bind_run _ _ _ m (s, maps)) by (unfold deref; cbn; by rewrite Hm).
  destruct (bm_id m) as [id|] eqn:Hid.
  - pose proof (unflushed_original _ _ _ _ _ _ Hinv Hf Hm) as Hm0.
    destruct (IH (group_insert id i g) flushed s maps) as (g'&f'&s'&maps'&Hrun&?&?&?&Hcov); try done.
    + apply group_insert_ok; [done| |done]. by exists m.
    + intros j Hj. rewrite group_insert_covers. destruct (Hrefs j ltac:(set_solver)). set_solver.
    + exists g', f', s', maps'. split_and!; try done. intros j Hj. apply Hcov. rewrite group_insert_covers. set_solver.
  - destruct (create_step flushed s maps i m Hinv Hcr Hf Hm Hid) as (id&s1&s2&Hn&Hu&Hinv'&Hcr').
    destruct (IH g ({[i]} ∪ flushed) s2 _ Hinv' Hcr' Hg Hnd) as (g'&f'&s'&maps'&Hrun&?&?&?&Hcov).
    + intros j Hj. destruct (Hrefs j ltac:(set_solver)). set_solver.
    + exists g', f', s', maps'. split_and!; try done; [|intros j Hj; apply Hcov; set_solver].
      erewrite bind_run by (by apply (move_run _ id i m s s1 s2)). done.
Qed.

(** Storages that differ at [id] only, which [m] does not use. *)
Lemma big_map_frame s s1 id m :
  (forall id', id' <> id -> ls_types s1 id' = ls_types s id') ->
  (forall id' k, id' <> id -> ls_view s1 id' k = ls_view s id' k) -> bm_id m <> Some id -> big_map_ok s m ->
  big_map_ok s1 m /\ forall k, big_map_view s1 m k = big_map_view s m k.
Proof.
  intros Ht Hv Hm (?&?&Hid). split; [split_and!; [done..|]|].
  - intros id' Hid'. rewrite Ht by congruence. by apply Hid.
  - intros k. unfold big_map_view. destruct (bt_spec fst k (bm_overlay m)); [done|].
    destruct (bm_id m) as [id'|]; [|done]. cbn. apply Hv. congruence.
Qed.

Lemma remove_step removed flushed s maps id s1 :
  dump_inv removed flushed s maps -> id ∈ started -> (forall i, ~ holds maps i id) ->
  ls_inv s1 -> ls_types s1 id = None ->
  (forall id', id' <> id -> ls_types s1 id' = ls_types s id') ->
  (forall id' k, id' <> id -> ls_view s1 id' k = ls_view s id' k) ->
  dump_inv (id :: removed) flushed s1 maps.
Proof.
  intros Hinv Hst Hno Hs1 Ht1 Ho1 Hv1. split; [done|apply Hinv| |apply Hinv| |].
  - intros i m Hm. destruct (di_ref _ _ _ _ Hinv i m Hm) as (m0&Hm0&?&?&Hok&Hview&?).
    destruct (big_map_frame s s1 id m) as [Hok1 Hview1]; try done; [intros ?; apply (Hno i); by exists m|].
    exists m0. split_and!; try done. intros k Hk. by rewrite Hview1, Hview.
  - intros id'. destruct (decide (id' = id)) as [->|Hne].
    + rewrite Ht1. split; [by intros []|]. intros [[i Hi]|[_ H]]; [by apply Hno in Hi|set_solver].
    + rewrite Ho1, (di_dom _ _ _ _ Hinv) by done. apply or_iff_compat_l. set_solver.
  - intros id' Hid'. assert (Hne : id' <> id) by (intros ->; by apply Hid').
    destruct (di_frame _ _ _ _ Hinv id' Hid') as (?&?&?). split_and!; [by rewrite Ho1| |done].
    intros k. by rewrite Hv1.
Qed.

Lemma remove_gone_ok g flushed ids : forall removed s maps,
  dump_inv removed flushed s maps -> (forall id, id ∈ ids -> id ∈ started) ->
  (forall i id, holds maps i id -> id ∈ ids -> id ∈ g.*1) ->
  exists removed' s', remove_gone ids g (s, maps) = (Ok tt, (s', maps)) /\
    dump_inv removed' flushed s' maps /\
    forall id, id ∈ removed' <-> id ∈ removed \/ (id ∈ ids /\ id ∉ g.*1).
Proof.
  induction ids as [|id ids IH]; intros removed s maps Hinv Hst Hh.
  { exists removed, s. split_and!; [done..|]. set_solver. }
  cbn [remove_gone]. unfold group_contains. case_bool_decide as Hin.
  - destruct (IH removed s maps) as (removed'&s'&Hrun&?&?); [done|set_solver..|].
    exists removed', s'. split_and!; [done..|]. set_solver.
  - destruct (ls_remove s id (di_inv _ _ _ _ Hinv)) as (s1&Hr&Hs1&Ht1&Ho1&Hv1).
    assert (Hno : forall i, ~ holds maps i id) by (intros i Hi; apply Hin, (Hh i); set_solver).
    destruct (IH (id :: removed) s1 maps) as (removed'&s'&Hrun&?&?); [|set_solver..|].
    2:{ exists removed', s'. split_and!; [|done|set_solver].
        by rewrite (bind_run _ _ _ tt (s1, maps)) by (unfold store; cbn; by rewrite Hr). }
    apply remove_step with (s := s); try done. apply Hst. set_solver.
Qed.

(** An unflushed reference other than [main], which keeps the id, gets a copy. *)
Lemma copy_step removed flushed s maps id main i :
  dump_inv removed flushed s maps -> i ∉ flushed -> main ∉ flushed -> i <> main ->
  holds maps i id -> holds maps main id ->
  exists m new_id s1 s2, maps !! i = Some m /\ big_map_copy id s = (Ok new_id, s1) /\
    big_map_bulk_update new_id (bm_overlay m) s1 = (Ok tt, s2) /\
    dump_inv removed ({[i]} ∪ flushed) s2
      (<[i := mkBigMap (Some new_id) [] (bm_key_type m) (bm_value_type m)]> maps).
Proof.
  intros Hinv Hi Hmain Hne (m&Hm&Hid) Hh.
  destruct (di_ref _ _ _ _ Hinv i m Hm) as (_&_&_&_&(_&_&Ht)&_).
  destruct (ls_copy s id _ _ (di_inv _ _ _ _ Hinv) (Ht id Hid)) as (new_id&s1&Hc&Hs1&Hfr&Ht1&Hv1).
  assert (Hno : forall j, ~ holds maps j new_id).
  { intros j Hj. apply (ref_in_storage _ _ _ _ _ _ Hinv) in Hj. rewrite Hfr in Hj. by destruct Hj. }
  destruct (flush_step removed flushed s maps i m new_id s1) as (s2&Hu&Hinv'); try done.
  - intros id' Hd. split; [by rewrite Ht1, decide_False|]. intros k. by rewrite Hv1, decide_False.
  - rewrite Ht1, decide_True by done. by apply Ht.
  - intros k. by rewrite Hv1, decide_True, Hid.
  - intros Hun. destruct (di_frame _ _ _ _ Hinv _ Hun) as (Hft&_&_). destruct Hun as [[? Hsome] _]. congruence.
  - intros id0 Hid0. right. exists main. by simplify_eq.
  - eauto 10.
Qed.

Lemma holds_insert_ne maps i m j id : j <> i -> holds (<[i := m]> maps) j id <-> holds maps j id.
Proof. intros Hne. unfold holds. by rewrite list_lookup_insert_ne. Qed.

Lemma copy_others_ok removed id main others : forall flushed s maps,
  dump_inv removed flushed s maps -> NoDup (main :: others) ->
  (forall i, i ∈ main :: others -> i ∉ flushed) -> (forall i, i ∈ main :: others -> holds maps i id) ->
  exists s' maps', copy_others id others (s, maps) = (Ok tt, (s', maps')) /\
    dump_inv removed (list_to_set others ∪ flushed) s' maps'.
Proof.
  induction others as [|i others IH]; intros flushed s maps Hinv Hnd Hf Hh.
  { exists s, maps. split; [done|]. by rewrite list_to_set_nil, union_empty_l_L. }
  assert (Hne : i <> main) by (intros ->; apply NoDup_cons in Hnd as [Hnd _]; set_solver).
  destruct (copy_step removed flushed s maps id main i) as (m&new_id&s1&s2&Hm&Hc&Hu&Hinv');
    [done|apply Hf; set_solver|apply Hf; set_solver|done|apply Hh; set_solver|apply Hh; set_solver|].
  destruct (IH ({[i]} ∪ flushed) s2 _ Hinv') as (s'&maps'&Hrun&Hfin).
  - apply NoDup_cons in Hnd as [? Hnd]. apply NoDup_cons in Hnd as [? Hnd]. constructor; [set_solver|done].
  - intros j Hj. assert (j <> i).
    { intros ->. apply NoDup_cons in Hnd as [? Hnd]. apply NoDup_cons in Hnd as [? _]. set_solver. }
    specialize (Hf j). set_solver.
  - intros j Hj. rewrite holds_insert_ne; [apply Hh; set_solver|].
    intros ->. apply NoDup_cons in Hnd as [? Hnd]. apply NoDup_cons in Hnd as [? _]. set_solver.
  - exists s', maps'. split; [|by replace (list_to_set (i :: others) ∪ flushed)
      with (list_to_set others ∪ ({[i]} ∪ flushed)) by set_solver].
    cbn [copy_others]. by rewrite (move_run _ new_id i m s s1 s2).
Qed.

Lemma unflushed_holds removed flushed s maps i id :
  dump_inv removed flushed s maps -> i ∉ flushed -> holds maps i id <-> holds maps0 i id.
Proof.
  intros Hinv Hi. split; intros (m&Hm&Hid).
  - exists m. split; [|done]. by eapply unflushed_original.
  - destruct (lookup_lt_is_Some_2 maps i) as [m' Hm'].
    { rewrite (di_len _ _ _ _ Hinv). by eapply lookup_lt_Some. }
    pose proof (unflushed_original _ _ _ _ _ _ Hinv Hi Hm'). simplify_eq. by exists m.
Qed.

(** The first map of a group is updated in place, once nobody else holds its id. *)
Lemma main_step removed flushed s maps id main :
  dump_inv removed flushed s maps -> main ∉ flushed -> holds maps0 main id ->
  (forall j, j <> main -> j ∉ flushed -> ~ holds maps0 j id) ->
  exists s' maps', flush_overlay id main (s, maps) = (Ok tt, (s', maps')) /\
    dump_inv removed ({[main]} ∪ flushed) s' maps'.
Proof.
  intros Hinv Hmain Hh Halone. pose proof Hh as (m0&Hm0&Hid0).
  destruct (proj2 (unflushed_holds _ _ _ _ _ _ Hinv Hmain) Hh) as (m&Hm&Hid).
  destruct (di_ref _ _ _ _ Hinv main m Hm) as (_&_&_&_&(_&_&Ht)&_).
  destruct (flush_step removed flushed s maps main m id s) as (s2&Hu&Hinv'); try done.
  - apply (di_inv _ _ _ _ Hinv).
  - by apply Ht.
  - intros k. by rewrite Hid.
  - intros j Hne Hj. destruct (decide (j ∈ flushed)) as [Hf|Hf].
    + apply (di_distinct _ _ _ _ Hinv j main id Hf Hne Hj). by exists m.
    + apply (Halone j Hne Hf). by apply (unflushed_holds _ _ _ _ _ _ Hinv Hf).
  - intros (_&_&Hun). apply (Hun m0); [by eapply list_elem_of_lookup_2|done].
  - intros id0 Hid1. left. congruence.
  - exists s2, (<[main := mkBigMap (Some id) [] (bm_key_type m) (bm_value_type m)]> maps).
    split; [|done]. rewrite (flush_overlay_run id main m s s2 maps) by done. by rewrite Hid.
Qed.

Lemma later_groups_disjoint id g i :
  Forall (Z.lt id) g.*1 -> Forall group_ok g -> covers g i -> ~ holds maps0 i id.
Proof.
  intros Hlt Hg (e&He&Hi) (m&Hm&Hid). destruct (proj1 (Forall_forall _ _) Hg e He) as [_ Hge].
  specialize (Hge i Hi) as (m'&Hm'&Hid'). simplify_eq.
  apply (list_elem_of_fmap_2 fst) in He. apply (proj1 (Forall_forall _ _) Hlt) in He. lia.
Qed.

Lemma update_groups_ok removed g : forall flushed s maps,
  dump_inv removed flushed s maps -> grouped_ok g -> (forall i, covers g i -> i ∉ flushed) ->
  (forall i, i < length maps0 -> i ∉ flushed -> covers g i) ->
  exists s' maps' flushed', update_groups g (s, maps) = (Ok tt, (s', maps')) /\
    dump_inv removed flushed' s' maps' /\ forall i, i < length maps0 -> i ∈ flushed'.
Proof.
  induction g as [|[id [main others]] g IH]; intros flushed s maps Hinv [Hsort Hg] Hcov Hall.
  { exists s, maps, flushed. split_and!; [done..|]. intros i Hi. destruct (decide (i ∈ flushed)); [done|].
    destruct (Hall i) as (?&?%not_elem_of_nil&_); done. }
  cbn in Hsort. apply StronglySorted_inv in Hsort as [Hsort Hlt].
  apply Forall_cons in Hg as [[Hnd Hh] Hg]. cbn in Hnd, Hh.
  assert (Hf : forall i, i ∈ main :: others -> i ∉ flushed) by (intros i Hi; apply Hcov, covers_cons; by left).
  assert (Hrest : forall i, covers g i -> i ∉ main :: others).
  { intros i Hi Hin. by apply (later_groups_disjoint id g i Hlt Hg Hi), Hh. }
  destruct (copy_others_ok removed id main others flushed s maps) as (s1&maps1&Hrun1&Hinv1); [done..| |].
  { intros i Hi. apply (unflushed_holds _ _ _ _ _ _ Hinv); [by apply Hf|by apply Hh]. }
  apply NoDup_cons in Hnd as [Hmo Hnd].
  destruct (main_step removed _ s1 maps1 id main Hinv1) as (s2&maps2&Hrun2&Hinv2).
  { specialize (Hf main). set_solver. }
  { apply Hh. set_solver. }
  { intros j Hne Hj Hjid. assert (Hjl : j < length maps0) by (destruct Hjid as (?&?&_); by eapply lookup_lt_Some).
    assert (Hjf : j ∉ flushed) by set_solver. apply (Hall j Hjl), covers_cons in Hjf as [Hjf|Hjf]; [set_solver|].
    by apply (later_groups_disjoint id g j Hlt Hg Hjf). }
  destruct (IH _ s2 maps2 Hinv2) as (s'&maps'&flushed'&Hrun&Hinv'&Hall').
  - by split.
  - intros i Hi. pose proof (Hrest i Hi). assert (i ∉ flushed) by (apply Hcov, covers_cons; by right). set_solver.
  - intros i Hi Hif. assert (Hif' : i ∉ flushed) by set_solver. apply Hall, covers_cons in Hif'; set_solver.
  - exists s', maps', flushed'. split_and!; [|done..]. cbn [update_groups].
    by rewrite (bind_run _ _ _ tt (s1, maps1)), (bind_run _ _ _ tt (s2, maps2)).
Qed.

Hypothesis Hs0 : ls_inv s0.
Hypothesis Hmaps0 : Forall (big_map_ok s0) maps0.
Hypothesis Hstarted : Forall (fun id => is_Some (ls_types s0 id)) started.

Lemma dump_inv_start : dump_inv [] ∅ s0 maps0.
Proof.
  split; try done.
  - intros i m Hm. exists m. rewrite decide_False by set_solver. split_and!; try done.
    by apply (Forall_lookup_1 _ _ _ _ Hmaps0 Hm).
  - intros id. split; [intros ?; right; split; [done|apply not_elem_of_nil]|].
    intros [(i&m&Hm&Hid)|[? _]]; [|done].
    destruct (Forall_lookup_1 _ _ _ _ Hmaps0 Hm) as (_&_&Ht). by rewrite (Ht id Hid).
  - intros id (?&?&Hun). split_and!; try done. intros i (m&Hm&Hid).
    apply (Hun m); [by eapply list_elem_of_lookup_2|done].
Qed.

(** The keys of the complete groups are the ids the maps started with. *)
Lemma group_keys g flushed s maps :
  dump_inv [] flushed s maps -> created flushed maps -> grouped_ok g ->
  (forall i, i < length maps0 -> covers g i \/ i ∈ flushed) ->
  forall id, id ∈ g.*1 <-> exists i, holds maps0 i id.
Proof.
  intros Hinv Hcr [_ Hg] Hall id. split.
  - intros (e&->&He)%list_elem_of_fmap. exists e.2.1.
    destruct (proj1 (Forall_forall _ _) Hg e He) as [_ Hh]. apply Hh. set_solver.
  - intros [i Hi]. assert (Hl : i < length maps0) by (destruct Hi as (?&?&_); by eapply lookup_lt_Some).
    destruct (Hall i Hl) as [(e&He&Hie)|Hf]; [|by destruct (Hcr i id Hf)].
    destruct (proj1 (Forall_forall _ _) Hg e He) as [_ Hh]. specialize (Hh i Hie) as (m&Hm&Hid).
    destruct Hi as (m'&Hm'&Hid'). simplify_eq. by apply list_elem_of_fmap_2.
Qed.

Lemma dump_run :
  exists s' maps' flushed removed, dump_big_map_updates started (s0, maps0) = (Ok tt, (s', maps')) /\
    dump_inv removed flushed s' maps' /\ (forall i, i < length maps0 -> i ∈ flushed) /\
    forall id, id ∈ removed <-> id ∈ started /\ forall i, ~ holds maps0 i id.
Proof.
  destruct (group_maps_ok (seq 0 (length maps0)) [] ∅ s0 maps0) as (g&f1&s1&maps1&Hrun1&Hinv1&Hcr1&Hg&Hall1).
  { apply dump_inv_start. }
  { intros i id Hi. set_solver. }
  { split; constructor. }
  { apply NoDup_seq. }
  { intros i Hi%elem_of_seq. split_and!; [lia|set_solver|]. intros (e&He&_). by apply not_elem_of_nil in He. }
  assert (Hall : forall i, i < length maps0 -> covers g i \/ i ∈ f1).
  { intros i Hi. apply Hall1. left. apply elem_of_seq. lia. }
  pose proof (group_keys g f1 s1 maps1 Hinv1 Hcr1 Hg Hall) as Hkeys.
  destruct (remove_gone_ok g f1 started [] s1 maps1) as (removed&s2&Hrun2&Hinv2&Hrem); [done..| |].
  { intros i id Hi Hst. apply Hkeys. destruct (decide (i ∈ f1)) as [Hf|Hf].
    - apply (Hcr1 i id Hf) in Hi. apply (proj1 (Forall_forall _ _) Hstarted) in Hst. rewrite Hi in Hst. by destruct Hst.
    - exists i. by apply (unflushed_holds _ _ _ _ _ _ Hinv1 Hf). }
  destruct (update_groups_ok removed g f1 s2 maps1 Hinv2 Hg) as (s3&maps3&f3&Hrun3&Hinv3&Hall3).
  { intros i Hc Hf. destruct (covers_holds g i Hg Hc) as [id Hid]. by destruct (Hcr1 i id Hf). }
  { intros i Hi Hf. by destruct (Hall i Hi). }
  exists s3, maps3, f3, removed. split_and!; [|done..|].
  - unfold dump_big_map_updates. cbn [snd]. erewrite bind_run by exact Hrun1. by erewrite bind_run by exact Hrun2.
  - intros id. rewrite Hrem, Hkeys. split; [intros [[]%not_elem_of_nil|[? H]]|intros [? H]; right]; naive_solver.
Qed.
End correct.

(** What the dump of [maps] in the storage [s] leaves: every map has an empty overlay and an id, no
    id appears twice, and every map reads as before, at every key.  The ids in the storage are those of
    the maps, and those that were there and were either not part of the call or are still in use; maps
    that have nothing to do with the call read as before. *)
Record dumped {St : Type} `{LSL : LazyStorageLaws St} (started : list BigMapId) (s : St) (maps : list BigMap)
    (s' : St) (maps' : list BigMap) : Prop := {
  du_inv : ls_inv s';
  du_length : length maps' = length maps;
  du_distinct : NoDup (bm_id <$> maps');
  du_reads i m m' : maps !! i = Some m -> maps' !! i = Some m' ->
    bm_overlay m' = [] /\ is_Some (bm_id m') /\
    forall k, comparable_value (bm_key_type m) k = true ->
      BigMap_get m' k (to_dyn s') = BigMap_get m k (to_dyn s) /\
      BigMap_mem m' k (to_dyn s') = BigMap_mem m k (to_dyn s);
  du_ids id : is_Some (ls_types s' id) <->
    Some id ∈ bm_id <$> maps' \/ (is_Some (ls_types s id) /\ (id ∉ started \/ Some id ∈ bm_id <$> maps));
  du_frame id kt vt k : ls_types s id = Some (kt, vt) -> id ∉ started -> Some id ∉ bm_id <$> maps ->
    comparable_value kt k = true -> big_map_get s' id k = big_map_get s id k
}.

Lemma dump_spec {St : Type} `{LSL : LazyStorageLaws St} (s : St) (maps : list BigMap) (started : list BigMapId) :
  ls_inv s -> Forall (big_map_ok s) maps -> Forall (fun id => is_Some (ls_types s id)) started ->
  exists s' maps', dump_big_map_updates started (s, maps) = (Ok tt, (s', maps')) /\ dumped started s maps s' maps'.
Proof.
  intros Hs Hmaps Hstarted.
  assert (Hin : forall l id, Some id ∈ bm_id <$> l <-> exists i, holds l i id).
  { intros l id. rewrite list_elem_of_fmap. setoid_rewrite list_elem_of_lookup. unfold holds. naive_solver. }
  destruct (dump_run s maps started Hs Hmaps Hstarted) as (s'&maps'&f&removed&Hrun&Hinv&Hall&Hrem).
  exists s', maps'. pose proof (di_len _ _ _ _ _ _ _ Hinv) as Hlen.
  assert (Hflushed : forall i m', maps' !! i = Some m' -> i ∈ f).
  { intros i m' Hm'. apply Hall. rewrite <- Hlen. by eapply lookup_lt_Some. }
  split; [done|]. split; [apply Hinv|done| | | |].
  - apply NoDup_alt. intros i j o Hi Hj. destruct (decide (i = j)) as [|Hne]; [done|exfalso].
    apply list_lookup_fmap_Some in Hi as (m1&Ho1&Hi), Hj as (m2&Ho2&Hj).
    destruct (di_ref _ _ _ _ _ _ _ Hinv i m1 Hi) as (m0&_&_&_&_&_&Hc). rewrite decide_True in Hc by eauto.
    destruct Hc as [_ [id Hid]]. apply (di_distinct _ _ _ _ _ _ _ Hinv i j id); [by eauto|done|by exists m1|].
    exists m2. split; [done|congruence].
  - intros i m m' Hm Hm'. destruct (di_ref _ _ _ _ _ _ _ Hinv i m' Hm') as (m0&Hm0&Hkt&_&Hok&Hv&Hc).
    rewrite decide_True in Hc by eauto. destruct Hc as [? ?]. rewrite Hm in Hm0. injection Hm0 as <-. split_and!; try done. intros k Hk.
    assert (Hok0 : big_map_ok s m) by by eapply (Forall_lookup_1 _ _ _ _ Hmaps Hm).
    rewrite !BigMap_get_ok, !BigMap_mem_ok, Hv by (try apply Hinv; congruence). done.
  - intros id. rewrite (di_dom _ _ _ _ _ _ _ Hinv), !Hin, Hrem. apply or_iff_compat_l, and_iff_compat_l. split.
    + intros Hn. destruct (decide (id ∈ started)); [right|by left].
      destruct (decide (Some id ∈ bm_id <$> maps)) as [H|H]; [by apply Hin|]. exfalso. apply Hn. split; [done|].
      intros i Hi. apply H, Hin. eauto.
    + intros [?|[i Hi]] [? Hn]; [done|by eapply Hn].
  - intros id kt vt k Ht Hst Hm Hk.
    destruct (di_frame _ _ _ _ _ _ _ Hinv id) as (Ht'&Hv'&_).
    { split_and!; [by rewrite Ht|done|]. intros m Hin' Hid. apply Hm. rewrite <- Hid. by apply list_elem_of_fmap_2. }
    rewrite (ls_get s' id kt vt), (ls_get s id kt vt) by (try apply Hinv; congruence). by rewrite Hv'.
Qed.

(** C7: [dump_big_map_updates] keeps what its documentation promises, over any storage that keeps
    the [LazyStorage] contract.  It succeeds; afterwards every big map has an empty overlay and an
    id, no id appears twice, and every map reads as before the dump, at every key.  The ids in the
    storage are then those of the maps, and those that were there and were either not part of the
    call or are still in use; maps of the storage that have nothing to do with the call read as
    before ([dumped]). *)
Theorem dump_big_maps_correct {St : Type} `{LSL : LazyStorageLaws St} (s : St) (maps : list BigMap)
    (started : list BigMapId) :
  ls_inv s -> Forall (big_map_ok s) maps -> Forall (fun id => is_Some (ls_types s id)) started ->
  exists s' maps', dump_big_map_updates started (s, maps) = (Ok tt, (s', maps')) /\ dumped started s maps s' maps'.
Proof. apply dump_spec. Qed.

(** Two maps over the same stored map, and one in memory; another stored map is gone. *)
Definition dump_storage : InMemoryLazyStorage :=
  mkInMemory 2 {[ 0%Z := mkMapInfo [(V_Int 1, V_Nat 10)] T_Int T_Nat; 1%Z := mkMapInfo [] T_Int T_Nat ]}.
Definition dump_maps : list BigMap :=
  [mkBigMap (Some 0%Z) [(V_Int 1, None)] T_Int T_Nat;
   mkBigMap None [(V_Int 7, Some (V_Nat 70))] T_Int T_Nat;
   mkBigMap (Some 0%Z) [(V_Int 2, Some (V_Nat 20))] T_Int T_Nat].

Lemma dump_storage_inv : im_inv dump_storage.
Proof.
  intros id info. cbn. rewrite lookup_insert_Some, lookup_singleton_Some.
  intros [[<- <-]|[_ [<- <-]]]; (split; [done|split; cbn; repeat constructor]).
Qed.

Lemma dump_big_maps_correct_witness :
  exists s' maps', dump_big_map_updates [0%Z; 1%Z] (dump_storage, dump_maps) = (Ok tt, (s', maps')) /\
    NoDup (bm_id <$> maps') /\
    forall m', maps' !! 2 = Some m' ->
      BigMap_get m' (V_Int 1) (to_dyn s') = Ok (Some (V_Nat 10)) /\
      BigMap_get m' (V_Int 2) (to_dyn s') = Ok (Some (V_Nat 20)).
Proof.
  destruct (dump_big_maps_correct (LSL := InMemory_laws) dump_storage dump_maps [0%Z; 1%Z] dump_storage_inv)
    as (s'&maps'&Hrun&[_ _ Hnd Hread _ _]).
  - repeat constructor; cbn; intros ? [= <-]; reflexivity.
  - repeat constructor; eexists; reflexivity.
  - exists s', maps'. split; [exact Hrun|]. split; [exact Hnd|]. intros m' Hm'.
    destruct (Hread 2 _ m' eq_refl Hm') as (_&_&Hget).
    split; [rewrite (proj1 (Hget (V_Int 1) eq_refl))|rewrite (proj1 (Hget (V_Int 2) eq_refl))]; reflexivity.
Defined.
