(* ===== verification/Stack.v ===== *)
(** Stacks.

    Models [contrib/mir/src/stack.rs]: [Stack<T>] wraps a [Vec<T>] whose last
    element is the top of the stack.  [Module VecStack] translates the methods on
    the vector, panics included.  The typechecker and the interpreter are modelled on
    stacks written as lists from the top ([Module TopFirst]); [stack_refines] and the
    lemmas before it show that the two views agree. *)

From S2P Require Import Prelude Syntax.

(** * The methods on the vector *)

Module VecStack.
Section ops.
Context {T : Type} {E : Type}.
Implicit Types (v : list T).

(** [len.checked_sub(i)], a panic when negative. *)
Definition sub_len v (i : nat) : outcome E nat :=
  if i <=? length v then Ok (length v - i) else Panic PStackBounds.

Definition vec_index v (i : nat) : outcome E nat := sub_len v (i + 1).

(** [Vec::remove], [Vec::insert]; out of range is a panic. *)
Definition Vec_remove v (i : nat) : outcome E (T * list T) :=
  match v !! i with
  | Some x => Ok (x, take i v ++ drop (S i) v)
  | None => Panic PStackBounds
  end.
Definition Vec_insert v (i : nat) (e : T) : outcome E (list T) :=
  if i <=? length v then Ok (take i v ++ e :: drop i v) else Panic PStackBounds.

Definition push v (e : T) : list T := v ++ [e].
Definition pop v : option T * list T :=
  match last v with
  | Some x => (Some x, take (length v - 1) v)
  | None => (None, v)
  end.

Definition remove v (i : nat) : outcome E (T * list T) := j ← vec_index v i; Vec_remove v j.
Definition insert v (i : nat) (e : T) : outcome E (list T) :=
  match i with
  | 0 => Ok (push v e)
  | S i => j ← vec_index v i; Vec_insert v j e
  end.
Definition drop_top v (size : nat) : outcome E (list T) := j ← sub_len v size; Ok (take j v).
(** The drained elements, from the top, and what remains. *)
Definition drain_top v (size : nat) : outcome E (list T * list T) :=
  j ← sub_len v size; Ok (reverse (drop j v), take j v).
(** The split off stack and what remains. *)
Definition split_off v (size : nat) : outcome E (list T * list T) :=
  j ← sub_len v size; Ok (drop j v, take j v).
Definition append v (other : list T) : list T := v ++ other.
(** [Vec::swap] of two valid indices. *)
Definition swap v (i1 i2 : nat) : outcome E (list T) :=
  j1 ← vec_index v i1;
  j2 ← vec_index v i2;
  match v !! j1, v !! j2 with
  | Some x1, Some x2 => Ok (<[j2 := x1]> (<[j1 := x2]> v))
  | _, _ => Panic PStackBounds
  end.
Definition index v (i : nat) : outcome E T :=
  j ← vec_index v i; expect PStackBounds (v !! j).
(** [*index_mut(i) = e]. *)
Definition index_mut v (i : nat) (e : T) : outcome E (list T) :=
  j ← vec_index v i;
  if j <? length v then Ok (<[j := e]> v) else Panic PStackBounds.
Definition iter v : list T := reverse v.
(** [TopIsFirst::from]. *)
Definition from_top_is_first (data : list T) : list T := reverse data.
Definition from_top_is_last (data : list T) : list T := data.
End ops.
End VecStack.

(** * The same operations on a list from the top *)

Module TopFirst.
Section ops.
Context {T : Type} {E : Type}.
Implicit Types (s : list T).

Definition remove s (i : nat) : outcome E (T * list T) :=
  match s !! i with
  | Some x => Ok (x, take i s ++ drop (S i) s)
  | None => Panic PStackBounds
  end.
Definition insert s (i : nat) (e : T) : outcome E (list T) :=
  if i <=? length s then Ok (take i s ++ e :: drop i s) else Panic PStackBounds.
Definition drop_top s (size : nat) : outcome E (list T) :=
  if size <=? length s then Ok (drop size s) else Panic PStackBounds.
(** The top [size] elements from the top, and the rest. *)
Definition split_off s (size : nat) : outcome E (list T * list T) :=
  if size <=? length s then Ok (take size s, drop size s) else Panic PStackBounds.
Definition swap s (i1 i2 : nat) : outcome E (list T) :=
  match s !! i1, s !! i2 with
  | Some x1, Some x2 => Ok (<[i2 := x1]> (<[i1 := x2]> s))
  | _, _ => Panic PStackBounds
  end.
Definition index s (i : nat) : outcome E T := expect PStackBounds (s !! i).
Definition index_mut s (i : nat) (e : T) : outcome E (list T) :=
  if i <? length s then Ok (<[i := e]> s) else Panic PStackBounds.
End ops.
End TopFirst.

(** * Agreement *)

(** An outcome up to a function on its result. *)
Definition map_outcome {E A B} (f : A -> B) (m : outcome E A) : outcome E B :=
  a ← m; Ok (f a).

Section refinement.
#[local] Arguments reverse : simpl never.
Context {T E : Type}.
Implicit Types (v : list T).

Lemma reverse_insert v i x :
  i < length v -> reverse (<[i := x]> v) = <[length v - S i := x]> (reverse v).
Proof.
  intros Hi. apply list_eq. intros j. destruct (decide (j < length v)) as [Hj|Hj].
  - rewrite reverse_lookup by (rewrite length_insert; done). rewrite length_insert.
    destruct (decide (j = length v - S i)) as [->|Hne].
    + rewrite list_lookup_insert_eq by (rewrite length_reverse; lia).
      replace (length v - S (length v - S i)) with i by lia. by apply list_lookup_insert_eq.
    + rewrite !list_lookup_insert_ne by lia. by rewrite reverse_lookup.
  - rewrite !lookup_ge_None_2; [done| |]; rewrite ?length_insert, ?length_reverse, ?length_insert; lia.
Qed.

Lemma pop_refines v :
  prod_map id reverse (VecStack.pop v) =
  match reverse v with [] => (None, []) | x :: s => (Some x, s) end.
Proof.
  unfold VecStack.pop. destruct v as [|x v _] using rev_ind; [done|].
  rewrite last_snoc, reverse_snoc, length_app. cbn.
  rewrite take_app_le by lia. rewrite Nat.add_sub, firstn_all. done.
Qed.

Lemma remove_refines v i :
  map_outcome (prod_map id reverse) (VecStack.remove (E := E) v i) = TopFirst.remove (reverse v) i.
Proof.
  unfold VecStack.remove, VecStack.vec_index, VecStack.sub_len, TopFirst.remove.
  destruct (Nat.leb_spec (i + 1) (length v)) as [Hi|Hi]; cbn.
  - unfold VecStack.Vec_remove. rewrite reverse_lookup by lia.
    replace (length v - (i + 1)) with (length v - S i) by lia.
    destruct (v !! (length v - S i)); [|done]. cbn. rewrite reverse_app, take_reverse, drop_reverse.
    do 4 f_equal. f_equal. lia.
  - by rewrite lookup_ge_None_2 by (rewrite length_reverse; lia).
Qed.

Lemma insert_refines v i e :
  map_outcome reverse (VecStack.insert (E := E) v i e) = TopFirst.insert (reverse v) i e.
Proof.
  unfold TopFirst.insert. rewrite length_reverse. destruct i as [|i]; cbn.
  { apply f_equal, reverse_snoc. }
  unfold VecStack.vec_index, VecStack.sub_len, VecStack.Vec_insert.
  rewrite Nat.add_1_r. destruct (Nat.leb_spec (S i) (length v)) as [Hi|Hi].
  - destruct (length v) as [|n] eqn:Hn; [lia|]. cbn.
    rewrite (proj2 (Nat.leb_le (n - i) (S n))), (proj2 (Nat.leb_le i n)) by lia. cbn.
    rewrite reverse_app, reverse_cons, <- app_assoc. cbn.
    by rewrite take_reverse, drop_reverse, Hn.
  - destruct (length v) as [|n] eqn:Hn; [done|]. by rewrite (proj2 (Nat.leb_gt i n)) by lia.
Qed.

Lemma drop_top_refines v n :
  map_outcome reverse (VecStack.drop_top (E := E) v n) = TopFirst.drop_top (reverse v) n.
Proof.
  unfold VecStack.drop_top, VecStack.sub_len, TopFirst.drop_top. rewrite length_reverse.
  case_match; [|done]. cbn. by rewrite drop_reverse.
Qed.

Lemma split_off_refines v n :
  map_outcome (prod_map reverse reverse) (VecStack.split_off (E := E) v n) =
  TopFirst.split_off (reverse v) n.
Proof.
  unfold VecStack.split_off, VecStack.sub_len, TopFirst.split_off. rewrite length_reverse.
  case_match; [|done]. cbn. by rewrite drop_reverse, take_reverse.
Qed.

Lemma drain_top_refines v n :
  map_outcome (prod_map id reverse) (VecStack.drain_top (E := E) v n) =
  TopFirst.split_off (reverse v) n.
Proof.
  unfold VecStack.drain_top, VecStack.sub_len, TopFirst.split_off. rewrite length_reverse.
  case_match; [|done]. cbn. by rewrite drop_reverse, take_reverse.
Qed.

Lemma vec_index_lookup v i j :
  VecStack.vec_index (E := E) v i = Ok j ->
  i < length v /\ j = length v - S i /\ v !! j = reverse v !! i.
Proof.
  unfold VecStack.vec_index, VecStack.sub_len.
  destruct (Nat.leb_spec (i + 1) (length v)); [|done]. intros [= <-].
  rewrite reverse_lookup by lia. split; [lia|]. split; [lia|]. f_equal. lia.
Qed.

Lemma vec_index_panic v i :
  (exists j, VecStack.vec_index (E := E) v i = Ok j) \/
  VecStack.vec_index (E := E) v i = Panic PStackBounds /\ reverse v !! i = None.
Proof.
  unfold VecStack.vec_index, VecStack.sub_len.
  destruct (Nat.leb_spec (i + 1) (length v)); [by eauto|].
  right. split; [done|]. apply lookup_ge_None_2. rewrite length_reverse. lia.
Qed.

Lemma index_refines v i : VecStack.index (E := E) v i = TopFirst.index (reverse v) i.
Proof.
  unfold VecStack.index, TopFirst.index.
  destruct (vec_index_panic v i) as [[j Hj]|[-> ->]]; [|done].
  rewrite Hj. cbn. by apply vec_index_lookup in Hj as (_&_&->).
Qed.

Lemma index_mut_refines v i e :
  map_outcome reverse (VecStack.index_mut (E := E) v i e) = TopFirst.index_mut (reverse v) i e.
Proof.
  unfold VecStack.index_mut, TopFirst.index_mut. rewrite length_reverse.
  destruct (vec_index_panic v i) as [[j Hj]|[-> Hn]].
  - rewrite Hj. cbn -[Nat.ltb]. apply vec_index_lookup in Hj as (Hi&->&_).
    rewrite !(proj2 (Nat.ltb_lt _ _)) by lia. cbn.
    rewrite reverse_insert by lia. do 2 f_equal. lia.
  - apply lookup_ge_None_1 in Hn. rewrite length_reverse in Hn.
    by rewrite (proj2 (Nat.ltb_ge i (length v))) by lia.
Qed.

Lemma swap_refines v i1 i2 :
  map_outcome reverse (VecStack.swap (E := E) v i1 i2) = TopFirst.swap (reverse v) i1 i2.
Proof.
  unfold VecStack.swap, TopFirst.swap.
  destruct (vec_index_panic v i1) as [[j1 H1]|[-> ->]]; [|done].
  destruct (vec_index_panic v i2) as [[j2 H2]|[-> ->]]; rewrite H1; cbn; [|by case_match].
  rewrite H2. cbn. apply vec_index_lookup in H1 as (Hi1&->&->), H2 as (Hi2&->&->).
  case_match; [|done]. case_match; [|done]. cbn.
  rewrite !reverse_insert by (rewrite ?length_insert; lia). rewrite length_insert.
  do 3 f_equal; [lia|]. f_equal. lia.
Qed.
End refinement.

(** * Properties *)

(** Every [Stack] method, run on the vector, agrees through reversal with the
    operation on the list from the top: same results, same remaining stack, and an out of bounds
    panic in exactly the same cases. *)
Theorem stack_refines {T E : Type} (v other : list T) (i j : nat) (e : T) :
  reverse (VecStack.push v e) = e :: reverse v /\
  prod_map id reverse (VecStack.pop v) =
    match reverse v with [] => (None, []) | x :: s => (Some x, s) end /\
  map_outcome (prod_map id reverse) (VecStack.remove (E := E) v i) = TopFirst.remove (reverse v) i /\
  map_outcome reverse (VecStack.insert (E := E) v i e) = TopFirst.insert (reverse v) i e /\
  map_outcome reverse (VecStack.drop_top (E := E) v i) = TopFirst.drop_top (reverse v) i /\
  map_outcome (prod_map id reverse) (VecStack.drain_top (E := E) v i) =
    TopFirst.split_off (reverse v) i /\
  map_outcome (prod_map reverse reverse) (VecStack.split_off (E := E) v i) =
    TopFirst.split_off (reverse v) i /\
  reverse (VecStack.append v other) = reverse other ++ reverse v /\
  map_outcome reverse (VecStack.swap (E := E) v i j) = TopFirst.swap (reverse v) i j /\
  VecStack.index (E := E) v i = TopFirst.index (reverse v) i /\
  map_outcome reverse (VecStack.index_mut (E := E) v i e) = TopFirst.index_mut (reverse v) i e.
Proof.
  split_and!; auto using pop_refines, remove_refines, insert_refines, drop_top_refines,
    drain_top_refines, split_off_refines, swap_refines, index_refines, index_mut_refines.
  - apply reverse_snoc.
  - apply reverse_app.
Qed.

(** * Stacks of the typechecker *)

Abbreviation TypeStack := (list Type_).
Abbreviation IStack := (list TypedValue).

(** [FailingTypeStack]. *)
Inductive FailingTypeStack : Set :=
  | FOk (s : TypeStack)
  | Failed.

(** [access_mut]. *)
Definition access_mut {E} (f : FailingTypeStack) (err : E) : outcome E TypeStack :=
  match f with FOk s => Ok s | Failed => Err err end.

#[global] Instance FailingTypeStack_eq_dec : EqDecision FailingTypeStack.
Proof. solve_decision. Defined.

(** Facts the clients use: the operations on a stack split at the depth they
    work at, and the split a successful operation implies. *)
Section in_bounds.
Context {T E : Type}.
Implicit Types (s top : list T).

Lemma take_drop_split s n : n <= length s -> exists top rest, s = top ++ rest /\ length top = n.
Proof.
  intros H. exists (take n s), (drop n s). rewrite take_drop. split; [done|]. rewrite length_take. lia.
Qed.

Lemma split_off_app top s n : length top = n -> TopFirst.split_off (E := E) (top ++ s) n = Ok (top, s).
Proof.
  intros <-. unfold TopFirst.split_off. rewrite take_app_length, drop_app_length.
  by rewrite (proj2 (Nat.leb_le _ _)) by (rewrite length_app; lia).
Qed.
Lemma drop_top_app top s n : length top = n -> TopFirst.drop_top (E := E) (top ++ s) n = Ok s.
Proof.
  intros <-. unfold TopFirst.drop_top. rewrite drop_app_length.
  by rewrite (proj2 (Nat.leb_le _ _)) by (rewrite length_app; lia).
Qed.
Lemma remove_app top x s n :
  length top = n -> TopFirst.remove (E := E) (top ++ x :: s) n = Ok (x, top ++ s).
Proof.
  intros <-. unfold TopFirst.remove. rewrite list_lookup_middle by done. rewrite take_app_length.
  do 2 f_equal. replace (top ++ x :: s) with ((top ++ [x]) ++ s) by by rewrite <- app_assoc.
  rewrite drop_app_length'; [done|]. rewrite length_app. cbn. lia.
Qed.
Lemma insert_app top s n e :
  length top = n -> TopFirst.insert (E := E) (top ++ s) n e = Ok (top ++ e :: s).
Proof.
  intros <-. unfold TopFirst.insert. rewrite take_app_length, drop_app_length.
  by rewrite (proj2 (Nat.leb_le _ _)) by (rewrite length_app; lia).
Qed.
End in_bounds.
