(* ===== verification/External.v ===== *)
(** Code the library calls and does not contain, and the wrappers around it.

    [External] collects the functions of third-party crates: [cryptoxide] and
    [tezos_crypto_rs] (hashes, signatures, base58), [blst] (BLS12-381),
    [tezos_data_encoding] (writing Zarith numbers) and [chrono] (RFC 3339 dates).
    [ExternalLaws] states the documented behaviour the library relies on.

    The wrappers of [contrib/mir/src/bls/*.rs] and [ast/michelson_key.rs],
    [ast/michelson_signature.rs] over them are modelled here as well. *)

From S2P Require Import Prelude Endian Syntax.

(** * Byte strings and numbers (num_bigint's conversions) *)

(** Number of bytes of a number, without leading zeros; at least 1. *)
Definition byte_len (z : N) : nat := N.to_nat (N.max 1 ((N.size z + 7) / 8)).

(** [BigUint::to_bytes_le], [to_bytes_be], [from_bytes_be]. *)
Definition to_bytes_le (z : N) : bytes := le_bytes (byte_len z) z.
Definition to_bytes_be (z : N) : bytes := reverse (to_bytes_le z).
Definition from_bytes_be (l : bytes) : N := of_le_bytes (reverse l).

(** [BigInt::from_signed_bytes_be]: two's complement. *)
Definition from_signed_bytes_be (l : bytes) : Z :=
  let n := Z.of_N (from_bytes_be l) in
  match l with
  | b :: _ => if (128 <=? Byte.to_N b)%N then (n - 2 ^ (8 * Z.of_nat (length l)))%Z else n
  | [] => 0%Z
  end.

(** Bytes of the two's complement representation: room for the sign bit. *)
Definition signed_byte_len (z : Z) : nat :=
  let m := if (z <? 0)%Z then Z.to_N (- z - 1) else Z.to_N z in
  N.to_nat (N.size m / 8 + 1).

(** [BigInt::to_signed_bytes_be]. *)
Definition to_signed_bytes_be (z : Z) : bytes :=
  let n := signed_byte_len z in
  reverse (le_bytes n (Z.to_N (z mod 2 ^ (8 * Z.of_nat n)))).

(** * The external functions *)

(** The fixed-size hashes of [tezos_crypto_rs]. *)
Inductive HashKind : Set :=
  | Hk_Tz1 | Hk_Tz2 | Hk_Tz3 | Hk_Tz4 | Hk_Kt1 | Hk_Sr1
  | Hk_PkEd25519 | Hk_PkSecp256k1 | Hk_PkP256 | Hk_PkBls | Hk_BlsSig | Hk_ChainId.

Class External : Type := {
  (* cryptoxide::hashing *)
  x_blake2b_256 : bytes -> bytes;
  x_keccak256 : bytes -> bytes;
  x_sha256 : bytes -> bytes;
  x_sha3_256 : bytes -> bytes;
  x_sha512 : bytes -> bytes;
  (* tezos_crypto_rs: blake2b::digest, digest_256 *)
  x_blake2b_digest : bytes -> nat -> option bytes;
  x_digest_256 : bytes -> option bytes;
  (* HashTrait: hash_size, try_from_bytes, from_b58check, to_base58_check *)
  x_hash_size : HashKind -> nat;
  x_try_from_bytes : HashKind -> bytes -> option bytes;
  x_from_b58check : HashKind -> bytes -> option bytes;
  x_to_base58_check : HashKind -> bytes -> bytes;
  (* base58: from_base58check, to_base58check, and the crate base58 *)
  x_from_base58check : bytes -> option bytes;
  x_to_base58check : bytes -> bytes;
  x_from_base58 : bytes -> option bytes;
  (* PublicKeyWithHash::pk_hash, verify_signature, aggregate_verify *)
  x_pk_hash : Key -> option bytes;
  x_verify_signature : Key -> bytes -> bytes -> option bool;
  x_aggregate_verify : bytes -> bytes -> bytes -> option bool;
  (* blst, on serialized elements *)
  x_fr_check : bytes -> bool;
  x_fr_add : bytes -> bytes -> bytes;
  x_fr_mul : bytes -> bytes -> bytes;
  x_fr_neg : bytes -> bytes;
  x_p1_valid : bytes -> bool;
  x_p1_add : bytes -> bytes -> bytes;
  x_p1_mult : bytes -> bytes -> bytes;
  x_p1_neg : bytes -> bytes;
  x_p2_valid : bytes -> bool;
  x_p2_add : bytes -> bytes -> bytes;
  x_p2_mult : bytes -> bytes -> bytes;
  x_p2_neg : bytes -> bytes;
  x_fp12_one : bytes;
  x_fp12_zero : bytes;
  x_fp12_mul : bytes -> bytes -> bytes;
  x_miller_loop : bytes -> bytes -> bytes;
  x_final_exp_is_one : bytes -> bool;
  (* chrono: seconds of an RFC 3339 date *)
  x_parse_rfc3339 : bytes -> option Z;
  (* tezos_data_encoding: Zarith::bin_write *)
  x_zarith_write : Z -> bytes
}.

(** The order of the scalar field, from its base 2^32 digits in [Fr::order]. *)
Definition fr_order : Z :=
  fold_right (fun d acc => d + 2 ^ 32 * acc)%Z 0%Z
    [1; 4294967295; 4294859774; 1404937218; 161601541; 859428872; 698187080; 1944954707]%Z.

(** ** Zarith numbers, as the data encoding documents them

    The first byte holds 6 bits, the sign in bit 6 and a continuation flag in bit
    7; the following ones hold 7 bits and the flag; least significant first. *)
Fixpoint zarith_tail (fuel : nat) (n : N) : bytes :=
  match fuel with
  | 0 => []
  | S fuel =>
      if (n <? 128)%N then [byte_of_N n]
      else byte_of_N (128 + n mod 128) :: zarith_tail fuel (n / 128)
  end.
Definition zarith_format (z : Z) : bytes :=
  let n := Z.abs_N z in
  let sign := if (z <? 0)%Z then 64%N else 0%N in
  if (n <? 64)%N then [byte_of_N (sign + n)]
  else byte_of_N (128 + sign + n mod 64) :: zarith_tail (N.to_nat (N.size n)) (n / 64).

(** ** What the library relies on *)

Class ExternalLaws (X : External) : Prop := {
  (** For the sizes that the crate accepts. *)
  xl_digest_size b n : 16 <= n <= 64 -> exists d, x_blake2b_digest b n = Some d /\ length d = n;
  xl_digest_256 b : is_Some (x_digest_256 b);
  xl_try_from_bytes k b : length b = x_hash_size k -> x_try_from_bytes k b = Some b;
  xl_try_from_bytes_inv k b h : x_try_from_bytes k b = Some h -> h = b /\ length b = x_hash_size k;
  xl_address_sizes k : k ∈ [Hk_Tz1; Hk_Tz2; Hk_Tz3; Hk_Tz4; Hk_Kt1; Hk_Sr1] -> x_hash_size k = 20;
  xl_pk_hash k : is_Some (x_pk_hash k);
  xl_fr_check n : (Z.of_N n < fr_order)%Z -> x_fr_check (le_bytes 32 n) = true;
  xl_zarith z : x_zarith_write z = zarith_format z
}.

(** * Wrappers (bls/fr.rs, bls/g1.rs, bls/g2.rs, bls/pairing.rs) *)

Section wrappers.
Context {X : External}.

Definition Fr_BYTE_SIZE : nat := 32.
Definition G1_BYTE_SIZE : nat := 96.
Definition G2_BYTE_SIZE : nat := 192.

(** [Fr::from_bytes]: shorter input is padded with zeros. *)
Definition Fr_from_bytes (bs : bytes) : option bytes :=
  if Fr_BYTE_SIZE <? length bs then None
  else
    let buf := bs ++ repeat Byte.x00 (Fr_BYTE_SIZE - length bs) in
    if x_fr_check buf then Some buf else None.

(** [Fr::from_big_int]: the scalar modulo the group order; the copy into the buffer panics if
    the digits do not fit, the [unwrap] if the field rejects them. *)
Definition Fr_from_big_int {E} (i : Z) : outcome E bytes :=
  let norm := (i mod fr_order)%Z in
  let bytes_le := to_bytes_le (Z.to_N norm) in
  if Fr_BYTE_SIZE <? length bytes_le then Panic PSlice
  else
    let buf := bytes_le ++ repeat Byte.x00 (Fr_BYTE_SIZE - length bytes_le) in
    expect PUnwrap (Fr_from_bytes buf).

(** [Fr::to_big_int]. *)
Definition Fr_to_big_int (x : bytes) : Z := Z.of_N (of_le_bytes x).

Definition G1_from_bytes (bs : bytes) : option bytes :=
  if negb (length bs =? G1_BYTE_SIZE) then None else if x_p1_valid bs then Some bs else None.
Definition G2_from_bytes (bs : bytes) : option bytes :=
  if negb (length bs =? G2_BYTE_SIZE) then None else if x_p2_valid bs then Some bs else None.

(** [pairing_check]: the product of the pairings is one. *)
Definition pairing_check (pairs : list (bytes * bytes)) : bool :=
  let x := fold_left (fun x '(g1, g2) => x_fp12_mul x (x_miller_loop g2 g1)) pairs x_fp12_one in
  if decide (x = x_fp12_zero) then false else x_final_exp_is_one x.

(** ** Keys and signatures (ast/michelson_key.rs, ast/michelson_signature.rs) *)

(** [Key::hash]. *)
Definition Key_hash {E} (k : Key) : outcome E KeyHash :=
  h ← expect PUnwrap (x_pk_hash k);
  Ok match k with
     | Key_Ed25519 _ => Tz1 h
     | Key_Secp256k1 _ => Tz2 h
     | Key_P256 _ => Tz3 h
     | Key_Bls _ => Tz4 h
     end.

(** [Signature::check]: verification errors count as a wrong signature. *)
Definition Signature_check {E} (sig : Signature) (key : Key) (msg : bytes) : outcome E bool :=
  let hash_msg := expect PUnwrap (x_digest_256 msg) in
  let verify s := h ← hash_msg; Ok (default false (x_verify_signature key s h)) in
  match key with
  | Key_Ed25519 _ =>
      match sig with
      | Sig_Ed25519 s | Sig_Generic s => verify s
      | Sig_P256 _ | Sig_Secp256k1 _ | Sig_Bls _ => Ok false
      end
  | Key_Secp256k1 _ =>
      match sig with
      | Sig_Secp256k1 s | Sig_Generic s => verify s
      | Sig_P256 _ | Sig_Ed25519 _ | Sig_Bls _ => Ok false
      end
  | Key_P256 _ =>
      match sig with
      | Sig_P256 s | Sig_Generic s => verify s
      | Sig_Ed25519 _ | Sig_Secp256k1 _ | Sig_Bls _ => Ok false
      end
  | Key_Bls k =>
      match sig with
      | Sig_Bls s => Ok (default false (x_aggregate_verify s msg k))
      | Sig_P256 _ | Sig_Secp256k1 _ | Sig_Ed25519 _ | Sig_Generic _ => Ok false
      end
  end.

(** [compute_contract_address] (interpreter.rs): the address of the [o_index]th contract an
    operation group originates. *)
Definition compute_contract_address {E} (operation_group_hash : bytes) (o_index : Z) : outcome E Address :=
  let input := operation_group_hash ++ le_bytes 4 (Z.to_N o_index) in
  digest ← expect PUnwrap (x_blake2b_digest input (x_hash_size Hk_Kt1));
  h ← expect PUnwrap (x_try_from_bytes Hk_Kt1 digest);
  Ok (mkAddress (Kt1 h) default_ep).
End wrappers.

(** ** The unwraps of the wrappers cannot fail *)

Section wrapper_facts.
Context {X : External} {XL : ExternalLaws X}.

Lemma size_bytes_bound z k : (z < 256 ^ N.of_nat k)%N -> 1 <= k -> byte_len z <= k.
Proof.
  intros Hz Hk. unfold byte_len.
  assert (Hs : (N.size z <= 8 * N.of_nat k)%N).
  { destruct (decide (z = 0)%N) as [->|Hz0]; [cbn; lia|].
    rewrite N.size_log2 by done. apply N.le_succ_l, N.log2_lt_pow2; [lia|].
    replace (2 ^ (8 * N.of_nat k))%N with (256 ^ N.of_nat k)%N; [done|].
    by rewrite N.pow_mul_r. }
  assert ((N.size z + 7) / 8 <= N.of_nat k)%N; [|lia].
  apply N.lt_succ_r, N.Div0.div_lt_upper_bound. lia.
Qed.

Lemma le_bytes_pad n k z :
  (z < 256 ^ N.of_nat n)%N -> n <= k -> le_bytes n z ++ repeat Byte.x00 (k - n) = le_bytes k z.
Proof.
  revert k z. induction n as [|n IH]; intros k z Hz Hk.
  - cbn in Hz. assert (z = 0%N) as -> by lia. rewrite Nat.sub_0_r. cbn [le_bytes app]. clear.
    induction k as [|k IH]; [done|]. cbn. by f_equal.
  - destruct k as [|k]; [lia|]. cbn. f_equal. apply IH; [|lia].
    rewrite Nat2N.inj_succ, N.pow_succ_r' in Hz. apply N.Div0.div_lt_upper_bound. lia.
Qed.

Lemma byte_len_fits z : (z < 256 ^ N.of_nat (byte_len z))%N.
Proof.
  unfold byte_len. rewrite N2Nat.id.
  assert (H : (z < 2 ^ N.size z)%N) by apply N.size_gt.
  eapply N.lt_le_trans; [exact H|].
  change 256%N with (2 ^ 8)%N. rewrite <- N.pow_mul_r. apply N.pow_le_mono_r; [lia|].
  pose proof (N.div_mod (N.size z + 7) 8). pose proof (N.mod_lt (N.size z + 7) 8). lia.
Qed.

Lemma Fr_from_big_int_ok {E} i : exists x, Fr_from_big_int (E := E) i = Ok x /\ length x = 32.
Proof.
  unfold Fr_from_big_int. set (n := Z.to_N (i mod fr_order)).
  assert (Hn : (Z.of_N n < fr_order)%Z).
  { unfold n. pose proof (Z.mod_pos_bound i fr_order eq_refl). lia. }
  assert (Hn' : (n < 256 ^ N.of_nat 32)%N).
  { eapply N.lt_trans with (Z.to_N fr_order); [lia|]. by vm_compute. }
  pose proof (size_bytes_bound n 32 Hn') as Hlen.
  unfold to_bytes_le. rewrite length_le_bytes. unfold Fr_BYTE_SIZE.
  rewrite (proj2 (Nat.ltb_ge 32 (byte_len n))) by lia.
  rewrite le_bytes_pad; [|apply byte_len_fits|lia].
  unfold Fr_from_bytes, Fr_BYTE_SIZE. rewrite length_le_bytes. cbn -[le_bytes].
  rewrite app_nil_r, xl_fr_check by done. eexists. split; [reflexivity|apply length_le_bytes].
Qed.

Lemma Key_hash_ok {E} k : exists h, Key_hash (E := E) k = Ok h.
Proof. unfold Key_hash. destruct (xl_pk_hash k) as [h ->]. cbn. eauto. Qed.

Lemma Signature_check_ok {E} s k m : exists b, Signature_check (E := E) s k m = Ok b.
Proof.
  unfold Signature_check. destruct (xl_digest_256 m) as [h ->]. cbn.
  destruct k, s; eauto.
Qed.

Lemma compute_contract_address_ok {E} h i : exists a, compute_contract_address (E := E) h i = Ok a.
Proof.
  unfold compute_contract_address. set (input := h ++ _).
  assert (Hk : x_hash_size Hk_Kt1 = 20) by (apply xl_address_sizes; do 4 right; left).
  destruct (xl_digest_size input (x_hash_size Hk_Kt1)) as (d&->&Hd); [lia|]. cbn.
  rewrite xl_try_from_bytes by done. cbn. eauto.
Qed.
End wrapper_facts.

(** * An instance

    Concrete functions with the stated laws, to run the model on: scalars are
    computed, hashes are stand-ins. *)

Module Concrete.
Definition hash_size (k : HashKind) : nat :=
  match k with
  | Hk_Tz1 | Hk_Tz2 | Hk_Tz3 | Hk_Tz4 | Hk_Kt1 | Hk_Sr1 => 20
  | Hk_PkEd25519 => 32
  | Hk_PkSecp256k1 | Hk_PkP256 => 33
  | Hk_PkBls => 48
  | Hk_BlsSig => 96
  | Hk_ChainId => 4
  end.
Definition sized (k : HashKind) (b : bytes) : option bytes :=
  if decide (length b = hash_size k) then Some b else None.
Definition fr_of (f : Z) : bytes := le_bytes 32 (Z.to_N (f mod fr_order)).
Definition fr_val (b : bytes) : Z := Z.of_N (of_le_bytes b).

#[global] Instance concrete : External := {|
  x_blake2b_256 _ := repeat Byte.x00 32;
  x_keccak256 _ := repeat Byte.x00 32;
  x_sha256 _ := repeat Byte.x00 32;
  x_sha3_256 _ := repeat Byte.x00 32;
  x_sha512 _ := repeat Byte.x00 64;
  x_blake2b_digest _ n := Some (repeat Byte.x00 n);
  x_digest_256 _ := Some (repeat Byte.x00 32);
  x_hash_size := hash_size;
  x_try_from_bytes := sized;
  x_from_b58check k b := sized k (drop 3 b);
  x_to_base58_check _ b := b;
  x_from_base58check b := Some b;
  x_to_base58check b := b;
  x_from_base58 b := Some b;
  x_pk_hash _ := Some (repeat Byte.x00 20);
  x_verify_signature _ _ _ := Some false;
  x_aggregate_verify _ _ _ := Some false;
  x_fr_check b := (fr_val b <? fr_order)%Z;
  x_fr_add a b := fr_of (fr_val a + fr_val b);
  x_fr_mul a b := fr_of (fr_val a * fr_val b);
  x_fr_neg a := fr_of (- fr_val a);
  x_p1_valid _ := true;
  x_p1_add a _ := a;
  x_p1_mult a _ := a;
  x_p1_neg a := a;
  x_p2_valid _ := true;
  x_p2_add a _ := a;
  x_p2_mult a _ := a;
  x_p2_neg a := a;
  x_fp12_one := [Byte.x01];
  x_fp12_zero := [];
  x_fp12_mul a _ := a;
  x_miller_loop a _ := a;
  x_final_exp_is_one b := bool_decide (b = [Byte.x01]);
  x_parse_rfc3339 _ := None;
  x_zarith_write := zarith_format
|}.

#[global] Instance concrete_laws : ExternalLaws concrete.
Proof.
  split; cbn -[le_bytes fr_order]; intros.
  - eexists. split; [reflexivity|]. apply repeat_length.
  - eauto.
  - unfold sized. by rewrite decide_True.
  - unfold sized in *. case_decide; naive_solver.
  - destruct k; set_solver.
  - eauto.
  - unfold fr_val. rewrite of_le_bytes_le_bytes; [by apply Z.ltb_lt|].
    eapply N.lt_trans with (Z.to_N fr_order); [lia|]. by vm_compute.
  - done.
Qed.
End Concrete.
