(* ===== verification/ByteRepr.v ===== *)
(** Readable and binary representations of addresses, keys, key hashes, signatures.

    Models [contrib/mir/src/ast/byte_repr_trait.rs] and its implementations in
    [ast/michelson_address.rs], [ast/michelson_address/*.rs],
    [ast/michelson_key.rs], [ast/michelson_key_hash.rs] and
    [ast/michelson_signature.rs].  [Address::from_bytes]
    is [Address_from_bytes], and so on. *)

From S2P Require Import Prelude Syntax External.

(** The explanation inside [WrongFormat], a formatted string in the source. *)
Inductive FormatError : Set :=
  | FE_Size (expected actual : nat)
  | FE_Padding (b : byte)
  | FE_Base58
  | FE_Bytes
  | FE_EntrypointLength (n : nat)
  | FE_EntrypointByte (b : byte)
  | FE_ExplicitDefault.

Inductive ByteReprError : Set :=
  | UnknownPrefix (p : bytes)
  | WrongFormat (e : FormatError).

Abbreviation R := (outcome ByteReprError).

(** [?] on the results of [HashTrait::from_b58check] and [try_from_bytes]. *)
Definition b58_result {A} (o : option A) : R A := ok_or (WrongFormat FE_Base58) o.
Definition bytes_result {A} (o : option A) : R A := ok_or (WrongFormat FE_Bytes) o.

Definition check_min_size (data : bytes) (min_size : nat) : R unit :=
  if length data <? min_size then Err (WrongFormat (FE_Size min_size (length data))) else Ok tt.
Definition check_exact_size (data : bytes) (size : nat) : R unit :=
  if negb (length data =? size) then Err (WrongFormat (FE_Size size (length data))) else Ok tt.

(** [&data[0..n]] on a [str]: a panic unless [n] is a character boundary. *)
Definition is_char_boundary (data : bytes) (n : nat) : bool :=
  (n =? 0) || match data !! n with
              | Some b => negb ((128 <=? Byte.to_N b)%N && (Byte.to_N b <? 192)%N)
              | None => n =? length data
              end.
Definition str_prefix (data : bytes) (n : nat) : R bytes :=
  if is_char_boundary data n then Ok (take n data) else Panic PSlice.

(** * Entrypoints (michelson_address/entrypoint.rs) *)

Module EntrypointRepr.
Definition MAX_EP_LEN : nat := 31.

Definition check_ep_name_len (ep : bytes) : R unit :=
  if MAX_EP_LEN <? length ep then Err (WrongFormat (FE_EntrypointLength (length ep))) else Ok tt.

Definition in_range (lo hi b : byte) : bool :=
  ((Byte.to_N lo <=? Byte.to_N b) && (Byte.to_N b <=? Byte.to_N hi))%N.
(** [b'_' | b'0'..=b'9' | b'a'..=b'z' | b'A'..=b'Z']. *)
Definition alpha_num (b : byte) : bool :=
  Byte.eqb b Byte.x5f || in_range Byte.x30 Byte.x39 b || in_range Byte.x61 Byte.x7a b
  || in_range Byte.x41 Byte.x5a b.
(** [b'.' | b'%' | b'@']. *)
Definition ep_punctuation (b : byte) : bool :=
  Byte.eqb b Byte.x2e || Byte.eqb b Byte.x25 || Byte.eqb b Byte.x40.

Fixpoint check_ep_chars (first_char : bool) (ep : bytes) : R unit :=
  match ep with
  | [] => Ok tt
  | c :: ep =>
      if alpha_num c then check_ep_chars false ep
      else if ep_punctuation c && negb first_char then check_ep_chars false ep
      else Err (WrongFormat (FE_EntrypointByte c))
  end.

Definition check_ep_name (ep : bytes) : R unit :=
  _ ← check_ep_name_len ep; check_ep_chars true ep.

(** [TryFrom<String>], also used for [&str]. *)
Definition try_from_str (s : bytes) : R Entrypoint :=
  match s with
  | [] => Ok default_ep
  | _ => _ ← check_ep_name s; Ok (mkEntrypoint s)
  end.

(** [TryFrom<&[u8]>]: the explicit default is refused. *)
Definition try_from_bytes (s : bytes) : R Entrypoint :=
  match s with
  | [] => Ok default_ep
  | _ =>
      _ ← check_ep_name s;
      let ep := mkEntrypoint s in
      if is_default ep then Err (WrongFormat FE_ExplicitDefault) else Ok ep
  end.

(** [TryFrom<FieldAnnotation>]. *)
Definition try_from_field_ann (s : bytes) : R Entrypoint :=
  _ ← check_ep_name_len s; Ok (mkEntrypoint s).
End EntrypointRepr.

Section repr.
Context {X : External}.

(** Tag and hash, as [to_bytes] of keys and key hashes writes them. *)
Definition tagged (tag : byte) (h : bytes) : bytes := tag :: h.
Definition hash_of (k : HashKind) (bs : bytes) : R bytes := bytes_result (x_try_from_bytes k bs).
Definition hash_of_b58 (k : HashKind) (s : bytes) : R bytes := b58_result (x_from_b58check k s).

(** * Key hashes (michelson_key_hash.rs) *)

Definition KeyHash_BYTE_SIZE : nat := 21.
Definition KeyHash_BASE58_SIZE : nat := 36.

Definition KeyHash_from_base58_check (data : bytes) : R KeyHash :=
  _ ← check_exact_size data KeyHash_BASE58_SIZE;
  p ← str_prefix data 3;
  if decide (p = str "tz1") then h ← hash_of_b58 Hk_Tz1 data; Ok (Tz1 h)
  else if decide (p = str "tz2") then h ← hash_of_b58 Hk_Tz2 data; Ok (Tz2 h)
  else if decide (p = str "tz3") then h ← hash_of_b58 Hk_Tz3 data; Ok (Tz3 h)
  else if decide (p = str "tz4") then h ← hash_of_b58 Hk_Tz4 data; Ok (Tz4 h)
  else Err (UnknownPrefix p).

Definition KeyHash_from_bytes (bs : bytes) : R KeyHash :=
  _ ← check_exact_size bs KeyHash_BYTE_SIZE;
  match bs with
  | Byte.x00 :: h => h ← hash_of Hk_Tz1 h; Ok (Tz1 h)
  | Byte.x01 :: h => h ← hash_of Hk_Tz2 h; Ok (Tz2 h)
  | Byte.x02 :: h => h ← hash_of Hk_Tz3 h; Ok (Tz3 h)
  | Byte.x03 :: h => h ← hash_of Hk_Tz4 h; Ok (Tz4 h)
  | b :: _ => Err (UnknownPrefix [b])
  | [] => Panic PSlice
  end.

Definition KeyHash_to_base58_check (k : KeyHash) : bytes :=
  match k with
  | Tz1 h => x_to_base58_check Hk_Tz1 h
  | Tz2 h => x_to_base58_check Hk_Tz2 h
  | Tz3 h => x_to_base58_check Hk_Tz3 h
  | Tz4 h => x_to_base58_check Hk_Tz4 h
  end.

Definition KeyHash_to_bytes (k : KeyHash) : bytes :=
  match k with
  | Tz1 h => tagged Byte.x00 h
  | Tz2 h => tagged Byte.x01 h
  | Tz3 h => tagged Byte.x02 h
  | Tz4 h => tagged Byte.x03 h
  end.

(** * Keys (michelson_key.rs) *)

Definition Key_MIN_BASE58_SIZE : nat := 54.
Definition Key_MIN_BYTE_SIZE : nat := 32.

Definition Key_from_base58_check (data : bytes) : R Key :=
  _ ← check_min_size data Key_MIN_BASE58_SIZE;
  p ← str_prefix data 4;
  if decide (p = str "edpk") then k ← hash_of_b58 Hk_PkEd25519 data; Ok (Key_Ed25519 k)
  else if decide (p = str "sppk") then k ← hash_of_b58 Hk_PkSecp256k1 data; Ok (Key_Secp256k1 k)
  else if decide (p = str "p2pk") then k ← hash_of_b58 Hk_PkP256 data; Ok (Key_P256 k)
  else if decide (p = str "BLpk") then k ← hash_of_b58 Hk_PkBls data; Ok (Key_Bls k)
  else Err (UnknownPrefix p).

Definition Key_from_bytes (bs : bytes) : R Key :=
  _ ← check_min_size bs Key_MIN_BYTE_SIZE;
  match bs with
  | Byte.x00 :: k => k ← hash_of Hk_PkEd25519 k; Ok (Key_Ed25519 k)
  | Byte.x01 :: k => k ← hash_of Hk_PkSecp256k1 k; Ok (Key_Secp256k1 k)
  | Byte.x02 :: k => k ← hash_of Hk_PkP256 k; Ok (Key_P256 k)
  | Byte.x03 :: k => k ← hash_of Hk_PkBls k; Ok (Key_Bls k)
  | b :: _ => Err (UnknownPrefix [b])
  | [] => Panic PSlice
  end.

Definition Key_to_base58_check (k : Key) : bytes :=
  match k with
  | Key_Ed25519 k => x_to_base58_check Hk_PkEd25519 k
  | Key_Secp256k1 k => x_to_base58_check Hk_PkSecp256k1 k
  | Key_P256 k => x_to_base58_check Hk_PkP256 k
  | Key_Bls k => x_to_base58_check Hk_PkBls k
  end.

Definition Key_to_bytes (k : Key) : bytes :=
  match k with
  | Key_Ed25519 k => tagged Byte.x00 k
  | Key_Secp256k1 k => tagged Byte.x01 k
  | Key_P256 k => tagged Byte.x02 k
  | Key_Bls k => tagged Byte.x03 k
  end.

(** * Signatures (michelson_signature.rs) *)

Definition BLS_BYTE_LENGTH : nat := 96.
Definition GENERIC_BYTE_LENGTH : nat := 64.

(** The base58 prefixes of [defsignature!]. *)
Definition sig_prefix_ed25519 : bytes := map byte_of_N [9; 245; 205; 134; 18]%N.
Definition sig_prefix_secp256k1 : bytes := map byte_of_N [13; 115; 101; 19; 63]%N.
Definition sig_prefix_p256 : bytes := map byte_of_N [54; 240; 44; 52]%N.
Definition sig_prefix_generic : bytes := map byte_of_N [4; 130; 43]%N.

(** [SignatureTrait::from_b58check]. *)
Definition sig_from_b58check (prefix : bytes) (s : bytes) : R bytes :=
  bs ← b58_result (x_from_base58check s);
  if negb (length bs =? length prefix + GENERIC_BYTE_LENGTH) then Err (WrongFormat FE_Base58)
  else if decide (take (length prefix) bs = prefix) then Ok (drop (length prefix) bs)
  else Err (WrongFormat FE_Base58).

(** [SignatureTrait::to_base58_check]. *)
Definition sig_to_base58_check (prefix : bytes) (s : bytes) : bytes := x_to_base58check (prefix ++ s).

(** The local [from_b58check], used for BLS signatures. *)
Definition bls_from_b58check (s : bytes) : R bytes :=
  bytes_with_checksum ← b58_result (x_from_base58 s);
  if length bytes_with_checksum <? 4 then Err (WrongFormat FE_Base58)
  else
    let n := length bytes_with_checksum - 4 in
    let bs := take n bytes_with_checksum in
    let checksum := drop n bytes_with_checksum in
    if decide (take 4 (x_sha256 (x_sha256 bs)) = checksum) then Ok bs
    else Err (WrongFormat FE_Base58).

Definition starts_with (data : bytes) (p : bytes) : bool := bool_decide (take (length p) data = p).

Definition Signature_from_base58_check (data : bytes) : R Signature :=
  if starts_with data (str "edsig") then s ← sig_from_b58check sig_prefix_ed25519 data; Ok (Sig_Ed25519 s)
  else if starts_with data (str "spsig1") then s ← sig_from_b58check sig_prefix_secp256k1 data; Ok (Sig_Secp256k1 s)
  else if starts_with data (str "p2sig") then s ← sig_from_b58check sig_prefix_p256 data; Ok (Sig_P256 s)
  else if starts_with data (str "BLsig") then
    raw_bytes ← bls_from_b58check data;
    if length raw_bytes <? 4 then Panic PSlice else Ok (Sig_Bls (drop 4 raw_bytes))
  else if starts_with data (str "sig") then s ← sig_from_b58check sig_prefix_generic data; Ok (Sig_Generic s)
  else Err (UnknownPrefix data).

Definition Signature_from_bytes (bs : bytes) : R Signature :=
  if length bs =? GENERIC_BYTE_LENGTH then Ok (Sig_Generic bs)
  else if length bs =? BLS_BYTE_LENGTH then s ← hash_of Hk_BlsSig bs; Ok (Sig_Bls s)
  else Err (WrongFormat (FE_Size GENERIC_BYTE_LENGTH (length bs))).

Definition Signature_to_base58_check (s : Signature) : bytes :=
  match s with
  | Sig_Ed25519 s => sig_to_base58_check sig_prefix_ed25519 s
  | Sig_Secp256k1 s => sig_to_base58_check sig_prefix_secp256k1 s
  | Sig_P256 s => sig_to_base58_check sig_prefix_p256 s
  | Sig_Bls s => x_to_base58_check Hk_BlsSig s
  | Sig_Generic s => sig_to_base58_check sig_prefix_generic s
  end.

Definition Signature_to_bytes (s : Signature) : bytes :=
  match s with
  | Sig_Ed25519 s | Sig_Secp256k1 s | Sig_P256 s | Sig_Bls s | Sig_Generic s => s
  end.

(** * Addresses (michelson_address.rs, michelson_address/address_hash.rs) *)

Definition AddressHash_BYTE_SIZE : nat := 22.
Definition AddressHash_BASE58_SIZE : nat := 36.

Definition AddressHash_from_base58_check (data : bytes) : R AddressHash :=
  _ ← check_min_size data AddressHash_BASE58_SIZE;
  p ← str_prefix data 3;
  if decide (p = str "KT1") then h ← hash_of_b58 Hk_Kt1 data; Ok (Kt1 h)
  else if decide (p = str "sr1") then h ← hash_of_b58 Hk_Sr1 data; Ok (Sr1 h)
  else k ← KeyHash_from_base58_check data; Ok (Implicit k).

Definition AddressHash_to_base58_check (a : AddressHash) : bytes :=
  match a with
  | Kt1 h => x_to_base58_check Hk_Kt1 h
  | Sr1 h => x_to_base58_check Hk_Sr1 h
  | Implicit k => KeyHash_to_base58_check k
  end.

(** Originated accounts end in a zero byte. *)
Definition validate_padding_byte (bs : bytes) : R unit :=
  b ← expect PUnwrap (last bs);
  match b with
  | Byte.x00 => Ok tt
  | b => Err (WrongFormat (FE_Padding b))
  end.

Definition AddressHash_from_bytes (bs : bytes) : R AddressHash :=
  _ ← check_min_size bs AddressHash_BYTE_SIZE;
  match bs with
  | Byte.x00 :: k => k ← KeyHash_from_bytes k; Ok (Implicit k)
  | Byte.x01 :: h =>
      _ ← validate_padding_byte bs; h ← hash_of Hk_Kt1 (take (length h - 1) h); Ok (Kt1 h)
  | Byte.x03 :: h =>
      _ ← validate_padding_byte bs; h ← hash_of Hk_Sr1 (take (length h - 1) h); Ok (Sr1 h)
  | b :: _ => Err (UnknownPrefix [b])
  | [] => Panic PSlice
  end.

Definition AddressHash_to_bytes (a : AddressHash) : bytes :=
  match a with
  | Implicit k => Byte.x00 :: KeyHash_to_bytes k
  | Kt1 h => Byte.x01 :: h ++ [Byte.x00]
  | Sr1 h => Byte.x03 :: h ++ [Byte.x00]
  end.

(** The text before the first ["%"] and after it. *)
Fixpoint split_percent (data : bytes) : bytes * bytes :=
  match data with
  | [] => ([], [])
  | c :: data =>
      if Byte.eqb c Byte.x25 then ([], data)
      else let '(h, e) := split_percent data in (c :: h, e)
  end.

Definition Address_from_base58_check (data : bytes) : R Address :=
  let '(hash, ep) := split_percent data in
  h ← AddressHash_from_base58_check hash;
  e ← EntrypointRepr.try_from_str ep;
  Ok (mkAddress h e).

Definition Address_from_bytes (bs : bytes) : R Address :=
  _ ← check_min_size bs AddressHash_BYTE_SIZE;
  h ← AddressHash_from_bytes (take AddressHash_BYTE_SIZE bs);
  e ← EntrypointRepr.try_from_bytes (drop AddressHash_BYTE_SIZE bs);
  Ok (mkAddress h e).

Definition is_default_ep (a : Address) : bool := is_default (addr_entrypoint a).

Definition Address_to_bytes (a : Address) : bytes :=
  AddressHash_to_bytes (addr_hash a) ++ (if is_default_ep a then [] else ep_name (addr_entrypoint a)).

Definition Address_to_base58_check (a : Address) : bytes :=
  if is_default_ep a then AddressHash_to_base58_check (addr_hash a)
  else AddressHash_to_base58_check (addr_hash a) ++ str "%" ++ ep_name (addr_entrypoint a).

(** ** Panics: only slicing *)

Lemma expect_panics {E A} p (o : option A) : panics_only p (expect (E := E) p o).
Proof. by destruct o. Qed.

Ltac repr_panics :=
  repeat first
  [ exact I | reflexivity | assumption
  | match goal with
    | |- panics_only _ (_ ≫= _) => apply panics_only_bind; [|intros]
    | |- panics_only _ (if ?b then _ else _) => destruct b
    | |- panics_only _ (match ?b with _ => _ end) => destruct b
    | |- panics_only _ (ok_or _ ?o) => by destruct o
    end ].

Lemma KeyHash_repr_panics s :
  panics_only PSlice (KeyHash_from_base58_check s) /\ panics_only PSlice (KeyHash_from_bytes s).
Proof.
  split; unfold KeyHash_from_base58_check, KeyHash_from_bytes, check_exact_size, str_prefix, hash_of_b58,
    b58_result, hash_of, bytes_result; repr_panics.
Qed.

Lemma Key_repr_panics s :
  panics_only PSlice (Key_from_base58_check s) /\ panics_only PSlice (Key_from_bytes s).
Proof.
  split; unfold Key_from_base58_check, Key_from_bytes, check_min_size, str_prefix, hash_of_b58, b58_result,
    hash_of, bytes_result; repr_panics.
Qed.

Lemma Signature_repr_panics s :
  panics_only PSlice (Signature_from_base58_check s) /\ panics_only PSlice (Signature_from_bytes s).
Proof.
  split; unfold Signature_from_base58_check, Signature_from_bytes, sig_from_b58check, bls_from_b58check,
    b58_result, hash_of, bytes_result; repr_panics.
Qed.

Lemma check_ep_name_panics ep : panics_only PSlice (EntrypointRepr.check_ep_name ep).
Proof.
  unfold EntrypointRepr.check_ep_name, EntrypointRepr.check_ep_name_len. repr_panics.
  generalize true. induction ep; intros f; cbn; repr_panics; auto.
Qed.

Lemma AddressHash_repr_panics s :
  panics_only PSlice (AddressHash_from_base58_check s) /\ panics_only PSlice (AddressHash_from_bytes s).
Proof.
  split.
  - unfold AddressHash_from_base58_check, check_min_size, str_prefix, hash_of_b58, b58_result.
    repr_panics. apply KeyHash_repr_panics.
  - unfold AddressHash_from_bytes, check_min_size, hash_of, bytes_result, validate_padding_byte.
    apply panics_only_bind; [repr_panics|intros _]. destruct s as [|b h]; [done|].
    assert (exists l, last (b :: h) = Some l) as [l ->].
    { destruct (last (b :: h)) eqn:E; eauto. by apply last_None in E. }
    destruct b; repr_panics. apply KeyHash_repr_panics.
Qed.

Lemma Address_repr_panics s :
  panics_only PSlice (Address_from_base58_check s) /\ panics_only PSlice (Address_from_bytes s).
Proof.
  split.
  - unfold Address_from_base58_check. destruct (split_percent s) as [h e].
    apply panics_only_bind; [apply AddressHash_repr_panics|intros a].
    apply panics_only_bind; [|done]. unfold EntrypointRepr.try_from_str.
    destruct e; [done|]. by apply panics_only_bind; [apply check_ep_name_panics|].
  - unfold Address_from_bytes, check_min_size.
    apply panics_only_bind; [repr_panics|intros _].
    apply panics_only_bind; [apply AddressHash_repr_panics|intros a].
    apply panics_only_bind; [|done]. unfold EntrypointRepr.try_from_bytes.
    destruct (drop _ s); [done|]. apply panics_only_bind; [apply check_ep_name_panics|intros _]. repr_panics.
Qed.
End repr.

(** * Round trips *)

(** What the constructors of the library guarantee of the values it builds. *)
Definition KeyHash_payload (k : KeyHash) : bytes :=
  match k with Tz1 h | Tz2 h | Tz3 h | Tz4 h => h end.
Definition AddressHash_payload (a : AddressHash) : bytes :=
  match a with Implicit k => KeyHash_payload k | Kt1 h | Sr1 h => h end.
Definition entrypoint_ok (e : Entrypoint) : Prop :=
  ep_name e <> [] /\ EntrypointRepr.check_ep_name (ep_name e) = Ok tt.
Definition address_ok (a : Address) : Prop :=
  length (AddressHash_payload (addr_hash a)) = 20 /\ entrypoint_ok (addr_entrypoint a).

Section round_trips.
Context {X : External} {XL : ExternalLaws X}.

Lemma hash_of_ok k h :
  k ∈ [Hk_Tz1; Hk_Tz2; Hk_Tz3; Hk_Tz4; Hk_Kt1; Hk_Sr1] -> length h = 20 -> hash_of k h = Ok h.
Proof.
  intros Hk Hh. unfold hash_of. rewrite xl_try_from_bytes; [done|].
  by rewrite xl_address_sizes.
Qed.

Lemma hash_of_inv k bs h : hash_of k bs = Ok h -> h = bs /\ length bs = x_hash_size k.
Proof.
  unfold hash_of, bytes_result, ok_or. destruct (x_try_from_bytes k bs) eqn:E; [|done].
  intros [= <-]. by apply xl_try_from_bytes_inv.
Qed.

Lemma KeyHash_bytes_round_trip k :
  length (KeyHash_payload k) = 20 -> KeyHash_from_bytes (KeyHash_to_bytes k) = Ok k.
Proof.
  intros Hk. unfold KeyHash_from_bytes, check_exact_size, KeyHash_BYTE_SIZE.
  destruct k; cbn in *; rewrite Hk; cbn; by rewrite hash_of_ok by (done || set_solver).
Qed.

Lemma KeyHash_bytes_canonical bs k : KeyHash_from_bytes bs = Ok k -> KeyHash_to_bytes k = bs.
Proof.
  unfold KeyHash_from_bytes. intros (?&_&H)%outcome_bind_ok.
  destruct bs as [|b bs]; [done|].
  destruct b; try discriminate; apply outcome_bind_ok in H as (h&[-> _]%hash_of_inv&[= <-]);
    reflexivity.
Qed.

Lemma length_AddressHash_to_bytes a :
  length (AddressHash_payload a) = 20 -> length (AddressHash_to_bytes a) = 22.
Proof.
  intros Ha. destruct a as [[]| |]; cbn in *; rewrite ?length_app; cbn; lia.
Qed.

Lemma AddressHash_bytes_round_trip a :
  length (AddressHash_payload a) = 20 -> AddressHash_from_bytes (AddressHash_to_bytes a) = Ok a.
Proof.
  intros Ha. unfold AddressHash_from_bytes, check_min_size.
  rewrite length_AddressHash_to_bytes by done. cbn [AddressHash_BYTE_SIZE Nat.ltb Nat.leb].
  destruct a as [k|h|h]; cbn -[KeyHash_from_bytes] in *.
  - by rewrite KeyHash_bytes_round_trip.
  - unfold validate_padding_byte. rewrite app_comm_cons, last_snoc. cbn.
    rewrite length_app, Nat.add_sub, take_app_length, hash_of_ok by (done || set_solver). done.
  - unfold validate_padding_byte. rewrite app_comm_cons, last_snoc. cbn.
    rewrite length_app, Nat.add_sub, take_app_length, hash_of_ok by (done || set_solver). done.
Qed.

Lemma padded_inv b h :
  length h >= 1 -> validate_padding_byte (b :: h) = Ok tt ->
  take (length h - 1) h ++ [Byte.x00] = h.
Proof.
  intros Hh. destruct h as [|c h _] using rev_ind; [cbn in Hh; lia|].
  unfold validate_padding_byte. rewrite app_comm_cons, last_snoc. cbn.
  intros H. destruct c; try discriminate H.
  by rewrite length_app, Nat.add_sub, take_app_length.
Qed.

Lemma AddressHash_bytes_canonical bs a :
  AddressHash_from_bytes bs = Ok a -> AddressHash_to_bytes a = bs.
Proof.
  unfold AddressHash_from_bytes, check_min_size, AddressHash_BYTE_SIZE.
  destruct (Nat.ltb_spec (length bs) 22) as [|Hlen]; cbn [mbind outcome_bind]; [done|]. intros H.
  destruct bs as [|b bs]; [done|]. cbn in Hlen.
  destruct b; try discriminate.
  - apply outcome_bind_ok in H as (k&Hk&[= <-]). cbn. by rewrite (KeyHash_bytes_canonical _ _ Hk).
  - apply outcome_bind_ok in H as ([]&Hp&(h&[-> _]%hash_of_inv&[= <-])%outcome_bind_ok). cbn.
    by rewrite (padded_inv _ bs ltac:(lia) Hp).
  - apply outcome_bind_ok in H as ([]&Hp&(h&[-> _]%hash_of_inv&[= <-])%outcome_bind_ok). cbn.
    by rewrite (padded_inv _ bs ltac:(lia) Hp).
Qed.
End round_trips.

(** * Properties *)

Section properties.
Context {X : External} {XL : ExternalLaws X}.

Lemma address_bytes_round_trip (a : Address) (Ha : address_ok a) :
  Address_from_bytes (Address_to_bytes a) = Ok a.
Proof.
  destruct a as [h e], Ha as [Hh [Hne He]]. cbn in Hh, Hne, He.
  pose proof (length_AddressHash_to_bytes h Hh) as Hlen.
  unfold Address_from_bytes, Address_to_bytes, check_min_size, AddressHash_BYTE_SIZE, is_default_ep.
  cbn [addr_hash addr_entrypoint]. rewrite length_app, Hlen.
  rewrite (proj2 (Nat.ltb_ge _ _)) by lia. cbn [mbind outcome_bind].
  rewrite take_app_length', drop_app_length' by done.
  rewrite AddressHash_bytes_round_trip by done. cbn [mbind outcome_bind].
  destruct (is_default e) eqn:Hd.
  - unfold is_default in Hd. apply bool_decide_eq_true in Hd as ->. done.
  - destruct e as [[|b n]]; cbn in *; [done|]. rewrite He. cbn. by rewrite Hd.
Qed.

Lemma address_bytes_canonical (bs : bytes) (a : Address) (H : Address_from_bytes bs = Ok a) :
  Address_to_bytes a = bs /\ entrypoint_ok (addr_entrypoint a).
Proof.
  unfold Address_from_bytes in H. apply outcome_bind_ok in H as (?&_&H).
  apply outcome_bind_ok in H as (h&Hh&H). apply outcome_bind_ok in H as (e&He&[= <-]).
  apply AddressHash_bytes_canonical in Hh. unfold Address_to_bytes, is_default_ep. cbn.
  rewrite Hh. unfold EntrypointRepr.try_from_bytes in He.
  destruct (drop AddressHash_BYTE_SIZE bs) as [|b ep] eqn:Hd.
  - injection He as <-. split; [|done]. cbn. rewrite app_nil_r.
    rewrite <- (take_drop AddressHash_BYTE_SIZE bs) at 2. by rewrite Hd, app_nil_r.
  - apply outcome_bind_ok in He as ([]&Hn&He).
    destruct (is_default (mkEntrypoint (b :: ep))) eqn:Hdef; [done|]. injection He as <-.
    rewrite Hdef. cbn [ep_name]. split; [by rewrite <- Hd, take_drop|by split].
Qed.

(** The binary form of addresses.  Every address the library can hold (20-byte hash, valid non-empty
    entrypoint) is read back unchanged from the bytes it writes, and the form is canonical: whatever
    bytes are accepted, writing the address that was read yields the same bytes, so that two
    different byte strings never denote the same address. *)
Theorem address_bytes_bijective (a : Address) (Ha : address_ok a) :
  Address_from_bytes (Address_to_bytes a) = Ok a /\
  forall bs, Address_from_bytes bs = Ok a -> bs = Address_to_bytes a.
Proof.
  split; [by apply address_bytes_round_trip|]. intros bs H. by apply address_bytes_canonical in H as [-> _].
Qed.
End properties.

Definition ex_address : Address := mkAddress (Kt1 (repeat Byte.x07 20)) (mkEntrypoint (str "foo")).

Lemma address_bytes_bijective_witness :
  Address_from_bytes (Address_to_bytes ex_address) = Ok ex_address /\
  Address_to_bytes ex_address = Byte.x01 :: repeat Byte.x07 20 ++ Byte.x00 :: str "foo".
Proof.
  destruct (address_bytes_bijective ex_address) as [H1 H2].
  - split; [reflexivity|]. split; [discriminate|reflexivity].
  - split; [exact H1|]. symmetry. apply H2. reflexivity.
Defined.
