(* ===== verification/Serializer.v ===== *)
(** Micheline serialization.

    Models [contrib/mir/src/serializer/{constants,encode,decode}.rs], the
    annotations of [lexer.rs] ([try_ann_from_str]) and [IntoMicheline] for typed
    values ([ast.rs], [ast/michelson_lambda.rs]), which together make [PACK].

    The encoder appends to an output vector; here it returns what it appends.
    Lengths are written as [u32] with the truncating cast of the source. *)

From S2P Require Import Prelude Endian Syntax External ByteRepr.

(** * Constants *)

Definition NUMBER_TAG : byte := Byte.x00.
Definition STRING_TAG : byte := Byte.x01.
Definition SEQ_TAG : byte := Byte.x02.
Definition BYTES_TAG : byte := Byte.x0a.
Definition APP_NO_ARGS_NO_ANNOTS_TAG : byte := Byte.x03.
Definition APP_NO_ARGS_WITH_ANNOTS_TAG : byte := Byte.x04.
Definition APP_ONE_ARG_NO_ANNOTS_TAG : byte := Byte.x05.
Definition APP_ONE_ARG_WITH_ANNOTS_TAG : byte := Byte.x06.
Definition APP_TWO_ARGS_NO_ANNOTS_TAG : byte := Byte.x07.
Definition APP_TWO_ARGS_WITH_ANNOTS_TAG : byte := Byte.x08.
Definition APP_GENERIC : byte := Byte.x09.

(** * Encoding *)

Section encode.
Context {X : External}.

(** [put_len] after the cast to [u32]. *)
Definition put_len (len : nat) : bytes := reverse (le_bytes 4 (N.of_nat len mod 2 ^ 32)).

(** [with_patchback_len]. *)
Definition with_len (body : bytes) : bytes := put_len (length body) ++ body.

(** [Annotation::encode_bytes]. *)
Definition encode_ann (a : Annotation) : bytes :=
  match a with
  | Ann_Special s => s
  | Ann_Field s => Byte.x25 :: s
  | Ann_Variable s => Byte.x40 :: s
  | Ann_Type s => Byte.x3a :: s
  end.

Fixpoint encode_ann_list (anns : Annotations) : bytes :=
  match anns with
  | [] => []
  | [a] => encode_ann a
  | a :: anns => encode_ann a ++ Byte.x20 :: encode_ann_list anns
  end.
(** [Annotations::encode_bytes]. *)
Definition encode_anns (anns : Annotations) : bytes := with_len (encode_ann_list anns).

Definition encode_prim (p : Prim) : byte := byte_of_N (N.of_nat (prim_code p)).

(** [AppEncoder::encode] for the arrays: tag, primitive, arguments, then the annotations if any. *)
Definition encode_app_n (no_annots_tag with_annots_tag : byte) (p : Prim) (args : bytes)
    (anns : Annotations) : bytes :=
  match anns with
  | [] => no_annots_tag :: encode_prim p :: args
  | _ => with_annots_tag :: encode_prim p :: args ++ encode_anns anns
  end.

(** [AppEncoder::encode] for a slice, on the encoded arguments. *)
Definition encode_app (p : Prim) (args : list bytes) (anns : Annotations) : bytes :=
  match args with
  | [] => encode_app_n APP_NO_ARGS_NO_ANNOTS_TAG APP_NO_ARGS_WITH_ANNOTS_TAG p [] anns
  | [a] => encode_app_n APP_ONE_ARG_NO_ANNOTS_TAG APP_ONE_ARG_WITH_ANNOTS_TAG p a anns
  | [a; b] => encode_app_n APP_TWO_ARGS_NO_ANNOTS_TAG APP_TWO_ARGS_WITH_ANNOTS_TAG p (a ++ b) anns
  | _ => APP_GENERIC :: encode_prim p :: with_len (mjoin args) ++ encode_anns anns
  end.

Fixpoint encode_micheline (m : Micheline) : bytes :=
  match m with
  | M_Int n => NUMBER_TAG :: x_zarith_write n
  | M_String s => STRING_TAG :: with_len s
  | M_Bytes b => BYTES_TAG :: with_len b
  | M_Seq l => SEQ_TAG :: with_len (mjoin (map encode_micheline l))
  | M_App p args anns => encode_app p (map encode_micheline args) anns
  end.

(** [Micheline::encode], [encode_for_pack]. *)
Definition encode (m : Micheline) : bytes := encode_micheline m.
Definition encode_for_pack (m : Micheline) : bytes := Byte.x05 :: encode_micheline m.
End encode.

(** * Decoding *)

Inductive DecodeError : Set :=
  | TrailingBytes
  | NoPackTag
  | UnexpectedEOF
  | UnknownTag (b : byte)
  | ForbiddenStringCharacter
  | UnknownPrim (b : byte)
  | BadAnnotation.

(** A reader of the [BytesIt] cursor: the rest of the input is returned. *)
Abbreviation D A := (outcome DecodeError (A * bytes)).

(** [BytesIt::take]. *)
Definition it_take (n : nat) (bs : bytes) : option (bytes * bytes) :=
  if length bs <? n then None else Some (take n bs, drop n bs).

Definition get_len (bs : bytes) : D N :=
  '(b, bs) ← ok_or UnexpectedEOF (it_take 4 bs);
  Ok (of_le_bytes (reverse b), bs).

Definition get_bytes (bs : bytes) : D bytes :=
  '(len, bs) ← get_len bs;
  ok_or UnexpectedEOF (it_take (N.to_nat len) bs).

(** The continuation bytes of a number: 7 bits each, bit 7 set on all but the last. *)
Fixpoint decode_int_tail (shift : N) (acc : N) (bs : bytes) : D N :=
  match bs with
  | [] => Err UnexpectedEOF
  | b :: bs =>
      let n := Byte.to_N b in
      let acc := (acc + N.shiftl (n mod 128) shift)%N in
      if (128 <=? n)%N then decode_int_tail (shift + 7) acc bs else Ok (acc, bs)
  end.

Definition decode_int (bs : bytes) : D Micheline :=
  match bs with
  | [] => Err UnexpectedEOF
  | b :: bs =>
      let n := Byte.to_N b in
      let minus := N.testbit n 6 in
      '(m, bs) ← (if (128 <=? n)%N then decode_int_tail 6 (n mod 64) bs else Ok ((n mod 64)%N, bs));
      Ok (M_Int (if minus then - Z.of_N m else Z.of_N m)%Z, bs)
  end.

(** [b' '..=b'~' | b'\n' | b'\r']. *)
Definition string_char (b : byte) : bool :=
  EntrypointRepr.in_range Byte.x20 Byte.x7e b || Byte.eqb b Byte.x0a || Byte.eqb b Byte.x0d.

Definition validate_str (bs : bytes) : outcome DecodeError bytes :=
  if forallb string_char bs then Ok bs else Err ForbiddenStringCharacter.

Definition decode_string (bs : bytes) : D Micheline :=
  '(s, bs) ← get_bytes bs; s ← validate_str s; Ok (M_String s, bs).

Definition decode_bytes (bs : bytes) : D Micheline :=
  '(b, bs) ← get_bytes bs; Ok (M_Bytes b, bs).

Definition special_anns : list bytes := [str "@%"; str "@%%"; str "%@"].

(** [try_ann_from_str] (lexer.rs); indexing an empty string is a panic. *)
Definition try_ann_from_str (s : bytes) : outcome DecodeError (option Annotation) :=
  if decide (s ∈ special_anns) then Ok (Some (Ann_Special s))
  else
    match s with
    | Byte.x40 :: s => Ok (Some (Ann_Variable s))
    | Byte.x25 :: s => Ok (Some (Ann_Field s))
    | Byte.x3a :: s => Ok (Some (Ann_Type s))
    | _ :: _ => Ok None
    | [] => Panic PSlice
    end.

(** [@%|@%%|%@|[@:%][_0-9a-zA-Z][_0-9a-zA-Z\.%@]*]. *)
Definition ann_start (b : byte) : bool :=
  Byte.eqb b Byte.x40 || Byte.eqb b Byte.x3a || Byte.eqb b Byte.x25.
Definition ann_char (b : byte) : bool :=
  EntrypointRepr.alpha_num b || EntrypointRepr.ep_punctuation b.
Definition valid_ann (bs : bytes) : bool :=
  if decide (bs ∈ special_anns) then true
  else
    match bs with
    | a :: b :: rest => ann_start a && EntrypointRepr.alpha_num b && forallb ann_char rest
    | _ => false
    end.

Definition validate_ann (bs : bytes) : outcome DecodeError Annotation :=
  if valid_ann bs then o ← try_ann_from_str bs; expect PUnwrap o else Err BadAnnotation.

(** [split(|c| c == &b' ')]: never empty. *)
Fixpoint split_spaces (bs : bytes) : list bytes :=
  match bs with
  | [] => [[]]
  | b :: bs =>
      if Byte.eqb b Byte.x20 then [] :: split_spaces bs
      else match split_spaces bs with
           | w :: ws => (b :: w) :: ws
           | [] => [[b]]
           end
  end.

Fixpoint validate_anns (l : list bytes) : outcome DecodeError Annotations :=
  match l with
  | [] => Ok []
  | w :: l => a ← validate_ann w; l ← validate_anns l; Ok (a :: l)
  end.

(** The annotations of an application. *)
Definition decode_anns (annotations : bool) (bs : bytes) : D Annotations :=
  if annotations then
    '(s, bs) ← get_bytes bs;
    match s with
    | [] => Ok (NO_ANNS, bs)
    | _ => anns ← validate_anns (split_spaces s); Ok (anns, bs)
    end
  else Ok (NO_ANNS, bs).

Inductive NumArgs : Set := Zero | One | Two | Many.

(** [decode_micheline], with [decode_seq_raw]'s loop as [decode_all]; every call
    of the pair consumes a byte or returns, see [decode_total]. *)
Section decode_app.
Context (rec : bytes -> D Micheline) (rec_all : bytes -> outcome DecodeError (list Micheline)).

Definition decode_seq_raw (bs : bytes) : D (list Micheline) :=
  '(body, bs) ← get_bytes bs; l ← rec_all body; Ok (l, bs).

Definition decode_seq (bs : bytes) : D Micheline :=
  '(l, bs) ← decode_seq_raw bs; Ok (M_Seq l, bs).

Definition decode_args (n : NumArgs) (bs : bytes) : D (list Micheline) :=
  match n with
  | Zero => Ok ([], bs)
  | One => '(a, bs) ← rec bs; Ok ([a], bs)
  | Two => '(a, bs) ← rec bs; '(b, bs) ← rec bs; Ok ([a; b], bs)
  | Many => decode_seq_raw bs
  end.

Definition decode_app (n : NumArgs) (annotations : bool) (bs : bytes) : D Micheline :=
  match bs with
  | [] => Err UnexpectedEOF
  | p :: bs =>
      match all_prims !! N.to_nat (Byte.to_N p) with
      | None => Err (UnknownPrim p)
      | Some prim =>
          '(args, bs) ← decode_args n bs;
          '(anns, bs) ← decode_anns annotations bs;
          Ok (M_App prim args anns, bs)
      end
  end.

Definition decode_step (bs : bytes) : D Micheline :=
  match bs with
  | [] => Err UnexpectedEOF
  | b :: bs =>
      match b with
      | Byte.x00 => decode_int bs
      | Byte.x01 => decode_string bs
      | Byte.x02 => decode_seq bs
      | Byte.x0a => decode_bytes bs
      | Byte.x03 => decode_app Zero false bs
      | Byte.x04 => decode_app Zero true bs
      | Byte.x05 => decode_app One false bs
      | Byte.x06 => decode_app One true bs
      | Byte.x07 => decode_app Two false bs
      | Byte.x08 => decode_app Two true bs
      | Byte.x09 => decode_app Many true bs
      | b => Err (UnknownTag b)
      end
  end.
End decode_app.

Fixpoint decode_micheline (fuel : nat) (bs : bytes) : D Micheline :=
  match fuel with
  | 0 => Diverge
  | S fuel => decode_step (decode_micheline fuel) (decode_all fuel) bs
  end
with decode_all (fuel : nat) (bs : bytes) : outcome DecodeError (list Micheline) :=
  match fuel with
  | 0 => Diverge
  | S fuel =>
      match bs with
      | [] => Ok []
      | _ => '(m, bs) ← decode_micheline fuel bs; l ← decode_all fuel bs; Ok (m :: l)
      end
  end.

(** Enough steps for any input of this length. *)
Definition decode_fuel (bs : bytes) : nat := 2 * length bs + 1.

Definition decode_raw (bs : bytes) : outcome DecodeError Micheline :=
  '(m, rest) ← decode_micheline (decode_fuel bs) bs;
  match rest with [] => Ok m | _ => Err TrailingBytes end.

Definition decode_packed (bs : bytes) : outcome DecodeError Micheline :=
  match bs with
  | Byte.x05 :: bs => decode_raw bs
  | _ => Err NoPackTag
  end.

(** * Typed values as Micheline (ast.rs, ast/michelson_lambda.rs) *)

Section into_micheline.
Context {X : External}.

Definition option_into_micheline (o : option Micheline) : Micheline :=
  match o with
  | None => prim0 P_None
  | Some m => prim1 P_Some m
  end.
Definition address_into_micheline (a : Address) : Micheline := M_Bytes (Address_to_bytes a).
Definition key_hash_into_micheline (k : KeyHash) : Micheline := M_Bytes (KeyHash_to_bytes k).

(** The part of [BigMap]: the id, the overlay, or both. *)
Definition big_map_into_micheline (id : option Z) (overlay : list Micheline) : Micheline :=
  match id, overlay with
  | Some i, [] => M_Int i
  | Some i, _ => prim2 P_Pair (M_Int i) (M_Seq overlay)
  | None, _ => M_Seq overlay
  end.

(** The code of a partially applied closure, around the code of the inner one. *)
Definition apply_into_micheline (arg_ty : Type_) (arg_val : Micheline) (closure : Closure)
    (inner : Micheline) : Micheline :=
  match closure with
  | Closure_Lambda (Lambda_LambdaRec in_ty out_ty micheline_code _) =>
      M_Seq [prim2 P_PUSH (type_into_micheline arg_ty) arg_val; prim0 P_PAIR;
        prim3 P_LAMBDA_REC (type_into_micheline in_ty) (type_into_micheline out_ty) micheline_code;
        prim0 P_SWAP; prim0 P_EXEC]
  | Closure_Apply _ _ _ | Closure_Lambda (Lambda_Lambda _ _) =>
      M_Seq [prim2 P_PUSH (type_into_micheline arg_ty) arg_val; prim0 P_PAIR; inner]
  end.

(** [into_micheline_optimized_legacy]. *)
Fixpoint value_into_micheline (v : TypedValue) {struct v} : Micheline :=
  match v with
  | V_Int i => M_Int i
  | V_Nat n => M_Int (Z.of_N n)
  | V_Mutez u => M_Int u
  | V_Bool true => prim0 P_True
  | V_Bool false => prim0 P_False
  | V_String s => M_String s
  | V_Unit => prim0 P_Unit
  | V_Pair l r => prim2 P_Pair (value_into_micheline l) (value_into_micheline r)
  | V_List l => M_Seq (map value_into_micheline l)
  | V_Set l => M_Seq (map value_into_micheline l)
  | V_Map m =>
      M_Seq (map (fun e => match e with
                           | (k, v) => prim2 P_Elt (value_into_micheline k) (value_into_micheline v)
                           end) m)
  | V_BigMap (mkBigMap id overlay _ _) =>
      big_map_into_micheline id
        (map (fun e => match e with
                       | (k, None) => prim2 P_Elt (value_into_micheline k) (option_into_micheline None)
                       | (k, Some v) =>
                           prim2 P_Elt (value_into_micheline k)
                             (option_into_micheline (Some (value_into_micheline v)))
                       end) overlay)
  | V_Option None => option_into_micheline None
  | V_Option (Some x) => option_into_micheline (Some (value_into_micheline x))
  | V_Or (Or_Left x) => prim1 P_Left (value_into_micheline x)
  | V_Or (Or_Right x) => prim1 P_Right (value_into_micheline x)
  | V_Address a => address_into_micheline a
  | V_ChainId c => M_Bytes c
  | V_Bytes b => M_Bytes b
  | V_Key k => M_Bytes (Key_to_bytes k)
  | V_Signature s => M_Bytes (Signature_to_bytes s)
  | V_Lambda c => closure_into_micheline c
  | V_KeyHash k => key_hash_into_micheline k
  | V_Timestamp z => M_Int z
  | V_Bls12381Fr x | V_Bls12381G1 x | V_Bls12381G2 x => M_Bytes x
  | V_Contract a => address_into_micheline a
  | V_Operation (mkOperationInfo (Op_TransferTokens param dest amount) _) =>
      prim3 P_Transfer_tokens (value_into_micheline param) (address_into_micheline dest) (M_Int amount)
  | V_Operation (mkOperationInfo (Op_SetDelegate d) _) =>
      prim1 P_Set_delegate (option_into_micheline (option_map key_hash_into_micheline d))
  | V_Operation (mkOperationInfo (Op_Emit tag value arg_ty) _) =>
      M_App P_Emit
        [value_into_micheline value;
         match arg_ty with Or_Right m => m | Or_Left t => type_into_micheline t end]
        match tag with Some t => [Ann_Field t] | None => NO_ANNS end
  | V_Operation (mkOperationInfo (Op_CreateContract d amount storage _ micheline_code) _) =>
      M_App P_Create_contract
        [micheline_code;
         option_into_micheline
           (option_map (fun k => address_into_micheline (mkAddress (Implicit k) default_ep)) d);
         M_Int amount; value_into_micheline storage] NO_ANNS
  | V_Ticket (mkTicket ticketer content amount) =>
      prim2 P_Pair (address_into_micheline (mkAddress ticketer default_ep))
        (prim2 P_Pair (value_into_micheline content) (M_Int (Z.of_N amount)))
  end
with closure_into_micheline (c : Closure) {struct c} : Micheline :=
  match c with
  | Closure_Lambda (Lambda_Lambda micheline_code _) => micheline_code
  | Closure_Lambda (Lambda_LambdaRec _ _ micheline_code _) => prim1 P_Lambda_rec micheline_code
  | Closure_Apply arg_ty arg_val closure =>
      apply_into_micheline arg_ty (value_into_micheline arg_val) closure
        (closure_into_micheline closure)
  end.

(** A ticket is written as the pair it is read as. *)
Lemma ticket_into_micheline t :
  value_into_micheline (V_Ticket t) = value_into_micheline (unwrap_ticket t).
Proof. by destruct t. Qed.
End into_micheline.

(** * Decoding is total *)

(** Returns a value or an error: no panic, no exhausted fuel. *)
Definition terminates {E A} (o : outcome E A) : Prop :=
  match o with Panic _ | Diverge => False | _ => True end.

(** A reader that returns, and leaves at most [n] bytes. *)
Definition reads {A} (n : nat) (o : D A) : Prop :=
  match o with Ok (_, bs) => length bs <= n | Panic _ | Diverge => False | Err _ => True end.

Lemma reads_bind {A B} n m (o : D A) (k : A * bytes -> D B) :
  reads n o -> (forall a bs, length bs <= n -> reads m (k (a, bs))) -> reads m (o ≫= k).
Proof. destruct o as [[a bs]| | |]; cbn; auto. Qed.

Lemma reads_mono {A} n m (o : D A) : reads n o -> n <= m -> reads m o.
Proof. destruct o as [[a bs]| | |]; cbn; auto. lia. Qed.

Lemma get_bytes_reads bs : reads (length bs - 4) (get_bytes bs).
Proof.
  unfold get_bytes, get_len, it_take. case_match; cbn; [done|].
  case_match; cbn; [done|]. rewrite !length_drop. lia.
Qed.

Lemma get_bytes_split bs b rest : get_bytes bs = Ok (b, rest) -> length b + length rest + 4 = length bs.
Proof.
  unfold get_bytes, get_len, it_take.
  destruct (Nat.ltb_spec (length bs) 4) as [|H4]; cbn -[Nat.ltb]; [done|].
  generalize (N.to_nat (of_le_bytes (reverse (take 4 bs)))). intros n.
  destruct (Nat.ltb_spec (length (drop 4 bs)) n) as [|Hn]; cbn; [done|].
  intros [= <- <-]. rewrite length_take, !length_drop. rewrite length_drop in Hn. lia.
Qed.

Lemma decode_int_tail_reads shift acc bs : reads (length bs) (decode_int_tail shift acc bs).
Proof.
  revert shift acc. induction bs as [|b bs IH]; intros; cbn; [done|].
  case_match; [|cbn; lia]. eapply reads_mono; [apply IH|cbn; lia].
Qed.

Lemma decode_int_reads bs : reads (length bs) (decode_int bs).
Proof.
  destruct bs as [|b bs]; cbn; [done|].
  eapply (reads_bind (length bs)); [|intros; cbn; lia].
  case_match; [apply decode_int_tail_reads|cbn; lia].
Qed.

Lemma validate_ann_terminates w : terminates (validate_ann w).
Proof.
  unfold validate_ann, try_ann_from_str, valid_ann. case_decide; [done|].
  destruct w as [|a [|b w]]; [done..|]. destruct (ann_start a) eqn:Ha; [|done].
  destruct (_ && _); [|done]. by destruct a.
Qed.

Lemma validate_anns_terminates l : terminates (validate_anns l).
Proof.
  induction l as [|w l IH]; cbn; [done|].
  pose proof (validate_ann_terminates w). destruct (validate_ann w); cbn; try done.
  by destruct (validate_anns l).
Qed.

Lemma decode_anns_reads b bs : reads (length bs) (decode_anns b bs).
Proof.
  unfold decode_anns. destruct b; [|cbn; lia].
  eapply (reads_bind (length bs - 4)); [apply get_bytes_reads|]. intros s rest Hr.
  destruct s; [cbn; lia|]. pose proof (validate_anns_terminates (split_spaces (b :: s))) as Hv.
  destruct (validate_anns _); cbn; try done. lia.
Qed.

Section decode_app_reads.
Context (rec : bytes -> D Micheline) (rec_all : bytes -> outcome DecodeError (list Micheline)) (n : nat).
Context (Hrec : forall bs, length bs < n -> reads (length bs - 1) (rec bs)).
Context (Hall : forall bs, length bs < n -> terminates (rec_all bs)).

Lemma decode_seq_raw_reads bs : length bs < n -> reads (length bs) (decode_seq_raw rec_all bs).
Proof.
  intros Hn. unfold decode_seq_raw. destruct (get_bytes bs) as [[body rest]| | |] eqn:E; cbn; try done.
  - apply get_bytes_split in E. specialize (Hall body). destruct (rec_all body); cbn; try done; try lia;
      apply Hall; lia.
  - pose proof (get_bytes_reads bs) as H. by rewrite E in H.
  - pose proof (get_bytes_reads bs) as H. by rewrite E in H.
Qed.

Lemma decode_args_reads k bs : length bs < n -> reads (length bs) (decode_args rec rec_all k bs).
Proof.
  intros Hn. destruct k; cbn.
  - lia.
  - eapply reads_bind; [apply Hrec; lia|]. intros; cbn; lia.
  - eapply reads_bind; [apply Hrec; lia|]. intros a bs1 H1.
    eapply reads_bind; [apply Hrec; lia|]. intros; cbn; lia.
  - by apply decode_seq_raw_reads.
Qed.

Lemma decode_app_reads k b bs : length bs < n -> reads (length bs - 1) (decode_app rec rec_all k b bs).
Proof.
  intros Hn. destruct bs as [|p bs]; cbn; [done|]. case_match; [|done].
  rewrite Nat.sub_0_r. cbn in Hn.
  eapply reads_bind; [apply decode_args_reads; lia|]. intros args bs1 H1.
  eapply reads_bind; [apply decode_anns_reads|]. intros; cbn; lia.
Qed.

Lemma decode_step_reads bs : length bs <= n -> reads (length bs - 1) (decode_step rec rec_all bs).
Proof.
  intros Hn. destruct bs as [|b bs]; cbn [decode_step length] in *; [done|].
  rewrite Nat.sub_succ, Nat.sub_0_r.
  assert (Happ : forall k a, reads (length bs) (decode_app rec rec_all k a bs)).
  { intros. eapply reads_mono; [apply decode_app_reads; lia|lia]. }
  destruct b; try done.
  - apply decode_int_reads.
  - eapply reads_bind; [apply get_bytes_reads|]. intros s r Hr.
    unfold validate_str. case_match; cbn; [lia|done].
  - eapply reads_bind; [apply decode_seq_raw_reads; lia|]. intros; cbn; lia.
  - eapply reads_bind; [apply get_bytes_reads|]. intros; cbn; lia.
Qed.
End decode_app_reads.

Lemma decode_reads fuel :
  (forall bs, fuel >= 2 * length bs + 1 -> reads (length bs - 1) (decode_micheline fuel bs)) /\
  (forall bs, fuel >= 2 * length bs + 2 -> terminates (decode_all fuel bs)).
Proof.
  induction fuel as [|fuel [IHm IHa]]; [split; intros; lia|]. split; intros bs Hf.
  - cbn [decode_micheline]. apply (decode_step_reads _ _ (length bs)); [| |lia].
    + intros bs' ?. apply IHm. lia.
    + intros bs' ?. apply IHa. lia.
  - cbn [decode_all]. destruct bs as [|b bs]; [done|].
    specialize (IHm (b :: bs)). destruct (decode_micheline fuel (b :: bs)) as [[m rest]| | |]; cbn; try done.
    + cbn in IHm. specialize (IHa rest). cbn in Hf.
      destruct (decode_all fuel rest); cbn; try done; apply IHa; lia.
    + apply IHm. lia.
    + apply IHm. lia.
Qed.

(** * Round trip *)

(** Annotations the lexer can produce. *)
Definition ann_body (s : bytes) : bool :=
  match s with
  | b :: rest => EntrypointRepr.alpha_num b && forallb ann_char rest
  | [] => false
  end.
Definition ann_ok (a : Annotation) : bool :=
  match a with
  | Ann_Special s => bool_decide (s ∈ special_anns)
  | Ann_Field s | Ann_Variable s | Ann_Type s => ann_body s
  end.

(** Micheline the decoder can produce: printable strings, lexical annotations. *)
Fixpoint micheline_ok (m : Micheline) : bool :=
  match m with
  | M_Int _ | M_Bytes _ => true
  | M_String s => forallb string_char s
  | M_App _ args anns => forallb micheline_ok args && forallb ann_ok anns
  | M_Seq l => forallb micheline_ok l
  end.

Section round_trip.
Context {X : External} {XL : ExternalLaws X}.
#[local] Open Scope N_scope.

Lemma byte_bits b n : n < 64 -> N.testbit (b * 64 + n) 6 = N.odd b.
Proof.
  intros Hn. rewrite N.testbit_odd, N.shiftr_div_pow2. change (2 ^ 6) with 64.
  f_equal. rewrite N.div_add_l by lia. rewrite (N.div_small n) by done. lia.
Qed.

Lemma zarith_tail_decode fuel n shift acc rest :
  n < 2 ^ (7 * N.of_nat fuel) -> fuel <> 0%nat ->
  decode_int_tail shift acc (zarith_tail fuel n ++ rest) = Ok (acc + N.shiftl n shift, rest).
Proof.
  revert n shift acc. induction fuel as [|fuel IH]; intros n shift acc Hn Hf; [done|].
  cbn [zarith_tail]. destruct (N.ltb_spec n 128) as [Hlt|Hge]; cbn [decode_int_tail app].
  - rewrite byte_to_of_N by lia. rewrite (proj2 (N.leb_gt 128 n)) by lia.
    by rewrite N.mod_small by lia.
  - pose proof (N.mod_lt n 128 ltac:(lia)) as Hmod.
    rewrite byte_to_of_N by lia. rewrite (proj2 (N.leb_le 128 (128 + n mod 128))) by apply N.le_add_r.
    assert (H2 : 2 ^ (7 * N.of_nat (S fuel)) = 128 * 2 ^ (7 * N.of_nat fuel)).
    { replace (7 * N.of_nat (S fuel)) with (7 + 7 * N.of_nat fuel) by lia.
      by rewrite N.pow_add_r. }
    rewrite H2 in Hn. rewrite IH.
    + do 2 f_equal. rewrite <- N.add_assoc. f_equal.
      replace (128 + n mod 128) with (n mod 128 + 1 * 128) by lia.
      rewrite N.Div0.mod_add, N.Div0.mod_mod. rewrite !N.shiftl_mul_pow2, N.pow_add_r.
      change (2 ^ 7) with 128. pose proof (N.div_mod n 128 ltac:(lia)) as Hdm.
      revert Hdm. generalize (n / 128) (n mod 128). intros q r ->. ring.
    + apply N.Div0.div_lt_upper_bound. lia.
    + intros ->. cbn in Hn. lia.
Qed.

Lemma zarith_round_trip z rest : decode_int (zarith_format z ++ rest) = Ok (M_Int z, rest).
Proof.
  unfold zarith_format. set (n := Z.abs_N z). set (sign := if (z <? 0)%Z then 64 else 0).
  assert (Hs : exists b, sign = b * 64 /\ b < 2 /\ N.odd b = (z <? 0)%Z).
  { unfold sign. destruct (z <? 0)%Z; [by exists 1|by exists 0]. }
  destruct Hs as (b&Hsign&Hb&Hodd).
  assert (Hz : (if (z <? 0)%Z then - Z.of_N n else Z.of_N n)%Z = z).
  { unfold n. destruct (Z.ltb_spec z 0); lia. }
  destruct (N.ltb_spec n 64) as [Hn|Hn]; cbn [app decode_int].
  - rewrite byte_to_of_N by lia. rewrite (proj2 (N.leb_gt 128 (sign + n))) by lia. cbn [mbind outcome_bind].
    rewrite Hsign, byte_bits, Hodd by done.
    rewrite N.add_comm, N.Div0.mod_add, N.mod_small by done. by rewrite Hz.
  - pose proof (N.mod_lt n 64 ltac:(lia)) as Hmod.
    rewrite byte_to_of_N by lia. rewrite (proj2 (N.leb_le 128 (128 + sign + n mod 64)))
      by (rewrite <- N.add_assoc; apply N.le_add_r).
    rewrite Hsign.
    replace (128 + b * 64 + n mod 64) with ((2 + b) * 64 + n mod 64) by lia.
    rewrite byte_bits, N.odd_add by done. change (N.odd 2) with false. rewrite xorb_false_l, Hodd.
    rewrite (N.add_comm _ (n mod 64)), N.Div0.mod_add, N.Div0.mod_mod.
    rewrite zarith_tail_decode.
    + cbn [mbind outcome_bind]. rewrite N.shiftl_mul_pow2. change (2 ^ 6) with 64.
      replace (n mod 64 + n / 64 * 64) with n by (pose proof (N.div_mod n 64); lia).
      by rewrite Hz.
    + rewrite N2Nat.id. apply N.lt_le_trans with (2 ^ N.size n).
      * apply N.le_lt_trans with n; [apply N.Div0.div_le_upper_bound; lia|apply N.size_gt].
      * apply N.pow_le_mono_r; lia.
    + destruct n; cbn; lia.
Qed.

(** ** Length-prefixed blocks *)

Definition fits (b : bytes) : Prop := N.of_nat (length b) < 2 ^ 32.

Lemma length_put_len n : length (put_len n) = 4%nat.
Proof. unfold put_len. by rewrite length_reverse, length_le_bytes. Qed.

Lemma it_take_app n (a b : bytes) : length a = n -> it_take n (a ++ b) = Some (a, b).
Proof.
  intros <-. unfold it_take. rewrite length_app.
  rewrite (proj2 (Nat.ltb_ge _ _)) by lia. by rewrite take_app_length, drop_app_length.
Qed.

Lemma get_bytes_with_len b rest : fits b -> get_bytes (with_len b ++ rest) = Ok (b, rest).
Proof.
  intros Hb. unfold fits in Hb. unfold get_bytes, get_len, with_len.
  rewrite <- app_assoc, it_take_app by apply length_put_len. cbn [ok_or mbind outcome_bind].
  unfold put_len. rewrite reverse_involutive, of_le_bytes_le_bytes.
  - rewrite N.mod_small by done. by rewrite it_take_app by lia.
  - apply N.mod_lt. lia.
Qed.

(** ** Annotations *)

Lemma ann_char_no_space b : ann_char b = true -> b <> Byte.x20.
Proof. by intros H ->. Qed.
Lemma alpha_num_char b : EntrypointRepr.alpha_num b = true -> ann_char b = true.
Proof. unfold ann_char. by intros ->. Qed.

Lemma ann_body_chars s : ann_body s = true -> Forall (fun b => b <> Byte.x20) s.
Proof.
  destruct s as [|b s]; cbn; [done|]. intros [Hb Hs]%andb_prop. constructor.
  - by apply ann_char_no_space, alpha_num_char.
  - apply Forall_forall. intros c Hc. apply ann_char_no_space.
    apply Is_true_true_2, forallb_True in Hs. eapply Forall_forall in Hs; [|exact Hc].
    by apply Is_true_true_1.
Qed.

Lemma encode_ann_ok a :
  ann_ok a = true ->
  validate_ann (encode_ann a) = Ok a /\ encode_ann a <> [] /\
  Forall (fun b => b <> Byte.x20) (encode_ann a).
Proof.
  destruct a as [s|s|s|s]; cbn [ann_ok encode_ann]; intros Ha.
  { apply bool_decide_eq_true in Ha. unfold special_anns in Ha.
    rewrite !elem_of_cons, elem_of_nil in Ha. destruct Ha as [->|[->|[->|[]]]];
      (split; [done|]; split; [done|]; repeat constructor; done). }
  all: pose proof (ann_body_chars s Ha) as Hc; destruct s as [|b s]; [done|];
    pose proof Ha as Ha'; cbn in Ha; apply andb_prop in Ha as [Hb Hs].
  all: split; [|split; [done|by constructor]].
  all: unfold validate_ann, valid_ann, try_ann_from_str;
    rewrite !decide_False by (unfold special_anns; rewrite !elem_of_cons, elem_of_nil;
      intros [H|[H|[H|[]]]]; first [discriminate H|injection H as -> ->; discriminate Hb]); cbn -[EntrypointRepr.alpha_num].
  all: by rewrite Hb, Hs.
Qed.

Lemma split_spaces_word w ws rest :
  Forall (fun b => b <> Byte.x20) w -> split_spaces rest = ws ->
  split_spaces (w ++ Byte.x20 :: rest) = w :: ws.
Proof.
  intros Hw <-. induction Hw as [|b w Hb _ IH]; cbn; [done|].
  rewrite IH. destruct (Byte.eqb b Byte.x20) eqn:E; [|done]. by apply Byte.byte_dec_bl in E.
Qed.

Lemma split_spaces_last w : Forall (fun b => b <> Byte.x20) w -> split_spaces w = [w].
Proof.
  intros Hw. induction Hw as [|b w Hb _ IH]; cbn; [done|].
  rewrite IH. destruct (Byte.eqb b Byte.x20) eqn:E; [|done]. by apply Byte.byte_dec_bl in E.
Qed.

Lemma validate_anns_round_trip anns :
  forallb ann_ok anns = true -> anns <> [] ->
  validate_anns (split_spaces (encode_ann_list anns)) = Ok anns /\ encode_ann_list anns <> [].
Proof.
  induction anns as [|a anns IH]; [done|]. cbn [forallb]. intros [Ha Hl]%andb_prop _.
  destruct (encode_ann_ok a Ha) as (Hv&Hne&Hc). destruct anns as [|a' anns].
  - cbn [encode_ann_list]. rewrite split_spaces_last by done. cbn. by rewrite Hv.
  - destruct (IH Hl) as [Hr _]; [done|]. cbn [encode_ann_list] in *.
    rewrite (split_spaces_word _ _ _ Hc eq_refl). split; [|by destruct (encode_ann a)].
    cbn [validate_anns]. rewrite Hv. cbn [mbind outcome_bind]. by rewrite Hr.
Qed.

Lemma decode_anns_round_trip anns rest :
  forallb ann_ok anns = true -> fits (encode_ann_list anns) ->
  decode_anns true (encode_anns anns ++ rest) = Ok (anns, rest).
Proof.
  intros Ha Hf. unfold decode_anns, encode_anns. rewrite get_bytes_with_len by done.
  cbn [mbind outcome_bind]. destruct anns as [|a anns]; [done|].
  destruct (validate_anns_round_trip (a :: anns) Ha) as [Hv Hne]; [done|].
  destruct (encode_ann_list (a :: anns)); [done|]. by rewrite Hv.
Qed.

(** ** The whole decoder *)

Lemma fits_le (a b : bytes) : (length a <= length b)%nat -> fits b -> fits a.
Proof. unfold fits. lia. Qed.

Lemma length_with_len b : length (with_len b) = (4 + length b)%nat.
Proof. unfold with_len. by rewrite length_app, length_put_len. Qed.

Lemma encode_nonempty m : (1 <= length (encode_micheline m))%nat.
Proof.
  destruct m as [| | |p args anns|]; cbn; try lia.
  destruct args as [|? [|? [|? ?]]]; cbn; try lia; unfold encode_app_n; destruct anns; cbn; lia.
Qed.

(** What the induction gives for one node. *)
Definition decodes (m : Micheline) : Prop :=
  micheline_ok m = true -> fits (encode_micheline m) ->
  forall fuel rest, (fuel >= 2 * length (encode_micheline m) + 1)%nat ->
  decode_micheline fuel (encode_micheline m ++ rest) = Ok (m, rest).

Lemma decode_all_nonempty fuel bs :
  (1 <= length bs)%nat ->
  decode_all (S fuel) bs = ('(m, bs) ← decode_micheline fuel bs; l ← decode_all fuel bs; Ok (m :: l)).
Proof. destruct bs; cbn; [lia|done]. Qed.

Lemma decode_all_ok l fuel :
  Forall decodes l -> forallb micheline_ok l = true -> fits (mjoin (map encode_micheline l)) ->
  (fuel >= 2 * length (mjoin (map encode_micheline l)) + 2)%nat ->
  decode_all fuel (mjoin (map encode_micheline l)) = Ok l.
Proof.
  intros Hd. revert fuel. induction Hd as [|m l Hm _ IH]; intros fuel.
  { intros _ _ Hf. destruct fuel; [cbn in Hf; lia|done]. }
  cbn [map forallb]. change (mjoin (encode_micheline m :: map encode_micheline l))
    with (encode_micheline m ++ mjoin (map encode_micheline l)).
  intros [Hok Hoks]%andb_prop Hfit Hf. unfold fits in Hfit. rewrite length_app in Hf, Hfit.
  destruct fuel as [|fuel]; [lia|]. pose proof (encode_nonempty m).
  rewrite decode_all_nonempty by (rewrite length_app; lia).
  rewrite (Hm Hok); [|unfold fits; lia|lia]. cbn [mbind outcome_bind].
  rewrite IH; [done|done|unfold fits; lia|lia].
Qed.

Lemma decode_prim_ok p : all_prims !! N.to_nat (Byte.to_N (encode_prim p)) = Some p.
Proof. by destruct p. Qed.

(** An application whose arguments are read by [rec]. *)
Lemma decode_app_round_trip rec rec_all k annots p args enc anns rest :
  decode_args rec rec_all k (enc ++ (if annots : bool then encode_anns anns else []) ++ rest) =
    Ok (args, (if annots then encode_anns anns else []) ++ rest) ->
  forallb ann_ok anns = true -> fits (encode_ann_list anns) -> (annots = false -> anns = []) ->
  decode_app rec rec_all k annots
    (encode_prim p :: enc ++ (if annots then encode_anns anns else []) ++ rest) =
    Ok (M_App p args anns, rest).
Proof.
  intros Hargs Ha Hf Hn. cbn [decode_app]. rewrite decode_prim_ok, Hargs. cbn [mbind outcome_bind].
  destruct annots; [by rewrite decode_anns_round_trip|]. by rewrite Hn.
Qed.

Lemma fits_anns anns (b : bytes) :
  (length (encode_anns anns) <= length b)%nat -> fits b -> fits (encode_ann_list anns).
Proof.
  intros Hl. apply fits_le. unfold encode_anns in Hl. rewrite length_with_len in Hl. lia.
Qed.

(** The applications with 0, 1 or 2 arguments share a layout. *)
Lemma decode_step_app_n rec rec_all k t0 t1 p args enc anns rest :
  (forall bs, decode_step rec rec_all (t0 :: bs) = decode_app rec rec_all k false bs) ->
  (forall bs, decode_step rec rec_all (t1 :: bs) = decode_app rec rec_all k true bs) ->
  (forall tail, decode_args rec rec_all k (enc ++ tail) = Ok (args, tail)) ->
  forallb ann_ok anns = true -> fits (encode_app_n t0 t1 p enc anns) ->
  decode_step rec rec_all (encode_app_n t0 t1 p enc anns ++ rest) = Ok (M_App p args anns, rest).
Proof.
  intros H0 H1 Hargs Ha Hf. unfold encode_app_n in *. destruct anns as [|a anns].
  - cbn [app]. rewrite H0. apply (decode_app_round_trip _ _ _ false _ _ enc); try done; by rewrite Hargs.
  - cbn [app]. rewrite <- app_assoc, H1.
    apply (decode_app_round_trip _ _ _ true _ _ enc); try done; try by rewrite Hargs.
    eapply fits_anns; [|exact Hf]. cbn [length]. rewrite length_app. lia.
Qed.

Lemma fits_app_n t0 t1 p enc anns :
  fits (encode_app_n t0 t1 p enc anns) ->
  fits enc /\ (length enc + 2 <= length (encode_app_n t0 t1 p enc anns))%nat.
Proof.
  unfold encode_app_n, fits. destruct anns; cbn [length]; rewrite ?length_app; lia.
Qed.

Lemma decode_app_micheline p args anns : Forall decodes args -> decodes (M_App p args anns).
Proof.
  intros Hd. unfold decodes. cbn [micheline_ok encode_micheline]. intros [Hargs Hanns]%andb_prop Hfit fuel rest Hf.
  destruct fuel as [|fuel]; [lia|]. cbn [decode_micheline].
  assert (Hone : forall m, m ∈ args -> (2 * length (encode_micheline m) + 1 <= fuel)%nat ->
    fits (encode_micheline m) -> forall tail,
    decode_micheline fuel (encode_micheline m ++ tail) = Ok (m, tail)).
  { intros m Hm Hl Hfm tail. eapply Forall_forall in Hd; [|exact Hm]. apply Hd; [|done|lia].
    apply Is_true_true_2, forallb_True in Hargs. eapply Forall_forall in Hargs; [|exact Hm].
    by apply Is_true_true_1. }
  destruct args as [|a [|b [|c args]]]; cbn [map encode_app] in Hfit, Hf |- *.
  - by apply (decode_step_app_n _ _ Zero).
  - destruct (fits_app_n _ _ _ _ _ Hfit) as [Hfa Hla].
    apply (decode_step_app_n _ _ One); try done. intros tail. cbn [decode_args].
    rewrite Hone; [done|set_solver|lia|done].
  - destruct (fits_app_n _ _ _ _ _ Hfit) as [Hfa Hla]. rewrite length_app in Hla.
    unfold fits in Hfa. rewrite length_app in Hfa.
    apply (decode_step_app_n _ _ Two); try done. intros tail. cbn [decode_args]. rewrite <- app_assoc.
    rewrite Hone; [|set_solver|lia|unfold fits; lia]. cbn [mbind outcome_bind].
    rewrite Hone; [done|set_solver|lia|unfold fits; lia].
  - set (l := a :: b :: c :: args) in *. fold (map encode_micheline l) in Hfit, Hf |- *.
    assert (Hl : (length (mjoin (map encode_micheline l)) + 6 + length (encode_anns anns) <=
      length (APP_GENERIC :: encode_prim p :: with_len (mjoin (map encode_micheline l)) ++ encode_anns anns))%nat).
    { cbn [length]. rewrite length_app, length_with_len. lia. }
    change (encode_micheline a :: encode_micheline b :: encode_micheline c :: map encode_micheline args)
      with (map encode_micheline l) in *.
    assert (Hfj : fits (mjoin (map encode_micheline l))) by (eapply fits_le; [|exact Hfit]; lia).
    cbn [app]. rewrite <- app_assoc.
    apply (decode_app_round_trip _ _ Many true _ _ (with_len (mjoin (map encode_micheline l)))); try done.
    + cbn [decode_args]. unfold decode_seq_raw. rewrite get_bytes_with_len by done.
      cbn [mbind outcome_bind]. rewrite decode_all_ok; [done|done|done|done|].
      cbn [length] in Hf. rewrite length_app, length_with_len in Hf. lia.
    + eapply fits_anns; [|exact Hfit]. lia.
Qed.

Lemma decode_round_trip m : decodes m.
Proof.
  induction m as [z|s|b|p args anns IH|l IH] using Micheline_ind'.
  - intros _ _ [|fuel] rest Hf; [lia|]. cbn [decode_micheline encode_micheline app].
    rewrite xl_zarith. apply zarith_round_trip.
  - cbn [decodes encode_micheline micheline_ok]. unfold decodes. cbn [micheline_ok encode_micheline].
    intros Hs Hf [|fuel] rest Hfu; [lia|]. cbn [decode_micheline app].
    change (decode_string (with_len s ++ rest) = Ok (M_String s, rest)). unfold decode_string.
    rewrite get_bytes_with_len; [|eapply fits_le; [|exact Hf]; cbn [length]; rewrite length_with_len; lia].
    cbn [mbind outcome_bind]. unfold validate_str. by rewrite Hs.
  - unfold decodes. cbn [micheline_ok encode_micheline]. intros _ Hf [|fuel] rest Hfu; [lia|].
    change (decode_bytes (with_len b ++ rest) = Ok (M_Bytes b, rest)). unfold decode_bytes.
    rewrite get_bytes_with_len; [done|]. eapply fits_le; [|exact Hf]. cbn [length].
    rewrite length_with_len. lia.
  - by apply decode_app_micheline.
  - unfold decodes. cbn [micheline_ok encode_micheline]. intros Hok Hf [|fuel] rest Hfu; [lia|].
    cbn [length] in Hfu. rewrite length_with_len in Hfu.
    assert (Hfj : fits (mjoin (map encode_micheline l))).
    { eapply fits_le; [|exact Hf]. cbn [length]. rewrite length_with_len. lia. }
    change (decode_seq (decode_all fuel) (with_len (mjoin (map encode_micheline l)) ++ rest) = Ok (M_Seq l, rest)).
    unfold decode_seq, decode_seq_raw. rewrite get_bytes_with_len by done. cbn [mbind outcome_bind].
    rewrite decode_all_ok; [done|done|done|done|lia].
Qed.
End round_trip.

(** * Properties *)

Lemma decode_terminates bs : terminates (decode_raw bs) /\ terminates (decode_packed bs).
Proof.
  assert (H : forall bs, terminates (decode_raw bs)).
  { intros b. unfold decode_raw. pose proof (proj1 (decode_reads (decode_fuel b)) b) as Hr.
    destruct (decode_micheline (decode_fuel b) b) as [[m [|]]| | |]; cbn; try done;
      apply Hr; unfold decode_fuel; lia. }
  split; [done|]. unfold decode_packed. destruct bs as [|[] bs]; done || apply H.
Qed.

(** Deserialization is total: on any byte string, however malformed, [decode_raw] and
    [decode_packed] return a value or one of the documented errors; they neither panic nor
    run out of fuel. *)
Theorem decode_total (bs : bytes) :
  ((exists m, decode_raw bs = Ok m) \/ (exists e, decode_raw bs = Err e)) /\
  ((exists m, decode_packed bs = Ok m) \/ (exists e, decode_packed bs = Err e)).
Proof.
  destruct (decode_terminates bs) as [H H'].
  split; [destruct (decode_raw bs)|destruct (decode_packed bs)]; cbn in *; eauto; done.
Qed.

Section serializer_properties.
Context {X : External} {XL : ExternalLaws X}.

(** C6: [encode] and [decode_raw], and [encode_for_pack] and [decode_packed], are inverse on
    every Micheline tree with printable strings and lexical annotations whose encoding is
    shorter than 4 GiB (lengths are written as 32-bit integers). *)
Theorem encode_decode_round_trip (m : Micheline) (Hm : micheline_ok m = true)
    (Hf : fits (encode m)) :
  decode_raw (encode m) = Ok m /\ decode_packed (encode_for_pack m) = Ok m.
Proof.
  assert (H : decode_raw (encode m) = Ok m).
  { unfold decode_raw, encode in *. rewrite <- (app_nil_r (encode_micheline m)) at 2.
    rewrite (decode_round_trip m Hm Hf); [done|]. unfold decode_fuel. lia. }
  split; exact H.
Qed.
End serializer_properties.

Definition ex_micheline : Micheline :=
  M_Seq [M_App P_PUSH [M_App P_pair [prim0 P_int; prim0 P_string; prim0 P_bytes] [Ann_Field (str "foo")];
           M_App P_Pair [M_Int (-1000000); M_String (str "bar"); M_Bytes [Byte.xff]] NO_ANNS] NO_ANNS;
         M_App P_CAR [] [Ann_Special (str "@%"); Ann_Variable (str "x.y")]].

Lemma encode_decode_round_trip_witness :
  decode_raw (encode ex_micheline) = Ok ex_micheline /\
  decode_packed (encode_for_pack ex_micheline) = Ok ex_micheline.
Proof. apply encode_decode_round_trip; vm_compute; reflexivity. Defined.
