(* ===== verification/Context.v ===== *)
(** The context of typechecking and interpretation.

    Models [contrib/mir/src/context.rs].  [Ctx] is the state both passes thread
    ([&mut Ctx]); the stacks are passed explicitly.  The closures
    [lookup_contract] and [voting_powers] are functions: their documentation asks
    for a mapping from addresses to entrypoints and from key hashes to voting
    powers.  The counters wrap at their width, as release builds do. *)

From S2P Require Import Prelude Syntax Comparable Gas BigMap External.

Record Ctx : Type := mkCtx {
  gas : Gas;
  amount : Z;
  balance : Z;
  level : N;
  sender : AddressHash;
  source : AddressHash;
  min_block_time : N;
  chain_id : bytes;
  self_address : AddressHash;
  lookup_contract : AddressHash -> option Entrypoints;
  voting_powers : KeyHash -> N;
  now : Z;
  total_voting_power : N;
  operation_group_hash : bytes;
  big_map_storage : DynLazyStorage;
  origination_count : Z;
  operation_count : Z
}.

Definition set_gas (g : Gas) (c : Ctx) : Ctx :=
  mkCtx g (amount c) (balance c) (level c) (sender c) (source c) (min_block_time c) (chain_id c)
    (self_address c) (lookup_contract c) (voting_powers c) (now c) (total_voting_power c)
    (operation_group_hash c) (big_map_storage c) (origination_count c) (operation_count c).

Definition set_counters (orig op : Z) (c : Ctx) : Ctx :=
  mkCtx (gas c) (amount c) (balance c) (level c) (sender c) (source c) (min_block_time c) (chain_id c)
    (self_address c) (lookup_contract c) (voting_powers c) (now c) (total_voting_power c)
    (operation_group_hash c) (big_map_storage c) orig op.

(** [ctx.gas.consume(cost)?]: [From<OutOfGas>] converts the error. *)
Definition consume_gas {E} (oog : E) (cost : N) : M Ctx E unit := fun c =>
  let '(o, g) := consume cost (gas c) in (map_err (fun _ => oog) o, set_gas g c).

(** [ctx.gas.consume(cost?)?]. *)
Definition consume_cost {E} (oog : E) (c : cost) : M Ctx E unit :=
  n ← lift (map_err (fun _ => oog) c); consume_gas oog n.

(** [Ctx::operation_counter], [u128]. *)
Definition operation_counter {E} : M Ctx E Z := fun c =>
  let n := ((operation_count c + 1) mod 2 ^ 128)%Z in (Ok n, set_counters (origination_count c) n c).

(** [Ctx::origination_counter], [u32]. *)
Definition origination_counter {E} : M Ctx E Z := fun c =>
  let n := ((origination_count c + 1) mod 2 ^ 32)%Z in (Ok n, set_counters n (operation_count c) c).

(** [Ctx::set_operation_counter] and [set_origination_counter]. *)
Definition set_operation_counter (v : Z) (c : Ctx) : Ctx := set_counters (origination_count c) v c.
Definition set_origination_counter (v : Z) (c : Ctx) : Ctx := set_counters v (operation_count c) c.

(** Association lists stand for the hash maps the setters are given. *)
Fixpoint assoc {K A} `{EqDecision K} (k : K) (l : list (K * A)) : option A :=
  match l with
  | [] => None
  | (k', a) :: l => if decide (k = k') then Some a else assoc k l
  end.

(** [Ctx::set_known_contracts]. *)
Definition set_known_contracts (v : list (AddressHash * Entrypoints)) (c : Ctx) : Ctx :=
  mkCtx (gas c) (amount c) (balance c) (level c) (sender c) (source c) (min_block_time c) (chain_id c)
    (self_address c) (fun ah => assoc ah v) (voting_powers c) (now c) (total_voting_power c)
    (operation_group_hash c) (big_map_storage c) (origination_count c) (operation_count c).

(** [Ctx::set_voting_powers]. *)
Definition set_voting_powers (v : list (KeyHash * N)) (c : Ctx) : Ctx :=
  mkCtx (gas c) (amount c) (balance c) (level c) (sender c) (source c) (min_block_time c) (chain_id c)
    (self_address c) (lookup_contract c) (fun k => default 0%N (assoc k v)) (now c)
    (foldr N.add 0%N (map snd v)) (operation_group_hash c) (big_map_storage c)
    (origination_count c) (operation_count c).

(** [Ctx::default]; the addresses are the decoded base58 literals. *)
Definition ctx_default (self_kt1 source_tz1 op_hash : bytes) : Ctx := {|
  gas := gas_default;
  balance := 0;
  amount := 0;
  level := 0;
  now := 0;
  min_block_time := 1;
  chain_id := [Byte.xf3; Byte.xd4; Byte.x85; Byte.x54];
  self_address := Kt1 self_kt1;
  sender := Kt1 self_kt1;
  source := Implicit (Tz1 source_tz1);
  lookup_contract := fun _ => None;
  voting_powers := fun _ => 0%N;
  total_voting_power := 0;
  big_map_storage := dyn_in_memory im_new;
  operation_count := 0;
  operation_group_hash := op_hash;
  origination_count := 0
|}.

(** * Facts *)

(** Milligas left; exhaustion counts as none. *)
Definition gas_left (c : Ctx) : N := default 0%N (milligas_amount (gas c)).

(** Everything of the context but the gas and the counters. *)
Definition same_env (c c' : Ctx) : Prop :=
  amount c' = amount c /\ balance c' = balance c /\ big_map_storage c' = big_map_storage c /\
  lookup_contract c' = lookup_contract c /\ self_address c' = self_address c.

#[global] Instance same_env_refl : Reflexive same_env.
Proof. by repeat split. Qed.
#[global] Instance same_env_trans : Transitive same_env.
Proof. intros a b c (?&?&?&?&?) (?&?&?&?&?). repeat split; congruence. Qed.

Lemma same_env_gas g c : same_env c (set_gas g c).
Proof. by repeat split. Qed.
Lemma same_env_counters i j c : same_env c (set_counters i j c).
Proof. by repeat split. Qed.

Lemma consume_gas_spec {E} (oog : E) n c :
  match milligas_amount (gas c) with
  | None => consume_gas oog n c = (Panic PGasExhausted, set_gas (gas c) c)
  | Some m =>
      if (n <=? m)%N then consume_gas oog n c = (Ok tt, set_gas (gas_new (m - n)) c)
      else consume_gas oog n c = (Err oog, set_gas (mkGas None) c)
  end.
Proof.
  unfold consume_gas, consume, milligas. destruct (milligas_amount (gas c)) as [m|]; cbn; [|done].
  by destruct (n <=? m)%N.
Qed.

(** * Specifications of computations over the context

    [triple P c0 D m c Q]: started in a context [c] with the environment of
    [c0], [m] never gains gas and keeps the environment, whatever its outcome;
    when it returns [a] in [c'], [Q a c'] holds; it panics only as [P] allows and
    runs out of fuel only if [D].  Gas is live ([gas_live]) before and after,
    unless [P] allows the panic of [Gas::milligas]. *)

Definition gas_live (P : panic -> Prop) (c : Ctx) : Prop :=
  is_Some (milligas_amount (gas c)) \/ P PGasExhausted.

Definition triple {E A} (P : panic -> Prop) (c0 : Ctx) (D : Prop) (m : M Ctx E A) (c : Ctx)
    (Q : A -> Ctx -> Prop) : Prop :=
  same_env c0 c -> gas_live P c ->
  let '(o, c') := m c in
  same_env c0 c' /\ (gas_left c' <= gas_left c)%N /\
  match o with
  | Ok a => gas_live P c' /\ Q a c'
  | Err _ => True
  | Panic p => P p
  | Diverge => D
  end.

Section triple_rules.
Context {E : Type} (P : panic -> Prop) (c0 : Ctx) (D : Prop).
Implicit Types c : Ctx.

Lemma triple_ret {A} (a : A) c Q : Q a c -> triple (E := E) P c0 D (mret a) c Q.
Proof. intros HQ He Hg. cbn. split; [done|]. split; [lia|done]. Qed.

Lemma triple_bind {A B} (m : M Ctx E A) (k : A -> M Ctx E B) c Q :
  triple P c0 D m c (fun a c' => (gas_left c' <= gas_left c)%N -> triple P c0 D (k a) c' Q) ->
  triple P c0 D (m ≫= k) c Q.
Proof.
  unfold triple, mbind, M_bind. intros H He Hg. specialize (H He Hg).
  destruct (m c) as [[a|e|p|] c1]; try done. destruct H as (He1&Hle&Hg1&H).
  specialize (H Hle He1 Hg1). destruct (k a c1) as [o c2]. destruct H as (?&?&?).
  split; [done|]. split; [lia|done].
Qed.

Lemma triple_mono {A} (m : M Ctx E A) c (Q Q' : A -> Ctx -> Prop) :
  triple P c0 D m c Q -> (forall a c', (gas_left c' <= gas_left c)%N -> Q a c' -> Q' a c') ->
  triple P c0 D m c Q'.
Proof.
  unfold triple. intros H HQ He Hg. specialize (H He Hg).
  destruct (m c) as [[a|e|p|] c1]; try done. destruct H as (?&?&?&?). auto 6.
Qed.

Lemma triple_fail {A} (e : E) c (Q : A -> Ctx -> Prop) : triple P c0 D (fail e) c Q.
Proof. intros He Hg. cbn. split; [done|]. split; [lia|done]. Qed.

Lemma triple_panicked {A} p c (Q : A -> Ctx -> Prop) : P p -> triple (E := E) P c0 D (panicked p) c Q.
Proof. intros Hp He Hg. cbn. split; [done|]. split; [lia|done]. Qed.

Lemma triple_diverge {A} c (Q : A -> Ctx -> Prop) : D -> triple (E := E) P c0 D diverge c Q.
Proof. intros Hp He Hg. cbn. split; [done|]. split; [lia|done]. Qed.

Lemma triple_lift {A} (o : outcome E A) c (Q : A -> Ctx -> Prop) :
  match o with Ok a => Q a c | Err _ => True | Panic p => P p | Diverge => D end ->
  triple P c0 D (lift o) c Q.
Proof. intros Hp He Hg. destruct o; cbn; (split; [done|]); split; (lia || done). Qed.

Lemma triple_get c (Q : Ctx -> Ctx -> Prop) : (same_env c0 c -> Q c c) -> triple (E := E) P c0 D get c Q.
Proof. intros Hp He Hg. cbn. split; [done|]. split; [lia|auto]. Qed.

Lemma triple_counters c (Q : Z -> Ctx -> Prop) :
  (forall n c', gas_left c' = gas_left c -> Q n c') ->
  triple (E := E) P c0 D operation_counter c Q /\ triple (E := E) P c0 D origination_counter c Q.
Proof.
  intros H. split; intros He Hg; cbn;
    (split; [etrans; [exact He|apply same_env_counters]|]); (split; [done|]); split; try done; by apply H.
Qed.

Lemma triple_consume (oog : E) n c (Q : unit -> Ctx -> Prop) :
  (forall c', (gas_left c' + n <= gas_left c)%N -> Q tt c') ->
  triple P c0 D (consume_gas oog n) c Q.
Proof.
  intros H He Hg. pose proof (consume_gas_spec oog n c) as Hs. unfold gas_left in *.
  destruct (milligas_amount (gas c)) as [m|] eqn:Em.
  - destruct (N.leb_spec n m) as [Hle|Hlt]; rewrite Hs; cbn.
    + split; [etrans; [exact He|apply same_env_gas]|]. split; [lia|]. split; [left; cbn; eauto|].
      apply H. cbn. lia.
    + split; [etrans; [exact He|apply same_env_gas]|]. split; [lia|done].
  - rewrite Hs. cbn. rewrite Em. cbn. split; [etrans; [exact He|apply same_env_gas]|]. split; [lia|].
    destruct Hg as [[? Hg]|?]; [|done]. congruence.
Qed.

(** A cost that panics at most as [P] allows. *)
Definition cost_in (c : cost) (Q : N -> Prop) : Prop :=
  match c with Ok n => Q n | Err _ => True | Panic p => P p | Diverge => False end.

Lemma triple_consume_cost (oog : E) k c (Q : unit -> Ctx -> Prop) :
  cost_in k (fun n => forall c', (gas_left c' + n <= gas_left c)%N -> Q tt c') ->
  triple P c0 D (consume_cost oog k) c Q.
Proof.
  intros H. unfold consume_cost. apply triple_bind, triple_lift.
  destruct k; cbn in *; try done. intros _. by apply triple_consume.
Qed.
Lemma triple_safe_cost (oog : E) k c (Q : unit -> Ctx -> Prop) :
  cost_safe k -> (forall n c', k = Ok n -> (gas_left c' + n <= gas_left c)%N -> Q tt c') ->
  triple P c0 D (consume_cost oog k) c Q.
Proof.
  intros Hs HQ. apply triple_consume_cost. destruct k as [n| | |]; cbn in *; try done.
  intros c' Hc'. by eapply HQ.
Qed.

(** An outcome that cannot panic. *)
Lemma triple_safe_lift {A} (o : outcome E A) c (Q : A -> Ctx -> Prop) :
  cost_safe o -> (forall a, o = Ok a -> Q a c) -> triple P c0 D (lift o) c Q.
Proof. intros Hs HQ. apply triple_lift. destruct o; cbn in *; auto; done. Qed.

End triple_rules.

Lemma ok_or_safe {E A} (e : E) (o : option A) : cost_safe (ok_or e o).
Proof. by destruct o. Qed.

(** Weakening the conditions on panics and fuel. *)
Lemma triple_weaken {E A} (P P' : panic -> Prop) c0 (D D' : Prop) (m : M Ctx E A) c Q :
  triple P c0 D m c Q -> (forall p, P p -> P' p) -> (D -> D') ->
  (P' PGasExhausted -> P PGasExhausted) -> triple P' c0 D' m c Q.
Proof.
  unfold triple, gas_live. intros H HP HD HG He Hg. specialize (H He).
  destruct (m c) as [o c1]. destruct H as (?&?&H); [by destruct Hg; auto|]. split; [done|].
  split; [done|]. destruct o; auto. destruct H as [[]?]; auto.
Qed.

Lemma triple_map_err {E F A} P c0 D (f : E -> F) (m : M Ctx E A) c Q :
  triple P c0 D m c Q -> triple P c0 D (M_map_err f m) c Q.
Proof.
  unfold triple, M_map_err. intros H He Hg. specialize (H He Hg).
  destruct (m c) as [[a|e|p|] c1]; done.
Qed.

(** [.ok()]: after a swallowed error the gas may be exhausted. *)
Lemma triple_ok {E F A} (P : panic -> Prop) c0 D (m : M Ctx E A) c (Q : option A -> Ctx -> Prop) :
  P PGasExhausted -> triple P c0 D m c (fun a c' => Q (Some a) c') ->
  (forall c', (gas_left c' <= gas_left c)%N -> Q None c') ->
  triple P c0 D (M_ok (F := F) m) c Q.
Proof.
  unfold triple, M_ok. intros HP H HN He Hg. specialize (H He Hg).
  destruct (m c) as [[a|e|p|] c1]; try done. destruct H as (?&?&_). split; [done|]. split; [done|].
  split; [by right|]. by apply HN.
Qed.

(** [.ok()] whose [None] is turned back into an error. *)
Lemma triple_ok_or_fail {E F A B} P c0 D (m : M Ctx E A) (k : option A -> M Ctx F B) e c Q :
  k None = fail e ->
  triple P c0 D m c (fun a c' => (gas_left c' <= gas_left c)%N -> triple P c0 D (k (Some a)) c' Q) ->
  triple P c0 D (M_ok m ≫= k) c Q.
Proof.
  unfold triple, M_ok, mbind, M_bind. intros Hk H He Hg. specialize (H He Hg).
  destruct (m c) as [[a|er|p|] c1]; try done.
  - destruct H as (He1&Hle&Hg1&H). specialize (H Hle He1 Hg1).
    destruct (k (Some a) c1) as [o c2]. destruct H as (?&?&?). split; [done|]. split; [lia|done].
  - rewrite Hk. cbn. tauto.
Qed.

(** Left to right over a list. *)
Lemma triple_mapM {E A B} P c0 D (f : A -> M Ctx E B) (l : list A) c (R : A -> B -> Prop) Q :
  (forall a c', a ∈ l -> (gas_left c' <= gas_left c)%N ->
     triple P c0 D (f a) c' (fun b _ => R a b)) ->
  (forall bs c', (gas_left c' <= gas_left c)%N -> Forall2 R l bs -> Q bs c') ->
  triple P c0 D (mapM f l) c Q.
Proof.
  revert c Q. induction l as [|a l IH]; intros c Q Hf HQ; cbn.
  { apply triple_ret, HQ; [lia|constructor]. }
  apply triple_bind. eapply triple_mono; [apply Hf; [set_solver|lia]|]. intros b c1 Hc1 Hb _.
  apply triple_bind. eapply IH.
  - intros a' c' Ha' Hc'. apply Hf; [set_solver|lia].
  - intros bs c2 Hc2 HR _. apply triple_ret, HQ; [lia|by constructor].
Qed.

(** Steps of the symbolic execution of a handler. *)
Ltac tstep :=
  lazymatch goal with
  | |- triple _ _ _ (mret _) _ _ => apply triple_ret
  | |- triple _ _ _ (_ ≫= _) _ _ => apply triple_bind
  | |- triple _ _ _ (fail _) _ _ => apply triple_fail
  | |- triple _ _ _ get _ _ => apply triple_get; intros ?
  | |- triple _ _ _ (consume_gas _ _) _ _ => apply triple_consume; intros ? ?
  | |- triple _ _ _ (consume_cost _ _) _ _ => apply triple_consume_cost
  | |- triple _ _ _ (lift _) _ _ => apply triple_lift
  | |- triple _ _ _ (M_map_err _ _) _ _ => apply triple_map_err
  | |- triple _ _ _ operation_counter _ _ => apply triple_counters; intros ? ? ?
  | |- triple _ _ _ origination_counter _ _ => apply triple_counters; intros ? ? ?
  | |- (_ <= _)%N -> triple _ _ _ _ _ _ => intros ?
  end.

(** * Exact runs

    [charges_as oog k o m]: [m] charges the cost [k] and then ends in [o]; without
    that much gas it ends in [oog] and the gas is exhausted. *)

Definition charges_as {E A} (oog : E) (k : cost) (o : outcome E A) (m : M Ctx E A) : Prop :=
  forall c g, milligas_amount (gas c) = Some g ->
  match k with
  | Ok n =>
      if (n <=? g)%N then m c = (o, set_gas (gas_new (g - n)) c)
      else m c = (Err oog, set_gas (mkGas None) c)
  | Err _ => m c = (Err oog, c)
  | Panic p => m c = (Panic p, c)
  | Diverge => m c = (Diverge, c)
  end.

Section exact.
Context {E : Type} (oog : E).

Lemma charges_tick (n : N) : charges_as oog (Ok n) (Ok tt) (consume_gas oog n).
Proof.
  intros c g Hg. pose proof (consume_gas_spec oog n c) as H. rewrite Hg in H. by destruct (n <=? g)%N.
Qed.

Lemma charges_ret {A} (a : A) : charges_as oog (Ok 0%N) (Ok a) (mret a).
Proof.
  intros c g Hg. rewrite (proj2 (N.leb_le 0 g)) by lia. rewrite N.sub_0_r.
  destruct c as [[m]]. cbn in Hg. by subst.
Qed.

(** Two runs in sequence charge the sum. *)
Lemma charges_bind {A B} n n' (a : A) (o : outcome E B) m (k : A -> M Ctx E B) :
  charges_as oog (Ok n) (Ok a) m -> charges_as oog (Ok n') o (k a) -> charges_as oog (Ok (n + n')%N) o (m ≫= k).
Proof.
  intros Hm Hk c g Hg. specialize (Hm c g Hg). cbn beta iota in Hm. unfold mbind, M_bind.
  revert Hm.
  destruct (n <=? g)%N eqn:Hn; intros ->; [apply N.leb_le in Hn|apply N.leb_gt in Hn].
  - specialize (Hk (set_gas (gas_new (g - n)) c) (g - n)%N eq_refl).
    replace (n + n' <=? g)%N with (n' <=? g - n)%N
      by (destruct (N.leb_spec n' (g - n)), (N.leb_spec (n + n') g); lia || done).
    replace (g - (n + n'))%N with (g - n - n')%N by lia. exact Hk.
  - by rewrite (proj2 (N.leb_gt (n + n') g)) by lia.
Qed.

Lemma charges_then_ret {A B} n (a : A) (b : B) m (cont : A -> M Ctx E B) :
  charges_as oog (Ok n) (Ok a) m -> cont a = mret b -> charges_as oog (Ok n) (Ok b) (m ≫= cont).
Proof.
  intros Hm Hc. rewrite <- (N.add_0_r n). eapply charges_bind; [exact Hm|]. rewrite Hc. apply charges_ret.
Qed.

Lemma charges_consume_cost {A} (k : cost) (o : outcome E A) :
  charges_as oog k o (consume_cost oog k ≫= fun _ => lift o).
Proof.
  intros c g Hg. unfold consume_cost. destruct k as [n| | |]; try done.
  pose proof (consume_gas_spec oog n c) as H. rewrite Hg in H.
  unfold mbind, M_bind, lift, map_err. by destruct (n <=? g)%N; rewrite H.
Qed.

(** A computation that charges and then computes without touching the context. *)
Lemma charges_intro {A} (k : cost) (o : outcome E A) m :
  (forall c, m c = (consume_cost oog k ≫= fun _ => lift o) c) -> charges_as oog k o m.
Proof. intros Hm c g Hg. rewrite Hm. by apply charges_consume_cost. Qed.
End exact.
