(* ===== verification/TypeProps.v ===== *)
(** Type properties and the typechecker's errors.

    Models [contrib/mir/src/typechecker/type_props.rs] and the error types of
    [typechecker.rs].  [ensure_prop_spec]: when gas suffices, [ensure_prop] accepts
    exactly the types with the property, defined independently by [has_prop]. *)

From S2P Require Import Prelude Syntax Comparable Gas BigMap External ByteRepr Stack Context.

Inductive TypeProperty : Set :=
  | Comparable | Passable | Storable | Pushable | Packable | BigMapValue | Duplicable.

(** * Errors (typechecker.rs); formatted strings are replaced by the value they show *)

Inductive TypesNotEqual_ : Set := TypesNotEqual (t1 t2 : Type_).

Inductive StacksNotEqualReason : Set :=
  | SNE_TypesNotEqual (e : TypesNotEqual_)
  | SNE_LengthsDiffer (n m : nat).

Inductive NoMatchingOverloadReason : Set :=
  | NMOR_StackTooShort (expected : nat)
  | NMOR_TypesNotEqual (e : TypesNotEqual_)
  | NMOR_ExpectedPair (t : Type_)
  | NMOR_ExpectedOption (t : Type_)
  | NMOR_ExpectedList (t : Type_)
  | NMOR_ExpectedOr (t : Type_).

Inductive TcError : Type :=
  | TE_StacksNotEqual (s1 s2 : TypeStack) (r : StacksNotEqualReason)
  | TE_OutOfGas
  | TE_InvalidTypeProperty (p : TypeProperty) (t : Type_)
  | TE_FailNotInTail
  | TE_NumericConversion
  | TE_TypesNotEqual (e : TypesNotEqual_)
  | TE_Dup0
  | TE_PairN01 (p : Prim) (n : nat)
  | TE_InvalidValueForType (v : Micheline) (t : Type_)
  | TE_InvalidEltForMap (v : Micheline) (t : Type_)
  | TE_ElementsNotSorted (t : Type_)
  | TE_DuplicateElements (t : Type_)
  | TE_NoMatchingOverload (instr : Prim) (stack : TypeStack) (reason : option NoMatchingOverloadReason)
  | TE_ByteReprError (t : Type_) (e : ByteReprError)
  | TE_EntrypointError (e : ByteReprError)
  | TE_ChainIdError (from_bytes : bool)
  | TE_SelfForbidden
  | TE_NoSuchEntrypoint (e : Entrypoint)
  | TE_NoSuchContract
  | TE_UnexpectedImplicitAccountType (t : Type_)
  | TE_EntrypointAmbiguity
  | TE_UnexpectedMicheline (m : Micheline)
  | TE_DuplicateTopLevelElt (p : Prim)
  | TE_MissingTopLevelElt (p : Prim)
  | TE_ExpectedU10 (z : Z)
  | TE_AnnotationError (s : bytes)
  | TE_DuplicateEntrypoint (e : Entrypoint)
  | TE_ExplicitDefaultEntrypointError (p : Prim)
  | TE_TodoInstr (p : Prim)
  | TE_TodoType (p : Prim)
  | TE_BigMapNotFound (z : Z)
  | TE_LazyStorageError (e : LazyStorageError)
  | TE_MapBlockEmptyStack
  | TE_MapBlockFail.

Abbreviation tcM A := (M Ctx TcError A).

Definition tc_consume (n : N) : tcM unit := consume_gas TE_OutOfGas n.
Definition tc_consume_cost (c : cost) : tcM unit := consume_cost TE_OutOfGas c.

(** * [Type::ensure_prop] *)

Fixpoint ensure_prop (prop : TypeProperty) (t : Type_) : tcM unit :=
  _ ← tc_consume tc_TYPE_PROP_STEP;
  let invalid_type_prop := fail (TE_InvalidTypeProperty prop t) in
  match t with
  | T_Nat | T_Int | T_Bool | T_Mutez | T_String | T_Unit | T_Never | T_Address | T_ChainId | T_Bytes
  | T_Key | T_Signature | T_KeyHash | T_Timestamp => mret tt
  | T_Ticket _ =>
      match prop with
      | Comparable | Pushable | Duplicable | Packable => invalid_type_prop
      | Passable | Storable | BigMapValue => mret tt
      end
  | T_Bls12381Fr | T_Bls12381G1 | T_Bls12381G2 =>
      match prop with
      | Comparable => invalid_type_prop
      | Passable | Storable | Pushable | Packable | BigMapValue | Duplicable => mret tt
      end
  | T_Operation =>
      match prop with
      | Comparable | Passable | Storable | Pushable | Packable | BigMapValue => invalid_type_prop
      | Duplicable => mret tt
      end
  | T_Pair a b | T_Or a b => _ ← ensure_prop prop a; ensure_prop prop b
  | T_Option x => ensure_prop prop x
  | T_List x =>
      match prop with
      | Comparable => invalid_type_prop
      | Passable | Storable | Pushable | Packable | BigMapValue | Duplicable => ensure_prop prop x
      end
  | T_Set x =>
      match prop with
      | Comparable => invalid_type_prop
      | Passable | Storable | Pushable | Packable | BigMapValue | Duplicable => ensure_prop prop x
      end
  | T_Map _ v =>
      match prop with
      | Comparable => invalid_type_prop
      | Passable | Storable | Pushable | Packable | BigMapValue | Duplicable => ensure_prop prop v
      end
  | T_BigMap _ v =>
      match prop with
      | Comparable | BigMapValue | Packable | Pushable => invalid_type_prop
      | Passable | Storable | Duplicable => ensure_prop prop v
      end
  | T_Contract _ =>
      match prop with
      | Passable | Packable | Duplicable => mret tt
      | Comparable | Storable | Pushable | BigMapValue => invalid_type_prop
      end
  | T_Lambda _ _ =>
      match prop with
      | Comparable => invalid_type_prop
      | Passable | Storable | Pushable | Packable | BigMapValue | Duplicable => mret tt
      end
  end.

(** * The properties, as the type reference defines them *)

(** The leaves of a type: the positions a property looks at.  Keys of maps, the
    parameters of contracts, the argument and result of lambdas and ticket contents
    are not among them. *)
Fixpoint nodes (t : Type_) : list Type_ :=
  t :: match t with
       | T_Pair a b | T_Or a b => nodes a ++ nodes b
       | T_Option x | T_List x | T_Set x => nodes x
       | T_Map _ v | T_BigMap _ v => nodes v
       | _ => []
       end.

(** The type constructors a property forbids. *)
Definition forbidden (prop : TypeProperty) (t : Type_) : bool :=
  match prop, t with
  | Comparable, (T_Ticket _ | T_Bls12381Fr | T_Bls12381G1 | T_Bls12381G2 | T_Operation | T_List _
      | T_Set _ | T_Map _ _ | T_BigMap _ _ | T_Contract _ | T_Lambda _ _) => true
  | Passable, T_Operation => true
  | Storable, (T_Operation | T_Contract _) => true
  | Pushable, (T_Ticket _ | T_Operation | T_BigMap _ _ | T_Contract _) => true
  | Packable, (T_Ticket _ | T_Operation | T_BigMap _ _) => true
  | BigMapValue, (T_Operation | T_BigMap _ _ | T_Contract _) => true
  | Duplicable, T_Ticket _ => true
  | _, _ => false
  end.

Definition has_prop (prop : TypeProperty) (t : Type_) : bool := forallb (fun n => negb (forbidden prop n)) (nodes t).

Lemma has_prop_node prop t :
  has_prop prop t =
  negb (forbidden prop t) &&
  match t with
  | T_Pair a b | T_Or a b => has_prop prop a && has_prop prop b
  | T_Option x | T_List x | T_Set x => has_prop prop x
  | T_Map _ v | T_BigMap _ v => has_prop prop v
  | _ => true
  end.
Proof. unfold has_prop. destruct t; cbn; rewrite ?forallb_app; reflexivity. Qed.

Lemma has_prop_comparable t : has_prop Comparable t = comparable t.
Proof.
  induction t; rewrite has_prop_node; cbn; try reflexivity; rewrite ?IHt, ?IHt1, ?IHt2; reflexivity.
Qed.

(** [ensure_prop] only passes types with the property, and only refuses for lack
    of gas or of the property. *)
Definition prop_outcome (prop : TypeProperty) (t : Type_) (o : outcome TcError unit) : Prop :=
  match o with
  | Ok _ => has_prop prop t = true
  | Err TE_OutOfGas => True
  | Err (TE_InvalidTypeProperty p n) => p = prop /\ n ∈ nodes t /\ has_prop prop t = false
  | Err _ => False
  | Panic p => p = PGasExhausted
  | Diverge => False
  end.

Lemma prop_outcome_sub prop t x o :
  prop_outcome prop x o -> has_prop prop t = has_prop prop x -> (forall n, n ∈ nodes x -> n ∈ nodes t) ->
  prop_outcome prop t o.
Proof. intros Ho Hp Hn. destruct o as [|[]| |]; cbn in *; try done; rewrite Hp; naive_solver. Qed.

Lemma prop_outcome_pair prop t a b (m1 : tcM unit) (m2 : tcM unit) c :
  (forall c, prop_outcome prop a (m1 c).1) -> (forall c, prop_outcome prop b (m2 c).1) ->
  has_prop prop t = has_prop prop a && has_prop prop b ->
  (forall n, n ∈ nodes a \/ n ∈ nodes b -> n ∈ nodes t) ->
  prop_outcome prop t ((_ ← m1; m2) c).1.
Proof.
  intros H1 H2 Hp Hn. unfold mbind, M_bind. specialize (H1 c).
  destruct (m1 c) as [[[]|e|p|] c1]; cbn [fst] in *.
  - specialize (H2 c1). cbn in H1. eapply prop_outcome_sub; [exact H2| |auto]. by rewrite Hp, H1.
  - destruct e; cbn in *; try done. destruct H1 as (?&?&H1). rewrite Hp, H1. auto.
  - done.
  - done.
Qed.

Lemma ensure_prop_outcome prop t c : prop_outcome prop t (ensure_prop prop t c).1.
Proof.
  revert c. induction t; intros c; cbn [ensure_prop]; unfold mbind at 1, M_bind at 1;
    (pose proof (consume_gas_spec TE_OutOfGas tc_TYPE_PROP_STEP c) as Hs; unfold tc_consume;
     destruct (milligas_amount (gas c)) as [m|];
     [destruct (tc_TYPE_PROP_STEP <=? m)%N|]; rewrite Hs; try done).
  all: try (destruct prop; cbn; rewrite ?has_prop_node; cbn; (done || set_solver)).
  all: first
    [ apply (prop_outcome_pair prop _ t1 t2); [done|done|by destruct prop; rewrite has_prop_node|];
      intros n Hn; cbn; set_solver
    | eapply (prop_outcome_sub prop _ t); [apply IHt|by destruct prop; rewrite has_prop_node|];
      intros n Hn; cbn; set_solver
    | destruct prop; cbn; rewrite ?has_prop_node; cbn; try (split_and!; [done|set_solver|done]);
      (eapply (prop_outcome_sub _ _ t); [apply IHt|by rewrite has_prop_node|])
        || (eapply (prop_outcome_sub _ _ t2); [apply IHt2|by rewrite has_prop_node|]);
      intros n Hn; cbn; set_solver ].
Qed.

(** [ensure_prop] decides the type properties: on success the type contains no constructor
    the property forbids; it fails with [InvalidTypeProperty] only on a type that does contain
    one, naming a component of the type; the only other failure is running out of gas. *)
Theorem ensure_prop_spec (prop : TypeProperty) (t : Type_) (c : Ctx) :
  prop_outcome prop t (ensure_prop prop t c).1.
Proof. apply ensure_prop_outcome. Qed.

(** * Triples *)

Lemma triple_ensure_prop P c0 D prop t c (Q : unit -> Ctx -> Prop) :
  (forall c', (gas_left c' <= gas_left c)%N -> has_prop prop t = true -> Q tt c') ->
  triple P c0 D (ensure_prop prop t) c Q.
Proof.
  intros HQ.
  enough (H : triple P c0 D (ensure_prop prop t) c (fun _ _ => True)).
  { intros He Hg. specialize (H He Hg). pose proof (ensure_prop_outcome prop t c) as Ho.
    destruct (ensure_prop prop t c) as [[[]|e|p|] c1]; try done. destruct H as (?&?&?&_).
    split; [done|]. split; [done|]. split; [done|]. by apply HQ. }
  clear HQ Q. revert c. induction t; intros c; cbn [ensure_prop];
    (apply triple_bind, triple_consume; intros c1 Hc1 _);
    repeat match goal with
    | |- triple _ _ _ (match prop with _ => _ end) _ _ => destruct prop
    | |- triple _ _ _ (mret _) _ _ => by apply triple_ret
    | |- triple _ _ _ (fail _) _ _ => apply triple_fail
    | |- triple _ _ _ (_ ≫= _) _ _ => apply triple_bind
    | |- triple _ _ _ (ensure_prop _ ?t) _ (fun _ _ => True) => solve [auto]
    | |- triple _ _ _ (ensure_prop _ ?t) _ _ => eapply triple_mono; [solve [auto]|intros ? ? ? _ ?]
    end.
Qed.
