(* ===== verification/Typechecker.v ===== *)
(** The typechecker.

    Models [contrib/mir/src/typechecker.rs]: parsing of types and entrypoints,
    values, instructions, scripts.  The type stack is a list from the top; the
    instruction handlers are grouped as the arms of the source's match are, each
    takes the stack the instruction starts from and returns the typed
    instruction with the resulting stack.

    [typecheck_value], [typecheck_instruction] and [typecheck_script] call each
    other: handlers take the recursive calls as parameters, [typechecker] ties the
    knot with fuel.  Every call charges gas first, so fuel above the available
    milligas is enough ([TypecheckerSound]). *)

From S2P Require Import Prelude Syntax Comparable Gas BigMap Stack External ByteRepr Context TypeProps.

(** * Helpers *)

Definition ensure_ty_eq (ty1 ty2 : Type_) : tcM unit :=
  _ ← tc_consume_cost (tc_ty_eq (size_for_gas ty1) (size_for_gas ty2));
  if decide (ty1 = ty2) then mret tt else fail (TE_TypesNotEqual (TypesNotEqual ty1 ty2)).

(** The loop of [ensure_stacks_eq], on stacks of the same length. *)
Definition stacks_ne (stack1 stack2 : TypeStack) (e : TcError) : TcError :=
  match e with
  | TE_TypesNotEqual e => TE_StacksNotEqual stack1 stack2 (SNE_TypesNotEqual e)
  | e => e
  end.
Fixpoint ensure_tys_eq (l1 l2 : TypeStack) (on_err : TcError -> TcError) : tcM unit :=
  match l1, l2 with
  | t1 :: l1, t2 :: l2 => _ ← M_map_err on_err (ensure_ty_eq t1 t2); ensure_tys_eq l1 l2 on_err
  | _, _ => mret tt
  end.
Definition ensure_stacks_eq (stack1 stack2 : TypeStack) : tcM unit :=
  if negb (length stack1 =? length stack2) then
    fail (TE_StacksNotEqual stack1 stack2 (SNE_LengthsDiffer (length stack1) (length stack2)))
  else ensure_tys_eq stack1 stack2 (stacks_ne stack1 stack2).

(** [unify_stacks]: returns the new [dest]. *)
Definition unify_stacks (dest aux : FailingTypeStack) : tcM FailingTypeStack :=
  match dest, aux with
  | FOk stack1, FOk stack2 => _ ← ensure_stacks_eq stack1 stack2; mret dest
  | FOk _, Failed => mret dest
  | Failed, aux => mret aux
  end.

Definition stack_too_short (instr : Prim) (stack : TypeStack) (l : nat) : TcError :=
  TE_NoMatchingOverload instr stack (Some (NMOR_StackTooShort l)).

Definition ensure_stack_len (instr : Prim) (stack : TypeStack) (l : nat) : tcM unit :=
  if l <=? length stack then mret tt else fail (stack_too_short instr stack l).

Definition validate_u10 (n : Z) : tcM nat :=
  if ((0 <=? n) && (n <? 65536))%Z then
    if (1024 <=? n)%Z then fail (TE_ExpectedU10 n) else mret (Z.to_nat n)
  else fail (TE_ExpectedU10 n).

(** [get_nth_field_ref]: the component reached, or the type that is not a pair. *)
Fixpoint get_nth_field_ty (m : nat) (ty : Type_) {struct ty} : Type_ + Type_ :=
  match m, ty with
  | 0, ty => inl ty
  | 1, T_Pair a _ => inl a
  | S (S m), T_Pair _ b => get_nth_field_ty m b
  | _, ty => inr ty
  end.
(** Assignment through the reference. *)
Fixpoint set_nth_field_ty (m : nat) (ty new : Type_) {struct ty} : Type_ :=
  match m, ty with
  | 0, _ => new
  | 1, T_Pair _ b => T_Pair new b
  | S (S m), T_Pair a b => T_Pair a (set_nth_field_ty m b new)
  | _, ty => ty
  end.

(** * Types *)

Section make_pair.
Context (parse : Micheline -> tcM Type_).
(** [make_pair], on at least two types. *)
Fixpoint make_pair (l : list Micheline) : tcM Type_ :=
  match l with
  | [] => fail (TE_UnexpectedMicheline (M_Seq []))
  | [t] => parse t
  | t :: l => a ← parse t; b ← make_pair l; mret (T_Pair a b)
  end.
End make_pair.

(** Records the entrypoint a field annotation names. *)
Definition add_entrypoint (parsed_ty : Type_) (anns : Annotations) (eps : Entrypoints) : tcM Entrypoints :=
  ann ← lift (map_err TE_AnnotationError (get_single_field_ann anns));
  match ann with
  | None => mret eps
  | Some field_ann =>
      match EntrypointRepr.try_from_field_ann field_ann with
      | Ok ep =>
          match eps !! ep with
          | Some _ => fail (TE_DuplicateEntrypoint ep)
          | None => mret (<[ep := parsed_ty]> eps)
          end
      | _ => mret eps
      end
  end.

(** The primitives of [micheline_unsupported_types!]. *)
Definition unsupported_type (p : Prim) : bool :=
  match p with
  | P_chest | P_chest_key | P_tx_rollup_l2_address | P_sapling_state | P_sapling_transaction
  | P_sapling_transaction_deprecated => true
  | _ => false
  end.

(** The types without arguments. *)
Definition simple_type (p : Prim) : option Type_ :=
  match p with
  | P_int => Some T_Int
  | P_nat => Some T_Nat
  | P_bool => Some T_Bool
  | P_mutez => Some T_Mutez
  | P_string => Some T_String
  | P_operation => Some T_Operation
  | P_never => Some T_Never
  | P_unit => Some T_Unit
  | P_address => Some T_Address
  | P_chain_id => Some T_ChainId
  | P_timestamp => Some T_Timestamp
  | P_bytes => Some T_Bytes
  | P_key => Some T_Key
  | P_key_hash => Some T_KeyHash
  | P_signature => Some T_Signature
  | P_bls12_381_fr => Some T_Bls12381Fr
  | P_bls12_381_g1 => Some T_Bls12381G1
  | P_bls12_381_g2 => Some T_Bls12381G2
  | _ => None
  end.

(** [parse_ty_with_entrypoints]: returns the type and the updated entrypoints. *)
Fixpoint parse_ty_with_entrypoints (ty : Micheline) (entrypoints : option Entrypoints) {struct ty}
  : tcM (Type_ * option Entrypoints) :=
  _ ← tc_consume tc_PARSE_TYPE_STEP;
  let unexpected := fail (TE_UnexpectedMicheline ty) in
  match ty with
  | M_App p args anns =>
      '(parsed_ty, entrypoints) ←
        match p, args with
        | P_ticket, [t] =>
            '(t, _) ← parse_ty_with_entrypoints t None;
            _ ← ensure_prop Comparable t;
            mret (T_Ticket t, entrypoints)
        | P_pair, _ :: _ :: _ =>
            t ← make_pair (fun t => '(t, _) ← parse_ty_with_entrypoints t None; mret t) args;
            mret (t, entrypoints)
        | P_or, [l; r] =>
            '(l, entrypoints) ← parse_ty_with_entrypoints l entrypoints;
            '(r, entrypoints) ← parse_ty_with_entrypoints r entrypoints;
            mret (T_Or l r, entrypoints)
        | P_option, [t] => '(t, _) ← parse_ty_with_entrypoints t None; mret (T_Option t, entrypoints)
        | P_list, [t] => '(t, _) ← parse_ty_with_entrypoints t None; mret (T_List t, entrypoints)
        | P_lambda, [ty1; ty2] =>
            '(t1, _) ← parse_ty_with_entrypoints ty1 None;
            '(t2, _) ← parse_ty_with_entrypoints ty2 None;
            mret (T_Lambda t1 t2, entrypoints)
        | P_contract, [t] =>
            '(t, _) ← parse_ty_with_entrypoints t None;
            _ ← ensure_prop Passable t;
            mret (T_Contract t, entrypoints)
        | P_set, [k] =>
            '(k, _) ← parse_ty_with_entrypoints k None;
            _ ← ensure_prop Comparable k;
            mret (T_Set k, entrypoints)
        | P_map, [k; v] =>
            '(k, _) ← parse_ty_with_entrypoints k None;
            _ ← ensure_prop Comparable k;
            '(v, _) ← parse_ty_with_entrypoints v None;
            mret (T_Map k v, entrypoints)
        | P_big_map, [k; v] =>
            '(k, _) ← parse_ty_with_entrypoints k None;
            _ ← ensure_prop Comparable k;
            '(v, _) ← parse_ty_with_entrypoints v None;
            _ ← ensure_prop BigMapValue v;
            mret (T_BigMap k v, entrypoints)
        | p, [] =>
            match simple_type p with
            | Some t => mret (t, entrypoints)
            | None => if unsupported_type p then fail (TE_TodoType p) else unexpected
            end
        | p, _ => if unsupported_type p then fail (TE_TodoType p) else unexpected
        end;
      match entrypoints with
      | Some eps => eps ← add_entrypoint parsed_ty anns eps; mret (parsed_ty, Some eps)
      | None => mret (parsed_ty, None)
      end
  | M_Seq _ | M_Int _ | M_String _ | M_Bytes _ => unexpected
  end.

Definition parse_ty (ty : Micheline) : tcM Type_ :=
  '(t, _) ← parse_ty_with_entrypoints ty None; mret t.

Definition parse_parameter_ty_with_entrypoints (parameter_ty : Micheline) : tcM (Entrypoints * Type_) :=
  '(parameter, eps) ← parse_ty_with_entrypoints parameter_ty (Some ∅);
  let eps := default ∅ eps in
  mret (match eps !! default_ep with Some _ => eps | None => <[default_ep := parameter]> eps end, parameter).

(** * Values *)

(** [typecheck_contract_address], also called by the [CONTRACT] instruction. *)
Definition typecheck_contract_address (address : Address) (ep : Entrypoint) (typ : Type_) : tcM Address :=
  entrypoint ← match is_default (addr_entrypoint address), is_default ep with
               | true, true => mret default_ep
               | false, true => mret (addr_entrypoint address)
               | true, false => mret ep
               | false, false => fail TE_EntrypointAmbiguity
               end;
  match addr_hash address with
  | Implicit _ =>
      if negb (is_default entrypoint) then fail (TE_NoSuchEntrypoint entrypoint)
      else match typ with
           | T_Unit | T_Ticket _ => mret (mkAddress (addr_hash address) entrypoint)
           | _ => fail (TE_UnexpectedImplicitAccountType typ)
           end
  | Kt1 _ | Sr1 _ =>
      c ← get;
      contract_entrypoints ← lift (ok_or TE_NoSuchContract (lookup_contract c (addr_hash address)));
      contract_entrypoint_type ←
        lift (ok_or (TE_NoSuchEntrypoint entrypoint) (contract_entrypoints !! entrypoint));
      _ ← ensure_ty_eq typ contract_entrypoint_type;
      mret (mkAddress (addr_hash address) entrypoint)
  end.

(** [OrderValidatingIterator], collected into a tree: an element is checked against
    its successor, which is typechecked by then ([peek]). *)
Section ordered.
Context {A : Type} (tc : Micheline -> tcM A) (key : A -> TypedValue) (container_ty : Type_).

Fixpoint validate_order (cur : A) (rest : list Micheline) : tcM (list A) :=
  match rest with
  | [] => mret [cur]
  | v :: rest =>
      next ← tc v;
      _ ← tc_consume_cost (ic_compare (key cur) (key next));
      o ← lift (value_cmp (key cur) (key next));
      match o with
      | Lt => l ← validate_order next rest; mret (cur :: l)
      | Eq => fail (TE_DuplicateElements container_ty)
      | Gt => fail (TE_ElementsNotSorted container_ty)
      end
  end.

Definition collect_ordered (vs : list Micheline) : tcM (list A) :=
  match vs with
  | [] => mret []
  | v :: vs =>
      cur ← tc v;
      l ← validate_order cur vs;
      lift (bt_from_list key [] l)
  end.
End ordered.

(** [typecheck]: a sequence of instructions, the stack threaded through. *)
Section typecheck_seq.
Context (rec_instr : Micheline -> option Entrypoints -> FailingTypeStack ->
                     tcM (Instruction * FailingTypeStack)).

Fixpoint typecheck (ast : list Micheline) (eps : option Entrypoints) (opt_stack : FailingTypeStack)
  : tcM (list Instruction * FailingTypeStack) :=
  match ast with
  | [] => mret ([], opt_stack)
  | i :: ast =>
      '(i, opt_stack) ← rec_instr i eps opt_stack;
      '(l, opt_stack) ← typecheck ast eps opt_stack;
      mret (i :: l, opt_stack)
  end.

Definition typecheck_lambda (instrs : list Micheline) (in_ty out_ty : Type_) (recursive : bool)
  : tcM Lambda :=
  let stk := if recursive then [in_ty; T_Lambda in_ty out_ty] else [in_ty] in
  '(code, stk) ← typecheck instrs None (FOk stk);
  _ ← unify_stacks stk (FOk [out_ty]);
  let micheline_code := M_Seq instrs in
  mret (if recursive then Lambda_LambdaRec in_ty out_ty micheline_code code
        else Lambda_Lambda micheline_code code).

(** [typecheck_map_block]: the code and the type it leaves on top. *)
Definition typecheck_map_block (nested : list Micheline) (ty1 : Type_) (eps : option Entrypoints)
    (stack : TypeStack) : tcM (list Instruction * Type_) :=
  '(nested, opt_nested_stack) ← typecheck nested eps (FOk (ty1 :: stack));
  nested_stack ← lift (access_mut opt_nested_stack TE_MapBlockFail);
  match nested_stack with
  | [] => fail TE_MapBlockEmptyStack
  | ty2 :: nested_stack => _ ← ensure_stacks_eq stack nested_stack; mret (nested, ty2)
  end.
End typecheck_seq.

Section typecheck_value.
Context {X : External}.
Context (rec_value : Micheline -> Type_ -> tcM TypedValue).
Context (rec_instr : Micheline -> option Entrypoints -> FailingTypeStack ->
                     tcM (Instruction * FailingTypeStack)).

Definition invalid_value_for_type {A} (v : Micheline) (t : Type_) : tcM A :=
  fail (TE_InvalidValueForType v t).

Definition typecheck_set (set_ty elem_ty : Type_) (vs : list Micheline) : tcM (list TypedValue) :=
  _ ← tc_consume_cost (tc_construct_set (size_for_gas elem_ty) (len vs));
  collect_ordered (fun v => rec_value v elem_ty) (fun x => x) set_ty vs.

(** [tc_elt]: one [Elt k v]. *)
Definition tc_elt {V} (map_ty key_type value_type : Type_) (value_mapper : TypedValue -> V)
    (v : Micheline) : tcM (TypedValue * V) :=
  match v with
  | M_App P_Elt [k; v] _ =>
      k ← rec_value k key_type;
      v ← rec_value v value_type;
      mret (k, value_mapper v)
  | _ => fail (TE_InvalidEltForMap v map_ty)
  end.

Definition typecheck_map {V} (map_ty key_type value_type : Type_) (vs : list Micheline)
    (value_mapper : TypedValue -> V) : tcM (list (TypedValue * V)) :=
  _ ← tc_consume_cost (tc_construct_map (size_for_gas key_type) (len vs));
  collect_ordered (tc_elt map_ty key_type value_type value_mapper) fst map_ty vs.

(** The literals whose value does not depend on other values. *)
Definition tv_literal (v : Micheline) (t : Type_) : tcM TypedValue :=
  match t, v with
  | T_Nat, M_Int n =>
      if (0 <=? n)%Z then mret (V_Nat (Z.to_N n)) else fail TE_NumericConversion
  | T_Int, M_Int n => mret (V_Int n)
  | T_Bool, M_App P_True [] _ => mret (V_Bool true)
  | T_Bool, M_App P_False [] _ => mret (V_Bool false)
  | T_Mutez, M_Int n =>
      if (n <? 0)%Z then invalid_value_for_type v t
      else if (n <? 2 ^ 63)%Z then mret (V_Mutez n) else fail TE_NumericConversion
  | T_String, M_String s => mret (V_String s)
  | T_Unit, M_App P_Unit [] _ => mret V_Unit
  | T_Bytes, M_Bytes bs => mret (V_Bytes bs)
  | T_Timestamp, M_Int n => mret (V_Timestamp n)
  | T_Timestamp, M_String n =>
      _ ← tc_consume_cost (tc_timestamp_decoding (len n));
      match x_parse_rfc3339 n with
      | Some z => mret (V_Timestamp z)
      | None => invalid_value_for_type v T_Timestamp
      end
  | _, _ => invalid_value_for_type v t
  end.

(** Reading a readable or binary representation, with its cost. *)
Definition tv_repr {A} (cost : N) (t : Type_) (r : R A) (con : A -> TypedValue) : tcM TypedValue :=
  _ ← tc_consume cost;
  a ← lift (map_err (TE_ByteReprError t) r);
  mret (con a).

Definition tv_byte_repr (v : Micheline) (t : Type_) : tcM TypedValue :=
  match t, v with
  | T_Address, M_String s => tv_repr tc_KEY_HASH_READABLE T_Address (Address_from_base58_check s) V_Address
  | T_Address, M_Bytes bs => tv_repr tc_KEY_HASH_OPTIMIZED T_Address (Address_from_bytes bs) V_Address
  | T_ChainId, M_String s =>
      _ ← tc_consume tc_CHAIN_ID_READABLE;
      c ← lift (ok_or (TE_ChainIdError false) (x_from_b58check Hk_ChainId s));
      mret (V_ChainId c)
  | T_ChainId, M_Bytes bs =>
      _ ← tc_consume tc_CHAIN_ID_OPTIMIZED;
      c ← lift (ok_or (TE_ChainIdError true) (x_try_from_bytes Hk_ChainId bs));
      mret (V_ChainId c)
  | T_Key, M_String s => tv_repr tc_KEY_READABLE T_Key (Key_from_base58_check s) V_Key
  | T_Key, M_Bytes bs => tv_repr tc_KEY_OPTIMIZED T_Key (Key_from_bytes bs) V_Key
  | T_Signature, M_String s => tv_repr tc_KEY_READABLE T_Signature (Signature_from_base58_check s) V_Signature
  | T_Signature, M_Bytes bs => tv_repr tc_KEY_OPTIMIZED T_Signature (Signature_from_bytes bs) V_Signature
  | T_KeyHash, M_String s => tv_repr tc_KEY_HASH_READABLE T_KeyHash (KeyHash_from_base58_check s) V_KeyHash
  | T_KeyHash, M_Bytes bs => tv_repr tc_KEY_HASH_OPTIMIZED T_KeyHash (KeyHash_from_bytes bs) V_KeyHash
  | _, _ => invalid_value_for_type v t
  end.

Definition tv_bls (v : Micheline) (t : Type_) : tcM TypedValue :=
  match t, v with
  | T_Bls12381Fr, M_Int i => _ ← tc_consume tc_BLS_FR; x ← lift (Fr_from_big_int i); mret (V_Bls12381Fr x)
  | T_Bls12381Fr, M_Bytes bs =>
      _ ← tc_consume tc_BLS_FR;
      x ← lift (ok_or (TE_InvalidValueForType v t) (Fr_from_bytes bs)); mret (V_Bls12381Fr x)
  | T_Bls12381G1, M_Bytes bs =>
      _ ← tc_consume tc_BLS_G1;
      x ← lift (ok_or (TE_InvalidValueForType v t) (G1_from_bytes bs)); mret (V_Bls12381G1 x)
  | T_Bls12381G2, M_Bytes bs =>
      _ ← tc_consume tc_BLS_G2;
      x ← lift (ok_or (TE_InvalidValueForType v t) (G2_from_bytes bs)); mret (V_Bls12381G2 x)
  | _, _ => invalid_value_for_type v t
  end.

(** Pairs: more than two components are a right comb. *)
Definition tv_pair (tl tr : Type_) (vl : Micheline) (rest : list Micheline) : tcM TypedValue :=
  l ← rec_value vl tl;
  r ← match rest with
      | [vr] => rec_value vr tr
      | vrs => rec_value (M_App P_Pair vrs NO_ANNS) tr
      end;
  mret (V_Pair l r).

(** A big map literal: an id of the storage, a diff, or both. *)
Definition tv_big_map (v : Micheline) (t tk tv : Type_) : tcM TypedValue :=
  '(id_opt, vs_opt) ← match v with
                      | M_Int i => mret (Some i, None)
                      | M_Seq vs => mret (None, Some vs)
                      | M_App P_Pair [M_Int i; M_Seq vs] _ => mret (Some i, Some vs)
                      | _ => invalid_value_for_type v t
                      end;
  big_map_id ← match id_opt with
               | Some id =>
                   c ← get;
                   tys ← lift (map_err TE_LazyStorageError (dyn_get_type (big_map_storage c) id));
                   '(key_type, value_type) ← lift (ok_or (TE_BigMapNotFound id) tys);
                   _ ← ensure_ty_eq key_type tk;
                   _ ← ensure_ty_eq value_type tv;
                   mret (Some id)
               | None => mret None
               end;
  overlay ← match vs_opt with
            | Some vs => typecheck_map t tk tv vs Some
            | None => mret []
            end;
  mret (V_BigMap (mkBigMap big_map_id overlay tk tv)).

(** A ticket literal is read as [Pair ticketer (Pair content amount)]; any failure
    is reported as an invalid value. *)
Definition tv_ticket (v : Micheline) (t c : Type_) : tcM TypedValue :=
  r ← M_ok (rec_value v (T_Pair T_Address (T_Pair c T_Nat)));
  match r with
  | Some (V_Pair (V_Address address) (V_Pair content (V_Nat amount))) =>
      mret (V_Ticket (mkTicket (addr_hash address) content amount))
  | Some (V_Pair _ _) => panicked PUnreachable
  | _ => invalid_value_for_type v t
  end.

(** [typecheck_value]. *)
Definition typecheck_value_step (v : Micheline) (t : Type_) : tcM TypedValue :=
  _ ← tc_consume tc_VALUE_STEP;
  match t, v with
  | T_Pair tl tr, (M_App P_Pair (vl :: (_ :: _) as rest) _ | M_Seq (vl :: (_ :: _) as rest)) =>
      tv_pair tl tr vl rest
  | T_Or tl _, M_App P_Left [val] _ => x ← rec_value val tl; mret (V_Or (Or_Left x))
  | T_Or _ tr, M_App P_Right [val] _ => x ← rec_value val tr; mret (V_Or (Or_Right x))
  | T_Option ty, M_App P_Some [v] _ => x ← rec_value v ty; mret (V_Option (Some x))
  | T_Option _, M_App P_None [] _ => mret (V_Option None)
  | T_List ty, M_Seq vs => l ← mapM (fun v => rec_value v ty) vs; mret (V_List l)
  | T_Set ty, M_Seq vs => l ← typecheck_set t ty vs; mret (V_Set l)
  | T_Map tk tv, M_Seq vs => m ← typecheck_map t tk tv vs (fun v => v); mret (V_Map m)
  | T_BigMap tk tv, v => tv_big_map v t tk tv
  | T_Contract ty, addr =>
      a ← rec_value addr T_Address;
      match a with
      | V_Address a => a ← typecheck_contract_address a default_ep ty; mret (V_Contract a)
      | _ => panicked PUnreachable
      end
  | T_Lambda in_ty out_ty, M_Seq instrs =>
      l ← typecheck_lambda rec_instr instrs in_ty out_ty false; mret (V_Lambda (Closure_Lambda l))
  | T_Lambda in_ty out_ty, M_App P_Lambda_rec [M_Seq instrs] _ =>
      l ← typecheck_lambda rec_instr instrs in_ty out_ty true; mret (V_Lambda (Closure_Lambda l))
  | T_Ticket c, m => tv_ticket m t c
  | (T_Address | T_ChainId | T_Key | T_Signature | T_KeyHash), _ => tv_byte_repr v t
  | (T_Bls12381Fr | T_Bls12381G1 | T_Bls12381G2), _ => tv_bls v t
  | _, _ => tv_literal v t
  end.
End typecheck_value.

(** * Instructions *)

Abbreviation tc_result := (tcM (Instruction * FailingTypeStack)).

(** The instruction and the stack after it. *)
Definition tc_ret (i : Instruction) (stack : TypeStack) : tc_result := mret (i, FOk stack).

(** [no_overload!]. *)
Definition no_overload {A} (instr : Prim) (stack : TypeStack) : tcM A :=
  fail (TE_NoMatchingOverload instr stack None).
Definition no_overload_because {A} (instr : Prim) (stack : TypeStack) (r : NoMatchingOverloadReason) : tcM A :=
  fail (TE_NoMatchingOverload instr stack (Some r)).
Definition too_short {A} (instr : Prim) (stack : TypeStack) (l : nat) : tcM A :=
  fail (stack_too_short instr stack l).
Definition expected_type {A} (instr : Prim) (stack : TypeStack) (t1 t2 : Type_) : tcM A :=
  no_overload_because instr stack (NMOR_TypesNotEqual (TypesNotEqual t1 t2)).

(** ** Arithmetic and logic *)

Definition tc_add (stack : TypeStack) : tc_result :=
  match stack with
  | T_Nat :: T_Nat :: s => tc_ret (I_Add Add_NatNat) (T_Nat :: s)
  | T_Int :: T_Int :: s => tc_ret (I_Add Add_IntInt) (T_Int :: s)
  | T_Int :: T_Nat :: s => tc_ret (I_Add Add_IntNat) (T_Int :: s)
  | T_Nat :: T_Int :: s => tc_ret (I_Add Add_NatInt) (T_Int :: s)
  | T_Mutez :: T_Mutez :: s => tc_ret (I_Add Add_MutezMutez) (T_Mutez :: s)
  | T_Bls12381Fr :: T_Bls12381Fr :: s => tc_ret (I_Add Add_Bls12381Fr) (T_Bls12381Fr :: s)
  | T_Bls12381G1 :: T_Bls12381G1 :: s => tc_ret (I_Add Add_Bls12381G1) (T_Bls12381G1 :: s)
  | T_Bls12381G2 :: T_Bls12381G2 :: s => tc_ret (I_Add Add_Bls12381G2) (T_Bls12381G2 :: s)
  | _ :: _ :: _ => no_overload P_ADD stack
  | _ => too_short P_ADD stack 2
  end.

Definition tc_mul (stack : TypeStack) : tc_result :=
  match stack with
  | T_Nat :: T_Nat :: s => tc_ret (I_Mul Mul_NatNat) (T_Nat :: s)
  | T_Nat :: T_Int :: s => tc_ret (I_Mul Mul_NatInt) (T_Int :: s)
  | T_Int :: T_Int :: s => tc_ret (I_Mul Mul_IntInt) (T_Int :: s)
  | T_Nat :: T_Mutez :: s => tc_ret (I_Mul Mul_NatMutez) (T_Mutez :: s)
  | T_Int :: T_Nat :: s => tc_ret (I_Mul Mul_IntNat) (T_Int :: s)
  | T_Mutez :: T_Nat :: s => tc_ret (I_Mul Mul_MutezNat) (T_Mutez :: s)
  | T_Bls12381G1 :: T_Bls12381Fr :: s => tc_ret (I_Mul Mul_Bls12381G1Bls12381Fr) (T_Bls12381G1 :: s)
  | T_Bls12381G2 :: T_Bls12381Fr :: s => tc_ret (I_Mul Mul_Bls12381G2Bls12381Fr) (T_Bls12381G2 :: s)
  | T_Bls12381Fr :: T_Bls12381Fr :: s => tc_ret (I_Mul Mul_Bls12381FrBls12381Fr) (T_Bls12381Fr :: s)
  | T_Nat :: T_Bls12381Fr :: s => tc_ret (I_Mul Mul_NatBls12381Fr) (T_Bls12381Fr :: s)
  | T_Int :: T_Bls12381Fr :: s => tc_ret (I_Mul Mul_IntBls12381Fr) (T_Bls12381Fr :: s)
  | T_Bls12381Fr :: T_Nat :: s => tc_ret (I_Mul Mul_Bls12381FrNat) (T_Bls12381Fr :: s)
  | T_Bls12381Fr :: T_Int :: s => tc_ret (I_Mul Mul_Bls12381FrInt) (T_Bls12381Fr :: s)
  | _ :: _ :: _ => no_overload P_MUL stack
  | _ => too_short P_MUL stack 2
  end.

Definition tc_neg (stack : TypeStack) : tc_result :=
  match stack with
  | T_Nat :: s => tc_ret (I_Neg Neg_Nat) (T_Int :: s)
  | T_Int :: s => tc_ret (I_Neg Neg_Int) (T_Int :: s)
  | T_Bls12381G1 :: s => tc_ret (I_Neg Neg_Bls12381G1) (T_Bls12381G1 :: s)
  | T_Bls12381G2 :: s => tc_ret (I_Neg Neg_Bls12381G2) (T_Bls12381G2 :: s)
  | T_Bls12381Fr :: s => tc_ret (I_Neg Neg_Bls12381Fr) (T_Bls12381Fr :: s)
  | _ :: _ => no_overload P_NEG stack
  | [] => too_short P_NEG stack 1
  end.

Definition tc_sub_mutez (stack : TypeStack) : tc_result :=
  match stack with
  | T_Mutez :: T_Mutez :: s => tc_ret I_SubMutez (T_Option T_Mutez :: s)
  | _ :: _ :: _ => no_overload P_SUB_MUTEZ stack
  | _ => too_short P_SUB_MUTEZ stack 2
  end.

(** [AND], [OR], [XOR] share their error cases. *)
Definition tc_logic (prim : Prim) (stack : TypeStack) : tc_result :=
  match prim, stack with
  | P_AND, T_Nat :: T_Nat :: s => tc_ret (I_And And_NatNat) (T_Nat :: s)
  | P_AND, T_Int :: T_Nat :: s => tc_ret (I_And And_IntNat) (T_Nat :: s)
  | P_AND, T_Bool :: T_Bool :: s => tc_ret (I_And And_Bool) (T_Bool :: s)
  | P_AND, T_Bytes :: T_Bytes :: s => tc_ret (I_And And_Bytes) (T_Bytes :: s)
  | P_OR, T_Nat :: T_Nat :: s => tc_ret (I_Or Or_Nat) (T_Nat :: s)
  | P_OR, T_Bool :: T_Bool :: s => tc_ret (I_Or Or_Bool) (T_Bool :: s)
  | P_OR, T_Bytes :: T_Bytes :: s => tc_ret (I_Or Or_Bytes) (T_Bytes :: s)
  | P_XOR, T_Nat :: T_Nat :: s => tc_ret (I_Xor Xor_Nat) (T_Nat :: s)
  | P_XOR, T_Bool :: T_Bool :: s => tc_ret (I_Xor Xor_Bool) (T_Bool :: s)
  | P_XOR, T_Bytes :: T_Bytes :: s => tc_ret (I_Xor Xor_Bytes) (T_Bytes :: s)
  | _, _ :: _ :: _ => no_overload prim stack
  | _, _ => too_short prim stack 2
  end.

Definition tc_not (stack : TypeStack) : tc_result :=
  match stack with
  | T_Bool :: s => tc_ret (I_Not Not_Bool) (T_Bool :: s)
  | T_Int :: s => tc_ret (I_Not Not_Int) (T_Int :: s)
  | T_Nat :: s => tc_ret (I_Not Not_Nat) (T_Int :: s)
  | T_Bytes :: s => tc_ret (I_Not Not_Bytes) (T_Bytes :: s)
  | _ :: _ => no_overload P_NOT stack
  | [] => too_short P_NOT stack 1
  end.

(** [GT], [GE], [EQ], [NEQ], [LE], [LT]: the six arms differ in the instruction. *)
Definition tc_int_test (prim : Prim) (i : Instruction) (stack : TypeStack) : tc_result :=
  match stack with
  | T_Int :: s => tc_ret i (T_Bool :: s)
  | t :: _ => expected_type prim stack T_Int t
  | [] => too_short prim stack 1
  end.

Definition tc_int (stack : TypeStack) : tc_result :=
  match stack with
  | T_Nat :: s => tc_ret (I_Int Int_Nat) (T_Int :: s)
  | T_Bls12381Fr :: s => tc_ret (I_Int Int_Bls12381Fr) (T_Int :: s)
  | T_Bytes :: s => tc_ret (I_Int Int_Bytes) (T_Int :: s)
  | _ :: _ => no_overload P_INT stack
  | [] => too_short P_INT stack 1
  end.

Definition tc_nat (stack : TypeStack) : tc_result :=
  match stack with
  | T_Bytes :: s => tc_ret I_Nat (T_Nat :: s)
  | _ :: _ => no_overload P_NAT stack
  | [] => too_short P_NAT stack 1
  end.

Definition tc_bytes (stack : TypeStack) : tc_result :=
  match stack with
  | T_Int :: s => tc_ret (I_Bytes Bytes_Int) (T_Bytes :: s)
  | T_Nat :: s => tc_ret (I_Bytes Bytes_Nat) (T_Bytes :: s)
  | _ :: _ => no_overload P_BYTES stack
  | [] => too_short P_BYTES stack 1
  end.

Definition tc_abs (stack : TypeStack) : tc_result :=
  match stack with
  | T_Int :: s => tc_ret I_Abs (T_Nat :: s)
  | t :: _ => expected_type P_ABS stack T_Int t
  | [] => too_short P_ABS stack 1
  end.

Definition tc_isnat (stack : TypeStack) : tc_result :=
  match stack with
  | T_Int :: s => tc_ret I_IsNat (T_Option T_Nat :: s)
  | t :: _ => expected_type P_ISNAT stack T_Int t
  | [] => too_short P_ISNAT stack 1
  end.

Definition tc_compare (stack : TypeStack) : tc_result :=
  match stack with
  | t :: u :: s =>
      _ ← M_map_err (fun e => match e with
                              | TE_TypesNotEqual e =>
                                  TE_NoMatchingOverload P_COMPARE stack (Some (NMOR_TypesNotEqual e))
                              | e => e
                              end) (ensure_ty_eq t u);
      _ ← ensure_prop Comparable t;
      tc_ret I_Compare (T_Int :: s)
  | _ => too_short P_COMPARE stack 2
  end.

(** ** Stack manipulation *)

Section instructions.
Context {X : External}.
Context (rec_value : Micheline -> Type_ -> tcM TypedValue).
Context (rec_instr : Micheline -> option Entrypoints -> FailingTypeStack -> tc_result).
Context (rec_script : Micheline -> tcM ContractScript).
(** The instruction being checked and the entrypoints [SELF] can see. *)
Context (i : Micheline) (self_entrypoints : option Entrypoints).

Definition unexpected_micheline {A} : tcM A := fail (TE_UnexpectedMicheline i).

(** An optional depth argument. *)
Definition opt_u10 (args : list Micheline) : tcM (option nat) :=
  match args with
  | [M_Int height] => n ← validate_u10 height; mret (Some n)
  | [] => mret None
  | _ => unexpected_micheline
  end.

Definition tc_dip (args : list Micheline) (stack : TypeStack) : tc_result :=
  '(opt_height, nested) ← match args with
                          | [M_Int height; M_Seq nested] =>
                              n ← validate_u10 height; mret (Some n, nested)
                          | [M_Seq nested] => mret (None, nested)
                          | _ => unexpected_micheline
                          end;
  let protected_height := default 1 opt_height in
  _ ← tc_consume_cost (tc_dip_n opt_height);
  _ ← ensure_stack_len P_DIP stack protected_height;
  '(protected, stack) ← lift (TopFirst.split_off stack protected_height);
  '(nested, opt_stack) ← typecheck rec_instr nested self_entrypoints (FOk stack);
  stack ← lift (access_mut opt_stack TE_FailNotInTail);
  tc_ret (I_Dip opt_height nested) (protected ++ stack).

Definition tc_drop (args : list Micheline) (stack : TypeStack) : tc_result :=
  opt_height ← opt_u10 args;
  let drop_height := default 1 opt_height in
  _ ← tc_consume_cost (tc_drop_n opt_height);
  _ ← ensure_stack_len P_DROP stack drop_height;
  stack ← lift (TopFirst.drop_top stack drop_height);
  tc_ret (I_Drop opt_height) stack.

Definition tc_dup (args : list Micheline) (stack : TypeStack) : tc_result :=
  match args with
  | [M_Int 0%Z] => fail TE_Dup0
  | _ =>
      opt_height ← opt_u10 args;
      let dup_height := default 1 opt_height in
      _ ← ensure_stack_len P_DUP stack dup_height;
      ty ← lift (TopFirst.index stack (dup_height - 1));
      _ ← ensure_prop Duplicable ty;
      tc_ret (I_Dup opt_height) (ty :: stack)
  end.

(** The length check admits a stack of exactly [dig_height] elements, on which
    [remove] panics. *)
Definition tc_dig (args : list Micheline) (stack : TypeStack) : tc_result :=
  match args with
  | [M_Int height] =>
      dig_height ← validate_u10 height;
      _ ← ensure_stack_len P_DIG stack dig_height;
      _ ← tc_consume_cost (tc_dig_n dig_height);
      if 0 <? dig_height then
        '(e, stack) ← lift (TopFirst.remove stack dig_height);
        tc_ret (I_Dig dig_height) (e :: stack)
      else tc_ret (I_Dig dig_height) stack
  | _ => unexpected_micheline
  end.

Definition tc_dug (args : list Micheline) (stack : TypeStack) : tc_result :=
  match args with
  | [M_Int height] =>
      dug_height ← validate_u10 height;
      _ ← tc_consume_cost (tc_dug_n dug_height);
      if 0 <? dug_height then
        _ ← ensure_stack_len P_DUG stack dug_height;
        match stack with
        | e :: stack =>
            stack ← lift (TopFirst.insert stack dug_height e);
            tc_ret (I_Dug dug_height) stack
        | [] => panicked PUnwrap
        end
      else tc_ret (I_Dug dug_height) stack
  | _ => unexpected_micheline
  end.

Definition tc_swap (stack : TypeStack) : tc_result :=
  match stack with
  | a :: b :: s => tc_ret I_Swap (b :: a :: s)
  | _ => too_short P_SWAP stack 2
  end.

(** ** Control flow *)

Definition tc_if (args : list Micheline) (stack : TypeStack) : tc_result :=
  match args, stack with
  | [M_Seq nested_t; M_Seq nested_f], T_Bool :: s =>
      '(nested_t, opt_stack) ← typecheck rec_instr nested_t self_entrypoints (FOk s);
      '(nested_f, f_opt_stack) ← typecheck rec_instr nested_f self_entrypoints (FOk s);
      opt_stack ← unify_stacks opt_stack f_opt_stack;
      mret (I_If nested_t nested_f, opt_stack)
  | [M_Seq _; M_Seq _], t :: _ => expected_type P_IF stack T_Bool t
  | [M_Seq _; M_Seq _], [] => too_short P_IF stack 1
  | _, _ => unexpected_micheline
  end.

Definition tc_if_none (args : list Micheline) (stack : TypeStack) : tc_result :=
  match args, stack with
  | [M_Seq when_none; M_Seq when_some], T_Option ty :: s =>
      '(when_none, opt_stack) ← typecheck rec_instr when_none self_entrypoints (FOk s);
      '(when_some, some_opt_stack) ← typecheck rec_instr when_some self_entrypoints (FOk (ty :: s));
      opt_stack ← unify_stacks opt_stack some_opt_stack;
      mret (I_IfNone when_none when_some, opt_stack)
  | [M_Seq _; M_Seq _], t :: _ => no_overload_because P_IF_NONE stack (NMOR_ExpectedOption t)
  | [M_Seq _; M_Seq _], [] => too_short P_IF_NONE stack 1
  | _, _ => unexpected_micheline
  end.

Definition tc_if_cons (args : list Micheline) (stack : TypeStack) : tc_result :=
  match args, stack with
  | [M_Seq when_cons; M_Seq when_nil], T_List ty :: s =>
      '(when_cons, cons_opt_stack) ←
        typecheck rec_instr when_cons self_entrypoints (FOk (ty :: T_List ty :: s));
      '(when_nil, opt_stack) ← typecheck rec_instr when_nil self_entrypoints (FOk s);
      opt_stack ← unify_stacks opt_stack cons_opt_stack;
      mret (I_IfCons when_cons when_nil, opt_stack)
  | [M_Seq _; M_Seq _], t :: _ => no_overload_because P_IF_CONS stack (NMOR_ExpectedList t)
  | [M_Seq _; M_Seq _], [] => too_short P_IF_CONS stack 1
  | _, _ => unexpected_micheline
  end.

Definition tc_if_left (args : list Micheline) (stack : TypeStack) : tc_result :=
  match args, stack with
  | [M_Seq when_left; M_Seq when_right], T_Or tl tr :: s =>
      '(when_left, opt_stack) ← typecheck rec_instr when_left self_entrypoints (FOk (tl :: s));
      '(when_right, opt_right_stack) ← typecheck rec_instr when_right self_entrypoints (FOk (tr :: s));
      opt_stack ← unify_stacks opt_stack opt_right_stack;
      mret (I_IfLeft when_left when_right, opt_stack)
  | [M_Seq _; M_Seq _], t :: _ => no_overload_because P_IF_LEFT stack (NMOR_ExpectedOr t)
  | [M_Seq _; M_Seq _], [] => too_short P_IF_LEFT stack 1
  | _, _ => unexpected_micheline
  end.

Definition tc_loop (args : list Micheline) (stack : TypeStack) : tc_result :=
  match args, stack with
  | [M_Seq nested], T_Bool :: s =>
      '(nested, opt_stack) ← typecheck rec_instr nested self_entrypoints (FOk s);
      opt_stack ← unify_stacks opt_stack (FOk stack);
      mret (I_Loop nested,
            match opt_stack with
            | FOk s => FOk (tail s)
            | Failed => Failed
            end)
  | [M_Seq _], ty :: _ => expected_type P_LOOP stack T_Bool ty
  | [M_Seq _], [] => too_short P_LOOP stack 1
  | _, _ => unexpected_micheline
  end.

Definition tc_loop_left (args : list Micheline) (stack : TypeStack) : tc_result :=
  match args, stack with
  | [M_Seq nested], T_Or l_ty r_ty :: s =>
      '(nested, opt_stack) ← typecheck rec_instr nested self_entrypoints (FOk (l_ty :: s));
      opt_stack ← unify_stacks opt_stack (FOk stack);
      stack ← lift (access_mut opt_stack TE_FailNotInTail);
      stack ← lift (TopFirst.index_mut stack 0 r_ty);
      tc_ret (I_LoopLeft nested) stack
  | [M_Seq _], ty :: _ => no_overload_because P_LOOP_LEFT stack (NMOR_ExpectedOr ty)
  | [M_Seq _], [] => too_short P_LOOP_LEFT stack 1
  | _, _ => unexpected_micheline
  end.

(** The body of [ITER], on the stack without the collection. *)
Definition tc_iter_body (o : ov_Iter) (nested : list Micheline) (elt : Type_) (s : TypeStack) : tc_result :=
  '(nested, opt_inner_stack) ← typecheck rec_instr nested self_entrypoints (FOk (elt :: s));
  opt_stack ← unify_stacks (FOk s) opt_inner_stack;
  mret (I_Iter o nested, opt_stack).

Definition tc_iter (args : list Micheline) (stack : TypeStack) : tc_result :=
  match args, stack with
  | [M_Seq nested], T_List ty :: s => tc_iter_body Iter_List nested ty s
  | [M_Seq nested], T_Set ty :: s => tc_iter_body Iter_Set nested ty s
  | [M_Seq nested], T_Map k v :: s => tc_iter_body Iter_Map nested (T_Pair k v) s
  | [M_Seq _], _ :: _ => no_overload P_ITER stack
  | [M_Seq _], [] => too_short P_ITER stack 1
  | _, _ => unexpected_micheline
  end.

Definition tc_map (args : list Micheline) (stack : TypeStack) : tc_result :=
  match args, stack with
  | [M_Seq nested], T_List ty1 :: s =>
      '(nested, ty2) ← typecheck_map_block rec_instr nested ty1 self_entrypoints s;
      tc_ret (I_Map Map_List nested) (T_List ty2 :: s)
  | [M_Seq nested], T_Option ty1 :: s =>
      '(nested, ty2) ← typecheck_map_block rec_instr nested ty1 self_entrypoints s;
      tc_ret (I_Map Map_Option nested) (T_Option ty2 :: s)
  | [M_Seq nested], T_Map kty ty1 :: s =>
      '(nested, ty2) ← typecheck_map_block rec_instr nested (T_Pair kty ty1) self_entrypoints s;
      tc_ret (I_Map Map_Map nested) (T_Map kty ty2 :: s)
  | [M_Seq _], _ :: _ => no_overload P_MAP stack
  | [M_Seq _], [] => too_short P_MAP stack 1
  | _, _ => unexpected_micheline
  end.

Definition tc_failwith (stack : TypeStack) : tc_result :=
  match stack with
  | ty :: _ => _ ← ensure_prop Pushable ty; mret (I_Failwith ty, Failed)
  | [] => too_short P_FAILWITH stack 1
  end.

Definition tc_never (stack : TypeStack) : tc_result :=
  match stack with
  | T_Never :: _ => mret (I_Never, Failed)
  | t :: _ => expected_type P_NEVER stack T_Never t
  | [] => too_short P_NEVER stack 1
  end.

(** ** Data *)

Definition tc_push (args : list Micheline) (stack : TypeStack) : tc_result :=
  match args with
  | [t; v] =>
      t ← parse_ty t;
      _ ← ensure_prop Pushable t;
      v ← rec_value v t;
      tc_ret (I_Push v) (t :: stack)
  | _ => unexpected_micheline
  end.

Definition tc_car (stack : TypeStack) : tc_result :=
  match stack with
  | T_Pair l _ :: s => tc_ret I_Car (l :: s)
  | ty :: _ => no_overload_because P_CAR stack (NMOR_ExpectedPair ty)
  | [] => too_short P_CAR stack 1
  end.

Definition tc_cdr (stack : TypeStack) : tc_result :=
  match stack with
  | T_Pair _ r :: s => tc_ret I_Cdr (r :: s)
  | ty :: _ => no_overload_because P_CDR stack (NMOR_ExpectedPair ty)
  | [] => too_short P_CDR stack 1
  end.

(** [drain_top(n).rev().reduce(|acc, e| pair(e, acc))]: the right comb of the top elements. *)
Fixpoint comb {A} (pair : A -> A -> A) (l : list A) : option A :=
  match l with
  | [] => None
  | [x] => Some x
  | x :: l => pair x <$> comb pair l
  end.

Definition tc_pair (args : list Micheline) (stack : TypeStack) : tc_result :=
  match args, stack with
  | [], l :: r :: s => tc_ret I_Pair (T_Pair l r :: s)
  | [], _ => too_short P_PAIR stack 2
  | [M_Int n], _ =>
      n ← validate_u10 n;
      if n <? 2 then fail (TE_PairN01 P_PAIR n)
      else if length stack <? n then too_short P_PAIR stack n
      else
        _ ← tc_consume_cost (tc_pair_n n);
        '(top, stack) ← lift (TopFirst.split_off stack n);
        res ← lift (expect PUnwrap (comb T_Pair top));
        tc_ret (I_PairN n) (res :: stack)
  | _, _ => unexpected_micheline
  end.

(** [fill]: the components of a comb, pushed so that the first ends on top. *)
Fixpoint fill_ty (n : nat) (stack : TypeStack) (p : Type_) : tcM TypeStack :=
  match n, p with
  | 0, p => mret (p :: stack)
  | S n, T_Pair p0 p1 => stack ← fill_ty n stack p1; mret (p0 :: stack)
  | S _, p => no_overload_because P_UNPAIR stack (NMOR_ExpectedPair p)
  end.

Definition tc_unpair (args : list Micheline) (stack : TypeStack) : tc_result :=
  match args, stack with
  | [], T_Pair l r :: s => tc_ret I_Unpair (l :: r :: s)
  | [], ty :: _ => no_overload_because P_UNPAIR stack (NMOR_ExpectedPair ty)
  | [], [] => too_short P_UNPAIR stack 1
  | [M_Int n], p :: s =>
      n ← validate_u10 n;
      if n <? 2 then fail (TE_PairN01 P_UNPAIR n)
      else
        _ ← tc_consume_cost (tc_unpair_n n);
        stack ← fill_ty (n - 1) s p;
        tc_ret (I_UnpairN n) stack
  | [M_Int _], [] => too_short P_UNPAIR stack 1
  | _, _ => unexpected_micheline
  end.

Definition tc_some (stack : TypeStack) : tc_result :=
  match stack with
  | ty :: s => tc_ret I_ISome (T_Option ty :: s)
  | [] => too_short P_SOME stack 1
  end.

Definition tc_none (args : list Micheline) (stack : TypeStack) : tc_result :=
  match args with
  | [ty] => ty ← parse_ty ty; tc_ret I_None (T_Option ty :: stack)
  | _ => unexpected_micheline
  end.

Definition tc_nil (args : list Micheline) (stack : TypeStack) : tc_result :=
  match args with
  | [ty] => ty ← parse_ty ty; tc_ret I_Nil (T_List ty :: stack)
  | _ => unexpected_micheline
  end.

Definition tc_cons (stack : TypeStack) : tc_result :=
  match stack with
  | ty2 :: T_List ty1 :: s => _ ← ensure_ty_eq ty1 ty2; tc_ret I_Cons (T_List ty1 :: s)
  | _ :: ty :: _ => no_overload_because P_CONS stack (NMOR_ExpectedList ty)
  | _ => too_short P_CONS stack 2
  end.

Definition tc_concat (stack : TypeStack) : tc_result :=
  match stack with
  | T_String :: T_String :: s => tc_ret (I_Concat Concat_TwoStrings) (T_String :: s)
  | T_Bytes :: T_Bytes :: s => tc_ret (I_Concat Concat_TwoBytes) (T_Bytes :: s)
  | T_List T_String :: s => tc_ret (I_Concat Concat_ListOfStrings) (T_String :: s)
  | T_List T_Bytes :: s => tc_ret (I_Concat Concat_ListOfBytes) (T_Bytes :: s)
  | _ :: _ => no_overload P_CONCAT stack
  | [] => too_short P_CONCAT stack 1
  end.

Definition tc_empty_set (args : list Micheline) (stack : TypeStack) : tc_result :=
  match args with
  | [ty] => ty ← parse_ty ty; _ ← ensure_prop Comparable ty; tc_ret I_EmptySet (T_Set ty :: stack)
  | _ => unexpected_micheline
  end.

Definition tc_empty_big_map (args : list Micheline) (stack : TypeStack) : tc_result :=
  match args with
  | [kty; vty] =>
      kty ← parse_ty kty;
      _ ← ensure_prop Comparable kty;
      vty ← parse_ty vty;
      _ ← ensure_prop BigMapValue vty;
      tc_ret (I_EmptyBigMap kty vty) (T_BigMap kty vty :: stack)
  | _ => unexpected_micheline
  end.

Definition tc_mem (stack : TypeStack) : tc_result :=
  match stack with
  | ty_ :: T_Set ty :: s => _ ← ensure_ty_eq ty ty_; tc_ret (I_Mem Mem_Set) (T_Bool :: s)
  | kty_ :: T_Map k _ :: s => _ ← ensure_ty_eq k kty_; tc_ret (I_Mem Mem_Map) (T_Bool :: s)
  | kty_ :: T_BigMap k _ :: s => _ ← ensure_ty_eq k kty_; tc_ret (I_Mem Mem_BigMap) (T_Bool :: s)
  | _ :: _ :: _ => no_overload P_MEM stack
  | _ => too_short P_MEM stack 2
  end.

Definition tc_get (args : list Micheline) (stack : TypeStack) : tc_result :=
  match args, stack with
  | [], kty_ :: T_Map k v :: s => _ ← ensure_ty_eq k kty_; tc_ret (I_Get Get_Map) (T_Option v :: s)
  | [], kty_ :: T_BigMap k v :: s => _ ← ensure_ty_eq k kty_; tc_ret (I_Get Get_BigMap) (T_Option v :: s)
  | [], _ :: _ :: _ => no_overload P_GET stack
  | [], _ => too_short P_GET stack 2
  | [M_Int n], ty :: s =>
      n ← validate_u10 n;
      _ ← tc_consume_cost (tc_get_n n);
      match get_nth_field_ty n ty with
      | inl res => tc_ret (I_GetN n) (res :: s)
      | inr ty => no_overload_because P_GET stack (NMOR_ExpectedPair ty)
      end
  | [M_Int _], [] => too_short P_GET stack 1
  | _, _ => unexpected_micheline
  end.

Definition tc_update (args : list Micheline) (stack : TypeStack) : tc_result :=
  match args, stack with
  | [], ty_ :: T_Bool :: T_Set ty :: s =>
      _ ← ensure_ty_eq ty ty_; tc_ret (I_Update Update_Set) (T_Set ty :: s)
  | [], kty_ :: T_Option vty_new :: T_Map kty vty :: s =>
      _ ← ensure_ty_eq kty kty_; _ ← ensure_ty_eq vty vty_new;
      tc_ret (I_Update Update_Map) (T_Map kty vty :: s)
  | [], kty_ :: T_Option vty_new :: T_BigMap kty vty :: s =>
      _ ← ensure_ty_eq kty kty_; _ ← ensure_ty_eq vty vty_new;
      tc_ret (I_Update Update_BigMap) (T_BigMap kty vty :: s)
  | [], _ :: _ :: _ :: _ => no_overload P_UPDATE stack
  | [], _ => too_short P_UPDATE stack 3
  | [M_Int n], new_val :: ty :: s =>
      n ← validate_u10 n;
      match get_nth_field_ty n ty with
      | inl _ => tc_ret (I_UpdateN n) (set_nth_field_ty n ty new_val :: s)
      | inr ty => no_overload_because P_UPDATE stack (NMOR_ExpectedPair ty)
      end
  | [M_Int _], _ => too_short P_UPDATE stack 2
  | _, _ => unexpected_micheline
  end.

Definition tc_get_and_update (stack : TypeStack) : tc_result :=
  match stack with
  | kty_ :: T_Option vty_new :: T_Map kty vty :: s =>
      _ ← ensure_ty_eq kty kty_; _ ← ensure_ty_eq vty vty_new;
      tc_ret (I_GetAndUpdate GetAndUpdate_Map) (T_Option vty_new :: T_Map kty vty :: s)
  | kty_ :: T_Option vty_new :: T_BigMap kty vty :: s =>
      _ ← ensure_ty_eq kty kty_; _ ← ensure_ty_eq vty vty_new;
      tc_ret (I_GetAndUpdate GetAndUpdate_BigMap) (T_Option vty_new :: T_BigMap kty vty :: s)
  | _ :: _ :: _ :: _ => no_overload P_GET_AND_UPDATE stack
  | _ => too_short P_GET_AND_UPDATE stack 3
  end.

Definition tc_size (stack : TypeStack) : tc_result :=
  match stack with
  | T_String :: s => tc_ret (I_Size Size_String) (T_Nat :: s)
  | T_Bytes :: s => tc_ret (I_Size Size_Bytes) (T_Nat :: s)
  | T_List _ :: s => tc_ret (I_Size Size_List) (T_Nat :: s)
  | T_Set _ :: s => tc_ret (I_Size Size_Set) (T_Nat :: s)
  | T_Map _ _ :: s => tc_ret (I_Size Size_Map) (T_Nat :: s)
  | _ :: _ => no_overload P_SIZE stack
  | [] => too_short P_SIZE stack 1
  end.

Definition tc_slice (stack : TypeStack) : tc_result :=
  match stack with
  | T_Nat :: T_Nat :: T_String :: s => tc_ret (I_Slice Slice_String) (T_Option T_String :: s)
  | T_Nat :: T_Nat :: T_Bytes :: s => tc_ret (I_Slice Slice_Bytes) (T_Option T_Bytes :: s)
  | _ :: _ :: _ :: _ => no_overload P_SLICE stack
  | _ => too_short P_SLICE stack 3
  end.

Definition tc_left (args : list Micheline) (stack : TypeStack) : tc_result :=
  match args, stack with
  | [ty_right], ty_left :: s => ty_right ← parse_ty ty_right; tc_ret I_Left (T_Or ty_left ty_right :: s)
  | [_], [] => too_short P_LEFT stack 1
  | _, _ => unexpected_micheline
  end.

Definition tc_right (args : list Micheline) (stack : TypeStack) : tc_result :=
  match args, stack with
  | [ty_left], ty_right :: s => ty_left ← parse_ty ty_left; tc_ret I_Right (T_Or ty_left ty_right :: s)
  | [_], [] => too_short P_RIGHT stack 1
  | _, _ => unexpected_micheline
  end.

(** ** Functions, operations, tickets *)

Definition tc_lambda (recursive : bool) (args : list Micheline) (stack : TypeStack) : tc_result :=
  match args with
  | [ty1; ty2; M_Seq instrs] =>
      in_ty ← parse_ty ty1;
      out_ty ← parse_ty ty2;
      res ← typecheck_lambda rec_instr instrs in_ty out_ty recursive;
      tc_ret (I_Lambda res) (T_Lambda in_ty out_ty :: stack)
  | _ => unexpected_micheline
  end.

Definition tc_exec (stack : TypeStack) : tc_result :=
  match stack with
  | ty :: T_Lambda a b :: s => _ ← ensure_ty_eq a ty; tc_ret I_Exec (b :: s)
  | _ :: _ :: _ => no_overload P_EXEC stack
  | _ => too_short P_EXEC stack 2
  end.

(** The captured type is not required to be pushable. *)
Definition tc_apply (stack : TypeStack) : tc_result :=
  match stack with
  | ty :: T_Lambda a b :: s =>
      match a with
      | T_Pair p0 p1 => _ ← ensure_ty_eq p0 ty; tc_ret (I_Apply ty) (T_Lambda p1 b :: s)
      | t => no_overload_because P_APPLY s (NMOR_ExpectedPair t)
      end
  | _ :: _ :: _ => no_overload P_APPLY stack
  | _ => too_short P_APPLY stack 2
  end.

(** [get_single_field_ann()?]. *)
Definition single_field_ann (anns : Annotations) : tcM (option bytes) :=
  lift (map_err TE_AnnotationError (get_single_field_ann anns)).

Definition tc_self (anns : Annotations) (stack : TypeStack) : tc_result :=
  ann ← single_field_ann anns;
  entrypoint ← match ann with
               | Some a => lift (map_err TE_EntrypointError (EntrypointRepr.try_from_field_ann a))
               | None => mret default_ep
               end;
  eps ← lift (ok_or TE_SelfForbidden self_entrypoints);
  ty ← lift (ok_or (TE_NoSuchEntrypoint entrypoint) (eps !! entrypoint));
  tc_ret (I_ISelf entrypoint) (T_Contract ty :: stack).

Definition tc_address (stack : TypeStack) : tc_result :=
  match stack with
  | T_Contract _ :: s => tc_ret I_Address (T_Address :: s)
  | _ :: _ => no_overload P_ADDRESS stack
  | [] => too_short P_ADDRESS stack 1
  end.

Definition tc_pack (stack : TypeStack) : tc_result :=
  match stack with
  | t :: s => _ ← ensure_prop Packable t; tc_ret I_Pack (T_Bytes :: s)
  | [] => too_short P_PACK stack 1
  end.

Definition tc_unpack (args : list Micheline) (stack : TypeStack) : tc_result :=
  match args, stack with
  | [ty], T_Bytes :: s =>
      ty ← parse_ty ty; _ ← ensure_prop Pushable ty; tc_ret (I_Unpack ty) (T_Option ty :: s)
  | [_], ty :: _ => expected_type P_UNPACK stack T_Bytes ty
  | [_], [] => too_short P_UNPACK stack 1
  | _, _ => unexpected_micheline
  end.

Definition tc_transfer_tokens (stack : TypeStack) : tc_result :=
  match stack with
  | arg_t :: T_Mutez :: T_Contract ct :: s => _ ← ensure_ty_eq ct arg_t; tc_ret I_TransferTokens (T_Operation :: s)
  | _ :: _ :: _ :: _ => no_overload P_TRANSFER_TOKENS stack
  | _ => too_short P_TRANSFER_TOKENS stack 3
  end.

Definition tc_set_delegate (stack : TypeStack) : tc_result :=
  match stack with
  | T_Option T_KeyHash :: s => tc_ret I_SetDelegate (T_Operation :: s)
  | _ :: _ => no_overload P_SET_DELEGATE stack
  | [] => too_short P_SET_DELEGATE stack 1
  end.

Definition tc_check_signature (stack : TypeStack) : tc_result :=
  match stack with
  | T_Key :: T_Signature :: T_Bytes :: s => tc_ret I_CheckSignature (T_Bool :: s)
  | _ :: _ :: _ :: _ => no_overload P_CHECK_SIGNATURE stack
  | _ => too_short P_CHECK_SIGNATURE stack 3
  end.

Definition tc_hash_key (stack : TypeStack) : tc_result :=
  match stack with
  | T_Key :: s => tc_ret I_HashKey (T_KeyHash :: s)
  | t :: _ => expected_type P_HASH_KEY stack T_Key t
  | [] => too_short P_HASH_KEY stack 1
  end.

(** The content type is not required to be comparable. *)
Definition tc_ticket (stack : TypeStack) : tc_result :=
  match stack with
  | t :: T_Nat :: s => tc_ret I_Ticket (T_Option (T_Ticket t) :: s)
  | _ :: _ :: _ => no_overload P_TICKET stack
  | _ => too_short P_TICKET stack 2
  end.

Definition tc_read_ticket (stack : TypeStack) : tc_result :=
  match stack with
  | T_Ticket t :: _ => tc_ret I_ReadTicket (T_Pair T_Address (T_Pair t T_Nat) :: stack)
  | _ :: _ => no_overload P_READ_TICKET stack
  | [] => too_short P_READ_TICKET stack 1
  end.

Definition tc_split_ticket (stack : TypeStack) : tc_result :=
  match stack with
  | T_Ticket t :: T_Pair T_Nat T_Nat :: s =>
      tc_ret I_SplitTicket (T_Option (T_Pair (T_Ticket t) (T_Ticket t)) :: s)
  | _ :: _ :: _ => no_overload P_SPLIT_TICKET stack
  | _ => too_short P_SPLIT_TICKET stack 2
  end.

Definition tc_join_tickets (stack : TypeStack) : tc_result :=
  match stack with
  | T_Pair (T_Ticket lt) (T_Ticket rt) :: s =>
      _ ← ensure_ty_eq lt rt; tc_ret I_JoinTickets (T_Option (T_Ticket lt) :: s)
  | _ :: _ => no_overload P_JOIN_TICKETS stack
  | [] => too_short P_JOIN_TICKETS stack 1
  end.

(** [BLAKE2B], [KECCAK], [SHA256], [SHA3], [SHA512]. *)
Definition tc_hash (prim : Prim) (instr : Instruction) (stack : TypeStack) : tc_result :=
  match stack with
  | T_Bytes :: _ => tc_ret instr stack
  | t :: _ => expected_type prim stack T_Bytes t
  | [] => too_short prim stack 1
  end.

(** The type argument is not required to be passable. *)
Definition tc_contract (args : list Micheline) (anns : Annotations) (stack : TypeStack) : tc_result :=
  match args, stack with
  | [t], T_Address :: s =>
      ann ← single_field_ann anns;
      entrypoint ← match ann with
                   | None => mret None
                   | Some a =>
                       ep ← lift (map_err TE_EntrypointError (EntrypointRepr.try_from_field_ann a));
                       mret (Some ep)
                   end;
      _ ← match entrypoint with
          | Some ep => if is_default ep then fail (TE_ExplicitDefaultEntrypointError P_CONTRACT) else mret tt
          | None => mret tt
          end;
      let entrypoint := default default_ep entrypoint in
      t ← parse_ty t;
      tc_ret (I_Contract t entrypoint) (T_Option (T_Contract t) :: s)
  | [_], _ :: _ => no_overload P_CONTRACT stack
  | [_], [] => too_short P_CONTRACT stack 1
  | _, _ => unexpected_micheline
  end.

Definition tc_implicit_account (stack : TypeStack) : tc_result :=
  match stack with
  | T_KeyHash :: s => tc_ret I_ImplicitAccount (T_Contract T_Unit :: s)
  | _ :: _ => no_overload P_IMPLICIT_ACCOUNT stack
  | [] => too_short P_IMPLICIT_ACCOUNT stack 1
  end.

Definition tc_voting_power (stack : TypeStack) : tc_result :=
  match stack with
  | T_KeyHash :: s => tc_ret I_VotingPower (T_Nat :: s)
  | _ :: _ => no_overload P_VOTING_POWER stack
  | [] => too_short P_VOTING_POWER stack 1
  end.

(** The tag of an event. *)
Definition emit_tag (anns : Annotations) : tcM (option bytes) :=
  opt_tag ← single_field_ann anns;
  _ ← match opt_tag with
      | Some t => lift (map_err TE_EntrypointError (EntrypointRepr.check_ep_name_len t))
      | None => mret tt
      end;
  mret opt_tag.

Definition tc_emit (args : list Micheline) (anns : Annotations) (stack : TypeStack) : tc_result :=
  match args, stack with
  | [t], emit_val_type :: s =>
      emit_type_arg ← parse_ty t;
      _ ← ensure_ty_eq emit_type_arg emit_val_type;
      _ ← ensure_prop Pushable emit_val_type;
      opt_tag ← emit_tag anns;
      tc_ret (I_Emit opt_tag (Or_Right t)) (T_Operation :: s)
  | [], emit_val_type :: s =>
      _ ← ensure_prop Pushable emit_val_type;
      opt_tag ← emit_tag anns;
      tc_ret (I_Emit opt_tag (Or_Left emit_val_type)) (T_Operation :: s)
  | [], [] | [_], [] => too_short P_EMIT stack 1
  | _, _ => unexpected_micheline
  end.

Definition tc_pairing_check (stack : TypeStack) : tc_result :=
  match stack with
  | T_List (T_Pair T_Bls12381G1 T_Bls12381G2) :: s => tc_ret I_PairingCheck (T_Bool :: s)
  | t :: _ => expected_type P_PAIRING_CHECK stack (T_List (T_Pair T_Bls12381G1 T_Bls12381G2)) t
  | [] => too_short P_PAIRING_CHECK stack 1
  end.

Definition tc_create_contract (args : list Micheline) (stack : TypeStack) : tc_result :=
  match args, stack with
  | [cs], T_Option T_KeyHash :: T_Mutez :: new_storage :: s =>
      contract_script ← rec_script cs;
      _ ← ensure_ty_eq (cs_storage contract_script) new_storage;
      tc_ret (I_CreateContract contract_script cs) (T_Operation :: T_Address :: s)
  | [_], _ :: _ :: _ :: _ => no_overload P_CREATE_CONTRACT stack
  | [_], _ => too_short P_CREATE_CONTRACT stack 3
  | _, _ => unexpected_micheline
  end.

(** Instructions without arguments. *)
Definition no_args (args : list Micheline) (k : tc_result) : tc_result :=
  match args with [] => k | _ => unexpected_micheline end.

(** Instructions that push a value of the context. *)
Definition tc_context (instr : Instruction) (t : Type_) (stack : TypeStack) : tc_result :=
  tc_ret instr (t :: stack).

(** ** Dispatch *)

(** [micheline_unsupported_instructions!]. *)
Definition unsupported_instruction (p : Prim) : bool :=
  match p with
  | P_SUB | P_EDIV | P_LSL | P_LSR | P_EMPTY_MAP | P_SAPLING_EMPTY_STATE | P_SAPLING_VERIFY_UPDATE
  | P_OPEN_CHEST | P_VIEW | P_CREATE_ACCOUNT | P_STEPS_TO_QUOTA | P_TICKET_DEPRECATED | P_CAST
  | P_RENAME => true
  | _ => false
  end.

(** The arms of the match of [typecheck_instruction] for an application; what is
    neither an instruction nor unsupported is a type, a field or a value. *)
Definition typecheck_app (p : Prim) (args : list Micheline) (anns : Annotations) (stack : TypeStack)
  : tc_result :=
  match p with
  | P_ADD => no_args args (tc_add stack)
  | P_MUL => no_args args (tc_mul stack)
  | P_NEG => no_args args (tc_neg stack)
  | P_SUB_MUTEZ => no_args args (tc_sub_mutez stack)
  | P_AND | P_OR | P_XOR => no_args args (tc_logic p stack)
  | P_NOT => no_args args (tc_not stack)
  | P_DIP => tc_dip args stack
  | P_DROP => tc_drop args stack
  | P_DUP => tc_dup args stack
  | P_DIG => tc_dig args stack
  | P_DUG => tc_dug args stack
  | P_GT => no_args args (tc_int_test p I_Gt stack)
  | P_GE => no_args args (tc_int_test p I_Ge stack)
  | P_EQ => no_args args (tc_int_test p I_Eq stack)
  | P_NEQ => no_args args (tc_int_test p I_Neq stack)
  | P_LE => no_args args (tc_int_test p I_Le stack)
  | P_LT => no_args args (tc_int_test p I_Lt stack)
  | P_IF => tc_if args stack
  | P_IF_NONE => tc_if_none args stack
  | P_IF_CONS => tc_if_cons args stack
  | P_IF_LEFT => tc_if_left args stack
  | P_INT => no_args args (tc_int stack)
  | P_NAT => no_args args (tc_nat stack)
  | P_BYTES => no_args args (tc_bytes stack)
  | P_ABS => no_args args (tc_abs stack)
  | P_ISNAT => no_args args (tc_isnat stack)
  | P_LOOP => tc_loop args stack
  | P_LOOP_LEFT => tc_loop_left args stack
  | P_ITER => tc_iter args stack
  | P_MAP => tc_map args stack
  | P_PUSH => tc_push args stack
  | P_SWAP => no_args args (tc_swap stack)
  | P_FAILWITH => no_args args (tc_failwith stack)
  | P_NEVER => no_args args (tc_never stack)
  | P_UNIT => no_args args (tc_context I_Unit T_Unit stack)
  | P_CAR => no_args args (tc_car stack)
  | P_CDR => no_args args (tc_cdr stack)
  | P_PAIR => tc_pair args stack
  | P_UNPAIR => tc_unpair args stack
  | P_SOME => no_args args (tc_some stack)
  | P_NONE => tc_none args stack
  | P_COMPARE => no_args args (tc_compare stack)
  | P_AMOUNT => no_args args (tc_context I_Amount T_Mutez stack)
  | P_NIL => tc_nil args stack
  | P_CONS => no_args args (tc_cons stack)
  | P_CONCAT => no_args args (tc_concat stack)
  | P_EMPTY_SET => tc_empty_set args stack
  | P_EMPTY_BIG_MAP => tc_empty_big_map args stack
  | P_MEM => no_args args (tc_mem stack)
  | P_GET => tc_get args stack
  | P_UPDATE => tc_update args stack
  | P_GET_AND_UPDATE => no_args args (tc_get_and_update stack)
  | P_SIZE => no_args args (tc_size stack)
  | P_SLICE => no_args args (tc_slice stack)
  | P_LEFT => tc_left args stack
  | P_RIGHT => tc_right args stack
  | P_CHAIN_ID => no_args args (tc_context I_ChainId T_ChainId stack)
  | P_SELF => no_args args (tc_self anns stack)
  | P_PACK => no_args args (tc_pack stack)
  | P_UNPACK => tc_unpack args stack
  | P_TRANSFER_TOKENS => no_args args (tc_transfer_tokens stack)
  | P_SET_DELEGATE => no_args args (tc_set_delegate stack)
  | P_CHECK_SIGNATURE => no_args args (tc_check_signature stack)
  | P_ADDRESS => no_args args (tc_address stack)
  | P_LAMBDA => tc_lambda false args stack
  | P_LAMBDA_REC => tc_lambda true args stack
  | P_EXEC => no_args args (tc_exec stack)
  | P_APPLY => no_args args (tc_apply stack)
  | P_HASH_KEY => no_args args (tc_hash_key stack)
  | P_TICKET => no_args args (tc_ticket stack)
  | P_READ_TICKET => no_args args (tc_read_ticket stack)
  | P_SPLIT_TICKET => no_args args (tc_split_ticket stack)
  | P_JOIN_TICKETS => no_args args (tc_join_tickets stack)
  | P_BLAKE2B => no_args args (tc_hash p I_Blake2b stack)
  | P_KECCAK => no_args args (tc_hash p I_Keccak stack)
  | P_SHA256 => no_args args (tc_hash p I_Sha256 stack)
  | P_SHA3 => no_args args (tc_hash p I_Sha3 stack)
  | P_SHA512 => no_args args (tc_hash p I_Sha512 stack)
  | P_BALANCE => no_args args (tc_context I_Balance T_Mutez stack)
  | P_CONTRACT => tc_contract args anns stack
  | P_LEVEL => no_args args (tc_context I_Level T_Nat stack)
  | P_MIN_BLOCK_TIME => no_args args (tc_context I_MinBlockTime T_Nat stack)
  | P_SELF_ADDRESS => no_args args (tc_context I_SelfAddress T_Address stack)
  | P_SENDER => no_args args (tc_context I_Sender T_Address stack)
  | P_SOURCE => no_args args (tc_context I_Source T_Address stack)
  | P_NOW => no_args args (tc_context I_Now T_Timestamp stack)
  | P_IMPLICIT_ACCOUNT => no_args args (tc_implicit_account stack)
  | P_TOTAL_VOTING_POWER => no_args args (tc_context I_TotalVotingPower T_Nat stack)
  | P_VOTING_POWER => no_args args (tc_voting_power stack)
  | P_EMIT => tc_emit args anns stack
  | P_PAIRING_CHECK => no_args args (tc_pairing_check stack)
  | P_CREATE_CONTRACT => tc_create_contract args stack
  | p => if unsupported_instruction p then fail (TE_TodoInstr p) else unexpected_micheline
  end.

(** [typecheck_instruction]: code after a failing instruction is refused before
    any gas is charged. *)
Definition typecheck_instruction_step (opt_stack : FailingTypeStack) : tc_result :=
  stack ← lift (access_mut opt_stack TE_FailNotInTail);
  _ ← tc_consume tc_INSTR_STEP;
  match i with
  | M_App p args anns => typecheck_app p args anns stack
  | M_Seq nested =>
      '(nested, opt_stack) ← typecheck rec_instr nested self_entrypoints opt_stack;
      mret (I_Seq nested, opt_stack)
  | M_Int _ | M_String _ | M_Bytes _ => unexpected_micheline
  end.
End instructions.

(** * Scripts *)

(** The fields of a script, each at most once. *)
Record TopLevel : Type := mkTopLevel {
  tl_parameter : option Micheline;
  tl_storage : option Micheline;
  tl_code : option Micheline
}.

Definition set_if_none {A} (elt : Prim) (var : option A) (value : A) : tcM (option A) :=
  match var with
  | None => mret (Some value)
  | Some _ => fail (TE_DuplicateTopLevelElt elt)
  end.

Fixpoint top_level (seq : list Micheline) (tl : TopLevel) : tcM TopLevel :=
  match seq with
  | [] => mret tl
  | elt :: seq =>
      tl ← match elt with
           | M_App P_code [content] [] =>
               c ← set_if_none P_code (tl_code tl) content;
               mret (mkTopLevel (tl_parameter tl) (tl_storage tl) c)
           | M_App P_parameter [content] [] =>
               p ← set_if_none P_parameter (tl_parameter tl) content;
               mret (mkTopLevel p (tl_storage tl) (tl_code tl))
           | M_App P_storage [content] [] =>
               s ← set_if_none P_storage (tl_storage tl) content;
               mret (mkTopLevel (tl_parameter tl) s (tl_code tl))
           | elt => fail (TE_UnexpectedMicheline elt)
           end;
      top_level seq tl
  end.

Definition missing {A} (elt : Prim) (o : option A) : tcM A := lift (ok_or (TE_MissingTopLevelElt elt) o).

(** [Micheline::typecheck_script]. *)
Definition typecheck_script_step
    (rec_instr : Micheline -> option Entrypoints -> FailingTypeStack -> tc_result)
    (script : Micheline) : tcM ContractScript :=
  seq ← match script with
        | M_Seq [M_Seq seq] => mret seq
        | M_Seq seq => mret seq
        | x => fail (TE_UnexpectedMicheline x)
        end;
  tl ← top_level seq (mkTopLevel None None None);
  parameter_ty ← missing P_parameter (tl_parameter tl);
  '(entrypoints, parameter) ← parse_parameter_ty_with_entrypoints parameter_ty;
  storage_ty ← missing P_storage (tl_storage tl);
  storage ← parse_ty storage_ty;
  _ ← ensure_prop Passable parameter;
  _ ← ensure_prop Storable storage;
  code ← missing P_code (tl_code tl);
  '(code, stack) ← rec_instr code (Some entrypoints) (FOk [T_Pair parameter storage]);
  _ ← unify_stacks (FOk [T_Pair (T_List T_Operation) storage]) stack;
  mret (mkContractScript parameter storage code).

(** * Recursion

    One unit of fuel per call of [typecheck_value] and [typecheck_instruction];
    each charges gas.  [typecheck_script], called by [CREATE_CONTRACT], charges
    gas for parsing the parameter type before it calls back. *)
Section fuel.
Context {X : External}.

Fixpoint typecheck_value (fuel : nat) (v : Micheline) (t : Type_) {struct fuel} : tcM TypedValue :=
  match fuel with
  | 0 => diverge
  | S fuel => typecheck_value_step (typecheck_value fuel) (typecheck_instruction fuel) v t
  end
with typecheck_instruction (fuel : nat) (i : Micheline) (self_entrypoints : option Entrypoints)
    (opt_stack : FailingTypeStack) {struct fuel} : tc_result :=
  match fuel with
  | 0 => diverge
  | S fuel =>
      typecheck_instruction_step (typecheck_value fuel) (typecheck_instruction fuel)
        (typecheck_script_step (typecheck_instruction fuel)) i self_entrypoints opt_stack
  end.

Definition typecheck_script (fuel : nat) (script : Micheline) : tcM ContractScript :=
  typecheck_script_step (typecheck_instruction fuel) script.

(** [Micheline::typecheck_value]. *)
Definition Micheline_typecheck_value (fuel : nat) (v value_type : Micheline) : tcM TypedValue :=
  ty ← parse_ty value_type;
  typecheck_value fuel v ty.

(** [Micheline::typecheck_instruction]; the stack is given with its top last. *)
Definition Micheline_typecheck_instruction (fuel : nat) (i : Micheline) (self_type : option Micheline)
    (stack : list Micheline) : tcM Instruction :=
  entrypoints ← match self_type with
                | None => mret None
                | Some ty =>
                    '(eps, ty) ← parse_parameter_ty_with_entrypoints ty;
                    _ ← ensure_prop Passable ty;
                    mret (Some eps)
                end;
  checked_stack ← mapM parse_ty stack;
  '(i, _) ← typecheck_instruction fuel i entrypoints (FOk (reverse checked_stack));
  mret i.

(** [Micheline::get_entrypoints]. *)
Definition get_entrypoints (ty : Micheline) : tcM Entrypoints :=
  '(eps, _) ← parse_parameter_ty_with_entrypoints ty; mret eps.
End fuel.
