(* ===== verification/Typing.v ===== *)
(** A declarative type system for typed Michelson.

    What the annotations and comments of [contrib/mir/src] take for granted about
    the output of the typechecker, stated independently of it: which values inhabit
    a type, and which instruction takes which stack to which stack.
    [TypecheckerSound] shows the typechecker establishes it and [InterpreterSound]
    that the interpreter relies on nothing else.

    The environment [tenv] holds what typing refers to outside the program: the
    types of the big maps of the storage, the contracts that can be addressed, and
    whether the fragment is [strict].  The strict fragment leaves out [UNPACK] and
    [CONTRACT], which swallow errors of the typechecker, and [TICKET] on contents
    that are not comparable. *)

From S2P Require Import Prelude Syntax Comparable Gas BigMap Stack External ByteRepr Serializer Context.
From S2P Require Import TypeProps Typechecker.

#[local] Set Warnings "-register-all".

Record tenv : Type := mkEnv {
  e_strict : bool;
  e_big_maps : BigMapId -> option (Type_ * Type_);
  e_contract : Address -> Type_ -> Prop
}.

(** Types the typechecker can have parsed: keys of containers and contents of
    tickets are comparable. *)
Fixpoint ty_wf (t : Type_) : bool :=
  match t with
  | T_Pair a b | T_Or a b | T_Lambda a b => ty_wf a && ty_wf b
  | T_Option t | T_List t | T_Contract t => ty_wf t
  | T_Set k | T_Ticket k => comparable k && ty_wf k
  | T_Map k v | T_BigMap k v => comparable k && ty_wf k && ty_wf v
  | _ => true
  end.

(** A stack after a failing instruction fits anywhere. *)
Definition fle (f g : FailingTypeStack) : Prop := f = Failed \/ f = g.

Definition mutez_ok (z : Z) : Prop := (0 <= z < 2 ^ 63)%Z.

(** Instructions that take and leave fixed types. *)
Definition simple_sig (i : Instruction) : option (list Type_ * list Type_) :=
  match i with
  | I_Add o => Some
      match o with
      | Add_IntInt => ([T_Int; T_Int], [T_Int])
      | Add_NatNat => ([T_Nat; T_Nat], [T_Nat])
      | Add_IntNat => ([T_Int; T_Nat], [T_Int])
      | Add_NatInt => ([T_Nat; T_Int], [T_Int])
      | Add_MutezMutez => ([T_Mutez; T_Mutez], [T_Mutez])
      | Add_Bls12381G1 => ([T_Bls12381G1; T_Bls12381G1], [T_Bls12381G1])
      | Add_Bls12381G2 => ([T_Bls12381G2; T_Bls12381G2], [T_Bls12381G2])
      | Add_Bls12381Fr => ([T_Bls12381Fr; T_Bls12381Fr], [T_Bls12381Fr])
      end
  | I_Mul o => Some
      match o with
      | Mul_NatNat => ([T_Nat; T_Nat], [T_Nat])
      | Mul_NatInt => ([T_Nat; T_Int], [T_Int])
      | Mul_IntNat => ([T_Int; T_Nat], [T_Int])
      | Mul_IntInt => ([T_Int; T_Int], [T_Int])
      | Mul_MutezNat => ([T_Mutez; T_Nat], [T_Mutez])
      | Mul_NatMutez => ([T_Nat; T_Mutez], [T_Mutez])
      | Mul_Bls12381G1Bls12381Fr => ([T_Bls12381G1; T_Bls12381Fr], [T_Bls12381G1])
      | Mul_Bls12381G2Bls12381Fr => ([T_Bls12381G2; T_Bls12381Fr], [T_Bls12381G2])
      | Mul_Bls12381FrBls12381Fr => ([T_Bls12381Fr; T_Bls12381Fr], [T_Bls12381Fr])
      | Mul_NatBls12381Fr => ([T_Nat; T_Bls12381Fr], [T_Bls12381Fr])
      | Mul_IntBls12381Fr => ([T_Int; T_Bls12381Fr], [T_Bls12381Fr])
      | Mul_Bls12381FrNat => ([T_Bls12381Fr; T_Nat], [T_Bls12381Fr])
      | Mul_Bls12381FrInt => ([T_Bls12381Fr; T_Int], [T_Bls12381Fr])
      end
  | I_Neg o => Some
      match o with
      | Neg_Nat => ([T_Nat], [T_Int])
      | Neg_Int => ([T_Int], [T_Int])
      | Neg_Bls12381G1 => ([T_Bls12381G1], [T_Bls12381G1])
      | Neg_Bls12381G2 => ([T_Bls12381G2], [T_Bls12381G2])
      | Neg_Bls12381Fr => ([T_Bls12381Fr], [T_Bls12381Fr])
      end
  | I_SubMutez => Some ([T_Mutez; T_Mutez], [T_Option T_Mutez])
  | I_And o => Some
      match o with
      | And_Bool => ([T_Bool; T_Bool], [T_Bool])
      | And_NatNat => ([T_Nat; T_Nat], [T_Nat])
      | And_IntNat => ([T_Int; T_Nat], [T_Nat])
      | And_Bytes => ([T_Bytes; T_Bytes], [T_Bytes])
      end
  | I_Or o => Some
      match o with
      | Or_Bool => ([T_Bool; T_Bool], [T_Bool])
      | Or_Nat => ([T_Nat; T_Nat], [T_Nat])
      | Or_Bytes => ([T_Bytes; T_Bytes], [T_Bytes])
      end
  | I_Xor o => Some
      match o with
      | Xor_Bool => ([T_Bool; T_Bool], [T_Bool])
      | Xor_Nat => ([T_Nat; T_Nat], [T_Nat])
      | Xor_Bytes => ([T_Bytes; T_Bytes], [T_Bytes])
      end
  | I_Not o => Some
      match o with
      | Not_Bool => ([T_Bool], [T_Bool])
      | Not_Int => ([T_Int], [T_Int])
      | Not_Nat => ([T_Nat], [T_Int])
      | Not_Bytes => ([T_Bytes], [T_Bytes])
      end
  | I_Gt | I_Ge | I_Eq | I_Neq | I_Lt | I_Le => Some ([T_Int], [T_Bool])
  | I_Int o => Some
      match o with
      | Int_Nat => ([T_Nat], [T_Int])
      | Int_Bls12381Fr => ([T_Bls12381Fr], [T_Int])
      | Int_Bytes => ([T_Bytes], [T_Int])
      end
  | I_Nat => Some ([T_Bytes], [T_Nat])
  | I_Bytes o => Some
      match o with
      | Bytes_Int => ([T_Int], [T_Bytes])
      | Bytes_Nat => ([T_Nat], [T_Bytes])
      end
  | I_Abs => Some ([T_Int], [T_Nat])
  | I_IsNat => Some ([T_Int], [T_Option T_Nat])
  | I_Unit => Some ([], [T_Unit])
  | I_Concat o => Some
      match o with
      | Concat_TwoStrings => ([T_String; T_String], [T_String])
      | Concat_TwoBytes => ([T_Bytes; T_Bytes], [T_Bytes])
      | Concat_ListOfStrings => ([T_List T_String], [T_String])
      | Concat_ListOfBytes => ([T_List T_Bytes], [T_Bytes])
      end
  | I_Size Size_String => Some ([T_String], [T_Nat])
  | I_Size Size_Bytes => Some ([T_Bytes], [T_Nat])
  | I_Slice Slice_String => Some ([T_Nat; T_Nat; T_String], [T_Option T_String])
  | I_Slice Slice_Bytes => Some ([T_Nat; T_Nat; T_Bytes], [T_Option T_Bytes])
  | I_CheckSignature => Some ([T_Key; T_Signature; T_Bytes], [T_Bool])
  | I_HashKey => Some ([T_Key], [T_KeyHash])
  | I_Blake2b | I_Keccak | I_Sha256 | I_Sha3 | I_Sha512 => Some ([T_Bytes], [T_Bytes])
  | I_PairingCheck => Some ([T_List (T_Pair T_Bls12381G1 T_Bls12381G2)], [T_Bool])
  | I_SetDelegate => Some ([T_Option T_KeyHash], [T_Operation])
  | I_ImplicitAccount => Some ([T_KeyHash], [T_Contract T_Unit])
  | I_VotingPower => Some ([T_KeyHash], [T_Nat])
  | I_Amount | I_Balance => Some ([], [T_Mutez])
  | I_ChainId => Some ([], [T_ChainId])
  | I_Level | I_MinBlockTime | I_TotalVotingPower => Some ([], [T_Nat])
  | I_SelfAddress | I_Sender | I_Source => Some ([], [T_Address])
  | I_Now => Some ([], [T_Timestamp])
  | _ => None
  end.

(** Element types of the collections [ITER] and [MAP] run over. *)
Definition iter_elt (o : ov_Iter) (t : Type_) : option Type_ :=
  match o, t with
  | Iter_List, T_List t => Some t
  | Iter_Set, T_Set t => Some t
  | Iter_Map, T_Map k v => Some (T_Pair k v)
  | _, _ => None
  end.
Definition map_elt (o : ov_Map) (t : Type_) : option (Type_ * (Type_ -> Type_)) :=
  match o, t with
  | Map_List, T_List t => Some (t, T_List)
  | Map_Option, T_Option t => Some (t, T_Option)
  | Map_Map, T_Map k v => Some (T_Pair k v, T_Map k)
  | _, _ => None
  end.

Section typing.
Context (env : tenv).

Inductive value_typed : TypedValue -> Type_ -> Prop :=
  | VT_Int z : value_typed (V_Int z) T_Int
  | VT_Nat n : value_typed (V_Nat n) T_Nat
  | VT_Mutez z : mutez_ok z -> value_typed (V_Mutez z) T_Mutez
  | VT_Bool b : value_typed (V_Bool b) T_Bool
  | VT_String s : value_typed (V_String s) T_String
  | VT_Unit : value_typed V_Unit T_Unit
  | VT_Pair l r tl tr : value_typed l tl -> value_typed r tr -> value_typed (V_Pair l r) (T_Pair tl tr)
  | VT_None t : value_typed (V_Option None) (T_Option t)
  | VT_Some v t : value_typed v t -> value_typed (V_Option (Some v)) (T_Option t)
  | VT_List l t : Forall (fun v => value_typed v t) l -> value_typed (V_List l) (T_List t)
  | VT_Set l t :
      comparable t = true -> Forall (fun v => value_typed v t) l -> bt_sorted (fun x => x) l ->
      value_typed (V_Set l) (T_Set t)
  | VT_Map m k v :
      comparable k = true -> Forall (fun e => value_typed e.1 k /\ value_typed e.2 v) m -> bt_sorted fst m ->
      value_typed (V_Map m) (T_Map k v)
  | VT_BigMap id ov k v :
      comparable k = true ->
      Forall (fun e => value_typed e.1 k /\ forall x, e.2 = Some x -> value_typed x v) ov ->
      bt_sorted fst ov ->
      (forall i, id = Some i -> e_big_maps env i = Some (k, v)) ->
      value_typed (V_BigMap (mkBigMap id ov k v)) (T_BigMap k v)
  | VT_Left x a b : value_typed x a -> value_typed (V_Or (Or_Left x)) (T_Or a b)
  | VT_Right x a b : value_typed x b -> value_typed (V_Or (Or_Right x)) (T_Or a b)
  | VT_Address a : value_typed (V_Address a) T_Address
  | VT_ChainId c : value_typed (V_ChainId c) T_ChainId
  | VT_Contract a t : e_contract env a t -> value_typed (V_Contract a) (T_Contract t)
  | VT_Bytes b : value_typed (V_Bytes b) T_Bytes
  | VT_Key k : value_typed (V_Key k) T_Key
  | VT_Signature s : value_typed (V_Signature s) T_Signature
  | VT_Lambda c a b : closure_typed c a b -> value_typed (V_Lambda c) (T_Lambda a b)
  | VT_KeyHash k : value_typed (V_KeyHash k) T_KeyHash
  | VT_Operation o n : operation_typed o -> value_typed (V_Operation (mkOperationInfo o n)) T_Operation
  | VT_Ticket a v n t :
      value_typed v t -> (e_strict env = true -> comparable t = true) ->
      value_typed (V_Ticket (mkTicket a v n)) (T_Ticket t)
  | VT_Timestamp z : value_typed (V_Timestamp z) T_Timestamp
  | VT_Fr x : value_typed (V_Bls12381Fr x) T_Bls12381Fr
  | VT_G1 x : value_typed (V_Bls12381G1 x) T_Bls12381G1
  | VT_G2 x : value_typed (V_Bls12381G2 x) T_Bls12381G2
with closure_typed : Closure -> Type_ -> Type_ -> Prop :=
  | CT_Lambda l a b : lambda_typed l a b -> closure_typed (Closure_Lambda l) a b
  | CT_Apply t v c a b :
      value_typed v t -> closure_typed c (T_Pair t a) b -> closure_typed (Closure_Apply t v c) a b
with lambda_typed : Lambda -> Type_ -> Type_ -> Prop :=
  | LT_Lambda m code a b f :
      block_typed None code [a] f -> fle f (FOk [b]) -> lambda_typed (Lambda_Lambda m code) a b
  | LT_LambdaRec m code a b f :
      block_typed None code [a; T_Lambda a b] f -> fle f (FOk [b]) ->
      lambda_typed (Lambda_LambdaRec a b m code) a b
(** A transfer fits its destination, an origination its initial storage. *)
with operation_typed : Operation -> Prop :=
  | OT_TransferTokens v a n t :
      value_typed v t -> e_contract env a t -> mutez_ok n -> operation_typed (Op_TransferTokens v a n)
  | OT_SetDelegate k : operation_typed (Op_SetDelegate k)
  | OT_Emit tag v ty t : value_typed v t -> operation_typed (Op_Emit tag v ty)
  | OT_CreateContract d n v cs m eps :
      mutez_ok n -> value_typed v (cs_storage cs) -> script_typed eps cs ->
      operation_typed (Op_CreateContract d n v cs m)
with script_typed : Entrypoints -> ContractScript -> Prop :=
  | ST_Script eps p s code f :
      ty_wf p = true -> ty_wf s = true ->
      instr_typed (Some eps) code [T_Pair p s] f -> fle f (FOk [T_Pair (T_List T_Operation) s]) ->
      script_typed eps (mkContractScript p s code)
with instr_typed : option Entrypoints -> Instruction -> TypeStack -> FailingTypeStack -> Prop :=
  | IT_Simple self i ins outs s :
      simple_sig i = Some (ins, outs) -> instr_typed self i (ins ++ s) (FOk (outs ++ s))
  | IT_Dip self n nested top s s' :
      length top = default 1 n -> block_typed self nested s (FOk s') ->
      instr_typed self (I_Dip n nested) (top ++ s) (FOk (top ++ s'))
  | IT_Drop self n top s : length top = default 1 n -> instr_typed self (I_Drop n) (top ++ s) (FOk s)
  | IT_Dup self n i t s : default 1 n = S i -> s !! i = Some t -> instr_typed self (I_Dup n) s (FOk (t :: s))
  | IT_Dig0 self s : instr_typed self (I_Dig 0) s (FOk s)
  | IT_Dig self n top t s :
      length top = n -> 0 < n -> instr_typed self (I_Dig n) (top ++ t :: s) (FOk (t :: top ++ s))
  | IT_Dug0 self s : instr_typed self (I_Dug 0) s (FOk s)
  | IT_Dug self n top t s :
      length top = n -> 0 < n -> instr_typed self (I_Dug n) (t :: top ++ s) (FOk (top ++ t :: s))
  | IT_Swap self a b s : instr_typed self I_Swap (a :: b :: s) (FOk (b :: a :: s))
  | IT_If self t f s f1 f2 g :
      block_typed self t s f1 -> block_typed self f s f2 -> fle f1 g -> fle f2 g ->
      instr_typed self (I_If t f) (T_Bool :: s) g
  | IT_IfNone self n m t s f1 f2 g :
      block_typed self n s f1 -> block_typed self m (t :: s) f2 -> fle f1 g -> fle f2 g ->
      instr_typed self (I_IfNone n m) (T_Option t :: s) g
  | IT_IfCons self c n t s f1 f2 g :
      block_typed self c (t :: T_List t :: s) f1 -> block_typed self n s f2 -> fle f1 g -> fle f2 g ->
      instr_typed self (I_IfCons c n) (T_List t :: s) g
  | IT_IfLeft self l r a b s f1 f2 g :
      block_typed self l (a :: s) f1 -> block_typed self r (b :: s) f2 -> fle f1 g -> fle f2 g ->
      instr_typed self (I_IfLeft l r) (T_Or a b :: s) g
  | IT_Loop self nested s f :
      block_typed self nested s f -> fle f (FOk (T_Bool :: s)) ->
      instr_typed self (I_Loop nested) (T_Bool :: s) (FOk s)
  | IT_LoopLeft self nested a b s f :
      block_typed self nested (a :: s) f -> fle f (FOk (T_Or a b :: s)) ->
      instr_typed self (I_LoopLeft nested) (T_Or a b :: s) (FOk (b :: s))
  | IT_Iter self o nested t elt s f :
      iter_elt o t = Some elt -> block_typed self nested (elt :: s) f -> fle f (FOk s) ->
      instr_typed self (I_Iter o nested) (t :: s) (FOk s)
  | IT_Map self o nested t elt con t2 s :
      map_elt o t = Some (elt, con) -> block_typed self nested (elt :: s) (FOk (t2 :: s)) ->
      instr_typed self (I_Map o nested) (t :: s) (FOk (con t2 :: s))
  | IT_Push self v t s : value_typed v t -> instr_typed self (I_Push v) s (FOk (t :: s))
  | IT_Failwith self t s : instr_typed self (I_Failwith t) (t :: s) Failed
  | IT_Never self s : instr_typed self I_Never (T_Never :: s) Failed
  | IT_Car self a b s : instr_typed self I_Car (T_Pair a b :: s) (FOk (a :: s))
  | IT_Cdr self a b s : instr_typed self I_Cdr (T_Pair a b :: s) (FOk (b :: s))
  | IT_Pair self a b s : instr_typed self I_Pair (a :: b :: s) (FOk (T_Pair a b :: s))
  | IT_PairN self n top t s :
      length top = n -> 2 <= n -> comb T_Pair top = Some t ->
      instr_typed self (I_PairN n) (top ++ s) (FOk (t :: s))
  | IT_Unpair self a b s : instr_typed self I_Unpair (T_Pair a b :: s) (FOk (a :: b :: s))
  | IT_UnpairN self n top t s :
      length top = n -> 2 <= n -> comb T_Pair top = Some t ->
      instr_typed self (I_UnpairN n) (t :: s) (FOk (top ++ s))
  | IT_ISome self t s : instr_typed self I_ISome (t :: s) (FOk (T_Option t :: s))
  | IT_None self t s : instr_typed self I_None s (FOk (T_Option t :: s))
  | IT_Nil self t s : instr_typed self I_Nil s (FOk (T_List t :: s))
  | IT_Cons self t s : instr_typed self I_Cons (t :: T_List t :: s) (FOk (T_List t :: s))
  | IT_EmptySet self t s : comparable t = true -> instr_typed self I_EmptySet s (FOk (T_Set t :: s))
  | IT_EmptyBigMap self k v s :
      comparable k = true -> instr_typed self (I_EmptyBigMap k v) s (FOk (T_BigMap k v :: s))
  | IT_Compare self t s : comparable t = true -> instr_typed self I_Compare (t :: t :: s) (FOk (T_Int :: s))
  | IT_MemSet self t s : instr_typed self (I_Mem Mem_Set) (t :: T_Set t :: s) (FOk (T_Bool :: s))
  | IT_MemMap self k v s : instr_typed self (I_Mem Mem_Map) (k :: T_Map k v :: s) (FOk (T_Bool :: s))
  | IT_MemBigMap self k v s : instr_typed self (I_Mem Mem_BigMap) (k :: T_BigMap k v :: s) (FOk (T_Bool :: s))
  | IT_GetMap self k v s : instr_typed self (I_Get Get_Map) (k :: T_Map k v :: s) (FOk (T_Option v :: s))
  | IT_GetBigMap self k v s : instr_typed self (I_Get Get_BigMap) (k :: T_BigMap k v :: s) (FOk (T_Option v :: s))
  | IT_GetN self n t r s : get_nth_field_ty n t = inl r -> instr_typed self (I_GetN n) (t :: s) (FOk (r :: s))
  | IT_UpdateSet self t s :
      instr_typed self (I_Update Update_Set) (t :: T_Bool :: T_Set t :: s) (FOk (T_Set t :: s))
  | IT_UpdateMap self k v s :
      instr_typed self (I_Update Update_Map) (k :: T_Option v :: T_Map k v :: s) (FOk (T_Map k v :: s))
  | IT_UpdateBigMap self k v s :
      instr_typed self (I_Update Update_BigMap) (k :: T_Option v :: T_BigMap k v :: s) (FOk (T_BigMap k v :: s))
  | IT_UpdateN self n a t r s :
      get_nth_field_ty n t = inl r ->
      instr_typed self (I_UpdateN n) (a :: t :: s) (FOk (set_nth_field_ty n t a :: s))
  | IT_GetAndUpdateMap self k v s :
      instr_typed self (I_GetAndUpdate GetAndUpdate_Map) (k :: T_Option v :: T_Map k v :: s)
        (FOk (T_Option v :: T_Map k v :: s))
  | IT_GetAndUpdateBigMap self k v s :
      instr_typed self (I_GetAndUpdate GetAndUpdate_BigMap) (k :: T_Option v :: T_BigMap k v :: s)
        (FOk (T_Option v :: T_BigMap k v :: s))
  | IT_SizeList self t s : instr_typed self (I_Size Size_List) (T_List t :: s) (FOk (T_Nat :: s))
  | IT_SizeSet self t s : instr_typed self (I_Size Size_Set) (T_Set t :: s) (FOk (T_Nat :: s))
  | IT_SizeMap self k v s : instr_typed self (I_Size Size_Map) (T_Map k v :: s) (FOk (T_Nat :: s))
  | IT_Left self a b s : instr_typed self I_Left (a :: s) (FOk (T_Or a b :: s))
  | IT_Right self a b s : instr_typed self I_Right (b :: s) (FOk (T_Or a b :: s))
  | IT_Lambda self l a b s : lambda_typed l a b -> instr_typed self (I_Lambda l) s (FOk (T_Lambda a b :: s))
  | IT_Exec self a b s : instr_typed self I_Exec (a :: T_Lambda a b :: s) (FOk (b :: s))
  | IT_Apply self t a b s :
      instr_typed self (I_Apply t) (t :: T_Lambda (T_Pair t a) b :: s) (FOk (T_Lambda a b :: s))
  | IT_ISelf eps ep t s :
      eps !! ep = Some t -> instr_typed (Some eps) (I_ISelf ep) s (FOk (T_Contract t :: s))
  | IT_Address self t s : instr_typed self I_Address (T_Contract t :: s) (FOk (T_Address :: s))
  | IT_Pack self t s : instr_typed self I_Pack (t :: s) (FOk (T_Bytes :: s))
  | IT_Unpack self t s :
      e_strict env = false -> ty_wf t = true ->
      instr_typed self (I_Unpack t) (T_Bytes :: s) (FOk (T_Option t :: s))
  | IT_Contract self t ep s :
      e_strict env = false ->
      instr_typed self (I_Contract t ep) (T_Address :: s) (FOk (T_Option (T_Contract t) :: s))
  | IT_TransferTokens self t s :
      instr_typed self I_TransferTokens (t :: T_Mutez :: T_Contract t :: s) (FOk (T_Operation :: s))
  | IT_Ticket self t s :
      (e_strict env = true -> comparable t = true) ->
      instr_typed self I_Ticket (t :: T_Nat :: s) (FOk (T_Option (T_Ticket t) :: s))
  | IT_ReadTicket self t s :
      instr_typed self I_ReadTicket (T_Ticket t :: s)
        (FOk (T_Pair T_Address (T_Pair t T_Nat) :: T_Ticket t :: s))
  | IT_SplitTicket self t s :
      instr_typed self I_SplitTicket (T_Ticket t :: T_Pair T_Nat T_Nat :: s)
        (FOk (T_Option (T_Pair (T_Ticket t) (T_Ticket t)) :: s))
  | IT_JoinTickets self t s :
      instr_typed self I_JoinTickets (T_Pair (T_Ticket t) (T_Ticket t) :: s) (FOk (T_Option (T_Ticket t) :: s))
  | IT_Emit self tag ty t s : instr_typed self (I_Emit tag ty) (t :: s) (FOk (T_Operation :: s))
  | IT_CreateContract self cs m eps s :
      script_typed eps cs ->
      instr_typed self (I_CreateContract cs m) (T_Option T_KeyHash :: T_Mutez :: cs_storage cs :: s)
        (FOk (T_Operation :: T_Address :: s))
  | IT_Seq self l s f : block_typed self l s f -> instr_typed self (I_Seq l) s f
with block_typed : option Entrypoints -> list Instruction -> TypeStack -> FailingTypeStack -> Prop :=
  | BT_nil self s : block_typed self [] s (FOk s)
  | BT_cons self i l s s' f :
      instr_typed self i s (FOk s') -> block_typed self l s' f -> block_typed self (i :: l) s f
  | BT_fail self i s : instr_typed self i s Failed -> block_typed self [i] s Failed.


(** What a stack that was actually reached satisfies. *)
Definition post (f : FailingTypeStack) (st : list TypedValue) : Prop :=
  match f with FOk s => Forall2 value_typed st s | Failed => False end.

End typing.

Abbreviation stack_typed env := (Forall2 (value_typed env)).

(** * Facts *)

Lemma fle_refl f : fle f f.
Proof. by right. Qed.
Lemma fle_failed f : fle Failed f.
Proof. by left. Qed.
Create HintDb typing.
#[export] Hint Resolve fle_refl fle_failed : typing.
#[export] Hint Constructors value_typed closure_typed lambda_typed operation_typed Forall2 : typing.

Lemma fle_post env f g st : fle f g -> post env f st -> post env g st.
Proof. by intros [->| ->]. Qed.

(** Case analysis on typed stacks and on values of a known type. *)
Ltac inv_stack :=
  repeat match goal with
  | H : Forall2 _ _ [] |- _ => apply Forall2_nil_inv_r in H as ->
  | H : Forall2 _ _ (_ :: _) |- _ =>
      let v := fresh "v" in let st := fresh "st" in let Hv := fresh "Hv" in
      apply Forall2_cons_inv_r in H as (v&st&Hv&?&->)
  | H : Forall2 _ _ (_ ++ _) |- _ =>
      let a := fresh "st" in let b := fresh "st" in
      apply Forall2_app_inv_r in H as (a&b&?&?&->)
  end.
Ltac inv_value :=
  repeat match goal with
  | H : value_typed _ _ ?t |- _ =>
      lazymatch t with
      | T_Nat => idtac | T_Int => idtac | T_Bool => idtac | T_Mutez => idtac | T_String => idtac
      | T_Unit => idtac | T_Never => idtac | T_Pair _ _ => idtac | T_Option _ => idtac | T_List _ => idtac
      | T_Operation => idtac | T_Set _ => idtac | T_Map _ _ => idtac | T_BigMap _ _ => idtac
      | T_Or _ _ => idtac | T_Contract _ => idtac | T_Address => idtac | T_ChainId => idtac
      | T_Bytes => idtac | T_Key => idtac | T_Signature => idtac | T_KeyHash => idtac
      | T_Lambda _ _ => idtac | T_Ticket _ => idtac | T_Timestamp => idtac
      | T_Bls12381Fr => idtac | T_Bls12381G1 => idtac | T_Bls12381G2 => idtac
      end; inversion H; clear H; subst
  end.
Ltac inv_typed := cbn [app] in *; inv_stack; inv_value.

(** Values of a comparable type are comparable. *)
Lemma value_typed_comparable env t v :
  value_typed env v t -> comparable t = true -> comparable_value t v = true.
Proof.
  revert v. induction t; intros v Hv Hc; try discriminate Hc; inv_value; try reflexivity; cbn in *;
    try apply andb_true_iff in Hc as [? ?]; rewrite ?andb_true_iff; auto.
Qed.
#[export] Hint Resolve value_typed_comparable : typing.

Lemma comb_length {A} pair (l : list A) x : comb pair l = Some x -> l <> [].
Proof. by destruct l. Qed.

(** A right comb of values has the right comb of their types. *)
Lemma comb_typed env vs ts t :
  Forall2 (value_typed env) vs ts -> comb T_Pair ts = Some t ->
  exists v, comb V_Pair vs = Some v /\ value_typed env v t.
Proof.
  intros H. revert t. induction H as [|v t' vs ts Hv Hvs IH]; intros t Ht; [done|].
  destruct Hvs as [|v2 t2 vs ts Hv2 Hvs]; cbn in Ht.
  { injection Ht as <-. eauto. }
  change (T_Pair t' <$> comb T_Pair (t2 :: ts) = Some t) in Ht.
  destruct (comb T_Pair (t2 :: ts)) as [t3|] eqn:E; [|done]. injection Ht as <-.
  destruct (IH _ eq_refl) as (w&Hw&Hwt). exists (V_Pair v w). split; [|by constructor].
  change (V_Pair v <$> comb V_Pair (v2 :: vs) = Some (V_Pair v w)). by rewrite Hw.
Qed.

(** * The surroundings of a run *)

(** The storage serves the big maps typing knows about, with typed values; amounts
    are in range; contracts found by [lookup_contract] can be addressed. *)
Record ctx_typed (env : tenv) (c : Ctx) : Prop := {
  ct_amount : mutez_ok (amount c);
  ct_balance : mutez_ok (balance c);
  ct_get id k kt vt :
    e_big_maps env id = Some (kt, vt) -> comparable kt = true -> value_typed env k kt ->
    match dyn_get (big_map_storage c) id k with
    | Ok (Some v) => value_typed env v vt
    | Ok None | Err _ => True
    | Panic _ | Diverge => False
    end;
  ct_mem id k kt vt :
    e_big_maps env id = Some (kt, vt) -> comparable kt = true -> value_typed env k kt ->
    cost_safe (dyn_mem (big_map_storage c) id k);
  ct_get_type id :
    match dyn_get_type (big_map_storage c) id with
    | Ok (Some tys) => e_big_maps env id = Some tys
    | Ok None | Err _ => True
    | Panic _ | Diverge => False
    end;
  ct_lookup h eps ep t :
    lookup_contract c h = Some eps -> eps !! ep = Some t ->
    match h with Implicit _ => True | _ => e_contract env (mkAddress h ep) t end;
  ct_implicit k t :
    match t with T_Unit | T_Ticket _ => e_contract env (mkAddress (Implicit k) default_ep) t | _ => True end
}.

(** [SELF] yields addressable contracts. *)
Definition self_ok (env : tenv) (c : Ctx) (self : option Entrypoints) : Prop :=
  forall eps ep t, self = Some eps -> eps !! ep = Some t -> e_contract env (mkAddress (self_address c) ep) t.
