(* ===== verification/TypecheckerSound.v ===== *)
(** Soundness and termination of the typechecker.

    Whatever the typechecker accepts is typed in the declarative system of
    [Typing]: values inhabit the type they were checked against, instructions take
    the input stack to the output stack.  The proofs are [triple]s, so they also
    give that fuel above the available milligas is enough and that the only panics
    are the out-of-bounds ones of [DIG]/[DUG] and of slicing a short BLS signature. *)

From S2P Require Import Prelude Syntax Comparable Gas BigMap Stack External ByteRepr Serializer Context.
From S2P Require Import TypeProps Typechecker Typing.

(** Primitives outside the strict fragment. *)
Definition strict_prim (p : Prim) : bool :=
  match p with P_UNPACK | P_CONTRACT | P_TICKET => false | _ => true end.
Fixpoint strict_micheline (m : Micheline) : bool :=
  match m with
  | M_App p args _ => strict_prim p && forallb strict_micheline args
  | M_Seq l => forallb strict_micheline l
  | _ => true
  end.

Definition in_fragment (env : tenv) (m : Micheline) : Prop := e_strict env = true -> strict_micheline m = true.

Lemma in_fragment_args env p args anns :
  in_fragment env (M_App p args anns) ->
  (e_strict env = true -> strict_prim p = true) /\ Forall (in_fragment env) args.
Proof.
  unfold in_fragment. cbn. destruct (e_strict env); [|by split; [|apply Forall_true]].
  intros H. specialize (H eq_refl). apply andb_true_iff in H as [? H]. split; [done|].
  apply Is_true_true in H. by apply forallb_True in H; eapply Forall_impl; [exact H|]; intros; apply Is_true_true.
Qed.
Lemma in_fragment_seq env l : in_fragment env (M_Seq l) -> Forall (in_fragment env) l.
Proof. apply (in_fragment_args env P_Pair l []). Qed.

(** * Steps of the typechecker *)

Ltac frag :=
  repeat match goal with
  | H : in_fragment _ (M_App _ _ _) |- _ => apply in_fragment_args in H as [? ?]
  | H : in_fragment _ (M_Seq _) |- _ => apply in_fragment_seq in H
  | H : Forall _ (_ :: _) |- _ => apply Forall_cons in H as [? ?]
  end.

Ltac cstep :=
  first
  [ match goal with |- forall _, _ => intro end
  | match goal with
    | |- triple _ _ _ (tc_consume _) _ _ => apply triple_consume
    | |- triple _ _ _ (tc_consume_cost _) _ _ =>
        apply triple_safe_cost;
          [solve [apply as_gas_cost_safe | auto with gas | apply from_option_cost_safe; intros; apply as_gas_cost_safe]|]
    | |- triple _ _ _ (ensure_prop _ _) _ _ => apply triple_ensure_prop
    | |- triple _ _ _ (lift (ok_or _ _)) _ _ => apply triple_safe_lift; [apply ok_or_safe|]
    | |- triple _ _ _ (no_overload _ _) _ _ => apply triple_fail
    | |- triple _ _ _ (no_overload_because _ _ _) _ _ => apply triple_fail
    | |- triple _ _ _ (too_short _ _ _) _ _ => apply triple_fail
    | |- triple _ _ _ (expected_type _ _ _ _) _ _ => apply triple_fail
    | |- triple _ _ _ (invalid_value_for_type _ _) _ _ => apply triple_fail
    | |- triple _ _ _ (unexpected_micheline _) _ _ => apply triple_fail
    | |- triple _ _ _ (tc_ret _ _) _ _ => apply triple_ret
    end
  | tstep ]; cbn beta iota.
Ltac csteps := repeat cstep.

(** * Helpers and types *)

Section helpers.
Context (P : panic -> Prop) (c0 : Ctx) (D : Prop).
Implicit Types c : Ctx.

Lemma triple_ensure_ty_eq t1 t2 c (Q : unit -> Ctx -> Prop) :
  (forall c', (gas_left c' <= gas_left c)%N -> t1 = t2 -> Q tt c') -> triple P c0 D (ensure_ty_eq t1 t2) c Q.
Proof.
  intros HQ. unfold ensure_ty_eq. csteps. case_decide; csteps. apply HQ; [lia|done].
Qed.

Lemma triple_ensure_tys_eq l1 l2 f c (Q : unit -> Ctx -> Prop) :
  length l1 = length l2 -> (forall c', (gas_left c' <= gas_left c)%N -> l1 = l2 -> Q tt c') ->
  triple P c0 D (ensure_tys_eq l1 l2 f) c Q.
Proof.
  revert l2 c. induction l1 as [|t1 l1 IH]; intros [|t2 l2] c Hl HQ; try discriminate Hl; cbn.
  { csteps. apply HQ; [lia|done]. }
  csteps. apply triple_ensure_ty_eq. intros c1 Hc1 <- _. injection Hl as Hl.
  apply IH; [done|]. intros c2 Hc2 <-. apply HQ; [lia|done].
Qed.

Lemma triple_ensure_stacks_eq s1 s2 c (Q : unit -> Ctx -> Prop) :
  (forall c', (gas_left c' <= gas_left c)%N -> s1 = s2 -> Q tt c') -> triple P c0 D (ensure_stacks_eq s1 s2) c Q.
Proof.
  intros HQ. unfold ensure_stacks_eq. destruct (Nat.eqb_spec (length s1) (length s2)); cbn; csteps.
  by apply triple_ensure_tys_eq.
Qed.

Lemma triple_unify_stacks dest aux c (Q : FailingTypeStack -> Ctx -> Prop) :
  (forall r c', (gas_left c' <= gas_left c)%N -> fle dest r -> fle aux r -> (dest = Failed -> r = aux) -> Q r c') ->
  triple P c0 D (unify_stacks dest aux) c Q.
Proof.
  intros HQ. unfold unify_stacks. destruct dest as [s1|], aux as [s2|]; csteps;
    try (apply HQ; [lia|auto with typing..|done]).
  apply triple_ensure_stacks_eq. intros c1 Hc1 <- _. csteps. apply HQ; [lia|auto with typing..|done].
Qed.

Lemma triple_validate_u10 n c (Q : nat -> Ctx -> Prop) :
  (forall k, Z.of_nat k = n -> k < 1024 -> Q k c) -> triple P c0 D (validate_u10 n) c Q.
Proof.
  intros HQ. unfold validate_u10. destruct (Z.leb_spec 0 n), (Z.ltb_spec n 65536); cbn; csteps.
  destruct (Z.leb_spec 1024 n); csteps. apply HQ; lia.
Qed.

Lemma triple_ensure_stack_len p s n c (Q : unit -> Ctx -> Prop) :
  (n <= length s -> Q tt c) -> triple P c0 D (ensure_stack_len p s n) c Q.
Proof. intros HQ. unfold ensure_stack_len. destruct (Nat.leb_spec n (length s)); csteps; auto. Qed.

Lemma has_prop_comparable_true t : has_prop Comparable t = true -> comparable t = true.
Proof. by rewrite has_prop_comparable. Qed.

Lemma get_single_field_ann_safe anns : cost_safe (get_single_field_ann anns).
Proof.
  unfold get_single_field_ann. generalize (@None bytes) as res.
  induction anns as [|[] anns IH]; intros res; cbn; auto. destruct res; [done|apply IH].
Qed.

Lemma cost_safe_map_err {E F A} (f : E -> F) (o : outcome E A) : cost_safe o -> cost_safe (map_err f o).
Proof. by destruct o. Qed.

Lemma triple_add_entrypoint t anns eps c (Q : Entrypoints -> Ctx -> Prop) :
  (forall r, Q r c) -> triple P c0 D (add_entrypoint t anns eps) c Q.
Proof.
  intros HQ. unfold add_entrypoint. cstep.
  apply triple_safe_lift; [apply cost_safe_map_err, get_single_field_ann_safe|]. csteps.
  repeat case_match; csteps; apply HQ.
Qed.

Lemma make_pair_wf parse l c :
  Forall (fun m => forall c', triple P c0 D (parse m) c' (fun t _ => ty_wf t = true)) l ->
  triple P c0 D (make_pair parse l) c (fun t _ => ty_wf t = true).
Proof.
  intros Hl. revert c. induction Hl as [|m l Hm Hl IH]; intros c; cbn; [csteps|].
  destruct l as [|m' l]; [apply Hm|]. csteps. eapply triple_mono; [apply Hm|]. csteps.
  eapply triple_mono; [apply IH|]. csteps. cbn. by apply andb_true_iff.
Qed.

Abbreviation parses m := (forall eps c,
  triple P c0 D (parse_ty_with_entrypoints m eps) c (fun r _ => ty_wf r.1 = true)).

(** The type a primitive application denotes, given how its arguments parse. *)
Ltac parse_step :=
  first [ match goal with
          | H : parses ?m |- triple _ _ _ (parse_ty_with_entrypoints ?m _) _ _ =>
              eapply triple_mono; [apply H|intros [] ? ? ?]
          | |- triple _ _ _ (make_pair _ _) _ _ =>
              eapply triple_mono; [apply make_pair_wf; repeat constructor; [..|
                match goal with H : Forall _ ?l |- Forall _ ?l => eapply Forall_impl; [exact H|] end]; intros; cbn beta in *|]
          end
        | cstep ].

Lemma parse_ty_with_entrypoints_wf m : parses m.
Proof.
  induction m as [| | |p args anns IH|l IH] using Micheline_ind'; intros eps c;
    cbn [parse_ty_with_entrypoints]; csteps.
  eapply (triple_mono _ _ _ _ _ (fun r _ => ty_wf r.1 = true)).
  - clear H H0.
    destruct p; try (destruct args; cbn [simple_type unsupported_type]; repeat parse_step; done).
    all: repeat match goal with
      | H : Forall _ (_ :: _) |- _ => apply Forall_cons in H as [? ?]
      | |- triple _ _ _ (match ?l with _ => _ end) _ _ => destruct l; cbn [simple_type unsupported_type]
      end.
    all: repeat parse_step; cbn [fst ty_wf] in *; rewrite ?andb_true_iff; auto using has_prop_comparable_true.
  - intros [t e] c1 Hc1 Ht. csteps. destruct e; csteps; [|done].
    apply triple_add_entrypoint. csteps. done.
Qed.
End helpers.

Section parse.
Context (P : panic -> Prop) (c0 : Ctx) (D : Prop).

Lemma triple_parse_ty m c (Q : Type_ -> Ctx -> Prop) :
  (forall t c', (gas_left c' <= gas_left c)%N -> ty_wf t = true -> Q t c') ->
  triple P c0 D (parse_ty m) c Q.
Proof.
  intros HQ. unfold parse_ty. csteps. eapply triple_mono; [apply parse_ty_with_entrypoints_wf|].
  intros [t e] c1 Hc1 Ht _. csteps. by apply HQ.
Qed.

Lemma triple_parse_parameter m c (Q : Entrypoints * Type_ -> Ctx -> Prop) :
  (forall eps t c', (gas_left c' <= gas_left c)%N -> ty_wf t = true -> Q (eps, t) c') ->
  triple P c0 D (parse_parameter_ty_with_entrypoints m) c Q.
Proof.
  intros HQ. unfold parse_parameter_ty_with_entrypoints. csteps.
  eapply triple_mono; [apply parse_ty_with_entrypoints_wf|].
  intros [t e] c1 Hc1 Ht _. csteps. by apply HQ.
Qed.

(** A representation that can only fail or panic when slicing. *)
Lemma triple_repr {A} (f : ByteReprError -> TcError) (r : R A) c (Q : A -> Ctx -> Prop) :
  P PSlice -> panics_only PSlice r -> (forall a, Q a c) -> triple P c0 D (lift (map_err f r)) c Q.
Proof. intros HP Hr HQ. apply triple_lift. destruct r; cbn in *; auto; by subst. Qed.
End parse.

(** * Values *)

Section values.
Context {X : External} {XL : ExternalLaws X} (env : tenv) (P : panic -> Prop) (c0 : Ctx) (D : Prop) (c : Ctx).
Context (Hctx : ctx_typed env c0) (HP : P PStackBounds /\ P PSlice).
Context (rec_value : Micheline -> Type_ -> tcM TypedValue).
Context (rec_instr : Micheline -> option Entrypoints -> FailingTypeStack -> tcM (Instruction * FailingTypeStack)).

(** What recursive calls, made with less gas than the current one had, guarantee. *)
Context (Hval : forall v t c1, in_fragment env v -> ty_wf t = true -> (gas_left c1 < gas_left c)%N ->
  triple P c0 D (rec_value v t) c1 (fun tv _ => value_typed env tv t)).
Context (Hins : forall i self f c1, in_fragment env i -> (gas_left c1 < gas_left c)%N ->
  triple P c0 D (rec_instr i self f) c1
    (fun r _ => exists s, f = FOk s /\ instr_typed env self r.1 s r.2)).

(** A sequence of instructions. *)
Lemma typecheck_sound l self s c1 (Q : list Instruction * FailingTypeStack -> Ctx -> Prop) :
  Forall (in_fragment env) l -> (gas_left c1 < gas_left c)%N ->
  (forall code f c', (gas_left c' <= gas_left c1)%N -> block_typed env self code s f -> Q (code, f) c') ->
  triple P c0 D (typecheck rec_instr l self (FOk s)) c1 Q.
Proof.
  intros Hl. revert s c1 Q. induction Hl as [|i l Hi Hl IH]; intros s c1 Q Hc HQ; cbn.
  { csteps. apply HQ; [lia|constructor]. }
  csteps. eapply triple_mono; [by apply Hins|]. intros [i' f] c2 Hc2 (s'&[= <-]&Hty) _. cbn in *.
  destruct f as [s'|].
  - csteps. apply IH; [lia|]. intros code f c3 Hc3 Hb _. csteps. apply HQ; [lia|by econstructor].
  - csteps. destruct Hl as [|j l Hj Hl]; cbn; csteps.
    { apply HQ; [lia|by constructor]. }
    eapply triple_mono; [apply Hins; [done|lia]|]. intros r c3 _ (?&[=]&_).
Qed.

Lemma typecheck_lambda_sound l a b recursive c1 (Q : Lambda -> Ctx -> Prop) :
  Forall (in_fragment env) l -> (gas_left c1 < gas_left c)%N ->
  (forall lam c', (gas_left c' <= gas_left c1)%N -> lambda_typed env lam a b -> Q lam c') ->
  triple P c0 D (typecheck_lambda rec_instr l a b recursive) c1 Q.
Proof.
  intros Hl Hc HQ. unfold typecheck_lambda. csteps. apply typecheck_sound; [done..|].
  intros code f c2 Hc2 Hb _. csteps. apply triple_unify_stacks. intros r c3 Hc3 Hf Hr _ _. csteps.
  assert (r = FOk [b]) as -> by (destruct Hr as [Hr|Hr]; congruence).
  apply HQ; [lia|]. destruct recursive; by econstructor.
Qed.

Lemma typecheck_map_block_sound l t self s c1 (Q : list Instruction * Type_ -> Ctx -> Prop) :
  Forall (in_fragment env) l -> (gas_left c1 < gas_left c)%N ->
  (forall code t2 c', (gas_left c' <= gas_left c1)%N ->
     block_typed env self code (t :: s) (FOk (t2 :: s)) -> Q (code, t2) c') ->
  triple P c0 D (typecheck_map_block rec_instr l t self s) c1 Q.
Proof.
  intros Hl Hc HQ. unfold typecheck_map_block. csteps. apply typecheck_sound; [done..|].
  intros code f c2 Hc2 Hb _. csteps. destruct f as [s2|]; cbn; [csteps|done].
  destruct s2 as [|t2 s2]; csteps. apply triple_ensure_stacks_eq. intros c3 Hc3 <- _. csteps.
  apply HQ; [lia|done].
Qed.

(** [OrderValidatingIterator]: the elements come out strictly ascending. *)
Section ordered.
Context {A : Type} (tc : Micheline -> tcM A) (key : A -> TypedValue) (ty kt : Type_) (R : A -> Prop).
Context (Hkt : comparable kt = true).
Abbreviation elt_ok := (fun a => value_typed env (key a) kt /\ R a).

Lemma validate_order_sound vs cur c1 (Q : list A -> Ctx -> Prop) :
Forall (fun v => forall c2, (gas_left c2 <= gas_left c1)%N -> triple P c0 D (tc v) c2 (fun a _ => elt_ok a)) vs ->
elt_ok cur ->
(forall l c', (gas_left c' <= gas_left c1)%N -> Forall elt_ok (cur :: l) -> bt_sorted key (cur :: l) ->
   Q (cur :: l) c') ->
triple P c0 D (validate_order tc key ty cur vs) c1 Q.
Proof.
intros Hvs. revert cur c1 Hvs Q. induction vs as [|v vs IH]; intros cur c1 Hvs Q Hcur HQ; cbn.
{ csteps. apply HQ; [lia|by constructor|by repeat constructor]. }
apply Forall_cons in Hvs as [Hv Hvs].
csteps. eapply triple_mono; [apply Hv; lia|]. intros nxt c2 Hc2 Hnxt _. csteps.
destruct Hcur as [Hk HRc], Hnxt as [Hk' HRn].
apply triple_safe_cost; [by eapply ic_compare_safe; eauto with typing|]. csteps.
destruct (value_cmp_ok kt (E := TcError) (key cur) (key nxt)) as (o&->&Ho); eauto with typing. cbn.
destruct o; csteps. apply IH; [|done|].
{ eapply Forall_impl; [exact Hvs|]. intros x Hx c3 Hc3. apply Hx. lia. }
intros l c4 Hc4 Hl Hs _. csteps. apply HQ; [lia|by constructor|].
constructor; [done|]. apply Forall_cons in Hl as [_ Hl]. constructor; [done|].
apply StronglySorted_inv in Hs as [_ Hs]. rewrite Forall_forall in Hs, Hl |- *.
intros x Hx. destruct (Hl x Hx) as [Hkx _].
eapply (partial_cmp_trans kt); [..|exact Ho|by apply Hs]; eauto with typing.
Qed.

Lemma collect_ordered_sound vs c1 (Q : list A -> Ctx -> Prop) :
Forall (fun v => forall c2, (gas_left c2 <= gas_left c1)%N -> triple P c0 D (tc v) c2 (fun a _ => elt_ok a)) vs ->
(forall l c', (gas_left c' <= gas_left c1)%N -> Forall elt_ok l -> bt_sorted key l -> Q l c') ->
triple P c0 D (collect_ordered tc key ty vs) c1 Q.
Proof.
intros Hvs HQ. unfold collect_ordered. destruct vs as [|v vs].
{ csteps. apply HQ; [lia|constructor..]. }
apply Forall_cons in Hvs as [Hv Hvs].
csteps. eapply triple_mono; [apply Hv; lia|]. intros cur c2 Hc2 Hcur _. csteps.
apply validate_order_sound; [|done|].
{ eapply Forall_impl; [exact Hvs|]. intros x Hx c3 Hc3. apply Hx. lia. }
intros l c3 Hc3 Hl Hs _. csteps. rewrite (bt_from_list_sorted key kt); [|..|done].
- cbn. apply HQ; [lia|done..].
- eapply Forall_impl; [exact Hl|]. intros a [? _]. eauto with typing.
Qed.
End ordered.

Abbreviation checks m c1 t := (triple P c0 D m c1 (fun v _ => value_typed env v t)).

Lemma rec_values vs t c1 :
  Forall (in_fragment env) vs -> ty_wf t = true -> (gas_left c1 < gas_left c)%N ->
  Forall (fun v => forall c2, (gas_left c2 <= gas_left c1)%N -> checks (rec_value v t) c2 t) vs.
Proof.
  intros Hvs Ht Hc. eapply Forall_impl; [exact Hvs|]. intros v Hv c2 Hc2. apply Hval; [done..|lia].
Qed.

Lemma typecheck_set_sound ty t vs c1 (Q : list TypedValue -> Ctx -> Prop) :
  Forall (in_fragment env) vs -> ty_wf (T_Set t) = true -> (gas_left c1 < gas_left c)%N ->
  (forall l c', value_typed env (V_Set l) (T_Set t) -> Q l c') ->
  triple P c0 D (typecheck_set rec_value ty t vs) c1 Q.
Proof.
  intros Hvs Ht Hc HQ. apply andb_true_iff in Ht as [Hcmp Ht]. unfold typecheck_set. csteps.
  apply triple_safe_cost; [apply tc_construct_safe|]. csteps.
  eapply (collect_ordered_sound _ _ _ t (fun _ => True)); [done| |].
  - eapply Forall_impl; [apply rec_values; [exact Hvs|exact Ht|exact Hc]|]. cbn. intros v Hv c2 Hc2.
    eapply triple_mono; [apply Hv; lia|]. auto.
  - intros l c2 _ Hl Hs. apply HQ. constructor; [done| |done].
    eapply Forall_impl; [exact Hl|]. by intros ? [? _].
Qed.

Lemma tc_elt_sound {V} ty k v (f : TypedValue -> V) (R : V -> Prop) m c1 :
  in_fragment env m -> ty_wf k = true -> ty_wf v = true -> (gas_left c1 < gas_left c)%N ->
  (forall x, value_typed env x v -> R (f x)) ->
  triple P c0 D (tc_elt rec_value ty k v f m) c1 (fun e _ => value_typed env e.1 k /\ R e.2).
Proof.
  intros Hm Hk Hv Hc HR. unfold tc_elt. repeat case_match; csteps. subst. frag.
  eapply triple_mono; [by apply Hval|]. csteps. eapply triple_mono; [apply Hval; [done..|lia]|]. csteps. cbn. auto.
Qed.

Lemma typecheck_map_sound {V} ty k v vs (f : TypedValue -> V) (R : V -> Prop) c1
    (Q : list (TypedValue * V) -> Ctx -> Prop) :
  Forall (in_fragment env) vs -> comparable k = true -> ty_wf k = true -> ty_wf v = true ->
  (gas_left c1 < gas_left c)%N -> (forall x, value_typed env x v -> R (f x)) ->
  (forall m c', Forall (fun e => value_typed env e.1 k /\ R e.2) m -> bt_sorted fst m -> Q m c') ->
  triple P c0 D (typecheck_map rec_value ty k v vs f) c1 Q.
Proof.
  intros Hvs Hcmp Hk Hv Hc HR HQ. unfold typecheck_map. csteps.
  apply triple_safe_cost; [apply tc_construct_safe|]. csteps.
  eapply (collect_ordered_sound _ _ _ k (fun e => R e.2)); [done| |].
  - eapply Forall_impl; [exact Hvs|]. cbn. intros m Hm c2 Hc2. apply tc_elt_sound; [done..|lia|done].
  - intros l c2 _ Hl Hs. by apply HQ.
Qed.

Lemma tv_literal_sound v t c1 : checks (tv_literal v t) c1 t.
Proof.
  unfold tv_literal. destruct t, v; csteps; repeat case_match; csteps; try constructor.
  unfold mutez_ok. repeat match goal with H : (_ <? _)%Z = _ |- _ => first [apply Z.ltb_lt in H|apply Z.ltb_ge in H] end.
  lia.
Qed.

Lemma tv_repr_sound {A} n ty (r : R A) (con : A -> TypedValue) t c1 :
  panics_only PSlice r -> (forall a, value_typed env (con a) t) -> checks (tv_repr n ty r con) c1 t.
Proof.
  intros Hr Hcon. unfold tv_repr. apply triple_bind, triple_consume. intros c2 _ _.
  apply triple_bind, triple_repr; [apply HP|done|]. csteps. done.
Qed.

Lemma tv_byte_repr_sound v t c1 : checks (tv_byte_repr v t) c1 t.
Proof.
  unfold tv_byte_repr. destruct t, v; try apply triple_fail;
    try (apply tv_repr_sound; [|by constructor];
         first [apply Address_repr_panics|apply Key_repr_panics|apply Signature_repr_panics|apply KeyHash_repr_panics]).
  all: csteps; constructor.
Qed.

Lemma tv_bls_sound v t c1 : checks (tv_bls v t) c1 t.
Proof.
  unfold tv_bls. destruct t, v; csteps; try constructor.
  destruct (Fr_from_big_int_ok (E := TcError) z) as (x&->&_). csteps. constructor.
Qed.

Lemma tv_pair_sound tl tr vl rest c1 :
  in_fragment env vl -> Forall (in_fragment env) rest -> ty_wf (T_Pair tl tr) = true ->
  (gas_left c1 < gas_left c)%N -> checks (tv_pair rec_value tl tr vl rest) c1 (T_Pair tl tr).
Proof.
  intros Hl Hr Ht Hc. apply andb_true_iff in Ht as [Htl Htr]. unfold tv_pair. csteps.
  eapply triple_mono; [by apply Hval|]. csteps.
  eapply (triple_mono _ _ _ _ _ (fun v _ => value_typed env v tr)); [|csteps; by constructor].
  assert (in_fragment env (M_App P_Pair rest NO_ANNS)).
  { intros Hs. cbn. apply forallb_forall. intros x Hx.
    by apply (proj1 (Forall_forall _ _) Hr x); [apply list_elem_of_In|]. }
  destruct rest as [|v [|v' rest]]; try (apply Hval; [done..|lia]). frag. apply Hval; [done..|lia].
Qed.

Lemma triple_contract_address a ep t c1 (Q : Address -> Ctx -> Prop) :
  (forall a' c', (gas_left c' <= gas_left c1)%N -> e_contract env a' t -> Q a' c') ->
  triple P c0 D (typecheck_contract_address a ep t) c1 Q.
Proof.
  intros HQ. unfold typecheck_contract_address. cstep.
  eapply (triple_mono _ _ _ _ _ (fun _ _ => True)); [by repeat case_match; csteps|].
  intros e c2 Hc2 _ _. destruct (addr_hash a) as [k|h|h] eqn:Eh.
  - destruct (is_default e) eqn:Ed; cbn [negb]; [|apply triple_fail].
    apply bool_decide_eq_true in Ed as ->.
    pose proof (ct_implicit _ _ Hctx k t) as Hi.
    destruct t; csteps; by apply HQ.
  - csteps. apply triple_ensure_ty_eq. intros c3 Hc3 <- _. csteps. apply HQ; [lia|].
    rename select (same_env c0 c2) into He. destruct He as (_&_&_&He&_). rewrite He in *.
    repeat match goal with H : ok_or _ _ = Ok _ |- _ => apply ok_or_Ok in H end.
    by eapply (ct_lookup _ _ Hctx (Kt1 h)).
  - csteps. apply triple_ensure_ty_eq. intros c3 Hc3 <- _. csteps. apply HQ; [lia|].
    rename select (same_env c0 c2) into He. destruct He as (_&_&_&He&_). rewrite He in *.
    repeat match goal with H : ok_or _ _ = Ok _ |- _ => apply ok_or_Ok in H end.
    by eapply (ct_lookup _ _ Hctx (Sr1 h)).
Qed.

Lemma big_map_id_sound id_opt tk tv c1 (Q : option BigMapId -> Ctx -> Prop) :
  (forall c', (gas_left c' <= gas_left c1)%N ->
     (forall i, id_opt = Some i -> e_big_maps env i = Some (tk, tv)) -> Q id_opt c') ->
  triple P c0 D
    (match id_opt with
     | Some id =>
         c ← get;
         tys ← lift (map_err TE_LazyStorageError (dyn_get_type (big_map_storage c) id));
         '(key_type, value_type) ← lift (ok_or (TE_BigMapNotFound id) tys);
         _ ← ensure_ty_eq key_type tk;
         _ ← ensure_ty_eq value_type tv;
         mret (Some id)
     | None => mret None
     end) c1 Q.
Proof.
  intros HQ. destruct id_opt as [id|]; [|csteps; by apply HQ; [lia|]]. csteps.
  rename select (same_env c0 c1) into He. destruct He as (_&_&->&_).
  pose proof (ct_get_type _ _ Hctx id) as Ht.
  destruct (dyn_get_type _ id) as [o| | |]; cbn [map_err]; try done. csteps.
  destruct a as [kt vt]. rename select (ok_or _ _ = _) into Ho. apply ok_or_Ok in Ho as ->.
  csteps. apply triple_ensure_ty_eq. intros c2 Hc2 ->. csteps. apply triple_ensure_ty_eq. intros c3 Hc3 ->. csteps.
  apply HQ; [lia|]. by intros i [= <-].
Qed.

Lemma tv_big_map_sound v tk tv c1 :
  in_fragment env v -> ty_wf (T_BigMap tk tv) = true -> (gas_left c1 < gas_left c)%N ->
  checks (tv_big_map rec_value v (T_BigMap tk tv) tk tv) c1 (T_BigMap tk tv).
Proof.
  intros Hv Ht Hc. apply andb_true_iff in Ht as [Ht Htv]. apply andb_true_iff in Ht as [Hcmp Htk].
  unfold tv_big_map. cstep.
  eapply (triple_mono _ _ _ _ _ (fun r _ => forall vs, r.2 = Some vs -> Forall (in_fragment env) vs)).
  { repeat case_match; subst; csteps; frag; cbn in *; simplify_eq; done. }
  intros [id_opt vs_opt] c2 Hc2 Hvs _. cbn in Hvs. cstep. apply big_map_id_sound. intros c3 Hc3 Hid _. cstep.
  eapply (triple_mono _ _ _ _ _ (fun o _ =>
    Forall (fun e => value_typed env e.1 tk /\ forall x, e.2 = Some x -> value_typed env x tv) o /\ bt_sorted fst o)).
  { destruct vs_opt as [vs|]; [|csteps; split; constructor].
    apply (typecheck_map_sound _ _ _ _ _ (fun o => forall x, o = Some x -> value_typed env x tv));
      [by apply Hvs|done..|lia| |done]. by intros x Hx ? [= <-]. }
  intros o c4 _ [Ho Hs]. csteps. by constructor.
Qed.

Lemma tv_ticket_sound v t c1 :
  in_fragment env v -> ty_wf (T_Ticket t) = true -> (gas_left c1 < gas_left c)%N ->
  checks (tv_ticket rec_value v (T_Ticket t) t) c1 (T_Ticket t).
Proof.
  intros Hv Ht Hc. apply andb_true_iff in Ht as [Hcmp Ht]. unfold tv_ticket.
  eapply triple_ok_or_fail; [reflexivity|]. eapply triple_mono; [apply Hval; [done| |done]|].
  { cbn. by apply andb_true_iff. }
  cbn beta. intros x c2 _ Hx _. inv_value. csteps. by constructor.
Qed.

Ltac value_leaf :=
  lazymatch goal with
  | |- triple _ _ _ (tv_literal _ _) _ _ => apply tv_literal_sound
  | |- triple _ _ _ (tv_byte_repr _ _) _ _ => apply tv_byte_repr_sound
  | |- triple _ _ _ (tv_bls _ _) _ _ => apply tv_bls_sound
  | |- triple _ _ _ (tv_big_map _ _ _ _ _) _ _ => apply tv_big_map_sound; [done..|]
  | |- triple _ _ _ (tv_ticket _ _ _ _) _ _ => apply tv_ticket_sound; [done..|]
  | |- triple _ _ _ (tv_pair _ _ _ _ _) _ _ => apply tv_pair_sound; [auto using Forall_cons_2..|]
  end; try done.
(** The shapes of the literal the type admits; the others are errors. *)
Ltac literal_cases :=
  repeat (match goal with |- triple _ _ _ (match ?x with _ => _ end) _ _ => destruct x end;
          try lazymatch goal with |- triple _ _ _ (tv_literal _ _) _ _ => apply tv_literal_sound end).

(** [typecheck_value]: started in a context [c1] that still has the gas of [c]. *)
Lemma typecheck_value_step_sound v t c1 :
  in_fragment env v -> ty_wf t = true -> (gas_left c1 <= gas_left c)%N ->
  checks (typecheck_value_step rec_value rec_instr v t) c1 t.
Proof.
  intros Hv Ht Hc. unfold typecheck_value_step. apply triple_bind, triple_consume. intros c2 Hc2 _.
  assert (gas_left c2 < gas_left c)%N as Hlt by (unfold tc_VALUE_STEP in Hc2; lia). clear Hc2 Hc c1.
  destruct t; cbn beta iota; try value_leaf; literal_cases.
  all: frag; try value_leaf; cbn [ty_wf] in Ht; rewrite ?andb_true_iff in Ht;
    repeat match type of Ht with _ /\ _ => destruct Ht as [Ht ?] end; csteps.
  - constructor.
  - eapply triple_mono; [by apply Hval|]. csteps. by constructor.
  - eapply (triple_mapM _ _ _ _ _ _ (fun _ x => value_typed env x t)).
    + intros a c3 Ha Hc3. apply Hval; [by eapply Forall_forall|done|lia].
    + intros bs c3 Hc3 Hf. csteps. constructor.
      apply Forall_forall. intros x Hx. apply list_elem_of_lookup in Hx as [k Hk].
      by destruct (Forall2_lookup_r _ _ _ _ _ Hf Hk) as (?&_&?).
  - apply typecheck_set_sound; [done|cbn; by rewrite andb_true_iff|done|]. csteps. done.
  - apply (typecheck_map_sound _ _ _ _ _ (fun x => value_typed env x t2)); [done..|]. csteps. by constructor.
  - eapply triple_mono; [by apply Hval|]. csteps. by constructor.
  - eapply triple_mono; [by apply Hval|]. csteps. by constructor.
  - eapply triple_mono; [by apply Hval|]. cbn beta. intros a c3 Hc3 Ha. inv_value. csteps.
    apply triple_contract_address. csteps. by constructor.
  - apply typecheck_lambda_sound; [done..|]. csteps. by do 2 constructor.
  - apply typecheck_lambda_sound; [done..|]. csteps. by do 2 constructor.
Qed.
End values.

(** * Instructions *)

Lemma IT_simple env self i ins outs s s1 s2 :
  simple_sig i = Some (ins, outs) -> s1 = ins ++ s -> s2 = FOk (outs ++ s) -> instr_typed env self i s1 s2.
Proof. intros ? -> ->. by apply IT_Simple. Qed.

(** Case analysis on what the handler looks at: arguments and types on the stack. *)
Ltac handler_cases :=
  repeat (match goal with
          | |- triple _ _ _ (match ?x with _ => _ end) _ _ => is_var x; destruct x
          end;
          try lazymatch goal with
              | |- triple _ _ _ (no_overload _ _) _ _ => apply triple_fail
              | |- triple _ _ _ (no_overload_because _ _ _) _ _ => apply triple_fail
              | |- triple _ _ _ (too_short _ _ _) _ _ => apply triple_fail
              | |- triple _ _ _ (expected_type _ _ _ _) _ _ => apply triple_fail
              | |- triple _ _ _ (unexpected_micheline _) _ _ => apply triple_fail
              end).

Ltac hstep :=
  first
  [ match goal with
    | |- triple _ _ _ (ensure_ty_eq _ _) _ _ => apply triple_ensure_ty_eq; intros ? ? ?; subst
    | |- triple _ _ _ (parse_ty _) _ _ => apply triple_parse_ty
    | |- triple _ _ _ (validate_u10 _) _ _ => apply triple_validate_u10
    | |- triple _ _ _ (ensure_stack_len _ _ _) _ _ => apply triple_ensure_stack_len
    | |- triple _ _ _ (unify_stacks _ _) _ _ => apply triple_unify_stacks
    end
  | cstep ].
Ltac hsteps := repeat hstep.
Ltac instr_rule := cbn [fst snd]; first [by eapply IT_simple | econstructor; eauto using has_prop_comparable_true with typing].

Section instrs.
Context {X : External} {XL : ExternalLaws X} (env : tenv) (P : panic -> Prop) (c0 : Ctx) (D : Prop) (c : Ctx).
Context (Hctx : ctx_typed env c0) (HP : P PStackBounds /\ P PSlice).
Context (rec_value : Micheline -> Type_ -> tcM TypedValue).
Context (rec_instr : Micheline -> option Entrypoints -> FailingTypeStack -> tcM (Instruction * FailingTypeStack)).
Context (rec_script : Micheline -> tcM ContractScript).
Context (i : Micheline) (self : option Entrypoints).
Context (Hval : forall v t c1, in_fragment env v -> ty_wf t = true -> (gas_left c1 < gas_left c)%N ->
  triple P c0 D (rec_value v t) c1 (fun tv _ => value_typed env tv t)).
Context (Hins : forall i self f c1, in_fragment env i -> (gas_left c1 < gas_left c)%N ->
  triple P c0 D (rec_instr i self f) c1
    (fun r _ => exists s, f = FOk s /\ instr_typed env self r.1 s r.2)).
Context (Hscript : forall m c1, in_fragment env m -> (gas_left c1 < gas_left c)%N ->
  triple P c0 D (rec_script m) c1 (fun cs _ => exists eps, script_typed env eps cs)).

Abbreviation accepts m c1 s := (triple P c0 D m c1 (fun r _ => instr_typed env self r.1 s r.2)).

(** Instructions without arguments, on the stack only. *)
Lemma tc_arith_sound s c1 :
  accepts (tc_add s) c1 s /\ accepts (tc_mul s) c1 s /\ accepts (tc_neg s) c1 s /\ accepts (tc_sub_mutez s) c1 s.
Proof.
  split_and!; unfold tc_add, tc_mul, tc_neg, tc_sub_mutez; handler_cases; hsteps; instr_rule.
Qed.

Lemma tc_logic_sound s c1 :
  accepts (tc_logic P_AND s) c1 s /\ accepts (tc_logic P_OR s) c1 s /\ accepts (tc_logic P_XOR s) c1 s /\
  accepts (tc_not s) c1 s.
Proof. split_and!; unfold tc_logic, tc_not; handler_cases; hsteps; instr_rule. Qed.

Lemma tc_int_test_sound p j s c1 :
  simple_sig j = Some ([T_Int], [T_Bool]) -> accepts (tc_int_test p j s) c1 s.
Proof. intros Hj. unfold tc_int_test. handler_cases. hsteps. by eapply IT_simple; [exact Hj|..]. Qed.

Lemma tc_hash_sound p j s c1 :
  simple_sig j = Some ([T_Bytes], [T_Bytes]) -> accepts (tc_hash p j s) c1 s.
Proof. intros Hj. unfold tc_hash. handler_cases. hsteps. by eapply IT_simple; [exact Hj|..]. Qed.

Lemma tc_context_sound j t s c1 : simple_sig j = Some ([], [t]) -> accepts (tc_context j t s) c1 s.
Proof. intros Hj. unfold tc_context. hsteps. by eapply IT_simple; [exact Hj|..]. Qed.

Lemma tc_conv_sound s c1 :
  accepts (tc_int s) c1 s /\ accepts (tc_nat s) c1 s /\ accepts (tc_bytes s) c1 s /\
  accepts (tc_abs s) c1 s /\ accepts (tc_isnat s) c1 s /\ accepts (tc_concat s) c1 s /\
  accepts (tc_slice s) c1 s /\ accepts (tc_size s) c1 s.
Proof.
  split_and!; unfold tc_int, tc_nat, tc_bytes, tc_abs, tc_isnat, tc_concat, tc_slice, tc_size;
    handler_cases; hsteps; instr_rule.
Qed.

Lemma tc_compare_sound s c1 : accepts (tc_compare s) c1 s.
Proof. unfold tc_compare. handler_cases. hsteps. instr_rule. Qed.

Lemma tc_chain_sound s c1 :
  accepts (tc_check_signature s) c1 s /\ accepts (tc_hash_key s) c1 s /\ accepts (tc_pairing_check s) c1 s /\
  accepts (tc_set_delegate s) c1 s /\ accepts (tc_implicit_account s) c1 s /\ accepts (tc_voting_power s) c1 s /\
  accepts (tc_address s) c1 s /\ accepts (tc_transfer_tokens s) c1 s /\ accepts (tc_pack s) c1 s.
Proof.
  split_and!; unfold tc_check_signature, tc_hash_key, tc_pairing_check, tc_set_delegate, tc_implicit_account,
    tc_voting_power, tc_address, tc_transfer_tokens, tc_pack; handler_cases; hsteps; instr_rule.
Qed.

Lemma tc_data_sound s c1 :
  accepts (tc_swap s) c1 s /\ accepts (tc_car s) c1 s /\ accepts (tc_cdr s) c1 s /\ accepts (tc_some s) c1 s /\
  accepts (tc_cons s) c1 s /\ accepts (tc_exec s) c1 s /\ accepts (tc_apply s) c1 s /\
  accepts (tc_mem s) c1 s /\ accepts (tc_get_and_update s) c1 s /\
  accepts (tc_failwith s) c1 s /\ accepts (tc_never s) c1 s.
Proof.
  split_and!; unfold tc_swap, tc_car, tc_cdr, tc_some, tc_cons, tc_exec, tc_apply, tc_mem, tc_get_and_update,
    tc_failwith, tc_never; handler_cases; hsteps; instr_rule.
Qed.

Lemma tc_tickets_sound s c1 :
  accepts (tc_read_ticket s) c1 s /\ accepts (tc_split_ticket s) c1 s /\ accepts (tc_join_tickets s) c1 s.
Proof.
  split_and!; unfold tc_read_ticket, tc_split_ticket, tc_join_tickets; handler_cases; hsteps.
  all: constructor.
Qed.

Lemma tc_ticket_sound s c1 : e_strict env = false -> accepts (tc_ticket s) c1 s.
Proof. intros Hs. unfold tc_ticket. handler_cases. hsteps. constructor. congruence. Qed.

(** Instructions with arguments. *)

Context (args : list Micheline) (anns : Annotations) (Hargs : Forall (in_fragment env) args).
Context (c1 : Ctx) (Hc : (gas_left c1 < gas_left c)%N).
Abbreviation tcs := (typecheck_sound env P c0 D c rec_instr Hins).

Lemma tc_type_args_sound s :
  accepts (tc_none i args s) c1 s /\ accepts (tc_nil i args s) c1 s /\ accepts (tc_empty_set i args s) c1 s /\
  accepts (tc_empty_big_map i args s) c1 s /\ accepts (tc_left i args s) c1 s /\ accepts (tc_right i args s) c1 s.
Proof.
  split_and!; unfold tc_none, tc_nil, tc_empty_set, tc_empty_big_map, tc_left, tc_right; handler_cases; hsteps;
    constructor; auto using has_prop_comparable_true.
Qed.

Lemma triple_opt_u10 c2 (Q : option nat -> Ctx -> Prop) :
  (forall n, (n = Some 0 -> args = [M_Int 0]) -> Q n c2) -> triple P c0 D (opt_u10 i args) c2 Q.
Proof.
  intros HQ. unfold opt_u10. handler_cases; hsteps; apply HQ; [done|]. intros [= ->]. by subst.
Qed.

Lemma tc_drop_sound s : accepts (tc_drop i args s) c1 s.
Proof.
  unfold tc_drop. hsteps. apply triple_opt_u10. hsteps.
  destruct (take_drop_split s (default 1 n)) as (top&rest&->&Hn); [done|].
  rewrite drop_top_app by done. hsteps. by constructor.
Qed.

Lemma tc_dup_sound s : accepts (tc_dup i args s) c1 s.
Proof.
  assert (args <> [M_Int 0] -> accepts (
    opt_height ← opt_u10 i args;
    let dup_height := default 1 opt_height in
    _ ← ensure_stack_len P_DUP s dup_height;
    ty ← lift (TopFirst.index s (dup_height - 1));
    _ ← ensure_prop Duplicable ty;
    tc_ret (I_Dup opt_height) (ty :: s)) c1 s) as Hdup.
  { intros Hn. cstep. apply triple_opt_u10. intros n Hz _. cbn zeta. hsteps. unfold TopFirst.index.
    assert (1 <= default 1 n) by (destruct n as [[|]|]; cbn; try lia; by destruct Hn; apply Hz).
    destruct (s !! (default 1 n - 1)) as [ty|] eqn:E; [|apply lookup_ge_None in E; lia].
    cbn. hsteps. econstructor; [|exact E]. lia. }
  unfold tc_dup. handler_cases; try apply triple_fail; by apply Hdup.
Qed.

Lemma tc_dig_sound s : accepts (tc_dig i args s) c1 s.
Proof.
  unfold tc_dig. handler_cases. hsteps. destruct (Nat.ltb_spec 0 k).
  - hsteps. destruct (take_drop_split s k) as (top&[|t rest]&->&Hk); [done|..].
    + rewrite app_nil_r. unfold TopFirst.remove. rewrite lookup_ge_None_2 by lia. apply HP.
    + rewrite remove_app by done. cbn. hsteps. by constructor.
  - hsteps. replace k with 0 by lia. constructor.
Qed.

Lemma tc_dug_sound s : accepts (tc_dug i args s) c1 s.
Proof.
  unfold tc_dug. handler_cases. hsteps. destruct (Nat.ltb_spec 0 k).
  - hsteps. destruct s as [|t s]; cbn in *; [lia|]. hsteps.
    destruct (decide (k <= length s)).
    + destruct (take_drop_split s k) as (top&rest&->&Hk); [done|].
      rewrite insert_app by done. hsteps. by constructor.
    + unfold TopFirst.insert. rewrite (proj2 (Nat.leb_gt _ _)) by lia. apply HP.
  - hsteps. replace k with 0 by lia. constructor.
Qed.

Lemma tc_dip_sound s : accepts (tc_dip rec_instr i self args s) c1 s.
Proof.
  unfold tc_dip. cstep.
  eapply (triple_mono _ _ _ _ _ (fun r _ => Forall (in_fragment env) r.2)).
  { handler_cases; hsteps; by frag. }
  cbn. intros [n nested] c2 Hc2 Hn. cbn in Hn. hsteps.
  destruct (take_drop_split s (default 1 n)) as (top&rest&->&Hl); [done|].
  rewrite split_off_app by done. hsteps. apply tcs; [done|lia|]. hsteps.
  destruct f as [s'|]; cbn; [|done]. hsteps. by constructor.
Qed.

(** Blocks whose stacks are unified. *)
Ltac blocks := repeat first [ apply tcs; [assumption|lia|] | hstep ].

Lemma tc_branches_sound s :
  accepts (tc_if rec_instr i self args s) c1 s /\ accepts (tc_if_none rec_instr i self args s) c1 s /\
  accepts (tc_if_cons rec_instr i self args s) c1 s /\ accepts (tc_if_left rec_instr i self args s) c1 s.
Proof.
  split_and!; unfold tc_if, tc_if_none, tc_if_cons, tc_if_left; handler_cases; frag; blocks;
    cbn [fst snd]; by econstructor.
Qed.

Lemma fle_ok f s : fle (FOk s) f -> f = FOk s.
Proof. by intros [?|?]. Qed.

Lemma tc_loop_sound s :
  accepts (tc_loop rec_instr i self args s) c1 s /\ accepts (tc_loop_left rec_instr i self args s) c1 s.
Proof.
  split; unfold tc_loop, tc_loop_left; handler_cases; frag; blocks;
    match goal with H : fle (FOk _) _ |- _ => apply fle_ok in H as -> end; cbn; hsteps; by econstructor.
Qed.

Lemma tc_iter_map_sound s :
  accepts (tc_iter rec_instr i self args s) c1 s /\ accepts (tc_map rec_instr i self args s) c1 s.
Proof.
  split; unfold tc_iter, tc_map; handler_cases; frag.
  1-3: unfold tc_iter_body; blocks; match goal with H : fle (FOk _) _ |- _ => apply fle_ok in H as -> end;
    cbn; by econstructor.
  all: hsteps; eapply (typecheck_map_block_sound env P c0 D c rec_instr Hins); [done..|]; hsteps;
    (eapply IT_Map; [reflexivity|done]).
Qed.

Lemma tc_push_sound s : accepts (tc_push rec_value i args s) c1 s.
Proof.
  unfold tc_push. handler_cases. frag. hsteps. eapply triple_mono; [apply Hval; [done..|lia]|]. hsteps.
  by constructor.
Qed.

Lemma comb_some {A} (pair : A -> A -> A) l : l <> [] -> exists x, comb pair l = Some x.
Proof.
  induction l as [|a [|b l] IH]; intros Hl; [done|by eexists|].
  destruct IH as [x Hx]; [done|]. exists (pair a x). change (pair a <$> comb pair (b :: l) = Some (pair a x)).
  by rewrite Hx.
Qed.

Lemma tc_pair_sound s : accepts (tc_pair i args s) c1 s.
Proof.
  unfold tc_pair. handler_cases; hsteps; [constructor|].
  destruct (Nat.ltb_spec k 2); hsteps. destruct (Nat.ltb_spec (length s) k); hsteps.
  destruct (take_drop_split s k) as (top&rest&->&Hl); [done|]. rewrite split_off_app by done. hsteps.
  destruct (comb_some T_Pair top) as [t Ht]; [by destruct top; cbn in *; [lia|]|]. rewrite Ht. cbn. hsteps.
  by constructor.
Qed.

Lemma fill_ty_sound n s t c2 (Q : TypeStack -> Ctx -> Prop) :
  (forall top, length top = S n -> comb T_Pair top = Some t -> Q (top ++ s) c2) ->
  triple P c0 D (fill_ty n s t) c2 Q.
Proof.
  revert t Q. induction n as [|n IH]; intros t Q HQ; cbn.
  { hsteps. by apply (HQ [t]). }
  destruct t; hsteps. apply IH. intros top Hl Hc'. hsteps. apply (HQ (t1 :: top)); cbn; [lia|].
  destruct top; [done|]. by rewrite Hc'.
Qed.

Lemma tc_unpair_sound s : accepts (tc_unpair i args s) c1 s.
Proof.
  unfold tc_unpair. handler_cases; hsteps; [constructor|].
  destruct (Nat.ltb_spec k 2); hsteps. apply fill_ty_sound. hsteps.
  apply IT_UnpairN; [lia|done..].
Qed.

Lemma tc_get_sound s : accepts (tc_get i args s) c1 s.
Proof.
  unfold tc_get. handler_cases; hsteps; try by constructor.
  destruct (get_nth_field_ty k t) eqn:E; hsteps. by constructor.
Qed.

Lemma tc_update_sound s : accepts (tc_update i args s) c1 s.
Proof.
  unfold tc_update. handler_cases; hsteps; try by constructor.
  destruct (get_nth_field_ty k _) eqn:E; hsteps. by econstructor.
Qed.

Lemma tc_lambda_sound b s : accepts (tc_lambda rec_instr i b args s) c1 s.
Proof.
  unfold tc_lambda. handler_cases. frag. hsteps.
  apply (typecheck_lambda_sound env P c0 D c rec_instr Hins); [done|lia|]. hsteps. by constructor.
Qed.

Lemma triple_single_field_ann c2 (Q : option bytes -> Ctx -> Prop) :
  (forall o, Q o c2) -> triple P c0 D (single_field_ann anns) c2 Q.
Proof.
  intros HQ. apply triple_safe_lift; [apply cost_safe_map_err, get_single_field_ann_safe|auto].
Qed.

Lemma ep_check_safe s : cost_safe (EntrypointRepr.check_ep_name_len s).
Proof. unfold EntrypointRepr.check_ep_name_len. by case_match. Qed.
Lemma ep_ann_safe s : cost_safe (EntrypointRepr.try_from_field_ann s).
Proof. unfold EntrypointRepr.try_from_field_ann. apply cost_safe_bind; [apply ep_check_safe|done]. Qed.

Lemma tc_self_sound s : accepts (tc_self self anns s) c1 s.
Proof.
  unfold tc_self. cstep. apply triple_single_field_ann. intros o _. cstep.
  eapply (triple_mono _ _ _ _ _ (fun _ _ => True)).
  { destruct o; [|by hsteps]. apply triple_safe_lift; [apply cost_safe_map_err, ep_ann_safe|done]. }
  hsteps. repeat match goal with H : ok_or _ _ = Ok _ |- _ => apply ok_or_Ok in H end.
  subst. by constructor.
Qed.

Lemma tc_unpack_sound s : e_strict env = false -> accepts (tc_unpack i args s) c1 s.
Proof. intros Hs. unfold tc_unpack. handler_cases. hsteps. by constructor. Qed.

Lemma tc_contract_sound s : e_strict env = false -> accepts (tc_contract i args anns s) c1 s.
Proof.
  intros Hs. unfold tc_contract. handler_cases. cstep. apply triple_single_field_ann. intros o _. cstep.
  eapply (triple_mono _ _ _ _ _ (fun _ _ => True)).
  { destruct o; [|by hsteps]. cstep. apply triple_safe_lift; [apply cost_safe_map_err, ep_ann_safe|by hsteps]. }
  intros e c2 Hc2 _ _. cstep.
  eapply (triple_mono _ _ _ _ _ (fun _ _ => True)); [by repeat case_match; hsteps|]. hsteps. by constructor.
Qed.

Lemma tc_emit_sound s : accepts (tc_emit i args anns s) c1 s.
Proof.
  assert (forall c2 (Q : option bytes -> Ctx -> Prop), (forall o, Q o c2) -> triple P c0 D (emit_tag anns) c2 Q) as Htag.
  { intros c2 Q HQ. unfold emit_tag. cstep. apply triple_single_field_ann. intros o _. cstep.
    destruct o as [tag|]; hsteps; [|apply HQ].
    pose proof (ep_check_safe tag). destruct (EntrypointRepr.check_ep_name_len tag); cbn in *; done. }
  unfold tc_emit. handler_cases; hsteps; apply Htag; hsteps; constructor.
Qed.

Lemma tc_create_contract_sound s : accepts (tc_create_contract rec_script i args s) c1 s.
Proof.
  unfold tc_create_contract. handler_cases. frag. hsteps. eapply triple_mono; [by apply Hscript|].
  cbn beta. intros cs c2 Hc2 [eps Hcs]. hsteps. by econstructor.
Qed.

Lemma no_args_sound m s : accepts m c1 s -> accepts (no_args i args m) c1 s.
Proof. intros H. unfold no_args. destruct args; [done|apply triple_fail]. Qed.

Lemma typecheck_app_sound p s :
  (e_strict env = true -> strict_prim p = true) ->
  accepts (typecheck_app rec_value rec_instr rec_script i self p args anns s) c1 s.
Proof.
  intros Hp. assert (strict_prim p = false -> e_strict env = false) as Hstrict.
  { intros Hf. destruct (e_strict env); [|done]. rewrite Hp in Hf by done. discriminate. }
  clear Hp. destruct p; unfold typecheck_app; cbn [unsupported_instruction]; try apply triple_fail;
    try apply no_args_sound; try (apply tc_context_sound; reflexivity);
    try (apply tc_int_test_sound; reflexivity); try (apply tc_hash_sound; reflexivity).
  all: lazymatch goal with
    | |- triple _ _ _ (tc_add _) _ _ => apply tc_arith_sound
    | |- triple _ _ _ (tc_mul _) _ _ => apply tc_arith_sound
    | |- triple _ _ _ (tc_neg _) _ _ => apply tc_arith_sound
    | |- triple _ _ _ (tc_sub_mutez _) _ _ => apply tc_arith_sound
    | |- triple _ _ _ (tc_logic _ _) _ _ => apply tc_logic_sound
    | |- triple _ _ _ (tc_not _) _ _ => apply tc_logic_sound
    | |- triple _ _ _ (tc_compare _) _ _ => apply tc_compare_sound
    | |- triple _ _ _ (tc_dip _ _ _ _ _) _ _ => apply tc_dip_sound
    | |- triple _ _ _ (tc_drop _ _ _) _ _ => apply tc_drop_sound
    | |- triple _ _ _ (tc_dup _ _ _) _ _ => apply tc_dup_sound
    | |- triple _ _ _ (tc_dig _ _ _) _ _ => apply tc_dig_sound
    | |- triple _ _ _ (tc_dug _ _ _) _ _ => apply tc_dug_sound
    | |- triple _ _ _ (tc_loop _ _ _ _ _) _ _ => apply tc_loop_sound
    | |- triple _ _ _ (tc_loop_left _ _ _ _ _) _ _ => apply tc_loop_sound
    | |- triple _ _ _ (tc_iter _ _ _ _ _) _ _ => apply tc_iter_map_sound
    | |- triple _ _ _ (tc_map _ _ _ _ _) _ _ => apply tc_iter_map_sound
    | |- triple _ _ _ (tc_push _ _ _ _) _ _ => apply tc_push_sound
    | |- triple _ _ _ (tc_pair _ _ _) _ _ => apply tc_pair_sound
    | |- triple _ _ _ (tc_unpair _ _ _) _ _ => apply tc_unpair_sound
    | |- triple _ _ _ (tc_get _ _ _) _ _ => apply tc_get_sound
    | |- triple _ _ _ (tc_update _ _ _) _ _ => apply tc_update_sound
    | |- triple _ _ _ (tc_lambda _ _ _ _ _) _ _ => apply tc_lambda_sound
    | |- triple _ _ _ (tc_self _ _ _) _ _ => apply tc_self_sound
    | |- triple _ _ _ (tc_unpack _ _ _) _ _ => apply tc_unpack_sound, Hstrict; reflexivity
    | |- triple _ _ _ (tc_contract _ _ _ _) _ _ => apply tc_contract_sound, Hstrict; reflexivity
    | |- triple _ _ _ (tc_ticket _) _ _ => apply tc_ticket_sound, Hstrict; reflexivity
    | |- triple _ _ _ (tc_emit _ _ _ _) _ _ => apply tc_emit_sound
    | |- triple _ _ _ (tc_create_contract _ _ _ _) _ _ => apply tc_create_contract_sound
    | |- _ => first [apply tc_conv_sound | apply tc_chain_sound | apply tc_data_sound | apply tc_tickets_sound
                    | apply tc_type_args_sound | apply tc_branches_sound]
    end.
Qed.
End instrs.

(** * Recursion *)

Section recursion.
Context {X : External} {XL : ExternalLaws X} (env : tenv) (P : panic -> Prop) (c0 : Ctx).
Context (Hctx : ctx_typed env c0) (HP : P PStackBounds /\ P PSlice).

Section step.
Context (D : Prop) (c : Ctx).
Context (rec_value : Micheline -> Type_ -> tcM TypedValue).
Context (rec_instr : Micheline -> option Entrypoints -> FailingTypeStack -> tcM (Instruction * FailingTypeStack)).
Context (rec_script : Micheline -> tcM ContractScript).
Context (Hval : forall v t c1, in_fragment env v -> ty_wf t = true -> (gas_left c1 < gas_left c)%N ->
triple P c0 D (rec_value v t) c1 (fun tv _ => value_typed env tv t)).
Context (Hins : forall i self f c1, in_fragment env i -> (gas_left c1 < gas_left c)%N ->
triple P c0 D (rec_instr i self f) c1
  (fun r _ => exists s, f = FOk s /\ instr_typed env self r.1 s r.2)).

(** [Micheline::typecheck_script]. *)
Lemma top_level_in_fragment l tl c1 (Q : TopLevel -> Ctx -> Prop) :
Forall (in_fragment env) l -> (forall m, tl_code tl = Some m -> in_fragment env m) ->
(forall tl' c', (gas_left c' <= gas_left c1)%N -> (forall m, tl_code tl' = Some m -> in_fragment env m) -> Q tl' c') ->
triple P c0 D (top_level l tl) c1 Q.
Proof.
intros Hl. revert tl c1. induction Hl as [|m l Hm Hl IH]; intros tl c1 Htl HQ; cbn [top_level].
{ csteps. by apply HQ. }
cstep. eapply (triple_mono _ _ _ _ _ (fun tl' _ => forall m, tl_code tl' = Some m -> in_fragment env m)).
- unfold set_if_none. repeat case_match; subst; csteps; frag; cbn in *; simplify_eq; eauto.
- intros tl' c2 Hc2 Htl' _. apply IH; [done|]. intros tl2 c3 Hc3 H3. apply HQ; [lia|done].
Qed.

Lemma typecheck_script_step_sound m c1 :
in_fragment env m ->
(forall i self f c2, in_fragment env i -> (gas_left c2 <= gas_left c1)%N ->
   triple P c0 D (rec_instr i self f) c2 (fun r _ => exists s, f = FOk s /\ instr_typed env self r.1 s r.2)) ->
triple P c0 D (typecheck_script_step rec_instr m) c1 (fun cs _ => exists eps, script_typed env eps cs).
Proof.
intros Hm Hrec. unfold typecheck_script_step. cstep.
eapply (triple_mono _ _ _ _ _ (fun l _ => Forall (in_fragment env) l)).
{ destruct m; try apply triple_fail. apply in_fragment_seq in Hm.
  repeat case_match; subst; csteps; try done; by frag. }
intros l c2 Hc2 Hl _. cstep. apply top_level_in_fragment; [done..|].
intros tl c3 Hc3 Htl _. unfold missing. csteps. apply triple_parse_parameter. csteps.
apply triple_parse_ty. csteps.
eapply triple_mono; [apply Hrec; [|lia]|].
{ apply Htl. by eapply ok_or_Ok. }
cbn beta. intros [code f] c4 Hc4 (s&[= <-]&Hcode). csteps. apply triple_unify_stacks.
intros r c5 Hc5 Hr Hf _ _. csteps. destruct Hr as [Hr|<-]; [done|]. eexists. by econstructor.
Qed.

Context (Hscript : forall m c1, in_fragment env m -> (gas_left c1 < gas_left c)%N ->
triple P c0 D (rec_script m) c1 (fun cs _ => exists eps, script_typed env eps cs)).

(** [typecheck_instruction]. *)
Lemma typecheck_instruction_step_sound i self f c1 :
in_fragment env i -> (gas_left c1 <= gas_left c)%N ->
triple P c0 D (typecheck_instruction_step rec_value rec_instr rec_script i self f) c1
  (fun r _ => exists s, f = FOk s /\ instr_typed env self r.1 s r.2).
Proof.
intros Hi Hc. unfold typecheck_instruction_step. apply triple_bind, triple_lift.
destruct f as [s|]; cbn; [|done]. intros _. apply triple_bind, triple_consume. intros c2 Hc2 _.
assert (gas_left c2 < gas_left c)%N as Hlt by (unfold tc_INSTR_STEP in Hc2; lia).
destruct i as [| | |p args anns|l]; csteps.
- frag. eapply triple_mono; [by eapply typecheck_app_sound|]. cbn. eauto.
- frag. csteps. eapply typecheck_sound; [done..|]. csteps. eexists. split; [done|]. by constructor.
Qed.
End step.

(** Fuel is only exhausted when there is at least as much gas. *)
Abbreviation fuel_out fuel c := (N.of_nat fuel <= gas_left c)%N.

Lemma typechecker_sound fuel :
  (forall v t c, in_fragment env v -> ty_wf t = true ->
     triple P c0 (fuel_out fuel c) (typecheck_value fuel v t) c (fun tv _ => value_typed env tv t)) /\
  (forall i self f c, in_fragment env i ->
     triple P c0 (fuel_out fuel c) (typecheck_instruction fuel i self f) c
       (fun r _ => exists s, f = FOk s /\ instr_typed env self r.1 s r.2)).
Proof.
  induction fuel as [|fuel [IHv IHi]].
  { split; intros; apply triple_diverge; lia. }
  assert (forall c, forall v t c1, in_fragment env v -> ty_wf t = true -> (gas_left c1 < gas_left c)%N ->
    triple P c0 (fuel_out (S fuel) c) (typecheck_value fuel v t) c1 (fun tv _ => value_typed env tv t)) as Hv.
  { intros c v t c1 Hv Ht Hc. eapply triple_weaken; [by apply IHv|done|lia|done]. }
  assert (forall c, forall i self f c1, in_fragment env i -> (gas_left c1 < gas_left c)%N ->
    triple P c0 (fuel_out (S fuel) c) (typecheck_instruction fuel i self f) c1
      (fun r _ => exists s, f = FOk s /\ instr_typed env self r.1 s r.2)) as Hi.
  { intros c i self f c1 Hi Hc. eapply triple_weaken; [by apply IHi|done|lia|done]. }
  split; intros; cbn [typecheck_value typecheck_instruction].
  - eapply typecheck_value_step_sound; [done|done|apply Hv|apply Hi|done|done|lia].
  - eapply typecheck_instruction_step_sound; [apply Hv|apply Hi| |done|lia].
    intros m c1 Hm Hc. apply typecheck_script_step_sound; [done|]. intros. apply Hi; [done|lia].
Qed.

Lemma typecheck_script_sound fuel m c :
  in_fragment env m ->
  triple P c0 (fuel_out fuel c) (typecheck_script fuel m) c (fun cs _ => exists eps, script_typed env eps cs).
Proof.
  intros Hm. apply typecheck_script_step_sound; [done|]. intros i self f c2 Hi Hc.
  eapply triple_weaken; [by apply typechecker_sound|done|lia|done].
Qed.
End recursion.
