(* ===== verification/Interpreter.v ===== *)
(** The interpreter.

    Models [contrib/mir/src/interpreter.rs].  The stack is a list from the top,
    passed to each handler and returned by it; an error carries no stack, as
    [ContractScript::interpret] drops the stack when an instruction fails.  The
    handlers follow the arms of [interpret_one] in the order in which they pop and
    charge gas.

    [interpret_step] is one instruction, given how to run a block; [run_one] and
    [run_block] add sequences, structurally; [interpret_fuel] ties the knot.  Each
    instruction that runs a block charges gas first, so fuel above the available
    milligas is enough ([InterpreterSound]). *)

From S2P Require Import Prelude Syntax Comparable Gas BigMap Stack External ByteRepr Serializer Context.
From S2P Require Import TypeProps Typechecker.

Inductive InterpretError : Type :=
  | IE_OutOfGas
  | IE_MutezOverflow
  | IE_FailedWith (t : Type_) (v : TypedValue)
  | IE_LazyStorageError (e : LazyStorageError).

Inductive ContractInterpretError : Type :=
  | CIE_TcError (e : TcError)
  | CIE_InterpretError (e : InterpretError).

Abbreviation ieM := (M Ctx InterpretError).

Definition ie_consume (n : N) : ieM unit := consume_gas IE_OutOfGas n.
Definition ie_consume_cost (c : cost) : ieM unit := consume_cost IE_OutOfGas c.

(** * Stack access *)

(** [pop!()] on an empty stack is [unreachable_state()]. *)
Definition pop (stack : IStack) : ieM (TypedValue * IStack) :=
  match stack with
  | v :: stack => mret (v, stack)
  | [] => panicked PUnreachable
  end.

(** [irrefutable_match!(v; V::Ctor)]. *)
Definition irrefutable {A} (proj : TypedValue -> option A) (v : TypedValue) : ieM A :=
  lift (expect PUnreachable (proj v)).

(** [pop!(V::Ctor)]. *)
Definition pop_as {A} (proj : TypedValue -> option A) (stack : IStack) : ieM (A * IStack) :=
  '(v, stack) ← pop stack; a ← irrefutable proj v; mret (a, stack).

(** [irrefutable_match!(&mut stack[0]; V::Ctor)]: the content and the rest of the stack. *)
Definition top_as {A} (proj : TypedValue -> option A) (stack : IStack) : ieM (A * IStack) :=
  v ← lift (TopFirst.index stack 0); a ← irrefutable proj v; mret (a, tail stack).

Definition as_Int (v : TypedValue) : option Z := match v with V_Int z => Some z | _ => None end.
Definition as_Nat (v : TypedValue) : option N := match v with V_Nat n => Some n | _ => None end.
Definition as_Mutez (v : TypedValue) : option Z := match v with V_Mutez z => Some z | _ => None end.
Definition as_Bool (v : TypedValue) : option bool := match v with V_Bool b => Some b | _ => None end.
Definition as_String (v : TypedValue) : option bytes := match v with V_String s => Some s | _ => None end.
Definition as_Bytes (v : TypedValue) : option bytes := match v with V_Bytes s => Some s | _ => None end.
Definition as_Fr (v : TypedValue) : option bytes := match v with V_Bls12381Fr x => Some x | _ => None end.
Definition as_G1 (v : TypedValue) : option bytes := match v with V_Bls12381G1 x => Some x | _ => None end.
Definition as_G2 (v : TypedValue) : option bytes := match v with V_Bls12381G2 x => Some x | _ => None end.
Definition as_Pair (v : TypedValue) : option (TypedValue * TypedValue) :=
  match v with V_Pair l r => Some (l, r) | _ => None end.
Definition as_Option (v : TypedValue) : option (option TypedValue) :=
  match v with V_Option o => Some o | _ => None end.
Definition as_Or (v : TypedValue) : option (Or TypedValue TypedValue) :=
  match v with V_Or o => Some o | _ => None end.
Definition as_List (v : TypedValue) : option (list TypedValue) :=
  match v with V_List l => Some l | _ => None end.
Definition as_Set (v : TypedValue) : option (list TypedValue) :=
  match v with V_Set l => Some l | _ => None end.
Definition as_Map (v : TypedValue) : option (list (TypedValue * TypedValue)) :=
  match v with V_Map l => Some l | _ => None end.
Definition as_BigMap (v : TypedValue) : option BigMap := match v with V_BigMap m => Some m | _ => None end.
Definition as_Key (v : TypedValue) : option Key := match v with V_Key k => Some k | _ => None end.
Definition as_KeyHash (v : TypedValue) : option KeyHash := match v with V_KeyHash k => Some k | _ => None end.
Definition as_Signature (v : TypedValue) : option Signature := match v with V_Signature s => Some s | _ => None end.
Definition as_Contract (v : TypedValue) : option Address := match v with V_Contract a => Some a | _ => None end.
Definition as_Address (v : TypedValue) : option Address := match v with V_Address a => Some a | _ => None end.
Definition as_Lambda (v : TypedValue) : option Closure := match v with V_Lambda c => Some c | _ => None end.
Definition as_Ticket (v : TypedValue) : option Ticket := match v with V_Ticket t => Some t | _ => None end.
Definition as_Operation (v : TypedValue) : option OperationInfo := match v with V_Operation o => Some o | _ => None end.

(** * Machine integers *)

(** [i64] range, [checked_add]/[checked_mul] and wrap-around. *)
Definition in_i64 (z : Z) : bool := ((- 2 ^ 63 <=? z) && (z <? 2 ^ 63))%Z.
Definition checked_i64 (z : Z) : option Z := if in_i64 z then Some z else None.
Definition wrap_i64 (z : Z) : Z := ((z + 2 ^ 63) mod 2 ^ 64 - 2 ^ 63)%Z.
Definition mutez_or_overflow (z : Z) : ieM Z := lift (ok_or IE_MutezOverflow (checked_i64 z)).
(** [i64::try_from(BigUint)]. *)
Definition nat_to_i64 (n : N) : ieM Z := mutez_or_overflow (Z.of_N n).

(** [usize::try_from] and [checked_add]. *)
Definition to_usize (n : N) : option N := if (n <=? U64_MAX)%N then Some n else None.

(** * Bytes *)

Definition byte_and (a b : byte) : byte := byte_of_N (N.land (Byte.to_N a) (Byte.to_N b)).
Definition byte_or (a b : byte) : byte := byte_of_N (N.lor (Byte.to_N a) (Byte.to_N b)).
Definition byte_xor (a b : byte) : byte := byte_of_N (N.lxor (Byte.to_N a) (Byte.to_N b)).
Definition byte_not (a : byte) : byte := byte_of_N (255 - Byte.to_N a).

(** [for (b1, b2) in zip(o1, o2.iter_mut()) { *b2 op= b1 }]. *)
Fixpoint zip_assign (op : byte -> byte -> byte) (l1 l2 : bytes) : bytes :=
  match l1, l2 with
  | b1 :: l1, b2 :: l2 => op b2 b1 :: zip_assign op l1 l2
  | _, l2 => l2
  end.
(** Aligned at the last byte. *)
Definition zip_assign_rev (op : byte -> byte -> byte) (o1 o2 : bytes) : bytes :=
  reverse (zip_assign op (reverse o1) (reverse o2)).

Definition bytes_and (o1 o2 : bytes) : bytes :=
  let '(o1, o2) := if length o1 <? length o2 then (o2, o1) else (o1, o2) in
  zip_assign_rev byte_and o1 o2.
Definition bytes_or (o1 o2 : bytes) : bytes :=
  let '(o1, o2) := if length o2 <? length o1 then (o2, o1) else (o1, o2) in
  zip_assign_rev byte_or o1 o2.
Definition bytes_xor (o1 o2 : bytes) : bytes :=
  let '(o1, o2) := if length o2 <? length o1 then (o2, o1) else (o1, o2) in
  zip_assign_rev byte_xor o1 o2.

(** [str::get(range)] and [slice::get(range)]. *)
Definition slice_get (s : bytes) (from to : nat) : option bytes :=
  if (from <=? to) && (to <=? length s) then Some (take (to - from) (drop from s)) else None.
Definition str_get (s : bytes) (from to : nat) : option bytes :=
  if is_char_boundary s from && is_char_boundary s to then slice_get s from to else None.

(** [validate_bounds] of [SLICE]. *)
Definition validate_bounds (offset length actual_length : N) : option (nat * nat) :=
  start ← to_usize offset;
  length ← to_usize length;
  stop ← to_usize (start + length);
  if (actual_length <=? start)%N then None else Some (N.to_nat start, N.to_nat stop).

(** * Arithmetic and logic *)

Section handlers.
Context {X : External}.

Definition i_add (o : ov_Add) (stack : IStack) : ieM IStack :=
  match o with
  | Add_IntInt =>
      '(o1, stack) ← pop_as as_Int stack;
      '(o2, stack) ← pop_as as_Int stack;
      _ ← ie_consume_cost (ic_add_num o1 o2);
      mret (V_Int (o1 + o2) :: stack)
  | Add_NatNat =>
      '(o1, stack) ← pop_as as_Nat stack;
      '(o2, stack) ← pop_as as_Nat stack;
      _ ← ie_consume_cost (ic_add_num o1 o2);
      mret (V_Nat (o1 + o2) :: stack)
  | Add_IntNat =>
      '(o1, stack) ← pop_as as_Int stack;
      '(o2, stack) ← pop_as as_Nat stack;
      _ ← ie_consume_cost (ic_add_num o1 o2);
      mret (V_Int (o1 + Z.of_N o2) :: stack)
  | Add_NatInt =>
      '(o1, stack) ← pop_as as_Nat stack;
      '(o2, stack) ← pop_as as_Int stack;
      _ ← ie_consume_cost (ic_add_num o1 o2);
      mret (V_Int (Z.of_N o1 + o2) :: stack)
  | Add_MutezMutez =>
      '(o1, stack) ← pop_as as_Mutez stack;
      '(o2, stack) ← pop_as as_Mutez stack;
      _ ← ie_consume ic_ADD_TEZ;
      sum ← mutez_or_overflow (o1 + o2);
      mret (V_Mutez sum :: stack)
  | Add_Bls12381Fr =>
      '(o1, stack) ← pop_as as_Fr stack;
      '(o2, stack) ← pop_as as_Fr stack;
      _ ← ie_consume ic_ADD_BLS_FR;
      mret (V_Bls12381Fr (x_fr_add o1 o2) :: stack)
  | Add_Bls12381G1 =>
      '(o1, stack) ← pop_as as_G1 stack;
      '(o2, stack) ← pop_as as_G1 stack;
      _ ← ie_consume ic_ADD_BLS_G1;
      mret (V_Bls12381G1 (x_p1_add o1 o2) :: stack)
  | Add_Bls12381G2 =>
      '(o1, stack) ← pop_as as_G2 stack;
      '(o2, stack) ← pop_as as_G2 stack;
      _ ← ie_consume ic_ADD_BLS_G2;
      mret (V_Bls12381G2 (x_p2_add o1 o2) :: stack)
  end.

Definition i_mul (o : ov_Mul) (stack : IStack) : ieM IStack :=
  match o with
  | Mul_NatNat =>
      '(x1, stack) ← pop_as as_Nat stack;
      '(x2, stack) ← pop_as as_Nat stack;
      _ ← ie_consume_cost (ic_mul_int x1 x2);
      mret (V_Nat (x1 * x2) :: stack)
  | Mul_NatInt =>
      '(x1, stack) ← pop_as as_Nat stack;
      '(x2, stack) ← pop_as as_Int stack;
      _ ← ie_consume_cost (ic_mul_int x1 x2);
      mret (V_Int (Z.of_N x1 * x2) :: stack)
  | Mul_IntNat =>
      '(x1, stack) ← pop_as as_Int stack;
      '(x2, stack) ← pop_as as_Nat stack;
      _ ← ie_consume_cost (ic_mul_int x1 x2);
      mret (V_Int (x1 * Z.of_N x2) :: stack)
  | Mul_IntInt =>
      '(x1, stack) ← pop_as as_Int stack;
      '(x2, stack) ← pop_as as_Int stack;
      _ ← ie_consume_cost (ic_mul_int x1 x2);
      mret (V_Int (x1 * x2) :: stack)
  | Mul_MutezNat =>
      _ ← ie_consume ic_MUL_TEZ_NAT;
      '(x1, stack) ← pop_as as_Mutez stack;
      '(x2, stack) ← pop_as as_Nat stack;
      x2 ← nat_to_i64 x2;
      res ← mutez_or_overflow (x1 * x2);
      mret (V_Mutez res :: stack)
  | Mul_NatMutez =>
      _ ← ie_consume ic_MUL_NAT_TEZ;
      '(x1, stack) ← pop_as as_Nat stack;
      x1 ← nat_to_i64 x1;
      '(x2, stack) ← pop_as as_Mutez stack;
      res ← mutez_or_overflow (x1 * x2);
      mret (V_Mutez res :: stack)
  | Mul_Bls12381G1Bls12381Fr =>
      _ ← ie_consume ic_MUL_BLS_G1;
      '(x1, stack) ← pop_as as_G1 stack;
      '(x2, stack) ← pop_as as_Fr stack;
      mret (V_Bls12381G1 (x_p1_mult x1 x2) :: stack)
  | Mul_Bls12381G2Bls12381Fr =>
      _ ← ie_consume ic_MUL_BLS_G2;
      '(x1, stack) ← pop_as as_G2 stack;
      '(x2, stack) ← pop_as as_Fr stack;
      mret (V_Bls12381G2 (x_p2_mult x1 x2) :: stack)
  | Mul_Bls12381FrBls12381Fr =>
      _ ← ie_consume ic_MUL_BLS_FR;
      '(x1, stack) ← pop_as as_Fr stack;
      '(x2, stack) ← pop_as as_Fr stack;
      mret (V_Bls12381Fr (x_fr_mul x1 x2) :: stack)
  | Mul_NatBls12381Fr =>
      '(n, stack) ← pop_as as_Nat stack;
      _ ← ie_consume_cost (ic_mul_bls_fr_big_int n);
      x1 ← lift (Fr_from_big_int (Z.of_N n));
      '(x2, stack) ← pop_as as_Fr stack;
      mret (V_Bls12381Fr (x_fr_mul x1 x2) :: stack)
  | Mul_IntBls12381Fr =>
      '(n, stack) ← pop_as as_Int stack;
      _ ← ie_consume_cost (ic_mul_bls_fr_big_int n);
      x1 ← lift (Fr_from_big_int n);
      '(x2, stack) ← pop_as as_Fr stack;
      mret (V_Bls12381Fr (x_fr_mul x1 x2) :: stack)
  | Mul_Bls12381FrNat =>
      '(x1, stack) ← pop_as as_Fr stack;
      '(n, stack) ← pop_as as_Nat stack;
      _ ← ie_consume_cost (ic_mul_bls_fr_big_int n);
      x2 ← lift (Fr_from_big_int (Z.of_N n));
      mret (V_Bls12381Fr (x_fr_mul x1 x2) :: stack)
  | Mul_Bls12381FrInt =>
      '(x1, stack) ← pop_as as_Fr stack;
      '(n, stack) ← pop_as as_Int stack;
      _ ← ie_consume_cost (ic_mul_bls_fr_big_int n);
      x2 ← lift (Fr_from_big_int n);
      mret (V_Bls12381Fr (x_fr_mul x1 x2) :: stack)
  end.

Definition i_neg (o : ov_Neg) (stack : IStack) : ieM IStack :=
  match o with
  | Neg_Nat =>
      '(v, stack) ← pop_as as_Nat stack;
      _ ← ie_consume_cost (ic_neg_int v);
      mret (V_Int (- Z.of_N v) :: stack)
  | Neg_Int =>
      '(v, stack) ← pop_as as_Int stack;
      _ ← ie_consume_cost (ic_neg_int v);
      mret (V_Int (- v) :: stack)
  | Neg_Bls12381G1 =>
      _ ← ie_consume ic_NEG_G1;
      '(v, stack) ← top_as as_G1 stack;
      mret (V_Bls12381G1 (x_p1_neg v) :: stack)
  | Neg_Bls12381G2 =>
      _ ← ie_consume ic_NEG_G2;
      '(v, stack) ← top_as as_G2 stack;
      mret (V_Bls12381G2 (x_p2_neg v) :: stack)
  | Neg_Bls12381Fr =>
      _ ← ie_consume ic_NEG_FR;
      '(v, stack) ← top_as as_Fr stack;
      mret (V_Bls12381Fr (x_fr_neg v) :: stack)
  end.

Definition i_sub_mutez (stack : IStack) : ieM IStack :=
  _ ← ie_consume ic_SUB_MUTEZ;
  '(v1, stack) ← pop_as as_Mutez stack;
  '(v2, stack) ← pop_as as_Mutez stack;
  if (v2 <=? v1)%Z then mret (V_Option (Some (V_Mutez (wrap_i64 (v1 - v2)))) :: stack)
  else mret (V_Option None :: stack).

Definition i_and (o : ov_And) (stack : IStack) : ieM IStack :=
  match o with
  | And_Bool =>
      '(o1, stack) ← pop_as as_Bool stack;
      '(o2, stack) ← top_as as_Bool stack;
      _ ← ie_consume ic_AND_BOOL;
      mret (V_Bool (o2 && o1) :: stack)
  | And_NatNat =>
      '(o1, stack) ← pop_as as_Nat stack;
      '(o2, stack) ← top_as as_Nat stack;
      _ ← ie_consume_cost (ic_and_num o1 o2);
      mret (V_Nat (N.land o2 o1) :: stack)
  | And_IntNat =>
      '(o1, stack) ← pop_as as_Int stack;
      '(o2, stack) ← pop_as as_Nat stack;
      _ ← ie_consume_cost (ic_and_num o1 o2);
      let r := Z.land o1 (Z.of_N o2) in
      res ← lift (expect PUnwrap (if (0 <=? r)%Z then Some (Z.to_N r) else None));
      mret (V_Nat res :: stack)
  | And_Bytes =>
      '(o1, stack) ← pop_as as_Bytes stack;
      '(o2, stack) ← top_as as_Bytes stack;
      _ ← ie_consume_cost (ic_and_bytes o1 o2);
      mret (V_Bytes (bytes_and o1 o2) :: stack)
  end.

Definition i_or (o : ov_Or) (stack : IStack) : ieM IStack :=
  match o with
  | Or_Bool =>
      '(o1, stack) ← pop_as as_Bool stack;
      '(o2, stack) ← top_as as_Bool stack;
      _ ← ie_consume ic_OR_BOOL;
      mret (V_Bool (o2 || o1) :: stack)
  | Or_Nat =>
      '(o1, stack) ← pop_as as_Nat stack;
      '(o2, stack) ← top_as as_Nat stack;
      _ ← ie_consume_cost (ic_or_num o1 o2);
      mret (V_Nat (N.lor o2 o1) :: stack)
  | Or_Bytes =>
      '(o1, stack) ← pop_as as_Bytes stack;
      '(o2, stack) ← top_as as_Bytes stack;
      _ ← ie_consume_cost (ic_or_bytes o1 o2);
      mret (V_Bytes (bytes_or o1 o2) :: stack)
  end.

(** [XOR] on bytes charges no gas. *)
Definition i_xor (o : ov_Xor) (stack : IStack) : ieM IStack :=
  match o with
  | Xor_Bool =>
      '(o1, stack) ← pop_as as_Bool stack;
      '(o2, stack) ← top_as as_Bool stack;
      _ ← ie_consume ic_XOR_BOOL;
      mret (V_Bool (xorb o2 o1) :: stack)
  | Xor_Nat =>
      '(o1, stack) ← pop_as as_Nat stack;
      '(o2, stack) ← top_as as_Nat stack;
      _ ← ie_consume_cost (ic_xor_nat o1 o2);
      mret (V_Nat (N.lxor o2 o1) :: stack)
  | Xor_Bytes =>
      '(o1, stack) ← pop_as as_Bytes stack;
      '(o2, stack) ← top_as as_Bytes stack;
      mret (V_Bytes (bytes_xor o1 o2) :: stack)
  end.

Definition i_not (o : ov_Not) (stack : IStack) : ieM IStack :=
  match o with
  | Not_Bool =>
      '(o, stack) ← top_as as_Bool stack;
      _ ← ie_consume ic_NOT_BOOL;
      mret (V_Bool (negb o) :: stack)
  | Not_Int =>
      '(o, stack) ← pop_as as_Int stack;
      _ ← ie_consume_cost (ic_not_num o);
      mret (V_Int (Z.lnot o) :: stack)
  | Not_Nat =>
      '(o, stack) ← pop_as as_Nat stack;
      _ ← ie_consume_cost (ic_not_num o);
      mret (V_Int (Z.lnot (Z.of_N o)) :: stack)
  | Not_Bytes =>
      '(o, stack) ← top_as as_Bytes stack;
      _ ← ie_consume_cost (ic_not_bytes o);
      mret (V_Bytes (map byte_not o) :: stack)
  end.

(** [GT], [GE], [EQ], [NEQ], [LE], [LT]. *)
Definition i_int_test (cost : N) (test : Z -> bool) (stack : IStack) : ieM IStack :=
  _ ← ie_consume cost;
  '(i, stack) ← pop_as as_Int stack;
  mret (V_Bool (test i) :: stack).

Definition i_abs (stack : IStack) : ieM IStack :=
  '(i, stack) ← pop_as as_Int stack;
  _ ← ie_consume_cost (ic_abs i);
  mret (V_Nat (Z.abs_N i) :: stack).

Definition i_isnat (stack : IStack) : ieM IStack :=
  '(i, stack) ← pop_as as_Int stack;
  _ ← ie_consume ic_ISNAT;
  mret (V_Option (if (0 <=? i)%Z then Some (V_Nat (Z.to_N i)) else None) :: stack).

Definition i_int (o : ov_Int) (stack : IStack) : ieM IStack :=
  match o with
  | Int_Nat =>
      '(i, stack) ← pop_as as_Nat stack;
      _ ← ie_consume ic_INT_NAT;
      mret (V_Int (Z.of_N i) :: stack)
  | Int_Bls12381Fr =>
      '(i, stack) ← pop_as as_Fr stack;
      _ ← ie_consume ic_INT_BLS_FR;
      mret (V_Int (Fr_to_big_int i) :: stack)
  | Int_Bytes =>
      '(i, stack) ← pop_as as_Bytes stack;
      _ ← ie_consume_cost (ic_int_bytes (len i));
      mret (V_Int (from_signed_bytes_be i) :: stack)
  end.

Definition i_nat (stack : IStack) : ieM IStack :=
  '(i, stack) ← pop_as as_Bytes stack;
  _ ← ie_consume_cost (ic_int_bytes (len i));
  mret (V_Nat (from_bytes_be i) :: stack).

Definition i_bytes (o : ov_Bytes) (stack : IStack) : ieM IStack :=
  match o with
  | Bytes_Nat =>
      '(i, stack) ← pop_as as_Nat stack;
      _ ← ie_consume_cost (ic_bytes_nat i);
      mret (V_Bytes (if (i =? 0)%N then [] else to_bytes_be i) :: stack)
  | Bytes_Int =>
      '(i, stack) ← pop_as as_Int stack;
      _ ← ie_consume_cost (ic_bytes_int i);
      mret (V_Bytes (if (i =? 0)%Z then [] else to_signed_bytes_be i) :: stack)
  end.

Definition i_compare (stack : IStack) : ieM IStack :=
  '(l, stack) ← pop stack;
  '(r, stack) ← pop stack;
  _ ← ie_consume_cost (ic_compare l r);
  cmp ← lift (expect PIncomparable (partial_cmp l r));
  mret (V_Int (match cmp with Lt => -1 | Eq => 0 | Gt => 1 end)%Z :: stack).

(** * Stack manipulation *)

Definition i_drop (opt_height : option nat) (stack : IStack) : ieM IStack :=
  _ ← ie_consume_cost (ic_drop opt_height);
  lift (TopFirst.drop_top stack (default 1 opt_height)).

(** [stack[dup_height - 1]]: a height of 0 underflows to an index out of bounds. *)
Definition i_dup (opt_height : option nat) (stack : IStack) : ieM IStack :=
  _ ← ie_consume_cost (ic_dup opt_height);
  match default 1 opt_height with
  | 0 => panicked PStackBounds
  | S i => v ← lift (TopFirst.index stack i); mret (v :: stack)
  end.

Definition i_dig (dig_height : nat) (stack : IStack) : ieM IStack :=
  _ ← ie_consume_cost (ic_dig dig_height);
  if 0 <? dig_height then
    '(e, stack) ← lift (TopFirst.remove stack dig_height);
    mret (e :: stack)
  else mret stack.

Definition i_dug (dug_height : nat) (stack : IStack) : ieM IStack :=
  _ ← ie_consume_cost (ic_dug dug_height);
  if 0 <? dug_height then
    '(e, stack) ← pop stack;
    lift (TopFirst.insert stack dug_height e)
  else mret stack.

Definition i_swap (stack : IStack) : ieM IStack :=
  _ ← ie_consume ic_SWAP;
  lift (TopFirst.swap stack 0 1).

(** Instructions that charge a constant and push a value. *)
Definition i_push (cost : N) (v : TypedValue) (stack : IStack) : ieM IStack :=
  _ ← ie_consume cost;
  mret (v :: stack).

(** Those that push a value of the context. *)
Definition i_context (cost : N) (v : Ctx -> TypedValue) (stack : IStack) : ieM IStack :=
  _ ← ie_consume cost;
  ctx ← get;
  mret (v ctx :: stack).

(** * Pairs, unions, options, lists *)

Definition i_car (stack : IStack) : ieM IStack :=
  _ ← ie_consume ic_CAR;
  '((l, _), stack) ← pop_as as_Pair stack;
  mret (l :: stack).

Definition i_cdr (stack : IStack) : ieM IStack :=
  _ ← ie_consume ic_CDR;
  '((_, r), stack) ← pop_as as_Pair stack;
  mret (r :: stack).

Definition i_pair (stack : IStack) : ieM IStack :=
  _ ← ie_consume ic_PAIR;
  '(l, stack) ← pop stack;
  '(r, stack) ← pop stack;
  mret (V_Pair l r :: stack).

Definition i_pair_n (n : nat) (stack : IStack) : ieM IStack :=
  _ ← ie_consume_cost (ic_pair_n n);
  '(top, stack) ← lift (TopFirst.split_off stack n);
  res ← lift (expect PUnwrap (comb V_Pair top));
  mret (res :: stack).

Definition i_unpair (stack : IStack) : ieM IStack :=
  _ ← ie_consume ic_UNPAIR;
  '((l, r), stack) ← pop_as as_Pair stack;
  mret (l :: r :: stack).

(** [fill] of [UNPAIR n]. *)
Fixpoint fill (n : nat) (stack : IStack) (p : TypedValue) : ieM IStack :=
  match n, p with
  | 0, p => mret (p :: stack)
  | S n, V_Pair p0 p1 => stack ← fill n stack p1; mret (p0 :: stack)
  | S _, _ => panicked PUnreachable
  end.

(** The cost subtracts 2 from [n], so that [n - 1] does not underflow. *)
Definition i_unpair_n (n : nat) (stack : IStack) : ieM IStack :=
  _ ← ie_consume_cost (ic_unpair_n n);
  '(p, stack) ← pop stack;
  fill (n - 1) stack p.

Definition i_some (stack : IStack) : ieM IStack :=
  _ ← ie_consume ic_SOME;
  '(v, stack) ← pop stack;
  mret (V_Option (Some v) :: stack).

Definition i_cons (stack : IStack) : ieM IStack :=
  _ ← ie_consume ic_CONS;
  '(elt, stack) ← pop stack;
  '(lst, stack) ← pop_as as_List stack;
  mret (V_List (elt :: lst) :: stack).

Definition i_left (stack : IStack) : ieM IStack :=
  _ ← ie_consume ic_LEFT;
  '(v, stack) ← pop stack;
  mret (V_Or (Or_Left v) :: stack).

Definition i_right (stack : IStack) : ieM IStack :=
  _ ← ie_consume ic_RIGHT;
  '(v, stack) ← pop stack;
  mret (V_Or (Or_Right v) :: stack).

(** The total length, then the concatenation. *)
Definition total_len (l : list bytes) : Checked := fold_left (fun acc s => (acc + cst (len s))%c64) l (cst 0).

Definition i_concat (o : ov_Concat) (stack : IStack) : ieM IStack :=
  match o with
  | Concat_TwoStrings =>
      '(s1, stack) ← pop_as as_String stack;
      '(s2, stack) ← pop_as as_String stack;
      _ ← ie_consume_cost (ic_concat_string_pair (len s1) (len s2));
      mret (V_String (s1 ++ s2) :: stack)
  | Concat_TwoBytes =>
      '(s1, stack) ← pop_as as_Bytes stack;
      '(s2, stack) ← pop_as as_Bytes stack;
      _ ← ie_consume_cost (ic_concat_bytes_pair (len s1) (len s2));
      mret (V_Bytes (s1 ++ s2) :: stack)
  | Concat_ListOfStrings =>
      '(l, stack) ← pop_as as_List stack;
      _ ← ie_consume_cost (ic_concat_list_precheck (len l));
      ss ← mapM (irrefutable as_String) l;
      _ ← ie_consume_cost (ic_concat_string_list (total_len ss));
      _ ← lift (ok_or IE_OutOfGas (total_len ss));
      mret (V_String (concat ss) :: stack)
  | Concat_ListOfBytes =>
      '(l, stack) ← pop_as as_List stack;
      _ ← ie_consume_cost (ic_concat_list_precheck (len l));
      ss ← mapM (irrefutable as_Bytes) l;
      _ ← ie_consume_cost (ic_concat_bytes_list (total_len ss));
      _ ← lift (ok_or IE_OutOfGas (total_len ss));
      mret (V_Bytes (concat ss) :: stack)
  end.

(** [get_nth_field_ref]: reading the component and assigning through it. *)
Fixpoint get_nth_field (m : nat) (val : TypedValue) {struct val} : option TypedValue :=
  match m, val with
  | 0, val => Some val
  | 1, V_Pair a _ => Some a
  | S (S m), V_Pair _ b => get_nth_field m b
  | _, _ => None
  end.
Fixpoint set_nth_field (m : nat) (val new : TypedValue) {struct val} : option TypedValue :=
  match m, val with
  | 0, _ => Some new
  | 1, V_Pair _ b => Some (V_Pair new b)
  | S (S m), V_Pair a b => V_Pair a <$> set_nth_field m b new
  | _, _ => None
  end.

Definition i_get_n (n : nat) (stack : IStack) : ieM IStack :=
  _ ← ie_consume_cost (ic_get_n n);
  v ← lift (TopFirst.index stack 0);
  res ← lift (expect PUnreachable (get_nth_field n v));
  mret (res :: tail stack).

Definition i_update_n (n : nat) (stack : IStack) : ieM IStack :=
  _ ← ie_consume_cost (ic_update_n n);
  '(new_val, stack) ← pop stack;
  v ← lift (TopFirst.index stack 0);
  res ← lift (expect PUnreachable (set_nth_field n v new_val));
  mret (res :: tail stack).

(** * Containers *)

Definition i_mem (o : ov_Mem) (stack : IStack) : ieM IStack :=
  '(key, stack) ← pop stack;
  match o with
  | Mem_Set =>
      '(set, stack) ← pop_as as_Set stack;
      _ ← ie_consume_cost (ic_set_mem key (len set));
      r ← lift (bt_find (fun x => x) key set);
      mret (V_Bool (bool_decide (is_Some r)) :: stack)
  | Mem_Map =>
      '(m, stack) ← pop_as as_Map stack;
      _ ← ie_consume_cost (ic_map_mem key (len m));
      r ← lift (bt_find fst key m);
      mret (V_Bool (bool_decide (is_Some r)) :: stack)
  | Mem_BigMap =>
      '(m, stack) ← pop_as as_BigMap stack;
      _ ← ie_consume_cost (ic_map_mem key (len (bm_overlay m)));
      ctx ← get;
      r ← lift (map_err IE_LazyStorageError (BigMap_mem m key (big_map_storage ctx)));
      mret (V_Bool r :: stack)
  end.

Definition i_get (o : ov_Get) (stack : IStack) : ieM IStack :=
  '(key, stack) ← pop stack;
  match o with
  | Get_Map =>
      '(m, stack) ← pop_as as_Map stack;
      _ ← ie_consume_cost (ic_map_get key (len m));
      r ← lift (bt_find fst key m);
      mret (V_Option (snd <$> r) :: stack)
  | Get_BigMap =>
      '(m, stack) ← pop_as as_BigMap stack;
      _ ← ie_consume_cost (ic_map_get key (len (bm_overlay m)));
      ctx ← get;
      r ← lift (map_err IE_LazyStorageError (BigMap_get m key (big_map_storage ctx)));
      mret (V_Option r :: stack)
  end.

(** [map.remove(&key)] or [map.insert(key, val)]: the previous value and the new map. *)
Definition map_set (key : TypedValue) (opt_new_val : option TypedValue) (m : list (TypedValue * TypedValue))
  : ieM (option TypedValue * list (TypedValue * TypedValue)) :=
  '(old, m) ← lift (match opt_new_val with
                    | None => bt_remove fst key m
                    | Some val => bt_insert fst (key, val) m
                    end);
  mret (snd <$> old, m).

Definition i_update (o : ov_Update) (stack : IStack) : ieM IStack :=
  '(key, stack) ← pop stack;
  match o with
  | Update_Set =>
      '(new_present, stack) ← pop_as as_Bool stack;
      '(set, stack) ← top_as as_Set stack;
      _ ← ie_consume_cost (ic_set_update key (len set));
      '(_, set) ← lift (match new_present with
                        | true => bt_insert (fun x => x) key set
                        | false => bt_remove (fun x => x) key set
                        end);
      mret (V_Set set :: stack)
  | Update_Map =>
      '(opt_new_val, stack) ← pop_as as_Option stack;
      '(m, stack) ← top_as as_Map stack;
      _ ← ie_consume_cost (ic_map_update key (len m));
      '(_, m) ← map_set key opt_new_val m;
      mret (V_Map m :: stack)
  | Update_BigMap =>
      '(opt_new_val, stack) ← pop_as as_Option stack;
      '(m, stack) ← top_as as_BigMap stack;
      _ ← ie_consume_cost (ic_map_update key (len (bm_overlay m)));
      m ← lift (BigMap_update m key opt_new_val);
      mret (V_BigMap m :: stack)
  end.

Definition i_get_and_update (o : ov_GetAndUpdate) (stack : IStack) : ieM IStack :=
  '(key, stack) ← pop stack;
  '(opt_new_val, stack) ← pop_as as_Option stack;
  match o with
  | GetAndUpdate_Map =>
      '(m, stack) ← top_as as_Map stack;
      _ ← ie_consume_cost (ic_map_get_and_update key (len m));
      '(opt_old_val, m) ← map_set key opt_new_val m;
      mret (V_Option opt_old_val :: V_Map m :: stack)
  | GetAndUpdate_BigMap =>
      '(m, stack) ← top_as as_BigMap stack;
      _ ← ie_consume_cost (ic_map_get_and_update key (len (bm_overlay m)));
      ctx ← get;
      opt_old_val ← lift (map_err IE_LazyStorageError (BigMap_get m key (big_map_storage ctx)));
      m ← lift (BigMap_update m key opt_new_val);
      mret (V_Option opt_old_val :: V_BigMap m :: stack)
  end.

(** [run_size!]. *)
Definition run_size {A} (proj : TypedValue -> option (list A)) (cost : N) (stack : IStack) : ieM IStack :=
  '(e, stack) ← pop_as proj stack;
  _ ← ie_consume cost;
  mret (V_Nat (len e) :: stack).
Definition i_size (o : ov_Size) (stack : IStack) : ieM IStack :=
  match o with
  | Size_String => run_size as_String ic_SIZE_STRING stack
  | Size_Bytes => run_size as_Bytes ic_SIZE_BYTES stack
  | Size_List => run_size as_List ic_SIZE_LIST stack
  | Size_Set => run_size as_Set ic_SIZE_SET stack
  | Size_Map => run_size as_Map ic_SIZE_MAP stack
  end.

Definition i_slice (o : ov_Slice) (stack : IStack) : ieM IStack :=
  '(offset, stack) ← pop_as as_Nat stack;
  '(length, stack) ← pop_as as_Nat stack;
  match o with
  | Slice_String =>
      '(s, stack) ← pop_as as_String stack;
      _ ← ie_consume_cost (ic_slice (len s));
      let r := validate_bounds offset length (len s) ≫= fun '(a, b) => str_get s a b in
      mret (V_Option (V_String <$> r) :: stack)
  | Slice_Bytes =>
      '(s, stack) ← pop_as as_Bytes stack;
      _ ← ie_consume_cost (ic_slice (len s));
      let r := validate_bounds offset length (len s) ≫= fun '(a, b) => slice_get s a b in
      mret (V_Option (V_Bytes <$> r) :: stack)
  end.

(** * Serialization, keys, hashes *)

Definition i_pack (stack : IStack) : ieM IStack :=
  _ ← ie_consume ic_PACK;
  '(v, stack) ← pop stack;
  let mich := value_into_micheline v in
  _ ← ie_consume_cost (ic_micheline_encoding mich);
  mret (V_Bytes (encode_for_pack mich) :: stack).

(** [UNPACK] calls the typechecker; any error of it, out of gas included, is [None]. *)
Definition i_unpack (tc_value : Micheline -> Type_ -> tcM TypedValue) (ty : Type_) (stack : IStack)
  : ieM IStack :=
  '(bs, stack) ← pop_as as_Bytes stack;
  _ ← ie_consume_cost (ic_unpack bs);
  r ← match decode_packed bs with
      | Ok mich => M_ok (tc_value mich ty)
      | Err _ => mret None
      | Panic p => panicked p
      | Diverge => diverge
      end;
  mret (V_Option r :: stack).

Definition i_check_signature (stack : IStack) : ieM IStack :=
  '(key, stack) ← pop_as as_Key stack;
  '(sig, stack) ← pop_as as_Signature stack;
  '(msg, stack) ← pop_as as_Bytes stack;
  _ ← ie_consume_cost (ic_check_signature key msg);
  b ← lift (Signature_check sig key msg);
  mret (V_Bool b :: stack).

Definition i_hash_key (stack : IStack) : ieM IStack :=
  _ ← ie_consume ic_HASH_KEY;
  '(key, stack) ← pop_as as_Key stack;
  h ← lift (Key_hash key);
  mret (V_KeyHash h :: stack).

Definition i_hash (cost : bytes -> cost) (digest : bytes -> bytes) (stack : IStack) : ieM IStack :=
  '(msg, stack) ← top_as as_Bytes stack;
  _ ← ie_consume_cost (cost msg);
  mret (V_Bytes (digest msg) :: stack).

(** The elements of the list as pairs of points. *)
Definition as_points (v : TypedValue) : option (bytes * bytes) :=
  '(a, b) ← as_Pair v; g1 ← as_G1 a; g2 ← as_G2 b; Some (g1, g2).

Definition i_pairing_check (stack : IStack) : ieM IStack :=
  '(l, stack) ← pop_as as_List stack;
  _ ← ie_consume_cost (ic_pairing_check (len l));
  ps ← mapM (irrefutable as_points) l;
  mret (V_Bool (pairing_check ps) :: stack).

(** * Contracts and operations *)

Definition i_address (stack : IStack) : ieM IStack :=
  _ ← ie_consume ic_ADDRESS;
  '(a, stack) ← pop_as as_Contract stack;
  mret (V_Address a :: stack).

(** [CONTRACT]: any error, out of gas included, is [None]. *)
Definition i_contract (typ : Type_) (ep : Entrypoint) (stack : IStack) : ieM IStack :=
  _ ← ie_consume ic_CONTRACT;
  '(address, stack) ← pop_as as_Address stack;
  r ← M_ok (typecheck_contract_address address ep typ);
  mret (V_Option (V_Contract <$> r) :: stack).

Definition i_implicit_account (stack : IStack) : ieM IStack :=
  _ ← ie_consume ic_IMPLICIT_ACCOUNT;
  '(keyhash, stack) ← pop_as as_KeyHash stack;
  mret (V_Contract (mkAddress (Implicit keyhash) default_ep) :: stack).

Definition i_voting_power (stack : IStack) : ieM IStack :=
  _ ← ie_consume ic_VOTING_POWER;
  '(keyhash, stack) ← pop_as as_KeyHash stack;
  ctx ← get;
  mret (V_Nat (voting_powers ctx keyhash) :: stack).

Definition new_operation (o : Operation) (counter : Z) : TypedValue := V_Operation (mkOperationInfo o counter).

Definition i_transfer_tokens (stack : IStack) : ieM IStack :=
  '(param, stack) ← pop stack;
  '(mutez_amount, stack) ← pop_as as_Mutez stack;
  '(contract_address, stack) ← pop_as as_Contract stack;
  counter ← operation_counter;
  _ ← ie_consume ic_TRANSFER_TOKENS;
  mret (new_operation (Op_TransferTokens param contract_address mutez_amount) counter :: stack).

(** [opt.map(|kh| irrefutable_match!(kh; V::KeyHash))]. *)
Definition opt_keyhash (o : option TypedValue) : ieM (option KeyHash) :=
  match o with
  | None => mret None
  | Some v => k ← irrefutable as_KeyHash v; mret (Some k)
  end.

Definition i_set_delegate (stack : IStack) : ieM IStack :=
  '(o, stack) ← pop_as as_Option stack;
  delegate ← opt_keyhash o;
  counter ← operation_counter;
  _ ← ie_consume ic_SET_DELEGATE;
  mret (new_operation (Op_SetDelegate delegate) counter :: stack).

Definition i_emit (tag : option bytes) (arg_ty : Or Type_ Micheline) (stack : IStack) : ieM IStack :=
  counter ← operation_counter;
  '(emit_val, stack) ← pop stack;
  _ ← ie_consume ic_EMIT;
  mret (new_operation (Op_Emit tag emit_val arg_ty) counter :: stack).

Definition i_create_contract (cs : ContractScript) (micheline : Micheline) (stack : IStack) : ieM IStack :=
  _ ← ie_consume ic_CREATE_CONTRACT;
  counter ← operation_counter;
  '(o, stack) ← pop_as as_Option stack;
  delegate ← opt_keyhash o;
  '(amount, stack) ← pop_as as_Mutez stack;
  '(storage, stack) ← pop stack;
  o_index ← origination_counter;
  ctx ← get;
  addr ← lift (compute_contract_address (operation_group_hash ctx) o_index);
  mret (new_operation (Op_CreateContract delegate amount storage cs micheline) counter ::
        V_Address addr :: stack).

(** * Tickets *)

Definition i_ticket (stack : IStack) : ieM IStack :=
  '(content, stack) ← pop stack;
  '(amount, stack) ← pop_as as_Nat stack;
  _ ← ie_consume ic_TICKET;
  ctx ← get;
  if (amount =? 0)%N then mret (V_Option None :: stack)
  else mret (V_Option (Some (V_Ticket (mkTicket (self_address ctx) content amount))) :: stack).

Definition i_read_ticket (stack : IStack) : ieM IStack :=
  _ ← ie_consume ic_READ_TICKET;
  '(t, _) ← top_as as_Ticket stack;
  mret (unwrap_ticket t :: stack).

Definition with_amount (n : N) (t : Ticket) : Ticket := mkTicket (tk_ticketer t) (tk_content t) n.

Definition i_split_ticket (stack : IStack) : ieM IStack :=
  '(ticket, stack) ← pop_as as_Ticket stack;
  '((l, r), stack) ← pop_as as_Pair stack;
  amount_left ← irrefutable as_Nat l;
  amount_right ← irrefutable as_Nat r;
  _ ← ie_consume_cost (ic_split_ticket amount_left amount_right);
  if ((amount_left + amount_right =? tk_amount ticket) && (0 <? amount_left) && (0 <? amount_right))%N then
    mret (V_Option (Some (V_Pair (V_Ticket (with_amount amount_left ticket))
                            (V_Ticket (with_amount amount_right ticket)))) :: stack)
  else mret (V_Option None :: stack).

(** The contents are compared by the cost function first, which panics on
    incomparable ones; on the others [==] is [comparable_eqb], see [compared_eq]. *)
Definition i_join_tickets (stack : IStack) : ieM IStack :=
  '((l, r), stack) ← pop_as as_Pair stack;
  ticket_left ← irrefutable as_Ticket l;
  ticket_right ← irrefutable as_Ticket r;
  _ ← ie_consume_cost (ic_join_tickets ticket_left ticket_right);
  if comparable_eqb (tk_content ticket_left) (tk_content ticket_right)
     && bool_decide (tk_ticketer ticket_left = tk_ticketer ticket_right) then
    mret (V_Option (Some (V_Ticket (with_amount (tk_amount ticket_left + tk_amount ticket_right) ticket_left)))
          :: stack)
  else mret (V_Option None :: stack).

(** * Control flow *)

Section blocks.
(** [interpret] on a nested block, the typechecker [UNPACK] uses, and a bound on the
    iterations of a loop. *)
Context (interpret : list Instruction -> IStack -> ieM IStack).
Context (tc_value : Micheline -> Type_ -> tcM TypedValue).
Context (loop_fuel : nat).

Definition i_dip (opt_height : option nat) (nested : list Instruction) (stack : IStack) : ieM IStack :=
  _ ← ie_consume_cost (ic_dip opt_height);
  let protected_height := default 1 opt_height in
  '(protected, stack) ← lift (TopFirst.split_off stack protected_height);
  stack ← interpret nested stack;
  _ ← ie_consume_cost (ic_undip protected_height);
  mret (protected ++ stack).

Definition i_if (nested_t nested_f : list Instruction) (stack : IStack) : ieM IStack :=
  _ ← ie_consume ic_IF;
  '(b, stack) ← pop_as as_Bool stack;
  match b with
  | true => interpret nested_t stack
  | false => interpret nested_f stack
  end.

Definition i_if_none (when_none when_some : list Instruction) (stack : IStack) : ieM IStack :=
  _ ← ie_consume ic_IF_NONE;
  '(o, stack) ← pop_as as_Option stack;
  match o with
  | Some x => interpret when_some (x :: stack)
  | None => interpret when_none stack
  end.

Definition i_if_cons (when_cons when_nil : list Instruction) (stack : IStack) : ieM IStack :=
  _ ← ie_consume ic_IF_CONS;
  '(lst, stack) ← top_as as_List stack;
  match lst with
  | x :: lst => interpret when_cons (x :: V_List lst :: stack)
  | [] => interpret when_nil stack
  end.

Definition i_if_left (when_left when_right : list Instruction) (stack : IStack) : ieM IStack :=
  _ ← ie_consume ic_IF_LEFT;
  '(o, stack) ← pop_as as_Or stack;
  match o with
  | Or_Left x => interpret when_left (x :: stack)
  | Or_Right x => interpret when_right (x :: stack)
  end.

(** The body of [LOOP], at most [n] times. *)
Fixpoint i_loop_from (n : nat) (nested : list Instruction) (stack : IStack) : ieM IStack :=
  match n with
  | 0 => diverge
  | S n =>
      _ ← ie_consume ic_LOOP;
      '(b, stack) ← pop_as as_Bool stack;
      match b with
      | true => stack ← interpret nested stack; i_loop_from n nested stack
      | false => _ ← ie_consume ic_LOOP_EXIT; mret stack
      end
  end.
Definition i_loop (nested : list Instruction) (stack : IStack) : ieM IStack :=
  _ ← ie_consume ic_LOOP_ENTER;
  i_loop_from loop_fuel nested stack.

Fixpoint i_loop_left_from (n : nat) (nested : list Instruction) (stack : IStack) : ieM IStack :=
  match n with
  | 0 => diverge
  | S n =>
      _ ← ie_consume ic_LOOP;
      '(o, stack) ← pop_as as_Or stack;
      match o with
      | Or_Left x => stack ← interpret nested (x :: stack); i_loop_left_from n nested stack
      | Or_Right x => _ ← ie_consume ic_LOOP_EXIT; mret (x :: stack)
      end
  end.
Definition i_loop_left (nested : list Instruction) (stack : IStack) : ieM IStack :=
  _ ← ie_consume ic_LOOP_LEFT_ENTER;
  i_loop_left_from loop_fuel nested stack.

(** The loop of [ITER] over the elements to push. *)
Fixpoint iter_over (nested : list Instruction) (elts : list TypedValue) (stack : IStack) : ieM IStack :=
  match elts with
  | [] => mret stack
  | e :: elts =>
      _ ← ie_consume ic_PUSH;
      stack ← interpret nested (e :: stack);
      iter_over nested elts stack
  end.
Definition pair_of (kv : TypedValue * TypedValue) : TypedValue := V_Pair kv.1 kv.2.
Definition i_iter (o : ov_Iter) (nested : list Instruction) (stack : IStack) : ieM IStack :=
  _ ← ie_consume ic_ITER;
  match o with
  | Iter_List => '(l, stack) ← pop_as as_List stack; iter_over nested l stack
  | Iter_Set => '(l, stack) ← pop_as as_Set stack; iter_over nested l stack
  | Iter_Map => '(m, stack) ← pop_as as_Map stack; iter_over nested (map pair_of m) stack
  end.

(** The loop of [MAP]: the results, and the stack left below them. *)
Fixpoint map_over (nested : list Instruction) (elts : list TypedValue) (stack : IStack)
  : ieM (list TypedValue * IStack) :=
  match elts with
  | [] => mret ([], stack)
  | e :: elts =>
      _ ← ie_consume ic_PUSH;
      stack ← interpret nested (e :: stack);
      '(r, stack) ← pop stack;
      '(rs, stack) ← map_over nested elts stack;
      mret (r :: rs, stack)
  end.
Definition i_map (o : ov_Map) (nested : list Instruction) (stack : IStack) : ieM IStack :=
  match o with
  | Map_List =>
      _ ← ie_consume ic_MAP_LIST;
      '(l, stack) ← pop_as as_List stack;
      '(rs, stack) ← map_over nested l stack;
      mret (V_List rs :: stack)
  | Map_Option =>
      _ ← ie_consume ic_MAP_OPTION;
      '(o, stack) ← pop_as as_Option stack;
      match o with
      | Some elem =>
          _ ← ie_consume ic_PUSH;
          stack ← interpret nested (elem :: stack);
          '(r, stack) ← pop stack;
          mret (V_Option (Some r) :: stack)
      | None => mret (V_Option None :: stack)
      end
  | Map_Map =>
      _ ← ie_consume ic_MAP_MAP;
      '(m, stack) ← pop_as as_Map stack;
      '(rs, stack) ← map_over nested (map pair_of m) stack;
      mret (V_Map (zip (map fst m) rs) :: stack)
  end.

(** The loop of [EXEC]: partial applications are unwound, then the code runs on a
    stack of its own. *)
Fixpoint exec_closure (closure : Closure) (arg : TypedValue) : ieM TypedValue :=
  match closure with
  | Closure_Lambda lam =>
      res_stk ← match lam with
                | Lambda_LambdaRec _ _ _ code => interpret code [arg; V_Lambda (Closure_Lambda lam)]
                | Lambda_Lambda _ code => interpret code [arg]
                end;
      '(r, _) ← pop res_stk;
      mret r
  | Closure_Apply _ arg_val inner =>
      _ ← ie_consume ic_PAIR;
      exec_closure inner (V_Pair arg_val arg)
  end.
Definition i_exec (stack : IStack) : ieM IStack :=
  _ ← ie_consume ic_EXEC;
  '(arg, stack) ← pop stack;
  '(closure, stack) ← pop_as as_Lambda stack;
  r ← exec_closure closure arg;
  mret (r :: stack).

Definition i_apply (arg_ty : Type_) (stack : IStack) : ieM IStack :=
  '(arg_val, stack) ← pop stack;
  '(closure, stack) ← pop_as as_Lambda stack;
  _ ← ie_consume ic_APPLY;
  mret (V_Lambda (Closure_Apply arg_ty arg_val closure) :: stack).

Definition i_failwith (ty : Type_) (stack : IStack) : ieM IStack :=
  '(x, stack) ← pop stack;
  fail (IE_FailedWith ty x).

(** An address of the context, at the default entrypoint. *)
Definition V_default_address (h : AddressHash) : TypedValue := V_Address (mkAddress h default_ep).

(** [interpret_one]; sequences are run by [run_one]. *)
Definition interpret_step (i : Instruction) (stack : IStack) : ieM IStack :=
  match i with
  | I_Add o => i_add o stack
  | I_Mul o => i_mul o stack
  | I_Neg o => i_neg o stack
  | I_SubMutez => i_sub_mutez stack
  | I_And o => i_and o stack
  | I_Or o => i_or o stack
  | I_Xor o => i_xor o stack
  | I_Not o => i_not o stack
  | I_Dip n nested => i_dip n nested stack
  | I_Drop n => i_drop n stack
  | I_Dup n => i_dup n stack
  | I_Dig n => i_dig n stack
  | I_Dug n => i_dug n stack
  | I_Gt => i_int_test ic_GT (fun i => 0 <? i)%Z stack
  | I_Ge => i_int_test ic_GE (fun i => negb (i <? 0))%Z stack
  | I_Eq => i_int_test ic_EQ (fun i => i =? 0)%Z stack
  | I_Neq => i_int_test ic_NEQ (fun i => negb (i =? 0))%Z stack
  | I_Le => i_int_test ic_LE (fun i => negb (0 <? i))%Z stack
  | I_Lt => i_int_test ic_LT (fun i => i <? 0)%Z stack
  | I_If t f => i_if t f stack
  | I_IfNone n s => i_if_none n s stack
  | I_IfCons c n => i_if_cons c n stack
  | I_IfLeft l r => i_if_left l r stack
  | I_Abs => i_abs stack
  | I_IsNat => i_isnat stack
  | I_Int o => i_int o stack
  | I_Nat => i_nat stack
  | I_Bytes o => i_bytes o stack
  | I_Loop nested => i_loop nested stack
  | I_LoopLeft nested => i_loop_left nested stack
  | I_Iter o nested => i_iter o nested stack
  | I_Map o nested => i_map o nested stack
  | I_Push v => i_push ic_PUSH v stack
  | I_Swap => i_swap stack
  | I_Failwith ty => i_failwith ty stack
  | I_Never => panicked PUnreachable
  | I_Unit => i_push ic_UNIT V_Unit stack
  | I_Car => i_car stack
  | I_Cdr => i_cdr stack
  | I_Pair => i_pair stack
  | I_PairN n => i_pair_n n stack
  | I_Unpair => i_unpair stack
  | I_UnpairN n => i_unpair_n n stack
  | I_ISome => i_some stack
  | I_None => i_push ic_NONE (V_Option None) stack
  | I_Compare => i_compare stack
  | I_Amount => i_context ic_AMOUNT (fun c => V_Mutez (amount c)) stack
  | I_Nil => i_push ic_NIL (V_List []) stack
  | I_Cons => i_cons stack
  | I_Concat o => i_concat o stack
  | I_EmptySet => i_push ic_EMPTY_SET (V_Set []) stack
  | I_EmptyBigMap k v => i_push ic_EMPTY_BIG_MAP (V_BigMap (mkBigMap None [] k v)) stack
  | I_Mem o => i_mem o stack
  | I_Get o => i_get o stack
  | I_GetN n => i_get_n n stack
  | I_Update o => i_update o stack
  | I_GetAndUpdate o => i_get_and_update o stack
  | I_Size o => i_size o stack
  | I_UpdateN n => i_update_n n stack
  | I_ChainId => i_context ic_CHAIN_ID (fun c => V_ChainId (chain_id c)) stack
  | I_ISelf ep => i_context ic_SELF (fun c => V_Contract (mkAddress (self_address c) ep)) stack
  | I_Pack => i_pack stack
  | I_Unpack ty => i_unpack tc_value ty stack
  | I_CheckSignature => i_check_signature stack
  | I_TransferTokens => i_transfer_tokens stack
  | I_SetDelegate => i_set_delegate stack
  | I_Address => i_address stack
  | I_Slice o => i_slice o stack
  | I_Left => i_left stack
  | I_Right => i_right stack
  | I_Lambda lam => i_push ic_LAMBDA (V_Lambda (Closure_Lambda lam)) stack
  | I_Exec => i_exec stack
  | I_Apply arg_ty => i_apply arg_ty stack
  | I_HashKey => i_hash_key stack
  | I_Ticket => i_ticket stack
  | I_ReadTicket => i_read_ticket stack
  | I_SplitTicket => i_split_ticket stack
  | I_JoinTickets => i_join_tickets stack
  | I_Blake2b => i_hash ic_blake2b x_blake2b_256 stack
  | I_Keccak => i_hash ic_keccak x_keccak256 stack
  | I_Sha256 => i_hash ic_sha256 x_sha256 stack
  | I_Sha3 => i_hash ic_sha3 x_sha3_256 stack
  | I_Sha512 => i_hash ic_sha512 x_sha512 stack
  | I_Balance => i_context ic_BALANCE (fun c => V_Mutez (balance c)) stack
  | I_Contract typ ep => i_contract typ ep stack
  | I_Level => i_context ic_LEVEL (fun c => V_Nat (level c)) stack
  | I_MinBlockTime => i_context ic_MIN_BLOCK_TIME (fun c => V_Nat (min_block_time c)) stack
  | I_SelfAddress => i_context ic_SELF_ADDRESS (fun c => V_default_address (self_address c)) stack
  | I_Sender => i_context ic_SENDER (fun c => V_default_address (sender c)) stack
  | I_Source => i_context ic_SOURCE (fun c => V_default_address (source c)) stack
  | I_Now => i_context ic_NOW (fun c => V_Timestamp (now c)) stack
  | I_ImplicitAccount => i_implicit_account stack
  | I_VotingPower => i_voting_power stack
  | I_TotalVotingPower => i_context ic_TOTAL_VOTING_POWER (fun c => V_Nat (total_voting_power c)) stack
  | I_Emit tag arg_ty => i_emit tag arg_ty stack
  | I_PairingCheck => i_pairing_check stack
  | I_CreateContract cs m => i_create_contract cs m stack
  | I_Seq l => interpret l stack
  end.
End blocks.

(** * Sequences and recursion *)

Section run.
Context (step : Instruction -> IStack -> ieM IStack).

(** [for i in ast { i.interpret(..)? }]. *)
Definition run_all (one : Instruction -> IStack -> ieM IStack) : list Instruction -> IStack -> ieM IStack :=
  fix go l stack :=
    match l with
    | [] => mret stack
    | i :: l => stack ← one i stack; go l stack
    end.

(** [interpret] on the instructions of a sequence, charging [INTERPRET_RET] after. *)
Fixpoint run_one (i : Instruction) (stack : IStack) {struct i} : ieM IStack :=
  match i with
  | I_Seq l => stack ← run_all run_one l stack; _ ← ie_consume ic_INTERPRET_RET; mret stack
  | i => step i stack
  end.
Definition run_block (l : list Instruction) (stack : IStack) : ieM IStack :=
  stack ← run_all run_one l stack;
  _ ← ie_consume ic_INTERPRET_RET;
  mret stack.
End run.

Fixpoint interpret_fuel (fuel : nat) : Instruction -> IStack -> ieM IStack :=
  match fuel with
  | 0 => fun _ _ => diverge
  | S fuel => interpret_step (run_block (interpret_fuel fuel)) (typecheck_value fuel) fuel
  end.

(** [Instruction::interpret] ([interpret_one]) and [interpret]. *)
Definition interpret_one (fuel : nat) : Instruction -> IStack -> ieM IStack := run_one (interpret_fuel fuel).
Definition interpret (fuel : nat) : list Instruction -> IStack -> ieM IStack := run_block (interpret_fuel fuel).

(** [ContractScript::interpret]: the operations and the new storage. *)
Definition ContractScript_interpret (fuel : nat) (cs : ContractScript) (parameter storage : Micheline)
  : M Ctx ContractInterpretError (list OperationInfo * TypedValue) :=
  parameter ← M_map_err CIE_TcError (typecheck_value fuel parameter (cs_parameter cs));
  storage ← M_map_err CIE_TcError (typecheck_value fuel storage (cs_storage cs));
  stack ← M_map_err CIE_InterpretError (interpret_one fuel (cs_code cs) [V_Pair parameter storage]);
  match stack with
  | [] => panicked PUnwrap
  | V_Pair (V_List vec) storage :: _ =>
      ops ← M_map_err CIE_InterpretError (mapM (irrefutable as_Operation) vec);
      mret (ops, storage)
  | V_Pair _ _ :: _ => panicked PUnreachable
  | _ :: _ => panicked PUnreachable
  end.
End handlers.
