(* ===== verification/InterpreterSound.v ===== *)
(** Type soundness and termination of the interpreter.

    Each handler of [Interpreter] has a specification as a [triple]: on a stack of
    the types the instruction expects it leaves a stack of the types it promises,
    panics only as the policy allows, keeps the environment and never gains gas.
    The policy is empty on the strict fragment.  [interpret_sound] puts them
    together by induction on fuel; fuel above the available milligas is never
    exhausted. *)

From S2P Require Import Prelude Syntax Comparable Gas BigMap Stack External ByteRepr Serializer Context.
From S2P Require Import TypeProps Typechecker Typing TypecheckerSound Interpreter.

(** Panics a run may end in.  None on the strict fragment; outside it, exhaustion of
    the gas swallowed by [.ok()], comparison of tickets with incomparable contents,
    and the panics of the typechecker [UNPACK] calls. *)
Definition policy (env : tenv) (P : panic -> Prop) : Prop :=
  e_strict env = false -> P PGasExhausted /\ P PIncomparable /\ P PStackBounds /\ P PSlice.

(** * Rules for the stack operations *)

Section rules.
Context (P : panic -> Prop) (c0 : Ctx) (D : Prop).

Lemma triple_pop v st c (Q : _ -> Ctx -> Prop) : Q (v, st) c -> triple P c0 D (pop (v :: st)) c Q.
Proof. apply triple_ret. Qed.

Lemma triple_irrefutable {A} (proj : TypedValue -> option A) v a c Q :
  proj v = Some a -> Q a c -> triple P c0 D (irrefutable proj v) c Q.
Proof. intros Hp HQ. unfold irrefutable. rewrite Hp. by apply triple_lift. Qed.

Lemma triple_pop_as {A} (proj : TypedValue -> option A) v a st c Q :
  proj v = Some a -> Q (a, st) c -> triple P c0 D (pop_as proj (v :: st)) c Q.
Proof.
  intros Hp HQ. apply triple_bind, triple_pop. intros _.
  apply triple_bind. eapply triple_irrefutable; [done|]. intros _. by apply triple_ret.
Qed.

Lemma triple_top_as {A} (proj : TypedValue -> option A) v a st c Q :
  proj v = Some a -> Q (a, st) c -> triple P c0 D (top_as proj (v :: st)) c Q.
Proof.
  intros Hp HQ. apply triple_bind, triple_lift. cbn. intros _.
  apply triple_bind. eapply triple_irrefutable; [done|]. intros _. by apply triple_ret.
Qed.

Lemma triple_mapM_irrefutable {A} (proj : TypedValue -> option A) l c (Q : list A -> Ctx -> Prop) :
  Forall (fun v => is_Some (proj v)) l -> (forall r c', (gas_left c' <= gas_left c)%N -> Q r c') ->
  triple P c0 D (mapM (irrefutable proj) l) c Q.
Proof.
  intros Hl HQ. eapply (triple_mapM _ _ _ _ _ _ (fun _ _ => True)); [|intros bs c' Hc _; by apply HQ].
  intros a c' Ha _. apply (proj1 (Forall_forall _ _) Hl) in Ha as [b Hb].
  by eapply triple_irrefutable.
Qed.
End rules.

(** Symbolic execution of a handler on a stack of known shape. *)
Ltac istep :=
  first
  [ match goal with |- forall _, _ => intro end
  | match goal with
    | |- triple _ _ _ (pop (_ :: _)) _ _ => apply triple_pop
    | |- triple _ _ _ (pop_as _ (_ :: _)) _ _ => eapply triple_pop_as; [reflexivity|]
    | |- triple _ _ _ (top_as _ (_ :: _)) _ _ => eapply triple_top_as; [reflexivity|]
    | |- triple _ _ _ (irrefutable _ _) _ _ => eapply triple_irrefutable; [reflexivity|]
    | |- triple _ _ _ (ie_consume_cost _) _ _ => apply triple_safe_cost; [solve [apply as_gas_cost_safe | auto with gas]|]
    | |- triple _ _ _ (ie_consume _) _ _ => apply triple_consume
    | |- triple _ _ _ (lift (ok_or _ _)) _ _ => apply triple_safe_lift; [apply ok_or_safe|]
    | |- triple _ _ _ (mutez_or_overflow _) _ _ => apply triple_safe_lift; [apply ok_or_safe|]
    end
  | tstep ]; cbn beta iota.
Ltac isteps := repeat istep.
Ltac finish :=
  repeat match goal with
  | |- Forall2 _ (_ :: _) _ => constructor
  | |- value_typed _ _ _ => first [assumption | econstructor]
  | |- operation_typed _ _ => econstructor
  | |- Forall2 _ _ _ => eassumption
  | |- _ => solve [eauto 2 with typing]
  end.

(** * Instructions with a fixed signature *)

Lemma mutez_checked z r : ok_or IE_MutezOverflow (checked_i64 z) = Ok r -> (0 <= z)%Z -> mutez_ok r.
Proof.
  unfold checked_i64, in_i64, mutez_ok. case_match eqn:E; cbn; [|done].
  apply andb_true_iff in E as [_ E%Z.ltb_lt]. intros [= <-]. lia.
Qed.

Lemma wrap_i64_small z : mutez_ok z -> wrap_i64 z = z.
Proof. unfold mutez_ok, wrap_i64. intros. rewrite Z.mod_small; lia. Qed.

#[export] Hint Resolve ic_mul_int_safe : gas.

Section simple.
Context {X : External} {XL : ExternalLaws X} (env : tenv) (P : panic -> Prop) (c0 : Ctx) (D : Prop).
Implicit Types (st : IStack) (s : TypeStack) (c : Ctx).

Abbreviation leaves m c s := (triple P c0 D m c (fun st' _ => stack_typed env st' s)).


Ltac simple_cases :=
  let Ho := fresh "Ho" in intros Ho ?; injection Ho as Ho; repeat case_match; simplify_eq; inv_typed.

Lemma i_add_sound o ins outs st s c :
  simple_sig (I_Add o) = Some (ins, outs) -> stack_typed env st (ins ++ s) ->
  leaves (i_add o st) c (outs ++ s).
Proof.
  simple_cases; unfold i_add; isteps; finish.
  unfold mutez_ok in *. eapply mutez_checked; [eassumption|lia].
Qed.

Lemma mutez_mul_ok x y r z :
  ok_or IE_MutezOverflow (checked_i64 (x * y)) = Ok r -> mutez_ok x ->
  ok_or IE_MutezOverflow (checked_i64 (Z.of_N z)) = Ok y -> mutez_ok r.
Proof.
  intros Hr Hx Hy. eapply mutez_checked; [done|]. apply mutez_checked in Hy; [|lia].
  unfold mutez_ok in *. nia.
Qed.

Lemma triple_Fr (z : Z) c (Q : bytes -> Ctx -> Prop) :
  (forall x, Q x c) -> triple (E := InterpretError) P c0 D (lift (Fr_from_big_int z)) c Q.
Proof.
  intros HQ. destruct (Fr_from_big_int_ok (E := InterpretError) z) as (x&->&_). by apply triple_lift.
Qed.

Lemma i_mul_sound o ins outs st s c :
  simple_sig (I_Mul o) = Some (ins, outs) -> stack_typed env st (ins ++ s) ->
  leaves (i_mul o st) c (outs ++ s).
Proof.
  simple_cases; unfold i_mul, nat_to_i64; repeat (apply triple_Fr || istep); finish.
  - eapply mutez_mul_ok; eassumption.
  - rewrite Z.mul_comm in *. eapply mutez_mul_ok; eassumption.
Qed.

Lemma i_neg_sound o ins outs st s c :
  simple_sig (I_Neg o) = Some (ins, outs) -> stack_typed env st (ins ++ s) ->
  leaves (i_neg o st) c (outs ++ s).
Proof. simple_cases; unfold i_neg; isteps; finish. Qed.

Lemma i_sub_mutez_sound st s c :
  stack_typed env st (T_Mutez :: T_Mutez :: s) -> leaves (i_sub_mutez st) c (T_Option T_Mutez :: s).
Proof.
  intros. inv_typed. unfold i_sub_mutez. isteps. destruct (Z.leb_spec z z0); isteps; finish.
  rewrite wrap_i64_small; unfold mutez_ok in *; lia.
Qed.

Lemma i_and_sound o ins outs st s c :
  simple_sig (I_And o) = Some (ins, outs) -> stack_typed env st (ins ++ s) ->
  leaves (i_and o st) c (outs ++ s).
Proof.
  simple_cases; unfold i_and; isteps; try solve [finish].
  assert (0 <= Z.land z (Z.of_N n))%Z as ->%Z.leb_le by (apply Z.land_nonneg; lia).
  cbn. isteps. finish.
Qed.

Lemma i_or_xor_not_sound i ins outs st s c :
  simple_sig i = Some (ins, outs) -> stack_typed env st (ins ++ s) ->
  match i with
  | I_Or o => leaves (i_or o st) c (outs ++ s)
  | I_Xor o => leaves (i_xor o st) c (outs ++ s)
  | I_Not o => leaves (i_not o st) c (outs ++ s)
  | _ => True
  end.
Proof.
  destruct i; try done; simple_cases; unfold i_or, i_xor, i_not; isteps; finish.
Qed.

Lemma i_int_test_sound cost test st s c :
  stack_typed env st (T_Int :: s) -> leaves (i_int_test cost test st) c (T_Bool :: s).
Proof. intros. inv_typed. unfold i_int_test. isteps. finish. Qed.

Lemma i_conv_sound i ins outs st s c :
  simple_sig i = Some (ins, outs) -> stack_typed env st (ins ++ s) ->
  match i with
  | I_Int o => leaves (i_int o st) c (outs ++ s)
  | I_Bytes o => leaves (i_bytes o st) c (outs ++ s)
  | I_Nat => leaves (i_nat st) c (outs ++ s)
  | I_Abs => leaves (i_abs st) c (outs ++ s)
  | I_IsNat => leaves (i_isnat st) c (outs ++ s)
  | _ => True
  end.
Proof.
  destruct i; try done; simple_cases; unfold i_int, i_bytes, i_nat, i_abs, i_isnat; isteps; finish.
  case_match; finish.
Qed.

Lemma i_concat_sound o ins outs st s c :
  simple_sig (I_Concat o) = Some (ins, outs) -> stack_typed env st (ins ++ s) ->
  leaves (i_concat o st) c (outs ++ s).
Proof.
  simple_cases; unfold i_concat; isteps; try solve [finish].
  all: apply triple_mapM_irrefutable; [eapply Forall_impl; [eassumption|]; cbn; intros; inv_value; by eexists|].
  all: isteps; finish.
Qed.

Lemma run_size_sound {A} (proj : TypedValue -> option (list A)) cost st v l s c :
  proj v = Some l -> stack_typed env st s -> leaves (run_size proj cost (v :: st)) c (T_Nat :: s).
Proof. intros. unfold run_size. istep. eapply triple_pop_as; [done|]. isteps. finish. Qed.

Lemma i_slice_sound o ins outs st s c :
  simple_sig (I_Slice o) = Some (ins, outs) -> stack_typed env st (ins ++ s) ->
  leaves (i_slice o st) c (outs ++ s).
Proof.
  destruct o; simple_cases; unfold i_slice; isteps.
  all: destruct (validate_bounds _ _ _ ≫= _); finish.
Qed.

Lemma i_crypto_sound i ins outs st s c :
  simple_sig i = Some (ins, outs) -> stack_typed env st (ins ++ s) ->
  match i with
  | I_CheckSignature => leaves (i_check_signature st) c (outs ++ s)
  | I_HashKey => leaves (i_hash_key st) c (outs ++ s)
  | I_PairingCheck => leaves (i_pairing_check st) c (outs ++ s)
  | _ => True
  end.
Proof.
  destruct i; try done; simple_cases; unfold i_check_signature, i_hash_key, i_pairing_check; isteps.
  - destruct (Signature_check_ok (E := InterpretError) s0 k b) as [? ->]. cbn. isteps. finish.
  - destruct (Key_hash_ok (E := InterpretError) k) as [? ->]. cbn. isteps. finish.
  - apply triple_mapM_irrefutable; [|isteps; finish].
    eapply Forall_impl; [eassumption|]. cbn. intros. inv_value. by eexists.
Qed.

Lemma i_hash_sound cost digest st s c :
  (forall m, cost_safe (cost m)) -> stack_typed env st (T_Bytes :: s) ->
  leaves (i_hash cost digest st) c (T_Bytes :: s).
Proof. intros. inv_typed. unfold i_hash. isteps. finish. Qed.

Lemma i_push_sound cost v t st s c :
  value_typed env v t -> stack_typed env st s -> leaves (i_push cost v st) c (t :: s).
Proof. intros. unfold i_push. isteps. finish. Qed.

Lemma i_context_sound cost f t st s c :
  (forall c', same_env c0 c' -> value_typed env (f c') t) -> stack_typed env st s ->
  leaves (i_context cost f st) c (t :: s).
Proof. intros Hf ?. unfold i_context. isteps. finish. Qed.

Lemma triple_opt_keyhash o c (Q : option KeyHash -> Ctx -> Prop) :
  value_typed env (V_Option o) (T_Option T_KeyHash) -> (forall k, Q k c) ->
  triple P c0 D (opt_keyhash o) c Q.
Proof. intros Ho HQ. inv_value; cbn; isteps; apply HQ. Qed.

Context (Hctx : ctx_typed env c0).

Lemma i_account_sound i ins outs st s c :
  simple_sig i = Some (ins, outs) -> stack_typed env st (ins ++ s) ->
  match i with
  | I_SetDelegate => leaves (i_set_delegate st) c (outs ++ s)
  | I_ImplicitAccount => leaves (i_implicit_account st) c (outs ++ s)
  | I_VotingPower => leaves (i_voting_power st) c (outs ++ s)
  | _ => True
  end.
Proof.
  destruct i; try done; simple_cases; unfold i_set_delegate, i_implicit_account, i_voting_power; isteps;
    try apply triple_opt_keyhash; isteps; finish.
  apply (ct_implicit _ _ Hctx k T_Unit).
Qed.
End simple.

(** * Trees of typed values *)

Section trees.
Context (env : tenv).

Lemma keyed_typed {A} (key : A -> TypedValue) k (R : A -> Prop) l :
  comparable k = true -> Forall (fun e => value_typed env (key e) k /\ R e) l ->
  Forall (fun e => comparable_value k (key e) = true) l.
Proof. intros Hk H. eapply Forall_impl; [exact H|]. intros e [? _]. eauto with typing. Qed.

Lemma bt_spec_elem {A} (key : A -> TypedValue) k l a : bt_spec key k l = Some a -> a ∈ l.
Proof. intros H. by apply find_some in H as [?%list_elem_of_In _]. Qed.

(** Lookup, insertion and removal in a tree whose elements satisfy [R]. *)
Lemma tree_find {A E} (key : A -> TypedValue) kt (R : A -> Prop) k l :
  comparable kt = true -> value_typed env k kt ->
  Forall (fun e => value_typed env (key e) kt /\ R e) l -> bt_sorted key l ->
  bt_find (E := E) key k l = Ok (bt_spec key k l) /\
  (forall a, bt_spec key k l = Some a -> R a).
Proof.
  intros Hkt Hk Hl Hs. split.
  - apply (bt_find_ok key kt); [by eauto with typing|by eapply keyed_typed|done].
  - intros a Ha%bt_spec_elem. by eapply Forall_forall in Hl as [_ ?]; [|exact Ha].
Qed.

Lemma tree_insert {A E} (key : A -> TypedValue) kt (R : A -> Prop) x l :
  comparable kt = true -> value_typed env (key x) kt -> R x ->
  Forall (fun e => value_typed env (key e) kt /\ R e) l -> bt_sorted key l ->
  exists l', bt_insert (E := E) key x l = Ok (bt_spec key (key x) l, l') /\
    Forall (fun e => value_typed env (key e) kt /\ R e) l' /\ bt_sorted key l' /\
    (forall a, bt_spec key (key x) l = Some a -> R a).
Proof.
  intros Hkt Hx HR Hl Hs.
  destruct (bt_insert_ok key kt (E := E) x l) as (l'&Hl'&_&Hs'&Hin&_);
    [by eauto with typing|by eapply keyed_typed|done|].
  exists l'. split_and!; [done| |done|].
  - apply Forall_forall. intros y [->|Hy]%Hin; [done|]. by eapply Forall_forall in Hl; [|exact Hy].
  - intros a Ha%bt_spec_elem. by eapply Forall_forall in Hl as [_ ?]; [|exact Ha].
Qed.

Lemma tree_remove {A E} (key : A -> TypedValue) kt (R : A -> Prop) k l :
  comparable kt = true -> value_typed env k kt ->
  Forall (fun e => value_typed env (key e) kt /\ R e) l -> bt_sorted key l ->
  exists l', bt_remove (E := E) key k l = Ok (bt_spec key k l, l') /\
    Forall (fun e => value_typed env (key e) kt /\ R e) l' /\ bt_sorted key l' /\
    (forall a, bt_spec key k l = Some a -> R a).
Proof.
  intros Hkt Hk Hl Hs.
  destruct (bt_remove_ok key kt (E := E) k l) as (l'&Hl'&_&Hs'&Hin&_);
    [by eauto with typing|by eapply keyed_typed|done|].
  exists l'. split_and!; [done| |done|].
  - apply Forall_forall. intros y Hy%Hin. by eapply Forall_forall in Hl; [|exact Hy].
  - intros a Ha%bt_spec_elem. by eapply Forall_forall in Hl as [_ ?]; [|exact Ha].
Qed.

(** A set is a tree whose elements are their own keys. *)
Lemma set_elts l t :
  Forall (fun v => value_typed env v t) l <-> Forall (fun e => value_typed env e t /\ True) l.
Proof. split; intros H; (eapply Forall_impl; [exact H|]); cbn; tauto. Qed.
End trees.

(** * Instructions on types that vary *)

Section poly.
Context {X : External} {XL : ExternalLaws X} (env : tenv) (P : panic -> Prop) (c0 : Ctx) (D : Prop).
Implicit Types (st : IStack) (s : TypeStack) (c : Ctx).
Abbreviation leaves m c s := (triple P c0 D m c (fun st' _ => stack_typed env st' s)).

Lemma i_compare_sound t st s c :
  comparable t = true -> stack_typed env st (t :: t :: s) -> leaves (i_compare st) c (T_Int :: s).
Proof.
  intros Ht Hst. inv_stack. unfold i_compare. isteps.
  apply triple_safe_cost; [by eapply ic_compare_safe; eauto with typing|]. isteps.
  destruct (value_cmp_ok t (E := InterpretError) v v0) as (r&_&->); eauto with typing. cbn.
  isteps. finish.
Qed.

Lemma typed_length st s : stack_typed env st s -> length st = length s.
Proof. apply Forall2_length. Qed.

Lemma i_drop_sound n top st s c :
  length top = default 1 n -> stack_typed env st (top ++ s) -> leaves (i_drop n st) c s.
Proof.
  intros Hn Hst. inv_stack. unfold i_drop. istep.
  apply triple_safe_cost; [apply from_option_cost_safe; intros; apply as_gas_cost_safe|]. isteps.
  by rewrite drop_top_app by (erewrite typed_length by eassumption; done).
Qed.

Lemma i_dup_sound n i t st s c :
  default 1 n = S i -> s !! i = Some t -> stack_typed env st s -> leaves (i_dup n st) c (t :: s).
Proof.
  intros Hn Ht Hst. unfold i_dup. istep.
  apply triple_safe_cost; [apply from_option_cost_safe; intros; apply as_gas_cost_safe|]. isteps.
  rewrite Hn. destruct (Forall2_lookup_r _ _ _ _ _ Hst Ht) as (v&Hv&?).
  isteps. unfold TopFirst.index. rewrite Hv. cbn. isteps. finish.
Qed.

Lemma i_dig_sound n top t st s c :
  length top = n -> 0 < n -> stack_typed env st (top ++ t :: s) -> leaves (i_dig n st) c (t :: top ++ s).
Proof.
  intros Hn Hpos Hst. inv_stack. unfold i_dig. isteps. rewrite (proj2 (Nat.ltb_lt _ _)) by done. isteps.
  rewrite remove_app by (erewrite typed_length by eassumption; done). cbn. isteps. finish.
  by apply Forall2_app.
Qed.

Lemma i_dug_sound n top t st s c :
  length top = n -> 0 < n -> stack_typed env st (t :: top ++ s) -> leaves (i_dug n st) c (top ++ t :: s).
Proof.
  intros Hn Hpos Hst. inv_stack. unfold i_dug. isteps. rewrite (proj2 (Nat.ltb_lt _ _)) by done. isteps.
  rewrite insert_app by (erewrite typed_length by eassumption; done).
  apply Forall2_app; [done|]. finish.
Qed.

Lemma i_dig_dug_0 st s c :
  stack_typed env st s -> leaves (i_dig 0 st) c s /\ leaves (i_dug 0 st) c s.
Proof. intros Hst. unfold i_dig, i_dug. by split; isteps. Qed.

Lemma i_swap_sound a b st s c : stack_typed env st (a :: b :: s) -> leaves (i_swap st) c (b :: a :: s).
Proof. intros Hst. inv_stack. unfold i_swap. isteps. cbn. finish. Qed.

(** Pairs *)

Lemma i_pair_n_sound n top t st s c :
  length top = n -> comb T_Pair top = Some t -> stack_typed env st (top ++ s) ->
  leaves (i_pair_n n st) c (t :: s).
Proof.
  intros Hn Ht Hst. inv_stack. unfold i_pair_n. isteps.
  rewrite split_off_app by (erewrite typed_length by eassumption; done). cbn. isteps.
  edestruct comb_typed as (v&->&?); [eassumption..|]. cbn. isteps. finish.
Qed.

Lemma fill_sound top t v st s c :
  comb T_Pair top = Some t -> value_typed env v t -> stack_typed env st s ->
  leaves (fill (length top - 1) st v) c (top ++ s).
Proof.
  revert t v c. induction top as [|a top IH]; intros t v c Ht Hv Hst; [done|].
  destruct top as [|b top].
  { injection Ht as ->. cbn. isteps. finish. }
  change (T_Pair a <$> comb T_Pair (b :: top) = Some t) in Ht.
  destruct (comb T_Pair (b :: top)) as [t'|] eqn:E; [|done]. injection Ht as <-. inv_value.
  replace (length (a :: b :: top) - 1) with (S (length (b :: top) - 1)) by (cbn; lia).
  cbn [fill]. istep. eapply triple_mono; [by eapply IH|]. cbn. intros. isteps. finish.
Qed.

Lemma i_unpair_n_sound n top t st s c :
  length top = n -> comb T_Pair top = Some t -> stack_typed env st (t :: s) ->
  leaves (i_unpair_n n st) c (top ++ s).
Proof. intros <- Ht Hst. inv_stack. unfold i_unpair_n. isteps. by eapply fill_sound. Qed.

Lemma get_nth_field_typed n t r v :
  get_nth_field_ty n t = inl r -> value_typed env v t ->
  exists w, get_nth_field n v = Some w /\ value_typed env w r.
Proof.
  revert n v. induction t; intros [|[|n]] v Hr Hv; cbn in Hr; simplify_eq;
    try (by exists v; destruct v); inv_value; cbn; eauto.
Qed.

Lemma set_nth_field_typed n t r v new a :
  get_nth_field_ty n t = inl r -> value_typed env v t -> value_typed env new a ->
  exists w, set_nth_field n v new = Some w /\ value_typed env w (set_nth_field_ty n t a).
Proof.
  revert n v. induction t; intros [|[|n]] v Hr Hv Hnew; cbn in Hr; simplify_eq;
    try (by exists new; destruct v); inv_value; cbn; eauto with typing.
  destruct (IHt2 n r0 Hr) as (w&->&?); [done..|]. cbn. eauto with typing.
Qed.

Lemma i_get_n_sound n t r st s c :
  get_nth_field_ty n t = inl r -> stack_typed env st (t :: s) -> leaves (i_get_n n st) c (r :: s).
Proof.
  intros Hr Hst. inv_stack. unfold i_get_n. isteps. cbn. isteps.
  edestruct get_nth_field_typed as (w&->&?); [eassumption..|]. cbn. isteps. finish.
Qed.

Lemma i_update_n_sound n a t r st s c :
  get_nth_field_ty n t = inl r -> stack_typed env st (a :: t :: s) ->
  leaves (i_update_n n st) c (set_nth_field_ty n t a :: s).
Proof.
  intros Hr Hst. inv_stack. unfold i_update_n. isteps. cbn. isteps.
  edestruct set_nth_field_typed as (w&->&?); [eassumption..|]. cbn. isteps. finish.
Qed.

Lemma i_data_sound self i s s' st c :
  instr_typed env self i s (FOk s') -> stack_typed env st s ->
  match i with
  | I_Car => leaves (i_car st) c s'
  | I_Cdr => leaves (i_cdr st) c s'
  | I_Pair => leaves (i_pair st) c s'
  | I_Unpair => leaves (i_unpair st) c s'
  | I_ISome => leaves (i_some st) c s'
  | I_Cons => leaves (i_cons st) c s'
  | I_Left => leaves (i_left st) c s'
  | I_Right => leaves (i_right st) c s'
  | I_Address => leaves (i_address st) c s'
  | I_Pack => leaves (i_pack st) c s'
  | I_Apply t => leaves (i_apply t st) c s'
  | I_ReadTicket => leaves (i_read_ticket st) c s'
  | I_TransferTokens => leaves (i_transfer_tokens st) c s'
  | I_Emit tag ty => leaves (i_emit tag ty st) c s'
  | _ => True
  end.
Proof.
  intros Hi Hst. destruct i; try done; inversion Hi; subst; try discriminate; inv_typed;
    unfold i_car, i_cdr, i_pair, i_unpair, i_some, i_cons, i_left, i_right, i_address, i_pack, i_apply,
      i_read_ticket, i_transfer_tokens, i_emit; isteps; finish; by constructor.
Qed.

Lemma i_ticket_sound t st s c :
  (e_strict env = true -> comparable t = true) -> stack_typed env st (t :: T_Nat :: s) ->
  leaves (i_ticket st) c (T_Option (T_Ticket t) :: s).
Proof. intros Ht Hst. inv_typed. unfold i_ticket. isteps. case_match; isteps; finish. Qed.

Lemma i_split_ticket_sound t st s c :
  stack_typed env st (T_Ticket t :: T_Pair T_Nat T_Nat :: s) ->
  leaves (i_split_ticket st) c (T_Option (T_Pair (T_Ticket t) (T_Ticket t)) :: s).
Proof. intros Hst. inv_typed. unfold i_split_ticket. isteps. case_match; isteps; finish. Qed.

Context (HP : policy env P).

(** In the full language the contents may be incomparable. *)
Lemma i_join_tickets_sound t st s c :
  stack_typed env st (T_Pair (T_Ticket t) (T_Ticket t) :: s) ->
  leaves (i_join_tickets st) c (T_Option (T_Ticket t) :: s).
Proof.
  intros Hst. inv_typed. unfold i_join_tickets. isteps. apply triple_consume_cost.
  assert (cost_in P (ic_compare v0 v) (fun _ => True)) as Hc.
  { destruct (e_strict env) eqn:Es.
    - pose proof (ic_compare_safe t v0 v) as Hs. unfold cost_safe, cost_in in *.
      destruct (ic_compare v0 v); try done; by destruct Hs; eauto with typing.
    - pose proof (ic_compare_panics v0 v). destruct (ic_compare v0 v); cbn in *; try done.
      subst. by apply HP. }
  unfold ic_join_tickets. cbn [tk_content tk_amount]. unfold cost_in in *.
  destruct (ic_compare v0 v); cbn; try done.
  pose proof (as_gas_cost_safe (cst 35 + (cst (N.max (byte_size n0) (byte_size n)) >> 1))%c64) as Ha.
  unfold ic_add_num. destruct (as_gas_cost _); cbn in *; try done.
  isteps. case_match; isteps; finish.
Qed.
End poly.

(** * Containers *)

Section containers.
Context {X : External} {XL : ExternalLaws X} (env : tenv) (P : panic -> Prop) (c0 : Ctx) (D : Prop).
Context (Hctx : ctx_typed env c0).
Implicit Types (st : IStack) (s : TypeStack) (c : Ctx).
Abbreviation leaves m c s := (triple P c0 D m c (fun st' _ => stack_typed env st' s)).

Ltac key_cost kt :=
  eapply triple_safe_cost; [by apply (container_costs_safe kt); eauto with typing|]; isteps.

(** A big map value fits the storage of the context. *)
Lemma BigMap_get_typed m k kt vt c :
  same_env c0 c -> value_typed env (V_BigMap m) (T_BigMap kt vt) -> value_typed env k kt ->
  match BigMap_get m k (big_map_storage c) with
  | Ok (Some v) => value_typed env v vt
  | Ok None | Err _ => True
  | Panic _ | Diverge => False
  end.
Proof.
  intros (_&_&->&_) Hm Hk. inv_value. unfold BigMap_get. cbn [bm_overlay bm_id].
  destruct (tree_find (E := LazyStorageError) env fst kt (fun e => forall x, e.2 = Some x -> value_typed env x vt)
    k ov) as [-> HR]; try done. cbn.
  destruct (bt_spec fst k ov) as [[? o]|] eqn:Hs.
  - destruct o as [x|]; [|done]. by apply (HR _ eq_refl).
  - destruct id as [i|]; [|done]. by eapply (ct_get _ _ Hctx); eauto.
Qed.

Lemma BigMap_mem_typed m k kt vt c :
  same_env c0 c -> value_typed env (V_BigMap m) (T_BigMap kt vt) -> value_typed env k kt ->
  cost_safe (BigMap_mem m k (big_map_storage c)).
Proof.
  intros (_&_&->&_) Hm Hk. inv_value. unfold BigMap_mem. cbn [bm_overlay bm_id].
  destruct (tree_find (E := LazyStorageError) env fst kt (fun e => forall x, e.2 = Some x -> value_typed env x vt)
    k ov) as [-> HR]; try done. cbn.
  destruct (bt_spec fst k ov) as [[? o]|] eqn:Hs; [done|].
  destruct id as [i|]; [|done]. by eapply (ct_mem _ _ Hctx); eauto.
Qed.

Lemma BigMap_update_typed {E} m k kt vt o :
  value_typed env (V_BigMap m) (T_BigMap kt vt) -> value_typed env k kt ->
  value_typed env (V_Option o) (T_Option vt) ->
  exists m', BigMap_update (E := E) m k o = Ok m' /\ value_typed env (V_BigMap m') (T_BigMap kt vt).
Proof.
  intros Hm Hk Ho. inversion Hm; subst. unfold BigMap_update. cbn [bm_overlay bm_id bm_key_type bm_value_type].
  edestruct (tree_insert (E := E) env fst kt (fun e => forall x, e.2 = Some x -> value_typed env x vt) (k, o) ov)
    as (l'&->&?&?&_); try done.
  { cbn. intros x ->. by inversion Ho. }
  cbn. eexists. split; [reflexivity|]. by constructor.
Qed.

Lemma map_set_typed m k kt vt o c (Q : option TypedValue * list (TypedValue * TypedValue) -> Ctx -> Prop) :
  value_typed env (V_Map m) (T_Map kt vt) -> value_typed env k kt ->
  value_typed env (V_Option o) (T_Option vt) ->
  (forall old m', value_typed env (V_Option old) (T_Option vt) ->
     value_typed env (V_Map m') (T_Map kt vt) -> Q (old, m') c) ->
  triple P c0 D (map_set k o m) c Q.
Proof.
  intros Hm Hk Ho HQ. inversion Hm; subst. unfold map_set. isteps.
  assert (exists old m', (match o with
            | Some val => bt_insert (E := InterpretError) fst (k, val) m
            | None => bt_remove fst k m
            end) = Ok (old, m') /\ value_typed env (V_Map m') (T_Map kt vt) /\
            value_typed env (V_Option (snd <$> old)) (T_Option vt)) as (old&m'&->&?&?).
  { destruct o as [v|]; inversion Ho; subst.
    - edestruct (tree_insert (E := InterpretError) env fst kt (fun e => value_typed env e.2 vt) (k, v) m)
        as (l'&->&?&?&HR); try done.
      do 2 eexists. split; [reflexivity|]. split; [by constructor|].
      destruct (bt_spec _ _ _); cbn; finish.
    - edestruct (tree_remove (E := InterpretError) env fst kt (fun e => value_typed env e.2 vt) k m)
        as (l'&->&?&?&HR); try done.
      do 2 eexists. split; [reflexivity|]. split; [by constructor|].
      destruct (bt_spec _ _ _); cbn; finish. }
  cbn. isteps. by apply HQ.
Qed.

Lemma i_mem_sound self o s s' st c :
  instr_typed env self (I_Mem o) s (FOk s') -> stack_typed env st s -> leaves (i_mem o st) c s'.
Proof.
  intros Hi Hst. destruct o; inversion Hi; subst; try discriminate; inv_stack;
    match goal with H : value_typed _ _ (_ _ _) |- _ => inversion H | H : value_typed _ _ (T_Set _) |- _ => inversion H end;
    subst; unfold i_mem; isteps.
  - key_cost t. edestruct (tree_find (E := InterpretError) env (fun x => x) t (fun _ => True)) as [-> _];
      [done..|by apply set_elts|done|]. cbn. isteps. finish.
  - key_cost k. edestruct (tree_find (E := InterpretError) env fst k (fun e => value_typed env e.2 v)) as [-> _];
      [done..|]. cbn. isteps. finish.
  - key_cost k. assert (Hm := BigMap_mem_typed (mkBigMap id ov k v) v0 k v c').
    destruct (BigMap_mem _ _ _); cbn; try (by destruct Hm). isteps. finish.
Qed.

Lemma i_get_sound self o s s' st c :
  instr_typed env self (I_Get o) s (FOk s') -> stack_typed env st s -> leaves (i_get o st) c s'.
Proof.
  intros Hi Hst. destruct o; inversion Hi; subst; try discriminate; inv_stack;
    match goal with H : value_typed _ _ (_ _ _) |- _ => inversion H end; subst; unfold i_get; isteps.
  - key_cost k. edestruct (tree_find (E := InterpretError) env fst k (fun e => value_typed env e.2 v)) as [-> HR];
      [done..|]. cbn. isteps. destruct (bt_spec _ _ _); cbn; finish.
  - key_cost k. assert (Hm := BigMap_get_typed (mkBigMap id ov k v) v0 k v c').
    destruct (BigMap_get _ _ _) as [[|]| | |]; cbn; try (by destruct Hm); isteps; finish.
Qed.

Lemma i_update_sound self o s s' st c :
  instr_typed env self (I_Update o) s (FOk s') -> stack_typed env st s -> leaves (i_update o st) c s'.
Proof.
  intros Hi Hst. destruct o; inversion Hi; subst; try discriminate; inv_stack;
    match goal with
    | H : value_typed _ _ (_ _ _) |- _ => inversion H
    | H : value_typed _ _ (T_Set _), H' : value_typed _ _ T_Bool |- _ => inversion H; inversion H'
    end; subst; unfold i_update; isteps.
  - key_cost t. destruct b.
    + edestruct (tree_insert (E := InterpretError) env (fun x => x) t (fun _ => True)) as (l'&->&?&?&_);
        [done..|by apply set_elts|done|]. cbn. isteps. finish. by apply set_elts.
    + edestruct (tree_remove (E := InterpretError) env (fun x => x) t (fun _ => True)) as (l'&->&?&?&_);
        [done..|by apply set_elts|done|]. cbn. isteps. finish. by apply set_elts.
  - match goal with H : value_typed _ ?w (T_Option _) |- _ => destruct w; try by inversion H end. isteps.
    key_cost k. eapply map_set_typed; [done..|]. isteps. finish.
  - match goal with H : value_typed _ ?w (T_Option _) |- _ => destruct w; try by inversion H end. isteps.
    key_cost k. edestruct (BigMap_update_typed (E := InterpretError)) as (m'&->&?); [done..|]. cbn. isteps. finish.
Qed.

Lemma i_get_and_update_sound self o s s' st c :
  instr_typed env self (I_GetAndUpdate o) s (FOk s') -> stack_typed env st s ->
  leaves (i_get_and_update o st) c s'.
Proof.
  intros Hi Hst. destruct o; inversion Hi; subst; try discriminate; inv_stack;
    match goal with H : value_typed _ _ (_ _ _) |- _ => inversion H end; subst; unfold i_get_and_update; isteps;
    (match goal with H : value_typed _ ?w (T_Option _) |- _ => destruct w; try by inversion H end); isteps;
    key_cost k.
  - eapply map_set_typed; [done..|]. isteps. finish.
  - assert (Hm := BigMap_get_typed (mkBigMap id ov k v) v0 k v c').
    edestruct (BigMap_update_typed (E := InterpretError)) as (m'&Hm'&?); [done..|].
    destruct (BigMap_get _ _ _) as [[|]| | |]; cbn [map_err]; try (by destruct Hm); isteps; rewrite Hm'; cbn;
      isteps; finish.
Qed.

Lemma i_size_sound self o s s' st c :
  instr_typed env self (I_Size o) s (FOk s') -> stack_typed env st s -> leaves (i_size o st) c s'.
Proof.
  intros Hi Hst. destruct o; inversion Hi; subst; simplify_eq/=; inv_typed; cbn; by eapply run_size_sound.
Qed.
End containers.

(** * Blocks *)

Section blocks.
Context {X : External} {XL : ExternalLaws X} (env : tenv) (P : panic -> Prop) (c0 : Ctx) (D : Prop) (c : Ctx).
Context (Hctx : ctx_typed env c0) (HP : policy env P).
Context (interp : list Instruction -> IStack -> ieM IStack).
Context (tc_value : Micheline -> Type_ -> tcM TypedValue) (loop_fuel : nat).
Implicit Types (st : IStack) (s : TypeStack) (f : FailingTypeStack).

(** Nested blocks, run with less gas than [c] has. *)
Context (Hinterp : forall self l s f st c1, self_ok env c0 self -> block_typed env self l s f ->
  stack_typed env st s -> (gas_left c1 < gas_left c)%N ->
  triple P c0 D (interp l st) c1 (fun st' _ => post env f st')).
Context (Htc : forall m t c1, e_strict env = false -> ty_wf t = true -> (gas_left c1 < gas_left c)%N ->
  triple P c0 D (tc_value m t) c1 (fun v _ => value_typed env v t)).
Context (HD : forall c1, (gas_left c1 < gas_left c)%N -> (N.of_nat loop_fuel <= gas_left c1)%N -> D).
Context (self : option Entrypoints) (Hself : self_ok env c0 self).

Abbreviation reaches m c1 f := (triple P c0 D m c1 (fun st' _ => post env f st')).

(** A block, in a context whose gas went down since [c]. *)
Lemma run_nested l s f g st c1 :
  block_typed env self l s f -> fle f g -> stack_typed env st s -> (gas_left c1 < gas_left c)%N ->
  reaches (interp l st) c1 g.
Proof.
  intros Hl Hf Hst Hc. eapply triple_mono; [by eapply Hinterp|]. intros st' c2 _ Hp. by eapply fle_post.
Qed.

Lemma i_dip_sound n nested top s s' st c1 :
  length top = default 1 n -> block_typed env self nested s (FOk s') -> stack_typed env st (top ++ s) ->
  (gas_left c1 <= gas_left c)%N -> reaches (i_dip interp n nested st) c1 (FOk (top ++ s')).
Proof.
  intros Hn Hb Hst Hc. inv_stack. unfold i_dip. istep.
  apply triple_safe_cost; [apply from_option_cost_safe; intros; apply as_gas_cost_safe|].
  intros k c2 Hk Hc2 _. istep. istep. rewrite split_off_app by (erewrite Forall2_length by eassumption; done).
  cbn. intros _. istep.
  assert (1 <= k)%N.
  { destruct n; cbn in Hk; [|by injection Hk as <-]. unfold ic_dipn, as_gas_cost, cadd, cmul, chk, cshr, cst in Hk.
    repeat (case_match; cbn in *; simplify_eq; try lia). }
  eapply triple_mono; [eapply run_nested; [exact Hb|apply fle_refl|eassumption|lia]|].
  cbn. intros st' c3 Hc3 Hst'. isteps. by apply Forall2_app.
Qed.

(** One step, then the chosen branch. *)
Ltac branch := isteps; unfold ic_IF, ic_IF_NONE, ic_IF_CONS, ic_IF_LEFT in *;
  eapply run_nested; [eassumption|eassumption|finish|lia].

Lemma i_branches_sound j s g st c1 :
  instr_typed env self j s g -> stack_typed env st s -> (gas_left c1 <= gas_left c)%N ->
  match j with
  | I_If t f => reaches (i_if interp t f st) c1 g
  | I_IfNone a b => reaches (i_if_none interp a b st) c1 g
  | I_IfCons a b => reaches (i_if_cons interp a b st) c1 g
  | I_IfLeft a b => reaches (i_if_left interp a b st) c1 g
  | _ => True
  end.
Proof.
  intros Hj Hst Hc. destruct j; try done; inversion Hj; subst; try discriminate; inv_typed;
    unfold i_if, i_if_none, i_if_cons, i_if_left.
  - destruct b; branch.
  - branch.
  - branch.
  - destruct l as [|x l]; [branch|]. match goal with H : Forall _ (_ :: _) |- _ => apply Forall_cons in H as [? ?] end.
    branch.
  - branch.
  - branch.
Qed.

Lemma i_loop_from_sound n nested s f st c1 :
  block_typed env self nested s f -> fle f (FOk (T_Bool :: s)) -> stack_typed env st (T_Bool :: s) ->
  (gas_left c1 < gas_left c)%N -> ((N.of_nat n <= gas_left c1)%N -> D) ->
  reaches (i_loop_from interp n nested st) c1 (FOk s).
Proof.
  intros Hb Hf. revert st c1. induction n as [|n IH]; intros st c1 Hst Hc Hn; cbn [i_loop_from].
  { apply triple_diverge, Hn. lia. }
  inv_typed. do 4 istep. unfold ic_LOOP in *. isteps. destruct b; isteps; [|done].
  eapply triple_mono; [eapply run_nested; [done..|lia]|]. cbn. intros st' c2 Hc2 Hst' _.
  apply IH; [done|lia|]. intros. apply Hn. lia.
Qed.

Lemma i_loop_left_from_sound n nested a b s f st c1 :
  block_typed env self nested (a :: s) f -> fle f (FOk (T_Or a b :: s)) -> stack_typed env st (T_Or a b :: s) ->
  (gas_left c1 < gas_left c)%N -> ((N.of_nat n <= gas_left c1)%N -> D) ->
  reaches (i_loop_left_from interp n nested st) c1 (FOk (b :: s)).
Proof.
  intros Hb Hf. revert st c1. induction n as [|n IH]; intros st c1 Hst Hc Hn; cbn [i_loop_left_from].
  { apply triple_diverge, Hn. lia. }
  inv_typed; do 4 istep; unfold ic_LOOP in *; isteps; [|cbn; by constructor].
  eapply triple_mono; [eapply run_nested; [done..|by constructor|lia]|]. cbn. intros st' c2 Hc2 Hst' _.
  apply IH; [done|lia|]. intros. apply Hn. lia.
Qed.

Lemma iter_over_sound nested elts elt s f st c1 :
  Forall (fun v => value_typed env v elt) elts -> block_typed env self nested (elt :: s) f -> fle f (FOk s) ->
  stack_typed env st s -> (gas_left c1 < gas_left c)%N -> reaches (iter_over interp nested elts st) c1 (FOk s).
Proof.
  intros He Hb Hf. revert st c1. induction He as [|e elts He Hes IH]; intros st c1 Hst Hc; cbn [iter_over].
  { isteps. done. }
  isteps. eapply triple_mono; [eapply run_nested; [done..|by constructor|lia]|].
  cbn. intros st' c2 Hc2 Hst' _. apply IH; [done|lia].
Qed.

Lemma map_over_sound nested elts elt t2 s st c1 (Q : list TypedValue * IStack -> Ctx -> Prop) :
  Forall (fun v => value_typed env v elt) elts -> block_typed env self nested (elt :: s) (FOk (t2 :: s)) ->
  stack_typed env st s -> (gas_left c1 < gas_left c)%N ->
  (forall rs st' c', length rs = length elts -> Forall (fun v => value_typed env v t2) rs ->
     stack_typed env st' s -> Q (rs, st') c') ->
  triple P c0 D (map_over interp nested elts st) c1 Q.
Proof.
  intros He Hb. revert st c1 Q. induction He as [|e elts He Hes IH]; intros st c1 Q Hst Hc HQ; cbn [map_over].
  { isteps. by apply HQ. }
  isteps. eapply triple_mono; [eapply run_nested; [done|apply fle_refl|by constructor|lia]|].
  cbn. intros st' c2 Hc2 Hst' _. inv_stack. isteps. apply IH; [done|lia|].
  intros rs st'' c3 Hl Hrs Hst''. isteps. apply HQ; [cbn; lia|by constructor|done].
Qed.

Lemma pairs_typed m k v :
  Forall (fun e => value_typed env e.1 k /\ value_typed env e.2 v) m ->
  Forall (fun x => value_typed env x (T_Pair k v)) (map pair_of m).
Proof. induction 1 as [|e m [? ?] _ IH]; cbn; constructor; [by constructor|done]. Qed.

(** Replacing the values of a map keeps its keys. *)
Lemma zip_typed m k v w rs :
  length rs = length m -> Forall (fun e => value_typed env e.1 k /\ value_typed env e.2 v) m ->
  Forall (fun x => value_typed env x w) rs -> bt_sorted fst m ->
  Forall (fun e => value_typed env e.1 k /\ value_typed env e.2 w) (zip (map fst m) rs) /\
  bt_sorted fst (zip (map fst m) rs).
Proof.
  intros Hl Hm Hrs Hs. split.
  - revert rs Hl Hrs. clear Hs. induction Hm as [|e m [? ?] _ IH]; intros [|r rs] Hl Hrs; cbn in *; try done.
    apply Forall_cons in Hrs as [? ?]. constructor; [done|]. apply IH; [lia|done].
  - clear Hm Hrs. revert rs Hl. induction Hs as [|e m Hs IH He]; intros [|r rs] Hl; cbn in *; try done; [constructor|].
    constructor; [apply IH; lia|]. assert (length rs = length m) as Hl' by lia. clear IH Hs Hl.
    revert rs Hl'. induction He as [|e' m He Hm IH]; intros [|r' rs] Hl'; cbn in *; try done. constructor; [exact He|].
    apply IH. lia.
Qed.

Lemma i_loops_sound j s g st c1 :
  instr_typed env self j s g -> stack_typed env st s -> (gas_left c1 <= gas_left c)%N ->
  match j with
  | I_Loop nested => reaches (i_loop interp loop_fuel nested st) c1 g
  | I_LoopLeft nested => reaches (i_loop_left interp loop_fuel nested st) c1 g
  | I_Iter o nested => reaches (i_iter interp o nested st) c1 g
  | _ => True
  end.
Proof.
  intros Hj Hst Hc. destruct j; try done; inversion Hj; subst; try discriminate.
  - unfold i_loop. isteps. unfold ic_LOOP_ENTER in *. eapply i_loop_from_sound; [done..|lia|]. apply HD. lia.
  - destruct o, t; try discriminate; simplify_eq/=; inv_typed; unfold i_iter; isteps; unfold ic_ITER in *;
      (eapply iter_over_sound; [|done..|lia]); auto using pairs_typed.
  - unfold i_loop_left. isteps. unfold ic_LOOP_LEFT_ENTER in *. eapply i_loop_left_from_sound; [done..|lia|].
    apply HD. lia.
Qed.

Lemma i_map_sound o nested t elt con t2 s st c1 :
  map_elt o t = Some (elt, con) -> block_typed env self nested (elt :: s) (FOk (t2 :: s)) ->
  stack_typed env st (t :: s) -> (gas_left c1 <= gas_left c)%N ->
  reaches (i_map interp o nested st) c1 (FOk (con t2 :: s)).
Proof.
  intros Ho Hb Hst Hc. destruct o, t; try discriminate; simplify_eq/=; inv_typed; unfold i_map; isteps;
    unfold ic_MAP_LIST, ic_MAP_OPTION, ic_MAP_MAP in *.
  - eapply map_over_sound; [done..|lia|]. isteps. cbn. finish.
  - isteps. cbn. finish.
  - isteps. eapply triple_mono; [eapply run_nested; [done|apply fle_refl|by constructor|lia]|].
    cbn. intros st' c2 Hc2 Hst' _. inv_stack. isteps. cbn. finish.
  - eapply map_over_sound; [by apply pairs_typed|done..|lia|]. isteps. cbn. rewrite length_map in *.
    edestruct zip_typed as [? ?]; [done..|]. finish.
Qed.

Lemma self_ok_none : self_ok env c0 None.
Proof. by intros eps ep t. Qed.

Lemma exec_closure_sound cl a b v c1 :
  closure_typed env cl a b -> value_typed env v a -> (gas_left c1 < gas_left c)%N ->
  triple P c0 D (exec_closure interp cl v) c1 (fun r _ => value_typed env r b).
Proof.
  revert a b v c1. induction cl as [lam|t w cl IH]; intros a b v c1 Hcl Hv Hc; cbn [exec_closure];
    inversion Hcl; subst.
  - istep. eapply (triple_mono _ _ _ _ _ (fun st _ => stack_typed env st [b])).
    + rename select (lambda_typed env lam a b) into Hl. inversion Hl; subst;
        (eapply triple_mono; [eapply Hinterp; [apply self_ok_none|eassumption|finish|lia]|]);
        intros st' c2 _ Hp; by eapply fle_post in Hp; [|eassumption].
    + intros st' c2 Hc2 Hst'. inv_stack. isteps. done.
  - isteps. eapply IH; [done|by constructor|lia].
Qed.

Lemma i_exec_sound a b s st c1 :
  stack_typed env st (a :: T_Lambda a b :: s) -> (gas_left c1 <= gas_left c)%N ->
  reaches (i_exec interp st) c1 (FOk (b :: s)).
Proof.
  intros Hst Hc. inv_stack. rename select (value_typed env _ (T_Lambda a b)) into Hl. inversion Hl; subst.
  unfold i_exec. isteps. unfold ic_EXEC in *. eapply triple_mono; [eapply exec_closure_sound; [done..|lia]|].
  isteps. cbn. finish.
Qed.

Lemma i_unpack_sound t s st c1 :
  e_strict env = false -> ty_wf t = true -> stack_typed env st (T_Bytes :: s) -> (gas_left c1 <= gas_left c)%N ->
  reaches (i_unpack tc_value t st) c1 (FOk (T_Option t :: s)).
Proof.
  intros Hs Ht Hst Hc. inv_typed. unfold i_unpack. isteps.
  assert (1 <= n)%N.
  { rename select (ic_unpack _ = _) into Hk. unfold ic_unpack, as_gas_cost, cadd, chk, cshr, cst in Hk.
    repeat (case_match; cbn in *; simplify_eq; try lia). }
  eapply (triple_mono _ _ _ _ _ (fun r _ => value_typed env (V_Option r) (T_Option t))).
  - destruct (HP Hs) as (HPg&_). pose proof (proj2 (decode_terminates b)) as Hp.
    destruct (decode_packed b); isteps; try done.
    + apply triple_ok; [done| |constructor]. eapply triple_mono; [apply Htc; [done..|lia]|]. isteps. by constructor.
    + constructor.
  - isteps. cbn. finish.
Qed.

Lemma i_contract_sound t ep s st c1 :
  e_strict env = false -> stack_typed env st (T_Address :: s) ->
  reaches (i_contract t ep st) c1 (FOk (T_Option (T_Contract t) :: s)).
Proof.
  intros Hs Hst. inv_typed. unfold i_contract. isteps. apply triple_ok; [by apply HP| |isteps; cbn; finish].
  apply (triple_contract_address env P c0 D Hctx). isteps. cbn. finish.
Qed.

Lemma i_create_contract_sound cs m eps s st c1 :
  script_typed env eps cs -> stack_typed env st (T_Option T_KeyHash :: T_Mutez :: cs_storage cs :: s) ->
  reaches (i_create_contract cs m st) c1 (FOk (T_Operation :: T_Address :: s)).
Proof.
  intros Hcs Hst. inv_stack. rename select (value_typed env _ T_Mutez) into Hm. inversion Hm; subst.
  match goal with H : value_typed env ?w (T_Option T_KeyHash) |- _ => destruct w; try by inversion H end.
  unfold i_create_contract. isteps.
  eapply triple_opt_keyhash; [done|]. isteps.
  destruct (compute_contract_address_ok (E := InterpretError) (operation_group_hash c'1) n0) as [a ->].
  isteps. cbn. finish.
Qed.

Abbreviation step := (interpret_step interp tc_value loop_fuel).

Lemma simple_step_sound j ins outs s st c1 :
  simple_sig j = Some (ins, outs) -> stack_typed env st (ins ++ s) -> reaches (step j st) c1 (FOk (outs ++ s)).
Proof.
  intros Hj Hst. pose proof (i_or_xor_not_sound env P c0 D j ins outs st s c1 Hj Hst) as H1.
  pose proof (i_conv_sound env P c0 D j ins outs st s c1 Hj Hst) as H2.
  pose proof (i_crypto_sound env P c0 D j ins outs st s c1 Hj Hst) as H3.
  pose proof (i_account_sound env P c0 D Hctx j ins outs st s c1 Hj Hst) as H4.
  destruct j; try discriminate Hj; cbn [interpret_step post] in *;
    try first [exact H1 | exact H2 | exact H3 | exact H4
      | by eapply i_add_sound | by eapply i_mul_sound | by eapply i_neg_sound | by eapply i_and_sound
      | by eapply i_concat_sound | by eapply i_slice_sound].
  all: clear H1 H2 H3 H4; cbn [simple_sig] in Hj; try destruct o; simplify_eq/=; inv_typed.
  all: try (eapply i_sub_mutez_sound; by finish); try (eapply i_int_test_sound; by finish).
  all: try (eapply i_push_sound; [constructor|done]).
  all: try (eapply i_hash_sound; [intros; apply as_gas_cost_safe|by finish]).
  all: try (eapply run_size_sound; [reflexivity|done]).
  all: eapply i_context_sound; [|done]; intros c2 (Ha&Hb&_); rewrite ?Ha, ?Hb; constructor; apply Hctx.
Qed.

Lemma interpret_step_sound j s g st c1 :
  instr_typed env self j s g -> stack_typed env st s -> (gas_left c1 <= gas_left c)%N ->
  (forall l, j <> I_Seq l) -> reaches (step j st) c1 g.
Proof.
  intros Hj Hst Hc Hseq. destruct (simple_sig j) as [[ins outs]|] eqn:Hsig.
  { inversion Hj; subst; try discriminate Hsig; by eapply simple_step_sound. }
  pose proof (i_branches_sound j s g st c1 Hj Hst Hc) as H1.
  pose proof (i_loops_sound j s g st c1 Hj Hst Hc) as H2.
  destruct g as [s'|].
  2: { destruct j; try discriminate Hsig; cbn [interpret_step] in *; try first [exact H1|exact H2];
       inversion Hj; subst; inv_typed; try (by destruct (Hseq l)); unfold i_failwith; isteps. }
  pose proof (i_data_sound env P c0 D self j s s' st c1 Hj Hst) as H3.
  destruct j; try discriminate Hsig; cbn [interpret_step] in *; try first [exact H1|exact H2|exact H3].
  all: try first [ by eapply i_mem_sound | by eapply i_get_sound | by eapply i_update_sound
                 | by eapply i_get_and_update_sound | by eapply i_size_sound ].
  all: clear H1 H2 H3; inversion Hj; subst; try (cbn in *; congruence).
  all: try lazymatch goal with
    | |- triple _ _ _ (i_push _ _ _) _ _ => eapply i_push_sound; [by repeat constructor|done]
    | |- triple _ _ _ (i_dip _ _ _ _) _ _ => by eapply i_dip_sound
    | |- triple _ _ _ (i_drop _ _) _ _ => by eapply i_drop_sound
    | |- triple _ _ _ (i_dup _ _) _ _ => by eapply i_dup_sound
    | |- triple _ _ _ (i_dig 0 _) _ _ => by apply i_dig_dug_0
    | |- triple _ _ _ (i_dug 0 _) _ _ => by apply i_dig_dug_0
    | |- triple _ _ _ (i_dig _ _) _ _ => by eapply i_dig_sound
    | |- triple _ _ _ (i_dug _ _) _ _ => by eapply i_dug_sound
    | |- triple _ _ _ (i_swap _) _ _ => by eapply i_swap_sound
    | |- triple _ _ _ (i_pair_n _ _) _ _ => by eapply i_pair_n_sound
    | |- triple _ _ _ (i_unpair_n _ _) _ _ => by eapply i_unpair_n_sound
    | |- triple _ _ _ (i_compare _) _ _ => by eapply i_compare_sound
    | |- triple _ _ _ (i_get_n _ _) _ _ => by eapply i_get_n_sound
    | |- triple _ _ _ (i_update_n _ _) _ _ => by eapply i_update_n_sound
    | |- triple _ _ _ (i_unpack _ _ _) _ _ => by eapply i_unpack_sound
    | |- triple _ _ _ (i_exec _ _) _ _ => by eapply i_exec_sound
    | |- triple _ _ _ (i_ticket _) _ _ => by eapply i_ticket_sound
    | |- triple _ _ _ (i_split_ticket _) _ _ => by eapply i_split_ticket_sound
    | |- triple _ _ _ (i_join_tickets _) _ _ => by eapply i_join_tickets_sound
    | |- triple _ _ _ (i_contract _ _ _) _ _ => by eapply i_contract_sound
    | |- triple _ _ _ (i_create_contract _ _ _) _ _ => by eapply i_create_contract_sound
    | |- triple _ _ _ (i_map _ _ _ _) _ _ => by eapply i_map_sound
    end.
  eapply i_context_sound; [|done]. intros c2 (_&_&_&_&->). constructor. by eapply Hself.
Qed.
End blocks.

(** * Sequences and recursion *)

(** Induction on an instruction, through the sequences. *)
Lemma Instruction_seq_ind (Q : Instruction -> Prop) :
  (forall j, (forall l, j <> I_Seq l) -> Q j) -> (forall l, Forall Q l -> Q (I_Seq l)) -> forall j, Q j.
Proof.
  intros Hj Hseq. fix IH 1. intros j.
  destruct j; try (by apply Hj); apply Hseq; induction l; constructor; [apply IH|assumption].
Qed.

Section sequences.
Context {X : External} {XL : ExternalLaws X} (env : tenv) (P : panic -> Prop) (c0 : Ctx) (D : Prop) (c : Ctx).
Context (step : Instruction -> IStack -> ieM IStack) (self : option Entrypoints).
Context (Hstep : forall j s g st c1, instr_typed env self j s g -> stack_typed env st s ->
  (gas_left c1 <= gas_left c)%N -> (forall l, j <> I_Seq l) ->
  triple P c0 D (step j st) c1 (fun st' _ => post env g st')).
Abbreviation reaches m c1 f := (triple P c0 D m c1 (fun st' _ => post env f st')).

Lemma run_all_sound l s g st c1 :
  Forall (fun j => forall s g st c1, instr_typed env self j s g -> stack_typed env st s ->
    (gas_left c1 <= gas_left c)%N -> reaches (run_one step j st) c1 g) l ->
  block_typed env self l s g -> stack_typed env st s -> (gas_left c1 <= gas_left c)%N ->
  reaches (run_all (run_one step) l st) c1 g.
Proof.
  intros Hl. revert s st c1. induction Hl as [|j l Hj Hl IH]; intros s st c1 Hb Hst Hc; cbn [run_all];
    inversion Hb; subst.
  - isteps. done.
  - istep. eapply triple_mono; [by eapply Hj|]. cbn. intros st' c2 Hc2 Hst' _. eapply IH; [done..|lia].
  - istep. eapply triple_mono; [by eapply Hj|]. by cbn.
Qed.

Lemma run_one_sound j s g st c1 :
  instr_typed env self j s g -> stack_typed env st s -> (gas_left c1 <= gas_left c)%N ->
  reaches (run_one step j st) c1 g.
Proof.
  revert s g st c1. induction j as [j Hj|l IH] using Instruction_seq_ind; intros s g st c1 Hty Hst Hc.
  - replace (run_one step j st) with (step j st) by (destruct j; try done; by destruct (Hj l)). by eapply Hstep.
  - cbn [run_one]. inversion Hty; subst; [discriminate|]. istep.
    eapply triple_mono; [by eapply run_all_sound|]. isteps. done.
Qed.

Lemma run_block_sound l s g st c1 :
  block_typed env self l s g -> stack_typed env st s -> (gas_left c1 <= gas_left c)%N ->
  reaches (run_block step l st) c1 g.
Proof.
  intros Hb Hst Hc. unfold run_block. istep. eapply triple_mono; [eapply run_all_sound; [|done..]|isteps; done].
  apply Forall_forall. intros. by eapply run_one_sound.
Qed.
End sequences.

Section recursion.
Context {X : External} {XL : ExternalLaws X} (env : tenv) (P : panic -> Prop) (c0 : Ctx).
Context (Hctx : ctx_typed env c0) (HP : policy env P).
Abbreviation fuel_out fuel c := (N.of_nat fuel <= gas_left c)%N.

(** A typed instruction on a typed stack, at any fuel. *)
Lemma interpret_fuel_sound fuel self j s g st c :
  self_ok env c0 self -> instr_typed env self j s g -> stack_typed env st s -> (forall l, j <> I_Seq l) ->
  triple P c0 (fuel_out fuel c) (interpret_fuel fuel j st) c (fun st' _ => post env g st').
Proof.
  revert self j s g st c. induction fuel as [|fuel IH]; intros self j s g st c Hself Hj Hst Hseq; cbn [interpret_fuel].
  { apply triple_diverge. lia. }
  apply (interpret_step_sound env P c0 (fuel_out (S fuel) c) c Hctx HP) with (self := self) (s := s);
    [| | |done..|lia|done].
  - intros self' l s' f st' c1 Hs' Hl Hst' Hc1. apply (run_block_sound env P c0 _ c1) with (self := self') (s := s');
      [|done..|lia].
    intros j' s2 g' st2 c2 Hj' Hst2 Hc2 Hseq'. eapply triple_weaken; [by eapply IH|done|lia|done].
  - intros m t c1 Hs Ht Hc1. destruct (HP Hs) as (_&_&?&?).
    eapply triple_weaken; [apply (typechecker_sound env P c0 Hctx)|done|lia|done]; [done|congruence|done].
  - lia.
Qed.

Lemma interpret_one_sound fuel self j s g st c :
  self_ok env c0 self -> instr_typed env self j s g -> stack_typed env st s ->
  triple P c0 (fuel_out fuel c) (interpret_one fuel j st) c (fun st' _ => post env g st').
Proof.
  intros Hself Hj Hst. apply (run_one_sound env P c0 _ c) with (self := self) (s := s); [|done..|lia].
  intros j' s' g' st' c1 Hj' Hst' Hc1 Hseq. eapply triple_weaken; [by eapply interpret_fuel_sound|done|lia|done].
Qed.
End recursion.
