(* ===== verification/Soundness.v ===== *)
(** End-to-end properties of typechecking and running contracts.

    The theorems of [TypecheckerSound] and [InterpreterSound] stated on runs: what
    can come out of [typecheck_script], [typecheck_value], [Instruction::interpret]
    and [ContractScript::interpret], and that each of them returns.  Then a call followed by writing its big maps back, the composition a host makes:
    [dump_big_map_updates] on the big maps of the new storage and of the emitted operations. *)

From S2P Require Import Prelude Syntax Comparable Gas BigMap BigMapDump Stack External ByteRepr Serializer Context TypeProps Typechecker Typing TypecheckerSound Interpreter InterpreterSound.

(** * Surroundings built from a context *)

(** The contracts a context lets a program address: implicit accounts, contracts
    [lookup_contract] knows, and the running contract itself. *)
Definition addressable (c : Ctx) (self : Entrypoints) (a : Address) (t : Type_) : Prop :=
  match addr_hash a with
  | Implicit _ => addr_entrypoint a = default_ep /\ (t = T_Unit \/ exists u, t = T_Ticket u)
  | h => exists eps, lookup_contract c h = Some eps /\ eps !! addr_entrypoint a = Some t
  end \/ (addr_hash a = self_address c /\ self !! addr_entrypoint a = Some t).

Definition env_of (strict : bool) (c : Ctx) (self : Entrypoints) : tenv := {|
  e_strict := strict;
  e_big_maps id := match dyn_get_type (big_map_storage c) id with Ok o => o | _ => None end;
  e_contract := addressable c self
|}.

(** The in-memory storage holds typed values. *)
Definition im_typed (env : tenv) (s : InMemoryLazyStorage) : Prop :=
  forall id info, im_big_maps s !! id = Some info ->
    comparable (mi_key_type info) = true /\
    Forall (fun e => value_typed env e.1 (mi_key_type info) /\ value_typed env e.2 (mi_value_type info)) (mi_map info) /\
    bt_sorted fst (mi_map info).

Lemma env_of_typed strict c self s :
  big_map_storage c = dyn_in_memory s -> mutez_ok (amount c) -> mutez_ok (balance c) ->
  im_typed (env_of strict c self) s -> ctx_typed (env_of strict c self) c.
Proof.
  intros Hs Ha Hb Hi.
  assert (Hty : forall id kt vt, e_big_maps (env_of strict c self) id = Some (kt, vt) ->
            exists info, im_big_maps s !! id = Some info /\ mi_key_type info = kt /\ mi_value_type info = vt).
  { intros id kt vt. cbn. rewrite Hs. unfold dyn_get_type. cbn. unfold im_big_map_get_type.
    destruct (im_big_maps s !! id) as [info|]; cbn; [|done]. intros [= <- <-]. eauto. }
  constructor; try done.
  - intros id k kt vt Hid Hkt Hk. destruct (Hty _ _ _ Hid) as (info&Hinfo&<-&<-).
    destruct (Hi _ _ Hinfo) as (_&Hm&Hsort). rewrite Hs. unfold dyn_get. cbn. unfold im_big_map_get, access_big_map.
    rewrite Hinfo. cbn.
    destruct (tree_find (E := LazyStorageError) _ fst _ (fun e => value_typed (env_of strict c self) e.2 (mi_value_type info))
      k (mi_map info) Hkt Hk Hm Hsort) as [-> HR]. cbn. destruct (bt_spec _ _ _); cbn; auto.
  - intros id k kt vt Hid Hkt Hk. destruct (Hty _ _ _ Hid) as (info&Hinfo&<-&<-).
    destruct (Hi _ _ Hinfo) as (_&Hm&Hsort). rewrite Hs. unfold dyn_mem. cbn. unfold im_big_map_mem, access_big_map.
    rewrite Hinfo. cbn.
    by destruct (tree_find (E := LazyStorageError) _ fst _
      (fun e => value_typed (env_of strict c self) e.2 (mi_value_type info)) k (mi_map info) Hkt Hk Hm Hsort) as [-> _].
  - intros id. cbn. rewrite Hs. unfold dyn_get_type. cbn. unfold im_big_map_get_type.
    by destruct (im_big_maps s !! id).
  - intros h eps ep t Hl He. destruct h; [done|left; cbn; eauto..].
  - intros k t. destruct t; try done; left; cbn; eauto.
Qed.

Lemma env_of_self strict c eps : self_ok (env_of strict c eps) c (Some eps).
Proof. intros e ep t [= <-] He. right. done. Qed.

(** * Runs *)

(** Panics of the typechecker, and of a run outside the strict fragment. *)
Definition tc_panic (p : panic) : Prop := p = PStackBounds \/ p = PSlice.
Definition run_panic (env : tenv) (p : panic) : Prop :=
  tc_panic p \/ (e_strict env = false /\ (p = PGasExhausted \/ p = PIncomparable)).

Lemma run_policy env : policy env (run_panic env).
Proof. intros Hs. unfold run_panic, tc_panic. tauto. Qed.

(** Gas that has not run out. *)
Definition has_gas (c : Ctx) : Prop := is_Some (milligas_amount (gas c)).

Lemma triple_run {E A} P c D (m : M Ctx E A) Q :
  triple P c D m c Q -> has_gas c ->
  let '(o, c') := m c in
  same_env c c' /\ (gas_left c' <= gas_left c)%N /\
  match o with Ok a => Q a c' | Err _ => True | Panic p => P p | Diverge => D end.
Proof.
  intros H Hg. specialize (H (same_env_refl c) (or_introl Hg)). destruct (m c) as [o c'].
  destruct H as (?&?&H). split_and!; [done..|]. destruct o; try done. apply H.
Qed.

Section properties.
Context {X : External} {XL : ExternalLaws X}.

(** C5: what the typechecker accepts as a value inhabits the type it was checked against:
    mutez are in range, sets, maps and big maps are strictly ordered on comparable keys, big map
    ids are maps of the storage with those types, contracts are addressable at that type, and the
    code of lambdas is typed.  The check only consumes gas, returns whenever the fuel exceeds
    the milligas left, and panics at most on an out-of-bounds stack or slice access. *)
Theorem typecheck_value_safe (env : tenv) (c : Ctx) (fuel : nat) (v : Micheline) (t : Type_) :
  ctx_typed env c -> in_fragment env v -> ty_wf t = true -> has_gas c -> (gas_left c < N.of_nat fuel)%N ->
  let '(o, c') := typecheck_value fuel v t c in
  same_env c c' /\ (gas_left c' <= gas_left c)%N /\
  match o with
  | Ok tv => value_typed env tv t
  | Err _ => True
  | Panic p => tc_panic p
  | Diverge => False
  end.
Proof.
  intros Hctx Hv Ht Hg Hf.
  assert (HP : tc_panic PStackBounds /\ tc_panic PSlice) by (unfold tc_panic; tauto).
  pose proof (triple_run _ _ _ _ _ (proj1 (typechecker_sound env tc_panic c Hctx HP fuel) v t c Hv Ht) Hg) as H.
  destruct (typecheck_value fuel v t c) as [[] c']; cbn in *; intuition lia.
Qed.

(** C3: typechecking a script returns whenever the fuel exceeds the milligas left, panics at
    most on an out-of-bounds stack or slice access, consumes gas only, and the script it accepts
    is typed: its code takes the parameter and the storage to operations and a new storage (or
    fails), for some table of entrypoints. *)
Theorem typecheck_script_safe (env : tenv) (c : Ctx) (fuel : nat) (m : Micheline) :
  ctx_typed env c -> in_fragment env m -> has_gas c -> (gas_left c < N.of_nat fuel)%N ->
  let '(o, c') := typecheck_script fuel m c in
  same_env c c' /\ (gas_left c' <= gas_left c)%N /\
  match o with
  | Ok cs => exists eps, script_typed env eps cs
  | Err _ => True
  | Panic p => tc_panic p
  | Diverge => False
  end.
Proof.
  intros Hctx Hm Hg Hf.
  assert (HP : tc_panic PStackBounds /\ tc_panic PSlice) by (unfold tc_panic; tauto).
  pose proof (triple_run _ _ _ _ _ (typecheck_script_sound env tc_panic c Hctx HP fuel m c Hm) Hg) as H.
  destruct (typecheck_script fuel m c) as [[] c']; cbn in *; intuition lia.
Qed.

(** C2: no typed instruction goes wrong.  In the strict fragment, an instruction run on a
    stack of the types it expects either leaves a stack of the types it promises or returns one
    of the errors of [InterpretError]: none of the panics of the interpreter
    ([unreachable_state], [irrefutable_match], stack bounds, slices, incomparable values, gas
    access after exhaustion, missing big maps) can be reached, and a failing instruction never
    returns a stack. *)
Theorem interpret_never_panics (env : tenv) (c : Ctx) (fuel : nat) (self : option Entrypoints)
    (i : Instruction) (s : TypeStack) (g : FailingTypeStack) (st : list TypedValue) :
  e_strict env = true -> ctx_typed env c -> self_ok env c self ->
  instr_typed env self i s g -> stack_typed env st s -> has_gas c -> (gas_left c < N.of_nat fuel)%N ->
  let '(o, c') := interpret_one fuel i st c in
  same_env c c' /\ (gas_left c' <= gas_left c)%N /\
  match o with
  | Ok st' => exists s', g = FOk s' /\ stack_typed env st' s'
  | Err _ => True
  | Panic _ | Diverge => False
  end.
Proof.
  intros Hs Hctx Hself Hi Hst Hg Hf.
  assert (HP : policy env (fun _ => False)) by (intros ?; congruence).
  pose proof (triple_run _ _ _ _ _ (interpret_one_sound env _ c Hctx HP fuel self i s g st c Hself Hi Hst) Hg) as H.
  destruct (interpret_one fuel i st c) as [[] c']; cbn in *; [|intuition lia..].
  destruct H as (?&?&H). split_and!; [done..|]. destruct g; cbn in H; [eauto|done].
Qed.

(** The run of a typed script, under any policy. *)
Lemma contract_run_sound env P c fuel cs eps parameter storage :
  ctx_typed env c -> policy env P -> P PStackBounds /\ P PSlice -> self_ok env c (Some eps) ->
  script_typed env eps cs -> in_fragment env parameter -> in_fragment env storage ->
  triple P c (N.of_nat fuel <= gas_left c)%N (ContractScript_interpret fuel cs parameter storage) c
    (fun r _ => Forall (fun o => value_typed env (V_Operation o) T_Operation) r.1 /\ value_typed env r.2 (cs_storage cs)).
Proof.
  intros Hctx HP HP' Hself Hcs Hp Hs. inversion Hcs as [? p s code f Hpt Hst Hcode Hf]; subst.
  unfold ContractScript_interpret. cbn [cs_parameter cs_storage cs_code].
  assert (Hpar : forall v t c1, in_fragment env v -> ty_wf t = true -> (gas_left c1 <= gas_left c)%N ->
    triple P c (N.of_nat fuel <= gas_left c)%N (typecheck_value fuel v t) c1 (fun tv _ => value_typed env tv t)).
  { intros. eapply triple_weaken; [by apply (typechecker_sound env P c)|done|lia|done]. }
  tstep. tstep. eapply triple_mono; [by apply Hpar|]. cbn beta. intros pv c1 Hc1 Hpv _.
  tstep. tstep. eapply triple_mono; [by apply Hpar|]. cbn beta. intros sv c2 Hc2 Hsv _.
  tstep. tstep. eapply triple_mono; [eapply triple_weaken;
    [apply (interpret_one_sound env P c Hctx HP fuel (Some eps) code [T_Pair p s] f); auto with typing|done|lia|done]|].
  cbn beta. intros st c3 Hc3 Hpost _. eapply fle_post in Hpost; [|done]. cbn in Hpost.
  inv_stack. inv_value. tstep. tstep.
  eapply (triple_mapM _ _ _ _ _ _ (fun _ o => value_typed env (V_Operation o) T_Operation)).
  - intros v c' Hv _. apply (proj1 (Forall_forall _ _) H1) in Hv. destruct v; try by inversion Hv.
    by eapply triple_irrefutable.
  - intros os c' _ Hos _. apply triple_ret. split; [|done]. cbn.
    clear -Hos. by induction Hos; constructor.
Qed.

(** C4: calling a typed contract.  [ContractScript::interpret] returns whenever the fuel
    exceeds the milligas left; on success the new storage inhabits the storage type of the
    script and every emitted operation is well formed: transfers carry an argument of the
    destination's type and an amount in range, originations a typed script and a storage of its
    type.  Panics are confined to the typechecker's two, and outside the strict fragment to gas
    access after exhaustion and to comparing tickets. *)
Theorem contract_call_safe (env : tenv) (c : Ctx) (fuel : nat) (cs : ContractScript) (eps : Entrypoints)
    (parameter storage : Micheline) :
  ctx_typed env c -> self_ok env c (Some eps) -> script_typed env eps cs ->
  in_fragment env parameter -> in_fragment env storage ->
  has_gas c -> (gas_left c < N.of_nat fuel)%N ->
  let '(o, c') := ContractScript_interpret fuel cs parameter storage c in
  same_env c c' /\ (gas_left c' <= gas_left c)%N /\
  match o with
  | Ok (ops, new_storage) =>
      Forall (fun o => value_typed env (V_Operation o) T_Operation) ops /\ value_typed env new_storage (cs_storage cs)
  | Err _ => True
  | Panic p => run_panic env p
  | Diverge => False
  end.
Proof.
  intros Hctx Hself Hcs Hp Hs Hg Hf.
  assert (HP' : run_panic env PStackBounds /\ run_panic env PSlice) by (unfold run_panic, tc_panic; tauto).
  pose proof (triple_run _ _ _ _ _ (contract_run_sound env _ c fuel cs eps parameter storage
    Hctx (run_policy env) HP' Hself Hcs Hp Hs) Hg) as H.
  destruct (ContractScript_interpret fuel cs parameter storage c) as [[[]| | |] c']; cbn in *; intuition lia.
Qed.

(** C1: origination followed by calls.  A script the typechecker accepted can be run, in any
    later context that serves the same big maps and contracts, on any parameter and storage:
    every call returns, its new storage has the storage type the script declares, and panics are
    confined as for any call of a typed script. *)
Theorem accepted_script_runs_safely (env : tenv) (c c' : Ctx) (fuel : nat) (m : Micheline) (cs : ContractScript) :
  ctx_typed env c -> in_fragment env m -> has_gas c -> typecheck_script fuel m c = (Ok cs, c') ->
  exists eps, forall (c1 : Ctx) (fuel1 : nat) (parameter storage : Micheline),
    ctx_typed env c1 -> self_ok env c1 (Some eps) -> in_fragment env parameter -> in_fragment env storage ->
    has_gas c1 -> (gas_left c1 < N.of_nat fuel1)%N ->
    match (ContractScript_interpret fuel1 cs parameter storage c1).1 with
    | Ok (_, new_storage) => value_typed env new_storage (cs_storage cs)
    | Err _ => True
    | Panic p => run_panic env p
    | Diverge => False
    end.
Proof.
  intros Hctx Hm Hg Hcs.
  assert (HP : run_panic env PStackBounds /\ run_panic env PSlice) by (unfold run_panic, tc_panic; tauto).
  pose proof (triple_run _ _ _ _ _ (typecheck_script_sound env _ c Hctx HP fuel m c Hm) Hg) as H.
  rewrite Hcs in H. destruct H as (_&_&eps&Hty). exists eps.
  intros c1 fuel1 parameter storage Hctx1 Hself Hp Hs Hg1 Hf.
  pose proof (triple_run _ _ _ _ _ (contract_run_sound env _ c1 fuel1 cs eps parameter storage
    Hctx1 (run_policy env) HP Hself Hty Hp Hs) Hg1) as H.
  destruct (ContractScript_interpret fuel1 cs parameter storage c1) as [[[]| | |] c2]; cbn in *; intuition lia.
Qed.
End properties.

(** * A contract that adds its parameter to its storage *)

Module Demo.
Definition ctx : Ctx :=
  set_gas (gas_new 60000) (ctx_default (repeat Byte.x00 20) (repeat Byte.x00 20) (repeat Byte.x00 32)).
Definition fuel : nat := N.to_nat 60001.
Definition op (p : Prim) : Micheline := M_App p [] [].
Definition script : Micheline :=
  M_Seq [M_App P_parameter [op P_nat] []; M_App P_storage [op P_nat] [];
         M_App P_code [M_Seq [op P_UNPAIR; op P_ADD; M_App P_NIL [op P_operation] []; op P_PAIR]] []].
Definition code : Instruction := I_Seq [I_Unpair; I_Add Add_NatNat; I_Nil; I_Pair].
Definition contract : ContractScript := mkContractScript T_Nat T_Nat code.
Definition eps : Entrypoints := {[ default_ep := T_Nat ]}.
Definition env : tenv := env_of true ctx eps.

Lemma ctx_ok : ctx_typed env ctx.
Proof. by apply (env_of_typed _ _ _ im_new). Qed.

Lemma gas_ok : has_gas ctx /\ (gas_left ctx < N.of_nat fuel)%N.
Proof. split; [eexists; reflexivity|by vm_compute]. Qed.

Lemma code_typed : instr_typed env (Some eps) code [T_Pair T_Nat T_Nat] (FOk [T_Pair (T_List T_Operation) T_Nat]).
Proof.
  constructor. eapply BT_cons; [apply IT_Unpair|]. eapply BT_cons.
  { by apply (IT_Simple env _ _ [T_Nat; T_Nat] [T_Nat] []). }
  eapply BT_cons; [apply IT_Nil|]. eapply BT_cons; [apply IT_Pair|]. constructor.
Qed.

Lemma contract_typed : script_typed env eps contract.
Proof. econstructor; [done..|exact code_typed|apply fle_refl]. Qed.

Lemma env_self : self_ok env ctx (Some eps).
Proof. apply env_of_self. Qed.

(** Surroundings in which every contract can be addressed at every type. *)
Definition open_env : tenv := mkEnv true (fun _ => None) (fun _ _ => True).

Lemma open_env_ok : ctx_typed open_env ctx.
Proof. constructor; try done. intros k t. by destruct t. Qed.
End Demo.

(** [PUSH] of a sorted map of mutez. *)
Lemma typecheck_value_safe_witness :
  exists tv c', typecheck_value Demo.fuel
      (M_Seq [M_App P_Elt [M_Int 1; M_Int 10] []; M_App P_Elt [M_Int 2; M_Int 20] []]) (T_Map T_Nat T_Mutez) Demo.ctx
    = (Ok tv, c') /\ value_typed Demo.env tv (T_Map T_Nat T_Mutez).
Proof.
  pose proof (typecheck_value_safe Demo.env Demo.ctx Demo.fuel
    (M_Seq [M_App P_Elt [M_Int 1; M_Int 10] []; M_App P_Elt [M_Int 2; M_Int 20] []]) (T_Map T_Nat T_Mutez)
    Demo.ctx_ok (fun _ => eq_refl) eq_refl (proj1 Demo.gas_ok) (proj2 Demo.gas_ok)) as H.
  assert (Hrun : is_ok (typecheck_value Demo.fuel
    (M_Seq [M_App P_Elt [M_Int 1; M_Int 10] []; M_App P_Elt [M_Int 2; M_Int 20] []]) (T_Map T_Nat T_Mutez)
      Demo.ctx).1 = true) by (vm_compute; reflexivity).
  destruct (typecheck_value _ _ _ _) as [[tv| | |] c']; try discriminate Hrun.
  exists tv, c'. split; [reflexivity|apply H].
Defined.

Lemma typecheck_script_safe_witness :
  exists cs c' eps, typecheck_script Demo.fuel Demo.script Demo.ctx = (Ok cs, c') /\ script_typed Demo.env eps cs.
Proof.
  pose proof (typecheck_script_safe Demo.env Demo.ctx Demo.fuel Demo.script
    Demo.ctx_ok (fun _ => eq_refl) (proj1 Demo.gas_ok) (proj2 Demo.gas_ok)) as H.
  assert (Hrun : is_ok (typecheck_script Demo.fuel Demo.script Demo.ctx).1 = true) by (vm_compute; reflexivity).
  destruct (typecheck_script _ _ _) as [[cs| | |] c']; try discriminate Hrun.
  destruct H as (_&_&eps&H). exists cs, c', eps. split; [reflexivity|exact H].
Defined.

Lemma interpret_never_panics_witness :
  exists st c', interpret_one Demo.fuel Demo.code [V_Pair (V_Nat 2) (V_Nat 40)] Demo.ctx = (Ok st, c') /\
    stack_typed Demo.env st [T_Pair (T_List T_Operation) T_Nat].
Proof.
  pose proof (interpret_never_panics Demo.env Demo.ctx Demo.fuel (Some Demo.eps) Demo.code _ _
    [V_Pair (V_Nat 2) (V_Nat 40)] eq_refl Demo.ctx_ok Demo.env_self Demo.code_typed) as H.
  assert (Hst : stack_typed Demo.env [V_Pair (V_Nat 2) (V_Nat 40)] [T_Pair T_Nat T_Nat]) by (repeat constructor).
  specialize (H Hst (proj1 Demo.gas_ok) (proj2 Demo.gas_ok)).
  assert (Hrun : is_ok (interpret_one Demo.fuel Demo.code [V_Pair (V_Nat 2) (V_Nat 40)] Demo.ctx).1 = true)
    by (vm_compute; reflexivity).
  destruct (interpret_one _ _ _ _) as [[st| | |] c']; try discriminate Hrun.
  destruct H as (_&_&s'&[= <-]&H). exists st, c'. split; [reflexivity|exact H].
Defined.

Lemma contract_call_safe_witness :
  exists ops storage c', ContractScript_interpret Demo.fuel Demo.contract (M_Int 2) (M_Int 40) Demo.ctx
    = (Ok (ops, storage), c') /\ value_typed Demo.env storage T_Nat.
Proof.
  pose proof (contract_call_safe Demo.env Demo.ctx Demo.fuel Demo.contract Demo.eps (M_Int 2) (M_Int 40)
    Demo.ctx_ok Demo.env_self Demo.contract_typed (fun _ => eq_refl) (fun _ => eq_refl)
    (proj1 Demo.gas_ok) (proj2 Demo.gas_ok)) as H.
  assert (Hrun : is_ok (ContractScript_interpret Demo.fuel Demo.contract (M_Int 2) (M_Int 40) Demo.ctx).1 = true)
    by (vm_compute; reflexivity).
  destruct (ContractScript_interpret _ _ _ _ _) as [[[ops storage]| | |] c']; try discriminate Hrun.
  exists ops, storage, c'. split; [reflexivity|apply H].
Defined.

Lemma accepted_script_runs_safely_witness :
  match (ContractScript_interpret Demo.fuel Demo.contract (M_Int 2) (M_Int 40) Demo.ctx).1 with
  | Ok (_, storage) => value_typed Demo.open_env storage T_Nat
  | _ => False
  end.
Proof.
  assert (Hrun : exists c', typecheck_script Demo.fuel Demo.script Demo.ctx = (Ok Demo.contract, c')).
  { exists (typecheck_script Demo.fuel Demo.script Demo.ctx).2. vm_compute. reflexivity. }
  destruct Hrun as [c' Hrun].
  destruct (accepted_script_runs_safely Demo.open_env Demo.ctx c' Demo.fuel Demo.script Demo.contract
    Demo.open_env_ok (fun _ => eq_refl) (proj1 Demo.gas_ok) Hrun) as [eps H].
  specialize (H Demo.ctx Demo.fuel (M_Int 2) (M_Int 40) Demo.open_env_ok (fun _ _ _ _ _ => I)
    (fun _ => eq_refl) (fun _ => eq_refl) (proj1 Demo.gas_ok) (proj2 Demo.gas_ok)).
  assert (Hok : is_ok (ContractScript_interpret Demo.fuel Demo.contract (M_Int 2) (M_Int 40) Demo.ctx).1 = true)
    by (vm_compute; reflexivity).
  destruct (ContractScript_interpret _ _ _ _ _) as [[[ops storage]| | |] c2]; try discriminate Hok. exact H.
Defined.

(** * A call followed by writing its big maps back *)

(** Big maps inside a typed value fit the storage typing refers to. *)
Lemma view_big_maps_ok {St} `{LSL : LazyStorageLaws St} (env : tenv) (s : St) :
  (forall id tys, e_big_maps env id = Some tys -> ls_types s id = Some tys) ->
  forall v t, value_typed env v t -> Forall (big_map_ok s) (view_big_maps v).
Proof.
  intros Hs. fix IH 1. intros v t Hv. destruct v as [| | | | | |l r|o|l|l|m|m|o| | | | | | | | |o| | | | |]; try apply Forall_nil_2; cbn [view_big_maps].
  - inversion Hv; subst. apply Forall_app_2; by eapply IH.
  - destruct o as [x|]; [|apply Forall_nil_2]. inversion Hv; subst. by eapply IH.
  - assert (Hl : exists u, Forall (fun v => value_typed env v u) l) by (inversion Hv; eauto). destruct Hl as [u Hl].
    clear Hv. induction l as [|x l IHl]; [apply Forall_nil_2|]. cbn.
    apply Forall_app_2; [eapply IH, (Forall_inv Hl)|apply IHl, (Forall_inv_tail Hl)].
  - assert (Hl : exists k u, Forall (fun e => value_typed env e.1 k /\ value_typed env e.2 u) m) by (inversion Hv; eauto).
    destruct Hl as (k&u&Hl). clear Hv. induction m as [|[x y] m IHm]; [apply Forall_nil_2|]. cbn.
    apply Forall_app_2; [eapply IH, (proj2 (Forall_inv Hl))|apply IHm, (Forall_inv_tail Hl)].
  - inversion Hv; subst. constructor; [|constructor]. split_and!; cbn; [|done|auto].
    eapply Forall_impl; [eassumption|]. intros e [? _]. by eapply value_typed_comparable.
  - destruct o as [x|x]; inversion Hv; subst; by eapply IH.
  - destruct o as [[p a n|d|tag x ty|d n x cs m] c]; try apply Forall_nil_2;
      inversion Hv; subst; match goal with Ho : operation_typed _ _ |- _ => inversion Ho; subst end; by eapply IH.
Qed.

(** The big maps of what a call returns. *)
Definition finished_maps (ops : list OperationInfo) (storage : TypedValue) : list BigMap :=
  view_big_maps storage ++ mjoin (map (fun o => view_big_maps (V_Operation o)) ops).

Section commit.
Context {X : External} {XL : ExternalLaws X}.

(** C14: a call can always be committed.  When a call of a typed contract succeeds over the in-memory
    storage, dumping the big maps of the new storage and of the operations into that storage
    succeeds: each ends up under an id of its own with nothing left in memory and reads as it did at the
    end of the call, and the storage keeps no map that is gone ([dumped]). *)
Theorem call_then_dump (strict : bool) (c c' : Ctx) (s : InMemoryLazyStorage) (fuel : nat) (cs : ContractScript)
    (eps : Entrypoints) (parameter storage : Micheline) (started : list BigMapId)
    (ops : list OperationInfo) (new_storage : TypedValue) :
  let env := env_of strict c eps in
  big_map_storage c = dyn_in_memory s -> mutez_ok (amount c) -> mutez_ok (balance c) -> im_inv s -> im_typed env s ->
  script_typed env eps cs -> in_fragment env parameter -> in_fragment env storage -> has_gas c ->
  Forall (fun id => is_Some (im_types s id)) started ->
  ContractScript_interpret fuel cs parameter storage c = (Ok (ops, new_storage), c') ->
  let maps := finished_maps ops new_storage in
  exists s' maps', dump_big_map_updates started (s, maps) = (Ok tt, (s', maps')) /\
    dumped (LSL := InMemory_laws) started s maps s' maps'.
Proof.
  intros env Hs Ha Hb Hinv Him Hcs Hp Hst Hg Hstarted Hrun. cbn zeta.
  assert (HP : run_panic env PStackBounds /\ run_panic env PSlice) by (unfold run_panic, tc_panic; tauto).
  pose proof (triple_run _ _ _ _ _ (contract_run_sound env _ c fuel cs eps parameter storage
    (env_of_typed strict c eps s Hs Ha Hb Him) (run_policy env) HP (env_of_self strict c eps) Hcs Hp Hst) Hg) as H.
  rewrite Hrun in H. destruct H as (_&_&Hops&Hnew). cbn in Hops, Hnew.
  apply (dump_spec (LSL := InMemory_laws)); [done| |done].
  assert (Hids : forall id tys, e_big_maps env id = Some tys -> im_types s id = Some tys).
  { intros id tys. cbn. by rewrite Hs. }
  apply Forall_app_2; [by eapply (view_big_maps_ok (LSL := InMemory_laws) env s Hids)|].
  clear -Hops Hids. induction Hops as [|o ops Ho Hops IH]; [constructor|]. cbn.
  apply Forall_app_2; [|done]. by apply (view_big_maps_ok (LSL := InMemory_laws) env s Hids _ _ Ho).
Qed.
End commit.

(** A contract whose storage is a big map and whose calls add a key. *)
Module CommitDemo.
Import Demo.
Definition storage0 : InMemoryLazyStorage := mkInMemory 1 {[ 0%Z := mkMapInfo [] T_Nat T_Nat ]}.
Definition ctx_bm : Ctx :=
  mkCtx (gas ctx) 0 0 0%N (sender ctx) (source ctx) (min_block_time ctx) (chain_id ctx) (self_address ctx)
    (lookup_contract ctx) (voting_powers ctx) (now ctx) (total_voting_power ctx) (operation_group_hash ctx)
    (dyn_in_memory storage0) (origination_count ctx) (operation_count ctx).
Definition code_bm : Instruction :=
  I_Seq [I_Unpair; I_Dup None; I_ISome; I_Swap; I_Update Update_BigMap; I_Nil; I_Pair].
Definition contract_bm : ContractScript := mkContractScript T_Nat (T_BigMap T_Nat T_Nat) code_bm.
Definition eps_bm : Entrypoints := {[ default_ep := T_Nat ]}.
Definition env_bm : tenv := env_of true ctx_bm eps_bm.

Lemma contract_bm_typed : script_typed env_bm eps_bm contract_bm.
Proof.
  econstructor; [done..| |apply fle_refl]. constructor.
  eapply BT_cons; [apply IT_Unpair|]. eapply BT_cons; [by apply (IT_Dup _ _ _ 0)|].
  eapply BT_cons; [apply IT_ISome|]. eapply BT_cons; [apply IT_Swap|]. eapply BT_cons; [apply IT_UpdateBigMap|].
  eapply BT_cons; [apply IT_Nil|]. eapply BT_cons; [apply IT_Pair|]. constructor.
Qed.

Lemma storage0_inv : im_inv storage0.
Proof.
  intros id info. cbn. rewrite lookup_singleton_Some. intros [<- <-]. split; [done|split; constructor].
Qed.

Lemma storage0_typed : im_typed env_bm storage0.
Proof.
  intros id info. cbn. rewrite lookup_singleton_Some. intros [<- <-]. split; [done|split; constructor].
Qed.
End CommitDemo.

Lemma call_then_dump_witness :
  exists ops new_storage c' s' maps',
    ContractScript_interpret Demo.fuel CommitDemo.contract_bm (M_Int 5) (M_Int 0) CommitDemo.ctx_bm
      = (Ok (ops, new_storage), c') /\
    dump_big_map_updates [0%Z] (CommitDemo.storage0, finished_maps ops new_storage) = (Ok tt, (s', maps')) /\
    NoDup (bm_id <$> maps').
Proof.
  pose proof (call_then_dump true CommitDemo.ctx_bm) as H.
  assert (Hrun : is_ok (ContractScript_interpret Demo.fuel CommitDemo.contract_bm (M_Int 5) (M_Int 0) CommitDemo.ctx_bm).1
    = true) by (vm_compute; reflexivity).
  destruct (ContractScript_interpret Demo.fuel CommitDemo.contract_bm (M_Int 5) (M_Int 0) CommitDemo.ctx_bm)
    as [[[ops new_storage]| | |] c'] eqn:E; try discriminate Hrun.
  destruct (H c' CommitDemo.storage0 Demo.fuel CommitDemo.contract_bm CommitDemo.eps_bm (M_Int 5) (M_Int 0) [0%Z]
    ops new_storage) as (s'&maps'&Hd&Hdumped).
  - reflexivity.
  - split; vm_compute; congruence.
  - split; vm_compute; congruence.
  - exact CommitDemo.storage0_inv.
  - exact CommitDemo.storage0_typed.
  - exact CommitDemo.contract_bm_typed.
  - intros _. reflexivity.
  - intros _. reflexivity.
  - exact (proj1 Demo.gas_ok).
  - repeat constructor. eexists. reflexivity.
  - exact E.
  - exists ops, new_storage, c', s', maps'. split; [reflexivity|]. split; [exact Hd|].
    exact (du_distinct _ _ _ _ _ Hdumped).
Defined.
