(* ===== verification/Instructions.v ===== *)
(** What individual instructions compute.

    The theorems state exact runs ([Context.charges_as]) of [interpret_one] on an
    instruction: what it charges, and the outcome it then ends in, against a
    mathematical description of the result. *)

From S2P Require Import Prelude Endian Syntax Comparable Gas BigMap Stack External ByteRepr Serializer Context.
From S2P Require Import TypeProps Typechecker Typing TypecheckerSound Interpreter InterpreterSound.

(** * Exact runs *)

Abbreviation charges := (charges_as IE_OutOfGas).

(** Unfold a handler on a stack of known shape. *)
Ltac run :=
  cbv beta iota zeta delta
    [interpret_one run_one interpret_fuel interpret_step
     i_add i_mul i_sub_mutez i_and i_or i_xor i_not i_int i_nat i_bytes i_slice i_compare i_split_ticket i_join_tickets
     i_mem i_get i_update i_get_and_update i_dig i_dug i_pair_n i_unpair_n i_get_n i_update_n map_set
     pop pop_as top_as irrefutable expect TopFirst.index lookup list_lookup tail
     as_Int as_Nat as_Mutez as_Bool as_String as_Bytes as_Pair as_Option as_Set as_Map as_Ticket
     mbind M_bind mret M_ret lift mutez_or_overflow nat_to_i64].
(** What is left after the charge. *)
Ltac charge :=
  apply charges_intro; intros ?; run; unfold ie_consume_cost, ie_consume, consume_cost;
  cbv beta iota delta [mbind M_bind lift];
  repeat match goal with
  | |- context [map_err _ (Ok ?n)] => cbv beta iota delta [map_err]
  | |- context [map_err _ ?k] => destruct k; cbn [map_err]; try reflexivity
  end;
  match goal with
  | |- context [consume_gas ?e ?n ?c] => destruct (consume_gas e n c) as [[[]| | |] ?]; try reflexivity
  end.

(** * Bytes as numbers *)

Section byte_numbers.
#[local] Open Scope N_scope.

(** The bits of a number in base 256. *)
Lemma base256_bit b x i :
  b < 256 -> N.testbit (b + 256 * x) i = if i <? 8 then N.testbit b i else N.testbit x (i - 8).
Proof.
  intros Hb. rewrite N.mul_comm. change 256 with (2 ^ 8) in *. destruct (N.ltb_spec i 8) as [Hi|Hi].
  - rewrite <- (N.mod_pow2_bits_low (b + x * 2 ^ 8) 8 i), N.Div0.mod_add, N.mod_small by done. done.
  - replace i with (i - 8 + 8) at 1 by lia. rewrite <- N.div_pow2_bits, N.div_add by done.
    by rewrite N.div_small.
Qed.

Lemma byte_bitwise_bound (f : N -> N -> N) (g : bool -> bool -> bool) a b :
  (forall a b i, N.testbit (f a b) i = g (N.testbit a i) (N.testbit b i)) -> g false false = false ->
  a < 256 -> b < 256 -> f a b < 256.
Proof.
  intros Hf Hg Ha Hb. change 256 with (2 ^ 8) in *.
  rewrite <- (N.mod_small a (2 ^ 8)), <- (N.mod_small b (2 ^ 8)) by done.
  replace (f _ _) with (f (a mod 2 ^ 8) (b mod 2 ^ 8) mod 2 ^ 8); [by apply N.mod_lt|].
  apply N.bits_inj. intros i. rewrite Hf. destruct (N.lt_ge_cases i 8).
  - by rewrite !N.mod_pow2_bits_low, Hf, !N.mod_pow2_bits_low.
  - by rewrite !N.mod_pow2_bits_high, Hg by done.
Qed.

Section bitwise.
Context (op : byte -> byte -> byte) (f : N -> N -> N) (g : bool -> bool -> bool).
Context (Hop : forall a b, op a b = byte_of_N (f (Byte.to_N a) (Byte.to_N b))).
Context (Hf : forall a b i, N.testbit (f a b) i = g (N.testbit a i) (N.testbit b i)) (Hg : g false false = false).

Lemma zip_assign_cons b1 l1 b2 l2 :
  of_le_bytes (zip_assign op l1 l2) = f (of_le_bytes l2) (of_le_bytes l1) ->
  of_le_bytes (zip_assign op (b1 :: l1) (b2 :: l2)) = f (of_le_bytes (b2 :: l2)) (of_le_bytes (b1 :: l1)).
Proof.
  intros IH. cbn [zip_assign of_le_bytes]. pose proof (byte_to_N_bound b1). pose proof (byte_to_N_bound b2).
  assert (f (Byte.to_N b2) (Byte.to_N b1) < 256) by by eapply byte_bitwise_bound.
  rewrite Hop, byte_to_of_N, IH by done. apply N.bits_inj. intros i.
  rewrite Hf, !base256_bit by done. by destruct (i <? 8); rewrite Hf.
Qed.

Lemma length_zip_assign l1 l2 : length (zip_assign op l1 l2) = length l2.
Proof. revert l2. induction l1; intros []; cbn; auto. Qed.

(** Up to the end of the shorter operand, which is updated ([AND]). *)
Lemma zip_assign_shorter l1 l2 :
  (forall a, f 0 a = 0) -> (length l2 <= length l1)%nat ->
  of_le_bytes (zip_assign op l1 l2) = f (of_le_bytes l2) (of_le_bytes l1).
Proof.
  intros H0. revert l2. induction l1 as [|b1 l1 IH]; intros [|b2 l2] Hl; cbn in Hl; try lia.
  - cbn. by rewrite H0.
  - symmetry. apply H0.
  - apply zip_assign_cons, IH. lia.
Qed.

(** The longer operand is updated and keeps its other bytes ([OR], [XOR]). *)
Lemma zip_assign_longer l1 l2 :
  (forall a, f a 0 = a) -> (length l1 <= length l2)%nat ->
  of_le_bytes (zip_assign op l1 l2) = f (of_le_bytes l2) (of_le_bytes l1).
Proof.
  intros H0. revert l2. induction l1 as [|b1 l1 IH]; intros l2 Hl; [by destruct l2; cbn; rewrite H0|].
  destruct l2 as [|b2 l2]; cbn in Hl; [lia|]. apply zip_assign_cons, IH. lia.
Qed.
End bitwise.

Lemma bytes_and_spec a b :
  from_bytes_be (bytes_and a b) = N.land (from_bytes_be a) (from_bytes_be b) /\
  length (bytes_and a b) = Nat.min (length a) (length b).
Proof.
  unfold bytes_and, zip_assign_rev, from_bytes_be.
  destruct (Nat.ltb_spec (length a) (length b)); rewrite reverse_involutive, length_reverse, length_zip_assign;
    rewrite !length_reverse; (split; [|lia]);
    rewrite (zip_assign_shorter _ N.land andb); rewrite ?length_reverse; auto using N.land_spec, N.land_0_l with lia.
  apply N.land_comm.
Qed.

Lemma bytes_or_spec a b :
  from_bytes_be (bytes_or a b) = N.lor (from_bytes_be a) (from_bytes_be b) /\
  length (bytes_or a b) = Nat.max (length a) (length b).
Proof.
  unfold bytes_or, zip_assign_rev, from_bytes_be.
  destruct (Nat.ltb_spec (length b) (length a)); rewrite reverse_involutive, length_reverse, length_zip_assign;
    rewrite !length_reverse; (split; [|lia]);
    rewrite (zip_assign_longer _ N.lor orb); rewrite ?length_reverse; auto using N.lor_spec, N.lor_0_r with lia.
  apply N.lor_comm.
Qed.

Lemma bytes_xor_spec a b :
  from_bytes_be (bytes_xor a b) = N.lxor (from_bytes_be a) (from_bytes_be b) /\
  length (bytes_xor a b) = Nat.max (length a) (length b).
Proof.
  unfold bytes_xor, zip_assign_rev, from_bytes_be.
  destruct (Nat.ltb_spec (length b) (length a)); rewrite reverse_involutive, length_reverse, length_zip_assign;
    rewrite !length_reverse; (split; [|lia]);
    rewrite (zip_assign_longer _ N.lxor xorb); rewrite ?length_reverse; auto using N.lxor_spec, N.lxor_0_r with lia.
  apply N.lxor_comm.
Qed.

Lemma of_le_bytes_not l : of_le_bytes (map byte_not l) = 256 ^ N.of_nat (length l) - 1 - of_le_bytes l.
Proof.
  induction l as [|b l IH]; [done|]. cbn [length]. rewrite Nat2N.inj_succ, N.pow_succ_r'.
  change (Byte.to_N (byte_not b) + 256 * of_le_bytes (map byte_not l)
    = 256 * 256 ^ N.of_nat (length l) - 1 - (Byte.to_N b + 256 * of_le_bytes l)).
  pose proof (byte_to_N_bound b). pose proof (of_le_bytes_bound l).
  rewrite IH. unfold byte_not. rewrite byte_to_of_N by lia. lia.
Qed.

Lemma bytes_not_spec a : from_bytes_be (map byte_not a) = 256 ^ N.of_nat (length a) - 1 - from_bytes_be a.
Proof. unfold from_bytes_be. by rewrite <- fmap_reverse, <- (length_reverse a), <- of_le_bytes_not. Qed.

(** [to_bytes_be] and [from_bytes_be]. *)
Lemma to_bytes_be_round_trip n : from_bytes_be (to_bytes_be n) = n.
Proof.
  unfold from_bytes_be, to_bytes_be, to_bytes_le. rewrite reverse_involutive.
  apply of_le_bytes_le_bytes, byte_len_fits.
Qed.

Lemma from_bytes_be_bound l : from_bytes_be l < 256 ^ N.of_nat (length l).
Proof. unfold from_bytes_be. rewrite <- (length_reverse l). apply of_le_bytes_bound. Qed.

Lemma to_bytes_be_shortest n l : n <> 0 -> from_bytes_be l = n -> (length (to_bytes_be n) <= length l)%nat.
Proof.
  intros Hn Hl. unfold to_bytes_be, to_bytes_le. rewrite length_reverse, length_le_bytes.
  pose proof (from_bytes_be_bound l) as Hb. rewrite Hl in Hb. apply size_bytes_bound; [done|].
  destruct l; cbn in *; [|lia]. unfold from_bytes_be in Hl. cbn in Hl. lia.
Qed.
End byte_numbers.

Section instructions.
Context {X : External}.
Implicit Types (st : IStack) (fuel : nat).

(** * Mutez arithmetic *)

Lemma checked_mutez z : (0 <= z)%Z -> checked_i64 z = if (z <? 2 ^ 63)%Z then Some z else None.
Proof.
  intros Hz. unfold checked_i64, in_i64. by rewrite (proj2 (Z.leb_le (- 2 ^ 63) z)) by lia.
Qed.

(** C34: mutez arithmetic is exact or refused.  On amounts in range, [ADD] and [MUL] return the
    mathematical sum and product when they fit 63 bits and [MutezOverflow] otherwise (a factor that
    does not fit 63 bits is refused too, whatever the amount), and [SUB_MUTEZ] returns the difference
    or [None] when it would be negative; each charges its fixed cost before anything is refused. *)
Theorem mutez_arithmetic fuel (a b : Z) (n : N) st :
  mutez_ok a -> mutez_ok b ->
  charges (Ok ic_ADD_TEZ)
    (if (a + b <? 2 ^ 63)%Z then Ok (V_Mutez (a + b) :: st) else Err IE_MutezOverflow)
    (interpret_one (S fuel) (I_Add Add_MutezMutez) (V_Mutez a :: V_Mutez b :: st)) /\
  charges (Ok ic_SUB_MUTEZ)
    (Ok (V_Option (if (b <=? a)%Z then Some (V_Mutez (a - b)) else None) :: st))
    (interpret_one (S fuel) I_SubMutez (V_Mutez a :: V_Mutez b :: st)) /\
  let product := if ((Z.of_N n <? 2 ^ 63) && (a * Z.of_N n <? 2 ^ 63))%Z
                 then Ok (V_Mutez (a * Z.of_N n) :: st) else Err IE_MutezOverflow in
  charges (Ok ic_MUL_TEZ_NAT) product
    (interpret_one (S fuel) (I_Mul Mul_MutezNat) (V_Mutez a :: V_Nat n :: st)) /\
  charges (Ok ic_MUL_NAT_TEZ) product
    (interpret_one (S fuel) (I_Mul Mul_NatMutez) (V_Nat n :: V_Mutez a :: st)).
Proof.
  unfold mutez_ok. intros Ha Hb. cbn zeta. split_and!; charge.
  - rewrite checked_mutez by lia. by destruct (_ <? _)%Z.
  - destruct (Z.leb_spec b a); [|done]. by rewrite wrap_i64_small by (unfold mutez_ok; lia).
  - rewrite !checked_mutez by nia. destruct (Z.of_N n <? 2 ^ 63)%Z; [cbn|done].
    rewrite checked_mutez by nia. by destruct (_ <? _)%Z.
  - rewrite !checked_mutez by nia. destruct (Z.of_N n <? 2 ^ 63)%Z; [cbn|done].
    rewrite checked_mutez, Z.mul_comm by nia. by destruct (_ <? _)%Z.
Qed.

(** * Logic on bytes *)

(** [AND], [OR], [XOR] and [NOT] on byte strings of any lengths are the operations on the
    numbers the strings denote (big endian, aligned at the last byte): [AND] truncates to the shorter
    operand, [OR] and [XOR] extend to the longer one, [NOT] complements within the length.  [XOR] is
    free of charge, the others charge their cost. *)
Theorem bytes_logic fuel (a b : bytes) st :
  exists r_and r_or r_xor r_not,
    charges (ic_and_bytes a b) (Ok (V_Bytes r_and :: st))
      (interpret_one (S fuel) (I_And And_Bytes) (V_Bytes a :: V_Bytes b :: st)) /\
    from_bytes_be r_and = N.land (from_bytes_be a) (from_bytes_be b) /\
    length r_and = Nat.min (length a) (length b) /\
    charges (ic_or_bytes a b) (Ok (V_Bytes r_or :: st))
      (interpret_one (S fuel) (I_Or Or_Bytes) (V_Bytes a :: V_Bytes b :: st)) /\
    from_bytes_be r_or = N.lor (from_bytes_be a) (from_bytes_be b) /\
    length r_or = Nat.max (length a) (length b) /\
    charges (Ok 0%N) (Ok (V_Bytes r_xor :: st))
      (interpret_one (S fuel) (I_Xor Xor_Bytes) (V_Bytes a :: V_Bytes b :: st)) /\
    from_bytes_be r_xor = N.lxor (from_bytes_be a) (from_bytes_be b) /\
    length r_xor = Nat.max (length a) (length b) /\
    charges (ic_not_bytes a) (Ok (V_Bytes r_not :: st))
      (interpret_one (S fuel) (I_Not Not_Bytes) (V_Bytes a :: st)) /\
    from_bytes_be r_not = (256 ^ N.of_nat (length a) - 1 - from_bytes_be a)%N /\
    length r_not = length a.
Proof.
  exists (bytes_and a b), (bytes_or a b), (bytes_xor a b), (map byte_not a).
  destruct (bytes_and_spec a b), (bytes_or_spec a b), (bytes_xor_spec a b).
  split_and!; try done; first [exact (charges_ret _ _) | apply bytes_not_spec | apply length_map | charge].
Qed.

(** * Numbers and bytes *)

(** Two's complement. *)
Lemma le_bytes_last n z : le_bytes (S n) z = le_bytes n z ++ [byte_of_N (z / 256 ^ N.of_nat n)].
Proof.
  revert z. induction n as [|n IH]; intros z.
  { cbn. unfold byte_of_N. rewrite N.Div0.mod_mod. change (256 ^ 0)%N with 1%N. by rewrite N.div_1_r. }
  change (le_bytes (S (S n)) z) with (byte_of_N (z mod 256) :: le_bytes (S n) (z / 256)).
  rewrite IH. cbn. do 3 f_equal. rewrite N.Div0.div_div, Nat2N.inj_succ, N.pow_succ_r'. done.
Qed.

Lemma signed_byte_len_fits z :
  (- 2 ^ (8 * Z.of_nat (signed_byte_len z) - 1) <= z < 2 ^ (8 * Z.of_nat (signed_byte_len z) - 1))%Z.
Proof.
  unfold signed_byte_len. set (m := if (z <? 0)%Z then _ else _). rewrite N_nat_Z, N2Z.inj_add, N2Z.inj_div.
  assert (Hm : (Z.of_N m < 2 ^ (8 * (Z.of_N (N.size m) / 8 + 1) - 1))%Z).
  { pose proof (N.size_gt m) as H. apply N2Z.inj_lt in H. rewrite N2Z.inj_pow in H.
    eapply Z.lt_le_trans; [exact H|]. apply Z.pow_le_mono_r; [lia|].
    pose proof (Z.div_mod (Z.of_N (N.size m)) 8). pose proof (Z.mod_pos_bound (Z.of_N (N.size m)) 8). lia. }
  subst m. destruct (Z.ltb_spec z 0); rewrite Z2N.id in Hm by lia; lia.
Qed.

Lemma to_signed_bytes_be_round_trip z : from_signed_bytes_be (to_signed_bytes_be z) = z.
Proof.
  unfold to_signed_bytes_be. pose proof (signed_byte_len_fits z) as Hz.
  assert (exists k, signed_byte_len z = S k) as [k Hk].
  { unfold signed_byte_len. rewrite N2Nat.inj_add, Nat.add_1_r. eauto. }
  rewrite Hk in *. set (v := Z.to_N (z mod 2 ^ (8 * Z.of_nat (S k)))).
  assert (Hv : (v < 256 ^ N.of_nat (S k))%N).
  { apply N2Z.inj_lt. unfold v. rewrite Z2N.id by (apply Z.mod_pos_bound; lia). rewrite N2Z.inj_pow, nat_N_Z.
    change (Z.of_N 256) with (2 ^ 8)%Z. rewrite <- Z.pow_mul_r by lia. apply Z.mod_pos_bound. lia. }
  unfold from_signed_bytes_be, from_bytes_be. rewrite reverse_involutive, of_le_bytes_le_bytes by done.
  rewrite length_reverse, length_le_bytes, le_bytes_last, reverse_snoc.
  assert (Hpow : (2 ^ (8 * Z.of_nat (S k)) = 256 * Z.of_N (256 ^ N.of_nat k))%Z).
  { rewrite N2Z.inj_pow, nat_N_Z. change (Z.of_N 256) with (2 ^ 8)%Z. rewrite <- Z.pow_mul_r by lia.
    change 256%Z with (2 ^ 8)%Z. rewrite <- Z.pow_add_r by lia. f_equal. lia. }
  assert (Hhalf : (2 ^ (8 * Z.of_nat (S k) - 1) = 128 * Z.of_N (256 ^ N.of_nat k))%Z).
  { apply (Z.mul_reg_l _ _ 2); [lia|]. rewrite <- Z.pow_succ_r by lia.
    replace (Z.succ _) with (8 * Z.of_nat (S k))%Z by lia. lia. }
  rewrite Nat2N.inj_succ, N.pow_succ_r' in Hv. set (p := (256 ^ N.of_nat k)%N) in *.
  assert (0 < p)%N by (apply N.neq_0_lt_0, N.pow_nonzero; lia).
  rewrite byte_to_of_N by (apply N.Div0.div_lt_upper_bound; lia).
  assert (Hsplit : Z.of_N v = if (z <? 0)%Z then (z + 256 * Z.of_N p)%Z else z).
  { unfold v. rewrite Z2N.id by (apply Z.mod_pos_bound; lia). rewrite Hpow. destruct (Z.ltb_spec z 0).
    - rewrite <- (Z.mod_add z 1) by lia. rewrite Z.mod_small; lia.
    - rewrite Z.mod_small; lia. }
  rewrite Hpow. destruct (N.leb_spec 128 (v / p)) as [Hle|Hlt].
  - assert (128 * p <= v)%N by (pose proof (N.Div0.mul_div_le v p); nia).
    destruct (Z.ltb_spec z 0); lia.
  - assert (v < 128 * p)%N by (pose proof (N.div_mod v p); pose proof (N.mod_lt v p); nia).
    destruct (Z.ltb_spec z 0); lia.
Qed.

(** [NAT] and [INT] undo [BYTES].  [BYTES] of a natural number is the shortest byte string that
    denotes it, and [NAT] reads it back; [BYTES] of an integer is its two's complement, which [INT]
    reads back.  Both charge their cost. *)
Theorem bytes_conversions fuel (n : N) (z : Z) st :
  exists bn bz,
    charges (ic_bytes_nat n) (Ok (V_Bytes bn :: st)) (interpret_one (S fuel) (I_Bytes Bytes_Nat) (V_Nat n :: st)) /\
    (forall l, from_bytes_be l = n -> length bn <= length l) /\
    charges (ic_int_bytes (len bn)) (Ok (V_Nat n :: st)) (interpret_one (S fuel) I_Nat (V_Bytes bn :: st)) /\
    charges (ic_bytes_int z) (Ok (V_Bytes bz :: st)) (interpret_one (S fuel) (I_Bytes Bytes_Int) (V_Int z :: st)) /\
    charges (ic_int_bytes (len bz)) (Ok (V_Int z :: st))
      (interpret_one (S fuel) (I_Int Int_Bytes) (V_Bytes bz :: st)).
Proof.
  exists (if (n =? 0)%N then [] else to_bytes_be n), (if (z =? 0)%Z then [] else to_signed_bytes_be z).
  split_and!; try charge.
  - intros l Hl. destruct (N.eqb_spec n 0); [cbn; lia|]. by apply to_bytes_be_shortest.
  - destruct (N.eqb_spec n 0) as [->|]; [done|]. by rewrite to_bytes_be_round_trip.
  - destruct (Z.eqb_spec z 0) as [->|]; [done|]. by rewrite to_signed_bytes_be_round_trip.
Qed.

(** * Slices *)

Lemma validate_bounds_spec off l n :
  (n <= U64_MAX)%N ->
  match validate_bounds off l n with
  | Some (a, b) => a = N.to_nat off /\ b = N.to_nat (off + l) /\ (off < n)%N
  | None => (n <= off \/ n < off + l)%N
  end.
Proof.
  intros Hn. unfold validate_bounds, to_usize.
  destruct (N.leb_spec off U64_MAX); cbn; [|lia]. destruct (N.leb_spec l U64_MAX); cbn; [|lia].
  destruct (N.leb_spec (off + l) U64_MAX); cbn; [|lia]. destruct (N.leb_spec n off); [lia|done].
Qed.

Lemma slice_get_spec s off l :
  (len s <= U64_MAX)%N ->
  (validate_bounds off l (len s) ≫= fun '(a, b) => slice_get s a b) =
  if ((off <? len s) && (off + l <=? len s))%N then Some (take (N.to_nat l) (drop (N.to_nat off) s)) else None.
Proof.
  intros Hs. pose proof (validate_bounds_spec off l (len s) Hs) as H.
  destruct (validate_bounds off l (len s)) as [[a b]|]; cbn.
  - destruct H as (->&->&H). unfold slice_get, len in *. rewrite (proj2 (N.ltb_lt _ _) H). cbn [andb].
    rewrite (proj2 (Nat.leb_le (N.to_nat off) (N.to_nat (off + l)))) by lia. cbn [andb].
    replace (N.to_nat (off + l) - N.to_nat off) with (N.to_nat l) by lia.
    destruct (N.leb_spec (off + l) (N.of_nat (length s))).
    + by rewrite (proj2 (Nat.leb_le _ _)) by lia.
    + by rewrite (proj2 (Nat.leb_gt _ _)) by lia.
  - destruct (N.ltb_spec off (len s)), (N.leb_spec (off + l) (len s)); lia || done.
Qed.

(** Every index of an ASCII string is a character boundary. *)
Lemma str_get_ascii s a b : Forall (fun c => (Byte.to_N c < 128)%N) s -> str_get s a b = slice_get s a b.
Proof.
  intros Hs. unfold str_get.
  assert (Hb : forall n, n <= length s -> is_char_boundary s n = true).
  { intros n Hn. unfold is_char_boundary. apply orb_true_iff. right.
    destruct (s !! n) as [c|] eqn:Hc.
    - apply (Forall_lookup_1 _ _ _ _ Hs) in Hc. by rewrite (proj2 (N.leb_gt 128 _)).
    - apply lookup_ge_None in Hc. apply Nat.eqb_eq. lia. }
  unfold slice_get. destruct (Nat.leb_spec a b); cbn [andb]; [|by destruct (_ && _)].
  destruct (Nat.leb_spec b (length s)); [|by destruct (_ && _)]. by rewrite !Hb by lia.
Qed.

(** [SLICE offset length] returns the [length] bytes from [offset] exactly when the offset is
    inside the string and the end is not past it, and [None] otherwise, however large the numbers:
    no index computation wraps around.  On strings of ASCII characters, the only ones Michelson has,
    the same holds. *)
Theorem slice_correct fuel (s : bytes) (off l : N) st :
  (len s <= U64_MAX)%N ->
  let inside := ((off <? len s) && (off + l <=? len s))%N in
  let part := take (N.to_nat l) (drop (N.to_nat off) s) in
  charges (ic_slice (len s)) (Ok (V_Option (if inside then Some (V_Bytes part) else None) :: st))
    (interpret_one (S fuel) (I_Slice Slice_Bytes) (V_Nat off :: V_Nat l :: V_Bytes s :: st)) /\
  (Forall (fun c => (Byte.to_N c < 128)%N) s ->
   charges (ic_slice (len s)) (Ok (V_Option (if inside then Some (V_String part) else None) :: st))
     (interpret_one (S fuel) (I_Slice Slice_String) (V_Nat off :: V_Nat l :: V_String s :: st))).
Proof.
  intros Hs. cbn zeta. pose proof (slice_get_spec s off l Hs) as H.
  assert (forall ctor : bytes -> TypedValue,
    V_Option (if ((off <? len s) && (off + l <=? len s))%N
              then Some (ctor (take (N.to_nat l) (drop (N.to_nat off) s))) else None) =
    V_Option (ctor <$> (validate_bounds off l (len s) ≫= fun '(a, b) => slice_get s a b))) as Hr.
  { intros ctor. rewrite H. by destruct (_ && _). }
  split; [|intros Hascii]; rewrite Hr; charge.
  do 4 f_equal. destruct (validate_bounds off l (len s)) as [[from to]|]; cbn; [|done]. by rewrite str_get_ascii.
Qed.

(** * Tickets *)

(** C35: tickets are neither created nor destroyed by [SPLIT_TICKET] and [JOIN_TICKETS].  Splitting
    succeeds exactly when both parts are positive and add up to the ticket's amount, and keeps the
    ticketer and the contents; joining tickets of comparable contents succeeds exactly when ticketer
    and contents agree, and adds the amounts.  So joining the two halves of a split gives the ticket
    back. *)
Theorem ticket_conservation fuel (h1 h2 : AddressHash) (v1 v2 : TypedValue) (t : Type_) (n1 n2 l r : N) st :
  comparable_value t v1 = true -> comparable_value t v2 = true ->
  charges (ic_split_ticket l r)
    (Ok (V_Option (if ((0 <? l) && (0 <? r) && (l + r =? n1))%N
                   then Some (V_Pair (V_Ticket (mkTicket h1 v1 l)) (V_Ticket (mkTicket h1 v1 r))) else None) :: st))
    (interpret_one (S fuel) I_SplitTicket (V_Ticket (mkTicket h1 v1 n1) :: V_Pair (V_Nat l) (V_Nat r) :: st)) /\
  (h1 = h2 /\ v1 = v2 ->
   charges (ic_join_tickets (mkTicket h1 v1 n1) (mkTicket h2 v2 n2))
     (Ok (V_Option (Some (V_Ticket (mkTicket h1 v1 (n1 + n2)))) :: st))
     (interpret_one (S fuel) I_JoinTickets
        (V_Pair (V_Ticket (mkTicket h1 v1 n1)) (V_Ticket (mkTicket h2 v2 n2)) :: st))) /\
  (~ (h1 = h2 /\ v1 = v2) ->
   charges (ic_join_tickets (mkTicket h1 v1 n1) (mkTicket h2 v2 n2)) (Ok (V_Option None :: st))
     (interpret_one (S fuel) I_JoinTickets
        (V_Pair (V_Ticket (mkTicket h1 v1 n1)) (V_Ticket (mkTicket h2 v2 n2)) :: st))).
Proof.
  intros H1 H2. pose proof (comparable_eqb_eq t v1 v2 H1 H2) as Heq.
  split_and!; intros; charge; cbn [tk_amount tk_content tk_ticketer].
  - destruct (N.eqb_spec (l + r) n1), (N.ltb_spec 0 l), (N.ltb_spec 0 r); done.
  - destruct H as [-> ->]. rewrite (proj2 Heq), bool_decide_true; done.
  - destruct (comparable_eqb v1 v2); [|done]. rewrite bool_decide_false; [done|].
    intros ->. apply H. split; [done|by apply Heq].
Qed.
End instructions.

Lemma mutez_arithmetic_witness :
  mutez_ok (2 ^ 62) /\
  charges (Ok ic_ADD_TEZ) (Err IE_MutezOverflow)
    (interpret_one (X := Concrete.concrete) 1 (I_Add Add_MutezMutez) [V_Mutez (2 ^ 62); V_Mutez (2 ^ 62)]).
Proof.
  split; [split; [lia|reflexivity]|].
  apply (mutez_arithmetic 0 (2 ^ 62) (2 ^ 62) 0 []); split; (lia || reflexivity).
Defined.

Lemma slice_correct_witness :
  (len (str "tezos") <= U64_MAX)%N /\
  charges (ic_slice 5) (Ok [V_Option (Some (V_Bytes (str "ez")))])
    (interpret_one (X := Concrete.concrete) 1 (I_Slice Slice_Bytes) [V_Nat 1; V_Nat 2; V_Bytes (str "tezos")]) /\
  charges (ic_slice 5) (Ok [V_Option None])
    (interpret_one (X := Concrete.concrete) 1 (I_Slice Slice_Bytes) [V_Nat 5; V_Nat 0; V_Bytes (str "tezos")]).
Proof.
  assert (H : (len (str "tezos") <= U64_MAX)%N) by discriminate. split; [exact H|].
  exact (conj (proj1 (slice_correct 0 (str "tezos") 1 2 [] H)) (proj1 (slice_correct 0 (str "tezos") 5 0 [] H))).
Defined.

Lemma ticket_conservation_witness :
  comparable_value T_String (V_String (str "a")) = true /\
  charges (ic_split_ticket 3 4)
    (Ok [V_Option (Some (V_Pair (V_Ticket (mkTicket (Kt1 []) (V_String (str "a")) 3))
                           (V_Ticket (mkTicket (Kt1 []) (V_String (str "a")) 4))))])
    (interpret_one (X := Concrete.concrete) 1 I_SplitTicket
       [V_Ticket (mkTicket (Kt1 []) (V_String (str "a")) 7); V_Pair (V_Nat 3) (V_Nat 4)]) /\
  charges (ic_join_tickets (mkTicket (Kt1 []) (V_String (str "a")) 3) (mkTicket (Kt1 []) (V_String (str "a")) 4))
    (Ok [V_Option (Some (V_Ticket (mkTicket (Kt1 []) (V_String (str "a")) 7)))])
    (interpret_one (X := Concrete.concrete) 1 I_JoinTickets
       [V_Pair (V_Ticket (mkTicket (Kt1 []) (V_String (str "a")) 3))
          (V_Ticket (mkTicket (Kt1 []) (V_String (str "a")) 4))]).
Proof.
  pose proof (ticket_conservation (X := Concrete.concrete) 0 (Kt1 []) (Kt1 []) (V_String (str "a")) (V_String (str "a"))
    T_String 7 0 3 4 [] eq_refl eq_refl) as [H _].
  pose proof (ticket_conservation (X := Concrete.concrete) 0 (Kt1 []) (Kt1 []) (V_String (str "a")) (V_String (str "a"))
    T_String 3 4 3 4 [] eq_refl eq_refl) as (_&H'&_).
  split; [reflexivity|]. split; [exact H|exact (H' (conj eq_refl eq_refl))].
Defined.
