(* ===== verification/Structures.v ===== *)
(** What instructions on structured data compute: stack permutations, right combs,
    sets and maps, iteration, comparison.  Statements are exact runs, see
    [Instructions]. *)

From S2P Require Import Prelude Syntax Comparable Gas BigMap Stack External ByteRepr Serializer Context.
From S2P Require Import TypeProps Typechecker Typing TypecheckerSound Interpreter InterpreterSound Instructions.

Section structures.
Context {X : External}.
Implicit Types (st : IStack) (fuel : nat).

(** * Stack permutations *)

(** [DIG n] brings the element at depth [n] to the top, [DUG n] sends the top to depth [n],
    and each undoes the other; no element is lost or duplicated, at any depth, 0 included. *)
Theorem dig_dug_inverse fuel (top : IStack) (x : TypedValue) st :
  charges (ic_dig (length top)) (Ok (x :: top ++ st))
    (interpret_one (S fuel) (I_Dig (length top)) (top ++ x :: st)) /\
  charges (ic_dug (length top)) (Ok (top ++ x :: st))
    (interpret_one (S fuel) (I_Dug (length top)) (x :: top ++ st)).
Proof.
  split; charge; destruct top as [|y top]; try done.
  - change (0 <? length (y :: top)) with true. cbn beta iota. by rewrite remove_app.
  - change (0 <? length (y :: top)) with true. cbn beta iota. by rewrite insert_app.
Qed.

(** * Right combs *)

Lemma comb_cons x l v :
  l <> [] -> comb V_Pair (x :: l) = Some v -> exists w, comb V_Pair l = Some w /\ v = V_Pair x w.
Proof.
  destruct l as [|y l]; [done|]. intros _ Hv.
  change (comb V_Pair (x :: y :: l)) with (V_Pair x <$> comb V_Pair (y :: l)) in Hv.
  destruct (comb V_Pair (y :: l)) as [w|]; cbn in Hv; [|done]. injection Hv as <-. eauto.
Qed.
Lemma comb_pair x l w : comb V_Pair l = Some w -> comb V_Pair (x :: l) = Some (V_Pair x w).
Proof.
  destruct l as [|y l]; [done|]. intros Hw.
  change (V_Pair x <$> comb V_Pair (y :: l) = Some (V_Pair x w)). by rewrite Hw.
Qed.

Lemma fill_comb top v st c :
  comb V_Pair top = Some v -> 0 < length top -> fill (length top - 1) st v c = (Ok (top ++ st), c).
Proof.
  revert v. induction top as [|x top IH]; intros v Hv Hl; cbn in Hl; [lia|].
  destruct (decide (top = [])) as [->|Hne]; [by injection Hv as <-|].
  destruct (comb_cons _ _ _ Hne Hv) as (w&Hw&->). destruct top as [|y top]; [done|].
  replace (length (x :: y :: top) - 1) with (S (length (y :: top) - 1)) by (cbn; lia).
  cbn [fill]. unfold mbind, M_bind. rewrite (IH w Hw) by (cbn; lia). done.
Qed.

(** Field [2 i] of a right comb is its [i]th tail, field [2 i + 1] its [i]th component. *)
Lemma get_nth_field_comb pre x post v :
  comb V_Pair (pre ++ x :: post) = Some v ->
  get_nth_field (2 * length pre) v = comb V_Pair (x :: post) /\
  (post <> [] -> get_nth_field (2 * length pre + 1) v = Some x).
Proof.
  revert v. induction pre as [|y pre IH]; intros v Hv; cbn [app] in Hv.
  - split; [by destruct v|]. intros Hne. by destruct (comb_cons _ _ _ Hne Hv) as (w&_&->).
  - destruct (comb_cons y (pre ++ x :: post) v) as (w&Hw&->); [by destruct pre|done|].
    destruct (IH w Hw) as [<- H2]. cbn [length].
    replace (2 * S (length pre)) with (S (S (2 * length pre))) by lia.
    split; [done|]. intros Hne. rewrite <- (H2 Hne). done.
Qed.

Lemma set_nth_field_comb pre x y post v :
  comb V_Pair (pre ++ x :: post) = Some v -> post <> [] ->
  exists w, comb V_Pair (pre ++ y :: post) = Some w /\ set_nth_field (2 * length pre + 1) v y = Some w.
Proof.
  intros Hv Hne. revert v Hv. induction pre as [|z pre IH]; intros v Hv; cbn [app] in *.
  - destruct (comb_cons _ _ _ Hne Hv) as (w&Hw&->). exists (V_Pair y w). split; [by apply comb_pair|done].
  - destruct (comb_cons z (pre ++ x :: post) v) as (w&Hw&->); [by destruct pre|done|].
    destruct (IH w Hw) as (u&Hu&Hset). exists (V_Pair z u). split; [by apply comb_pair|].
    cbn [length]. replace (2 * S (length pre) + 1) with (S (S (2 * length pre + 1))) by lia.
    cbn [set_nth_field]. by rewrite Hset.
Qed.

(** [PAIR n] builds the right comb of the [n] top elements and [UNPAIR n] takes it apart
    again.  On a comb, [GET (2i+1)] reads the [i]th component, [GET (2i)] the comb of the components
    from the [i]th on, and [UPDATE (2i+1)] replaces the [i]th component and no other. *)
Theorem comb_instructions fuel (pre post : list TypedValue) (x y : TypedValue) st :
  post <> [] ->
  exists v w tl,
    comb V_Pair (pre ++ x :: post) = Some v /\ comb V_Pair (pre ++ y :: post) = Some w /\
    comb V_Pair (x :: post) = Some tl /\
    let n := length (pre ++ x :: post) in
    let i := length pre in
    charges (ic_pair_n n) (Ok (v :: st)) (interpret_one (S fuel) (I_PairN n) ((pre ++ x :: post) ++ st)) /\
    charges (ic_unpair_n n) (Ok ((pre ++ x :: post) ++ st)) (interpret_one (S fuel) (I_UnpairN n) (v :: st)) /\
    charges (ic_get_n (2 * i + 1)) (Ok (x :: st)) (interpret_one (S fuel) (I_GetN (2 * i + 1)) (v :: st)) /\
    charges (ic_get_n (2 * i)) (Ok (tl :: st)) (interpret_one (S fuel) (I_GetN (2 * i)) (v :: st)) /\
    charges (ic_update_n (2 * i + 1)) (Ok (w :: st))
      (interpret_one (S fuel) (I_UpdateN (2 * i + 1)) (y :: v :: st)).
Proof.
  intros Hne. destruct (comb_some V_Pair (pre ++ x :: post)) as [v Hv]; [by destruct pre|].
  destruct (set_nth_field_comb _ _ y _ _ Hv Hne) as (w&Hw&Hset).
  destruct (get_nth_field_comb _ _ _ _ Hv) as [Htl Hx].
  destruct (comb_some V_Pair (x :: post)) as [tl Ht]; [done|]. rewrite Ht in Htl.
  exists v, w, tl. split_and!; [done..|]. cbn zeta. split_and!; charge.
  - rewrite split_off_app by done. by rewrite Hv.
  - rewrite fill_comb; [done..|]. rewrite length_app. cbn. lia.
  - by rewrite Hx.
  - by rewrite Htl.
  - by rewrite Hset.
Qed.

(** * Maps and sets *)

(** The value a map has at a key. *)
Definition map_at (k : TypedValue) (m : list (TypedValue * TypedValue)) : option TypedValue := snd <$> bt_spec fst k m.

Lemma bt_spec_elem_iff {A} (key : A -> TypedValue) t k l a :
  comparable_value t k = true -> Forall (fun a => comparable_value t (key a) = true) l -> bt_sorted key l ->
  bt_spec key k l = Some a <-> a ∈ l /\ key a = k.
Proof.
  intros Hk Hl Hs. induction Hs as [|b l _ IH Hb]; [set_solver|].
  apply Forall_cons in Hl as [Hkb Hl]. rewrite bt_spec_cons.
  destruct (comparable_eqb k (key b)) eqn:E.
  - apply (comparable_eqb_eq t) in E as ->; [|done..]. split; [intros [= <-]; set_solver|].
    intros [[->|Ha]%elem_of_cons Hkey]; [done|]. apply (proj1 (Forall_forall _ _) Hb) in Ha. unfold bt_lt in Ha.
    rewrite Hkey, (proj2 (partial_cmp_eq t _ _ Hkb Hkb) eq_refl) in Ha. done.
  - rewrite (IH Hl). split; [set_solver|]. intros [[->|Ha]%elem_of_cons Hkey]; [|done].
    rewrite Hkey, (comparable_eqb_refl t) in E; done.
Qed.

(** Reading back at any key after a change at [k]. *)
Lemma changed_at {A} t (k k' : TypedValue) (new old r : option A) :
  comparable_value t k = true -> comparable_value t k' = true ->
  (k' = k -> r = new) -> (k' <> k -> r = old) -> (if comparable_eqb k' k then new else old) = r.
Proof.
  intros Hk Hk' Hn Ho. destruct (comparable_eqb k' k) eqn:E; symmetry.
  - apply Hn. by apply (comparable_eqb_eq t).
  - apply Ho. intros ->. by rewrite (comparable_eqb_refl t) in E.
Qed.

(** C33: on maps with keys of one comparable type, [UPDATE] and [GET_AND_UPDATE] change the value at
    the given key and nothing else, keep the keys strictly ascending, and [GET_AND_UPDATE] returns
    the previous value; [GET] and [MEM] read the result back.  The value of a map at a key is the one
    of its unique binding. *)
Theorem map_update_correct fuel (kt : Type_) (m : list (TypedValue * TypedValue)) (k : TypedValue)
    (o : option TypedValue) st :
  comparable_value kt k = true -> Forall (fun e => comparable_value kt e.1 = true) m -> bt_sorted fst m ->
  (forall v, map_at k m = Some v <-> (k, v) ∈ m) /\
  exists m',
    charges (ic_map_update k (len m)) (Ok (V_Map m' :: st))
      (interpret_one (S fuel) (I_Update Update_Map) (k :: V_Option o :: V_Map m :: st)) /\
    charges (ic_map_get_and_update k (len m)) (Ok (V_Option (map_at k m) :: V_Map m' :: st))
      (interpret_one (S fuel) (I_GetAndUpdate GetAndUpdate_Map) (k :: V_Option o :: V_Map m :: st)) /\
    Forall (fun e => comparable_value kt e.1 = true) m' /\ bt_sorted fst m' /\
    forall k' r, comparable_value kt k' = true -> (k' = k -> r = o) -> (k' <> k -> r = map_at k' m) ->
      charges (ic_map_get k' (len m')) (Ok (V_Option r :: st))
        (interpret_one (S fuel) (I_Get Get_Map) (k' :: V_Map m' :: st)) /\
      charges (ic_map_mem k' (len m')) (Ok (V_Bool (bool_decide (is_Some r)) :: st))
        (interpret_one (S fuel) (I_Mem Mem_Map) (k' :: V_Map m' :: st)).
Proof.
  intros Hk Hm Hs. split.
  { intros v. unfold map_at. split.
    - destruct (bt_spec fst k m) as [[k1 v1]|] eqn:E; [|done]. intros [= <-].
      by apply (bt_spec_elem_iff fst kt) in E as [? [= <-]].
    - intros Hv. by rewrite (proj2 (bt_spec_elem_iff fst kt k m (k, v) Hk Hm Hs) (conj Hv eq_refl)). }
  assert (exists m', (match o with None => bt_remove (E := InterpretError) fst k m | Some v => bt_insert fst (k, v) m end)
      = Ok (bt_spec fst k m, m') /\
    Forall (fun e => comparable_value kt e.1 = true) m' /\ bt_sorted fst m' /\
    forall k', comparable_value kt k' = true ->
      map_at k' m' = if comparable_eqb k' k then o else map_at k' m) as (m'&Hset&Hm'&Hs'&Hat).
  { destruct o as [v|].
    - destruct (bt_insert_ok (E := InterpretError) fst kt (k, v) m) as (m'&->&?&?&_&H); [done..|].
      exists m'. split_and!; try done. intros k' Hk'. unfold map_at. rewrite H by done.
      by destruct (comparable_eqb k' _).
    - destruct (bt_remove_ok (E := InterpretError) fst kt k m) as (m'&->&?&?&_&H); [done..|].
      exists m'. split_and!; try done. intros k' Hk'. unfold map_at. rewrite H by done.
      by destruct (comparable_eqb k' _). }
  exists m'. split_and!; try done.
  - charge. by rewrite Hset.
  - charge. by rewrite Hset.
  - intros k' r Hk' Hnew Hold. specialize (Hat k' Hk'). rewrite (changed_at kt _ _ _ _ r Hk Hk' Hnew Hold) in Hat.
    split; charge; rewrite (bt_find_ok fst kt) by done; cbn; unfold map_at in Hat.
    + by rewrite Hat.
    + rewrite <- Hat. by destruct (bt_spec fst k' m').
Qed.

(** On sets of values of one comparable type, [UPDATE] adds or removes the given element and no
    other and keeps the elements strictly ascending; [MEM] tests membership. *)
Theorem set_update_correct fuel (t : Type_) (l : list TypedValue) (x : TypedValue) (b : bool) st :
  comparable_value t x = true -> Forall (fun e => comparable_value t e = true) l -> bt_sorted (fun e => e) l ->
  exists l',
    charges (ic_set_update x (len l)) (Ok (V_Set l' :: st))
      (interpret_one (S fuel) (I_Update Update_Set) (x :: V_Bool b :: V_Set l :: st)) /\
    Forall (fun e => comparable_value t e = true) l' /\ bt_sorted (fun e => e) l' /\
    (forall y, comparable_value t y = true -> (y ∈ l' <-> (y = x /\ b = true) \/ (y <> x /\ y ∈ l))) /\
    forall y, comparable_value t y = true ->
      exists r, charges (ic_set_mem y (len l')) (Ok (V_Bool r :: st))
        (interpret_one (S fuel) (I_Mem Mem_Set) (y :: V_Set l' :: st)) /\ (r = true <-> y ∈ l').
Proof.
  intros Hx Hl Hs.
  assert (exists l', (if b then bt_insert (E := InterpretError) (fun e => e) x l else bt_remove (fun e => e) x l)
      = Ok (bt_spec (fun e => e) x l, l') /\
    Forall (fun e => comparable_value t e = true) l' /\ bt_sorted (fun e => e) l' /\
    forall y, comparable_value t y = true ->
      bt_spec (fun e => e) y l' = if comparable_eqb y x then (if b then Some x else None) else bt_spec (fun e => e) y l)
    as (l'&Hset&Hl'&Hs'&Hat).
  { destruct b.
    - destruct (bt_insert_ok (E := InterpretError) (fun e => e) t x l) as (l'&->&?&?&_&H); [done..|]. eauto.
    - destruct (bt_remove_ok (E := InterpretError) (fun e => e) t x l) as (l'&->&?&?&_&H); [done..|]. eauto. }
  assert (Hmem : forall l, Forall (fun e => comparable_value t e = true) l -> bt_sorted (fun e => e) l ->
    forall y, comparable_value t y = true -> y ∈ l <-> bt_spec (fun e => e) y l = Some y).
  { intros l0 Hl0 Hs0 y Hy. rewrite (bt_spec_elem_iff (fun e => e) t) by done. tauto. }
  pose proof (Hmem l' Hl' Hs') as Hmem'. specialize (Hmem l Hl Hs).
  exists l'. split_and!; try done.
  - charge. destruct b; by rewrite Hset.
  - intros y Hy. rewrite Hmem', Hat by done. rewrite (Hmem y) by done.
    destruct (comparable_eqb y x) eqn:E.
    + apply (comparable_eqb_eq t) in E as ->; [|done..]. destruct b; naive_solver.
    + assert (y <> x) by (intros ->; by rewrite (comparable_eqb_refl t) in E). naive_solver.
  - intros y Hy. exists (bool_decide (is_Some (bt_spec (fun e => e) y l'))). split.
    + charge. by rewrite (bt_find_ok (fun e => e) t).
    + rewrite bool_decide_eq_true, Hmem' by done. split; [intros [z Hz]|by eexists].
      pose proof Hz as [_ ->]%(bt_spec_elem_iff (fun e => e) t); done.
Qed.

(** * Comparison *)

(** The result of [COMPARE] on comparable values. *)
Definition compare_sign (a b : TypedValue) : Z :=
  match partial_cmp a b with Some Lt => -1 | Some Gt => 1 | _ => 0 end%Z.

(** [COMPARE] never panics on two values of one comparable type and is a total order there: it
    returns -1, 0 or 1, returns 0 exactly on equal values, changes sign when the operands are
    exchanged, and is transitive. *)
Theorem compare_total_order fuel (t : Type_) (a b d : TypedValue) st :
  comparable_value t a = true -> comparable_value t b = true -> comparable_value t d = true ->
  charges (ic_compare a b) (Ok (V_Int (compare_sign a b) :: st)) (interpret_one (S fuel) I_Compare (a :: b :: st)) /\
  cost_safe (ic_compare a b) /\
  (compare_sign a b = 0 <-> a = b)%Z /\
  compare_sign b a = (- compare_sign a b)%Z /\
  (compare_sign a b = -1 -> compare_sign b d = -1 -> compare_sign a d = -1)%Z /\
  (compare_sign a b = -1 \/ compare_sign a b = 0 \/ compare_sign a b = 1)%Z.
Proof.
  intros Ha Hb Hd. destruct (partial_cmp_some t a b Ha Hb) as [r Hr].
  pose proof (partial_cmp_eq t a b Ha Hb) as Heq. pose proof (partial_cmp_opp t a b Ha Hb) as Hopp.
  pose proof (partial_cmp_trans t a b d Ha Hb Hd) as Htr. unfold compare_sign.
  split_and!.
  - charge. rewrite Hr. by destruct r.
  - by eapply ic_compare_safe.
  - rewrite <- Heq, Hr. by destruct r.
  - rewrite Hopp, Hr. by destruct r.
  - destruct (partial_cmp a b) as [[]|]; try done. destruct (partial_cmp b d) as [[]|]; try done. by rewrite Htr.
  - rewrite Hr. destruct r; auto.
Qed.

(** * Iteration *)

(** The milligas and the final stack of a loop whose body, run on [x :: s], charges [k x s]
    and leaves [f x s]. *)
Fixpoint loop_cost (k : TypedValue -> IStack -> N) (f : TypedValue -> IStack -> IStack)
    (l : list TypedValue) (s : IStack) : N :=
  match l with
  | [] => 0
  | x :: l => ic_PUSH + k x s + loop_cost k f l (f x s)
  end.

Lemma iter_over_fold run nested (Inv : IStack -> Prop) k f l s :
  (forall x s, x ∈ l -> Inv s -> Inv (f x s) /\ charges (Ok (k x s)) (Ok (f x s)) (run nested (x :: s))) ->
  Inv s -> charges (Ok (loop_cost k f l s)) (Ok (fold_left (fun s x => f x s) l s)) (iter_over run nested l s).
Proof.
  revert s. induction l as [|x l IH]; intros s Hbody Hs; cbn [iter_over loop_cost fold_left]; [apply charges_ret|].
  destruct (Hbody x s) as [Hs' Hrun]; [set_solver|done|]. rewrite <- N.add_assoc.
  eapply charges_bind; [apply charges_tick|]. eapply charges_bind; [exact Hrun|].
  apply IH; [|done]. intros y s' Hy. apply Hbody. set_solver.
Qed.

Lemma charges_pop {A} k (o : outcome InterpretError A) v st (cont : TypedValue * IStack -> ieM A) :
  charges k o (cont (v, st)) -> charges k o (pop (v :: st) ≫= cont).
Proof. exact id. Qed.

Lemma charges_pop_as {A B} (proj : TypedValue -> option B) b k (o : outcome InterpretError A) v st cont :
  proj v = Some b -> charges k o (cont (b, st)) -> charges k o (pop_as proj (v :: st) ≫= cont).
Proof. intros Hv. unfold pop_as, irrefutable. by run; rewrite Hv. Qed.

(** The results of [MAP] and the stack left below them. *)
Fixpoint map_results (f : TypedValue -> IStack -> TypedValue * IStack) (l : list TypedValue) (s : IStack)
  : list TypedValue * IStack :=
  match l with
  | [] => ([], s)
  | x :: l => let '(rs, s') := map_results f l (f x s).2 in ((f x s).1 :: rs, s')
  end.

Lemma map_over_fold run nested (Inv : IStack -> Prop) k f l s :
  (forall x s, x ∈ l -> Inv s -> Inv (f x s).2 /\
     charges (Ok (k x s)) (Ok ((f x s).1 :: (f x s).2)) (run nested (x :: s))) ->
  Inv s ->
  charges (Ok (loop_cost k (fun x s => (f x s).2) l s)) (Ok (map_results f l s)) (map_over run nested l s).
Proof.
  revert s. induction l as [|x l IH]; intros s Hbody Hs; cbn [map_over loop_cost map_results]; [apply charges_ret|].
  destruct (Hbody x s) as [Hs' Hrun]; [set_solver|done|]. rewrite <- N.add_assoc.
  eapply charges_bind; [apply charges_tick|]. eapply charges_bind; [exact Hrun|].
  assert (Htl : charges (Ok (loop_cost k (fun x s => (f x s).2) l (f x s).2)) (Ok (map_results f l (f x s).2))
    (map_over run nested l (f x s).2)) by (apply IH; [intros; apply Hbody; set_solver|done]).
  apply charges_pop.
  eapply charges_then_ret; [exact Htl|]. by destruct (map_results f l (f x s).2).
Qed.

(** [ITER] is a left fold of its body over the elements in order (sets and maps ascending, maps
    as pairs).  For a body that keeps an invariant of the stack below its argument and there charges
    [k] and computes [f], the loop charges its own cost and the sum of the body's and leaves the
    folded stack; with less gas it fails with [OutOfGas]. *)
Theorem iter_correct fuel (nested : list Instruction) (Inv : IStack -> Prop)
    (k : TypedValue -> IStack -> N) (f : TypedValue -> IStack -> IStack)
    (l : list TypedValue) (m : list (TypedValue * TypedValue)) st :
  (forall x s, x ∈ l ++ map pair_of m -> Inv s ->
     Inv (f x s) /\ charges (Ok (k x s)) (Ok (f x s)) (interpret fuel nested (x :: s))) ->
  Inv st ->
  let total xs := (ic_ITER + loop_cost k f xs st)%N in
  let final xs := fold_left (fun s x => f x s) xs st in
  charges (Ok (total l)) (Ok (final l)) (interpret_one (S fuel) (I_Iter Iter_List nested) (V_List l :: st)) /\
  charges (Ok (total l)) (Ok (final l)) (interpret_one (S fuel) (I_Iter Iter_Set nested) (V_Set l :: st)) /\
  charges (Ok (total (map pair_of m))) (Ok (final (map pair_of m)))
    (interpret_one (S fuel) (I_Iter Iter_Map nested) (V_Map m :: st)).
Proof.
  intros Hbody Hst. cbn zeta.
  split_and!; (eapply charges_bind; [apply charges_tick|]); eapply (iter_over_fold _ nested Inv); try done;
    intros; apply Hbody; set_solver.
Qed.

(** [MAP] applies its body to every element in order, threading the stack below, and keeps the
    shape of the collection: a list of the same length, the same keys of a map, [None] for [None].
    For a body that keeps an invariant of the stack below its argument and there charges [k] and
    computes [f], the loop charges its own cost and the sum of the body's; with less gas it fails
    with [OutOfGas]. *)
Theorem map_correct fuel (nested : list Instruction) (Inv : IStack -> Prop)
    (k : TypedValue -> IStack -> N) (f : TypedValue -> IStack -> TypedValue * IStack)
    (l : list TypedValue) (m : list (TypedValue * TypedValue)) st :
  (forall x s, x ∈ l ++ map pair_of m -> Inv s ->
     Inv (f x s).2 /\ charges (Ok (k x s)) (Ok ((f x s).1 :: (f x s).2)) (interpret fuel nested (x :: s))) ->
  Inv st ->
  let total xs := loop_cost k (fun x s => (f x s).2) xs st in
  let '(rs, s1) := map_results f l st in
  let '(vs, s2) := map_results f (map pair_of m) st in
  length rs = length l /\ length vs = length m /\
  charges (Ok (ic_MAP_LIST + total l)%N) (Ok (V_List rs :: s1))
    (interpret_one (S fuel) (I_Map Map_List nested) (V_List l :: st)) /\
  charges (Ok (ic_MAP_MAP + total (map pair_of m))%N) (Ok (V_Map (zip (map fst m) vs) :: s2))
    (interpret_one (S fuel) (I_Map Map_Map nested) (V_Map m :: st)) /\
  charges (Ok ic_MAP_OPTION) (Ok (V_Option None :: st))
    (interpret_one (S fuel) (I_Map Map_Option nested) (V_Option None :: st)) /\
  forall x, x ∈ l ->
    charges (Ok (ic_MAP_OPTION + (ic_PUSH + k x st))%N) (Ok (V_Option (Some (f x st).1) :: (f x st).2))
      (interpret_one (S fuel) (I_Map Map_Option nested) (V_Option (Some x) :: st)).
Proof.
  intros Hbody Hst. cbn zeta.
  assert (Hlen : forall xs s, length (map_results f xs s).1 = length xs).
  { induction xs as [|x xs IH]; intros s; cbn; [done|]. specialize (IH (f x s).2).
    destruct (map_results f xs (f x s).2). cbn in *. lia. }
  assert (Hrun : forall xs, (forall x, x ∈ xs -> x ∈ l ++ map pair_of m) ->
    charges (Ok (loop_cost k (fun x s => (f x s).2) xs st)) (Ok (map_results f xs st)) (map_over (interpret fuel) nested xs st)).
  { intros xs Hxs. apply (map_over_fold _ nested Inv); [|done]. intros. apply Hbody; auto. }
  assert (Hl := Hrun l ltac:(set_solver)). assert (Hm := Hrun (map pair_of m) ltac:(set_solver)).
  pose proof (Hlen l st). pose proof (Hlen (map pair_of m) st) as Hlm. rewrite length_map in Hlm.
  destruct (map_results f l st) as [rs s1], (map_results f (map pair_of m) st) as [vs s2].
  split_and!; [done..| | | |intros x Hx].
  - eapply charges_bind; [apply charges_tick|]. eapply charges_pop_as; [done|]. by eapply charges_then_ret.
  - eapply charges_bind; [apply charges_tick|]. eapply charges_pop_as; [done|]. by eapply charges_then_ret.
  - eapply charges_then_ret; [apply charges_tick|done].
  - eapply charges_bind; [apply charges_tick|]. eapply charges_pop_as; [done|].
    eapply charges_bind; [apply charges_tick|]. eapply charges_then_ret; [apply Hbody; set_solver|done].
Qed.
End structures.

(** * Instances *)

Lemma comb_instructions_witness :
  charges (ic_get_n 3) (Ok [V_Nat 1])
    (interpret_one (X := Concrete.concrete) 1 (I_GetN 3) [V_Pair (V_Nat 0) (V_Pair (V_Nat 1) (V_Nat 2))]).
Proof.
  destruct (comb_instructions (X := Concrete.concrete) 0 [V_Nat 0] [V_Nat 2] (V_Nat 1) (V_Nat 5) [])
    as (v&w&tl&[= <-]&_&_&_&_&H&_); [discriminate|exact H].
Defined.

Lemma map_update_correct_witness :
  bt_sorted fst [(V_Nat 1, V_Unit); (V_Nat 3, V_Unit)] /\
  exists m', bt_sorted fst m' /\
    charges (ic_map_update (V_Nat 2) 2) (Ok [V_Map m'])
      (interpret_one (X := Concrete.concrete) 1 (I_Update Update_Map)
         [V_Nat 2; V_Option (Some V_Unit); V_Map [(V_Nat 1, V_Unit); (V_Nat 3, V_Unit)]]).
Proof.
  assert (Hs : bt_sorted fst [(V_Nat 1, V_Unit); (V_Nat 3, V_Unit)]) by (repeat constructor).
  assert (Hk : Forall (fun e => comparable_value T_Nat e.1 = true) [(V_Nat 1, V_Unit); (V_Nat 3, V_Unit)])
    by (repeat constructor).
  destruct (map_update_correct (X := Concrete.concrete) 0 T_Nat _ (V_Nat 2) (Some V_Unit) [] eq_refl Hk Hs)
    as (_&m'&H&_&_&Hs'&_).
  split; [exact Hs|]. exists m'. split; [exact Hs'|exact H].
Defined.

Lemma set_update_correct_witness :
  bt_sorted (fun e => e) [V_Nat 1; V_Nat 3] /\
  exists l', V_Nat 2 ∈ l' /\
    charges (ic_set_update (V_Nat 2) 2) (Ok [V_Set l'])
      (interpret_one (X := Concrete.concrete) 1 (I_Update Update_Set)
         [V_Nat 2; V_Bool true; V_Set [V_Nat 1; V_Nat 3]]).
Proof.
  assert (Hs : bt_sorted (fun e => e) [V_Nat 1; V_Nat 3]) by (repeat constructor).
  assert (Hk : Forall (fun e => comparable_value T_Nat e = true) [V_Nat 1; V_Nat 3]) by (repeat constructor).
  destruct (set_update_correct (X := Concrete.concrete) 0 T_Nat _ (V_Nat 2) true [] eq_refl Hk Hs)
    as (l'&H&_&_&Hin&_).
  split; [exact Hs|]. exists l'. split; [|exact H].
  apply (Hin (V_Nat 2) eq_refl). left. split; reflexivity.
Defined.

Lemma compare_total_order_witness :
  comparable_value (T_Pair T_Nat T_String) (V_Pair (V_Nat 1) (V_String (str "b"))) = true /\
  charges (ic_compare (V_Pair (V_Nat 1) (V_String (str "b"))) (V_Pair (V_Nat 1) (V_String (str "a")))) (Ok [V_Int 1])
    (interpret_one (X := Concrete.concrete) 1 I_Compare
       [V_Pair (V_Nat 1) (V_String (str "b")); V_Pair (V_Nat 1) (V_String (str "a"))]).
Proof.
  split; [reflexivity|].
  exact (proj1 (compare_total_order (X := Concrete.concrete) 0 (T_Pair T_Nat T_String)
    (V_Pair (V_Nat 1) (V_String (str "b"))) (V_Pair (V_Nat 1) (V_String (str "a"))) (V_Pair (V_Nat 0) (V_String []))
    [] eq_refl eq_refl eq_refl)).
Defined.

(** Folding [CONS] reverses a list. *)
Module Reverse.
Definition is_list (s : IStack) : Prop := exists l st, s = V_List l :: st.
Definition cons (x : TypedValue) (s : IStack) : IStack :=
  match s with V_List l :: st => V_List (x :: l) :: st | s => s end.

Lemma body_ok x s :
  is_list s -> is_list (cons x s) /\
  charges (Ok (ic_CONS + ic_INTERPRET_RET)%N) (Ok (cons x s)) (interpret (X := Concrete.concrete) 1 [I_Cons] (x :: s)).
Proof.
  intros (l&st&->). split; [by eexists _, _|].
  eapply charges_bind; [|eapply charges_then_ret; [apply charges_tick|reflexivity]].
  eapply charges_then_ret; [|reflexivity]. eapply charges_then_ret; [apply charges_tick|reflexivity].
Qed.
End Reverse.

Lemma iter_correct_witness :
  exists n, charges (Ok n) (Ok [V_List [V_Nat 3; V_Nat 2; V_Nat 1]])
    (interpret_one (X := Concrete.concrete) 2 (I_Iter Iter_List [I_Cons])
       [V_List [V_Nat 1; V_Nat 2; V_Nat 3]; V_List []]).
Proof.
  eexists. apply (iter_correct 1 [I_Cons] Reverse.is_list (fun _ _ => (ic_CONS + ic_INTERPRET_RET)%N) Reverse.cons
    [V_Nat 1; V_Nat 2; V_Nat 3] [] [V_List []]).
  - intros x s _ Hs. apply Reverse.body_ok, Hs.
  - eexists _, _. reflexivity.
Defined.

Lemma map_correct_witness :
  exists n, charges (Ok n) (Ok [V_List [V_Option (Some (V_Nat 1)); V_Option (Some (V_Nat 2))]])
    (interpret_one (X := Concrete.concrete) 2 (I_Map Map_List [I_ISome]) [V_List [V_Nat 1; V_Nat 2]]).
Proof.
  eexists. apply (map_correct 1 [I_ISome] (fun _ => True) (fun _ _ => (ic_SOME + ic_INTERPRET_RET)%N)
    (fun x s => (V_Option (Some x), s)) [V_Nat 1; V_Nat 2] [] []).
  - intros x s _ _. split; [exact I|].
    eapply charges_bind; [|eapply charges_then_ret; [apply charges_tick|reflexivity]].
    eapply charges_then_ret; [|reflexivity]. eapply charges_then_ret; [apply charges_tick|reflexivity].
  - exact I.
Defined.
