(* ===== verification/Types.v ===== *)
(** Types: printing and parsing, entrypoints of a parameter.

    [Type::into_micheline] ([type_into_micheline]) against [parse_ty], and what
    [parse_parameter_ty_with_entrypoints] records. *)

From S2P Require Import Prelude Syntax Comparable Gas BigMap Stack External ByteRepr Serializer Context.
From S2P Require Import TypeProps Typechecker Typing TypecheckerSound.

Abbreviation tc_charges := (charges_as TE_OutOfGas).

(** * Types the parser accepts *)

Fixpoint parsable (t : Type_) : bool :=
  match t with
  | T_Pair a b | T_Or a b | T_Lambda a b => parsable a && parsable b
  | T_Option t | T_List t => parsable t
  | T_Contract t => parsable t && has_prop Passable t
  | T_Set k | T_Ticket k => parsable k && has_prop Comparable k
  | T_Map k v => parsable k && has_prop Comparable k && parsable v
  | T_BigMap k v => parsable k && has_prop Comparable k && parsable v && has_prop BigMapValue v
  | _ => true
  end.

(** The milligas of checking a property, and of parsing the printed type; the
    components of a comb are arguments of one [pair]. *)
Definition prop_cost (t : Type_) : N := (tc_TYPE_PROP_STEP * len (nodes t))%N.
Fixpoint args_cost (t : Type_) : N :=
  let parse_cost t := (tc_PARSE_TYPE_STEP + args_cost t)%N in
  match t with
  | T_Pair a b => parse_cost a + match b with T_Pair _ _ => args_cost b | _ => parse_cost b end
  | T_Or a b | T_Lambda a b => parse_cost a + parse_cost b
  | T_Option t | T_List t => parse_cost t
  | T_Contract t | T_Set t | T_Ticket t => parse_cost t + prop_cost t
  | T_Map k v => parse_cost k + (prop_cost k + parse_cost v)
  | T_BigMap k v => parse_cost k + (prop_cost k + (parse_cost v + prop_cost v))
  | _ => 0
  end.
Definition parse_cost (t : Type_) : N := (tc_PARSE_TYPE_STEP + args_cost t)%N.

Lemma ensure_prop_charges prop t :
  has_prop prop t = true -> tc_charges (Ok (prop_cost t)) (Ok tt) (ensure_prop prop t).
Proof.
  assert (Hstep : forall (m : tcM unit) n, tc_charges (Ok n) (Ok tt) m ->
    tc_charges (Ok (tc_TYPE_PROP_STEP + n)%N) (Ok tt) (_ ← tc_consume tc_TYPE_PROP_STEP; m)).
  { intros m n Hm. eapply charges_bind; [apply charges_tick|done]. }
  induction t; rewrite has_prop_node; intros Hp; unfold prop_cost, len in *; cbn [nodes ensure_prop length];
    rewrite ?length_app, Nat2N.inj_succ, N.mul_succ_r, N.add_comm; apply Hstep.
  all: try (destruct prop; try discriminate Hp; exact (charges_ret _ _)).
  all: apply andb_true_iff in Hp as [Hf Hp];
    try (destruct prop; try discriminate Hf; auto; fail).
  all: apply andb_true_iff in Hp as [H1 H2]; rewrite Nat2N.inj_add, N.mul_add_distr_l; eapply charges_bind; eauto.
Qed.

(** * Printing and parsing *)

Abbreviation parses t :=
  (tc_charges (Ok (parse_cost t)) (Ok (t, None)) (parse_ty_with_entrypoints (type_into_micheline t) None)).

(** One step of the parser: an argument, a property, and the last of them. *)
Ltac parse_arg :=
  first
  [ eapply charges_then_ret; [first [eassumption | apply ensure_prop_charges; eassumption]|reflexivity]
  | eapply charges_bind; [first [eassumption | apply ensure_prop_charges; eassumption]|] ];
  cbn beta iota.

(** [make_pair] on the components of a comb. *)
Definition parse_component (m : Micheline) : tcM Type_ := '(t, _) ← parse_ty_with_entrypoints m None; mret t.
Abbreviation parses_comb a b :=
  (tc_charges (Ok (args_cost (T_Pair a b))) (Ok (T_Pair a b))
     (make_pair parse_component (type_into_micheline a :: pair_args b (type_into_micheline b)))).

Lemma make_pair_charges a b :
  parses a -> parses b -> match b with T_Pair x y => parses_comb x y | _ => True end -> parses_comb a b.
Proof.
  intros Ha Hb Hcomb.
  assert (Ha' : tc_charges (Ok (parse_cost a)) (Ok a) (parse_component (type_into_micheline a)))
    by (by eapply charges_then_ret).
  assert (Hb' : tc_charges (Ok (parse_cost b)) (Ok b) (parse_component (type_into_micheline b)))
    by (by eapply charges_then_ret).
  destruct b; cbn [args_cost pair_args make_pair];
    (eapply charges_bind; [exact Ha'|]; eapply charges_then_ret; [|reflexivity]; first [exact Hb' | exact Hcomb]).
Qed.

Lemma parse_pair a b : parses_comb a b -> parses (T_Pair a b).
Proof.
  intros Hc. unfold parse_cost. cbn [type_into_micheline parse_ty_with_entrypoints].
  eapply charges_bind; [apply charges_tick|]. eapply (charges_then_ret _ _ (T_Pair a b, None)); [|reflexivity].
  assert (exists x l, pair_args b (type_into_micheline b) = x :: l) as (x&l&Hl) by (destruct b; cbn; eauto).
  rewrite Hl in *. by eapply charges_then_ret.
Qed.

Lemma type_round_trip t :
  parsable t = true -> parses t /\ match t with T_Pair a b => parses_comb a b | _ => True end.
Proof.
  induction t; cbn [parsable]; intros Hp;
    repeat match goal with
    | H : _ && _ = true |- _ => apply andb_true_iff in H as [? ?]
    | IH : ?a = true -> _, H : ?a = true |- _ => specialize (IH H) as [? ?]
    end;
    try (assert (parses_comb t1 t2) by (by apply make_pair_charges); split; [by apply parse_pair|done]);
    (split; [|exact I]); unfold parse_cost in *;
    cbn [type_into_micheline args_cost prim0 prim1 prim2 NO_ANNS parse_ty_with_entrypoints simple_type];
    (eapply charges_bind; [apply charges_tick|]);
    match goal with |- tc_charges _ (Ok ?r) _ => eapply (charges_then_ret _ _ r); [|reflexivity] end;
    first [exact (charges_ret _ _) | solve [repeat parse_arg]].
Qed.

(** Printing a type and parsing it gives the type back, combs included, at the exact cost
    [parse_cost]; with less gas the parser runs out of gas.  The types it applies to are those the
    parser can return ([parsable]): comparable keys and ticket contents, passable contract parameters,
    big map values without big maps, operations and contracts. *)
Theorem type_print_parse (t : Type_) :
  parsable t = true -> tc_charges (Ok (parse_cost t)) (Ok t) (parse_ty (type_into_micheline t)).
Proof. intros Ht. by eapply charges_then_ret; [apply type_round_trip|]. Qed.

Lemma type_print_parse_witness :
  let t := T_Pair T_Nat (T_Pair (T_Map T_String (T_List T_Int)) (T_BigMap T_Address (T_Ticket T_Unit))) in
  parsable t = true /\ tc_charges (Ok (parse_cost t)) (Ok t) (parse_ty (type_into_micheline t)).
Proof. split; [reflexivity|]. apply type_print_parse. reflexivity. Defined.

(** * What parsing establishes *)

(** The types along the [or]s of a parameter: what an entrypoint can stand for. *)
Fixpoint or_branches (t : Type_) : list Type_ :=
  t :: match t with T_Or a b => or_branches a ++ or_branches b | _ => [] end.

(** Entrypoints recorded while parsing [t]: earlier ones are kept, new ones are branches of [t]. *)
Definition recorded (eps : option Entrypoints) (t : Type_) (eps' : option Entrypoints) : Prop :=
  match eps, eps' with
  | None, None => True
  | Some e, Some e' => e ⊆ e' /\ forall ep u, e' !! ep = Some u -> e !! ep = Some u \/ u ∈ or_branches t
  | _, _ => False
  end.

Lemma recorded_same eps t : recorded eps t eps.
Proof. destruct eps; [|done]. split; [done|auto]. Qed.

Lemma recorded_or eps1 eps2 eps3 a b :
  recorded eps1 a eps2 -> recorded eps2 b eps3 -> recorded eps1 (T_Or a b) eps3.
Proof.
  destruct eps1, eps2, eps3; cbn; try done. intros [H1 H1'] [H2 H2']. split; [by etrans|].
  intros ep u Hu. apply H2' in Hu as [Hu|Hu]; [apply H1' in Hu as [|]|]; set_solver.
Qed.

Section parsing.
Context (c0 : Ctx).
Abbreviation returns m c Q := (triple (fun _ => True) c0 True m c (fun r _ => Q r)).
Abbreviation parsed eps r := (parsable r.1 = true /\ recorded eps r.1 r.2).

Definition records (m : Micheline) : Prop :=
  forall eps c, returns (parse_ty_with_entrypoints m eps) c (fun r => parsed eps r).

Lemma add_entrypoint_recorded t anns eps c eps' :
  recorded eps t (Some eps') -> returns (add_entrypoint t anns eps') c (fun e => recorded eps t (Some e)).
Proof.
  intros Hr. unfold add_entrypoint. cstep.
  apply triple_safe_lift; [apply cost_safe_map_err, get_single_field_ann_safe|]. csteps.
  repeat case_match; csteps; try done. destruct eps as [e|]; [|done]. destruct Hr as [Hsub Hnew].
  split; [etrans; [done|by apply insert_subseteq]|].
  intros ep u [[<- <-]|[_ Hu]]%lookup_insert_Some; [right; destruct t; set_solver|auto].
Qed.

Lemma make_pair_parsable l c :
  Forall records l ->
  returns (make_pair (fun t => '(t, _) ← parse_ty_with_entrypoints t None; mret t) l) c (fun t => parsable t = true).
Proof.
  intros Hl. revert c. induction Hl as [|m l Hm Hl IH]; intros c; cbn [make_pair]; [csteps|].
  assert (Hm' : forall c', returns ('(t, _) ← parse_ty_with_entrypoints m None; mret t) c' (fun t => parsable t = true)).
  { intros c'. csteps. eapply triple_mono; [apply Hm|]. intros [] ? ? [? _]. by csteps. }
  destruct l as [|m' l]; [apply Hm'|]. cstep. eapply triple_mono; [apply Hm'|]. csteps.
  eapply triple_mono; [apply IH|]. csteps. cbn in *. by apply andb_true_iff.
Qed.

Ltac parse_step :=
  first [ match goal with
          | H : records ?m |- triple _ _ _ (parse_ty_with_entrypoints ?m _) _ _ =>
              eapply triple_mono; [apply H|intros [] ? ? [? ?]]
          | |- triple _ _ _ (make_pair _ _) _ _ =>
              eapply triple_mono; [apply make_pair_parsable; by repeat constructor|]
          end
        | cstep ].

Lemma parse_ty_recorded m : records m.
Proof.
  induction m as [| | |p args anns IH|l IH] using Micheline_ind'; intros eps c;
    cbn [parse_ty_with_entrypoints]; csteps.
  eapply (triple_mono _ _ _ _ _ (fun r _ => parsed eps r)).
  - clear H H0.
    destruct p; try (destruct args; cbn [simple_type unsupported_type]; repeat parse_step; auto using recorded_same; fail).
    all: repeat match goal with
      | H : Forall _ (_ :: _) |- _ => apply Forall_cons in H as [? ?]
      | |- triple _ _ _ (match ?l with _ => _ end) _ _ => destruct l; cbn [simple_type unsupported_type]
      end.
    all: repeat parse_step; cbn [fst snd parsable] in *; rewrite ?andb_true_iff;
      split_and?; eauto using recorded_same, recorded_or.
  - intros [t e] c1 Hc1 [Ht He]. cbn in Ht, He. csteps. destruct e; csteps; [|done].
    eapply triple_mono; [by apply add_entrypoint_recorded|]. by csteps.
Qed.
End parsing.

(** The entrypoints of a parameter.  A parameter type that parses is one the parser's
    conditions allow, the table always holds the default entrypoint, and every entrypoint has the
    type of the whole parameter or of a branch of it reached through [or]s, so that an argument for an
    entrypoint can be injected into the parameter. *)
Theorem parameter_entrypoints (m : Micheline) (c c' : Ctx) (eps : Entrypoints) (t : Type_) :
  parse_parameter_ty_with_entrypoints m c = (Ok (eps, t), c') ->
  parsable t = true /\ is_Some (eps !! default_ep) /\
  forall ep u, eps !! ep = Some u -> u ∈ or_branches t.
Proof.
  intros H.
  assert (Ht : triple (fun _ => True) c True (parse_parameter_ty_with_entrypoints m) c (fun r _ =>
    parsable r.2 = true /\ is_Some (r.1 !! default_ep) /\ forall ep u, r.1 !! ep = Some u -> u ∈ or_branches r.2)).
  { unfold parse_parameter_ty_with_entrypoints. csteps. eapply triple_mono; [apply parse_ty_recorded|].
    intros [u e] c1 _ [Hu He] _. csteps. cbn in *. destruct e as [e|]; [|done]. destruct He as [_ He]. cbn.
    assert (Hin : forall ep v, e !! ep = Some v -> v ∈ or_branches u).
    { intros ep v Hv. apply He in Hv as [Hv|]; [by rewrite lookup_empty in Hv|done]. }
    destruct (e !! default_ep) eqn:Hd; split_and!; eauto.
    - rewrite lookup_insert_eq. by eexists.
    - intros ep v [[<- <-]|[_ Hv]]%lookup_insert_Some; [destruct u; set_solver|eauto]. }
  specialize (Ht (same_env_refl c) (or_intror I)). rewrite H in Ht. apply Ht.
Qed.

(** [or (nat %add) (string %set)], through the branch [%add]. *)
Module EntrypointDemo.
Definition ctx : Ctx :=
  set_gas (gas_new 10000) (ctx_default (repeat Byte.x00 20) (repeat Byte.x00 20) (repeat Byte.x00 32)).
Definition parameter : Micheline :=
  M_App P_or [M_App P_nat [] [Ann_Field (str "add")]; M_App P_string [] [Ann_Field (str "set")]] [].
Definition found (o : outcome TcError (Entrypoints * Type_)) : option (Type_ * option Type_) :=
  match o with Ok (eps, t) => Some (t, eps !! mkEntrypoint (str "add")) | _ => None end.
End EntrypointDemo.

Lemma parameter_entrypoints_witness :
  exists eps c',
    parse_parameter_ty_with_entrypoints EntrypointDemo.parameter EntrypointDemo.ctx = (Ok (eps, T_Or T_Nat T_String), c') /\
    eps !! mkEntrypoint (str "add") = Some T_Nat /\ is_Some (eps !! default_ep).
Proof.
  assert (Ho : EntrypointDemo.found (parse_parameter_ty_with_entrypoints EntrypointDemo.parameter EntrypointDemo.ctx).1
    = Some (T_Or T_Nat T_String, Some T_Nat)) by (vm_compute; reflexivity).
  destruct (parse_parameter_ty_with_entrypoints EntrypointDemo.parameter EntrypointDemo.ctx)
    as [[[eps t]| | |] c'] eqn:E; try discriminate Ho.
  injection Ho as -> Hadd. exists eps, c'. split; [reflexivity|]. split; [exact Hadd|].
  exact (proj1 (proj2 (parameter_entrypoints _ _ _ _ _ E))).
Defined.
