(* ===== verification/Findings.v ===== *)
(** Accepted programs that go wrong.

    The safety theorems of [Soundness] leave out a few situations (the panics of
    [tc_panic] and [run_panic]); here they are shown to be real.  [DIG] and [DUG]
    panic in the typechecker on any stack of the wrong length; scripts that panic are
    run on the model: each is accepted by the typechecker, and what the run then
    does is computed.  [APPLY] duplicates tickets, whatever their types. *)

From S2P Require Import Prelude Syntax Comparable Gas BigMap Stack External ByteRepr Serializer Context.
From S2P Require Import TypeProps Typechecker Typing TypecheckerSound Interpreter InterpreterSound Instructions Types.
From S2P Require Import Soundness.

(** * Off by one in [DIG] and [DUG] *)

Section dig.
Context {X : External}.

Lemma validate_u10_nat (n : nat) : n < 1024 -> validate_u10 (Z.of_nat n) = mret n.
Proof.
  intros Hn. unfold validate_u10.
  rewrite (proj2 (Z.leb_le 0 _)), (proj2 (Z.ltb_lt _ 65536)) by lia. cbn [andb].
  rewrite (proj2 (Z.leb_gt 1024 _)) by lia. by rewrite Nat2Z.id.
Qed.

Lemma tc_dig_n_ok (n : nat) : n < 1024 -> tc_dig_n n = Ok (50 * N.of_nat n)%N.
Proof.
  intros Hn. unfold tc_dig_n, as_gas_cost, cmul, cst. cbn [option_bind mbind].
  replace (N.of_nat n * 50)%N with (50 * N.of_nat n)%N by lia.
  unfold chk. rewrite (proj2 (N.leb_le _ U64_MAX)) by (unfold U64_MAX; lia).
  by rewrite (proj2 (N.leb_le _ U32_MAX)) by (unfold U32_MAX; lia).
Qed.

Lemma charges_pure {A B} k (o : outcome TcError B) (a : A) (f : A -> tcM B) :
  tc_charges k o (f a) -> tc_charges k o (lift (Ok a) ≫= f).
Proof. done. Qed.

(** [DIG n] and [DUG n] need [n + 1] elements, but the typechecker only checks for [n].  On a
    stack of exactly [n] elements, [n > 0], it charges for the instruction and then panics with an
    out of bounds access, where a shorter stack is refused with [StackTooShort]. *)
Theorem dig_dug_off_by_one (fuel : nat) (self : option Entrypoints) (anns : Annotations) (s : TypeStack) :
  0 < length s < 1024 ->
  let n := Z.of_nat (length s) in
  let price := Ok (tc_INSTR_STEP + 50 * N.of_nat (length s))%N in
  tc_charges price (Panic PStackBounds) (typecheck_instruction (S fuel) (M_App P_DIG [M_Int n] anns) self (FOk s)) /\
  tc_charges price (Panic PStackBounds) (typecheck_instruction (S fuel) (M_App P_DUG [M_Int n] anns) self (FOk s)).
Proof.
  intros Hs. cbn zeta.
  split; (eapply charges_pure, charges_bind; [apply charges_tick|]); cbn beta iota delta [typecheck_app tc_dig tc_dug];
    rewrite validate_u10_nat by lia; apply charges_pure.
  - unfold ensure_stack_len. rewrite Nat.leb_refl. apply charges_pure.
    rewrite tc_dig_n_ok, (proj2 (Nat.ltb_lt 0 _)) by lia. unfold TopFirst.remove.
    rewrite lookup_ge_None_2 by lia. apply charges_consume_cost.
  - change (tc_dug_n (length s)) with (tc_dig_n (length s)). rewrite tc_dig_n_ok, (proj2 (Nat.ltb_lt 0 _)) by lia.
    unfold ensure_stack_len. rewrite Nat.leb_refl. destruct s as [|t s]; cbn in Hs; [lia|].
    unfold TopFirst.insert. rewrite (proj2 (Nat.leb_gt _ (length s))) by (cbn; lia).
    apply (charges_consume_cost TE_OutOfGas (Ok (50 * N.of_nat (length (t :: s)))%N)).
Qed.
End dig.

Lemma dig_dug_off_by_one_witness :
  (typecheck_instruction 5 (M_App P_DIG [M_Int 2] []) None (FOk [T_Nat; T_Int]) Demo.ctx).1 = Panic PStackBounds.
Proof.
  pose proof (dig_dug_off_by_one 4 None [] [T_Nat; T_Int]) as H.
  destruct H as [H _]; [cbn; lia|]. specialize (H Demo.ctx 60000%N eq_refl).
  cbn beta iota in H. change (length [T_Nat; T_Int]) with 2 in H.
  change (tc_INSTR_STEP + 50 * N.of_nat 2 <=? 60000)%N with true in H. cbn beta iota in H.
  change (Z.of_nat 2) with 2%Z in H. by rewrite H.
Defined.

(** * Programs *)

Module Programs.
Import Demo.
Definition app1 (p : Prim) (m : Micheline) : Micheline := M_App p [m] [].
Definition app2 (p : Prim) (m n : Micheline) : Micheline := M_App p [m; n] [].
(** A script with the parameter and storage types and the code given. *)
Definition script_of (param storage : Micheline) (code : list Micheline) : Micheline :=
  M_Seq [app1 P_parameter param; app1 P_storage storage; app1 P_code (M_Seq code)].
Definition unwrap : Micheline := app2 P_IF_NONE (M_Seq [op P_UNIT; op P_FAILWITH]) (M_Seq []).
Definition big : Ctx := set_gas (gas_new 300000) ctx.

(** Typecheck a script and call it, each with the gas given. *)
Definition originate_and_call (fuel : nat) (c : Ctx) (g : N) (m parameter storage : Micheline) :=
  match typecheck_script fuel m c with
  | (Ok cs, c) => Some (ContractScript_interpret fuel cs parameter storage (set_gas (gas_new g) c)).1
  | _ => None
  end.

(** [TICKET] on a list of operations, twice, and [JOIN_TICKETS]. *)
Definition make_ticket : Micheline :=
  M_Seq [app2 P_PUSH (op P_nat) (M_Int 1); app1 P_NIL (op P_operation); op P_TICKET; unwrap].
Definition join_incomparable : Micheline :=
  script_of (op P_unit) (op P_unit)
    [op P_CDR; make_ticket; make_ticket; op P_PAIR; op P_JOIN_TICKETS; op P_DROP; app1 P_NIL (op P_operation); op P_PAIR].

(** A closure over a ticket, duplicated and run twice: the storage counts the tickets. *)
Definition duplicate_ticket : Micheline :=
  script_of (op P_unit) (op P_nat)
    [op P_DROP;
     M_App P_LAMBDA [M_App P_pair [app1 P_ticket (op P_unit); op P_unit] []; app1 P_ticket (op P_unit);
                     M_Seq [op P_CAR]] [];
     app2 P_PUSH (op P_nat) (M_Int 1); op P_UNIT; op P_TICKET; unwrap; op P_APPLY;
     op P_DUP; op P_UNIT; op P_EXEC;
     app1 P_DIP (M_Seq [op P_UNIT; op P_EXEC]);
     op P_PAIR; op P_JOIN_TICKETS; unwrap; op P_READ_TICKET; op P_CDR; op P_CDR;
     app1 P_DIP (M_Seq [op P_DROP]);
     app1 P_NIL (op P_operation); op P_PAIR].

(** [UNPACK] of the parameter at a type, and [CONTRACT] on the parameter. *)
Definition unpack_it : Micheline :=
  script_of (op P_bytes) (op P_unit)
    [op P_UNPAIR; app1 P_UNPACK (app1 P_list (op P_nat)); op P_DROP; app1 P_NIL (op P_operation); op P_PAIR].
Definition contract_it : Micheline :=
  script_of (op P_address) (op P_unit)
    [op P_UNPAIR; app1 P_CONTRACT (op P_unit); op P_DROP; app1 P_NIL (op P_operation); op P_PAIR].
Definition packed_list : Micheline := M_Bytes (encode_for_pack (M_Seq [M_Int 1; M_Int 2; M_Int 3])).
Definition kt1 : AddressHash := Kt1 (repeat Byte.x01 20).
Definition known : Ctx := set_known_contracts [(kt1, {[ default_ep := T_Unit ]})] big.
Definition kt1_bytes : Micheline := M_Bytes (Address_to_bytes (mkAddress kt1 default_ep)).
End Programs.

(** Accepted scripts whose calls end in a panic of the library instead of an error.  [UNPACK] and
    [CONTRACT] turn every error of the typechecker into [None], running out of gas included; the next
    instruction then accesses the exhausted gas counter.  [TICKET] does not require comparable
    contents, so [JOIN_TICKETS] compares values that have no order. *)
Lemma accepted_scripts_can_panic :
  let unit := M_App P_Unit [] [] in
  Programs.originate_and_call Demo.fuel Programs.big 480 Programs.unpack_it Programs.packed_list unit
    = Some (Panic PGasExhausted) /\
  Programs.originate_and_call Demo.fuel Programs.known 320 Programs.contract_it Programs.kt1_bytes unit
    = Some (Panic PGasExhausted) /\
  Programs.originate_and_call Demo.fuel Programs.big 300000 Programs.join_incomparable unit unit
    = Some (Panic PIncomparable).
Proof. cbn zeta. split_and!; vm_compute; reflexivity. Qed.

(** * Tickets captured by closures *)

Section apply.
Context {X : External}.

Lemma tc_apply_charges fuel self ty p r s n : tc_ty_eq (size_for_gas ty) (size_for_gas ty) = Ok n ->
  tc_charges (Ok (tc_INSTR_STEP + n)%N) (Ok (I_Apply ty, FOk (T_Lambda p r :: s)))
    (typecheck_instruction (S fuel) (M_App P_APPLY [] []) self (FOk (ty :: T_Lambda (T_Pair ty p) r :: s))).
Proof.
  intros Hn. eapply charges_pure, charges_bind; [apply charges_tick|]. cbn beta iota delta [typecheck_app no_args tc_apply].
  rewrite <- (N.add_0_r n). eapply charges_bind; [|exact (charges_ret _ _)].
  unfold ensure_ty_eq. rewrite Hn, decide_True by done. exact (charges_consume_cost TE_OutOfGas (Ok n) (Ok tt)).
Qed.

Lemma charges_fail {A} (e : TcError) : tc_charges (Ok 0%N) (Err e) (fail (A := A) e).
Proof. intros c g Hg. rewrite (proj2 (N.leb_le 0 g)) by lia. rewrite N.sub_0_r. destruct c as [[m]]. cbn in Hg. by subst. Qed.
(** [DUP] and the check that the type can be duplicated. *)
Lemma tc_dup_charges fuel self ty s o : tc_charges (Ok tc_TYPE_PROP_STEP) o (ensure_prop Duplicable ty) ->
  tc_charges (Ok (tc_INSTR_STEP + tc_TYPE_PROP_STEP)%N) (match o with Ok _ => Ok (I_Dup None, FOk (ty :: ty :: s)) | Err e => Err e | Panic q => Panic q | Diverge => Diverge end)
    (typecheck_instruction (S fuel) (M_App P_DUP [] []) self (FOk (ty :: s))).
Proof.
  intros Ho. eapply charges_pure, charges_bind; [apply charges_tick|]. 
  match goal with |- charges_as ?e ?k ?r _ => change (charges_as e k r (_ ← ensure_prop Duplicable ty; tc_ret (I_Dup None) (ty :: ty :: s))) end.
  intros c g Hg. specialize (Ho c g Hg). revert Ho. unfold mbind, M_bind.
  destruct (_ <=? g)%N; intros ->; by destruct o.
Qed.

Lemma i_apply_charges fuel ty v cl st :
  charges (Ok ic_APPLY) (Ok (V_Lambda (Closure_Apply ty v cl) :: st)) (interpret_one (S fuel) (I_Apply ty) (v :: V_Lambda cl :: st)).
Proof. apply (charges_then_ret IE_OutOfGas ic_APPLY tt _ (ie_consume ic_APPLY)); [apply charges_tick|reflexivity]. Qed.
Lemma i_dup_charges fuel v st : charges (Ok ic_DUP) (Ok (v :: v :: st)) (interpret_one (S fuel) (I_Dup None) (v :: st)).
Proof. apply (charges_then_ret IE_OutOfGas ic_DUP tt _ (ie_consume ic_DUP)); [apply charges_tick|reflexivity]. Qed.
(** [EXEC] of a closure over a value runs the code of the lambda on the value and the argument. *)
Lemma exec_applied_charges fuel ty captured m code arg v st k : charges (Ok k) (Ok [v]) (interpret fuel code [V_Pair captured arg]) ->
  charges (Ok (ic_EXEC + (ic_PAIR + k))%N) (Ok (v :: st))
    (interpret_one (S fuel) I_Exec (arg :: V_Lambda (Closure_Apply ty captured (Closure_Lambda (Lambda_Lambda m code))) :: st)).
Proof.
  intros Hk. eapply (charges_bind IE_OutOfGas ic_EXEC); [apply charges_tick|].
  rewrite <- (N.add_0_r (ic_PAIR + k)). eapply (charges_bind IE_OutOfGas _ _ v); [|exact (charges_ret _ _)].
  eapply (charges_bind IE_OutOfGas ic_PAIR); [apply charges_tick|]. rewrite <- (N.add_0_r k). eapply charges_bind; [exact Hk|exact (charges_ret _ _)].
Qed.
(** C36: [APPLY] duplicates tickets.  [DUP] refuses a ticket, of any contents, but [APPLY] captures a value of any type and lambdas are duplicable.  So the code [APPLY; DUP] is accepted
    on a ticket and a lambda that takes it, whatever the other types; when it runs, it makes two closures that both hold the ticket; and [EXEC] of either
    runs the code of the lambda on the ticket, with any argument.  (The hypothesis: comparing the type of the ticket with itself has a cost, which fits in 32 bits.) *)
Theorem apply_duplicates_tickets fuel self c p r s n :
  tc_ty_eq (size_for_gas (T_Ticket c)) (size_for_gas (T_Ticket c)) = Ok n ->
  let APPLY := M_App P_APPLY [] [] in
  let DUP := M_App P_DUP [] [] in
  tc_charges (Ok (tc_INSTR_STEP + tc_TYPE_PROP_STEP)%N) (Err (TE_InvalidTypeProperty Duplicable (T_Ticket c)))
    (typecheck_instruction (S fuel) DUP self (FOk (T_Ticket c :: s))) /\
  tc_charges (Ok (tc_INSTR_STEP + n)%N) (Ok (I_Apply (T_Ticket c), FOk (T_Lambda p r :: s)))
    (typecheck_instruction (S fuel) APPLY self (FOk (T_Ticket c :: T_Lambda (T_Pair (T_Ticket c) p) r :: s))) /\
  tc_charges (Ok (tc_INSTR_STEP + tc_TYPE_PROP_STEP)%N) (Ok (I_Dup None, FOk (T_Lambda p r :: T_Lambda p r :: s)))
    (typecheck_instruction (S fuel) DUP self (FOk (T_Lambda p r :: s))) /\
  forall ticket m code st,
    let closure := V_Lambda (Closure_Apply (T_Ticket c) (V_Ticket ticket) (Closure_Lambda (Lambda_Lambda m code))) in
    charges (Ok (ic_APPLY + (ic_DUP + ic_INTERPRET_RET))%N) (Ok (closure :: closure :: st))
      (interpret (S fuel) [I_Apply (T_Ticket c); I_Dup None] (V_Ticket ticket :: V_Lambda (Closure_Lambda (Lambda_Lambda m code)) :: st)) /\
    (forall arg v k, charges (Ok k) (Ok [v]) (interpret fuel code [V_Pair (V_Ticket ticket) arg]) ->
      charges (Ok (ic_EXEC + (ic_PAIR + k))%N) (Ok (v :: st)) (interpret_one (S fuel) I_Exec (arg :: closure :: st))).
Proof.
  intros Hn. cbn zeta. split_and!.
  - apply (tc_dup_charges fuel self (T_Ticket c) s (Err _)). rewrite <- (N.add_0_r tc_TYPE_PROP_STEP). eapply charges_bind; [apply charges_tick|]. apply charges_fail.
  - by apply tc_apply_charges.
  - apply (tc_dup_charges fuel self (T_Lambda p r) s (Ok tt)). rewrite <- (N.add_0_r tc_TYPE_PROP_STEP). eapply charges_bind; [apply charges_tick|]. exact (charges_ret _ _).
  - intros ticket m code st. split; [|intros arg v k Hk; by apply exec_applied_charges].
    rewrite N.add_assoc, <- (N.add_0_r ic_INTERPRET_RET), <- (N.add_0_r ic_DUP).
    eapply charges_bind; [|eapply charges_bind; [apply charges_tick|exact (charges_ret _ _)]].
    eapply charges_bind; [exact (i_apply_charges fuel _ _ _ _)|eapply charges_bind; [exact (i_dup_charges fuel _ _)|exact (charges_ret _ _)]].
Qed.
End apply.

Lemma car_charges (v w : TypedValue) : charges (Ok (ic_CAR + ic_INTERPRET_RET)%N) (Ok [v]) (interpret 4 [I_Car] [V_Pair v w]).
Proof.
  eapply charges_bind; [|apply (charges_then_ret IE_OutOfGas _ tt); [apply charges_tick|reflexivity]].
  apply (charges_then_ret IE_OutOfGas ic_CAR [v]); [|reflexivity].
  apply (charges_then_ret IE_OutOfGas ic_CAR tt _ (ie_consume ic_CAR)); [apply charges_tick|reflexivity].
Qed.
(** A lambda that gives the ticket back: typechecking [APPLY], and what [APPLY; DUP] leaves. *)
Lemma apply_duplicates_tickets_witness :
  let ticket := mkTicket Programs.kt1 V_Unit 1 in
  let lambda := Closure_Lambda (Lambda_Lambda (M_Seq [Demo.op P_CAR]) [I_Car]) in
  let closure := V_Lambda (Closure_Apply (T_Ticket T_Unit) (V_Ticket ticket) lambda) in
  (typecheck_instruction 5 (M_App P_APPLY [] []) None (FOk [T_Ticket T_Unit; T_Lambda (T_Pair (T_Ticket T_Unit) T_Unit) (T_Ticket T_Unit)]) Demo.ctx).1
    = Ok (I_Apply (T_Ticket T_Unit), FOk [T_Lambda T_Unit (T_Ticket T_Unit)]) /\
  (interpret 5 [I_Apply (T_Ticket T_Unit); I_Dup None] [V_Ticket ticket; V_Lambda lambda] Demo.ctx).1 = Ok [closure; closure] /\
  (interpret_one 5 I_Exec [V_Unit; closure] Demo.ctx).1 = Ok [V_Ticket ticket].
Proof.
  cbn zeta. destruct (apply_duplicates_tickets 4 None T_Unit T_Unit (T_Ticket T_Unit) [] 120 eq_refl) as (_&Ha&_&H).
  destruct (H (mkTicket Programs.kt1 V_Unit 1) (M_Seq [Demo.op P_CAR]) [I_Car] []) as [Hr He].
  split_and!.
  - specialize (Ha Demo.ctx 60000%N eq_refl). cbv beta iota in Ha. by rewrite Ha.
  - specialize (Hr Demo.ctx 60000%N eq_refl). cbv beta iota in Hr. by rewrite Hr.
  - specialize (He V_Unit (V_Ticket (mkTicket Programs.kt1 V_Unit 1)) _ (car_charges _ _) Demo.ctx 60000%N eq_refl). cbv beta iota in He. by rewrite He.
Defined.

(** The same in a contract: an accepted script makes one ticket of amount 1, captures it, runs the closure twice and joins
    what it gets into a ticket of amount 2, whose amount it stores. *)
Lemma one_ticket_becomes_two :
  Programs.originate_and_call Demo.fuel Programs.big 300000 Programs.duplicate_ticket
    (M_App P_Unit [] []) (M_Int 0) = Some (Ok ([], V_Nat 2)).
Proof. vm_compute. reflexivity. Qed.
