(* ===== verification/Words.v ===== *)
(** 64-bit machine words.

    [u64] values are integers in range; the operators of Rust on them that are not
    the ones of [Z] are here, with their bits. *)

From S2P Require Import Prelude.
#[local] Open Scope Z_scope.

Definition u64_ok (z : Z) : Prop := 0 <= z < 2 ^ 64.

(** [as u64], [wrapping_add]. *)
Definition wrap64 (z : Z) : Z := z mod 2 ^ 64.
(** [!x]. *)
Definition not64 (z : Z) : Z := Z.ldiff (Z.ones 64) z.
(** [x << n], which drops the bits shifted out. *)
Definition shl64 (z n : Z) : Z := Z.land (Z.shiftl z n) (Z.ones 64).

(** * Ranges *)

Lemma u64_bits z : u64_ok z <-> (0 <= z /\ forall n, 64 <= n -> Z.testbit z n = false).
Proof.
  unfold u64_ok. split.
  - intros Hz. split; [lia|]. intros n Hn. rewrite <- (Z.mod_small z (2 ^ 64)) by lia.
    by apply Z.mod_pow2_bits_high.
  - intros [H0 Hb]. split; [done|]. destruct (Z.eq_dec z 0) as [->|Hne]; [done|].
    apply Z.log2_lt_pow2; [lia|]. apply Z.nle_gt. intros Hl. specialize (Hb _ Hl).
    by rewrite Z.bit_log2 in Hb by lia.
Qed.

Lemma u64_testbit_high z n : u64_ok z -> 64 <= n -> Z.testbit z n = false.
Proof. rewrite u64_bits. intros [_ H]. apply H. Qed.

Lemma u64_land a b : u64_ok a -> 0 <= b -> u64_ok (Z.land a b).
Proof.
  rewrite !u64_bits. intros [H0 Ha] Hb. split; [apply Z.land_nonneg; by left|].
  intros n Hn. by rewrite Z.land_spec, Ha.
Qed.
Lemma u64_lor a b : u64_ok a -> u64_ok b -> u64_ok (Z.lor a b).
Proof.
  rewrite !u64_bits. intros [? Ha] [? Hb]. split; [by apply Z.lor_nonneg|].
  intros n Hn. by rewrite Z.lor_spec, Ha, Hb.
Qed.
Lemma u64_not64 a : u64_ok (not64 a).
Proof.
  rewrite u64_bits. unfold not64. split.
  - apply Z.ldiff_nonneg. by left.
  - intros n Hn. by rewrite Z.ldiff_spec, Z.ones_spec_high by lia.
Qed.
Lemma u64_shl64 a n : 0 <= a -> u64_ok (shl64 a n).
Proof.
  intros Ha. rewrite u64_bits. unfold shl64. split; [apply Z.land_nonneg; by right|].
  intros k Hk. by rewrite Z.land_spec, Z.ones_spec_high, andb_false_r by lia.
Qed.
Lemma u64_shiftr a n : 0 <= n -> u64_ok a -> u64_ok (Z.shiftr a n).
Proof.
  intros Hn Ha. rewrite u64_bits. split; [apply Z.shiftr_nonneg; apply Ha|].
  intros k Hk. rewrite Z.shiftr_spec by lia. apply u64_testbit_high; [done|lia].
Qed.
Lemma u64_wrap64 a : u64_ok (wrap64 a).
Proof. apply Z.mod_pos_bound. lia. Qed.

Create HintDb u64.
#[export] Hint Resolve u64_land u64_lor u64_not64 u64_shl64 u64_shiftr u64_wrap64 : u64.
#[export] Hint Extern 1 (u64_ok (Zpos _)) => (split; [done|reflexivity]) : u64.
#[export] Hint Extern 1 (u64_ok 0) => (split; reflexivity || done) : u64.
#[export] Hint Extern 2 (0 <= _)%Z => (lia || match goal with H : u64_ok ?a |- (0 <= ?a)%Z => exact (proj1 H) end) : u64.

(** * Bits *)

Lemma not64_spec a n : 0 <= n < 64 -> Z.testbit (not64 a) n = negb (Z.testbit a n).
Proof. intros Hn. unfold not64. by rewrite Z.ldiff_spec, Z.ones_spec_low by lia. Qed.
Lemma shl64_spec a s n : 0 <= n < 64 -> Z.testbit (shl64 a s) n = Z.testbit a (n - s).
Proof.
  intros Hn. unfold shl64. rewrite Z.land_spec, Z.ones_spec_low, andb_true_r by lia. apply Z.shiftl_spec. lia.
Qed.
Lemma wrap64_spec a n : 0 <= n < 64 -> Z.testbit (wrap64 a) n = Z.testbit a n.
Proof. intros Hn. unfold wrap64. rewrite Z.mod_pow2_bits_low by lia. done. Qed.

Lemma bits64_eq a b :
  u64_ok a -> u64_ok b -> (forall n, 0 <= n < 64 -> Z.testbit a n = Z.testbit b n) -> a = b.
Proof.
  intros Ha Hb H. apply Z.bits_inj'. intros n Hn. destruct (Z.lt_ge_cases n 64); [by apply H|].
  by rewrite !u64_testbit_high.
Qed.

(** Bit positions one by one. *)
Lemma bit_cases (P : Z -> Prop) : Forall P (seqZ 0 64) -> forall n, 0 <= n < 64 -> P n.
Proof. intros H n Hn. apply (proj1 (Forall_forall _ _) H). apply elem_of_seqZ. lia. Qed.

Lemma wrap64_small a : u64_ok a -> wrap64 a = a.
Proof. intros H. by apply Z.mod_small. Qed.
