(* ===== verification/RiscvCsr.v ===== *)
(** Control and status registers of the RISC-V machine.

    Models [src/risc_v/machine_state/src/csregisters.rs] and [csregisters/xstatus.rs]:
    which values a register accepts ([make_value_writable]), the fields of [mstatus] and
    their shadow [sstatus], and the register file.  [CSRegister::mstatus] is
    [CSRegister.mstatus]; a register file is the region of 4096 values it wraps, indexed by
    register number. *)

From S2P Require Import Prelude Words.
#[local] Open Scope Z_scope.

(** [CSRValue]. *)
Abbreviation CSRValue := Z.

Inductive Privilege : Set := Unprivileged | Supervisor | Hypervisor | Machine.
(** The derived order, by discriminant. *)
Definition privilege_rank (p : Privilege) : Z :=
  match p with Unprivileged => 0 | Supervisor => 1 | Hypervisor => 2 | Machine => 3 end.

Definition ones (n : Z) : Z := Z.shiftr (not64 0) (64 - n).

Module CSRegister.
Inductive t : Set :=
  | fflags | frm | fcsr | cycle | time | instret | hpmcounter3 | hpmcounter4 | hpmcounter5
  | hpmcounter6 | hpmcounter7 | hpmcounter8 | hpmcounter9 | hpmcounter10 | hpmcounter11
  | hpmcounter12 | hpmcounter13 | hpmcounter14 | hpmcounter15 | hpmcounter16 | hpmcounter17
  | hpmcounter18 | hpmcounter19 | hpmcounter20 | hpmcounter21 | hpmcounter22 | hpmcounter23
  | hpmcounter24 | hpmcounter25 | hpmcounter26 | hpmcounter27 | hpmcounter28 | hpmcounter29
  | hpmcounter30 | hpmcounter31 | sstatus | sie | stvec | scounteren | senvcfg | sscratch | sepc
  | scause | stval | sip | satp | scontext | hstatus | hedeleg | hideleg | hie | hcounteren | hgeie
  | htval | hip | hvip | htinst | hgeip | henvcfg | hgatp | hcontext | htimedelta | vsstatus | vsie
  | vstvec | vsscratch | vsepc | vscause | vstval | vsip | vsatp | mvendorid | marchid | mimpid
  | mhartid | mconfigptr | mstatus | misa | medeleg | mideleg | mie | mtvec | mcounteren | mscratch
  | mepc | mcause | mtval | mip | mtinst | mtval2 | menvcfg | mseccfg | pmpcfg0 | pmpcfg2 | pmpcfg4
  | pmpcfg6 | pmpcfg8 | pmpcfg10 | pmpcfg12 | pmpcfg14 | pmpaddr0 | pmpaddr1 | pmpaddr2 | pmpaddr3
  | pmpaddr4 | pmpaddr5 | pmpaddr6 | pmpaddr7 | pmpaddr8 | pmpaddr9 | pmpaddr10 | pmpaddr11
  | pmpaddr12 | pmpaddr13 | pmpaddr14 | pmpaddr15 | pmpaddr16 | pmpaddr17 | pmpaddr18 | pmpaddr19
  | pmpaddr20 | pmpaddr21 | pmpaddr22 | pmpaddr23 | pmpaddr24 | pmpaddr25 | pmpaddr26 | pmpaddr27
  | pmpaddr28 | pmpaddr29 | pmpaddr30 | pmpaddr31 | pmpaddr32 | pmpaddr33 | pmpaddr34 | pmpaddr35
  | pmpaddr36 | pmpaddr37 | pmpaddr38 | pmpaddr39 | pmpaddr40 | pmpaddr41 | pmpaddr42 | pmpaddr43
  | pmpaddr44 | pmpaddr45 | pmpaddr46 | pmpaddr47 | pmpaddr48 | pmpaddr49 | pmpaddr50 | pmpaddr51
  | pmpaddr52 | pmpaddr53 | pmpaddr54 | pmpaddr55 | pmpaddr56 | pmpaddr57 | pmpaddr58 | pmpaddr59
  | pmpaddr60 | pmpaddr61 | pmpaddr62 | pmpaddr63 | mcycle | minstret | mhpmcounter3 | mhpmcounter4
  | mhpmcounter5 | mhpmcounter6 | mhpmcounter7 | mhpmcounter8 | mhpmcounter9 | mhpmcounter10
  | mhpmcounter11 | mhpmcounter12 | mhpmcounter13 | mhpmcounter14 | mhpmcounter15 | mhpmcounter16
  | mhpmcounter17 | mhpmcounter18 | mhpmcounter19 | mhpmcounter20 | mhpmcounter21 | mhpmcounter22
  | mhpmcounter23 | mhpmcounter24 | mhpmcounter25 | mhpmcounter26 | mhpmcounter27 | mhpmcounter28
  | mhpmcounter29 | mhpmcounter30 | mhpmcounter31 | mcountinhibit | mhpmevent3 | mhpmevent4
  | mhpmevent5 | mhpmevent6 | mhpmevent7 | mhpmevent8 | mhpmevent9 | mhpmevent10 | mhpmevent11
  | mhpmevent12 | mhpmevent13 | mhpmevent14 | mhpmevent15 | mhpmevent16 | mhpmevent17 | mhpmevent18
  | mhpmevent19 | mhpmevent20 | mhpmevent21 | mhpmevent22 | mhpmevent23 | mhpmevent24 | mhpmevent25
  | mhpmevent26 | mhpmevent27 | mhpmevent28 | mhpmevent29 | mhpmevent30 | mhpmevent31 | tselect
  | tdata1 | tdata2 | tdata3 | mcontext | dcsr | dpc | dscratch0 | dscratch1.
(** [as usize]. *)
Definition index (r : t) : Z :=
  match r with
  | fflags => 1 | frm => 2 | fcsr => 3 | cycle => 3072 | time => 3073 | instret => 3074
  | hpmcounter3 => 3075 | hpmcounter4 => 3076 | hpmcounter5 => 3077 | hpmcounter6 => 3078
  | hpmcounter7 => 3079 | hpmcounter8 => 3080 | hpmcounter9 => 3081 | hpmcounter10 => 3082
  | hpmcounter11 => 3083 | hpmcounter12 => 3084 | hpmcounter13 => 3085 | hpmcounter14 => 3086
  | hpmcounter15 => 3087 | hpmcounter16 => 3088 | hpmcounter17 => 3089 | hpmcounter18 => 3090
  | hpmcounter19 => 3091 | hpmcounter20 => 3092 | hpmcounter21 => 3093 | hpmcounter22 => 3094
  | hpmcounter23 => 3095 | hpmcounter24 => 3096 | hpmcounter25 => 3097 | hpmcounter26 => 3098
  | hpmcounter27 => 3099 | hpmcounter28 => 3100 | hpmcounter29 => 3101 | hpmcounter30 => 3102
  | hpmcounter31 => 3103 | sstatus => 256 | sie => 260 | stvec => 261 | scounteren => 262
  | senvcfg => 266 | sscratch => 320 | sepc => 321 | scause => 322 | stval => 323 | sip => 324
  | satp => 384 | scontext => 1448 | hstatus => 1536 | hedeleg => 1538 | hideleg => 1539
  | hie => 1540 | hcounteren => 1542 | hgeie => 1543 | htval => 1603 | hip => 1604 | hvip => 1605
  | htinst => 1610 | hgeip => 3602 | henvcfg => 1546 | hgatp => 1664 | hcontext => 1704
  | htimedelta => 1541 | vsstatus => 512 | vsie => 516 | vstvec => 517 | vsscratch => 576
  | vsepc => 577 | vscause => 578 | vstval => 579 | vsip => 580 | vsatp => 640 | mvendorid => 3857
  | marchid => 3858 | mimpid => 3859 | mhartid => 3860 | mconfigptr => 3861 | mstatus => 768
  | misa => 769 | medeleg => 770 | mideleg => 771 | mie => 772 | mtvec => 773 | mcounteren => 774
  | mscratch => 832 | mepc => 833 | mcause => 834 | mtval => 835 | mip => 836 | mtinst => 842
  | mtval2 => 843 | menvcfg => 778 | mseccfg => 1863 | pmpcfg0 => 928 | pmpcfg2 => 930
  | pmpcfg4 => 932 | pmpcfg6 => 934 | pmpcfg8 => 936 | pmpcfg10 => 938 | pmpcfg12 => 940
  | pmpcfg14 => 942 | pmpaddr0 => 944 | pmpaddr1 => 945 | pmpaddr2 => 946 | pmpaddr3 => 947
  | pmpaddr4 => 948 | pmpaddr5 => 949 | pmpaddr6 => 950 | pmpaddr7 => 951 | pmpaddr8 => 952
  | pmpaddr9 => 953 | pmpaddr10 => 954 | pmpaddr11 => 955 | pmpaddr12 => 956 | pmpaddr13 => 957
  | pmpaddr14 => 958 | pmpaddr15 => 959 | pmpaddr16 => 960 | pmpaddr17 => 961 | pmpaddr18 => 962
  | pmpaddr19 => 963 | pmpaddr20 => 964 | pmpaddr21 => 965 | pmpaddr22 => 966 | pmpaddr23 => 967
  | pmpaddr24 => 968 | pmpaddr25 => 969 | pmpaddr26 => 970 | pmpaddr27 => 971 | pmpaddr28 => 972
  | pmpaddr29 => 973 | pmpaddr30 => 974 | pmpaddr31 => 975 | pmpaddr32 => 976 | pmpaddr33 => 977
  | pmpaddr34 => 978 | pmpaddr35 => 979 | pmpaddr36 => 980 | pmpaddr37 => 981 | pmpaddr38 => 982
  | pmpaddr39 => 983 | pmpaddr40 => 984 | pmpaddr41 => 985 | pmpaddr42 => 986 | pmpaddr43 => 987
  | pmpaddr44 => 988 | pmpaddr45 => 989 | pmpaddr46 => 990 | pmpaddr47 => 991 | pmpaddr48 => 992
  | pmpaddr49 => 993 | pmpaddr50 => 994 | pmpaddr51 => 995 | pmpaddr52 => 996 | pmpaddr53 => 997
  | pmpaddr54 => 998 | pmpaddr55 => 999 | pmpaddr56 => 1000 | pmpaddr57 => 1001 | pmpaddr58 => 1002
  | pmpaddr59 => 1003 | pmpaddr60 => 1004 | pmpaddr61 => 1005 | pmpaddr62 => 1006
  | pmpaddr63 => 1007 | mcycle => 2816 | minstret => 2818 | mhpmcounter3 => 2819
  | mhpmcounter4 => 2820 | mhpmcounter5 => 2821 | mhpmcounter6 => 2822 | mhpmcounter7 => 2823
  | mhpmcounter8 => 2824 | mhpmcounter9 => 2825 | mhpmcounter10 => 2826 | mhpmcounter11 => 2827
  | mhpmcounter12 => 2828 | mhpmcounter13 => 2829 | mhpmcounter14 => 2830 | mhpmcounter15 => 2831
  | mhpmcounter16 => 2832 | mhpmcounter17 => 2833 | mhpmcounter18 => 2834 | mhpmcounter19 => 2835
  | mhpmcounter20 => 2836 | mhpmcounter21 => 2837 | mhpmcounter22 => 2838 | mhpmcounter23 => 2839
  | mhpmcounter24 => 2840 | mhpmcounter25 => 2841 | mhpmcounter26 => 2842 | mhpmcounter27 => 2843
  | mhpmcounter28 => 2844 | mhpmcounter29 => 2845 | mhpmcounter30 => 2846 | mhpmcounter31 => 2847
  | mcountinhibit => 800 | mhpmevent3 => 803 | mhpmevent4 => 804 | mhpmevent5 => 805
  | mhpmevent6 => 806 | mhpmevent7 => 807 | mhpmevent8 => 808 | mhpmevent9 => 809
  | mhpmevent10 => 810 | mhpmevent11 => 811 | mhpmevent12 => 812 | mhpmevent13 => 813
  | mhpmevent14 => 814 | mhpmevent15 => 815 | mhpmevent16 => 816 | mhpmevent17 => 817
  | mhpmevent18 => 818 | mhpmevent19 => 819 | mhpmevent20 => 820 | mhpmevent21 => 821
  | mhpmevent22 => 822 | mhpmevent23 => 823 | mhpmevent24 => 824 | mhpmevent25 => 825
  | mhpmevent26 => 826 | mhpmevent27 => 827 | mhpmevent28 => 828 | mhpmevent29 => 829
  | mhpmevent30 => 830 | mhpmevent31 => 831 | tselect => 1952 | tdata1 => 1953 | tdata2 => 1954
  | tdata3 => 1955 | mcontext => 1960 | dcsr => 1968 | dpc => 1969 | dscratch0 => 1970
  | dscratch1 => 1971
  end.
Definition all : list t :=
  [
   fflags; frm; fcsr; cycle; time; instret; hpmcounter3; hpmcounter4; hpmcounter5; hpmcounter6;
   hpmcounter7; hpmcounter8; hpmcounter9; hpmcounter10; hpmcounter11; hpmcounter12; hpmcounter13;
   hpmcounter14; hpmcounter15; hpmcounter16; hpmcounter17; hpmcounter18; hpmcounter19;
   hpmcounter20; hpmcounter21; hpmcounter22; hpmcounter23; hpmcounter24; hpmcounter25;
   hpmcounter26; hpmcounter27; hpmcounter28; hpmcounter29; hpmcounter30; hpmcounter31; sstatus;
   sie; stvec; scounteren; senvcfg; sscratch; sepc; scause; stval; sip; satp; scontext; hstatus;
   hedeleg; hideleg; hie; hcounteren; hgeie; htval; hip; hvip; htinst; hgeip; henvcfg; hgatp;
   hcontext; htimedelta; vsstatus; vsie; vstvec; vsscratch; vsepc; vscause; vstval; vsip; vsatp;
   mvendorid; marchid; mimpid; mhartid; mconfigptr; mstatus; misa; medeleg; mideleg; mie; mtvec;
   mcounteren; mscratch; mepc; mcause; mtval; mip; mtinst; mtval2; menvcfg; mseccfg; pmpcfg0;
   pmpcfg2; pmpcfg4; pmpcfg6; pmpcfg8; pmpcfg10; pmpcfg12; pmpcfg14; pmpaddr0; pmpaddr1; pmpaddr2;
   pmpaddr3; pmpaddr4; pmpaddr5; pmpaddr6; pmpaddr7; pmpaddr8; pmpaddr9; pmpaddr10; pmpaddr11;
   pmpaddr12; pmpaddr13; pmpaddr14; pmpaddr15; pmpaddr16; pmpaddr17; pmpaddr18; pmpaddr19;
   pmpaddr20; pmpaddr21; pmpaddr22; pmpaddr23; pmpaddr24; pmpaddr25; pmpaddr26; pmpaddr27;
   pmpaddr28; pmpaddr29; pmpaddr30; pmpaddr31; pmpaddr32; pmpaddr33; pmpaddr34; pmpaddr35;
   pmpaddr36; pmpaddr37; pmpaddr38; pmpaddr39; pmpaddr40; pmpaddr41; pmpaddr42; pmpaddr43;
   pmpaddr44; pmpaddr45; pmpaddr46; pmpaddr47; pmpaddr48; pmpaddr49; pmpaddr50; pmpaddr51;
   pmpaddr52; pmpaddr53; pmpaddr54; pmpaddr55; pmpaddr56; pmpaddr57; pmpaddr58; pmpaddr59;
   pmpaddr60; pmpaddr61; pmpaddr62; pmpaddr63; mcycle; minstret; mhpmcounter3; mhpmcounter4;
   mhpmcounter5; mhpmcounter6; mhpmcounter7; mhpmcounter8; mhpmcounter9; mhpmcounter10;
   mhpmcounter11; mhpmcounter12; mhpmcounter13; mhpmcounter14; mhpmcounter15; mhpmcounter16;
   mhpmcounter17; mhpmcounter18; mhpmcounter19; mhpmcounter20; mhpmcounter21; mhpmcounter22;
   mhpmcounter23; mhpmcounter24; mhpmcounter25; mhpmcounter26; mhpmcounter27; mhpmcounter28;
   mhpmcounter29; mhpmcounter30; mhpmcounter31; mcountinhibit; mhpmevent3; mhpmevent4; mhpmevent5;
   mhpmevent6; mhpmevent7; mhpmevent8; mhpmevent9; mhpmevent10; mhpmevent11; mhpmevent12;
   mhpmevent13; mhpmevent14; mhpmevent15; mhpmevent16; mhpmevent17; mhpmevent18; mhpmevent19;
   mhpmevent20; mhpmevent21; mhpmevent22; mhpmevent23; mhpmevent24; mhpmevent25; mhpmevent26;
   mhpmevent27; mhpmevent28; mhpmevent29; mhpmevent30; mhpmevent31; tselect; tdata1; tdata2;
   tdata3; mcontext; dcsr; dpc; dscratch0; dscratch1].

Definition of_index (z : Z) : option t := List.find (fun r => index r =? z) all.

Lemma of_index_index r : of_index (index r) = Some r.
Proof. destruct r; vm_compute; reflexivity. Qed.
#[global] Instance index_inj : Inj (=) (=) index.
Proof. intros r1 r2 H. apply (f_equal of_index) in H. rewrite !of_index_index in H. congruence. Qed.
#[global] Instance eq_dec : EqDecision t := fun r1 r2 =>
  match Z.eq_dec (index r1) (index r2) with
  | left H => left (inj index _ _ H)
  | right H => right (fun E => H (f_equal index E))
  end.
Lemma index_range r : 0 <= index r < 4096.
Proof. destruct r; vm_compute; split; congruence. Qed.
End CSRegister.

Definition CSRegister : Set := CSRegister.t.

(** * Fields of [mstatus] (xstatus.rs) *)

Class FieldValue (A : Type) := {
  fv_new : Z -> A;
  raw_bits : A -> Z
}.

#[global] Instance bool_FieldValue : FieldValue bool := {
  fv_new value := Z.land value 1 =? 1;
  raw_bits := Z.b2z
}.

Inductive MPPValue : Set := MPP_User | MPP_Supervisor | MPP_Machine.
#[global] Instance MPP_FieldValue : FieldValue MPPValue := {
  fv_new value :=
    match Z.land value 3 with
    | 0 => MPP_User
    | 1 => MPP_Supervisor
    | 3 => MPP_Machine
    | _ => MPP_User
    end;
  raw_bits v := match v with MPP_User => 0 | MPP_Supervisor => 1 | MPP_Machine => 3 end
}.

Inductive SPPValue : Set := SPP_User | SPP_Supervisor.
#[global] Instance SPP_FieldValue : FieldValue SPPValue := {
  fv_new value := match Z.land value 1 with 0 => SPP_User | _ => SPP_Supervisor end;
  raw_bits v := match v with SPP_User => 0 | SPP_Supervisor => 1 end
}.

Inductive XLenValue : Set := MXL32 | MXL64 | MXL128.
#[global] Instance XLen_FieldValue : FieldValue XLenValue := {
  fv_new value :=
    match Z.land value 3 with
    | 1 => MXL32
    | 2 => MXL64
    | 3 => MXL128
    | _ => MXL64
    end;
  raw_bits v := match v with MXL32 => 1 | MXL64 => 2 | MXL128 => 3 end
}.

Inductive ExtensionValue : Set := Off | Initial | Clean | Dirty.
#[global] Instance ExtensionValue_eq_dec : EqDecision ExtensionValue.
Proof. solve_decision. Defined.
#[global] Instance Extension_FieldValue : FieldValue ExtensionValue := {
  fv_new value :=
    match Z.land value 3 with
    | 0 => Off
    | 1 => Initial
    | 2 => Clean
    | _ => Dirty
    end;
  raw_bits v := match v with Off => 0 | Initial => 1 | Clean => 2 | Dirty => 3 end
}.

(** The bodies of the accessors the macros generate. *)
Definition get_field {A} `{FieldValue A} (f : Z * Z) (mstatus : CSRValue) : A :=
  fv_new (Z.land (Z.shiftr mstatus f.1) (ones f.2)).
Definition set_field {A} `{FieldValue A} (f : Z * Z) (mstatus : CSRValue) (new_value : A) : CSRValue :=
  let field_bits := Z.land (raw_bits new_value) (ones f.2) in
  let mstatus := Z.land mstatus (not64 (shl64 (ones f.2) f.1)) in
  Z.lor mstatus (shl64 field_bits f.1).

(** Offset and width. *)
Definition SD : Z * Z := (63, 1).
Definition MBE : Z * Z := (37, 1).
Definition SBE : Z * Z := (36, 1).
Definition SXL : Z * Z := (34, 2).
Definition UXL : Z * Z := (32, 2).
Definition TSR : Z * Z := (22, 1).
Definition TW : Z * Z := (21, 1).
Definition TVM : Z * Z := (20, 1).
Definition MXR : Z * Z := (19, 1).
Definition SUM : Z * Z := (18, 1).
Definition MPRV : Z * Z := (17, 1).
Definition XS : Z * Z := (15, 2).
Definition FS : Z * Z := (13, 2).
Definition MPP : Z * Z := (11, 2).
Definition VS : Z * Z := (9, 2).
Definition SPP : Z * Z := (8, 1).
Definition MPIE : Z * Z := (7, 1).
Definition UBE : Z * Z := (6, 1).
Definition SPIE : Z * Z := (5, 1).
Definition MIE : Z * Z := (3, 1).
Definition SIE : Z * Z := (1, 1).

Definition get_SD (mstatus : CSRValue) : bool := get_field SD mstatus.
Definition set_SD (mstatus : CSRValue) (new_value : bool) : CSRValue := set_field SD mstatus new_value.
Definition get_MBE (mstatus : CSRValue) : bool := get_field MBE mstatus.
Definition set_MBE (mstatus : CSRValue) (new_value : bool) : CSRValue := set_field MBE mstatus new_value.
Definition get_SBE (mstatus : CSRValue) : bool := get_field SBE mstatus.
Definition set_SBE (mstatus : CSRValue) (new_value : bool) : CSRValue := set_field SBE mstatus new_value.
Definition get_SXL (mstatus : CSRValue) : XLenValue := get_field SXL mstatus.
Definition set_SXL (mstatus : CSRValue) (new_value : XLenValue) : CSRValue := set_field SXL mstatus new_value.
Definition get_UXL (mstatus : CSRValue) : XLenValue := get_field UXL mstatus.
Definition set_UXL (mstatus : CSRValue) (new_value : XLenValue) : CSRValue := set_field UXL mstatus new_value.
Definition get_TSR (mstatus : CSRValue) : bool := get_field TSR mstatus.
Definition set_TSR (mstatus : CSRValue) (new_value : bool) : CSRValue := set_field TSR mstatus new_value.
Definition get_TW (mstatus : CSRValue) : bool := get_field TW mstatus.
Definition set_TW (mstatus : CSRValue) (new_value : bool) : CSRValue := set_field TW mstatus new_value.
Definition get_TVM (mstatus : CSRValue) : bool := get_field TVM mstatus.
Definition set_TVM (mstatus : CSRValue) (new_value : bool) : CSRValue := set_field TVM mstatus new_value.
Definition get_MXR (mstatus : CSRValue) : bool := get_field MXR mstatus.
Definition set_MXR (mstatus : CSRValue) (new_value : bool) : CSRValue := set_field MXR mstatus new_value.
Definition get_SUM (mstatus : CSRValue) : bool := get_field SUM mstatus.
Definition set_SUM (mstatus : CSRValue) (new_value : bool) : CSRValue := set_field SUM mstatus new_value.
Definition get_MPRV (mstatus : CSRValue) : bool := get_field MPRV mstatus.
Definition set_MPRV (mstatus : CSRValue) (new_value : bool) : CSRValue := set_field MPRV mstatus new_value.
Definition get_XS (mstatus : CSRValue) : ExtensionValue := get_field XS mstatus.
Definition set_XS (mstatus : CSRValue) (new_value : ExtensionValue) : CSRValue := set_field XS mstatus new_value.
Definition get_FS (mstatus : CSRValue) : ExtensionValue := get_field FS mstatus.
Definition set_FS (mstatus : CSRValue) (new_value : ExtensionValue) : CSRValue := set_field FS mstatus new_value.
Definition get_MPP (mstatus : CSRValue) : MPPValue := get_field MPP mstatus.
Definition set_MPP (mstatus : CSRValue) (new_value : MPPValue) : CSRValue := set_field MPP mstatus new_value.
Definition get_VS (mstatus : CSRValue) : ExtensionValue := get_field VS mstatus.
Definition set_VS (mstatus : CSRValue) (new_value : ExtensionValue) : CSRValue := set_field VS mstatus new_value.
Definition get_SPP (mstatus : CSRValue) : bool := get_field SPP mstatus.
Definition set_SPP (mstatus : CSRValue) (new_value : bool) : CSRValue := set_field SPP mstatus new_value.
Definition get_MPIE (mstatus : CSRValue) : bool := get_field MPIE mstatus.
Definition set_MPIE (mstatus : CSRValue) (new_value : bool) : CSRValue := set_field MPIE mstatus new_value.
Definition get_UBE (mstatus : CSRValue) : bool := get_field UBE mstatus.
Definition set_UBE (mstatus : CSRValue) (new_value : bool) : CSRValue := set_field UBE mstatus new_value.
Definition get_SPIE (mstatus : CSRValue) : bool := get_field SPIE mstatus.
Definition set_SPIE (mstatus : CSRValue) (new_value : bool) : CSRValue := set_field SPIE mstatus new_value.
Definition get_MIE (mstatus : CSRValue) : bool := get_field MIE mstatus.
Definition set_MIE (mstatus : CSRValue) (new_value : bool) : CSRValue := set_field MIE mstatus new_value.
Definition get_SIE (mstatus : CSRValue) : bool := get_field SIE mstatus.
Definition set_SIE (mstatus : CSRValue) (new_value : bool) : CSRValue := set_field SIE mstatus new_value.

Definition field_mask (field_data : Z * Z) : CSRValue := shl64 (ones field_data.2) field_data.1.

Definition or_all (l : list CSRValue) : CSRValue := fold_right Z.lor 0 l.

Definition SSTATUS_FIELDS_MASK : CSRValue :=
  or_all (field_mask <$> [SD; UXL; MXR; SUM; XS; FS; VS; SPP; UBE; SPIE; SIE]).

Definition MSTATUS_FIELDS_MASK : CSRValue :=
  Z.lor SSTATUS_FIELDS_MASK (or_all (field_mask <$> [MBE; SBE; SXL; TSR; TW; TVM; MPRV; MPP; MPIE; MIE])).

Definition apply_warl_sstatus (mstatus : CSRValue) : CSRValue :=
  let xs := get_XS mstatus in
  let vs := get_VS mstatus in
  let fs := get_FS mstatus in
  let mstatus := set_SD mstatus (bool_decide (xs = Dirty) || bool_decide (fs = Dirty) || bool_decide (vs = Dirty)) in
  set_UXL mstatus MXL64.

Definition apply_warl_mstatus (mstatus : CSRValue) : CSRValue :=
  let mstatus := apply_warl_sstatus mstatus in
  let mstatus := set_SXL mstatus MXL64 in
  let mpp := get_MPP mstatus in
  set_MPP mstatus mpp.

Definition sstatus_from_mstatus (mstatus : CSRValue) : CSRValue := Z.land mstatus SSTATUS_FIELDS_MASK.

(** * What a register accepts (csregisters.rs) *)

Definition MXLEN : Z := 64.
Definition SXLEN : Z := MXLEN.
Definition MXL_ENCODING : Z := 2.

Definition in_range (i lo hi : Z) : bool := (lo <=? i) && (i <=? hi).
Definition in_ranges (i : Z) (l : list (Z * Z)) : bool := existsb (fun r => in_range i r.1 r.2) l.

(** [CSRegister::privilege]; the last arm of the match is a panic. *)
Definition privilege {E} (self : CSRegister) : outcome E Privilege :=
  let i := CSRegister.index self in
  if in_ranges i [(0x000, 0x0FF); (0x400, 0x4FF); (0x800, 0x8FF); (0xC00, 0xC7F); (0xC80, 0xCBF); (0xCC0, 0xCFF)]
  then Ok Unprivileged
  else if in_ranges i [(0x100, 0x1FF); (0x500, 0x57F); (0x580, 0x5BF); (0x5C0, 0x5FF); (0x900, 0x97F); (0x980, 0x9BF);
                       (0x9C0, 0x9FF); (0xD00, 0xD7F); (0xD80, 0xDBF); (0xDC0, 0xDFF)]
  then Ok Supervisor
  else if in_ranges i [(0x200, 0x2FF); (0x600, 0x67F); (0x680, 0x6BF); (0x6C0, 0x6FF); (0xA00, 0xA7F); (0xA80, 0xABF);
                       (0xAC0, 0xAFF); (0xE00, 0xE7F); (0xE80, 0xEBF); (0xEC0, 0xEFF)]
  then Ok Hypervisor
  else if in_ranges i [(0x300, 0x3FF); (0x700, 0x77F); (0x780, 0x79F); (0x7A0, 0x7AF); (0x7B0, 0x7BF); (0x7C0, 0x7FF);
                       (0xB00, 0xB7F); (0xB80, 0xBBF); (0xBC0, 0xBFF); (0xF00, 0xF7F); (0xF80, 0xFBF); (0xFC0, 0xFFF)]
  then Ok Machine
  else Panic PUnreachable.

Definition is_read_only (self : CSRegister) : bool :=
  Z.land (Z.shiftr (CSRegister.index self) 10) 3 =? 3.

Definition WPRI_MASK_EMPTY : CSRValue := Z.ones 64.
Definition WPRI_MASK_MSTATUS : CSRValue :=
  not64 (or_all [shl64 (ones 1) 0; shl64 (ones 1) 2; shl64 (ones 1) 4; shl64 (ones 9) 23; shl64 (ones 25) 38]).
Definition WPRI_MASK_MENVCFG : CSRValue := not64 (or_all [shl64 (ones 3) 1; shl64 (ones 54) 8]).
Definition WPRI_MASK_MSECCFG : CSRValue := not64 (or_all [shl64 (ones 5) 3; shl64 (ones (MXLEN - 10)) 10]).
Definition WPRI_MASK_SSTATUS : CSRValue :=
  not64 (or_all [shl64 (ones 1) 0; shl64 (ones 3) 2; shl64 (ones 1) 7; shl64 (ones 2) 11; shl64 (ones 1) 17;
                 shl64 (ones 12) 20; shl64 (ones 29) 34]).
Definition WPRI_MASK_SENVCFG : CSRValue := not64 (or_all [shl64 (ones 3) 1; shl64 (ones (SXLEN - 8)) 8]).

Definition wpri_mask (self : CSRegister) : CSRValue :=
  match self with
  | CSRegister.mstatus => WPRI_MASK_MSTATUS
  | CSRegister.menvcfg => WPRI_MASK_MENVCFG
  | CSRegister.mseccfg => WPRI_MASK_MSECCFG
  | CSRegister.sstatus => WPRI_MASK_SSTATUS
  | CSRegister.senvcfg => WPRI_MASK_SENVCFG
  | _ => WPRI_MASK_EMPTY
  end.

Definition clear_wpri_fields (self : CSRegister) (new_value : CSRValue) : CSRValue :=
  Z.land new_value (wpri_mask self).

Definition INTERRUPT_BIT : Z := shl64 1 63.
Definition WLRL_MCAUSE_VALUES : list Z :=
  (Z.lor INTERRUPT_BIT <$> [1; 3; 5; 7; 9; 11]) ++ [0; 1; 2; 3; 4; 5; 6; 7; 8; 9; 11; 12; 13; 15].
Definition WLRL_SCAUSE_VALUES : list Z :=
  (Z.lor INTERRUPT_BIT <$> [1; 5; 9]) ++ [0; 1; 2; 3; 4; 5; 6; 7; 8; 9; 12; 13; 15].

Definition legal_values (self : CSRegister) : list Z :=
  match self with
  | CSRegister.mcause => WLRL_MCAUSE_VALUES
  | CSRegister.scause => WLRL_SCAUSE_VALUES
  | _ => []
  end.

Definition is_legal (self : CSRegister) (new_value : CSRValue) : bool :=
  let legal_values := legal_values self in
  bool_decide (legal_values = []) || bool_decide (new_value ∈ legal_values).

Definition WARL_MISA_VALUE : CSRValue :=
  or_all (shl64 MXL_ENCODING 62 :: (shl64 1 <$> [0; 2; 3; 5; 5; 8; 12; 18; 20])).
Definition WARL_MASK_MEDELEG : CSRValue :=
  not64 (or_all [shl64 (ones 1) 10; shl64 (ones 1) 11; shl64 (ones 1) 14; shl64 (ones (MXLEN - 16)) 16]).
Definition WARL_MASK_MIDELEG : CSRValue :=
  not64 (or_all [shl64 (ones 1) 0; shl64 (ones 1) 2; shl64 (ones 1) 4; shl64 (ones 1) 6; shl64 (ones 1) 8;
                 shl64 (ones 1) 10; shl64 (ones 4) 12; shl64 (ones (MXLEN - 16)) 16]).
Definition WARL_MASK_XTVEC : CSRValue := not64 (shl64 (ones 1) 1).
Definition SSIP_BIT : CSRValue := shl64 1 1.
Definition MSIP_BIT : CSRValue := shl64 1 3.
Definition STIP_BIT : CSRValue := shl64 1 5.
Definition MTIP_BIT : CSRValue := shl64 1 7.
Definition SEIP_BIT : CSRValue := shl64 1 9.
Definition MEIP_BIT : CSRValue := shl64 1 11.
Definition WARL_MASK_MIP_MIE : CSRValue := or_all [SSIP_BIT; MSIP_BIT; STIP_BIT; MTIP_BIT; SEIP_BIT; MEIP_BIT].
Definition WARL_MASK_SIP_SIE : CSRValue := or_all [SSIP_BIT; STIP_BIT; SEIP_BIT].
Definition WARL_MASK_XEPC : CSRValue := not64 1.
Definition SATP_MODE_OFFSET : Z := 60.
Definition SATP_MODE_BARE : CSRValue := 0.
Definition SATP_MODE_SV39 : CSRValue := 8.
Definition SATP_MODE_SV48 : CSRValue := 9.
Definition SATP_MODE_SV57 : CSRValue := 10.
Definition SATP_DEFAULT : CSRValue := shl64 SATP_MODE_BARE SATP_MODE_OFFSET.

Definition transform_warl_fields (self : CSRegister) (new_value : CSRValue) : option CSRValue :=
  match self with
  | CSRegister.misa => Some WARL_MISA_VALUE
  | CSRegister.medeleg => Some (Z.land new_value WARL_MASK_MEDELEG)
  | CSRegister.mideleg => Some (Z.land new_value WARL_MASK_MIDELEG)
  | CSRegister.mtvec | CSRegister.stvec => Some (Z.land new_value WARL_MASK_XTVEC)
  | CSRegister.mip | CSRegister.mie => Some (Z.land new_value WARL_MASK_MIP_MIE)
  | CSRegister.sip | CSRegister.sie => Some (Z.land new_value WARL_MASK_SIP_SIE)
  | CSRegister.mepc | CSRegister.sepc => Some (Z.land new_value WARL_MASK_XEPC)
  | CSRegister.satp =>
      let satp_mode := Z.shiftr new_value SATP_MODE_OFFSET in
      if (satp_mode =? SATP_MODE_SV39) || (satp_mode =? SATP_MODE_SV48) || (satp_mode =? SATP_MODE_SV57)
      then Some new_value
      else if satp_mode =? SATP_MODE_BARE then Some SATP_DEFAULT
      else None
  | CSRegister.mstatus => Some (apply_warl_mstatus new_value)
  | CSRegister.sstatus => Some (apply_warl_sstatus new_value)
  | _ => Some new_value
  end.

Definition make_value_writable (self : CSRegister) (value : CSRValue) : option CSRValue :=
  let value := clear_wpri_fields self value in
  value ← transform_warl_fields self value;
  if is_legal self value then Some value else None.

(** * Access rights *)

Inductive Exception : Set := IllegalInstruction.

Inductive Mode : Set := Mode_User | Mode_Supervisor | Mode_Machine | Mode_Debug.
(** [Mode::privilege] (mode.rs). *)
Definition mode_privilege (m : Mode) : Privilege :=
  match m with
  | Mode_User => Unprivileged
  | Mode_Supervisor => Supervisor
  | Mode_Machine => Machine
  | Mode_Debug => Machine
  end.

Definition check_privilege (reg : CSRegister) (mode : Mode) : outcome Exception unit :=
  p ← privilege reg;
  if privilege_rank (mode_privilege mode) <? privilege_rank p then Err IllegalInstruction else Ok tt.

Definition check_write (reg : CSRegister) : outcome Exception unit :=
  if is_read_only reg then Err IllegalInstruction else Ok tt.

(** * The register file *)

(** [Region<CSRValue, 4096>]; every index used is in range. *)
Abbreviation CSRegisters := (list CSRValue).
Definition reg_index (r : CSRegister) : nat := Z.to_nat (CSRegister.index r).
Definition region_read (s : CSRegisters) (r : CSRegister) : CSRValue := default 0 (s !! reg_index r).
Definition region_write (s : CSRegisters) (r : CSRegister) (v : CSRValue) : CSRegisters := <[reg_index r := v]> s.

Definition transform_write (s : CSRegisters) (reg : CSRegister) (value : CSRValue) : CSRegister * CSRValue :=
  match reg with
  | CSRegister.sstatus =>
      let mstatus := region_read s CSRegister.mstatus in
      let sstatus_only := sstatus_from_mstatus value in
      let mstatus_only := Z.land mstatus (not64 SSTATUS_FIELDS_MASK) in
      (CSRegister.mstatus, Z.lor sstatus_only mstatus_only)
  | _ => (reg, value)
  end.

Definition transform_read (s : CSRegisters) (reg : CSRegister) (mstatus_value : option CSRValue) : CSRValue :=
  let read_mstatus := region_read s CSRegister.mstatus in
  match reg with
  | CSRegister.sstatus => sstatus_from_mstatus (default read_mstatus mstatus_value)
  | CSRegister.mstatus => default read_mstatus mstatus_value
  | _ => region_read s reg
  end.

Definition csr_write (s : CSRegisters) (reg : CSRegister) (value : CSRValue) : CSRegisters :=
  match make_value_writable reg value with
  | Some value => let '(reg, value) := transform_write s reg value in region_write s reg value
  | None => s
  end.

Definition csr_read (s : CSRegisters) (reg : CSRegister) : CSRValue := transform_read s reg None.

(** The previous value is read back from the file after the write, except for [mstatus]. *)
Definition csr_replace_value (s : CSRegisters) (reg : CSRegister) (value : CSRValue) : CSRValue * CSRegisters :=
  match make_value_writable reg value with
  | Some value =>
      let '(upd_reg, value) := transform_write s reg value in
      let old_value := region_read s upd_reg in
      let s := region_write s upd_reg value in
      (transform_read s reg (Some old_value), s)
  | None => (csr_read s reg, s)
  end.

Definition set_bits (s : CSRegisters) (reg : CSRegister) (bits : CSRValue) : CSRValue * CSRegisters :=
  let old_value := csr_read s reg in
  let new_value := Z.lor old_value bits in
  (old_value, csr_write s reg new_value).

Definition clear_bits (s : CSRegisters) (reg : CSRegister) (bits : CSRValue) : CSRValue * CSRegisters :=
  let old_value := csr_read s reg in
  let new_value := Z.land old_value (not64 bits) in
  (old_value, csr_write s reg new_value).
