(* ===== verification/RiscvCsrProps.v ===== *)
(** Properties of the control and status registers.

    Values are compared bit by bit: [status_bits] and [sstatus_bits] describe the bits of a
    status register after the WARL rules as a function of the bits before, and the facts
    about them are checked position by position. *)

From S2P Require Import Prelude Words RiscvCsr.
#[local] Open Scope Z_scope.

(** * Bits of fields *)

Lemma ones_eq w : 0 <= w <= 64 -> ones w = Z.ones w.
Proof.
  intros Hw. unfold ones. change (not64 0) with (Z.ones 64). rewrite !Z.ones_equiv, Z.shiftr_div_pow2 by lia.
  replace (2 ^ 64) with (2 ^ w * 2 ^ (64 - w)) by (rewrite <- Z.pow_add_r by lia; f_equal; lia).
  pose proof (Z.pow_pos_nonneg 2 w ltac:(lia) ltac:(lia)). pose proof (Z.pow_pos_nonneg 2 (64 - w) ltac:(lia) ltac:(lia)).
  symmetry. apply (Z.div_unique_pos _ _ _ (2 ^ (64 - w) - 1)); nia.
Qed.

Lemma ones_spec w n : 0 <= w <= 64 -> 0 <= n -> Z.testbit (ones w) n = (n <? w).
Proof. intros Hw Hn. rewrite ones_eq by done. rewrite Z.testbit_ones_nonneg by lia. done. Qed.

(** Fields fit the register. *)
Definition field_ok (f : Z * Z) : Prop := 0 <= f.1 /\ 0 < f.2 /\ f.1 + f.2 <= 64.
Definition in_field (f : Z * Z) (n : Z) : bool := (f.1 <=? n) && (n <? f.1 + f.2).

Lemma field_mask_spec f n : field_ok f -> 0 <= n < 64 -> Z.testbit (field_mask f) n = in_field f n.
Proof.
  intros (?&?&?) Hn. unfold field_mask, in_field. rewrite shl64_spec by done.
  destruct (Z.leb_spec f.1 n); cbn.
  - rewrite ones_spec by lia. destruct (Z.ltb_spec (n - f.1) f.2), (Z.ltb_spec n (f.1 + f.2)); lia || done.
  - by rewrite Z.testbit_neg_r by lia.
Qed.

Lemma set_field_spec {A} `{FieldValue A} f m x n : field_ok f -> 0 <= n < 64 ->
  Z.testbit (set_field f m x) n = if in_field f n then Z.testbit (raw_bits x) (n - f.1) else Z.testbit m n.
Proof.
  intros Hf Hn. unfold set_field. rewrite Z.lor_spec, Z.land_spec, not64_spec by done.
  change (shl64 (ones f.2) f.1) with (field_mask f). rewrite field_mask_spec by done. rewrite shl64_spec by done.
  destruct Hf as (?&?&?). unfold in_field. destruct (Z.leb_spec f.1 n); cbn [andb negb].
  - rewrite Z.land_spec, ones_spec by lia.
    destruct (Z.ltb_spec (n - f.1) f.2), (Z.ltb_spec n (f.1 + f.2)); try lia; cbn; by rewrite ?andb_false_r, ?andb_true_r, ?orb_false_r.
  - rewrite (Z.testbit_neg_r _ (n - f.1)) by lia. by rewrite orb_false_r, andb_true_r.
Qed.

Lemma get_field_bits f m i : field_ok f -> 0 <= i ->
  Z.testbit (Z.land (Z.shiftr m f.1) (ones f.2)) i = Z.testbit m (i + f.1) && (i <? f.2).
Proof. intros (?&?&?) Hi. rewrite Z.land_spec, Z.shiftr_spec, ones_spec by lia. done. Qed.

(** Two-bit numbers. *)
Lemma land3_eq v : Z.land v 3 = Z.b2z (Z.testbit v 0) + 2 * Z.b2z (Z.testbit v 1).
Proof.
  change 3 with (Z.ones 2). rewrite Z.land_ones by lia. change (2 ^ 2) with (2 * 2).
  rewrite Z.rem_mul_r by lia. rewrite <- !Z.bit0_mod, <- Z.div2_div. rewrite Z.div2_spec, Z.shiftr_spec by lia. done.
Qed.

Lemma get_dirty o v : field_ok (o, 2) ->
  bool_decide (get_field (A := ExtensionValue) (o, 2) v = Dirty) = Z.testbit v (o + 1) && Z.testbit v o.
Proof.
  intros Hf. unfold get_field, fv_new, Extension_FieldValue. rewrite land3_eq.
  rewrite !(get_field_bits (o, 2)) by (done || lia). cbn [fst snd]. rewrite (Z.add_comm 0), Z.add_0_r, (Z.add_comm 1).
  by destruct (Z.testbit v (o + 1)), (Z.testbit v o).
Qed.

Lemma mpp_bits m i : 0 <= i < 2 ->
  Z.testbit (raw_bits (get_MPP m)) i = Z.testbit m 11 && (if i =? 1 then Z.testbit m 12 else true).
Proof.
  intros Hi. unfold get_MPP, get_field, fv_new, raw_bits, MPP_FieldValue. rewrite land3_eq.
  rewrite !(get_field_bits MPP) by (done || lia).
  change (0 + MPP.1) with 11. change (1 + MPP.1) with 12. change (0 <? MPP.2) with true. change (1 <? MPP.2) with true.
  assert (i = 0 \/ i = 1) as [-> | ->] by lia; rewrite !andb_true_r; destruct (Z.testbit m 11), (Z.testbit m 12); reflexivity.
Qed.

(** * The WARL rules on bits *)

Definition dirty (b : Z -> bool) : bool := (b 16 && b 15) || (b 14 && b 13) || (b 10 && b 9).
Definition sstatus_bits (b : Z -> bool) (n : Z) : bool :=
  if n =? 63 then dirty b else if (n =? 33) || (n =? 32) then n =? 33 else b n.
Definition mstatus_bits (b : Z -> bool) (n : Z) : bool :=
  if (n =? 35) || (n =? 34) then n =? 35
  else if n =? 12 then b 12 && b 11
  else sstatus_bits b n.

Lemma apply_warl_sstatus_spec m n : 0 <= n < 64 ->
  Z.testbit (apply_warl_sstatus m) n = sstatus_bits (Z.testbit m) n.
Proof.
  intros Hn. unfold apply_warl_sstatus, set_UXL, set_SD. rewrite !set_field_spec by (done || by repeat split).
  unfold get_XS, get_VS, get_FS, XS, VS, FS. rewrite !get_dirty by by repeat split.
  unfold sstatus_bits, in_field, dirty, UXL, SD. cbn [fst snd].
  change (15 + 1) with 16. change (13 + 1) with 14. change (9 + 1) with 10.
  set (d := _ || _). clearbody d.
  destruct (Z.leb_spec 32 n), (Z.ltb_spec n (32 + 2)), (Z.leb_spec 63 n), (Z.ltb_spec n (63 + 1)), (Z.eqb_spec n 63),
    (Z.eqb_spec n 33), (Z.eqb_spec n 32); subst; cbn; try lia; try done; try (by destruct d).
Qed.

Lemma apply_warl_mstatus_spec m n : 0 <= n < 64 ->
  Z.testbit (apply_warl_mstatus m) n = mstatus_bits (Z.testbit m) n.
Proof.
  intros Hn. unfold apply_warl_mstatus. set (s := set_SXL (apply_warl_sstatus m) MXL64).
  assert (Hs : forall k, 0 <= k < 64 ->
    Z.testbit s k = if in_field SXL k then Z.testbit 2 (k - 34) else sstatus_bits (Z.testbit m) k).
  { intros k Hk. unfold s, set_SXL. rewrite set_field_spec by (done || by repeat split).
    by rewrite apply_warl_sstatus_spec. }
  unfold set_MPP. rewrite set_field_spec by (done || by repeat split).
  unfold in_field at 1. cbn [MPP fst snd]. destruct ((11 <=? n) && (n <? 11 + 2)) eqn:E.
  - apply andb_true_iff in E as [?%Z.leb_le ?%Z.ltb_lt]. rewrite mpp_bits by lia. rewrite !Hs by lia.
    clear Hs s. generalize (Z.testbit m). intros b.
    assert (n = 11 \/ n = 12) as [-> | ->] by lia; vm_compute; by destruct (b 11), (b 12).
  - rewrite Hs by done. unfold mstatus_bits, in_field. cbn [SXL fst snd].
    apply andb_false_iff in E as [E%Z.leb_gt|E%Z.ltb_ge];
      destruct (Z.leb_spec 34 n), (Z.ltb_spec n (34 + 2)), (Z.eqb_spec n 35), (Z.eqb_spec n 34), (Z.eqb_spec n 12);
      subst; cbn; try lia; done.
Qed.

Lemma u64_set_field {A} `{FieldValue A} f m (x : A) :
  u64_ok m -> 0 <= raw_bits x -> 0 <= ones f.2 -> u64_ok (set_field f m x).
Proof.
  intros Hm Hx Hw. unfold set_field. apply u64_lor; [apply u64_land; [done|apply u64_not64]|].
  apply u64_shl64. apply Z.land_nonneg. by left.
Qed.

Lemma u64_apply_warl_sstatus m : u64_ok m -> u64_ok (apply_warl_sstatus m).
Proof.
  intros Hm. unfold apply_warl_sstatus, set_UXL, set_SD. apply u64_set_field; [|done..].
  apply u64_set_field; [done| |done]. by destruct (_ || _).
Qed.
Lemma u64_apply_warl_mstatus m : u64_ok m -> u64_ok (apply_warl_mstatus m).
Proof.
  intros Hm. unfold apply_warl_mstatus, set_MPP, set_SXL. apply u64_set_field; [|by destruct (get_MPP _)|done].
  apply u64_set_field; [|done..]. by apply u64_apply_warl_sstatus.
Qed.

(** * Values a register keeps *)

(** Boolean identities at each bit position, the bits of unknown words abstracted. *)
Ltac bit_by_bit :=
  apply bit_cases; repeat (apply Forall_cons; split; [|]); try apply Forall_nil_2;
  vm_compute; repeat match goal with |- context [?b ?k] => is_var b; destruct (b k) end; reflexivity.

Definition masked (mask : Z) (b : Z -> bool) (n : Z) : bool := b n && Z.testbit mask n.

Lemma mstatus_bits_idem b : forall n, 0 <= n < 64 ->
  mstatus_bits (masked WPRI_MASK_MSTATUS (mstatus_bits (masked WPRI_MASK_MSTATUS b))) n =
  mstatus_bits (masked WPRI_MASK_MSTATUS b) n.
Proof. bit_by_bit. Qed.
Lemma sstatus_bits_idem b : forall n, 0 <= n < 64 ->
  sstatus_bits (masked WPRI_MASK_SSTATUS (sstatus_bits (masked WPRI_MASK_SSTATUS b))) n =
  sstatus_bits (masked WPRI_MASK_SSTATUS b) n.
Proof. bit_by_bit. Qed.

Lemma land_all v : u64_ok v -> Z.land v WPRI_MASK_EMPTY = v.
Proof. intros Hv. unfold WPRI_MASK_EMPTY. rewrite Z.land_ones by lia. by apply Z.mod_small. Qed.
Lemma land_idem v mask : Z.land (Z.land v mask) mask = Z.land v mask.
Proof. by rewrite <- Z.land_assoc, Z.land_diag. Qed.

Lemma sstatus_bits_ext b b' n :
  (forall k, 0 <= k < 64 -> b k = b' k) -> 0 <= n < 64 -> sstatus_bits b n = sstatus_bits b' n.
Proof. intros H Hn. unfold sstatus_bits, dirty. by rewrite !H by lia. Qed.
Lemma mstatus_bits_ext b b' n :
  (forall k, 0 <= k < 64 -> b k = b' k) -> 0 <= n < 64 -> mstatus_bits b n = mstatus_bits b' n.
Proof. intros H Hn. unfold mstatus_bits. rewrite (sstatus_bits_ext b b') by done. by rewrite !H by lia. Qed.

(** The bits of the value that is written. *)
Lemma mstatus_written_bits v n : 0 <= n < 64 ->
  Z.testbit (apply_warl_mstatus (Z.land v WPRI_MASK_MSTATUS)) n =
  mstatus_bits (masked WPRI_MASK_MSTATUS (Z.testbit v)) n.
Proof.
  intros Hn. rewrite apply_warl_mstatus_spec by done. apply mstatus_bits_ext; [|done]. intros k Hk. apply Z.land_spec.
Qed.
Lemma sstatus_written_bits v n : 0 <= n < 64 ->
  Z.testbit (apply_warl_sstatus (Z.land v WPRI_MASK_SSTATUS)) n =
  sstatus_bits (masked WPRI_MASK_SSTATUS (Z.testbit v)) n.
Proof.
  intros Hn. rewrite apply_warl_sstatus_spec by done. apply sstatus_bits_ext; [|done]. intros k Hk. apply Z.land_spec.
Qed.

Lemma mstatus_written_u64 v : u64_ok v -> u64_ok (apply_warl_mstatus (Z.land v WPRI_MASK_MSTATUS)).
Proof. intros Hv. by apply u64_apply_warl_mstatus, u64_land. Qed.
Lemma sstatus_written_u64 v : u64_ok v -> u64_ok (apply_warl_sstatus (Z.land v WPRI_MASK_SSTATUS)).
Proof. intros Hv. by apply u64_apply_warl_sstatus, u64_land. Qed.

Lemma mstatus_stable v : u64_ok v ->
  let w := apply_warl_mstatus (Z.land v WPRI_MASK_MSTATUS) in
  apply_warl_mstatus (Z.land w WPRI_MASK_MSTATUS) = w.
Proof.
  intros Hv w. apply bits64_eq; [by repeat apply mstatus_written_u64|by apply mstatus_written_u64|]. intros n Hn.
  unfold w. rewrite !mstatus_written_bits by done. rewrite <- (mstatus_bits_idem (Z.testbit v)) by done.
  apply mstatus_bits_ext; [|done]. intros k Hk. unfold masked at 1. rewrite mstatus_written_bits by done. reflexivity.
Qed.
Lemma sstatus_stable v : u64_ok v ->
  let w := apply_warl_sstatus (Z.land v WPRI_MASK_SSTATUS) in
  apply_warl_sstatus (Z.land w WPRI_MASK_SSTATUS) = w.
Proof.
  intros Hv w. apply bits64_eq; [by repeat apply sstatus_written_u64|by apply sstatus_written_u64|]. intros n Hn.
  unfold w. rewrite !sstatus_written_bits by done. rewrite <- (sstatus_bits_idem (Z.testbit v)) by done.
  apply sstatus_bits_ext; [|done]. intros k Hk. unfold masked at 1. rewrite sstatus_written_bits by done. reflexivity.
Qed.

(** Registers that only clear some bits. *)
Lemma clearing_stable r v w mask :
  u64_ok v -> 0 <= mask -> legal_values r = [] ->
  (forall x, u64_ok x -> transform_warl_fields r (clear_wpri_fields r x) = Some (Z.land x mask)) ->
  make_value_writable r v = Some w -> u64_ok w /\ make_value_writable r w = Some w.
Proof.
  intros Hv Hm Hl Ht. unfold make_value_writable, is_legal. rewrite Hl, Ht by done. cbn.
  intros [= <-]. split; [by apply u64_land|]. rewrite Ht by (by apply u64_land). cbn. by rewrite land_idem.
Qed.

(** Registers that keep a value or refuse it. *)
Lemma keeping_stable r v w :
  u64_ok v -> (forall x, u64_ok x -> transform_warl_fields r (clear_wpri_fields r x) = Some x) ->
  make_value_writable r v = Some w -> u64_ok w /\ make_value_writable r w = Some w.
Proof.
  intros Hv Ht. unfold make_value_writable. rewrite Ht by done. cbn. destruct (is_legal r v) eqn:E; [|done].
  intros [= <-]. split; [done|]. rewrite Ht by done. cbn. by rewrite E.
Qed.

Ltac by_class :=
  match goal with
  | H : u64_ok _ |- make_value_writable _ _ = Some _ -> _ =>
      first
        [ apply keeping_stable; [exact H|]; intros x Hx; unfold clear_wpri_fields; cbn [wpri_mask transform_warl_fields];
          by rewrite land_all
        | eapply clearing_stable; [exact H| |reflexivity|];
          [|intros x Hx; unfold clear_wpri_fields; cbn [wpri_mask transform_warl_fields];
            first [reflexivity|rewrite land_all by done; reflexivity]]; vm_compute; congruence
        | idtac ]
  end.

Lemma make_value_writable_stable r v w :
  u64_ok v -> make_value_writable r v = Some w -> u64_ok w /\ make_value_writable r w = Some w.
Proof.
  intros Hv. destruct r; by_class; unfold make_value_writable, clear_wpri_fields;
    cbn [wpri_mask transform_warl_fields mbind option_bind].
  - intros [= <-]. split; [by apply sstatus_written_u64|]. by rewrite sstatus_stable.
  - rewrite land_all by done. destruct (_ || _ || _) eqn:E; cbn [mbind option_bind].
    + intros [= <-]. split; [done|]. rewrite land_all by done. by rewrite E.
    + destruct (Z.shiftr v SATP_MODE_OFFSET =? SATP_MODE_BARE); cbn; [|discriminate]. intros [= <-]. split; [split; vm_compute; congruence|reflexivity].
  - intros [= <-]. split; [by apply mstatus_written_u64|]. by rewrite mstatus_stable.
  - intros [= <-]. split; [split; vm_compute; congruence|reflexivity].
Qed.

(** * The register file *)

Definition file_ok (s : CSRegisters) : Prop := length s = 4096%nat /\ Forall u64_ok s.
(** The value stored for a register, and the value read from it, are values that it accepts as they are. *)
Definition stored_legal (s : CSRegisters) (r : CSRegister) : Prop :=
  make_value_writable r (region_read s r) = Some (region_read s r).
Definition legal (s : CSRegisters) (r : CSRegister) : Prop :=
  make_value_writable r (csr_read s r) = Some (csr_read s r).

Lemma reg_index_inj r1 r2 : reg_index r1 = reg_index r2 -> r1 = r2.
Proof.
  unfold reg_index. intros H. apply (inj CSRegister.index).
  pose proof (CSRegister.index_range r1). pose proof (CSRegister.index_range r2). lia.
Qed.

Lemma read_write s r v r' : length s = 4096%nat ->
  region_read (region_write s r v) r' = if decide (r' = r) then v else region_read s r'.
Proof.
  intros Hl. unfold region_read, region_write. case_decide as H; [subst|].
  - rewrite list_lookup_insert_eq; [done|]. unfold reg_index. pose proof (CSRegister.index_range r). lia.
  - rewrite list_lookup_insert_ne; [done|]. intros E. by apply reg_index_inj in E.
Qed.

Lemma file_read s r : file_ok s -> u64_ok (region_read s r).
Proof.
  intros [_ Hs]. unfold region_read. destruct (s !! reg_index r) eqn:E; cbn; [|done].
  by apply (Forall_lookup_1 _ _ _ _ Hs E).
Qed.

Lemma file_write s r v : file_ok s -> u64_ok v -> file_ok (region_write s r v).
Proof. intros [Hl Hs] Hv. unfold region_write. split; [by rewrite length_insert|]. by apply Forall_insert. Qed.

(** Writing [sstatus] merges its fields into [mstatus]. *)
Definition merge_status (w m : CSRValue) : CSRValue :=
  Z.lor (sstatus_from_mstatus w) (Z.land m (not64 SSTATUS_FIELDS_MASK)).

Lemma merge_status_u64 w m : u64_ok w -> u64_ok m -> u64_ok (merge_status w m).
Proof. intros Hw Hm. apply u64_lor; apply u64_land; done. Qed.

Lemma merge_status_bits w m n : 0 <= n < 64 ->
  Z.testbit (merge_status w m) n =
  (Z.testbit w n && Z.testbit SSTATUS_FIELDS_MASK n) || (Z.testbit m n && negb (Z.testbit SSTATUS_FIELDS_MASK n)).
Proof.
  intros Hn. unfold merge_status, sstatus_from_mstatus.
  by rewrite Z.lor_spec, !Z.land_spec, not64_spec by done.
Qed.

Definition merged (b c : Z -> bool) (n : Z) : bool :=
  (b n && Z.testbit SSTATUS_FIELDS_MASK n) || (c n && negb (Z.testbit SSTATUS_FIELDS_MASK n)).

Lemma merged_legal b c : forall n, 0 <= n < 64 ->
  mstatus_bits (masked WPRI_MASK_MSTATUS
    (merged (sstatus_bits (masked WPRI_MASK_SSTATUS b)) (mstatus_bits (masked WPRI_MASK_MSTATUS c)))) n =
  merged (sstatus_bits (masked WPRI_MASK_SSTATUS b)) (mstatus_bits (masked WPRI_MASK_MSTATUS c)) n.
Proof. bit_by_bit. Qed.
Lemma sstatus_fields_only b : forall n, 0 <= n < 64 ->
  sstatus_bits (masked WPRI_MASK_SSTATUS b) n && Z.testbit SSTATUS_FIELDS_MASK n =
  sstatus_bits (masked WPRI_MASK_SSTATUS b) n.
Proof. bit_by_bit. Qed.

Lemma merge_legal v m :
  u64_ok v -> u64_ok m -> make_value_writable CSRegister.mstatus m = Some m ->
  make_value_writable CSRegister.mstatus (merge_status (apply_warl_sstatus (Z.land v WPRI_MASK_SSTATUS)) m) =
  Some (merge_status (apply_warl_sstatus (Z.land v WPRI_MASK_SSTATUS)) m).
Proof.
  intros Hv Hm H. injection H as H. cbn. f_equal. unfold clear_wpri_fields in *. cbn [wpri_mask] in *.
  pose proof (sstatus_written_u64 v Hv) as Hw. pose proof (merge_status_u64 _ _ Hw Hm) as Hms.
  apply bits64_eq; [by apply mstatus_written_u64|done|]. intros n Hn.
  assert (Hb : forall k, 0 <= k < 64 -> Z.testbit (merge_status (apply_warl_sstatus (Z.land v WPRI_MASK_SSTATUS)) m) k =
    merged (sstatus_bits (masked WPRI_MASK_SSTATUS (Z.testbit v))) (mstatus_bits (masked WPRI_MASK_MSTATUS (Z.testbit m))) k).
  { intros k Hk. rewrite merge_status_bits, sstatus_written_bits by done. unfold merged.
    rewrite <- (mstatus_written_bits m) by done. by rewrite H. }
  rewrite mstatus_written_bits, Hb, <- merged_legal by done. apply mstatus_bits_ext; [|done].
  intros k Hk. unfold masked at 1 4. by rewrite Hb.
Qed.

Lemma csr_write_eq s reg v :
  csr_write s reg v =
  match make_value_writable reg v with
  | None => s
  | Some w =>
      if decide (reg = CSRegister.sstatus)
      then region_write s CSRegister.mstatus (merge_status w (region_read s CSRegister.mstatus))
      else region_write s reg w
  end.
Proof.
  unfold csr_write. destruct (make_value_writable reg v) as [w|]; [|done].
  case_decide as H; [by subst|]. by destruct reg.
Qed.

Lemma sstatus_writable v : make_value_writable CSRegister.sstatus v =
  Some (apply_warl_sstatus (Z.land v WPRI_MASK_SSTATUS)).
Proof. reflexivity. Qed.

Lemma csr_write_ok s reg v :
  file_ok s -> u64_ok v ->
  file_ok (csr_write s reg v) /\ (forall r, stored_legal s r -> stored_legal (csr_write s reg v) r) /\
  (forall w, reg <> CSRegister.sstatus -> make_value_writable reg v = Some w -> stored_legal (csr_write s reg v) reg).
Proof.
  intros Hs Hv. rewrite csr_write_eq. destruct (make_value_writable reg v) as [w|] eqn:Hw; [|done].
  destruct (make_value_writable_stable reg v w Hv Hw) as [Hwu Hww]. pose proof (file_read s CSRegister.mstatus Hs) as Hm.
  case_decide as Hr; [subst reg|].
  - rewrite sstatus_writable in Hw. injection Hw as <-. split_and!; [|intros r Hl|done].
    + by apply file_write, merge_status_u64.
    + unfold stored_legal in *. rewrite read_write by apply Hs. case_decide as E; [subst|done]. by apply merge_legal.
  - split_and!; [by apply file_write|intros r Hl|intros ? _ _]; unfold stored_legal in *; rewrite read_write by apply Hs.
    + case_decide; [by subst|done].
    + by rewrite decide_True.
Qed.

Lemma csr_read_u64 s r : file_ok s -> u64_ok (csr_read s r).
Proof.
  intros Hs. pose proof (file_read s CSRegister.mstatus Hs) as Hm. pose proof (file_read s r Hs) as Hr.
  unfold csr_read, transform_read, sstatus_from_mstatus. cbn [default].
  destruct r; try exact Hr; by try apply u64_land.
Qed.

Lemma replace_writes s reg v : (csr_replace_value s reg v).2 = csr_write s reg v.
Proof.
  unfold csr_replace_value, csr_write. destruct (make_value_writable reg v); [|done].
  by destruct (transform_write s reg _).
Qed.

(** ** Reads are legal *)

(** [sstatus] is read from [mstatus]; the other registers are what is stored. *)
Lemma legal_stored s r : r <> CSRegister.sstatus -> legal s r <-> stored_legal s r.
Proof. intros Hr. unfold legal, stored_legal. assert (csr_read s r = region_read s r) as -> by (by destruct r). done. Qed.

(** What [sstatus] shows of a legal [mstatus] is legal. *)
Lemma sstatus_of_mstatus b : forall n, 0 <= n < 64 ->
  sstatus_bits (masked WPRI_MASK_SSTATUS (masked SSTATUS_FIELDS_MASK (mstatus_bits (masked WPRI_MASK_MSTATUS b)))) n =
  masked SSTATUS_FIELDS_MASK (mstatus_bits (masked WPRI_MASK_MSTATUS b)) n.
Proof. bit_by_bit. Qed.
Lemma mstatus_shows_legal s : file_ok s -> stored_legal s CSRegister.mstatus -> legal s CSRegister.sstatus.
Proof.
  intros Hs Hl. pose proof (file_read s CSRegister.mstatus Hs) as Hm. unfold legal. rewrite sstatus_writable. unfold csr_read, transform_read. cbn [default].
  unfold stored_legal in Hl. revert Hl Hm. generalize (region_read s CSRegister.mstatus). intros m Hl Hm. injection Hl as Hl.
  unfold clear_wpri_fields in Hl. cbn [wpri_mask] in Hl. f_equal. unfold sstatus_from_mstatus.
  assert (Hb : forall k, 0 <= k < 64 -> Z.testbit m k = mstatus_bits (masked WPRI_MASK_MSTATUS (Z.testbit m)) k)
    by (intros k Hk; by rewrite <- mstatus_written_bits, Hl by done).
  apply bits64_eq; [apply sstatus_written_u64, u64_land; done|by apply u64_land|]. intros n Hn. rewrite sstatus_written_bits, Z.land_spec by done.
  rewrite (Hb n) by done. change (mstatus_bits ?b n && Z.testbit SSTATUS_FIELDS_MASK n) with (masked SSTATUS_FIELDS_MASK (mstatus_bits b) n).
  rewrite <- sstatus_of_mstatus by done. apply sstatus_bits_ext; [|done]. intros k Hk.
  unfold masked at 1 2. f_equal. rewrite Z.land_spec, (Hb k) by done. reflexivity.
Qed.

(** [sstatus] is a view of [mstatus].  A write to [sstatus] is always accepted; it reads back as the
    value with the rules of [sstatus] applied, changes exactly the supervisor fields of [mstatus],
    leaves every other register alone and never uses a storage slot of its own; and a write to [mstatus]
    shows in [sstatus] restricted to the supervisor fields. *)
Theorem sstatus_shadows_mstatus (s : CSRegisters) (v : CSRValue) :
  file_ok s -> u64_ok v ->
  exists w, make_value_writable CSRegister.sstatus v = Some w /\
  let s' := csr_write s CSRegister.sstatus v in
  csr_read s' CSRegister.sstatus = w /\
  Z.land (csr_read s' CSRegister.mstatus) (not64 SSTATUS_FIELDS_MASK) =
    Z.land (csr_read s CSRegister.mstatus) (not64 SSTATUS_FIELDS_MASK) /\
  region_read s' CSRegister.sstatus = region_read s CSRegister.sstatus /\
  (forall r, r <> CSRegister.sstatus -> r <> CSRegister.mstatus -> csr_read s' r = csr_read s r) /\
  csr_read (csr_write s CSRegister.mstatus v) CSRegister.sstatus =
    Z.land (csr_read (csr_write s CSRegister.mstatus v) CSRegister.mstatus) SSTATUS_FIELDS_MASK.
Proof.
  intros Hs Hv. eexists. split; [apply sstatus_writable|]. cbn zeta. rewrite csr_write_eq, sstatus_writable.
  rewrite decide_True by done. set (w := apply_warl_sstatus _). set (m := region_read s CSRegister.mstatus).
  pose proof (sstatus_written_u64 v Hv) as Hw. pose proof (file_read s CSRegister.mstatus Hs) as Hm.
  assert (Hrd : forall r, r <> CSRegister.sstatus -> r <> CSRegister.mstatus -> csr_read s r = region_read s r) by by destruct r.
  split_and!.
  - unfold csr_read, transform_read. cbn [default]. rewrite read_write, decide_True by (done || apply Hs).
    unfold sstatus_from_mstatus. apply bits64_eq; [apply u64_land; [by apply merge_status_u64|done]|done|].
    intros n Hn. rewrite Z.land_spec, merge_status_bits by done.
    unfold w. rewrite sstatus_written_bits by done. rewrite <- (sstatus_fields_only (Z.testbit v)) at 2 by done.
    by destruct (Z.testbit SSTATUS_FIELDS_MASK n); rewrite ?andb_false_r, ?andb_true_r, ?orb_false_r.
  - unfold csr_read, transform_read. cbn [default]. rewrite read_write, decide_True by (done || apply Hs).
    fold m. apply bits64_eq; [apply u64_land; [by apply merge_status_u64|apply u64_not64]|
      apply u64_land; [done|apply u64_not64]|].
    intros n Hn. rewrite !Z.land_spec, merge_status_bits, not64_spec by done.
    by destruct (Z.testbit SSTATUS_FIELDS_MASK n); rewrite ?andb_false_r, ?andb_true_r.
  - by rewrite read_write, decide_False by (done || apply Hs).
  - intros r Hr1 Hr2. rewrite (Hrd r) by done. unfold csr_read, transform_read.
    rewrite <- (decide_False (P := r = CSRegister.mstatus) (merge_status w m) (region_read s r)) by done.
    rewrite <- read_write by apply Hs. by destruct r.
  - reflexivity.
Qed.

(** ** Sequences of operations *)

Inductive csr_op : Set := OWrite (r : CSRegister) (v : CSRValue) | OReplace (r : CSRegister) (v : CSRValue)
  | OSetBits (r : CSRegister) (v : CSRValue) | OClearBits (r : CSRegister) (v : CSRValue).
Definition target (o : csr_op) : CSRegister := match o with OWrite r _ | OReplace r _ | OSetBits r _ | OClearBits r _ => r end.
Definition operand (o : csr_op) : CSRValue := match o with OWrite _ v | OReplace _ v | OSetBits _ v | OClearBits _ v => v end.
Definition run_csr (s : CSRegisters) (o : csr_op) : CSRegisters :=
  match o with
  | OWrite r v => csr_write s r v
  | OReplace r v => (csr_replace_value s r v).2
  | OSetBits r v => (set_bits s r v).2
  | OClearBits r v => (clear_bits s r v).2
  end.

(** Each is a write. *)
Lemma run_csr_write s o : file_ok s -> u64_ok (operand o) -> exists x, u64_ok x /\ run_csr s o = csr_write s (target o) x.
Proof.
  intros Hs Hv. pose proof (csr_read_u64 s (target o) Hs) as Ho. destruct o as [r v|r v|r v|r v]; cbn in *.
  - by exists v.
  - exists v. by rewrite replace_writes.
  - eexists. split; [|reflexivity]. by apply u64_lor.
  - eexists. split; [|reflexivity]. apply u64_land; [done|apply u64_not64].
Qed.

(** The registers whose value after the allocation, zero, they would not accept; they accept every write. *)
Definition born_illegal : list CSRegister := [CSRegister.mstatus; CSRegister.sstatus; CSRegister.misa].
(** A write to [r], or to the register of which it is a view. *)
Definition writes_to (r : CSRegister) (o : csr_op) : Prop := target o = r \/ (r = CSRegister.sstatus /\ target o = CSRegister.mstatus).

Lemma run_csr_ok s o r : file_ok s -> u64_ok (operand o) ->
  file_ok (run_csr s o) /\ (legal s r -> legal (run_csr s o) r) /\ (r ∈ born_illegal -> writes_to r o -> legal (run_csr s o) r).
Proof.
  intros Hs Hv. destruct (run_csr_write s o Hs Hv) as (x&Hx&->). destruct (csr_write_ok s (target o) x Hs Hx) as (Hs'&Hkeep&Hset).
  split; [done|]. destruct (decide (r = CSRegister.sstatus)) as [->|Hr].
  - assert (Hw : writes_to CSRegister.sstatus o -> legal (csr_write s (target o) x) CSRegister.sstatus).
    { intros [E|[_ E]]; rewrite E in *.
      - destruct (sstatus_shadows_mstatus s x Hs Hx) as (w&Hw&Hread&_). unfold legal. rewrite Hread.
        by apply (make_value_writable_stable _ x).
      - apply mstatus_shows_legal; [done|]. by eapply Hset. }
    split; [|by intros _]. intros Hl. destruct (decide (target o = CSRegister.sstatus)) as [E|Hns]; [by apply Hw; left|].
    destruct (decide (target o = CSRegister.mstatus)) as [E|Hnm]; [by apply Hw; right|].
    unfold legal, csr_read, transform_read in *. cbn [default] in *. rewrite csr_write_eq.
    destruct (make_value_writable (target o) x); [|done]. rewrite decide_False, read_write, decide_False by (done || apply Hs || congruence). done.
  - rewrite !legal_stored by done. split; [apply Hkeep|]. intros Hin [E|[-> _]]; [|done]. subst r.
    assert (Hacc : is_Some (make_value_writable (target o) x)); [|destruct Hacc as [w Hw]; by eapply Hset].
    unfold born_illegal in Hin. repeat (apply elem_of_cons in Hin as [E|Hin]; [rewrite E; by eexists|]). by apply not_elem_of_nil in Hin.
Qed.

(** A newly allocated file. *)
Definition zero_file : CSRegisters := repeat 0 4096.
Lemma zero_file_ok : file_ok zero_file.
Proof. split; [apply repeat_length|]. apply Forall_forall. intros x Hx%list_elem_of_In%repeat_spec. by subst. Qed.
Lemma zero_file_read r : region_read zero_file r = 0.
Proof.
  unfold region_read. destruct (zero_file !! reg_index r) as [x|] eqn:E; [|done]. by apply list_elem_of_lookup_2, list_elem_of_In, repeat_spec in E.
Qed.
Lemma zero_file_legal r : r ∉ born_illegal -> legal zero_file r.
Proof.
  intros Hr. assert (Hns : r <> CSRegister.sstatus) by (intros ->; apply Hr; do 2 constructor). rewrite legal_stored by done. unfold stored_legal. rewrite zero_file_read.
  destruct r; first [reflexivity | exfalso; apply Hr; by repeat constructor].
Qed.

(** C28: registers keep the values they would accept.  Let any operations write, replace, set or clear bits of any registers, with any operands.
    The file stays a file of 64-bit values.  A register from which a value is read that respects its reserved (WPRI), any-legal (WARL) and
    legal-only (WLRL) fields, so that writing it again would change nothing, keeps reading such values, whatever the registers written, [sstatus] and [mstatus], which share their storage, included.
    After the allocation of the machine all registers read such values but [mstatus], [sstatus] and [misa], and these do as soon as they are written,
    [sstatus] also when [mstatus] is. *)
Theorem csr_values_stay_legal (s : CSRegisters) (ops : list csr_op) (r : CSRegister) :
  file_ok s -> Forall (fun o => u64_ok (operand o)) ops ->
  let s' := foldl run_csr s ops in
  file_ok s' /\ (legal s r -> legal s' r) /\ (s = zero_file -> r ∉ born_illegal -> legal s' r) /\
  (r ∈ born_illegal -> Exists (writes_to r) ops -> legal s' r).
Proof.
  intros Hs Hops. cbn zeta. assert (H : file_ok (foldl run_csr s ops) /\ (legal s r \/ (r ∈ born_illegal /\ Exists (writes_to r) ops) -> legal (foldl run_csr s ops) r)).
  { revert s Hs. induction Hops as [|o ops Ho Hops IH]; intros s Hs; cbn [foldl]; [split; [done|]; intros [H|[_ H%Exists_nil]]; done|].
    destruct (run_csr_ok s o r Hs Ho) as (Hs1&Hkeep&Hset). destruct (IH _ Hs1) as [Hf Hl]. split; [done|].
    intros [H|[Hin [H|H]%Exists_cons]]; apply Hl; auto. }
  destruct H as [Hf Hl]. split_and!; [done|auto| |auto]. intros -> Hr. apply Hl. left. by apply zero_file_legal.
Qed.

Lemma csr_values_stay_legal_witness :
  let s := foldl run_csr zero_file [OWrite CSRegister.mstatus 0xFFFF; OSetBits CSRegister.mtvec 3; OReplace CSRegister.sstatus 2] in
  legal s CSRegister.mtvec /\ legal s CSRegister.mstatus /\ legal s CSRegister.sstatus.
Proof.
  assert (Hops : Forall (fun o => u64_ok (operand o)) [OWrite CSRegister.mstatus 0xFFFF; OSetBits CSRegister.mtvec 3; OReplace CSRegister.sstatus 2])
    by (repeat constructor; vm_compute; congruence).
  split; [|split].
  - refine (proj1 (proj2 (proj2 (csr_values_stay_legal zero_file _ CSRegister.mtvec zero_file_ok Hops))) eq_refl _).
    intros H. repeat (apply elem_of_cons in H as [H|H]; [discriminate H|]). by apply not_elem_of_nil in H.
  - refine (proj2 (proj2 (proj2 (csr_values_stay_legal zero_file _ CSRegister.mstatus zero_file_ok Hops))) _ _); [by repeat constructor|].
    apply Exists_cons_hd. by left.
  - refine (proj2 (proj2 (proj2 (csr_values_stay_legal zero_file _ CSRegister.sstatus zero_file_ok Hops))) _ _); [by repeat constructor|].
    apply Exists_cons_hd. right. by split.
Defined.

Lemma sstatus_shadows_mstatus_witness :
  exists w, make_value_writable CSRegister.sstatus 0xFFFF = Some w /\
    csr_read (csr_write zero_file CSRegister.sstatus 0xFFFF) CSRegister.sstatus = w.
Proof.
  destruct (sstatus_shadows_mstatus zero_file 0xFFFF zero_file_ok) as (w&Hw&H&_); [done|].
  exists w. split; [exact Hw|exact H].
Defined.

Lemma replace_value_eq s reg v :
  (csr_replace_value s reg v).1 =
  if decide (reg = CSRegister.mstatus \/ reg = CSRegister.sstatus) then csr_read s reg
  else csr_read (csr_write s reg v) reg.
Proof.
  unfold csr_replace_value, csr_write. destruct (make_value_writable reg v) as [w|]; [|by case_decide].
  case_decide as H; [destruct H; by subst|]. destruct reg; try done; destruct H; auto.
Qed.

(** [CSRegisters::replace] writes like [write] but does not return what its documentation says.
    It returns the previous value of [mstatus] and [sstatus] only; for every other register it reads the
    register again after the write, and returns the new value. *)
Theorem replace_returns_new_value (s : CSRegisters) (reg : CSRegister) (v w : CSRValue) :
  file_ok s -> make_value_writable reg v = Some w ->
  (csr_replace_value s reg v).2 = csr_write s reg v /\
  (csr_replace_value s reg v).1 =
    if decide (reg = CSRegister.mstatus \/ reg = CSRegister.sstatus) then csr_read s reg else w.
Proof.
  intros Hs Hw. split; [apply replace_writes|]. rewrite replace_value_eq. case_decide as H; [done|].
  assert (Hns : reg <> CSRegister.sstatus) by tauto. assert (Hnm : reg <> CSRegister.mstatus) by tauto.
  rewrite csr_write_eq, Hw, decide_False by done.
  transitivity (region_read (region_write s reg w) reg); [by destruct reg|].
  by rewrite read_write, decide_True by (done || apply Hs).
Qed.

Lemma replace_returns_new_value_witness :
  csr_read zero_file CSRegister.mscratch = 0 /\ (csr_replace_value zero_file CSRegister.mscratch 42).1 = 42.
Proof.
  split; [reflexivity|].
  exact (proj2 (replace_returns_new_value zero_file CSRegister.mscratch 42 42 zero_file_ok eq_refl)).
Defined.
