(* ===== verification/RiscvHart.v ===== *)
(** The hart of the RISC-V machine.

    Models [src/risc_v/machine_state/src/registers.rs], [mode.rs], the instructions of
    [interpreter/rv32i.rs] and [interpreter/rv64i.rs], and the CSR instructions of [lib.rs].
    The registers of a hart are the regions the backend allocates for them; a floating-point
    value is its 64 bits. *)

From S2P Require Import Prelude Words RiscvCsr RiscvCsrProps.
#[local] Open Scope Z_scope.

(** * Registers (registers.rs) *)

Inductive XRegister : Set :=
  | x0 | x1 | x2 | x3 | x4 | x5 | x6 | x7 | x8 | x9 | x10 | x11 | x12 | x13 | x14 | x15 | x16 | x17 | x18 | x19 | x20
  | x21 | x22 | x23 | x24 | x25 | x26 | x27 | x28 | x29 | x30 | x31.
#[global] Instance XRegister_eq_dec : EqDecision XRegister.
Proof. solve_decision. Defined.
(** [as usize]: the index in the array of 31 registers, and a dummy for [x0]. *)
Definition xreg_index (r : XRegister) : nat :=
  match r with
  | x0 => Z.to_nat 0xFFFF
  | x1 => 0 | x2 => 1 | x3 => 2 | x4 => 3 | x5 => 4 | x6 => 5 | x7 => 6 | x8 => 7 | x9 => 8 | x10 => 9 | x11 => 10
  | x12 => 11 | x13 => 12 | x14 => 13 | x15 => 14 | x16 => 15 | x17 => 16 | x18 => 17 | x19 => 18 | x20 => 19
  | x21 => 20 | x22 => 21 | x23 => 22 | x24 => 23 | x25 => 24 | x26 => 25 | x27 => 26 | x28 => 27 | x29 => 28
  | x30 => 29 | x31 => 30
  end%nat.
Definition is_zero (r : XRegister) : bool := bool_decide (r = x0).

Inductive FRegister : Set :=
  | f0 | f1 | f2 | f3 | f4 | f5 | f6 | f7 | f8 | f9 | f10 | f11 | f12 | f13 | f14 | f15 | f16 | f17 | f18 | f19 | f20
  | f21 | f22 | f23 | f24 | f25 | f26 | f27 | f28 | f29 | f30 | f31.
Definition freg_index (r : FRegister) : nat :=
  match r with
  | f0 => 0 | f1 => 1 | f2 => 2 | f3 => 3 | f4 => 4 | f5 => 5 | f6 => 6 | f7 => 7 | f8 => 8 | f9 => 9 | f10 => 10
  | f11 => 11 | f12 => 12 | f13 => 13 | f14 => 14 | f15 => 15 | f16 => 16 | f17 => 17 | f18 => 18 | f19 => 19
  | f20 => 20 | f21 => 21 | f22 => 22 | f23 => 23 | f24 => 24 | f25 => 25 | f26 => 26 | f27 => 27 | f28 => 28
  | f29 => 29 | f30 => 30 | f31 => 31
  end%nat.

Abbreviation XValue := Z.
Abbreviation XRegisters := (list XValue).
Abbreviation FRegisters := (list Z).

(** [XRegisters::read], [XRegisters::write]. *)
Definition x_read (s : XRegisters) (reg : XRegister) : XValue :=
  if is_zero reg then 0 else default 0 (s !! xreg_index reg).
Definition x_write (s : XRegisters) (reg : XRegister) (val : XValue) : XRegisters :=
  if is_zero reg then s else <[xreg_index reg := val]> s.
(** [FRegisters::read], [FRegisters::write]. *)
Definition f_read (s : FRegisters) (reg : FRegister) : Z := default 0 (s !! freg_index reg).
Definition f_write (s : FRegisters) (reg : FRegister) (val : Z) : FRegisters := <[freg_index reg := val]> s.

(** * The mode (mode.rs) *)

(** [as u8]. *)
Definition mode_code (m : Mode) : Z :=
  match m with Mode_User => 0 | Mode_Supervisor => 1 | Mode_Machine => 3 | Mode_Debug => 4 end.
(** [Mode::try_from]. *)
Definition mode_try_from (value : Z) : option Mode :=
  match value with
  | 0 => Some Mode_User
  | 1 => Some Mode_Supervisor
  | 3 => Some Mode_Machine
  | 4 => Some Mode_Debug
  | _ => None
  end.
(** [ModeCell::read]; the cell holds a byte. *)
Definition mode_read {E} (cell : Z) : outcome E Mode := expect PUnwrap (mode_try_from cell).

(** * Integer instructions *)

(** [as i32 as u64]: sign extension of the low 32 bits. *)
Definition as_i32 (z : Z) : Z := let l := z mod 2 ^ 32 in if l <? 2 ^ 31 then l else l - 2 ^ 32.

(** [run_addi], [run_addiw]; [imm] is an [i64]. *)
Definition run_addi (imm : Z) (rs1 rd : XRegister) (s : XRegisters) : XRegisters :=
  let rval := x_read s rs1 in
  let result := wrap64 (rval + wrap64 imm) in
  x_write s rd result.
Definition run_addiw (imm : Z) (rs1 rd : XRegister) (s : XRegisters) : XRegisters :=
  let rval := x_read s rs1 in
  let result := wrap64 (rval + wrap64 imm) in
  let result := wrap64 (as_i32 result) in
  x_write s rd result.

(** * The hart and the CSR instructions (lib.rs) *)

Record HartState : Type := mkHart {
  xregisters : XRegisters;
  fregisters : FRegisters;
  csregisters : CSRegisters;
  mode : Z
}.

Definition set_xregisters (x : XRegisters) (h : HartState) : HartState :=
  mkHart x (fregisters h) (csregisters h) (mode h).
Definition set_csregisters (c : CSRegisters) (h : HartState) : HartState :=
  mkHart (xregisters h) (fregisters h) c (mode h).

Abbreviation hartM := (M HartState Exception).

(** Operations on the parts of the hart. *)
Definition xregs_read (r : XRegister) : hartM XValue := h ← get; mret (x_read (xregisters h) r).
Definition xregs_write (r : XRegister) (v : XValue) : hartM unit := fun h =>
  (Ok tt, set_xregisters (x_write (xregisters h) r v) h).
Definition csrs {A} (f : CSRegisters -> A * CSRegisters) : hartM A := fun h =>
  let '(a, c) := f (csregisters h) in (Ok a, set_csregisters c h).
Definition current_mode : hartM Mode := h ← get; lift (mode_read (mode h)).

Definition csr_replace (csr : CSRegister) (value : XValue) (rd : XRegister) : hartM unit :=
  mode ← current_mode;
  _ ← lift (check_privilege csr mode);
  _ ← lift (check_write csr);
  if is_zero rd then csrs (fun s => (tt, csr_write s csr value))
  else
    old ← csrs (fun s => csr_replace_value s csr value);
    xregs_write rd old.

Definition csrrw (csr : CSRegister) (rs1 rd : XRegister) : hartM unit :=
  value ← xregs_read rs1;
  csr_replace csr value rd.
Definition csrrwi (csr : CSRegister) (imm : XValue) (rd : XRegister) : hartM unit :=
  csr_replace csr (Z.land imm 31) rd.

Definition csrrs (csr : CSRegister) (rs1 rd : XRegister) : hartM unit :=
  mode ← current_mode;
  _ ← lift (check_privilege csr mode);
  old ← (if is_zero rs1 then csrs (fun s => (csr_read s csr, s))
         else
           _ ← lift (check_write csr);
           value ← xregs_read rs1;
           csrs (fun s => set_bits s csr value));
  xregs_write rd old.
Definition csrrsi (csr : CSRegister) (imm : XValue) (rd : XRegister) : hartM unit :=
  let imm := Z.land imm 31 in
  mode ← current_mode;
  _ ← lift (check_privilege csr mode);
  old ← (if imm =? 0 then csrs (fun s => (csr_read s csr, s))
         else
           _ ← lift (check_write csr);
           csrs (fun s => set_bits s csr imm));
  xregs_write rd old.

Definition csrrc (csr : CSRegister) (rs1 rd : XRegister) : hartM unit :=
  mode ← current_mode;
  _ ← lift (check_privilege csr mode);
  old ← (if is_zero rs1 then csrs (fun s => (csr_read s csr, s))
         else
           _ ← lift (check_write csr);
           value ← xregs_read rs1;
           csrs (fun s => clear_bits s csr value));
  xregs_write rd old.
Definition csrrci (csr : CSRegister) (imm : XValue) (rd : XRegister) : hartM unit :=
  let imm := Z.land imm 31 in
  mode ← current_mode;
  _ ← lift (check_privilege csr mode);
  old ← (if imm =? 0 then csrs (fun s => (csr_read s csr, s))
         else
           _ ← lift (check_write csr);
           csrs (fun s => clear_bits s csr imm));
  xregs_write rd old.

(** * Registers: laws *)

Definition xfile_ok (s : XRegisters) : Prop := length s = 31%nat /\ Forall u64_ok s.

Lemma xreg_index_lt r : r <> x0 -> (xreg_index r < 31)%nat.
Proof. destruct r; cbn; try lia. done. Qed.
Lemma xreg_index_inj r1 r2 : r1 <> x0 -> r2 <> x0 -> xreg_index r1 = xreg_index r2 -> r1 = r2.
Proof. intros H1 H2 H. destruct r1; try done; destruct r2; try done; cbn in H; lia. Qed.

Lemma x_read_write s r v r' : length s = 31%nat ->
  x_read (x_write s r v) r' = if decide (r' = r /\ r <> x0) then v else x_read s r'.
Proof.
  intros Hl. unfold x_read, x_write, is_zero. destruct (decide (r' = r /\ r <> x0)) as [[-> Hr]|Hn].
  - rewrite !bool_decide_eq_false_2 by done. rewrite list_lookup_insert_eq; [done|]. rewrite Hl. by apply xreg_index_lt.
  - case_bool_decide as H1; [done|]. case_bool_decide as H2; [done|].
    rewrite list_lookup_insert_ne; [done|]. intros E%xreg_index_inj; naive_solver.
Qed.

Lemma x_read_u64 s r : xfile_ok s -> u64_ok (x_read s r).
Proof.
  intros [_ Hs]. unfold x_read. destruct (is_zero r); [done|].
  destruct (s !! xreg_index r) eqn:E; cbn; [|done]. by apply (Forall_lookup_1 _ _ _ _ Hs E).
Qed.
Lemma x_write_ok s r v : xfile_ok s -> u64_ok v -> xfile_ok (x_write s r v).
Proof.
  intros [Hl Hs] Hv. unfold x_write. destruct (is_zero r); [done|].
  split; [by rewrite length_insert|]. by apply Forall_insert.
Qed.

(** * Integer instructions: correctness *)

Lemma wrap64_mod32 z : wrap64 z mod 2 ^ 32 = z mod 2 ^ 32.
Proof.
  unfold wrap64. change (2 ^ 64) with (2 ^ 32 * 2 ^ 32). rewrite Z.rem_mul_r by lia.
  rewrite (Z.mul_comm (2 ^ 32)), Z.mod_add by lia. by apply Z.mod_mod.
Qed.

(** The integer registers and the additions.  [ADDI] leaves in [rd] the sum modulo [2^64] of the
    register and the sign-extended immediate, [ADDIW] the 32-bit sum of their low halves, sign-extended;
    every other register keeps its value, and [x0] reads zero whatever is written to it. *)
Theorem additions_correct (s : XRegisters) (imm : Z) (rs1 rd r : XRegister) :
  xfile_ok s -> - 2 ^ 63 <= imm < 2 ^ 63 ->
  let a := x_read s rs1 in
  xfile_ok (run_addi imm rs1 rd s) /\ xfile_ok (run_addiw imm rs1 rd s) /\
  x_read (run_addi imm rs1 rd s) r =
    (if decide (r = x0) then 0 else if decide (r = rd) then (a + imm) mod 2 ^ 64 else x_read s r) /\
  x_read (run_addiw imm rs1 rd s) r =
    (if decide (r = x0) then 0
     else if decide (r = rd) then as_i32 ((a mod 2 ^ 32 + imm mod 2 ^ 32) mod 2 ^ 32) mod 2 ^ 64
     else x_read s r).
Proof.
  intros Hs Hi a. unfold run_addi, run_addiw. fold a.
  assert (H0 : forall t, x_read t x0 = 0) by done.
  assert (Hsum : wrap64 (a + wrap64 imm) = (a + imm) mod 2 ^ 64) by (apply Z.add_mod_idemp_r; lia).
  assert (Hw : wrap64 (as_i32 (wrap64 (a + wrap64 imm))) = as_i32 ((a mod 2 ^ 32 + imm mod 2 ^ 32) mod 2 ^ 32) mod 2 ^ 64).
  { unfold wrap64 at 1. f_equal. unfold as_i32. rewrite wrap64_mod32. rewrite Z.mod_mod by lia.
    rewrite <- (Z.add_mod_idemp_r a), wrap64_mod32 by lia. by rewrite Z.add_mod_idemp_l by lia. }
  split_and!; try (apply x_write_ok; [done|apply u64_wrap64]);
    rewrite x_read_write by apply Hs; (destruct (decide (r = x0)) as [->|Hr]; [rewrite decide_False by naive_solver; apply H0|]);
    destruct (decide (r = rd)) as [->|Hn]; [rewrite decide_True by done|rewrite decide_False by naive_solver|
      rewrite decide_True by done|rewrite decide_False by naive_solver]; done.
Qed.

Definition zero_xfile : XRegisters := repeat 0 31.
Lemma zero_xfile_ok : xfile_ok zero_xfile.
Proof. split; [done|]. repeat constructor; done. Qed.

Lemma additions_correct_witness :
  x_read (run_addiw (-1) x0 x10 zero_xfile) x10 = 2 ^ 64 - 1.
Proof.
  pose proof (proj2 (proj2 (proj2 (additions_correct zero_xfile (-1) x0 x10 x10 zero_xfile_ok ltac:(lia))))) as H.
  rewrite H. reflexivity.
Defined.

(** * CSR instructions: correctness *)

(** Bits 9:8 of a register number are the privilege it needs, bits 11:10 are set for
    read-only registers. *)
Definition needed (csr : CSRegister) : Z := Z.land (Z.shiftr (CSRegister.index csr) 8) 3.

Lemma privilege_bits (csr : CSRegister) : exists p, privilege (E := Exception) csr = Ok p /\ privilege_rank p = needed csr.
Proof. destruct csr; eexists; split; vm_compute; reflexivity. Qed.

Definition hart_ok (h : HartState) : Prop :=
  xfile_ok (xregisters h) /\ file_ok (csregisters h) /\ is_Some (mode_try_from (mode h)).

(** Access to [csr] is refused: not enough privilege, or a write to a read-only register. *)
Definition denied (m : Mode) (csr : CSRegister) (writes : bool) : bool :=
  (privilege_rank (mode_privilege m) <? needed csr) || (writes && is_read_only csr).

(** What a CSR instruction does: nothing when it is refused; otherwise it puts [old] in [rd] and [cs] in
    the register file, and touches nothing else. *)
Definition csr_effect (h : HartState) (m : Mode) (csr : CSRegister) (writes : bool) (rd : XRegister)
    (old : XValue) (cs : CSRegisters) (run : hartM unit) : Prop :=
  if denied m csr writes then run h = (Err IllegalInstruction, h)
  else exists h', run h = (Ok tt, h') /\ hart_ok h' /\ csregisters h' = cs /\
    fregisters h' = fregisters h /\ mode h' = mode h /\
    forall r, x_read (xregisters h') r = if decide (r = rd /\ rd <> x0) then old else x_read (xregisters h) r.

Lemma check_privilege_eq csr m :
  check_privilege csr m = if privilege_rank (mode_privilege m) <? needed csr then Err IllegalInstruction else Ok tt.
Proof. destruct (privilege_bits csr) as (p&Hp&Hr). unfold check_privilege. rewrite Hp. cbn. by rewrite Hr. Qed.

Lemma csr_effect_done h m csr writes rd old cs run :
  hart_ok h -> denied m csr writes = false -> u64_ok old -> file_ok cs ->
  run h = (Ok tt, set_xregisters (x_write (xregisters h) rd old) (set_csregisters cs h)) ->
  csr_effect h m csr writes rd old cs run.
Proof.
  intros (Hx&Hc&Hm) Hd Hold Hcs Hrun. unfold csr_effect. rewrite Hd. eexists. split; [exact Hrun|].
  split_and!; try done; [split_and!; [by apply x_write_ok|done|done]|].
  intros r. apply x_read_write, Hx.
Qed.

Lemma current_mode_run h m : mode_try_from (mode h) = Some m -> current_mode h = (Ok m, h).
Proof. intros Hm. unfold current_mode, get, mbind, M_bind, lift, mode_read, expect. by rewrite Hm. Qed.

(** The checks at the start of an instruction. *)
Lemma checks_run {A} h m csr writes (k : hartM A) :
  mode_try_from (mode h) = Some m ->
  (mode ← current_mode; _ ← lift (check_privilege csr mode);
   _ ← lift (match writes with true => check_write csr | false => Ok tt end); k) h =
  if denied m csr writes then (Err IllegalInstruction, h) else k h.
Proof.
  intros Hm. unfold mbind at 1, M_bind. rewrite (current_mode_run h m Hm).
  unfold mbind, M_bind, lift. rewrite check_privilege_eq. unfold denied, check_write.
  destruct (_ <? _); [done|]. destruct writes; [|done]. by destruct (is_read_only csr).
Qed.

Lemma csr_effect_intro h m csr writes rd old cs run (k : hartM unit) :
  hart_ok h -> mode_try_from (mode h) = Some m -> u64_ok old -> file_ok cs ->
  run h = (mode ← current_mode; _ ← lift (check_privilege csr mode);
           _ ← lift (match writes with true => check_write csr | false => Ok tt end); k) h ->
  k h = (Ok tt, set_xregisters (x_write (xregisters h) rd old) (set_csregisters cs h)) ->
  csr_effect h m csr writes rd old cs run.
Proof.
  intros Hh Hm Hold Hcs Hrun Hk. rewrite checks_run with (m := m) in Hrun by done.
  unfold csr_effect. destruct (denied m csr writes) eqn:Hd; [done|].
  pose proof (csr_effect_done h m csr writes rd old cs run Hh Hd Hold Hcs) as H. unfold csr_effect in H. rewrite Hd in H.
  apply H. congruence.
Qed.

Lemma csr_replace_effect h m csr v rd :
  hart_ok h -> mode_try_from (mode h) = Some m -> u64_ok v ->
  csr_effect h m csr true rd (csr_replace_value (csregisters h) csr v).1 (csr_write (csregisters h) csr v)
    (csr_replace csr v rd).
Proof.
  intros Hh Hm Hv. destruct (csr_write_ok (csregisters h) csr v) as (Hf&_&_); [apply Hh|done|].
  assert (Ho : u64_ok (csr_replace_value (csregisters h) csr v).1).
  { rewrite replace_value_eq. case_decide; apply csr_read_u64; [apply Hh|done]. }
  eapply csr_effect_intro; [done..|reflexivity|]. unfold csrs, xregs_write, mbind, M_bind.
  pose proof (replace_writes (csregisters h) csr v) as Hw.
  destruct (is_zero rd) eqn:Hz.
  - unfold x_write. rewrite Hz. by destruct h.
  - destruct (csr_replace_value (csregisters h) csr v) as [o c]. cbn in *. by subst.
Qed.

(** [CSRRS], [CSRRC] and their immediate forms: [f] sets or clears the bits. *)
Lemma csr_bits_effect (f : CSRegisters -> CSRegister -> CSRValue -> CSRValue * CSRegisters) (g : Z -> Z) h m csr v (writes : bool) rd (run : hartM unit) :
  (forall s, f s csr v = (csr_read s csr, csr_write s csr (g (csr_read s csr)))) ->
  (forall o, u64_ok o -> u64_ok (g o)) ->
  hart_ok h -> mode_try_from (mode h) = Some m ->
  run h = (mode ← current_mode; _ ← lift (check_privilege csr mode);
           _ ← lift (match writes with true => check_write csr | false => Ok tt end);
           old ← csrs (fun s => match writes with true => f s csr v | false => (csr_read s csr, s) end); xregs_write rd old) h ->
  let old := csr_read (csregisters h) csr in
  csr_effect h m csr writes rd old (match writes with true => csr_write (csregisters h) csr (g old) | false => csregisters h end) run.
Proof.
  intros Hf Hg Hh Hm Hrun old. pose proof Hh as (_&Hc&_).
  pose proof (csr_read_u64 (csregisters h) csr Hc) as Hold.
  eapply csr_effect_intro; [done|done|done| |exact Hrun|].
  - destruct writes; [|done]. apply csr_write_ok; [done|by apply Hg].
  - unfold csrs, xregs_write, mbind, M_bind. destruct writes; [rewrite Hf|]; done.
Qed.

Ltac same_run instr cond :=
  unfold instr; cbv zeta; unfold mbind, M_bind, lift;
  match goal with Hm : mode_try_from _ = Some _ |- _ => rewrite !(current_mode_run _ _ Hm) end;
  match goal with |- context [check_privilege ?c ?m] => destruct (check_privilege c m) as [[]| | |] end; try reflexivity;
  repeat match goal with x := Z.land _ 31 |- _ => fold x end;
  destruct cond; cbn [negb]; [reflexivity|];
  match goal with |- context [check_write ?c] => destruct (check_write c) as [[]| | |] end; reflexivity.

(** The CSR instructions.  An access without the privilege encoded in bits 9:8 of the register
    number, or a write to a register whose bits 11:10 mark it read-only, raises an illegal instruction
    and changes nothing; [CSRRS] and [CSRRC] with [x0], and their immediate forms with 0, are not writes.
    Otherwise the old value (for [CSRRW], what [replace] returns) goes to [rd], unless that is [x0], the
    register gets the value written, with the bits set, or cleared, subject to the rules of the
    register, and nothing else changes. *)
Theorem csr_instructions_correct (h : HartState) (m : Mode) (csr : CSRegister) (rs1 rd : XRegister) (imm : XValue) :
  hart_ok h -> mode_try_from (mode h) = Some m -> u64_ok imm ->
  let cs := csregisters h in
  let old := csr_read cs csr in
  let v := x_read (xregisters h) rs1 in
  let i := Z.land imm 31 in
  let w := negb (is_zero rs1) in
  let wi := negb (i =? 0) in
  csr_effect h m csr true rd (csr_replace_value cs csr v).1 (csr_write cs csr v) (csrrw csr rs1 rd) /\
  csr_effect h m csr true rd (csr_replace_value cs csr i).1 (csr_write cs csr i) (csrrwi csr imm rd) /\
  csr_effect h m csr w rd old (if w then csr_write cs csr (Z.lor old v) else cs) (csrrs csr rs1 rd) /\
  csr_effect h m csr wi rd old (if wi then csr_write cs csr (Z.lor old i) else cs) (csrrsi csr imm rd) /\
  csr_effect h m csr w rd old (if w then csr_write cs csr (Z.land old (not64 v)) else cs) (csrrc csr rs1 rd) /\
  csr_effect h m csr wi rd old (if wi then csr_write cs csr (Z.land old (not64 i)) else cs) (csrrci csr imm rd).
Proof.
  intros Hh Hm Hi. cbn zeta. set (v := x_read (xregisters h) rs1). set (i := Z.land imm 31).
  assert (Hv : u64_ok v) by (apply x_read_u64, Hh). assert (Hiu : u64_ok i) by (apply u64_land; done).
  split_and!.
  - by apply (csr_replace_effect h m csr v rd).
  - by apply (csr_replace_effect h m csr i rd).
  - apply (csr_bits_effect set_bits (fun o => Z.lor o v) h m csr v); try done; [intros; by apply u64_lor|].
    same_run csrrs (is_zero rs1).
  - apply (csr_bits_effect set_bits (fun o => Z.lor o i) h m csr i); try done; [intros; by apply u64_lor|].
    same_run csrrsi (i =? 0).
  - apply (csr_bits_effect clear_bits (fun o => Z.land o (not64 v)) h m csr v); try done;
      [intros; apply u64_land; [done|apply u64_not64]|]. same_run csrrc (is_zero rs1).
  - apply (csr_bits_effect clear_bits (fun o => Z.land o (not64 i)) h m csr i); try done;
      [intros; apply u64_land; [done|apply u64_not64]|]. same_run csrrci (i =? 0).
Qed.

Definition zero_hart : HartState := mkHart zero_xfile (repeat 0 32) zero_file 3.

Lemma csr_instructions_correct_witness :
  csr_effect zero_hart Mode_Machine CSRegister.mscratch true x5
    0 (csr_write zero_file CSRegister.mscratch 12) (csrrsi CSRegister.mscratch 12 x5).
Proof.
  assert (Hh : hart_ok zero_hart).
  { split; [exact zero_xfile_ok|]. split; [exact zero_file_ok|]. eexists. reflexivity. }
  assert (Hi : u64_ok 12) by (clear; done).
  pose proof (proj1 (proj2 (proj2 (proj2
    (csr_instructions_correct zero_hart Mode_Machine CSRegister.mscratch x0 x5 12 Hh eq_refl Hi))))) as H.
  exact H.
Defined.
