(* ===== verification/RiscvLayout.v ===== *)
(** Placement of the machine state in the backend storage.

    Models [src/risc_v/machine_state/src/backend/alloc.rs] ([Choreographer]) and [layout.rs].
    A layout type is a tree: [Alloc] is an [Atom] or an [Array], which allocate one
    location of a size and an alignment; [Tuple] is a tuple or an array of layouts;
    [Overlapping] is [Choreographer::overlapping] of two layouts.

    The alignment hooks of [overlapping] are closures that share [Rc<RefCell<_>>] cells:
    here they are data ([hook]), with the cells they capture as indices in a heap, and
    [run_hook] is their body. *)

From S2P Require Import Prelude.
#[local] Set Warnings "-register-all".
#[local] Open Scope N_scope.

Inductive layout : Set :=
  | Alloc (size align : N)
  | Tuple (l : list layout)
  | Overlapping (top bottom : layout).

(** [L::Placed]: the locations, with their sizes. *)
Inductive placed : Set :=
  | Loc (offset size : N)
  | Locs (l : list placed)
  | Both (top bottom : placed).

(** [align_address]. *)
Definition align_address (address align : N) : N :=
  let offset := address mod align in
  if 0 <? offset then address + (align - offset) else address.

(** [top_hook] and [bottom_hook]. *)
Inductive hook : Set :=
  | TopHook (first_unallocated_byte max_align : N) (bottom r2_cell self_hook : nat)
  | BottomHook (top_alignment self_hook : nat).

Record Choreographer : Set := mkChoreographer {
  first_unallocated_byte : N;
  max_align : N;
  one_time_align_hook : option hook
}.
Definition choreographer_new : Choreographer := mkChoreographer 0 1 None.

(** Shared cells. *)
Inductive cell : Set :=
  | CLayout (o : option layout)
  | CResult (o : option (Choreographer * placed))
  | CHook (o : option hook)
  | CAlign (n : N).
Abbreviation heap := (list cell).
Abbreviation layM := (M heap Empty_set).

Definition new_cell (c : cell) : layM nat := fun h => (Ok (length h), h ++ [c]).
Definition set_cell (i : nat) (c : cell) : layM unit := fun h => (Ok tt, <[i := c]> h).
(** [cell.borrow_mut().take()] for each kind of cell. *)
Definition take_hook (i : nat) : layM (option hook) := fun h =>
  match h !! i with Some (CHook o) => (Ok o, <[i := CHook None]> h) | _ => (Panic PUnwrap, h) end.
Definition take_layout (i : nat) : layM (option layout) := fun h =>
  match h !! i with Some (CLayout o) => (Ok o, <[i := CLayout None]> h) | _ => (Panic PUnwrap, h) end.
Definition take_result (i : nat) : layM (option (Choreographer * placed)) := fun h =>
  match h !! i with Some (CResult o) => (Ok o, <[i := CResult None]> h) | _ => (Panic PUnwrap, h) end.
Definition get_align (i : nat) : layM N := fun h =>
  match h !! i with Some (CAlign n) => (Ok n, h) | _ => (Panic PUnwrap, h) end.
Definition unwrap {A} (o : option A) : layM A := lift (expect PUnwrap o).
Definition assert (b : bool) : layM unit := if b then mret tt else panicked PUnwrap.

Section place.
(** Placing a sub-layout and calling a hook. *)
Context (place_with : layout -> Choreographer -> layM (placed * Choreographer)).
Context (call_hook : hook -> N -> layM N).

Definition run_hook_step (k : hook) (align : N) : layM N :=
  match k with
  | TopHook first max bottom r2_cell self_hook =>
      top_alignment ← new_cell (CAlign align);
      let state := mkChoreographer first max (Some (BottomHook top_alignment self_hook)) in
      b ← take_layout bottom;
      b ← unwrap b;
      '(r2, state) ← place_with b state;
      _ ← set_cell r2_cell (CResult (Some (state, r2)));
      top_alignment ← get_align top_alignment;
      self_hook ← take_hook self_hook;
      match self_hook with
      | Some self_hook => call_hook self_hook top_alignment
      | None => mret top_alignment
      end
  | BottomHook top_alignment self_hook =>
      top ← get_align top_alignment;
      let a := N.max align top in
      self_hook ← take_hook self_hook;
      a ← match self_hook with Some self_hook => call_hook self_hook a | None => mret a end;
      _ ← set_cell top_alignment (CAlign a);
      mret a
  end.

(** [Choreographer::alloc]. *)
Definition alloc (size align : N) (self : Choreographer) : layM (placed * Choreographer) :=
  _ ← assert (0 <? size);
  align ← match one_time_align_hook self with
          | Some with_align =>
              new_align ← call_hook with_align align;
              _ ← assert (align <=? new_align);
              mret new_align
          | None => mret align
          end;
  let offset := align_address (first_unallocated_byte self) align in
  mret (Loc offset size, mkChoreographer (offset + size) (N.max (max_align self) align) None).

(** Components are placed in order. *)
Fixpoint place_all (l : list layout) (self : Choreographer) : layM (list placed * Choreographer) :=
  match l with
  | [] => mret ([], self)
  | x :: l =>
      '(p, self) ← place_with x self;
      '(ps, self) ← place_all l self;
      mret (p :: ps, self)
  end.

(** [Choreographer::overlapping]. *)
Definition overlapping (top bottom : layout) (self : Choreographer) : layM (placed * Choreographer) :=
  bottom ← new_cell (CLayout (Some bottom));
  r2_cell ← new_cell (CResult None);
  self_hook ← new_cell (CHook (one_time_align_hook self));
  let first := first_unallocated_byte self in
  let max := max_align self in
  '(r1, top_state) ← place_with top (mkChoreographer first max (Some (TopHook first max bottom r2_cell self_hook)));
  b ← take_layout bottom;
  '(bottom_state, r2, hook) ←
    match b with
    | Some bottom =>
        h ← take_hook self_hook;
        '(r2, state) ← place_with bottom (mkChoreographer first max h);
        mret (state, r2, one_time_align_hook state)
    | None =>
        r ← take_result r2_cell;
        '(state, r2) ← unwrap r;
        mret (state, r2, None)
    end;
  mret (Both r1 r2,
    mkChoreographer (N.max (first_unallocated_byte top_state) (first_unallocated_byte bottom_state))
      (N.max (max_align top_state) (max_align bottom_state)) hook).

Definition place_step (l : layout) (self : Choreographer) : layM (placed * Choreographer) :=
  match l with
  | Alloc size align => alloc size align self
  | Tuple l => '(ps, self) ← place_all l self; mret (Locs ps, self)
  | Overlapping top bottom => overlapping top bottom self
  end.
End place.

(** Layouts are finite and a hook is called at most once: fuel bounds the depth of calls. *)
Fixpoint place_with (fuel : nat) (l : layout) (self : Choreographer) : layM (placed * Choreographer) :=
  match fuel with
  | O => diverge
  | S fuel => place_step (place_with fuel) (run_hook fuel) l self
  end
with run_hook (fuel : nat) (k : hook) (align : N) : layM N :=
  match fuel with
  | O => diverge
  | S fuel => run_hook_step (place_with fuel) (run_hook fuel) k align
  end.

Record Placed : Set := mkPlaced { p_size : N; p_align : N; p_location : placed }.

(** [Choreographer::place], from an empty heap. *)
Definition place (fuel : nat) (l : layout) : outcome Empty_set Placed :=
  '(location, alloc) ← (place_with fuel l choreographer_new []).1;
  if 0 <? first_unallocated_byte alloc
  then Ok (mkPlaced (first_unallocated_byte alloc) (max_align alloc) location)
  else Panic PUnwrap.

(** * The layouts of the machine *)

Definition Atom (size : N) : layout := Alloc size size.
Definition Array (size len : N) : layout := Alloc (size * len) size.

(** [XRegistersLayout], [FRegistersLayout], [CSRegistersLayout], [ModeLayout]. *)
Definition HartStateLayout : layout := Tuple [Array 8 31; Array 8 32; Array 8 4096; Atom 1].
(** [Sizes<LEN8, LEN16, LEN32, LEN64>]. *)
Definition Sizes (len8 len16 len32 len64 : N) : layout :=
  Overlapping (Array 1 len8) (Overlapping (Array 2 len16) (Overlapping (Array 4 len32) (Array 8 len64))).
Definition M1G : layout := Sizes (1024 * 1024 * 1024) (1024 * 1024 * 512) (1024 * 1024 * 256) (1024 * 1024 * 128).
Definition DevicesLayout : layout := Array 1 0.
Definition BusLayout (ml : layout) : layout := Tuple [DevicesLayout; ml].
Definition MachineStateLayout (ml : layout) : layout := Tuple [HartStateLayout; BusLayout ml].

(** * Layouts without overlaps *)

Fixpoint depth (l : layout) : nat :=
  match l with
  | Alloc _ _ => 1
  | Tuple l => S (list_max (map depth l))
  | Overlapping a b => S (Nat.max (depth a) (depth b))
  end.

(** Sizes and alignments in order, for a layout without overlaps. *)
Fixpoint leaves (l : layout) : option (list (N * N)) :=
  match l with
  | Alloc size align => if (0 <? size) && (0 <? align) then Some [(size, align)] else None
  | Tuple l => fold_right (fun x acc => s1 ← leaves x; s2 ← acc; Some (s1 ++ s2)) (Some []) l
  | Overlapping _ _ => None
  end.

Fixpoint locations (p : placed) : list (N * N) :=
  match p with
  | Loc offset size => [(offset, size)]
  | Locs l => mjoin (map locations l)
  | Both a b => locations a ++ locations b
  end.

(** The locations [locs] follow one another from [a] on up to [b], each of its size and at an offset
    aligned as required. *)
Fixpoint tiles (a : N) (locs sizes : list (N * N)) (b : N) : Prop :=
  match locs, sizes with
  | [], [] => a = b
  | (o, s) :: locs, (size, align) :: sizes =>
      a <= o /\ s = size /\ o mod align = 0 /\ tiles (o + s) locs sizes b
  | _, _ => False
  end.

Lemma tiles_app a l1 s1 b l2 s2 c : tiles a l1 s1 b -> tiles b l2 s2 c -> tiles a (l1 ++ l2) (s1 ++ s2) c.
Proof.
  revert a s1. induction l1 as [|[o s] l1 IH]; intros a [|[z al] s1] H1 H2; cbn in *; try done; [by subst|].
  destruct H1 as (?&?&?&?). split_and!; [done..|]. by apply IH.
Qed.

Lemma tiles_le a locs sizes b : tiles a locs sizes b -> a <= b.
Proof.
  revert a sizes. induction locs as [|[o s] locs IH]; intros a [|[z al] sizes] H; cbn in H; try done; [by subst|].
  destruct H as (?&->&_&H%IH). lia.
Qed.

Lemma tiles_aligned a locs sizes b base : tiles a locs sizes b -> Forall (fun e => base mod e.2 = 0) sizes ->
  Forall2 (fun loc e => (base + loc.1) mod e.2 = 0) locs sizes.
Proof.
  revert a sizes. induction locs as [|[o s] locs IH]; intros a [|[z al] sizes] H Hb; cbn in H; try done.
  destruct H as (_&_&Ho&H). apply Forall_cons in Hb as [Hb Hbs]. cbn in Hb. constructor; [|by eapply IH].
  cbn. rewrite N.Div0.add_mod, Hb, Ho. apply N.Div0.mod_0_l.
Qed.

Lemma leaves_pos l : forall sizes, leaves l = Some sizes -> Forall (fun e => 0 < e.1) sizes.
Proof.
  revert l. fix IH 1. intros [size align|l|a b] sizes; cbn [leaves]; [| |done].
  - destruct (0 <? size) eqn:Hs; [|done]. destruct (0 <? align); [|done]. intros [= <-]. apply N.ltb_lt in Hs. by constructor.
  - revert sizes. induction l as [|x l IHl]; cbn [fold_right]; intros sizes; [by intros [= <-]|].
    intros (s1&Hs1&(s2&Hs2&[= <-])%bind_Some)%bind_Some. apply Forall_app_2; [by apply (IH x)|by apply IHl].
Qed.

Lemma align_address_spec a align : 0 < align -> a <= align_address a align /\ align_address a align mod align = 0.
Proof.
  intros Ha. unfold align_address. pose proof (N.mod_lt a align ltac:(lia)) as Hm.
  pose proof (N.div_mod a align ltac:(lia)) as Hd.
  destruct (N.ltb_spec 0 (a mod align)) as [Hlt|Hge]; [|split; [done|by apply N.le_0_r]].
  split; [apply N.le_add_r|]. revert Hm Hd Hlt. generalize (a mod align) (a / align). intros m q Hm Hd _. subst a.
  replace (align * q + m + (align - m)) with ((q + 1) * align) by lia. apply N.Div0.mod_mul.
Qed.

Definition max_of (m : N) (sizes : list (N * N)) : N := fold_left (fun m e => N.max m e.2) sizes m.
Lemma max_of_app m s1 s2 : max_of m (s1 ++ s2) = max_of (max_of m s1) s2.
Proof. apply fold_left_app. Qed.

Lemma place_plain fuel : forall l sizes self h,
  leaves l = Some sizes -> (depth l <= fuel)%nat -> one_time_align_hook self = None ->
  exists p self', place_with fuel l self h = (Ok (p, self'), h) /\ one_time_align_hook self' = None /\
    tiles (first_unallocated_byte self) (locations p) sizes (first_unallocated_byte self') /\
    max_align self' = max_of (max_align self) sizes.
Proof.
  induction fuel as [|fuel IH]; intros l sizes self h Hl Hd Hh; [destruct l; cbn in Hd; lia|].
  destruct l as [size align|l|top bottom]; cbn [leaves] in Hl; [| |done].
  - destruct (0 <? size) eqn:Hs; [|done]. destruct (0 <? align) eqn:Ha; [|done]. injection Hl as <-.
    cbn [place_with place_step]. unfold alloc. rewrite Hs, Hh. cbn. eexists _, _. split; [reflexivity|]. split; [done|].
    cbn. apply N.ltb_lt in Ha. destruct (align_address_spec (first_unallocated_byte self) align Ha). split_and!; done.
  - cbn [place_with place_step].
    enough (exists ps self', place_all (place_with fuel) l self h = (Ok (ps, self'), h) /\ one_time_align_hook self' = None /\
      tiles (first_unallocated_byte self) (mjoin (map locations ps)) sizes (first_unallocated_byte self') /\
      max_align self' = max_of (max_align self) sizes) as (ps&self'&Hrun&?&?&?).
    { exists (Locs ps), self'. split_and!; try done. unfold mbind, M_bind. by rewrite Hrun. }
    cbn [depth] in Hd. revert sizes self Hl Hh. induction l as [|x l IHl]; intros sizes self Hl Hh.
    { injection Hl as <-. by exists [], self. }
    change (S (Nat.max (depth x) (list_max (map depth l))) <= S fuel)%nat in Hd. cbn [fold_right] in Hl. apply bind_Some in Hl as (s1&Hs1&(s2&Hs2&[= <-])%bind_Some).
    destruct (IH x s1 self h Hs1 ltac:(lia) Hh) as (p&self1&Hrun1&Hh1&Ht1&Hm1).
    destruct (IHl ltac:(lia) s2 self1 Hs2 Hh1) as (ps&self2&Hrun2&Hh2&Ht2&Hm2).
    exists (p :: ps), self2. cbn. split_and!; [|done|by eapply tiles_app|by rewrite max_of_app, <- Hm1].
    unfold mbind, M_bind. rewrite Hrun1. by rewrite Hrun2.
Qed.

Definition pow2 (a : N) : Prop := exists k, a = 2 ^ k.

Lemma max_pow2 a b : pow2 a -> pow2 b -> pow2 (N.max a b) /\ N.max a b mod a = 0 /\ N.max a b mod b = 0.
Proof.
  intros [i ->] [j ->]. assert (Hdiv : forall p q, p <= q -> 2 ^ q mod 2 ^ p = 0).
  { intros p q Hpq. replace q with (q - p + p) by lia. rewrite N.pow_add_r. apply N.Div0.mod_mul. }
  destruct (N.le_ge_cases i j) as [H|H].
  - rewrite N.max_r by (by apply N.pow_le_mono_r). split_and!; [by exists j|by apply Hdiv|by apply Hdiv].
  - rewrite N.max_l by (by apply N.pow_le_mono_r). split_and!; [by exists i|by apply Hdiv|by apply Hdiv].
Qed.

Lemma mod_trans a b c : a mod b = 0 -> b mod c = 0 -> a mod c = 0.
Proof. rewrite !N.Lcm0.mod_divide. intros H1 H2. by etransitivity. Qed.

Lemma max_of_pow2 sizes m : pow2 m -> Forall (fun e => pow2 e.2) sizes ->
  max_of m sizes mod m = 0 /\ Forall (fun e => max_of m sizes mod e.2 = 0) sizes.
Proof.
  revert m. induction sizes as [|[s a] sizes IH]; intros m Hm Hs; cbn [max_of fold_left snd].
  { split; [|done]. apply N.Div0.mod_same. }
  apply Forall_cons in Hs as [Ha Hs]. cbn in Ha. destruct (max_pow2 m a Hm Ha) as (Hp&Hma&Hmb).
  destruct (IH _ Hp Hs) as [IH1 IH2]. split; [by eapply mod_trans|]. constructor; [by eapply mod_trans|done].
Qed.

(** Placement of a layout without overlaps.  With every size positive and every alignment a power
    of two, placing succeeds; the locations come in the order of the layout, each of the size asked
    for, without overlap and inside the total size; each offset is a multiple of its alignment, and the
    alignment reported is a multiple of every alignment, so that addresses are aligned as soon as the
    storage is. *)
Theorem layout_placement (l : layout) (sizes : list (N * N)) (fuel : nat) :
  leaves l = Some sizes -> sizes <> [] -> Forall (fun e => pow2 e.2) sizes -> (depth l <= fuel)%nat ->
  exists p, place fuel l = Ok p /\ tiles 0 (locations (p_location p)) sizes (p_size p) /\
    forall base, base mod p_align p = 0 ->
      Forall2 (fun loc e => (base + loc.1) mod e.2 = 0) (locations (p_location p)) sizes.
Proof.
  intros Hl Hne Hp Hd. destruct (place_plain fuel l sizes choreographer_new [] Hl Hd eq_refl) as (p&self&Hrun&_&Ht&Hm).
  assert (Hpos : 0 < first_unallocated_byte self).
  { destruct sizes as [|[s a] sizes]; [done|]. destruct (locations p) as [|[o z] locs]; [done|].
    destruct Ht as (_&->&_&Ht). pose proof (leaves_pos l _ Hl) as [Hs _]%Forall_cons. cbn in Hs.
    apply tiles_le in Ht. lia. }
  exists (mkPlaced (first_unallocated_byte self) (max_align self) p). unfold place. rewrite Hrun. cbn.
  rewrite (proj2 (N.ltb_lt _ _)) by done. split_and!; [done..|]. intros base Hb. rewrite Hm in Hb.
  destruct (max_of_pow2 sizes 1 ltac:(by exists 0) Hp) as [_ Hmax]. eapply tiles_aligned; [exact Ht|].
  eapply Forall_impl; [exact Hmax|]. intros e He. by eapply mod_trans.
Qed.

(** The state of a hart fits in 33273 bytes. *)
Lemma layout_placement_witness :
  exists p, place 2 HartStateLayout = Ok p /\
    tiles 0 (locations (p_location p)) [(248, 8); (256, 8); (32768, 8); (1, 1)] 33273.
Proof.
  destruct (layout_placement HartStateLayout [(248, 8); (256, 8); (32768, 8); (1, 1)] 2) as (p&Hp&Ht&_).
  - reflexivity.
  - discriminate.
  - repeat constructor; ((by exists 3) || (by exists 0)).
  - cbn. lia.
  - exists p. split; [exact Hp|]. assert (Hs : p_size p = 33273) by (vm_compute in Hp; injection Hp as <-; reflexivity).
    rewrite <- Hs. exact Ht.
Defined.

(** * Overlapping layouts *)

(** Placement of the four views of a memory. *)
Lemma place_sizes (first max len8 len16 len32 len64 : N) :
  max ∈ [1; 2; 4; 8; 16] -> 0 < len8 -> 0 < len16 -> 0 < len32 -> 0 < len64 ->
  let o := align_address first 8 in
  exists h', place_with 16 (Sizes len8 len16 len32 len64) (mkChoreographer first max None) [] =
    (Ok (Both (Loc o len8) (Both (Loc o (2 * len16)) (Both (Loc o (4 * len32)) (Loc o (8 * len64)))),
      mkChoreographer (N.max (o + len8) (N.max (o + 2 * len16) (N.max (o + 4 * len32) (o + 8 * len64)))) (N.max max 8) None),
     h').
Proof.
  intros Hm H1 H2 H3 H4. cbn zeta.
  destruct len8 as [|p8]; [lia|]. destruct len16 as [|p16]; [lia|].
  destruct len32 as [|p32]; [lia|]. destruct len64 as [|p64]; [lia|]. clear H1 H2 H3 H4.
  repeat (apply elem_of_cons in Hm as [-> |Hm]); [..|by apply not_elem_of_nil in Hm].
  all: eexists; cbv -[align_address N.add]; reflexivity.
Qed.

(** The four views of the main memory coincide.  Placed at any offset, after elements of any of the
    alignments of integers, the arrays of bytes, halfwords, words and doublewords of [Sizes] get the
    same offset, aligned for doublewords; what is placed next starts after all of them, and no
    alignment hook is left behind. *)
Theorem memory_views_coincide (first max len8 len16 len32 len64 : N) :
  max ∈ [1; 2; 4; 8; 16] -> 0 < len8 -> 0 < len16 -> 0 < len32 -> 0 < len64 ->
  let o := align_address first 8 in
  exists h' self', place_with 16 (Sizes len8 len16 len32 len64) (mkChoreographer first max None) [] =
    (Ok (Both (Loc o len8) (Both (Loc o (2 * len16)) (Both (Loc o (4 * len32)) (Loc o (8 * len64)))), self'), h') /\
    o mod 8 = 0 /\ one_time_align_hook self' = None /\ max_align self' = N.max max 8 /\
    first_unallocated_byte self' =
      N.max (o + len8) (N.max (o + 2 * len16) (N.max (o + 4 * len32) (o + 8 * len64))).
Proof.
  intros Hm H1 H2 H3 H4. destruct (place_sizes first max len8 len16 len32 len64 Hm H1 H2 H3 H4) as (h'&Hrun).
  destruct (align_address_spec first 8 ltac:(lia)) as [_ Ho]. by eexists h', _.
Qed.

(** The memory of 1 GiB after the state of a hart. *)
Lemma memory_views_coincide_witness :
  exists h' self', place_with 16 M1G (mkChoreographer 33273 8 None) [] =
    (Ok (Both (Loc 33280 1073741824) (Both (Loc 33280 1073741824) (Both (Loc 33280 1073741824) (Loc 33280 1073741824))), self'), h') /\
    first_unallocated_byte self' = 33280 + 1073741824.
Proof.
  destruct (memory_views_coincide 33273 8 (1024 * 1024 * 1024) (1024 * 1024 * 512) (1024 * 1024 * 256) (1024 * 1024 * 128))
    as (h'&self'&Hrun&_&_&_&Hf); [set_solver|lia..|].
  exists h', self'. split; [exact Hrun|exact Hf].
Defined.

(** The layout of the whole machine has no placement: the layout of the devices is an empty array,
    which the allocator refuses, whatever the layout of the memory. *)
Theorem machine_state_cannot_be_placed (ml : layout) (fuel : nat) :
  (4 <= fuel)%nat -> place fuel (MachineStateLayout ml) = Panic PUnwrap.
Proof. intros H. do 4 (destruct fuel as [|fuel]; [lia|]). reflexivity. Qed.

Lemma machine_state_cannot_be_placed_witness : place 20 (MachineStateLayout M1G) = Panic PUnwrap.
Proof. apply machine_state_cannot_be_placed. lia. Defined.
