(* ===== verification/RiscvMemory.v ===== *)
(** Memory of the RISC-V machine.

    Models [src/risc_v/machine_state/src/memory_backend.rs] (storage in memory),
    [backend.rs] and [backend/region.rs] (elements and regions), [bus.rs],
    [bus/main_memory.rs] and [bus/devices.rs].

    The backing storage is one allocation: its address and its bytes.  Regions are
    pointers into it, so that regions that overlap share their bytes.  [E] is one of the
    unsigned integers, given by its size, which is its alignment too.  The order of bytes of
    the host is a parameter: values are converted to and from little endian around each
    access. *)

From S2P Require Import Prelude Endian RiscvLayout.
#[local] Open Scope N_scope.

Inductive endian : Set := Little | Big.

(** The allocation behind [InMemoryBackend]: address and contents. *)
Record Storage : Set := mkStorage { base : N; data : bytes }.

Inductive OutOfBounds : Set := mkOutOfBounds.
Abbreviation memM := (M Storage OutOfBounds).

Definition check (p : panic) (b : bool) : memM unit := if b then mret tt else panicked p.

(** Reads and writes of [size] bytes at a pointer. *)
Definition load (ptr size : N) : memM bytes := fun s =>
  if (base s <=? ptr) && (ptr + size <=? base s + N.of_nat (length (data s)))
  then (Ok (slice (N.to_nat (ptr - base s)) (N.to_nat size) (data s)), s)
  else (Panic PUndefined, s).
Definition store (ptr : N) (bs : bytes) : memM unit := fun s =>
  if (base s <=? ptr) && (ptr + N.of_nat (length bs) <=? base s + N.of_nat (length (data s)))
  then (Ok tt, mkStorage (base s) (list_inserts (N.to_nat (ptr - base s)) bs (data s)))
  else (Panic PUndefined, s).

(** [VolatileRegion], and [&mut [E; LEN]] of [allocate_region]. *)
Record Region : Set := mkRegion { backing_storage : N; elem_size : N; LEN : N }.

(** [MainMemory]. *)
Record MainMemory : Set := mkMainMemory {
  bytes_ : Region; halfwords : Region; words : Region; doublewords : Region
}.

Section host.
Context (host : endian).

(** Representation of an integer in the memory of the host. *)
Definition to_ne_bytes (size v : N) : bytes :=
  match host with Little => le_bytes (N.to_nat size) v | Big => reverse (le_bytes (N.to_nat size) v) end.
Definition from_ne_bytes (bs : bytes) : N :=
  match host with Little => of_le_bytes bs | Big => of_le_bytes (reverse bs) end.
Definition swap_bytes (size v : N) : N := of_le_bytes (reverse (le_bytes (N.to_nat size) v)).
(** [to_le] and [from_le]. *)
Definition to_le (size v : N) : N := match host with Little => v | Big => swap_bytes size v end.
Definition from_le (size v : N) : N := match host with Little => v | Big => swap_bytes size v end.

(** * Elements of regions *)

(** [E::from_stored(&self[index])] and [self[index].store(&value)], unchecked. *)
Definition load_elem (r : Region) (index : N) : memM N :=
  bs ← load (backing_storage r + index * elem_size r) (elem_size r);
  mret (from_le (elem_size r) (from_ne_bytes bs)).
Definition store_elem (r : Region) (index value : N) : memM unit :=
  store (backing_storage r + index * elem_size r) (to_ne_bytes (elem_size r) (to_le (elem_size r) value)).

(** [VolatileRegion::read], [write]; the debug assertions are checked. *)
Definition volatile_read (r : Region) (index : N) : memM N :=
  _ ← check PUnwrap (index <? LEN r);
  _ ← check PUnwrap (backing_storage r mod elem_size r =? 0);
  load_elem r index.
Definition volatile_write (r : Region) (index value : N) : memM unit :=
  _ ← check PUnwrap (index <? LEN r);
  _ ← check PUnwrap (backing_storage r mod elem_size r =? 0);
  store_elem r index value.

(** The indices [offset], [offset + 1], ... *)
Fixpoint store_elems (r : Region) (offset : N) (vs : list N) : memM unit :=
  match vs with
  | [] => mret tt
  | v :: vs => _ ← store_elem r offset v; store_elems r (offset + 1) vs
  end.
Fixpoint load_elems (r : Region) (offset : N) (n : nat) : memM (list N) :=
  match n with
  | O => mret []
  | S n => v ← load_elem r offset; vs ← load_elems r (offset + 1) n; mret (v :: vs)
  end.

(** [impl Region<E> for [E; LEN]]: indexing is checked. *)
Definition region_read (r : Region) (index : N) : memM N :=
  _ ← check PSlice (index <? LEN r); load_elem r index.
Definition region_read_all (r : Region) : memM (list N) := load_elems r 0 (N.to_nat (LEN r)).
(** [buffer] has [length] elements. *)
Definition region_read_some (r : Region) (offset length : N) : memM (list N) :=
  _ ← check PSlice (offset + length <=? LEN r); load_elems r offset (N.to_nat length).
Definition region_write (r : Region) (index value : N) : memM unit :=
  _ ← check PSlice (index <? LEN r); store_elem r index value.
Definition region_write_all (r : Region) (value : list N) : memM unit :=
  _ ← check PSlice (N.of_nat (length value) =? LEN r); store_elems r 0 value.
Definition region_write_some (r : Region) (index : N) (buffer : list N) : memM unit :=
  _ ← check PSlice (index + N.of_nat (length buffer) <=? LEN r); store_elems r index buffer.
Definition region_replace (r : Region) (index value : N) : memM N :=
  _ ← check PSlice (index <? LEN r);
  old ← load_elem r index;
  _ ← store_elem r index value;
  mret old.

(** [Cell]. *)
Definition cell_read (r : Region) : memM N := region_read r 0.
Definition cell_write (r : Region) (value : N) : memM unit := region_write r 0 value.

(** * The main memory and the bus *)

(** The region for integers of a size. *)
Definition field (m : MainMemory) (size : N) : Region :=
  match size with 1 => bytes_ m | 2 => halfwords m | 4 => words m | _ => doublewords m end.
(** [L::LEN8]. *)
Definition LEN8 (m : MainMemory) : N := LEN (bytes_ m).

Definition memory_read (m : MainMemory) (size addr : N) : memM N :=
  if LEN8 m <=? addr then fail mkOutOfBounds
  else volatile_read (field m size) (addr / size).
Definition memory_write (m : MainMemory) (size addr value : N) : memM unit :=
  if LEN8 m <=? addr then fail mkOutOfBounds
  else volatile_write (field m size) (addr / size) value.

Definition DEVICES_ADDRESS_SPACE_LENGTH : N := 1024 * 1024 * 1024.
(** [Devices]: no address is mapped. *)
Definition devices_read (size addr : N) : memM N := fail mkOutOfBounds.
Definition devices_write (size addr value : N) : memM unit := fail mkOutOfBounds.

Inductive AddressSpace : Set := AS_Devices | AS_MainMemory | AS_OutOfBounds.

(** [AddressSpace::locate]; the length of the memory is converted with [try_into]. *)
Definition locate (len8 addr : N) : AddressSpace * N :=
  if addr <? DEVICES_ADDRESS_SPACE_LENGTH then (AS_Devices, addr)
  else
    let mem_addr := addr - DEVICES_ADDRESS_SPACE_LENGTH in
    if mem_addr <? len8 then (AS_MainMemory, mem_addr) else (AS_OutOfBounds, addr).

(** [Bus::read], [Bus::write]. *)
Definition bus_read (m : MainMemory) (size addr : N) : memM N :=
  let '(addr_space, local_address) := locate (LEN8 m) addr in
  match addr_space with
  | AS_Devices => devices_read size local_address
  | AS_MainMemory => memory_read m size local_address
  | AS_OutOfBounds => fail mkOutOfBounds
  end.
Definition bus_write (m : MainMemory) (size addr value : N) : memM unit :=
  let '(addr_space, local_address) := locate (LEN8 m) addr in
  match addr_space with
  | AS_Devices => devices_write size local_address value
  | AS_MainMemory => memory_write m size local_address value
  | AS_OutOfBounds => fail mkOutOfBounds
  end.

(** * The backend *)

(** [alloc::Layout::from_size_align]. *)
Definition from_size_align (size align : N) : bool :=
  (0 <? align) && (N.land align (align - 1) =? 0) && (align_address size align <? 2 ^ 63).

(** [InMemoryBackend::new]; [address] is where the allocator puts the storage. *)
Definition backend_new (fuel : nat) (l : layout) (address : N) : outcome Empty_set (Storage * placed) :=
  p ← place fuel l;
  if from_size_align (p_size p) (p_align p)
  then Ok (mkStorage address (replicate (N.to_nat (p_size p)) Byte.x00), p_location p)
  else Panic PUnwrap.

(** [Clone]: a copy at another address. *)
Definition backend_clone (s : Storage) (address : N) : Storage := mkStorage address (data s).

(** [Backend::read] into a buffer of [len] bytes, [Backend::write]. *)
Definition backend_read (index len : N) : memM bytes := fun s =>
  let size := N.of_nat (length (data s)) in
  if (len <=? size) && (index <=? size - len)
  then (Ok (slice (N.to_nat index) (N.to_nat len) (data s)), s)
  else (Panic PUnwrap, s).
Definition backend_write (index : N) (buffer : bytes) : memM unit := fun s =>
  let size := N.of_nat (length (data s)) in
  let len := N.of_nat (length buffer) in
  if (len <=? size) && (index <=? size - len)
  then (Ok tt, mkStorage (base s) (list_inserts (N.to_nat index) buffer (data s)))
  else (Panic PUnwrap, s).

(** [SliceManager::allocate_region], [allocate_volatile_region]. *)
Definition allocate_region (s : Storage) (size : N) (loc : placed) : option Region :=
  match loc with
  | Loc offset bytes => Some (mkRegion (base s + offset) size (bytes / size))
  | _ => None
  end.

(** [Sizes::allocate]. *)
Definition memory_allocate (s : Storage) (p : placed) : option MainMemory :=
  match p with
  | Both l1 (Both l2 (Both l4 l8)) =>
      r1 ← allocate_region s 1 l1; r2 ← allocate_region s 2 l2;
      r4 ← allocate_region s 4 l4; r8 ← allocate_region s 8 l8;
      Some (mkMainMemory r1 r2 r4 r8)
  | _ => None
  end.
End host.

(** * Values are stored in little endian on every host *)

Lemma stored_bytes host size v : to_ne_bytes host size (to_le host size v) = le_bytes (N.to_nat size) v.
Proof.
  destruct host; cbn; [done|]. unfold swap_bytes. set (n := N.to_nat size).
  rewrite <- (length_le_bytes n v) at 1. rewrite <- length_reverse, le_bytes_of_le_bytes. apply reverse_involutive.
Qed.
Lemma loaded_value host size bs : length bs = N.to_nat size ->
  from_le host size (from_ne_bytes host bs) = of_le_bytes bs.
Proof.
  intros Hl. destruct host; cbn; [done|]. unfold swap_bytes.
  by rewrite <- Hl, <- length_reverse, le_bytes_of_le_bytes, reverse_involutive.
Qed.

(** * Regions *)

(** Range of an integer of [size] bytes. *)
Definition fits (size v : N) : Prop := v < 256 ^ size.

Section region.
Context (host : endian).
Implicit Types (r : Region) (s : Storage).

(** The region lies inside the storage. *)
Definition region_ok r s : Prop :=
  0 < elem_size r /\ base s <= backing_storage r /\
  backing_storage r + LEN r * elem_size r <= base s + N.of_nat (length (data s)).

(** Offset of an element in the storage. *)
Definition elem_offset r s (i : N) : nat := N.to_nat (backing_storage r + i * elem_size r - base s).

(** The integers of the region. *)
Definition view r s : list N :=
  map (fun i => of_le_bytes (slice (elem_offset r s (N.of_nat i)) (N.to_nat (elem_size r)) (data s)))
    (seq 0 (N.to_nat (LEN r))).

(** From [s] to [s'], the region becomes [vs], and bytes outside of it are untouched. *)
Definition updates r s (vs : list N) s' : Prop :=
  base s' = base s /\ length (data s') = length (data s) /\ view r s' = vs /\
  forall j n, (j + n <= elem_offset r s 0 \/ elem_offset r s (LEN r) <= j)%nat ->
    slice j n (data s') = slice j n (data s).

Lemma length_view r s : length (view r s) = N.to_nat (LEN r).
Proof. unfold view. by rewrite length_map, length_seq. Qed.

Lemma view_lookup r s i : i < LEN r ->
  view r s !! N.to_nat i = Some (of_le_bytes (slice (elem_offset r s i) (N.to_nat (elem_size r)) (data s))).
Proof.
  intros Hi. unfold view. rewrite list_lookup_fmap, lookup_seq_lt by lia. cbn. by rewrite N2Nat.id.
Qed.

Lemma view_fits r s : region_ok r s -> Forall (fits (elem_size r)) (view r s).
Proof.
  intros (?&?&?). apply Forall_forall. intros v (k&->&Hk)%list_elem_of_fmap. apply elem_of_seq in Hk. unfold fits.
  pose proof (of_le_bytes_bound (slice (elem_offset r s (N.of_nat k)) (N.to_nat (elem_size r)) (data s))) as Hb.
  rewrite length_slice in Hb; [by rewrite N2Nat.id in Hb|]. unfold elem_offset. nia.
Qed.

Lemma load_elem_spec r s i : region_ok r s -> i < LEN r ->
  exists v, view r s !! N.to_nat i = Some v /\ load_elem host r i s = (Ok v, s).
Proof.
  intros (?&?&?) Hi. eexists. split; [by apply view_lookup|].
  unfold load_elem, load, mbind, M_bind. rewrite (proj2 (N.leb_le _ _)), (proj2 (N.leb_le _ _)) by nia.
  cbn. unfold mret, M_ret. rewrite loaded_value by (apply length_slice; nia). done.
Qed.

Lemma elem_offset_base r s s' i : base s' = base s -> elem_offset r s' i = elem_offset r s i.
Proof. unfold elem_offset. by intros ->. Qed.

Lemma updates_ok r s vs s' : updates r s vs s' -> region_ok r s -> region_ok r s'.
Proof. intros (Hb&Hl&_) (?&?&?). unfold region_ok. by rewrite Hb, Hl. Qed.

Lemma updates_refl r s : updates r s (view r s) s.
Proof. done. Qed.

Lemma updates_trans r s vs s' vs' s'' : updates r s vs s' -> updates r s' vs' s'' -> updates r s vs' s''.
Proof.
  intros (Hb&Hl&_&Hs) (Hb'&Hl'&Hv&Hs'). split_and!; [congruence..|]. intros j n Hj.
  rewrite Hs', Hs; [done..|]. by rewrite !(elem_offset_base r s s').
Qed.

Lemma store_elem_spec r s i v : region_ok r s -> i < LEN r -> fits (elem_size r) v ->
  exists s', store_elem host r i v s = (Ok tt, s') /\ updates r s (<[N.to_nat i := v]> (view r s)) s'.
Proof.
  intros (Hz&Hb&He) Hi Hv. unfold store_elem, store. rewrite stored_bytes, length_le_bytes, N2Nat.id.
  rewrite (proj2 (N.leb_le _ _)), (proj2 (N.leb_le _ _)) by nia. cbn.
  eexists. split; [reflexivity|]. split_and!; [done|apply length_inserts|..]; cbn.
  - apply list_eq. intros k. destruct (decide (k < N.to_nat (LEN r))%nat) as [Hk|Hk].
    2: { rewrite !lookup_ge_None_2; [done|rewrite ?length_insert, length_view; lia..]. }
    pose proof (view_lookup r s (N.of_nat k) ltac:(lia)) as Ho. rewrite Nat2N.id in Ho.
    erewrite <- (Nat2N.id k), view_lookup by lia. cbn. rewrite (elem_offset_base r s) by done.
    destruct (decide (k = N.to_nat i)) as [->|Hne]; rewrite Nat2N.id.
    + rewrite N2Nat.id, list_lookup_insert_eq by (rewrite length_view; lia). f_equal.
      rewrite <- (length_le_bytes (N.to_nat (elem_size r)) v) at 1. rewrite slice_inserts_eq.
      * apply of_le_bytes_le_bytes. by rewrite N2Nat.id.
      * rewrite length_le_bytes. nia.
    + rewrite list_lookup_insert_ne, Ho by done. do 2 f_equal. apply slice_inserts_ne.
      rewrite length_le_bytes. unfold elem_offset. assert (N.of_nat k < i \/ i < N.of_nat k) as [|] by lia; nia.
  - intros j n Hj. apply slice_inserts_ne. rewrite length_le_bytes. unfold elem_offset in *. nia.
Qed.

Lemma load_elems_spec r s n : forall off, region_ok r s -> off + N.of_nat n <= LEN r ->
  load_elems host r off n s = (Ok (take n (drop (N.to_nat off) (view r s))), s).
Proof.
  induction n as [|n IH]; intros off Hr Hn; cbn [load_elems]; [done|].
  destruct (load_elem_spec r s off Hr ltac:(lia)) as (v&Hv&Hl). unfold mbind, M_bind. rewrite Hl, IH by (done || lia).
  cbn. rewrite (drop_S _ _ _ Hv). cbn. unfold mret, M_ret. do 4 f_equal. f_equal. lia.
Qed.

Lemma store_elems_spec r vs : forall s off, region_ok r s -> off + N.of_nat (length vs) <= LEN r ->
  Forall (fits (elem_size r)) vs ->
  exists s', store_elems host r off vs s = (Ok tt, s') /\ updates r s (list_inserts (N.to_nat off) vs (view r s)) s'.
Proof.
  induction vs as [|v vs IH]; intros s off Hr Hn Hf; cbn [store_elems].
  { exists s. split; [done|]. cbn. apply updates_refl. }
  apply Forall_cons in Hf as [Hv Hf]. cbn [length] in Hn.
  destruct (store_elem_spec r s off v Hr ltac:(lia) Hv) as (s1&Hs1&Hu1).
  destruct (IH s1 (off + 1) (updates_ok _ _ _ _ Hu1 Hr) ltac:(lia) Hf) as (s2&Hs2&Hu2).
  exists s2. unfold mbind, M_bind. rewrite Hs1, Hs2. split; [done|].
  rewrite (proj1 (proj2 (proj2 Hu1))) in Hu2. cbn [list_inserts]. rewrite <- list_insert_inserts_lt in Hu2 by lia.
  replace (N.to_nat (off + 1)) with (S (N.to_nat off)) in Hu2 by lia.
  by eapply updates_trans.
Qed.

(** A region in the storage, as [Backend::read] sees it. *)
Lemma slice_concat (z n off : nat) (d : bytes) : (off + n * z <= length d)%nat ->
  slice off (n * z) d = mjoin (map (fun i => slice (off + i * z) z d) (seq 0 n)).
Proof.
  revert off. induction n as [|n IH]; intros off Hn; [done|].
  cbn [seq map mjoin list_join]. rewrite <- seq_shift, map_map. replace (off + 0 * z)%nat with off by lia.
  rewrite (map_ext _ (fun i => slice ((off + z) + i * z) z d)) by (intros i; f_equal; lia).
  rewrite <- IH by lia. unfold slice. cbn [Nat.mul]. rewrite <- drop_drop.
  rewrite <- (take_drop z (take (z + n * z) (drop off d))). rewrite take_take, skipn_firstn_comm.
  do 2 f_equal; lia.
Qed.

Lemma backend_read_view r s : region_ok r s ->
  backend_read (backing_storage r - base s) (LEN r * elem_size r) s =
    (Ok (mjoin (map (le_bytes (N.to_nat (elem_size r))) (view r s))), s).
Proof.
  intros (Hz&Hb&He). unfold backend_read. rewrite (proj2 (N.leb_le _ _)), (proj2 (N.leb_le _ _)) by nia. cbn.
  do 2 f_equal. rewrite N2Nat.inj_mul, slice_concat by nia. f_equal. unfold view. rewrite map_map. apply map_ext_in.
  intros i Hi. apply in_seq in Hi. replace (elem_offset r s (N.of_nat i))
    with (N.to_nat (backing_storage r - base s) + i * N.to_nat (elem_size r))%nat by (unfold elem_offset; nia).
  rewrite <- (le_bytes_of_le_bytes (slice _ _ _)) at 1. f_equal. apply length_slice. nia.
Qed.

(** Regions behave as arrays of integers, on every host.  Reading, replacing and writing one element, a
    range or the whole are the operations on the list of the integers, out of bounds accesses
    panic, nothing outside of the region changes, and the backend reads the region as the integers in
    little endian. *)
Theorem regions_are_arrays r s : region_ok r s ->
  (forall i, region_read host r i s = (match view r s !! N.to_nat i with Some v => Ok v | None => Panic PSlice end, s)) /\
  region_read_all host r s = (Ok (view r s), s) /\
  (forall off n, region_read_some host r off n s =
    (if off + n <=? LEN r then Ok (take (N.to_nat n) (drop (N.to_nat off) (view r s))) else Panic PSlice, s)) /\
  (forall i v, fits (elem_size r) v -> exists s', updates r s (<[N.to_nat i := v]> (view r s)) s' /\
    region_write host r i v s = (if i <? LEN r then Ok tt else Panic PSlice, s')) /\
  (forall i v, fits (elem_size r) v -> exists s', updates r s (<[N.to_nat i := v]> (view r s)) s' /\
    region_replace host r i v s = (match view r s !! N.to_nat i with Some old => Ok old | None => Panic PSlice end, s')) /\
  (forall vs, Forall (fits (elem_size r)) vs -> N.of_nat (length vs) = LEN r ->
    exists s', updates r s vs s' /\ region_write_all host r vs s = (Ok tt, s')) /\
  (forall vs, N.of_nat (length vs) <> LEN r -> region_write_all host r vs s = (Panic PSlice, s)) /\
  (forall i vs, Forall (fits (elem_size r)) vs -> i + N.of_nat (length vs) <= LEN r ->
    exists s', updates r s (list_inserts (N.to_nat i) vs (view r s)) s' /\ region_write_some host r i vs s = (Ok tt, s')) /\
  (forall i vs, LEN r < i + N.of_nat (length vs) -> region_write_some host r i vs s = (Panic PSlice, s)) /\
  backend_read (backing_storage r - base s) (LEN r * elem_size r) s =
    (Ok (mjoin (map (le_bytes (N.to_nat (elem_size r))) (view r s))), s).
Proof.
  intros Hr.
  assert (Hnone : forall i, LEN r <= i -> view r s !! N.to_nat i = None).
  { intros i Hi. apply lookup_ge_None. rewrite length_view. lia. }
  assert (Hid : forall i v, LEN r <= i -> updates r s (<[N.to_nat i := v]> (view r s)) s).
  { intros i v Hi. rewrite list_insert_ge by (rewrite length_view; lia). apply updates_refl. }
  split_and!.
  - intros i. unfold region_read. destruct (N.ltb_spec i (LEN r)) as [Hi|Hi]; cbn.
    + by destruct (load_elem_spec r s i Hr Hi) as (v&->&Hl).
    + by rewrite Hnone.
  - unfold region_read_all. rewrite load_elems_spec, drop_0, take_ge by (rewrite ?length_view; done || lia). done.
  - intros off n. unfold region_read_some. destruct (N.leb_spec (off + n) (LEN r)) as [Hi|Hi]; cbn; [|done].
    apply load_elems_spec; [done|lia].
  - intros i v Hv. unfold region_write. destruct (N.ltb_spec i (LEN r)) as [Hi|Hi]; cbn.
    + destruct (store_elem_spec r s i v Hr Hi Hv) as (s'&Hs&Hu). by exists s'.
    + exists s. auto.
  - intros i v Hv. unfold region_replace, mbind, M_bind. destruct (N.ltb_spec i (LEN r)) as [Hi|Hi]; cbn [check].
    + destruct (load_elem_spec r s i Hr Hi) as (old&->&Hl), (store_elem_spec r s i v Hr Hi Hv) as (s'&Hs&Hu).
      exists s'. split; [done|]. cbn -[load_elem store_elem]. by rewrite Hl, Hs.
    + exists s. rewrite Hnone by done. auto.
  - intros vs Hf Hl. destruct (store_elems_spec r vs s 0 Hr ltac:(lia) Hf) as (s'&Hs&Hu). exists s'.
    unfold region_write_all. rewrite (proj2 (N.eqb_eq _ _)) by done. split; [|done].
    replace vs with (list_inserts 0 vs (view r s)); [done|]. apply list_eq. intros j.
    destruct (decide (j < length vs)%nat); [rewrite list_lookup_inserts; [f_equal; lia|lia|rewrite length_view; lia]|].
    rewrite !lookup_ge_None_2; [done|lia|rewrite length_inserts, length_view; lia].
  - intros vs Hl. unfold region_write_all. by rewrite (proj2 (N.eqb_neq _ _)).
  - intros i vs Hf Hl. destruct (store_elems_spec r vs s i Hr ltac:(lia) Hf) as (s'&Hs&Hu). exists s'.
    unfold region_write_some. by rewrite (proj2 (N.leb_le _ _)).
  - intros i vs Hl. unfold region_write_some. by rewrite (proj2 (N.leb_gt _ _)).
  - by apply backend_read_view.
Qed.
End region.

(** Two consecutive regions of the storage of a test of the backend: 64 doublewords each. *)
Lemma regions_are_arrays_witness :
  let s := mkStorage 4096 (replicate 1024 Byte.x00) in
  exists s', region_write Big (mkRegion 4096 8 64) 3 7 s = (Ok tt, s') /\
    region_read Little (mkRegion 4096 8 64) 3 s' = (Ok 7, s') /\
    region_read Big (mkRegion 4096 8 64) 64 s' = (Panic PSlice, s').
Proof.
  cbn zeta. set (s := mkStorage 4096 (replicate 1024 Byte.x00)). set (r := mkRegion 4096 8 64).
  assert (Hr : region_ok r s) by (vm_compute; done).
  destruct (regions_are_arrays Big r s Hr) as (_&_&_&Hw&_).
  destruct (Hw 3 7) as (s'&Hu&Hw'); [reflexivity|]. clear Hw.
  pose proof (updates_ok _ _ _ _ Hu Hr) as Hr'. exists s'. split; [exact Hw'|].
  rewrite (proj1 (regions_are_arrays Little r s' Hr')), (proj1 (regions_are_arrays Big r s' Hr')).
  rewrite (proj1 (proj2 (proj2 Hu))). split; reflexivity.
Defined.

(** * The main memory as an array of bytes *)

Definition width (size : N) : Prop := size ∈ [1; 2; 4; 8].

(** The four views at a same address, aligned for doublewords. *)
Definition views (p len8 : N) : MainMemory :=
  mkMainMemory (mkRegion p 1 len8) (mkRegion p 2 (len8 / 2)) (mkRegion p 4 (len8 / 4)) (mkRegion p 8 (len8 / 8)).

Record mem_ok (p len8 : N) (s : Storage) : Prop := {
  mem_len : len8 mod 8 = 0;
  mem_align : p mod 8 = 0;
  mem_low : base s <= p;
  mem_high : p + len8 <= base s + N.of_nat (length (data s))
}.

Definition mem_bytes (p len8 : N) (s : Storage) : bytes :=
  slice (N.to_nat (p - base s)) (N.to_nat len8) (data s).

(** Accesses through the bus. *)
Inductive access : Set := ARead (size addr : N) | AWrite (size addr value : N).
Definition access_ok (a : access) : Prop :=
  match a with ARead size _ => width size | AWrite size _ value => width size /\ fits size value end.

Definition bus_access (host : endian) (m : MainMemory) (a : access) : memM N :=
  match a with
  | ARead size addr => bus_read host m size addr
  | AWrite size addr value => _ ← bus_write host m size addr value; mret 0
  end.
(** The results of a sequence of accesses; an error does not stop it. *)
Fixpoint bus_accesses (host : endian) (m : MainMemory) (l : list access) (s : Storage) :
    list (outcome OutOfBounds N) :=
  match l with
  | [] => []
  | a :: l => let '(o, s) := bus_access host m a s in o :: bus_accesses host m l s
  end.

(** The same on an array of bytes, mapped after the devices: an access goes to the [size] bytes from its address on, and fails
    when one of them is not in the array. *)
Definition address_of (a : access) : N := match a with ARead _ addr | AWrite _ addr _ => addr end.
Definition size_of (a : access) : N := match a with ARead size _ | AWrite size _ _ => size end.
Definition bytes_access (a : access) (bs : bytes) : outcome OutOfBounds N * bytes :=
  let i := address_of a - 2 ^ 30 in
  if (address_of a <? 2 ^ 30) || (N.of_nat (length bs) <? i + size_of a) then (Err mkOutOfBounds, bs)
  else match a with
       | ARead size _ => (Ok (of_le_bytes (slice (N.to_nat i) (N.to_nat size) bs)), bs)
       | AWrite size _ value => (Ok 0, list_inserts (N.to_nat i) (le_bytes (N.to_nat size) value) bs)
       end.
Fixpoint bytes_accesses (l : list access) (bs : bytes) : list (outcome OutOfBounds N) :=
  match l with
  | [] => []
  | a :: l => let '(o, bs) := bytes_access a bs in o :: bytes_accesses l bs
  end.

(** What the memory does of addresses that are not a multiple of the width: they are rounded down. *)
Definition round_down (size addr : N) : N := addr - addr mod size.
Definition align (a : access) : access :=
  match a with ARead size addr => ARead size (round_down size addr) | AWrite size addr value => AWrite size (round_down size addr) value end.
Definition aligned (a : access) : Prop := address_of a mod size_of a = 0.
Lemma align_aligned a : aligned a -> align a = a.
Proof. destruct a as [size addr|size addr v]; cbn; unfold aligned, round_down; cbn; intros ->; by rewrite N.sub_0_r. Qed.

Section memory.
Context (host : endian) (p len8 : N).
Implicit Types (s : Storage).

Lemma width_cases (P : N -> Prop) : P 1 -> P 2 -> P 4 -> P 8 -> forall size, width size -> P size.
Proof.
  intros H1 H2 H4 H8 size H. unfold width in H.
  repeat (apply elem_of_cons in H as [-> |H]; [done|]). by apply not_elem_of_nil in H.
Qed.

(** The region of a width, and an access to it in range. *)
Lemma field_views size : width size -> field (views p len8) size = mkRegion p size (len8 / size).
Proof. revert size. apply width_cases; cbn; [by rewrite N.div_1_r|done..]. Qed.

Lemma volatile_in_range size addr s : mem_ok p len8 s -> width size -> addr < len8 ->
  addr / size < len8 / size /\ p mod size = 0 /\ addr / size * size = addr - addr mod size /\
  addr - addr mod size + size <= len8.
Proof.
  intros [Hl Ha _ _] Hw Hi. revert size Hw.
  apply width_cases; split_and!; zify; Z.to_euclidean_division_equations; lia.
Qed.

(** The checks agree, since the length is a multiple of the width. *)
Lemma rounded_range size addr s : mem_ok p len8 s -> width size ->
  (round_down size addr <? 2 ^ 30) = (addr <? 2 ^ 30) /\
  (2 ^ 30 <= addr -> round_down size addr - 2 ^ 30 = (addr - 2 ^ 30) - (addr - 2 ^ 30) mod size /\
    (len8 <? round_down size addr - 2 ^ 30 + size) = (len8 <=? addr - 2 ^ 30)).
Proof.
  intros [Hl _ _ _] Hw. unfold round_down. assert (H : addr - addr mod size < 2 ^ 30 <-> addr < 2 ^ 30).
  { revert size Hw. apply width_cases; zify; Z.to_euclidean_division_equations; lia. }
  split; [destruct (N.ltb_spec (addr - addr mod size) (2 ^ 30)), (N.ltb_spec addr (2 ^ 30)); tauto || lia|]. intros Hge.
  assert (H' : addr - addr mod size - 2 ^ 30 = addr - 2 ^ 30 - (addr - 2 ^ 30) mod size /\
    (len8 < addr - addr mod size - 2 ^ 30 + size <-> len8 <= addr - 2 ^ 30)).
  { clear H. revert size Hw. apply width_cases; zify; Z.to_euclidean_division_equations; lia. }
  destruct H' as [E H']. split; [done|].
  destruct (N.ltb_spec len8 (addr - addr mod size - 2 ^ 30 + size)), (N.leb_spec len8 (addr - 2 ^ 30)); tauto || lia.
Qed.

Lemma view_is_bytes s : mem_ok p len8 s -> length (mem_bytes p len8 s) = N.to_nat len8.
Proof. intros [? ? ? ?]. apply length_slice. lia. Qed.

Lemma bus_read_spec size addr s : mem_ok p len8 s -> width size ->
  bus_read host (views p len8) size addr s = ((bytes_access (align (ARead size addr)) (mem_bytes p len8 s)).1, s).
Proof.
  intros Hm Hw. unfold bus_read, locate, bytes_access. rewrite view_is_bytes, N2Nat.id by done.
  change DEVICES_ADDRESS_SPACE_LENGTH with (2 ^ 30). cbn [LEN8 views bytes_ LEN align address_of size_of].
  destruct (rounded_range size addr s Hm Hw) as [-> Hround].
  destruct (N.ltb_spec addr (2 ^ 30)) as [|Hge]; cbn [orb]; [done|]. destruct (Hround Hge) as [-> ->]. set (a := addr - 2 ^ 30).
  rewrite N.ltb_antisym. destruct (N.leb_spec len8 a) as [|Hi]; [done|]. cbn [negb fst].
  unfold memory_read. cbn [LEN8 views bytes_ LEN]. rewrite (proj2 (N.leb_gt _ _) Hi), (field_views size Hw).
  destruct (volatile_in_range size a s Hm Hw Hi) as (H1&H2&H3&H4).
  unfold volatile_read. cbn [LEN backing_storage elem_size]. rewrite (proj2 (N.ltb_lt _ _) H1), (proj2 (N.eqb_eq _ _) H2).
  unfold mbind, M_bind. cbn -[load_elem]. destruct Hm as [Hl Ha Hlo Hhi].
  unfold load_elem, load, mbind, M_bind. cbn [backing_storage elem_size]. rewrite H3.
  rewrite (proj2 (N.leb_le _ _)), (proj2 (N.leb_le _ _)) by lia. cbn. unfold mret, M_ret.
  rewrite loaded_value by (apply length_slice; lia). unfold mem_bytes. rewrite slice_slice by lia.
  do 4 f_equal. lia.
Qed.

Lemma bus_write_spec size addr v s : mem_ok p len8 s -> width size ->
  exists s', bus_write host (views p len8) size addr v s =
    (_ ← (bytes_access (align (AWrite size addr v)) (mem_bytes p len8 s)).1; mret tt, s') /\
    mem_ok p len8 s' /\ mem_bytes p len8 s' = (bytes_access (align (AWrite size addr v)) (mem_bytes p len8 s)).2.
Proof.
  intros Hm Hw. unfold bus_write, locate, bytes_access. rewrite view_is_bytes, N2Nat.id by done.
  change DEVICES_ADDRESS_SPACE_LENGTH with (2 ^ 30). cbn [LEN8 views bytes_ LEN align address_of size_of].
  destruct (rounded_range size addr s Hm Hw) as [-> Hround].
  destruct (N.ltb_spec addr (2 ^ 30)) as [|Hge]; cbn [orb]; [by exists s|]. destruct (Hround Hge) as [-> ->]. set (a := addr - 2 ^ 30).
  rewrite N.ltb_antisym. destruct (N.leb_spec len8 a) as [|Hi]; [by exists s|]. cbn [negb fst snd].
  unfold memory_write. cbn [LEN8 views bytes_ LEN]. rewrite (proj2 (N.leb_gt _ _) Hi), (field_views size Hw).
  destruct (volatile_in_range size a s Hm Hw Hi) as (H1&H2&H3&H4).
  unfold volatile_write. cbn [LEN backing_storage elem_size]. rewrite (proj2 (N.ltb_lt _ _) H1), (proj2 (N.eqb_eq _ _) H2).
  unfold mbind, M_bind. cbn -[store_elem]. destruct Hm as [Hl Ha Hlo Hhi].
  unfold store_elem, store. cbn [backing_storage elem_size]. rewrite H3, stored_bytes, length_le_bytes, N2Nat.id.
  rewrite (proj2 (N.leb_le _ _)), (proj2 (N.leb_le _ _)) by lia. cbn.
  eexists. split; [reflexivity|]. split.
  - constructor; cbn; [done..|]. by rewrite length_inserts.
  - unfold mem_bytes. cbn. rewrite <- slice_inserts_in by (rewrite ?length_le_bytes; lia). do 2 f_equal. lia.
Qed.

Lemma bus_accesses_spec l : forall s, mem_ok p len8 s -> Forall access_ok l ->
  bus_accesses host (views p len8) l s = bytes_accesses (map align l) (mem_bytes p len8 s).
Proof.
  induction l as [|a l IH]; intros s Hm Hl; [done|]. apply Forall_cons in Hl as [Ha Hl].
  cbn [map bus_accesses bytes_accesses]. destruct a as [size addr|size addr v]; cbn [bus_access].
  - rewrite bus_read_spec by done. assert (E : (bytes_access (align (ARead size addr)) (mem_bytes p len8 s)).2 = mem_bytes p len8 s)
      by (unfold bytes_access; by destruct (_ || _)).
    destruct (bytes_access (align (ARead size addr)) (mem_bytes p len8 s)) as [o bs]. cbn in *. subst bs. by rewrite IH.
  - destruct Ha as [Hw _]. destruct (bus_write_spec size addr v s Hm Hw) as (s'&Hs&Hm'&Hb).
    unfold mbind at 1, M_bind. rewrite Hs. unfold bytes_access in *. destruct (_ || _) eqn:E; cbn in *; by rewrite IH, Hb.
Qed.
End memory.

(** The storage allocated for a memory of [len8] bytes. *)
Lemma backend_new_memory len8 address : 0 < len8 -> len8 mod 8 = 0 -> len8 < 2 ^ 63 -> address mod 8 = 0 ->
  exists s pl, backend_new 16 (Sizes len8 (len8 / 2) (len8 / 4) (len8 / 8)) address = Ok (s, pl) /\
    memory_allocate s pl = Some (views address len8) /\ mem_ok address len8 s /\
    mem_bytes address len8 s = replicate (N.to_nat len8) Byte.x00.
Proof.
  intros Hpos Hmod Hmax Hal. set (n := N.to_nat len8).
  assert (Hk : 2 * (len8 / 2) = len8 /\ 4 * (len8 / 4) = len8 /\ 8 * (len8 / 8) = len8).
  { zify. Z.to_euclidean_division_equations. lia. }
  destruct Hk as (K2&K4&K8).
  destruct (place_sizes 0 1 len8 (len8 / 2) (len8 / 4) (len8 / 8)) as (h&Hrun); [set_solver|lia..|].
  change (align_address 0 8) with 0 in Hrun. rewrite K2, K4, K8, !N.max_id, !N.add_0_l in Hrun.
  assert (Hround : align_address len8 8 = len8) by (unfold align_address; by rewrite Hmod).
  exists (mkStorage address (replicate n Byte.x00)),
    (Both (Loc 0 len8) (Both (Loc 0 len8) (Both (Loc 0 len8) (Loc 0 len8)))).
  split_and!.
  - unfold backend_new, place. change choreographer_new with (mkChoreographer 0 1 None). rewrite Hrun. cbn -[N.ltb N.max].
    rewrite (proj2 (N.ltb_lt _ _) Hpos). cbn -[N.ltb N.max]. unfold from_size_align.
    change (N.max 1 8) with 8. rewrite Hround, (proj2 (N.ltb_lt _ _) Hmax). done.
  - cbn. unfold views. rewrite N.add_0_r, N.div_1_r. done.
  - constructor; cbn; rewrite ?length_replicate; lia.
  - unfold mem_bytes, slice. cbn. rewrite N.sub_diag, drop_0. apply take_ge. rewrite length_replicate. lia.
Qed.

(** C27: a new main memory is an array of zero bytes for aligned accesses.  A main memory of any length that is a multiple of 8, placed and
    allocated on its own, is reached through the bus: any sequence of accesses of one, two, four and eight bytes gives the
    results of the same sequence, with each address first rounded down to a multiple of the width of its access, on an array of zero bytes mapped
    after the devices, in little endian on every host.  So aligned accesses have the results of the array itself: accesses of different widths
    see one another, and accesses out of range fail and change nothing.  No assertion of the regions fails. *)
Theorem bus_refines_bytes (host : endian) (len8 address : N) (l : list access) :
  0 < len8 -> len8 mod 8 = 0 -> len8 < 2 ^ 63 -> address mod 8 = 0 -> Forall access_ok l ->
  exists s pl m, backend_new 16 (Sizes len8 (len8 / 2) (len8 / 4) (len8 / 8)) address = Ok (s, pl) /\
    memory_allocate s pl = Some m /\
    bus_accesses host m l s = bytes_accesses (map align l) (replicate (N.to_nat len8) Byte.x00) /\
    (Forall aligned l -> bus_accesses host m l s = bytes_accesses l (replicate (N.to_nat len8) Byte.x00)).
Proof.
  intros Hpos Hmod Hmax Hal Hl. destruct (backend_new_memory len8 address Hpos Hmod Hmax Hal) as (s&pl&Hs&Ha&Hm&Hb).
  exists s, pl, (views address len8). rewrite <- Hb. pose proof (bus_accesses_spec host _ _ l s Hm Hl) as E. split_and!; [done..|].
  intros Hall. rewrite E. f_equal. clear -Hall. induction Hall as [|a l Ha Hl IH]; [done|]. cbn [map]. by rewrite align_aligned, IH.
Qed.

(** The accesses of the test of the memory of 1 KiB: one doubleword seen by the other widths. *)
Lemma bus_refines_bytes_witness :
  let at_ a := 2 ^ 30 + a in
  exists s pl m, backend_new 16 (Sizes 1024 512 256 128) 4096 = Ok (s, pl) /\ memory_allocate s pl = Some m /\
    bus_accesses Big m [AWrite 8 (at_ 0) 0x1122334455667788; ARead 4 (at_ 4); ARead 2 (at_ 2); ARead 1 (at_ 7);
                        ARead 4 (at_ 6); ARead 1 (at_ 1024); ARead 1 5] s =
      [Ok 0; Ok 0x11223344; Ok 0x5566; Ok 0x11; Ok 0x11223344; Err mkOutOfBounds; Err mkOutOfBounds].
Proof.
  cbn zeta. set (l := [AWrite _ _ _; _; _; _; _; _; _]).
  destruct (bus_refines_bytes Big 1024 4096 l) as (s&pl&m&Hs&Hm&Hr&_); [reflexivity..| |].
  - unfold l. repeat constructor; vm_compute; set_solver.
  - exists s, pl, m. split_and!; [exact Hs|exact Hm|]. rewrite Hr. vm_compute. reflexivity.
Defined.
