(* ===== verification/KernelPath.v ===== *)
(** Paths of the durable storage of kernels.

    Models [src/kernel_sdk/host/src/path.rs]: validation of paths, [OwnedPath], [RefPath]
    and [concat].  A path is its bytes; [path_ok] is the grammar the documentation of
    the trait [Path] gives. *)

From S2P Require Import Prelude.
From Stdlib Require Import DecimalString DecimalNat.

(** * Validation *)

Definition PATH_SEPARATOR : byte := Byte.x2f.
Definition DURABLE_STORAGE_PREFIX_INNER : bytes := str "/durable".
Definition PATH_MAX_SIZE : nat := 250 - length DURABLE_STORAGE_PREFIX_INNER.

Inductive PathError : Set :=
  | PathEmpty | PathTooLong | InvalidStart | InvalidEmptyStep | InvalidByteInStep | ReadOnly.

(** [u8::is_ascii_alphanumeric]. *)
Definition is_ascii_alphanumeric (b : byte) : bool :=
  let n := Byte.to_N b in
  ((48 <=? n) && (n <=? 57) || (65 <=? n) && (n <=? 90) || (97 <=? n) && (n <=? 122))%N.

Definition is_allowed_step_byte (b : byte) : bool :=
  is_ascii_alphanumeric b || bool_decide (b = Byte.x2e) || bool_decide (b = Byte.x5f) || bool_decide (b = Byte.x2d).

(** The loop of [validate_path_internal]: [path[i - 1]] and the bytes from [i] on. *)
Fixpoint validate_steps (prev : byte) (path : bytes) : outcome PathError unit :=
  match path with
  | [] => Ok tt
  | c :: path =>
      if bool_decide (c = PATH_SEPARATOR) then
        if bool_decide (prev = PATH_SEPARATOR) then Err InvalidEmptyStep else validate_steps c path
      else if negb (is_allowed_step_byte c) then Err InvalidByteInStep
      else validate_steps c path
  end.

Definition validate_path_internal (path : bytes) : outcome PathError unit :=
  match path with
  | [] => Err PathEmpty
  | b :: rest =>
      if bool_decide (last path = Some PATH_SEPARATOR) then Err InvalidEmptyStep
      else if PATH_MAX_SIZE <? length path then Err PathTooLong
      else if bool_decide (b = PATH_SEPARATOR) then validate_steps b rest
      else Err InvalidStart
  end.

Definition validate_path (path : bytes) : outcome PathError unit :=
  _ ← validate_path_internal path;
  if bool_decide (path = str "/readonly") || bool_decide (take 10 path = str "/readonly/")
  then Err ReadOnly
  else Ok tt.

(** [RefPath::try_from], [OwnedPath::try_from]. *)
Definition try_from (path : bytes) : outcome PathError bytes := _ ← validate_path path; Ok path.

(** [RefPath::assert_from], [assert_from_readonly]. *)
Definition assert_from {E} (path : bytes) : outcome E bytes :=
  match validate_path path with Ok _ => Ok path | _ => Panic PUnwrap end.
Definition assert_from_readonly {E} (path : bytes) : outcome E bytes :=
  match validate_path_internal path with Ok _ => Ok path | _ => Panic PUnwrap end.

(** [Path::len_steps]. *)
Definition len_steps (path : bytes) : nat := length (filter (fun b => b = PATH_SEPARATOR) path).

(** [concat]. *)
Definition concat (prefix suffix : bytes) : outcome PathError bytes :=
  let bytes := prefix ++ suffix in
  if length bytes <=? PATH_MAX_SIZE then Ok bytes else Err PathTooLong.

(** [path.split('/').skip(1)] (mock/src/state/store.rs). *)
Fixpoint split_sep (cur : bytes) (path : bytes) : list bytes :=
  match path with
  | [] => [cur]
  | c :: path => if bool_decide (c = PATH_SEPARATOR) then cur :: split_sep [] path else split_sep (cur ++ [c]) path
  end.
Definition path_steps (path : bytes) : list bytes := drop 1 (split_sep [] path).

(** * The grammar of paths *)

Definition step_ok (s : bytes) : Prop := s <> [] /\ Forall (fun b => is_allowed_step_byte b = true) s.
(** A sequence of steps, each after a separator. *)
Definition render (steps : list bytes) : bytes := mjoin (map (cons PATH_SEPARATOR) steps).

Record steps_ok (steps : list bytes) : Prop := {
  steps_ne : steps <> [];
  steps_each : Forall step_ok steps
}.
Definition readonly (steps : list bytes) : Prop := head steps = Some (str "readonly").
Definition path_ok (path : bytes) : Prop :=
  exists steps, path = render steps /\ steps_ok steps /\ ~ readonly steps /\ length path <= PATH_MAX_SIZE.

(** * Splitting and rendering *)

Lemma sep_not_allowed : is_allowed_step_byte PATH_SEPARATOR = false.
Proof. reflexivity. Qed.

Lemma allowed_ne_sep b : is_allowed_step_byte b = true -> b <> PATH_SEPARATOR.
Proof. intros H ->. by rewrite sep_not_allowed in H. Qed.

Lemma render_cons s steps : render (s :: steps) = PATH_SEPARATOR :: s ++ render steps.
Proof. done. Qed.
Lemma render_app s1 s2 : render (s1 ++ s2) = render s1 ++ render s2.
Proof. unfold render. by rewrite map_app, join_app. Qed.

Lemma split_step s cur rest : Forall (fun b => is_allowed_step_byte b = true) s ->
  split_sep cur (s ++ rest) = split_sep (cur ++ s) rest.
Proof.
  revert cur. induction s as [|b s IH]; intros cur H; cbn [app]; [by rewrite app_nil_r|].
  apply Forall_cons in H as [Hb Hs]. cbn [split_sep]. rewrite bool_decide_eq_false_2 by (by apply allowed_ne_sep).
  rewrite IH by done. by rewrite <- app_assoc.
Qed.

Lemma split_render cur steps : Forall step_ok steps -> split_sep cur (render steps) = cur :: steps.
Proof.
  revert cur. induction steps as [|s steps IH]; intros cur H; [done|]. apply Forall_cons in H as [[_ Hs] H].
  rewrite render_cons. cbn [split_sep]. rewrite bool_decide_eq_true_2 by done. by rewrite split_step, IH.
Qed.

Lemma path_steps_render steps : Forall step_ok steps -> path_steps (render steps) = steps.
Proof. intros H. unfold path_steps. by rewrite split_render. Qed.

(** * Validation accepts the grammar *)

Lemma validate_steps_sound prev path : validate_steps prev path = Ok tt -> last (prev :: path) <> Some PATH_SEPARATOR ->
  exists cur steps, path = cur ++ render steps /\ Forall (fun b => is_allowed_step_byte b = true) cur /\
    (prev = PATH_SEPARATOR -> cur <> []) /\ Forall step_ok steps.
Proof.
  revert prev. induction path as [|c path IH]; intros prev H Hl.
  { exists [], []. split_and!; try done. by intros ->. }
  rewrite last_cons_cons in Hl. cbn [validate_steps] in H. case_bool_decide as Hc.
  - subst c. case_bool_decide as Hp; [done|]. destruct (IH _ H Hl) as (cur&steps&->&Hcur&Hne&Hs).
    exists [], (cur :: steps). split_and!; [done..|]. constructor; [|done]. split; [by apply Hne|done].
  - destruct (is_allowed_step_byte c) eqn:Ha; [|done]. destruct (IH _ H Hl) as (cur&steps&->&Hcur&_&Hs).
    exists (c :: cur), steps. split_and!; [done|by constructor|done..].
Qed.

Lemma validate_steps_complete steps : forall prev cur, Forall (fun b => is_allowed_step_byte b = true) cur ->
  (prev = PATH_SEPARATOR -> cur <> []) -> Forall step_ok steps -> validate_steps prev (cur ++ render steps) = Ok tt.
Proof.
  induction steps as [|s steps IH]; intros prev cur.
  - revert prev. induction cur as [|c cur IHc]; intros prev Hc Hp Hs; [done|].
    apply Forall_cons in Hc as [Ha Hc]. cbn. rewrite bool_decide_eq_false_2, Ha by (by apply allowed_ne_sep). cbn.
    apply IHc; [done| |done]. intros ->. by rewrite sep_not_allowed in Ha.
  - revert prev. induction cur as [|c cur IHc]; intros prev Hc Hp Hs.
    + apply Forall_cons in Hs as [[Hne Hs] Hss]. rewrite render_cons. cbn [app validate_steps].
      rewrite bool_decide_eq_true_2 by done. rewrite bool_decide_eq_false_2 by (intros Hx; by apply (Hp Hx)). by apply IH.
    + apply Forall_cons in Hc as [Ha Hc]. cbn. rewrite bool_decide_eq_false_2, Ha by (by apply allowed_ne_sep). cbn.
      apply IHc; [done| |done]. intros ->. by rewrite sep_not_allowed in Ha.
Qed.

Lemma last_step_ok s : step_ok s -> exists b, last s = Some b /\ b <> PATH_SEPARATOR.
Proof.
  intros [Hne Hs]. destruct (last s) as [b|] eqn:E; [|by apply last_None in E]. exists b. split; [done|].
  apply allowed_ne_sep. apply last_Some in E as [l ->]. apply Forall_app in Hs as [_ Hs]. by inversion Hs.
Qed.

Lemma last_render steps : steps_ok steps -> last (render steps) <> Some PATH_SEPARATOR.
Proof.
  intros [Hne Hs]. destruct (exists_last Hne) as (l&s&->). rewrite render_app. apply Forall_app in Hs as [_ Hs].
  rewrite Forall_singleton in Hs. destruct (last_step_ok s Hs) as (b&Hb&Hsep).
  replace (render l ++ render [s]) with ((render l ++ [PATH_SEPARATOR]) ++ s)
    by (rewrite <- app_assoc; unfold render; cbn; by rewrite app_nil_r).
  rewrite last_app, Hb. congruence.
Qed.

Lemma validate_path_internal_spec path :
  validate_path_internal path = Ok tt <->
  exists steps, path = render steps /\ steps_ok steps /\ length path <= PATH_MAX_SIZE.
Proof.
  split.
  - unfold validate_path_internal. destruct path as [|b rest]; [done|]. case_bool_decide as Hl; [done|].
    destruct (Nat.ltb_spec PATH_MAX_SIZE (length (b :: rest))) as [|Hlen]; [done|]. case_bool_decide as Hb; [|done].
    intros H. subst b. destruct (validate_steps_sound _ _ H Hl) as (cur&steps&->&Hcur&Hne&Hs).
    exists (cur :: steps). split_and!; [done| |done]. split; [done|]. constructor; [|done]. split; [by apply Hne|done].
  - intros (steps&->&Hok&Hlen). unfold validate_path_internal. destruct steps as [|s steps]; [by destruct Hok|].
    rewrite bool_decide_eq_false_2 by (by apply last_render). rewrite render_cons in *.
    rewrite (proj2 (Nat.ltb_ge _ _)) by done. rewrite bool_decide_eq_true_2 by done.
    destruct Hok as [_ [[Hne Hs] Hss]%Forall_cons]. by apply validate_steps_complete.
Qed.

(** The test of [validate_path] on bytes is one on the first step. *)
Lemma readonly_bytes steps : Forall step_ok steps ->
  bool_decide (render steps = str "/readonly") || bool_decide (take 10 (render steps) = str "/readonly/") = true <->
  readonly steps.
Proof.
  intros Hs. unfold readonly. rewrite orb_true_iff, !bool_decide_eq_true. split.
  - intros [H|H].
    + rewrite <- (path_steps_render steps Hs), H. reflexivity.
    + rewrite <- (path_steps_render steps Hs). rewrite <- (take_drop 10 (render steps)), H. reflexivity.
  - intros Hh. destruct steps as [|s steps]; [done|]. injection Hh as ->. destruct steps as [|s steps]; [by left|by right].
Qed.

Lemma validate_path_spec path : validate_path path = Ok tt <-> path_ok path.
Proof.
  unfold validate_path, path_ok. rewrite outcome_bind_ok. split.
  - intros ([]&H&Hr). apply validate_path_internal_spec in H as (steps&->&Hok&Hlen). exists steps.
    split_and!; [done..| |done]. intros Hro%readonly_bytes; [by rewrite Hro in Hr|by destruct Hok].
  - intros (steps&->&Hok&Hro&Hlen). exists tt. split; [apply validate_path_internal_spec; eauto|].
    destruct (_ || _) eqn:E; [|done]. apply readonly_bytes in E; [done|by destruct Hok].
Qed.

(** The steps of a valid path. *)
Lemma path_ok_steps path : path_ok path -> render (path_steps path) = path /\ steps_ok (path_steps path).
Proof. intros (steps&->&[Hne Hs]&_&_). by rewrite path_steps_render. Qed.

Lemma concat_ok p q : path_ok p -> path_ok q -> length p + length q <= PATH_MAX_SIZE ->
  concat p q = Ok (p ++ q) /\ path_ok (p ++ q) /\ path_steps (p ++ q) = path_steps p ++ path_steps q.
Proof.
  intros (s1&->&[Hn1 Hs1]&Hr1&_) (s2&->&[Hn2 Hs2]&_&_) Hlen. unfold concat. rewrite length_app.
  rewrite (proj2 (Nat.leb_le _ _)) by done. rewrite <- render_app, !path_steps_render by (by rewrite ?Forall_app).
  split_and!; [done| |done]. exists (s1 ++ s2). split_and!; [done| | |by rewrite render_app, length_app].
  - split; [by destruct s1|by rewrite Forall_app].
  - destruct s1; done.
Qed.

(** Steps added to a path. *)
Lemma concat_render p steps : path_ok p -> steps_ok steps -> ~ readonly steps -> length p + length (render steps) <= PATH_MAX_SIZE ->
  path_ok (render steps) /\ concat p (render steps) = Ok (p ++ render steps) /\ path_ok (p ++ render steps) /\
  path_steps (p ++ render steps) = path_steps p ++ steps.
Proof.
  intros Hp Hs Hr Hl. assert (Hq : path_ok (render steps)) by (exists steps; split_and!; [done..|lia]).
  destruct (concat_ok p (render steps)) as (H1&H2&H3); [done..|]. split_and!; [done..|].
  rewrite H3, path_steps_render; [done|by destruct Hs].
Qed.

(** Validation of paths.  [validate_path] accepts exactly the non-empty sequences of non-empty steps over
    the documented alphabet, at most 242 bytes long, whose first step is not [readonly]; the
    concatenation of two paths is a path, with the steps of one after those of the other, unless it is
    too long. *)
Theorem path_grammar (p q : bytes) :
  (validate_path p = Ok tt <-> path_ok p) /\
  (path_ok p -> path_ok q ->
   if length p + length q <=? 242
   then concat p q = Ok (p ++ q) /\ path_ok (p ++ q) /\ path_steps (p ++ q) = path_steps p ++ path_steps q
   else concat p q = Err PathTooLong).
Proof.
  split; [apply validate_path_spec|]. intros Hp Hq. destruct (Nat.leb_spec (length p + length q) 242) as [H|H].
  - by apply concat_ok.
  - unfold concat. rewrite length_app. by rewrite (proj2 (Nat.leb_gt _ PATH_MAX_SIZE)).
Qed.
