(* ===== verification/KernelHost.v ===== *)
(** The host of a kernel: its interface, and the safe wrappers around it.

    [SmartRollupCore] is the interface of the host functions ([kernel_sdk/core]), for the durable
    storage: they return [i32] codes, negative for errors.  [CoreLaws] states their
    documented behaviour on an abstract storage, a partial map from sequences of steps to
    values.  The functions of [Runtime] (host/src/runtime.rs) are modelled for any
    implementation of the interface, and their properties are proved from the laws. *)

From S2P Require Import Prelude Endian KernelPath.

(** * Error codes (host/src/lib.rs, core/src/lib.rs) *)

Inductive Error : Set :=
  | StoreKeyTooLarge | StoreInvalidKey | StoreNotAValue | StoreInvalidAccess | StoreValueSizeExceeded
  | MemoryInvalidAccess | InputOutputTooLarge | GenericInvalidAccess | StoreReadonlyValue | StoreNotANode | FullOutbox.

Definition code (e : Error) : Z :=
  match e with
  | StoreKeyTooLarge => -1 | StoreInvalidKey => -2 | StoreNotAValue => -3 | StoreInvalidAccess => -4
  | StoreValueSizeExceeded => -5 | MemoryInvalidAccess => -6 | InputOutputTooLarge => -7
  | GenericInvalidAccess => -8 | StoreReadonlyValue => -9 | StoreNotANode => -10 | FullOutbox => -11
  end%Z.

(** [Error::from]. *)
Definition error_from (c : Z) : Error :=
  match c with
  | -1 => StoreKeyTooLarge | -2 => StoreInvalidKey | -3 => StoreNotAValue | -4 => StoreInvalidAccess
  | -5 => StoreValueSizeExceeded | -6 => MemoryInvalidAccess | -7 => InputOutputTooLarge
  | -8 => GenericInvalidAccess | -9 => StoreReadonlyValue | -10 => StoreNotANode | -11 => FullOutbox
  | _ => GenericInvalidAccess
  end%Z.

(** [Error::wrap]. *)
Definition wrap (c : Z) : outcome Error nat := if (0 <=? c)%Z then Ok (Z.to_nat c) else Err (error_from c).

Lemma wrap_code e : wrap (code e) = Err e.
Proof. by destruct e. Qed.
Lemma wrap_nat n : wrap (Z.of_nat n) = Ok n.
Proof. unfold wrap. rewrite (proj2 (Z.leb_le _ _)) by lia. by rewrite Nat2Z.id. Qed.

Definition MAX_FILE_CHUNK_SIZE : nat := N.to_nat 2048.
Definition MAX_OUTPUT_SIZE : nat := N.to_nat 4096.

(** * The host functions *)

Class SmartRollupCore (S : Type) := {
  core_store_has : bytes -> S -> Z;
  (** The code, and the bytes written in the buffer. *)
  core_store_read : bytes -> nat -> nat -> S -> Z * bytes;
  core_store_write : bytes -> nat -> bytes -> S -> Z * S;
  core_store_delete : bytes -> S -> Z * S;
  core_store_delete_value : bytes -> S -> Z * S;
  core_store_list_size : bytes -> S -> Z;
  core_store_move : bytes -> bytes -> S -> Z * S;
  core_store_copy : bytes -> bytes -> S -> Z * S;
  core_store_value_size : bytes -> S -> Z;
  core_write_output : bytes -> S -> Z * S
}.

(** [q] without the prefix [p]. *)
Fixpoint strip (p q : list bytes) : option (list bytes) :=
  match p, q with
  | [], q => Some q
  | x :: p, y :: q => if bool_decide (x = y) then strip p q else None
  | _ :: _, [] => None
  end.

Lemma strip_Some p q r : strip p q = Some r <-> q = p ++ r.
Proof.
  revert q. induction p as [|x p IH]; intros [|y q]; cbn; try naive_solver.
  case_bool_decide; subst; [rewrite IH|]; naive_solver.
Qed.
Lemma strip_app p r : strip p (p ++ r) = Some r.
Proof. by apply strip_Some. Qed.
Lemma strip_None p q : strip p q = None <-> forall r, q <> p ++ r.
Proof.
  split.
  - intros H r ->. by rewrite strip_app in H.
  - intros H. destruct (strip p q) as [r|] eqn:E; [|done]. apply strip_Some in E. by destruct (H r).
Qed.
Lemma strip_refl p : strip p p = Some [].
Proof. apply strip_Some. by rewrite app_nil_r. Qed.

(** Writing [bs] at an offset of a value, which may extend it. *)
Definition patch (v : bytes) (off : nat) (bs : bytes) : bytes := take off v ++ bs ++ drop (off + length bs) v.

(** [VALUE_TYPE_NONE], [VALUE], [SUBTREE], [VALUE_WITH_SUBTREE]. *)
Definition value_type (has_value has_subtree : bool) : Z := (Z.b2z has_value + 2 * Z.b2z has_subtree)%Z.

Definition VALUE_SIZE_LIMIT : Z := (2 ^ 31)%Z.
Definition size_ok (n : nat) : Prop := (Z.of_nat n < VALUE_SIZE_LIMIT)%Z.

(** What the documentation of the host functions says, for paths that can be written. *)
Class CoreLaws (S : Type) {core : SmartRollupCore S} := {
  c_ok : S -> Prop;
  c_value : S -> list bytes -> option bytes;
  (** Whether there may be a node at a path: a host need not remove the nodes that lead to no value. *)
  c_node : S -> list bytes -> Prop;
  (** The kinds reported are right about values, values below a path are a subtree, and a subtree is a node. *)
  c_has s p : c_ok s -> path_ok p -> exists sub,
    core_store_has p s = value_type (bool_decide (is_Some (c_value s (path_steps p)))) sub /\
    (forall r, r <> [] -> is_Some (c_value s (path_steps p ++ r)) -> sub = true) /\
    (sub = true -> exists x, c_node s (path_steps p ++ [x]));
  c_read s p off max v : c_ok s -> path_ok p -> c_value s (path_steps p) = Some v -> off <= length v ->
    let n := Nat.min MAX_FILE_CHUNK_SIZE (Nat.min max (length v - off)) in
    core_store_read p off max s = (Z.of_nat n, slice off n v);
  c_read_none s p off max : c_ok s -> path_ok p -> c_value s (path_steps p) = None ->
    core_store_read p off max s = (code StoreNotAValue, []);
  c_value_size s p v : c_ok s -> path_ok p -> c_value s (path_steps p) = Some v -> size_ok (length v) ->
    core_store_value_size p s = Z.of_nat (length v);
  c_value_size_none s p : c_ok s -> path_ok p -> c_value s (path_steps p) = None ->
    core_store_value_size p s = code StoreNotAValue;
  c_write s p off bs : c_ok s -> path_ok p -> length bs <= MAX_FILE_CHUNK_SIZE ->
    off <= length (default [] (c_value s (path_steps p))) -> size_ok (off + length bs) ->
    exists s', core_store_write p off bs s = (0%Z, s') /\ c_ok s' /\
      forall q, c_value s' q = if bool_decide (q = path_steps p)
                               then Some (patch (default [] (c_value s (path_steps p))) off bs) else c_value s q;
  c_write_out s p off bs : c_ok s -> path_ok p -> length bs <= MAX_FILE_CHUNK_SIZE ->
    length (default [] (c_value s (path_steps p))) < off ->
    core_store_write p off bs s = (code StoreInvalidAccess, s);
  c_delete s p : c_ok s -> path_ok p -> core_store_has p s <> 0%Z ->
    exists s', core_store_delete p s = (0%Z, s') /\ c_ok s' /\
      forall q, c_value s' q = match strip (path_steps p) q with Some _ => None | None => c_value s q end;
  c_delete_value s p : c_ok s -> path_ok p ->
    exists s', core_store_delete_value p s = (0%Z, s') /\ c_ok s' /\
      forall q, c_value s' q = if bool_decide (q = path_steps p) then None else c_value s q;
  c_copy s from to_ : c_ok s -> path_ok from -> path_ok to_ -> core_store_has from s <> 0%Z ->
    exists s', core_store_copy from to_ s = (0%Z, s') /\ c_ok s' /\
      forall q, c_value s' q = match strip (path_steps to_) q with
                               | Some r => c_value s (path_steps from ++ r) | None => c_value s q end;
  c_move s from to_ : c_ok s -> path_ok from -> path_ok to_ -> core_store_has from s <> 0%Z ->
    exists s', core_store_move from to_ s = (0%Z, s') /\ c_ok s' /\
      forall q, c_value s' q = match strip (path_steps to_) q with
                               | Some r => c_value s (path_steps from ++ r)
                               | None => match strip (path_steps from) q with Some _ => None | None => c_value s q end
                               end;
  (** There are nodes on the way to a value; the size of a list is the number of subkeys of a path that has no value,
      and may be an error when there are none. *)
  c_value_node s q r : c_ok s -> is_Some (c_value s (q ++ r)) -> c_node s q;
  c_list_size s p : c_ok s -> path_ok p -> c_value s (path_steps p) = None ->
    exists l, NoDup l /\ (forall x, x ∈ l <-> c_node s (path_steps p ++ [x])) /\
      (core_store_list_size p s = Z.of_nat (length l) \/ l = [] /\ core_store_list_size p s = code StoreNotANode);
  (** Nodes are only made on the way to the path written. *)
  c_write_nodes s p off bs q : path_ok p -> c_node (core_store_write p off bs s).2 q ->
    c_node s q \/ q `prefix_of` path_steps p;
  c_delete_nodes s p q : path_ok p -> c_node (core_store_delete p s).2 q ->
    c_node s q /\ strip (path_steps p) q = None;
  c_delete_value_nodes s p q : path_ok p -> c_node (core_store_delete_value p s).2 q -> c_node s q
}.

(** * The wrappers (host/src/runtime.rs) *)

Inductive RuntimeError : Set := PathNotFound | StoreListIndexOutOfBounds | HostErr (e : Error) | DecodingError.
Inductive ValueType : Set := Value | Subtree | ValueWithSubtree.

Section runtime.
Context {S : Type} {core : SmartRollupCore S}.
Abbreviation runM := (M S RuntimeError).

(** [match Error::wrap(res) { Ok(_) => Ok(()), Err(e) => Err(HostErr(e)) }]. *)
Definition host_result (c : Z) : outcome RuntimeError nat := map_err HostErr (wrap c).
Definition host_call (f : S -> Z * S) : runM unit := fun s =>
  let '(c, s) := f s in (_ ← host_result c; Ok tt, s).
Definition host_query (f : S -> Z) : runM nat := fun s => (host_result (f s), s).

Definition write_output (output : bytes) : runM unit := host_call (core_write_output output).

Definition store_has (path : bytes) : runM (option ValueType) := fun s =>
  (value_type ← host_result (core_store_has path s);
   match value_type with
   | 0 => Ok None
   | 1 => Ok (Some Value)
   | 2 => Ok (Some Subtree)
   | 3 => Ok (Some ValueWithSubtree)
   | _ => Err (HostErr GenericInvalidAccess)
   end, s).

Definition check_path_has_value (path : bytes) : runM unit := fun s =>
  match store_has path s with
  | (Ok (Some Value), _) | (Ok (Some ValueWithSubtree), _) => (Ok tt, s)
  | _ => (Err PathNotFound, s)
  end.
Definition check_path_exists (path : bytes) : runM unit := fun s =>
  match store_has path s with
  | (Ok (Some _), _) => (Ok tt, s)
  | _ => (Err PathNotFound, s)
  end.

(** The number of bytes read, and the buffer. *)
Definition store_read_slice (path : bytes) (from_offset : nat) (buffer : bytes) : runM (nat * bytes) := fun s =>
  let '(c, bs) := core_store_read path from_offset (length buffer) s in
  (n ← host_result c; Ok (n, bs ++ drop (length bs) buffer), s).

Definition store_read (path : bytes) (from_offset max_bytes : nat) : runM bytes :=
  _ ← check_path_has_value path;
  '(size, buffer) ← store_read_slice path from_offset (repeat Byte.x00 (Nat.min MAX_FILE_CHUNK_SIZE max_bytes));
  mret (take size buffer).

Definition store_value_size (path : bytes) : runM nat :=
  _ ← check_path_exists path;
  host_query (core_store_value_size path).

Definition read_chunk (path : bytes) (offset max_length : nat) : runM bytes := fun s =>
  let '(c, bs) := core_store_read path offset max_length s in
  (chunk_size ← host_result c; Ok (take chunk_size bs), s).
(** The loop of [store_read_all]. *)
Fixpoint read_chunks (fuel : nat) (path : bytes) (len : nat) (buffer : bytes) : runM bytes :=
  if length buffer <? len then
    match fuel with
    | 0 => diverge
    | Datatypes.S fuel =>
        let offset := length buffer in
        let max_length := Nat.min MAX_FILE_CHUNK_SIZE (len - offset) in
        chunk ← read_chunk path offset max_length;
        read_chunks fuel path len (buffer ++ chunk)
    end
  else mret buffer.

(** Each chunk holds at least one byte. *)
Definition store_read_all (path : bytes) : runM bytes :=
  len ← store_value_size path;
  read_chunks len path len [].

(** The loop of [store_write]. *)
Fixpoint write_chunks (fuel : nat) (path src : bytes) (at_offset : nat) : runM unit :=
  if MAX_FILE_CHUNK_SIZE <? length src then
    match fuel with
    | 0 => diverge
    | Datatypes.S fuel =>
        _ ← host_call (core_store_write path at_offset (take MAX_FILE_CHUNK_SIZE src));
        write_chunks fuel path (drop MAX_FILE_CHUNK_SIZE src) (at_offset + MAX_FILE_CHUNK_SIZE)
    end
  else match src with [] => mret tt | _ => host_call (core_store_write path at_offset src) end.

Definition store_write (path src : bytes) (at_offset : nat) : runM unit :=
  if length src <=? MAX_FILE_CHUNK_SIZE then host_call (core_store_write path at_offset src)
  else write_chunks (length src) path src at_offset.

Definition store_delete_value (path : bytes) : runM unit := host_call (core_store_delete_value path).

Definition store_write_all (path value : bytes) : runM unit :=
  _ ← store_delete_value path;
  store_write path value 0.

Definition store_delete (path : bytes) : runM unit :=
  _ ← check_path_exists path; host_call (core_store_delete path).

Definition store_count_subkeys (path : bytes) : runM nat := fun s =>
  let count := core_store_list_size path s in
  (if (0 <=? count)%Z then Ok (Z.to_nat count)
   else Err (HostErr (if (- 2 ^ 31 <=? count)%Z then error_from count else GenericInvalidAccess)), s).

Definition store_move (from_path to_path : bytes) : runM unit :=
  _ ← check_path_exists from_path; host_call (core_store_move from_path to_path).
Definition store_copy (from_path to_path : bytes) : runM unit :=
  _ ← check_path_exists from_path; host_call (core_store_copy from_path to_path).

Definition REBOOT_PATH : bytes := str "/kernel/env/reboot".
Definition mark_for_reboot : runM unit := store_write REBOOT_PATH [Byte.x00] 0.

(** [last_run_aborted], [upgrade_failed], [restart_forced]. *)
Definition flag_is_set (path : bytes) : runM bool := o ← store_has path; mret (bool_decide (is_Some o)).
Definition last_run_aborted : runM bool := flag_is_set (str "/readonly/kernel/env/stuck").
Definition upgrade_failed : runM bool := flag_is_set (str "/readonly/kernel/env/upgrade_error").
Definition restart_forced : runM bool := flag_is_set (str "/readonly/kernel/env/too_many_reboot").

(** Four bytes, least significant first. *)
Definition reboot_left : runM N :=
  '(_, bs) ← store_read_slice (str "/readonly/kernel/env/reboot_counter") 0 (repeat Byte.x00 4);
  mret (of_le_bytes bs).
Definition runtime_version : runM bytes := store_read (str "/readonly/wasm_version") 0 9.
End runtime.
