(* ===== verification/KernelRuntime.v ===== *)
(** Properties of the wrappers of [Runtime], over any host that satisfies [CoreLaws].

    [store_write] and [store_read_all] split values in chunks of 2048 bytes; the theorems
    show that this is not observable. *)

From S2P Require Import Prelude Endian KernelPath KernelHost.

(** * Patching values *)

Lemma length_patch v off bs : off <= length v -> length (patch v off bs) = Nat.max (length v) (off + length bs).
Proof. intros H. unfold patch. rewrite !length_app, length_take, length_drop. lia. Qed.

Lemma patch_nil v off : patch v off [] = v.
Proof. unfold patch. cbn. rewrite Nat.add_0_r. apply take_drop. Qed.

Lemma patch_app v off a b : off <= length v -> patch (patch v off a) (off + length a) b = patch v off (a ++ b).
Proof.
  intros H. assert (Hl : length (take off v ++ a) = off + length a) by (rewrite length_app, length_take; lia).
  unfold patch at 2. rewrite app_assoc. unfold patch. rewrite <- Hl at 1. rewrite take_app_length.
  rewrite <- Hl at 1. rewrite drop_app_add, drop_drop, length_app, Nat.add_assoc. by rewrite <- !app_assoc.
Qed.

Lemma patch_0 bs : patch [] 0 bs = bs.
Proof. unfold patch. cbn. by rewrite drop_nil, app_nil_r. Qed.

Section runtime.
Context {S : Type} {core : SmartRollupCore S} {laws : CoreLaws S}.
Implicit Types (s : S) (p v : bytes).

Lemma path_steps_inj p q : path_ok p -> path_ok q -> path_steps p = path_steps q -> p = q.
Proof. intros [Hp _]%path_ok_steps [Hq _]%path_ok_steps H. by rewrite <- Hp, <- Hq, H. Qed.

(** * What exists *)

Lemma store_has_spec s p : c_ok s -> path_ok p -> exists sub,
  let val := bool_decide (is_Some (c_value s (path_steps p))) in
  core_store_has p s = value_type val sub /\
  (forall r, r <> [] -> is_Some (c_value s (path_steps p ++ r)) -> sub = true) /\
  (sub = true -> exists x, c_node s (path_steps p ++ [x])) /\
  store_has p s = (Ok match val, sub with
                      | false, false => None | true, false => Some Value
                      | false, true => Some Subtree | true, true => Some ValueWithSubtree end, s).
Proof.
  intros Hs Hp. destruct (c_has s p Hs Hp) as (sub&Hh&Hsub&Hn). exists sub. cbn zeta. split_and!; [done..|].
  unfold store_has. rewrite Hh. by destruct (bool_decide _), sub.
Qed.

Lemma check_path_exists_spec s p : c_ok s -> path_ok p ->
  check_path_exists p s = (if (core_store_has p s =? 0)%Z then Err PathNotFound else Ok tt, s).
Proof.
  intros Hs Hp. destruct (store_has_spec s p Hs Hp) as (sub&Hh&_&_&Hr). unfold check_path_exists. rewrite Hr, Hh.
  by destruct (bool_decide _), sub.
Qed.

(** A path with a value, or with a value below it, exists. *)
Lemma value_exists s p r : c_ok s -> path_ok p -> is_Some (c_value s (path_steps p ++ r)) ->
  core_store_has p s <> 0%Z.
Proof.
  intros Hs Hp Hv. destruct (c_has s p Hs Hp) as (sub&Hh&Hsub&_). rewrite Hh. destruct r as [|x r].
  - rewrite app_nil_r in Hv. rewrite bool_decide_eq_true_2 by done. by destruct sub.
  - rewrite (Hsub (x :: r)) by done. by destruct (bool_decide _).
Qed.

Lemma check_path_exists_value s p r : c_ok s -> path_ok p -> is_Some (c_value s (path_steps p ++ r)) ->
  check_path_exists p s = (Ok tt, s).
Proof.
  intros Hs Hp Hv. rewrite check_path_exists_spec by done. by rewrite (proj2 (Z.eqb_neq _ _)) by (by eapply value_exists).
Qed.

(** * Reading *)

Lemma read_chunk_spec s p v off max : c_ok s -> path_ok p -> c_value s (path_steps p) = Some v -> off <= length v ->
  read_chunk p off max s = (Ok (slice off (Nat.min MAX_FILE_CHUNK_SIZE (Nat.min max (length v - off))) v), s).
Proof.
  intros Hs Hp Hv Ho. unfold read_chunk. rewrite (c_read s p off max v) by done. unfold host_result. rewrite wrap_nat.
  cbn. by rewrite take_ge by (rewrite length_slice; lia).
Qed.

Lemma read_chunks_spec s p v : c_ok s -> path_ok p -> c_value s (path_steps p) = Some v ->
  forall fuel k, k <= length v -> length v - k <= fuel -> read_chunks fuel p (length v) (take k v) s = (Ok v, s).
Proof.
  intros Hs Hp Hv fuel. induction fuel as [|fuel IH]; intros k Hk Hf; cbn [read_chunks]; rewrite length_take_le by done.
  { rewrite (proj2 (Nat.ltb_ge _ _)) by lia. by rewrite take_ge by lia. }
  destruct (Nat.ltb_spec k (length v)) as [Hlt|]; [|by rewrite take_ge by lia].
  unfold mbind, M_bind. rewrite (read_chunk_spec s p v) by done.
  set (n := Nat.min _ _). assert (Hn : 0 < n <= length v - k) by (unfold n, MAX_FILE_CHUNK_SIZE; lia).
  replace (take k v ++ slice k n v) with (take (k + n) v).
  - apply IH; lia.
  - unfold slice. by rewrite take_take_drop.
Qed.

Lemma store_value_size_spec s p v : c_ok s -> path_ok p -> c_value s (path_steps p) = Some v -> size_ok (length v) ->
  store_value_size p s = (Ok (length v), s).
Proof.
  intros Hs Hp Hv Hl. unfold store_value_size, mbind, M_bind.
  rewrite (check_path_exists_value s p []) by (rewrite ?app_nil_r, ?Hv; eauto).
  unfold host_query, host_result. by rewrite (c_value_size s p v), wrap_nat.
Qed.

Lemma store_read_all_spec s p v : c_ok s -> path_ok p -> c_value s (path_steps p) = Some v -> size_ok (length v) ->
  store_read_all p s = (Ok v, s).
Proof.
  intros Hs Hp Hv Hl. unfold store_read_all, mbind, M_bind. rewrite (store_value_size_spec s p v) by done.
  apply (read_chunks_spec s p v Hs Hp Hv (length v) 0); lia.
Qed.

(** Without a value, an error that tells whether there is a subtree. *)
Lemma store_read_all_none s p : c_ok s -> path_ok p -> c_value s (path_steps p) = None ->
  store_read_all p s =
    (Err (if (core_store_has p s =? 0)%Z then PathNotFound else HostErr StoreNotAValue), s).
Proof.
  intros Hs Hp Hv. unfold store_read_all, store_value_size, mbind, M_bind. rewrite check_path_exists_spec by done.
  destruct (_ =? _)%Z; [done|]. unfold host_query, host_result. by rewrite c_value_size_none, wrap_code.
Qed.

(** * Writing *)

(** From [s] to [s'], the value at [p] becomes [v] and the others are unchanged. *)
Definition sets s p (v : option bytes) s' : Prop :=
  c_ok s' /\ forall q, c_value s' q = if bool_decide (q = path_steps p) then v else c_value s q.

Lemma sets_at s p (v : option bytes) s' : sets s p v s' -> c_value s' (path_steps p) = v.
Proof. intros [_ H]. by rewrite H, bool_decide_eq_true_2. Qed.
Lemma sets_trans s p (v v' : option bytes) s' s'' : sets s p v s' -> sets s' p v' s'' -> sets s p v' s''.
Proof. intros [_ H] [Hs H']. split; [done|]. intros q. rewrite H', H. by case_bool_decide. Qed.
Lemma sets_refl s p : c_ok s -> sets s p (c_value s (path_steps p)) s.
Proof. intros Hs. split; [done|]. intros q. case_bool_decide; by subst. Qed.

Lemma host_write_spec s p off bs : c_ok s -> path_ok p -> length bs <= MAX_FILE_CHUNK_SIZE ->
  off <= length (default [] (c_value s (path_steps p))) -> size_ok (off + length bs) ->
  exists s', host_call (core_store_write p off bs) s = (Ok tt, s') /\
    sets s p (Some (patch (default [] (c_value s (path_steps p))) off bs)) s'.
Proof.
  intros Hs Hp Hl Ho Hz. destruct (c_write s p off bs Hs Hp Hl Ho Hz) as (s'&Hw&Hs'&Hv). exists s'.
  unfold host_call. rewrite Hw. done.
Qed.

Lemma write_chunks_spec fuel p src : forall s off, length src <= fuel -> c_ok s -> path_ok p ->
  src <> [] \/ is_Some (c_value s (path_steps p)) ->
  off <= length (default [] (c_value s (path_steps p))) -> size_ok (off + length src) ->
  exists s', write_chunks fuel p src off s = (Ok tt, s') /\
    sets s p (Some (patch (default [] (c_value s (path_steps p))) off src)) s'.
Proof.
  revert src. induction fuel as [|fuel IH]; intros src s off Hf Hs Hp Hne Ho Hz; cbn [write_chunks].
  { destruct src; [|cbn in Hf; lia]. destruct Hne as [|[v Hv]]; [done|]. rewrite (proj2 (Nat.ltb_ge _ _)) by (cbn; lia).
    exists s. split; [done|]. rewrite patch_nil, Hv. cbn. rewrite <- Hv. by apply sets_refl. }
  destruct (Nat.ltb_spec MAX_FILE_CHUNK_SIZE (length src)) as [Hlt|Hge].
  - assert (Ht : length (take MAX_FILE_CHUNK_SIZE src) = MAX_FILE_CHUNK_SIZE) by (rewrite length_take; lia).
    assert (0 < MAX_FILE_CHUNK_SIZE) by (unfold MAX_FILE_CHUNK_SIZE; lia).
    destruct (host_write_spec s p off (take MAX_FILE_CHUNK_SIZE src)) as (s1&Hw&Hv1);
      [done..|lia|done|unfold size_ok in *; lia|].
    pose proof (sets_at _ _ _ _ Hv1) as Hat.
    destruct (IH (drop MAX_FILE_CHUNK_SIZE src) s1 (off + MAX_FILE_CHUNK_SIZE)) as (s2&Hw2&Hv2).
    + rewrite length_drop. lia.
    + apply Hv1.
    + done.
    + right. rewrite Hat. eauto.
    + rewrite Hat. cbn. rewrite length_patch by done. lia.
    + unfold size_ok in *. rewrite length_drop. lia.
    + exists s2. unfold mbind, M_bind. rewrite Hw. split; [done|]. eapply sets_trans; [done|].
      rewrite Hat in Hv2. cbn in Hv2. 
      replace (off + MAX_FILE_CHUNK_SIZE) with (off + length (take MAX_FILE_CHUNK_SIZE src)) in Hv2 by lia.
      by rewrite patch_app, take_drop in Hv2.
  - destruct src as [|b src].
    + destruct Hne as [|[v Hv]]; [done|]. exists s. split; [done|]. rewrite patch_nil, Hv. cbn. rewrite <- Hv.
      by apply sets_refl.
    + by apply host_write_spec.
Qed.

Lemma store_write_spec s p src off : c_ok s -> path_ok p ->
  off <= length (default [] (c_value s (path_steps p))) -> size_ok (off + length src) ->
  exists s', store_write p src off s = (Ok tt, s') /\
    sets s p (Some (patch (default [] (c_value s (path_steps p))) off src)) s'.
Proof.
  intros Hs Hp Ho Hz. unfold store_write. destruct (Nat.leb_spec (length src) MAX_FILE_CHUNK_SIZE) as [Hle|Hgt].
  - by apply host_write_spec.
  - apply write_chunks_spec; try done. left. intros ->. cbn in Hgt. lia.
Qed.

Lemma store_write_out s p src off : c_ok s -> path_ok p ->
  length (default [] (c_value s (path_steps p))) < off -> store_write p src off s = (Err (HostErr StoreInvalidAccess), s).
Proof.
  intros Hs Hp Ho.
  assert (Hw : forall bs, length bs <= MAX_FILE_CHUNK_SIZE ->
    host_call (core_store_write p off bs) s = (Err (HostErr StoreInvalidAccess), s)).
  { intros bs Hl. unfold host_call. rewrite c_write_out by done. done. }
  unfold store_write. destruct (Nat.leb_spec (length src) MAX_FILE_CHUNK_SIZE) as [Hle|Hgt]; [by apply Hw|].
  destruct src as [|b src]; [cbn in Hgt; lia|]. cbn [length write_chunks].
  rewrite (proj2 (Nat.ltb_lt _ _)) by done. unfold mbind, M_bind. rewrite Hw; [done|]. rewrite length_take. lia.
Qed.

Lemma store_write_all_spec s p v : c_ok s -> path_ok p -> size_ok (length v) ->
  exists s', store_write_all p v s = (Ok tt, s') /\ sets s p (Some v) s'.
Proof.
  intros Hs Hp Hz. destruct (c_delete_value s p Hs Hp) as (s1&Hd&Hs1&Hv1).
  assert (Hsets : sets s p None s1) by done. pose proof (sets_at _ _ _ _ Hsets) as Hat.
  destruct (store_write_spec s1 p v 0) as (s2&Hw&Hv2); [done..|lia|done|].
  rewrite Hat in Hv2. cbn -[patch] in Hv2. rewrite patch_0 in Hv2. exists s2.
  unfold store_write_all, store_delete_value, mbind, M_bind, host_call at 1. rewrite Hd. cbn.
  split; [done|]. by eapply sets_trans.
Qed.

(** * Nodes *)

Lemma host_write_nodes s p off bs q : path_ok p -> c_node (host_call (core_store_write p off bs) s).2 q ->
  c_node s q \/ q `prefix_of` path_steps p.
Proof.
  intros Hp. unfold host_call. pose proof (c_write_nodes s p off bs q Hp) as H.
  by destruct (core_store_write p off bs s).
Qed.

Lemma write_chunks_nodes fuel p q : path_ok p -> forall src off s, c_node (write_chunks fuel p src off s).2 q ->
  c_node s q \/ q `prefix_of` path_steps p.
Proof.
  intros Hp. induction fuel as [|fuel IH]; intros src off s; cbn [write_chunks].
  { destruct (_ <? _); [by left|]. destruct src; [by left|]. by apply host_write_nodes. }
  destruct (_ <? _).
  - unfold mbind, M_bind. pose proof (host_write_nodes s p off (take MAX_FILE_CHUNK_SIZE src) q Hp) as H.
    destruct (host_call _ s) as [[[]|e|pn|] s1]; cbn in H; [|done..]. intros [H1|H1]%IH; [by apply H|by right].
  - destruct src; [by left|]. by apply host_write_nodes.
Qed.

(** Writing makes no node but on the way to the path. *)
Lemma store_write_nodes s p v off q : path_ok p -> c_node (store_write p v off s).2 q -> c_node s q \/ q `prefix_of` path_steps p.
Proof. intros Hp. unfold store_write. destruct (_ <=? _); [by apply host_write_nodes|by apply write_chunks_nodes]. Qed.
Lemma store_write_all_nodes s p v q : path_ok p -> c_node (store_write_all p v s).2 q ->
  c_node s q \/ q `prefix_of` path_steps p.
Proof.
  intros Hp. unfold store_write_all, store_delete_value, mbind, M_bind, host_call at 1.
  pose proof (c_delete_value_nodes s p q Hp) as Hd. destruct (core_store_delete_value p s) as [c s1]. cbn in Hd.
  destruct (host_result c); cbn; [|by left; apply Hd..]. intros [H|H]%store_write_nodes; [left; by apply Hd|by right|done].
Qed.

Lemma store_delete_nodes s p q : path_ok p -> c_ok s -> core_store_has p s <> 0%Z -> c_node (store_delete p s).2 q ->
  c_node s q /\ strip (path_steps p) q = None.
Proof.
  intros Hp Hs Hne. unfold store_delete, mbind, M_bind. rewrite check_path_exists_spec by done.
  rewrite (proj2 (Z.eqb_neq _ _)) by done. unfold host_call. pose proof (c_delete_nodes s p q Hp) as H.
  by destruct (core_store_delete p s).
Qed.

(** A path without nodes below is a value or nothing. *)
Lemma store_has_leaf s p : c_ok s -> path_ok p -> (forall x, ~ c_node s (path_steps p ++ [x])) ->
  store_has p s = (Ok (if bool_decide (is_Some (c_value s (path_steps p))) then Some Value else None), s).
Proof.
  intros Hs Hp Hn. destruct (store_has_spec s p Hs Hp) as (sub&_&_&Hsub&Hr). rewrite Hr.
  destruct sub; [destruct (Hsub eq_refl) as [x Hx]; by destruct (Hn x)|]. by destruct (bool_decide _).
Qed.

(** ** Reading a part of a value *)

Lemma store_read_ok s path v off max : c_ok s -> path_ok path -> c_value s (path_steps path) = Some v -> off <= length v ->
  store_read path off max s = (Ok (slice off (Nat.min MAX_FILE_CHUNK_SIZE (Nat.min max (length v - off))) v), s).
Proof.
  intros Hs Hp Hv Ho. unfold store_read, mbind, M_bind.
  assert (Ec : check_path_has_value path s = (Ok tt, s)).
  { unfold check_path_has_value. destruct (store_has_spec s path Hs Hp) as (sub&_&_&_&Hr). rewrite Hr, Hv. by destruct sub. }
  rewrite Ec. unfold KernelHost.store_read_slice. rewrite repeat_length, (c_read s path off _ v) by done. cbn zeta. unfold host_result. rewrite wrap_nat.
  cbn [map_err mbind outcome_bind]. set (n := Nat.min _ _). replace (MAX_FILE_CHUNK_SIZE `min` (max `min` (length v - off))) with n by lia.
  cbn. do 2 f_equal. assert (Hsl : length (slice off n v) = n) by (rewrite length_slice; lia). by rewrite take_app_le, take_ge by lia.
Qed.
Lemma store_read_none s path off max : c_ok s -> path_ok path -> c_value s (path_steps path) = None ->
  store_read path off max s = (Err PathNotFound, s).
Proof.
  intros Hs Hp Hv. unfold store_read, mbind, M_bind, check_path_has_value. destruct (store_has_spec s path Hs Hp) as (sub&_&_&_&Hr).
  rewrite Hr, Hv. by destruct sub.
Qed.
Lemma node_of_value s q : c_ok s -> is_Some (c_value s q) -> c_node s q.
Proof. intros Hs Hv. apply (c_value_node s q []); [done|]. by rewrite app_nil_r. Qed.

(** * Properties *)

(** Values of any size survive the durable storage.  [store_write_all] followed by [store_read_all]
    gives the value back, although hosts move at most 2048 bytes at a time and whatever longer value was
    there; no other path changes; the loop of [store_read_all] ends. *)
Theorem write_all_read_all s p v : c_ok s -> path_ok p -> size_ok (length v) ->
  exists s', store_write_all p v s = (Ok tt, s') /\ c_ok s' /\ store_read_all p s' = (Ok v, s') /\
    forall q, path_ok q -> q <> p -> c_value s' (path_steps q) = c_value s (path_steps q).
Proof.
  intros Hs Hp Hz. destruct (store_write_all_spec s p v Hs Hp Hz) as (s'&Hw&Hv). exists s'.
  split_and!; [done|apply Hv| |].
  - apply store_read_all_spec; [apply Hv|done|by apply (sets_at s p)|done].
  - intros q Hq Hne. destruct Hv as [_ Hv]. rewrite Hv. rewrite bool_decide_eq_false_2; [done|].
    intros E. by apply path_steps_inj in E.
Qed.

(** [store_write] patches a value in place, in one or many chunks: the bytes before the offset and after the
    data are kept.  An offset past the end is refused and nothing changes. *)
Theorem store_write_patches s p v src off : c_ok s -> path_ok p -> c_value s (path_steps p) = Some v ->
  size_ok (length v) -> size_ok (off + length src) ->
  if off <=? length v then
    exists s', store_write p src off s = (Ok tt, s') /\
      store_read_all p s' = (Ok (take off v ++ src ++ drop (off + length src) v), s')
  else store_write p src off s = (Err (HostErr StoreInvalidAccess), s).
Proof.
  intros Hs Hp Hv Hz Hz'. destruct (Nat.leb_spec off (length v)) as [Hle|Hgt].
  - destruct (store_write_spec s p src off) as (s'&Hw&Hset); [done..|by rewrite Hv|done|]. exists s'. split; [done|].
    rewrite Hv in Hset. cbn in Hset. apply store_read_all_spec; [apply Hset|done|by apply (sets_at s p)|].
    change (size_ok (length (patch v off src))). rewrite length_patch by done. unfold size_ok in *. lia.
  - apply store_write_out; [done..|by rewrite Hv].
Qed.
End runtime.
