(* ===== verification/KernelStoreLaws.v ===== *)
(** The in-memory storage satisfies the laws of the host functions. *)

From S2P Require Import Prelude Endian KernelPath KernelHost KernelStore.

(** * Values of a tree *)

Definition value_at (n : Node) (q : list bytes) : option bytes := m ← node_from_path q n; value m.

Lemma value_at_cons n x q : value_at n (x :: q) = (m ← inner n !! x; value_at m q).
Proof. unfold value_at. cbn. by destruct (inner n !! x). Qed.

Lemma value_at_default q : value_at node_default q = None.
Proof. by destruct q. Qed.

Lemma is_node_default_spec n : is_node_default n = true -> n = node_default.
Proof.
  unfold is_node_default. rewrite andb_true_iff, bool_decide_eq_true, Nat.eqb_eq. destruct n as [v i]; cbn.
  intros [-> H]. apply map_size_empty_inv in H. by rewrite H.
Qed.

Lemma node_from_path_app p q n : node_from_path (p ++ q) n = (m ← node_from_path p n; node_from_path q m).
Proof. revert n. induction p as [|x p IH]; intros n; cbn; [done|]. destruct (inner n !! x); cbn; [apply IH|done]. Qed.

Lemma value_at_app p q n : value_at n (p ++ q) = (m ← node_from_path p n; value_at m q).
Proof. unfold value_at. rewrite node_from_path_app. by destruct (node_from_path p n). Qed.

Lemma value_at_insert p ins n q :
  value_at (node_insert p ins n) q = match strip p q with Some r => value_at ins r | None => value_at n q end.
Proof.
  revert n q. induction p as [|x p IH]; intros n q; cbn [node_insert strip]; [done|]. destruct q as [|y q]; [done|].
  rewrite !value_at_cons. cbn [inner]. case_bool_decide; subst.
  - rewrite lookup_insert_eq. cbn [mbind option_bind]. rewrite IH. destruct (strip p q); [done|].
    destruct (inner n !! y); cbn; [done|apply value_at_default].
  - by rewrite lookup_insert_ne.
Qed.

Lemma value_at_update f p n n' q : node_update f p n = Some n' ->
  value_at n' q = match strip p q with Some r => m ← node_from_path p n; value_at (f m) r | None => value_at n q end.
Proof.
  revert n n' q. induction p as [|x p IH]; intros n n' q H; cbn [node_update strip] in *.
  { by injection H as <-. }
  destruct (inner n !! x) as [c|] eqn:Hx; cbn in H; [|done].
  destruct (node_update f p c) as [c'|] eqn:Hc; cbn in H; [|done]. injection H as <-.
  destruct q as [|y q]; [done|]. rewrite !value_at_cons. cbn [inner]. case_bool_decide; subst.
  - rewrite lookup_insert_eq. cbn. rewrite Hx. cbn. by apply IH.
  - by rewrite lookup_insert_ne.
Qed.

Lemma node_update_None f p n : node_update f p n = None <-> node_from_path p n = None.
Proof.
  revert n. induction p as [|x p IH]; intros n; cbn; [done|]. destruct (inner n !! x) as [c|]; cbn; [|done].
  rewrite <- IH. by destruct (node_update f p c).
Qed.

Lemma value_at_remove p n : p <> [] ->
  match node_remove p n with
  | Some (n', _) => forall q, value_at n' q = match strip p q with Some _ => None | None => value_at n q end
  | None => forall r, value_at n (p ++ r) = None
  end.
Proof.
  revert n. induction p as [|x p IH]; intros n Hp; [done|]. destruct p as [|y p].
  - cbn [node_remove]. intros [|z q]; [done|]. cbn [strip]. rewrite !value_at_cons. cbn [inner].
    case_bool_decide; subst; [by rewrite lookup_delete_eq|by rewrite lookup_delete_ne].
  - change (node_remove (x :: y :: p) n) with
      (c ← inner n !! x; '(c, e) ← node_remove (y :: p) c; Some (mkNode (value n) (<[x := c]> (inner n)), e)).
    destruct (inner n !! x) as [c|] eqn:Hx; cbn [mbind option_bind].
    2: { intros r. cbn [app]. rewrite value_at_cons. by rewrite Hx. }
    specialize (IH c ltac:(done)). destruct (node_remove (y :: p) c) as [[c' e]|]; cbn [mbind option_bind].
    + intros [|z q]; [done|]. rewrite !value_at_cons. cbn [inner]. change (strip (x :: y :: p) (z :: q)) with
        (if bool_decide (x = z) then strip (y :: p) q else None).
      case_bool_decide; subst; [|by rewrite lookup_insert_ne]. rewrite lookup_insert_eq, Hx. apply IH.
    + intros r. cbn [app]. rewrite value_at_cons, Hx. apply IH.
Qed.

(** When [node_remove] reports an empty parent, the parent is in the tree and empty. *)
Lemma node_remove_empty l x n n' : node_remove (l ++ [x]) n = Some (n', true) -> node_from_path l n' = Some node_default.
Proof.
  revert n n'. induction l as [|y l IH]; intros n n' H.
  - cbn in H. injection H as <- H. f_equal. by apply is_node_default_spec.
  - assert (Hr : node_remove (y :: l ++ [x]) n =
      (c ← inner n !! y; '(c, e) ← node_remove (l ++ [x]) c; Some (mkNode (value n) (<[y := c]> (inner n)), e))) by (by destruct l).
    cbn [app] in H. rewrite Hr in H. destruct (inner n !! y) as [c|]; cbn in H; [|done].
    destruct (node_remove (l ++ [x]) c) as [[c' e]|] eqn:Hc; cbn in H; [|done]. injection H as <- ->.
    cbn. rewrite lookup_insert_eq. cbn. by eapply IH.
Qed.

Lemma value_at_delete k steps n : k <= length steps -> forall q,
  k <> 0 -> value_at (node_delete k steps n) q = match strip (take k steps) q with Some _ => None | None => value_at n q end.
Proof.
  revert n. induction k as [|k IH]; intros n Hk q Hne; [done|]. cbn [node_delete].
  pose proof (value_at_remove (take (S k) steps) n) as Hr. destruct (lookup_lt_is_Some_2 steps k ltac:(lia)) as [x Hx].
  pose proof (take_S_r _ _ _ Hx) as Ht. rewrite Ht in *.
  specialize (Hr ltac:(by destruct (take k steps))).
  destruct (node_remove (take k steps ++ [x]) n) as [[n' e]|] eqn:E.
  2: { destruct (strip _ q) as [r|] eqn:Es; [|done]. apply strip_Some in Es as ->. apply Hr. }
  destruct e; [|apply Hr]. apply node_remove_empty in E.
  assert (Hu : forall r, value_at n' (take k steps ++ r) = None)
    by (intros r; rewrite value_at_app, E; apply value_at_default).
  destruct (decide (k = 0)) as [->|Hk0]; [apply Hr|]. rewrite IH by lia.
  destruct (strip (take k steps) q) as [r|] eqn:Es; [|by rewrite Hr].
  apply strip_Some in Es as ->. rewrite <- Hr. symmetry. apply Hu.
Qed.

(** * Well-formed trees *)

(** A node has a child for its value if it has one; the other names are legal steps. *)
Inductive tree_ok : Node -> Prop :=
  | tree_node v i :
      (is_Some v <-> is_Some (i !! VALUE_NAME)) ->
      (forall k, k <> VALUE_NAME -> is_Some (i !! k) -> step_ok k) ->
      (forall k m, k <> VALUE_NAME -> i !! k = Some m -> tree_ok m) ->
      tree_ok (mkNode v i).

Lemma value_name_not_step : ~ step_ok VALUE_NAME.
Proof. intros [_ H]. apply Forall_cons in H as [H _]. done. Qed.

Lemma tree_ok_intro n : (is_Some (value n) <-> is_Some (inner n !! VALUE_NAME)) ->
  (forall k m, k <> VALUE_NAME -> inner n !! k = Some m -> step_ok k /\ tree_ok m) -> tree_ok n.
Proof. destruct n as [v i]. intros Hv H. constructor; [done| |]; [intros k Hk []; by eapply H|intros k m Hk Hm; by eapply H]. Qed.
Lemma tree_ok_default : tree_ok node_default.
Proof. apply tree_ok_intro; cbn; [rewrite lookup_empty; split; by intros []|]. intros k m _ H. by rewrite lookup_empty in H. Qed.

Lemma step_not_value_name k : step_ok k -> VALUE_NAME <> k.
Proof. intros H <-. by apply value_name_not_step. Qed.

Lemma tree_ok_value n : tree_ok n -> is_Some (value n) <-> is_Some (inner n !! VALUE_NAME).
Proof. intros [v i Hv _ _]. apply Hv. Qed.
Lemma tree_ok_children n k m : tree_ok n -> k <> VALUE_NAME -> inner n !! k = Some m -> step_ok k /\ tree_ok m.
Proof. intros [v i _ Hk Hc] Hne H. cbn in H. eauto. Qed.
Lemma tree_ok_child n k m : tree_ok n -> step_ok k -> inner n !! k = Some m -> tree_ok m.
Proof. intros Hn Hk%step_not_value_name H. by apply (tree_ok_children n k). Qed.

Lemma tree_ok_from_path q n m : Forall step_ok q -> tree_ok n -> node_from_path q n = Some m -> tree_ok m.
Proof.
  revert n. induction q as [|x q IH]; intros n Hq Hn H; cbn in H; [by injection H as <-|].
  apply Forall_cons in Hq as [Hx Hq]. destruct (inner n !! x) as [c|] eqn:Hc; cbn in H; [|done].
  eapply IH; [done| |done]. by eapply tree_ok_child.
Qed.

(** Replacing a child. *)
Lemma tree_ok_set_child n x c : step_ok x -> tree_ok n -> tree_ok c -> tree_ok (mkNode (value n) (<[x := c]> (inner n))).
Proof.
  intros Hx Hn Hc. apply tree_ok_intro.
  - cbn. rewrite lookup_insert_ne by (intros ->; by apply value_name_not_step). by apply tree_ok_value.
  - cbn. intros k m Hk. destruct (decide (x = k)) as [<-|Hne].
    + rewrite lookup_insert_eq. by intros [= <-].
    + rewrite lookup_insert_ne by done. by apply tree_ok_children.
Qed.

Lemma tree_ok_insert p ins n : Forall step_ok p -> tree_ok ins -> tree_ok n -> tree_ok (node_insert p ins n).
Proof.
  revert n. induction p as [|x p IH]; intros n Hp Hi Hn; cbn [node_insert]; [done|]. apply Forall_cons in Hp as [Hx Hp].
  apply tree_ok_set_child; [done..|]. apply IH; [done..|]. destruct (inner n !! x) as [c|] eqn:E; cbn.
  - by eapply tree_ok_child.
  - apply tree_ok_default.
Qed.

Lemma tree_ok_update f p n n' : Forall step_ok p -> (forall m, tree_ok m -> tree_ok (f m)) -> tree_ok n ->
  node_update f p n = Some n' -> tree_ok n'.
Proof.
  revert n n'. induction p as [|x p IH]; intros n n' Hp Hf Hn H; cbn in H.
  { injection H as <-. by apply Hf. }
  apply Forall_cons in Hp as [Hx Hp]. destruct (inner n !! x) as [c|] eqn:Hc; cbn in H; [|done].
  destruct (node_update f p c) as [c'|] eqn:E; cbn in H; [|done]. injection H as <-.
  apply tree_ok_set_child; [done..|]. eapply IH; [done..| |done]. by eapply tree_ok_child.
Qed.

Lemma tree_ok_with_value v n : tree_ok n -> tree_ok (with_value v n).
Proof.
  intros Hn. apply tree_ok_intro; [cbn; rewrite lookup_insert_eq; split; eauto|]. intros k m Hk H.
  cbn in H. rewrite lookup_insert_ne in H by done. by eapply tree_ok_children.
Qed.
Lemma tree_ok_without_value n : tree_ok n -> tree_ok (without_value n).
Proof.
  intros Hn. apply tree_ok_intro; [cbn; rewrite lookup_delete_eq; split; by intros []|]. intros k m Hk H.
  cbn in H. rewrite lookup_delete_ne in H by done. by eapply tree_ok_children.
Qed.

Lemma tree_ok_remove p n n' e : Forall step_ok p -> tree_ok n -> node_remove p n = Some (n', e) -> tree_ok n'.
Proof.
  revert n n'. induction p as [|x p IH]; intros n n' Hp Hn H; [done|]. apply Forall_cons in Hp as [Hx Hp].
  destruct p as [|y p].
  - injection H as <- _. apply tree_ok_intro; cbn.
    + rewrite lookup_delete_ne by (intros ->; by apply value_name_not_step). by apply tree_ok_value.
    + intros k m Hk Hl. apply lookup_delete_Some in Hl as [_ Hl]. by eapply tree_ok_children.
  - change (node_remove (x :: y :: p) n) with
      (c ← inner n !! x; '(c, e) ← node_remove (y :: p) c; Some (mkNode (value n) (<[x := c]> (inner n)), e)) in H.
    destruct (inner n !! x) as [c|] eqn:Hc; cbn [mbind option_bind] in H; [|done].
    destruct (node_remove (y :: p) c) as [[c' e']|] eqn:E; cbn [mbind option_bind] in H; [|done]. injection H as <- ->.
    apply tree_ok_set_child; [done..|]. eapply IH; [done| |done]. by eapply tree_ok_child.
Qed.

Lemma tree_ok_delete k steps n : Forall step_ok steps -> tree_ok n -> tree_ok (node_delete k steps n).
Proof.
  intros Hs. revert n. induction k as [|k IH]; intros n Hn; cbn [node_delete]; [done|].
  destruct (node_remove (take (S k) steps) n) as [[n' []]|] eqn:E; [apply IH| |done].
  all: eapply tree_ok_remove; [|done|done]; by apply Forall_take.
Qed.

(** * The laws *)

#[global] Instance step_ok_dec s : Decision (step_ok s).
Proof. unfold step_ok. apply _. Defined.

Definition legal_value (n : Node) (q : list bytes) : option bytes :=
  if decide (Forall step_ok q) then value_at n q else None.

Lemma legal_value_ok n q : Forall step_ok q -> legal_value n q = value_at n q.
Proof. intros H. unfold legal_value. by rewrite decide_True. Qed.

(** To compare values after an operation it is enough to look at legal steps. *)
Lemma legal_value_ext n (f : list bytes -> option bytes) :
  (forall q, Forall step_ok q -> value_at n q = f q) -> (forall q, ~ Forall step_ok q -> f q = None) ->
  forall q, legal_value n q = f q.
Proof. intros H1 H2 q. unfold legal_value. destruct (decide _); [by apply H1|by rewrite H2]. Qed.

Lemma path_steps_legal p : path_ok p -> Forall step_ok (path_steps p) /\ path_steps p <> [].
Proof. intros [_ [H1 H2]]%path_ok_steps. done. Qed.

Lemma validate_ok p : path_ok p -> validate p = Ok p.
Proof. intros H%validate_path_spec. unfold validate, try_from. by rewrite H. Qed.

Lemma validate_maybe_readonly_ok p : path_ok p -> validate_path_maybe_readonly p = Ok p.
Proof.
  intros Hp. pose proof (proj2 (validate_path_spec p) Hp) as H. unfold validate_path in H.
  destruct (validate_path_internal p); cbn [mbind outcome_bind] in H; try done. unfold validate_path_maybe_readonly.
  unfold READONLY_PREFIX. destruct (bool_decide (p = str "/readonly")) eqn:E1; [done|]. destruct (bool_decide (take 10 p = str "/readonly/")) eqn:E2; [done|].
  rewrite andb_false_r. by apply validate_ok.
Qed.

Lemma set_value_spec p v root q : path_ok p -> Forall step_ok q ->
  value_at (set_value p v root) q = if bool_decide (q = path_steps p) then Some v else value_at root q.
Proof.
  intros Hp Hq. unfold set_value.
  assert (Hw : forall m r, Forall step_ok r -> value_at (with_value v m) r = match r with [] => Some v | _ => value_at m r end).
  { intros m [|x r] Hr; [done|]. apply Forall_cons in Hr as [Hx _]. rewrite !value_at_cons. cbn [with_value inner].
    rewrite lookup_insert_ne; [done|]. intros <-. by apply value_name_not_step. }
  assert (Hcase : forall (f : list bytes -> option bytes), (forall r, Forall step_ok r -> r <> [] -> f r = value_at root (path_steps p ++ r)) ->
    f [] = Some v -> match strip (path_steps p) q with Some r => f r | None => value_at root q end =
      if bool_decide (q = path_steps p) then Some v else value_at root q).
  { intros f Hf Hf0. destruct (strip (path_steps p) q) as [r|] eqn:Es.
    - apply strip_Some in Es as ->. apply Forall_app in Hq as [_ Hr]. destruct r as [|x r].
      + rewrite app_nil_r. by rewrite bool_decide_eq_true_2.
      + rewrite bool_decide_eq_false_2; [by apply Hf|]. intros E. rewrite <- (app_nil_r (path_steps p)) in E at 2. by apply app_inv_head in E.
    - rewrite bool_decide_eq_false_2; [done|]. intros ->. by rewrite strip_refl in Es. }
  destruct (node_update (with_value v) (path_steps p) root) as [root'|] eqn:E.
  - rewrite (value_at_update _ _ _ _ q E). destruct (node_from_path (path_steps p) root) as [m|] eqn:Em.
    2: { apply node_update_None with (f := with_value v) in Em. congruence. }
    apply (Hcase (fun r => value_at (with_value v m) r)); [|done]. intros r Hr Hne. rewrite Hw by done.
    rewrite value_at_app, Em. by destruct r.
  - apply node_update_None in E. rewrite value_at_insert.
    apply (Hcase (fun r => value_at (with_value v node_default) r)); [|done].
    intros r Hr Hne. rewrite Hw by done. rewrite value_at_app, E. destruct r; [done|apply value_at_default].
Qed.

Lemma delete_value_spec p root q : path_ok p -> Forall step_ok q ->
  value_at (delete_value p root) q = if bool_decide (q = path_steps p) then None else value_at root q.
Proof.
  intros Hp Hq. unfold delete_value. destruct (node_update without_value (path_steps p) root) as [root'|] eqn:E; cbn.
  - rewrite (value_at_update _ _ _ _ q E). destruct (strip (path_steps p) q) as [r|] eqn:Es.
    + apply strip_Some in Es as ->. apply Forall_app in Hq as [_ Hr]. rewrite value_at_app.
      destruct r as [|x r].
      * rewrite app_nil_r, bool_decide_eq_true_2 by done. by destruct (node_from_path _ _).
      * rewrite bool_decide_eq_false_2. 2: { intros Ea. rewrite <- (app_nil_r (path_steps p)) in Ea at 2. by apply app_inv_head in Ea. }
        apply Forall_cons in Hr as [Hx _]. destruct (node_from_path _ _) as [m|]; cbn [mbind option_bind]; [|done].
        rewrite !value_at_cons. cbn [without_value inner]. rewrite lookup_delete_ne; [done|].
        intros <-. by apply value_name_not_step.
    + rewrite bool_decide_eq_false_2; [done|]. intros ->. by rewrite strip_refl in Es.
  - apply node_update_None in E. case_bool_decide; [|done]. subst. unfold value_at. by rewrite E.
Qed.

Lemma tree_ok_set_value p v root : path_ok p -> tree_ok root -> tree_ok (set_value p v root).
Proof.
  intros [Hs _]%path_steps_legal Hr. unfold set_value. destruct (node_update _ _ _) as [root'|] eqn:E.
  - eapply tree_ok_update; [exact Hs| |exact Hr|exact E]. intros m. apply tree_ok_with_value.
  - apply tree_ok_insert; [done| |done]. apply tree_ok_with_value, tree_ok_default.
Qed.

(** A node has more children than its value exactly if it has a legal child. *)
Lemma subtree_spec m : tree_ok m ->
  (Z.b2z (bool_decide (is_Some (value m))) <? Z.of_nat (size (inner m)))%Z = true <->
  exists x c, step_ok x /\ inner m !! x = Some c.
Proof.
  intros Hm. set (i := base.delete VALUE_NAME (inner m)).
  assert (Hsz : Z.of_nat (size (inner m)) = (Z.b2z (bool_decide (is_Some (value m))) + Z.of_nat (size i))%Z).
  { unfold i. rewrite map_size_delete. pose proof (tree_ok_value m Hm) as Hv.
    destruct (inner m !! VALUE_NAME) as [c|] eqn:E.
    - rewrite bool_decide_eq_true_2 by (apply Hv; eauto). assert (size (inner m) <> 0) by (eapply map_size_ne_0_lookup_2; rewrite E; eauto).
      cbn. lia.
    - rewrite bool_decide_eq_false_2; [done|]. intros H%Hv. by destruct H. }
  rewrite Hsz, Z.ltb_lt. split.
  - intros H. assert (Hne : size i <> 0) by lia. apply map_size_ne_0_lookup in Hne as (x&c&Hx).
    apply lookup_delete_Some in Hx as [Hx Hc]. destruct (tree_ok_children m x c Hm) as [Hs _]; [done..|]. eauto.
  - intros (x&c&Hx&Hc). assert (size i <> 0); [|lia]. apply map_size_ne_0_lookup. exists x. unfold i.
    rewrite lookup_delete_ne; [eauto|by apply step_not_value_name].
Qed.

(** The kind reported for a path. *)
Lemma handle_store_has_spec p root : path_ok p -> tree_ok root -> exists sub,
  handle_store_has p root = Ok (value_type (bool_decide (is_Some (value_at root (path_steps p)))) sub) /\
  (sub = true <-> exists m x c, node_from_path (path_steps p) root = Some m /\ step_ok x /\ inner m !! x = Some c) /\
  (value_type (bool_decide (is_Some (value_at root (path_steps p)))) sub <> 0%Z -> is_Some (node_from_path (path_steps p) root)).
Proof.
  intros Hp Hr. unfold handle_store_has, handle_store_list_size, has_entry. rewrite validate_ok by done.
  cbn [mbind outcome_bind].
  assert (Hva : value_at root (path_steps p) = match node_from_path (path_steps p) root with Some m => value m | None => None end)
    by (unfold value_at; by destruct (node_from_path _ _)).
  destruct (node_from_path (path_steps p) root) as [m|] eqn:E; rewrite !Hva; cbn [mbind option_bind].
  2: { exists false. split_and!; [done| |done]. naive_solver. }
  eexists. split_and!; [reflexivity| |by eexists]. apply path_steps_legal in Hp as [Hs _].
  rewrite (subtree_spec m (tree_ok_from_path _ _ _ Hs Hr E)). naive_solver.
Qed.

Definition store_ok (s : Store) : Prop := tree_ok (durable s).
Definition store_value (s : Store) : list bytes -> option bytes := legal_value (durable s).
Definition node_at (n : Node) (q : list bytes) : Prop := Forall step_ok q /\ is_Some (node_from_path q n).

(** The kind reported, in terms of [legal_value]. *)
Lemma core_has_spec s p : store_ok s -> path_ok p -> exists sub,
  core_store_has p s = value_type (bool_decide (is_Some (store_value s (path_steps p)))) sub /\
  (forall r, r <> [] -> is_Some (store_value s (path_steps p ++ r)) -> sub = true) /\
  (sub = true -> exists x, node_at (durable s) (path_steps p ++ [x])) /\
  (core_store_has p s <> 0%Z -> is_Some (node_from_path (path_steps p) (durable s))).
Proof.
  intros Hs Hp. destruct (path_steps_legal p Hp) as [Hl _].
  destruct (handle_store_has_spec p (durable s) Hp Hs) as (sub&Hh&Hsub&Hn). exists sub.
  unfold store_value. rewrite legal_value_ok by done. cbn. rewrite Hh. split_and!; [done| | |done].
  - intros r Hne. unfold legal_value. destruct (decide _) as [Hr|]; [|by intros []]. apply Forall_app in Hr as [_ Hr].
    rewrite value_at_app. intros [v Hv]. apply Hsub. destruct (node_from_path _ _) as [m|]; cbn in Hv; [|done].
    destruct r as [|x r]; [done|]. rewrite value_at_cons in Hv. apply Forall_cons in Hr as [Hx _].
    destruct (inner m !! x) as [c|] eqn:Hc; [|done]. eauto 6.
  - intros (m&x&c&Hm&Hx&Hc)%Hsub. exists x. split; [apply Forall_app; auto|]. rewrite node_from_path_app, Hm. cbn.
    rewrite Hc. by eexists.
Qed.

(** * Nodes of a tree *)

Lemma nodes_insert p ins n q : is_Some (node_from_path q (node_insert p ins n)) ->
  match strip p q with
  | Some r => is_Some (node_from_path r ins)
  | None => is_Some (node_from_path q n) \/ q `prefix_of` p
  end.
Proof.
  revert n q. induction p as [|x p IH]; intros n q H; cbn [node_insert strip] in *; [done|].
  destruct q as [|y q]; [left; by eexists|]. cbn in H. case_bool_decide; subst.
  - rewrite lookup_insert_eq in H. cbn in H. apply IH in H. destruct (strip p q); [done|]. cbn.
    destruct H as [H|H]; [|right; by apply prefix_cons]. destruct (inner n !! y) as [c|]; cbn in *; [by left|].
    destruct q; [right; apply prefix_cons, prefix_nil|by destruct H].
  - rewrite lookup_insert_ne in H by done. by left.
Qed.

Lemma nodes_update f p n n' q : node_update f p n = Some n' -> is_Some (node_from_path q n') ->
  match strip p q with
  | Some r => exists m, node_from_path p n = Some m /\ is_Some (node_from_path r (f m))
  | None => is_Some (node_from_path q n)
  end.
Proof.
  revert n n' q. induction p as [|x p IH]; intros n n' q H Hq; cbn [node_update strip] in *.
  { injection H as <-. cbn. eauto. }
  destruct (inner n !! x) as [c|] eqn:Hx; cbn in H; [|done].
  destruct (node_update f p c) as [c'|] eqn:Hc; cbn in H; [|done]. injection H as <-.
  destruct q as [|y q]; [by eexists|]. cbn in Hq |- *. case_bool_decide; subst.
  - rewrite lookup_insert_eq in Hq. cbn in Hq. rewrite Hx. cbn. by eapply IH.
  - by rewrite lookup_insert_ne in Hq.
Qed.

Lemma nodes_remove p n : p <> [] ->
  match node_remove p n with
  | Some (n', _) => forall q, is_Some (node_from_path q n') -> is_Some (node_from_path q n) /\ strip p q = None
  | None => node_from_path p n = None
  end.
Proof.
  revert n. induction p as [|x p IH]; intros n Hp; [done|]. destruct p as [|y p].
  - cbn [node_remove]. intros [|z q]; [by cbn; eauto|]. cbn. case_bool_decide; subst.
    + rewrite lookup_delete_eq. by intros [].
    + by rewrite lookup_delete_ne.
  - change (node_remove (x :: y :: p) n) with
      (c ← inner n !! x; '(c, e) ← node_remove (y :: p) c; Some (mkNode (value n) (<[x := c]> (inner n)), e)).
    destruct (inner n !! x) as [c|] eqn:Hx; cbn [mbind option_bind]. 2: { cbn. by rewrite Hx. }
    specialize (IH c ltac:(done)). destruct (node_remove (y :: p) c) as [[c' e]|]; cbn [mbind option_bind].
    + intros [|z q]; [by cbn; eauto|]. change (strip (x :: y :: p) (z :: q)) with
        (if bool_decide (x = z) then strip (y :: p) q else None). cbn [node_from_path inner].
      case_bool_decide; subst; [|by rewrite lookup_insert_ne]. rewrite lookup_insert_eq, Hx. apply IH.
    + change (node_from_path (x :: y :: p) n) with (c ← inner n !! x; node_from_path (y :: p) c). by rewrite Hx.
Qed.

Lemma nodes_delete k steps n q : k <= length steps -> k <> 0 -> is_Some (node_from_path q (node_delete k steps n)) ->
  is_Some (node_from_path q n) /\ strip (take k steps) q = None.
Proof.
  revert n. induction k as [|k IH]; intros n Hk Hne H; [done|]. cbn [node_delete] in H.
  pose proof (nodes_remove (take (S k) steps) n) as Hr. specialize (Hr ltac:(destruct steps; cbn in *; [lia|done])).
  destruct (node_remove (take (S k) steps) n) as [[n' e]|] eqn:E.
  - apply Hr. destruct e; [|done]. destruct (decide (k = 0)) as [->|Hk0]; [done|]. by apply IH in H as [H _]; [|lia..].
  - split; [done|]. apply strip_None. intros r ->. rewrite node_from_path_app, Hr in H. by destruct H.
Qed.

Lemma nodes_set_value p v root q : node_at (set_value p v root) q -> node_at root q \/ q `prefix_of` path_steps p.
Proof.
  intros [Hl H]. unfold set_value in H.
  assert (Hw : forall m r, Forall step_ok r -> is_Some (node_from_path r (with_value v m)) -> is_Some (node_from_path r m)).
  { intros m [|x r] Hr; [by eexists|]. apply Forall_cons in Hr as [Hx%step_not_value_name _]. cbn. by rewrite lookup_insert_ne. }
  destruct (node_update _ _ _) as [root'|] eqn:E.
  - apply (nodes_update _ _ _ _ _ E) in H. left. split; [done|]. destruct (strip _ q) as [r|] eqn:Es; [|done].
    apply strip_Some in Es as ->. apply Forall_app in Hl as [_ Hr]. destruct H as (m&Hm&H). rewrite node_from_path_app, Hm.
    by apply Hw in H.
  - apply nodes_insert in H. destruct (strip _ q) as [r|] eqn:Es; [|by destruct H; [left|right]].
    apply strip_Some in Es as ->. apply Forall_app in Hl as [_ Hr]. apply Hw in H; [|done].
    destruct r; [right; by rewrite app_nil_r|by destruct H].
Qed.

(** There are nodes on the way to a value. *)
Lemma value_node_at root q r : is_Some (legal_value root (q ++ r)) -> node_at root q.
Proof.
  unfold legal_value. destruct (decide _) as [[Hq _]%Forall_app|]; [|by intros []]. rewrite value_at_app. intros H. split; [done|].
  destruct (node_from_path q root); [by eexists|by destruct H].
Qed.

(** The children of a node without a value are its subkeys. *)
Lemma children_keys m : tree_ok m -> value m = None ->
  NoDup (map_to_list (inner m)).*1 /\ length (map_to_list (inner m)).*1 = size (inner m) /\
  forall x, x ∈ (map_to_list (inner m)).*1 <-> step_ok x /\ is_Some (inner m !! x).
Proof.
  intros Hm Hv. split_and!; [apply NoDup_fst_map_to_list|by rewrite length_fmap, length_map_to_list|]. intros x. rewrite list_elem_of_fmap. split.
  - intros ([y c]&->&Hc%elem_of_map_to_list). cbn. split; [|by eexists]. apply (tree_ok_children m y c); [done| |done].
    intros ->. destruct (proj2 (tree_ok_value m Hm)); [by eexists|congruence].
  - intros [_ [c Hc]]. exists (x, c). split; [done|]. by apply elem_of_map_to_list.
Qed.

Lemma list_size_spec s p : store_ok s -> path_ok p -> store_value s (path_steps p) = None ->
  exists l, NoDup l /\ (forall x, x ∈ l <-> node_at (durable s) (path_steps p ++ [x])) /\
    (core_store_list_size p s = Z.of_nat (length l) \/ l = [] /\ core_store_list_size p s = code StoreNotANode).
Proof.
  intros Hs Hp Hv. destruct (path_steps_legal p Hp) as [Hl _]. unfold store_value in Hv. rewrite legal_value_ok in Hv by done.
  cbn. unfold handle_store_list_size. rewrite validate_ok by done. cbn [mbind outcome_bind]. unfold value_at in Hv.
  unfold node_at. destruct (node_from_path (path_steps p) (durable s)) as [m|] eqn:E; cbn in Hv |- *.
  - destruct (children_keys m (tree_ok_from_path _ _ _ Hl Hs E) Hv) as (Hnd&Hsz&Hx). eexists. split_and!; [exact Hnd| |left; by rewrite Hsz].
    intros x. rewrite Hx, Forall_app, Forall_singleton, node_from_path_app, E. cbn. destruct (inner m !! x); cbn; naive_solver.
  - exists []. split_and!; [constructor| |by right]. intros x. rewrite elem_of_nil, node_from_path_app, E. split; [done|]. by intros [_ []].
Qed.

(** Host functions that replace the tree. *)
Lemma update_durable_ok f s n : f (durable s) = Ok n -> update_durable f s = (0%Z, set_durable n s).
Proof. intros H. unfold update_durable. by rewrite H. Qed.

Lemma handle_store_write_spec p off bs root : path_ok p -> length bs <= MAX_FILE_CHUNK_SIZE ->
  let v := default [] (value_at root (path_steps p)) in
  handle_store_write p off bs root =
    if length v <? off then Err StoreInvalidAccess else Ok (set_value p (patch v off bs) root).
Proof.
  intros Hp Hl. cbn zeta. unfold handle_store_write. rewrite (proj2 (Nat.ltb_ge _ _)) by done. rewrite validate_ok by done.
  cbn [mbind outcome_bind]. change (maybe_get_value p root) with (value_at root (path_steps p)).
  set (v := default [] (value_at root (path_steps p))). destruct (Nat.ltb_spec (length v) off) as [|Ho]; [done|].
  do 2 f_equal. destruct (_ && _) eqn:E; [done|]. unfold patch. f_equal.
  rewrite drop_ge, app_nil_r; [done|].
  apply andb_false_iff in E as [E|E]; [apply Nat.ltb_ge in E|apply Nat.leb_gt in E]; lia.
Qed.

(** Copying a node under another path. *)
Lemma insert_from_spec from to_ root m q : Forall step_ok from -> Forall step_ok to_ ->
  node_from_path from root = Some m -> forall base,
  legal_value (node_insert to_ m base) q =
    match strip to_ q with Some r => legal_value root (from ++ r) | None => legal_value base q end.
Proof.
  intros Hf Ht Hm base. revert q. apply legal_value_ext.
  - intros q Hq. rewrite value_at_insert. destruct (strip to_ q) as [r|] eqn:Es; [|by rewrite legal_value_ok].
    apply strip_Some in Es as ->. apply Forall_app in Hq as [_ Hr]. rewrite legal_value_ok by (by apply Forall_app).
    by rewrite value_at_app, Hm.
  - intros q Hq. destruct (strip to_ q) as [r|] eqn:Es.
    + apply strip_Some in Es as ->. unfold legal_value. rewrite decide_False; [done|]. rewrite Forall_app in *. naive_solver.
    + unfold legal_value. by rewrite decide_False.
Qed.

Lemma delete_spec steps root q : Forall step_ok steps -> steps <> [] ->
  legal_value (node_delete (length steps) steps root) q =
    match strip steps q with Some _ => None | None => legal_value root q end.
Proof.
  intros Hs Hne. revert q. apply legal_value_ext.
  - intros q Hq. rewrite value_at_delete by (by destruct steps). rewrite take_ge by done.
    by rewrite legal_value_ok.
  - intros q Hq. destruct (strip steps q); [done|]. unfold legal_value. by rewrite decide_False.
Qed.

Lemma as_i32_small n : size_ok n -> as_i32 n = Z.of_nat n.
Proof.
  unfold size_ok, VALUE_SIZE_LIMIT, as_i32. intros H. rewrite Z.mod_small by lia. by rewrite (proj2 (Z.ltb_lt _ _)).
Qed.

Lemma moved_ok steps from m root : Forall step_ok steps -> Forall step_ok from -> tree_ok root ->
  node_from_path from root = Some m -> forall base, tree_ok base -> tree_ok (node_insert steps m base).
Proof. intros Hs Hf Hr Hm base Hb. apply tree_ok_insert; [done| |done]. exact (tree_ok_from_path from root m Hf Hr Hm). Qed.

#[global] Program Instance InMemoryStore_laws : CoreLaws Store := {
  c_ok := store_ok;
  c_value := store_value;
  c_node s := node_at (durable s)
}.
Next Obligation. intros s p Hs Hp. destruct (core_has_spec s p Hs Hp) as (sub&H1&H2&H3&_). eauto. Qed.
Next Obligation.
  intros s p off max v Hs Hp Hv Ho. cbn zeta. destruct (path_steps_legal p Hp) as [Hl _].
  unfold store_value in Hv. rewrite legal_value_ok in Hv by done. cbn. unfold handle_store_read.
  rewrite validate_maybe_readonly_ok by done. cbn [mbind outcome_bind].
  change (maybe_get_value p (durable s)) with (value_at (durable s) (path_steps p)). rewrite Hv.
  rewrite (proj2 (Nat.ltb_ge _ _)) by done. rewrite length_slice by lia. done.
Qed.
Next Obligation.
  intros s p off max Hs Hp Hv. destruct (path_steps_legal p Hp) as [Hl _].
  unfold store_value in Hv. rewrite legal_value_ok in Hv by done. cbn. unfold handle_store_read.
  rewrite validate_maybe_readonly_ok by done. cbn [mbind outcome_bind].
  change (maybe_get_value p (durable s)) with (value_at (durable s) (path_steps p)). by rewrite Hv.
Qed.
Next Obligation.
  intros s p v Hs Hp Hv Hz. destruct (path_steps_legal p Hp) as [Hl _].
  unfold store_value in Hv. rewrite legal_value_ok in Hv by done. cbn. unfold handle_store_value_size.
  rewrite validate_ok by done. cbn [mbind outcome_bind].
  change (maybe_get_value p (durable s)) with (value_at (durable s) (path_steps p)). rewrite Hv. by apply as_i32_small.
Qed.
Next Obligation.
  intros s p Hs Hp Hv. destruct (path_steps_legal p Hp) as [Hl _].
  unfold store_value in Hv. rewrite legal_value_ok in Hv by done. cbn. unfold handle_store_value_size.
  rewrite validate_ok by done. cbn [mbind outcome_bind].
  change (maybe_get_value p (durable s)) with (value_at (durable s) (path_steps p)). by rewrite Hv.
Qed.
Next Obligation.
  intros s p off bs Hs Hp Hlen Ho Hz. destruct (path_steps_legal p Hp) as [Hl _].
  unfold store_value in *. rewrite legal_value_ok in * by done. eexists. split_and!.
  - cbn. apply update_durable_ok. rewrite handle_store_write_spec by done. by rewrite (proj2 (Nat.ltb_ge _ _)).
  - by apply tree_ok_set_value.
  - cbn. apply legal_value_ext.
    + intros q Hq. rewrite set_value_spec by done. by rewrite legal_value_ok.
    + intros q Hq. rewrite bool_decide_eq_false_2 by (by intros ->). unfold legal_value. by rewrite decide_False.
Qed.
Next Obligation.
  intros s p off bs Hs Hp Hlen Ho. destruct (path_steps_legal p Hp) as [Hl _].
  unfold store_value in *. rewrite legal_value_ok in Ho by done. cbn. unfold update_durable.
  rewrite handle_store_write_spec by done. by rewrite (proj2 (Nat.ltb_lt _ _)).
Qed.
Next Obligation.
  intros s p Hs Hp Hh. destruct (path_steps_legal p Hp) as [Hl Hne]. eexists. split_and!.
  - cbn. apply update_durable_ok. unfold handle_store_delete. rewrite validate_ok by done. reflexivity.
  - by apply tree_ok_delete.
  - intros q. by apply delete_spec.
Qed.
Next Obligation.
  intros s p Hs Hp. destruct (path_steps_legal p Hp) as [Hl Hne]. eexists. split_and!.
  - cbn. apply update_durable_ok. unfold handle_store_delete_value. rewrite validate_ok by done. reflexivity.
  - unfold store_ok, delete_value. cbn. destruct (node_update _ _ _) as [r|] eqn:E; cbn; [|done].
    eapply tree_ok_update; [exact Hl| |exact Hs|exact E]. intros m. apply tree_ok_without_value.
  - cbn. unfold store_value. apply legal_value_ext.
    + intros q Hq. cbn. rewrite delete_value_spec by done. by rewrite legal_value_ok.
    + intros q Hq. rewrite bool_decide_eq_false_2 by (by intros ->). unfold legal_value. by rewrite decide_False.
Qed.
Next Obligation.
  intros s from to_ Hs Hf Ht Hh. destruct (path_steps_legal from Hf) as [Hlf _], (path_steps_legal to_ Ht) as [Hlt _].
  destruct (core_has_spec s from Hs Hf) as (_&_&_&_&Hn). destruct (Hn Hh) as [m Hm]. eexists. split_and!.
  - cbn. apply update_durable_ok. unfold handle_store_copy. rewrite !validate_ok by done. cbn. by rewrite Hm.
  - by eapply (moved_ok _ (path_steps from) m (durable s)).
  - intros q. by apply insert_from_spec.
Qed.
Next Obligation.
  intros s from to_ Hs Hf Ht Hh. destruct (path_steps_legal from Hf) as [Hlf Hnf], (path_steps_legal to_ Ht) as [Hlt _].
  destruct (core_has_spec s from Hs Hf) as (_&_&_&_&Hn). destruct (Hn Hh) as [m Hm]. eexists. split_and!.
  - cbn. apply update_durable_ok. unfold handle_store_move. rewrite !validate_ok by done. cbn. by rewrite Hm.
  - eapply (moved_ok _ (path_steps from) m (durable s)); [done..|]. by apply tree_ok_delete.
  - intros q. cbn. unfold store_value. cbn. rewrite (insert_from_spec (path_steps from) (path_steps to_) (durable s) m) by done.
    by rewrite delete_spec.
Qed.
Next Obligation. intros s q r _. apply value_node_at. Qed.
Next Obligation. intros s p Hs Hp Hv. by apply list_size_spec. Qed.
Next Obligation.
  intros s p off bs q Hp. cbn. unfold update_durable, handle_store_write. rewrite validate_ok by done.
  destruct (_ <? _); [by left|]. cbn [mbind outcome_bind]. destruct (_ <? _); [by left|]. apply nodes_set_value.
Qed.
Next Obligation.
  intros s p q Hp. destruct (path_steps_legal p Hp) as [Hl Hne]. cbn. unfold update_durable, handle_store_delete.
  rewrite validate_ok by done. intros [Hq H]. apply nodes_delete in H; [|done|by destruct (path_steps p)].
  rewrite take_ge in H by done. unfold node_at. tauto.
Qed.
Next Obligation.
  intros s p q Hp. cbn. unfold update_durable, handle_store_delete_value, delete_value. rewrite validate_ok by done.
  intros [Hq H]. cbn in H. split; [done|]. destruct (node_update _ _ _) as [r|] eqn:E; [|done].
  apply (nodes_update _ _ _ _ _ E) in H. destruct (strip _ q) as [x|] eqn:Es; [|done]. apply strip_Some in Es as ->.
  destruct H as (m&Hm&H). rewrite node_from_path_app, Hm. cbn. destruct x as [|y x]; [by eexists|]. cbn in H |- *.
  apply Forall_app in Hq as [_ [Hy%step_not_value_name _]%Forall_cons]. by rewrite lookup_delete_ne in H.
Qed.

(** * Properties *)

(** C25: the tree of the in-memory storage is a map from paths to values.  Each host function that changes the
    storage succeeds on well-formed trees and paths, keeps the tree well formed and changes the values as
    the map operation does: writing patches one value; deleting a path removes the values at and under it, pruning
    the parents it empties; deleting a value removes it alone; copying and moving carry the values
    under a path to another, replacing what was there. *)
Theorem tree_refines_map (root : Node) (p q : bytes) : tree_ok root -> path_ok p -> path_ok q ->
  let v := default [] (value_at root (path_steps p)) in
  (forall off bs, off <= length v -> length bs <= MAX_FILE_CHUNK_SIZE ->
    exists root', handle_store_write p off bs root = Ok root' /\ tree_ok root' /\
      forall x, legal_value root' x = if bool_decide (x = path_steps p) then Some (patch v off bs) else legal_value root x) /\
  (exists root', handle_store_delete p root = Ok root' /\ tree_ok root' /\
    forall x, legal_value root' x = match strip (path_steps p) x with Some _ => None | None => legal_value root x end) /\
  (exists root', handle_store_delete_value p root = Ok root' /\ tree_ok root' /\
    forall x, legal_value root' x = if bool_decide (x = path_steps p) then None else legal_value root x) /\
  (is_Some (node_from_path (path_steps p) root) ->
    (exists root', handle_store_copy p q root = Ok root' /\ tree_ok root' /\
      forall x, legal_value root' x =
        match strip (path_steps q) x with Some r => legal_value root (path_steps p ++ r) | None => legal_value root x end) /\
    (exists root', handle_store_move p q root = Ok root' /\ tree_ok root' /\
      forall x, legal_value root' x =
        match strip (path_steps q) x with
        | Some r => legal_value root (path_steps p ++ r)
        | None => match strip (path_steps p) x with Some _ => None | None => legal_value root x end
        end)).
Proof.
  intros Hr Hp Hq. destruct (path_steps_legal p Hp) as [Hlp Hnp], (path_steps_legal q Hq) as [Hlq _]. cbn zeta.
  set (v := default [] _). split_and!.
  - intros off bs Ho Hb. eexists. split_and!.
    + rewrite handle_store_write_spec by done. by rewrite (proj2 (Nat.ltb_ge _ _)).
    + by apply tree_ok_set_value.
    + apply legal_value_ext.
      * intros x Hx. rewrite set_value_spec by done. by rewrite legal_value_ok.
      * intros x Hx. rewrite bool_decide_eq_false_2 by (by intros ->). unfold legal_value. by rewrite decide_False.
  - eexists. unfold handle_store_delete. rewrite validate_ok by done. split_and!; [reflexivity|by apply tree_ok_delete|].
    intros x. by apply delete_spec.
  - destruct (c_delete_value (CoreLaws := InMemoryStore_laws) (mkStore root []) p Hr Hp) as (s'&Hd&Hs'&Hv).
    unfold core_store_delete_value, InMemoryStore_core, update_durable in Hd. cbn in Hd. exists (durable s').
    unfold handle_store_delete_value in *. rewrite validate_ok in * by done. cbn in *. injection Hd as <-. done.
  - intros [m Hm]. split; eexists; (split_and!;
      [unfold handle_store_copy, handle_store_move; rewrite !validate_ok by done; cbn; rewrite Hm; reflexivity
      |eapply (moved_ok _ (path_steps p) m root); try done; by apply tree_ok_delete|]).
    + intros x. by apply insert_from_spec.
    + intros x. rewrite (insert_from_spec (path_steps p) (path_steps q) root m) by done. by rewrite delete_spec.
Qed.

Definition ex_tree : Node :=
  set_value (str "/accounts/beta") (str "2") (set_value (str "/accounts/alpha/a") (str "1") node_default).
Lemma path_ok_compute p : validate_path p = Ok tt -> path_ok p.
Proof. apply validate_path_spec. Qed.
Lemma ex_tree_ok : tree_ok ex_tree.
Proof.
  unfold ex_tree. apply tree_ok_set_value; [by apply path_ok_compute|].
  apply tree_ok_set_value; [by apply path_ok_compute|apply tree_ok_default].
Qed.

Lemma tree_refines_map_witness :
  exists root', handle_store_move (str "/accounts") (str "/backup/old") ex_tree = Ok root' /\
    legal_value root' [str "backup"; str "old"; str "beta"] = Some (str "2") /\
    legal_value root' [str "accounts"; str "alpha"; str "a"] = None.
Proof.
  assert (Hp : path_ok (str "/accounts")) by (apply path_ok_compute; reflexivity).
  assert (Hq : path_ok (str "/backup/old")) by (apply path_ok_compute; reflexivity).
  pose proof (proj2 (proj2 (proj2 (tree_refines_map ex_tree (str "/accounts") (str "/backup/old") ex_tree_ok Hp Hq)))) as H.
  destruct H as [_ (root'&Hm&_&Hv)]; [vm_compute; eauto|]. exists root'. split; [exact Hm|].
  rewrite !Hv. split; vm_compute; reflexivity.
Defined.

(** What the kernel wrappers get from this storage: a value deleted alone leaves a subtree behind, and the paths
    under [/readonly] cannot be tested. *)
Lemma deleted_value_leaves_subtree :
  let '(_, s) := store_write (str "/a/b") (str "x") 0 (mkStore node_default []) in
  let '(_, s) := store_delete_value (str "/a/b") s in
  (store_has (str "/a") s).1 = Ok (Some Subtree) /\ (store_has (str "/a/b") s).1 = Ok None.
Proof. split; vm_compute; reflexivity. Qed.

Lemma readonly_flags_unavailable (s : Store) :
  (last_run_aborted s).1 = Err (HostErr StoreInvalidKey) /\ (upgrade_failed s).1 = Err (HostErr StoreInvalidKey) /\
  (restart_forced s).1 = Err (HostErr StoreInvalidKey).
Proof. split_and!; reflexivity. Qed.
