(* ===== verification/KernelStorage.v ===== *)
(** Transactional storage of kernels.

    Models [src/kernel_sdk/storage/src/storage.rs] and [layer.rs]: a stack of layers, each a subtree
    of the durable storage; beginning a transaction copies the top layer, committing moves it
    over the one below, rolling back deletes it.  An object [T] is created from its path, so that it
    is its path here.  Everything is stated for any host that satisfies [CoreLaws]. *)

From S2P Require Import Prelude Endian KernelPath KernelHost KernelRuntime.

(** * The code *)

Inductive StorageError : Set :=
  | InvalidAccountsPath | StorageInUse | NoStorage | NoCurrentTransaction
  | SE_PathError (e : PathError) | SE_RuntimeError (e : RuntimeError).

(** Decimal digits, as [format!] writes a [usize]. *)
Definition digit (n : N) : byte := byte_of_N (48 + n).
Fixpoint decimal (fuel : nat) (n : N) : bytes :=
  match fuel with
  | 0 => []
  | S fuel => if (n <? 10)%N then [digit n] else decimal fuel (n / 10) ++ [digit (n mod 10)]
  end.
Definition format_usize (n : nat) : bytes := decimal 20 (N.of_nat n).

(** [Storage]; a [Layer] is its path. *)
Record Storage : Set := mkStorage { prefix : bytes; layers : list bytes }.

Section storage.
Context {S : Type} {core : SmartRollupCore S}.
Abbreviation hostM := (M S StorageError).
Abbreviation stM := (M (Storage * S) StorageError).

Definition runtime {A} (m : M S RuntimeError A) : hostM A := M_map_err SE_RuntimeError m.
Definition path_result {A} (o : outcome PathError A) : hostM A := lift (map_err SE_PathError o).

(** [has_subtree_res]. *)
Definition has_subtree_res (v : outcome RuntimeError (option ValueType)) : bool :=
  match v with Ok (Some Subtree) | Ok (Some ValueWithSubtree) => true | _ => false end.
Definition has_subtree (path : bytes) : hostM bool := fun s => (Ok (has_subtree_res (store_has path s).1), s).
(** [if let Ok(Some(_)) = host.store_has(path)]. *)
Definition has_some (path : bytes) (s : S) : bool :=
  match (store_has path s).1 with Ok (Some _) => true | _ => false end.

Definition layer_force_make_copy (self name : bytes) : hostM bytes := fun s =>
  match store_copy self name s with
  | (Ok _, s) | (Err PathNotFound, s) => (Ok name, s)
  | (Err e, s) => (Err (SE_RuntimeError e), s)
  | (Panic p, s) => (Panic p, s)
  | (Diverge, s) => (Diverge, s)
  end.

Definition layer_consume (self layer : bytes) : hostM unit := fun s =>
  if has_some layer s then runtime (store_move layer self) s
  else if has_some self s then runtime (store_delete self) s
  else (Ok tt, s).

Definition layer_create_new (self id : bytes) : hostM (option bytes) :=
  account_path ← path_result (concat self id);
  b ← has_subtree account_path;
  mret (if (b : bool) then None else Some account_path).
Definition layer_get (self id : bytes) : hostM (option bytes) :=
  account_path ← path_result (concat self id);
  b ← has_subtree account_path;
  mret (if (b : bool) then Some account_path else None).
Definition layer_get_or_create (self id : bytes) : hostM bytes := path_result (concat self id).
Definition layer_delete (self id : bytes) : hostM unit :=
  account_path ← path_result (concat self id); runtime (store_delete account_path).
Definition layer_discard (self : bytes) : hostM unit := fun s =>
  if has_some self s then runtime (store_delete self) s else (Ok tt, s).

(** [Storage::init]: the bytes of a path are a string. *)
Definition init (name : bytes) : Storage := mkStorage name [name].

(** A call on the host, the storage being unchanged. *)
Definition on_host {A} (m : hostM A) : stM A := fun '(st, s) => let '(o, s) := m s in (o, (st, s)).
Definition on_layer {A} (l : option bytes) (f : bytes -> hostM A) : stM A :=
  match l with Some layer => on_host (f layer) | None => fail NoStorage end.
Definition get_storage : stM Storage := fun '(st, s) => (Ok st, (st, s)).
Definition set_layers (l : list bytes) : stM unit := fun '(st, s) => (Ok tt, (mkStorage (prefix st) l, s)).

Definition get (id : bytes) : stM (option bytes) :=
  st ← get_storage; on_layer (last (layers st)) (fun top => layer_get top id).
Definition get_original (id : bytes) : stM (option bytes) :=
  st ← get_storage; on_layer (head (layers st)) (fun bottom => layer_get bottom id).
Definition create_new (id : bytes) : stM (option bytes) :=
  st ← get_storage; on_layer (last (layers st)) (fun top => layer_create_new top id).
Definition get_or_create (id : bytes) : stM bytes :=
  st ← get_storage; on_layer (last (layers st)) (fun top => layer_get_or_create top id).
Definition delete (id : bytes) : stM unit :=
  st ← get_storage; on_layer (last (layers st)) (fun top => layer_delete top id).

Definition begin_transaction : stM unit :=
  st ← get_storage;
  let new_layer_index := length (layers st) + 1 in
  match last (layers st) with
  | Some top =>
      let new_layer_name := prefix st ++ str "." ++ format_usize new_layer_index in
      new_layer_path ← on_host (path_result (try_from new_layer_name));
      new_top ← on_host (layer_force_make_copy top new_layer_path);
      set_layers (layers st ++ [new_top])
  | None => fail NoStorage
  end.

(** The top layer is removed from the stack first. *)
Definition commit_transaction : stM unit :=
  st ← get_storage;
  if 1 <? length (layers st) then
    let rest := removelast (layers st) in
    _ ← set_layers rest;
    match last (layers st), last rest with
    | Some top, Some last => on_host (layer_consume last top)
    | _, _ => panicked PUnreachable
    end
  else fail NoCurrentTransaction.

Definition rollback_transaction : stM unit :=
  st ← get_storage;
  if 1 <? length (layers st) then
    _ ← set_layers (removelast (layers st));
    match last (layers st) with
    | Some top => on_host (layer_discard top)
    | None => panicked PUnreachable
    end
  else fail NoCurrentTransaction.

Definition stack_depth (st : Storage) : nat := length (layers st) - 1.
End storage.

(** * Decimal numbers *)

Lemma digit_allowed n : (n < 10)%N -> is_allowed_step_byte (digit n) = true.
Proof.
  intros H. assert (Hall : forallb (fun k => is_allowed_step_byte (digit (N.of_nat k))) (seq 0 10) = true) by reflexivity.
  rewrite forallb_forall in Hall. rewrite <- (N2Nat.id n). apply Hall, in_seq. lia.
Qed.

Lemma decimal_allowed fuel n : Forall (fun b => is_allowed_step_byte b = true) (decimal fuel n).
Proof.
  revert n. induction fuel as [|fuel IH]; intros n; cbn [decimal]; [done|]. destruct (N.ltb_spec n 10).
  - repeat constructor. by apply digit_allowed.
  - apply Forall_app. split; [apply IH|]. repeat constructor. apply digit_allowed. apply N.mod_lt. lia.
Qed.

(** The number the digits denote. *)
Definition undecimal (bs : bytes) : N := fold_left (fun acc b => (10 * acc + (Byte.to_N b - 48))%N) bs 0%N.

Lemma undecimal_decimal fuel n : (n < 10 ^ N.of_nat fuel)%N -> undecimal (decimal fuel n) = n.
Proof.
  assert (Hd : forall m, (m < 10)%N -> (Byte.to_N (digit m) - 48)%N = m)
    by (intros m Hm; unfold digit; rewrite byte_to_of_N by lia; lia).
  revert n. induction fuel as [|fuel IH]; intros n Hn; cbn [decimal].
  { change (10 ^ N.of_nat 0)%N with 1%N in Hn. assert (n = 0%N) as -> by lia. done. }
  rewrite Nat2N.inj_succ, N.pow_succ_r' in Hn. destruct (N.ltb_spec n 10).
  - cbn. rewrite Hd by done. lia.
  - unfold undecimal. rewrite fold_left_app. cbn. fold (undecimal (decimal fuel (n / 10))).
    rewrite IH by (apply N.Div0.div_lt_upper_bound; lia).
    rewrite Hd by (apply N.mod_lt; lia). pose proof (N.div_mod n 10). lia.
Qed.

Lemma length_decimal fuel k n : (n < 10 ^ N.of_nat k)%N -> 0 < k -> length (decimal fuel n) <= k.
Proof.
  revert k n. induction fuel as [|fuel IH]; intros k n Hn Hk; cbn [decimal]; [cbn; lia|].
  destruct (N.ltb_spec n 10); [cbn; lia|]. rewrite length_app. cbn.
  destruct k as [|[|k]]; [lia|change (10 ^ N.of_nat 1)%N with 10%N in Hn; lia|].
  rewrite Nat2N.inj_succ, N.pow_succ_r' in Hn.
  pose proof (IH (S k) (n / 10)%N ltac:(apply N.Div0.div_lt_upper_bound; lia) ltac:(lia)). lia.
Qed.

(** * Names of layers *)

Definition layer_name (pre : bytes) (i : nat) : bytes := if i =? 1 then pre else pre ++ str "." ++ format_usize i.
(** What follows the last step of the prefix. *)
Definition layer_suffix (i : nat) : bytes := if i =? 1 then [] else str "." ++ format_usize i.

(** Layers are numbered with ten digits at most. *)
Definition small (i : nat) : Prop := (N.of_nat i < 10 ^ 10)%N.

Lemma layer_name_suffix pre i : layer_name pre i = pre ++ layer_suffix i.
Proof. unfold layer_name, layer_suffix. destruct (i =? 1); [by rewrite app_nil_r|done]. Qed.

Lemma layer_suffix_allowed i : Forall (fun b => is_allowed_step_byte b = true) (layer_suffix i).
Proof. unfold layer_suffix. destruct (i =? 1); [done|]. apply Forall_app. split; [by repeat constructor|apply decimal_allowed]. Qed.

Lemma layer_suffix_length i : small i -> length (layer_suffix i) <= 11.
Proof.
  intros H. unfold layer_suffix. destruct (i =? 1); [cbn; lia|]. rewrite length_app. change (length (str ".")) with 1.
  pose proof (length_decimal 20 10 (N.of_nat i) H ltac:(lia)). unfold format_usize. lia.
Qed.

Lemma layer_suffix_inj i j : small i -> small j -> layer_suffix i = layer_suffix j -> i = j.
Proof.
  intros Hi Hj. unfold layer_suffix. destruct (Nat.eqb_spec i 1), (Nat.eqb_spec j 1); subst; try done.
  intros H%app_inv_head. apply (f_equal undecimal) in H. unfold format_usize, small in *.
  assert (Hp : (10 ^ 10 < 10 ^ N.of_nat 20)%N) by (vm_compute; done).
  rewrite !undecimal_decimal in H by (etransitivity; eassumption). lia.
Qed.

Section names.
Context (pre : bytes) (Hpre : path_ok pre) (Hroom : length pre + 11 <= PATH_MAX_SIZE).

Lemma layer_name_steps : exists l x, forall i, path_steps (layer_name pre i) = l ++ [x ++ layer_suffix i].
Proof.
  destruct (path_ok_steps pre Hpre) as [Hr [Hne Hs]]. destruct (exists_last Hne) as (l&x&Hl). exists l, x. intros i.
  rewrite Hl in Hr, Hs. rewrite layer_name_suffix, <- Hr.
  replace (render (l ++ [x]) ++ layer_suffix i) with (render (l ++ [x ++ layer_suffix i])).
  - apply path_steps_render. apply Forall_app in Hs as [Hs [[Hx Hxs] _]%Forall_cons]. apply Forall_app. split; [done|].
    repeat constructor; [by destruct x|]. apply Forall_app. split; [done|apply layer_suffix_allowed].
  - rewrite !render_app, <- app_assoc. f_equal. unfold render. cbn. by rewrite !app_nil_r.
Qed.

Lemma layer_name_ok i : small i -> path_ok (layer_name pre i) /\ length (layer_name pre i) <= length pre + 11.
Proof.
  intros Hi. assert (Hlen : length (layer_name pre i) <= length pre + 11).
  { rewrite layer_name_suffix, length_app. pose proof (layer_suffix_length i Hi). lia. }
  split; [|done]. destruct Hpre as (steps&->&[Hne Hs]&Hro&_). destruct (exists_last Hne) as (l&x&->).
  exists (l ++ [x ++ layer_suffix i]). split_and!.
  - rewrite layer_name_suffix, !render_app, <- app_assoc. f_equal. unfold render. cbn. by rewrite !app_nil_r.
  - split; [by destruct l|]. apply Forall_app in Hs as [Hs [[Hx Hxs] _]%Forall_cons]. apply Forall_app. split; [done|].
    repeat constructor; [by destruct x|]. apply Forall_app. split; [done|apply layer_suffix_allowed].
  - unfold readonly in *. destruct l; [|done]. cbn [app head] in *. intros E. apply Some_inj in E. unfold layer_suffix in E.
    destruct (i =? 1); [rewrite app_nil_r in E; congruence|].
    assert (Hdot : Byte.x2e ∈ str "readonly") by (rewrite <- E; change (str ".") with [Byte.x2e]; set_solver).
    vm_compute in Hdot. repeat (apply elem_of_cons in Hdot as [Hdot|Hdot]; [done|]). by apply not_elem_of_nil in Hdot.
  - lia.
Qed.

Lemma layers_disjoint i j r : small i -> small j -> i <> j ->
  strip (path_steps (layer_name pre i)) (path_steps (layer_name pre j) ++ r) = None.
Proof.
  intros Hi Hj Hne. destruct layer_name_steps as (l&x&Hs). rewrite !Hs. apply strip_None. intros r' E.
  rewrite <- !app_assoc in E. apply app_inv_head in E. injection E as E _.
  apply app_inv_head, layer_suffix_inj in E; by subst.
Qed.
Lemma layer_self i r : strip (path_steps (layer_name pre i)) (path_steps (layer_name pre i) ++ r) = Some r.
Proof. apply strip_app. Qed.
End names.
