(* ===== verification/KernelTransactions.v ===== *)
(** Transactions of the kernel storage are snapshots.

    The layers of [Storage] refine a stack of maps: beginning duplicates the top, committing drops the
    one below, rolling back drops the top.  Layers that are not in use hold no values, which is what
    makes their names reusable.  Last, runs of the properties of the kernel storage on the in-memory host. *)

From S2P Require Import Prelude Endian KernelPath KernelHost KernelRuntime KernelStore KernelStoreLaws KernelStorage.

(** The values under a layer. *)
Definition view : Type := list bytes -> option bytes.

(** * Programs with transactions

    Objects are read, written and deleted in the top layer.  [Read] and [Write] go through [get_or_create], which gives
    the path of an object without looking at the storage; [Get] looks for an object that exists with [get] and, when there
    is one, reads a value below it.  [ReadOriginal] and [GetOriginal] do the same in the bottom layer. *)

Inductive op : Set :=
  | Begin | Commit | Rollback | Write (id v : bytes) | Read (id : bytes) | ReadOriginal (id : bytes) | Delete (id : bytes)
  | Get (id field : bytes) | GetOriginal (id field : bytes).

Inductive result : Set := RDone | RValue (v : bytes) | RMissing | RError (e : StorageError) | RCrash.

Definition done_result (o : outcome StorageError unit) : result :=
  match o with Ok _ => RDone | Err e => RError e | _ => RCrash end.
(** Reading and deleting what does not exist are errors of the host. *)
Definition read_result (o : outcome StorageError bytes) : result :=
  match o with
  | Ok v => RValue v
  | Err (SE_RuntimeError PathNotFound) | Err (SE_RuntimeError (HostErr StoreNotAValue)) => RMissing
  | Err e => RError e
  | _ => RCrash
  end.
Definition delete_result (o : outcome StorageError unit) : result :=
  match o with Err (SE_RuntimeError PathNotFound) => RDone | o => done_result o end.

Section programs.
Context {S : Type} {core : SmartRollupCore S}.

(** The value of a field of an object that was looked for. *)
Definition read_field (field : bytes) (object : option bytes) : M (Storage * S) StorageError (option bytes) :=
  match object with
  | Some p => p ← on_host (path_result (concat p field)); v ← on_host (runtime (store_read_all p)); mret (Some v)
  | None => mret None
  end.
Definition found_result (o : outcome StorageError (option bytes)) : result :=
  match o with
  | Ok None => RMissing
  | o => read_result (o ≫= fun v => match v with Some v => Ok v | None => Panic PUnreachable end)
  end.

Definition run_op (o : op) (st : Storage * S) : result * (Storage * S) :=
  match o with
  | Begin => let '(r, st) := begin_transaction st in (done_result r, st)
  | Commit => let '(r, st) := commit_transaction st in (done_result r, st)
  | Rollback => let '(r, st) := rollback_transaction st in (done_result r, st)
  | Write id v =>
      let '(r, st) := (p ← get_or_create id; on_host (runtime (store_write_all p v))) st in (done_result r, st)
  | Read id => let '(r, st) := (p ← get_or_create id; on_host (runtime (store_read_all p))) st in (read_result r, st)
  | ReadOriginal id =>
      let '(r, st) := (x ← get_storage; on_layer (head (layers x)) (fun bottom =>
        p ← layer_get_or_create bottom id; runtime (store_read_all p))) st in (read_result r, st)
  | Delete id => let '(r, st) := delete id st in (delete_result r, st)
  | Get id field => let '(r, st) := (object ← get id; read_field field object) st in (found_result r, st)
  | GetOriginal id field => let '(r, st) := (object ← get_original id; read_field field object) st in (found_result r, st)
  end.
Fixpoint run_ops (l : list op) (st : Storage * S) : list result * (Storage * S) :=
  match l with
  | [] => ([], st)
  | o :: l => let '(r, st) := run_op o st in let '(rs, st) := run_ops l st in (r :: rs, st)
  end.
End programs.

(** The same on a stack of maps, top first. *)
Definition set_view (id : list bytes) (v : bytes) (m : view) : view := fun r => if bool_decide (r = id) then Some v else m r.
Definition cut_view (id : list bytes) (m : view) : view := fun r => match strip id r with Some _ => None | None => m r end.
Definition lookup_result (o : option bytes) : result := match o with Some v => RValue v | None => RMissing end.

Definition spec_op (o : op) (stack : list view) : result * list view :=
  match o, stack with
  | _, [] => (RCrash, [])
  | Begin, m :: rest => (RDone, m :: m :: rest)
  | Commit, a :: b :: rest => (RDone, a :: rest)
  | Rollback, a :: b :: rest => (RDone, b :: rest)
  | Commit, stack | Rollback, stack => (RError NoCurrentTransaction, stack)
  | Write id v, m :: rest => (RDone, set_view (path_steps id) v m :: rest)
  | Delete id, m :: rest => (RDone, cut_view (path_steps id) m :: rest)
  | Read id, m :: rest => (lookup_result (m (path_steps id)), m :: rest)
  | ReadOriginal id, m :: rest => (lookup_result (List.last (m :: rest) m (path_steps id)), m :: rest)
  | Get id field, m :: rest => (lookup_result (m (path_steps id ++ path_steps field)), m :: rest)
  | GetOriginal id field, m :: rest => (lookup_result (List.last (m :: rest) m (path_steps id ++ path_steps field)), m :: rest)
  end.
Fixpoint spec_ops (l : list op) (stack : list view) : list result * list view :=
  match l with
  | [] => ([], stack)
  | o :: l => let '(r, stack) := spec_op o stack in let '(rs, stack) := spec_ops l stack in (r :: rs, stack)
  end.

(** The identifiers are paths that leave room for the name of a layer, the values have a legal size. *)
Definition op_ok (pre : bytes) (o : op) : Prop :=
  match o with
  | Write id v => path_ok id /\ length pre + 11 + length id <= PATH_MAX_SIZE /\ size_ok (length v)
  | Read id | ReadOriginal id | Delete id => path_ok id /\ length pre + 11 + length id <= PATH_MAX_SIZE
  | Get id field | GetOriginal id field =>
      path_ok id /\ path_ok field /\ length pre + 11 + length id + length field <= PATH_MAX_SIZE
  | _ => True
  end.

Section transactions.
Context {S : Type} {core : SmartRollupCore S} {laws : CoreLaws S}.
Context (pre : bytes) (Hpre : path_ok pre) (Hroom : length pre + 11 <= PATH_MAX_SIZE).
Implicit Types (s : S) (st : Storage) (m : view).

(** Steps of the layer [i]. *)
Abbreviation L i := (path_steps (layer_name pre i)).

(** The paths that are below no layer, and states that agree there. *)
Definition outside (q : list bytes) : Prop := forall i, 1 <= i -> small i -> strip (L i) q = None.
Definition frame s s' : Prop := forall q, outside q -> c_value s' q = c_value s q.

#[local] Instance frame_preorder : PreOrder frame.
Proof. split; [by intros s q|]. intros s s1 s2 H1 H2 q Hq. by rewrite H2, H1. Qed.

(** * Hosts *)

Lemma has_some_spec p s : c_ok s -> path_ok p -> has_some p s = negb (core_store_has p s =? 0)%Z.
Proof.
  intros Hs Hp. unfold has_some. destruct (store_has_spec s p Hs Hp) as (sub&Hh&_&_&Hr). rewrite Hr, Hh. cbn.
  by destruct (bool_decide _), sub.
Qed.

Lemma no_values p s r : c_ok s -> path_ok p -> core_store_has p s = 0%Z -> c_value s (path_steps p ++ r) = None.
Proof.
  intros Hs Hp H0. destruct (c_value s (path_steps p ++ r)) eqn:E; [|done]. exfalso.
  apply (value_exists s p r); [done..| |done]. rewrite E. eauto.
Qed.

Lemma host_call_ok (f : S -> Z * S) s s' : f s = (0%Z, s') -> host_call f s = (Ok tt, s').
Proof. intros H. unfold host_call. by rewrite H. Qed.

(** Deleting, whether or not there is something to delete. *)
Lemma store_delete_spec p s : c_ok s -> path_ok p -> exists s',
  store_delete p s = (if (core_store_has p s =? 0)%Z then Err PathNotFound else Ok tt, s') /\ c_ok s' /\
  forall q, c_value s' q = match strip (path_steps p) q with Some _ => None | None => c_value s q end.
Proof.
  intros Hs Hp. unfold store_delete, mbind, M_bind. rewrite check_path_exists_spec by done.
  destruct (Z.eqb_spec (core_store_has p s) 0) as [H0|Hne].
  - exists s. split_and!; [done..|]. intros q. destruct (strip (path_steps p) q) as [r|] eqn:E; [|done].
    apply strip_Some in E as ->. by apply no_values.
  - destruct (c_delete s p Hs Hp Hne) as (s'&Hd&Hs'&Hv). exists s'. rewrite (host_call_ok _ _ _ Hd). done.
Qed.

(** * The simulation *)

Record sim st s (stack : list view) : Prop := {
  sim_prefix : prefix st = pre;
  sim_depth : stack <> [];
  sim_small : small (length stack);
  sim_layers : layers st = map (layer_name pre) (seq 1 (length stack));
  sim_ok : c_ok s;
  sim_view i m : stack !! i = Some m -> forall r, c_value s (L (length stack - i) ++ r) = m r;
  sim_clean j r : length stack < j -> small j -> c_value s (L j ++ r) = None;
  sim_size m r v : m ∈ stack -> m r = Some v -> size_ok (length v)
}.

Lemma layers_last n : 1 <= n -> last (map (layer_name pre) (seq 1 n)) = Some (layer_name pre n).
Proof. intros H. destruct n as [|n]; [lia|]. rewrite seq_S, map_app. cbn [map]. by rewrite last_snoc. Qed.
Lemma layers_removelast n : 1 <= n -> removelast (map (layer_name pre) (seq 1 n)) = map (layer_name pre) (seq 1 (n - 1)).
Proof.
  intros H. destruct n as [|n]; [lia|]. rewrite seq_S, map_app. cbn [map]. rewrite removelast_last. do 2 f_equal. lia.
Qed.

Lemma small_le i j : i <= j -> small j -> small i.
Proof. unfold small. lia. Qed.

(** What the two top layers hold, and the others. *)
Lemma sim_top st s m stack : sim st s (m :: stack) -> forall r, c_value s (L (length (m :: stack)) ++ r) = m r.
Proof. intros H r. rewrite <- (sim_view _ _ _ H 0 m) by done. by rewrite Nat.sub_0_r. Qed.

Lemma sim_rest st s m stack i m' r : sim st s (m :: stack) -> stack !! i = Some m' ->
  c_value s (L (length stack - i) ++ r) = m' r.
Proof. intros H Hi. by rewrite <- (sim_view _ _ _ H (1 + i) m'). Qed.

(** Values of a list of views over the layers below. *)
Lemma sim_intro st s m stack : prefix st = pre -> layers st = map (layer_name pre) (seq 1 (length (m :: stack))) ->
  small (length (m :: stack)) -> c_ok s ->
  (forall r, c_value s (L (length (m :: stack)) ++ r) = m r) ->
  (forall i m', stack !! i = Some m' -> forall r, c_value s (L (length stack - i) ++ r) = m' r) ->
  (forall j r, length (m :: stack) < j -> small j -> c_value s (L j ++ r) = None) ->
  (forall m' r v, m' ∈ m :: stack -> m' r = Some v -> size_ok (length v)) ->
  sim st s (m :: stack).
Proof.
  intros Hp Hl Hsm Hs Ht Hr Hc Hz. split; try done. intros [|i] m' Hi r.
  - injection Hi as <-. rewrite Nat.sub_0_r. apply Ht.
  - by apply Hr.
Qed.

Lemma begin_full st s m stack : sim st s (m :: stack) -> small (length (m :: stack) + 1) ->
  exists st' s', begin_transaction (st, s) = (Ok tt, (st', s')) /\ sim st' s' (m :: m :: stack) /\ frame s s'.
Proof.
  intros H Hsm. set (n := length (m :: stack)). pose proof (sim_ok _ _ _ H) as Hs. pose proof (sim_small _ _ _ H) as Hn. fold n in Hn, Hsm.
  destruct (layer_name_ok pre Hpre Hroom n Hn) as [Hok _], (layer_name_ok pre Hpre Hroom (n + 1) Hsm) as [Hok' _].
  assert (Hname : prefix st ++ str "." ++ format_usize (n + 1) = layer_name pre (n + 1)).
  { rewrite (sim_prefix _ _ _ H). unfold layer_name. by rewrite (proj2 (Nat.eqb_neq _ _)) by (unfold n; cbn; lia). }
  assert (Hcopy : exists s', layer_force_make_copy (layer_name pre n) (layer_name pre (n + 1)) s = (Ok (layer_name pre (n + 1)), s') /\
    c_ok s' /\ forall q, c_value s' q = match strip (L (n + 1)) q with Some r => m r | None => c_value s q end).
  { unfold layer_force_make_copy, store_copy, mbind, M_bind. rewrite check_path_exists_spec by done.
    destruct (Z.eqb_spec (core_store_has (layer_name pre n) s) 0) as [H0|Hne].
    - exists s. split_and!; [done..|]. intros q. destruct (strip (L (n + 1)) q) as [r|] eqn:E; [|done].
      apply strip_Some in E as ->. rewrite (sim_clean _ _ _ H) by (fold n; done || lia).
      rewrite <- (sim_top _ _ _ _ H). symmetry. by apply no_values.
    - destruct (c_copy s _ _ Hs Hok Hok' Hne) as (s'&Hc&Hs'&Hv). exists s'. rewrite (host_call_ok _ _ _ Hc).
      split_and!; [done..|]. intros q. rewrite Hv. destruct (strip _ _); [|done]. apply (sim_top _ _ _ _ H). }
  destruct Hcopy as (s'&Hc&Hs'&Hv).
  exists (mkStorage (prefix st) (layers st ++ [layer_name pre (n + 1)])), s'.
  split; [|split; [|intros q Hq; by rewrite Hv, Hq by (done || lia)]].
  - unfold begin_transaction, mbind, M_bind, get_storage. rewrite (sim_layers _ _ _ H). fold n.
    rewrite length_map, length_seq, layers_last by (unfold n; cbn; lia). rewrite Hname.
    unfold on_host, path_result, lift, try_from. rewrite (proj2 (validate_path_spec _) Hok'). cbn [mbind outcome_bind map_err].
    rewrite Hc. reflexivity.
  - apply sim_intro; cbn [prefix layers].
    + apply (sim_prefix _ _ _ H).
    + rewrite (sim_layers _ _ _ H). fold n. change (length (m :: m :: stack)) with (1 + n). rewrite seq_S, map_app, (Nat.add_comm n 1). reflexivity.
    + change (length (m :: m :: stack)) with (1 + n). by rewrite Nat.add_comm.
    + done.
    + intros r. change (length (m :: m :: stack)) with (1 + n). rewrite Nat.add_comm, Hv. by rewrite strip_app.
    + intros i m' Hi r. rewrite Hv. rewrite layers_disjoint; [by apply (sim_view _ _ _ H)|done..| |].
      * eapply small_le; [|exact Hn]. lia.
      * fold n. lia.
    + intros j r Hj Hsj. change (length (m :: m :: stack)) with (1 + n) in Hj. rewrite Hv, layers_disjoint by (done || lia).
      apply (sim_clean _ _ _ H); [fold n; lia|done].
    + intros m' r v Hm. apply (sim_size _ _ _ H). set_solver.
Qed.
Lemma begin_spec st s m stack : sim st s (m :: stack) -> small (length (m :: stack) + 1) ->
  exists st' s', begin_transaction (st, s) = (Ok tt, (st', s')) /\ sim st' s' (m :: m :: stack).
Proof. intros H Hsm. destruct (begin_full st s m stack H Hsm) as (st'&s'&E&H'&_). eauto. Qed.

(** The two layers on top, when a transaction is open. *)
Lemma sim_two st s a b stack : sim st s (a :: b :: stack) ->
  let n := length (b :: stack) in
  path_ok (layer_name pre n) /\ path_ok (layer_name pre (n + 1)) /\ small n /\ small (n + 1) /\
  (forall r, c_value s (L (n + 1) ++ r) = a r) /\ (forall r, c_value s (L n ++ r) = b r).
Proof.
  intros H n. pose proof (sim_small _ _ _ H) as Hsm. change (length (a :: b :: stack)) with (1 + n) in Hsm.
  rewrite Nat.add_comm in Hsm. assert (Hn : small n) by (eapply small_le; [|exact Hsm]; lia).
  split_and!; [by apply layer_name_ok..|done|done| |].
  - intros r. rewrite <- (sim_top _ _ _ _ H). by rewrite Nat.add_comm.
  - intros r. rewrite <- (sim_rest _ _ _ _ 0 b r H) by done. by rewrite Nat.sub_0_r.
Qed.

(** The layers after the top one was popped. *)
Lemma sim_pop st s a b stack : sim st s (a :: b :: stack) ->
  let n := length (b :: stack) in
  length (layers st) = n + 1 /\ last (layers st) = Some (layer_name pre (n + 1)) /\
  removelast (layers st) = map (layer_name pre) (seq 1 n) /\ last (removelast (layers st)) = Some (layer_name pre n).
Proof.
  intros H n. rewrite (sim_layers _ _ _ H). change (length (a :: b :: stack)) with (1 + n).
  rewrite (Nat.add_comm 1 n). rewrite length_map, length_seq, layers_last, layers_removelast by lia.
  replace (n + 1 - 1) with n by lia. rewrite layers_last by (unfold n; cbn; lia). done.
Qed.

(** A host state where the top layer holds [m] after the layer above was emptied. *)
Lemma sim_shrink st s a b stack m s' : sim st s (a :: b :: stack) -> c_ok s' ->
  let n := length (b :: stack) in
  (forall r, c_value s' (L n ++ r) = m r) -> (forall r, c_value s' (L (n + 1) ++ r) = None) ->
  (forall j r, j <> n -> j <> n + 1 -> small j -> c_value s' (L j ++ r) = c_value s (L j ++ r)) ->
  (forall r v, m r = Some v -> size_ok (length v)) ->
  sim (mkStorage (prefix st) (removelast (layers st))) s' (m :: stack).
Proof.
  intros H Hs' n Hm Hnone Hother Hsize. destruct (sim_two _ _ _ _ _ H) as (_&_&Hn&Hn1&_&_). fold n in Hn, Hn1.
  assert (Hlen : length (m :: stack) = n) by done. apply sim_intro; cbn [prefix layers].
  - apply (sim_prefix _ _ _ H).
  - rewrite (proj1 (proj2 (proj2 (sim_pop _ _ _ _ _ H)))). by rewrite Hlen.
  - by rewrite Hlen.
  - done.
  - intros r. rewrite Hlen. apply Hm.
  - intros i m' Hi r. assert (length stack - i < n) by (unfold n; cbn; lia).
    rewrite Hother by first [lia|eapply small_le; [|exact Hn]; lia].
    by rewrite <- (sim_view _ _ _ H (2 + i) m').
  - intros j r Hj Hsj. rewrite Hlen in Hj. destruct (decide (j = n + 1)) as [->|Hne]; [apply Hnone|].
    rewrite Hother by (done || lia). apply (sim_clean _ _ _ H); [|done]. change (length (a :: b :: stack)) with (1 + n). lia.
  - intros m' r v [->|Hin]%elem_of_cons Hv; [by eapply Hsize|]. eapply (sim_size _ _ _ H); [|done]. set_solver.
Qed.

Lemma commit_full st s a b stack : sim st s (a :: b :: stack) ->
  exists st' s', commit_transaction (st, s) = (Ok tt, (st', s')) /\ sim st' s' (a :: stack) /\ frame s s'.
Proof.
  intros H. destruct (sim_two _ _ _ _ _ H) as (Hok&Hok1&Hn&Hn1&Ha&Hb), (sim_pop _ _ _ _ _ H) as (Hlen&Hlast&_&Hlast').
  set (n := length (b :: stack)) in *. pose proof (sim_ok _ _ _ H) as Hs.
  assert (Hc : exists s', layer_consume (layer_name pre n) (layer_name pre (n + 1)) s = (Ok tt, s') /\ c_ok s' /\
    forall q, c_value s' q = match strip (L n) q with
                             | Some r => a r
                             | None => match strip (L (n + 1)) q with Some _ => None | None => c_value s q end end).
  { unfold layer_consume. rewrite !has_some_spec by done.
    destruct (Z.eqb_spec (core_store_has (layer_name pre (n + 1)) s) 0) as [H0|Hne]; cbn [negb].
    - assert (Hanone : forall r, a r = None) by (intros r; rewrite <- Ha; by apply no_values).
      destruct (store_delete_spec (layer_name pre n) s Hs Hok) as (s1&Hd&Hs1&Hv1).
      assert (Hq : forall q, match strip (L (n + 1)) q with Some _ => None | None => c_value s q end = c_value s q).
      { intros q. destruct (strip (L (n + 1)) q) as [r|] eqn:E; [|done]. apply strip_Some in E as ->. by rewrite Ha, Hanone. }
      destruct (Z.eqb_spec (core_store_has (layer_name pre n) s) 0) as [H0'|Hne']; cbn [negb].
      + exists s. split_and!; [done..|]. intros q. rewrite Hq. destruct (strip (L n) q) as [r|] eqn:E; [|done].
        apply strip_Some in E as ->. rewrite Hanone. by apply no_values.
      + exists s1. unfold runtime, M_map_err. rewrite Hd. split_and!; [done..|]. intros q. rewrite Hv1, Hq.
        destruct (strip (L n) q); [by rewrite Hanone|done].
    - destruct (c_move s _ _ Hs Hok1 Hok Hne) as (s1&Hmv&Hs1&Hv1). exists s1.
      unfold runtime, M_map_err, store_move, mbind, M_bind. rewrite check_path_exists_spec by done.
      rewrite (proj2 (Z.eqb_neq _ _) Hne), (host_call_ok _ _ _ Hmv). split_and!; [done..|]. intros q. rewrite Hv1.
      destruct (strip (L n) q); [by rewrite Ha|done]. }
  destruct Hc as (s'&Hc&Hs'&Hv). eexists _, s'.
  split; [|split; [|intros q Hq; by rewrite Hv, !Hq by (done || (unfold n; cbn; lia))]].
  - unfold commit_transaction, mbind, M_bind, get_storage. rewrite Hlen, (proj2 (Nat.ltb_lt _ _)) by (unfold n; cbn; lia).
    unfold set_layers. rewrite Hlast, Hlast'. unfold on_host. rewrite Hc. reflexivity.
  - eapply sim_shrink; [done..|intros r|intros r|intros j r Hj Hj1 Hsj|intros r v].
    + fold n. by rewrite Hv, strip_app.
    + fold n. rewrite Hv, layers_disjoint, strip_app by (done || lia). done.
    + fold n in Hj, Hj1. rewrite Hv, !layers_disjoint by (done || lia). done.
    + intros Hav. eapply (sim_size _ _ _ H a); [set_solver|done].
Qed.
Lemma commit_spec st s a b stack : sim st s (a :: b :: stack) ->
  exists st' s', commit_transaction (st, s) = (Ok tt, (st', s')) /\ sim st' s' (a :: stack).
Proof. intros H. destruct (commit_full st s a b stack H) as (st'&s'&E&H'&_). eauto. Qed.

Lemma rollback_full st s a b stack : sim st s (a :: b :: stack) ->
  exists st' s', rollback_transaction (st, s) = (Ok tt, (st', s')) /\ sim st' s' (b :: stack) /\ frame s s'.
Proof.
  intros H. destruct (sim_two _ _ _ _ _ H) as (Hok&Hok1&Hn&Hn1&Ha&Hb), (sim_pop _ _ _ _ _ H) as (Hlen&Hlast&_&_).
  set (n := length (b :: stack)) in *. pose proof (sim_ok _ _ _ H) as Hs.
  destruct (store_delete_spec (layer_name pre (n + 1)) s Hs Hok1) as (s1&Hd&Hs1&Hv1).
  assert (Hc : exists s', layer_discard (layer_name pre (n + 1)) s = (Ok tt, s') /\ c_ok s' /\
    forall q, c_value s' q = match strip (L (n + 1)) q with Some _ => None | None => c_value s q end).
  { unfold layer_discard. rewrite has_some_spec by done.
    destruct (Z.eqb_spec (core_store_has (layer_name pre (n + 1)) s) 0) as [H0|Hne]; cbn [negb].
    - exists s. split_and!; [done..|]. intros q. destruct (strip _ q) as [r|] eqn:E; [|done].
      apply strip_Some in E as ->. by apply no_values.
    - exists s1. unfold runtime, M_map_err. by rewrite Hd. }
  destruct Hc as (s'&Hc&Hs'&Hv). eexists _, s'.
  split; [|split; [|intros q Hq; by rewrite Hv, Hq by (done || lia)]].
  - unfold rollback_transaction, mbind, M_bind, get_storage. rewrite Hlen, (proj2 (Nat.ltb_lt _ _)) by (unfold n; cbn; lia).
    unfold set_layers. rewrite Hlast. unfold on_host. rewrite Hc. reflexivity.
  - eapply sim_shrink; [done..|intros r|intros r|intros j r Hj Hj1 Hsj|intros r v].
    + fold n. by rewrite Hv, layers_disjoint by (done || lia).
    + fold n. by rewrite Hv, strip_app.
    + fold n in Hj, Hj1. rewrite Hv, layers_disjoint by (done || lia). done.
    + intros Hbv. eapply (sim_size _ _ _ H b); [set_solver|done].
Qed.
Lemma rollback_spec st s a b stack : sim st s (a :: b :: stack) ->
  exists st' s', rollback_transaction (st, s) = (Ok tt, (st', s')) /\ sim st' s' (b :: stack).
Proof. intros H. destruct (rollback_full st s a b stack H) as (st'&s'&E&H'&_). eauto. Qed.

Lemma no_transaction st s m : sim st s [m] ->
  commit_transaction (st, s) = (Err NoCurrentTransaction, (st, s)) /\
  rollback_transaction (st, s) = (Err NoCurrentTransaction, (st, s)).
Proof.
  intros H. unfold commit_transaction, rollback_transaction, mbind, M_bind, get_storage.
  by rewrite (sim_layers _ _ _ H).
Qed.

(** * Accesses to objects *)

Lemma account_path i id : small i -> path_ok id -> length pre + 11 + length id <= PATH_MAX_SIZE ->
  concat (layer_name pre i) id = Ok (layer_name pre i ++ id) /\ path_ok (layer_name pre i ++ id) /\
  path_steps (layer_name pre i ++ id) = L i ++ path_steps id.
Proof.
  intros Hi Hid Hlen. destruct (layer_name_ok pre Hpre Hroom i Hi) as [Hok Hl]. apply concat_ok; [done..|lia].
Qed.

Lemma sim_top_change st s m stack m' s' : sim st s (m :: stack) -> c_ok s' ->
  (forall r, c_value s' (L (length (m :: stack)) ++ r) = m' r) ->
  (forall j r, j <> length (m :: stack) -> small j -> c_value s' (L j ++ r) = c_value s (L j ++ r)) ->
  (forall r v, m' r = Some v -> size_ok (length v)) -> sim st s' (m' :: stack).
Proof.
  intros H Hs' Hm Hother Hsize. pose proof (sim_small _ _ _ H) as Hsm. apply sim_intro.
  - apply (sim_prefix _ _ _ H).
  - apply (sim_layers _ _ _ H).
  - done.
  - done.
  - done.
  - intros i m'' Hi r. rewrite Hother by first [cbn; lia|eapply small_le; [|exact Hsm]; cbn; lia]. by eapply sim_rest.
  - intros j r Hj Hsj. cbn in Hj. rewrite Hother by (done || (cbn; lia)). by apply (sim_clean _ _ _ H).
  - intros m'' r v [->|Hin]%elem_of_cons Hv; [by eapply Hsize|]. eapply (sim_size _ _ _ H); [|done]. set_solver.
Qed.

Lemma sim_last st s m stack : sim st s (m :: stack) -> last (layers st) = Some (layer_name pre (length (m :: stack))).
Proof. intros H. rewrite (sim_layers _ _ _ H). apply layers_last. cbn. lia. Qed.

Lemma get_or_create_spec st s m stack id : sim st s (m :: stack) -> path_ok id -> length pre + 11 + length id <= PATH_MAX_SIZE ->
  get_or_create id (st, s) = (Ok (layer_name pre (length (m :: stack)) ++ id), (st, s)).
Proof.
  intros H Hid Hlen. unfold get_or_create, mbind, M_bind, get_storage. rewrite (sim_last _ _ _ _ H).
  unfold on_layer, on_host, layer_get_or_create, path_result, lift.
  by rewrite (proj1 (account_path _ id (sim_small _ _ _ H) Hid Hlen)).
Qed.

(** The path of the steps [r] in the layer [i]. *)
Record in_layer (i : nat) (p : bytes) (r : list bytes) : Prop := { in_layer_ok : path_ok p; in_layer_steps : path_steps p = L i ++ r }.

(** Changes of one value, and of a subtree, in the top layer. *)
Lemma sim_sets st s m stack p r v s' : sim st s (m :: stack) -> in_layer (length (m :: stack)) p r -> sets s p (Some v) s' -> size_ok (length v) ->
  sim st s' (set_view r v m :: stack).
Proof.
  intros H [_ Hst] [Hs' Hval] Hv. pose proof (sim_small _ _ _ H) as Hsm. set (n := length (m :: stack)) in *.
  eapply sim_top_change; [done..|intros q|intros j q Hj Hsj|intros q w]; fold n.
  - rewrite Hval, Hst. unfold set_view. case_bool_decide as E.
    + apply app_inv_head in E as ->. by rewrite bool_decide_eq_true_2.
    + rewrite bool_decide_eq_false_2; [apply (sim_top _ _ _ _ H)|]. by intros ->.
  - rewrite Hval, Hst, bool_decide_eq_false_2; [done|]. intros E.
    pose proof (layers_disjoint pre Hpre n j q Hsm Hsj ltac:(fold n in Hj; lia)) as Hd. rewrite E, strip_app in Hd. done.
  - unfold set_view. case_bool_decide; [by intros [= <-]|]. intros Hmr. eapply (sim_size _ _ _ H m); [set_solver|done].
Qed.
Lemma sim_cut st s m stack p r s' : sim st s (m :: stack) -> in_layer (length (m :: stack)) p r -> c_ok s' ->
  (forall q, c_value s' q = match strip (path_steps p) q with Some _ => None | None => c_value s q end) -> sim st s' (cut_view r m :: stack).
Proof.
  intros H [_ Hst] Hs' Hval. pose proof (sim_small _ _ _ H) as Hsm. set (n := length (m :: stack)) in *.
  eapply sim_top_change; [done..|intros q|intros j q Hj Hsj|intros q w]; fold n.
  - rewrite Hval, Hst. unfold cut_view. destruct (strip r q) as [r'|] eqn:E.
    + apply strip_Some in E as ->. by rewrite app_assoc, strip_app.
    + replace (strip _ _) with (@None (list bytes)); [apply (sim_top _ _ _ _ H)|]. symmetry. apply strip_None.
      intros r' E'. rewrite <- app_assoc in E'. apply app_inv_head in E' as ->. by rewrite strip_app in E.
  - rewrite Hval, Hst. replace (strip _ _) with (@None (list bytes)); [done|]. symmetry. apply strip_None.
    intros r' E. rewrite <- app_assoc in E.
    pose proof (layers_disjoint pre Hpre n j q Hsm Hsj ltac:(fold n in Hj; lia)) as Hd'. by rewrite E, strip_app in Hd'.
  - unfold cut_view. destruct (strip _ _); [done|]. intros Hmr. eapply (sim_size _ _ _ H m); [set_solver|done].
Qed.

(** Paths below a layer are not outside. *)
Lemma outside_layer i p r q : in_layer i p r -> 1 <= i -> small i -> outside q -> q <> path_steps p /\ strip (path_steps p) q = None.
Proof.
  intros [_ E] H1 Hi Hq. specialize (Hq i H1 Hi). rewrite E. assert (Hn : forall r', q <> L i ++ r').
  { intros r' ->. by rewrite strip_app in Hq. }
  split; [apply Hn|]. apply strip_None. intros r'. rewrite <- app_assoc. apply Hn.
Qed.

Lemma write_spec st s m stack id v : sim st s (m :: stack) -> op_ok pre (Write id v) ->
  exists s', run_op (Write id v) (st, s) = (RDone, (st, s')) /\ sim st s' (set_view (path_steps id) v m :: stack) /\ frame s s'.
Proof.
  intros H (Hid&Hlen&Hv). pose proof (sim_small _ _ _ H) as Hsm. set (n := length (m :: stack)) in *.
  destruct (account_path n id Hsm Hid Hlen) as (_&Hok&Hst).
  assert (Hin : in_layer n (layer_name pre n ++ id) (path_steps id)) by done.
  destruct (store_write_all_spec s _ v (sim_ok _ _ _ H) Hok Hv) as (s'&Hw&Hset). exists s'. split; [|split].
  - cbn [run_op]. unfold mbind, M_bind. rewrite (get_or_create_spec _ _ _ _ _ H) by done. fold n.
    unfold on_host, runtime, M_map_err. by rewrite Hw.
  - by eapply sim_sets.
  - intros q Hq. rewrite (proj2 Hset), bool_decide_eq_false_2; [done|]. by eapply outside_layer; [done|unfold n; cbn; lia|..].
Qed.

Lemma delete_op_spec st s m stack id : sim st s (m :: stack) -> op_ok pre (Delete id) ->
  exists s', run_op (Delete id) (st, s) = (RDone, (st, s')) /\ sim st s' (cut_view (path_steps id) m :: stack) /\ frame s s'.
Proof.
  intros H (Hid&Hlen). pose proof (sim_small _ _ _ H) as Hsm. set (n := length (m :: stack)) in *.
  destruct (account_path n id Hsm Hid Hlen) as (Hc&Hok&Hst).
  assert (Hin : in_layer n (layer_name pre n ++ id) (path_steps id)) by done.
  destruct (store_delete_spec _ s (sim_ok _ _ _ H) Hok) as (s'&Hd&Hs'&Hval). exists s'. split; [|split].
  - cbn [run_op]. unfold delete, mbind, M_bind, get_storage. rewrite (sim_last _ _ _ _ H). fold n.
    unfold on_layer, on_host, layer_delete, mbind, M_bind, path_result, lift. rewrite Hc. cbn [map_err].
    unfold runtime, M_map_err. rewrite Hd. by destruct (_ =? _)%Z.
  - by eapply sim_cut.
  - intros q Hq. rewrite Hval. by rewrite (proj2 (outside_layer _ _ _ q Hin ltac:(unfold n; cbn; lia) Hsm Hq)).
Qed.

(** Reading under a layer. *)
Lemma read_layer i id s (o : option bytes) : c_ok s -> small i -> path_ok id -> length pre + 11 + length id <= PATH_MAX_SIZE ->
  c_value s (L i ++ path_steps id) = o -> (forall v, o = Some v -> size_ok (length v)) ->
  exists r, runtime (store_read_all (layer_name pre i ++ id)) s = (r, s) /\ read_result r = lookup_result o.
Proof.
  intros Hs Hi Hid Hlen Ho Hsize. destruct (account_path i id Hi Hid Hlen) as (_&Hok&Hst). rewrite <- Hst in Ho.
  unfold runtime, M_map_err. destruct o as [v|].
  - rewrite (store_read_all_spec s _ v) by auto. by eexists.
  - rewrite store_read_all_none by done. eexists. split; [done|]. by destruct (_ =? _)%Z.
Qed.

Lemma read_spec st s m stack id : sim st s (m :: stack) -> op_ok pre (Read id) ->
  run_op (Read id) (st, s) = (lookup_result (m (path_steps id)), (st, s)).
Proof.
  intros H (Hid&Hlen). pose proof (sim_small _ _ _ H) as Hsm.
  destruct (read_layer _ id s (m (path_steps id)) (sim_ok _ _ _ H) Hsm Hid Hlen (sim_top _ _ _ _ H _)) as (r&Hr&Hres).
  { intros v Hv. eapply (sim_size _ _ _ H m); [set_solver|done]. }
  cbn [run_op]. unfold mbind, M_bind. rewrite (get_or_create_spec _ _ _ _ _ H) by done. unfold on_host. by rewrite Hr, Hres.
Qed.

(** Looking for an object in a layer, and reading one of its fields: an object that is not found has no fields. *)
Lemma find_layer i id field s st (o : option bytes) : c_ok s -> small i -> op_ok pre (Get id field) ->
  c_value s (L i ++ path_steps id ++ path_steps field) = o -> (forall v, o = Some v -> size_ok (length v)) ->
  exists r, (object ← on_host (layer_get (layer_name pre i) id); read_field field object) (st, s) = (r, (st, s)) /\
    found_result r = lookup_result o.
Proof.
  intros Hs Hi (Hid&Hf&Hlen) Ho Hsize. destruct (account_path i id Hi Hid ltac:(lia)) as (Hc&Hok&Hst).
  destruct (layer_name_ok pre Hpre Hroom i Hi) as [_ Hl].
  destruct (concat_ok _ field Hok Hf ltac:(rewrite length_app; lia)) as (Hc'&Hok'&Hst').
  rewrite Hst, <- (app_assoc (L i)) in Hst'. rewrite <- Hst' in Ho. destruct (store_has_spec s _ Hs Hok) as (sub&Hh&Hsub&_&Hr).
  unfold mbind, M_bind, on_host at 1, layer_get, mbind, M_bind, path_result at 1, lift at 1. rewrite Hc. cbn [map_err].
  unfold has_subtree. rewrite Hr. set (b := has_subtree_res _). destruct b eqn:Eb; unfold mret, M_ret; cbn [read_field].
  - unfold on_host, mbind, M_bind, path_result, lift. rewrite Hc'. cbn [map_err]. unfold runtime, M_map_err. destruct o as [v|].
    + rewrite (store_read_all_spec s _ v) by auto. by eexists.
    + rewrite store_read_all_none by done. eexists. split; [done|]. by destruct (_ =? _)%Z.
  - exists (Ok None). split; [done|]. destruct o as [v|]; [|done]. exfalso.
    assert (sub = true) as ->. { apply (Hsub (path_steps field)); [apply (path_ok_steps field Hf)|]. rewrite Hst, <- (app_assoc (L i)), <- Hst', Ho. eauto. }
    subst b. by destruct (bool_decide _).
Qed.

Lemma get_spec st s m stack id field : sim st s (m :: stack) -> op_ok pre (Get id field) ->
  run_op (Get id field) (st, s) = (lookup_result (m (path_steps id ++ path_steps field)), (st, s)).
Proof.
  intros H Ho. destruct (find_layer _ id field s st _ (sim_ok _ _ _ H) (sim_small _ _ _ H) Ho (sim_top _ _ _ _ H _)) as (r&Hr&Hres).
  { intros v. apply (sim_size _ _ _ H m). set_solver. }
  cbn [run_op]. unfold get, get_storage. unfold mbind at 1, M_bind at 1. unfold mbind at 1, M_bind at 1. rewrite (sim_last _ _ _ _ H). unfold on_layer.
  unfold mbind at 1, M_bind at 1 in Hr. by rewrite Hr, Hres.
Qed.

(** The bottom layer. *)
Lemma sim_bottom st s m stack : sim st s (m :: stack) ->
  head (layers st) = Some (layer_name pre 1) /\ (forall r, c_value s (L 1 ++ r) = List.last (m :: stack) m r) /\ List.last (m :: stack) m ∈ m :: stack.
Proof.
  intros H. destruct (exists_last (l := m :: stack) ltac:(done)) as (l&b&Hl).
  assert (Hb : (m :: stack) !! length l = Some b) by (by rewrite Hl, lookup_app_r, Nat.sub_diag by done).
  assert (Hlen1 : length (m :: stack) = length l + 1) by (by rewrite Hl, length_app).
  split; [by rewrite (sim_layers _ _ _ H)|]. rewrite Hl, last_last. split; [|set_solver]. intros r.
  rewrite <- (sim_view _ _ _ H _ _ Hb). by replace (length (m :: stack) - length l) with 1 by lia.
Qed.

Lemma small_1 : small 1.
Proof. unfold small. lia. Qed.

Lemma read_original_spec st s m stack id : sim st s (m :: stack) -> op_ok pre (ReadOriginal id) ->
  run_op (ReadOriginal id) (st, s) = (lookup_result (List.last (m :: stack) m (path_steps id)), (st, s)).
Proof.
  intros H (Hid&Hlen). destruct (sim_bottom _ _ _ _ H) as (Hhead&Hv&Hin).
  destruct (read_layer 1 id s _ (sim_ok _ _ _ H) small_1 Hid Hlen (Hv _)) as (r&Hr&Hres).
  { intros v. by apply (sim_size _ _ _ H). }
  cbn [run_op]. unfold mbind, M_bind, get_storage. rewrite Hhead. unfold on_layer, on_host, mbind, M_bind, layer_get_or_create, path_result, lift.
  rewrite (proj1 (account_path 1 id small_1 Hid Hlen)). cbn [map_err]. by rewrite Hr, Hres.
Qed.

Lemma get_original_spec st s m stack id field : sim st s (m :: stack) -> op_ok pre (Get id field) ->
  run_op (GetOriginal id field) (st, s) = (lookup_result (List.last (m :: stack) m (path_steps id ++ path_steps field)), (st, s)).
Proof.
  intros H Ho. destruct (sim_bottom _ _ _ _ H) as (Hhead&Hv&Hin).
  destruct (find_layer 1 id field s st _ (sim_ok _ _ _ H) small_1 Ho (Hv _)) as (r&Hr&Hres).
  { intros v. by apply (sim_size _ _ _ H). }
  cbn [run_op]. unfold get_original, get_storage. unfold mbind at 1, M_bind at 1. unfold mbind at 1, M_bind at 1. rewrite Hhead. unfold on_layer.
  unfold mbind at 1, M_bind at 1 in Hr. by rewrite Hr, Hres.
Qed.

(** * Simulation of programs *)

Lemma run_op_spec st s stack o : sim st s stack -> op_ok pre o -> small (length stack + 1) ->
  exists st' s', run_op o (st, s) = ((spec_op o stack).1, (st', s')) /\ sim st' s' (spec_op o stack).2 /\ frame s s'.
Proof.
  intros H Ho Hsm. destruct stack as [|m stack]; [by destruct (sim_depth _ _ _ H)|].
  destruct o as [| | |id v|id|id|id|id field|id field]; cbn [spec_op fst snd].
  - destruct (begin_full _ _ _ _ H Hsm) as (st'&s'&Hr&Hs). exists st', s'. cbn [run_op]. by rewrite Hr.
  - destruct stack as [|b stack].
    + exists st, s. cbn [run_op]. by rewrite (proj1 (no_transaction _ _ _ H)).
    + destruct (commit_full _ _ _ _ _ H) as (st'&s'&Hr&Hs). exists st', s'. cbn [run_op]. by rewrite Hr.
  - destruct stack as [|b stack].
    + exists st, s. cbn [run_op]. by rewrite (proj2 (no_transaction _ _ _ H)).
    + destruct (rollback_full _ _ _ _ _ H) as (st'&s'&Hr&Hs). exists st', s'. cbn [run_op]. by rewrite Hr.
  - destruct (write_spec _ _ _ _ id v H Ho) as (s'&Hr&Hs). by exists st, s'.
  - exists st, s. by rewrite (read_spec _ _ _ _ id H Ho).
  - exists st, s. by rewrite (read_original_spec _ _ _ _ id H Ho).
  - destruct (delete_op_spec _ _ _ _ id H Ho) as (s'&Hr&Hs). by exists st, s'.
  - exists st, s. by rewrite (get_spec _ _ _ _ id field H Ho).
  - exists st, s. by rewrite (get_original_spec _ _ _ _ id field H Ho).
Qed.

Lemma spec_op_length o stack : length (spec_op o stack).2 <= length stack + 1.
Proof. destruct o, stack as [|m [|b stack]]; cbn; lia. Qed.

Lemma run_ops_spec l : forall st s stack, sim st s stack -> Forall (op_ok pre) l -> small (length stack + length l) ->
  exists st' s', run_ops l (st, s) = ((spec_ops l stack).1, (st', s')) /\ sim st' s' (spec_ops l stack).2 /\ frame s s'.
Proof.
  induction l as [|o l IH]; intros st s stack H Hl Hsm; cbn [run_ops spec_ops fst snd]; [by exists st, s|]. cbn [length] in Hsm.
  apply Forall_cons in Hl as [Ho Hl].
  destruct (run_op_spec st s stack o H Ho) as (st1&s1&Hr&Hs&Hf); [eapply small_le; [|exact Hsm]; lia|]. rewrite Hr.
  pose proof (spec_op_length o stack). destruct (spec_op o stack) as [r stack']. cbn [fst snd] in *.
  destruct (IH st1 s1 stack') as (st'&s'&Hrs&Hs'&Hf'); [done..|eapply small_le; [|exact Hsm]; lia|]. rewrite Hrs.
  destruct (spec_ops l stack') as [rs stack'']. exists st', s'. split_and!; [done..|]. by transitivity s1.
Qed.

(** C15: transactions are snapshots.  From a storage whose transaction layers are unused, every program of nested
    [begin_transaction], [commit_transaction], [rollback_transaction], of writes, reads and deletions of objects, and of reads of fields of
    objects found with [get] or [get_original], gives the results of a stack of maps: a transaction starts from the values of
    the one below, its changes replace them when it is committed and vanish when it is rolled back, and the original values
    stay readable; ending a transaction that was not begun is an error that changes nothing.  At the end the storage has one layer for
    each map of the stack, which holds exactly the values of the map, the names of further layers hold nothing, and everything below
    no layer is as it was. *)
Theorem transactions_are_snapshots s (m : view) (l : list op) :
  c_ok s -> (forall r, c_value s (path_steps pre ++ r) = m r) -> (forall r v, m r = Some v -> size_ok (length v)) ->
  (forall j r, 1 < j -> small j -> c_value s (path_steps (layer_name pre j) ++ r) = None) ->
  Forall (op_ok pre) l -> small (1 + length l) ->
  let '(results, stack) := spec_ops l [m] in
  exists st' s', run_ops l (init pre, s) = (results, (st', s')) /\ c_ok s' /\
    st' = mkStorage pre (map (layer_name pre) (seq 1 (length stack))) /\
    (forall i m', stack !! i = Some m' -> forall r, c_value s' (path_steps (layer_name pre (length stack - i)) ++ r) = m' r) /\
    (forall j r, length stack < j -> small j -> c_value s' (path_steps (layer_name pre j) ++ r) = None) /\
    (forall q, outside q -> c_value s' q = c_value s q).
Proof.
  intros Hs Hm Hsize Hclean Hl Hsm. destruct (run_ops_spec l (init pre) s [m]) as (st'&s'&Hr&H&Hf); [|done..|].
  - apply sim_intro; try done. intros m' r v Hin. rewrite list_elem_of_singleton in Hin. subst m'. apply Hsize.
  - destruct (spec_ops l [m]) as [rs stack]. exists st', s'. destruct H as [Hp Hd _ Hlay Hok Hv Hc _]. destruct st' as [p ls]. cbn in Hp, Hlay. subst p ls.
    split_and!; done.
Qed.
End transactions.

(** * Runs on the in-memory host *)

Definition empty_store : Store := mkStore node_default [].
Lemma empty_store_ok : c_ok empty_store.
Proof. apply tree_ok_default. Qed.
Lemma empty_store_value q : c_value empty_store q = None.
Proof. cbn. unfold store_value, legal_value. destruct (decide _); [apply value_at_default|done]. Qed.

(** A value that needs three chunks. *)
Lemma write_all_read_all_witness :
  exists s', store_write_all (str "/a/b") (repeat Byte.x07 5000) empty_store = (Ok tt, s') /\
    store_read_all (str "/a/b") s' = (Ok (repeat Byte.x07 5000), s').
Proof.
  destruct (write_all_read_all empty_store (str "/a/b") (repeat Byte.x07 5000)) as (s'&Hw&_&Hr&_).
  - exact empty_store_ok.
  - apply path_ok_compute. reflexivity.
  - vm_compute. reflexivity.
  - exists s'. split; [exact Hw|exact Hr].
Defined.

Definition value_store : Store := mkStore (set_value (str "/a/b") (str "hello") node_default) [].
Lemma value_store_ok : c_ok value_store.
Proof. apply tree_ok_set_value; [by apply path_ok_compute|apply tree_ok_default]. Qed.

Lemma store_write_patches_witness :
  (exists s', store_write (str "/a/b") (str "ipp") 1 value_store = (Ok tt, s') /\
    store_read_all (str "/a/b") s' = (Ok (str "hippo"), s')) /\
  store_write (str "/a/b") (str "x") 6 value_store = (Err (HostErr StoreInvalidAccess), value_store).
Proof.
  assert (Hp : path_ok (str "/a/b")) by (apply path_ok_compute; reflexivity).
  assert (Hv : c_value value_store (path_steps (str "/a/b")) = Some (str "hello")) by (vm_compute; reflexivity).
  split.
  - exact (store_write_patches value_store (str "/a/b") (str "hello") (str "ipp") 1 value_store_ok Hp Hv eq_refl eq_refl).
  - exact (store_write_patches value_store (str "/a/b") (str "hello") (str "x") 6 value_store_ok Hp Hv eq_refl eq_refl).
Defined.

(** Nested transactions: the inner one is rolled back, the outer one committed. *)
Definition ex_program : list op :=
  [Write (str "/alice/balance") (str "1"); Begin; Write (str "/alice/balance") (str "2"); Begin; Delete (str "/alice");
   Get (str "/alice") (str "/balance"); GetOriginal (str "/alice") (str "/balance"); Rollback; Get (str "/alice") (str "/balance"); Commit;
   ReadOriginal (str "/alice/balance"); Commit; Begin].
Definition elsewhere : list bytes := [str "elsewhere"].
Definition elsewhere_store : Store := mkStore (set_value (str "/elsewhere") (str "kept") node_default) [].

Lemma elsewhere_value q : c_value elsewhere_store q = if bool_decide (q = elsewhere) then Some (str "kept") else None.
Proof.
  change (legal_value (node_insert elsewhere (with_value (str "kept") node_default) node_default) q =
    if bool_decide (q = elsewhere) then Some (str "kept") else None). unfold legal_value.
  rewrite value_at_insert, value_at_default. destruct (strip elsewhere q) as [r|] eqn:E.
  - apply strip_Some in E as ->. destruct r as [|x r]; [by vm_compute|]. rewrite bool_decide_eq_false_2 by (intros [=]).
    destruct (decide _); [|done]. rewrite value_at_cons. cbn [with_value inner]. destruct (decide (x = VALUE_NAME)) as [->|Hx].
    + rewrite lookup_insert_eq. apply value_at_default.
    + by rewrite lookup_insert_ne.
  - rewrite bool_decide_eq_false_2; [by destruct (decide _)|]. intros ->. by vm_compute in E.
Qed.

(** Layers are named after the storage. *)
Lemma accounts_layer i : exists x, path_steps (layer_name (str "/accounts") i) = [str "accounts" ++ x].
Proof.
  destruct (layer_name_steps (str "/accounts") ltac:(apply path_ok_compute; reflexivity)) as (l&x&H). pose proof (H 1) as H1.
  change (path_steps (layer_name (str "/accounts") 1)) with [str "accounts"] in H1. change (layer_suffix 1) with (@nil byte) in H1.
  rewrite app_nil_r in H1. assert (l = []) as -> by (destruct l as [|? []]; naive_solver). injection H1 as <-. exists (layer_suffix i). apply H.
Qed.
Lemma layer_not_elsewhere i r : path_steps (layer_name (str "/accounts") i) ++ r <> elsewhere.
Proof. destruct (accounts_layer i) as [x ->]. discriminate. Qed.

Lemma transactions_are_snapshots_witness : exists s',
  run_ops ex_program (init (str "/accounts"), elsewhere_store) =
    ([RDone; RDone; RDone; RDone; RDone; RMissing; RValue (str "1"); RDone; RValue (str "2"); RDone;
      RValue (str "2"); RError NoCurrentTransaction; RDone], (mkStorage (str "/accounts") [str "/accounts"; str "/accounts.2"], s')) /\
  c_value s' (path_steps (str "/accounts.2/alice/balance")) = Some (str "2") /\
  c_value s' elsewhere = Some (str "kept").
Proof.
  assert (Hnone : forall i r, c_value elsewhere_store (path_steps (layer_name (str "/accounts") i) ++ r) = None)
    by (intros i r; rewrite elsewhere_value, bool_decide_eq_false_2; [done|apply layer_not_elsewhere]).
  assert (Ha : path_ok (str "/alice")) by (apply path_ok_compute; reflexivity).
  assert (Hb : path_ok (str "/balance")) by (apply path_ok_compute; reflexivity).
  assert (Hab : path_ok (str "/alice/balance")) by (apply path_ok_compute; reflexivity).
  pose proof (transactions_are_snapshots (str "/accounts") ltac:(apply path_ok_compute; reflexivity) ltac:(vm_compute; lia)
    elsewhere_store (fun _ => None) ex_program) as H.
  destruct H as (st'&s'&Hr&_&->&Hv&_&Hf).
  - apply tree_ok_set_value; [by apply path_ok_compute|apply tree_ok_default].
  - apply (Hnone 1).
  - discriminate.
  - intros j r _ _. apply Hnone.
  - repeat constructor; try exact Ha; try exact Hb; try exact Hab; vm_compute; lia || reflexivity.
  - vm_compute. reflexivity.
  - exists s'. split_and!.
    + exact Hr.
    + exact (Hv 0 _ eq_refl (path_steps (str "/alice/balance"))).
    + rewrite Hf, elsewhere_value; [reflexivity|]. intros i _ _. apply strip_None. intros r E. by apply (layer_not_elsewhere i r).
Defined.
