(* ===== verification/KernelInput.v ===== *)
(** Inputs of a kernel, and the mock host.

    Models, from [src/kernel_sdk], reading the inbox and the metadata of the rollup ([host/src/runtime.rs], [metadata.rs], [input.rs]) and the state of the mock
    host, with its inbox ([mock/src/state/mod.rs]).  [HostFrame] states what the host functions leave alone, whether they succeed or not. *)

From S2P Require Import Prelude Endian KernelPath KernelHost KernelRuntime KernelStore KernelStoreLaws.

(** * Inputs *)

Definition MAX_INPUT_MESSAGE_SIZE : nat := N.to_nat 4096.
Record Message : Set := mkMessage { level : N; id : N; payload : bytes }.

Definition RAW_ROLLUP_ADDRESS_SIZE : nat := 20.
Definition METADATA_SIZE : nat := RAW_ROLLUP_ADDRESS_SIZE + 4.
Record RollupMetadata : Set := mkMetadata { raw_rollup_address : bytes; origination_level : N }.
Definition metadata_from (value : bytes) : RollupMetadata :=
  mkMetadata (take RAW_ROLLUP_ADDRESS_SIZE value) (of_be_bytes (drop RAW_ROLLUP_ADDRESS_SIZE value)).
Definition metadata_bytes (value : RollupMetadata) : bytes := raw_rollup_address value ++ be_bytes 4 (origination_level value).

(** The host functions: the code, level and number of the message, the bytes written, and the state. *)
Class InputCore (S : Type) := {
  core_read_input : nat -> S -> Z * (Z * Z) * bytes * S;
  core_reveal_metadata : nat -> S -> Z * bytes
}.

Section input.
Context {S : Type} {input : InputCore S}.

(** [level as u32]. *)
Definition as_u32 (z : Z) : N := Z.to_N (z mod 2 ^ 32).
Definition read_input : M S RuntimeError (option Message) := fun s =>
  let '(bytes_read, (level, id), buffer, s) := core_read_input MAX_INPUT_MESSAGE_SIZE s in
  (bytes_read ← host_result bytes_read;
   if bytes_read =? 0 then Ok None else Ok (Some (mkMessage (as_u32 level) (as_u32 id) (take bytes_read buffer))), s).

(** The buffer is initially zero; the size that is returned is only checked in debug builds. *)
Definition reveal_metadata (s : S) : RollupMetadata :=
  let '(_, bs) := core_reveal_metadata METADATA_SIZE s in
  metadata_from (bs ++ drop (length bs) (repeat Byte.x00 METADATA_SIZE)).
End input.

(** * What host functions leave alone *)

Definition outside_of (p : bytes) (q : list bytes) : Prop := strip (path_steps p) q = None.

Section frame.
Context {S : Type} {core : SmartRollupCore S} {laws : CoreLaws S}.

(** The storage stays usable, and the values for which [P] holds stay. *)
Definition keeps (P : list bytes -> Prop) (s s' : S) : Prop := c_ok s' /\ forall q, P q -> c_value s' q = c_value s q.
End frame.

Class HostFrame (S : Type) {core : SmartRollupCore S} {laws : CoreLaws S} {input : InputCore S} := {
  f_write s p off bs : c_ok s -> path_ok p -> keeps (fun q => q <> path_steps p) s (core_store_write p off bs s).2;
  f_delete s p : c_ok s -> path_ok p -> keeps (outside_of p) s (core_store_delete p s).2;
  f_delete_value s p : c_ok s -> path_ok p -> keeps (fun q => q <> path_steps p) s (core_store_delete_value p s).2;
  f_copy s from to_ : c_ok s -> path_ok from -> path_ok to_ -> keeps (outside_of to_) s (core_store_copy from to_ s).2;
  f_move s from to_ : c_ok s -> path_ok from -> path_ok to_ -> keeps (fun q => outside_of from q /\ outside_of to_ q) s (core_store_move from to_ s).2;
  f_output s o : c_ok s -> keeps (fun _ => True) s (core_write_output o s).2;
  f_input s n : c_ok s -> keeps (fun _ => True) s (core_read_input n s).2
}.

Section keeps.
Context {S : Type} {core : SmartRollupCore S} {laws : CoreLaws S} {input : InputCore S} {frame : HostFrame S}.
Implicit Types (s : S) (P : list bytes -> Prop).

Lemma keeps_refl P s : c_ok s -> keeps P s s.
Proof. by split. Qed.
Lemma keeps_trans P s s' s'' : keeps P s s' -> keeps P s' s'' -> keeps P s s''.
Proof. intros [_ H] [Hs H']. split; [done|]. intros q Hq. by rewrite H', H. Qed.
Lemma keeps_weaken (P Q : list bytes -> Prop) s s' : keeps P s s' -> (forall q, Q q -> P q) -> keeps Q s s'.
Proof. intros [Hs H] HQ. split; [done|]. intros q Hq. by apply H, HQ. Qed.

(** * Programs that keep values *)

Definition keepsM {E A} P (m : M S E A) : Prop := forall s, c_ok s -> keeps P s (m s).2.

Lemma keepsM_bind {E A B} P (m : M S E A) (k : A -> M S E B) : keepsM P m -> (forall a, keepsM P (k a)) -> keepsM P (m ≫= k).
Proof.
  intros Hm Hk s Hs. specialize (Hm s Hs). unfold mbind, M_bind. destruct (m s) as [[a|e|p|] s1]; try done.
  eapply keeps_trans; [exact Hm|]. apply Hk, Hm.
Qed.
Lemma keepsM_ret {E A} P (a : A) : keepsM (E := E) P (mret a).
Proof. intros s Hs. by apply keeps_refl. Qed.
Lemma keepsM_lift {E A} P (o : outcome E A) : keepsM P (lift o).
Proof. intros s Hs. by apply keeps_refl. Qed.
Lemma keepsM_map_err {E F A} P (f : E -> F) (m : M S E A) : keepsM P m -> keepsM P (M_map_err f m).
Proof. intros Hm s Hs. specialize (Hm s Hs). unfold M_map_err. by destruct (m s). Qed.
Lemma keepsM_ok {E F A} P (m : M S E A) : keepsM P m -> keepsM P (M_ok (F := F) m).
Proof. intros Hm s Hs. specialize (Hm s Hs). unfold M_ok. by destruct (m s) as [[] ?]. Qed.
(** Reading. *)
Lemma keepsM_read {E A} P (m : M S E A) : (forall s, (m s).2 = s) -> keepsM P m.
Proof. intros Hm s Hs. rewrite Hm. by apply keeps_refl. Qed.
Lemma keepsM_call P f : (forall s, c_ok s -> keeps P s (f s).2) -> keepsM P (host_call f).
Proof. intros Hf s Hs. specialize (Hf s Hs). unfold host_call. by destruct (f s). Qed.

Lemma check_exists_state p s : (check_path_exists p s).2 = s.
Proof. unfold check_path_exists. by repeat case_match. Qed.
Lemma check_has_state p s : (check_path_has_value p s).2 = s.
Proof. unfold check_path_has_value. by repeat case_match. Qed.
Lemma bind_state {E A B} (m : M S E A) (k : A -> M S E B) s : (m s).2 = s -> (forall a, (k a s).2 = s) -> ((m ≫= k) s).2 = s.
Proof. intros Hm Hk. unfold mbind, M_bind. destruct (m s) as [[a|e|p|] s1]; cbn in *; subst; auto. Qed.
Lemma read_slice_state p off buffer s : (KernelHost.store_read_slice p off buffer s).2 = s.
Proof. unfold KernelHost.store_read_slice. by destruct (core_store_read _ _ _ _). Qed.
Lemma store_read_state p off max s : (store_read p off max s).2 = s.
Proof. apply bind_state; [apply check_has_state|]. intros _. apply bind_state; [apply read_slice_state|]. by intros []. Qed.

Lemma write_chunks_keeps fuel p : path_ok p -> forall src off, keepsM (fun q => q <> path_steps p) (write_chunks fuel p src off).
Proof.
  intros Hp. induction fuel as [|fuel IH]; intros src off; cbn [write_chunks].
  - destruct (_ <? _); [by intros s Hs; apply keeps_refl|]. destruct src; [apply keepsM_ret|]. apply keepsM_call. intros s Hs. by apply f_write.
  - destruct (_ <? _); [|destruct src; [apply keepsM_ret|]; apply keepsM_call; intros s Hs; by apply f_write].
    apply keepsM_bind; [|intros _; apply IH]. apply keepsM_call. intros s Hs. by apply f_write.
Qed.
Lemma store_write_keeps p src off : path_ok p -> keepsM (fun q => q <> path_steps p) (store_write p src off).
Proof.
  intros Hp. unfold store_write. destruct (_ <=? _); [|by apply write_chunks_keeps]. apply keepsM_call. intros s Hs. by apply f_write.
Qed.
Lemma store_write_all_keeps p v : path_ok p -> keepsM (fun q => q <> path_steps p) (store_write_all p v).
Proof.
  intros Hp. apply keepsM_bind; [|intros _; by apply store_write_keeps]. apply keepsM_call. intros s Hs. by apply f_delete_value.
Qed.
Lemma store_delete_keeps p : path_ok p -> keepsM (outside_of p) (store_delete p).
Proof. intros Hp. apply keepsM_bind; [apply keepsM_read, check_exists_state|]. intros _. apply keepsM_call. intros s Hs. by apply f_delete. Qed.
Lemma store_copy_keeps p q : path_ok p -> path_ok q -> keepsM (outside_of q) (store_copy p q).
Proof. intros Hp Hq. apply keepsM_bind; [apply keepsM_read, check_exists_state|]. intros _. apply keepsM_call. intros s Hs. by apply f_copy. Qed.
Lemma store_move_keeps p q : path_ok p -> path_ok q -> keepsM (fun x => outside_of p x /\ outside_of q x) (store_move p q).
Proof. intros Hp Hq. apply keepsM_bind; [apply keepsM_read, check_exists_state|]. intros _. apply keepsM_call. intros s Hs. by apply f_move. Qed.
Lemma keepsM_weaken {E A} (P Q : list bytes -> Prop) (m : M S E A) : keepsM P m -> (forall q, Q q -> P q) -> keepsM Q m.
Proof. intros Hm HQ s Hs. by eapply keeps_weaken; [apply Hm|]. Qed.

(** * Operations that succeed *)

Lemma store_move_ok s p q : c_ok s -> path_ok p -> path_ok q -> core_store_has p s <> 0%Z -> exists s', store_move p q s = (Ok tt, s') /\ c_ok s' /\
  forall x, c_value s' x = match strip (path_steps q) x with
                           | Some r => c_value s (path_steps p ++ r)
                           | None => match strip (path_steps p) x with Some _ => None | None => c_value s x end
                           end.
Proof.
  intros Hs Hp Hq Hh. destruct (c_move s p q Hs Hp Hq Hh) as (s'&E&H). exists s'. split; [|done]. unfold store_move, mbind, M_bind.
  rewrite check_path_exists_spec by done. rewrite (proj2 (Z.eqb_neq _ _) Hh). unfold host_call. by rewrite E.
Qed.
Lemma store_copy_ok s p q : c_ok s -> path_ok p -> path_ok q -> core_store_has p s <> 0%Z -> exists s', store_copy p q s = (Ok tt, s') /\ c_ok s' /\
  forall x, c_value s' x = match strip (path_steps q) x with Some r => c_value s (path_steps p ++ r) | None => c_value s x end.
Proof.
  intros Hs Hp Hq Hh. destruct (c_copy s p q Hs Hp Hq Hh) as (s'&E&H). exists s'. split; [|done]. unfold store_copy, mbind, M_bind.
  rewrite check_path_exists_spec by done. rewrite (proj2 (Z.eqb_neq _ _) Hh). unfold host_call. by rewrite E.
Qed.
Lemma store_delete_ok s p : c_ok s -> path_ok p -> core_store_has p s <> 0%Z -> exists s', store_delete p s = (Ok tt, s') /\ c_ok s' /\
  forall x, c_value s' x = match strip (path_steps p) x with Some _ => None | None => c_value s x end.
Proof.
  intros Hs Hp Hh. destruct (c_delete s p Hs Hp Hh) as (s'&E&H). exists s'. split; [|done]. unfold store_delete, mbind, M_bind.
  rewrite check_path_exists_spec by done. rewrite (proj2 (Z.eqb_neq _ _) Hh). unfold host_call. by rewrite E.
Qed.
(** What is missing cannot be moved, copied or deleted. *)
Lemma missing {A} s p (k : unit -> M S RuntimeError A) : c_ok s -> path_ok p -> core_store_has p s = 0%Z ->
  (check_path_exists p ≫= k) s = (Err PathNotFound, s).
Proof. intros Hs Hp Hh. unfold mbind, M_bind. rewrite check_path_exists_spec by done. by rewrite Hh. Qed.

Lemma keepsM_lift_bind {E A B} P (o : outcome E A) (k : A -> M S E B) : (forall a, o = Ok a -> keepsM P (k a)) -> keepsM P (lift o ≫= k).
Proof. intros H s Hs. unfold mbind, M_bind, lift. destruct o as [a|e|p|]; try by apply keeps_refl. by apply H. Qed.
End keeps.
(** The rule for the head of a program. *)
Ltac keep_step := match goal with
  | |- keepsM _ (lift _ ≫= _) => apply keepsM_lift_bind; intros ? ?
  | |- keepsM _ (_ ≫= _) => apply keepsM_bind
  | |- keepsM _ (M_map_err _ _) => apply keepsM_map_err
  | |- keepsM _ (M_ok _) => apply keepsM_ok
  | |- keepsM _ (mret _) => apply keepsM_ret
  | |- keepsM _ (store_read _ _ _) => apply keepsM_read, store_read_state
  | |- keepsM _ (store_count_subkeys _) => by apply keepsM_read
  | |- forall _, keepsM _ _ => intros ?
  | |- keepsM _ (match ?x with _ => _ end) => destruct x
  end.
Ltac keep := repeat keep_step.

(** * The mock host (mock/src/state/mod.rs) *)

Record HostState : Type := mkHostState { store : Store; metadata : RollupMetadata; curr_level : N; curr_input_id : nat; input : list bytes }.
Definition set_store (st : Store) (h : HostState) : HostState := mkHostState st (metadata h) (curr_level h) (curr_input_id h) (input h).
Definition add_input (i : bytes) (h : HostState) : outcome unit HostState :=
  if MAX_INPUT_MESSAGE_SIZE <? length i then Panic PUnwrap
  else Ok (mkHostState (store h) (metadata h) (curr_level h) (curr_input_id h) (input h ++ [i])).

Record NextInput : Set := mkNextInput { n_level : N; n_id : N; n_payload : bytes }.
Definition handle_read_input (max_bytes : nat) (h : HostState) : option NextInput * HostState :=
  (m ← input h !! curr_input_id h; Some (mkNextInput (curr_level h) (N.of_nat (curr_input_id h)) (take max_bytes m)),
   mkHostState (store h) (metadata h) (curr_level h) (S (curr_input_id h)) (input h)).

(** [read_input] of [mock/src/host.rs]: nothing is read when there is no message. *)
#[global] Instance MockHost_input : InputCore HostState := {
  core_read_input max h :=
    match handle_read_input max h with
    | (Some i, h) => (Z.of_nat (length (n_payload i)), (Z.of_N (n_level i), Z.of_N (n_id i)), n_payload i, h)
    | (None, h) => (0%Z, (0, 0)%Z, [], h)
    end;
  core_reveal_metadata max h := let bs := take max (metadata_bytes (metadata h)) in (Z.of_nat (length bs), bs)
}.

Definition on_store (f : Store -> Z * Store) (h : HostState) : Z * HostState := let '(c, st) := f (store h) in (c, set_store st h).
#[global] Instance MockHost_core : SmartRollupCore HostState | 10 := {
  core_store_has p h := core_store_has p (store h);
  core_store_read p off max h := core_store_read p off max (store h);
  core_store_write p off bs := on_store (core_store_write p off bs);
  core_store_delete p := on_store (core_store_delete p);
  core_store_delete_value p := on_store (core_store_delete_value p);
  core_store_list_size p h := core_store_list_size p (store h);
  core_store_move p q := on_store (core_store_move p q);
  core_store_copy p q := on_store (core_store_copy p q);
  core_store_value_size p h := core_store_value_size p (store h);
  core_write_output o := on_store (core_write_output o)
}.

(** * Its laws *)

Lemma on_store_ok f h st : f (store h) = (0%Z, st) -> on_store f h = (0%Z, set_store st h).
Proof. intros E. unfold on_store. by rewrite E. Qed.
Lemma on_store_state f h : (on_store f h).2 = set_store (f (store h)).2 h.
Proof. unfold on_store. by destruct (f (store h)). Qed.
Lemma set_store_id h : set_store (store h) h = h.
Proof. by destruct h. Qed.

(** A law of the store gives that of the host. *)
Ltac lifted law := let st := fresh in edestruct law as (st&?&?&?); [eassumption..|]; eexists; split; [by apply on_store_ok|]; split; [done|intros; cbn; eauto].

#[global] Program Instance MockHost_laws : CoreLaws HostState | 10 := {
  c_ok h := c_ok (store h);
  c_value h := c_value (store h);
  c_node h := c_node (store h)
}.
Next Obligation. intros h p Hs Hp. exact (c_has (store h) p Hs Hp). Qed.
Next Obligation. intros h p off max v Hs Hp Hv Ho. exact (c_read (store h) p off max v Hs Hp Hv Ho). Qed.
Next Obligation. intros h p off max Hs Hp Hv. exact (c_read_none (store h) p off max Hs Hp Hv). Qed.
Next Obligation. intros h p v Hs Hp Hv Hz. exact (c_value_size (store h) p v Hs Hp Hv Hz). Qed.
Next Obligation. intros h p Hs Hp Hv. exact (c_value_size_none (store h) p Hs Hp Hv). Qed.
Next Obligation. intros h p off bs Hs Hp Hl Ho Hz. lifted (c_write (store h) p off bs). Qed.
Next Obligation. intros h p off bs Hs Hp Hl Ho. change (on_store (core_store_write p off bs) h = (code StoreInvalidAccess, h)). unfold on_store.
  rewrite (c_write_out (store h)) by done. by rewrite set_store_id. Qed.
Next Obligation. intros h p Hs Hp Hh. lifted (c_delete (store h) p). Qed.
Next Obligation. intros h p Hs Hp. lifted (c_delete_value (store h) p). Qed.
Next Obligation. intros h p q Hs Hp Hq Hh. lifted (c_copy (store h) p q). Qed.
Next Obligation. intros h p q Hs Hp Hq Hh. lifted (c_move (store h) p q). Qed.
Next Obligation. intros h q r Hs Hv. exact (c_value_node (store h) q r Hs Hv). Qed.
Next Obligation. intros h p Hs Hp Hv. exact (c_list_size (store h) p Hs Hp Hv). Qed.
Next Obligation. intros h p off bs q Hp. change (core_store_write p off bs h) with (on_store (core_store_write p off bs) h). rewrite on_store_state. exact (c_write_nodes (store h) p off bs q Hp). Qed.
Next Obligation. intros h p q Hp. change (core_store_delete p h) with (on_store (core_store_delete p) h). rewrite on_store_state. exact (c_delete_nodes (store h) p q Hp). Qed.
Next Obligation. intros h p q Hp. change (core_store_delete_value p h) with (on_store (core_store_delete_value p) h). rewrite on_store_state. exact (c_delete_value_nodes (store h) p q Hp). Qed.

(** Outcomes of the store are errors that change nothing, or new trees. *)
Lemma update_durable_keeps f (h : HostState) P : c_ok h -> (forall n, f (durable (store h)) = Ok n -> keeps P (store h) (set_durable n (store h))) ->
  keeps P h (on_store (update_durable f) h).2.
Proof.
  intros Hs H. rewrite on_store_state. unfold update_durable. destruct (f (durable (store h))) as [n|e|p|]; cbn; try by split.
  by apply (H n).
Qed.

#[global] Instance MockHost_frame : HostFrame HostState.
Proof.
  split.
  - intros h p off bs Hs Hp. apply update_durable_keeps; [done|]. intros n H. unfold handle_store_write in H. rewrite validate_ok in H by done.
    destruct (_ <? _); [done|]. cbn [mbind outcome_bind] in H. destruct (_ <? _); [done|]. injection H as <-. split; [by apply tree_ok_set_value|].
    intros q Hq. cbn. unfold store_value, legal_value. cbn.
    destruct (decide (Forall step_ok q)); [|done]. by rewrite set_value_spec, bool_decide_eq_false_2.
  - intros h p Hs Hp. destruct (path_steps_legal p Hp) as [Hl Hne]. apply update_durable_keeps; [done|]. intros n H. unfold handle_store_delete in H.
    rewrite validate_ok in H by done. injection H as <-. split; [by apply tree_ok_delete|]. intros q Hq. cbn. unfold store_value. cbn.
    rewrite delete_spec by done. by rewrite Hq.
  - intros h p Hs Hp. destruct (c_delete_value h p Hs Hp) as (h'&E&Hs'&Hv). rewrite E. split; [done|]. intros q Hq. rewrite Hv.
    by rewrite bool_decide_eq_false_2.
  - intros h p q Hs Hp Hq. destruct (path_steps_legal p Hp) as [Hlp _], (path_steps_legal q Hq) as [Hlq _]. apply update_durable_keeps; [done|].
    intros n H. unfold handle_store_copy in H. rewrite !validate_ok in H by done. cbn [mbind outcome_bind] in H.
    destruct (node_from_path (path_steps p) _) as [m|] eqn:Em; [|done]. injection H as <-. split; [by eapply (moved_ok _ (path_steps p) m (durable (store h)))|].
    intros x Hx. cbn. unfold store_value. cbn. rewrite (insert_from_spec (path_steps p) _ (durable (store h)) m) by done. by rewrite Hx.
  - intros h p q Hs Hp Hq. destruct (path_steps_legal p Hp) as [Hlp Hnp], (path_steps_legal q Hq) as [Hlq _]. apply update_durable_keeps; [done|].
    intros n H. unfold handle_store_move in H. rewrite !validate_ok in H by done. cbn [mbind outcome_bind] in H.
    destruct (node_from_path (path_steps p) _) as [m|] eqn:Em; [|done]. injection H as <-.
    split; [eapply (moved_ok _ (path_steps p) m (durable (store h))); [done..|]; by apply tree_ok_delete|].
    intros x [Hx1 Hx2]. cbn. unfold store_value. cbn. rewrite (insert_from_spec (path_steps p) _ (durable (store h)) m) by done. rewrite Hx2, delete_spec by done.
    by rewrite Hx1.
  - intros h o Hs. change (core_write_output o h) with (on_store (core_write_output o) h). rewrite on_store_state. cbn. unfold handle_write_output.
    destruct (_ <? _); [by split|]. destruct (_ <? _); by split.
  - intros h n Hs. cbn. unfold handle_read_input. cbn. by destruct (input h !! curr_input_id h).
Qed.
