(* ===== verification/SdkNom.v ===== *)
(** Readers and writers of binary data.

    The crates nom and tezos_data_encoding, which the encodings of the kernel SDK ([src/kernel_sdk/encoding]) are built on, are outside of the repository:
    their functions are parameters ([NomCrate], [DataEncoding]), with what their documentation says of them as laws.  A value is [coded] when
    what is written of it, if anything, is read back. *)

From S2P Require Import Prelude Endian.

(** * The crates *)

Class NomCrate := {
  NomErr : Type;
  (** [nom::Err::Error], which [alt] recovers from, and not [nom::Err::Failure]. *)
  recoverable : NomErr -> bool;
  nom_tag : bytes -> bytes -> outcome NomErr (bytes * bytes);
  nom_u8 : bytes -> outcome NomErr (byte * bytes);
  nom_i64 : bytes -> outcome NomErr (Z * bytes);
  nom_rest : bytes -> outcome NomErr (bytes * bytes);
  nom_eof : bytes -> outcome NomErr (bytes * bytes);
  nom_take_while : (byte -> bool) -> bytes -> outcome NomErr (bytes * bytes);
  nom_take_while1 : (byte -> bool) -> bytes -> outcome NomErr (bytes * bytes);
  nom_success {A} : A -> bytes -> outcome NomErr (A * bytes);
  nom_map {A B} : (bytes -> outcome NomErr (A * bytes)) -> (A -> B) -> bytes -> outcome NomErr (B * bytes);
  nom_map_res {A B} : (bytes -> outcome NomErr (A * bytes)) -> (A -> option B) -> bytes -> outcome NomErr (B * bytes);
  nom_recognize {A} : (bytes -> outcome NomErr (A * bytes)) -> bytes -> outcome NomErr (bytes * bytes);
  nom_pair {A B} : (bytes -> outcome NomErr (A * bytes)) -> (bytes -> outcome NomErr (B * bytes)) -> bytes -> outcome NomErr ((A * B) * bytes);
  nom_tuple3 {A B C} : (bytes -> outcome NomErr (A * bytes)) -> (bytes -> outcome NomErr (B * bytes)) -> (bytes -> outcome NomErr (C * bytes)) ->
    bytes -> outcome NomErr ((A * B * C) * bytes);
  nom_preceded {A B} : (bytes -> outcome NomErr (A * bytes)) -> (bytes -> outcome NomErr (B * bytes)) -> bytes -> outcome NomErr (B * bytes);
  nom_delimited {A B C} : (bytes -> outcome NomErr (A * bytes)) -> (bytes -> outcome NomErr (B * bytes)) -> (bytes -> outcome NomErr (C * bytes)) ->
    bytes -> outcome NomErr (B * bytes);
  (** On a tuple of readers. *)
  nom_alt {A} : list (bytes -> outcome NomErr (A * bytes)) -> bytes -> outcome NomErr (A * bytes);
  (** [Err::Error(NomError::from_error_kind(input, _))]. *)
  nom_from_error_kind : bytes -> NomErr
}.
(** [NomResult], with what is left of the input. *)
Abbreviation reader A := (bytes -> outcome NomErr (A * bytes)).

(** [tezos_crypto_rs::hash::HashType], the types the SDK uses. *)
Inductive HashType : Set :=
  | ContractKt1Hash | ContractTz1Hash | ContractTz2Hash | ContractTz3Hash | SmartRollupHash | BlockHash
  | PublicKeyEd25519 | PublicKeySecp256k1 | PublicKeyP256.

Class DataEncoding {nom : NomCrate} := {
  BinErr : Type;
  put_bytes : bytes -> bytes -> bytes;
  enc_u8 : byte -> M bytes BinErr unit;
  enc_i64 : Z -> M bytes BinErr unit;
  enc_bytes : bytes -> M bytes BinErr unit;
  enc_string : bytes -> M bytes BinErr unit;
  enc_bounded_string : nat -> bytes -> M bytes BinErr unit;
  enc_dynamic {A} : (A -> M bytes BinErr unit) -> A -> M bytes BinErr unit;
  enc_sized {A} : nat -> (A -> M bytes BinErr unit) -> A -> M bytes BinErr unit;
  enc_list {A} : (A -> M bytes BinErr unit) -> list A -> M bytes BinErr unit;
  nom_bytes : reader bytes;
  nom_string : reader bytes;
  nom_dynamic {A} : reader A -> reader A;
  nom_bounded_dynamic {A} : nat -> reader A -> reader A;
  nom_list {A} : reader A -> reader (list A);
  (** [Zarith] holds an integer. *)
  zarith_write : Z -> M bytes BinErr unit;
  zarith_read : reader Z;
  (** Hashes and keys, of tezos_crypto_rs: bytes of the size of their type. *)
  hash_size : HashType -> nat;
  hash_write : HashType -> bytes -> M bytes BinErr unit;
  hash_read : HashType -> reader bytes;
  (** [derive(NomReader)] on an enumeration: the tag of a variant, then its data. *)
  nom_tagged {A} : list (byte * reader A) -> reader A
}.
(** [BinWriter], the output being the state. *)
Abbreviation writer := (M bytes BinErr unit).
(** [enc::put_byte], [enc::put_bytes], which return nothing. *)
Definition enc_put {nom : NomCrate} {de : DataEncoding} (bs : bytes) : writer := fun out => (Ok tt, put_bytes bs out).

(** * Laws *)

Section coded.
Context {nom : NomCrate} {de : DataEncoding}.

(** Writing appends the bytes, or fails, whatever was written before. *)
Definition written (w : writer) (bs : bytes) : Prop := forall out, w out = (Ok tt, out ++ bs).
Definition unwritten (w : writer) : Prop := forall out, exists e out', w out = (Err e, out').
(** What is written begins with [t] and is read back, whatever follows. *)
Definition coded_as {A} (t : bytes) (w : writer) (r : reader A) (a : A) : Prop :=
  (exists bs, written w (t ++ bs) /\ forall rest, r (t ++ bs ++ rest) = Ok (a, rest)) \/ unwritten w.
Definition coded {A} : writer -> reader A -> A -> Prop := coded_as [].
(** What is written is read back when nothing follows. *)
Definition coded_exactly {A} (w : writer) (r : reader A) (a : A) : Prop := (exists bs, written w bs /\ r bs = Ok (a, [])) \/ unwritten w.
(** Readers that fail on what begins with [t]. *)
Definition rejects {A} (t : bytes) (r : reader A) : Prop := forall rest, exists e, r (t ++ rest) = Err e /\ recoverable e = true.
End coded.

Class NomLaws (nom : NomCrate) := {
  tag_read t rest : nom_tag t (t ++ rest) = Ok (t, rest);
  tag_other t input : ~ t `prefix_of` input -> exists e, nom_tag t input = Err e /\ recoverable e = true;
  u8_read b rest : nom_u8 (b :: rest) = Ok (b, rest);
  rest_read input : nom_rest input = Ok (input, []);
  eof_read : nom_eof [] = Ok ([], []);
  eof_other b input : exists e, nom_eof (b :: input) = Err e /\ recoverable e = true;
  take_while_read f bs : Forall (fun b => f b = true) bs -> nom_take_while f bs = Ok (bs, []);
  take_while1_read f b bs rest : Forall (fun b => f b = true) (b :: bs) -> (forall c, head rest = Some c -> f c = false) ->
    nom_take_while1 f (b :: bs ++ rest) = Ok (b :: bs, rest);
  success_read {A} (a : A) input : nom_success a input = Ok (a, input);
  map_read {A B} (r : reader A) (f : A -> B) input : nom_map r f input = (o ← r input; Ok (f o.1, o.2));
  map_res_read {A B} (r : reader A) (f : A -> option B) input a rest b : r input = Ok (a, rest) -> f a = Some b -> nom_map_res r f input = Ok (b, rest);
  recognize_read {A} (r : reader A) bs rest a : r (bs ++ rest) = Ok (a, rest) -> nom_recognize r (bs ++ rest) = Ok (bs, rest);
  pair_read {A B} (r1 : reader A) (r2 : reader B) input : nom_pair r1 r2 input = (o1 ← r1 input; o2 ← r2 o1.2; Ok ((o1.1, o2.1), o2.2));
  tuple3_read {A B C} (r1 : reader A) (r2 : reader B) (r3 : reader C) input :
    nom_tuple3 r1 r2 r3 input = (o1 ← r1 input; o2 ← r2 o1.2; o3 ← r3 o2.2; Ok ((o1.1, o2.1, o3.1), o3.2));
  preceded_read {A B} (r1 : reader A) (r2 : reader B) input : nom_preceded r1 r2 input = (o1 ← r1 input; r2 o1.2);
  delimited_read {A B C} (r1 : reader A) (r2 : reader B) (r3 : reader C) input :
    nom_delimited r1 r2 r3 input = (o1 ← r1 input; o2 ← r2 o1.2; o3 ← r3 o2.2; Ok (o2.1, o3.2));
  alt_first {A} (r : reader A) rs input o : r input = Ok o -> nom_alt (r :: rs) input = Ok o;
  alt_next {A} (r : reader A) rs input e : r input = Err e -> recoverable e = true -> rs <> [] -> nom_alt (r :: rs) input = nom_alt rs input;
  error_kind_recoverable input : recoverable (nom_from_error_kind input) = true
}.

Class DataLaws {nom : NomCrate} (de : DataEncoding) := {
  put_bytes_appends bs out : put_bytes bs out = out ++ bs;
  u8_written b : written (enc_u8 b) [b];
  i64_coded z : (- 2 ^ 63 <= z < 2 ^ 63)%Z -> coded (enc_i64 z) nom_i64 z;
  bytes_written bs : written (enc_bytes bs) bs;
  bytes_read bs : nom_bytes bs = Ok (bs, []);
  string_coded s : utf8_valid s = true -> coded (enc_string s) nom_string s;
  (** A string is written like the bytes of the same size. *)
  bounded_coded {A} n (r : reader A) s a : (Z.of_nat n < 2 ^ 30)%Z -> length s <= n -> r s = Ok (a, []) ->
    coded (enc_bounded_string n s) (nom_bounded_dynamic n r) a;
  dynamic_coded {A} (w : A -> writer) r a : coded_exactly (w a) r a -> coded (enc_dynamic w a) (nom_dynamic r) a;
  list_coded {A} (w : A -> writer) (r : reader A) l : Forall (fun a => coded (w a) r a /\ ~ written (w a) []) l -> coded_exactly (enc_list w l) (nom_list r) l;
  zarith_coded z : coded (zarith_write z) zarith_read z;
  hash_written t h : length h = hash_size t -> written (hash_write t h) h;
  hash_reads t h rest : length h = hash_size t -> hash_read t (h ++ rest) = Ok (h, rest);
  tagged_read {A} (variants : list (byte * reader A)) tag r rest : (tag, r) ∈ variants -> NoDup (map fst variants) -> nom_tagged variants (tag :: rest) = r rest
}.

(** What the encodings look like. *)
Class DataBytes {nom : NomCrate} (de : DataEncoding) := {
  dynamic_written {A} (w : A -> writer) a bs : written (w a) bs -> (N.of_nat (length bs) < 2 ^ 30)%N -> written (enc_dynamic w a) (be_bytes 4 (N.of_nat (length bs)) ++ bs);
  sized_written {A} n (w : A -> writer) a bs : written (w a) bs -> length bs = n -> written (enc_sized n w a) bs;
  list_written {A} (w : A -> writer) l bss : Forall2 (fun a bs => written (w a) bs) l bss -> written (enc_list w l) (mjoin bss)
}.

(** * Rules *)

Section rules.
Context {nom : NomCrate} {de : DataEncoding} {nlaws : NomLaws nom} {dlaws : DataLaws de}.

(** Writing in sequence. *)
Lemma put_written bs : written (enc_put bs) bs.
Proof. intros out. unfold enc_put. by rewrite put_bytes_appends. Qed.
Lemma written_then (w1 w2 : writer) b1 b2 : written w1 b1 -> written w2 b2 -> written (_ ← w1; w2) (b1 ++ b2).
Proof. intros H1 H2 out. unfold mbind, M_bind. by rewrite H1, H2, app_assoc. Qed.
Lemma written_done (w : writer) bs : written w bs -> written (_ ← w; mret tt) bs.
Proof. intros H out. unfold mbind, M_bind. by rewrite H. Qed.
Lemma unwritten_first (w1 w2 : writer) : unwritten w1 -> unwritten (_ ← w1; w2).
Proof. intros H out. destruct (H out) as (e&out'&E). exists e, out'. unfold mbind, M_bind. by rewrite E. Qed.
Lemma unwritten_then (w1 w2 : writer) bs : written w1 bs -> unwritten w2 -> unwritten (_ ← w1; w2).
Proof. intros H1 H out. destruct (H (out ++ bs)) as (e&out'&E). exists e, out'. unfold mbind, M_bind. by rewrite H1, E. Qed.
Lemma written_bytes (w : writer) b1 b2 : written w b1 -> written w b2 -> b1 = b2.
Proof. intros H1 H2. specialize (H1 []). rewrite (H2 []) in H1. by injection H1. Qed.
Lemma written_not_unwritten (w : writer) bs : written w bs -> unwritten w -> False.
Proof. intros H1 H2. destruct (H2 []) as (e&out'&E). by rewrite (H1 []) in E. Qed.

Section types.
Context {A B : Type}.
Implicit Types (a : A) (b : B) (w : writer).

Lemma coded_is_exact w (r : reader A) a : coded w r a -> coded_exactly w r a.
Proof. intros [(bs&Hw&Hr)|H]; [left|by right]. exists bs. split; [done|]. specialize (Hr []). cbn in Hr. by rewrite app_nil_r in Hr. Qed.
Lemma coded_as_shorter t t' w (r : reader A) a : coded_as (t ++ t') w r a -> coded_as t w r a.
Proof.
  intros [(bs&W&R)|U]; [left|by right]. exists (t' ++ bs). split; [by rewrite app_assoc|]. intros rest. specialize (R rest).
  rewrite <- app_assoc in R. by rewrite <- app_assoc.
Qed.
Lemma coded_as_coded t w (r : reader A) a : coded_as t w r a -> coded w r a.
Proof. apply (coded_as_shorter [] t). Qed.
Lemma coded_as_not_empty t w (r : reader A) a : t <> [] -> coded_as t w r a -> ~ written w [].
Proof.
  intros Ht [(bs&W&_)|U] W0.
  - pose proof (written_bytes _ _ _ W W0) as E. by destruct t.
  - by eapply written_not_unwritten.
Qed.
Lemma coded_ext t w w' (r : reader A) a : (forall out, w' out = w out) -> coded_as t w r a -> coded_as t w' r a.
Proof.
  intros E [(bs&W&R)|U]; [left|right].
  - exists bs. split; [intros out; by rewrite E, W|done].
  - intros out. rewrite E. apply U.
Qed.
Lemma coded_done t w (r : reader A) a : coded_as t w r a -> coded_as t (_ ← w; mret tt) r a.
Proof.
  intros [(bs&W&R)|U]; [left|right].
  - exists bs. split; [by apply written_done|done].
  - by apply unwritten_first.
Qed.
Lemma coded_read t w (r r' : reader A) a : (forall input, r' input = r input) -> coded_as t w r a -> coded_as t w r' a.
Proof. intros E [(bs&W&R)|U]; [left|by right]. exists bs. split; [done|]. intros rest. by rewrite E. Qed.
Lemma coded_success a : coded (mret tt) (nom_success a) a.
Proof. left. exists []. split; [intros out; by rewrite app_nil_r|]. intros rest. apply success_read. Qed.
Lemma coded_pair t w1 w2 (r1 : reader A) (r2 : reader B) a b : coded_as t w1 r1 a -> coded w2 r2 b -> coded_as t (_ ← w1; w2) (nom_pair r1 r2) (a, b).
Proof.
  intros [(b1&W1&R1)|U1] H2; [|right; by apply unwritten_first]. destruct H2 as [(b2&W2&R2)|U2]; [|right; by eapply unwritten_then].
  left. exists (b1 ++ b2). split; [rewrite app_assoc; by apply written_then|]. intros rest. rewrite pair_read, <- app_assoc, R1. cbn.
  by rewrite (R2 rest : r2 (b2 ++ rest) = _).
Qed.
Lemma coded_map t w (r : reader A) (f : A -> B) a : coded_as t w r a -> coded_as t w (nom_map r f) (f a).
Proof. intros [(bs&W&R)|U]; [left|by right]. exists bs. split; [done|]. intros rest. by rewrite map_read, R. Qed.
Lemma coded_preceded t w (r : reader A) a : coded w r a -> coded_as t (_ ← enc_put t; w) (nom_preceded (nom_tag t) r) a.
Proof.
  intros [(bs&W&R)|U].
  - left. exists bs. split; [apply written_then; [apply put_written|done]|]. intros rest. rewrite preceded_read, tag_read. apply R.
  - right. eapply unwritten_then; [apply put_written|done].
Qed.
Lemma coded_tag t : coded_as t (_ ← enc_put t; mret tt) (nom_tag t) t.
Proof. left. exists []. rewrite app_nil_r. split; [apply written_done, put_written|]. intros rest. apply tag_read. Qed.
(** [derive(BinWriter)] and [derive(NomReader)] on an enumeration. *)
Lemma coded_variant tag w (r : reader A) variants a : (tag, r) ∈ variants -> NoDup (map fst variants) -> coded w r a ->
  coded_as [tag] (_ ← enc_u8 tag; w) (nom_tagged variants) a.
Proof.
  intros Hin Hnd [(bs&W&R)|U].
  - left. exists bs. split; [apply written_then; [apply u8_written|done]|]. intros rest. cbn [app]. rewrite (tagged_read _ _ r) by done. apply R.
  - right. eapply unwritten_then; [apply u8_written|done].
Qed.
Lemma coded_hash t h : length h = hash_size t -> coded (hash_write t h) (hash_read t) h.
Proof. intros Hn. left. exists h. split; [by apply hash_written|]. intros rest. exact (hash_reads t h rest Hn). Qed.

Lemma alt_skip t (rs : list (reader A)) r rs' rest o : Forall (rejects t) rs -> r (t ++ rest) = Ok o -> nom_alt (rs ++ r :: rs') (t ++ rest) = Ok o.
Proof.
  intros Hrs R. induction Hrs as [|r1 rs H1 _ IH]; cbn [app]; [by apply alt_first|].
  destruct (H1 rest) as (e&E&He). rewrite (alt_next _ _ _ e); [exact IH|done|done|]. by destruct rs.
Qed.
Lemma coded_as_alt t w (rs : list (reader A)) r rs' a : Forall (rejects t) rs -> coded_as t w r a -> coded_as t w (nom_alt (rs ++ r :: rs')) a.
Proof. intros Hrs [(bs&W&R)|U]; [left|by right]. exists bs. split; [done|]. intros rest. by apply alt_skip. Qed.

Lemma rejects_map t (r : reader A) (f : A -> B) : rejects t r -> rejects t (nom_map r f).
Proof. intros H rest. destruct (H rest) as (e&E&He). exists e. rewrite map_read, E. done. Qed.
Lemma rejects_tag t t' : (forall rest, ~ t' `prefix_of` t ++ rest) -> rejects t (nom_tag t').
Proof. intros H rest. exact (tag_other t' (t ++ rest) (H rest)). Qed.
Lemma rejects_preceded t t' (r : reader A) : rejects t (nom_tag t') -> rejects t (nom_preceded (nom_tag t') r).
Proof. intros H rest. destruct (H rest) as (e&E&He). exists e. rewrite preceded_read, E. done. Qed.
Lemma rejects_delimited {C} t t' (r : reader A) (r' : reader C) : rejects t (nom_tag t') -> rejects t (nom_delimited (nom_tag t') r r').
Proof. intros H rest. destruct (H rest) as (e&E&He). exists e. rewrite delimited_read, E. done. Qed.
End types.

(** Tags of one byte, and of a byte and a primitive. *)
Lemma rejects_byte c c' t t' : c <> c' -> rejects (c :: t) (nom_tag (c' :: t')).
Proof. intros Hc. apply rejects_tag. intros rest [x [= <- _]]. done. Qed.
Lemma rejects_second c d d' t t' : d <> d' -> rejects (c :: d :: t) (nom_tag (c :: d' :: t')).
Proof. intros Hd. apply rejects_tag. intros rest [x [= <- _]]. done. Qed.
(** What a tag reads. *)
Lemma tag_reads t input o : nom_tag t input = Ok o -> exists rest, input = t ++ rest /\ o = (t, rest).
Proof.
  intros E. destruct (decide (t `prefix_of` input)) as [[rest ->]|Hp].
  - rewrite tag_read in E. injection E as <-. eauto.
  - destruct (tag_other t input Hp) as (e&E'&_). congruence.
Qed.
End rules.
Create HintDb rejects.
#[export] Hint Resolve rejects_map rejects_preceded rejects_delimited rejects_byte rejects_second : rejects.
