(* ===== verification/SdkMicheline.v ===== *)
(** Micheline expressions ([encoding/src/michelson/micheline.rs]).

    Expressions are written and read in two ways: as a tree ([Node]), and as values of types that fix the shape of the
    expression ([MichelinePrim2ArgsNoAnnots] and the like).  [Node::nom_read] and [Node::bin_write] recurse through the list encodings of a crate
    that is a parameter, so the model gives them fuel, which bounds the depth of the expression. *)

From S2P Require Import Prelude Endian SdkNom.

(** * Interfaces *)

(** The traits of tezos_data_encoding. *)
Class BinWriter {nom : NomCrate} {de : DataEncoding} (A : Type) := bin_write : A -> writer.
Class NomReader {nom : NomCrate} {de : DataEncoding} (A : Type) := nom_read : reader A.
(** A type whose valid values are read back. *)
Class Codec {nom : NomCrate} {de : DataEncoding} (A : Type) {W : BinWriter A} {R : NomReader A} := {
  valid : A -> Prop;
  round_trip a : valid a -> coded (bin_write a) nom_read a
}.

(** The crate regex. *)
Class RegexCrate := is_match : bytes -> bytes -> bool.
(** What [r"^[@:$&%!?][a-zA-Z0-9_.%@]*$"] matches. *)
Definition annotation_re : bytes := str "^[@:$&%!?][a-zA-Z0-9_.%@]*$".
Arguments annotation_re : simpl never.
Definition alphanumeric (c : byte) : bool := between 0x30 0x39 c || between 0x41 0x5a c || between 0x61 0x7a c.
Definition one_of (l : bytes) (c : byte) : bool := existsb (Byte.eqb c) l.
Class RegexLaws (regex : RegexCrate) := annotation_match s :
  is_match annotation_re s = match s with c :: s => one_of (str "@:$&%!?") c && forallb (fun c => alphanumeric c || one_of (str "_.%@") c) s | [] => false end.

Definition MICHELINE_INT_TAG : byte := Byte.x00.
Definition MICHELINE_STRING_TAG : byte := Byte.x01.
Definition MICHELINE_SEQ_TAG : byte := Byte.x02.
Definition MICHELINE_PRIM_NO_ARGS_NO_ANNOTS_TAG : byte := Byte.x03.
Definition MICHELINE_PRIM_NO_ARGS_SOME_ANNOTS_TAG : byte := Byte.x04.
Definition MICHELINE_PRIM_1_ARG_NO_ANNOTS_TAG : byte := Byte.x05.
Definition MICHELINE_PRIM_1_ARG_SOME_ANNOTS_TAG : byte := Byte.x06.
Definition MICHELINE_PRIM_2_ARGS_NO_ANNOTS_TAG : byte := Byte.x07.
Definition MICHELINE_PRIM_2_ARGS_SOME_ANNOTS_TAG : byte := Byte.x08.
Definition MICHELINE_PRIM_GENERIC_TAG : byte := Byte.x09.
Definition MICHELINE_BYTES_TAG : byte := Byte.x0a.

(** [str::split] on a character. *)
Fixpoint split_on (c : byte) (s : bytes) : list bytes :=
  match s with
  | [] => [[]]
  | x :: s => if Byte.eqb x c then [] :: split_on c s else match split_on c s with l :: ls => (x :: l) :: ls | [] => [[x]] end
  end.
(** [collect::<Result<Vec<_>, _>>]. *)
Fixpoint collect {E A} (l : list (outcome E A)) : outcome E (list A) :=
  match l with [] => Ok [] | o :: l => a ← o; l' ← collect l; Ok (a :: l') end.

(** * Values *)

Definition Annotation : Type := bytes.
Record Annotations : Type := mkAnnotations { annotations : list Annotation }.
Definition annots_default : Annotations := mkAnnotations [].
Definition annots_is_empty (a : Annotations) : bool := match annotations a with [] => true | _ => false end.
(** [Display] *)
Definition annots_to_string (a : Annotations) : bytes :=
  match annotations a with
  | [] => []
  | a :: rest => a ++ concat (map (fun a => str " " ++ a) rest)
  end.

Record MichelineInt : Type := mkMichelineInt { micheline_int : Z }.
Record MichelineString : Type := mkMichelineString { micheline_string : bytes }.
Record MichelineBytes : Type := mkMichelineBytes { micheline_bytes : bytes }.
Record MichelinePrimNoArgsNoAnnots (PRIM_TAG : byte) : Type := mkPrimNoArgsNoAnnots {}.
Record MichelinePrimNoArgsSomeAnnots (PRIM_TAG : byte) : Type := mkPrimNoArgsSomeAnnots { p0_annots : Annotations }.
Record MichelinePrim1ArgNoAnnots (Arg : Type) (PRIM_TAG : byte) : Type := mkPrim1ArgNoAnnots { p1_arg : Arg }.
Record MichelinePrim1ArgSomeAnnots (Arg : Type) (PRIM_TAG : byte) : Type := mkPrim1ArgSomeAnnots { p1s_arg : Arg; p1s_annots : Annotations }.
Record MichelinePrim2ArgsNoAnnots (Arg1 Arg2 : Type) (PRIM_TAG : byte) : Type := mkPrim2ArgsNoAnnots { p2_arg1 : Arg1; p2_arg2 : Arg2 }.
Record MichelinePrim2ArgsSomeAnnots (Arg1 Arg2 : Type) (PRIM_TAG : byte) : Type :=
  mkPrim2ArgsSomeAnnots { p2s_arg1 : Arg1; p2s_arg2 : Arg2; p2s_annots : Annotations }.
Arguments mkPrimNoArgsNoAnnots {_}.
Arguments mkPrimNoArgsSomeAnnots {_} _.
Arguments p0_annots {_} _.
Arguments mkPrim1ArgNoAnnots {_ _} _.
Arguments p1_arg {_ _} _.
Arguments mkPrim1ArgSomeAnnots {_ _} _ _.
Arguments p1s_arg {_ _} _.
Arguments p1s_annots {_ _} _.
Arguments mkPrim2ArgsNoAnnots {_ _ _} _ _.
Arguments p2_arg1 {_ _ _} _.
Arguments p2_arg2 {_ _ _} _.
Arguments mkPrim2ArgsSomeAnnots {_ _ _} _ _ _.
Arguments p2s_arg1 {_ _ _} _.
Arguments p2s_arg2 {_ _ _} _.
Arguments p2s_annots {_ _ _} _.

Inductive Node : Type :=
  | Node_Int (z : Z)
  | Node_String (s : bytes)
  | Node_Bytes (s : bytes)
  | Node_Seq (args : list Node)
  | Node_Prim (prim_tag : byte) (args : list Node) (annots : Annotations).

(** [From<_> for Node]. *)
Class IntoNode (A : Type) := into_node : A -> Node.
#[global] Instance Node_into : IntoNode Node := fun n => n.
#[global] Instance MichelineInt_into : IntoNode MichelineInt := fun i => Node_Int (micheline_int i).
#[global] Instance MichelineString_into : IntoNode MichelineString := fun s => Node_String (micheline_string s).
#[global] Instance MichelineBytes_into : IntoNode MichelineBytes := fun s => Node_Bytes (micheline_bytes s).
#[global] Instance PrimNoArgsNoAnnots_into t : IntoNode (MichelinePrimNoArgsNoAnnots t) := fun _ => Node_Prim t [] annots_default.
#[global] Instance PrimNoArgsSomeAnnots_into t : IntoNode (MichelinePrimNoArgsSomeAnnots t) := fun a => Node_Prim t [] (p0_annots a).
#[global] Instance Prim1ArgNoAnnots_into `{IntoNode Arg} t : IntoNode (MichelinePrim1ArgNoAnnots Arg t) :=
  fun a => Node_Prim t [into_node (p1_arg a)] annots_default.
#[global] Instance Prim1ArgSomeAnnots_into `{IntoNode Arg} t : IntoNode (MichelinePrim1ArgSomeAnnots Arg t) :=
  fun a => Node_Prim t [into_node (p1s_arg a)] (p1s_annots a).
#[global] Instance Prim2ArgsNoAnnots_into `{IntoNode Arg1, IntoNode Arg2} t : IntoNode (MichelinePrim2ArgsNoAnnots Arg1 Arg2 t) :=
  fun a => Node_Prim t [into_node (p2_arg1 a); into_node (p2_arg2 a)] annots_default.
#[global] Instance Prim2ArgsSomeAnnots_into `{IntoNode Arg1, IntoNode Arg2} t : IntoNode (MichelinePrim2ArgsSomeAnnots Arg1 Arg2 t) :=
  fun a => Node_Prim t [into_node (p2s_arg1 a); into_node (p2s_arg2 a)] (p2s_annots a).
(** [From<i32>]. *)
Definition MichelineInt_from_i32 (int : Z) : MichelineInt := mkMichelineInt int.
Definition Node_from_i32 (int : Z) : Node := Node_Int int.

Section codecs.
Context {nom : NomCrate} {de : DataEncoding} {regex : RegexCrate}.

(** * Reading *)

Definition nom_read_tagged_micheline {T} (TAG : byte) (parser : reader T) : reader T := nom_preceded (nom_tag [TAG]) parser.
Definition nom_read_micheline_bytes {T} (parser : reader T) : reader T := nom_read_tagged_micheline MICHELINE_BYTES_TAG (nom_dynamic parser).
Definition nom_read_micheline_string : reader bytes := nom_read_tagged_micheline MICHELINE_STRING_TAG nom_string.
Definition nom_read_micheline_int : reader Z := nom_read_tagged_micheline MICHELINE_INT_TAG zarith_read.

#[global] Instance Annotations_read : NomReader Annotations := fun input =>
  '(anns, remaining) ← nom_string input;
  anns ← collect (map (fun ann => if is_match annotation_re ann then Ok ann else Err (nom_from_error_kind input))
    (List.filter (fun x => match x with [] => false | _ => true end) (split_on Byte.x20 anns)));
  Ok (mkAnnotations anns, remaining).

#[global] Instance MichelineInt_read : NomReader MichelineInt := nom_map nom_read_micheline_int mkMichelineInt.
#[global] Instance MichelineString_read : NomReader MichelineString := nom_map nom_read_micheline_string mkMichelineString.
#[global] Instance MichelineBytes_read : NomReader MichelineBytes := nom_map (nom_read_micheline_bytes nom_bytes) mkMichelineBytes.
#[global] Instance PrimNoArgsNoAnnots_read t : NomReader (MichelinePrimNoArgsNoAnnots t) :=
  nom_map (nom_tag [MICHELINE_PRIM_NO_ARGS_NO_ANNOTS_TAG; t]) (fun _prim => mkPrimNoArgsNoAnnots).
#[global] Instance PrimNoArgsSomeAnnots_read t : NomReader (MichelinePrimNoArgsSomeAnnots t) :=
  let parse := nom_preceded (nom_tag [MICHELINE_PRIM_NO_ARGS_SOME_ANNOTS_TAG; t]) nom_read in
  nom_map parse (fun annots => mkPrimNoArgsSomeAnnots annots).
#[global] Instance Prim1ArgNoAnnots_read {Arg} {R : NomReader Arg} t : NomReader (MichelinePrim1ArgNoAnnots Arg t) :=
  let parse := nom_preceded (nom_tag [MICHELINE_PRIM_1_ARG_NO_ANNOTS_TAG; t]) nom_read in
  nom_map parse (fun arg => mkPrim1ArgNoAnnots arg).
#[global] Instance Prim1ArgSomeAnnots_read {Arg} {R : NomReader Arg} t : NomReader (MichelinePrim1ArgSomeAnnots Arg t) :=
  let parse := nom_preceded (nom_tag [MICHELINE_PRIM_1_ARG_SOME_ANNOTS_TAG; t]) (nom_pair nom_read nom_read) in
  nom_map parse (fun '(arg, annots) => mkPrim1ArgSomeAnnots arg annots).
#[global] Instance Prim2ArgsNoAnnots_read {Arg1 Arg2} {R1 : NomReader Arg1} {R2 : NomReader Arg2} t : NomReader (MichelinePrim2ArgsNoAnnots Arg1 Arg2 t) :=
  let parse := nom_preceded (nom_tag [MICHELINE_PRIM_2_ARGS_NO_ANNOTS_TAG; t]) (nom_pair nom_read nom_read) in
  nom_map parse (fun '(arg1, arg2) => mkPrim2ArgsNoAnnots arg1 arg2).
#[global] Instance Prim2ArgsSomeAnnots_read {Arg1 Arg2} {R1 : NomReader Arg1} {R2 : NomReader Arg2} t : NomReader (MichelinePrim2ArgsSomeAnnots Arg1 Arg2 t) :=
  let parse := nom_preceded (nom_tag [MICHELINE_PRIM_2_ARGS_SOME_ANNOTS_TAG; t]) (nom_pair nom_read (nom_pair nom_read nom_read)) in
  nom_map parse (fun '(arg1, (arg2, annots)) => mkPrim2ArgsSomeAnnots arg1 arg2 annots).

Definition nom_read_app_aux {T} (micheline_prim_tag : byte) (next : reader T) (into : byte * T -> Node) : reader Node :=
  nom_preceded (nom_tag [micheline_prim_tag]) (nom_map (nom_pair nom_u8 next) into).
Definition nom_read_app (node_nom_read : reader Node) : reader Node := nom_alt [
  nom_read_app_aux MICHELINE_PRIM_NO_ARGS_NO_ANNOTS_TAG (nom_success tt) (fun '(prim_tag, tt) => Node_Prim prim_tag [] annots_default);
  nom_read_app_aux MICHELINE_PRIM_NO_ARGS_SOME_ANNOTS_TAG (nom_read (A := Annotations)) (fun '(prim_tag, annots) => Node_Prim prim_tag [] annots);
  nom_read_app_aux MICHELINE_PRIM_1_ARG_NO_ANNOTS_TAG node_nom_read (fun '(prim_tag, arg) => Node_Prim prim_tag [arg] annots_default);
  nom_read_app_aux MICHELINE_PRIM_1_ARG_SOME_ANNOTS_TAG (nom_pair node_nom_read nom_read)
    (fun '(prim_tag, (arg, annots)) => Node_Prim prim_tag [arg] annots);
  nom_read_app_aux MICHELINE_PRIM_2_ARGS_NO_ANNOTS_TAG (nom_pair node_nom_read node_nom_read)
    (fun '(prim_tag, (arg1, arg2)) => Node_Prim prim_tag [arg1; arg2] annots_default);
  nom_read_app_aux MICHELINE_PRIM_2_ARGS_SOME_ANNOTS_TAG (nom_tuple3 node_nom_read node_nom_read nom_read)
    (fun '(prim_tag, (arg1, arg2, annots)) => Node_Prim prim_tag [arg1; arg2] annots);
  nom_read_app_aux MICHELINE_PRIM_GENERIC_TAG (nom_pair (nom_dynamic (nom_list node_nom_read)) nom_read)
    (fun '(prim_tag, (args, annots)) => Node_Prim prim_tag args annots)].
Definition nom_read_seq (node_nom_read : reader Node) : reader Node :=
  let parse := nom_preceded (nom_tag [MICHELINE_SEQ_TAG]) (nom_dynamic (nom_list node_nom_read)) in nom_map parse Node_Seq.
Fixpoint node_nom_read (fuel : nat) : reader Node :=
  match fuel with
  | O => fun _ => Diverge
  | S fuel => nom_alt [nom_map nom_read_micheline_int Node_Int; nom_map nom_read_micheline_string Node_String;
      nom_map (nom_read_micheline_bytes nom_bytes) Node_Bytes; nom_read_seq (node_nom_read fuel); nom_read_app (node_nom_read fuel)]
  end.

(** * Writing *)

#[global] Instance Annotations_write : BinWriter Annotations := fun a => enc_string (annots_to_string a).
Definition bin_write_prim_no_args_no_annots (prim_tag : byte) : writer :=
  _ ← enc_put [MICHELINE_PRIM_NO_ARGS_NO_ANNOTS_TAG; prim_tag]; mret tt.
Definition bin_write_prim_no_args_some_annots (prim_tag : byte) (annots : Annotations) : writer :=
  _ ← enc_put [MICHELINE_PRIM_NO_ARGS_SOME_ANNOTS_TAG; prim_tag]; _ ← bin_write annots; mret tt.
Definition bin_write_prim_1_arg_no_annots {Arg} {W : BinWriter Arg} (prim_tag : byte) (arg : Arg) : writer :=
  _ ← enc_put [MICHELINE_PRIM_1_ARG_NO_ANNOTS_TAG; prim_tag]; _ ← bin_write arg; mret tt.
Definition bin_write_prim_1_arg_some_annots {Arg} {W : BinWriter Arg} (prim_tag : byte) (arg : Arg) (annots : Annotations) : writer :=
  _ ← enc_put [MICHELINE_PRIM_1_ARG_SOME_ANNOTS_TAG; prim_tag]; _ ← bin_write arg; _ ← bin_write annots; mret tt.
Definition bin_write_prim_2_args_no_annots {Arg1 Arg2} {W1 : BinWriter Arg1} {W2 : BinWriter Arg2} (prim_tag : byte) (arg1 : Arg1) (arg2 : Arg2) : writer :=
  _ ← enc_put [MICHELINE_PRIM_2_ARGS_NO_ANNOTS_TAG; prim_tag]; _ ← bin_write arg1; _ ← bin_write arg2; mret tt.
Definition bin_write_prim_2_args_some_annots {Arg1 Arg2} {W1 : BinWriter Arg1} {W2 : BinWriter Arg2} (prim_tag : byte) (arg1 : Arg1) (arg2 : Arg2)
    (annots : Annotations) : writer :=
  _ ← enc_put [MICHELINE_PRIM_2_ARGS_SOME_ANNOTS_TAG; prim_tag]; _ ← bin_write arg1; _ ← bin_write arg2; _ ← bin_write annots; mret tt.
Definition bin_write_prim_generic {Arg} {W : BinWriter Arg} (prim_tag : byte) (args : list Arg) (annots : Annotations) : writer :=
  _ ← enc_put [MICHELINE_PRIM_GENERIC_TAG; prim_tag]; _ ← enc_dynamic (enc_list bin_write) args; _ ← bin_write annots; mret tt.
Definition bin_write_tagged_micheline {T} (TAG : byte) (w : T -> writer) (data : T) : writer := _ ← enc_put [TAG]; w data.
Definition bin_write_micheline_bytes {T} (w : T -> writer) : T -> writer := bin_write_tagged_micheline MICHELINE_BYTES_TAG (enc_dynamic w).
Definition bin_write_micheline_string : bytes -> writer := bin_write_tagged_micheline MICHELINE_STRING_TAG enc_string.
Definition bin_write_micheline_int : Z -> writer := bin_write_tagged_micheline MICHELINE_INT_TAG zarith_write.

#[global] Instance MichelineInt_write : BinWriter MichelineInt := fun i => _ ← enc_put [MICHELINE_INT_TAG]; zarith_write (micheline_int i).
#[global] Instance MichelineString_write : BinWriter MichelineString := fun s => _ ← enc_put [MICHELINE_STRING_TAG]; enc_string (micheline_string s).
#[global] Instance MichelineBytes_write : BinWriter MichelineBytes := fun s => bin_write_micheline_bytes enc_bytes (micheline_bytes s).
#[global] Instance PrimNoArgsNoAnnots_write t : BinWriter (MichelinePrimNoArgsNoAnnots t) := fun _ => bin_write_prim_no_args_no_annots t.
#[global] Instance PrimNoArgsSomeAnnots_write t : BinWriter (MichelinePrimNoArgsSomeAnnots t) := fun a => bin_write_prim_no_args_some_annots t (p0_annots a).
#[global] Instance Prim1ArgNoAnnots_write {Arg} {W : BinWriter Arg} t : BinWriter (MichelinePrim1ArgNoAnnots Arg t) := fun a =>
  bin_write_prim_1_arg_no_annots t (p1_arg a).
#[global] Instance Prim1ArgSomeAnnots_write {Arg} {W : BinWriter Arg} t : BinWriter (MichelinePrim1ArgSomeAnnots Arg t) := fun a =>
  bin_write_prim_1_arg_some_annots t (p1s_arg a) (p1s_annots a).
#[global] Instance Prim2ArgsNoAnnots_write {Arg1 Arg2} {W1 : BinWriter Arg1} {W2 : BinWriter Arg2} t : BinWriter (MichelinePrim2ArgsNoAnnots Arg1 Arg2 t) := fun a =>
  bin_write_prim_2_args_no_annots t (p2_arg1 a) (p2_arg2 a).
#[global] Instance Prim2ArgsSomeAnnots_write {Arg1 Arg2} {W1 : BinWriter Arg1} {W2 : BinWriter Arg2} t : BinWriter (MichelinePrim2ArgsSomeAnnots Arg1 Arg2 t) := fun a =>
  bin_write_prim_2_args_some_annots t (p2s_arg1 a) (p2s_arg2 a) (p2s_annots a).

Definition bin_write_micheline_seq {W : BinWriter Node} (args : list Node) : writer :=
  _ ← enc_put [MICHELINE_SEQ_TAG]; _ ← enc_dynamic (enc_list bin_write) args; mret tt.
Fixpoint node_bin_write (fuel : nat) (n : Node) : writer :=
  match fuel with
  | O => diverge
  | S fuel =>
      let W : BinWriter Node := node_bin_write fuel in
      match n with
      | Node_Int i => bin_write_micheline_int i
      | Node_String s => bin_write_micheline_string s
      | Node_Bytes s => bin_write_micheline_bytes enc_bytes s
      | Node_Seq args => bin_write_micheline_seq args
      | Node_Prim prim_tag args annots =>
          match args, annots_is_empty annots with
          | [], true => bin_write_prim_no_args_no_annots prim_tag
          | [], false => bin_write_prim_no_args_some_annots prim_tag annots
          | [arg], true => bin_write_prim_1_arg_no_annots prim_tag arg
          | [arg], false => bin_write_prim_1_arg_some_annots prim_tag arg annots
          | [arg0; arg1], true => bin_write_prim_2_args_no_annots prim_tag arg0 arg1
          | [arg0; arg1], false => bin_write_prim_2_args_some_annots prim_tag arg0 arg1 annots
          | _, true => bin_write_prim_generic prim_tag args annots_default
          | _, false => bin_write_prim_generic prim_tag args annots
          end
      end
  end.
End codecs.
