(* ===== verification/SdkMichelineProps.v ===== *)
(** Micheline expressions are read back, and the typed encodings agree with the tree. *)

From S2P Require Import Prelude Endian SdkNom SdkMicheline.

(** * Annotations *)

Lemma split_on_none c s : c ∉ s -> split_on c s = [s].
Proof.
  induction s as [|x s IH]; intros H; [done|]. cbn [split_on]. destruct (Byte.eqb x c) eqn:E.
  - apply Byte.byte_dec_bl in E as ->. exfalso. apply H. left.
  - rewrite IH; [done|]. intros Hs. apply H. by right.
Qed.
Lemma split_on_app c s s' : c ∉ s -> split_on c (s ++ c :: s') = s :: split_on c s'.
Proof.
  induction s as [|x s IH]; intros H; cbn [app split_on].
  - by rewrite (Byte.byte_dec_lb eq_refl).
  - destruct (Byte.eqb x c) eqn:E; [apply Byte.byte_dec_bl in E as ->; exfalso; apply H; left|].
    rewrite IH; [done|]. intros Hs. apply H. by right.
Qed.
Lemma split_annots a : Forall (fun s => Byte.x20 ∉ s) (annotations a) -> annotations a <> [] -> split_on Byte.x20 (annots_to_string a) = annotations a.
Proof.
  destruct a as [l]. unfold annots_to_string. cbn. intros H Hne. destruct H as [|s l Hs H]; [done|]. clear Hne. revert s Hs.
  induction H as [|s' l Hs' _ IH]; intros s Hs; cbn [map concat].
  - rewrite app_nil_r. by apply split_on_none.
  - change (str " ") with [Byte.x20]. cbn [app]. rewrite split_on_app by done. by rewrite IH.
Qed.
Lemma collect_ok {E A B} (f : A -> outcome E B) g l : Forall (fun a => f a = Ok (g a)) l -> collect (map f l) = Ok (map g l).
Proof. induction 1 as [|a l H _ IH]; [done|]. cbn [map collect]. by rewrite H, IH. Qed.

Section proofs.
Context {nom : NomCrate} {de : DataEncoding} {regex : RegexCrate} {nlaws : NomLaws nom} {dlaws : DataLaws de} {rlaws : RegexLaws regex}.

Definition valid_annots (a : Annotations) : Prop := Forall (fun s => is_match annotation_re s = true) (annotations a).

Lemma annotation_chars s : is_match annotation_re s = true -> s <> [] /\ Forall (fun c => between 0 0x7f c = true /\ c <> Byte.x20) s.
Proof.
  rewrite annotation_match. destruct s as [|c s]; [done|]. intros [Hc Hs]%andb_true_iff. split; [done|]. constructor.
  - destruct c; try done; cbn in Hc; discriminate Hc.
  - apply Forall_forall. intros c' Hin. rewrite forallb_forall in Hs. specialize (Hs c' ltac:(by apply list_elem_of_In)).
    destruct c'; try done; cbn in Hs; discriminate Hs.
Qed.
Lemma annots_ascii a : valid_annots a -> Forall (fun c => between 0 0x7f c = true) (annots_to_string a).
Proof.
  destruct a as [l]. unfold valid_annots, annots_to_string. cbn. intros H.
  assert (Forall (Forall (fun c => between 0 0x7f c = true)) l) as Hl.
  { eapply Forall_impl; [exact H|]. intros s [_ Hs]%annotation_chars. eapply Forall_impl; [exact Hs|]. by intros c [??]. }
  clear H. destruct Hl as [|s l Hs Hl]; [done|]. apply Forall_app_2; [done|]. induction Hl as [|s' l Hs' _ IH]; [done|]. cbn [map concat].
  constructor; [done|]. by apply Forall_app_2.
Qed.
Lemma annots_parsed a : valid_annots a ->
  List.filter (fun x => match x with [] => false | _ => true end) (split_on Byte.x20 (annots_to_string a)) = annotations a.
Proof.
  intros H. destruct (annotations a) as [|s l] eqn:E; [unfold annots_to_string; by rewrite E|].
  rewrite split_annots, <- E; [| |by rewrite E].
  - clear E. unfold valid_annots in H. induction H as [|s' l' Hs _ IH]; [done|]. apply annotation_chars in Hs as [Hs _].
    cbn [List.filter]. destruct s'; [done|]. by rewrite IH.
  - eapply Forall_impl; [exact H|]. intros s' [_ Hs]%annotation_chars Hin. rewrite Forall_forall in Hs. by destruct (Hs _ Hin).
Qed.
Lemma annots_coded (a : Annotations) : valid_annots a -> coded (bin_write a) nom_read a.
Proof.
  intros H. destruct (string_coded (annots_to_string a)) as [(bs&W&R)|U]; [by apply utf8_ascii, annots_ascii| |by right].
  left. exists bs. split; [done|]. intros rest. unfold nom_read, Annotations_read. rewrite R. cbn. rewrite annots_parsed by done.
  rewrite (collect_ok _ id), map_id; [by destruct a|]. eapply Forall_impl; [exact H|]. intros s Hs. by rewrite Hs.
Qed.
#[global] Instance Annotations_codec : Codec Annotations := {| valid := valid_annots; round_trip := annots_coded |}.

(** * The typed encodings *)

#[global, program] Instance MichelineInt_codec : Codec MichelineInt := {| valid _ := True |}.
Next Obligation. intros [z] _. apply coded_as_coded with [MICHELINE_INT_TAG], (coded_map _ _ _ mkMichelineInt), coded_preceded, zarith_coded. Qed.
#[global, program] Instance MichelineString_codec : Codec MichelineString := {| valid s := utf8_valid (micheline_string s) = true |}.
Next Obligation.
  intros [s] H. by apply coded_as_coded with [MICHELINE_STRING_TAG], (coded_map _ _ _ mkMichelineString), coded_preceded, string_coded.
Qed.
Lemma bytes_coded (s : bytes) : coded_exactly (enc_bytes s) nom_bytes s.
Proof. left. exists s. split; [apply bytes_written|apply bytes_read]. Qed.
Lemma micheline_bytes_coded {T} (w : T -> writer) r d : coded_exactly (w d) r d ->
  coded_as [MICHELINE_BYTES_TAG] (bin_write_micheline_bytes w d) (nom_read_micheline_bytes r) d.
Proof. intros H. by apply coded_preceded, dynamic_coded. Qed.
#[global, program] Instance MichelineBytes_codec : Codec MichelineBytes := {| valid s := True |}.
Next Obligation.
  intros [s] _. apply coded_as_coded with [MICHELINE_BYTES_TAG], (coded_map _ _ _ mkMichelineBytes), micheline_bytes_coded, bytes_coded.
Qed.
#[global, program] Instance PrimNoArgsNoAnnots_codec t : Codec (MichelinePrimNoArgsNoAnnots t) := {| valid _ := True |}.
Next Obligation.
  intros t [] _. apply coded_as_coded with [MICHELINE_PRIM_NO_ARGS_NO_ANNOTS_TAG; t].
  exact (coded_map _ _ _ (fun _ => mkPrimNoArgsNoAnnots) _ (coded_tag _)).
Qed.
#[global, program] Instance PrimNoArgsSomeAnnots_codec t : Codec (MichelinePrimNoArgsSomeAnnots t) := {| valid p := valid (p0_annots p) |}.
Next Obligation. intros t [a] H. eapply coded_as_coded, (coded_map _ _ _ mkPrimNoArgsSomeAnnots), coded_preceded, coded_done. by apply round_trip. Qed.

Section args.
Context {Arg1 Arg2 : Type} {W1 : BinWriter Arg1} {R1 : NomReader Arg1} {C1 : Codec Arg1} {W2 : BinWriter Arg2} {R2 : NomReader Arg2} {C2 : Codec Arg2}.

#[global, program] Instance Prim1ArgNoAnnots_codec t : Codec (MichelinePrim1ArgNoAnnots Arg1 t) := {| valid p := valid (p1_arg p) |}.
Next Obligation. intros t [a] H. eapply coded_as_coded, (coded_map _ _ _ mkPrim1ArgNoAnnots), coded_preceded, coded_done. by apply round_trip. Qed.
#[global, program] Instance Prim1ArgSomeAnnots_codec t : Codec (MichelinePrim1ArgSomeAnnots Arg1 t) := {| valid p := valid (p1s_arg p) /\ valid (p1s_annots p) |}.
Next Obligation.
  intros t [a an] [H Han]. eapply coded_as_coded, (coded_map _ _ _ (fun '(arg, annots) => mkPrim1ArgSomeAnnots arg annots) (a, an)), coded_preceded.
  apply coded_pair, coded_done; by apply round_trip.
Qed.
#[global, program] Instance Prim2ArgsNoAnnots_codec t : Codec (MichelinePrim2ArgsNoAnnots Arg1 Arg2 t) := {| valid p := valid (p2_arg1 p) /\ valid (p2_arg2 p) |}.
Next Obligation.
  intros t [a b] [H Hb]. eapply coded_as_coded, (coded_map _ _ _ (fun '(arg1, arg2) => mkPrim2ArgsNoAnnots arg1 arg2) (a, b)), coded_preceded.
  apply coded_pair, coded_done; by apply round_trip.
Qed.
#[global, program] Instance Prim2ArgsSomeAnnots_codec t : Codec (MichelinePrim2ArgsSomeAnnots Arg1 Arg2 t) :=
  {| valid p := valid (p2s_arg1 p) /\ valid (p2s_arg2 p) /\ valid (p2s_annots p) |}.
Next Obligation.
  intros t [a b an] (H&Hb&Han).
  eapply coded_as_coded, (coded_map _ _ _ (fun '(arg1, (arg2, annots)) => mkPrim2ArgsSomeAnnots arg1 arg2 annots) (a, (b, an))), coded_preceded.
  apply coded_pair, coded_pair, coded_done; by apply round_trip.
Qed.
End args.

(** * The tree *)

Inductive valid_node : Node -> Prop :=
  | valid_Int z : valid_node (Node_Int z)
  | valid_String s : utf8_valid s = true -> valid_node (Node_String s)
  | valid_Bytes s : valid_node (Node_Bytes s)
  | valid_Seq args : Forall valid_node args -> valid_node (Node_Seq args)
  | valid_Prim prim_tag args annots : Forall valid_node args -> valid_annots annots -> valid_node (Node_Prim prim_tag args annots).

(** The first byte of an expression. *)
Definition node_tag (n : Node) : byte :=
  match n with
  | Node_Int _ => MICHELINE_INT_TAG
  | Node_String _ => MICHELINE_STRING_TAG
  | Node_Bytes _ => MICHELINE_BYTES_TAG
  | Node_Seq _ => MICHELINE_SEQ_TAG
  | Node_Prim _ args annots =>
      match args, annots_is_empty annots with
      | [], true => MICHELINE_PRIM_NO_ARGS_NO_ANNOTS_TAG
      | [], false => MICHELINE_PRIM_NO_ARGS_SOME_ANNOTS_TAG
      | [_], true => MICHELINE_PRIM_1_ARG_NO_ANNOTS_TAG
      | [_], false => MICHELINE_PRIM_1_ARG_SOME_ANNOTS_TAG
      | [_; _], true => MICHELINE_PRIM_2_ARGS_NO_ANNOTS_TAG
      | [_; _], false => MICHELINE_PRIM_2_ARGS_SOME_ANNOTS_TAG
      | _, _ => MICHELINE_PRIM_GENERIC_TAG
      end
  end.

Lemma empty_annots a : annots_is_empty a = true -> a = annots_default.
Proof. destruct a as [[]]; done. Qed.
Lemma tuple3_coded {A B C} (w1 w2 w3 : writer) (r1 : reader A) (r2 : reader B) (r3 : reader C) a b c : coded w1 r1 a -> coded w2 r2 b -> coded w3 r3 c ->
  coded (_ ← w1; _ ← w2; w3) (nom_tuple3 r1 r2 r3) (a, b, c).
Proof.
  intros H1 H2 H3. apply coded_read with (nom_map (nom_pair r1 (nom_pair r2 r3)) (fun x => (x.1, x.2.1, x.2.2))).
  - intros input. rewrite tuple3_read, map_read, pair_read. destruct (r1 input) as [[x i1]|e|p|]; [|done..]. cbn. rewrite pair_read.
    destruct (r2 i1) as [[y i2]|e|p|]; [|done..]. cbn. by destruct (r3 i2) as [[z i3]|e|p|].
  - exact (coded_map _ _ _ _ (a, (b, c)) (coded_pair _ _ _ _ _ _ _ H1 (coded_pair _ _ _ _ _ _ _ H2 H3))).
Qed.
Lemma app_aux_coded {T} t p w (next : reader T) into x : coded w next x -> coded_as [t] (_ ← enc_put [t; p]; w) (nom_read_app_aux t next into) (into (p, x)).
Proof.
  intros [(bs&W&R)|U].
  - left. exists (p :: bs). split; [apply (written_then _ _ [t; p]); [apply put_written|done]|]. intros rest. unfold nom_read_app_aux.
    rewrite preceded_read, tag_read. cbn. rewrite map_read, pair_read, u8_read. cbn. by rewrite (R rest : next (bs ++ rest) = _).
  - right. eapply unwritten_then; [apply put_written|done].
Qed.
Lemma rejects_app_aux {T} c t (next : reader T) into : c <> t -> rejects [c] (nom_read_app_aux t next into).
Proof. intros H. by apply rejects_preceded, rejects_byte. Qed.
#[local] Hint Resolve rejects_app_aux : rejects.
#[local] Hint Extern 1 (_ <> _) => discriminate : rejects.
Ltac solve_rejects := repeat first [apply Forall_nil_2 | apply Forall_cons_2];
  unfold nom_read_micheline_int, nom_read_micheline_string, nom_read_micheline_bytes, nom_read_tagged_micheline, nom_read_seq; eauto with rejects.

Section node.
Context (w : Node -> writer) (r : reader Node) (args : list Node).
Hypothesis args_coded : Forall (fun a => coded (w a) r a /\ ~ written (w a) []) args.

Lemma args_list : coded (enc_dynamic (enc_list w) args) (nom_dynamic (nom_list r)) args.
Proof. by apply dynamic_coded, list_coded. Qed.
(** Applications of primitives. *)
Lemma prim_coded prim_tag annots : valid_annots annots ->
  let W : BinWriter Node := w in
  coded_as [node_tag (Node_Prim prim_tag args annots)] (match args, annots_is_empty annots with
    | [], true => bin_write_prim_no_args_no_annots prim_tag
    | [], false => bin_write_prim_no_args_some_annots prim_tag annots
    | [arg], true => bin_write_prim_1_arg_no_annots prim_tag arg
    | [arg], false => bin_write_prim_1_arg_some_annots prim_tag arg annots
    | [arg0; arg1], true => bin_write_prim_2_args_no_annots prim_tag arg0 arg1
    | [arg0; arg1], false => bin_write_prim_2_args_some_annots prim_tag arg0 arg1 annots
    | _, true => bin_write_prim_generic prim_tag args annots_default
    | _, false => bin_write_prim_generic prim_tag args annots
    end) (nom_read_app r) (Node_Prim prim_tag args annots).
Proof.
  intros Han%annots_coded W. pose proof args_list as Hl. unfold node_tag.
  destruct args as [|a [|b [|c l]]], (annots_is_empty annots) eqn:E; try apply empty_annots in E as ->;
    repeat match goal with H : Forall _ (_ :: _) |- _ => apply Forall_cons in H as [[? _] H] end.
  - refine (coded_as_alt _ _ [] _ _ _ _ _); [by solve_rejects|].
    refine (app_aux_coded _ _ _ _ (fun '(prim_tag, tt) => Node_Prim prim_tag [] annots_default) tt (coded_success tt)).
  - refine (coded_as_alt _ _ [_] _ _ _ _ _); [by solve_rejects|].
    by refine (app_aux_coded _ _ _ _ (fun '(prim_tag, annots) => Node_Prim prim_tag [] annots) annots _); apply coded_done.
  - refine (coded_as_alt _ _ [_; _] _ _ _ _ _); [by solve_rejects|].
    by refine (app_aux_coded _ _ _ _ (fun '(prim_tag, arg) => Node_Prim prim_tag [arg] annots_default) a _); apply coded_done.
  - refine (coded_as_alt _ _ [_; _; _] _ _ _ _ _); [by solve_rejects|].
    by refine (app_aux_coded _ _ _ _ (fun '(prim_tag, (arg, annots)) => Node_Prim prim_tag [arg] annots) (a, annots) _); apply coded_pair, coded_done.
  - refine (coded_as_alt _ _ [_; _; _; _] _ _ _ _ _); [by solve_rejects|].
    by refine (app_aux_coded _ _ _ _ (fun '(prim_tag, (arg1, arg2)) => Node_Prim prim_tag [arg1; arg2] annots_default) (a, b) _); apply coded_pair, coded_done.
  - refine (coded_as_alt _ _ [_; _; _; _; _] _ _ _ _ _); [by solve_rejects|].
    by refine (app_aux_coded _ _ _ _ (fun '(prim_tag, (arg1, arg2, annots)) => Node_Prim prim_tag [arg1; arg2] annots) (a, b, annots) _);
      apply tuple3_coded, coded_done.
  - refine (coded_as_alt _ _ [_; _; _; _; _; _] _ _ _ _ _); [by solve_rejects|].
    by refine (app_aux_coded _ _ _ _ (fun '(prim_tag, (args, annots)) => Node_Prim prim_tag args annots) (a :: b :: c :: l, annots_default) _);
      apply coded_pair, coded_done.
  - refine (coded_as_alt _ _ [_; _; _; _; _; _] _ _ _ _ _); [by solve_rejects|].
    by refine (app_aux_coded _ _ _ _ (fun '(prim_tag, (args, annots)) => Node_Prim prim_tag args annots) (a :: b :: c :: l, annots) _);
      apply coded_pair, coded_done.
Qed.
End node.

(** How deep an expression is. *)
Fixpoint height (n : Node) : nat :=
  match n with
  | Node_Seq args | Node_Prim _ args _ => S (list_max (map height args))
  | _ => 1
  end.
Lemma height_args n args : list_max (map height args) <= n -> Forall (fun a => height a <= n) args.
Proof. intros H. apply list_max_le in H. by apply Forall_fmap in H. Qed.

Lemma node_coded fuel fuel' n : height n <= fuel -> height n <= fuel' -> valid_node n ->
  coded_as [node_tag n] (node_bin_write fuel n) (node_nom_read fuel') n.
Proof.
  revert fuel' n. induction fuel as [|fuel IH]; intros fuel' n Hf Hf' Hv; [by destruct n; cbn in Hf; lia|].
  destruct fuel' as [|fuel']; [by destruct n; cbn in Hf'; lia|].
  assert (forall args, list_max (map height args) <= fuel -> list_max (map height args) <= fuel' -> Forall valid_node args ->
    Forall (fun a => coded (node_bin_write fuel a) (node_nom_read fuel') a /\ ~ written (node_bin_write fuel a) []) args) as Hargs.
  { intros args H%height_args H'%height_args Hva. rewrite Forall_forall in H, H', Hva. apply Forall_forall. intros a Ha.
    assert (Hc := IH fuel' a (H a Ha) (H' a Ha) (Hva a Ha)). split; [by eapply coded_as_coded|by refine (coded_as_not_empty [node_tag a] _ _ _ _ Hc)]. }
  cbn [node_bin_write node_nom_read]. inversion Hv; subst; cbn in Hf, Hf'.
  - refine (coded_as_alt _ _ [] _ _ _ _ _); [by solve_rejects|]. apply coded_map, coded_preceded, zarith_coded.
  - refine (coded_as_alt _ _ [_] _ _ _ _ _); [by solve_rejects|]. by apply coded_map, coded_preceded, string_coded.
  - refine (coded_as_alt _ _ [_; _] _ _ _ _ _); [by solve_rejects|]. apply coded_map, micheline_bytes_coded, bytes_coded.
  - refine (coded_as_alt _ _ [_; _; _] _ _ _ _ _); [by solve_rejects|].
    apply coded_map, coded_preceded, coded_done, args_list, Hargs; by try lia.
  - refine (coded_as_alt _ _ [_; _; _; _] _ [] _ _ _).
    + unfold node_tag. destruct args as [|? [|? [|]]], (annots_is_empty annots); by solve_rejects.
    + apply prim_coded; [|done]. apply Hargs; by try lia.
Qed.

(** C30: An expression whose strings are UTF-8 and whose annotations match the regular expression of annotations is read back, whatever follows
    it, if it can be written at all; the fuel has only to be as large as the expression is deep. *)
Theorem node_round_trip fuel fuel' n : valid_node n -> height n <= fuel -> height n <= fuel' ->
  (exists bs, written (node_bin_write fuel n) bs /\ forall rest, node_nom_read fuel' (bs ++ rest) = Ok (n, rest)) \/ unwritten (node_bin_write fuel n).
Proof. intros Hv Hf Hf'. exact (coded_as_coded _ _ _ _ (node_coded fuel fuel' n Hf Hf' Hv)). Qed.

(** * Agreement *)

(** A type whose values are written and read like their trees, when no annotations are left empty. *)
Class AsNode (A : Type) {W : BinWriter A} {R : NomReader A} {I : IntoNode A} := {
  canonical : A -> Prop;
  writes_as_node fuel a out : height (into_node a) <= fuel -> canonical a -> bin_write a out = node_bin_write fuel (into_node a) out;
  reads_as_node fuel input a rest : height (into_node a) <= fuel -> nom_read input = Ok (a, rest) -> node_nom_read fuel input = Ok (into_node a, rest)
}.

Lemma read_prim {T} t (r : reader T) input o : nom_preceded (nom_tag t) r input = Ok o -> exists rest, input = t ++ rest /\ r rest = Ok o.
Proof. rewrite preceded_read. intros ([t' rest]&(rest'&->&[= -> ->])%tag_reads&H)%outcome_bind_ok. by exists rest'. Qed.
Lemma read_map {T U} (r : reader T) (f : T -> U) input o rest : nom_map r f input = Ok (o, rest) -> exists x, r input = Ok (x, rest) /\ o = f x.
Proof. rewrite map_read. intros ([x rest']&H&[= <- <-])%outcome_bind_ok. by exists x. Qed.
Lemma read_pair {T U} (r1 : reader T) (r2 : reader U) input o rest : nom_pair r1 r2 input = Ok (o, rest) ->
  exists rest1, r1 input = Ok (o.1, rest1) /\ r2 rest1 = Ok (o.2, rest).
Proof. rewrite pair_read. intros ([x rest1]&H1&([y rest2]&H2&[= <- <-])%outcome_bind_ok)%outcome_bind_ok. eauto. Qed.
Lemma app_aux_read {T} t p (next : reader T) into x rest rest' : next rest = Ok (x, rest') ->
  nom_read_app_aux t next into ([t; p] ++ rest) = Ok (into (p, x), rest').
Proof. intros H. unfold nom_read_app_aux. rewrite preceded_read, (tag_read [t] (p :: rest)). cbn. rewrite map_read, pair_read, u8_read. cbn. by rewrite H. Qed.
Lemma node_read_app fuel t rest o : one_of [MICHELINE_PRIM_NO_ARGS_NO_ANNOTS_TAG; MICHELINE_PRIM_NO_ARGS_SOME_ANNOTS_TAG;
    MICHELINE_PRIM_1_ARG_NO_ANNOTS_TAG; MICHELINE_PRIM_1_ARG_SOME_ANNOTS_TAG; MICHELINE_PRIM_2_ARGS_NO_ANNOTS_TAG;
    MICHELINE_PRIM_2_ARGS_SOME_ANNOTS_TAG; MICHELINE_PRIM_GENERIC_TAG] t = true ->
  nom_read_app (node_nom_read fuel) ([t] ++ rest) = Ok o -> node_nom_read (S fuel) ([t] ++ rest) = Ok o.
Proof.
  intros Ht R. cbn [node_nom_read]. refine (alt_skip _ [_; _; _; _] _ [] _ _ _ R).
  destruct t; try discriminate Ht; by solve_rejects.
Qed.

Tactic Notation "by_app" constr(t) uconstr(rs) := cbn [app]; apply (node_read_app _ t (_ :: _)); [done|]; refine (alt_skip [t] rs _ _ _ _ _ _); [by solve_rejects|].

Tactic Notation "by_leaf" uconstr(rs) := intros [|fuel] input a rest Hf H; [destruct a; cbn in Hf; lia|];
  apply read_map in H as (x&H&->); pose proof H as (input'&->&_)%read_prim; refine (alt_skip [_] rs _ _ _ _ _ _); [by solve_rejects|]; by rewrite map_read, H.

#[global, program] Instance MichelineInt_as_node : AsNode MichelineInt := {| canonical _ := True |}.
Next Obligation. by intros [|fuel] [z] out H _; [cbn in H; lia|]. Qed.
Next Obligation. by_leaf []. Qed.
#[global, program] Instance MichelineString_as_node : AsNode MichelineString := {| canonical _ := True |}.
Next Obligation. by intros [|fuel] [z] out H _; [cbn in H; lia|]. Qed.
Next Obligation. by_leaf [_]. Qed.
#[global, program] Instance MichelineBytes_as_node : AsNode MichelineBytes := {| canonical _ := True |}.
Next Obligation. by intros [|fuel] [z] out H _; [cbn in H; lia|]. Qed.
Next Obligation. by_leaf [_; _]. Qed.
#[global, program] Instance PrimNoArgsNoAnnots_as_node t : AsNode (MichelinePrimNoArgsNoAnnots t) := {| canonical _ := True |}.
Next Obligation. by intros t [|fuel] [] out H _; [cbn in H; lia|]. Qed.
Next Obligation.
  intros t [|fuel] input a rest Hf H; [destruct a; cbn in Hf; lia|]. apply read_map in H as (x&(input'&->&[= -> ->])%tag_reads&->).
  by_app MICHELINE_PRIM_NO_ARGS_NO_ANNOTS_TAG []. exact (app_aux_read _ _ _ _ _ _ _ (success_read _ _)).
Qed.
#[global, program] Instance PrimNoArgsSomeAnnots_as_node t : AsNode (MichelinePrimNoArgsSomeAnnots t) := {| canonical a := annots_is_empty (p0_annots a) = false |}.
Next Obligation. intros t [|fuel] [a] out H Ha; [cbn in H; lia|]. cbn in *. by rewrite Ha. Qed.
Next Obligation.
  intros t [|fuel] input a rest Hf H; [destruct a; cbn in Hf; lia|]. apply read_map in H as (x&(input'&->&H)%read_prim&->).
  by_app MICHELINE_PRIM_NO_ARGS_SOME_ANNOTS_TAG [_]. exact (app_aux_read _ _ _ _ _ _ _ H).
Qed.

(** Writing the arguments one after the other. *)
Lemma same_then (w1 w1' w2 w2' : writer) out : (forall out, w1 out = w1' out) -> (forall out, w2 out = w2' out) -> (_ ← w1; w2) out = (_ ← w1'; w2') out.
Proof. intros H1 H2. unfold mbind, M_bind. rewrite H1. destruct (w1' out) as [[]?]; [apply H2|done..]. Qed.

Section arguments.
Context {Arg1 Arg2 : Type} {W1 : BinWriter Arg1} {R1 : NomReader Arg1} {I1 : IntoNode Arg1} {N1 : AsNode Arg1}
  {W2 : BinWriter Arg2} {R2 : NomReader Arg2} {I2 : IntoNode Arg2} {N2 : AsNode Arg2}.

#[global, program] Instance Prim1ArgNoAnnots_as_node t : AsNode (MichelinePrim1ArgNoAnnots Arg1 t) := {| canonical a := canonical (p1_arg a) |}.
Next Obligation.
  intros t [|fuel] [a] out H Ha; [cbn in H; lia|]. cbn in H. apply same_then; [done|]. intros out1. apply same_then; [|done]. intros out2.
  apply writes_as_node; [cbn; lia|done].
Qed.
Next Obligation.
  intros t [|fuel] input a rest Hf H; [destruct a; cbn in Hf; lia|]. apply read_map in H as (x&(input'&->&H)%read_prim&->). cbn in Hf.
  by_app MICHELINE_PRIM_1_ARG_NO_ANNOTS_TAG [_; _]. apply (reads_as_node fuel) in H; [|cbn; lia]. exact (app_aux_read _ _ _ _ _ _ _ H).
Qed.
#[global, program] Instance Prim1ArgSomeAnnots_as_node t : AsNode (MichelinePrim1ArgSomeAnnots Arg1 t) :=
  {| canonical a := canonical (p1s_arg a) /\ annots_is_empty (p1s_annots a) = false |}.
Next Obligation.
  intros t [|fuel] [a an] out H [Ha Han]; [cbn in H; lia|]. cbn in H, Ha, Han. cbn [into_node Prim1ArgSomeAnnots_into p1s_arg p1s_annots node_bin_write].
  rewrite Han. apply same_then; [done|]. intros out1. apply same_then; [|done]. intros out2. apply writes_as_node; [cbn; lia|done].
Qed.
Next Obligation.
  intros t [|fuel] input a rest Hf H; [destruct a; cbn in Hf; lia|].
  apply read_map in H as ([x an]&(input'&->&(rest1&H&Han)%read_pair)%read_prim&->). cbn in Hf, H, Han.
  by_app MICHELINE_PRIM_1_ARG_SOME_ANNOTS_TAG [_; _; _]. apply (reads_as_node fuel) in H; [|cbn; lia].
  refine (app_aux_read _ _ _ _ (_, _) _ _ _). rewrite pair_read, H. cbn. by rewrite Han.
Qed.
#[global, program] Instance Prim2ArgsNoAnnots_as_node t : AsNode (MichelinePrim2ArgsNoAnnots Arg1 Arg2 t) :=
  {| canonical a := canonical (p2_arg1 a) /\ canonical (p2_arg2 a) |}.
Next Obligation.
  intros t [|fuel] [a b] out H [Ha Hb]; [cbn in H; lia|]. cbn in H. apply same_then; [done|]. intros out1.
  apply same_then; intros out2; [apply writes_as_node; [cbn; lia|done]|]. apply same_then; [|done]. intros out3. apply writes_as_node; [cbn; lia|done].
Qed.
Next Obligation.
  intros t [|fuel] input a rest Hf H; [destruct a; cbn in Hf; lia|].
  apply read_map in H as ([x y]&(input'&->&(rest1&H&Hy)%read_pair)%read_prim&->). cbn in Hf, H, Hy.
  by_app MICHELINE_PRIM_2_ARGS_NO_ANNOTS_TAG [_; _; _; _]. apply (reads_as_node fuel) in H; [|cbn; lia]. apply (reads_as_node fuel) in Hy; [|cbn; lia].
  refine (app_aux_read _ _ _ _ (_, _) _ _ _). rewrite pair_read, H. cbn. by rewrite Hy.
Qed.
#[global, program] Instance Prim2ArgsSomeAnnots_as_node t : AsNode (MichelinePrim2ArgsSomeAnnots Arg1 Arg2 t) :=
  {| canonical a := canonical (p2s_arg1 a) /\ canonical (p2s_arg2 a) /\ annots_is_empty (p2s_annots a) = false |}.
Next Obligation.
  intros t [|fuel] [a b an] out H (Ha&Hb&Han); [cbn in H; lia|]. cbn in H, Ha, Hb, Han.
  cbn [into_node Prim2ArgsSomeAnnots_into p2s_arg1 p2s_arg2 p2s_annots node_bin_write]. rewrite Han. apply same_then; [done|]. intros out1.
  apply same_then; intros out2; [apply writes_as_node; [cbn; lia|done]|]. apply same_then; [|done]. intros out3. apply writes_as_node; [cbn; lia|done].
Qed.
Next Obligation.
  intros t [|fuel] input a rest Hf H; [destruct a; cbn in Hf; lia|].
  apply read_map in H as ([x [y an]]&(input'&->&(rest1&H&(rest2&Hy&Han)%read_pair)%read_pair)%read_prim&->). cbn in Hf, H, Hy, Han.
  by_app MICHELINE_PRIM_2_ARGS_SOME_ANNOTS_TAG [_; _; _; _; _]. apply (reads_as_node fuel) in H; [|cbn; lia]. apply (reads_as_node fuel) in Hy; [|cbn; lia].
  refine (app_aux_read _ _ _ _ (_, _, _) _ _ _). rewrite tuple3_read, H. cbn. rewrite Hy. cbn. by rewrite Han.
Qed.

(** The application of a primitive to two arguments, with annotations, is written and read alike as a typed value and as a tree, when its arguments are:
    the bytes are the same unless the annotations are empty, and what is read as the typed value is read as its tree, with the same rest. *)
Theorem typed_agrees_with_tree t (p : MichelinePrim2ArgsSomeAnnots Arg1 Arg2 t) fuel : height (into_node p) <= fuel ->
  (canonical p -> forall out, bin_write p out = node_bin_write fuel (into_node p) out)
  /\ forall input rest, nom_read input = Ok (p, rest) -> node_nom_read fuel input = Ok (into_node p, rest).
Proof. intros Hf. split; [intros Hp out; by apply writes_as_node|intros input rest; by apply reads_as_node]. Qed.
End arguments.
End proofs.
