(* ===== verification/SdkMichelson.v ===== *)
(** Accounts, entrypoints and Michelson data of layer one.

    Models [encoding/src/public_key_hash.rs], [public_key.rs], [contract.rs], [smart_rollup.rs], [entrypoint.rs], [timestamp.rs], [michelson.rs] and
    [michelson/ticket.rs].  Each type comes with its writer and its reader, and with the values that are read back ([Codec]); the hash of a
    ticket identifies its creator and contents. *)

From S2P Require Import Prelude Endian SdkNom SdkMicheline SdkMichelineProps.

(** * Crates *)

(** The notation of hashes, of tezos_crypto_rs. *)
Class Base58Crate := {
  B58Err : Type;
  (** [FromBase58CheckError::InvalidBase58] *)
  InvalidBase58 : B58Err;
  from_base58check : bytes -> outcome B58Err bytes;
  base58check_prefix : HashType -> bytes;
  hash_from_b58check : HashType -> bytes -> outcome B58Err bytes;
  hash_to_b58check : HashType -> bytes -> bytes
}.
Class Base58Laws {nom : NomCrate} {de : DataEncoding} (b58 : Base58Crate) := {
  b58_decoded t h : length h = hash_size t -> from_base58check (hash_to_b58check t h) = Ok (base58check_prefix t ++ h);
  b58_hash t h : length h = hash_size t -> hash_from_b58check t (hash_to_b58check t h) = Ok h;
  b58_prefixes t t' h : length h = hash_size t' -> base58check_prefix t `prefix_of` base58check_prefix t' ++ h -> t = t'
}.
(** [Blake2b], and the verification of signatures. *)
Class CryptoCrate := { CryptoErr : Type; digest_256 : bytes -> outcome CryptoErr bytes; verify_hash : HashType -> bytes -> bytes -> bytes -> outcome CryptoErr bool }.

(** [starts_with]. *)
Definition starts_with (p bs : bytes) : bool := bool_decide (p `prefix_of` bs).

(** * Data *)

Inductive PublicKeyHash : Type := | PKH_Ed25519 (h : bytes) | PKH_Secp256k1 (h : bytes) | PKH_P256 (h : bytes).
Inductive PublicKey : Type := | PK_Ed25519 (k : bytes) | PK_Secp256k1 (k : bytes) | PK_P256 (k : bytes).
Inductive Contract : Type := | Implicit (pkh : PublicKeyHash) | Originated (kt1 : bytes).
Record SmartRollupAddress : Type := mkSmartRollupAddress { sr_hash : bytes }.
Record Timestamp : Type := mkTimestamp { ts_i64 : Z }.
Definition Timestamp_as_u64 (t : Timestamp) : Z := (ts_i64 t mod 2 ^ 64)%Z.
Record Entrypoint : Type := mkEntrypoint { ep_name : bytes }.

Record MichelsonUnit : Type := mkMichelsonUnit {}.
Record MichelsonContract : Type := mkMichelsonContract { mc_contract : Contract }.
Record MichelsonPair (Arg0 Arg1 : Type) : Type := mkMichelsonPair { pair_0 : Arg0; pair_1 : Arg1 }.
Arguments mkMichelsonPair {_ _} _ _.
Arguments pair_0 {_ _} _.
Arguments pair_1 {_ _} _.
Inductive MichelsonOr (Arg0 Arg1 : Type) : Type := | Or_Left (a : Arg0) | Or_Right (a : Arg1).
Arguments Or_Left {_ _} _.
Arguments Or_Right {_ _} _.
Record MichelsonOption (Arg : Type) : Type := mkMichelsonOption { opt : option Arg }.
Arguments mkMichelsonOption {_} _.
Arguments opt {_} _.
Record MichelsonString : Type := mkMichelsonString { ms_string : bytes }.
Record MichelsonBytes : Type := mkMichelsonBytes { mb_bytes : bytes }.
Record MichelsonInt : Type := mkMichelsonInt { mi_int : Z }.

Definition LEFT_TAG : byte := Byte.x05.
Definition NONE_TAG : byte := Byte.x06.
Definition PAIR_TAG : byte := Byte.x07.
Definition RIGHT_TAG : byte := Byte.x08.
Definition SOME_TAG : byte := Byte.x09.
Definition UNIT_TAG : byte := Byte.x0b.

(** * Entrypoints *)

Definition MAX_LEN : nat := 31.
Definition DEFAULT : bytes := str "default".
Definition entrypoint_default : Entrypoint := mkEntrypoint DEFAULT.
Inductive EntrypointError : Type := | EntrypointTooLarge (name : bytes) | EntrypointInvalidChars (name : bytes).
Definition entrypoint_first (c : byte) : bool := alphanumeric c || Byte.eqb c Byte.x5f.
Definition entrypoint_next (c : byte) : bool := alphanumeric c || one_of (str "_.%@") c.
Definition entrypoint_try_from (name : bytes) : outcome EntrypointError Entrypoint :=
  match name with
  | [] => Ok entrypoint_default
  | c :: rest =>
      if MAX_LEN <? length name then Err (EntrypointTooLarge name)
      else if entrypoint_first c && forallb entrypoint_next rest then Ok (mkEntrypoint name)
      else Err (EntrypointInvalidChars name)
  end.

Section codecs.
Context {nom : NomCrate} {de : DataEncoding}.

(** * Readers and writers *)

(** [derive(NomReader, BinWriter)] gives each variant its position as tag. *)
#[global] Instance PublicKeyHash_read : NomReader PublicKeyHash := nom_tagged [
  (Byte.x00, nom_map (hash_read ContractTz1Hash) PKH_Ed25519); (Byte.x01, nom_map (hash_read ContractTz2Hash) PKH_Secp256k1);
  (Byte.x02, nom_map (hash_read ContractTz3Hash) PKH_P256)].
#[global] Instance PublicKeyHash_write : BinWriter PublicKeyHash := fun pkh =>
  match pkh with
  | PKH_Ed25519 h => _ ← enc_u8 Byte.x00; hash_write ContractTz1Hash h
  | PKH_Secp256k1 h => _ ← enc_u8 Byte.x01; hash_write ContractTz2Hash h
  | PKH_P256 h => _ ← enc_u8 Byte.x02; hash_write ContractTz3Hash h
  end.
#[global] Instance PublicKey_read : NomReader PublicKey := nom_tagged [
  (Byte.x00, nom_map (hash_read PublicKeyEd25519) PK_Ed25519); (Byte.x01, nom_map (hash_read PublicKeySecp256k1) PK_Secp256k1);
  (Byte.x02, nom_map (hash_read PublicKeyP256) PK_P256)].
#[global] Instance PublicKey_write : BinWriter PublicKey := fun pk =>
  match pk with
  | PK_Ed25519 h => _ ← enc_u8 Byte.x00; hash_write PublicKeyEd25519 h
  | PK_Secp256k1 h => _ ← enc_u8 Byte.x01; hash_write PublicKeySecp256k1 h
  | PK_P256 h => _ ← enc_u8 Byte.x02; hash_write PublicKeyP256 h
  end.
#[global] Instance Contract_read : NomReader Contract := nom_alt [
  nom_map (nom_preceded (nom_tag [Byte.x00]) nom_read) Implicit;
  nom_map (nom_delimited (nom_tag [Byte.x01]) (hash_read ContractKt1Hash) (nom_tag [Byte.x00])) Originated].
#[global] Instance Contract_write : BinWriter Contract := fun c =>
  match c with
  | Implicit implicit => _ ← enc_put [Byte.x00]; bin_write implicit
  | Originated originated => _ ← enc_put [Byte.x01]; _ ← enc_bytes (originated ++ [Byte.x00]); mret tt
  end.
#[global] Instance SmartRollupAddress_read : NomReader SmartRollupAddress := nom_map (hash_read SmartRollupHash) mkSmartRollupAddress.
#[global] Instance SmartRollupAddress_write : BinWriter SmartRollupAddress := fun a => hash_write SmartRollupHash (sr_hash a).
#[global] Instance Timestamp_read : NomReader Timestamp := nom_map nom_i64 mkTimestamp.
#[global] Instance Timestamp_write : BinWriter Timestamp := fun t => enc_i64 (ts_i64 t).
#[global] Instance Entrypoint_read : NomReader Entrypoint :=
  nom_map (nom_map_res (nom_bounded_dynamic MAX_LEN (nom_alt [nom_eof;
      nom_recognize (nom_pair (nom_take_while1 entrypoint_first) (nom_take_while entrypoint_next))]))
      (fun bs => if utf8_valid bs then Some bs else None))
    (fun name => match name with [] => entrypoint_default | _ => mkEntrypoint name end).
#[global] Instance Entrypoint_write : BinWriter Entrypoint := fun e => enc_bounded_string MAX_LEN (ep_name e).

#[global] Instance MichelsonContract_read : NomReader MichelsonContract := nom_map (nom_read_micheline_bytes nom_read) mkMichelsonContract.
#[global] Instance MichelsonUnit_read : NomReader MichelsonUnit :=
  nom_map (nom_read (A := MichelinePrimNoArgsNoAnnots UNIT_TAG)) (fun _prim => mkMichelsonUnit).
#[global] Instance MichelsonPair_read {Arg0 Arg1} {R0 : NomReader Arg0} {R1 : NomReader Arg1} : NomReader (MichelsonPair Arg0 Arg1) :=
  nom_map (nom_read (A := MichelinePrim2ArgsNoAnnots Arg0 Arg1 PAIR_TAG)) (fun m => mkMichelsonPair (p2_arg1 m) (p2_arg2 m)).
#[global] Instance MichelsonOr_read {Arg0 Arg1} {R0 : NomReader Arg0} {R1 : NomReader Arg1} : NomReader (MichelsonOr Arg0 Arg1) := nom_alt [
  nom_map (nom_read (A := MichelinePrim1ArgNoAnnots Arg0 LEFT_TAG)) (fun m => Or_Left (p1_arg m));
  nom_map (nom_read (A := MichelinePrim1ArgNoAnnots Arg1 RIGHT_TAG)) (fun m => Or_Right (p1_arg m))].
#[global] Instance MichelsonOption_read {Arg} {R : NomReader Arg} : NomReader (MichelsonOption Arg) := nom_alt [
  nom_map (nom_read (A := MichelinePrimNoArgsNoAnnots NONE_TAG)) (fun _prim => mkMichelsonOption None);
  nom_map (nom_read (A := MichelinePrim1ArgNoAnnots Arg SOME_TAG)) (fun m => mkMichelsonOption (Some (p1_arg m)))].
#[global] Instance MichelsonString_read : NomReader MichelsonString := nom_map nom_read_micheline_string mkMichelsonString.
#[global] Instance MichelsonBytes_read : NomReader MichelsonBytes := nom_map (nom_read_micheline_bytes nom_bytes) mkMichelsonBytes.
#[global] Instance MichelsonInt_read : NomReader MichelsonInt := nom_map nom_read_micheline_int mkMichelsonInt.

#[global] Instance MichelsonContract_write : BinWriter MichelsonContract := fun c => bin_write_micheline_bytes bin_write (mc_contract c).
#[global] Instance MichelsonUnit_write : BinWriter MichelsonUnit := fun _ => bin_write_prim_no_args_no_annots UNIT_TAG.
#[global] Instance MichelsonPair_write {Arg0 Arg1} {W0 : BinWriter Arg0} {W1 : BinWriter Arg1} : BinWriter (MichelsonPair Arg0 Arg1) := fun p =>
  bin_write_prim_2_args_no_annots PAIR_TAG (pair_0 p) (pair_1 p).
#[global] Instance MichelsonOr_write {Arg0 Arg1} {W0 : BinWriter Arg0} {W1 : BinWriter Arg1} : BinWriter (MichelsonOr Arg0 Arg1) := fun o =>
  match o with
  | Or_Left left_ => bin_write_prim_1_arg_no_annots LEFT_TAG left_
  | Or_Right right_ => bin_write_prim_1_arg_no_annots RIGHT_TAG right_
  end.
#[global] Instance MichelsonOption_write {Arg} {W : BinWriter Arg} : BinWriter (MichelsonOption Arg) := fun o =>
  match opt o with
  | None => bin_write_prim_no_args_no_annots NONE_TAG
  | Some arg => bin_write_prim_1_arg_no_annots SOME_TAG arg
  end.
#[global] Instance MichelsonString_write : BinWriter MichelsonString := fun s => bin_write_micheline_string (ms_string s).
#[global] Instance MichelsonBytes_write : BinWriter MichelsonBytes := fun b => bin_write_micheline_bytes enc_bytes (mb_bytes b).
#[global] Instance MichelsonInt_write : BinWriter MichelsonInt := fun i => bin_write_micheline_int (mi_int i).

(** * Notation of accounts *)

Section b58.
Context {b58 : Base58Crate}.

Definition pkh_from_b58check (data : bytes) : outcome B58Err PublicKeyHash :=
  bs ← from_base58check data;
  if starts_with (base58check_prefix ContractTz1Hash) bs then h ← hash_from_b58check ContractTz1Hash data; Ok (PKH_Ed25519 h)
  else if starts_with (base58check_prefix ContractTz2Hash) bs then h ← hash_from_b58check ContractTz2Hash data; Ok (PKH_Secp256k1 h)
  else if starts_with (base58check_prefix ContractTz3Hash) bs then h ← hash_from_b58check ContractTz3Hash data; Ok (PKH_P256 h)
  else Err InvalidBase58.
Definition pkh_to_b58check (pkh : PublicKeyHash) : bytes :=
  match pkh with
  | PKH_Ed25519 h => hash_to_b58check ContractTz1Hash h
  | PKH_Secp256k1 h => hash_to_b58check ContractTz2Hash h
  | PKH_P256 h => hash_to_b58check ContractTz3Hash h
  end.
Definition pkh_hash (pkh : PublicKeyHash) : bytes := match pkh with PKH_Ed25519 h | PKH_Secp256k1 h | PKH_P256 h => h end.
Definition public_key_from_b58check (data : bytes) : outcome B58Err PublicKey :=
  bs ← from_base58check data;
  public_key ← (if starts_with (base58check_prefix PublicKeyEd25519) bs then h ← hash_from_b58check PublicKeyEd25519 data; Ok (PK_Ed25519 h)
    else if starts_with (base58check_prefix PublicKeySecp256k1) bs then h ← hash_from_b58check PublicKeySecp256k1 data; Ok (PK_Secp256k1 h)
    else if starts_with (base58check_prefix PublicKeyP256) bs then h ← hash_from_b58check PublicKeyP256 data; Ok (PK_P256 h)
    else Err InvalidBase58);
  Ok public_key.
Definition public_key_to_b58check (pk : PublicKey) : bytes :=
  match pk with
  | PK_Ed25519 h => hash_to_b58check PublicKeyEd25519 h
  | PK_Secp256k1 h => hash_to_b58check PublicKeySecp256k1 h
  | PK_P256 h => hash_to_b58check PublicKeyP256 h
  end.
Definition verify_signature {crypto : CryptoCrate} (pk : PublicKey) (signature msg : bytes) : outcome CryptoErr bool :=
  match pk with
  | PK_Ed25519 k => verify_hash PublicKeyEd25519 k signature msg
  | PK_Secp256k1 k => verify_hash PublicKeySecp256k1 k signature msg
  | PK_P256 k => verify_hash PublicKeyP256 k signature msg
  end.
Definition contract_from_b58check (data : bytes) : outcome B58Err Contract :=
  bs ← from_base58check data;
  if starts_with (base58check_prefix ContractKt1Hash) bs then h ← hash_from_b58check ContractKt1Hash data; Ok (Originated h)
  else pkh ← pkh_from_b58check data; Ok (Implicit pkh).
Definition contract_to_b58check (c : Contract) : bytes :=
  match c with Implicit pkh => pkh_to_b58check pkh | Originated kt1 => hash_to_b58check ContractKt1Hash kt1 end.
Definition contract_hash (c : Contract) : bytes := match c with Implicit pkh => pkh_hash pkh | Originated ckt1 => ckt1 end.
Definition smart_rollup_from_b58check (data : bytes) : outcome B58Err SmartRollupAddress :=
  bs ← from_base58check data;
  if starts_with (base58check_prefix SmartRollupHash) bs then hash ← hash_from_b58check SmartRollupHash data; Ok (mkSmartRollupAddress hash)
  else Err InvalidBase58.
Definition smart_rollup_to_b58check (a : SmartRollupAddress) : bytes := hash_to_b58check SmartRollupHash (sr_hash a).
End b58.

(** * Tickets *)

Definition TICKET_HASH_SIZE : nat := 32.
Record Ticket (Expr : Type) : Type := mkTicket { ticket_repr : MichelsonPair MichelsonContract (MichelsonPair Expr MichelsonInt) }.
#[global] Arguments mkTicket {_} _.
#[global] Arguments ticket_repr {_} _.
#[global] Instance Ticket_read {Expr} {R : NomReader Expr} : NomReader (Ticket Expr) := nom_map nom_read mkTicket.
#[global] Instance Ticket_write {Expr} {W : BinWriter Expr} : BinWriter (Ticket Expr) := fun t => bin_write (ticket_repr t).
Inductive TicketError : Type := | InvalidAmount (amount : Z).
Definition ticket_new {Expr} (creator : Contract) (contents : Expr) (amount : Z) : outcome TicketError (Ticket Expr) :=
  if (0 <? amount)%Z then Ok (mkTicket (mkMichelsonPair (mkMichelsonContract creator) (mkMichelsonPair contents (mkMichelsonInt amount))))
  else Err (InvalidAmount amount).
Definition ticket_creator {Expr} (t : Ticket Expr) : MichelsonContract := pair_0 (ticket_repr t).
Definition ticket_contents {Expr} (t : Ticket Expr) : Expr := pair_0 (pair_1 (ticket_repr t)).
Definition ticket_amount {Expr} (t : Ticket Expr) : Z := mi_int (pair_1 (pair_1 (ticket_repr t))).
Inductive TicketHashError {crypto : CryptoCrate} : Type := | TicketSerialization (e : BinErr) | TicketHashing (e : CryptoErr).
Definition ticket_hash {crypto : CryptoCrate} {Expr} {W : BinWriter Expr} (t : Ticket Expr) : outcome TicketHashError bytes :=
  let '(r, bs) := (_ ← bin_write (ticket_creator t); bin_write (ticket_contents t)) [] in
  _ ← map_err TicketSerialization r;
  digest ← map_err TicketHashing (digest_256 bs);
  if length digest =? TICKET_HASH_SIZE then Ok digest else Panic PUnwrap.
End codecs.

Section proofs.
Context {nom : NomCrate} {de : DataEncoding} {nlaws : NomLaws nom} {dlaws : DataLaws de}.

#[local] Hint Extern 1 (_ <> _) => discriminate : rejects.

(** * Accounts *)

Definition pkh_valid (pkh : PublicKeyHash) : Prop :=
  match pkh with
  | PKH_Ed25519 h => length h = hash_size ContractTz1Hash
  | PKH_Secp256k1 h => length h = hash_size ContractTz2Hash
  | PKH_P256 h => length h = hash_size ContractTz3Hash
  end.
Definition public_key_valid (pk : PublicKey) : Prop :=
  match pk with
  | PK_Ed25519 h => length h = hash_size PublicKeyEd25519
  | PK_Secp256k1 h => length h = hash_size PublicKeySecp256k1
  | PK_P256 h => length h = hash_size PublicKeyP256
  end.
Definition contract_valid (c : Contract) : Prop := match c with Implicit pkh => pkh_valid pkh | Originated kt1 => length kt1 = hash_size ContractKt1Hash end.

(** A variant that holds a hash. *)
Ltac hash_variant H := eapply coded_as_coded, coded_variant;
  [repeat first [apply list_elem_of_here | apply list_elem_of_further] | repeat constructor; set_solver
  | apply coded_map, coded_hash; exact H].

#[global, program] Instance PublicKeyHash_codec : Codec PublicKeyHash := {| valid := pkh_valid |}.
Next Obligation. intros [h|h|h] H; hash_variant H. Qed.
#[global, program] Instance PublicKey_codec : Codec PublicKey := {| valid := public_key_valid |}.
Next Obligation. intros [h|h|h] H; hash_variant H. Qed.
Lemma originated_coded h : length h = hash_size ContractKt1Hash -> coded_as [Byte.x01] (_ ← enc_put [Byte.x01]; _ ← enc_bytes (h ++ [Byte.x00]); mret tt)
  (nom_map (nom_delimited (nom_tag [Byte.x01]) (hash_read ContractKt1Hash) (nom_tag [Byte.x00])) Originated) (Originated h).
Proof.
  intros H. left. exists (h ++ [Byte.x00]). split; [apply written_then; [apply put_written|apply written_done, bytes_written]|].
  intros rest. rewrite map_read, delimited_read, tag_read, <- app_assoc. cbn. rewrite hash_reads by done. cbn. by rewrite (tag_read [Byte.x00] rest : nom_tag _ (_ :: _) = _).
Qed.
#[global, program] Instance Contract_codec : Codec Contract := {| valid := contract_valid |}.
Next Obligation.
  intros [pkh|h] H.
  - eapply coded_as_coded. refine (coded_as_alt _ _ [] _ _ _ _ _); [done|]. by apply coded_map, coded_preceded, round_trip.
  - eapply coded_as_coded. refine (coded_as_alt _ _ [_] _ _ _ _ (originated_coded _ H)). by repeat constructor; eauto with rejects.
Qed.
Lemma contract_not_empty (c : Contract) : valid c -> ~ written (bin_write c) [].
Proof.
  destruct c as [pkh|h]; intros H.
  - eapply (coded_as_not_empty [Byte.x00]); [done|]. by apply coded_preceded, round_trip.
  - by eapply (coded_as_not_empty [Byte.x01]), originated_coded.
Qed.
#[global, program] Instance SmartRollupAddress_codec : Codec SmartRollupAddress := {| valid a := length (sr_hash a) = hash_size SmartRollupHash |}.
Next Obligation. intros [h] H. by apply (coded_map _ _ _ mkSmartRollupAddress), coded_hash. Qed.
#[global, program] Instance Timestamp_codec : Codec Timestamp := {| valid t := (- 2 ^ 63 <= ts_i64 t < 2 ^ 63)%Z |}.
Next Obligation. intros [t] H. by apply (coded_map _ _ _ mkTimestamp), i64_coded. Qed.

(** * Entrypoints *)

Definition entrypoint_valid (e : Entrypoint) : Prop :=
  match ep_name e with c :: rest => length (ep_name e) <= MAX_LEN /\ entrypoint_first c = true /\ forallb entrypoint_next rest = true | [] => False end.

(** Names are valid entrypoints, the empty name is the default one. *)
Lemma entrypoint_try_from_valid name e : entrypoint_try_from name = Ok e -> entrypoint_valid e.
Proof.
  destruct name as [|c rest]; cbn [entrypoint_try_from]; [intros [= <-]; split; [by apply Nat.leb_le|done]|]. destruct (Nat.ltb_spec MAX_LEN (length (c :: rest))); [done|].
  destruct (entrypoint_first c && forallb entrypoint_next rest) eqn:E; [|done]. intros [= <-]. apply andb_true_iff in E as [Hc Hr]. by split.
Qed.
Lemma entrypoint_next_ascii c : entrypoint_next c = true -> between 0 0x7f c = true.
Proof. destruct c; try done; cbn; discriminate. Qed.
Lemma entrypoint_first_next c : entrypoint_first c = true -> entrypoint_next c = true.
Proof. destruct c; try done; cbn; discriminate. Qed.
(** The longest prefix. *)
Lemma span_first s : exists s1 s2, s = s1 ++ s2 /\ Forall (fun c => entrypoint_first c = true) s1 /\ (forall c, head s2 = Some c -> entrypoint_first c = false).
Proof.
  induction s as [|c s (s1&s2&->&H1&H2)]; [by exists [], []|]. destruct (entrypoint_first c) eqn:E.
  - exists (c :: s1), s2. repeat split; [by constructor|done].
  - exists [], (c :: s1 ++ s2). repeat split; [done|]. by intros ? [= <-].
Qed.
Lemma entrypoint_parsed c s : entrypoint_first c = true -> forallb entrypoint_next s = true ->
  nom_alt [nom_eof; nom_recognize (nom_pair (nom_take_while1 entrypoint_first) (nom_take_while entrypoint_next))] (c :: s) = Ok (c :: s, []).
Proof.
  intros Hc Hs. destruct (span_first s) as (s1&s2&->&H1&H2). destruct (eof_other c (s1 ++ s2)) as (e&E&He).
  rewrite (alt_next _ _ _ e) by done. apply alt_first. rewrite forallb_app in Hs. apply andb_true_iff in Hs as [_ Hs].
  pose proof (recognize_read (nom_pair (nom_take_while1 entrypoint_first) (nom_take_while entrypoint_next)) (c :: s1 ++ s2) [] (c :: s1, s2)) as Hr.
  rewrite app_nil_r in Hr. apply Hr. rewrite pair_read, take_while1_read; [|by constructor|done]. cbn.
  rewrite take_while_read; [done|]. apply Forall_forall. intros x Hx. rewrite forallb_forall in Hs. apply Hs. by apply list_elem_of_In.
Qed.
#[global, program] Instance Entrypoint_codec : Codec Entrypoint := {| valid := entrypoint_valid |}.
Next Obligation.
  intros [[|c s]] H; [done|]. destruct H as (Hl&Hc&Hs). unfold nom_read, Entrypoint_read.
  refine (coded_map _ _ _ (fun name => match name with [] => entrypoint_default | _ => mkEntrypoint name end) (c :: s) _).
  destruct (bounded_coded MAX_LEN _ (c :: s) _ ltac:(done) Hl (entrypoint_parsed c s Hc Hs)) as [(bs&W&R)|U]; [|by right].
  left. exists bs. split; [done|]. intros rest. eapply map_res_read; [apply R|]. cbv beta. rewrite utf8_ascii; [done|]. constructor.
  - by apply entrypoint_next_ascii, entrypoint_first_next.
  - apply Forall_forall. intros x Hx. rewrite forallb_forall in Hs. apply entrypoint_next_ascii, Hs. by apply list_elem_of_In.
Qed.

(** * Michelson data *)

#[global, program] Instance MichelsonContract_codec : Codec MichelsonContract := {| valid c := valid (mc_contract c) |}.
Next Obligation.
  intros [c] H. by eapply coded_as_coded, (coded_map _ _ _ mkMichelsonContract), micheline_bytes_coded, coded_is_exact, round_trip.
Qed.
#[global, program] Instance MichelsonUnit_codec : Codec MichelsonUnit := {| valid _ := True |}.
Next Obligation. intros [] _. exact (coded_map _ _ _ (fun _ => mkMichelsonUnit) mkPrimNoArgsNoAnnots (round_trip mkPrimNoArgsNoAnnots I)). Qed.
#[global, program] Instance MichelsonString_codec : Codec MichelsonString := {| valid s := utf8_valid (ms_string s) = true |}.
Next Obligation. intros [s] H. by eapply coded_as_coded, (coded_map _ _ _ mkMichelsonString), coded_preceded, string_coded. Qed.
#[global, program] Instance MichelsonBytes_codec : Codec MichelsonBytes := {| valid _ := True |}.
Next Obligation. intros [s] _. eapply coded_as_coded, (coded_map _ _ _ mkMichelsonBytes), micheline_bytes_coded, bytes_coded. Qed.
#[global, program] Instance MichelsonInt_codec : Codec MichelsonInt := {| valid _ := True |}.
Next Obligation. intros [z] _. eapply coded_as_coded, (coded_map _ _ _ mkMichelsonInt), coded_preceded, zarith_coded. Qed.

Section args.
Context {Arg0 Arg1 : Type} {W0 : BinWriter Arg0} {R0 : NomReader Arg0} {C0 : Codec Arg0} {W1 : BinWriter Arg1} {R1 : NomReader Arg1} {C1 : Codec Arg1}.

Lemma prim_1_arg_coded t (a : Arg0) : valid a ->
  coded_as [MICHELINE_PRIM_1_ARG_NO_ANNOTS_TAG; t] (bin_write_prim_1_arg_no_annots t a) (nom_read (A := MichelinePrim1ArgNoAnnots Arg0 t)) (mkPrim1ArgNoAnnots a).
Proof. intros H. exact (coded_map _ _ _ mkPrim1ArgNoAnnots _ (coded_preceded _ _ _ _ (coded_done _ _ _ _ (round_trip a H)))). Qed.
#[global, program] Instance MichelsonPair_codec : Codec (MichelsonPair Arg0 Arg1) := {| valid p := valid (pair_0 p) /\ valid (pair_1 p) |}.
Next Obligation.
  intros [a b] H. exact (coded_map _ _ _ (fun m : MichelinePrim2ArgsNoAnnots Arg0 Arg1 PAIR_TAG => mkMichelsonPair (p2_arg1 m) (p2_arg2 m))
    (mkPrim2ArgsNoAnnots a b) (round_trip (mkPrim2ArgsNoAnnots a b) H)).
Qed.
Definition option_valid (o : MichelsonOption Arg0) : Prop := match opt o with Some a => valid a | None => True end.
#[global, program] Instance MichelsonOption_codec : Codec (MichelsonOption Arg0) := {| valid := option_valid |}.
Next Obligation.
  intros [[a|]] H.
  - eapply coded_as_coded. refine (coded_as_alt _ _ [_] _ _ _ _ _); [|exact (coded_map _ _ _ (fun m => mkMichelsonOption (Some (p1_arg m))) _ (prim_1_arg_coded SOME_TAG a H))].
    repeat constructor. apply rejects_map. apply (rejects_map _ (nom_tag _)). by apply rejects_byte.
  - eapply coded_as_coded. refine (coded_as_alt _ _ [] _ _ _ _ _); [done|].
    exact (coded_map _ _ _ (fun _ => mkMichelsonOption None) mkPrimNoArgsNoAnnots (coded_map _ _ _ (fun _ => mkPrimNoArgsNoAnnots) _ (coded_tag _))).
Qed.
End args.
Definition or_valid {Arg0 Arg1} {W0 : BinWriter Arg0} {R0 : NomReader Arg0} {C0 : Codec Arg0}
    {W1 : BinWriter Arg1} {R1 : NomReader Arg1} {C1 : Codec Arg1} (o : MichelsonOr Arg0 Arg1) : Prop := match o with Or_Left a => valid a | Or_Right a => valid a end.
#[global, program] Instance MichelsonOr_codec {Arg0 Arg1} {W0 : BinWriter Arg0} {R0 : NomReader Arg0} {C0 : Codec Arg0}
    {W1 : BinWriter Arg1} {R1 : NomReader Arg1} {C1 : Codec Arg1} : Codec (MichelsonOr Arg0 Arg1) := {| valid := or_valid |}.
Next Obligation.
  intros Arg0 Arg1 W0 R0 C0 W1 R1 C1 [a|a] H; eapply coded_as_coded.
  - refine (coded_as_alt _ _ [] _ _ _ _ _); [done|]. exact (coded_map _ _ _ (fun m => Or_Left (p1_arg m)) _ (prim_1_arg_coded LEFT_TAG a H)).
  - refine (coded_as_alt _ _ [_] _ _ _ _ (coded_map _ _ _ (fun m => Or_Right (p1_arg m)) _ (prim_1_arg_coded RIGHT_TAG a H))).
    repeat constructor. apply rejects_map, rejects_map, rejects_preceded. by apply rejects_second.
Qed.

(** * Tickets *)

Section ticket.
Context {Expr : Type} {W : BinWriter Expr} {R : NomReader Expr} {C : Codec Expr}.

#[global, program] Instance Ticket_codec : Codec (Ticket Expr) := {| valid t := valid (ticket_repr t) |}.
Next Obligation. intros [t] H. exact (coded_map _ _ _ mkTicket _ (round_trip t H)). Qed.

(** Values written alike are the same. *)
Lemma codec_injective (a b : Expr) bs rest rest' : valid a -> valid b -> written (bin_write a) bs -> forall bs', written (bin_write b) bs' -> bs ++ rest = bs' ++ rest' ->
  a = b /\ rest = rest'.
Proof.
  intros Ha Hb Wa bs' Wb E. destruct (round_trip a Ha) as [(ba&Wa'&Ra)|U]; [|by destruct (written_not_unwritten _ _ Wa U)].
  destruct (round_trip b Hb) as [(bb&Wb'&Rb)|U]; [|by destruct (written_not_unwritten _ _ Wb U)].
  rewrite (written_bytes _ _ _ Wa Wa'), (written_bytes _ _ _ Wb Wb') in E. specialize (Ra rest). specialize (Rb rest'). cbn in E, Ra, Rb. rewrite E in Ra.
  rewrite Ra in Rb. by injection Rb as -> ->.
Qed.
End ticket.
Lemma hash_of_bytes {crypto : CryptoCrate} {Expr} {W : BinWriter Expr} {R : NomReader Expr} {C : Codec Expr} (t : Ticket Expr) h :
  valid t -> ticket_hash t = Ok h ->
  exists b1 b2, written (bin_write (ticket_creator t)) b1 /\ written (bin_write (ticket_contents t)) b2 /\ digest_256 (b1 ++ b2) = Ok h.
Proof.
  destruct t as [[c [x i]]]. intros (Hc&Hx&_) H. unfold ticket_hash, mbind, M_bind in H. cbn [ticket_creator ticket_contents ticket_repr pair_0 pair_1] in *.
  destruct (round_trip c Hc) as [(b1&W1&_)|U]; [|destruct (U []) as (e&out&E); by rewrite E in H].
  destruct (round_trip x Hx) as [(b2&W2&_)|U]; [|rewrite W1 in H; destruct (U ([] ++ [] ++ b1)) as (e&out&E); by rewrite E in H].
  rewrite W1, W2 in H. exists b1, b2. repeat split; [exact W1|exact W2|]. cbn in H. destruct (digest_256 (b1 ++ b2)) as [d|e|p|]; [|done..].
  cbn in H. by destruct (length d =? TICKET_HASH_SIZE); [injection H as ->|].
Qed.

(** Two valid tickets that have the same hash have the same creator and the same contents, whatever their amounts, unless
    the two byte strings hashed are a collision of Blake2b. *)
Theorem ticket_hash_identifies {crypto : CryptoCrate} {Expr} {W : BinWriter Expr} {R : NomReader Expr} {C : Codec Expr} (t t' : Ticket Expr) h :
  valid t -> valid t' -> ticket_hash t = Ok h -> ticket_hash t' = Ok h ->
  (ticket_creator t = ticket_creator t' /\ ticket_contents t = ticket_contents t')
  \/ exists b b', b <> b' /\ digest_256 b = Ok h /\ digest_256 b' = Ok h.
Proof.
  intros Ht Ht' (b1&b2&W1&W2&D)%hash_of_bytes (b1'&b2'&W1'&W2'&D')%hash_of_bytes; [|done..].
  destruct (decide (b1 ++ b2 = b1' ++ b2')) as [E|Hne]; [left|right; eauto].
  destruct Ht as (Hc&Hx&_), Ht' as (Hc'&Hx'&_).
  destruct (codec_injective _ _ _ _ _ Hc Hc' W1 _ W1' E) as [E1 ->]. split; [exact E1|].
  by destruct (codec_injective _ _ _ [] [] Hx Hx' W2 _ W2' eq_refl) as [E2 _].
Qed.

(** * Notation of accounts *)

Section b58.
Context {b58 : Base58Crate} {blaws : Base58Laws b58}.

Lemma prefix_is t h : starts_with (base58check_prefix t) (base58check_prefix t ++ h) = true.
Proof. apply bool_decide_eq_true_2. by exists h. Qed.
Lemma prefix_is_not t t' h : length h = hash_size t' -> t <> t' -> starts_with (base58check_prefix t) (base58check_prefix t' ++ h) = false.
Proof. intros Hh Hne. apply bool_decide_eq_false_2. intros Hp. by apply Hne, (b58_prefixes t t' h). Qed.
Ltac notation_read H := unfold pkh_from_b58check, public_key_from_b58check, contract_from_b58check, smart_rollup_from_b58check; cbn [pkh_to_b58check contract_to_b58check];
  rewrite b58_decoded by exact H; cbn; rewrite ?prefix_is, ?(prefix_is_not _ _ _ H) by done; rewrite ?b58_hash by exact H; try done.
Lemma pkh_notation pkh : pkh_valid pkh -> pkh_from_b58check (pkh_to_b58check pkh) = Ok pkh.
Proof. destruct pkh as [h|h|h]; intros H; notation_read H. Qed.
Lemma public_key_notation pk : public_key_valid pk -> public_key_from_b58check (public_key_to_b58check pk) = Ok pk.
Proof. destruct pk as [h|h|h]; intros H; unfold public_key_to_b58check; notation_read H. Qed.
Lemma smart_rollup_notation a : valid a -> smart_rollup_from_b58check (smart_rollup_to_b58check a) = Ok a.
Proof. destruct a as [h]. intros H. unfold smart_rollup_to_b58check. cbn in *. notation_read H. Qed.

(** The notation of an account is read back as the account: implicit accounts of the three kinds of keys and originated contracts
    are told apart by their prefixes. *)
Theorem contract_notation c : contract_valid c -> contract_from_b58check (contract_to_b58check c) = Ok c.
Proof.
  destruct c as [pkh|h]; intros H; [|notation_read H]. unfold contract_from_b58check. cbn [contract_to_b58check]. rewrite pkh_notation by done.
  destruct pkh as [h|h|h]; cbn [pkh_to_b58check]; rewrite b58_decoded by exact H; cbn; by rewrite (prefix_is_not _ _ _ H).
Qed.
End b58.
End proofs.
