(* ===== verification/SdkMessages.v ===== *)
(** Messages between layer one and a rollup.

    Models [encoding/src/inbox.rs] and [outbox.rs]: the messages a kernel receives in its inbox, the frame of external messages, and the
    messages it sends to layer one.  The encoding of an optional whitelist is generated by the crate tezos_data_encoding ([Whitelists]). *)

From S2P Require Import Prelude Endian SdkNom SdkMicheline SdkMichelineProps SdkMichelson.

(** * Messages *)

Record Transfer (Expr : Type) : Type := mkTransfer { payload : Expr; sender : bytes; source : PublicKeyHash; destination : SmartRollupAddress }.
Arguments mkTransfer {_} _ _ _ _.
Arguments payload {_} _.
Arguments sender {_} _.
Arguments source {_} _.
Arguments destination {_} _.
Record InfoPerLevel : Type := mkInfoPerLevel { predecessor_timestamp : Timestamp; predecessor : bytes }.
Inductive InternalInboxMessage (Expr : Type) : Type :=
  | Internal_Transfer (t : Transfer Expr)
  | StartOfLevel
  | EndOfLevel
  | Internal_InfoPerLevel (i : InfoPerLevel).
Arguments Internal_Transfer {_} _.
Arguments StartOfLevel {_}.
Arguments EndOfLevel {_}.
Arguments Internal_InfoPerLevel {_} _.
Inductive InboxMessageRepr (Expr : Type) : Type := | Repr_Internal (m : InternalInboxMessage Expr) | Repr_External.
Arguments Repr_Internal {_} _.
Arguments Repr_External {_}.
Inductive InboxMessage (Expr : Type) : Type := | Internal (m : InternalInboxMessage Expr) | External (m : bytes).
Arguments Internal {_} _.
Arguments External {_} _.
Inductive ExternalMessageFrame : Type := | Targetted (address : SmartRollupAddress) (contents : bytes).
Definition TARGETTED_TAG : byte := Byte.x00.

Record OutboxMessageTransaction (Expr : Type) : Type := mkOutboxTransaction { parameters : Expr; tx_destination : Contract; entrypoint : Entrypoint }.
Arguments mkOutboxTransaction {_} _ _ _.
Arguments parameters {_} _.
Arguments tx_destination {_} _.
Arguments entrypoint {_} _.
Record OutboxMessageTransactionBatch (Expr : Type) : Type := mkBatch { batch : list (OutboxMessageTransaction Expr) }.
Arguments mkBatch {_} _.
Arguments batch {_} _.
Record OutboxMessageWhitelistUpdate : Type := mkWhitelistUpdate { whitelist : option (list PublicKeyHash) }.
Inductive OutboxMessage (Expr : Type) : Type :=
  | AtomicTransactionBatch (b : OutboxMessageTransactionBatch Expr)
  | WhitelistUpdate (w : OutboxMessageWhitelistUpdate).
Arguments AtomicTransactionBatch {_} _.
Arguments WhitelistUpdate {_} _.

Inductive InvalidWhitelist : Set := | EmptyWhitelist | DuplicatedKeys.
#[global] Instance pkh_eq_dec : EqDecision PublicKeyHash.
Proof. solve_decision. Defined.
(** A set of the keys seen so far. *)
Fixpoint has_unique_elements (uniq l : list PublicKeyHash) : bool :=
  match l with [] => true | x :: l => if decide (x ∈ uniq) then false else has_unique_elements (x :: uniq) l end.
Definition whitelist_try_from (w : option (list PublicKeyHash)) : outcome InvalidWhitelist OutboxMessageWhitelistUpdate :=
  match w with
  | Some l =>
      match l with
      | [] => Err EmptyWhitelist
      | _ => if negb (has_unique_elements [] l) then Err DuplicatedKeys else Ok (mkWhitelistUpdate (Some l))
      end
  | None => Ok (mkWhitelistUpdate None)
  end.

Section codecs.
Context {nom : NomCrate} {de : DataEncoding} {Expr : Type} {W : BinWriter Expr} {R : NomReader Expr}.

#[global] Instance Transfer_read : NomReader (Transfer Expr) :=
  nom_map (nom_pair nom_read (nom_pair (hash_read ContractKt1Hash) (nom_pair nom_read nom_read))) (fun '(p, (s, (src, d))) => mkTransfer p s src d).
#[global] Instance Transfer_write : BinWriter (Transfer Expr) := fun t =>
  _ ← bin_write (payload t); _ ← hash_write ContractKt1Hash (sender t); _ ← bin_write (source t); bin_write (destination t).
#[global] Instance InfoPerLevel_read : NomReader InfoPerLevel :=
  nom_map (nom_pair nom_read (hash_read BlockHash)) (fun '(t, p) => mkInfoPerLevel t p).
#[global] Instance InfoPerLevel_write : BinWriter InfoPerLevel := fun i =>
  _ ← bin_write (predecessor_timestamp i); hash_write BlockHash (predecessor i).
#[global] Instance InternalInboxMessage_read : NomReader (InternalInboxMessage Expr) := nom_tagged [
  (Byte.x00, nom_map nom_read Internal_Transfer); (Byte.x01, nom_success StartOfLevel); (Byte.x02, nom_success EndOfLevel);
  (Byte.x03, nom_map nom_read Internal_InfoPerLevel)].
#[global] Instance InternalInboxMessage_write : BinWriter (InternalInboxMessage Expr) := fun m =>
  match m with
  | Internal_Transfer t => _ ← enc_u8 Byte.x00; bin_write t
  | StartOfLevel => _ ← enc_u8 Byte.x01; mret tt
  | EndOfLevel => _ ← enc_u8 Byte.x02; mret tt
  | Internal_InfoPerLevel i => _ ← enc_u8 Byte.x03; bin_write i
  end.
#[global] Instance InboxMessageRepr_read : NomReader (InboxMessageRepr Expr) := nom_tagged [
  (Byte.x00, nom_map nom_read Repr_Internal); (Byte.x01, nom_success Repr_External)].
#[global] Instance InboxMessageRepr_write : BinWriter (InboxMessageRepr Expr) := fun m =>
  match m with Repr_Internal i => _ ← enc_u8 Byte.x00; bin_write i | Repr_External => _ ← enc_u8 Byte.x01; mret tt end.

(** [InboxMessage::parse], [InboxMessage::serialize]. *)
Definition parse : reader (InboxMessage Expr) := fun input =>
  '(repr, remaining) ← nom_read input;
  match repr with
  | Repr_Internal i => Ok (Internal i, remaining)
  | Repr_External => nom_map nom_rest External remaining
  end.
Definition serialize (m : InboxMessage Expr) : writer :=
  match m with
  | Internal m => _ ← bin_write (Repr_Internal m); mret tt
  | External m => _ ← bin_write (Repr_External (Expr := Expr)); ((fun output => (Ok tt, output ++ m)) : writer)
  end.

(** [ExternalMessageFrame::parse]: [finish] forgets what is left. *)
Definition frame_parse (input : bytes) : outcome NomErr ExternalMessageFrame :=
  '(message, _) ← nom_map (nom_preceded (nom_tag [TARGETTED_TAG]) (nom_pair nom_read nom_rest)) (fun '(address, contents) => Targetted address contents) input;
  Ok message.
#[global] Instance ExternalMessageFrame_write : BinWriter ExternalMessageFrame := fun f =>
  match f with Targetted address contents => _ ← enc_put [TARGETTED_TAG]; _ ← bin_write address; _ ← enc_put contents; mret tt end.

#[global] Instance OutboxMessageTransaction_read : NomReader (OutboxMessageTransaction Expr) :=
  nom_map (nom_pair nom_read (nom_pair nom_read nom_read)) (fun '(p, (d, e)) => mkOutboxTransaction p d e).
#[global] Instance OutboxMessageTransaction_write : BinWriter (OutboxMessageTransaction Expr) := fun t =>
  _ ← bin_write (parameters t); _ ← bin_write (tx_destination t); bin_write (entrypoint t).
#[global] Instance Batch_read : NomReader (OutboxMessageTransactionBatch Expr) := nom_map (nom_dynamic (nom_list nom_read)) mkBatch.
#[global] Instance Batch_write : BinWriter (OutboxMessageTransactionBatch Expr) := fun b => enc_dynamic (enc_list bin_write) (batch b).
(** [OutboxMessage::nom_read], [OutboxMessage::bin_write]. *)
#[global] Instance OutboxMessage_read {wl : NomReader OutboxMessageWhitelistUpdate} : NomReader (OutboxMessage Expr) := nom_tagged [
  (Byte.x00, nom_map nom_read AtomicTransactionBatch); (Byte.x02, nom_map nom_read WhitelistUpdate)].
#[global] Instance OutboxMessage_write {wl : BinWriter OutboxMessageWhitelistUpdate} : BinWriter (OutboxMessage Expr) := fun m =>
  match m with AtomicTransactionBatch b => _ ← enc_u8 Byte.x00; bin_write b | WhitelistUpdate w => _ ← enc_u8 Byte.x02; bin_write w end.
End codecs.

(** * Reading back *)

Section proofs.
Context {nom : NomCrate} {de : DataEncoding} {nlaws : NomLaws nom} {dlaws : DataLaws de} {Expr : Type} {W : BinWriter Expr} {R : NomReader Expr} {C : Codec Expr}.

(** A variant of an enumeration. *)
Ltac variant := eapply coded_as_coded, coded_variant;
  [repeat first [apply list_elem_of_here | apply list_elem_of_further] | repeat constructor; set_solver |].

#[global, program] Instance Transfer_codec : Codec (Transfer Expr) :=
  {| valid t := valid (payload t) /\ length (sender t) = hash_size ContractKt1Hash /\ valid (source t) /\ valid (destination t) |}.
Next Obligation.
  intros [p s src d] (Hp&Hs&Hsrc&Hd). refine (coded_map _ _ _ (fun '(p, (s, (src, d))) => mkTransfer p s src d) (p, (s, (src, d))) _).
  apply coded_pair; [by apply round_trip|]. apply coded_pair; [by apply coded_hash|]. apply coded_pair; by apply round_trip.
Qed.
#[global, program] Instance InfoPerLevel_codec : Codec InfoPerLevel :=
  {| valid i := valid (predecessor_timestamp i) /\ length (predecessor i) = hash_size BlockHash |}.
Next Obligation.
  intros [t p] (Ht&Hp). refine (coded_map _ _ _ (fun '(t, p) => mkInfoPerLevel t p) (t, p) _). apply coded_pair; [by apply round_trip|by apply coded_hash].
Qed.
Definition internal_valid (m : InternalInboxMessage Expr) : Prop :=
  match m with Internal_Transfer t => valid t | Internal_InfoPerLevel i => valid i | _ => True end.
#[global, program] Instance InternalInboxMessage_codec : Codec (InternalInboxMessage Expr) := {| valid := internal_valid |}.
Next Obligation.
  intros [t| | |i] H; variant.
  - by apply (coded_map _ _ _ Internal_Transfer), round_trip.
  - apply coded_success.
  - apply coded_success.
  - by apply (coded_map _ _ _ Internal_InfoPerLevel), round_trip.
Qed.
Definition repr_valid (m : InboxMessageRepr Expr) : Prop := match m with Repr_Internal i => internal_valid i | Repr_External => True end.
#[global, program] Instance InboxMessageRepr_codec : Codec (InboxMessageRepr Expr) := {| valid := repr_valid |}.
Next Obligation.
  intros [i|] H; variant.
  - by apply (coded_map _ _ _ Repr_Internal), round_trip.
  - apply coded_success.
Qed.

(** C31: A message of the inbox whose parts have their sizes is read back, if it can be written at all: the transfers of layer one and the
    messages about levels with what follows them untouched, external messages with all the bytes they hold. *)
Theorem inbox_message_round_trip (m : InboxMessage Expr) : match m with Internal i => valid i | External _ => True end ->
  coded_exactly (serialize m) parse m.
Proof.
  destruct m as [i|m]; intros H.
  - destruct (@round_trip _ _ _ _ _ InboxMessageRepr_codec (Repr_Internal i) H) as [(bs&Hw&Hr)|U]; [left|right; by apply unwritten_first].
    exists bs. split; [by apply written_done|]. specialize (Hr []). rewrite app_nil_r in Hr. unfold parse. cbn in Hr. by rewrite Hr.
  - destruct (@round_trip _ _ _ _ _ InboxMessageRepr_codec Repr_External I) as [(bs&Hw&Hr)|U]; [left|right; by apply unwritten_first].
    exists (bs ++ m). split; [by apply written_then|]. unfold parse. cbn in Hr. rewrite Hr. cbn. by rewrite map_read, rest_read.
Qed.
Lemma frame_round_trip address contents : valid address ->
  (exists bs, written (bin_write (Targetted address contents)) bs /\ frame_parse bs = Ok (Targetted address contents))
  \/ unwritten (bin_write (Targetted address contents)).
Proof.
  intros H. destruct (round_trip address H) as [(bs&Hw&Hr)|U]; [left|right; eapply unwritten_then, unwritten_first, U; apply put_written].
  exists ([TARGETTED_TAG] ++ bs ++ contents). split.
  - apply written_then; [apply put_written|]. apply written_then; [done|]. apply written_done, put_written.
  - unfold frame_parse. rewrite map_read, preceded_read, tag_read. cbn. rewrite pair_read. cbn in Hr. rewrite Hr. cbn. by rewrite rest_read.
Qed.

#[global, program] Instance OutboxMessageTransaction_codec : Codec (OutboxMessageTransaction Expr) :=
  {| valid t := valid (parameters t) /\ valid (tx_destination t) /\ valid (entrypoint t) |}.
Next Obligation.
  intros [p d e] (Hp&Hd&He). refine (coded_map _ _ _ (fun '(p, (d, e)) => mkOutboxTransaction p d e) (p, (d, e)) _).
  apply coded_pair; [by apply round_trip|]. apply coded_pair; by apply round_trip.
Qed.
(** A transaction takes some bytes, those of its destination at least. *)
Lemma pair_not_empty {A B} (w1 w2 : writer) (r1 : reader A) (r2 : reader B) a b : coded w1 r1 a -> coded w2 r2 b ->
  ~ written w1 [] \/ ~ written w2 [] -> ~ written (_ ← w1; w2) [].
Proof.
  intros [(b1&W1&_)|U1] H2 Hne H; [|eapply written_not_unwritten, unwritten_first, U1; exact H].
  destruct H2 as [(b2&W2&_)|U2]; [|eapply written_not_unwritten, unwritten_then, U2; [exact H|exact W1]].
  pose proof (written_bytes _ _ _ H (written_then _ _ _ _ W1 W2)) as E. cbn in E. symmetry in E. apply app_nil in E as [-> ->]. by destruct Hne.
Qed.
Lemma transaction_not_empty (t : OutboxMessageTransaction Expr) : valid t -> ~ written (bin_write t) [].
Proof.
  destruct t as [p d e]. intros (Hp&Hd&He). eapply pair_not_empty; [by apply round_trip|exact (coded_pair _ _ _ _ _ _ _ (round_trip d Hd) (round_trip e He))|right].
  eapply pair_not_empty; [by apply round_trip|by apply round_trip|left]. by apply contract_not_empty.
Qed.
#[global, program] Instance Batch_codec : Codec (OutboxMessageTransactionBatch Expr) := {| valid b := Forall valid (batch b) |}.
Next Obligation.
  intros [l] H. refine (coded_map _ _ _ mkBatch l _). apply dynamic_coded, list_coded. eapply Forall_impl; [exact H|]. intros t Ht.
  split; [by apply round_trip|by apply transaction_not_empty].
Qed.

(** A message of the outbox whose parts are valid is read back, whatever follows it, if it can be written at all: a batch with its transactions in order,
    and a whitelist when the generated encoding of whitelists reads it back. *)
Theorem outbox_message_round_trip {wlw : BinWriter OutboxMessageWhitelistUpdate} {wlr : NomReader OutboxMessageWhitelistUpdate} (m : OutboxMessage Expr) :
  match m with AtomicTransactionBatch b => Forall valid (batch b) | WhitelistUpdate w => coded (bin_write w) nom_read w end -> coded (bin_write m) nom_read m.
Proof.
  destruct m as [b|w]; intros H; variant.
  - by apply (coded_map _ _ _ AtomicTransactionBatch), round_trip.
  - by apply (coded_map _ _ _ WhitelistUpdate).
Qed.

(** Whitelists hold some keys, each once, or are absent. *)
Lemma has_unique_elements_spec uniq l : has_unique_elements uniq l = true <-> NoDup l /\ forall x, x ∈ l -> x ∉ uniq.
Proof.
  revert uniq. induction l as [|x l IH]; intros uniq; cbn; [split; [split; [constructor|set_solver]|done]|]. rewrite NoDup_cons.
  destruct (decide (x ∈ uniq)) as [Hx|Hx]; [split; [done|]; intros [_ H]; destruct (H x); [left|done]|]. rewrite IH. set_solver.
Qed.
Lemma whitelist_spec w u : whitelist_try_from w = Ok u <-> whitelist u = w /\ match w with Some l => l <> [] /\ NoDup l | None => True end.
Proof.
  destruct u as [u], w as [[|x l]|]; cbn -[has_unique_elements]; [naive_solver| |naive_solver].
  destruct (has_unique_elements [] (x :: l)) eqn:E; cbn.
  - apply has_unique_elements_spec in E as [E _]. naive_solver.
  - split; [done|]. intros [_ [_ Hnd]]. assert (has_unique_elements [] (x :: l) = true); [|congruence]. apply has_unique_elements_spec. set_solver.
Qed.
End proofs.
