(* ===== verification/SdkDac.v ===== *)
(** Data availability: payloads as trees of pages.

    Models [encoding/src/dac.rs], [dac/pages.rs] and [dac/certificate.rs].  A payload is cut into pages, which are known by their
    hashes; pages of hashes are built on top of them until one hash is left, the root, which the members of a committee
    sign.  A kernel is given the root, and reveals the pages from the top.  The kernel runs on a machine whose [usize] has 32 bits.  Blake2b,
    the signatures and the encoding crate are parameters; so is the source of the pages ([RevealCore]), about which nothing is assumed but that it fills no more than
    the buffer it is given. *)

From S2P Require Import Prelude Endian KernelPath KernelHost KernelRuntime SdkNom SdkMicheline SdkMichelson.

(** * Chunks *)

(** [slice::chunks]. *)
Fixpoint chunks_of {A} (fuel n : nat) (l : list A) : list (list A) :=
  match fuel, l with
  | S fuel, _ :: _ => take n l :: chunks_of fuel n (drop n l)
  | _, _ => []
  end.
Definition chunks {A} (n : nat) (l : list A) : list (list A) := chunks_of (length l) n l.
(** [slice::chunks_exact]: what is left over is not visited. *)
Fixpoint chunks_exact_of {A} (fuel n : nat) (l : list A) : list (list A) :=
  match fuel with
  | S fuel => if n <=? length l then take n l :: chunks_exact_of fuel n (drop n l) else []
  | O => []
  end.
Definition chunks_exact {A} (n : nat) (l : list A) : list (list A) := chunks_exact_of (length l) n l.

(** * Pages (pages.rs) *)

Definition PREIMAGE_HASH_SIZE : nat := 33.
Definition MAX_PAGE_SIZE : nat := N.to_nat 4096.
Definition PAGE_TAG_SIZE : nat := 1.
Definition PAGE_SIZE_PREFIX_SIZE : nat := 4.
Definition PAGE_PREFIX_SIZE : nat := PAGE_TAG_SIZE + PAGE_SIZE_PREFIX_SIZE.
Definition MAX_USABLE_PAGE_SIZE : nat := MAX_PAGE_SIZE - PAGE_PREFIX_SIZE.
Definition MAX_CONTENT_SIZE : nat := MAX_USABLE_PAGE_SIZE.
Definition MAX_HASHES_PER_PAGE : nat := MAX_USABLE_PAGE_SIZE / PREIMAGE_HASH_SIZE.

Record PreimageHash : Type := mkPreimageHash { preimage_hash : bytes }.
(** [AsRef]: a reference to 33 bytes. *)
Definition preimage_as_ref {E} (h : PreimageHash) : outcome E bytes := if length (preimage_hash h) =? PREIMAGE_HASH_SIZE then Ok (preimage_hash h) else Panic PUnwrap.
Record V0ContentPage : Type := mkContentPage { contents : bytes }.
Record V0HashPage : Type := mkHashPage { hashes : list PreimageHash }.
Inductive Page : Type := | Page_V0ContentPage (p : V0ContentPage) | Page_V0HashPage (p : V0HashPage).

Definition content_pages (input : bytes) : list V0ContentPage := map mkContentPage (chunks MAX_CONTENT_SIZE input).
Definition hash_pages (hashes : list bytes) : list V0HashPage := map (fun hs => mkHashPage (map mkPreimageHash hs)) (chunks MAX_HASHES_PER_PAGE hashes).

(** [Blake2bError::Other] *)
Class DigestErrors {crypto : CryptoCrate} := digest_other : CryptoErr.

Section pages.
Context {nom : NomCrate} {de : DataEncoding} {crypto : CryptoCrate} {derr : DigestErrors}.

(** [derive(BinWriter)]. *)
#[global] Instance PreimageHash_write : BinWriter PreimageHash := fun h => enc_sized PREIMAGE_HASH_SIZE enc_bytes (preimage_hash h).
#[global] Instance V0ContentPage_write : BinWriter V0ContentPage := fun p => enc_dynamic (enc_list enc_u8) (contents p).
#[global] Instance V0HashPage_write : BinWriter V0HashPage := fun p => enc_dynamic (enc_list bin_write) (hashes p).
#[global] Instance Page_write : BinWriter Page := fun p =>
  match p with Page_V0ContentPage p => _ ← enc_u8 Byte.x00; bin_write p | Page_V0HashPage p => _ ← enc_u8 Byte.x01; bin_write p end.

(** [copy_from_slice] panics when the digest has not 32 bytes. *)
Definition make_preimage_hash (content : bytes) : outcome CryptoErr bytes :=
  if MAX_PAGE_SIZE <? length content then Err digest_other
  else
    hash ← digest_256 content;
    if length hash =? PREIMAGE_HASH_SIZE - 1 then Ok (Byte.x00 :: hash) else Panic PSlice.

(** The callback changes a state of its own. *)
Context {L : Type} (handle : PreimageHash -> bytes -> L -> L).
(** The body of the loops of [prepare_preimages]. *)
Definition prepare_page (page : Page) : M L CryptoErr PreimageHash :=
  let '(r, encoded) := bin_write page [] in
  _ ← (match r with Ok _ => mret tt | Err _ => panicked PUnwrap | Panic p => panicked p | Diverge => diverge end);
  hash ← lift (make_preimage_hash encoded);
  let hash := mkPreimageHash hash in
  _ ← ((fun l => (Ok tt, handle hash encoded l)) : M L CryptoErr unit);
  mret hash.
(** The loop over the levels of hashes: each level is shorter than the one below. *)
Fixpoint prepare_levels (fuel : nat) (hashes : list PreimageHash) : M L CryptoErr (list PreimageHash) :=
  if 1 <? length hashes then
    match fuel with
    | O => diverge
    | S fuel =>
        hashes ← mapM (fun hash_page => prepare_page (Page_V0HashPage (mkHashPage hash_page))) (chunks MAX_HASHES_PER_PAGE hashes);
        prepare_levels fuel hashes
    end
  else mret hashes.
Definition prepare_preimages (content : bytes) : M L CryptoErr PreimageHash :=
  hashes ← mapM (fun chunk => prepare_page (Page_V0ContentPage (mkContentPage chunk))) (chunks MAX_CONTENT_SIZE content);
  hashes ← prepare_levels (length hashes) hashes;
  lift (expect PUnwrap (head hashes)).
End pages.

(** ** Borrowed pages *)

Inductive SlicePageError : Set := | InvalidTag (tag : option byte) | InvalidSizePrefix.
Inductive SlicePage : Type := | Slice_V0ContentPage (inner : bytes) | Slice_V0HashPage (inner : bytes).

(** [4 + size] on 32 bits, and [&slice[4..end_offset]]. *)
Definition slice_from_4 (slice : bytes) (size : N) : outcome SlicePageError bytes :=
  let end_offset := ((4 + size) mod 2 ^ 32)%N in
  if (end_offset <? 4)%N then Panic PSlice else Ok (take (N.to_nat end_offset - 4) (drop 4 slice)).
Definition content_parse (slice : bytes) : outcome SlicePageError bytes :=
  if length slice <? 4 then Err InvalidSizePrefix
  else
    let size := of_be_bytes (take 4 slice) in
    let end_offset := ((4 + size) mod 2 ^ 32)%N in
    if (N.of_nat (length slice) <? end_offset)%N then Err InvalidSizePrefix else slice_from_4 slice size.
Definition hashes_parse (slice : bytes) : outcome SlicePageError bytes :=
  if length slice <? 4 then Err InvalidSizePrefix
  else
    let size := of_be_bytes (take 4 slice) in
    let end_offset := ((4 + size) mod 2 ^ 32)%N in
    if (N.of_nat (length slice) <? end_offset)%N || negb (size mod N.of_nat PREIMAGE_HASH_SIZE =? 0)%N then Err InvalidSizePrefix else slice_from_4 slice size.
Definition slice_page_try_from (value : bytes) : outcome SlicePageError SlicePage :=
  match value with
  | Byte.x00 :: rest => inner ← content_parse rest; Ok (Slice_V0ContentPage inner)
  | Byte.x01 :: rest => inner ← hashes_parse rest; Ok (Slice_V0HashPage inner)
  | _ => Err (InvalidTag (head value))
  end.
(** [V0SliceHashPage::hashes]. *)
Definition slice_hashes (inner : bytes) : list bytes := chunks_exact PREIMAGE_HASH_SIZE inner.

(** * Revealing *)

(** The host function: the hash, the size of the buffer; the code, and the bytes written in the buffer. *)
Class RevealCore := core_reveal_preimage : bytes -> nat -> Z * bytes.
Class RevealLaws (rc : RevealCore) := reveal_fits hash max n bs : core_reveal_preimage hash max = (Z.of_nat n, bs) -> length bs = n /\ n <= max.

Section reveal.
Context {S : Type} {core : SmartRollupCore S} {rc : RevealCore}.

(** [Runtime::reveal_preimage], with the buffer. *)
Definition reveal_preimage (hash buffer : bytes) : M S RuntimeError (nat * bytes) := fun s =>
  let '(c, bs) := core_reveal_preimage hash (length buffer) in
  (n ← host_result c; Ok (n, bs ++ drop (length bs) buffer), s).
(** [fetch_page_raw]: the page, and the rest of the buffer. *)
Definition fetch_page_raw (hash buffer : bytes) : M S RuntimeError (bytes * bytes) :=
  '(size, buffer) ← reveal_preimage hash buffer;
  if length buffer <? size then panicked PSlice else mret (take size buffer, drop size buffer).

(** [reveal_loop], on the levels left, with the buffer, which is used again; [save_content] may change the state.  Errors are messages. *)
Fixpoint reveal_levels (levels : nat) (hash rest : bytes) (save_content : bytes -> M S bytes unit) : M S bytes bytes :=
  match levels with
  | O => fail (str "DAC preimage tree contains too many levels.")
  | Datatypes.S levels =>
      '(raw, rest) ← M_map_err (fun _ => str "Failed to retrieve preimage") (fetch_page_raw hash rest);
      page ← lift (map_err (fun _ => str "Unable to decode DAC page: Decode into SlicePage failed") (slice_page_try_from raw));
      match page with
      | Slice_V0HashPage inner =>
          rest ← foldl (fun m hash => rest ← m; reveal_levels levels hash rest save_content) (mret rest) (slice_hashes inner);
          mret (raw ++ rest)
      | Slice_V0ContentPage content => _ ← save_content content; mret (raw ++ rest)
      end
  end.
Definition reveal_loop (level : nat) (hash rest : bytes) (max_dac_levels : nat) (save_content : bytes -> M S bytes unit) : M S bytes unit :=
  _ ← reveal_levels (max_dac_levels - level) hash rest save_content; mret tt.

(** * Certificates (certificate.rs) *)

Inductive CertificateError {crypto : CryptoCrate} : Type :=
  | InsufficientNumberOfSignatures (threshold actual : nat)
  | SignatureVerificationFailed (e : CryptoErr)
  | InvalidAggregateSignature
  | StorageError (path : bytes) (e : RuntimeError)
  | RevealError (hash : PreimageHash) (e : RuntimeError)
  | PageError (e : SlicePageError)
  | PayloadTooLarge.
Record V0Certificate : Type := mkV0Certificate { root_hash : PreimageHash; aggregated_signature : bytes; witnesses : Z }.
Inductive Certificate : Type := | Certificate_V0 (c : V0Certificate).

Context {crypto : CryptoCrate}.

(** [BlsSignature::aggregate_verify]. *)
Definition verify (aggregate_verify : bytes -> list (bytes * bytes) -> outcome CryptoErr bool) (c : Certificate) (committee_members_pks : list bytes) (threshold : nat) :
    outcome CertificateError unit :=
  let '(Certificate_V0 c) := c in
  root ← preimage_as_ref (root_hash c);
  let signers := omap (fun '(i, member) => if Z.testbit (witnesses c) (Z.of_nat i) then Some (root, member) else None)
    (imap pair committee_members_pks) in
  let num_of_signatures := length signers in
  if num_of_signatures <? threshold then Err (InsufficientNumberOfSignatures threshold num_of_signatures)
  else
    is_valid_signature ← map_err SignatureVerificationFailed (aggregate_verify (aggregated_signature c) signers);
    if is_valid_signature : bool then Ok tt else Err InvalidAggregateSignature.

Definition MAX_TOP_LEVEL_HASHES : nat := 20.
Definition MAX_REVEALS : nat := 1 + MAX_TOP_LEVEL_HASHES + MAX_HASHES_PER_PAGE * MAX_TOP_LEVEL_HASHES.

(** [fetch_page], with the whole buffer, which is used again. *)
Definition fetch_page (hash buffer : bytes) : M S CertificateError (SlicePage * bytes) :=
  '(page, rest) ← M_map_err (RevealError (mkPreimageHash hash)) (fetch_page_raw hash buffer);
  slice ← lift (map_err PageError (slice_page_try_from page));
  mret (slice, page ++ rest).

(** The loop of [reveal_to_store]: the hashes to reveal are a queue, [revealed] of which are done.  The queue never holds more
    than [MAX_REVEALS] hashes. *)
Fixpoint reveal_hashes (fuel : nat) (path : bytes) (revealed written : nat) (hashes : list bytes) (buffer : bytes) : M S CertificateError nat :=
  match hashes !! revealed with
  | None => mret written
  | Some hash =>
      match fuel with
      | O => diverge
      | Datatypes.S fuel =>
          '(page, buffer) ← fetch_page hash buffer;
          match page with
          | Slice_V0HashPage inner =>
              let num_allowed := MAX_REVEALS - length hashes in
              if num_allowed * PREIMAGE_HASH_SIZE <? length inner then fail PayloadTooLarge
              else reveal_hashes fuel path (Datatypes.S revealed) written (hashes ++ slice_hashes inner) buffer
          | Slice_V0ContentPage content =>
              _ ← M_map_err (StorageError path) (store_write path content written);
              reveal_hashes fuel path (Datatypes.S revealed) (written + length content) hashes buffer
          end
      end
  end.
Definition reveal_to_store (c : Certificate) (path : bytes) : M S CertificateError nat :=
  _ ← M_map_err (StorageError path) (store_delete_value path);
  let buffer := repeat Byte.x00 MAX_PAGE_SIZE in
  let '(Certificate_V0 c) := c in
  root ← lift (preimage_as_ref (root_hash c));
  reveal_hashes (Datatypes.S MAX_REVEALS) path 0 0 [root] buffer.
End reveal.
