(* ===== verification/SdkDacProps.v ===== *)
(** Payloads are revealed as they were prepared, and what is revealed is bounded whatever the pages. *)

From S2P Require Import Prelude Endian KernelPath KernelHost KernelRuntime SdkNom SdkMicheline SdkMichelson SdkDac.

(** * Chunks *)

Section chunks.
Context {A : Type}.
Implicit Types (l : list A) (n : nat).

Lemma chunks_of_join fuel n l : n <> 0 -> length l <= fuel -> mjoin (chunks_of fuel n l) = l.
Proof.
  intros Hn. revert l. induction fuel as [|fuel IH]; intros [|x l] H; try done; [cbn in H; lia|]. cbn [chunks_of mjoin list_join].
  change (mjoin (take n (x :: l) :: chunks_of fuel n (drop n (x :: l)))) with (take n (x :: l) ++ mjoin (chunks_of fuel n (drop n (x :: l)))).
  rewrite IH, take_drop; [done|]. rewrite length_drop. cbn in *. lia.
Qed.
Lemma chunks_join n l : n <> 0 -> mjoin (chunks n l) = l.
Proof. intros Hn. by apply chunks_of_join. Qed.
Lemma chunks_of_sizes fuel n l : n <> 0 -> Forall (fun c => c <> [] /\ length c <= n) (chunks_of fuel n l).
Proof.
  intros Hn. revert l. induction fuel as [|fuel IH]; intros [|x l]; try done. cbn [chunks_of]. constructor; [|apply IH]. split; [by destruct n|].
  rewrite length_take. lia.
Qed.
Lemma chunks_of_number fuel n l : n <> 0 -> length l <= fuel -> length l <= n * length (chunks_of fuel n l) < length l + n.
Proof.
  intros Hn. revert l. induction fuel as [|fuel IH]; intros [|x l] H; [cbn; lia|cbn in H; lia|cbn; lia|]. cbn [chunks_of].
  specialize (IH (drop n (x :: l))). rewrite length_drop in IH. cbn [length] in *. destruct (Nat.le_gt_cases (S (length l)) n).
  - replace (drop n (x :: l)) with (@nil A) in * by (symmetry; apply drop_ge; cbn; lia).
    destruct fuel; cbn; lia.
  - lia.
Qed.
Lemma chunks_number n l : n <> 0 -> length l <= n * length (chunks n l) < length l + n.
Proof. intros Hn. by apply chunks_of_number. Qed.
Lemma chunks_exact_of_join fuel n (ls : list (list A)) : n <> 0 -> Forall (fun c => length c = n) ls -> length (mjoin ls) <= fuel ->
  chunks_exact_of fuel n (mjoin ls) = ls.
Proof.
  intros Hn H. revert fuel. induction H as [|c ls Hc _ IH]; intros fuel Hf; [destruct fuel; [done|]; cbn; by destruct n|].
  change (mjoin (c :: ls)) with (c ++ mjoin ls) in *. rewrite length_app in Hf. destruct fuel as [|fuel]; [lia|]. cbn [chunks_exact_of].
  rewrite (proj2 (Nat.leb_le _ _)) by (rewrite length_app; lia). rewrite take_app_length', drop_app_length' by done. rewrite IH; [done|lia].
Qed.
Lemma chunks_exact_join n (ls : list (list A)) : n <> 0 -> Forall (fun c => length c = n) ls -> chunks_exact n (mjoin ls) = ls.
Proof. intros Hn H. by apply chunks_exact_of_join. Qed.
Lemma chunks_exact_of_number fuel n l : n <> 0 -> n * length (chunks_exact_of fuel n l) <= length l.
Proof.
  intros Hn. revert l. induction fuel as [|fuel IH]; intros l; [cbn; lia|]. cbn [chunks_exact_of]. destruct (Nat.leb_spec n (length l)); [|cbn; lia].
  specialize (IH (drop n l)). rewrite length_drop in IH. cbn [length]. lia.
Qed.
Lemma chunks_exact_number n l : n <> 0 -> n * length (chunks_exact n l) <= length l.
Proof. apply chunks_exact_of_number. Qed.
Lemma length_mjoin n (ls : list (list A)) : Forall (fun c => length c = n) ls -> length (mjoin ls) = n * length ls.
Proof. induction 1 as [|c ls Hc _ IH]; [cbn; lia|]. change (mjoin (c :: ls)) with (c ++ mjoin ls). rewrite length_app, IH, Hc. cbn. lia. Qed.
End chunks.

(** * Pages *)

(** How pages are written. *)
Definition content_bytes (c : bytes) : bytes := Byte.x00 :: be_bytes 4 (N.of_nat (length c)) ++ c.
Definition hashes_bytes (hs : list bytes) : bytes := Byte.x01 :: be_bytes 4 (N.of_nat (length (mjoin hs))) ++ mjoin hs.
Definition MAX_FITS : MAX_USABLE_PAGE_SIZE = N.to_nat 4091 := eq_refl.
Definition HASHES_FIT : MAX_HASHES_PER_PAGE = 123 := eq_refl.
Definition REVEALS : MAX_REVEALS = N.to_nat 2481 := eq_refl.

Lemma slice_prefix (bs : bytes) : length bs <= MAX_USABLE_PAGE_SIZE ->
  length (be_bytes 4 (N.of_nat (length bs)) ++ bs) = 4 + length bs /\
  of_be_bytes (take 4 (be_bytes 4 (N.of_nat (length bs)) ++ bs)) = N.of_nat (length bs) /\
  ((4 + N.of_nat (length bs)) mod 2 ^ 32 = 4 + N.of_nat (length bs))%N /\
  slice_from_4 (be_bytes 4 (N.of_nat (length bs)) ++ bs) (N.of_nat (length bs)) = Ok bs.
Proof.
  intros H. rewrite MAX_FITS in H. assert (Hl : length (be_bytes 4 (N.of_nat (length bs))) = 4) by apply length_be_bytes.
  assert (Hmod : ((4 + N.of_nat (length bs)) mod 2 ^ 32 = 4 + N.of_nat (length bs))%N) by (apply N.mod_small; lia).
  split_and!.
  - rewrite length_app. lia.
  - rewrite take_app_length' by done. apply of_be_bytes_be_bytes. cbn. lia.
  - done.
  - unfold slice_from_4. rewrite Hmod. rewrite (proj2 (N.ltb_ge _ _)) by lia. rewrite drop_app_length' by done. f_equal. apply take_ge. lia.
Qed.
Lemma slice_content c : length c <= MAX_CONTENT_SIZE -> slice_page_try_from (content_bytes c) = Ok (Slice_V0ContentPage c).
Proof.
  intros H. destruct (slice_prefix c H) as (Hl&Hs&Hm&Hf). unfold slice_page_try_from, content_bytes, content_parse. rewrite Hs, Hm, Hl.
  rewrite (proj2 (Nat.ltb_ge _ _)) by lia. rewrite (proj2 (N.ltb_ge _ _)) by lia. by rewrite Hf.
Qed.
Lemma slice_hashes_page hs : length hs <= MAX_HASHES_PER_PAGE -> Forall (fun h => length h = PREIMAGE_HASH_SIZE) hs ->
  slice_page_try_from (hashes_bytes hs) = Ok (Slice_V0HashPage (mjoin hs)) /\ slice_hashes (mjoin hs) = hs /\ length (mjoin hs) = PREIMAGE_HASH_SIZE * length hs.
Proof.
  intros H Hhs. pose proof (length_mjoin _ _ Hhs) as Hj. rewrite HASHES_FIT in H. change PREIMAGE_HASH_SIZE with 33 in *.
  destruct (slice_prefix (mjoin hs)) as (Hl&Hs&Hm&Hf); [rewrite MAX_FITS; lia|].
  repeat split; [|by apply chunks_exact_join|done]. unfold slice_page_try_from, hashes_bytes, hashes_parse. rewrite Hs, Hm, Hl.
  rewrite (proj2 (Nat.ltb_ge _ _)) by lia. rewrite (proj2 (N.ltb_ge _ _)) by lia.
  replace (N.of_nat (length (mjoin hs)) mod N.of_nat PREIMAGE_HASH_SIZE)%N with 0%N; [cbn [N.eqb negb orb]; by rewrite Hf|].
  rewrite Hj, Nat2N.inj_mul, N.mul_comm. symmetry. by apply N.Div0.mod_mul.
Qed.

Class DigestLaws {crypto : CryptoCrate} := digest_size bs : exists d, digest_256 bs = Ok d /\ length d = 32.

(** The callback of [prepare_preimages] that keeps the pages. *)
Definition log_page (h : PreimageHash) (page : bytes) (l : list (bytes * bytes)) : list (bytes * bytes) := l ++ [(preimage_hash h, page)].

Section prepare.
Context {nom : NomCrate} {de : DataEncoding} {dlaws : DataLaws de} {dbytes : DataBytes de} {crypto : CryptoCrate} {derr : DigestErrors} {digests : DigestLaws}.

Lemma list_of_bytes (c : bytes) : written (enc_list enc_u8 c) c.
Proof.
  replace c with (mjoin (map (fun b => [b]) c)) at 2.
  - apply list_written. induction c; constructor; [apply u8_written|done].
  - induction c as [|b c IH]; [done|]. cbn. by f_equal.
Qed.
Lemma content_page_written c : length c <= MAX_CONTENT_SIZE -> written (bin_write (Page_V0ContentPage (mkContentPage c))) (content_bytes c).
Proof.
  intros H. apply (written_then _ _ [Byte.x00]); [apply u8_written|]. apply dynamic_written; [apply list_of_bytes|].
  unfold MAX_CONTENT_SIZE in H. rewrite MAX_FITS in H. lia.
Qed.
Lemma hash_page_written hs : length hs <= MAX_HASHES_PER_PAGE -> Forall (fun h => length (preimage_hash h) = PREIMAGE_HASH_SIZE) hs ->
  written (bin_write (Page_V0HashPage (mkHashPage hs))) (hashes_bytes (map preimage_hash hs)).
Proof.
  intros H Hhs. apply (written_then _ _ [Byte.x01]); [apply u8_written|]. apply dynamic_written.
  - apply list_written. cbn [hashes]. clear H. induction Hhs as [|h hs Hh _ IH]; cbn [map]; [constructor|]. constructor; [|done].
    by apply sized_written; [apply bytes_written|].
  - rewrite (length_mjoin PREIMAGE_HASH_SIZE) by by apply Forall_fmap. rewrite length_map. rewrite HASHES_FIT in H. change PREIMAGE_HASH_SIZE with 33. lia.
Qed.

Lemma prepare_page_ok page bs l : written (bin_write page) bs -> length bs <= MAX_PAGE_SIZE ->
  exists h, prepare_page log_page page l = (Ok h, l ++ [(preimage_hash h, bs)]) /\ length (preimage_hash h) = PREIMAGE_HASH_SIZE.
Proof.
  intros Hw Hl. destruct (digest_size bs) as (d&Hd&Hs). exists (mkPreimageHash (Byte.x00 :: d)). split; [|cbn; by rewrite Hs].
  unfold prepare_page. rewrite Hw. unfold make_preimage_hash, lift, mbind, M_bind. cbn [app]. rewrite (proj2 (Nat.ltb_ge _ _)) by done. rewrite Hd. cbn.
  by rewrite Hs.
Qed.
Lemma prepare_pages_ok {X} (f : X -> Page) (xs : list X) bss l : Forall2 (fun x bs => written (bin_write (f x)) bs /\ length bs <= MAX_PAGE_SIZE) xs bss ->
  exists hs, mapM (fun x => prepare_page log_page (f x)) xs l = (Ok hs, l ++ zip (map preimage_hash hs) bss) /\ length hs = length bss
    /\ Forall (fun h => length (preimage_hash h) = PREIMAGE_HASH_SIZE) hs.
Proof.
  intros H. revert l. induction H as [|x bs xs bss [Hw Hl] _ IH]; intros l.
  - exists []. cbn. by rewrite app_nil_r.
  - destruct (prepare_page_ok (f x) bs l Hw Hl) as (h&E&Hh). destruct (IH (l ++ [(preimage_hash h, bs)])) as (hs&E'&Hn&Hhs).
    exists (h :: hs). unfold mapM, mbind, M_bind. rewrite E. fold (@mapM (list (bytes * bytes)) CryptoErr X PreimageHash).
    unfold mapM, mbind, M_bind in E'. rewrite E'. cbn. rewrite <- app_assoc, Hn. split_and!; [done|done|by constructor].
Qed.
Lemma content_pages_ok content l : exists hs,
  mapM (fun chunk => prepare_page log_page (Page_V0ContentPage (mkContentPage chunk))) (chunks MAX_CONTENT_SIZE content) l
    = (Ok hs, l ++ zip (map preimage_hash hs) (map content_bytes (chunks MAX_CONTENT_SIZE content)))
  /\ length hs = length (chunks MAX_CONTENT_SIZE content) /\ Forall (fun h => length (preimage_hash h) = PREIMAGE_HASH_SIZE) hs.
Proof.
  destruct (prepare_pages_ok (fun chunk => Page_V0ContentPage (mkContentPage chunk)) (chunks MAX_CONTENT_SIZE content)
    (map content_bytes (chunks MAX_CONTENT_SIZE content)) l) as (hs&E&Hn&Hhs); [|rewrite length_map in Hn; eauto].
  apply Forall2_fmap_r, Forall_Forall2_diag. eapply Forall_impl; [by apply chunks_of_sizes|]. intros c [_ Hc]. split; [by apply content_page_written|].
  unfold content_bytes. cbn [length]. rewrite length_app, length_be_bytes. unfold MAX_CONTENT_SIZE in Hc. rewrite MAX_FITS in Hc. unfold MAX_PAGE_SIZE. lia.
Qed.
Lemma hash_pages_ok (hashes : list PreimageHash) l : Forall (fun h => length (preimage_hash h) = PREIMAGE_HASH_SIZE) hashes -> exists hs,
  mapM (fun hash_page => prepare_page log_page (Page_V0HashPage (mkHashPage hash_page))) (chunks MAX_HASHES_PER_PAGE hashes) l
    = (Ok hs, l ++ zip (map preimage_hash hs) (map (fun c => hashes_bytes (map preimage_hash c)) (chunks MAX_HASHES_PER_PAGE hashes)))
  /\ length hs = length (chunks MAX_HASHES_PER_PAGE hashes) /\ Forall (fun h => length (preimage_hash h) = PREIMAGE_HASH_SIZE) hs.
Proof.
  intros H. destruct (prepare_pages_ok (fun hash_page => Page_V0HashPage (mkHashPage hash_page)) (chunks MAX_HASHES_PER_PAGE hashes)
    (map (fun c => hashes_bytes (map preimage_hash c)) (chunks MAX_HASHES_PER_PAGE hashes)) l) as (hs&E&Hn&Hhs); [|rewrite length_map in Hn; eauto].
  apply Forall2_fmap_r, Forall_Forall2_diag. assert (Hj : mjoin (chunks MAX_HASHES_PER_PAGE hashes) = hashes) by by apply chunks_join.
  apply Forall_forall. intros c Hc. assert (Hs : length c <= MAX_HASHES_PER_PAGE).
  { pose proof (chunks_of_sizes (length hashes) MAX_HASHES_PER_PAGE hashes ltac:(done)) as Hcs. rewrite Forall_forall in Hcs. by apply Hcs. }
  assert (Hch : Forall (fun h => length (preimage_hash h) = PREIMAGE_HASH_SIZE) c).
  { apply Forall_forall. intros h Hh. rewrite Forall_forall in H. apply H. rewrite <- Hj. apply list_elem_of_join. eauto. }
  split; [by apply hash_page_written|]. unfold hashes_bytes. cbn [length]. rewrite length_app, length_be_bytes.
  rewrite (length_mjoin PREIMAGE_HASH_SIZE) by by apply Forall_fmap. rewrite length_map. rewrite HASHES_FIT in Hs. unfold MAX_PAGE_SIZE. change PREIMAGE_HASH_SIZE with 33. lia.
Qed.
(** ** Levels *)

(** The pages of a level of hashes, with their hashes. *)
Definition hash_level (hs hashes : list PreimageHash) : list (bytes * bytes) :=
  zip (map preimage_hash hs) (map (fun c => hashes_bytes (map preimage_hash c)) (chunks MAX_HASHES_PER_PAGE hashes)).
Lemma length_hash_level hs hashes : length hs = length (chunks MAX_HASHES_PER_PAGE hashes) -> length (hash_level hs hashes) = length hs.
Proof. intros H. unfold hash_level. rewrite length_zip_with, !length_map. lia. Qed.

(** Levels of hashes are built until one is left; what a level leaves true holds of the root. *)
Lemma levels_induct (Q : list (bytes * bytes) -> list PreimageHash -> Prop) :
  (forall extra hashes hs, length hs = length (chunks MAX_HASHES_PER_PAGE hashes) -> Forall (fun h => length (preimage_hash h) = PREIMAGE_HASH_SIZE) hashes ->
    1 < length hashes -> Q extra hashes -> Q (extra ++ hash_level hs hashes) hs) ->
  forall fuel hashes l extra, length hashes <= fuel -> hashes <> [] -> Forall (fun h => length (preimage_hash h) = PREIMAGE_HASH_SIZE) hashes -> Q extra hashes ->
  exists root more, prepare_levels log_page fuel hashes l = (Ok [root], l ++ more) /\ length (preimage_hash root) = PREIMAGE_HASH_SIZE /\ Q (extra ++ more) [root].
Proof.
  intros Hstep fuel. induction fuel as [|fuel IH]; intros hashes l extra Hf Hne Hl HQ; [by destruct hashes; cbn in Hf; [|lia]|]. cbn [prepare_levels].
  destruct (Nat.ltb_spec 1 (length hashes)) as [Hgt|Hle].
  - destruct (hash_pages_ok hashes l Hl) as (hs&E&Hn&Hhs). pose proof (chunks_number MAX_HASHES_PER_PAGE hashes ltac:(done)) as Hc. rewrite HASHES_FIT in *.
    destruct (IH hs (l ++ hash_level hs hashes) (extra ++ hash_level hs hashes)) as (root&more&E2&Hroot&HQ2);
      [lia|intros ->; cbn in *; lia|done|by apply Hstep|].
    exists root, (hash_level hs hashes ++ more). unfold mbind, M_bind. rewrite E. unfold hash_level in E2 at 1. rewrite HASHES_FIT in E2. rewrite E2, !app_assoc. done.
  - destruct hashes as [|root [|? ?]]; [done| |cbn in Hle; lia]. exists root, []. rewrite !app_nil_r. apply Forall_cons in Hl as [Hr _]. done.
Qed.
End prepare.

(** * Revealing a payload *)

(** The host knows the page. *)
Definition revealable {rc : RevealCore} (h page : bytes) : Prop := core_reveal_preimage h MAX_PAGE_SIZE = (Z.of_nat (length page), page).

Section reveal.
Context {S : Type} {core : SmartRollupCore S} {laws : CoreLaws S} {rc : RevealCore} {crypto : CryptoCrate}.
Implicit Types (s : S).

Lemma fetch_ok h page buffer s sp : length buffer = MAX_PAGE_SIZE -> length page <= MAX_PAGE_SIZE -> revealable h page -> slice_page_try_from page = Ok sp ->
  exists buffer', length buffer' = MAX_PAGE_SIZE /\ fetch_page h buffer s = (Ok (sp, buffer'), s).
Proof.
  intros Hb Hp Hr Hs. exists (page ++ drop (length page) buffer). split; [rewrite length_app, length_drop; lia|].
  unfold fetch_page, fetch_page_raw, reveal_preimage, M_map_err, mbind, M_bind, lift, host_result. rewrite Hb, Hr, wrap_nat. cbn -[Nat.ltb].
  rewrite (proj2 (Nat.ltb_ge _ _)) by (rewrite length_app, length_drop; lia). cbn. rewrite take_app_length, Hs. cbn. by rewrite drop_app_length.
Qed.

(** From the [revealed] hashes that are done, the rest of the queue leads to [content]; [k] hashes are revealed in all. *)
Definition leads_to (path : bytes) (hs : list bytes) (content : bytes) (k : nat) : Prop := forall fuel done_ buffer v s,
  length done_ + k <= MAX_REVEALS -> k < fuel -> length buffer = MAX_PAGE_SIZE -> c_ok s ->
  default [] (c_value s (path_steps path)) = v -> size_ok (length v + length content) ->
  exists s', reveal_hashes fuel path (length done_) (length v) (done_ ++ hs) buffer s = (Ok (length v + length content), s') /\ sets s path (Some (v ++ content)) s'.

Lemma lookup_queue {A} (done_ : list A) h hs : (done_ ++ h :: hs) !! length done_ = Some h.
Proof. rewrite lookup_app_r by lia. by rewrite Nat.sub_diag. Qed.

(** The pages of contents are written one after the other. *)
Lemma contents_lead path hs cs : path_ok path -> cs <> [] ->
  Forall2 (fun h c => length c <= MAX_CONTENT_SIZE /\ revealable h (content_bytes c)) hs cs -> leads_to path hs (mjoin cs) (length hs).
Proof.
  intros Hp Hne Hall. induction Hall as [|h c hs cs [Hc Hr] Hhs IH]; [done|]. clear Hne. intros fuel done_ buffer v s Hk Hf Hb Hs Hv Hz. destruct fuel as [|fuel]; [lia|].
  cbn [reveal_hashes]. rewrite lookup_queue. destruct (fetch_ok h (content_bytes c) buffer s (Slice_V0ContentPage c)) as (buffer'&Hb'&E).
  { done. } { unfold content_bytes. cbn [length]. rewrite length_app, length_be_bytes. unfold MAX_CONTENT_SIZE in Hc. rewrite MAX_FITS in Hc. unfold MAX_PAGE_SIZE. lia. }
  { done. } { by apply slice_content. }
  change (mjoin (c :: cs)) with (c ++ mjoin cs) in *. rewrite length_app in Hz. cbn [length] in *.
  destruct (store_write_spec s path c (length v)) as (s1&Ew&Hset); [done..|rewrite Hv; lia|unfold size_ok in *; lia|].
  unfold M_map_err, mbind, M_bind. rewrite E, Ew. cbn. rewrite Hv in Hset. unfold patch in Hset.
  rewrite take_ge, drop_ge, app_nil_r in Hset by lia. rewrite <- length_app.
  destruct cs as [|c' cs].
  - inversion Hhs; subst. exists s1. destruct fuel; cbn [reveal_hashes]; (rewrite lookup_ge_None_2 by (rewrite length_app; cbn; lia)); split;
      [by cbn; rewrite app_nil_r, length_app|by cbn; rewrite app_nil_r|by cbn; rewrite app_nil_r, length_app|by cbn; rewrite app_nil_r].
  - destruct (IH ltac:(done) fuel (done_ ++ [h]) buffer' (v ++ c) s1) as (s2&E2&Hset2).
    + rewrite length_app. cbn [length]. lia.
    + lia.
    + done.
    + apply Hset.
    + by rewrite (sets_at _ _ _ _ Hset).
    + rewrite length_app. unfold size_ok in *. lia.
    + exists s2. rewrite <- app_assoc in E2. cbn [app] in E2. rewrite (length_app done_) in E2. cbn [length] in E2. rewrite Nat.add_1_r in E2. rewrite E2.
      split; [rewrite !length_app; do 2 f_equal; lia|]. rewrite app_assoc. by eapply sets_trans.
Qed.

(** The pages of hashes put the level below at the end of the queue. *)
Lemma pages_push path hs gs : Forall2 (fun h g => length g <= MAX_HASHES_PER_PAGE /\ Forall (fun h => length h = PREIMAGE_HASH_SIZE) g /\ revealable h (hashes_bytes g)) hs gs ->
  forall fuel done_ tail buffer written s, length (done_ ++ hs ++ tail) + length (mjoin gs) <= MAX_REVEALS -> length hs <= fuel -> length buffer = MAX_PAGE_SIZE ->
  exists buffer', length buffer' = MAX_PAGE_SIZE /\ reveal_hashes fuel path (length done_) written (done_ ++ hs ++ tail) buffer s =
    reveal_hashes (fuel - length hs) path (length (done_ ++ hs)) written ((done_ ++ hs) ++ tail ++ mjoin gs) buffer' s.
Proof.
  induction 1 as [|h g hs gs (Hg&Hlen&Hr) Hhs IH]; intros fuel done_ tail buffer written s Hk Hf Hb.
  { exists buffer. split; [done|]. cbn [length app]. rewrite Nat.sub_0_r, !app_nil_r. done. }
  destruct fuel as [|fuel]; [cbn in Hf; lia|]. destruct (slice_hashes_page g Hg Hlen) as (Hsl&Hsh&Hj).
  destruct (fetch_ok h (hashes_bytes g) buffer s (Slice_V0HashPage (mjoin g))) as (buffer1&Hb1&E).
  { done. } { unfold hashes_bytes. cbn [length]. rewrite length_app, length_be_bytes, Hj. rewrite HASHES_FIT in Hg. unfold MAX_PAGE_SIZE. change PREIMAGE_HASH_SIZE with 33. lia. }
  { done. } { done. }
  change (mjoin (g :: gs)) with (g ++ mjoin gs) in *. rewrite !length_app in Hk. cbn [length app] in *.
  destruct (IH fuel (done_ ++ [h]) (tail ++ g) buffer1 written s) as (buffer2&Hb2&E2); [rewrite !length_app; cbn [length]; lia|lia|done|].
  exists buffer2. split; [done|]. cbn [reveal_hashes]. rewrite lookup_queue. unfold mbind, M_bind at 1. rewrite E.
  rewrite (proj2 (Nat.ltb_ge _ _)) by (change PREIMAGE_HASH_SIZE with 33 in *; rewrite Hj, length_app; cbn [length]; rewrite length_app; lia). rewrite Hsh.
  rewrite <- !app_assoc in E2. cbn [app] in E2. rewrite (length_app done_ [h]) in E2. cbn [length] in E2. rewrite Nat.add_1_r in E2.
  rewrite <- !app_assoc. cbn [app]. rewrite <- !app_assoc. rewrite E2. cbn [Nat.sub]. by rewrite !length_app.
Qed.
Lemma hashes_lead path hs gs content k : leads_to path (mjoin gs) content k ->
  Forall2 (fun h g => length g <= MAX_HASHES_PER_PAGE /\ Forall (fun h => length h = PREIMAGE_HASH_SIZE) g /\ revealable h (hashes_bytes g)) hs gs ->
  length (mjoin gs) <= k -> leads_to path hs content (length hs + k).
Proof.
  intros Hl Hhs Hk fuel done_ buffer v s Hm Hf Hb Hs Hv Hz.
  destruct (pages_push path hs gs Hhs fuel done_ [] buffer (length v) s) as (buffer'&Hb'&E); [rewrite !length_app; cbn [length]; lia|lia|done|].
  rewrite app_nil_r in E. rewrite E. cbn [app]. apply Hl; try done; [rewrite length_app; lia|lia].
Qed.
End reveal.

Section round_trip.
Context {nom : NomCrate} {de : DataEncoding} {dlaws : DataLaws de} {dbytes : DataBytes de} {crypto : CryptoCrate} {derr : DigestErrors} {digests : DigestLaws}
  {S : Type} {core : SmartRollupCore S} {laws : CoreLaws S} {rc : RevealCore}.

(** The pages of a level, with their hashes, among the pages the host knows. *)
Lemma level_pages (hs : list PreimageHash) (gs : list (list PreimageHash)) : length hs = length gs ->
  Forall (fun g => g <> [] /\ length g <= MAX_HASHES_PER_PAGE) gs -> Forall (fun h => length (preimage_hash h) = PREIMAGE_HASH_SIZE) (mjoin gs) ->
  Forall (fun x => revealable x.1 x.2) (zip (map preimage_hash hs) (map (fun c => hashes_bytes (map preimage_hash c)) gs)) ->
  Forall2 (fun h g => length g <= MAX_HASHES_PER_PAGE /\ Forall (fun h => length h = PREIMAGE_HASH_SIZE) g /\ revealable h (hashes_bytes g))
    (map preimage_hash hs) (map (map preimage_hash) gs).
Proof.
  revert hs. induction gs as [|g gs IH]; intros [|h hs] Hn Hg Hl Hr; try done. cbn in Hn, Hr |- *.
  change (mjoin (g :: gs)) with (g ++ mjoin gs) in Hl. apply Forall_app in Hl as [Hl1 Hl2]. apply Forall_cons in Hg as [[_ Hg1] Hg2], Hr as [Hr1 Hr2].
  constructor; [|apply IH; [lia|done..]]. split_and!; [by rewrite length_map|by apply Forall_fmap|done].
Qed.
Lemma map_mjoin {X Y} (f : X -> Y) (ls : list (list X)) : mjoin (map (map f) ls) = map f (mjoin ls).
Proof. induction ls as [|l ls IH]; [done|]. change (map f l ++ mjoin (map (map f) ls) = map f (l ++ mjoin ls)). by rewrite map_app, IH. Qed.

(** The root leads to what the hashes lead to, and the pages of hashes are few. *)
Definition leads_up (hashes : list PreimageHash) (extra : list (bytes * bytes)) (hs : list PreimageHash) : Prop :=
  (extra = [] /\ length hs <= MAX_TOP_LEVEL_HASHES * MAX_HASHES_PER_PAGE \/ length extra <= 20 /\ length hs <= 20 \/ length extra <= 21 /\ length hs <= 1)
  /\ forall path content, Forall (fun x => revealable x.1 x.2) extra -> leads_to (core := core) path (map preimage_hash hashes) content (length hashes) ->
       length hs <= length hashes + length extra /\ leads_to (core := core) path (map preimage_hash hs) content (length hashes + length extra).
Lemma leads_up_step hashes0 extra hashes hs : length hs = length (chunks MAX_HASHES_PER_PAGE hashes) ->
  Forall (fun h => length (preimage_hash h) = PREIMAGE_HASH_SIZE) hashes -> 1 < length hashes ->
  leads_up hashes0 extra hashes -> leads_up hashes0 (extra ++ hash_level hs hashes) hs.
Proof.
  intros Hn Hl Hgt [Hb Hlead]. pose proof (chunks_number MAX_HASHES_PER_PAGE hashes ltac:(done)) as Hc. pose proof (length_hash_level hs hashes Hn) as Hp.
  rewrite <- Hn, HASHES_FIT in Hc. rewrite HASHES_FIT in Hb. change MAX_TOP_LEVEL_HASHES with 20 in Hb. unfold leads_up. rewrite length_app, Hp. split.
  { change MAX_TOP_LEVEL_HASHES with 20. rewrite HASHES_FIT. destruct Hb as [[-> ?]|[[??]|[??]]]; [right; left; cbn [length]|right; right|]; lia. }
  intros path content [Hr1 Hr2]%Forall_app Hld. destruct (Hlead path content Hr1 Hld) as [Hk Hl2]. split; [lia|].
  replace (length hashes0 + (length extra + length hs)) with (length (map preimage_hash hs) + (length hashes0 + length extra)) by (rewrite length_map; lia).
  pose proof (chunks_join MAX_HASHES_PER_PAGE hashes ltac:(done)) as Hj.
  apply hashes_lead with (map (map preimage_hash) (chunks MAX_HASHES_PER_PAGE hashes)); rewrite ?map_mjoin, ?Hj, ?length_map; [done| |done].
  apply level_pages; [done|by apply chunks_of_sizes|by rewrite Hj|done].
Qed.

(** The pages of contents, among the pages the host knows. *)
Lemma content_level (hs : list PreimageHash) (cs : list bytes) : length hs = length cs -> Forall (fun c => c <> [] /\ length c <= MAX_CONTENT_SIZE) cs ->
  Forall (fun x => revealable x.1 x.2) (zip (map preimage_hash hs) (map content_bytes cs)) ->
  Forall2 (fun h c => length c <= MAX_CONTENT_SIZE /\ revealable h (content_bytes c)) (map preimage_hash hs) cs.
Proof.
  revert hs. induction cs as [|c cs IH]; intros [|h hs] Hn Hc Hr; try done. cbn in Hn, Hr |- *. apply Forall_cons in Hc as [[_ Hc1] Hc2], Hr as [Hr1 Hr2].
  constructor; [done|]. apply IH; [lia|done..].
Qed.

(** The size of the largest payload, as the documentation of [reveal_to_store] gives it. *)
Definition MAX_PAYLOAD : N := 10063860.

(** C20: A payload of up to 10,063,860 bytes that is not empty is cut into pages that have a root; a host that knows the pages lets the
    certificate of the root write exactly the payload at the path, and nothing else changes. *)
Theorem reveal_returns_payload content path s signature witnesses : content <> [] -> (N.of_nat (length content) <= MAX_PAYLOAD)%N -> c_ok s -> path_ok path ->
  exists root pages, prepare_preimages log_page content [] = (Ok root, pages) /\ (Forall (fun x => revealable x.1 x.2) pages ->
    exists s', reveal_to_store (Certificate_V0 (mkV0Certificate root signature witnesses)) path s = (Ok (length content), s') /\ sets s path (Some content) s').
Proof.
  intros Hne Hlen Hs Hp. unfold MAX_PAYLOAD in Hlen. destruct (content_pages_ok content []) as (hs&E&Hn&Hhs). cbn [app] in E.
  pose proof (chunks_number MAX_CONTENT_SIZE content ltac:(done)) as Hc. pose proof (chunks_join MAX_CONTENT_SIZE content ltac:(done)) as Hj.
  pose proof (chunks_of_sizes (length content) MAX_CONTENT_SIZE content ltac:(done)) as Hsz. fold (chunks MAX_CONTENT_SIZE content) in Hsz.
  set (cs := chunks MAX_CONTENT_SIZE content) in *. unfold MAX_CONTENT_SIZE in Hc. rewrite MAX_FITS in Hc.
  assert (Hcs : cs <> []) by (intros E0; apply Hne; by rewrite <- Hj, E0).
  destruct (levels_induct (leads_up hs) (leads_up_step hs) (length hs) hs (zip (map preimage_hash hs) (map content_bytes cs)) []) as (root&extra&E2&Hroot&Hb&Hlead);
    [lia|intros ->; by destruct cs|done| |].
  { split; [left; rewrite HASHES_FIT; change MAX_TOP_LEVEL_HASHES with 20; split; [done|lia]|]. intros path' content' _ H. cbn [length]. by rewrite Nat.add_0_r. }
  cbn [app] in Hb, Hlead.
  exists root, (zip (map preimage_hash hs) (map content_bytes cs) ++ extra). split.
  { unfold prepare_preimages. fold cs. unfold mbind, M_bind. rewrite E, E2. done. }
  intros [Hr1 Hr2]%Forall_app. assert (H3 : length extra <= 21) by (destruct Hb as [[-> _]|[[? _]|[? _]]]; cbn [length]; lia).
  destruct (c_delete_value s path Hs Hp) as (s1&Hd&Hs1&Hv1). assert (Hset1 : sets s path None s1) by done.
  pose proof (contents_lead path _ _ Hp Hcs (content_level hs cs Hn Hsz Hr1)) as Hl. rewrite Hj, length_map in Hl.
  destruct (Hlead path content Hr2 Hl) as [_ Hlead1].
  destruct (Hlead1 (Datatypes.S MAX_REVEALS) [] (repeat Byte.x00 MAX_PAGE_SIZE) [] s1) as (s'&E3&Hset2).
  { rewrite REVEALS. cbn [length]. lia. } { rewrite REVEALS. lia. } { apply repeat_length. } { done. } { by rewrite (sets_at _ _ _ _ Hset1). }
  { unfold size_ok, VALUE_SIZE_LIMIT. cbn [length]. lia. }
  exists s'. split; [|by eapply sets_trans]. unfold reveal_to_store, store_delete_value, M_map_err, mbind, M_bind, host_call, lift, preimage_as_ref. rewrite Hd. cbn [root_hash].
  rewrite Hroot. exact E3.
Qed.
End round_trip.

(** * Bounds *)

Lemma slice_from_4_bound slice size inner : slice_from_4 slice size = Ok inner -> length inner <= length slice - 4.
Proof. unfold slice_from_4. destruct (_ <? 4)%N; [done|]. intros [= <-]. rewrite length_take, length_drop. lia. Qed.
Lemma content_parse_bound slice inner : content_parse slice = Ok inner -> length inner <= length slice - 4.
Proof. unfold content_parse. destruct (length slice <? 4); [done|]. destruct (_ <? _)%N; [done|]. apply slice_from_4_bound. Qed.
Lemma hashes_parse_bound slice inner : hashes_parse slice = Ok inner -> length inner <= length slice - 4.
Proof. unfold hashes_parse. destruct (length slice <? 4); [done|]. destruct (_ || _); [done|]. apply slice_from_4_bound. Qed.
Lemma parses_end slice : content_parse slice <> Diverge /\ hashes_parse slice <> Diverge.
Proof.
  unfold content_parse, hashes_parse, slice_from_4. destruct (length slice <? 4); [done|].
  split; [destruct (_ <? _)%N; [done|]|destruct (_ || _); [done|]]; by destruct (_ <? 4)%N.
Qed.
(** A page of the size of the buffer holds no more than what a page may hold. *)
Definition page_fits (sp : SlicePage) : Prop := match sp with Slice_V0ContentPage c | Slice_V0HashPage c => length c <= MAX_USABLE_PAGE_SIZE end.
Lemma slice_page_bound value : length value <= MAX_PAGE_SIZE -> match slice_page_try_from value with Ok sp => page_fits sp | Diverge => False | _ => True end.
Proof.
  intros H. unfold slice_page_try_from. destruct value as [|b rest]; [done|]. cbn [length] in H. unfold MAX_PAGE_SIZE in H. destruct (parses_end rest) as [H1 H2].
  assert (length rest - 4 <= MAX_USABLE_PAGE_SIZE) by (rewrite MAX_FITS; lia). destruct b; try done.
  - destruct (content_parse rest) as [c| | |] eqn:E; [|done..]. apply content_parse_bound in E. cbn. lia.
  - destruct (hashes_parse rest) as [c| | |] eqn:E; [|done..]. apply hashes_parse_bound in E. cbn. lia.
Qed.

Section bounds.
Context {S : Type} {core : SmartRollupCore S} {laws : CoreLaws S} {rc : RevealCore} {rlaws : RevealLaws rc} {crypto : CryptoCrate}.
Implicit Types (s : S).

Lemma fetch_any h buffer s : length buffer = MAX_PAGE_SIZE -> exists o, fetch_page h buffer s = (o, s) /\
  match o with Ok (sp, buffer') => length buffer' = MAX_PAGE_SIZE /\ page_fits sp | Diverge => False | _ => True end.
Proof.
  intros Hb. unfold fetch_page, fetch_page_raw, reveal_preimage, M_map_err, mbind, M_bind, lift, host_result, wrap. rewrite Hb.
  destruct (core_reveal_preimage h MAX_PAGE_SIZE) as [c bs] eqn:E. destruct (Z.leb_spec 0 c); cbn -[Nat.ltb]; [|by eexists].
  assert (c = Z.of_nat (Z.to_nat c)) as Hc by lia. rewrite Hc in E. apply reveal_fits in E as [Hl Hm].
  rewrite (proj2 (Nat.ltb_ge _ _)) by (rewrite length_app, length_drop; lia). cbn -[Nat.ltb].
  rewrite take_app_length' by done. pose proof (slice_page_bound bs ltac:(lia)) as Hsp. destruct (slice_page_try_from bs) as [sp| | |]; cbn; eexists; (split; [done|]); [|done..].
  split; [|done]. rewrite drop_app_length' by done. rewrite length_app, length_drop. lia.
Qed.

(** What the loop has done: [c] pages of contents and [p] pages of hashes were revealed. *)
Record progress (path : bytes) (revealed written : nat) (hashes : list bytes) (buffer : bytes) s (c p : nat) : Prop := {
  p_state : c_ok s;
  p_buffer : length buffer = MAX_PAGE_SIZE;
  p_revealed : revealed = c + p;
  p_queue : revealed <= length hashes;
  p_limit : length hashes <= MAX_REVEALS;
  p_pages : length hashes <= 1 + MAX_HASHES_PER_PAGE * p;
  p_written : written <= MAX_CONTENT_SIZE * c;
  p_value : length (default [] (c_value s (path_steps path))) = written
}.
Lemma progress_bound path revealed written hashes buffer s c p : progress path revealed written hashes buffer s c p -> (N.of_nat written <= MAX_PAYLOAD)%N.
Proof. intros []. unfold MAX_CONTENT_SIZE, MAX_PAYLOAD in *. rewrite MAX_FITS, HASHES_FIT, REVEALS in *. lia. Qed.

Lemma reveal_hashes_bounded path fuel : path_ok path -> forall revealed written hashes buffer s c p,
  progress path revealed written hashes buffer s c p -> MAX_REVEALS < revealed + fuel ->
  exists o v s', reveal_hashes fuel path revealed written hashes buffer s = (o, s') /\ o <> Diverge /\ sets s path v s'
    /\ (N.of_nat (length (default [] v)) <= MAX_PAYLOAD)%N /\ match o with Ok n => length (default [] v) = n | _ => True end.
Proof.
  intros Hp. induction fuel as [|fuel IH]; intros revealed written hashes buffer s c p P Hf; cbn [reveal_hashes];
    pose proof (progress_bound _ _ _ _ _ _ _ _ P) as Hbound; pose proof P as [].
  { rewrite lookup_ge_None_2 by lia. exists (Ok written), (c_value s (path_steps path)), s. rewrite p_value0. split_and!; [done|done|by apply sets_refl|done|done]. }
  destruct (hashes !! revealed) as [h|] eqn:Eh.
  2: { exists (Ok written), (c_value s (path_steps path)), s. rewrite p_value0. split_and!; [done|done|by apply sets_refl|done|done]. }
  apply lookup_lt_Some in Eh. destruct (fetch_any h buffer s p_buffer0) as (o&E&Ho). unfold mbind, M_bind. rewrite E.
  destruct o as [[[content|inner] buffer']|e|q|]; [| |eexists _, (c_value s (path_steps path)), s; rewrite p_value0; split_and!; [done|done|by apply sets_refl|done|done]..|done].
  - destruct Ho as [Hb' Hfit]. cbn in Hfit. destruct (store_write_spec s path content written) as (s1&Ew&Hset);
      [done|done|lia|unfold size_ok, VALUE_SIZE_LIMIT, MAX_PAYLOAD in *; rewrite MAX_FITS in Hfit; lia|].
    unfold M_map_err. rewrite Ew. cbn [map_err].
    destruct (IH (Datatypes.S revealed) (written + length content) hashes buffer' s1 (Datatypes.S c) p) as (o&v&s'&Eo&Hne&Hset'&Hv).
    + split; try done; try lia; [apply Hset|unfold MAX_CONTENT_SIZE in *; lia|]. rewrite (sets_at _ _ _ _ Hset). cbn. rewrite length_patch; lia.
    + lia.
    + exists o, v, s'. split_and!; [done|done|by eapply sets_trans|apply Hv..].
  - destruct Ho as [Hb' Hfit]. cbn in Hfit. destruct (Nat.ltb_spec ((MAX_REVEALS - length hashes) * PREIMAGE_HASH_SIZE) (length inner)) as [Hlt|Hle].
    + eexists _, (c_value s (path_steps path)), s. rewrite p_value0. split_and!; [done|done|by apply sets_refl|done|done].
    + pose proof (chunks_exact_number PREIMAGE_HASH_SIZE inner ltac:(done)) as Hn. fold (slice_hashes inner) in Hn. change PREIMAGE_HASH_SIZE with 33 in *.
      rewrite MAX_FITS in Hfit. destruct (IH (Datatypes.S revealed) written (hashes ++ slice_hashes inner) buffer' s c (Datatypes.S p)) as (o&v&s'&Eo&Hrest).
      * split; try done; rewrite ?length_app; rewrite ?HASHES_FIT in *; lia.
      * lia.
      * by exists o, v, s'.
Qed.

(** C21: Whatever pages the host reveals, revealing a certificate ends, writes at most 10,063,860 bytes at the path and changes nothing else,
    also when it fails or panics part of the way; when it succeeds, the size it returns is the size of what is written. *)
Theorem reveal_is_bounded cert path s : c_ok s -> path_ok path ->
  exists o v s', reveal_to_store cert path s = (o, s') /\ o <> Diverge /\ sets s path v s'
    /\ (N.of_nat (length (default [] v)) <= MAX_PAYLOAD)%N /\ match o with Ok n => length (default [] v) = n | _ => True end.
Proof.
  intros Hs Hp. destruct (c_delete_value s path Hs Hp) as (s1&Hd&Hs1&Hv1). assert (Hset1 : sets s path None s1) by done.
  unfold reveal_to_store, store_delete_value, M_map_err, mbind, M_bind, host_call. rewrite Hd. cbn [host_result wrap Z.leb Z.compare map_err].
  destruct cert as [[root sig w]]. cbn [root_hash]. unfold lift, preimage_as_ref. destruct (length (preimage_hash root) =? PREIMAGE_HASH_SIZE).
  - destruct (reveal_hashes_bounded path (Datatypes.S MAX_REVEALS) Hp 0 0 [preimage_hash root] (repeat Byte.x00 MAX_PAGE_SIZE) s1 0 0) as (o&v&s'&E&Hne&Hset&Hv).
    + split; [done|apply repeat_length|done|cbn [length]; lia|rewrite REVEALS; cbn [length]; lia|cbn [length]; lia|lia|by rewrite (sets_at _ _ _ _ Hset1)].
    + lia.
    + exists o, v, s'. split_and!; [done|done|by eapply sets_trans|apply Hv..].
  - by eexists _, None, s1.
Qed.
End bounds.

(** * Panics *)

(** A payload of no bytes has no pages, and preparing it panics when the root is taken. *)
Theorem empty_payload_panics {nom : NomCrate} {de : DataEncoding} {crypto : CryptoCrate} {derr : DigestErrors} {L} (handle : PreimageHash -> bytes -> L -> L) l :
  prepare_preimages handle [] l = (Panic PUnwrap, l).
Proof. done. Qed.

(** A page of either kind whose prefix gives a size of [2 ^ 32 - 4] is not refused as invalid: the end of the page overflows, and cutting the page panics. *)
Theorem huge_size_prefix_panics tag rest : tag = Byte.x00 \/ tag = Byte.x01 ->
  slice_page_try_from (tag :: be_bytes 4 (2 ^ 32 - 4) ++ rest) = Panic PSlice.
Proof. by intros [-> | ->]. Qed.
Lemma huge_size_prefix_panics_witness : slice_page_try_from (Byte.x01 :: be_bytes 4 (2 ^ 32 - 4) ++ []) = Panic PSlice.
Proof. apply huge_size_prefix_panics. by right. Defined.
