(* ===== verification/SdkInstaller.v ===== *)
(** Installing kernels.

    Models the configurations that install kernels ([src/kernel_sdk/installer-config]: instructions, their binary encoding, evaluating them, the
    conversion from YAML), the kernel that runs the configuration at the end of its own code ([installer-kernel]) and how the client makes such a kernel
    ([installer-client]).  The crates nom, tezos_data_encoding, hex and wasm_gen, serde and files are parameters.  The installer runs on a machine
    whose [usize] has 32 bits, where arithmetic wraps around.  The second part shows that programs are read as they were written, that a prepared kernel is
    revealed and installed, and what the buffer of the installer kernel is too small for. *)

From Stdlib Require Import DecimalString.
From S2P Require Import Prelude Endian KernelPath KernelHost KernelRuntime KernelInput SdkNom SdkMicheline SdkMichelson SdkDac SdkDacProps.

(** Boot path for kernels ([host/src/lib.rs]; the installer and its client declare it again). *)
Definition KERNEL_BOOT_PATH : bytes := str "/kernel/boot.wasm".

(** * The crates *)

Inductive ErrorKind : Set := TooLarge | Tag.

Class InstallerCrates {nom : NomCrate} {de : DataEncoding} := {
  (** [number::complete::u32(Endianness::Little)] *)
  nom_u32_le : reader N;
  nom_length_data : reader N -> reader bytes;
  nom_complete {A} : reader A -> reader A;
  (** [map_res], with a function that may panic. *)
  nom_map_result {A B} : reader A -> (A -> outcome NomErr B) -> reader B;
  nom_tuple2 {A B} : reader A -> reader B -> reader (A * B);
  (** [nom::Err::Error(nom::error::Error { input, code })] *)
  nom_error : bytes -> ErrorKind -> NomErr;
  (** [BinError::custom] *)
  bin_custom : bytes -> BinErr;
  enc_field {A} : bytes -> (A -> writer) -> A -> writer;
  enc_variant_with_field {A} : bytes -> (byte -> writer) -> (A -> writer) -> byte -> A -> writer
}.

Class InstallerLaws {nom : NomCrate} {de : DataEncoding} (crates : InstallerCrates) := {
  u32_le_read n rest : (n < 2 ^ 32)%N -> nom_u32_le (le_bytes 4 n ++ rest) = Ok (n, rest);
  length_data_read (r : reader N) input n bs rest : r input = Ok (n, bs ++ rest) -> N.of_nat (length bs) = n -> nom_length_data r input = Ok (bs, rest);
  complete_read {A} (r : reader A) input a rest : r input = Ok (a, rest) -> nom_complete r input = Ok (a, rest);
  map_result_read {A B} (r : reader A) (f : A -> outcome NomErr B) input a rest b : r input = Ok (a, rest) -> f a = Ok b -> nom_map_result r f input = Ok (b, rest);
  tuple2_read {A B} (r1 : reader A) (r2 : reader B) input : nom_tuple2 r1 r2 input = (o1 ← r1 input; o2 ← r2 o1.2; Ok ((o1.1, o2.1), o2.2));
  field_written {A} name (w : A -> writer) a bs : written (w a) bs -> written (enc_field name w a) bs;
  variant_written {A} name (wt : byte -> writer) (w : A -> writer) tag a b1 b2 : written (wt tag) b1 -> written (w a) b2 ->
    written (enc_variant_with_field name wt w tag a) (b1 ++ b2)
}.

(** * Configurations (installer-config) *)

Module InstallerConfig.

(** ** Instructions (binary/instr.rs) *)

Record MoveInstruction : Set := mkMove { m_from : bytes; m_to : bytes }.
Record RevealInstruction : Set := mkReveal { r_hash : bytes; r_to : bytes }.
Record SetInstruction : Set := mkSet { s_value : bytes; s_to : bytes }.
Inductive ConfigInstruction : Set := | Config_Reveal (i : RevealInstruction) | Config_Move (i : MoveInstruction) | Config_Set (i : SetInstruction).
Record OwnedConfigProgram : Set := mkProgram { program : list ConfigInstruction }.

Definition reveal_instr (hash : PreimageHash) (to_ : bytes) : ConfigInstruction := Config_Reveal (mkReveal (preimage_hash hash) to_).
Definition move_instr (from to_ : bytes) : ConfigInstruction := Config_Move (mkMove from to_).
Definition set_instr (value to_ : bytes) : ConfigInstruction := Config_Set (mkSet value to_).

(** ** Sizes (binary/size.rs) *)

Definition MAX_SIZE_REF_PATH : nat := 1 + PATH_MAX_SIZE.
Definition RefBytes_MAX_SIZE : nat := 4 + MAX_FILE_CHUNK_SIZE.
Definition Move_MAX_SIZE : nat := MAX_SIZE_REF_PATH * 2.
Definition Reveal_MAX_SIZE : nat := PREIMAGE_HASH_SIZE + MAX_SIZE_REF_PATH.
Definition Config_MAX_SIZE : nat := 1 + Nat.max Move_MAX_SIZE Reveal_MAX_SIZE.

Section encoding.
Context {nom : NomCrate} {de : DataEncoding} {crates : InstallerCrates}.

(** ** Writers (binary/bin.rs) *)

Definition put_le_size (size : nat) : writer :=
  if (N.of_nat size <? 2 ^ 32)%N then enc_put (le_bytes 4 (N.of_nat size))
  else fail (bin_custom (str "Expected 1073741823 but got " ++ str (NilZero.string_of_uint (N.to_uint (N.of_nat size))))).
(** [data.len() as u8]. *)
Definition path_dynamic (p : bytes) : writer :=
  let size := byte_of_N (N.of_nat (length p) mod 256) in
  _ ← enc_put [size]; enc_put p.
Definition bytes_dynamic (b : bytes) : writer := _ ← put_le_size (length b); enc_put b.

#[global] Instance MoveInstruction_write : BinWriter MoveInstruction := fun data =>
  _ ← enc_field (str "MoveInstruction::from") path_dynamic (m_from data);
  enc_field (str "MoveInstruction::to") path_dynamic (m_to data).
#[global] Instance RevealInstruction_write : BinWriter RevealInstruction := fun data =>
  _ ← enc_field (str "RevealInstruction::hash") bytes_dynamic (r_hash data);
  enc_field (str "RevealInstruction::to") path_dynamic (r_to data).
#[global] Instance SetInstruction_write : BinWriter SetInstruction := fun data =>
  _ ← enc_field (str "SetInstruction::value") bytes_dynamic (s_value data);
  enc_field (str "SetInstruction::to") path_dynamic (s_to data).
#[global] Instance ConfigInstruction_write : BinWriter ConfigInstruction := fun i =>
  match i with
  | Config_Reveal inner => enc_variant_with_field (str "ConfigInstruction::Reveal") enc_u8 bin_write Byte.x00 inner
  | Config_Move inner => enc_variant_with_field (str "ConfigInstruction::Move") enc_u8 bin_write Byte.x01 inner
  | Config_Set inner => enc_variant_with_field (str "ConfigInstruction::Set") enc_u8 bin_write Byte.x02 inner
  end.

(** Each instruction is written in a buffer of its own, and its size comes first. *)
Fixpoint write_instrs (instrs : list ConfigInstruction) : writer :=
  match instrs with
  | [] => mret tt
  | i :: instrs =>
      let '(r, current_instr) := bin_write i [] in
      _ ← lift r;
      _ ← put_le_size (length current_instr);
      _ ← ((fun output => (Ok tt, output ++ current_instr)) : writer);
      write_instrs instrs
  end.
(** The size of the instructions comes last. *)
#[global] Instance OwnedConfigProgram_write : BinWriter OwnedConfigProgram := fun p =>
  output ← get;
  let initial_size := length output in
  _ ← write_instrs (program p);
  output ← get;
  put_le_size (length output - initial_size).

(** ** Readers (binary/nom.rs) *)

Definition size : reader N := nom_u32_le.
Definition short_size : reader byte := nom_u8.
Definition bounded_size (max : nat) : reader N := fun input =>
  '(size, input) ← size input;
  if (size <=? N.of_nat max)%N then Ok (size, input) else Err (nom_error input TooLarge).
Definition bounded_u8_size (max : nat) : reader N := fun input =>
  '(size, input) ← short_size input;
  if (Byte.to_N size <=? N.of_nat max)%N then Ok (Byte.to_N size, input) else Err (nom_error input TooLarge).
Definition nom_read_ref_path : reader bytes := nom_map_result (nom_complete (nom_length_data (bounded_u8_size PATH_MAX_SIZE))) assert_from.
Definition nom_read_ref_bytes : reader bytes := nom_map_result (nom_complete (nom_length_data (bounded_size MAX_FILE_CHUNK_SIZE))) Ok.
#[global] Instance RevealInstruction_read : NomReader RevealInstruction :=
  nom_map (nom_tuple2 nom_read_ref_bytes nom_read_ref_path) (fun '(hash, to_) => mkReveal hash to_).
#[global] Instance MoveInstruction_read : NomReader MoveInstruction :=
  nom_map (nom_tuple2 nom_read_ref_path nom_read_ref_path) (fun '(from, to_) => mkMove from to_).
#[global] Instance SetInstruction_read : NomReader SetInstruction :=
  nom_map (nom_tuple2 nom_read_ref_bytes nom_read_ref_path) (fun '(value, to_) => mkSet value to_).
#[global] Instance ConfigInstruction_read : NomReader ConfigInstruction := fun bytes =>
  '(tag, input) ← nom_u8 bytes;
  match tag with
  | Byte.x00 => nom_map nom_read Config_Reveal input
  | Byte.x01 => nom_map nom_read Config_Move input
  | Byte.x02 => nom_map nom_read Config_Set input
  | _ => Err (nom_error input Tag)
  end.
(** What was read, when nothing is left. *)
Definition completed {A} (x : A * bytes) : outcome bytes A := match x.2 with [] => Ok x.1 | _ => Err (str "Incompleted parsing") end.
End encoding.

(** ** Revealing kernels (binary/preimage.rs) *)

Definition MAX_DAC_LEVELS : nat := 4.

Section evaluation.
Context {S : Type} {core : SmartRollupCore S} {rc : RevealCore}.

Definition append_content (kernel_size : N) (content reveal_to : bytes) : M S bytes N :=
  _ ← M_map_err (fun _ => str "Failed to write kernel content page") (store_write reveal_to content (N.to_nat kernel_size));
  mret (N.of_nat (length content)).
(** The closure keeps the size that was written, beside the host. *)
Definition write_kernel_page (reveal_to content : bytes) : M (N * S) bytes unit := fun '(kernel_size, host) =>
  match append_content kernel_size content reveal_to host with
  | (Ok written, host) => (Ok tt, (((kernel_size + written) mod 2 ^ 32)%N, host))
  | (Err e, host) => (Err e, (kernel_size, host))
  | (Panic p, host) => (Panic p, (kernel_size, host))
  | (Diverge, host) => (Diverge, (kernel_size, host))
  end.
Definition reveal_root_hash_to_store (root_hash reveal_to : bytes) : M S bytes unit := fun host =>
  let reveal_buffer := repeat Byte.x00 (MAX_PAGE_SIZE * MAX_DAC_LEVELS) in
  let '(o, (_, host)) := reveal_loop 0 root_hash reveal_buffer MAX_DAC_LEVELS (write_kernel_page reveal_to) (0%N, host) in
  (o, host).

(** ** Evaluation (binary/instr.rs) *)

Definition eval_config_instr (config_instr : ConfigInstruction) : M S bytes unit :=
  match config_instr with
  | Config_Reveal (mkReveal hash to_) =>
      hash ← lift (if length hash =? PREIMAGE_HASH_SIZE then Ok hash else Err (str "Invalid hash conversion."));
      reveal_root_hash_to_store hash to_
  | Config_Move (mkMove from to_) => M_map_err (fun _ => str "Couldn't move path during config application") (store_move from to_)
  | Config_Set (mkSet value to_) => M_map_err (fun _ => str "Couldn't set key during config application") (store_write to_ value 0)
  end.
Fixpoint eval_instrs (instrs : list ConfigInstruction) : M S bytes unit :=
  match instrs with [] => mret tt | i :: instrs => _ ← eval_config_instr i; eval_instrs instrs end.
Definition evaluate (p : OwnedConfigProgram) : M S bytes unit := eval_instrs (program p).
End evaluation.

Definition TMP_REVEAL_PATH : bytes := str "/__sdk/installer/reveal".
Definition upgrade_reveal_flow (root_hash : bytes) : OwnedConfigProgram := mkProgram [
  reveal_instr (mkPreimageHash root_hash) TMP_REVEAL_PATH;
  move_instr TMP_REVEAL_PATH KERNEL_BOOT_PATH].
End InstallerConfig.

(** * Configurations in YAML (installer-config/src/yaml) *)

Module InstallerYaml.
Import InstallerConfig.

(** ** Instructions (yaml/config.rs) *)

Record MoveArgs : Set := mkMoveArgs { ma_from : bytes; ma_to : bytes }.
Record RevealArgs : Set := mkRevealArgs { ra_reveal : bytes; ra_to : bytes }.
Record SetArgs : Set := mkSetArgs { sa_value : bytes; sa_to : bytes }.
Inductive Instr : Set := | Instr_Move (args : MoveArgs) | Instr_Reveal (args : RevealArgs) | Instr_Set (args : SetArgs).
Record YamlConfig : Set := mkYamlConfig { instructions : list Instr }.
(** What serde reads and writes. *)
Record InstrSerDeser : Set := mkSerDeser { move_ : option MoveArgs; reveal : option RevealArgs; set_ : option SetArgs }.

(** [format!("{:#?}", value)] *)
Class DebugInstr := debug_instr : InstrSerDeser -> bytes.

Definition is_some_u32 {A} (o : option A) : N := match o with Some _ => 1 | None => 0 end.
Definition instr_try_from {debug : DebugInstr} (value : InstrSerDeser) : outcome bytes Instr :=
  let sm := (is_some_u32 (move_ value) + is_some_u32 (reveal value) + is_some_u32 (set_ value))%N in
  if (sm =? 0)%N then Err (str "Neither of instructions deserialized")
  else if (1 <? sm)%N then Err (str "More than one instruction deserialized " ++ debug_instr value)
  else match move_ value with
       | Some m => Ok (Instr_Move m)
       | None =>
           match reveal value with
           | Some r => Ok (Instr_Reveal r)
           | None =>
               match set_ value with
               | Some s => Ok (Instr_Set s)
               | None => Err (str "Unknown instruction " ++ debug_instr value)
               end
           end
       end.
Definition instr_into (i : Instr) : InstrSerDeser :=
  match i with
  | Instr_Move m => mkSerDeser (Some m) None None
  | Instr_Reveal r => mkSerDeser None (Some r) None
  | Instr_Set s => mkSerDeser None None (Some s)
  end.

(** ** Conversion (yaml/convert.rs) *)

(** [hex::decode] *)
Class HexDecode := { FromHexError : Type; decode_hex : bytes -> outcome FromHexError bytes }.

Section convert.
Context {hex : HexDecode}.

Inductive ConfigConversionError : Type := | Hex (e : FromHexError) | InvalidRevealHashSize (n : nat) | ConfigPathError (e : PathError).

Definition reveal_instr_hex (hash_hex to_ : bytes) : outcome ConfigConversionError ConfigInstruction :=
  to_ ← map_err ConfigPathError (try_from to_);
  hash ← map_err Hex (decode_hex hash_hex);
  let hash_len := length hash in
  hash ← (if length hash =? PREIMAGE_HASH_SIZE then Ok hash else Err (InvalidRevealHashSize hash_len));
  Ok (reveal_instr (mkPreimageHash hash) to_).
Definition move_instr_str (from to_ : bytes) : outcome ConfigConversionError ConfigInstruction :=
  from ← map_err ConfigPathError (try_from from);
  to_ ← map_err ConfigPathError (try_from to_);
  Ok (move_instr from to_).
Definition set_instr_hex (value to_ : bytes) : outcome ConfigConversionError ConfigInstruction :=
  to_ ← map_err ConfigPathError (try_from to_);
  value ← map_err Hex (decode_hex value);
  Ok (set_instr value to_).
Definition convert_instr (instr : Instr) : outcome ConfigConversionError ConfigInstruction :=
  match instr with
  | Instr_Move args => move_instr_str (ma_from args) (ma_to args)
  | Instr_Reveal args => reveal_instr_hex (ra_reveal args) (ra_to args)
  | Instr_Set args => set_instr_hex (sa_value args) (sa_to args)
  end.
(** [collect], which stops at the first error. *)
Fixpoint convert_instrs (instrs : list Instr) : outcome ConfigConversionError (list ConfigInstruction) :=
  match instrs with [] => Ok [] | i :: instrs => i ← convert_instr i; instrs ← convert_instrs instrs; Ok (i :: instrs) end.
Definition program_try_from (config : YamlConfig) : outcome ConfigConversionError OwnedConfigProgram :=
  instrs ← convert_instrs (instructions config); Ok (mkProgram instrs).
End convert.
End InstallerYaml.

(** * The installer kernel (installer-kernel) *)

Module InstallerKernel.
Import InstallerConfig.

(** [usize] *)
Definition usize_add (a b : N) : N := ((a + b) mod 2 ^ 32)%N.
Definition usize_sub (a b : N) : N := ((2 ^ 32 + a - b) mod 2 ^ 32)%N.

Definition AUXILIARY_CONFIG_INTERPRETATION_PATH : bytes := str "/__installer_kernel/auxiliary/kernel/boot.wasm".

Section install.
Context {S : Type} {core : SmartRollupCore S} {rc : RevealCore} {nom : NomCrate} {de : DataEncoding} {crates : InstallerCrates}.

(** [read_size] (installer-config, binary/nom.rs): the size, and the offset after it. *)
Definition read_size (path : bytes) (offset : N) : M S bytes (N * N) :=
  '(_, size_buffer) ← M_map_err (fun _ => str "Couldn't read from kernel boot path") (KernelHost.store_read_slice path (N.to_nat offset) (repeat Byte.x00 4));
  mret (of_le_bytes size_buffer, usize_add offset 4).

(** ** Reading instructions (instr.rs) *)

Definition read_config_program_size (config_interpretation_path : bytes) : M S bytes N :=
  kernel_size ← M_map_err (fun _ => str "Couldn't read kernel boot path size") (store_value_size config_interpretation_path);
  let config_program_size_start := usize_sub (N.of_nat kernel_size) 4 in
  '(size, _) ← read_size config_interpretation_path config_program_size_start;
  mret size.
(** The loop reads at least a byte each time, or reads none again and again: [fuel] is the size of the buffer.  The offset after what was read, and the
    buffer. *)
Fixpoint read_instruction_bytes (fuel : nat) (path : bytes) (offset : N) (buffer : bytes) : M S bytes (N * bytes) :=
  match buffer, fuel with
  | [], _ => mret (offset, [])
  | _, O => diverge
  | _, Datatypes.S fuel =>
      '(read_size, buffer) ← M_map_err (fun _ => str "Failed to read kernel boot path in read_instruction")
        (KernelHost.store_read_slice path (N.to_nat offset) buffer);
      if read_size =? 0 then diverge
      else if length buffer <? read_size then panicked PSlice
      else
        '(offset, rest) ← read_instruction_bytes fuel path (usize_add offset (N.of_nat read_size)) (drop read_size buffer);
        mret (offset, take read_size buffer ++ rest)
  end.

(** ** Running the configuration (lib.rs) *)

(** The loop of [install_kernel].  Each turn moves the offset by the four bytes of a size or more, up to the end of a value of less than [2 ^ 31] bytes. *)
Fixpoint run_config (fuel : nat) (end_offset instr_offset : N) (config_instruction_buffer : bytes) : M S bytes unit :=
  if (instr_offset <? end_offset)%N then
    match fuel with
    | O => diverge
    | Datatypes.S fuel =>
        '(instr_size, instr_offset) ← read_size AUXILIARY_CONFIG_INTERPRETATION_PATH instr_offset;
        if (N.of_nat (length config_instruction_buffer) <? instr_size)%N then panicked PSlice
        else
          let instr_size := N.to_nat instr_size in
          '(instr_offset, instr_bytes) ← read_instruction_bytes instr_size AUXILIARY_CONFIG_INTERPRETATION_PATH instr_offset (take instr_size config_instruction_buffer);
          let config_instruction_buffer := instr_bytes ++ drop instr_size config_instruction_buffer in
          instr ← lift (x ← map_err (fun _ => str "Couldn't decode config instruction") (nom_read (A := ConfigInstruction) (take instr_size config_instruction_buffer)); completed x);
          _ ← eval_config_instr instr;
          run_config fuel end_offset instr_offset config_instruction_buffer
    end
  else mret tt.

Definition install_kernel (config_interpretation_path : bytes) : M S bytes unit :=
  r ← M_ok (read_config_program_size config_interpretation_path);
  match r with
  | Some config_program_size =>
      let config_instruction_buffer := repeat Byte.x00 Config_MAX_SIZE in
      kernel_size ← M_map_err (fun _ => str "Failed to read kernel boot path size") (store_value_size config_interpretation_path);
      _ ← M_map_err (fun _ => str "Failed to copy kernel boot before config execution")
        (store_copy config_interpretation_path AUXILIARY_CONFIG_INTERPRETATION_PATH);
      let end_offset := usize_sub (N.of_nat kernel_size) 4 in
      let instr_offset := usize_sub end_offset config_program_size in
      _ ← run_config (Datatypes.S kernel_size) end_offset instr_offset config_instruction_buffer;
      M_map_err (fun _ => str "Failed to delete auxiliary kernel boot after config execution") (store_delete AUXILIARY_CONFIG_INTERPRETATION_PATH)
  | None => fail (str "Failed to read size of config program")
  end.

(** Errors are only written to the debug log. *)
Definition installer {E} : M S E unit :=
  r ← M_ok (install_kernel KERNEL_BOOT_PATH);
  match r with
  | None => mret tt
  | Some _ => _ ← M_ok mark_for_reboot; mret tt
  end.
End install.
End InstallerKernel.

(** * Making installers (installer-client) *)

Module InstallerClient.
Import InstallerConfig InstallerYaml.

(** Files, serde_yaml, the compiled installer kernel and wasm_gen: a custom section is appended to a module. *)
Class ClientCrates := {
  IoError : Type;
  YamlError : Type;
  File : Type;
  file_open : bytes -> outcome IoError File;
  yaml_from_reader : File -> outcome YamlError YamlConfig;
  INSTALLER_KERNEL : bytes;
  write_custom_section : bytes -> bytes -> bytes -> bytes
}.
Class SectionLaws (client : ClientCrates) := section_written wasm name data : exists header, write_custom_section wasm name data = wasm ++ header ++ data.

Definition PREPARE_KERNEL_PATH : bytes := str "/installer/kernel/boot.wasm".

Section client.
Context {nom : NomCrate} {de : DataEncoding} {crates : InstallerCrates} {hex : HexDecode} {client : ClientCrates}.

Inductive ConfigurationError : Type := | FileNotFound (e : IoError) | ParseError (e : YamlError) | YamlConfigInvalid (e : ConfigConversionError).

Definition create_installer_config (root_hash : PreimageHash) (setup_file : option bytes) : outcome ConfigurationError OwnedConfigProgram :=
  let reveal_instructions := [reveal_instr root_hash PREPARE_KERNEL_PATH; move_instr PREPARE_KERNEL_PATH KERNEL_BOOT_PATH] in
  setup_program ← (match setup_file with
                   | None => Ok (mkProgram [])
                   | Some setup_file =>
                       setup_file ← map_err FileNotFound (file_open setup_file);
                       yaml_config ← map_err ParseError (yaml_from_reader setup_file);
                       map_err YamlConfigInvalid (program_try_from yaml_config)
                   end);
  Ok (mkProgram (reveal_instructions ++ program setup_program)).

Definition with_config_program {E} (config_program : OwnedConfigProgram) : outcome E bytes :=
  match bin_write config_program [] with
  | (Ok _, config_program_encoded) => Ok (write_custom_section INSTALLER_KERNEL (str "config") config_program_encoded)
  | (Err _, _) => Panic PUnwrap
  | (Panic p, _) => Panic p
  | (Diverge, _) => Diverge
  end.
End client.
End InstallerClient.

(** * Instructions are read as they were written *)

Import InstallerConfig InstallerYaml InstallerKernel InstallerClient.

(** How instructions are written. *)
Definition path_bytes (p : bytes) : bytes := byte_of_N (N.of_nat (length p)) :: p.
Definition sized_bytes (b : bytes) : bytes := le_bytes 4 (N.of_nat (length b)) ++ b.
Definition instr_bytes (i : ConfigInstruction) : bytes :=
  match i with
  | Config_Reveal r => Byte.x00 :: sized_bytes (r_hash r) ++ path_bytes (r_to r)
  | Config_Move m => Byte.x01 :: path_bytes (m_from m) ++ path_bytes (m_to m)
  | Config_Set v => Byte.x02 :: sized_bytes (s_value v) ++ path_bytes (s_to v)
  end.
Definition entries (instrs : list ConfigInstruction) : bytes := mjoin (map (fun i => sized_bytes (instr_bytes i)) instrs).

(** Paths are valid, and values are not longer than what the host reads at once. *)
Definition instr_ok (i : ConfigInstruction) : Prop :=
  match i with
  | Config_Reveal r => length (r_hash r) <= MAX_FILE_CHUNK_SIZE /\ path_ok (r_to r)
  | Config_Move m => path_ok (m_from m) /\ path_ok (m_to m)
  | Config_Set v => length (s_value v) <= MAX_FILE_CHUNK_SIZE /\ path_ok (s_to v)
  end.

Definition PATHS_FIT : PATH_MAX_SIZE = 242 := eq_refl.
Definition CONFIG_FITS : Config_MAX_SIZE = N.to_nat 487 := eq_refl.
Lemma path_length p : path_ok p -> length p <= 242.
Proof. intros (?&?&?&?&H). by rewrite PATHS_FIT in H. Qed.
Lemma assert_from_ok {E} p : path_ok p -> assert_from (E := E) p = Ok p.
Proof. intros H%validate_path_spec. unfold assert_from. by rewrite H. Qed.
Lemma length_sized b : length (sized_bytes b) = 4 + length b.
Proof. unfold sized_bytes. by rewrite length_app, length_le_bytes. Qed.
Lemma instr_length i : instr_ok i -> length (instr_bytes i) < N.to_nat 3000.
Proof.
  destruct i as [r|m|v]; intros [H1 H2]; cbn [instr_bytes length]; rewrite length_app, ?length_sized; unfold path_bytes; cbn [length];
    pose proof (path_length _ H2); [|pose proof (path_length _ H1)|]; unfold MAX_FILE_CHUNK_SIZE in *; lia.
Qed.

Lemma entries_count instrs : length instrs <= length (entries instrs).
Proof.
  induction instrs as [|i instrs IH]; [done|]. change (entries (i :: instrs)) with (sized_bytes (instr_bytes i) ++ entries instrs). rewrite length_app, length_sized. cbn [length]. lia.
Qed.

Section encoding.
Context {nom : NomCrate} {de : DataEncoding} {crates : InstallerCrates} {nlaws : NomLaws nom} {dlaws : DataLaws de} {ilaws : InstallerLaws crates}.

Lemma size_written n : (N.of_nat n < 2 ^ 32)%N -> written (put_le_size n) (le_bytes 4 (N.of_nat n)).
Proof. intros H. unfold put_le_size. rewrite (proj2 (N.ltb_lt _ _)) by done. apply put_written. Qed.
Lemma path_written p : path_ok p -> written (path_dynamic p) (path_bytes p).
Proof.
  intros H%path_length. unfold path_dynamic. rewrite N.mod_small by lia. by apply (written_then _ _ [_]); apply put_written.
Qed.
Lemma value_written b : length b <= MAX_FILE_CHUNK_SIZE -> written (bytes_dynamic b) (sized_bytes b).
Proof. unfold MAX_FILE_CHUNK_SIZE. intros H. apply written_then; [apply size_written; lia|apply put_written]. Qed.
Lemma path_read p rest : path_ok p -> nom_read_ref_path (path_bytes p ++ rest) = Ok (p, rest).
Proof.
  intros H. pose proof (path_length p H) as Hl. eapply map_result_read; [|by apply assert_from_ok]. apply complete_read.
  apply length_data_read with (N.of_nat (length p)); [|done]. unfold bounded_u8_size, short_size, path_bytes. cbn [app]. rewrite u8_read. cbn [mbind outcome_bind].
  rewrite byte_to_of_N by lia. by rewrite (proj2 (N.leb_le _ _)) by (rewrite PATHS_FIT; lia).
Qed.
Lemma value_read b rest : length b <= MAX_FILE_CHUNK_SIZE -> nom_read_ref_bytes (sized_bytes b ++ rest) = Ok (b, rest).
Proof.
  intros H. unfold MAX_FILE_CHUNK_SIZE in H. eapply map_result_read; [|done]. apply complete_read. apply length_data_read with (N.of_nat (length b)); [|done].
  unfold bounded_size, size, sized_bytes. rewrite <- app_assoc, u32_le_read by lia. cbn [mbind outcome_bind].
  by rewrite (proj2 (N.leb_le _ _)) by (unfold MAX_FILE_CHUNK_SIZE; lia).
Qed.

Lemma instr_written i : instr_ok i -> written (bin_write i) (instr_bytes i).
Proof.
  destruct i as [r|m|v]; intros [H1 H2]; (apply (variant_written _ _ _ _ _ [_]); [apply u8_written|]); apply written_then;
    apply field_written; by (apply path_written || apply value_written).
Qed.
Lemma instr_read i rest : instr_ok i -> nom_read (instr_bytes i ++ rest) = Ok (i, rest).
Proof.
  destruct i as [[h p]|[p q]|[v p]]; intros [H1 H2]; cbn [instr_bytes r_hash r_to m_from m_to s_value s_to app] in *; unfold nom_read, ConfigInstruction_read; rewrite u8_read;
    cbn [mbind outcome_bind]; rewrite map_read; [unfold nom_read, RevealInstruction_read|unfold nom_read, MoveInstruction_read|unfold nom_read, SetInstruction_read];
    rewrite map_read, tuple2_read, <- app_assoc; [rewrite value_read by done|rewrite path_read by done|rewrite value_read by done]; cbn [mbind outcome_bind fst snd];
    by rewrite path_read by done.
Qed.

(** Entries are written one after the other, and their size last. *)
Lemma entries_written instrs : Forall instr_ok instrs -> written (write_instrs instrs) (entries instrs).
Proof.
  induction 1 as [|i instrs Hi _ IH]; [intros out; cbn; by rewrite app_nil_r|]. intros out. cbn [write_instrs]. pose proof (instr_length i Hi) as Hl.
  rewrite (instr_written i Hi []). cbn [app]. unfold mbind, M_bind, lift. rewrite size_written by lia. rewrite IH.
  change (entries (i :: instrs)) with (sized_bytes (instr_bytes i) ++ entries instrs). unfold sized_bytes. by rewrite <- !app_assoc.
Qed.
Lemma program_written p code : Forall instr_ok (program p) -> bin_write p [] = (Ok tt, code) ->
  code = entries (program p) ++ le_bytes 4 (N.of_nat (length (entries (program p)))) /\ (N.of_nat (length (entries (program p))) < 2 ^ 32)%N.
Proof.
  intros H. unfold bin_write, OwnedConfigProgram_write, mbind, M_bind, get. rewrite (entries_written _ H []). cbn [app length]. rewrite Nat.sub_0_r.
  destruct (decide (N.of_nat (length (entries (program p))) < 2 ^ 32)%N) as [Hl|Hl].
  - rewrite size_written by done. by intros [= <-].
  - unfold put_le_size. rewrite (proj2 (N.ltb_nlt _ _)) by done. done.
Qed.
End encoding.

(** * What instructions leave alone *)

(** Revealing only changes the state through what is done with the contents. *)
Lemma reveal_levels_preserves {St} {rc : RevealCore} (R : St -> St -> Prop) (save : bytes -> M St bytes unit) :
  (forall st, R st st) -> (forall a b c, R a b -> R b c -> R a c) -> (forall content st, R st (save content st).2) ->
  forall levels hash rest st, R st (reveal_levels levels hash rest save st).2.
Proof.
  intros Hrefl Htrans Hsave. induction levels as [|levels IH]; intros hash rest st; cbn [reveal_levels]; [apply Hrefl|].
  unfold fetch_page_raw, reveal_preimage, M_map_err, mbind, M_bind, lift. destruct (core_reveal_preimage hash (length rest)) as [c bs].
  destruct (host_result c) as [n| | |]; cbn -[Nat.ltb]; [|apply Hrefl..]. destruct (_ <? n); cbn; [apply Hrefl|].
  destruct (slice_page_try_from _) as [[content|inner]| | |]; cbn; [| |apply Hrefl..].
  - pose proof (Hsave content st) as Hs. by destruct (save content st) as [[[]|?|?|] st'].
  - assert (H : forall hs (m : M St bytes bytes), (forall st, R st (m st).2) ->
      forall st, R st (foldl (fun m hash => rest ← m; reveal_levels levels hash rest save) m hs st).2).
    { clear -IH Htrans. induction hs as [|h hs IHhs]; intros m Hm st; [apply Hm|]. cbn [foldl]. apply IHhs. clear st. intros st. unfold mbind, M_bind.
      pose proof (Hm st) as H1. destruct (m st) as [[r|?|?|] st1]; cbn in *; try done. eapply Htrans; [exact H1|apply IH]. }
    unfold mbind, M_bind in H. match goal with |- context [foldl ?f ?m ?l st] => pose proof (H l m (fun st => Hrefl st) st) as Hf; by destruct (foldl f m l st) as [[r|?|?|] st'] end.
Qed.

(** Values at these paths are not changed by an instruction, whether it succeeds or not. *)
Definition untouched (i : ConfigInstruction) (q : list bytes) : Prop :=
  match i with
  | Config_Reveal r => q <> path_steps (r_to r)
  | Config_Move m => outside_of (m_from m) q /\ outside_of (m_to m) q
  | Config_Set v => q <> path_steps (s_to v)
  end.

Section frame.
Context {S : Type} {core : SmartRollupCore S} {laws : CoreLaws S} {input : InputCore S} {frame : HostFrame S} {rc : RevealCore}.
Implicit Types (s : S).

Lemma write_page_keeps to_ content : path_ok to_ -> forall st : N * S, c_ok st.2 -> keeps (fun q => q <> path_steps to_) st.2 (write_kernel_page to_ content st).2.2.
Proof.
  intros Hp [n s] Hs. cbn [snd] in *. unfold write_kernel_page, append_content, M_map_err, mbind, M_bind. pose proof (store_write_keeps to_ content (N.to_nat n) Hp s Hs) as H.
  by destruct (store_write to_ content (N.to_nat n) s) as [[[]|?|?|] s'].
Qed.
Lemma reveal_keeps hash to_ : path_ok to_ -> keepsM (fun q => q <> path_steps to_) (reveal_root_hash_to_store hash to_).
Proof.
  intros Hp s Hs. unfold reveal_root_hash_to_store, reveal_loop, mbind, M_bind.
  assert (H : keeps (fun q => q <> path_steps to_) s (reveal_levels (MAX_DAC_LEVELS - 0) hash (repeat Byte.x00 (MAX_PAGE_SIZE * MAX_DAC_LEVELS)) (write_kernel_page to_) (0%N, s)).2.2).
  { apply (reveal_levels_preserves (fun st st' : N * S => c_ok st.2 -> keeps (fun q => q <> path_steps to_) st.2 st'.2)); [intros st; apply keeps_refl| | |done].
    - intros a b c Hab Hbc Ha. eapply keeps_trans; [by apply Hab|]. apply Hbc, Hab, Ha.
    - intros content st Hst. by apply write_page_keeps. }
  destruct (reveal_levels _ _ _ _ _) as [[r|?|?|] [k s']]; exact H.
Qed.
Lemma eval_keeps i : instr_ok i -> keepsM (untouched i) (eval_config_instr i).
Proof.
  destruct i as [[h p]|[p q]|[v p]]; intros [H1 H2]; cbn [eval_config_instr untouched r_to m_from m_to s_to] in *.
  - apply keepsM_lift_bind. intros h' _. by apply reveal_keeps.
  - by apply keepsM_map_err, store_move_keeps.
  - by apply keepsM_map_err, store_write_keeps.
Qed.
Lemma eval_instrs_keeps instrs P : Forall (fun i => instr_ok i /\ forall q, P q -> untouched i q) instrs -> keepsM P (eval_instrs instrs).
Proof.
  induction 1 as [|i instrs [Hi HP] _ IH]; cbn [eval_instrs]; [apply keepsM_ret|]. apply keepsM_bind; [|by intros _].
  by eapply keepsM_weaken; [apply eval_keeps|].
Qed.
End frame.

(** * The installer runs the program *)

Abbreviation AUX := (path_steps AUXILIARY_CONFIG_INTERPRETATION_PATH).
Lemma aux_path : path_ok AUXILIARY_CONFIG_INTERPRETATION_PATH.
Proof. apply validate_path_spec. vm_compute. reflexivity. Qed.

(** What the installer runs: instructions that fit its buffer and do not touch the copy of its code. *)
Record runnable (i : ConfigInstruction) : Prop := {
  run_ok : instr_ok i;
  run_fits : length (instr_bytes i) <= Config_MAX_SIZE;
  run_avoids : untouched i AUX
}.

Lemma usize_add_small a b : (N.of_nat a + N.of_nat b < 2 ^ 32)%N -> usize_add (N.of_nat a) (N.of_nat b) = N.of_nat (a + b).
Proof. intros H. unfold usize_add. rewrite N.mod_small by done. lia. Qed.
Lemma usize_sub_small a b : b <= a -> (N.of_nat a < 2 ^ 32)%N -> usize_sub (N.of_nat a) (N.of_nat b) = N.of_nat (a - b).
Proof.
  intros H Ha. unfold usize_sub. replace (2 ^ 32 + N.of_nat a - N.of_nat b)%N with (N.of_nat (a - b) + 1 * 2 ^ 32)%N by lia.
  rewrite N.Div0.mod_add. apply N.mod_small. lia.
Qed.
Lemma slice_middle n (pre mid rest : bytes) : n <= length mid -> slice (length pre) n (pre ++ mid ++ rest) = take n mid.
Proof. intros H. unfold slice. by rewrite drop_app_length, take_app_le. Qed.

Section run.
Context {S : Type} {core : SmartRollupCore S} {laws : CoreLaws S} {input : InputCore S} {frame : HostFrame S} {rc : RevealCore}
  {nom : NomCrate} {de : DataEncoding} {crates : InstallerCrates} {nlaws : NomLaws nom} {dlaws : DataLaws de} {ilaws : InstallerLaws crates}.
Implicit Types (s : S).

Lemma read_part_ok s path pre mid rest buffer : c_ok s -> path_ok path -> c_value s (path_steps path) = Some (pre ++ mid ++ rest) ->
  length buffer = length mid -> let n := Nat.min MAX_FILE_CHUNK_SIZE (length mid) in
  KernelHost.store_read_slice path (length pre) buffer s = (Ok (n, take n mid ++ drop n buffer), s).
Proof.
  intros Hs Hp Hv Hb n. unfold KernelHost.store_read_slice. rewrite (c_read s path _ _ _ Hs Hp Hv) by (rewrite length_app; lia). cbn zeta.
  replace (Nat.min MAX_FILE_CHUNK_SIZE (Nat.min (length buffer) (length (pre ++ mid ++ rest) - length pre))) with n by (rewrite !length_app; lia).
  rewrite slice_middle by lia. unfold host_result. rewrite wrap_nat. cbn [map_err mbind outcome_bind]. rewrite length_take. by replace (Nat.min n (length mid)) with n by lia.
Qed.
Lemma read_size_ok s path pre n rest : c_ok s -> path_ok path -> c_value s (path_steps path) = Some (pre ++ le_bytes 4 n ++ rest) ->
  (n < 2 ^ 32)%N -> size_ok (length (pre ++ le_bytes 4 n ++ rest)) -> read_size path (N.of_nat (length pre)) s = (Ok (n, N.of_nat (length pre + 4)), s).
Proof.
  intros Hs Hp Hv Hn Hz. unfold size_ok, VALUE_SIZE_LIMIT in Hz. rewrite !length_app, length_le_bytes in Hz. unfold read_size, M_map_err, mbind, M_bind. rewrite Nat2N.id.
  rewrite (read_part_ok s path pre (le_bytes 4 n) rest) by (rewrite ?length_le_bytes; done). rewrite length_le_bytes. change (Nat.min MAX_FILE_CHUNK_SIZE 4) with 4.
  cbn [map_err]. rewrite take_ge by by rewrite length_le_bytes. cbn [repeat drop]. rewrite app_nil_r, of_le_bytes_le_bytes by done.
  change 4%N with (N.of_nat 4). by rewrite usize_add_small by lia.
Qed.
Lemma read_instruction_ok fuel : forall s path pre mid rest buffer, c_ok s -> path_ok path -> c_value s (path_steps path) = Some (pre ++ mid ++ rest) ->
  length buffer = length mid -> length mid <= fuel -> size_ok (length (pre ++ mid ++ rest)) ->
  read_instruction_bytes fuel path (N.of_nat (length pre)) buffer s = (Ok (N.of_nat (length pre + length mid), mid), s).
Proof.
  induction fuel as [|fuel IH]; intros s path pre mid rest buffer Hs Hp Hv Hb Hf Hz.
  { destruct mid; [|cbn in Hf; lia]. destruct buffer; [|done]. cbn. by rewrite Nat.add_0_r. }
  destruct buffer as [|b buffer]. { destruct mid; [|done]. cbn. by rewrite Nat.add_0_r. }
  cbn [read_instruction_bytes]. unfold M_map_err, mbind, M_bind. rewrite Nat2N.id. rewrite (read_part_ok s path pre mid rest) by done.
  set (n := Nat.min MAX_FILE_CHUNK_SIZE (length mid)). assert (Hn : 0 < n <= length mid) by (unfold n, MAX_FILE_CHUNK_SIZE; cbn [length] in Hb; lia).
  cbn [map_err]. rewrite (proj2 (Nat.eqb_neq _ _)) by lia. assert (Ht : length (take n mid) = n) by (rewrite length_take; lia).
  rewrite (proj2 (Nat.ltb_ge _ _)) by (rewrite length_app, Ht; lia). rewrite drop_app_length', take_app_length' by done.
  unfold size_ok, VALUE_SIZE_LIMIT in Hz. rewrite !length_app in Hz. rewrite usize_add_small by lia.
  pose proof (IH s path (pre ++ take n mid) (drop n mid) rest (drop n (b :: buffer))) as E. rewrite (length_app pre (take n mid)), Ht in E. rewrite E.
  - rewrite length_drop, take_drop. by replace (length pre + n + (length mid - n)) with (length pre + length mid) by lia.
  - done.
  - done.
  - rewrite <- app_assoc, (app_assoc (take n mid)), take_drop. done.
  - by rewrite !length_drop, Hb.
  - rewrite length_drop. lia.
  - rewrite <- app_assoc, (app_assoc (take n mid)), take_drop. unfold size_ok, VALUE_SIZE_LIMIT. rewrite !length_app. lia.
Qed.

(** A turn of the loop evaluates the next instruction, or panics when it is too long for the buffer. *)
Lemma run_config_step fuel end_offset i pre rest buffer s : instr_ok i -> c_ok s -> c_value s AUX = Some (pre ++ sized_bytes (instr_bytes i) ++ rest) ->
  size_ok (length (pre ++ sized_bytes (instr_bytes i) ++ rest)) -> length buffer = Config_MAX_SIZE -> length pre < end_offset ->
  run_config (Datatypes.S fuel) (N.of_nat end_offset) (N.of_nat (length pre)) buffer s =
    if Config_MAX_SIZE <? length (instr_bytes i) then (Panic PSlice, s)
    else (_ ← eval_config_instr i; run_config fuel (N.of_nat end_offset) (N.of_nat (length pre + length (sized_bytes (instr_bytes i))))
      (instr_bytes i ++ drop (length (instr_bytes i)) buffer)) s.
Proof.
  intros Hi Hs Hv Hz Hb He. pose proof (instr_length i Hi) as Hlen. pose proof (instr_read i [] Hi) as Er. rewrite app_nil_r in Er. rewrite length_sized.
  set (bs := instr_bytes i) in *. unfold sized_bytes in Hv, Hz. rewrite <- !app_assoc in Hv, Hz. cbn [run_config]. rewrite (proj2 (N.ltb_lt _ _)) by lia.
  unfold mbind at 1, M_bind at 1. rewrite (read_size_ok s _ pre (N.of_nat (length bs)) (bs ++ rest) Hs aux_path Hv ltac:(lia) Hz). rewrite Hb.
  destruct (Nat.ltb_spec Config_MAX_SIZE (length bs)) as [Hlt|Hge]; [by rewrite (proj2 (N.ltb_lt _ _)) by lia|].
  rewrite (proj2 (N.ltb_ge _ _)) by lia. rewrite Nat2N.id. unfold mbind at 1, M_bind at 1.
  pose proof (read_instruction_ok (length bs) s AUXILIARY_CONFIG_INTERPRETATION_PATH (pre ++ le_bytes 4 (N.of_nat (length bs))) bs rest
    (take (length bs) buffer) Hs aux_path) as E. rewrite (length_app pre (le_bytes _ _)), length_le_bytes, <- !app_assoc, length_take in E.
  rewrite (E Hv ltac:(lia) ltac:(lia) Hz). clear E. rewrite take_app_length, Er. cbn [map_err mbind outcome_bind completed snd fst]. unfold lift, M_bind at 1.
  by replace (length pre + 4 + length bs) with (length pre + (4 + length bs)) by lia.
Qed.
(** The loop does what evaluating the instructions does, errors and panics included, and goes on after them. *)
Lemma run_config_prefix instrs end_offset : Forall runnable instrs -> forall fuel pre tail buffer s, c_ok s ->
  c_value s AUX = Some (pre ++ entries instrs ++ tail) -> size_ok (length (pre ++ entries instrs ++ tail)) -> length buffer = Config_MAX_SIZE ->
  length pre + length (entries instrs) <= end_offset ->
  exists buffer', length buffer' = Config_MAX_SIZE /\ run_config (length instrs + fuel) (N.of_nat end_offset) (N.of_nat (length pre)) buffer s =
    (_ ← eval_instrs instrs; run_config fuel (N.of_nat end_offset) (N.of_nat (length pre + length (entries instrs))) buffer') s.
Proof.
  induction 1 as [|i instrs [Hi Hfit Hav] _ IH]; intros fuel pre tail buffer s Hs Hv Hz Hb He.
  { exists buffer. cbn [length entries map mjoin list_join Nat.add]. by rewrite Nat.add_0_r. }
  change (entries (i :: instrs)) with (sized_bytes (instr_bytes i) ++ entries instrs) in *. rewrite <- !app_assoc in Hv, Hz.
  pose proof (length_sized (instr_bytes i)) as Hsz. rewrite length_app in He. cbn [length Nat.add].
  pose proof (run_config_step (length instrs + fuel) end_offset i pre (entries instrs ++ tail) buffer s Hi Hs Hv Hz Hb ltac:(lia)) as Estep.
  rewrite (proj2 (Nat.ltb_ge _ _)) in Estep by done. unfold mbind, M_bind in Estep. cbn [eval_instrs]. unfold mbind, M_bind. pose proof (eval_keeps i Hi s Hs) as Hk.
  destruct (eval_config_instr i s) as [[[]|?|?|] s1]; [|by exists buffer..]. cbn [snd] in Hk.
  destruct (IH fuel (pre ++ sized_bytes (instr_bytes i)) tail (instr_bytes i ++ drop (length (instr_bytes i)) buffer) s1) as (buffer'&Hb'&E).
  - apply Hk.
  - destruct Hk as [_ Hk]. rewrite Hk by done. by rewrite Hv, <- !app_assoc.
  - by rewrite <- !app_assoc.
  - rewrite length_app, length_drop. lia.
  - rewrite length_app. lia.
  - exists buffer'. split; [done|]. rewrite Estep. rewrite (length_app pre (sized_bytes _)) in E. rewrite E, length_app. by rewrite (Nat.add_assoc (length pre)).
Qed.
Lemma run_config_evaluates instrs pre tail buffer s fuel : Forall runnable instrs -> length instrs <= fuel -> c_ok s ->
  c_value s AUX = Some (pre ++ entries instrs ++ tail) -> size_ok (length (pre ++ entries instrs ++ tail)) -> length buffer = Config_MAX_SIZE ->
  run_config fuel (N.of_nat (length pre + length (entries instrs))) (N.of_nat (length pre)) buffer s = eval_instrs instrs s.
Proof.
  intros Hrun Hf Hs Hv Hz Hb. replace fuel with (length instrs + (fuel - length instrs)) by lia.
  destruct (run_config_prefix instrs _ Hrun (fuel - length instrs) pre tail buffer s Hs Hv Hz Hb (le_n _)) as (buffer'&_&->). unfold mbind, M_bind.
  destruct (eval_instrs instrs s) as [[[]|?|?|] s1]; [|done..]. by destruct (fuel - length instrs); cbn [run_config]; rewrite N.ltb_irrefl.
Qed.

(** ** Before the loop *)

(** The code of an installer: the size of its program is at the end. *)
Definition code_of (wasm : bytes) (instrs : list ConfigInstruction) : bytes := wasm ++ entries instrs ++ le_bytes 4 (N.of_nat (length (entries instrs))).
Lemma length_code wasm instrs : length (code_of wasm instrs) = length wasm + length (entries instrs) + 4.
Proof. unfold code_of. rewrite !length_app, length_le_bytes. lia. Qed.

(** The program is copied away before it is run. *)
Definition copied (path : bytes) s s' : Prop :=
  c_ok s' /\ forall q, c_value s' q = match strip AUX q with Some r => c_value s (path_steps path ++ r) | None => c_value s q end.
Lemma install_starts path s wasm instrs : c_ok s -> path_ok path -> c_value s (path_steps path) = Some (code_of wasm instrs) -> size_ok (length (code_of wasm instrs)) ->
  exists s1, copied path s s1 /\ c_value s1 AUX = Some (code_of wasm instrs) /\ install_kernel path s =
    (_ ← run_config (Datatypes.S (length (code_of wasm instrs))) (N.of_nat (length wasm + length (entries instrs))) (N.of_nat (length wasm)) (repeat Byte.x00 Config_MAX_SIZE);
     M_map_err (fun _ => str "Failed to delete auxiliary kernel boot after config execution") (store_delete AUXILIARY_CONFIG_INTERPRETATION_PATH)) s1.
Proof.
  intros Hs Hp Hv Hz. destruct (store_copy_ok s path AUXILIARY_CONFIG_INTERPRETATION_PATH Hs Hp aux_path) as (s1&Ec&Hs1&Hv1).
  { eapply (value_exists s path []); [done|done|]. rewrite app_nil_r, Hv. done. }
  exists s1. split; [done|]. split. { by rewrite Hv1, strip_refl, app_nil_r. }
  pose proof (length_code wasm instrs) as Hlen. pose proof (store_value_size_spec s path _ Hs Hp Hv Hz) as Esz. set (code := code_of wasm instrs) in *.
  unfold size_ok, VALUE_SIZE_LIMIT in Hz. set (total := length (entries instrs)) in *.
  assert (Hend : usize_sub (N.of_nat (length code)) 4 = N.of_nat (length wasm + total)).
  { change 4%N with (N.of_nat 4). rewrite usize_sub_small by lia. f_equal. lia. }
  assert (Er : read_size path (N.of_nat (length wasm + total)) s = (Ok (N.of_nat total, N.of_nat (length wasm + total + 4)), s)).
  { pose proof (read_size_ok s path (wasm ++ entries instrs) (N.of_nat total) []) as E. rewrite (length_app wasm (entries instrs)), app_nil_r, <- app_assoc in E.
    fold total in E. apply E; [done|done|done|lia|]. change (size_ok (length code)). done. }
  unfold install_kernel, read_config_program_size, M_ok, M_map_err. unfold mbind at 1, M_bind at 1. unfold mbind at 1, M_bind at 1. rewrite Esz. cbn [map_err].
  rewrite Hend. unfold mbind at 1, M_bind at 1. rewrite Er. cbn [mret M_ret]. unfold mbind at 1, M_bind at 1. rewrite Esz. cbn [map_err]. unfold mbind at 1, M_bind at 1. rewrite Ec. cbn [map_err].
  rewrite Hend, usize_sub_small by lia. by replace (length wasm + total - total) with (length wasm) by lia.
Qed.

Lemma install_evaluates path s wasm p : c_ok s -> path_ok path -> Forall runnable (program p) ->
  c_value s (path_steps path) = Some (code_of wasm (program p)) -> size_ok (length (code_of wasm (program p))) ->
  exists s1 s3, copied path s s1 /\ let '(o, s2) := evaluate p s1 in install_kernel path s = (o, s3) /\
    match o with Ok _ => c_ok s3 /\ forall q, c_value s3 q = match strip AUX q with Some _ => None | None => c_value s2 q end | _ => s3 = s2 end.
Proof.
  intros Hs Hp Hrun Hv Hz. destruct (install_starts path s wasm (program p) Hs Hp Hv Hz) as (s1&Hcp&Haux&E). exists s1. pose proof (length_code wasm (program p)) as Hlen.
  rewrite E. unfold evaluate. unfold mbind, M_bind.
  rewrite (run_config_evaluates (program p) wasm (le_bytes 4 (N.of_nat (length (entries (program p)))))).
  - pose proof (eval_instrs_keeps (program p) (fun q => q = AUX)) as Hk. specialize (Hk ltac:(eapply Forall_impl; [exact Hrun|]; intros i []; split; [done|by intros q ->]) s1 (proj1 Hcp)).
    destruct (eval_instrs (program p) s1) as [[[]|e|x|] s2]; [|by exists s2..]. cbn [snd] in Hk.
    destruct (store_delete_ok s2 AUXILIARY_CONFIG_INTERPRETATION_PATH (proj1 Hk) aux_path) as (s3&Ed&Hs3&Hv3).
    { eapply (value_exists s2 _ []); [apply Hk|apply aux_path|]. rewrite app_nil_r, (proj2 Hk) by done. by rewrite Haux. }
    exists s3. split; [done|]. unfold M_map_err. rewrite Ed. done.
  - done.
  - pose proof (entries_count (program p)). lia.
  - apply Hcp.
  - done.
  - done.
  - apply repeat_length.
Qed.

(** C19: The installer kernel does what its program says.  A program whose encoding is appended to the code of a kernel, and whose instructions fit
    the buffer and avoid the copy of the code, is run by [install_kernel] as [evaluate] runs it directly after the code was copied: the outcome is the same, also when an
    instruction fails or panics, and when it succeeds the storage differs only in that the copy of the code is gone. *)
Theorem install_runs_program path s wasm p code : c_ok s -> path_ok path -> Forall runnable (program p) -> bin_write p [] = (Ok tt, code) ->
  c_value s (path_steps path) = Some (wasm ++ code) -> size_ok (length (wasm ++ code)) ->
  exists s1 s3, copied path s s1 /\ let '(o, s2) := evaluate p s1 in install_kernel path s = (o, s3) /\
    match o with Ok _ => c_ok s3 /\ forall q, c_value s3 q = match strip AUX q with Some _ => None | None => c_value s2 q end | _ => s3 = s2 end.
Proof.
  intros Hs Hp Hrun Hw. assert (Hok : Forall instr_ok (program p)) by (eapply Forall_impl; [exact Hrun|by intros ? []]).
  destruct (program_written p code Hok Hw) as [-> _]. by apply install_evaluates.
Qed.

(** The buffer of the installer holds instructions that move or reveal, the sizes of which were thought of.  A longer instruction, such as one that sets a value of 500 bytes, makes the installer panic
    once the instructions before it were run: what they did stays, and so does the copy of the code. *)
Theorem long_instruction_panics path s wasm before i after code : c_ok s -> path_ok path -> Forall runnable before -> Forall instr_ok (i :: after) -> Config_MAX_SIZE < length (instr_bytes i) ->
  bin_write (mkProgram (before ++ i :: after)) [] = (Ok tt, code) -> c_value s (path_steps path) = Some (wasm ++ code) -> size_ok (length (wasm ++ code)) ->
  exists s1, copied path s s1 /\ install_kernel path s = (_ ← eval_instrs before; panicked PSlice) s1.
Proof.
  intros Hs Hp Hrun Hok Hlong Hw Hv Hz. assert (Hall : Forall instr_ok (before ++ i :: after)).
  { apply Forall_app. split; [|done]. eapply Forall_impl; [exact Hrun|by intros ? []]. }
  destruct (program_written (mkProgram (before ++ i :: after)) code Hall Hw) as [-> _]. cbn [program] in *. fold (code_of wasm (before ++ i :: after)) in *.
  destruct (install_starts path s wasm _ Hs Hp Hv Hz) as (s1&Hcp&Haux&E). exists s1. split; [done|]. rewrite E. clear E.
  apply Forall_cons in Hok as [Hi _]. pose proof (instr_length i Hi) as Hlen. set (bs := instr_bytes i) in *. unfold code_of in Haux, Hz. set (tail := le_bytes 4 _) in *.
  pose proof (length_code wasm (before ++ i :: after)) as Hcode. pose proof (entries_count (before ++ i :: after)) as Hcount. rewrite length_app in Hcount. cbn [length] in Hcount.
  assert (Hent : entries (before ++ i :: after) = entries before ++ sized_bytes bs ++ entries after) by (unfold entries; by rewrite map_app, join_app).
  pose proof (length_sized bs) as Hsz. set (fuel := length (code_of wasm (before ++ i :: after)) - length before) in *. rewrite Hent in *. rewrite !length_app in Hcode, Hcount |- *. rewrite <- !app_assoc in Haux, Hz.
  destruct (run_config_prefix before (length wasm + (length (entries before) + (length (sized_bytes bs) + length (entries after)))) Hrun (Datatypes.S fuel)
    wasm _ (repeat Byte.x00 Config_MAX_SIZE) s1 (proj1 Hcp) Haux Hz) as (buffer'&Hb'&E); [apply repeat_length|lia|].
  replace (Datatypes.S (length (code_of wasm (before ++ i :: after)))) with (length before + Datatypes.S fuel) by lia.
  unfold mbind at 1, M_bind at 1. rewrite E. unfold mbind, M_bind. pose proof (eval_instrs_keeps before (fun q => q = AUX)) as Hk.
  specialize (Hk ltac:(eapply Forall_impl; [exact Hrun|]; intros ? []; split; [done|by intros q ->]) s1 (proj1 Hcp)).
  destruct (eval_instrs before s1) as [[[]|?|?|] s2]; [|done..]. cbn [snd] in Hk. rewrite app_assoc in Haux, Hz.
  pose proof (run_config_step fuel (length wasm + (length (entries before) + (length (sized_bytes bs) + length (entries after)))) i (wasm ++ entries before) (entries after ++ tail) buffer' s2 Hi (proj1 Hk)) as Es.
  rewrite (proj2 Hk) in Es by done. rewrite (length_app wasm (entries before)) in Es. rewrite (Es Haux Hz Hb' ltac:(lia)). by rewrite (proj2 (Nat.ltb_lt _ _)).
Qed.
End run.

(** * Revealing a prepared kernel *)

(** The host reveals the page in any buffer that is large enough. *)
Definition known {rc : RevealCore} (x : bytes * bytes) : Prop := forall max, length x.2 <= max -> core_reveal_preimage x.1 max = (Z.of_nat (length x.2), x.2).

(** The trees of pages, of a height, below a hash. *)
Fixpoint holds {rc : RevealCore} (height : nat) (hash content : bytes) : Prop :=
  match height with
  | O => content <> [] /\ length content <= MAX_CONTENT_SIZE /\ known (hash, content_bytes content)
  | S height => exists hs cs, hs <> [] /\ length hs <= MAX_HASHES_PER_PAGE /\ Forall (fun h => length h = PREIMAGE_HASH_SIZE) hs /\
      known (hash, hashes_bytes hs) /\ Forall2 (holds height) hs cs /\ content = mjoin cs
  end.
Lemma page_lengths : (forall c, length c <= MAX_CONTENT_SIZE -> length (content_bytes c) <= MAX_PAGE_SIZE) /\
  (forall hs, length hs <= MAX_HASHES_PER_PAGE -> Forall (fun h => length h = PREIMAGE_HASH_SIZE) hs -> length (hashes_bytes hs) <= MAX_PAGE_SIZE).
Proof.
  split.
  - intros c Hc. unfold content_bytes. cbn [length]. rewrite length_app, length_be_bytes. unfold MAX_CONTENT_SIZE in Hc. rewrite MAX_FITS in Hc. unfold MAX_PAGE_SIZE. lia.
  - intros hs Hn Hl. pose proof (length_mjoin _ _ Hl) as Hj. unfold hashes_bytes. cbn [length]. rewrite length_app, length_be_bytes, Hj. rewrite HASHES_FIT in Hn.
    unfold MAX_PAGE_SIZE. change PREIMAGE_HASH_SIZE with 33. lia.
Qed.

Section reveal.
Context {S : Type} {core : SmartRollupCore S} {laws : CoreLaws S} {rc : RevealCore}.
Implicit Types (s : S).

(** Revealing what is below a hash writes the contents after the [n] bytes that were written before. *)
Definition writes (levels : nat) (hash content : bytes) : Prop := forall to_ rest n s, path_ok to_ -> MAX_PAGE_SIZE * levels <= length rest -> c_ok s ->
  n <= length (default [] (c_value s (path_steps to_))) -> size_ok (n + length content) ->
  exists rest' s', reveal_levels levels hash rest (write_kernel_page to_) (N.of_nat n, s) = (Ok rest', (N.of_nat (n + length content), s')) /\
    length rest' = length rest /\ sets s to_ (Some (patch (default [] (c_value s (path_steps to_))) n content)) s'.

Lemma known_fetch {St} hash page rest (st : St) : known (hash, page) -> length page <= length rest -> fetch_page_raw hash rest st = (Ok (page, drop (length page) rest), st).
Proof.
  intros Hk Hl. unfold fetch_page_raw, reveal_preimage, mbind, M_bind. specialize (Hk _ Hl). cbn [fst snd] in Hk. rewrite Hk. unfold host_result. rewrite wrap_nat. cbn [map_err mbind outcome_bind].
  rewrite (proj2 (Nat.ltb_ge _ _)) by (rewrite length_app; lia). by rewrite take_app_length, drop_app_length.
Qed.
Lemma content_writes levels hash content : holds 0 hash content -> writes (Datatypes.S levels) hash content.
Proof.
  intros (Hne&Hl&Hk) to_ rest n s Hp Hr Hs Hn Hz. pose proof (proj1 page_lengths _ Hl) as Hpl. cbn [reveal_levels]. unfold M_map_err, mbind, M_bind, lift.
  rewrite (known_fetch hash _ rest _ Hk) by lia. cbn [map_err]. rewrite slice_content by done. cbn [map_err].
  destruct (store_write_spec s to_ content n Hs Hp Hn Hz) as (s'&Ew&Hset).
  exists (content_bytes content ++ drop (length (content_bytes content)) rest), s'. unfold write_kernel_page, append_content, M_map_err, mbind, M_bind. rewrite Nat2N.id, Ew.
  cbn [map_err mret M_ret]. unfold size_ok, VALUE_SIZE_LIMIT in Hz. rewrite N.mod_small by lia. split_and!; [by rewrite Nat2N.inj_add|rewrite length_app, length_drop; lia|done].
Qed.
(** The loop over the hashes of a page, from what was read so far. *)
Lemma hashes_write levels hs cs to_ : Forall2 (writes levels) hs cs -> path_ok to_ -> forall rest n s (m : M (N * S) bytes bytes) st0, m st0 = (Ok rest, (N.of_nat n, s)) ->
  hs <> [] \/ is_Some (c_value s (path_steps to_)) -> MAX_PAGE_SIZE * levels <= length rest -> c_ok s ->
  n <= length (default [] (c_value s (path_steps to_))) -> size_ok (n + length (mjoin cs)) ->
  exists rest' s', foldl (fun m hash => rest ← m; reveal_levels levels hash rest (write_kernel_page to_)) m hs st0 = (Ok rest', (N.of_nat (n + length (mjoin cs)), s')) /\
    length rest' = length rest /\ sets s to_ (Some (patch (default [] (c_value s (path_steps to_))) n (mjoin cs))) s'.
Proof.
  intros Hall Hp. induction Hall as [|h c hs cs Hw Hall IH]; intros rest n s m st0 Hm Hsome Hr Hs Hn Hz.
  - destruct Hsome as [|[v Hv]]; [done|]. exists rest, s. cbn [foldl mjoin list_join length]. rewrite Hm, Nat.add_0_r, patch_nil.
    split_and!; [done|done|]. rewrite Hv. cbn. rewrite <- Hv. by apply sets_refl.
  - change (mjoin (c :: cs)) with (c ++ mjoin cs) in *. rewrite length_app in *. cbn [foldl].
    destruct (Hw to_ rest n s Hp Hr Hs Hn) as (rest1&s1&E1&Hl1&Hset1); [unfold size_ok in *; lia|]. pose proof (sets_at _ _ _ _ Hset1) as Hat.
    destruct (IH rest1 (n + length c) s1 (rest ← m; reveal_levels levels h rest (write_kernel_page to_)) st0) as (rest2&s2&E2&Hl2&Hset2).
    + unfold mbind, M_bind. by rewrite Hm.
    + right. rewrite Hat. eauto.
    + by rewrite Hl1.
    + apply Hset1.
    + rewrite Hat. cbn -[patch]. rewrite length_patch by done. lia.
    + unfold size_ok in *. lia.
    + exists rest2, s2. rewrite E2, Nat.add_assoc. split_and!; [done|by rewrite Hl2|]. rewrite Hat in Hset2. cbn -[patch] in Hset2. rewrite patch_app in Hset2 by done. by eapply sets_trans.
Qed.
Lemma tree_writes height : forall levels hash content, height < levels -> holds height hash content -> writes levels hash content.
Proof.
  induction height as [|height IH]; intros [|levels] hash content Hlt Hh; try lia; [by apply content_writes|].
  destruct Hh as (hs&cs&Hne&Hn&Hl&Hk&Hall&->). intros to_ rest n s Hp Hr Hs Hv Hz. pose proof (proj2 page_lengths _ Hn Hl) as Hpl. cbn [reveal_levels].
  unfold M_map_err. unfold mbind at 1, M_bind at 1. rewrite (known_fetch hash _ rest _ Hk) by lia. cbn [map_err]. destruct (slice_hashes_page hs Hn Hl) as (Esl&Eh&_).
  rewrite Esl. unfold lift. unfold mbind at 1, M_bind at 1. cbn [map_err]. rewrite Eh.
  destruct (hashes_write levels hs cs to_) with (drop (length (hashes_bytes hs)) rest) n s (mret (M := M (N * S) bytes) (drop (length (hashes_bytes hs)) rest)) (N.of_nat n, s)
    as (rest'&s'&E&Hl'&Hset); [|done|done|by left|rewrite length_drop; lia|done..|].
  { eapply Forall2_impl; [exact Hall|]. intros h c Hc. apply IH; [lia|done]. }
  exists (hashes_bytes hs ++ rest'), s'. unfold mbind at 1, M_bind at 1. rewrite E. split_and!; [done| |done]. rewrite length_app, Hl', length_drop. lia.
Qed.

(** A tree of four levels is written at the path, over what was there. *)
Lemma reveal_writes height hash content to_ s : height < MAX_DAC_LEVELS -> holds height hash content -> c_ok s -> path_ok to_ -> size_ok (length content) ->
  exists s', reveal_root_hash_to_store hash to_ s = (Ok tt, s') /\
    sets s to_ (Some (content ++ drop (length content) (default [] (c_value s (path_steps to_))))) s'.
Proof.
  intros Hh Ht Hs Hp Hz. destruct (tree_writes height MAX_DAC_LEVELS hash content Hh Ht to_ (repeat Byte.x00 (MAX_PAGE_SIZE * MAX_DAC_LEVELS)) 0 s) as (rest&s'&E&_&Hset).
  - done.
  - by rewrite repeat_length.
  - done.
  - lia.
  - done.
  - exists s'. split; [|done]. unfold reveal_root_hash_to_store, reveal_loop, mbind, M_bind. change (MAX_DAC_LEVELS - 0) with MAX_DAC_LEVELS. change 0%N with (N.of_nat 0). by rewrite E.
Qed.
End reveal.

(** ** Prepared kernels *)

Section prepared.
Context {nom : NomCrate} {de : DataEncoding} {dlaws : DataLaws de} {dbytes : DataBytes de} {crypto : CryptoCrate} {derr : DigestErrors} {digests : DigestLaws} {rc : RevealCore}.

(** The hashes of a level stand for the contents, [j] levels at most below the root. *)
Definition stands (contents : bytes) (extra : list (bytes * bytes)) (hs : list PreimageHash) : Prop :=
  Forall known extra -> exists height j cs, height + j <= 3 /\ (N.of_nat (length hs) <= 123 ^ N.of_nat j)%N /\ Forall2 (holds height) (map preimage_hash hs) cs /\ mjoin cs = contents.
Lemma level_stands height gs : forall hs cs, length hs = length gs -> Forall (fun g => g <> [] /\ length g <= MAX_HASHES_PER_PAGE) gs ->
  Forall (fun h => length (preimage_hash h) = PREIMAGE_HASH_SIZE) (mjoin gs) -> Forall2 (holds height) (map preimage_hash (mjoin gs)) cs ->
  Forall known (zip (map preimage_hash hs) (map (fun c => hashes_bytes (map preimage_hash c)) gs)) ->
  exists cs', Forall2 (holds (S height)) (map preimage_hash hs) cs' /\ mjoin cs' = mjoin cs.
Proof.
  induction gs as [|g gs IH]; intros [|h hs] cs Hn Hg Hl Hc Hk; try done.
  { inversion Hc; subst. by exists []. }
  change (mjoin (g :: gs)) with (g ++ mjoin gs) in *. rewrite map_app in Hc. apply Forall2_app_inv_l in Hc as (c1&c2&Hc1&Hc2&->).
  apply Forall_app in Hl as [Hl1 Hl2]. apply Forall_cons in Hg as [[Hg0 Hg1] Hg2]. cbn [map zip zip_with] in Hk. apply Forall_cons in Hk as [Hk1 Hk2].
  destruct (IH hs c2) as (cs'&Hcs'&Hj); [cbn in Hn; lia|done..|]. exists (mjoin c1 :: cs'). split.
  - constructor; [|done]. exists (map preimage_hash g), c1. split_and!; [by destruct g|by rewrite length_map|by apply Forall_fmap|done..].
  - change (mjoin c1 ++ mjoin cs' = mjoin (c1 ++ c2)). by rewrite Hj, join_app.
Qed.
Lemma stands_step contents extra hashes hs : length hs = length (chunks MAX_HASHES_PER_PAGE hashes) ->
  Forall (fun h => length (preimage_hash h) = PREIMAGE_HASH_SIZE) hashes -> 1 < length hashes ->
  stands contents extra hashes -> stands contents (extra ++ hash_level hs hashes) hs.
Proof.
  intros Hn Hl Hgt Hst [Hk1 Hk2]%Forall_app. destruct (Hst Hk1) as (height&j&cs&Hhj&Hb&Hall&Hj). pose proof (chunks_number MAX_HASHES_PER_PAGE hashes ltac:(done)) as Hc.
  pose proof (chunks_join MAX_HASHES_PER_PAGE hashes ltac:(done)) as Hcj.
  destruct (level_stands height (chunks MAX_HASHES_PER_PAGE hashes) hs cs) as (cs'&Hcs'&Hj'); [done|by apply chunks_of_sizes|by rewrite Hcj..|done|].
  rewrite <- Hn, HASHES_FIT in Hc. destruct j as [|j]; [cbn in Hb; lia|]. exists (Datatypes.S height), j, cs'. split_and!; [lia| |done|by rewrite Hj'].
  rewrite Nat2N.inj_succ, N.pow_succ_r' in Hb. lia.
Qed.
Lemma content_stands (hs : list PreimageHash) (cs : list bytes) : length hs = length cs -> Forall (fun c => c <> [] /\ length c <= MAX_CONTENT_SIZE) cs ->
  Forall known (zip (map preimage_hash hs) (map content_bytes cs)) -> Forall2 (holds 0) (map preimage_hash hs) cs.
Proof.
  revert hs. induction cs as [|c cs IH]; intros [|h hs] Hn Hc Hk; try done. cbn [map zip zip_with] in Hk. apply Forall_cons in Hc as [[Hc0 Hc1] Hc2], Hk as [Hk1 Hk2].
  cbn [map]. constructor; [done|]. apply IH; [cbn in Hn; lia|done..].
Qed.

(** A kernel that is not empty is cut into pages with a root, the tree of which has at most four levels. *)
Lemma prepared_holds content : content <> [] -> size_ok (length content) -> exists root pages, prepare_preimages log_page content [] = (Ok root, pages) /\
  length (preimage_hash root) = PREIMAGE_HASH_SIZE /\ (Forall known pages -> exists height, height < MAX_DAC_LEVELS /\ holds height (preimage_hash root) content).
Proof.
  intros Hne Hz. unfold size_ok, VALUE_SIZE_LIMIT in Hz. destruct (content_pages_ok content []) as (hs&E&Hn&Hhs). cbn [app] in E.
  pose proof (chunks_number MAX_CONTENT_SIZE content ltac:(done)) as Hc. pose proof (chunks_join MAX_CONTENT_SIZE content ltac:(done)) as Hj.
  pose proof (chunks_of_sizes (length content) MAX_CONTENT_SIZE content ltac:(done)) as Hsz. fold (chunks MAX_CONTENT_SIZE content) in Hsz.
  set (cs := chunks MAX_CONTENT_SIZE content) in *. unfold MAX_CONTENT_SIZE in Hc. rewrite MAX_FITS in Hc.
  assert (Hcs : cs <> []) by (intros E0; apply Hne; by rewrite <- Hj, E0). set (level := zip (map preimage_hash hs) (map content_bytes cs)) in *.
  destruct (levels_induct (stands content) (stands_step content) (length hs) hs level level) as (root&more&E2&Hroot&Hst); [lia|intros ->; by destruct cs|done| |].
  { intros Hk. exists 0, 3, cs. split_and!; [lia|change (123 ^ N.of_nat 3)%N with 1860867%N; lia|by apply content_stands|done]. }
  exists root, (level ++ more). split_and!; [|done|].
  { unfold prepare_preimages. fold cs. unfold mbind, M_bind. rewrite E, E2. done. }
  intros Hk. destruct (Hst Hk) as (height&j&cs'&Hhj&_&Hall&Hj'). exists height. split; [unfold MAX_DAC_LEVELS; lia|].
  cbn [map] in Hall. apply Forall2_cons_inv_l in Hall as (c&cs2&Hh&->%Forall2_nil_inv_l&->). change (mjoin [c]) with (c ++ []) in Hj'. by rewrite <- Hj', app_nil_r.
Qed.
End prepared.

(** * Installing a kernel *)

Abbreviation BOOT := (path_steps KERNEL_BOOT_PATH).
Ltac fixed_path := apply validate_path_spec; vm_compute; reflexivity.
Lemma boot_ok : path_ok KERNEL_BOOT_PATH. Proof. fixed_path. Qed.
Lemma tmp_reveal_ok : path_ok TMP_REVEAL_PATH. Proof. fixed_path. Qed.
Lemma prepare_ok : path_ok PREPARE_KERNEL_PATH. Proof. fixed_path. Qed.
Lemma reboot_ok : path_ok REBOOT_PATH. Proof. fixed_path. Qed.

(** How the paths of the installers lie. *)
Lemma fixed_steps : BOOT = [str "kernel"; str "boot.wasm"] /\ path_steps TMP_REVEAL_PATH = [str "__sdk"; str "installer"; str "reveal"] /\
  path_steps PREPARE_KERNEL_PATH = [str "installer"; str "kernel"; str "boot.wasm"] /\ path_steps REBOOT_PATH = [str "kernel"; str "env"; str "reboot"] /\
  AUX = [str "__installer_kernel"; str "auxiliary"; str "kernel"; str "boot.wasm"].
Proof. repeat split; vm_compute; reflexivity. Qed.
Lemma tmp_not_boot : strip BOOT (path_steps TMP_REVEAL_PATH) = None. Proof. vm_compute. reflexivity. Qed.
Lemma prepare_not_aux : strip AUX (path_steps PREPARE_KERNEL_PATH) = None. Proof. vm_compute. reflexivity. Qed.
Lemma boot_not_aux : strip AUX BOOT = None. Proof. vm_compute. reflexivity. Qed.
Lemma prepare_not_boot : strip BOOT (path_steps PREPARE_KERNEL_PATH) = None. Proof. vm_compute. reflexivity. Qed.

Section install.
Context {S : Type} {core : SmartRollupCore S} {laws : CoreLaws S} {rc : RevealCore}.
Implicit Types (s : S).

(** The flow of upgrades: the kernel is revealed at a path, which is then moved to the boot path. *)
Lemma reveal_and_move height hash kernel tmp s : height < MAX_DAC_LEVELS -> holds height hash kernel -> length hash = PREIMAGE_HASH_SIZE -> size_ok (length kernel) ->
  c_ok s -> path_ok tmp -> strip BOOT (path_steps tmp) = None ->
  exists s', eval_instrs [reveal_instr (mkPreimageHash hash) tmp; move_instr tmp KERNEL_BOOT_PATH] s = (Ok tt, s') /\ c_ok s' /\
    c_value s' BOOT = Some (kernel ++ drop (length kernel) (default [] (c_value s (path_steps tmp)))) /\
    forall q, outside_of KERNEL_BOOT_PATH q -> c_value s' q = match strip (path_steps tmp) q with Some _ => None | None => c_value s q end.
Proof.
  intros Hh Ht Hl Hz Hs Hp Hd. destruct (reveal_writes height hash kernel tmp s Hh Ht Hs Hp Hz) as (s1&E1&Hset). pose proof (sets_at _ _ _ _ Hset) as Hat.
  destruct (store_move_ok s1 tmp KERNEL_BOOT_PATH (proj1 Hset) Hp boot_ok) as (s2&E2&Hs2&Hv2).
  { eapply (value_exists s1 tmp []); [apply Hset|done|]. rewrite app_nil_r, Hat. done. }
  exists s2. split_and!; [|done| |].
  - cbn [eval_instrs reveal_instr move_instr eval_config_instr preimage_hash]. rewrite Hl, Nat.eqb_refl. unfold lift, M_map_err, mbind, M_bind. by rewrite E1, E2.
  - rewrite Hv2, strip_refl, app_nil_r. done.
  - intros q Hq. unfold outside_of in Hq. rewrite Hv2, Hq. destruct (strip (path_steps tmp) q) eqn:Eq; [done|]. destruct Hset as [_ Hset]. rewrite Hset, bool_decide_eq_false_2; [done|].
    intros ->. by rewrite strip_refl in Eq.
Qed.
End install.

Section upgrade.
Context {nom : NomCrate} {de : DataEncoding} {dlaws : DataLaws de} {dbytes : DataBytes de} {crypto : CryptoCrate} {derr : DigestErrors} {digests : DigestLaws}
  {S : Type} {core : SmartRollupCore S} {laws : CoreLaws S} {rc : RevealCore}.
Implicit Types (s : S).

(** A kernel that was prepared, of less than 2 GiB and not empty, is installed by the upgrade flow on a host that knows its pages: the boot path then holds the kernel,
    followed by what a longer value left at the path of the reveal, which is emptied; nothing else changes. *)
Theorem upgrade_installs_kernel kernel s : kernel <> [] -> size_ok (length kernel) -> c_ok s ->
  exists root pages, prepare_preimages log_page kernel [] = (Ok root, pages) /\ (Forall known pages ->
    exists s', evaluate (upgrade_reveal_flow (preimage_hash root)) s = (Ok tt, s') /\ c_ok s' /\
      c_value s' BOOT = Some (kernel ++ drop (length kernel) (default [] (c_value s (path_steps TMP_REVEAL_PATH)))) /\
      forall q, outside_of KERNEL_BOOT_PATH q -> c_value s' q = match strip (path_steps TMP_REVEAL_PATH) q with Some _ => None | None => c_value s q end).
Proof.
  intros Hne Hz Hs. destruct (prepared_holds kernel Hne Hz) as (root&pages&E&Hl&Hroot). exists root, pages. split; [done|]. intros Hk.
  destruct (Hroot Hk) as (height&Hh&Ht). destruct root as [root]. by apply (reveal_and_move height root kernel TMP_REVEAL_PATH s Hh Ht Hl Hz Hs tmp_reveal_ok tmp_not_boot).
Qed.

Context {input : InputCore S} {frame : HostFrame S} {crates : InstallerCrates} {nlaws : NomLaws nom} {ilaws : InstallerLaws crates} {hex : HexDecode} {client : ClientCrates} {sections : SectionLaws client}.

Definition installer_program (root : PreimageHash) : list ConfigInstruction := [reveal_instr root PREPARE_KERNEL_PATH; move_instr PREPARE_KERNEL_PATH KERNEL_BOOT_PATH].
Lemma installer_runnable root : length (preimage_hash root) = PREIMAGE_HASH_SIZE -> Forall runnable (installer_program root).
Proof.
  intros Hl. change PREIMAGE_HASH_SIZE with 33 in Hl. destruct fixed_steps as (Eb&_&Ep&_&Ea). constructor; [|constructor; [|done]]; split.
  - split; [cbn [r_hash]; rewrite Hl; unfold MAX_FILE_CHUNK_SIZE; lia|apply prepare_ok].
  - rewrite CONFIG_FITS. cbn [reveal_instr instr_bytes r_hash r_to length]. rewrite length_app, length_sized, Hl. change (length (path_bytes PREPARE_KERNEL_PATH)) with 28. lia.
  - cbn [reveal_instr untouched r_to]. by rewrite Ea, Ep.
  - split; [apply prepare_ok|apply boot_ok].
  - rewrite CONFIG_FITS. change (length (instr_bytes (move_instr PREPARE_KERNEL_PATH KERNEL_BOOT_PATH))) with 47. lia.
  - split; unfold outside_of; cbn [move_instr m_from m_to]; by rewrite Ea, ?Eb, ?Ep.
Qed.
(** What the client writes: the program is at the end of the code. *)
Lemma installer_code root : length (preimage_hash root) = PREIMAGE_HASH_SIZE -> exists p wasm header, create_installer_config root None = Ok p /\ program p = installer_program root /\
  with_config_program (E := bytes) p = Ok wasm /\ wasm = code_of (INSTALLER_KERNEL ++ header) (program p).
Proof.
  intros Hl. pose proof (installer_runnable root Hl) as Hrun. assert (Hok : Forall instr_ok (installer_program root)) by (eapply Forall_impl; [exact Hrun|by intros ? []]).
  assert (Hw : bin_write (mkProgram (installer_program root)) [] = (Ok tt, entries (installer_program root) ++ le_bytes 4 (N.of_nat (length (entries (installer_program root)))))).
  { unfold bin_write, OwnedConfigProgram_write, mbind, M_bind, get. cbn [program]. rewrite (entries_written _ Hok []). cbn [app length]. rewrite Nat.sub_0_r.
    rewrite size_written; [done|]. apply Forall_cons in Hok as [H1 [H2 _]%Forall_cons]. pose proof (instr_length _ H1). pose proof (instr_length _ H2).
    unfold installer_program, entries. cbn [map mjoin list_join]. rewrite !length_app, !length_sized. cbn [length]. lia. }
  destruct (section_written INSTALLER_KERNEL (str "config") (entries (installer_program root) ++ le_bytes 4 (N.of_nat (length (entries (installer_program root)))))) as [header Eh].
  exists (mkProgram (installer_program root)), (code_of (INSTALLER_KERNEL ++ header) (installer_program root)), header. split_and!; [done..| |done].
  unfold with_config_program. rewrite Hw, Eh. unfold code_of. by rewrite <- !app_assoc.
Qed.

(** C18: Installing works from end to end.  The client makes, for any kernel of less than 2 GiB that is not empty, pages and an installer; when the installer runs at the boot path of a host that
    knows the pages and whose storage does not use the path the kernel is prepared at, the boot path holds exactly the kernel afterwards and a reboot is asked for; the code that was copied away is gone and
    the rest of the storage is unchanged. *)
Theorem installer_installs_kernel kernel : kernel <> [] -> size_ok (length kernel) ->
  exists root pages p wasm, prepare_preimages log_page kernel [] = (Ok root, pages) /\ create_installer_config root None = Ok p /\ with_config_program (E := bytes) p = Ok wasm /\
    forall s, c_ok s -> c_value s BOOT = Some wasm -> size_ok (length wasm) -> c_value s (path_steps PREPARE_KERNEL_PATH) = None -> Forall known pages ->
    exists s', installer (E := bytes) s = (Ok tt, s') /\ c_value s' BOOT = Some kernel /\ is_Some (c_value s' (path_steps REBOOT_PATH)) /\
      forall q, outside_of KERNEL_BOOT_PATH q -> outside_of PREPARE_KERNEL_PATH q -> q <> path_steps REBOOT_PATH ->
        c_value s' q = match strip AUX q with Some _ => None | None => c_value s q end.
Proof.
  intros Hne Hz. destruct (prepared_holds kernel Hne Hz) as (root&pages&E&Hl&Hroot). destruct (installer_code root Hl) as (p&wasm&header&Ep&Hp&Ew&Hwasm).
  exists root, pages, p, wasm. split_and!; [done..|]. intros s Hs Hb Hzw Hprep Hk. destruct (Hroot Hk) as (height&Hh&Ht). destruct fixed_steps as (Eb&_&_&Er&_).
  destruct (install_evaluates KERNEL_BOOT_PATH s (INSTALLER_KERNEL ++ header) p Hs boot_ok) as (s1&s3&[Hs1 Hcp]&Hev); [rewrite Hp; by apply installer_runnable|by rewrite <- Hwasm..|].
  assert (Hprep1 : c_value s1 (path_steps PREPARE_KERNEL_PATH) = None) by by rewrite Hcp, prepare_not_aux.
  destruct root as [root]. destruct (reveal_and_move height root kernel PREPARE_KERNEL_PATH s1 Hh Ht Hl Hz Hs1 prepare_ok prepare_not_boot) as (s2&E2&Hs2&Hb2&Hv2).
  unfold evaluate in Hev. rewrite Hp in Hev. unfold installer_program in Hev. rewrite E2 in Hev. destruct Hev as (Ei&Hs3&Hv3). rewrite Hprep1 in Hb2. cbn [from_option] in Hb2.
  destruct (store_write_spec s3 REBOOT_PATH [Byte.x00] 0 Hs3 reboot_ok) as (s4&E4&Hset); [lia|done|]. exists s4. split_and!.
  - unfold installer, M_ok, mark_for_reboot. unfold mbind at 1, M_bind at 1. rewrite Ei. unfold mbind at 1, M_bind at 1. by rewrite E4.
  - destruct Hset as [_ Hset]. rewrite Hset, bool_decide_eq_false_2 by (rewrite Eb, Er; done). rewrite Hv3, boot_not_aux, Hb2. by rewrite drop_nil, app_nil_r.
  - rewrite (sets_at _ _ _ _ Hset). eauto.
  - intros q Hq1 Hq2 Hq3. destruct Hset as [_ Hset]. rewrite Hset, bool_decide_eq_false_2 by done. rewrite Hv3. destruct (strip AUX q) eqn:Eq; [done|]. rewrite Hv2 by done.
    unfold outside_of in Hq2. rewrite Hq2, Hcp, Eq. done.
Qed.
End upgrade.

(** * Programs from YAML *)

(** What serde writes of an instruction is read back. *)
Theorem yaml_instr_round_trip {debug : DebugInstr} i : instr_try_from (instr_into i) = Ok i.
Proof. by destruct i. Qed.
(** Only one instruction may be given at a time. *)
Theorem yaml_one_instruction {debug : DebugInstr} value i : instr_try_from value = Ok i -> value = instr_into i.
Proof. destruct value as [[m|] [r|] [v|]]; cbn; try done; by intros [= <-]. Qed.

Definition valid_instr (i : ConfigInstruction) : Prop :=
  match i with
  | Config_Reveal r => length (r_hash r) = PREIMAGE_HASH_SIZE /\ path_ok (r_to r)
  | Config_Move m => path_ok (m_from m) /\ path_ok (m_to m)
  | Config_Set v => path_ok (s_to v)
  end.
Lemma try_from_ok p q : try_from p = Ok q -> path_ok q.
Proof. unfold try_from. destruct (validate_path p) as [[]| | |] eqn:E; [|done..]. intros [= <-]. by apply validate_path_spec. Qed.
Section yaml.
Context {hex : HexDecode}.
Lemma convert_instr_valid i c : convert_instr i = Ok c -> valid_instr c.
Proof.
  destruct i as [[f t]|[h t]|[v t]]; cbn [convert_instr ma_from ma_to ra_reveal ra_to sa_value sa_to]; [unfold move_instr_str|unfold reveal_instr_hex|unfold set_instr_hex].
  - destruct (try_from f) as [f'| | |] eqn:Ef; [|done..]. destruct (try_from t) as [t'| | |] eqn:Et; [|done..]. intros [= <-]. split; by eapply try_from_ok.
  - destruct (try_from t) as [t'| | |] eqn:Et; [|done..]. cbn. destruct (decode_hex h) as [bs| | |]; [|done..]. cbn -[Nat.eqb].
    destruct (Nat.eqb_spec (length bs) PREIMAGE_HASH_SIZE) as [Hl|]; [|done]. intros [= <-]. split; [done|by eapply try_from_ok].
  - destruct (try_from t) as [t'| | |] eqn:Et; [|done..]. cbn. destruct (decode_hex v) as [bs| | |]; [|done..]. intros [= <-]. by eapply try_from_ok.
Qed.
(** A configuration that converts gives an instruction for each of its own, with valid paths and hashes of the right size: reading it back in the
    installer does not panic on a path. *)
Theorem yaml_program_valid config p : program_try_from config = Ok p -> Forall2 (fun i c => convert_instr i = Ok c /\ valid_instr c) (instructions config) (program p).
Proof.
  unfold program_try_from. destruct (convert_instrs (instructions config)) as [cs| | |] eqn:E; [|done..]. intros [= <-]. cbn [program]. revert cs E.
  induction (instructions config) as [|i instrs IH]; intros cs E; [by injection E as <-|]. cbn [convert_instrs] in E. destruct (convert_instr i) as [c| | |] eqn:Ec; [|done..].
  cbn in E. destruct (convert_instrs instrs) as [cs'| | |]; [|done..]. injection E as <-. constructor; [|by apply IH]. split; [done|by eapply convert_instr_valid].
Qed.
End yaml.
