(* ===== verification/SdkRuns.v ===== *)
(** Runs of the encodings.

    Concrete instances of the crates, with the encodings that their documentation describes (a size on four bytes before what is dynamic,
    integers seven bits at a time), and the theorems at concrete inputs. *)

From S2P Require Import Prelude Endian KernelPath KernelHost KernelRuntime KernelStore KernelStoreLaws KernelInput SdkNom SdkMicheline SdkMichelineProps SdkMichelson SdkMessages SdkDac SdkDacProps SdkInstaller.

(** * Integers *)

Module Integers.
#[local] Open Scope N_scope.

Fixpoint leb (fuel : nat) (n : N) : bytes :=
  match fuel with
  | O => []
  | S fuel => if n <? 128 then [byte_of_N n] else byte_of_N (n mod 128 + 128) :: leb fuel (n / 128)
  end.
Fixpoint read_leb (input : bytes) : option (N * bytes) :=
  match input with
  | [] => None
  | b :: rest => let x := Byte.to_N b in if x <? 128 then Some (x, rest) else '(v, rest) ← read_leb rest; Some (x - 128 + 128 * v, rest)
  end.
Lemma read_leb_leb fuel n rest : n < 128 ^ N.of_nat fuel -> fuel <> O -> read_leb (leb fuel n ++ rest) = Some (n, rest).
Proof.
  revert n. induction fuel as [|fuel IH]; intros n Hn Hf; [done|]. cbn [leb]. destruct (N.ltb_spec n 128) as [H|H]; cbn [app read_leb].
  - rewrite byte_to_of_N by lia. by rewrite (proj2 (N.ltb_lt _ _)).
  - pose proof (N.mod_lt n 128 ltac:(lia)) as Hm. pose proof (N.div_mod n 128 ltac:(lia)) as Hd. rewrite Nat2N.inj_succ, N.pow_succ_r' in Hn.
    generalize dependent (n mod 128). generalize dependent (n / 128). intros d m Hm Hd. rewrite byte_to_of_N by lia. rewrite (proj2 (N.ltb_ge _ _)) by lia.
    rewrite IH; [cbn; do 2 f_equal; lia|lia|]. intros ->. cbn in Hn. lia.
Qed.

(** The sign and six bits, then seven bits at a time. *)
Definition zarith_bytes (z : Z) : bytes :=
  let n := Z.abs_N z in
  let first := n mod 64 + (if (z <? 0)%Z then 64 else 0) in
  if n <? 64 then [byte_of_N first] else byte_of_N (first + 128) :: leb (N.size_nat n) (n / 64).
Definition signed (x : N) (n : N) : Z := if N.testbit x 6 then - Z.of_N n else Z.of_N n.
Definition read_zarith (input : bytes) : option (Z * bytes) :=
  match input with
  | [] => None
  | b :: rest =>
      let x := Byte.to_N b in
      if x <? 128 then Some (signed x (x mod 64), rest) else '(v, rest) ← read_leb rest; Some (signed x (x mod 64 + 64 * v), rest)
  end.
Lemma size_pow n : n < 128 ^ N.of_nat (N.size_nat n).
Proof.
  assert (forall p, N.pos p < 128 ^ N.of_nat (Pos.size_nat p)) as H; [|destruct n as [|p]; [done|apply H]].
  induction p as [p IH|p IH|]; cbn [Pos.size_nat]; rewrite ?Nat2N.inj_succ, ?N.pow_succ_r'; [lia|lia|done].
Qed.
Lemma sign_bit (neg : bool) m c : m < 64 -> c = 0 \/ c = 128 -> let x := m + (if neg then 64 else 0) + c in
  x < 256 /\ x mod 64 = m /\ (x <? 128) = (c =? 0) /\ N.testbit x 6 = neg.
Proof.
  intros Hm Hc x. assert (Hx : x = m + ((if neg then 1 else 0) + (if c =? 0 then 0 else 2)) * 64) by (unfold x; destruct Hc as [-> | ->], neg; cbn [N.eqb]; lia). split_and!.
  - unfold x. destruct Hc as [-> | ->], neg; lia.
  - rewrite Hx, N.Div0.mod_add. by apply N.mod_small.
  - destruct Hc as [-> | ->]; [apply N.ltb_lt|apply N.ltb_ge]; unfold x; destruct neg; lia.
  - rewrite N.testbit_eqb. change (2 ^ 6) with 64. rewrite Hx, N.div_add, N.div_small by lia. by destruct Hc as [-> | ->], neg.
Qed.
Lemma signed_abs z n x : n = Z.abs_N z -> N.testbit x 6 = (z <? 0)%Z -> signed x n = z.
Proof. intros -> H. unfold signed. rewrite H. destruct (Z.ltb_spec z 0); lia. Qed.
Lemma read_zarith_bytes z rest : read_zarith (zarith_bytes z ++ rest) = Some (z, rest).
Proof.
  unfold zarith_bytes. pose proof (N.mod_lt (Z.abs_N z) 64 ltac:(lia)) as Hm. destruct (N.ltb_spec (Z.abs_N z) 64) as [H|H]; cbn [app read_zarith].
  - destruct (sign_bit (z <? 0)%Z _ 0 Hm) as (H1&H2&H3&H4); [by left|]. rewrite N.add_0_r in *. rewrite byte_to_of_N, H3 by done. cbn. rewrite H2.
    rewrite (signed_abs z); [done|by apply N.mod_small|done].
  - destruct (sign_bit (z <? 0)%Z _ 128 Hm) as (H1&H2&H3&H4); [by right|]. rewrite byte_to_of_N, H3 by done. cbn [N.eqb]. rewrite read_leb_leb.
    + cbn. rewrite H2. rewrite (signed_abs z); [done| |done]. by rewrite (N.add_comm (_ mod _)), <- N.div_mod.
    + apply N.Div0.div_lt_upper_bound. eapply N.lt_le_trans; [apply size_pow|]. lia.
    + destruct (Z.abs_N z) as [|p]; [lia|]. by destruct p.
Qed.
End Integers.

(** * The crates *)

Module Crates.
Import Integers.

Fixpoint span (f : byte -> bool) (input : bytes) : bytes * bytes :=
  match input with b :: rest => if f b then let '(x, y) := span f rest in (b :: x, y) else ([], input) | [] => ([], []) end.
Fixpoint first_of {A} (rs : list (bytes -> outcome unit (A * bytes))) (input : bytes) : outcome unit (A * bytes) :=
  match rs with
  | [] => Err tt
  | r :: rs => match r input with Err tt => match rs with [] => Err tt | _ => first_of rs input end | o => o end
  end.
Definition of_option {A} (o : option A) : outcome unit A := match o with Some a => Ok a | None => Err tt end.
Definition read_i64 (input : bytes) : outcome unit (Z * bytes) :=
  if length input <? 8 then Err tt
  else let n := Z.of_N (of_be_bytes (take 8 input)) in Ok (if (n <? 2 ^ 63)%Z then n else (n - 2 ^ 64)%Z, drop 8 input).
#[global] Instance nom : NomCrate := {
  NomErr := unit;
  recoverable _ := true;
  nom_tag t input := if decide (t `prefix_of` input) then Ok (t, drop (length t) input) else Err tt;
  nom_u8 input := match input with b :: rest => Ok (b, rest) | [] => Err tt end;
  nom_i64 := read_i64;
  nom_rest input := Ok (input, []);
  nom_eof input := match input with [] => Ok ([], []) | _ => Err tt end;
  nom_take_while f input := Ok (span f input);
  nom_take_while1 f input := match span f input with ([], _) => Err tt | o => Ok o end;
  nom_success A a input := Ok (a, input);
  nom_map A B r f input := o ← r input; Ok (f o.1, o.2);
  nom_map_res A B r f input := o ← r input; match f o.1 with Some b => Ok (b, o.2) | None => Err tt end;
  nom_recognize A r input := o ← r input; Ok (take (length input - length o.2) input, o.2);
  nom_pair A B r1 r2 input := o1 ← r1 input; o2 ← r2 o1.2; Ok ((o1.1, o2.1), o2.2);
  nom_tuple3 A B C r1 r2 r3 input := o1 ← r1 input; o2 ← r2 o1.2; o3 ← r3 o2.2; Ok ((o1.1, o2.1, o3.1), o3.2);
  nom_preceded A B r1 r2 input := o1 ← r1 input; r2 o1.2;
  nom_delimited A B C r1 r2 r3 input := o1 ← r1 input; o2 ← r2 o1.2; o3 ← r3 o2.2; Ok (o2.1, o3.2);
  nom_alt A rs input := first_of rs input;
  nom_from_error_kind _ := tt
}.
Lemma span_all f bs rest : Forall (fun b => f b = true) bs -> (forall c, head rest = Some c -> f c = false) -> span f (bs ++ rest) = (bs, rest).
Proof.
  intros H Hr. induction H as [|b bs Hb _ IH]; cbn.
  - destruct rest as [|c rest]; [done|]. cbn. by rewrite (Hr c).
  - by rewrite Hb, IH.
Qed.
#[global] Instance nom_laws : NomLaws nom.
Proof.
  split; try done.
  - intros t rest. cbn. rewrite decide_True by by exists rest. by rewrite drop_app_length.
  - intros t input H. exists tt. cbn. by rewrite decide_False.
  - intros b input. by exists tt.
  - intros f bs H. cbn. pose proof (span_all f bs [] H) as E. rewrite app_nil_r in E. by rewrite E.
  - intros f b bs rest H Hr. cbn -[span]. by rewrite (span_all f (b :: bs) rest H Hr : span f (b :: bs ++ rest) = _).
  - intros A B r f input a rest b E1 E2. cbn. rewrite E1. cbn. by rewrite E2.
  - intros A r bs rest a E. cbn. rewrite E. cbn. rewrite length_app. replace (_ - _) with (length bs) by lia. by rewrite take_app_length.
  - intros A r rs input o E. cbn. by rewrite E.
  - intros A r rs input [] E _ H. cbn. rewrite E. by destruct rs.
Qed.

(** What a writer writes, with its size before it. *)
Definition sized_by (limit : N) (w : M bytes unit unit) : M bytes unit unit := fun out =>
  match w [] with
  | (Ok _, bs) => if (N.of_nat (length bs) <? limit)%N then (Ok tt, out ++ be_bytes 4 (N.of_nat (length bs)) ++ bs) else (Err tt, out)
  | (Err _, _) => (Err tt, out)
  | (Panic p, _) => (Panic p, out)
  | (Diverge, _) => (Diverge, out)
  end.
Definition read_sized {A} (limit : N) (r : bytes -> outcome unit (A * bytes)) (input : bytes) : outcome unit (A * bytes) :=
  if length input <? 4 then Err tt
  else
    let n := of_be_bytes (take 4 input) in
    if (limit <=? n)%N || (length input - 4 <? N.to_nat n) then Err tt
    else o ← r (take (N.to_nat n) (drop 4 input)); match o.2 with [] => Ok (o.1, drop (N.to_nat n) (drop 4 input)) | _ => Err tt end.
Fixpoint read_list {A} (fuel : nat) (r : bytes -> outcome unit (A * bytes)) (input : bytes) : outcome unit (list A * bytes) :=
  match input, fuel with
  | [], _ => Ok ([], [])
  | _, O => Err tt
  | _, S fuel => '(a, rest) ← r input; '(l, rest) ← read_list fuel r rest; Ok (a :: l, rest)
  end.
Definition put_all (bs : bytes) : M bytes unit unit := fun out => (Ok tt, out ++ bs).
Definition size_of (t : HashType) : nat :=
  match t with BlockHash | PublicKeyEd25519 => 32 | PublicKeySecp256k1 | PublicKeyP256 => 33 | _ => 20 end.
#[global] Instance data : DataEncoding := {
  BinErr := unit;
  put_bytes bs out := out ++ bs;
  enc_u8 b := put_all [b];
  enc_i64 z := put_all (be_bytes 8 (Z.to_N (z mod 2 ^ 64)));
  enc_bytes := put_all;
  enc_string s := sized_by (2 ^ 30) (put_all s);
  enc_bounded_string n s := if length s <=? n then sized_by (2 ^ 30) (put_all s) else fail tt;
  enc_dynamic A w a := sized_by (2 ^ 30) (w a);
  enc_sized A n w a := fun out => match w a [] with (Ok _, bs) => if length bs =? n then (Ok tt, out ++ bs) else (Err tt, out) | (_, _) => (Err tt, out) end;
  enc_list A w l := foldr (fun a m => _ ← w a; m) (mret tt) l;
  nom_bytes input := Ok (input, []);
  nom_string := read_sized (2 ^ 30) (fun input => if utf8_valid input then Ok (input, []) else Err tt);
  nom_dynamic A := read_sized (2 ^ 30);
  nom_bounded_dynamic A n := read_sized (N.of_nat n + 1);
  nom_list A r input := read_list (length input) r input;
  zarith_write z := put_all (zarith_bytes z);
  zarith_read input := of_option (read_zarith input);
  hash_size := size_of;
  hash_write t h := if length h =? size_of t then put_all h else fail tt;
  hash_read t input := if length input <? size_of t then Err tt else Ok (take (size_of t) input, drop (size_of t) input);
  nom_tagged A variants input := match input with
    | tag :: rest => match List.find (fun v => Byte.eqb tag v.1) variants with Some v => v.2 rest | None => Err tt end
    | [] => Err tt
    end
}.
Lemma put_all_written bs : written (put_all bs) bs.
Proof. done. Qed.
Lemma sized_written_by limit (w : writer) bs : written w bs -> (N.of_nat (length bs) < limit)%N -> written (sized_by limit w) (be_bytes 4 (N.of_nat (length bs)) ++ bs).
Proof. intros H Hl out. unfold sized_by. rewrite H. cbn [app]. by rewrite (proj2 (N.ltb_lt _ _)). Qed.
Lemma sized_unwritten limit (w : writer) bs : written w bs -> (limit <= N.of_nat (length bs))%N -> unwritten (sized_by limit w).
Proof. intros H Hl out. exists tt, out. unfold sized_by. rewrite H. cbn [app]. by rewrite (proj2 (N.ltb_ge _ _)). Qed.
Lemma sized_failed limit (w : writer) : unwritten w -> unwritten (sized_by limit w).
Proof. intros H out. destruct (H []) as (e&out'&E). exists tt, out. unfold sized_by. by rewrite E. Qed.
Lemma read_sized_ok {A} limit (r : reader A) bs rest a : (N.of_nat (length bs) < limit)%N -> (N.of_nat (length bs) < 2 ^ 30)%N -> r bs = Ok (a, []) ->
  read_sized limit r ((be_bytes 4 (N.of_nat (length bs)) ++ bs) ++ rest) = Ok (a, rest).
Proof.
  intros Hl Hb Hr. unfold read_sized. rewrite <- app_assoc. assert (H4 : length (be_bytes 4 (N.of_nat (length bs))) = 4) by apply length_be_bytes.
  rewrite length_app, H4. rewrite (proj2 (Nat.ltb_ge _ _)) by lia. rewrite take_app_length', drop_app_length' by done.
  rewrite of_be_bytes_be_bytes by (change (256 ^ N.of_nat 4)%N with (2 ^ 32)%N; lia). rewrite Nat2N.id. rewrite (proj2 (N.leb_gt _ _)) by done.
  rewrite (proj2 (Nat.ltb_ge _ _)) by (rewrite length_app; lia). cbn [orb]. rewrite take_app_length, Hr. cbn. by rewrite drop_app_length.
Qed.
Lemma sized_coded {A} (w : writer) (r : reader A) a : coded_exactly w r a -> coded (sized_by (2 ^ 30) w) (read_sized (2 ^ 30) r) a.
Proof.
  intros [(bs&W&R)|U]; [|right; by apply sized_failed]. destruct (N.lt_ge_cases (N.of_nat (length bs)) (2 ^ 30)) as [H|H].
  - left. exists (be_bytes 4 (N.of_nat (length bs)) ++ bs). split; [by apply sized_written_by|]. intros rest. by apply read_sized_ok.
  - right. by eapply sized_unwritten.
Qed.
Lemma exactly_coded {A} (w : writer) (r : reader A) bs a : written w bs -> r bs = Ok (a, []) -> coded_exactly w r a.
Proof. intros W R. left. by exists bs. Qed.
Lemma list_all {A} (w : A -> writer) (r : reader A) l : Forall (fun a => coded (w a) r a /\ ~ written (w a) []) l ->
  (exists bs, written (enc_list w l) bs /\ forall fuel, length bs <= fuel -> read_list fuel r bs = Ok (l, [])) \/ unwritten (enc_list w l).
Proof.
  induction 1 as [|a l [Ha Hne] _ IH].
  - left. exists []. split; [intros out; cbn; by rewrite app_nil_r|]. by intros [|fuel].
  - change (enc_list w (a :: l)) with ((_ ← w a; enc_list w l) : writer).
    destruct Ha as [(b1&W1&R1)|U]; [|right; by apply unwritten_first]. destruct IH as [(b2&W2&R2)|U]; [|right; by eapply unwritten_then].
    left. exists (b1 ++ b2). split; [by apply written_then|]. intros fuel Hf. rewrite length_app in Hf. destruct b1 as [|b b1]; [by destruct Hne|].
    destruct fuel as [|fuel]; [cbn in Hf; lia|]. change (read_list (S fuel) r ((b :: b1) ++ b2)) with ('(a, rest) ← r ((b :: b1) ++ b2); '(l, rest) ← read_list fuel r rest; Ok (a :: l, rest)).
    rewrite (R1 b2 : r ((b :: b1) ++ b2) = _). cbn. rewrite R2; [done|]. cbn in Hf. lia.
Qed.

#[global] Instance data_laws : DataLaws data.
Proof.
  split; try done.
  - intros z H. left. exists (be_bytes 8 (Z.to_N (z mod 2 ^ 64))). split; [done|]. intros rest. cbn [app nom_i64 nom]. unfold read_i64.
    assert (H8 : length (be_bytes 8 (Z.to_N (z mod 2 ^ 64))) = 8) by apply length_be_bytes. pose proof (Z.mod_pos_bound z (2 ^ 64) ltac:(lia)).
    rewrite length_app, H8, (proj2 (Nat.ltb_ge _ _)) by lia. rewrite take_app_length', drop_app_length' by done.
    rewrite of_be_bytes_be_bytes by (change (256 ^ N.of_nat 8)%N with (2 ^ 64)%N; lia). rewrite Z2N.id by lia. do 2 f_equal.
    pose proof (Z.div_mod z (2 ^ 64) ltac:(lia)). destruct (Z.ltb_spec (z mod 2 ^ 64) (2 ^ 63)); lia.
  - intros s H. apply sized_coded. eapply exactly_coded; [apply put_all_written|]. cbv beta. by rewrite H.
  - intros A n r s a Hn Hs R. cbn. rewrite (proj2 (Nat.leb_le _ _)) by done. left. exists (be_bytes 4 (N.of_nat (length s)) ++ s).
    split; [apply sized_written_by; [done|lia]|]. intros rest. apply read_sized_ok; [lia|lia|done].
  - intros A w r a H. by apply sized_coded.
  - intros A w r l H. destruct (list_all w r l H) as [(bs&W&R)|U]; [left|by right]. exists bs. split; [done|]. by apply R.
  - intros z. left. exists (zarith_bytes z). split; [done|]. intros rest. cbn. by rewrite read_zarith_bytes.
  - intros t h H out. cbn in *. by rewrite (proj2 (Nat.eqb_eq _ _)).
  - intros t h rest H. cbn -[Nat.ltb] in *. rewrite length_app, (proj2 (Nat.ltb_ge _ _)) by lia. by rewrite <- H, take_app_length, drop_app_length.
  - intros A variants tag r rest Hin Hnd. cbn. induction variants as [|[t r'] l IH]; [by apply not_elem_of_nil in Hin|]. cbn in *.
    apply NoDup_cons in Hnd as [Hnin Hnd]. destruct (Byte.eqb tag t) eqn:E.
    + apply Byte.byte_dec_bl in E as ->. apply elem_of_cons in Hin as [[= ->]|Hin]; [done|]. destruct Hnin. change t with (t, r).1. by apply (list_elem_of_fmap_2 fst).
    + apply IH; [|done]. apply elem_of_cons in Hin as [[= -> ->]|Hin]; [|done]. by rewrite (Byte.byte_dec_lb eq_refl) in E.
Qed.
#[global] Instance data_bytes : DataBytes data.
Proof.
  split.
  - intros A w a bs W Hl. by apply sized_written_by.
  - intros A n w a bs W Hl out. cbn. rewrite W. cbn [app]. by rewrite (proj2 (Nat.eqb_eq _ _)).
  - intros A w l bss H. induction H as [|a bs l bss Ha _ IH]; [intros out; cbn; by rewrite app_nil_r|]. exact (written_then (w a) (enc_list w l) bs (mjoin bss) Ha IH).
Qed.
End Crates.

(** * Expressions *)

#[global] Instance regex : RegexCrate := fun re s =>
  if decide (re = annotation_re) then match s with c :: s => one_of (str "@:$&%!?") c && forallb (fun c => alphanumeric c || one_of (str "_.%@") c) s | [] => false end
  else false.
#[global] Instance regex_laws : RegexLaws regex.
Proof. intros s. unfold is_match, regex. by rewrite decide_True. Qed.

(** A list of an integer, and a pair of a string and of the list, which is annotated twice. *)
Definition ex_annots : Annotations := mkAnnotations [str "%owner"; str ":address"].
Definition ex_seq : Node := Node_Seq [Node_Int (-300); Node_Prim Byte.x0b [] annots_default].
Definition ex_node : Node := Node_Prim Byte.x07 [Node_String (str "abc"); ex_seq] ex_annots.
Lemma ex_node_valid : valid_node ex_node.
Proof. repeat constructor. Qed.

Lemma node_round_trip_witness :
  node_nom_read 3 ((node_bin_write 3 ex_node []).2 ++ [Byte.xff]) = Ok (ex_node, [Byte.xff]).
Proof.
  destruct (node_round_trip 3 3 ex_node ex_node_valid) as [(bs&W&R)|U]; [cbn; lia|cbn; lia| |].
  - rewrite W. apply R.
  - destruct (U []) as (e&out&E). discriminate E.
Defined.

(** The same shape, as a type. *)
Definition ex_typed : MichelinePrim2ArgsSomeAnnots MichelineString (MichelinePrim1ArgNoAnnots MichelineInt Byte.x05) Byte.x07 :=
  mkPrim2ArgsSomeAnnots (mkMichelineString (str "abc")) (mkPrim1ArgNoAnnots (mkMichelineInt 7)) ex_annots.
Lemma typed_agrees_with_tree_witness : bin_write ex_typed [] = node_bin_write 3 (into_node ex_typed) []
  /\ node_nom_read 3 (bin_write ex_typed []).2 = Ok (into_node ex_typed, []).
Proof.
  destruct (typed_agrees_with_tree Byte.x07 ex_typed 3) as [Hw Hr]; [cbn; lia|]. split; [by apply Hw|]. apply Hr. vm_compute. reflexivity.
Defined.

(** * Accounts and tickets *)

Module Accounts.
Definition prefix_of_type (t : HashType) : bytes := map byte_of_N
  match t with
  | ContractKt1Hash => [2; 90; 121] | ContractTz1Hash => [6; 161; 159] | ContractTz2Hash => [6; 161; 161] | ContractTz3Hash => [6; 161; 164]
  | SmartRollupHash => [6; 124; 117] | BlockHash => [1; 52] | PublicKeyEd25519 => [13; 15; 37; 217] | PublicKeySecp256k1 => [3; 254; 226; 86]
  | PublicKeyP256 => [3; 178; 139; 127]
  end%N.
#[global] Instance b58 : Base58Crate := {
  B58Err := unit; InvalidBase58 := tt; from_base58check := Ok; base58check_prefix := prefix_of_type;
  hash_from_b58check t data := if starts_with (prefix_of_type t) data then Ok (drop (length (prefix_of_type t)) data) else Err tt;
  hash_to_b58check t h := prefix_of_type t ++ h
}.
#[global] Instance b58_laws : Base58Laws b58.
Proof.
  split.
  - done.
  - intros t h _. cbn. unfold starts_with. rewrite bool_decide_eq_true_2 by by exists h. by rewrite drop_app_length.
  - intros t t' h _ [x E]. by destruct t, t'.
Qed.
(** Not a hash function, but of the right size. *)
#[global] Instance crypto : CryptoCrate := {
  CryptoErr := unit; digest_256 bs := Ok (be_bytes 32 (of_le_bytes bs mod 2 ^ 256)); verify_hash _ _ _ _ := Ok true
}.
#[global] Instance digests : DigestLaws.
Proof. intros bs. eexists. split; [done|apply length_be_bytes]. Qed.
#[global] Instance digest_errors : DigestErrors := tt.
Definition kt1 : bytes := repeat Byte.x24 20.
Definition tz3 : bytes := repeat Byte.x36 20.
Definition ticket (amount : Z) : Ticket MichelsonString :=
  mkTicket (mkMichelsonPair (mkMichelsonContract (Originated kt1)) (mkMichelsonPair (mkMichelsonString (str "red")) (mkMichelsonInt amount))).
End Accounts.
Import Accounts.

Lemma contract_notation_witness : contract_from_b58check (contract_to_b58check (Implicit (PKH_P256 tz3))) = Ok (Implicit (PKH_P256 tz3)).
Proof. apply contract_notation. done. Defined.
Definition gives {E} (o : outcome E bytes) (x : bytes) : bool := match o with Ok h => bool_decide (h = x) | _ => false end.
Lemma gives_ok {E} (o : outcome E bytes) x : gives o x = true -> o = Ok x.
Proof. destruct o; [|done..]. intros H%bool_decide_eq_true. by subst. Qed.
Definition ex_hash : bytes := Eval vm_compute in match ticket_hash (ticket 1) with Ok h => h | _ => [] end.
Lemma ticket_hash_identifies_witness : (ticket_creator (ticket 1) = ticket_creator (ticket 5) /\ ticket_contents (ticket 1) = ticket_contents (ticket 5))
  \/ exists b b', b <> b' /\ digest_256 b = Ok ex_hash /\ digest_256 b' = Ok ex_hash.
Proof. apply (ticket_hash_identifies (ticket 1) (ticket 5) ex_hash); [done|done|apply gives_ok; vm_compute; reflexivity|apply gives_ok; vm_compute; reflexivity]. Defined.

(** * Messages *)

Definition ex_transfer : Transfer (MichelsonOr (Ticket MichelsonString) MichelsonUnit) :=
  mkTransfer (Or_Left (ticket 1)) kt1 (PKH_P256 tz3) (mkSmartRollupAddress (repeat Byte.x07 20)).
Lemma inbox_message_round_trip_witness : parse (serialize (Internal (Internal_Transfer ex_transfer)) []).2 = Ok (Internal (Internal_Transfer ex_transfer), []).
Proof.
  destruct (inbox_message_round_trip (Internal (Internal_Transfer ex_transfer))) as [(bs&W&R)|U]; [repeat split| |].
  - rewrite W. exact R.
  - destruct (U []) as (e&out&E). discriminate E.
Defined.

Definition ex_transaction : OutboxMessageTransaction (Ticket MichelsonString) := mkOutboxTransaction (ticket 1) (Originated kt1) entrypoint_default.
Definition ex_outbox : OutboxMessage (Ticket MichelsonString) := AtomicTransactionBatch (mkBatch [ex_transaction; ex_transaction]).
(** A message of the tests of outbox.rs ([transaction_two]). *)
Definition transaction_two : OutboxMessageTransaction (Ticket MichelsonString) :=
  mkOutboxTransaction (mkTicket (mkMichelsonPair (mkMichelsonContract (Originated (map byte_of_N [36; 102; 103; 169; 49; 254; 11; 210; 251; 28; 182; 4; 247; 20; 96; 30; 136; 40; 69; 80]%N)))
      (mkMichelsonPair (mkMichelsonString (str "yellow")) (mkMichelsonInt 329))))
    (Originated (map byte_of_N [21; 237; 173; 39; 159; 85; 226; 254; 64; 17; 222; 109; 44; 36; 253; 245; 27; 242; 37; 197]%N)) (mkEntrypoint (str "another")).
Example encoded_transaction_two : bin_write transaction_two [] = (Ok tt, map byte_of_N [7; 7; 10; 0; 0; 0; 22; 1; 36; 102; 103; 169; 49; 254; 11; 210; 251; 28; 182; 4;
  247; 20; 96; 30; 136; 40; 69; 80; 0; 7; 7; 1; 0; 0; 0; 6; 121; 101; 108; 108; 111; 119; 0; 137; 5; 1; 21; 237; 173; 39; 159; 85; 226; 254; 64; 17; 222; 109; 44; 36; 253;
  245; 27; 242; 37; 197; 0; 0; 0; 0; 7; 97; 110; 111; 116; 104; 101; 114]%N).
Proof. vm_compute. reflexivity. Qed.
(** Whitelists are not written here. *)
#[local] Instance no_whitelist_write : BinWriter OutboxMessageWhitelistUpdate := fun _ => fail tt.
#[local] Instance no_whitelist_read : NomReader OutboxMessageWhitelistUpdate := fun _ => Err tt.
Lemma outbox_message_round_trip_witness : nom_read ((bin_write ex_outbox []).2 ++ [Byte.x2a]) = Ok (ex_outbox, [Byte.x2a]).
Proof.
  destruct (outbox_message_round_trip ex_outbox) as [(bs&W&R)|U]; [repeat (split || constructor)| |].
  - rewrite W. apply R.
  - destruct (U []) as (e&out&E). discriminate E.
Defined.

(** * Data availability *)

Module Payload.
(** Two pages of contents, and the page of their hashes. *)
Definition payload : bytes := repeat Byte.x41 (N.to_nat 4091) ++ repeat Byte.x42 9.
Definition known : list (bytes * bytes) := (prepare_preimages log_page payload []).2.
(** A host that knows some pages. *)
Section host.
Context (pages : list (bytes * bytes)).
Definition reveal_known : RevealCore := fun hash max =>
  match List.find (fun x => bool_decide (x.1 = hash)) pages with
  | Some (_, page) => if length page <=? max then (Z.of_nat (length page), page) else (-1, [])%Z
  | None => (-1, [])%Z
  end.
Lemma reveal_known_laws : RevealLaws reveal_known.
Proof.
  intros hash max n bs. unfold core_reveal_preimage, reveal_known. destruct (List.find _ pages) as [[h page]|]; [|intros [= ? _]; lia].
  destruct (Nat.leb_spec (length page) max); intros [= E <-]; [|lia]. lia.
Qed.
Definition all_known : bool := forallb (fun x => bool_decide ((reveal_known x.1 MAX_PAGE_SIZE).2 = x.2) && (0 <=? (reveal_known x.1 MAX_PAGE_SIZE).1)%Z) pages.
Lemma known_revealable : all_known = true -> Forall (fun x => revealable (rc := reveal_known) x.1 x.2) pages.
Proof.
  intros H. apply Forall_forall. intros x Hx. unfold all_known in H. rewrite forallb_forall in H. specialize (H x ltac:(by apply list_elem_of_In)).
  apply andb_true_iff in H as [H1%bool_decide_eq_true H2%Z.leb_le]. unfold revealable, core_reveal_preimage. destruct (reveal_known x.1 MAX_PAGE_SIZE) as [c bs] eqn:E.
  cbn in *. subst bs. assert (c = Z.of_nat (Z.to_nat c)) as Hc by lia. rewrite Hc in E. apply reveal_known_laws in E as [El _]. f_equal. lia.
Qed.
End host.
#[global] Instance reveals : RevealCore := reveal_known known.
#[global] Instance reveal_laws : RevealLaws reveals := reveal_known_laws known.
Lemma all_are_known : all_known known = true.
Proof. vm_compute. reflexivity. Qed.
Definition bare_store : Store := mkStore node_default [].
Lemma bare_store_ok : c_ok bare_store.
Proof. apply tree_ok_default. Qed.
Definition payload_path : bytes := str "/payload".
Lemma payload_path_ok : path_ok payload_path.
Proof. by apply path_ok_compute. Qed.
Definition root : PreimageHash := mkPreimageHash (default [] (fst <$> last known)).
End Payload.
Import Payload.

Lemma reveal_returns_payload_witness : exists root s', prepare_preimages log_page payload [] = (Ok root, known)
  /\ reveal_to_store (Certificate_V0 (mkV0Certificate root [] 1)) payload_path bare_store = (Ok (N.to_nat 4100), s')
  /\ c_value s' (path_steps payload_path) = Some payload.
Proof.
  destruct (reveal_returns_payload payload payload_path bare_store [] 1) as (r&pages&E&H); [done|by vm_compute|apply bare_store_ok|apply payload_path_ok|].
  assert (pages = known) as -> by (unfold known; by rewrite E). destruct (H (known_revealable known all_are_known)) as (s'&E'&Hs). exists r, s'. split_and!; [done|exact E'|].
  by apply sets_at in Hs.
Defined.
Lemma reveal_is_bounded_witness : exists o v s', reveal_to_store (Certificate_V0 (mkV0Certificate root [] 1)) payload_path bare_store = (o, s') /\ o <> Diverge
  /\ sets bare_store payload_path v s' /\ (N.of_nat (length (default [] v)) <= MAX_PAYLOAD)%N /\ match o with Ok n => length (default [] v) = n | _ => True end.
Proof. apply reveal_is_bounded; [apply bare_store_ok|apply payload_path_ok]. Defined.

(** * Installers *)

Import InstallerConfig InstallerYaml InstallerKernel InstallerClient.

Module Install.
#[global] Instance crates : InstallerCrates := {
  nom_u32_le input := if length input <? 4 then Err tt else Ok (of_le_bytes (take 4 input), drop 4 input);
  nom_length_data r input := '(n, input) ← r input; if length input <? N.to_nat n then Err tt else Ok (take (N.to_nat n) input, drop (N.to_nat n) input);
  nom_complete A r := r;
  nom_map_result A B r f input := o ← r input; b ← f o.1; Ok (b, o.2);
  nom_tuple2 A B r1 r2 input := o1 ← r1 input; o2 ← r2 o1.2; Ok ((o1.1, o2.1), o2.2);
  nom_error _ _ := tt;
  bin_custom _ := tt;
  enc_field A _ w := w;
  enc_variant_with_field A _ wt w tag a := _ ← wt tag; w a
}.
#[global] Instance crates_laws : InstallerLaws crates.
Proof.
  split; try done.
  - intros n rest H. cbn -[le_bytes Nat.ltb]. rewrite (proj2 (Nat.ltb_ge _ _)) by (rewrite length_app, length_le_bytes; lia).
    rewrite take_app_length', drop_app_length' by by rewrite length_le_bytes. by rewrite of_le_bytes_le_bytes.
  - intros r i n bs rest E <-. cbn -[Nat.ltb]. rewrite E. cbn -[Nat.ltb]. rewrite Nat2N.id, (proj2 (Nat.ltb_ge _ _)) by (rewrite length_app; lia).
    by rewrite take_app_length, drop_app_length.
  - intros A B r f i a rest b E1 E2. cbn. rewrite E1. cbn. by rewrite E2.
  - intros. by apply written_then.
Qed.
(** Values are given as they are. *)
#[global] Instance hex : HexDecode := { FromHexError := unit; decode_hex bs := Ok bs }.
(** The name of a file is its only instruction, which sets a value at a fixed path. *)
#[global] Instance client : ClientCrates := {
  IoError := unit; YamlError := unit; File := bytes;
  file_open name := Ok name;
  yaml_from_reader value := Ok (mkYamlConfig [Instr_Set (mkSetArgs value (str "/value"))]);
  INSTALLER_KERNEL := str "installer";
  write_custom_section wasm name data := wasm ++ Byte.x00 :: name ++ data
}.
#[global] Instance sections : SectionLaws client.
Proof. intros wasm name data. exists (Byte.x00 :: name). done. Qed.

Lemma reveals_any pages : all_known pages = true -> Forall (SdkInstaller.known (rc := reveal_known pages)) pages.
Proof.
  intros H. apply Forall_forall. intros x Hx max Hmax. unfold all_known in H. rewrite forallb_forall in H. specialize (H x ltac:(by apply list_elem_of_In)).
  apply andb_true_iff in H as [H1%bool_decide_eq_true H2%Z.leb_le]. unfold core_reveal_preimage, reveal_known in *.
  destruct (List.find _ pages) as [[h page]|]; [|cbn in H2; lia]. destruct (length page <=? MAX_PAGE_SIZE); [|cbn in H2; lia]. cbn in H1. subst page.
  by rewrite (proj2 (Nat.leb_le _ _)) by done.
Qed.

Definition bare_host : HostState := mkHostState bare_store (mkMetadata [] 0) 0 0 [].
(** A host that boots on a kernel. *)
Definition booted (code : bytes) : HostState := (store_write_all KERNEL_BOOT_PATH code bare_host).2.
Lemma booted_sets code : size_ok (length code) -> sets bare_host KERNEL_BOOT_PATH (Some code) (booted code).
Proof.
  intros H. destruct (store_write_all_spec bare_host KERNEL_BOOT_PATH code) as (s&E&Hs); [apply bare_store_ok|apply boot_ok|done|]. unfold booted. by rewrite E.
Qed.
Definition code_with (p : OwnedConfigProgram) : bytes := match with_config_program (E := bytes) p with Ok code => code | _ => [] end.
Definition installer_of (root : PreimageHash) : bytes := match create_installer_config root None with Ok p => code_with p | _ => [] end.
End Install.
Import Install.

Lemma installer_installs_kernel_witness : exists s', installer (E := bytes) (booted (installer_of root)) = (Ok tt, s') /\ c_value s' (path_steps KERNEL_BOOT_PATH) = Some payload.
Proof.
  destruct (installer_installs_kernel (S := HostState) payload) as (r&pages&p&wasm&E&Ep&Ew&H); [done|by vm_compute|].
  assert (pages = Payload.known) as -> by (unfold Payload.known; by rewrite E).
  assert (r = root) as ->. { assert (Er : (prepare_preimages log_page payload []).1 = Ok root) by (vm_compute; reflexivity). rewrite E in Er. by injection Er. }
  assert (installer_of root = wasm) as Hw by (unfold installer_of, code_with; by rewrite Ep, Ew).
  assert (Hz : size_ok (length (installer_of root))) by (vm_compute; reflexivity). pose proof (booted_sets _ Hz) as Hb.
  destruct (H (booted (installer_of root))) as (s'&Es&Hk&_).
  - exact (proj1 Hb).
  - rewrite <- Hw. exact (sets_at _ _ _ _ Hb).
  - rewrite <- Hw. exact Hz.
  - destruct Hb as [_ Hb]. rewrite Hb. vm_compute. reflexivity.
  - apply reveals_any, all_are_known.
  - exists s'. split; [exact Es|exact Hk].
Defined.

Module Programs.
(** A program that sets a value and moves it. *)
Definition small : OwnedConfigProgram := mkProgram [set_instr (str "v") (str "/value"); move_instr (str "/value") (str "/other")].
Definition encoded (p : OwnedConfigProgram) : bytes := (bin_write p []).2.
Lemma small_runs : Forall runnable (program small).
Proof.
  assert (Hv : path_ok (str "/value")) by by apply path_ok_compute. assert (Ho : path_ok (str "/other")) by by apply path_ok_compute.
  constructor; [|constructor; [|done]]; split; cbn [instr_ok set_instr move_instr untouched s_value s_to m_from m_to].
  - split; [vm_compute; lia|done].
  - vm_compute. lia.
  - vm_compute. done.
  - done.
  - vm_compute. lia.
  - done.
Qed.
(** What the client makes of a file that sets 500 bytes, after the kernel was installed. *)
Definition long_value : bytes := repeat Byte.x41 500.
Definition long_instr : ConfigInstruction := set_instr long_value (str "/value").
Definition long : OwnedConfigProgram := mkProgram (installer_program root ++ [long_instr]).
Lemma client_makes_long : create_installer_config root (Some long_value) = Ok long.
Proof. vm_compute. reflexivity. Qed.
End Programs.
Import Programs.

Lemma install_runs_program_witness : exists s1 s3, copied KERNEL_BOOT_PATH (booted (str "wasm" ++ encoded small)) s1 /\ let '(o, s2) := evaluate small s1 in
  install_kernel KERNEL_BOOT_PATH (booted (str "wasm" ++ encoded small)) = (o, s3) /\
  match o with Ok _ => c_ok s3 /\ forall q, c_value s3 q = match strip AUX q with Some _ => None | None => c_value s2 q end | _ => s3 = s2 end.
Proof.
  assert (Hz : size_ok (length (str "wasm" ++ encoded small))) by (vm_compute; reflexivity). pose proof (booted_sets _ Hz) as Hb.
  apply (install_runs_program KERNEL_BOOT_PATH (booted (str "wasm" ++ encoded small)) (str "wasm") small (encoded small)).
  - exact (proj1 Hb).
  - exact boot_ok.
  - exact small_runs.
  - vm_compute. reflexivity.
  - exact (sets_at _ _ _ _ Hb).
  - exact Hz.
Defined.
Lemma long_instruction_panics_witness : exists s1, copied KERNEL_BOOT_PATH (booted (str "wasm" ++ encoded long)) s1 /\
  install_kernel KERNEL_BOOT_PATH (booted (str "wasm" ++ encoded long)) = (_ ← eval_instrs (installer_program root); panicked PSlice) s1.
Proof.
  assert (Hz : size_ok (length (str "wasm" ++ encoded long))) by (vm_compute; reflexivity). pose proof (booted_sets _ Hz) as Hb.
  apply (long_instruction_panics KERNEL_BOOT_PATH (booted (str "wasm" ++ encoded long)) (str "wasm") (installer_program root) long_instr [] (encoded long)).
  - exact (proj1 Hb).
  - exact boot_ok.
  - apply installer_runnable. vm_compute. reflexivity.
  - constructor; [|done]. split; [vm_compute; lia|by apply path_ok_compute].
  - vm_compute. lia.
  - vm_compute. reflexivity.
  - exact (sets_at _ _ _ _ Hb).
  - exact Hz.
Defined.
