(* ===== verification/Rlp.v ===== *)
(** RLP, the serialization of Ethereum, as the kernel of Etherlink uses it.

    The [rlp] crate is not in the repository: [RlpCrate] names the functions of it that the
    kernel calls and [RlpLaws] what its documentation says of them.  A decoder ([Rlp]) is
    the bytes it looks at; [RlpStream::begin_list n] followed by [n] appends is [rlp_list] of
    the items appended.  The rest of the file models [ethereum/src/rlp_helpers.rs]. *)

From S2P Require Import Prelude Endian.
#[local] Set Warnings "-register-all".

(** [DecoderError]: the constructors that the kernel builds; the others only come from the crate. *)
Inductive DecoderError : Set :=
  | RlpExpectedToBeList | RlpInvalidLength | RlpIncorrectListLen | Custom (s : bytes) | CrateError (n : nat).
Abbreviation decoded := (outcome DecoderError).

(** [Encodable] and [Decodable]. *)
Class Codec (A : Type) := { rlp_bytes : A -> bytes; decode : bytes -> decoded A }.
#[export] Hint Mode Codec ! : typeclass_instances.

Class RlpCrate := {
  rlp_value : bytes -> bytes;               (* encode_value, append_empty_data *)
  rlp_list : list bytes -> bytes;           (* begin_list, append *)
  rlp_is_list : bytes -> bool;
  rlp_is_empty : bytes -> bool;
  rlp_item_count : bytes -> decoded nat;
  rlp_iter : bytes -> list bytes;
  rlp_at : bytes -> nat -> decoded bytes;
  rlp_data : bytes -> decoded bytes;        (* data, as_val::<Vec<u8>> *)
  rlp_as_list {A : Type} {C : Codec A} : bytes -> decoded (list A)
}.


Section helpers.
Context {crate : RlpCrate}.

(** An encoding of one item. *)
Inductive item : bytes -> Prop :=
  | item_value b : item (rlp_value b)
  | item_list l : Forall item l -> item (rlp_list l).

Definition next (it : list bytes) : decoded (bytes * list bytes) :=
  match it with x :: it => Ok (x, it) | [] => Err RlpIncorrectListLen end.

Definition decode_field {A} {C : Codec A} (decoder field_name : bytes) : decoded A :=
  map_err (fun _ => Custom field_name) (decode decoder).

Definition decode_option_explicit {A} (decoder field_name : bytes) (dec_field : bytes -> bytes -> decoded A) :
    decoded (option A) :=
  if rlp_is_empty decoder then Ok None else inner ← dec_field decoder field_name; Ok (Some inner).
Definition decode_option {A} {C : Codec A} (decoder field_name : bytes) : decoded (option A) :=
  decode_option_explicit decoder field_name decode_field.

Definition append_option_explicit {A} (data : option A) (encoder : A -> bytes) : bytes :=
  match data with Some value => encoder value | None => rlp_value [] end.
Definition append_option {A} {C : Codec A} (data : option A) : bytes := append_option_explicit data rlp_bytes.

Definition decode_list {A} {C : Codec A} (decoder field_name : bytes) : decoded (list A) :=
  map_err (fun _ => Custom field_name) (rlp_as_list decoder).
(** [append_list], and [append_vec], whose data are written as one value. *)
Definition append_list {A} {C : Codec A} (l : list A) : bytes := rlp_list (map rlp_bytes l).
Definition append_vec (data : bytes) : bytes :=
  match data with [] => rlp_value [] | _ => rlp_value data end.

(** [FromRlpBytes::from_rlp_bytes]. *)
Definition from_rlp_bytes {A} {C : Codec A} (bs : bytes) : decoded A := decode bs.

(** The checks before reading the fields of a list. *)
Definition expect_list {A} (n : nat) (wrong : DecoderError) (decoder : bytes) (k : list bytes -> decoded A) : decoded A :=
  if negb (rlp_is_list decoder) then Err RlpExpectedToBeList
  else count ← rlp_item_count decoder; if negb (count =? n) then Err wrong else k (rlp_iter decoder).

#[global] Instance bytes_codec : Codec bytes := { rlp_bytes := rlp_value; decode := rlp_data }.
End helpers.

(** What the crate documents: reading back what was written. *)
Class RlpLaws (crate : RlpCrate) := {
  rlp_value_is_list b : rlp_is_list (rlp_value b) = false;
  rlp_list_is_list l : Forall item l -> rlp_is_list (rlp_list l) = true;
  rlp_list_count l : Forall item l -> rlp_item_count (rlp_list l) = Ok (length l);
  rlp_list_iter l : Forall item l -> rlp_iter (rlp_list l) = l;
  rlp_list_at l i x : Forall item l -> l !! i = Some x -> rlp_at (rlp_list l) i = Ok x;
  rlp_list_as_list {A : Type} {C : Codec A} (l : list A) :
    Forall (fun a => item (rlp_bytes a) /\ decode (rlp_bytes a) = Ok a) l ->
    rlp_as_list (rlp_list (map rlp_bytes l)) = Ok l;
  rlp_value_data b : rlp_data (rlp_value b) = Ok b;
  rlp_value_is_empty b : rlp_is_empty (rlp_value b) = bool_decide (b = []);
  rlp_list_is_empty l : Forall item l -> rlp_is_empty (rlp_list l) = bool_decide (l = []);
  rlp_value_size b : length (rlp_value b) <= 2 * length b + 9;
  rlp_list_size l : length (rlp_list l) <= sum_list_with length l + 9
}.

(** A codec writes one non-empty item and reads it back. *)
Class CodecLaws {crate : RlpCrate} (A : Type) {C : Codec A} := {
  codec_item (a : A) : item (rlp_bytes a);
  codec_not_empty (a : A) : rlp_is_empty (rlp_bytes a) = false;
  codec_decode (a : A) : decode (rlp_bytes a) = Ok a
}.

Section laws.
Context {crate : RlpCrate} {laws : RlpLaws crate}.

Lemma expect_list_ok {A} n w l (k : list bytes -> decoded A) : Forall item l -> length l = n ->
  expect_list n w (rlp_list l) k = k l.
Proof.
  intros Hl Hn. unfold expect_list. rewrite rlp_list_is_list, rlp_list_count by done. cbn.
  rewrite Hn, Nat.eqb_refl. cbn. by rewrite rlp_list_iter.
Qed.

Context {A : Type} {C : Codec A} {CL : CodecLaws A}.

Lemma decode_field_ok (a : A) name : decode_field (rlp_bytes a) name = Ok a.
Proof. unfold decode_field. by rewrite codec_decode. Qed.

Lemma append_option_item (o : option A) : item (append_option o).
Proof. destruct o; cbn; [apply codec_item|constructor]. Qed.

Lemma decode_option_ok (o : option A) name : decode_option (append_option o) name = Ok o.
Proof.
  unfold decode_option, decode_option_explicit, append_option, append_option_explicit. destruct o as [a|].
  - by rewrite codec_not_empty, decode_field_ok.
  - by rewrite rlp_value_is_empty.
Qed.
End laws.
