(* ===== verification/EvmErrors.v ===== *)
(** Errors of the execution of Ethereum transactions.

    Models the error types of [etherlink/kernel_evm/evm_execution/src/lib.rs] and [account_storage.rs], and the exit reasons of the
    crate [evm] (SputnikVM): for the types of the crate, the constructors that the repository builds or looks at, and one that
    stands for the others. *)

From S2P Require Import Prelude KernelPath KernelHost KernelStorage.

(** * Exit reasons (crate evm) *)

Inductive ExitSucceed : Set := Stopped | Returned | Suicided.
Inductive ExitRevert : Set := Reverted.
Inductive ExitError : Set :=
  | OutOfFund | CreateCollision | CallTooDeep | CreateContractLimit | InvalidCode (opcode : byte) | ExitErrorOther (msg : bytes)
  | CrateExitError (n : nat).
Inductive ExitFatal : Set := CallErrorAsFatal (e : ExitError) | ExitFatalOther (msg : bytes) | CrateExitFatal (n : nat).
Inductive ExitReason : Set := ExitSucceeded (r : ExitSucceed) | ExitReverted (r : ExitRevert) | ExitFailed (e : ExitError) | ExitFatally (f : ExitFatal).

(** * Errors (lib.rs, account_storage.rs) *)

Inductive DurableStorageError : Set := DSE_RuntimeError (e : RuntimeError) | DSE_PathError (e : PathError).

Inductive AccountStorageError : Set :=
  | ASE_DurableStorageError (e : DurableStorageError) | ASE_StorageError (e : KernelStorage.StorageError) | BalanceOverflow | NonceOverflow.

Inductive ArithmeticErrorKind : Set := FeeOverflow.

(** [PrecompileFailure::Error] is the only failure of precompiled contracts that is built.  Failures of allocations have no constructor: memory
    is not bounded. *)
Inductive EthereumError : Set :=
  | WrappedError (msg : bytes)
  | PrecompileFailed (exit_status : ExitError)
  | InternalTrapError
  | EthereumStorageError (e : KernelStorage.StorageError)
  | EthereumAccountError (e : AccountStorageError)
  | GasLimitOverflow (n : N)
  | InconsistentTransactionStack (depth : nat) (is_initial is_begin : bool)
  | InconsistentTransactionData (depth data : nat)
  | InconsistentState (msg : bytes)
  | ArithmeticError (e : ArithmeticErrorKind)
  | OutOfTicks.

(** [From]. *)
Definition account_error_of_path (e : PathError) : AccountStorageError := ASE_DurableStorageError (DSE_PathError e).
Definition account_error_of_runtime (e : RuntimeError) : AccountStorageError := ASE_DurableStorageError (DSE_RuntimeError e).
