(* ===== verification/EvmStorage.v ===== *)
(** Storage primitives of the Etherlink kernel, and indexable storage.

    Models [etherlink/kernel_evm/kernel/src/indexable_storage.rs] and, from [storage.rs] and
    [error.rs], typed values in RLP and the errors these functions return. *)

From S2P Require Import Prelude Endian KernelPath KernelHost KernelRuntime KernelStorage KernelTransactions Rlp EvmErrors.

(** * Errors (error.rs) *)

(** The constructors that the functions below build. *)
Inductive StorageError : Set := SE_Path (e : PathError) | SE_Runtime (e : RuntimeError) | IndexOutOfBounds
  | SE_Storage (e : KernelStorage.StorageError) | SE_AccountStorage (e : AccountStorageError) | InvalidLoadValue (expected actual : nat).
Inductive TransferError : Set := CumulativeGasUsedOverflow.
Inductive UpgradeProcessError : Set := InternalUpgrade (msg : bytes) | Fallback.
(** [TicketError::InvalidAmount], and the errors of the crate that serializes. *)
Inductive EncodingError : Set := InvalidAmount (n : N) | BinError (n : nat).
Inductive Error : Set :=
  | E_Transfer (e : TransferError) | E_Storage (e : StorageError) | InvalidConversion | InvalidParsing
  | InvalidRunTransaction (e : EthereumError) | E_Simulation (e : EthereumError) | UpgradeError (e : UpgradeProcessError) | Reboot | E_Encoding (e : EncodingError).
(** [anyhow::Error]; messages added with [context] are left out. *)
Inductive Anyhow : Set :=
  | A_Error (e : Error) | A_Path (e : PathError) | A_Runtime (e : RuntimeError) | A_Decoder (e : DecoderError) | A_Message (msg : bytes).

Definition error_of_runtime (e : RuntimeError) : Error := E_Storage (SE_Runtime e).
Definition error_of_decoder (_ : DecoderError) : Error := InvalidConversion.
Definition error_of_path (e : PathError) : Error := E_Storage (SE_Path e).
Definition error_of_durable (e : DurableStorageError) : Error :=
  match e with DSE_PathError e => E_Storage (SE_Path e) | DSE_RuntimeError e => E_Storage (SE_Runtime e) end.
Definition error_of_storage (e : KernelStorage.StorageError) : Error := E_Storage (SE_Storage e).
Definition error_of_account (e : AccountStorageError) : Error := E_Storage (SE_AccountStorage e).

(** * Hexadecimal *)

(** [hex::encode]. *)
Class HexCrate := { hex_encode : bytes -> bytes }.
Class HexLaws (hex : HexCrate) := {
  hex_inj a b : hex_encode a = hex_encode b -> a = b;
  hex_digits b : Forall (fun x => x ∈ str "0123456789abcdef") (hex_encode b);
  hex_length b : length (hex_encode b) = 2 * length b
}.

Section hex.
Context {hex : HexCrate} {hlaws : HexLaws hex}.

Lemma hex_encode_step b : b <> [] -> step_ok (hex_encode b).
Proof.
  intros Hb. split.
  - intros E. apply (f_equal length) in E. rewrite hex_length in E. destruct b; [done|cbn in E; lia].
  - eapply Forall_impl; [apply hex_digits|]. intros c Hc. cbn beta in Hc.
    unfold str in Hc. cbn in Hc. rewrite !elem_of_cons, elem_of_nil in Hc. naive_solver.
Qed.
(** A word with a letter that is not a digit. *)
Lemma hex_not_word (w : bytes) (c : byte) b : c ∈ w -> c ∉ str "0123456789abcdef" -> hex_encode b <> w.
Proof. intros Hc Hn E. pose proof (hex_digits b) as Hd. rewrite E, Forall_forall in Hd. by apply Hn, Hd. Qed.
Lemma hex_not_readonly b : hex_encode b <> str "readonly".
Proof. apply (hex_not_word _ (byte_of_N 114)); [vm_compute; by left|]. apply (bool_decide_unpack _). by vm_compute. Qed.
End hex.

Section primitives.
Context {S : Type} {core : SmartRollupCore S}.

(** * Values in RLP (storage.rs) *)

Definition store_rlp {A} {C : Codec A} (src : A) (path : bytes) : M S Error unit :=
  M_map_err error_of_runtime (store_write_all path (rlp_bytes src)).

Definition read_rlp {A} {C : Codec A} (path : bytes) : M S Error A :=
  bs ← M_map_err error_of_runtime (store_read_all path);
  lift (map_err error_of_decoder (from_rlp_bytes bs)).

Definition read_optional_rlp {A} {C : Codec A} (path : bytes) : M S Anyhow (option A) :=
  kind ← M_map_err A_Runtime (store_has path);
  match kind with
  | Some Value => elt ← M_map_err A_Error (read_rlp path); mret (Some elt)
  | _ => mret None
  end.

(** * Indexable storage (indexable_storage.rs) *)

Definition LENGTH : bytes := str "/length".

(** [u64] values are numbers below [2^64]. *)
Definition read_u64 (path : bytes) : M S RuntimeError N :=
  '(value, buffer) ← store_read_slice path 0 (repeat Byte.x00 8);
  if negb (value =? 8) then fail DecodingError else mret (of_le_bytes buffer).
Definition store_u64 (path : bytes) (value : N) : M S RuntimeError unit := store_write_all path (le_bytes 8 value).

(** [IndexableStorage] is its path. *)
Definition value_path (path : bytes) (index : N) : outcome StorageError bytes :=
  index_subkey ← assert_from (str "/" ++ decimal 20 index);
  map_err SE_Path (concat path index_subkey).

Definition store_index (path : bytes) (index : N) (value_repr : bytes) : M S StorageError unit :=
  key_path ← lift (value_path path index);
  M_map_err SE_Runtime (store_write_all key_path value_repr).

Definition unwrap_or {E A} (d : A) (m : M S E A) : M S StorageError A := fun s =>
  match m s with
  | (Ok a, s) => (Ok a, s) | (Err _, s) => (Ok d, s) | (Panic p, s) => (Panic p, s) | (Diverge, s) => (Diverge, s)
  end.
(** [length + 1] wraps at [2^64]. *)
Definition get_length_and_increment (path : bytes) : M S StorageError N :=
  path ← lift (map_err SE_Path (concat path LENGTH));
  length ← unwrap_or 0%N (read_u64 path);
  _ ← M_map_err SE_Runtime (store_u64 path ((length + 1) mod 2 ^ 64)%N);
  mret length.

Definition read_length (path : bytes) : M S StorageError N := fun s =>
  match read_u64 path s with
  | (Ok l, s) => (Ok l, s)
  | (Err (PathNotFound | HostErr StoreNotAValue | HostErr StoreInvalidAccess), s) => (Ok 0%N, s)
  | (Err e, s) => (Err (SE_Runtime e), s)
  | (Panic p, s) => (Panic p, s)
  | (Diverge, s) => (Diverge, s)
  end.
Definition length_of (path : bytes) : M S StorageError N :=
  path ← lift (map_err SE_Path (concat path LENGTH)); read_length path.

Definition unsafe_get_value (path : bytes) (index : N) : M S StorageError bytes :=
  key_path ← lift (value_path path index); M_map_err SE_Runtime (store_read_all key_path).

Definition get_value (path : bytes) (index : N) : M S StorageError bytes :=
  length ← length_of path;
  if (length <=? index)%N then fail IndexOutOfBounds else unsafe_get_value path index.

Definition push_value (path value : bytes) : M S StorageError unit :=
  new_index ← get_length_and_increment path; store_index path new_index value.
End primitives.

(** * Correctness of indexable storage *)

Section indexable.
Context {S : Type} {core : SmartRollupCore S} {laws : CoreLaws S}.
Context (path : bytes) (Hpath : path_ok path) (Hroom : length path + 21 <= PATH_MAX_SIZE).
Implicit Types (s : S) (vs : list bytes) (i : N).

Definition u64_ok (n : N) : Prop := (n < 2 ^ 64)%N.
Definition length_steps : list bytes := path_steps path ++ [str "length"].
Definition index_steps (i : N) : list bytes := path_steps path ++ [decimal 20 i].

Lemma u64_digits i : u64_ok i -> (i < 10 ^ N.of_nat 20)%N.
Proof. unfold u64_ok. intros H. assert ((2 ^ 64 < 10 ^ N.of_nat 20)%N) by (vm_compute; done). lia. Qed.

Lemma singleton_inj (x y : bytes) : [x] = [y] -> x = y.
Proof. by intros [= ->]. Qed.
Lemma decimal_not_nil n : decimal 20 n <> [].
Proof. cbn [decimal]. destruct (_ <? _)%N; [done|]. intros H. by destruct (app_cons_not_nil _ _ _ (eq_sym H)). Qed.

Lemma child_path (x : bytes) : step_ok x -> length x <= 20 -> x <> str "readonly" ->
  path_ok (str "/" ++ x) /\ concat path (str "/" ++ x) = Ok (path ++ str "/" ++ x) /\
  path_ok (path ++ str "/" ++ x) /\ path_steps (path ++ str "/" ++ x) = path_steps path ++ [x].
Proof.
  intros Hx Hl Hr. assert (E : render [x] = str "/" ++ x) by (cbn; by rewrite app_nil_r). rewrite <- E.
  apply concat_render; [done|split; [done|by constructor]|by intros [=]|]. rewrite E. cbn in *. lia.
Qed.

Lemma length_path : concat path LENGTH = Ok (path ++ LENGTH) /\ path_ok (path ++ LENGTH) /\
  path_steps (path ++ LENGTH) = length_steps.
Proof.
  destruct (child_path (str "length")) as (_&H); [split; [done|by repeat constructor]|cbn; lia|done|]. exact H.
Qed.

Lemma value_path_ok i : u64_ok i -> exists p, value_path path i = Ok p /\ path_ok p /\ path_steps p = index_steps i.
Proof.
  intros Hi%u64_digits. destruct (child_path (decimal 20 i)) as (H1&H2&H3&H4).
  - split; [apply decimal_not_nil|apply decimal_allowed].
  - exact (length_decimal 20 20 i Hi ltac:(lia)).
  - intros H. pose proof (decimal_allowed 20 i) as Ha. apply (f_equal undecimal) in H as Hu.
    rewrite undecimal_decimal in Hu by done. subst i. vm_compute in H. discriminate H.
  - exists (path ++ str "/" ++ decimal 20 i). unfold value_path, assert_from.
    apply validate_path_spec in H1. rewrite H1. cbn [mbind outcome_bind]. by rewrite H2.
Qed.

Lemma index_steps_inj i j : u64_ok i -> u64_ok j -> index_steps i = index_steps j -> i = j.
Proof.
  intros Hi%u64_digits Hj%u64_digits H%app_inv_head%singleton_inj. apply (f_equal undecimal) in H.
  by rewrite !undecimal_decimal in H.
Qed.
Lemma index_not_length i : u64_ok i -> index_steps i <> length_steps.
Proof.
  intros Hi%u64_digits H%app_inv_head%singleton_inj. apply (f_equal undecimal) in H as Hu.
  rewrite undecimal_decimal in Hu by done. subst i. vm_compute in H. discriminate H.
Qed.

(** The storage holds the values [vs]. *)
Record indexed s vs : Prop := {
  ix_ok : c_ok s;
  ix_bound : u64_ok (N.of_nat (length vs));
  ix_length : c_value s length_steps = Some (le_bytes 8 (N.of_nat (length vs))) \/ vs = [] /\ c_value s length_steps = None;
  ix_values (i : nat) v : vs !! i = Some v -> size_ok (length v) /\ c_value s (index_steps (N.of_nat i)) = Some v
}.

Lemma read_u64_spec s vs : indexed s vs ->
  read_u64 (path ++ LENGTH) s = (Ok (N.of_nat (length vs)), s) \/
  vs = [] /\ read_u64 (path ++ LENGTH) s = (Err (HostErr StoreNotAValue), s).
Proof.
  intros [Hs Hb Hl _]. destruct length_path as (_&Hp&Hst). unfold read_u64, store_read_slice, mbind, M_bind.
  rewrite repeat_length. destruct Hl as [Hl|[-> Hl]]; [left|right; split; [done|]]; rewrite <- Hst in Hl.
  - rewrite (c_read _ _ _ _ _ Hs Hp Hl) by lia. rewrite length_le_bytes. unfold host_result. rewrite wrap_nat.
    cbn [Nat.sub Nat.min map_err mbind outcome_bind]. change (MAX_FILE_CHUNK_SIZE `min` 8) with 8.
    rewrite length_slice by (rewrite length_le_bytes; cbn; lia). cbn -[le_bytes slice]. rewrite app_nil_r. unfold slice.
    rewrite drop_0, take_ge by (by rewrite length_le_bytes). by rewrite of_le_bytes_le_bytes.
  - by rewrite (c_read_none _ _ _ _ Hs Hp Hl).
Qed.

Lemma length_of_spec s vs : indexed s vs -> length_of path s = (Ok (N.of_nat (length vs)), s).
Proof.
  intros H. unfold length_of, mbind, M_bind, lift. destruct length_path as (->&_&_). cbn -[LENGTH]. unfold read_length.
  by destruct (read_u64_spec s vs H) as [->|[-> ->]].
Qed.
Lemma get_length_and_increment_spec s vs : indexed s vs -> exists s',
  get_length_and_increment path s = (Ok (N.of_nat (length vs)), s') /\
  sets s (path ++ LENGTH) (Some (le_bytes 8 ((N.of_nat (length vs) + 1) mod 2 ^ 64))) s'.
Proof.
  intros H. destruct length_path as (Hc&Hp&_).
  destruct (store_write_all_spec s (path ++ LENGTH) (le_bytes 8 ((N.of_nat (length vs) + 1) mod 2 ^ 64))) as (s'&Hw&Hset);
    [by apply (ix_ok s vs)|done|by rewrite length_le_bytes|]. exists s'. split; [|done].
  unfold get_length_and_increment, mbind, M_bind, lift. rewrite Hc. cbn [map_err].
  assert (Hr : unwrap_or 0%N (read_u64 (path ++ LENGTH)) s = (Ok (N.of_nat (length vs)), s))
    by (unfold unwrap_or; by destruct (read_u64_spec s vs H) as [->|[-> ->]]).
  rewrite Hr. unfold store_u64, M_map_err. by rewrite Hw.
Qed.

Lemma push_value_spec s vs v : indexed s vs -> (N.of_nat (length vs) + 1 < 2 ^ 64)%N -> size_ok (length v) ->
  exists s', push_value path v s = (Ok tt, s') /\ indexed s' (vs ++ [v]) /\
    forall q, q <> length_steps -> q <> index_steps (N.of_nat (length vs)) -> c_value s' q = c_value s q.
Proof.
  intros H Hlt Hv. pose proof H as [Hs Hb _ Hvs]. destruct (get_length_and_increment_spec s vs H) as (s1&H1&Hok1&Hset1).
  destruct length_path as (_&_&Hst). rewrite Hst in Hset1. rewrite N.mod_small in Hset1 by done.
  destruct (value_path_ok (N.of_nat (length vs)) Hb) as (p&Hp&Hpok&Hpst).
  destruct (store_write_all_spec s1 p v Hok1 Hpok Hv) as (s2&H2&Hok2&Hset2). rewrite Hpst in Hset2.
  exists s2. split_and!.
  - unfold push_value, store_index, mbind, M_bind, lift. rewrite H1, Hp. unfold M_map_err. by rewrite H2.
  - split; [done|unfold u64_ok; rewrite length_app; cbn; lia| |].
    + left. rewrite Hset2, bool_decide_eq_false_2 by (intros E; by apply (index_not_length (N.of_nat (length vs)))).
      rewrite Hset1, bool_decide_eq_true_2 by done. do 2 f_equal. rewrite length_app. cbn. lia.
    + intros i w Hi. apply lookup_app_Some in Hi as [Hi|[Hle Hi]].
      * destruct (Hvs i w Hi) as [Hw Hval]. apply lookup_lt_Some in Hi as Hlti. split; [done|].
        assert (Hiok : u64_ok (N.of_nat i)) by (unfold u64_ok in *; lia).
        rewrite Hset2, bool_decide_eq_false_2 by (intros E%index_steps_inj; [lia|done..]).
        rewrite Hset1, bool_decide_eq_false_2 by (by apply index_not_length). done.
      * apply list_lookup_singleton_Some in Hi as [Hi <-]. assert (i = length vs) as -> by lia. split; [done|].
        by rewrite Hset2, bool_decide_eq_true_2.
  - intros q Hq1 Hq2. rewrite Hset2, bool_decide_eq_false_2 by done. by rewrite Hset1, bool_decide_eq_false_2.
Qed.

Lemma get_value_spec s vs i : indexed s vs -> u64_ok i ->
  get_value path i s = (ok_or IndexOutOfBounds (vs !! N.to_nat i), s).
Proof.
  intros H Hi. unfold get_value, mbind, M_bind. rewrite (length_of_spec s vs H).
  destruct (N.leb_spec (N.of_nat (length vs)) i) as [Hle|Hlt].
  - by rewrite lookup_ge_None_2 by lia.
  - destruct (lookup_lt_is_Some_2 vs (N.to_nat i) ltac:(lia)) as [v Hv]. rewrite Hv.
    destruct (ix_values s vs H _ _ Hv) as [Hsz Hval]. rewrite N2Nat.id in Hval.
    destruct (value_path_ok i Hi) as (p&Hp&Hpok&Hpst). rewrite <- Hpst in Hval.
    unfold unsafe_get_value, mbind, M_bind, lift. rewrite Hp. unfold M_map_err.
    by rewrite (store_read_all_spec s p v (ix_ok s vs H) Hpok Hval Hsz).
Qed.

(** A sequence of pushes. *)
Fixpoint push_values (vs : list bytes) : M S StorageError unit :=
  match vs with [] => mret tt | v :: vs => _ ← push_value path v; push_values vs end.

Lemma push_values_spec vs : forall s us, indexed s us -> (N.of_nat (length us + length vs) < 2 ^ 64)%N ->
  Forall (fun v => size_ok (length v)) vs -> exists s', push_values vs s = (Ok tt, s') /\ indexed s' (us ++ vs).
Proof.
  induction vs as [|v vs IH]; intros s us H Hb Hsz; [exists s; by rewrite app_nil_r|]. cbn in Hb.
  apply Forall_cons in Hsz as [Hv Hsz]. destruct (push_value_spec s us v H ltac:(lia) Hv) as (s1&H1&Hix&_).
  destruct (IH s1 (us ++ [v]) Hix) as (s2&H2&Hix2); [rewrite length_app; cbn; lia|done|]. exists s2.
  rewrite <- app_assoc in Hix2. split; [|done]. cbn [push_values]. unfold mbind, M_bind. by rewrite H1.
Qed.

(** An indexable storage is a growing array.  Values pushed on storage that has no length yet are numbered
    from 0; afterwards the length is their number, reading an index gives the value pushed there, and
    reading past the end gives [IndexOutOfBounds], on any lawful host and up to [2^64 - 1] values. *)
Theorem indexable_storage_is_array s vs : c_ok s -> c_value s length_steps = None ->
  (N.of_nat (length vs) < 2 ^ 64)%N -> Forall (fun v => size_ok (length v)) vs ->
  exists s', push_values vs s = (Ok tt, s') /\ length_of path s' = (Ok (N.of_nat (length vs)), s') /\
    forall i, u64_ok i -> get_value path i s' = (ok_or IndexOutOfBounds (vs !! N.to_nat i), s').
Proof.
  intros Hs Hl Hb Hsz. destruct (push_values_spec vs s []) as (s'&Hp&Hix); [|done..|].
  { split; [done|unfold u64_ok; cbn; lia|by right|done]. }
  exists s'. split_and!; [done|by apply length_of_spec|]. intros i. by apply get_value_spec.
Qed.
End indexable.
