(* ===== verification/LinkedList.v ===== *)
(** Doubly linked lists in the durable storage.

    Models [etherlink/kernel_evm/kernel/src/linked_list.rs].  Each element has a pointer at
    [/<hex id>/pointer] and its data at [/<hex id>/data]; the pointers to the front and the back are at
    [/meta] and are also kept in memory.  The [hex] crate is a parameter ([HexCrate]), as is [rlp]. *)

From S2P Require Import Prelude Endian KernelPath KernelHost KernelRuntime Rlp EvmStorage.

(** * Data *)

Record Pointer (Id : Type) : Type := mkPointer { ptr_id : Id; ptr_previous : option Id; ptr_next : option Id }.
Record LinkedListPointer (Id : Type) : Type := mkLinkedListPointer { front : Pointer Id; back : Pointer Id }.
Record LinkedList (Id : Type) : Type := mkLinkedList { ll_path : bytes; pointers : option (LinkedListPointer Id) }.
Arguments mkPointer {Id}. Arguments ptr_id {Id}. Arguments ptr_previous {Id}. Arguments ptr_next {Id}.
Arguments mkLinkedListPointer {Id}. Arguments front {Id}. Arguments back {Id}.
Arguments mkLinkedList {Id}. Arguments ll_path {Id}. Arguments pointers {Id}.

(** * Encodings *)

Section codec.
Context {crate : RlpCrate} {Id : Type} {CId : Codec Id}.

#[global] Instance Pointer_codec : Codec (Pointer Id) := {
  rlp_bytes p := rlp_list [rlp_bytes (ptr_id p); append_option (ptr_previous p); append_option (ptr_next p)];
  decode decoder := expect_list 3 RlpInvalidLength decoder (fun it =>
    '(x, it) ← next it; id ← decode_field x (str "id");
    '(x, it) ← next it; previous ← decode_option x (str "previous");
    '(x, it) ← next it; next ← decode_option x (str "next");
    Ok (mkPointer id previous next))
}.

#[global] Instance LinkedListPointer_codec : Codec (LinkedListPointer Id) := {
  rlp_bytes p := rlp_list [rlp_bytes (front p); rlp_bytes (back p)];
  decode decoder := expect_list 2 RlpInvalidLength decoder (fun it =>
    '(x, it) ← next it; front ← decode_field x (str "front");
    '(x, it) ← next it; back ← decode_field x (str "back");
    Ok (mkLinkedListPointer front back))
}.

Definition decode_path (decoder field_name : bytes) : decoded bytes :=
  path ← decode_field decoder field_name;
  map_err (fun _ => Custom (str "not a path")) (try_from path).

#[global] Instance LinkedList_codec : Codec (LinkedList Id) := {
  rlp_bytes l := rlp_list [rlp_value (ll_path l); append_option (pointers l)];
  decode decoder := expect_list 2 RlpIncorrectListLen decoder (fun it =>
    '(x, it) ← next it; path ← decode_path x (str "path");
    '(x, it) ← next it; pointers ← decode_option x (str "pointers");
    Ok (mkLinkedList path pointers))
}.
End codec.

(** * Operations *)

Section list.
Context {crate : RlpCrate} {hex : HexCrate} {S : Type} {core : SmartRollupCore S}.
(** [as_ref] of the identifiers. *)
Context {Id Elt : Type} {CId : Codec Id} {CElt : Codec Elt} (as_ref : Id -> bytes).
Abbreviation hostM := (M S Anyhow).
Abbreviation listM := (M (LinkedList Id * S) Anyhow).

Definition path_result {A} (o : outcome PathError A) : hostM A := lift (map_err A_Path o).
Definition kernel_result {A} (m : M S Error A) : hostM A := M_map_err A_Error m.

(** Paths below [/<hex id>]. *)
Definition sub_path (id : Id) (suffix prefix : bytes) : hostM bytes :=
  path ← path_result (try_from (str "/" ++ hex_encode (as_ref id) ++ suffix));
  path_result (concat prefix path).
Definition pointer_path (id : Id) (prefix : bytes) : hostM bytes := sub_path id (str "/pointer") prefix.
Definition data_path (self : Pointer Id) (prefix : bytes) : hostM bytes := sub_path (ptr_id self) (str "/data") prefix.

Definition save_data (self : Pointer Id) (prefix : bytes) (data : Elt) : hostM unit :=
  path ← data_path self prefix; kernel_result (store_rlp data path).
Definition get_data (self : Pointer Id) (prefix : bytes) : hostM Elt :=
  path ← data_path self prefix; kernel_result (read_rlp path).
Definition pointer_read (prefix : bytes) (id : Id) : hostM (option (Pointer Id)) :=
  path ← pointer_path id prefix; read_optional_rlp path.
Definition pointer_save (self : Pointer Id) (prefix : bytes) : hostM unit :=
  path ← pointer_path (ptr_id self) prefix; kernel_result (store_rlp self path).
Definition remove_with_data (self : Pointer Id) (prefix : bytes) : hostM unit :=
  path ← sub_path (ptr_id self) [] prefix; M_map_err A_Runtime (store_delete path).

Definition metadata_path (root : bytes) : hostM bytes :=
  meta_path ← path_result (try_from (str "/meta")); path_result (concat root meta_path).
Definition list_save (self : LinkedList Id) : hostM unit :=
  path ← metadata_path (ll_path self); kernel_result (store_rlp self path).
Definition list_read (path : bytes) : hostM (option (LinkedList Id)) :=
  path ← metadata_path path; read_optional_rlp path.
(** [LinkedList::new]. *)
Definition new (path : bytes) : hostM (LinkedList Id) :=
  list ← list_read path; mret (default (mkLinkedList path None) list).

Definition is_empty (self : LinkedList Id) : bool := match pointers self with None => true | Some _ => false end.

(** Calls on the host, the list being unchanged, and assignments to [self.pointers]. *)
Definition on_host {A} (m : hostM A) : listM A := fun '(self, s) => let '(o, s) := m s in (o, (self, s)).
Definition get_self : listM (LinkedList Id) := fun '(self, s) => (Ok self, (self, s)).
Definition set_pointers (p : option (LinkedListPointer Id)) : listM unit := fun '(self, s) =>
  (Ok tt, (mkLinkedList (ll_path self) p, s)).
(** [self.save(host)]. *)
Definition save : listM unit := self ← get_self; on_host (list_save self).

(** The element is inserted after the back, or alone. *)
Definition push_pointers (id : Id) (elt : Elt) : listM unit :=
  self ← get_self;
  let path := ll_path self in
  match pointers self with
  | Some (mkLinkedListPointer front back) =>
      let penultimate := mkPointer (ptr_id back) (ptr_previous back) (Some id) in
      let back := mkPointer id (Some (ptr_id penultimate)) None in
      _ ← on_host (pointer_save penultimate path);
      _ ← on_host (pointer_save back path);
      _ ← on_host (save_data back path elt);
      set_pointers (Some (mkLinkedListPointer front back))
  | None =>
      let back := mkPointer id None None in
      _ ← on_host (pointer_save back path);
      _ ← on_host (save_data back path elt);
      set_pointers (Some (mkLinkedListPointer back back))
  end.
Definition push (id : Id) (elt : Elt) : listM unit :=
  self ← get_self;
  existing ← on_host (pointer_read (ll_path self) id);
  match existing with
  | Some _ => mret tt
  | None => _ ← push_pointers id elt; save
  end.

Definition find (self : LinkedList Id) (id : Id) : hostM (option Elt) :=
  pointer ← pointer_read (ll_path self) id;
  match pointer with
  | None => mret None
  | Some pointer => path ← data_path pointer (ll_path self); read_optional_rlp path
  end.

Definition read_neighbour (path : bytes) (id : option Id) : hostM (option (Pointer Id)) :=
  match id with Some id => pointer_read path id | None => mret None end.

(** The neighbours of the removed element are linked to each other. *)
Definition relink (lp : LinkedListPointer Id) (path : bytes) (previous next : option (Pointer Id)) : listM unit :=
  match previous, next with
  | None, None => set_pointers None
  | None, Some next =>
      let new_front := mkPointer (ptr_id next) None (ptr_next next) in
      _ ← on_host (pointer_save new_front path);
      set_pointers (Some (mkLinkedListPointer new_front (back lp)))
  | Some previous, None =>
      let new_back := mkPointer (ptr_id previous) (ptr_previous previous) None in
      _ ← on_host (pointer_save new_back path);
      set_pointers (Some (mkLinkedListPointer (front lp) new_back))
  | Some previous, Some next =>
      let new_previous := mkPointer (ptr_id previous) (ptr_previous previous) (Some (ptr_id next)) in
      let new_next := mkPointer (ptr_id next) (Some (ptr_id previous)) (ptr_next next) in
      _ ← on_host (pointer_save new_previous path);
      on_host (pointer_save new_next path)
  end.
Definition remove (id : Id) : listM (option Elt) :=
  self ← get_self;
  let path := ll_path self in
  match pointers self with
  | None => mret None
  | Some lp =>
      pointer ← on_host (pointer_read path id);
      match pointer with
      | None => mret None
      | Some pointer =>
          previous ← on_host (read_neighbour path (ptr_previous pointer));
          next ← on_host (read_neighbour path (ptr_next pointer));
          data ← on_host (get_data pointer path);
          _ ← on_host (remove_with_data pointer path);
          _ ← relink lp path previous next;
          _ ← save;
          mret (Some data)
      end
  end.

Definition first (self : LinkedList Id) : hostM (option Elt) :=
  match pointers self with
  | None => mret None
  | Some lp => data ← get_data (front lp) (ll_path self); mret (Some data)
  end.
Definition pop_first : listM (option Elt) :=
  self ← get_self;
  match pointers self with
  | None => mret None
  | Some lp => remove (ptr_id (front lp))
  end.
End list.
