(* ===== verification/LinkedListProps.v ===== *)
(** Linked lists in the durable storage refine sequences.

    First, reading and writing pointers and data are operations on a [view] of the storage below the path of the
    list, whatever the lawful host; then, on views, a list is a segment of linked pointers. *)

From S2P Require Import Prelude Endian KernelPath KernelHost KernelRuntime KernelTransactions Rlp EvmStorage LinkedList.

(** * Encodings *)

Section codecs.
Context {crate : RlpCrate} {rlaws : RlpLaws crate} {Id : Type} {CId : Codec Id} {LId : CodecLaws Id}.

Lemma rlp_list_not_empty l : Forall item l -> l <> [] -> rlp_is_empty (rlp_list l) = false.
Proof. intros Hl Hne. rewrite rlp_list_is_empty by done. by apply bool_decide_eq_false. Qed.

Lemma Pointer_items (p : Pointer Id) :
  Forall item [rlp_bytes (ptr_id p); append_option (ptr_previous p); append_option (ptr_next p)].
Proof. repeat constructor; auto using codec_item, append_option_item. Qed.

#[global] Instance Pointer_laws : CodecLaws (Pointer Id).
Proof.
  split; intros p; pose proof (Pointer_items p) as Hp; cbn [rlp_bytes decode Pointer_codec].
  - by constructor.
  - by apply rlp_list_not_empty.
  - rewrite expect_list_ok by done. cbn. rewrite decode_field_ok. cbn. rewrite decode_option_ok. cbn.
    rewrite decode_option_ok. by destruct p.
Qed.

#[global] Instance LinkedListPointer_laws : CodecLaws (LinkedListPointer Id).
Proof.
  assert (Hp : forall p : LinkedListPointer Id, Forall item [rlp_bytes (front p); rlp_bytes (back p)])
    by (intros p; apply Forall_cons; split; [apply codec_item|apply Forall_singleton, codec_item]).
  split; intros p; cbn [rlp_bytes decode LinkedListPointer_codec].
  - by constructor.
  - by apply rlp_list_not_empty.
  - rewrite expect_list_ok by done. cbn -[rlp_bytes]. rewrite decode_field_ok. cbn -[rlp_bytes].
    rewrite decode_field_ok. by destruct p.
Qed.

Lemma LinkedList_decode (l : LinkedList Id) : path_ok (ll_path l) -> decode (rlp_bytes l) = Ok l.
Proof.
  intros Hp%validate_path_spec. cbn [rlp_bytes decode LinkedList_codec].
  rewrite expect_list_ok; [|apply Forall_cons; split; [constructor|apply Forall_singleton, append_option_item]|done].
  cbn -[append_option].
  unfold decode_path, decode_field. cbn. rewrite rlp_value_data. cbn. unfold try_from. rewrite Hp. cbn -[append_option].
  rewrite decode_option_ok. by destruct l.
Qed.
End codecs.

Section storage.
Context {crate : RlpCrate} {rlaws : RlpLaws crate} {hex : HexCrate} {hlaws : HexLaws hex}.
Context {S : Type} {core : SmartRollupCore S} {laws : CoreLaws S}.
Context {Id Elt : Type} {CId : Codec Id} {LId : CodecLaws Id} {CElt : Codec Elt}.
Context (elt_decode : forall e : Elt, decode (rlp_bytes e) = Ok e).
Context `{Countable Id} (as_ref : Id -> bytes) (id_max : nat).

(** Identifiers are distinct non-empty byte strings that fit in a path below [P]. *)
Record ids_fit (P : bytes) : Prop := {
  if_path : path_ok P;
  if_inj i j : as_ref i = as_ref j -> i = j;
  if_ne i : as_ref i <> [];
  if_max i : length (as_ref i) <= id_max;
  if_room : length P + 2 * id_max + 9 <= PATH_MAX_SIZE;
  if_size i : (Z.of_nat (length (rlp_bytes (i : Id))) < 2 ^ 24)%Z
}.

Context (P : bytes) (HP : ids_fit P).
Implicit Types (s : S) (id : Id) (e : Elt).

Definition hex_id id : bytes := hex_encode (as_ref id).
Definition elt_steps id : list bytes := path_steps P ++ [hex_id id].
Definition ptr_steps id : list bytes := path_steps P ++ [hex_id id; str "pointer"].
Definition data_steps id : list bytes := path_steps P ++ [hex_id id; str "data"].
Definition meta_steps : list bytes := path_steps P ++ [str "meta"].

Lemma hex_step id : step_ok (hex_id id).
Proof. apply hex_encode_step, (if_ne P HP). Qed.
Lemma hex_not_meta id : hex_id id <> str "meta".
Proof. apply (hex_not_word _ (byte_of_N 109)); [vm_compute; by left|]. apply (bool_decide_unpack _). by vm_compute. Qed.
Lemma hex_id_inj i j : hex_id i = hex_id j -> i = j.
Proof. intros E. by apply (if_inj P HP), hex_inj. Qed.

(** Steps below the path of the list. *)
Lemma below_path steps : steps_ok steps -> ~ readonly steps -> length (render steps) <= 2 * id_max + 9 ->
  forall s, exists p, (x ← path_result (try_from (render steps)); path_result (concat P x)) s = (Ok p, s) /\ path_ok p /\
    path_steps p = path_steps P ++ steps.
Proof.
  intros Hs Hr Hl s. destruct (concat_render P steps) as (H1&H2&H3&H4); [apply HP|done..|
    pose proof (if_room P HP); lia|].
  exists (P ++ render steps). split_and!; [|done..]. unfold path_result, mbind, M_bind, lift, try_from.
  apply validate_path_spec in H1. rewrite H1. cbn. by rewrite H2.
Qed.

Lemma sub_path_ok id suffix (rest : list bytes) s : suffix = render rest -> Forall step_ok rest -> length suffix <= 8 ->
  exists p, sub_path as_ref id suffix P s = (Ok p, s) /\ path_ok p /\ path_steps p = path_steps P ++ hex_id id :: rest.
Proof.
  intros -> Hr Hl. destruct (below_path (hex_id id :: rest)) with (s := s) as (p&Hp&Hok&Hst).
  - split; [done|]. constructor; [apply hex_step|done].
  - intros [= E]. by apply (hex_not_readonly (as_ref id)).
  - rewrite render_cons. cbn. rewrite length_app. unfold hex_id. rewrite hex_length.
    pose proof (if_max P HP id). lia.
  - exists p. split_and!; [|done..]. rewrite <- Hp. unfold sub_path. by rewrite render_cons.
Qed.

(** * Views of the storage *)

Record view : Type := mkView {
  v_ptr : gmap Id (Pointer Id); v_data : gmap Id Elt; v_meta : option (LinkedList Id) }.

(** Below the path there are only elements, their pointers and data, and the metadata. *)
Definition nodes_ok s : Prop := forall r, c_node s (path_steps P ++ r) -> length r <= 2 /\ forall x, r <> [str "meta"; x].

Record sees s (V : view) : Prop := {
  see_ok : c_ok s;
  see_nodes : nodes_ok s;
  see_ptr id : c_value s (ptr_steps id) = rlp_bytes <$> v_ptr V !! id;
  see_data id : c_value s (data_steps id) = rlp_bytes <$> v_data V !! id;
  see_meta : c_value s meta_steps = rlp_bytes <$> v_meta V;
  see_size id e : v_data V !! id = Some e -> size_ok (length (rlp_bytes e));
  see_path l : v_meta V = Some l -> ll_path l = P
}.

(** Writing at one of the paths of the list adds no other node. *)
Lemma nodes_ok_write s p v steps : nodes_ok s -> path_ok p -> path_steps p = path_steps P ++ steps ->
  length steps <= 2 -> (forall x, steps <> [str "meta"; x]) -> nodes_ok (store_write_all p v s).2.
Proof.
  intros Hn Hp Hst Hl Hm r Hr. apply store_write_all_nodes in Hr as [Hr|[k Hr]]; [by apply Hn| |done].
  rewrite Hst, <- app_assoc in Hr. apply app_inv_head in Hr. split.
  - apply (f_equal length) in Hr. rewrite length_app in Hr. lia.
  - intros x ->. destruct k; [|rewrite Hr in Hl; cbn in Hl; lia]. rewrite app_nil_r in Hr. by apply (Hm x).
Qed.

(** Storing a value at [path_steps P ++ steps]. *)
Lemma store_rlp_spec {A} {C : Codec A} (a : A) s p steps : c_ok s -> nodes_ok s -> path_ok p ->
  path_steps p = path_steps P ++ steps -> length steps <= 2 -> (forall x, steps <> [str "meta"; x]) ->
  size_ok (length (rlp_bytes a)) ->
  exists s', store_rlp a p s = (Ok tt, s') /\ c_ok s' /\ nodes_ok s' /\
    forall r, c_value s' (path_steps P ++ r) =
              if bool_decide (r = steps) then Some (rlp_bytes a) else c_value s (path_steps P ++ r).
Proof.
  intros Hs Hn Hp Hst Hl Hm Hsz. destruct (store_write_all_spec s p (rlp_bytes a) Hs Hp Hsz) as (s'&Hw&Hok&Hv).
  pose proof (nodes_ok_write s p (rlp_bytes a) steps Hn Hp Hst Hl Hm) as Hn'. rewrite Hw in Hn'. exists s'.
  unfold store_rlp, M_map_err. rewrite Hw. split_and!; [done..|]. intros r. rewrite Hv, Hst.
  by rewrite (bool_decide_ext _ (r = steps)) by (split; [apply app_inv_head|by intros ->]).
Qed.

Lemma read_rlp_spec {A} {C : Codec A} (a : A) s p : c_ok s -> path_ok p -> c_value s (path_steps p) = Some (rlp_bytes a) ->
  size_ok (length (rlp_bytes a)) -> decode (rlp_bytes a) = Ok a -> read_rlp p s = (Ok a, s).
Proof.
  intros Hs Hp Hv Hsz Hd. unfold read_rlp, mbind, M_bind, M_map_err. rewrite (store_read_all_spec s p _ Hs Hp Hv Hsz).
  cbn. unfold lift, from_rlp_bytes. by rewrite Hd.
Qed.

Lemma read_optional_rlp_spec {A} {C : Codec A} (o : option A) s p : c_ok s -> path_ok p ->
  (forall x, ~ c_node s (path_steps p ++ [x])) -> c_value s (path_steps p) = rlp_bytes <$> o ->
  (forall a, o = Some a -> size_ok (length (rlp_bytes a)) /\ decode (rlp_bytes a) = Ok a) ->
  read_optional_rlp p s = (Ok o, s).
Proof.
  intros Hs Hp Hn Hv Ho. unfold read_optional_rlp, mbind, M_bind, M_map_err. rewrite store_has_leaf by done. rewrite Hv.
  destruct o as [a|]; [|done]. destruct (Ho a eq_refl) as [Hsz Hd]. rewrite bool_decide_eq_true_2 by (by eexists). cbn [map_err].
  by rewrite (read_rlp_spec a) by done.
Qed.

(** ** Sizes *)

Lemma option_size (o : option Id) : (Z.of_nat (length (append_option o)) < 2 ^ 24)%Z.
Proof. destruct o as [i|]; cbn; [apply (if_size P HP)|]. pose proof (rlp_value_size []). cbn in *. lia. Qed.

Lemma ptr_bound (p : Pointer Id) : (Z.of_nat (length (rlp_bytes p)) < 2 ^ 26)%Z.
Proof.
  cbn [rlp_bytes Pointer_codec]. pose proof (rlp_list_size [rlp_bytes (ptr_id p); append_option (ptr_previous p); append_option (ptr_next p)]) as Hl.
  pose proof (if_size P HP (ptr_id p)). pose proof (option_size (ptr_previous p)). pose proof (option_size (ptr_next p)).
  cbn [sum_list_with] in Hl. lia.
Qed.
Lemma ptr_size (p : Pointer Id) : size_ok (length (rlp_bytes p)).
Proof. pose proof (ptr_bound p). unfold size_ok, VALUE_SIZE_LIMIT. lia. Qed.

Lemma list_size (l : LinkedList Id) : ll_path l = P -> size_ok (length (rlp_bytes l)).
Proof.
  intros Hl. cbn [rlp_bytes LinkedList_codec]. rewrite Hl.
  pose proof (rlp_list_size [rlp_value P; append_option (pointers l)]) as Hs.
  pose proof (rlp_value_size P). pose proof (if_room P HP). unfold PATH_MAX_SIZE in *.
  assert (Ho : (Z.of_nat (length (append_option (pointers l))) < 2 ^ 28)%Z).
  { destruct (pointers l) as [[f b]|]; cbn [append_option append_option_explicit].
    - cbn [rlp_bytes LinkedListPointer_codec front back]. pose proof (rlp_list_size [rlp_bytes f; rlp_bytes b]) as H2.
      pose proof (ptr_bound f). pose proof (ptr_bound b). cbn [sum_list_with] in H2. lia.
    - pose proof (rlp_value_size []). cbn in *. lia. }
  cbn [sum_list_with] in Hs. unfold size_ok, VALUE_SIZE_LIMIT. lia.
Qed.

(** ** Pointers, data and metadata *)

Lemma pointer_path_ok id s : exists p, pointer_path as_ref id P s = (Ok p, s) /\ path_ok p /\ path_steps p = ptr_steps id.
Proof. apply (sub_path_ok id _ [str "pointer"]); [done|repeat constructor; done|cbn; lia]. Qed.
Lemma data_path_ok p s : exists q, data_path as_ref p P s = (Ok q, s) /\ path_ok q /\ path_steps q = data_steps (ptr_id p).
Proof. apply (sub_path_ok (ptr_id p) _ [str "data"]); [done|repeat constructor; done|cbn; lia]. Qed.
Lemma elt_path_ok id s : exists p, sub_path as_ref id [] P s = (Ok p, s) /\ path_ok p /\ path_steps p = elt_steps id.
Proof. apply (sub_path_ok id _ []); [done|constructor|cbn; lia]. Qed.
Lemma metadata_path_ok s : exists p, metadata_path P s = (Ok p, s) /\ path_ok p /\ path_steps p = meta_steps.
Proof.
  apply (below_path [str "meta"]); [split; [done|repeat constructor; done]|done|cbn; lia].
Qed.

(** No nodes below a value of the list. *)
Lemma leaf_2 s a b x : nodes_ok s -> ~ c_node s ((path_steps P ++ [a; b]) ++ [x]).
Proof. intros Hn H1. rewrite <- app_assoc in H1. apply Hn in H1 as [H1 _]. cbn in H1. lia. Qed.
Lemma leaf_meta s x : nodes_ok s -> ~ c_node s (meta_steps ++ [x]).
Proof. intros Hn H1. unfold meta_steps in H1. rewrite <- app_assoc in H1. apply Hn in H1 as [_ H1]. by apply (H1 x). Qed.

Lemma pointer_read_spec s V id : sees s V -> pointer_read as_ref P id s = (Ok (v_ptr V !! id), s).
Proof.
  intros HV. unfold pointer_read, mbind, M_bind. destruct (pointer_path_ok id s) as (p&->&Hp&Hst).
  apply read_optional_rlp_spec; [apply HV|done| | |].
  - intros x. rewrite Hst. apply leaf_2, HV.
  - rewrite Hst. apply HV.
  - intros a _. split; [apply ptr_size|apply codec_decode].
Qed.

Lemma get_data_spec s V p e : sees s V -> v_data V !! ptr_id p = Some e -> get_data as_ref p P s = (Ok e, s).
Proof.
  intros HV He. unfold get_data, mbind, M_bind. destruct (data_path_ok p s) as (q&->&Hq&Hst).
  unfold kernel_result, M_map_err. rewrite (read_rlp_spec e); [done|apply HV|done| | |apply elt_decode].
  - rewrite Hst, (see_data s V HV), He. done.
  - by eapply see_size.
Qed.

Lemma find_spec s V l id : sees s V -> ll_path l = P -> (forall i p, v_ptr V !! i = Some p -> ptr_id p = i) ->
  dom (v_ptr V) = dom (v_data V) -> find (Elt := Elt) as_ref l id s = (Ok (v_data V !! id), s).
Proof.
  intros HV Hl Hid Hdom. unfold find, mbind, M_bind. rewrite Hl, (pointer_read_spec s V id HV).
  destruct (v_ptr V !! id) as [p|] eqn:E.
  - rewrite (surjective_pairing (data_path as_ref p P s)). destruct (data_path_ok p s) as (q&->&Hq&Hst). cbn [fst snd].
    rewrite (Hid _ _ E) in Hst.
    apply read_optional_rlp_spec; [apply HV|done| | |].
    + intros x. rewrite Hst. apply leaf_2, HV.
    + rewrite Hst. apply HV.
    + intros e He. split; [by eapply see_size|apply elt_decode].
  - apply not_elem_of_dom in E. rewrite Hdom in E. apply not_elem_of_dom in E. by rewrite E.
Qed.

(** Updates of a view. *)
Definition set_ptr (p : Pointer Id) (V : view) : view := mkView (<[ptr_id p := p]> (v_ptr V)) (v_data V) (v_meta V).
Definition set_data id e (V : view) : view := mkView (v_ptr V) (<[id := e]> (v_data V)) (v_meta V).
Definition set_meta (l : LinkedList Id) (V : view) : view := mkView (v_ptr V) (v_data V) (Some l).
Definition drop_elt id (V : view) : view := mkView (delete id (v_ptr V)) (delete id (v_data V)) (v_meta V).

Lemma insert_bytes {A} {C : Codec A} (m : gmap Id A) i a j (steps : Id -> list bytes) v :
  (forall i j, steps i = steps j -> i = j) -> v = rlp_bytes <$> m !! j ->
  (if bool_decide (steps j = steps i) then Some (rlp_bytes a) else v) = rlp_bytes <$> <[i := a]> m !! j.
Proof.
  intros Hinj ->. destruct (decide (i = j)) as [->|Hne].
  - by rewrite bool_decide_eq_true_2, lookup_insert_eq.
  - rewrite bool_decide_eq_false_2, lookup_insert_ne by (done || by intros E%Hinj). done.
Qed.

Lemma two_steps_inj w i j : [hex_id i; w] = [hex_id j; w] -> i = j.
Proof. intros E. apply hex_id_inj. congruence. Qed.

Lemma pointer_save_spec s V p : sees s V ->
  exists s', pointer_save as_ref p P s = (Ok tt, s') /\ sees s' (set_ptr p V).
Proof.
  intros HV. destruct (pointer_path_ok (ptr_id p) s) as (q&Hq&Hqok&Hst).
  destruct (store_rlp_spec p s q [hex_id (ptr_id p); str "pointer"]) as (s'&Hw&Hok&Hn&Hv);
    [apply HV..|done|done|cbn; lia|intros x [= E _]; by apply hex_not_meta in E|apply ptr_size|].
  exists s'. split; [unfold pointer_save, mbind, M_bind, kernel_result, M_map_err; by rewrite Hq, Hw|].
  destruct HV as [_ _ H1 H2 H3 H4 H5]. split; [done..| | | |exact H4|exact H5].
  - intros j. unfold ptr_steps. rewrite Hv. apply (insert_bytes _ _ _ _ (fun i => [hex_id i; str "pointer"])); [apply two_steps_inj|apply H1].
  - intros j. unfold data_steps. rewrite Hv, bool_decide_eq_false_2 by done. apply H2.
  - unfold meta_steps. rewrite Hv, bool_decide_eq_false_2 by done. apply H3.
Qed.

Lemma save_data_spec s V p e : sees s V -> size_ok (length (rlp_bytes e)) ->
  exists s', save_data as_ref p P e s = (Ok tt, s') /\ sees s' (set_data (ptr_id p) e V).
Proof.
  intros HV Hsz. destruct (data_path_ok p s) as (q&Hq&Hqok&Hst).
  destruct (store_rlp_spec e s q [hex_id (ptr_id p); str "data"]) as (s'&Hw&Hok&Hn&Hv);
    [apply HV..|done|done|cbn; lia|intros x [= E _]; by apply hex_not_meta in E|done|].
  exists s'. split; [unfold save_data, mbind, M_bind, kernel_result, M_map_err; by rewrite Hq, Hw|].
  destruct HV as [_ _ H1 H2 H3 H4 H5]. split; [done..| | | | |exact H5].
  - intros j. unfold ptr_steps. rewrite Hv, bool_decide_eq_false_2 by done. apply H1.
  - intros j. unfold data_steps. rewrite Hv. apply (insert_bytes _ _ _ _ (fun i => [hex_id i; str "data"])); [apply two_steps_inj|apply H2].
  - unfold meta_steps. rewrite Hv, bool_decide_eq_false_2 by done. apply H3.
  - intros i e'. cbn. intros [[_ <-]|[_ Hi]]%lookup_insert_Some; [done|by eapply H4].
Qed.

Lemma list_save_spec s V l : sees s V -> ll_path l = P ->
  exists s', list_save l s = (Ok tt, s') /\ sees s' (set_meta l V).
Proof.
  intros HV Hl. destruct (metadata_path_ok s) as (q&Hq&Hqok&Hst).
  destruct (store_rlp_spec l s q [str "meta"]) as (s'&Hw&Hok&Hn&Hv);
    [apply HV..|done|done|cbn; lia|done|by apply list_size|].
  exists s'. split; [unfold list_save, mbind, M_bind, kernel_result, M_map_err; by rewrite Hl, Hq, Hw|].
  destruct HV as [_ _ H1 H2 H3 H4 H5]. split; [done..| | | |exact H4|by intros ? [= <-]].
  - intros j. unfold ptr_steps. rewrite Hv, bool_decide_eq_false_2 by done. apply H1.
  - intros j. unfold data_steps. rewrite Hv, bool_decide_eq_false_2 by done. apply H2.
  - unfold meta_steps. by rewrite Hv, bool_decide_eq_true_2.
Qed.

Lemma delete_bytes {A} {C : Codec A} (m : gmap Id A) i j w v : v = rlp_bytes <$> m !! j ->
  (match strip (elt_steps i) (path_steps P ++ [hex_id j; w]) with Some _ => None | None => v end) =
  rlp_bytes <$> delete i m !! j.
Proof.
  intros ->. destruct (decide (i = j)) as [->|Hne].
  - rewrite lookup_delete_eq. unfold elt_steps.
    replace (path_steps P ++ [hex_id j; w]) with ((path_steps P ++ [hex_id j]) ++ [w]) by (by rewrite <- app_assoc).
    by rewrite strip_app.
  - rewrite lookup_delete_ne by done. destruct (strip _ _) as [r|] eqn:E; [|done]. apply strip_Some in E.
    unfold elt_steps in E. rewrite <- app_assoc in E. apply app_inv_head in E. injection E as E _.
    by apply hex_id_inj in E.
Qed.

Lemma remove_with_data_spec s V p : sees s V -> is_Some (v_ptr V !! ptr_id p) ->
  exists s', remove_with_data as_ref p P s = (Ok tt, s') /\ sees s' (drop_elt (ptr_id p) V).
Proof.
  intros HV Hin. destruct (elt_path_ok (ptr_id p) s) as (q&Hq&Hqok&Hst).
  assert (Hne : core_store_has q s <> 0%Z).
  { apply (value_exists s q [str "pointer"]); [apply HV|done|]. rewrite Hst. unfold elt_steps. rewrite <- app_assoc.
    change (is_Some (c_value s (ptr_steps (ptr_id p)))). rewrite (see_ptr s V HV). by apply fmap_is_Some. }
  destruct (store_delete_spec q s (see_ok s V HV) Hqok) as (s'&Hd&Hok&Hv). rewrite (proj2 (Z.eqb_neq _ _)) in Hd by done.
  exists s'. split; [unfold remove_with_data, mbind, M_bind, M_map_err; by rewrite Hq, Hd|].
  pose proof HV as [Hs Hn H1 H2 H3 H4 H5]. split; [done| | | | | |done].
  - intros r Hr. replace s' with (store_delete q s).2 in Hr by (by rewrite Hd).
    apply store_delete_nodes in Hr as [Hr _]; [|done..]. by apply Hn.
  - intros j. rewrite Hv, Hst. by apply delete_bytes.
  - intros j. rewrite Hv, Hst. by apply delete_bytes.
  - rewrite Hv, Hst. destruct (strip _ _) as [r|] eqn:E; [|apply H3]. apply strip_Some in E. exfalso.
    unfold elt_steps, meta_steps in E. rewrite <- app_assoc in E. apply app_inv_head in E. injection E as E _.
    by apply (hex_not_meta (ptr_id p)).
  - intros i e. cbn. intros [_ Hi]%lookup_delete_Some. by eapply H4.
Qed.

(** [LinkedList::new] reads the metadata back. *)
Lemma new_spec s V : sees s V -> new P s = (Ok (default (mkLinkedList P None) (v_meta V)), s).
Proof.
  intros HV. unfold new, list_read, mbind, M_bind. destruct (metadata_path_ok s) as (q&Hq&Hqok&Hst). rewrite Hq.
  rewrite (read_optional_rlp_spec (v_meta V)); [done|apply HV|done| | |].
  - intros x. rewrite Hst. apply leaf_meta, HV.
  - rewrite Hst. apply HV.
  - intros l Hl. pose proof (see_path s V HV l Hl) as HlP. split; [by apply list_size|]. apply LinkedList_decode.
    rewrite HlP. apply HP.
Qed.

(** * Segments of linked pointers *)

Abbreviation items := (list (Id * Elt)).

Definition first_id (l : items) (nn : option Id) : option Id := match l with [] => nn | (id, _) :: _ => Some id end.
Definition last_id (pp : option Id -> Prop) (l : items) : option Id -> Prop :=
  match last l with Some (id, _) => eq (Some id) | None => pp end.

(** The pointers of [l] are linked to each other, and at the ends as [pp] and [nn] say. *)
Fixpoint seg (V : view) (pp : option Id -> Prop) (l : items) (nn : option Id) : Prop :=
  match l with
  | [] => True
  | (id, e) :: l =>
      (exists p, v_ptr V !! id = Some p /\ ptr_id p = id /\ pp (ptr_previous p) /\ ptr_next p = first_id l nn) /\
      v_data V !! id = Some e /\ seg V (eq (Some id)) l nn
  end.

Lemma last_id_cons pp id e l : last_id pp ((id, e) :: l) = last_id (eq (Some id)) l.
Proof. unfold last_id. rewrite last_cons. by destruct (last l). Qed.
Lemma last_id_snoc pp l id e : last_id pp (l ++ [(id, e)]) = eq (Some id).
Proof. unfold last_id. by rewrite last_snoc. Qed.

Lemma seg_app V pp l1 l2 nn : seg V pp (l1 ++ l2) nn <-> seg V pp l1 (first_id l2 nn) /\ seg V (last_id pp l1) l2 nn.
Proof.
  revert pp. induction l1 as [|[id e] l1 IH]; intros pp; [cbn; tauto|]. rewrite last_id_cons. cbn [app seg].
  rewrite IH. replace (first_id (l1 ++ l2) nn) with (first_id l1 (first_id l2 nn)) by (by destruct l1 as [|[]]). tauto.
Qed.

(** A segment only depends on the pointers and data of its elements. *)
Lemma seg_frame V V' pp l nn :
  (forall id, id ∈ l.*1 -> v_ptr V' !! id = v_ptr V !! id /\ v_data V' !! id = v_data V !! id) ->
  seg V pp l nn -> seg V' pp l nn.
Proof.
  revert pp. induction l as [|[id e] l IH]; intros pp Hf; [done|]. cbn [seg].
  destruct (Hf id ltac:(left)) as [-> ->]. intros (Hp&Hd&Hs). split_and!; [done..|]. apply IH; [|done].
  intros i Hi. apply Hf. by right.
Qed.
Lemma seg_weaken V (pp pp' : option Id -> Prop) l nn : (forall o, pp o -> pp' o) -> seg V pp l nn -> seg V pp' l nn.
Proof. destruct l as [|[id e] l]; [done|]. intros Hw ((p&?&?&?&?)&?&?). split_and!; eauto 6. Qed.

(** What the pointer before the first element may be: nothing, or an element that was removed. *)
Definition dead (gone : list Id) (o : option Id) : Prop := match o with None => True | Some g => g ∈ gone end.

(** The front has the right identifier, the back also the right predecessor. *)
Definition ends (gone : list Id) (l : items) (o : option (LinkedListPointer Id)) : Prop :=
  match o with
  | None => l = []
  | Some lp => first_id l None = Some (ptr_id (front lp)) /\
      exists init id e, l = init ++ [(id, e)] /\ ptr_id (back lp) = id /\ last_id (dead gone) init (ptr_previous (back lp))
  end.

Record rep (gone : list Id) (l : items) (o : option (LinkedListPointer Id)) (V : view) : Prop := {
  rep_seg : seg V (dead gone) l None;
  rep_nodup : NoDup l.*1;
  rep_ptr i : is_Some (v_ptr V !! i) <-> i ∈ l.*1;
  rep_data i : is_Some (v_data V !! i) <-> i ∈ l.*1;
  rep_ends : ends gone l o;
  rep_gone g : g ∈ gone -> g ∉ l.*1
}.

Lemma rep_view gone l o V V' : v_ptr V' = v_ptr V -> v_data V' = v_data V -> rep gone l o V -> rep gone l o V'.
Proof.
  intros Hp Hd [H1 H2 H3 H4 H5 H6]. split; rewrite ?Hp, ?Hd; try done. eapply seg_frame; [|done]. intros i _. by rewrite Hp, Hd.
Qed.

Lemma rep_empty V : v_ptr V = ∅ -> v_data V = ∅ -> rep [] [] None V.
Proof.
  intros H1 H2. split; [done|constructor| | |done|by intros g Hg%elem_of_nil]; intros i; rewrite ?H1, ?H2, lookup_empty;
    split; [by intros []|by intros Hi%elem_of_nil|by intros []|by intros Hi%elem_of_nil].
Qed.

(** ** Push *)

Lemma fst_snoc (l : items) i e : (l ++ [(i, e)]).*1 = l.*1 ++ [i].
Proof. by rewrite fmap_app. Qed.

Lemma rep_push_empty gone V i e : rep gone [] None V -> i ∉ gone ->
  let b := mkPointer i None None in
  rep gone [(i, e)] (Some (mkLinkedListPointer b b)) (set_data i e (set_ptr b V)).
Proof.
  intros [_ _ Hp Hd _ _] Hg. cbn. split; cbn.
  - split_and!; [|by rewrite lookup_insert_eq|done]. eexists. by rewrite lookup_insert_eq.
  - apply NoDup_singleton.
  - intros j. rewrite lookup_insert_is_Some', Hp, list_elem_of_singleton. cbn. rewrite elem_of_nil. naive_solver.
  - intros j. rewrite lookup_insert_is_Some', Hd, list_elem_of_singleton. cbn. rewrite elem_of_nil. naive_solver.
  - split; [done|]. by exists [], i, e.
  - intros g Hin. rewrite list_elem_of_singleton. by intros ->.
Qed.

Lemma rep_push gone l lp V i e : rep gone l (Some lp) V -> i ∉ l.*1 -> i ∉ gone ->
  let pen := mkPointer (ptr_id (back lp)) (ptr_previous (back lp)) (Some i) in
  let b := mkPointer i (Some (ptr_id pen)) None in
  rep gone (l ++ [(i, e)]) (Some (mkLinkedListPointer (front lp) b)) (set_data i e (set_ptr b (set_ptr pen V))).
Proof.
  intros [Hs Hnd Hp Hd [Hf (init&k&ek&->&Hk&Hprev)] Hgone] Hi Hg. cbn zeta.
  rewrite fst_snoc in Hi, Hnd. rewrite not_elem_of_app, list_elem_of_singleton in Hi. destruct Hi as [Hi Hik].
  apply NoDup_app in Hnd as (Hnd&Hki&_). specialize (fun H => Hki k H ltac:(left)) as Hki'.
  apply seg_app in Hs as [Hs1 (_&Hdk&_)]. split.
  - rewrite <- app_assoc. apply seg_app. split.
    + eapply seg_frame; [|exact Hs1]. intros j Hj. cbn. rewrite !lookup_insert_ne; [done|..];
        intros <-; first [done|by apply Hki'; rewrite <- Hk|by apply Hki'; rewrite Hk].
    + cbn. rewrite Hk. split_and!.
      * eexists. rewrite lookup_insert_ne, lookup_insert_eq by done. split_and!; [done..|].  done.
      * by rewrite lookup_insert_ne.
      * eexists. by rewrite lookup_insert_eq.
      * by rewrite lookup_insert_eq.
      * done.
  - rewrite !fst_snoc. apply NoDup_app. split_and!; [|intros j Hj; rewrite list_elem_of_singleton; intros ->|apply NoDup_singleton].
    + apply NoDup_app. split_and!; [done| |apply NoDup_singleton]. intros j Hj. rewrite list_elem_of_singleton. by intros ->.
    + rewrite elem_of_app, list_elem_of_singleton in Hj. naive_solver.
  - intros j. cbn. rewrite !lookup_insert_is_Some', Hp, !fst_snoc, !elem_of_app, !list_elem_of_singleton, Hk. naive_solver.
  - intros j. cbn. rewrite !lookup_insert_is_Some', Hd, !fst_snoc, !elem_of_app, !list_elem_of_singleton. naive_solver.
  - split; cbn.
    + rewrite <- Hf. by destruct init as [|[]].
    + exists (init ++ [(k, ek)]), i, e. split_and!; [done..|]. by rewrite last_id_snoc, Hk.
  - intros g Hin. rewrite fst_snoc, not_elem_of_app, list_elem_of_singleton. split; [by apply Hgone|by intros ->].
Qed.

(** The list [self] in the storage [s] holds the elements [l]; those in [gone] were removed. *)
Definition holds (gone : list Id) (l : items) (self : LinkedList Id) (s : S) : Prop :=
  exists V, sees s V /\ rep gone l (pointers self) V /\ ll_path self = P /\
    (v_meta V = Some self \/ v_meta V = None /\ pointers self = None).

Lemma holds_saved gone l o V (self : LinkedList Id) s : sees s V -> rep gone l o V -> ll_path self = P ->
  exists s', save (mkLinkedList (ll_path self) o, s) = (Ok tt, (mkLinkedList (ll_path self) o, s')) /\
    holds gone l (mkLinkedList (ll_path self) o) s'.
Proof.
  intros HV Hr Hp. destruct (list_save_spec s V (mkLinkedList (ll_path self) o) HV Hp) as (s'&Hs&HV').
  exists s'. split.
  - unfold save, get_self, on_host, mbind, M_bind. by rewrite Hs.
  - exists (set_meta (mkLinkedList (ll_path self) o) V). split_and!; [done| |done|by left]. by apply (rep_view gone l o V).
Qed.

Lemma on_host_ok {A} (m : M S Anyhow A) (self : LinkedList Id) s s' a : m s = (Ok a, s') ->
  on_host m (self, s) = (Ok a, (self, s')).
Proof. unfold on_host. by intros ->. Qed.

Lemma listM_bind_ok {A B} (m : M (LinkedList Id * S) Anyhow A) (k : A -> M (LinkedList Id * S) Anyhow B) st st' a :
  m st = (Ok a, st') -> (m ≫= k) st = k a st'.
Proof. unfold mbind, M_bind. by intros ->. Qed.

Lemma push_pointers_spec gone l (self : LinkedList Id) s V i e : sees s V -> rep gone l (pointers self) V -> ll_path self = P ->
  i ∉ l.*1 -> i ∉ gone -> size_ok (length (rlp_bytes e)) ->
  exists o s' V', push_pointers as_ref i e (self, s) = (Ok tt, (mkLinkedList (ll_path self) o, s')) /\
    sees s' V' /\ rep gone (l ++ [(i, e)]) o V'.
Proof.
  intros HV Hr HlP Hi Hg Hsz. unfold push_pointers. erewrite listM_bind_ok by done. rewrite HlP.
  destruct (pointers self) as [[f b]|].
  - set (pen := mkPointer (ptr_id b) (ptr_previous b) (Some i)). set (nb := mkPointer i (Some (ptr_id pen)) None).
    destruct (pointer_save_spec s V pen HV) as (s1&H1&HV1). destruct (pointer_save_spec s1 _ nb HV1) as (s2&H2&HV2).
    destruct (save_data_spec s2 _ nb e HV2 Hsz) as (s3&H3&HV3).
    do 3 (erewrite listM_bind_ok by (apply on_host_ok; eassumption)).
    eexists _, s3, _. split; [unfold set_pointers; by rewrite HlP|]. split; [exact HV3|]. by apply (rep_push gone l (mkLinkedListPointer f b) V i e).
  - set (nb := mkPointer i None None). pose proof (rep_ends _ _ _ _ Hr) as Hn. cbn in Hn. subst l.
    destruct (pointer_save_spec s V nb HV) as (s2&H2&HV2). destruct (save_data_spec s2 _ nb e HV2 Hsz) as (s3&H3&HV3).
    do 2 (erewrite listM_bind_ok by (apply on_host_ok; eassumption)).
    eexists _, s3, _. split; [unfold set_pointers; by rewrite HlP|]. split; [exact HV3|]. by apply (rep_push_empty gone V i e).
Qed.

Lemma push_spec gone l self s i e : holds gone l self s -> i ∉ gone -> size_ok (length (rlp_bytes e)) ->
  exists self' s', push as_ref i e (self, s) = (Ok tt, (self', s')) /\
    holds gone (if decide (i ∈ l.*1) then l else l ++ [(i, e)]) self' s'.
Proof.
  intros Hh Hg Hsz. pose proof Hh as (V&HV&Hr&HlP&Hm). unfold push. erewrite listM_bind_ok by done.
  erewrite listM_bind_ok by (apply on_host_ok; rewrite HlP; by apply pointer_read_spec).
  destruct (decide (i ∈ l.*1)) as [Hin|Hni].
  - destruct (proj2 (rep_ptr _ _ _ _ Hr i) Hin) as [p Hp]. rewrite Hp. by exists self, s.
  - destruct (v_ptr V !! i) eqn:E; [destruct Hni; apply (rep_ptr _ _ _ _ Hr); by eexists|].
    destruct (push_pointers_spec gone l self s V i e) as (o&s1&V1&H1&HV1&Hr1); [done..|].
    erewrite listM_bind_ok by exact H1. destruct (holds_saved _ _ _ _ self _ HV1 Hr1 HlP) as (s2&H2&Hh2). eauto.
Qed.

(** ** Remove *)

Lemma last_id_weaken (pp pp' : option Id -> Prop) l o : (forall o, pp o -> pp' o) -> last_id pp l o -> last_id pp' l o.
Proof. unfold last_id. destruct (last l) as [[]|]; auto. Qed.
Lemma dead_cons x gone o : dead gone o -> dead (x :: gone) o.
Proof. destruct o; [by right|done]. Qed.

Lemma seg_last V pp k a ea nn : seg V pp (k ++ [(a, ea)]) nn ->
  exists p, v_ptr V !! a = Some p /\ ptr_id p = a /\ last_id pp k (ptr_previous p) /\ ptr_next p = nn.
Proof. intros [_ [Hp _]]%seg_app. exact Hp. Qed.

(** The first element gets another predecessor, the last another successor. *)
Lemma seg_set_previous V pp pp' n en k nn p prev : seg V pp ((n, en) :: k) nn -> n ∉ k.*1 -> v_ptr V !! n = Some p ->
  pp' prev -> seg (set_ptr (mkPointer (ptr_id p) prev (ptr_next p)) V) pp' ((n, en) :: k) nn.
Proof.
  cbn [seg]. intros ((p'&Hp'&Hid&_&Hn)&Hd&Hs) Hk Hp Hprev. rewrite Hp in Hp'. injection Hp' as <-. split_and!; [|done|].
  - eexists. cbn. rewrite Hid, lookup_insert_eq. done.
  - eapply seg_frame; [|done]. intros j Hj. cbn. rewrite lookup_insert_ne; [done|]. rewrite Hid. by intros <-.
Qed.
Lemma seg_set_next V pp k a ea nn nn' p : seg V pp (k ++ [(a, ea)]) nn -> a ∉ k.*1 -> v_ptr V !! a = Some p ->
  seg (set_ptr (mkPointer (ptr_id p) (ptr_previous p) nn') V) pp (k ++ [(a, ea)]) nn'.
Proof.
  rewrite !seg_app. cbn. intros [Hs ((p'&Hp'&Hid&Hprev&_)&Hd&_)] Hk Hp. rewrite Hp in Hp'. injection Hp' as <-. split_and!; [| |done..].
  - eapply seg_frame; [|done]. intros j Hj. cbn. rewrite lookup_insert_ne; [done|]. rewrite Hid. by intros <-.
  - eexists. rewrite Hid, lookup_insert_eq. done.
Qed.

(** A view without the element [x], whose neighbours still point to it. *)
Record without (gone : list Id) x (l1 l2 : items) (V : view) : Prop := {
  wo_seg1 : seg V (dead gone) l1 (Some x);
  wo_seg2 : seg V (eq (Some x)) l2 None;
  wo_nodup : NoDup (l1 ++ l2).*1;
  wo_ptr i : is_Some (v_ptr V !! i) <-> i ∈ (l1 ++ l2).*1;
  wo_data i : is_Some (v_data V !! i) <-> i ∈ (l1 ++ l2).*1;
  wo_gone g : g ∈ (x :: gone) -> g ∉ (l1 ++ l2).*1
}.

Lemma rep_without gone l1 x ex l2 o V : rep gone (l1 ++ (x, ex) :: l2) o V -> without gone x l1 l2 (drop_elt x V).
Proof.
  intros [Hs Hnd Hp Hd _ Hg]. rewrite fmap_app, fmap_cons in *. cbn [fst] in *.
  assert (Hx : x ∉ (l1.*1 ++ l2.*1)).
  { rewrite <- (Permutation_middle (l1.*1) (l2.*1) x) in Hnd. by apply NoDup_cons in Hnd as [? _]. }
  assert (Hxs : (x ∉ l1.*1) /\ (x ∉ l2.*1)) by (by rewrite not_elem_of_app in Hx). destruct Hxs as [Hx1 Hx2].
  apply seg_app in Hs as [Hs1 (_&_&Hs2)]. split; rewrite ?fmap_app.
  - eapply seg_frame; [|exact Hs1]. intros j Hj. cbn. rewrite !lookup_delete_ne by (by intros <-). done.
  - eapply seg_frame; [|exact Hs2]. intros j Hj. cbn. rewrite !lookup_delete_ne by (by intros <-). done.
  - rewrite <- (Permutation_middle (l1.*1) (l2.*1) x) in Hnd. by apply NoDup_cons in Hnd as [_ ?].
  - intros j. cbn. rewrite lookup_delete_is_Some, Hp, !elem_of_app, elem_of_cons. rewrite not_elem_of_app in Hx. naive_solver.
  - intros j. cbn. rewrite lookup_delete_is_Some, Hd, !elem_of_app, elem_of_cons. rewrite not_elem_of_app in Hx. naive_solver.
  - intros g [->|Hin]%elem_of_cons; [done|]. apply Hg in Hin. rewrite elem_of_app, elem_of_cons in Hin. rewrite elem_of_app. tauto.
Qed.

(** Changing the pointer of an element of the list keeps what is there. *)
Lemma set_ptr_dom (l : list Id) p V : ptr_id p ∈ l -> (forall i, is_Some (v_ptr V !! i) <-> i ∈ l) ->
  forall i, is_Some (v_ptr (set_ptr p V) !! i) <-> i ∈ l.
Proof. intros Hp Hi i. cbn. rewrite lookup_insert_is_Some', Hi. naive_solver. Qed.

(** The back of the list, when an element further up is removed. *)
Lemma ends_middle gone l1 x ex l2 lp : ends gone (l1 ++ (x, ex) :: l2) (Some lp) -> l2 <> [] -> (l1 = [] \/ 2 <= length l2) ->
  exists init id e, l1 ++ l2 = init ++ [(id, e)] /\ ptr_id (back lp) = id /\
    last_id (dead (x :: gone)) init (ptr_previous (back lp)).
Proof.
  intros [_ (init&b&eb&Hl&Hb&Hprev)] Hne Hg. destruct (exists_last Hne) as (m&[b' eb']&->).
  rewrite app_comm_cons, app_assoc in Hl. apply app_inj_tail in Hl as [<- [= -> ->]].
  exists (l1 ++ m), b, eb. split_and!; [by rewrite app_assoc|done|].
  destruct m as [|[c ec] m] using rev_ind.
  - destruct Hg as [->|Hg]; [|cbn in Hg; lia]. rewrite last_id_snoc in Hprev. cbn. rewrite <- Hprev. left.
  - rewrite app_comm_cons, !app_assoc, last_id_snoc in *. done.
Qed.

Lemma relink_head gone x n en k V p : without gone x [] ((n, en) :: k) V -> v_ptr V !! n = Some p ->
  let V' := set_ptr (mkPointer (ptr_id p) None (ptr_next p)) V in
  seg V' (dead (x :: gone)) ((n, en) :: k) None /\ ptr_id p = n.
Proof.
  intros [_ Hs Hnd _ _ _] Hp. cbn in Hnd. apply NoDup_cons in Hnd as [Hn _]. split.
  - by eapply seg_set_previous.
  - destruct Hs as ((p'&Hp'&Hid&_)&_). congruence.
Qed.

Lemma relink_back gone x k a ea V p : without gone x (k ++ [(a, ea)]) [] V -> v_ptr V !! a = Some p ->
  let V' := set_ptr (mkPointer (ptr_id p) (ptr_previous p) None) V in
  seg V' (dead (x :: gone)) (k ++ [(a, ea)]) None /\ ptr_id p = a /\ last_id (dead (x :: gone)) k (ptr_previous p).
Proof.
  intros [Hs _ Hnd _ _ _] Hp. rewrite app_nil_r, fst_snoc in Hnd. apply NoDup_app in Hnd as (_&Hk&_).
  pose proof (seg_last _ _ _ _ _ _ Hs) as (p'&Hp'&Hid&Hprev&_). rewrite Hp in Hp'. injection Hp' as <-. split_and!; [|done|].
  - eapply seg_weaken; [intros o; apply dead_cons|]. eapply seg_set_next; [done| |done].
    intros Ha. apply (Hk a Ha). left.
  - eapply last_id_weaken; [intros o; apply dead_cons|done].
Qed.

Lemma relink_middle gone x k a ea n en m V p q : without gone x (k ++ [(a, ea)]) ((n, en) :: m) V ->
  v_ptr V !! a = Some p -> v_ptr V !! n = Some q ->
  let V' := set_ptr (mkPointer (ptr_id q) (Some (ptr_id p)) (ptr_next q))
              (set_ptr (mkPointer (ptr_id p) (ptr_previous p) (Some (ptr_id q))) V) in
  seg V' (dead (x :: gone)) ((k ++ [(a, ea)]) ++ (n, en) :: m) None /\ ptr_id p = a /\ ptr_id q = n.
Proof.
  intros [Hs1 Hs2 Hnd _ _ _] Hp Hq. rewrite fmap_app, fst_snoc, fmap_cons in Hnd. cbn [fst] in Hnd.
  apply NoDup_app in Hnd as (Hnd1&Hdisj&Hnd2). apply NoDup_app in Hnd1 as (_&Hk&_). apply NoDup_cons in Hnd2 as [Hn _].
  pose proof (seg_last _ _ _ _ _ _ Hs1) as (p'&Hp'&Hidp&_). rewrite Hp in Hp'. injection Hp' as <-.
  pose proof Hs2 as ((q'&Hq'&Hidq&_)&_). rewrite Hq in Hq'. injection Hq' as <-.
  assert (Han : a ∉ (n :: m.*1)) by (intros Ha; apply (Hdisj a); [rewrite elem_of_app; right; left|done]).
  split_and!; [|done..]. apply seg_app. split.
  - eapply seg_frame; [|eapply (seg_set_next _ _ k a ea (Some x) (Some n) p); [|intros Ha; by apply (Hk a Ha); left|exact Hp]].
    + intros j Hj. cbn. rewrite Hidq. rewrite (lookup_insert_ne _ n); [done|]. intros <-.
      apply (Hdisj n); [by rewrite fst_snoc in Hj|left].
    + eapply seg_weaken; [intros o; apply dead_cons|]. exact Hs1.
  - rewrite last_id_snoc. apply (seg_set_previous _ (eq (Some x))); [|done| |by rewrite Hidp].
    + eapply seg_frame; [|exact Hs2]. intros j Hj. cbn. rewrite Hidp, lookup_insert_ne; [done|]. by intros <-.
    + cbn. rewrite Hidp, lookup_insert_ne; [done|]. intros ->. apply Han. left.
Qed.

Definition last_ptr (V : view) (l : items) : option (Pointer Id) := '(a, _) ← last l; v_ptr V !! a.
Definition first_ptr (V : view) (l : items) : option (Pointer Id) := '(n, _) ← head l; v_ptr V !! n.

(** Linking the neighbours makes the list without the element. *)
Lemma relink_spec gone l1 x ex l2 lp V self s : ends gone (l1 ++ (x, ex) :: l2) (Some lp) -> pointers self = Some lp ->
  without gone x l1 l2 V -> sees s V -> (l1 = [] \/ length l2 <> 1) ->
  exists o s' V', relink as_ref lp P (last_ptr V l1) (first_ptr V l2) (self, s) = (Ok tt, (mkLinkedList (ll_path self) o, s')) /\
    sees s' V' /\ rep (x :: gone) (l1 ++ l2) o V'.
Proof.
  intros He Hself Hw HV Hg. pose proof Hw as [Hs1 Hs2 Hnd Hp Hd Hgone].
  destruct l1 as [|[a ea] k _] using rev_ind; destruct l2 as [|[n en] m]; unfold last_ptr, first_ptr; rewrite ?last_snoc; cbn [last head mbind option_bind relink].
  - exists None, s, V. split_and!; [done..|]. by split.
  - destruct (proj2 (Hp n) ltac:(left)) as [q Hq]. rewrite Hq. destruct (relink_head _ _ _ _ _ _ _ Hw Hq) as [Hs Hid].
    destruct (pointer_save_spec s V (mkPointer (ptr_id q) None (ptr_next q)) HV) as (s'&Hsave&HV').
    erewrite listM_bind_ok by (apply on_host_ok; exact Hsave). eexists _, s', _. split; [reflexivity|]. split; [exact HV'|].
    split; [done..| |done| |done].
    + apply set_ptr_dom; [cbn; rewrite Hid; left|done].
    + split; [cbn; by rewrite Hid|]. apply (ends_middle gone [] x ex _ lp); [done..|by left].
  - destruct (proj2 (Hp a)) as [q Hq]; [rewrite app_nil_r, fst_snoc, elem_of_app; right; left|]. rewrite Hq. cbn [relink].
    destruct (relink_back _ _ _ _ _ _ _ Hw Hq) as (Hs&Hid&Hprev).
    destruct (pointer_save_spec s V (mkPointer (ptr_id q) (ptr_previous q) None) HV) as (s'&Hsave&HV').
    erewrite listM_bind_ok by (apply on_host_ok; exact Hsave). eexists _, s', _. split; [reflexivity|]. split; [exact HV'|].
    rewrite app_nil_r in *. split; [done..| |done| |done].
    + apply set_ptr_dom; [cbn; rewrite Hid, fst_snoc, elem_of_app; right; left|done].
    + destruct He as [Hf _]. split; [cbn [front]; rewrite <- Hf; by destruct k as [|[]]|]. by exists k, a, ea.
  - destruct (proj2 (Hp a)) as [q Hq]; [rewrite fmap_app, fst_snoc, !elem_of_app; left; right; left|]. rewrite Hq.
    destruct (proj2 (Hp n)) as [r Hr]; [rewrite fmap_app, elem_of_app; right; left|]. rewrite Hr. cbn [relink].
    destruct (relink_middle _ _ _ _ _ _ _ _ _ _ _ Hw Hq Hr) as (Hs&Hidq&Hidr).
    destruct (pointer_save_spec s V (mkPointer (ptr_id q) (ptr_previous q) (Some (ptr_id r))) HV) as (s1&Hsave1&HV1).
    destruct (pointer_save_spec s1 _ (mkPointer (ptr_id r) (Some (ptr_id q)) (ptr_next r)) HV1) as (s2&Hsave2&HV2).
    erewrite listM_bind_ok by (apply on_host_ok; exact Hsave1). exists (Some lp), s2. eexists. split.
    { rewrite (on_host_ok _ _ _ _ _ Hsave2). destruct self; cbn in *. by rewrite Hself. }
    split; [exact HV2|]. split; [done..| |done| |done].
    + apply set_ptr_dom; [cbn; rewrite Hidr, fmap_app, elem_of_app; right; left|].
      apply set_ptr_dom; [cbn; rewrite Hidq, fmap_app, fst_snoc, !elem_of_app; left; right; left|done].
    + pose proof He as [Hf _]. split; [rewrite <- Hf; by destruct k as [|[]]|].
      apply (ends_middle gone _ x ex _ lp); [done..|]. right. destruct Hg as [Hg|Hg]; [by destruct k|]. cbn in *. destruct m; cbn in *; lia.
Qed.

Lemma read_neighbour_spec s V o : sees s V -> read_neighbour as_ref P o s = (Ok (o ≫= fun i => v_ptr V !! i), s).
Proof. intros HV. destruct o as [i|]; [|done]. by apply pointer_read_spec. Qed.

(** The neighbours that are read are those of the list. *)
Lemma neighbours_read gone l1 x ex l2 o V p : rep gone (l1 ++ (x, ex) :: l2) o V -> v_ptr V !! x = Some p ->
  (ptr_previous p ≫= fun i => v_ptr V !! i) = last_ptr (drop_elt x V) l1 /\
  (ptr_next p ≫= fun i => v_ptr V !! i) = first_ptr (drop_elt x V) l2.
Proof.
  intros [Hs Hnd Hp _ _ Hg] Hx. rewrite fmap_app, fmap_cons in Hnd. cbn [fst] in Hnd.
  rewrite <- Permutation_middle in Hnd. apply NoDup_cons in Hnd as [Hni _]. rewrite not_elem_of_app in Hni.
  destruct Hni as [Hn1 Hn2]. apply seg_app in Hs as [_ ((p'&Hp'&Hid&Hprev&Hnext)&_)]. rewrite Hx in Hp'. injection Hp' as <-.
  split.
  - unfold last_ptr. destruct l1 as [|[a ea] k _] using rev_ind.
    + cbn in Hprev |- *. destruct (ptr_previous p) as [g|]; [|done]. cbn. destruct (v_ptr V !! g) eqn:E; [|done].
      destruct (Hg g Hprev). apply Hp. by eexists.
    + rewrite last_id_snoc in Hprev. rewrite last_snoc, <- Hprev. cbn. rewrite lookup_delete_ne; [done|].
      intros ->. apply Hn1. rewrite fst_snoc, elem_of_app. right. left.
  - unfold first_ptr. rewrite Hnext. destruct l2 as [|[n en] m]; [done|]. cbn. rewrite lookup_delete_ne; [done|].
    intros ->. apply Hn2. left.
Qed.

Lemma remove_spec gone l1 x ex l2 self s : holds gone (l1 ++ (x, ex) :: l2) self s -> l1 = [] \/ length l2 <> 1 ->
  exists self' s', remove as_ref x (self, s) = (Ok (Some ex), (self', s')) /\ holds (x :: gone) (l1 ++ l2) self' s'.
Proof.
  intros (V&HV&Hr&HlP&Hm) Hg. unfold remove. erewrite listM_bind_ok by done. rewrite HlP.
  pose proof (rep_ends _ _ _ _ Hr) as He. destruct (pointers self) as [lp|] eqn:Hself; [|by destruct l1].
  assert (Hin : x ∈ (l1 ++ (x, ex) :: l2).*1) by (rewrite fmap_app, elem_of_app; right; left).
  destruct (proj2 (rep_ptr _ _ _ _ Hr x) Hin) as [p Hp].
  pose proof (rep_seg _ _ _ _ Hr) as [_ ((p'&Hp'&Hid&_)&Hdata&_)]%seg_app. rewrite Hp in Hp'. injection Hp' as <-.
  erewrite listM_bind_ok by (apply on_host_ok; by apply pointer_read_spec). rewrite Hp.
  do 2 (erewrite listM_bind_ok by (apply on_host_ok; by apply read_neighbour_spec)).
  erewrite listM_bind_ok by (apply on_host_ok; eapply get_data_spec; [done|by rewrite Hid]).
  destruct (remove_with_data_spec s V p HV) as (s1&H1&HV1); [rewrite Hid; by eexists|]. rewrite Hid in HV1.
  erewrite listM_bind_ok by (apply on_host_ok; exact H1).
  destruct (neighbours_read _ _ _ _ _ _ _ _ Hr Hp) as [-> ->].
  destruct (relink_spec gone l1 x ex l2 lp (drop_elt x V) self s1) as (o&s2&V2&H2&HV2&Hr2);
    [done..|by eapply rep_without|done|done|]. erewrite listM_bind_ok by exact H2.
  destruct (holds_saved _ _ _ _ self _ HV2 Hr2 HlP) as (s3&H3&Hh). erewrite listM_bind_ok by exact H3. eauto.
Qed.

Lemma remove_absent gone l x self s : holds gone l self s -> x ∉ l.*1 ->
  remove (Elt := Elt) as_ref x (self, s) = (Ok None, (self, s)).
Proof.
  intros (V&HV&Hr&HlP&Hm) Hx. unfold remove. erewrite listM_bind_ok by done. rewrite HlP.
  destruct (pointers self); [|done]. erewrite listM_bind_ok by (apply on_host_ok; by apply pointer_read_spec).
  destruct (v_ptr V !! x) eqn:E; [|done]. destruct Hx. apply (rep_ptr _ _ _ _ Hr). by eexists.
Qed.

(** ** The other operations *)

(** The data of the element [i]. *)
Fixpoint assoc (i : Id) (l : items) : option Elt :=
  match l with [] => None | (j, e) :: l => if bool_decide (i = j) then Some e else assoc i l end.

Lemma seg_assoc V pp l nn i e : seg V pp l nn -> NoDup l.*1 -> assoc i l = Some e -> v_data V !! i = Some e.
Proof.
  revert pp. induction l as [|[j ej] l IH]; intros pp; [done|]. intros (_&Hd&Hs) [Hj Hnd]%NoDup_cons. cbn.
  case_bool_decide; [intros [= <-]; by subst|]. by eapply IH.
Qed.
Lemma assoc_None i l : assoc i l = None <-> i ∉ l.*1.
Proof.
  induction l as [|[j ej] l IH]; cbn; [split; [by intros _ Hi%elem_of_nil|done]|]. rewrite not_elem_of_cons, <- IH.
  case_bool_decide; naive_solver.
Qed.
Lemma rep_assoc gone l o V i : rep gone l o V -> v_data V !! i = assoc i l.
Proof.
  intros [Hs Hnd _ Hd _ _]. destruct (assoc i l) eqn:E; [by eapply seg_assoc|]. apply assoc_None in E. rewrite <- Hd in E.
  by apply eq_None_not_Some.
Qed.

Lemma find_holds gone l self s i : holds gone l self s -> find as_ref self i s = (Ok (assoc i l), s).
Proof.
  intros (V&HV&Hr&HlP&_). rewrite <- (rep_assoc _ _ _ _ i Hr). apply find_spec; [done..| |].
  - intros j p Hp. pose proof (proj1 (rep_ptr _ _ _ _ Hr j) ltac:(by eexists)) as Hj.
    apply list_elem_of_fmap in Hj as ([j' e]&->&Hj). apply list_elem_of_split in Hj as (l1&l2&->).
    pose proof (rep_seg _ _ _ _ Hr) as [_ ((p'&Hp'&Hid&_)&_)]%seg_app. cbn [fst] in *. congruence.
  - apply set_eq. intros j. rewrite !elem_of_dom, (rep_ptr _ _ _ _ Hr), (rep_data _ _ _ _ Hr). done.
Qed.

Lemma first_holds gone l self s : holds gone l self s -> first as_ref self s = (Ok (snd <$> head l), s).
Proof.
  intros (V&HV&Hr&HlP&_). unfold first. pose proof (rep_ends _ _ _ _ Hr) as He.
  destruct (pointers self) as [lp|]; cbn in He; [|by subst]. destruct He as [Hf _]. destruct l as [|[i e] l]; [done|].
  injection Hf as ->. pose proof (rep_seg _ _ _ _ Hr) as (_&Hd&_). unfold mbind, M_bind. rewrite HlP.
  by rewrite (get_data_spec s V _ e HV Hd).
Qed.

Lemma is_empty_holds gone l self s : holds gone l self s -> is_empty self = bool_decide (l = []).
Proof.
  intros (V&HV&Hr&HlP&_). pose proof (rep_ends _ _ _ _ Hr) as He. unfold is_empty.
  destruct (pointers self) as [lp|]; cbn in He; [|by subst]. destruct He as [Hf _]. by destruct l.
Qed.

Lemma new_holds gone l self s : holds gone l self s -> new P s = (Ok self, s).
Proof.
  intros (V&HV&_&HlP&Hm). rewrite (new_spec s V HV). destruct Hm as [->|[-> Hp]]; [done|]. cbn. destruct self; cbn in *.
  by subst.
Qed.

Lemma pop_first_holds gone l self s : holds gone l self s ->
  pop_first (Elt := Elt) as_ref (self, s) =
    match l with [] => (Ok None, (self, s)) | (i, _) :: _ => remove as_ref i (self, s) end.
Proof.
  intros (V&HV&Hr&HlP&_). unfold pop_first. erewrite listM_bind_ok by done. pose proof (rep_ends _ _ _ _ Hr) as He.
  destruct (pointers self) as [lp|]; cbn in He; [|by subst]. destruct He as [Hf _]. destruct l as [|[i e] l]; [done|].
  by injection Hf as ->.
Qed.

(** * Sequences of operations *)

Inductive op : Type := Push (i : Id) (e : Elt) | Remove (i : Id) | PopFirst | Find (i : Id) | First | IsEmpty | Reload.
Inductive res : Type := RUnit | RElt (o : option Elt) | RBool (b : bool).

(** The operations on the list, [Reload] dropping it to load it again. *)
Definition exec (o : op) : M (LinkedList Id * S) Anyhow res :=
  match o with
  | Push i e => _ ← push as_ref i e; mret RUnit
  | Remove i => r ← remove as_ref i; mret (RElt r)
  | PopFirst => r ← pop_first as_ref; mret (RElt r)
  | Find i => self ← get_self; r ← on_host (find as_ref self i); mret (RElt r)
  | First => self ← get_self; r ← on_host (first as_ref self); mret (RElt r)
  | IsEmpty => self ← get_self; mret (RBool (is_empty self))
  | Reload => fun '(_, s) => let '(o, s) := new P s in
      (_ ← o; Ok RUnit, (match o with Ok self => self | _ => mkLinkedList P None end, s))
  end.
Definition run (ops : list op) : M (LinkedList Id * S) Anyhow (list res) := mapM exec ops.

(** The specification: a sequence, and the identifiers that were removed. *)
Record spec : Type := mkSpec { sp_gone : list Id; sp_items : items }.

(** Any element but the last but one, unless it is also the first. *)
Definition removable (i : Id) (l : items) : bool :=
  (length l <=? 2) || negb (bool_decide (fst <$> l !! (length l - 2) = Some i)).
Definition without_id (i : Id) (l : items) : items := filter (fun x => x.1 <> i) l.
Definition take_out (i : Id) (st : spec) : option (res * spec) :=
  match assoc i (sp_items st) with
  | None => Some (RElt None, st)
  | Some e => if removable i (sp_items st)
              then Some (RElt (Some e), mkSpec (i :: sp_gone st) (without_id i (sp_items st))) else None
  end.
(** [None] where the contract of the list is broken. *)
Definition spec_step (o : op) (st : spec) : option (res * spec) :=
  let l := sp_items st in
  match o with
  | Push i e =>
      if bool_decide (i ∈ sp_gone st) || (VALUE_SIZE_LIMIT <=? Z.of_nat (length (rlp_bytes e)))%Z then None
      else Some (RUnit, mkSpec (sp_gone st) (if bool_decide (i ∈ l.*1) then l else l ++ [(i, e)]))
  | Remove i => take_out i st
  | PopFirst => match l with [] => Some (RElt None, st) | (i, _) :: _ => take_out i st end
  | Find i => Some (RElt (assoc i l), st)
  | First => Some (RElt (snd <$> head l), st)
  | IsEmpty => Some (RBool (bool_decide (l = [])), st)
  | Reload => Some (RUnit, st)
  end.
Fixpoint spec_run (ops : list op) (st : spec) : option (list res * spec) :=
  match ops with
  | [] => Some ([], st)
  | o :: ops => '(r, st) ← spec_step o st; '(rs, st) ← spec_run ops st; Some (r :: rs, st)
  end.

Definition implements (st : spec) (c : LinkedList Id * S) : Prop := holds (sp_gone st) (sp_items st) c.1 c.2.

Lemma without_id_split i e (l1 l2 : items) : NoDup (l1 ++ (i, e) :: l2).*1 ->
  assoc i (l1 ++ (i, e) :: l2) = Some e /\ without_id i (l1 ++ (i, e) :: l2) = l1 ++ l2.
Proof.
  intros Hnd. rewrite fmap_app, fmap_cons in Hnd. cbn in Hnd. rewrite <- Permutation_middle in Hnd.
  apply NoDup_cons in Hnd as [Hni _]. rewrite not_elem_of_app in Hni. destruct Hni as [H1 H2].
  assert (Hf : forall l : items, i ∉ l.*1 -> without_id i l = l).
  { intros l. induction l as [|[j ej] l IH]; [done|]. rewrite fmap_cons, not_elem_of_cons. intros [Hj Hl]. unfold without_id.
    rewrite filter_cons_True by (cbn in *; congruence). f_equal. by apply IH. }
  split.
  - induction l1 as [|[j ej] l1 IH]; cbn; [by rewrite bool_decide_eq_true_2|]. cbn in H1. rewrite not_elem_of_cons in H1.
    rewrite bool_decide_eq_false_2 by tauto. apply IH. tauto.
  - unfold without_id. rewrite filter_app, filter_cons_False by (cbn; tauto).
    change (without_id i l1 ++ without_id i l2 = l1 ++ l2). by rewrite !Hf.
Qed.

Lemma removable_split i e (l1 l2 : items) : NoDup (l1 ++ (i, e) :: l2).*1 -> removable i (l1 ++ (i, e) :: l2) = true ->
  l1 = [] \/ length l2 <> 1.
Proof.
  intros Hnd Hrm. destruct (decide (length l2 = 1)) as [H1|]; [|by right]. left. unfold removable in Hrm.
  rewrite length_app in Hrm. cbn in Hrm. rewrite H1 in Hrm. replace (length l1 + 2 - 2) with (length l1) in Hrm by lia.
  apply orb_true_iff in Hrm as [Hrm|Hrm].
  - apply Nat.leb_le in Hrm. destruct l1; [done|cbn in Hrm; lia].
  - rewrite list_lookup_middle in Hrm by done. cbn in Hrm. by rewrite bool_decide_eq_true_2 in Hrm.
Qed.

Lemma remove_implements i st r st' c : take_out i st = Some (r, st') -> implements st c ->
  exists o c', remove (Elt := Elt) as_ref i c = (Ok o, c') /\ r = RElt o /\ implements st' c'.
Proof.
  destruct c as [self s]. unfold take_out. intros Ht Hh. pose proof Hh as (V&_&Hr&_).
  destruct (assoc i (sp_items st)) as [e|] eqn:E.
  - destruct (removable i (sp_items st)) eqn:Hrm; [|done]. injection Ht as <- <-.
    pose proof (rep_nodup _ _ _ _ Hr) as Hnd.
    assert (Hin : i ∈ (sp_items st).*1) by (destruct (decide (i ∈ (sp_items st).*1)) as [|Hn%assoc_None]; [done|congruence]).
    apply list_elem_of_fmap in Hin as ([j ej]&Hj&Hin). cbn in Hj. subst j. apply list_elem_of_split in Hin as (l1&l2&Hl).
    unfold implements in *. rewrite Hl in *. destruct (without_id_split i ej l1 l2 Hnd) as [Ha Hw].
    rewrite E in Ha. injection Ha as <-. destruct (remove_spec _ _ _ _ _ _ _ Hh (removable_split _ _ _ _ Hnd Hrm)) as (self'&s'&H1&H2).
    eexists _, (self', s'). cbn. rewrite Hw. eauto.
  - injection Ht as <- <-. apply assoc_None in E. exists None, (self, s). split_and!; [by eapply remove_absent|done..].
Qed.

Lemma exec_implements o st r st' c : spec_step o st = Some (r, st') -> implements st c ->
  exists c', exec o c = (Ok r, c') /\ implements st' c'.
Proof.
  destruct c as [self s]. intros Hs Hh. destruct o as [i e|i| |i| | |]; cbn [spec_step exec] in *.
  - destruct (_ || _) eqn:E; [done|]. injection Hs as <- <-. apply orb_false_iff in E as [E1%bool_decide_eq_false E2%Z.leb_gt].
    destruct (push_spec _ _ _ _ i e Hh E1 E2) as (self'&s'&H1&H2). exists (self', s').
    erewrite listM_bind_ok by exact H1. split; [done|]. unfold implements. cbn. by destruct (decide _), (bool_decide_reflect (i ∈ (sp_items st).*1)).
  - destruct (remove_implements _ _ _ _ _ Hs Hh) as (o&c'&H1&->&H2). exists c'. by erewrite listM_bind_ok by exact H1.
  - pose proof (pop_first_holds _ _ _ _ Hh) as Hp. destruct (sp_items st) as [|[i e] l].
    + injection Hs as <- <-. exists (self, s). by erewrite listM_bind_ok by exact Hp.
    + destruct (remove_implements _ _ _ _ _ Hs Hh) as (o&c'&H1&->&H2). exists c'. cbn [fst snd] in Hp. rewrite H1 in Hp.
      by erewrite listM_bind_ok by exact Hp.
  - injection Hs as <- <-. exists (self, s). erewrite listM_bind_ok by done.
    by erewrite listM_bind_ok by (apply on_host_ok; by eapply find_holds).
  - injection Hs as <- <-. exists (self, s). erewrite listM_bind_ok by done.
    by erewrite listM_bind_ok by (apply on_host_ok; by eapply first_holds).
  - injection Hs as <- <-. exists (self, s). erewrite listM_bind_ok by done. by rewrite (is_empty_holds _ _ self s Hh).
  - injection Hs as <- <-. exists (self, s). by rewrite (new_holds _ _ self s Hh).
Qed.

Lemma run_implements ops : forall st rs st' c, spec_run ops st = Some (rs, st') -> implements st c ->
  exists c', run ops c = (Ok rs, c') /\ implements st' c'.
Proof.
  induction ops as [|o ops IH]; intros st rs st' c Hs Hi; cbn in Hs; [injection Hs as <- <-; by exists c|].
  destruct (spec_step o st) as [[r st1]|] eqn:E; cbn in Hs; [|done].
  destruct (spec_run ops st1) as [[rs' st2]|] eqn:E2; cbn in Hs; [|done]. injection Hs as <- <-.
  destruct (exec_implements _ _ _ _ _ E Hi) as (c1&H1&Hi1). destruct (IH _ _ _ _ E2 Hi1) as (c2&H2&Hi2). exists c2.
  split; [|done]. unfold run in *. cbn. erewrite listM_bind_ok by exact H1. by erewrite listM_bind_ok by exact H2.
Qed.

(** Storage with nothing below the path of the list. *)
Definition untouched s : Prop := c_ok s /\ (forall r, c_value s (path_steps P ++ r) = None) /\
  forall x r, ~ c_node s (path_steps P ++ x :: r).

Lemma untouched_empty s : untouched s -> new (Id := Id) P s = (Ok (mkLinkedList P None), s) /\
  implements (mkSpec [] []) (mkLinkedList P None, s).
Proof.
  intros (Hs&Hv&Hn). assert (HV : sees s (mkView ∅ ∅ None)).
  { split; cbn; [done| | | | | |done].
    - intros [|x r] Hr; [cbn; split; [lia|done]|]. by destruct (Hn x r).
    - intros i. rewrite lookup_empty. apply Hv.
    - intros i. rewrite lookup_empty. apply Hv.
    - apply Hv.
    - intros i e. by rewrite lookup_empty. }
  split; [exact (new_spec _ _ HV)|]. exists (mkView ∅ ∅ None). split_and!; [done|by apply rep_empty|done|by right].
Qed.

(** C24: linked lists in the durable storage refine sequences.  Whatever the operations, starting from storage
    with no list, loading the list and running them gives the results of the specification, and loading the list
    again at any point changes nothing; no call fails.  The contract, without which the specification
    says nothing: an identifier is not pushed again after it was removed, values are shorter than [2^31] bytes,
    and an element between others is not removed while it is the last but one. *)
Theorem linked_list_refines_sequence (ops : list op) s rs st : untouched s ->
  spec_run ops (mkSpec [] []) = Some (rs, st) ->
  exists self self' s', new P s = (Ok self, s) /\ run ops (self, s) = (Ok rs, (self', s')) /\ new P s' = (Ok self', s').
Proof.
  intros Hu Hs. destruct (untouched_empty s Hu) as [Hnew Hi]. destruct (run_implements ops _ _ _ _ Hs Hi) as ([self' s']&Hr&Hi').
  exists (mkLinkedList P None), self', s'. split_and!; [done..|]. by eapply new_holds.
Qed.
End storage.
