(* ===== verification/EthTypes.v ===== *)
(** Ethereum transactions and their encodings.

    Models [etherlink/kernel_evm/ethereum/src/tx_common.rs] (data and serialization),
    [tx_signature.rs] (data and serialization), [access_list.rs], the types of [transaction.rs] and the helpers of
    [rlp_helpers.rs] that they use.  A [U256], [u64] or [u8] is a number, an [H160], [H256] or [Bloom] its bytes;
    their encodings belong to third-party crates and are parameters ([EthCrates], [EthLaws]). *)

From S2P Require Import Prelude Endian Rlp.

(** * Encodings of numbers and hashes *)

Class EthCrates := {
  u256_codec : Codec N; u64_codec : Codec N; u32_codec : Codec N; u8_codec : Codec N;
  h160_codec : Codec bytes; h256_codec : Codec bytes; bloom_codec : Codec bytes
}.

(** A codec that writes one item for the values in [P], and reads them back. *)
Definition codec_on {crate : RlpCrate} {A} (C : Codec A) (P : A -> Prop) : Prop :=
  forall a, P a -> item (rlp_bytes a) /\ decode (rlp_bytes a) = Ok a.
(** What a codec reads is in [P]: the invariant of the Rust type. *)
Definition codec_range {A} (C : Codec A) (P : A -> Prop) : Prop := forall d a, decode (Codec := C) d = Ok a -> P a.
Definition sized (n : nat) (b : bytes) : Prop := length b = n.
Definition below (bits : N) (n : N) : Prop := (n < 2 ^ bits)%N.

Class EthLaws {crate : RlpCrate} (eth : EthCrates) := {
  u256_law : codec_on u256_codec (below 256);
  u64_law : codec_on u64_codec (below 64);
  u32_law : codec_on u32_codec (below 32);
  u8_law : codec_on u8_codec (below 8);
  h160_law : codec_on h160_codec (sized 20);
  h256_law : codec_on h256_codec (sized 32);
  bloom_law : codec_on bloom_codec (sized 256);
  u256_range : codec_range u256_codec (below 256);
  u64_range : codec_range u64_codec (below 64);
  u32_range : codec_range u32_codec (below 32);
  h160_range : codec_range h160_codec (sized 20);
  h256_range : codec_range h256_codec (sized 32);
  as_list_range {A} (C : Codec A) P d (l : list A) : codec_range C P -> rlp_as_list (C := C) d = Ok l -> Forall P l;
  h160_not_empty b : sized 20 b -> rlp_is_empty (rlp_bytes (Codec := h160_codec) b) = false;
  h256_value b : sized 32 b -> rlp_bytes (Codec := h256_codec) b = rlp_value b;
  (** Lists start with a byte from [0xc0]. *)
  rlp_list_head l : exists b r, rlp_list l = b :: r /\ (192 <= Byte.to_N b)%N
}.

Section types.
Context {crate : RlpCrate} {eth : EthCrates}.

Definition H256_zero : bytes := repeat Byte.x00 32.

(** ** Helpers (rlp_helpers.rs) *)

Definition decode_h256 (decoder : bytes) : decoded bytes :=
  data ← rlp_data decoder;
  let length := length data in
  if length =? 32 then Ok data
  else if (length <? 32) && (0 <? length) then Ok (repeat Byte.x00 (32 - length) ++ data)
  else if length =? 0 then Ok H256_zero
  else Err RlpInvalidLength.
Definition decode_field_h256 (decoder field_name : bytes) : decoded bytes :=
  map_err (fun _ => Custom field_name) (decode_h256 decoder).
Definition append_h256 (h256 : bytes) : bytes :=
  if bool_decide (H256_zero <> h256) then rlp_bytes (Codec := h256_codec) h256 else rlp_value [].

(** [decoder.item_count() == Ok(n)]. *)
Definition count_is (decoder : bytes) (n : nat) : bool :=
  match rlp_item_count decoder with Ok k => k =? n | _ => false end.

(** [decode_field] at the types of the crates. *)
Definition decode_u256 (d name : bytes) : decoded N := decode_field (C := u256_codec) d name.
Definition decode_u64 (d name : bytes) : decoded N := decode_field (C := u64_codec) d name.
Definition decode_u32 (d name : bytes) : decoded N := decode_field (C := u32_codec) d name.
Definition decode_h160_option (d name : bytes) : decoded (option bytes) := decode_option (C := h160_codec) d name.
Definition append_u256 (n : N) : bytes := rlp_bytes (Codec := u256_codec) n.
Definition append_u64 (n : N) : bytes := rlp_bytes (Codec := u64_codec) n.
Definition append_u32 (n : N) : bytes := rlp_bytes (Codec := u32_codec) n.
Definition append_h160_option (o : option bytes) : bytes := append_option (C := h160_codec) o.

(** ** Access lists (access_list.rs) *)

Record AccessListItem : Set := mkAccessListItem { address : bytes; storage_keys : list bytes }.
#[global] Instance AccessListItem_codec : Codec AccessListItem := {
  rlp_bytes i := rlp_list [rlp_bytes (Codec := h160_codec) (address i); append_list (C := h256_codec) (storage_keys i)];
  decode rlp :=
    if negb (rlp_is_list rlp) then Err RlpExpectedToBeList
    else
      let it := rlp_iter rlp in
      '(x, it) ← next it; address ← decode_field (C := h160_codec) x (str "address");
      '(x, it) ← next it; storage_keys ← decode_list (C := h256_codec) x (str "storage_keys");
      match it with [] => Ok (mkAccessListItem address storage_keys) | _ => Err RlpIncorrectListLen end
}.

(** ** Signatures (tx_signature.rs) *)

Record TxSignature : Set := mkTxSignature { sig_v : N; sig_r : bytes; sig_s : bytes }.
Inductive ParityError : Set := PE_ChainId (n : N) | PE_V (n : N).
(** Errors of third-party crates are numbered. *)
Inductive TxSigError : Set :=
  | HexError (n : nat) | ECDSAError (n : nat) | Parity (e : ParityError) | InvalidRS (r s : bytes).

Definition TxSignature_new (v : N) (r s : bytes) : outcome TxSigError TxSignature :=
  if bool_decide (r <> H256_zero) && bool_decide (s <> H256_zero) then Ok (mkTxSignature v r s) else Err (InvalidRS r s).

(** The items [rlp_append] adds to the stream. *)
Definition sig_items (sig : TxSignature) : list bytes :=
  [append_u256 (sig_v sig); rlp_bytes (Codec := h256_codec) (sig_r sig); rlp_bytes (Codec := h256_codec) (sig_s sig)].
Definition rlp_append_opt (sig : option TxSignature) : list bytes :=
  match sig with
  | Some sig => sig_items sig
  | None => [append_u256 0; rlp_bytes (Codec := h256_codec) H256_zero; rlp_bytes (Codec := h256_codec) H256_zero]
  end.
Definition rlp_decode_opt (it : list bytes) : decoded (option TxSignature) :=
  '(x, it) ← next it; v ← decode_u256 x (str "v");
  '(x, it) ← next it; r ← decode_field_h256 x (str "r");
  '(x, it) ← next it; s ← decode_field_h256 x (str "s");
  if bool_decide (r = H256_zero) && bool_decide (s = H256_zero) && (v =? 0)%N then Ok None
  else sig ← map_err (fun _ => Custom (str "Invalid signature")) (TxSignature_new v r s); Ok (Some sig).

(** ** Transactions (tx_common.rs) *)

Inductive TransactionType : Set := Legacy | Eip2930 | Eip1559.

Record EthereumTransactionCommon : Set := mkTx {
  type_ : TransactionType;
  chain_id : option N;
  nonce : N;
  max_priority_fee_per_gas : N;
  max_fee_per_gas : N;
  gas_limit : N;
  to_ : option bytes;
  value : N;
  data : bytes;
  access_list : list AccessListItem;
  signature : option TxSignature
}.

Definition rlp_decode_vrs (it : list bytes) : decoded (option (N * bytes * bytes)) :=
  match it with
  | v :: r :: s :: _ =>
      v ← decode_u256 v (str "v"); r ← decode_field_h256 r (str "r"); s ← decode_field_h256 s (str "s");
      Ok (Some (v, r, s))
  | [] => Ok None
  | _ => Err (Custom (str "Invalid transaction encoding: neither signed nor unsigned tx"))
  end.

(** The chain a signature is for, from its [v]. *)
Definition legacy_chain_id (v : N) (is_unsigned : bool) : decoded (option N) :=
  if is_unsigned then Ok (Some v)
  else if (36 <? v)%N then Ok (Some ((v - 35) / 2)%N)
  else if ((v =? 27) || (v =? 28))%N then Ok None
  else Err (Custom (str "v has to be greater than 36 for a signed EIP-155 transaction")).

Definition signature_new (v : N) (r s : bytes) : decoded (option TxSignature) :=
  sig ← map_err (fun _ => Custom (str "Invalid signature")) (TxSignature_new v r s); Ok (Some sig).

Definition rlp_decode_legacy_tx (decoder : bytes) : decoded EthereumTransactionCommon :=
  if negb (count_is decoder 9) then Err RlpIncorrectListLen
  else
    let it := rlp_iter decoder in
    '(x, it) ← next it; nonce ← decode_u256 x (str "nonce");
    '(x, it) ← next it; gas_price ← decode_u256 x (str "gas_price");
    '(x, it) ← next it; gas_limit ← decode_u64 x (str "gas_limit");
    '(x, it) ← next it; to_ ← decode_h160_option x (str "to");
    '(x, it) ← next it; value ← decode_u256 x (str "value");
    '(x, it) ← next it; data ← decode_field x (str "data");
    vrs ← rlp_decode_vrs it;
    '(v, r, s) ← ok_or (Custom (str "Invalid legacy tx encoding: legacy tx has to have 9 elements in the RLP list")) vrs;
    let is_unsigned := bool_decide (r = H256_zero) && bool_decide (s = H256_zero) in
    chain_id ← legacy_chain_id v is_unsigned;
    signature ← (if is_unsigned then Ok None else signature_new v r s);
    Ok (mkTx Legacy chain_id nonce gas_price gas_price gas_limit to_ value data [] signature).

(** The end of the encodings that are not legacy. *)
Definition decode_signature (it : list bytes) : decoded (option TxSignature) :=
  vrs ← rlp_decode_vrs it;
  match vrs with Some (v, r, s) => signature_new v r s | None => Ok None end.

Definition rlp_decode_eip2930_tx (decoder : bytes) : decoded EthereumTransactionCommon :=
  if negb (count_is decoder 8) && negb (count_is decoder 11) then Err RlpIncorrectListLen
  else
    let it := rlp_iter decoder in
    '(x, it) ← next it; chain_id ← decode_u256 x (str "chain_id");
    '(x, it) ← next it; nonce ← decode_u256 x (str "nonce");
    '(x, it) ← next it; gas_price ← decode_u256 x (str "gas_price");
    '(x, it) ← next it; gas_limit ← decode_u64 x (str "gas_limit");
    '(x, it) ← next it; to_ ← decode_h160_option x (str "to");
    '(x, it) ← next it; value ← decode_u256 x (str "value");
    '(x, it) ← next it; data ← decode_field x (str "data");
    '(x, it) ← next it; access_list ← decode_list x (str "access_list");
    signature ← decode_signature it;
    Ok (mkTx Eip2930 (Some chain_id) nonce gas_price gas_price gas_limit to_ value data access_list signature).

Definition rlp_decode_eip1559_tx (decoder : bytes) : decoded EthereumTransactionCommon :=
  if negb (count_is decoder 9) && negb (count_is decoder 12) then Err RlpIncorrectListLen
  else
    let it := rlp_iter decoder in
    '(x, it) ← next it; chain_id ← decode_u256 x (str "chain_id");
    '(x, it) ← next it; nonce ← decode_u256 x (str "nonce");
    '(x, it) ← next it; max_priority_fee_per_gas ← decode_u256 x (str "max_priority_fee_per_gas");
    '(x, it) ← next it; max_fee_per_gas ← decode_u256 x (str "max_fee_per_gas");
    '(x, it) ← next it; gas_limit ← decode_u64 x (str "gas_limit");
    '(x, it) ← next it; to_ ← decode_h160_option x (str "to");
    '(x, it) ← next it; value ← decode_u256 x (str "value");
    '(x, it) ← next it; data ← decode_field x (str "data");
    '(x, it) ← next it; access_list ← decode_list x (str "access_list");
    signature ← decode_signature it;
    Ok (mkTx Eip1559 (Some chain_id) nonce max_priority_fee_per_gas max_fee_per_gas gas_limit to_ value data access_list signature).

Definition from_rlp_any (decoder : bytes) (tx_version : TransactionType) : decoded EthereumTransactionCommon :=
  if negb (rlp_is_list decoder) then Err RlpExpectedToBeList
  else match tx_version with
       | Legacy => rlp_decode_legacy_tx decoder
       | Eip2930 => rlp_decode_eip2930_tx decoder
       | Eip1559 => rlp_decode_eip1559_tx decoder
       end.

(** The six first fields of a legacy transaction. *)
Definition legacy_items (tx : EthereumTransactionCommon) : list bytes :=
  [append_u256 (nonce tx); append_u256 (max_fee_per_gas tx); append_u64 (gas_limit tx); append_h160_option (to_ tx);
   append_u256 (value tx); append_vec (data tx)].
Definition rlp_encode_legacy_pre_eip155 (tx : EthereumTransactionCommon) : bytes :=
  rlp_list (legacy_items tx ++ match signature tx with Some sig => sig_items sig | None => [] end).
Definition rlp_encode_legacy_post_eip155 (tx : EthereumTransactionCommon) (chain_id : N) : bytes :=
  rlp_list (legacy_items tx ++
    match signature tx with
    | None => [append_u256 chain_id; append_h256 H256_zero; append_h256 H256_zero]
    | Some sig => sig_items sig
    end).
Definition rlp_encode_legacy_tx (tx : EthereumTransactionCommon) : bytes :=
  match chain_id tx with
  | Some chain_id => rlp_encode_legacy_post_eip155 tx chain_id
  | None => rlp_encode_legacy_pre_eip155 tx
  end.

(** [self.chain_id.unwrap()] panics without a chain id. *)
Definition rlp_encode_eip2930_tx {E} (tx : EthereumTransactionCommon) : outcome E bytes :=
  chain_id ← expect PUnwrap (chain_id tx);
  Ok (rlp_list ([append_u256 chain_id; append_u256 (nonce tx); append_u256 (max_fee_per_gas tx); append_u64 (gas_limit tx);
    append_h160_option (to_ tx); append_u256 (value tx); append_vec (data tx); append_list (access_list tx)] ++
    match signature tx with Some sig => sig_items sig | None => [] end)).
Definition rlp_encode_eip1559_tx {E} (tx : EthereumTransactionCommon) : outcome E bytes :=
  chain_id ← expect PUnwrap (chain_id tx);
  Ok (rlp_list ([append_u256 chain_id; append_u256 (nonce tx); append_u256 (max_priority_fee_per_gas tx);
    append_u256 (max_fee_per_gas tx); append_u64 (gas_limit tx);
    append_h160_option (to_ tx); append_u256 (value tx); append_vec (data tx); append_list (access_list tx)] ++
    match signature tx with Some sig => sig_items sig | None => [] end)).
Definition to_rlp_any {E} (tx : EthereumTransactionCommon) : outcome E bytes :=
  match type_ tx with
  | Legacy => Ok (rlp_encode_legacy_tx tx)
  | Eip2930 => rlp_encode_eip2930_tx tx
  | Eip1559 => rlp_encode_eip1559_tx tx
  end.

(** [u8::from(TransactionType)]. *)
Definition type_tag (t : TransactionType) : byte := match t with Legacy => Byte.x00 | Eip2930 => Byte.x01 | Eip1559 => Byte.x02 end.

Definition to_bytes {E} (tx : EthereumTransactionCommon) : outcome E bytes :=
  rlp_enc ← to_rlp_any tx;
  Ok (match type_ tx with Legacy => rlp_enc | t => type_tag t :: rlp_enc end).

Definition from_bytes (bs : bytes) : decoded EthereumTransactionCommon :=
  match bs with
  | [] => Err (Custom (str "Empty bytes"))
  | first :: rest =>
      if bool_decide (first = Byte.x01) then from_rlp_any rest Eip2930
      else if bool_decide (first = Byte.x02) then from_rlp_any rest Eip1559
      else from_rlp_any bs Legacy
  end.
End types.

(** * Round trips *)

(** Every element of a list written out. *)
Ltac forall_elements tac := repeat first [apply Forall_nil_2 | apply Forall_cons_2; [solve [tac]|]].

Section round_trip.
Context {crate : RlpCrate} {rlaws : RlpLaws crate} {eth : EthCrates} {elaws : EthLaws eth}.

Lemma decode_field_on {A} (C : Codec A) P a name : codec_on C P -> P a -> decode_field (C := C) (rlp_bytes (Codec := C) a) name = Ok a.
Proof. intros HC Ha. unfold decode_field. destruct (HC a Ha) as [_ ->]. done. Qed.

Lemma decode_u256_ok n name : below 256 n -> decode_u256 (append_u256 n) name = Ok n.
Proof. apply decode_field_on, u256_law. Qed.
Lemma decode_u64_ok n name : below 64 n -> decode_u64 (append_u64 n) name = Ok n.
Proof. apply decode_field_on, u64_law. Qed.
Lemma decode_u32_ok n name : below 32 n -> decode_u32 (append_u32 n) name = Ok n.
Proof. apply decode_field_on, u32_law. Qed.

Definition h160_option_ok (o : option bytes) : Prop := match o with Some b => sized 20 b | None => True end.
Lemma decode_h160_option_ok o name : h160_option_ok o -> decode_h160_option (append_h160_option o) name = Ok o.
Proof.
  intros Ho. unfold decode_h160_option, decode_option, decode_option_explicit, append_h160_option, append_option, append_option_explicit.
  destruct o as [b|]; [|by rewrite rlp_value_is_empty]. rewrite h160_not_empty by done.
  by rewrite (decode_field_on h160_codec (sized 20)) by (apply h160_law || done).
Qed.
Lemma h160_option_item o : h160_option_ok o -> item (append_h160_option o).
Proof. destruct o as [b|]; cbn; intros Hb; [by apply h160_law|constructor]. Qed.

Lemma append_vec_value b : append_vec b = rlp_value b.
Proof. by destruct b. Qed.
Lemma decode_vec_ok b name : decode_field (append_vec b) name = Ok b.
Proof. rewrite append_vec_value. unfold decode_field. cbn. by rewrite rlp_value_data. Qed.

Lemma decode_h256_ok h : sized 32 h -> decode_h256 (rlp_bytes (Codec := h256_codec) h) = Ok h.
Proof. intros Hh. unfold decode_h256. rewrite h256_value, rlp_value_data by done. cbn. by rewrite Hh. Qed.
Lemma decode_field_h256_ok h name : sized 32 h -> decode_field_h256 (rlp_bytes (Codec := h256_codec) h) name = Ok h.
Proof. intros Hh. unfold decode_field_h256. by rewrite decode_h256_ok. Qed.
Lemma decode_h256_zero name : decode_field_h256 (append_h256 H256_zero) name = Ok H256_zero.
Proof.
  unfold append_h256. rewrite bool_decide_eq_false_2 by (by intros []). unfold decode_field_h256, decode_h256.
  by rewrite rlp_value_data.
Qed.
Lemma append_h256_zero : append_h256 H256_zero = rlp_value [].
Proof. unfold append_h256. by rewrite bool_decide_eq_false_2 by (by intros []). Qed.

(** Lists of values of a codec. *)
Lemma append_list_ok {A} (C : Codec A) P l name : codec_on C P -> Forall P l ->
  item (append_list (C := C) l) /\ decode_list (C := C) (append_list (C := C) l) name = Ok l.
Proof.
  intros HC Hl. split.
  - constructor. apply Forall_map. eapply Forall_impl; [exact Hl|]. intros a Ha. apply (HC a Ha).
  - unfold decode_list, append_list. rewrite rlp_list_as_list; [done|]. eapply Forall_impl; [exact Hl|]. intros a Ha. by apply HC.
Qed.

Definition item_ok (i : AccessListItem) : Prop := sized 20 (address i) /\ Forall (sized 32) (storage_keys i).
Lemma AccessListItem_law : codec_on AccessListItem_codec item_ok.
Proof.
  intros i [Ha Hk]. destruct (append_list_ok h256_codec (sized 32) (storage_keys i) (str "storage_keys")) as [Hi Hd]; [apply h256_law|done|].
  destruct (h160_law (address i) Ha) as [Hai Had].
  assert (Hl : Forall item [rlp_bytes (Codec := h160_codec) (address i); append_list (C := h256_codec) (storage_keys i)]) by forall_elements done.
  split; cbn [rlp_bytes decode AccessListItem_codec]; [by constructor|].
  rewrite rlp_list_is_list, rlp_list_iter by done. cbn [negb next mbind outcome_bind].
  unfold decode_field at 1. rewrite Had. cbn [map_err mbind outcome_bind]. rewrite Hd. by destruct i.
Qed.

(** Signatures of the right size with non-zero coordinates. *)
Record sig_ok (sig : TxSignature) : Prop := {
  so_v : below 256 (sig_v sig);
  so_r : sized 32 (sig_r sig); so_s : sized 32 (sig_s sig);
  so_r0 : sig_r sig <> H256_zero; so_s0 : sig_s sig <> H256_zero
}.
Definition sig_option_ok (o : option TxSignature) : Prop := match o with Some sig => sig_ok sig | None => True end.

Lemma sig_items_ok sig : sig_ok sig -> Forall item (sig_items sig).
Proof. intros []. forall_elements ltac:(by apply u256_law || apply h256_law). Qed.

Lemma signature_new_ok sig : sig_ok sig -> signature_new (sig_v sig) (sig_r sig) (sig_s sig) = Ok (Some sig).
Proof.
  intros []. unfold signature_new, TxSignature_new. rewrite !bool_decide_eq_true_2 by done. by destruct sig.
Qed.
Lemma rlp_decode_vrs_ok sig : sig_ok sig -> rlp_decode_vrs (sig_items sig) = Ok (Some (sig_v sig, sig_r sig, sig_s sig)).
Proof.
  intros []. cbn [rlp_decode_vrs sig_items]. rewrite decode_u256_ok by done. cbn [mbind outcome_bind].
  rewrite decode_field_h256_ok by done. cbn [mbind outcome_bind]. by rewrite decode_field_h256_ok.
Qed.
Lemma rlp_append_opt_ok o : sig_option_ok o -> Forall item (rlp_append_opt o) /\ rlp_decode_opt (rlp_append_opt o) = Ok o.
Proof.
  assert (Hz : sized 32 H256_zero) by done. assert (H0 : below 256 0) by (unfold below; lia). destruct o as [sig|]; cbn [sig_option_ok].
  - intros Hs. split; [by apply sig_items_ok|]. pose proof Hs as []. unfold rlp_decode_opt. cbn [rlp_append_opt sig_items next mbind outcome_bind].
    rewrite decode_u256_ok by done. cbn [mbind outcome_bind]. rewrite decode_field_h256_ok by done. cbn [mbind outcome_bind].
    rewrite decode_field_h256_ok by done. cbn [mbind outcome_bind]. rewrite (bool_decide_eq_false_2 (sig_r sig = _)) by done.
    cbn [andb]. exact (signature_new_ok sig Hs).
  - intros _. split; [forall_elements ltac:(by apply u256_law || apply h256_law)|].
    unfold rlp_decode_opt. cbn [rlp_append_opt next mbind outcome_bind]. rewrite decode_u256_ok by done. cbn [mbind outcome_bind].
    rewrite decode_field_h256_ok by done. cbn [mbind outcome_bind]. by rewrite decode_field_h256_ok.
Qed.

(** ** Transactions *)

(** The fields are in range. *)
Record tx_fits (tx : EthereumTransactionCommon) : Prop := {
  tf_chain : match chain_id tx with Some c => below 256 c | None => True end;
  tf_nonce : below 256 (nonce tx);
  tf_prio : below 256 (max_priority_fee_per_gas tx);
  tf_fee : below 256 (max_fee_per_gas tx);
  tf_gas : below 64 (gas_limit tx);
  tf_to : h160_option_ok (to_ tx);
  tf_value : below 256 (value tx);
  tf_access : Forall item_ok (access_list tx);
  tf_sig : sig_option_ok (signature tx)
}.

Lemma count_is_list l n : Forall item l -> count_is (rlp_list l) n = (length l =? n).
Proof. intros Hl. unfold count_is. by rewrite rlp_list_count. Qed.
End round_trip.

(** Decodes the next field. *)
Ltac field_step := cbn [next mbind outcome_bind app];
  first [rewrite decode_u256_ok by done | rewrite decode_u64_ok by done | rewrite decode_u32_ok by done
        | rewrite decode_h160_option_ok by done | rewrite decode_vec_ok | rewrite decode_field_h256_ok by done
        | rewrite decode_h256_zero].

Section transactions.
Context {crate : RlpCrate} {rlaws : RlpLaws crate} {eth : EthCrates} {elaws : EthLaws eth}.
Implicit Types (tx : EthereumTransactionCommon).

(** The transactions that an encoding determines. *)
Definition canonical tx : Prop :=
  match type_ tx with
  | Legacy => max_priority_fee_per_gas tx = max_fee_per_gas tx /\ access_list tx = [] /\
      match signature tx with
      | None => chain_id tx <> None
      | Some sig => legacy_chain_id (sig_v sig) false = Ok (chain_id tx)
      end
  | Eip2930 => max_priority_fee_per_gas tx = max_fee_per_gas tx /\ chain_id tx <> None
  | Eip1559 => chain_id tx <> None
  end.

Lemma from_bytes_legacy l : from_bytes (rlp_list l) = from_rlp_any (rlp_list l) Legacy.
Proof.
  destruct (rlp_list_head l) as (b&r&E&Hb). rewrite E. unfold from_bytes.
  rewrite !bool_decide_eq_false_2; [done|intros ->; vm_compute in Hb; by apply Hb..].
Qed.

Lemma legacy_items_ok tx : tx_fits tx -> Forall item (legacy_items tx).
Proof.
  intros []. unfold legacy_items. rewrite append_vec_value.
  forall_elements ltac:(by first [apply u256_law | apply u64_law | apply h160_option_item | constructor]).
Qed.

Lemma decode_legacy tx vrs v r s : tx_fits tx -> Forall item vrs -> length vrs = 3 -> rlp_decode_vrs vrs = Ok (Some (v, r, s)) ->
  from_bytes (rlp_list (legacy_items tx ++ vrs)) =
    (let is_unsigned := bool_decide (r = H256_zero) && bool_decide (s = H256_zero) in
     chain_id ← legacy_chain_id v is_unsigned;
     signature ← (if is_unsigned then Ok None else signature_new v r s);
     Ok (mkTx Legacy chain_id (nonce tx) (max_fee_per_gas tx) (max_fee_per_gas tx) (gas_limit tx) (to_ tx) (value tx) (data tx) [] signature)).
Proof.
  intros Hf Hv Hl Hvrs. assert (Hi : Forall item (legacy_items tx ++ vrs)) by (apply Forall_app; auto using legacy_items_ok).
  rewrite from_bytes_legacy. unfold from_rlp_any, rlp_decode_legacy_tx. rewrite rlp_list_is_list, count_is_list, rlp_list_iter by done.
  rewrite length_app, Hl. destruct Hf. unfold legacy_items. cbn [length negb Nat.add Nat.eqb]. repeat field_step. cbn [mbind outcome_bind].
  by rewrite Hvrs.
Qed.

Lemma decode_2930 tx c sig : tx_fits tx -> below 256 c -> sig_option_ok sig ->
  from_bytes (Byte.x01 :: rlp_list ([append_u256 c; append_u256 (nonce tx); append_u256 (max_fee_per_gas tx); append_u64 (gas_limit tx);
    append_h160_option (to_ tx); append_u256 (value tx); append_vec (data tx); append_list (access_list tx)] ++
    match sig with Some sig => sig_items sig | None => [] end)) =
  Ok (mkTx Eip2930 (Some c) (nonce tx) (max_fee_per_gas tx) (max_fee_per_gas tx) (gas_limit tx) (to_ tx) (value tx) (data tx) (access_list tx) sig).
Proof.
  intros Hf Hc Hs. destruct (append_list_ok _ _ (access_list tx) (str "access_list") AccessListItem_law (tf_access _ Hf)) as [Hal Hald].
  set (l := _ ++ _). assert (Hi : Forall item l).
  { apply Forall_app. split; [|destruct sig; [by apply sig_items_ok|constructor]]. destruct Hf. rewrite append_vec_value.
    forall_elements ltac:(by first [exact Hal | apply u256_law | apply u64_law | apply h160_option_item | constructor]). }
  cbn [from_bytes]. unfold from_rlp_any, rlp_decode_eip2930_tx. rewrite bool_decide_eq_true_2 by done.
  rewrite rlp_list_is_list, !count_is_list, rlp_list_iter by done. destruct Hf.
  assert (Hlen : negb (length l =? 8) && negb (length l =? 11) = false) by (unfold l; by destruct sig).
  rewrite Hlen. unfold l. cbn [negb]. repeat field_step. cbn [next mbind outcome_bind app]. rewrite Hald. cbn [mbind outcome_bind].
  unfold decode_signature. destruct sig as [sig|]; [|done]. cbn in Hs. rewrite rlp_decode_vrs_ok by done. cbn [mbind outcome_bind].
  by rewrite signature_new_ok.
Qed.

Lemma decode_1559 tx c sig : tx_fits tx -> below 256 c -> sig_option_ok sig ->
  from_bytes (Byte.x02 :: rlp_list ([append_u256 c; append_u256 (nonce tx); append_u256 (max_priority_fee_per_gas tx);
    append_u256 (max_fee_per_gas tx); append_u64 (gas_limit tx);
    append_h160_option (to_ tx); append_u256 (value tx); append_vec (data tx); append_list (access_list tx)] ++
    match sig with Some sig => sig_items sig | None => [] end)) =
  Ok (mkTx Eip1559 (Some c) (nonce tx) (max_priority_fee_per_gas tx) (max_fee_per_gas tx) (gas_limit tx) (to_ tx) (value tx) (data tx) (access_list tx) sig).
Proof.
  intros Hf Hc Hs. destruct (append_list_ok _ _ (access_list tx) (str "access_list") AccessListItem_law (tf_access _ Hf)) as [Hal Hald].
  set (l := _ ++ _). assert (Hi : Forall item l).
  { apply Forall_app. split; [|destruct sig; [by apply sig_items_ok|constructor]]. destruct Hf. rewrite append_vec_value.
    forall_elements ltac:(by first [exact Hal | apply u256_law | apply u64_law | apply h160_option_item | constructor]). }
  cbn [from_bytes]. unfold from_rlp_any, rlp_decode_eip1559_tx. rewrite (bool_decide_eq_false_2 (Byte.x02 = Byte.x01)) by done.
  rewrite bool_decide_eq_true_2 by done.
  rewrite rlp_list_is_list, !count_is_list, rlp_list_iter by done. destruct Hf.
  assert (Hlen : negb (length l =? 9) && negb (length l =? 12) = false) by (unfold l; by destruct sig).
  rewrite Hlen. unfold l. cbn [negb]. repeat field_step. cbn [next mbind outcome_bind app]. rewrite Hald. cbn [mbind outcome_bind].
  unfold decode_signature. destruct sig as [sig|]; [|done]. cbn in Hs. rewrite rlp_decode_vrs_ok by done. cbn [mbind outcome_bind].
  by rewrite signature_new_ok.
Qed.

Lemma unsigned_items_ok c : below 256 c -> Forall item [append_u256 c; append_h256 H256_zero; append_h256 H256_zero].
Proof. intros Hc. rewrite append_h256_zero. forall_elements ltac:(by first [apply u256_law | constructor]). Qed.
Lemma unsigned_vrs c : below 256 c ->
  rlp_decode_vrs [append_u256 c; append_h256 H256_zero; append_h256 H256_zero] = Ok (Some (c, H256_zero, H256_zero)).
Proof. intros Hc. cbn [rlp_decode_vrs]. repeat field_step. done. Qed.

(** What reading back a transaction gives. *)
Definition read_back tx : decoded EthereumTransactionCommon :=
  let reread t c prio al := mkTx t c (nonce tx) prio (max_fee_per_gas tx) (gas_limit tx) (to_ tx) (value tx) (data tx) al (signature tx) in
  match type_ tx, chain_id tx, signature tx with
  | Legacy, None, None => Err RlpIncorrectListLen
  | Legacy, Some c, None => Ok (reread Legacy (Some c) (max_fee_per_gas tx) [])
  | Legacy, _, Some sig => c ← legacy_chain_id (sig_v sig) false; Ok (reread Legacy c (max_fee_per_gas tx) [])
  | Eip2930, Some c, _ => Ok (reread Eip2930 (Some c) (max_fee_per_gas tx) (access_list tx))
  | Eip1559, Some c, _ => Ok (reread Eip1559 (Some c) (max_priority_fee_per_gas tx) (access_list tx))
  | _, None, _ => Panic PUnwrap
  end.

Lemma decode_legacy_signed tx sig : tx_fits tx -> sig_ok sig -> signature tx = Some sig ->
  from_bytes (rlp_list (legacy_items tx ++ sig_items sig)) =
    (c ← legacy_chain_id (sig_v sig) false;
     Ok (mkTx Legacy c (nonce tx) (max_fee_per_gas tx) (max_fee_per_gas tx) (gas_limit tx) (to_ tx) (value tx) (data tx) [] (signature tx))).
Proof.
  intros Hf Hs Hsig. erewrite decode_legacy; [|done|by apply sig_items_ok|done|by apply rlp_decode_vrs_ok]. cbn zeta.
  rewrite (bool_decide_eq_false_2 (sig_r sig = _)) by apply Hs. cbn [andb]. rewrite signature_new_ok, Hsig by done.
  by destruct (legacy_chain_id _ _).
Qed.

Lemma to_from_bytes tx : tx_fits tx -> (bs ← to_bytes tx; from_bytes bs) = read_back tx.
Proof.
  intros Hf. pose proof Hf as [Hc _ _ _ _ _ _ _ Hs]. unfold to_bytes, to_rlp_any, read_back, rlp_encode_legacy_tx,
    rlp_encode_eip2930_tx, rlp_encode_eip1559_tx, rlp_encode_legacy_pre_eip155, rlp_encode_legacy_post_eip155.
  destruct (type_ tx) eqn:Ht, (chain_id tx) as [c|] eqn:Hch; cbn [mbind outcome_bind expect type_tag]; [| |by apply decode_2930|done|by apply decode_1559|done].
  - destruct (signature tx) as [sig|] eqn:Hsig.
    + rewrite (decode_legacy_signed _ _ Hf Hs Hsig). by rewrite Hsig.
    + rewrite (decode_legacy tx _ _ _ _ Hf (unsigned_items_ok c Hc) eq_refl (unsigned_vrs c Hc)). cbn zeta.
      rewrite bool_decide_eq_true_2 by done. done.
  - destruct (signature tx) as [sig|] eqn:Hsig.
    + rewrite (decode_legacy_signed _ _ Hf Hs Hsig). by rewrite Hsig.
    + rewrite app_nil_r, from_bytes_legacy. pose proof (legacy_items_ok tx Hf) as Hi.
      unfold from_rlp_any, rlp_decode_legacy_tx. by rewrite rlp_list_is_list, count_is_list.
Qed.

Lemma read_back_canonical tx : tx_fits tx -> read_back tx = Ok tx <-> canonical tx.
Proof.
  intros Hf. unfold read_back, canonical. destruct tx as [ty ch no pr fee gas to va da al sg]; cbn -[legacy_chain_id].
  destruct ty, ch as [c|], sg as [sig|]; try (destruct (legacy_chain_id _ _) as [c'|e|q|]; cbn [mbind outcome_bind]); intuition congruence.
Qed.

(** *** What decoding accepts *)

Lemma map_err_ok {E F A} (f : E -> F) (o : outcome E A) a : map_err f o = Ok a -> o = Ok a.
Proof. destruct o; cbn; congruence. Qed.
Lemma decode_field_range {A} (C : Codec A) P d name a : codec_range C P -> decode_field (C := C) d name = Ok a -> P a.
Proof. intros HC H%map_err_ok. by eapply HC. Qed.
Lemma decode_u256_range d name n : decode_u256 d name = Ok n -> below 256 n.
Proof. apply decode_field_range, u256_range. Qed.
Lemma decode_u64_range d name n : decode_u64 d name = Ok n -> below 64 n.
Proof. apply decode_field_range, u64_range. Qed.
Lemma decode_h160_option_range d name o : decode_h160_option d name = Ok o -> h160_option_ok o.
Proof.
  unfold decode_h160_option, decode_option, decode_option_explicit. destruct (rlp_is_empty d); [by intros [= <-]|].
  intros (b&Hb&[= <-])%outcome_bind_ok. by apply (decode_field_range _ _ _ _ _ h160_range) in Hb.
Qed.
Lemma decode_h256_range d name h : decode_field_h256 d name = Ok h -> sized 32 h.
Proof.
  intros H%map_err_ok. unfold decode_h256 in H. apply outcome_bind_ok in H as (b&_&H).
  destruct (Nat.eqb_spec (length b) 32); [by injection H as <-|]. destruct (_ && _) eqn:E.
  - injection H as <-. apply andb_true_iff in E as [E%Nat.ltb_lt _]. unfold sized. rewrite length_app, repeat_length. lia.
  - destruct (_ =? _); [by injection H as <-|done].
Qed.
Lemma AccessListItem_range : codec_range AccessListItem_codec item_ok.
Proof.
  intros d i H. cbn [decode AccessListItem_codec] in H. destruct (negb _); [done|].
  apply outcome_bind_ok in H as ([x it]&_&H). apply outcome_bind_ok in H as (a&Ha&H).
  apply outcome_bind_ok in H as ([y it']&_&H). apply outcome_bind_ok in H as (ks&Hks&H). destruct it'; [|done]. injection H as <-.
  split; [by apply (decode_field_range _ _ _ _ _ h160_range) in Ha|]. apply map_err_ok in Hks.
  by apply (as_list_range _ _ _ _ h256_range) in Hks.
Qed.
Lemma decode_vrs_range it v r s : rlp_decode_vrs it = Ok (Some (v, r, s)) -> below 256 v /\ sized 32 r /\ sized 32 s.
Proof.
  unfold rlp_decode_vrs. destruct it as [|x [|y [|z it]]]; try done.
  intros (v'&Hv&H)%outcome_bind_ok. apply outcome_bind_ok in H as (r'&Hr&H). apply outcome_bind_ok in H as (s'&Hs&H).
  injection H as <- <- <-. split_and!; eauto using decode_u256_range, decode_h256_range.
Qed.
Lemma signature_new_range v r s o : signature_new v r s = Ok o -> below 256 v -> sized 32 r -> sized 32 s ->
  exists sig, o = Some sig /\ sig_v sig = v /\ sig_ok sig.
Proof.
  unfold signature_new, TxSignature_new. do 2 case_bool_decide; cbn; try done. intros [= <-] ???. eexists. split_and!; [done..|].
  by split.
Qed.
Lemma decode_signature_range it o : decode_signature it = Ok o -> sig_option_ok o.
Proof.
  intros (vrs&Hv&H)%outcome_bind_ok. destruct vrs as [[[v r] s]|]; [|by injection H as <-].
  apply decode_vrs_range in Hv as (?&?&?). apply signature_new_range in H as (sig&->&_&Hs); done.
Qed.

(** Splits a chain of decoding steps. *)
Ltac decode_inv H :=
  repeat match type of H with
  | (next _ ≫= _) = Ok _ => let x := fresh "x" in let it := fresh "it" in apply outcome_bind_ok in H as ([x it]&_&H)
  | (_ ≫= _) = Ok _ => let a := fresh "a" in let Ha := fresh "Ha" in apply outcome_bind_ok in H as (a&Ha&H)
  end.
Ltac field_ranges :=
  repeat match goal with
  | Ha : decode_u256 _ _ = Ok _ |- _ => apply decode_u256_range in Ha
  | Ha : decode_u64 _ _ = Ok _ |- _ => apply decode_u64_range in Ha
  | Ha : decode_h160_option _ _ = Ok _ |- _ => apply decode_h160_option_range in Ha
  | Ha : decode_list _ _ = Ok _ |- _ => apply map_err_ok, (as_list_range _ _ _ _ AccessListItem_range) in Ha
  | Ha : decode_signature _ = Ok _ |- _ => apply decode_signature_range in Ha
  end.

Lemma decode_eip2930_canonical d tx : rlp_decode_eip2930_tx d = Ok tx -> tx_fits tx /\ canonical tx.
Proof.
  unfold rlp_decode_eip2930_tx. destruct (_ && _); [done|]. intros H. decode_inv H. injection H as <-. field_ranges. by split; [split|].
Qed.
Lemma decode_eip1559_canonical d tx : rlp_decode_eip1559_tx d = Ok tx -> tx_fits tx /\ canonical tx.
Proof.
  unfold rlp_decode_eip1559_tx. destruct (_ && _); [done|]. intros H. decode_inv H. injection H as <-. field_ranges. by split; [split|].
Qed.
Lemma decode_legacy_canonical d tx : rlp_decode_legacy_tx d = Ok tx -> tx_fits tx /\ canonical tx.
Proof.
  unfold rlp_decode_legacy_tx. destruct (negb _); [done|]. intros H. decode_inv H.
  destruct a6 as [[v r] s]. apply ok_or_Ok in Ha6. subst. apply decode_vrs_range in Ha5 as (Hv&Hr&Hs). cbn zeta in H.
  apply outcome_bind_ok in H as (ch&Ha7&H). apply outcome_bind_ok in H as (sg&Ha8&H). injection H as <-. field_ranges.
  destruct (_ && _).
  - injection Ha8 as <-. injection Ha7 as <-. by split; [split|].
  - apply signature_new_range in Ha8 as (sig&->&<-&Hsig); [|done..]. assert (Hc : match ch with Some c => below 256 c | None => True end).
    { unfold legacy_chain_id in Ha7. destruct (_ <? _)%N; [injection Ha7 as <-|by destruct (_ || _); [injection Ha7 as <-|]].
      unfold below in *. apply N.Div0.div_lt_upper_bound. lia. }
    by split; [split|].
Qed.

Lemma from_bytes_canonical bs tx : from_bytes bs = Ok tx -> tx_fits tx /\ canonical tx.
Proof.
  unfold from_bytes, from_rlp_any. destruct bs as [|b bs]; [done|]. destruct (bool_decide _); [|destruct (bool_decide _)];
    (destruct (negb _); [done|]); eauto using decode_eip2930_canonical, decode_eip1559_canonical, decode_legacy_canonical.
Qed.

(** C29: transactions survive their encodings.  A transaction whose fields are in range is read back from its bytes
    exactly if it is canonical: for a legacy or EIP-2930 transaction both fees are equal, a legacy transaction has no access
    list and a chain id that is that of its signature, or any if it is not signed, and the others have a chain id.  What
    is read from any bytes is in range and canonical, so that writing it cannot panic and reads back as the same. *)
Theorem transactions_survive_encoding :
  (forall tx, tx_fits tx -> (bs ← to_bytes tx; from_bytes bs) = Ok tx <-> canonical tx) /\
  (forall bs tx, from_bytes bs = Ok tx -> tx_fits tx /\ canonical tx).
Proof.
  split; [|apply from_bytes_canonical]. intros tx Hf. rewrite to_from_bytes by done. by apply read_back_canonical.
Qed.
End transactions.
