(* ===== verification/EthSign.v ===== *)
(** Signing Ethereum transactions and finding who signed them.

    Models the rest of [etherlink/kernel_evm/ethereum/src/tx_signature.rs] and [tx_common.rs].  The crates
    [libsecp256k1], [sha3] and [hex] are parameters ([Secp], [SecpLaws]). *)

From S2P Require Import Prelude Endian Rlp EthTypes.

(** A [Signature] is its two scalars, a [RecoveryId] a number, a [PublicKey] its 65 bytes. *)
Class Secp := {
  Scalar : Set; SecretKey : Set;
  scalar_set_b32 : bytes -> Scalar;
  scalar_b32 : Scalar -> bytes;
  is_high : Scalar -> bool;
  recovery_id_parse : N -> outcome nat N;
  secret_key_parse : bytes -> outcome nat SecretKey;
  public_key : SecretKey -> bytes;
  secp_sign : bytes -> SecretKey -> Scalar * Scalar * N;
  secp_recover : bytes -> Scalar * Scalar -> N -> outcome nat bytes;
  keccak256 : bytes -> bytes;
  hex_decode : bytes -> outcome nat bytes
}.

Inductive SigError : Set :=
  | SE_DecoderError (e : DecoderError) | SlicingError | SE_TxSigError (e : TxSigError) | UnsignedTransactionError.

Section code.
Context {crate : RlpCrate} {eth : EthCrates} {secp : Secp}.

(** * tx_signature.rs *)

Definition U256_bound : N := 2 ^ 256.
Definition checked_mul (a b : N) : option N := if (a * b <? U256_bound)%N then Some (a * b)%N else None.
Definition checked_add (a b : N) : option N := if (a + b <? U256_bound)%N then Some (a + b)%N else None.
Definition checked_sub (a b : N) : option N := if (b <=? a)%N then Some (a - b)%N else None.

(** [2 * chain_id + 35]. *)
Definition chain_id_encoding (chain_id : N) : option N := x ← checked_mul chain_id 2; checked_add x 35.

Definition legacy_compute_parity (sig : TxSignature) (chain_id : option N) : outcome TxSigError bool :=
  let err := Parity (PE_V (sig_v sig)) in
  parity ← match chain_id with
           | Some chain_id => x ← ok_or err (chain_id_encoding chain_id); Ok (checked_sub (sig_v sig) x)
           | None => Ok (checked_sub (sig_v sig) 27)
           end;
  match parity with
  | Some p => if (p <? 2)%N then Ok (p =? 1)%N else Err err
  | None => Err err
  end.

(** [libsecp256k1::Error::InvalidSignature] and [InvalidRecoveryId]. *)
Definition INVALID_SIGNATURE : nat := 0.
Definition INVALID_RECOVERY_ID : nat := 1.

Definition signature_legacy (sig : TxSignature) (chain_id : option N) : outcome TxSigError (Scalar * Scalar * N) :=
  let r := scalar_set_b32 (sig_r sig) in
  let s := scalar_set_b32 (sig_s sig) in
  if is_high s then Err (ECDSAError INVALID_SIGNATURE)
  else
    parity ← legacy_compute_parity sig chain_id;
    ri ← map_err ECDSAError (recovery_id_parse (N.b2n parity));
    Ok (r, s, ri).
Definition sig_signature (sig : TxSignature) : outcome TxSigError (Scalar * Scalar * N) :=
  let r := scalar_set_b32 (sig_r sig) in
  let s := scalar_set_b32 (sig_s sig) in
  if is_high s then Err (ECDSAError INVALID_SIGNATURE)
  else if (sig_v sig <? 4)%N then ri ← map_err ECDSAError (recovery_id_parse (sig_v sig)); Ok (r, s, ri)
  else Err (ECDSAError INVALID_RECOVERY_ID).

Definition compute_v (chain_id : option N) (parity : N) : option N :=
  match chain_id with
  | Some chain_id => if (chain_id =? 0)%N then None else x ← chain_id_encoding chain_id; checked_add parity x
  | None => checked_add parity 27
  end.

Definition sign_secp256k1 (msg string_sk : bytes) : outcome TxSigError (Scalar * Scalar * N) :=
  hex ← map_err HexError (hex_decode string_sk);
  sk ← map_err ECDSAError (secret_key_parse hex);
  Ok (secp_sign msg sk).
Definition sign_legacy (msg string_sk : bytes) (chain_id : option N) : outcome TxSigError TxSignature :=
  '(r, s, parity) ← sign_secp256k1 msg string_sk;
  v ← ok_or (Parity (PE_ChainId (default 0%N chain_id))) (compute_v chain_id parity);
  Ok (mkTxSignature v (scalar_b32 r) (scalar_b32 s)).
Definition sign (msg string_sk : bytes) : outcome TxSigError TxSignature :=
  '(r, s, parity) ← sign_secp256k1 msg string_sk;
  Ok (mkTxSignature parity (scalar_b32 r) (scalar_b32 s)).

(** * tx_common.rs *)

Definition with_signature (tx : EthereumTransactionCommon) (sig : option TxSignature) : EthereumTransactionCommon :=
  mkTx (type_ tx) (chain_id tx) (nonce tx) (max_priority_fee_per_gas tx) (max_fee_per_gas tx) (gas_limit tx) (to_ tx)
    (value tx) (data tx) (access_list tx) sig.

Definition message {E} (tx : EthereumTransactionCommon) : outcome E bytes :=
  bs ← to_bytes (with_signature tx None); Ok (keccak256 bs).

Definition tx_signature (tx : EthereumTransactionCommon) : outcome SigError (Scalar * Scalar * N) :=
  sig ← ok_or UnsignedTransactionError (signature tx);
  map_err SE_TxSigError (match type_ tx with Legacy => signature_legacy sig (chain_id tx) | _ => sig_signature sig end).

(** The last 20 bytes of the hash of a public key. *)
Definition address_of (pk : bytes) : bytes := drop 12 (keccak256 (tail pk)).
Definition caller (tx : EthereumTransactionCommon) : outcome SigError bytes :=
  mes ← message tx;
  '(r, s, ri) ← tx_signature tx;
  pk ← map_err (fun e => SE_TxSigError (ECDSAError e)) (secp_recover mes (r, s) ri);
  let value := address_of pk in
  if length value =? 20 then Ok value else Err SlicingError.

Definition sign_transaction (tx : EthereumTransactionCommon) (string_sk : bytes) : outcome SigError EthereumTransactionCommon :=
  mes ← message tx;
  signature ← map_err SE_TxSigError (match type_ tx with Legacy => sign_legacy mes string_sk (chain_id tx) | _ => sign mes string_sk end);
  Ok (with_signature tx (Some signature)).
End code.

(** * Laws of the crates *)

(** Signatures are in the lower half, with non-zero scalars, and the key that made one is recovered. *)
Class SecpLaws {crate : RlpCrate} {eth : EthCrates} (secp : Secp) := {
  scalar_b32_sized x : sized 32 (scalar_b32 x);
  scalar_round_trip x : scalar_set_b32 (scalar_b32 x) = x;
  recovery_id_small n : (n < 4)%N -> recovery_id_parse n = Ok n;
  keccak_sized bs : sized 32 (keccak256 bs);
  sign_spec msg sk r s ri : secp_sign msg sk = (r, s, ri) ->
    is_high s = false /\ (ri < 4)%N /\ scalar_b32 r <> H256_zero /\ scalar_b32 s <> H256_zero /\
    secp_recover msg (r, s) ri = Ok (public_key sk)
}.

Section signing.
Context {crate : RlpCrate} {rlaws : RlpLaws crate} {eth : EthCrates} {elaws : EthLaws eth} {secp : Secp} {slaws : SecpLaws secp}.
Implicit Types (tx : EthereumTransactionCommon).

Lemma message_with_signature {E} tx sig : message (E := E) (with_signature tx sig) = message tx.
Proof. done. Qed.

Lemma compute_v_spec c parity v : (parity < 2)%N -> compute_v c parity = Some v ->
  below 256 v /\ legacy_chain_id v false = Ok c /\
  forall r s, legacy_compute_parity (mkTxSignature v r s) c = Ok (parity =? 1)%N.
Proof.
  intros Hp. unfold compute_v, legacy_compute_parity, chain_id_encoding, checked_mul, checked_add, checked_sub. destruct c as [c|].
  - destruct (N.eqb_spec c 0) as [|Hc]; [done|]. destruct (N.ltb_spec (c * 2) U256_bound); [|done]. cbn [mbind option_bind].
    destruct (N.ltb_spec (c * 2 + 35) U256_bound); [|done]. cbn [mbind option_bind].
    destruct (N.ltb_spec (parity + (c * 2 + 35)) U256_bound); [|done]. intros [= <-]. split_and!; [done| |].
    + unfold legacy_chain_id. rewrite (proj2 (N.ltb_lt _ _)) by lia. do 2 f_equal.
      replace (parity + (c * 2 + 35) - 35)%N with (parity + c * 2)%N by lia. rewrite N.div_add by done.
      by rewrite N.div_small.
    + intros r s. cbn [sig_v ok_or mbind outcome_bind]. rewrite (proj2 (N.leb_le _ _)) by lia.
      replace (parity + (c * 2 + 35) - (c * 2 + 35))%N with parity by lia. by rewrite (proj2 (N.ltb_lt _ _)).
  - destruct (N.ltb_spec (parity + 27) U256_bound); [|done]. intros [= <-]. split_and!; [done| |].
    + assert (Hcase : (parity = 0 \/ parity = 1)%N) by lia. by destruct Hcase as [->| ->].
    + intros r s. cbn [sig_v mbind outcome_bind]. rewrite (proj2 (N.leb_le _ _)) by lia.
      replace (parity + 27 - 27)%N with parity by lia. by rewrite (proj2 (N.ltb_lt _ _)).
Qed.

(** What a legacy or EIP-2930 encoding cannot carry is absent. *)
Definition plain tx : Prop :=
  match type_ tx with
  | Legacy => max_priority_fee_per_gas tx = max_fee_per_gas tx /\ access_list tx = []
  | Eip2930 => max_priority_fee_per_gas tx = max_fee_per_gas tx
  | Eip1559 => True
  end.

Lemma signature_of_signed m sk r s ri : secp_sign m sk = (r, s, ri) -> forall v, below 256 v ->
  sig_ok (mkTxSignature v (scalar_b32 r) (scalar_b32 s)).
Proof. intros (_&_&Hr&Hs&_)%sign_spec v Hv. split; [done|apply scalar_b32_sized..|done|done]. Qed.

Lemma sig_signature_spec m sk r s ri : secp_sign m sk = (r, s, ri) ->
  sig_signature (mkTxSignature ri (scalar_b32 r) (scalar_b32 s)) = Ok (r, s, ri).
Proof.
  intros (Hh&Hri&_)%sign_spec. unfold sig_signature. cbn [sig_r sig_s sig_v]. rewrite !scalar_round_trip, Hh.
  rewrite (proj2 (N.ltb_lt _ _)) by done. by rewrite recovery_id_small.
Qed.
Lemma signature_legacy_spec m sk r s ri c v : secp_sign m sk = (r, s, ri) -> (ri < 2)%N -> compute_v c ri = Some v ->
  signature_legacy (mkTxSignature v (scalar_b32 r) (scalar_b32 s)) c = Ok (r, s, ri).
Proof.
  intros (Hh&_)%sign_spec Hri (_&_&Hp)%compute_v_spec; [|done]. unfold signature_legacy. cbn [sig_r sig_s].
  rewrite !scalar_round_trip, Hh, Hp. cbn [mbind outcome_bind].
  assert (Hb : N.b2n (ri =? 1)%N = ri) by (destruct (N.eqb_spec ri 1); cbn; lia). rewrite Hb.
  by rewrite recovery_id_small by lia.
Qed.

Section signer.
Context tx (string_sk hex_sk m : bytes) (sk : SecretKey) (r s : Scalar) (ri : N) (tx' : EthereumTransactionCommon).
Context (Hhex : hex_decode string_sk = Ok hex_sk) (Hsk : secret_key_parse hex_sk = Ok sk).
Context (Hm : message (E := SigError) tx = Ok m) (Hs : secp_sign m sk = (r, s, ri)) (Hri : (ri < 2)%N).
Context (Hsign : sign_transaction tx string_sk = Ok tx').

(** The [v] of the signature. *)
Lemma signed_v : exists v, tx' = with_signature tx (Some (mkTxSignature v (scalar_b32 r) (scalar_b32 s))) /\
  match type_ tx with Legacy => compute_v (chain_id tx) ri = Some v | _ => v = ri end.
Proof.
  unfold sign_transaction, sign_legacy, sign, sign_secp256k1 in Hsign. rewrite Hm, Hhex in Hsign. cbn [mbind outcome_bind map_err] in Hsign.
  rewrite Hsk in Hsign. cbn [mbind outcome_bind map_err] in Hsign. rewrite Hs in Hsign.
  destruct (type_ tx); [destruct (compute_v (chain_id tx) ri) as [v|] eqn:Ev; [|done]|..]; injection Hsign as <-; eauto.
Qed.

Lemma signed_caller : caller tx' = Ok (address_of (public_key sk)).
Proof.
  destruct signed_v as (v&->&Hv). unfold caller. rewrite message_with_signature, Hm. cbn [mbind outcome_bind].
  assert (Hsig : tx_signature (with_signature tx (Some (mkTxSignature v (scalar_b32 r) (scalar_b32 s)))) = Ok (r, s, ri)).
  { unfold tx_signature, with_signature. cbn [signature type_ chain_id ok_or mbind outcome_bind].
    destruct (type_ tx); [by rewrite (signature_legacy_spec _ _ _ _ _ _ _ Hs)|subst v; by rewrite (sig_signature_spec _ _ _ _ _ Hs)..]. }
  rewrite Hsig. cbn [mbind outcome_bind]. pose proof (sign_spec _ _ _ _ _ Hs) as (_&_&_&_&Hrec). rewrite Hrec. cbn [map_err mbind outcome_bind].
  unfold address_of. by rewrite length_drop, keccak_sized.
Qed.

Lemma signed_canonical : tx_fits tx -> plain tx -> tx_fits tx' /\ canonical tx'.
Proof.
  intros Hf Hp. destruct signed_v as (v&->&Hv). pose proof (sign_spec _ _ _ _ _ Hs) as (_&Hri4&_).
  assert (Hv256 : below 256 v).
  { destruct (type_ tx); [by destruct (compute_v_spec _ _ _ Hri Hv)|..]; subst v; unfold below; assert (4 < 2 ^ 256)%N by (vm_compute; done); lia. }
  pose proof (signature_of_signed _ _ _ _ _ Hs v Hv256) as Hsig. split; [destruct Hf; by split|].
  assert (Hc : type_ tx <> Legacy -> chain_id tx <> None).
  { intros Ht Hc. unfold message, to_bytes, to_rlp_any, rlp_encode_eip2930_tx, rlp_encode_eip1559_tx, with_signature in Hm.
    cbn [type_ chain_id] in Hm. rewrite Hc in Hm. by destruct (type_ tx). }
  unfold canonical, plain in *. cbn [type_ signature chain_id with_signature max_priority_fee_per_gas max_fee_per_gas access_list sig_v].
  destruct (type_ tx); [|split; [done|by apply Hc]|by apply Hc]. destruct Hp. split_and!; [done..|]. by destruct (compute_v_spec _ _ _ Hri Hv) as (_&?&_).
Qed.
End signer.

(** C32: the caller of a signed transaction is who signed it.  When [sign_transaction] succeeds with a key, the caller found
    in the result is the address of that key, and so is the caller found after the transaction was written and
    read back.  For legacy transactions this rests on [v] holding both the chain id and the parity.  (The recovery
    identifier is 0 or 1: for 2 and 3, which occur with negligible probability, a legacy signature is refused.) *)
Theorem caller_is_signer tx (string_sk hex_sk m : bytes) (sk : SecretKey) r s ri tx' :
  hex_decode string_sk = Ok hex_sk -> secret_key_parse hex_sk = Ok sk -> message (E := SigError) tx = Ok m ->
  secp_sign m sk = (r, s, ri) -> (ri < 2)%N -> sign_transaction tx string_sk = Ok tx' -> tx_fits tx -> plain tx ->
  caller tx' = Ok (address_of (public_key sk)) /\
  (bs ← to_bytes tx'; from_bytes bs) = Ok tx'.
Proof.
  intros Hhex Hsk Hm Hs Hri Hsign Hf Hp. split; [by eapply signed_caller|].
  destruct (signed_canonical tx string_sk hex_sk m sk r s ri tx') as [Hf' Hc']; [done..|].
  rewrite to_from_bytes by done. by apply read_back_canonical.
Qed.
End signing.
