(* ===== verification/EvmTx.v ===== *)
(** The transactions and blueprints of the Etherlink kernel, and their encodings.

    Models the data of [etherlink/kernel_evm/kernel/src/inbox.rs], [delayed_inbox.rs], [blueprint.rs],
    [sequencer_blueprint.rs], [blueprint_storage.rs] and [upgrade.rs], with the helpers of
    [ethereum/src/rlp_helpers.rs] for integers in little endian.  Each codec comes with the values it
    preserves ([codec_on]). *)

From S2P Require Import Prelude Endian Rlp EthTypes.

(** * Integers in little endian (rlp_helpers.rs) *)

(** [U256::from_little_endian], which is defined up to 32 bytes. *)
Class U256FromLe := { u256_from_le : bytes -> decoded N; u256_from_le_spec bs : length bs <= 32 -> u256_from_le bs = Ok (of_le_bytes bs) }.

Section helpers.
Context {crate : RlpCrate} {eth : EthCrates} {fle : U256FromLe}.

Definition decode_bytes (d name : bytes) : decoded bytes := decode_field (C := bytes_codec) d name.

Definition append_u256_le (v : N) : bytes := rlp_value (le_bytes 32 v).
Definition decode_field_u256_le (decoder field_name : bytes) : decoded N :=
  bs ← decode_bytes decoder field_name; u256_from_le bs.
Definition append_u64_le (v : N) : bytes := rlp_value (le_bytes 8 v).
Definition decode_field_u64_le (decoder field_name : bytes) : decoded N :=
  bs ← decode_bytes decoder field_name;
  if length bs =? 8 then Ok (of_le_bytes bs) else Err (Custom (str "Invalid conversion from vector of bytes to bytes.")).
Definition append_u16_le (v : N) : bytes := rlp_value (le_bytes 2 v).
Definition decode_field_u16_le (decoder field_name : bytes) : decoded N :=
  bs ← decode_bytes decoder field_name;
  if length bs =? 2 then Ok (of_le_bytes bs) else Err (Custom (str "Field is not 2 bytes")).

(** A [Timestamp] is an [i64]. *)
Definition i64_le_bytes (t : Z) : bytes := le_bytes 8 (Z.to_N (t mod 2 ^ 64)).
Definition i64_of_le_bytes (bs : bytes) : Z :=
  let z := Z.of_N (of_le_bytes bs) in if (z <? 2 ^ 63)%Z then z else (z - 2 ^ 64)%Z.
Definition append_timestamp (timestamp : Z) : bytes := rlp_value (i64_le_bytes timestamp).
Definition decode_timestamp (decoder : bytes) : decoded Z :=
  bs ← decode_bytes decoder (str "timestamp");
  if length bs =? 8 then Ok (i64_of_le_bytes bs)
  else Err (Custom (str "Invalid conversion from timestamp vector of bytes to bytes.")).

Definition TRANSACTION_HASH_SIZE : nat := 32.
Definition decode_tx_hash (item : bytes) : decoded bytes :=
  list ← rlp_data item;
  if negb (length list =? TRANSACTION_HASH_SIZE) then Err RlpIncorrectListLen else Ok list.

(** * Transactions (inbox.rs) *)

Record Deposit : Set := mkDeposit { amount : N; receiver : bytes }.
#[global] Instance Deposit_codec : Codec Deposit := {
  rlp_bytes d := rlp_list [append_u256 (amount d); rlp_bytes (Codec := h160_codec) (receiver d)];
  decode decoder := expect_list 2 RlpIncorrectListLen decoder (fun it =>
    '(x, it) ← next it; amount ← decode_u256 x (str "amount");
    '(x, it) ← next it; receiver ← decode_field (C := h160_codec) x (str "receiver");
    Ok (mkDeposit amount receiver))
}.

Inductive TransactionContent : Set := Ethereum (tx : EthereumTransactionCommon) | TDeposit (d : Deposit).
Definition ETHEREUM_TX_TAG : N := 1.
Definition DEPOSIT_TX_TAG : N := 2.

(** The bytes of a transaction that can be written; the others, without the chain id they need, panic. *)
Definition eth_bytes (tx : EthereumTransactionCommon) : bytes := match to_bytes (E := DecoderError) tx with Ok bs => bs | _ => [] end.

Definition append_u8 (n : N) : bytes := rlp_bytes (Codec := u8_codec) n.
(** [decoder.at(0)?.as_val()?] and [decoder.at(1)?], after the checks of [expect_list]. *)
Definition decode_tagged {A} (decoder : bytes) (k : N -> bytes -> decoded A) : decoded A :=
  expect_list 2 RlpIncorrectListLen decoder (fun _ =>
    x ← rlp_at decoder 0; tag ← decode (Codec := u8_codec) x;
    rest ← rlp_at decoder 1;
    k tag rest).

#[global] Instance TransactionContent_codec : Codec TransactionContent := {
  rlp_bytes c :=
    match c with
    | Ethereum eth => rlp_list [append_u8 ETHEREUM_TX_TAG; rlp_value (eth_bytes eth)]
    | TDeposit dep => rlp_list [append_u8 DEPOSIT_TX_TAG; rlp_bytes dep]
    end;
  decode decoder := decode_tagged decoder (fun tag tx =>
    if (tag =? DEPOSIT_TX_TAG)%N then deposit ← decode tx; Ok (TDeposit deposit)
    else if (tag =? ETHEREUM_TX_TAG)%N then bs ← rlp_data tx; eth ← from_bytes bs; Ok (Ethereum eth)
    else Err (Custom (str "Unknown transaction tag.")))
}.

Record Transaction : Set := mkTransaction { tx_hash : bytes; content : TransactionContent }.
Definition data_size (t : Transaction) : N :=
  match content t with TDeposit _ => 0 | Ethereum e => N.of_nat (length (data e)) end.
#[global] Instance Transaction_codec : Codec Transaction := {
  rlp_bytes t := rlp_list [rlp_value (tx_hash t); rlp_bytes (content t)];
  decode decoder := expect_list 2 RlpIncorrectListLen decoder (fun it =>
    '(x, it) ← next it; tx_hash ← decode_tx_hash x;
    '(x, it) ← next it; content ← decode_field x (str "Transaction content");
    Ok (mkTransaction tx_hash content))
}.

(** * The delayed inbox (delayed_inbox.rs) *)

Record Hash : Set := mkHash { hash_bytes : bytes }.
#[global] Instance Hash_codec : Codec Hash := {
  rlp_bytes h := rlp_value (hash_bytes h);
  decode decoder :=
    hash ← rlp_data decoder;
    if length hash =? TRANSACTION_HASH_SIZE then Ok (mkHash hash) else Err (Custom (str "expected a vec of 32 elements"))
}.

Inductive DelayedTransaction : Set := DEthereum (tx : EthereumTransactionCommon) | DDeposit (d : Deposit).
Definition DELAYED_TRANSACTION_TAG : N := 1.
Definition DELAYED_DEPOSIT_TAG : N := 2.
#[global] Instance DelayedTransaction_codec : Codec DelayedTransaction := {
  rlp_bytes t :=
    match t with
    | DEthereum delayed_tx => rlp_list [append_u8 DELAYED_TRANSACTION_TAG; rlp_value (eth_bytes delayed_tx)]
    | DDeposit delayed_deposit => rlp_list [append_u8 DELAYED_DEPOSIT_TAG; rlp_bytes delayed_deposit]
    end;
  decode decoder := decode_tagged decoder (fun tag payload =>
    if (tag =? DELAYED_TRANSACTION_TAG)%N then bs ← rlp_data payload; delayed_tx ← from_bytes bs; Ok (DEthereum delayed_tx)
    else if (tag =? DELAYED_DEPOSIT_TAG)%N then deposit ← decode payload; Ok (DDeposit deposit)
    else Err (Custom (str "unknown tag")))
}.

(** * Blueprints (blueprint.rs, sequencer_blueprint.rs, blueprint_storage.rs) *)

Record Blueprint : Set := mkBlueprint { transactions : list Transaction; timestamp : Z }.
#[global] Instance Blueprint_codec : Codec Blueprint := {
  rlp_bytes b := rlp_list [append_list (transactions b); append_timestamp (timestamp b)];
  decode decoder := expect_list 2 RlpIncorrectListLen decoder (fun it =>
    '(x, it) ← next it; transactions ← decode_list x (str "transactions");
    '(x, it) ← next it; timestamp ← decode_timestamp x;
    Ok (mkBlueprint transactions timestamp))
}.

Record BlueprintWithDelayedHashes : Set := mkBlueprintWithDelayedHashes { delayed_hashes : list Hash; blueprint : Blueprint }.
#[global] Instance BlueprintWithDelayedHashes_codec : Codec BlueprintWithDelayedHashes := {
  rlp_bytes b := rlp_list [append_list (delayed_hashes b); append_list (transactions (blueprint b)); append_timestamp (timestamp (blueprint b))];
  decode decoder := expect_list 3 RlpIncorrectListLen decoder (fun it =>
    '(x, it) ← next it; delayed_hashes ← decode_list x (str "delayed_hashes");
    '(x, it) ← next it; transactions ← decode_list x (str "transactions");
    '(x, it) ← next it; timestamp ← decode_timestamp x;
    Ok (mkBlueprintWithDelayedHashes delayed_hashes (mkBlueprint transactions timestamp)))
}.

Record UnsignedSequencerBlueprint : Set := mkUnsigned { chunk : bytes; number : N; nb_chunks : N; chunk_index : N }.
(** A Tezos signature is 64 bytes. *)
Record SequencerBlueprint : Set := mkSequencerBlueprint { unsigned : UnsignedSequencerBlueprint; seq_signature : bytes }.
Definition unsigned_items (b : UnsignedSequencerBlueprint) : list bytes :=
  [rlp_value (chunk b); append_u256_le (number b); append_u16_le (nb_chunks b); append_u16_le (chunk_index b)].
Definition unsigned_rlp_bytes (b : UnsignedSequencerBlueprint) : bytes := rlp_list (unsigned_items b).
#[global] Instance SequencerBlueprint_codec : Codec SequencerBlueprint := {
  rlp_bytes b := rlp_list (unsigned_items (unsigned b) ++ [rlp_value (seq_signature b)]);
  decode decoder := expect_list 5 RlpIncorrectListLen decoder (fun it =>
    '(x, it) ← next it; chunk ← decode_bytes x (str "chunk");
    '(x, it) ← next it; number ← decode_field_u256_le x (str "number");
    '(x, it) ← next it; nb_chunks ← decode_field_u16_le x (str "nb_chunks");
    '(x, it) ← next it; chunk_index ← decode_field_u16_le x (str "chunk_index");
    '(x, it) ← next it; bs ← decode_bytes x (str "signature");
    signature ← (if length bs =? 64 then Ok bs else Err (Custom (str "Invalid signature encoding")));
    Ok (mkSequencerBlueprint (mkUnsigned chunk number nb_chunks chunk_index) signature))
}.

Inductive StoreBlueprint : Set := SequencerChunk (chunk : bytes) | InboxBlueprint (b : Blueprint).
Definition SEQUENCER_CHUNK_TAG : N := 0.
Definition INBOX_BLUEPRINT_TAG : N := 1.
#[global] Instance StoreBlueprint_codec : Codec StoreBlueprint := {
  rlp_bytes b :=
    match b with
    | SequencerChunk chunk => rlp_list [append_u8 SEQUENCER_CHUNK_TAG; rlp_value chunk]
    | InboxBlueprint blueprint => rlp_list [append_u8 INBOX_BLUEPRINT_TAG; rlp_bytes blueprint]
    end;
  decode decoder := decode_tagged decoder (fun tag rest =>
    if (tag =? SEQUENCER_CHUNK_TAG)%N then chunk ← rlp_data rest; Ok (SequencerChunk chunk)
    else if (tag =? INBOX_BLUEPRINT_TAG)%N then blueprint ← decode_field rest (str "blueprint"); Ok (InboxBlueprint blueprint)
    else Err (Custom (str "Unknown store blueprint tag.")))
}.

(** * Kernel upgrades (upgrade.rs) *)

Record KernelUpgrade : Set := mkKernelUpgrade { preimage_hash : bytes; activation_timestamp : Z }.
Definition PREIMAGE_HASH_SIZE : nat := 33.
#[global] Instance KernelUpgrade_codec : Codec KernelUpgrade := {
  rlp_bytes u := rlp_list [rlp_value (preimage_hash u); append_timestamp (activation_timestamp u)];
  decode decoder := expect_list 2 RlpIncorrectListLen decoder (fun it =>
    '(x, it) ← next it; preimage_hash ← decode_bytes x (str "preimage_hash");
    preimage_hash ← (if length preimage_hash =? PREIMAGE_HASH_SIZE then Ok preimage_hash else Err RlpInvalidLength);
    '(x, it) ← next it; activation_timestamp ← decode_timestamp x;
    Ok (mkKernelUpgrade preimage_hash activation_timestamp))
}.
End helpers.

(** * What each codec preserves *)

Section laws.
Context {crate : RlpCrate} {rlaws : RlpLaws crate} {eth : EthCrates} {elaws : EthLaws eth} {fle : U256FromLe}.

Lemma decode_bytes_ok b name : decode_bytes (rlp_value b) name = Ok b.
Proof. unfold decode_bytes, decode_field. cbn. by rewrite rlp_value_data. Qed.

(** Integers in little endian. *)
Lemma decode_u256_le_ok n name : below 256 n -> decode_field_u256_le (append_u256_le n) name = Ok n.
Proof.
  intros Hn. unfold decode_field_u256_le, append_u256_le. rewrite decode_bytes_ok. cbn [mbind outcome_bind].
  rewrite u256_from_le_spec by (rewrite length_le_bytes; lia). f_equal. by apply (of_le_bytes_le_bytes 32).
Qed.
Lemma decode_u64_le_ok n name : below 64 n -> decode_field_u64_le (append_u64_le n) name = Ok n.
Proof.
  intros Hn. unfold decode_field_u64_le, append_u64_le. rewrite decode_bytes_ok. cbn [mbind outcome_bind].
  rewrite length_le_bytes. cbn [Nat.eqb]. f_equal. by apply (of_le_bytes_le_bytes 8).
Qed.
Lemma decode_u16_le_ok n name : below 16 n -> decode_field_u16_le (append_u16_le n) name = Ok n.
Proof.
  intros Hn. unfold decode_field_u16_le, append_u16_le. rewrite decode_bytes_ok. cbn [mbind outcome_bind].
  rewrite length_le_bytes. cbn [Nat.eqb]. f_equal. by apply (of_le_bytes_le_bytes 2).
Qed.

Definition is_i64 (t : Z) : Prop := (- 2 ^ 63 <= t < 2 ^ 63)%Z.
Lemma i64_round_trip t : is_i64 t -> i64_of_le_bytes (i64_le_bytes t) = t.
Proof.
  intros Ht. unfold is_i64 in Ht. unfold i64_of_le_bytes, i64_le_bytes.
  assert (Hm : (0 <= t mod 2 ^ 64 < 2 ^ 64)%Z) by (apply Z.mod_pos_bound; lia).
  rewrite of_le_bytes_le_bytes, Z2N.id; [|lia|change (256 ^ N.of_nat 8)%N with (Z.to_N (2 ^ 64)); lia].
  assert (Hmod : (t mod 2 ^ 64 = if t <? 0 then t + 2 ^ 64 else t)%Z).
  { destruct (Z.ltb_spec t 0); [rewrite <- (Z.mod_add t 1 (2 ^ 64)) by lia; apply Z.mod_small; lia|apply Z.mod_small; lia]. }
  rewrite Hmod. destruct (Z.ltb_spec t 0); [destruct (Z.ltb_spec (t + 2 ^ 64) (2 ^ 63))|destruct (Z.ltb_spec t (2 ^ 63))]; lia.
Qed.
Lemma decode_timestamp_ok t : is_i64 t -> decode_timestamp (append_timestamp t) = Ok t.
Proof.
  intros Ht. unfold decode_timestamp, append_timestamp. rewrite decode_bytes_ok. cbn [mbind outcome_bind].
  unfold i64_le_bytes at 1. rewrite length_le_bytes. cbn [Nat.eqb]. by rewrite i64_round_trip.
Qed.

Lemma decode_tx_hash_ok h : sized 32 h -> decode_tx_hash (rlp_value h) = Ok h.
Proof. intros Hh. unfold decode_tx_hash. rewrite rlp_value_data. cbn [mbind outcome_bind]. by rewrite Hh. Qed.
Lemma Hash_law : codec_on Hash_codec (fun h => sized 32 (hash_bytes h)).
Proof.
  intros [h] Hh. split; [constructor|]. cbn [rlp_bytes decode Hash_codec hash_bytes]. rewrite rlp_value_data. cbn [mbind outcome_bind].
  by rewrite Hh.
Qed.

(** A list of a tag and a payload. *)
Lemma decode_tagged_ok {A} tag x (k : N -> bytes -> decoded A) : below 8 tag -> item x ->
  decode_tagged (rlp_list [append_u8 tag; x]) k = k tag x.
Proof.
  intros Ht Hx. destruct (u8_law tag Ht) as [Hi Hd]. assert (Hl : Forall item [append_u8 tag; x]) by forall_elements done.
  unfold decode_tagged. rewrite expect_list_ok by done. rewrite (rlp_list_at _ 0 (append_u8 tag)) by done. cbn [mbind outcome_bind].
  change (rlp_bytes tag) with (append_u8 tag) in Hd. rewrite Hd. cbn [mbind outcome_bind]. by rewrite (rlp_list_at _ 1 x).
Qed.
Lemma tagged_item tag x : below 8 tag -> item x -> item (rlp_list [append_u8 tag; x]).
Proof. intros Ht Hx. constructor. forall_elements ltac:(by apply u8_law || done). Qed.
End laws.

(** Decodes the next field, of the types of this file too. *)
Ltac kernel_field := cbn [next mbind outcome_bind app];
  first [field_step | rewrite decode_bytes_ok | rewrite decode_u256_le_ok by done | rewrite decode_u64_le_ok by done
        | rewrite decode_u16_le_ok by done | rewrite decode_timestamp_ok by done | rewrite decode_tx_hash_ok by done
        | erewrite decode_field_on by eassumption].
(** The items of an encoding. *)
Ltac kernel_items := forall_elements ltac:(first [assumption | by apply item_value | by apply u256_law | by apply h160_law]).

Section values.
Context {crate : RlpCrate} {rlaws : RlpLaws crate} {eth : EthCrates} {elaws : EthLaws eth} {fle : U256FromLe}.

Definition Deposit_ok (d : Deposit) : Prop := below 256 (amount d) /\ sized 20 (receiver d).
Lemma Deposit_law : codec_on Deposit_codec Deposit_ok.
Proof.
  intros [a r] [Ha Hr]. cbn in Ha, Hr. assert (Hl : Forall item [append_u256 a; rlp_bytes (Codec := h160_codec) r]) by kernel_items.
  cbn [rlp_bytes decode Deposit_codec amount receiver]. split; [by constructor|].
  rewrite expect_list_ok by done. kernel_field. cbn [next mbind outcome_bind]. by rewrite (decode_field_on h160_codec (sized 20)) by (apply h160_law || done).
Qed.

(** Ethereum transactions that are in range and canonical ([EthTypes.canonical]). *)
Definition eth_ok (tx : EthereumTransactionCommon) : Prop := tx_fits tx /\ canonical tx.
Lemma eth_bytes_ok tx : eth_ok tx -> from_bytes (eth_bytes tx) = Ok tx.
Proof.
  intros [Hf Hc]. pose proof (to_from_bytes tx Hf) as H. rewrite (proj2 (read_back_canonical tx Hf) Hc) in H.
  unfold eth_bytes. by apply outcome_bind_ok in H as (bs&->&H).
Qed.

Definition content_ok (c : TransactionContent) : Prop := match c with Ethereum tx => eth_ok tx | TDeposit d => Deposit_ok d end.
Lemma TransactionContent_law : codec_on TransactionContent_codec content_ok.
Proof.
  intros [tx|d] Hc; cbn [rlp_bytes decode TransactionContent_codec content_ok] in *.
  - split; [apply tagged_item; [done|constructor]|]. rewrite decode_tagged_ok by (done || constructor). cbn [N.eqb ETHEREUM_TX_TAG DEPOSIT_TX_TAG Pos.eqb].
    rewrite rlp_value_data. cbn [mbind outcome_bind]. by rewrite eth_bytes_ok.
  - destruct (Deposit_law d Hc) as [Hi Hd]. split; [by apply tagged_item|]. rewrite decode_tagged_ok by done.
    cbn [N.eqb DEPOSIT_TX_TAG Pos.eqb]. by rewrite Hd.
Qed.

Record Transaction_ok (t : Transaction) : Prop := { to_hash : sized 32 (tx_hash t); to_content : content_ok (content t) }.
Lemma Transaction_law : codec_on Transaction_codec Transaction_ok.
Proof.
  intros [h c] [Hh Hc]. cbn in Hh, Hc. destruct (TransactionContent_law c Hc) as [Hi Hd].
  assert (Hl : Forall item [rlp_value h; rlp_bytes c]) by kernel_items.
  cbn [rlp_bytes decode Transaction_codec tx_hash content]. split; [by constructor|]. rewrite expect_list_ok by done.
  kernel_field. cbn [next mbind outcome_bind]. by rewrite (decode_field_on _ _ _ _ TransactionContent_law Hc).
Qed.

Definition delayed_ok (t : DelayedTransaction) : Prop := match t with DEthereum tx => eth_ok tx | DDeposit d => Deposit_ok d end.
Lemma DelayedTransaction_law : codec_on DelayedTransaction_codec delayed_ok.
Proof.
  intros [tx|d] Hc; cbn [rlp_bytes decode DelayedTransaction_codec delayed_ok] in *.
  - split; [apply tagged_item; [done|constructor]|]. rewrite decode_tagged_ok by (done || constructor). cbn [N.eqb DELAYED_TRANSACTION_TAG Pos.eqb].
    rewrite rlp_value_data. cbn [mbind outcome_bind]. by rewrite eth_bytes_ok.
  - destruct (Deposit_law d Hc) as [Hi Hd]. split; [by apply tagged_item|]. rewrite decode_tagged_ok by done.
    cbn [N.eqb DELAYED_DEPOSIT_TAG DELAYED_TRANSACTION_TAG Pos.eqb]. by rewrite Hd.
Qed.

Record Blueprint_ok (b : Blueprint) : Prop := { bo_txs : Forall Transaction_ok (transactions b); bo_time : is_i64 (timestamp b) }.
Lemma Blueprint_law : codec_on Blueprint_codec Blueprint_ok.
Proof.
  intros [txs t] [Hx Ht]. cbn in Hx, Ht. destruct (append_list_ok _ _ txs (str "transactions") Transaction_law Hx) as [Hi Hd].
  assert (Hl : Forall item [append_list txs; append_timestamp t]) by kernel_items.
  cbn [rlp_bytes decode Blueprint_codec transactions timestamp]. split; [by constructor|]. rewrite expect_list_ok by done.
  cbn [next mbind outcome_bind]. rewrite Hd. by kernel_field.
Qed.

Definition delayed_blueprint_ok (b : BlueprintWithDelayedHashes) : Prop :=
  Forall (fun h => sized 32 (hash_bytes h)) (delayed_hashes b) /\ Blueprint_ok (blueprint b).
Lemma BlueprintWithDelayedHashes_law : codec_on BlueprintWithDelayedHashes_codec delayed_blueprint_ok.
Proof.
  intros [hs [txs t]] [Hh [Hx Ht]]. cbn in Hh, Hx, Ht. destruct (append_list_ok _ _ hs (str "delayed_hashes") Hash_law Hh) as [Hi Hd].
  destruct (append_list_ok _ _ txs (str "transactions") Transaction_law Hx) as [Hi' Hd'].
  assert (Hl : Forall item [append_list hs; append_list txs; append_timestamp t]) by kernel_items.
  cbn [rlp_bytes decode BlueprintWithDelayedHashes_codec delayed_hashes blueprint transactions timestamp]. split; [by constructor|].
  rewrite expect_list_ok by done. cbn [next mbind outcome_bind]. rewrite Hd. cbn [next mbind outcome_bind]. rewrite Hd'. by kernel_field.
Qed.

Definition sequencer_ok (b : SequencerBlueprint) : Prop :=
  below 256 (number (unsigned b)) /\ below 16 (nb_chunks (unsigned b)) /\ below 16 (chunk_index (unsigned b)) /\ sized 64 (seq_signature b).
Lemma SequencerBlueprint_law : codec_on SequencerBlueprint_codec sequencer_ok.
Proof.
  intros [[c n nb i] sg] (Hn&Hnb&Hi&Hs). cbn in Hn, Hnb, Hi, Hs.
  cbn [rlp_bytes decode SequencerBlueprint_codec unsigned seq_signature unsigned_items chunk number nb_chunks chunk_index app].
  split; [constructor; kernel_items|]. rewrite expect_list_ok by (kernel_items || done).
  repeat kernel_field. cbn [next mbind outcome_bind]. by rewrite Hs.
Qed.

Definition store_ok (b : StoreBlueprint) : Prop := match b with SequencerChunk _ => True | InboxBlueprint b => Blueprint_ok b end.
Lemma StoreBlueprint_law : codec_on StoreBlueprint_codec store_ok.
Proof.
  intros [c|b] Hc; cbn [rlp_bytes decode StoreBlueprint_codec store_ok] in *.
  - split; [apply tagged_item; [done|constructor]|]. rewrite decode_tagged_ok by (done || constructor). cbn [N.eqb SEQUENCER_CHUNK_TAG].
    by rewrite rlp_value_data.
  - destruct (Blueprint_law b Hc) as [Hi Hd]. split; [by apply tagged_item|]. rewrite decode_tagged_ok by done.
    cbn [N.eqb SEQUENCER_CHUNK_TAG INBOX_BLUEPRINT_TAG]. by rewrite (decode_field_on _ _ _ _ Blueprint_law Hc).
Qed.

Definition upgrade_ok (u : KernelUpgrade) : Prop := sized 33 (preimage_hash u) /\ is_i64 (activation_timestamp u).
Lemma KernelUpgrade_law : codec_on KernelUpgrade_codec upgrade_ok.
Proof.
  intros [h t] [Hh Ht]. cbn in Hh, Ht. cbn [rlp_bytes decode KernelUpgrade_codec preimage_hash activation_timestamp].
  split; [constructor; kernel_items|]. rewrite expect_list_ok by (kernel_items || done). kernel_field.
  cbn [next mbind outcome_bind]. rewrite Hh. cbn [Nat.eqb PREIMAGE_HASH_SIZE next mbind outcome_bind]. by kernel_field.
Qed.

(** What the kernel stores and exchanges survives its encoding.  Transactions of the inbox (deposits and Ethereum
    transactions), transactions of the delayed inbox, blueprints with and without delayed hashes, signed chunks of the
    sequencer, stored blueprints and kernel upgrades are each read back from their encoding, for all values
    in the range of their fields; a stored chunk is never read as a blueprint of the inbox or the reverse. *)
Theorem kernel_values_survive_encoding :
  codec_on Transaction_codec Transaction_ok /\ codec_on DelayedTransaction_codec delayed_ok /\
  codec_on BlueprintWithDelayedHashes_codec delayed_blueprint_ok /\ codec_on SequencerBlueprint_codec sequencer_ok /\
  codec_on StoreBlueprint_codec store_ok /\ codec_on KernelUpgrade_codec upgrade_ok.
Proof.
  split_and!; [apply Transaction_law|apply DelayedTransaction_law|apply BlueprintWithDelayedHashes_law|apply SequencerBlueprint_law
    |apply StoreBlueprint_law|apply KernelUpgrade_law].
Qed.
End values.
