(* ===== verification/EthBlock.v ===== *)
(** Blocks, receipts and transaction objects.

    Models [etherlink/kernel_evm/ethereum/src/transaction.rs] and [block.rs], with the helpers of [rlp_helpers.rs] and
    [helpers.rs] that they use.  Logs and bloom filters belong to the crates [ethereum] and [ethbloom]: [LogCrates] names
    what is used of them. *)

From S2P Require Import Prelude Endian KernelStorage Rlp EvmStorage EthTypes EthSign EvmTx.

Class LogCrates := {
  Log : Type;
  log_address : Log -> bytes;
  log_topics : Log -> list bytes;
  log_codec : Codec Log;
  bloom_default : bytes;
  (** [Bloom::accrue] of raw bytes, [Bloom::accrue_bloom]. *)
  bloom_accrue : bytes -> bytes -> bytes;
  bloom_accrue_bloom : bytes -> bytes -> bytes
}.

Section data.
Context {logs_crate : LogCrates}.

Inductive TransactionStatus : Set := Success | Failure.
Inductive TransactionDecodingError : Set := InvalidEncoding | InvalidVectorLength.

(** [try_from] and [into], on [u8]. *)
Definition status_of_u8 (v : N) : outcome TransactionDecodingError TransactionStatus :=
  if (v =? 0)%N then Ok Failure else if (v =? 1)%N then Ok Success else Err InvalidEncoding.
Definition u8_of_status (v : TransactionStatus) : N := match v with Failure => 0 | Success => 1 end.
Definition type_of_u8 (v : N) : outcome TransactionDecodingError TransactionType :=
  if (v =? 0)%N then Ok Legacy else if (v =? 1)%N then Ok Eip2930 else if (v =? 2)%N then Ok Eip1559
  else Err InvalidEncoding.
Definition u8_of_type (v : TransactionType) : N := match v with Legacy => 0 | Eip2930 => 1 | Eip1559 => 2 end.

Record IndexedLog : Type := mkIndexedLog { log : Log; log_index : N }.

Record TransactionReceipt : Type := mkReceipt {
  r_hash : bytes; r_index : N; r_block_number : N; r_from : bytes; r_to : option bytes;
  cumulative_gas_used : N; effective_gas_price : N; r_gas_used : N; contract_address : option bytes;
  logs : list IndexedLog; r_logs_bloom : bytes; r_type : TransactionType; status : TransactionStatus
}.

Record TransactionObject : Type := mkObject {
  o_block_number : N; o_from : bytes; o_gas_used : N; gas_price : N; o_hash : bytes; o_input : bytes;
  o_nonce : N; o_to : option bytes; o_index : N; o_value : N; o_signature : option TxSignature
}.

(** The addresses and topics of the logs. *)
Definition logs_to_bloom (logs : list IndexedLog) : bytes :=
  fold_left (fun bloom l => fold_left bloom_accrue (log_topics (log l)) (bloom_accrue bloom (log_address (log l)))) logs bloom_default.

(** * Blocks (block.rs) *)

(** [BlockFees] holds the base fee. *)
Record BlockConstants : Set := mkBlockConstants {
  bc_number : N; coinbase : bytes; bc_timestamp : N; bc_gas_limit : N; base_fee_per_gas : N; bc_chain_id : N
}.
Definition H160_zero : bytes := repeat Byte.x00 20.
Definition first_block (timestamp chain_id base_fee : N) : BlockConstants :=
  mkBlockConstants 0 H160_zero timestamp 1 base_fee chain_id.

Record L2Block : Set := mkL2Block {
  b_number : N; b_hash : bytes; parent_hash : bytes; b_logs_bloom : bytes; transactions_root : bytes; state_root : bytes;
  receipts_root : bytes; miner : option bytes; extra_data : option bytes; b_gas_limit : option N; b_gas_used : N;
  b_timestamp : Z; b_transactions : list bytes
}.

Definition DUMMY_HASH : bytes := str "00000000000000000000000000000000".
Definition dummy_block_hash : bytes := repeat Byte.x00 32.
Definition dummy_hash : bytes := DUMMY_HASH.
Definition L2Block_default : L2Block :=
  mkL2Block 0 H256_zero dummy_block_hash bloom_default dummy_hash dummy_hash dummy_hash None None None 0 0 [].

(** [Timestamp::as_u64] and [U256::from]. *)
Definition constants (self : L2Block) (chain_id base_fee : N) : BlockConstants :=
  mkBlockConstants (b_number self) H160_zero (Z.to_N (b_timestamp self mod 2 ^ 64)) (default 1%N (b_gas_limit self)) base_fee chain_id.
End data.

(** * Hashes *)

(** [OffsetDateTime::from_unix_timestamp] and [format(&Rfc3339)] of the crate [time], with the message of an error. *)
Class Rfc3339 := { rfc3339 : Z -> outcome bytes bytes }.

Section hash.
Context {crate : RlpCrate} {hex : HexCrate} {secp : Secp} {rfc : Rfc3339}.

(** [Display] of a [Timestamp] (kernel_sdk/encoding/src/timestamp.rs). *)
Definition timestamp_to_string (t : Z) : bytes :=
  match rfc3339 t with Ok ts => ts | Err err => str "<invalid timestamp: " ++ err ++ str ">" | _ => [] end.

Definition hex_of_option (o : option bytes) : bytes := match o with Some v => hex_encode v | None => hex_encode [] end.
Definition bytes_of_u256 (v : N) : bytes := le_bytes 32 v.
(** [to_string] of a [U256], of at most 78 digits. *)
Definition u256_to_string (v : N) : bytes := decimal 78 v.

Definition header (parent_hash state_root transactions_root receipts_root logs_bloom : bytes) (miner : option bytes) (number : N)
    (gas_limit : option N) (gas_used : N) (timestamp : Z) (extra_data : option bytes) : list bytes :=
  [hex_encode parent_hash; hex_encode state_root; hex_encode transactions_root; hex_encode receipts_root; hex_encode logs_bloom;
   hex_of_option miner; hex_encode (bytes_of_u256 number); hex_of_option (option_map (le_bytes 8) gas_limit);
   hex_encode (u256_to_string gas_used); hex_encode (timestamp_to_string timestamp); hex_of_option extra_data].
Definition block_hash (parent_hash state_root transactions_root receipts_root logs_bloom : bytes) (miner : option bytes) (number : N)
    (gas_limit : option N) (gas_used : N) (timestamp : Z) (extra_data : option bytes) : bytes :=
  keccak256 (rlp_list (map rlp_value (header parent_hash state_root transactions_root receipts_root logs_bloom miner number
    gas_limit gas_used timestamp extra_data))).

Definition L2Block_new (number : N) (transactions : list bytes) (timestamp : Z) (parent_hash logs_bloom transactions_root state_root
    receipts_root : bytes) (gas_used : N) : L2Block :=
  let hash := block_hash parent_hash state_root transactions_root receipts_root logs_bloom None number None gas_used timestamp None in
  mkL2Block number hash parent_hash logs_bloom transactions_root state_root receipts_root None None None gas_used timestamp transactions.
End hash.

(** * Encodings *)

Section codecs.
Context {crate : RlpCrate} {eth : EthCrates} {fle : U256FromLe} {logs_crate : LogCrates}.

Definition decode_transaction_hash (decoder : bytes) : decoded bytes := decode_field_h256 decoder (str "transaction_hash").
Fixpoint decode_hashes (l : list bytes) : decoded (list bytes) :=
  match l with [] => Ok [] | rlp :: l => h ← decode_h256 rlp; hs ← decode_hashes l; Ok (h :: hs) end.
Definition decode_transaction_hash_list (decoder field_name : bytes) : decoded (list bytes) :=
  map_err (fun _ => Custom field_name) (decode_hashes (rlp_iter decoder)).
Definition decode_transaction_type (decoder : bytes) : decoded TransactionType :=
  tag ← decode_field (C := u8_codec) decoder (str "transaction_type");
  map_err (fun _ => Custom (str "Transaction type cannot be decoded")) (type_of_u8 tag).
Definition decode_transaction_status (decoder : bytes) : decoded TransactionStatus :=
  tag ← decode_field (C := u8_codec) decoder (str "transaction_status");
  map_err (fun _ => Custom (str "Transaction status cannot be decoded")) (status_of_u8 tag).

(** A list whose length is compared with [Ok(n)]. *)
Definition expect_fields {A} (n : nat) (decoder : bytes) (k : list bytes -> decoded A) : decoded A :=
  if negb (rlp_is_list decoder) then Err RlpExpectedToBeList
  else if negb (count_is decoder n) then Err RlpIncorrectListLen
  else k (rlp_iter decoder).

#[global] Instance IndexedLog_codec : Codec IndexedLog := {
  rlp_bytes l := rlp_list [rlp_bytes (Codec := log_codec) (log l); append_u64_le (log_index l)];
  decode decoder := expect_fields 2 decoder (fun it =>
    '(x, it) ← next it; log ← decode_field (C := log_codec) x (str "log");
    '(x, it) ← next it; index ← decode_field_u64_le x (str "index");
    Ok (mkIndexedLog log index))
}.

#[global] Instance TransactionReceipt_codec : Codec TransactionReceipt := {
  rlp_bytes r := rlp_list [rlp_value (r_hash r); append_u32 (r_index r); append_u256_le (r_block_number r);
    rlp_bytes (Codec := h160_codec) (r_from r); append_h160_option (r_to r); append_u256_le (cumulative_gas_used r);
    append_u256_le (effective_gas_price r); append_u256_le (r_gas_used r); append_h160_option (contract_address r);
    append_list (logs r); rlp_bytes (Codec := bloom_codec) (r_logs_bloom r); append_u8 (u8_of_type (r_type r));
    append_u8 (u8_of_status (status r))];
  decode decoder := expect_fields 13 decoder (fun it =>
    '(x, it) ← next it; hash ← decode_transaction_hash x;
    '(x, it) ← next it; index ← decode_u32 x (str "index");
    '(x, it) ← next it; block_number ← decode_field_u256_le x (str "block_number");
    '(x, it) ← next it; from ← decode_field (C := h160_codec) x (str "from");
    '(x, it) ← next it; to_ ← decode_h160_option x (str "to");
    '(x, it) ← next it; cumulative_gas_used ← decode_field_u256_le x (str "cumulative_gas_used");
    '(x, it) ← next it; effective_gas_price ← decode_field_u256_le x (str "effective_gas_price");
    '(x, it) ← next it; gas_used ← decode_field_u256_le x (str "gas_used");
    '(x, it) ← next it; contract_address ← decode_h160_option x (str "contract_address");
    '(x, it) ← next it; logs ← decode_list x (str "logs");
    '(x, it) ← next it; logs_bloom ← decode_field (C := bloom_codec) x (str "logs_bloom");
    '(x, it) ← next it; type_ ← decode_transaction_type x;
    '(x, it) ← next it; status ← decode_transaction_status x;
    Ok (mkReceipt hash index block_number from to_ cumulative_gas_used effective_gas_price gas_used contract_address logs logs_bloom
      type_ status))
}.

#[global] Instance TransactionObject_codec : Codec TransactionObject := {
  rlp_bytes o := rlp_list ([append_u256_le (o_block_number o); rlp_bytes (Codec := h160_codec) (o_from o); append_u256_le (o_gas_used o);
    append_u256_le (gas_price o); rlp_value (o_hash o); rlp_value (o_input o); append_u256_le (o_nonce o);
    append_h160_option (o_to o); append_u32 (o_index o); append_u256_le (o_value o)] ++ rlp_append_opt (o_signature o));
  decode decoder := expect_fields 13 decoder (fun it =>
    '(x, it) ← next it; block_number ← decode_field_u256_le x (str "block_number");
    '(x, it) ← next it; from ← decode_field (C := h160_codec) x (str "from");
    '(x, it) ← next it; gas_used ← decode_field_u256_le x (str "gas_used");
    '(x, it) ← next it; gas_price ← decode_field_u256_le x (str "gas_price");
    '(x, it) ← next it; hash ← decode_transaction_hash x;
    '(x, it) ← next it; input ← decode_bytes x (str "input");
    '(x, it) ← next it; nonce ← decode_field_u256_le x (str "nonce");
    '(x, it) ← next it; to_ ← decode_h160_option x (str "to");
    '(x, it) ← next it; index ← decode_u32 x (str "index");
    '(x, it) ← next it; value ← decode_field_u256_le x (str "value");
    signature ← rlp_decode_opt it;
    Ok (mkObject block_number from gas_used gas_price hash input nonce to_ index value signature))
}.

#[global] Instance L2Block_codec : Codec L2Block := {
  rlp_bytes b := rlp_list [append_u256_le (b_number b); rlp_bytes (Codec := h256_codec) (b_hash b);
    rlp_bytes (Codec := h256_codec) (parent_hash b); rlp_bytes (Codec := bloom_codec) (b_logs_bloom b);
    rlp_value (transactions_root b); rlp_value (state_root b); rlp_value (receipts_root b);
    append_option_explicit (miner b) rlp_value; append_option_explicit (extra_data b) rlp_value;
    append_option_explicit (b_gas_limit b) append_u64_le; rlp_list (map rlp_value (b_transactions b));
    append_u256_le (b_gas_used b); append_timestamp (b_timestamp b)];
  decode decoder := expect_fields 13 decoder (fun it =>
    '(x, it) ← next it; number ← decode_field_u256_le x (str "number");
    '(x, it) ← next it; hash ← decode_field_h256 x (str "hash");
    '(x, it) ← next it; parent_hash ← decode_field_h256 x (str "parent_hash");
    '(x, it) ← next it; logs_bloom ← decode_field (C := bloom_codec) x (str "logs_bloom");
    '(x, it) ← next it; transactions_root ← decode_bytes x (str "transactions_root");
    '(x, it) ← next it; state_root ← decode_bytes x (str "state_root");
    '(x, it) ← next it; receipts_root ← decode_bytes x (str "receipts_root");
    '(x, it) ← next it; miner ← decode_option_explicit x (str "miner") decode_bytes;
    '(x, it) ← next it; extra_data ← decode_option_explicit x (str "extra_data") decode_bytes;
    '(x, it) ← next it; gas_limit ← decode_option_explicit x (str "gas_limit") decode_field_u64_le;
    '(x, it) ← next it; transactions ← decode_transaction_hash_list x (str "transactions");
    '(x, it) ← next it; gas_used ← decode_field_u256_le x (str "gas_used");
    '(x, it) ← next it; timestamp ← decode_timestamp x;
    Ok (mkL2Block number hash parent_hash logs_bloom transactions_root state_root receipts_root miner extra_data gas_limit gas_used
      timestamp transactions))
}.
End codecs.

(** * What the encodings preserve *)

(** Logs are written as one item and read back; a bloom filter has 2048 bits. *)
Class LogLaws {crate : RlpCrate} (lc : LogCrates) := {
  log_ok : Log -> Prop;
  log_law : codec_on log_codec log_ok;
  bloom_default_sized : sized 256 bloom_default;
  bloom_accrue_sized a x : sized 256 a -> sized 256 (bloom_accrue a x);
  bloom_accrue_bloom_sized a b : sized 256 a -> sized 256 b -> sized 256 (bloom_accrue_bloom a b)
}.

Section laws.
Context {crate : RlpCrate} {rlaws : RlpLaws crate} {eth : EthCrates} {elaws : EthLaws eth} {fle : U256FromLe}.
Context {lc : LogCrates} {llaws : LogLaws lc}.

Lemma expect_fields_ok {A} n l (k : list bytes -> decoded A) : Forall item l -> length l = n -> expect_fields n (rlp_list l) k = k l.
Proof.
  intros Hl <-. unfold expect_fields. rewrite rlp_list_is_list, count_is_list, Nat.eqb_refl, rlp_list_iter by done. done.
Qed.

Lemma decode_h160_ok b name : sized 20 b -> decode_field (C := h160_codec) (rlp_bytes (Codec := h160_codec) b) name = Ok b.
Proof. apply decode_field_on, h160_law. Qed.
Lemma decode_bloom_ok b name : sized 256 b -> decode_field (C := bloom_codec) (rlp_bytes (Codec := bloom_codec) b) name = Ok b.
Proof. apply decode_field_on, bloom_law. Qed.
Lemma decode_log_ok l name : log_ok l -> decode_field (C := log_codec) (rlp_bytes (Codec := log_codec) l) name = Ok l.
Proof. apply decode_field_on, log_law. Qed.
Lemma decode_hash_ok h : sized 32 h -> decode_transaction_hash (rlp_value h) = Ok h.
Proof. intros Hh. unfold decode_transaction_hash. rewrite <- h256_value by done. by apply decode_field_h256_ok. Qed.
Lemma decode_hashes_ok hs name : Forall (sized 32) hs -> decode_transaction_hash_list (rlp_list (map rlp_value hs)) name = Ok hs.
Proof.
  intros Hh. unfold decode_transaction_hash_list. rewrite rlp_list_iter by (apply Forall_map, Forall_forall; intros; constructor).
  replace (decode_hashes (map rlp_value hs)) with (Ok (E := DecoderError) hs); [done|]. symmetry. induction Hh as [|h hs Hs Hh IH]; [done|].
  cbn [map decode_hashes]. rewrite <- h256_value by done. rewrite decode_h256_ok by done. cbn [mbind outcome_bind]. by rewrite IH.
Qed.
Lemma decode_type_ok t : decode_transaction_type (append_u8 (u8_of_type t)) = Ok t.
Proof.
  unfold decode_transaction_type. unfold append_u8. rewrite (decode_field_on _ (below 8)) by (apply u8_law || by destruct t). by destruct t.
Qed.
Lemma decode_status_ok t : decode_transaction_status (append_u8 (u8_of_status t)) = Ok t.
Proof.
  unfold decode_transaction_status. unfold append_u8. rewrite (decode_field_on _ (below 8)) by (apply u8_law || by destruct t). by destruct t.
Qed.

(** Optional values that are not empty. *)
Definition not_empty (o : option bytes) : Prop := o <> Some [].
Lemma decode_bytes_option_ok o name : not_empty o -> decode_option_explicit (append_option_explicit o rlp_value) name decode_bytes = Ok o.
Proof.
  intros Ho. unfold decode_option_explicit, append_option_explicit. destruct o as [b|]; rewrite rlp_value_is_empty; [|done].
  rewrite bool_decide_eq_false_2 by (by intros ->). by rewrite decode_bytes_ok.
Qed.
Lemma decode_u64_option_ok o name : match o with Some n => below 64 n | None => True end ->
  decode_option_explicit (append_option_explicit o append_u64_le) name decode_field_u64_le = Ok o.
Proof.
  intros Ho. unfold decode_option_explicit, append_option_explicit. destruct o as [n|]; [|by rewrite rlp_value_is_empty].
  unfold append_u64_le at 1. rewrite rlp_value_is_empty, bool_decide_eq_false_2 by done. by rewrite decode_u64_le_ok.
Qed.
Lemma option_item {A} (o : option A) (f : A -> bytes) : (forall a, item (f a)) -> item (append_option_explicit o f).
Proof. intros Hf. destruct o; [apply Hf|constructor]. Qed.
End laws.

(** Decodes the next field of a block, a receipt or an object. *)
Ltac block_field := cbn [next mbind outcome_bind app];
  first [kernel_field | rewrite decode_h160_ok by done | rewrite decode_bloom_ok by done | rewrite decode_log_ok by done
        | rewrite decode_hash_ok by done | rewrite decode_hashes_ok by done | rewrite decode_type_ok | rewrite decode_status_ok
        | rewrite decode_bytes_option_ok by done | rewrite decode_u64_option_ok by done].
Ltac block_items := forall_elements ltac:(first [assumption | by apply item_value | by apply u256_law | by apply h160_law
  | by apply bloom_law | by apply h256_law | by apply u32_law | by apply log_law | by apply h160_option_item
  | by apply option_item; intros; apply item_value | apply u8_law; by case_match]).

Section values.
Context {crate : RlpCrate} {rlaws : RlpLaws crate} {eth : EthCrates} {elaws : EthLaws eth} {fle : U256FromLe}.
Context {lc : LogCrates} {llaws : LogLaws lc}.

Definition indexed_log_ok (l : IndexedLog) : Prop := log_ok (log l) /\ below 64 (log_index l).
Lemma IndexedLog_law : codec_on IndexedLog_codec indexed_log_ok.
Proof.
  intros [l i] [Hl Hi]. cbn in Hl, Hi. cbn [rlp_bytes decode IndexedLog_codec log log_index].
  assert (Hit : Forall item [rlp_bytes (Codec := log_codec) l; append_u64_le i]) by block_items.
  split; [by constructor|]. rewrite expect_fields_ok by done. repeat block_field. done.
Qed.

Record receipt_ok (r : TransactionReceipt) : Prop := {
  ro_hash : sized 32 (r_hash r); ro_index : below 32 (r_index r); ro_number : below 256 (r_block_number r);
  ro_from : sized 20 (r_from r); ro_to : h160_option_ok (r_to r); ro_cumulative : below 256 (cumulative_gas_used r);
  ro_price : below 256 (effective_gas_price r); ro_gas : below 256 (r_gas_used r); ro_contract : h160_option_ok (contract_address r);
  ro_logs : Forall indexed_log_ok (logs r); ro_bloom : sized 256 (r_logs_bloom r)
}.
Lemma TransactionReceipt_law : codec_on TransactionReceipt_codec receipt_ok.
Proof.
  intros [h i n f t c p g ca ls b ty st] []. cbn in * |-. pose proof (fun name => append_list_ok _ _ ls name IndexedLog_law ro_logs0) as Hls.
  assert (Hli : item (append_list ls)) by apply (Hls []).
  cbn [rlp_bytes decode TransactionReceipt_codec r_hash r_index r_block_number r_from r_to cumulative_gas_used effective_gas_price
    r_gas_used contract_address logs r_logs_bloom r_type status].
  set (l := [rlp_value h; _; _; _; _; _; _; _; _; _; _; _; _]). assert (Hit : Forall item l) by (unfold l, u8_of_type, u8_of_status; block_items).
  split; [by constructor|]. rewrite expect_fields_ok by done. unfold l. repeat block_field. cbn [next mbind outcome_bind].
  rewrite (proj2 (Hls _)). repeat block_field. done.
Qed.

Record object_ok (o : TransactionObject) : Prop := {
  oo_number : below 256 (o_block_number o); oo_from : sized 20 (o_from o); oo_gas : below 256 (o_gas_used o);
  oo_price : below 256 (gas_price o); oo_hash : sized 32 (o_hash o); oo_nonce : below 256 (o_nonce o); oo_to : h160_option_ok (o_to o);
  oo_index : below 32 (o_index o); oo_value : below 256 (o_value o); oo_sig : sig_option_ok (o_signature o)
}.
Lemma TransactionObject_law : codec_on TransactionObject_codec object_ok.
Proof.
  intros [n f g p h ip no t i v sg] []. cbn in * |-. destruct (rlp_append_opt_ok sg oo_sig0) as [Hsi Hsd].
  cbn [rlp_bytes decode TransactionObject_codec o_block_number o_from o_gas_used gas_price o_hash o_input o_nonce o_to o_index o_value o_signature].
  set (l := [append_u256_le n; _; _; _; _; _; _; _; _; _]). assert (Hit : Forall item (l ++ rlp_append_opt sg))
    by (apply Forall_app; split; [unfold l; block_items|done]).
  split; [by constructor|]. rewrite expect_fields_ok by (done || by destruct sg). unfold l. repeat block_field. cbn [next mbind outcome_bind].
  by rewrite Hsd.
Qed.

Record block_ok (b : L2Block) : Prop := {
  bo_number : below 256 (b_number b); bo_hash : sized 32 (b_hash b); bo_parent : sized 32 (parent_hash b);
  bo_bloom : sized 256 (b_logs_bloom b); bo_miner : not_empty (miner b); bo_extra : not_empty (extra_data b);
  bo_gas_limit : match b_gas_limit b with Some n => below 64 n | None => True end; bo_gas : below 256 (b_gas_used b);
  bo_timestamp : is_i64 (b_timestamp b); bo_transactions : Forall (sized 32) (b_transactions b)
}.
Lemma L2Block_law : codec_on L2Block_codec block_ok.
Proof.
  intros [n h ph lb tr sr rr mi ex gl g ts txs] []. cbn in * |-.
  assert (Hti : item (rlp_list (map rlp_value txs))) by (constructor; apply Forall_map, Forall_forall; intros; constructor).
  cbn [rlp_bytes decode L2Block_codec b_number b_hash parent_hash b_logs_bloom transactions_root state_root receipts_root miner extra_data
    b_gas_limit b_transactions b_gas_used b_timestamp].
  set (l := [append_u256_le n; _; _; _; _; _; _; _; _; _; _; _; _]). assert (Hit : Forall item l) by (unfold l; block_items).
  split; [by constructor|]. rewrite expect_fields_ok by done. unfold l. repeat block_field. done.
Qed.
End values.

(** * Properties *)

(** Blocks, receipts and transaction objects survive their encodings, for all values in the range of
    their fields (an optional hash that is present is not empty), whatever logs and transactions they hold. *)
Theorem blocks_survive_encoding {crate : RlpCrate} {rlaws : RlpLaws crate} {eth : EthCrates} {elaws : EthLaws eth} {fle : U256FromLe}
    {lc : LogCrates} {llaws : LogLaws lc} :
  codec_on TransactionReceipt_codec receipt_ok /\ codec_on TransactionObject_codec object_ok /\ codec_on L2Block_codec block_ok.
Proof. split_and!; [apply TransactionReceipt_law|apply TransactionObject_law|apply L2Block_law]. Qed.

Section commitment.
Context {crate : RlpCrate} {rlaws : RlpLaws crate} {hex : HexCrate} {hlaws : HexLaws hex} {secp : Secp} {rfc : Rfc3339}.

Lemma rlp_values_inj l l' : rlp_list (map rlp_value l) = rlp_list (map rlp_value l') -> l = l'.
Proof.
  assert (Hv : forall l, Forall item (map rlp_value l)) by (intros k; apply Forall_map, Forall_forall; intros; constructor).
  intros E. apply (f_equal rlp_iter) in E. rewrite !rlp_list_iter in E by done. revert l' E.
  induction l as [|a l IH]; intros [|b l'] E; try done. injection E as E1 E2. f_equal; [|by apply IH].
  apply (f_equal rlp_data) in E1. rewrite !rlp_value_data in E1. by injection E1.
Qed.
Lemma u256_to_string_inj a b : below 256 a -> below 256 b -> u256_to_string a = u256_to_string b -> a = b.
Proof.
  intros Ha Hb E. assert (Hp : (2 ^ 256 < 10 ^ N.of_nat 78)%N) by (vm_compute; done). unfold below, u256_to_string in *.
  apply (f_equal undecimal) in E. rewrite !undecimal_decimal in E by lia. done.
Qed.
Lemma le_bytes_inj n a b : (a < 256 ^ N.of_nat n)%N -> (b < 256 ^ N.of_nat n)%N -> le_bytes n a = le_bytes n b -> a = b.
Proof. intros Ha Hb E. apply (f_equal of_le_bytes) in E. by rewrite !of_le_bytes_le_bytes in E. Qed.

(** Two different strings with the same hash. *)
Definition collision : Prop := exists x y, x <> y /\ keccak256 x = keccak256 y.

(** The hash of a block commits to its contents.  If two blocks made by [L2Block::new] have the same hash, then
    they have the same parent, roots, bloom filter, number, gas and printed time, or a collision of the hash function
    was found.  (The transactions are committed to through their root.) *)
Theorem block_hash_commits n1 txs1 t1 p1 lb1 tr1 sr1 rr1 g1 n2 txs2 t2 p2 lb2 tr2 sr2 rr2 g2 :
  below 256 n1 -> below 256 n2 -> below 256 g1 -> below 256 g2 ->
  b_hash (L2Block_new n1 txs1 t1 p1 lb1 tr1 sr1 rr1 g1) = b_hash (L2Block_new n2 txs2 t2 p2 lb2 tr2 sr2 rr2 g2) ->
  (p1, lb1, tr1, sr1, rr1, n1, g1) = (p2, lb2, tr2, sr2, rr2, n2, g2) /\ timestamp_to_string t1 = timestamp_to_string t2 \/ collision.
Proof.
  intros Hn1 Hn2 Hg1 Hg2. unfold L2Block_new, block_hash. cbn [b_hash].
  set (x := rlp_list _). set (y := rlp_list (map rlp_value (header p2 _ _ _ _ _ _ _ _ _ _))). intros E.
  destruct (decide (x = y)) as [Exy|]; [left|right; by exists x, y]. apply rlp_values_inj in Exy. unfold header in Exy.
  injection Exy as Ep%hex_inj Esr%hex_inj Etr%hex_inj Err%hex_inj Elb%hex_inj En%hex_inj Eg%hex_inj Et%hex_inj. split; [|done].
  apply (le_bytes_inj 32) in En; [|done..]. apply u256_to_string_inj in Eg; [|done..]. congruence.
Qed.
End commitment.
