(* ===== verification/EvmStore.v ===== *)
(** The durable storage of the Etherlink kernel.

    Models [etherlink/kernel_evm/kernel/src/storage.rs]: typed accessors, blocks, receipts and transaction objects with their
    indexes, and transactions received in chunks.  Logging is left out. *)

From S2P Require Import Prelude Endian SdkNom SdkMichelson KernelPath KernelHost KernelRuntime KernelStorage Rlp EvmStorage EthTypes EthSign EvmTx EthBlock.

Section store.
Context {S : Type} {core : SmartRollupCore S}.
Abbreviation kM := (M S Error).

(** [?] on results of the host and on paths. *)
Definition host {A} (m : M S RuntimeError A) : kM A := M_map_err error_of_runtime m.
Definition paths {A} (o : outcome PathError A) : kM A := lift (map_err error_of_path o).
(** [unwrap_or], [ok]. *)
Definition or_else {E A} (d : A) (m : M S E A) : kM A := o ← M_ok m; mret (default d o).

Definition WORD_SIZE : nat := 32.

(** The buffer is given by its size and initially zero. *)
Definition store_read_slice (path : bytes) (buffer_size expected_size : nat) : kM bytes :=
  '(size, buffer) ← host (KernelHost.store_read_slice path 0 (repeat Byte.x00 buffer_size));
  if size =? expected_size then mret buffer else fail (E_Storage (InvalidLoadValue expected_size size)).

Section u256.
Context {fle : U256FromLe}.
(** [U256::from_little_endian]. *)
Definition from_little_endian (bs : bytes) : kM N := lift (map_err error_of_decoder (u256_from_le bs)).
Definition read_u256 (path : bytes) : kM N := bs ← host (store_read path 0 WORD_SIZE); from_little_endian bs.
End u256.
Definition write_u256 (path : bytes) (value : N) : kM unit := host (store_write path (le_bytes WORD_SIZE value) 0).

(** * Paths *)

Definition STORAGE_VERSION : N := 4.
Definition STORAGE_VERSION_PATH : bytes := str "/storage_version".
Definition KERNEL_VERSION_PATH : bytes := str "/kernel_version".
Definition TICKETER : bytes := str "/ticketer".
Definition ADMIN : bytes := str "/admin".
Definition SEQUENCER_ADMIN : bytes := str "/sequencer_admin".
Definition DELAYED_BRIDGE : bytes := str "/delayed_bridge".
Definition EVM_BLOCK_IN_PROGRESS : bytes := str "/blocks/in_progress".
Definition EVM_CURRENT_BLOCK : bytes := str "/blocks/current".
Definition EVM_BLOCKS : bytes := str "/blocks".
Definition BLOCK_NUMBER : bytes := str "/number".
Definition BLOCK_HASH : bytes := str "/hash".
Definition EVM_TRANSACTIONS_RECEIPTS : bytes := str "/transactions_receipts".
Definition EVM_TRANSACTIONS_OBJECTS : bytes := str "/transactions_objects".
Definition EVM_CHAIN_ID : bytes := str "/chain_id".
Definition EVM_BASE_FEE_PER_GAS : bytes := str "/base_fee_per_gas".
Definition EVM_INFO_PER_LEVEL_TIMESTAMP : bytes := str "/info_per_level/timestamp".
Definition EVM_INFO_PER_LEVEL_STATS_NUMBERS : bytes := str "/info_per_level/stats/numbers".
Definition EVM_INFO_PER_LEVEL_STATS_TOTAL : bytes := str "/info_per_level/stats/total".
Definition SIMULATION_RESULT : bytes := str "/simulation_result".
Definition SIMULATION_STATUS : bytes := str "/simulation_status".
Definition SIMULATION_GAS : bytes := str "/simulation_gas".
Definition DEPOSIT_NONCE : bytes := str "/deposit_nonce".
Definition EVM_INDEXES : bytes := str "/indexes".
Definition ACCOUNTS_INDEX : bytes := str "/accounts".
Definition BLOCKS_INDEX : bytes := EVM_BLOCKS.
Definition TRANSACTIONS_INDEX : bytes := str "/transactions".
Definition SEQUENCER : bytes := str "/sequencer".

Section hex.
Context {hex : HexCrate}.
(** A path whose last step is written in hexadecimal. *)
Definition hex_path (base hash : bytes) : outcome PathError bytes :=
  hash_path ← try_from (str "/" ++ hex_encode hash); concat base hash_path.
Definition block_path (hash : bytes) : kM bytes := paths (hex_path EVM_BLOCKS hash).
Definition receipt_path (receipt_hash : bytes) : kM bytes := paths (hex_path EVM_TRANSACTIONS_RECEIPTS receipt_hash).
Definition object_path (object_hash : bytes) : kM bytes := paths (hex_path EVM_TRANSACTIONS_OBJECTS object_hash).
End hex.

(** * Indexes *)

(** [IndexableStorage::new] is its path. *)
Definition init_account_index : kM bytes := paths (concat EVM_INDEXES ACCOUNTS_INDEX).
Definition init_blocks_index : kM bytes := paths (concat EVM_INDEXES BLOCKS_INDEX).
Definition init_transaction_hashes_index : kM bytes := paths (concat EVM_INDEXES TRANSACTIONS_INDEX).
Definition index_block (block_hash blocks_index : bytes) : kM unit := M_map_err E_Storage (push_value blocks_index block_hash).
Definition index_transaction_hash (transaction_hash transaction_hashes_index : bytes) : kM unit :=
  M_map_err E_Storage (push_value transaction_hashes_index transaction_hash).

(** * Blocks *)

Section blocks.
Context {crate : RlpCrate} {hex : HexCrate} {eth : EthCrates} {fle : U256FromLe} {lc : LogCrates}.

Definition read_current_block_number : kM N :=
  path ← paths (concat EVM_CURRENT_BLOCK BLOCK_NUMBER);
  buffer ← store_read_slice path 8 8;
  from_little_endian buffer.
Definition read_current_block_hash : kM bytes :=
  path ← paths (concat EVM_CURRENT_BLOCK BLOCK_HASH);
  store_read_slice path 32 32.
Definition read_current_block : kM L2Block :=
  hash ← read_current_block_hash;
  block_path ← block_path hash;
  read_rlp block_path.

Definition store_current_block_number_and_hash (block_path : bytes) (block_number : N) (block_hash : bytes) : kM unit :=
  number_path ← paths (concat block_path BLOCK_NUMBER);
  hash_path ← paths (concat block_path BLOCK_HASH);
  _ ← host (store_write number_path (le_bytes 32 block_number) 0);
  host (store_write hash_path block_hash 0).
Definition store_block (block : L2Block) (block_path : bytes) : kM unit :=
  index ← init_blocks_index;
  _ ← index_block (b_hash block) index;
  store_rlp block block_path.
Definition store_block_by_hash (block : L2Block) : kM unit :=
  block_path ← block_path (b_hash block); store_block block block_path.
Definition store_current_block (block : L2Block) : kM unit :=
  _ ← store_current_block_number_and_hash EVM_CURRENT_BLOCK (b_number block) (b_hash block);
  store_block_by_hash block.

(** The size of what was stored. *)
Definition store_transaction_receipt (receipt : TransactionReceipt) : kM N :=
  transaction_hashes_index ← init_transaction_hashes_index;
  _ ← index_transaction_hash (r_hash receipt) transaction_hashes_index;
  receipt_path ← receipt_path (r_hash receipt);
  let src := rlp_bytes receipt in
  _ ← host (store_write_all receipt_path src);
  mret (N.of_nat (length src)).
Definition store_transaction_object (object : TransactionObject) : kM N :=
  object_path ← object_path (o_hash object);
  let encoded := rlp_bytes object in
  _ ← host (store_write_all object_path encoded);
  mret (N.of_nat (length encoded)).

Definition store_simulation_result (result : option bytes) : kM unit :=
  match result with Some result => host (store_write SIMULATION_RESULT result 0) | None => mret tt end.
Definition store_evaluation_gas (result : N) : kM unit := write_u256 SIMULATION_GAS result.
Definition store_simulation_status (result : bool) : kM unit :=
  host (store_write SIMULATION_STATUS [if result then Byte.x01 else Byte.x00] 0).
End blocks.

(** * Chunked transactions *)

Section chunks.
Context {hex : HexCrate}.

Definition CHUNKED_TRANSACTIONS : bytes := str "/chunked_transactions".
Definition CHUNKED_TRANSACTION_NUM_CHUNKS : bytes := str "/num_chunks".
Definition CHUNKED_HASHES : bytes := str "/chunk_hashes".

Definition chunked_transaction_path (tx_hash : bytes) : kM bytes := paths (hex_path CHUNKED_TRANSACTIONS tx_hash).
Definition chunked_transaction_num_chunks_path (chunked_transaction_path : bytes) : kM bytes :=
  paths (concat chunked_transaction_path CHUNKED_TRANSACTION_NUM_CHUNKS).
Definition chunked_hash_transaction_path (chunked_hash chunked_transaction_path : bytes) : kM bytes :=
  paths (chunked_hash_path ← hex_path CHUNKED_HASHES chunked_hash; concat chunked_transaction_path chunked_hash_path).
Definition transaction_chunk_path (chunked_transaction_path : bytes) (i : N) : kM bytes :=
  paths (i_path ← try_from (str "/" ++ decimal 5 i); concat chunked_transaction_path i_path).

(** [as u16]; [num_chunks + 2] wraps at [2^16]. *)
Definition is_transaction_complete (chunked_transaction_path : bytes) (num_chunks : N) : kM bool :=
  n_subkeys ← host (store_count_subkeys chunked_transaction_path);
  mret ((num_chunks + 2) mod 2 ^ 16 <=? N.of_nat n_subkeys mod 2 ^ 16)%N.

Definition chunked_transaction_num_chunks_by_path (chunked_transaction_path : bytes) : kM N :=
  path ← chunked_transaction_num_chunks_path chunked_transaction_path;
  buffer ← store_read_slice path 2 2;
  mret (of_le_bytes buffer).
Definition chunked_transaction_num_chunks (tx_hash : bytes) : kM N :=
  chunked_transaction_path ← chunked_transaction_path tx_hash;
  chunked_transaction_num_chunks_by_path chunked_transaction_path.

Definition store_transaction_chunk_data (transaction_chunk_path data : bytes) : kM unit :=
  kind ← host (store_has transaction_chunk_path);
  match kind with
  | Some (Value | ValueWithSubtree) => mret tt
  | _ =>
      if MAX_FILE_CHUNK_SIZE <? length data then
        let data1 := take MAX_FILE_CHUNK_SIZE data in
        let data2 := drop MAX_FILE_CHUNK_SIZE data in
        _ ← host (store_write transaction_chunk_path data1 0);
        host (store_write transaction_chunk_path data2 MAX_FILE_CHUNK_SIZE)
      else host (store_write transaction_chunk_path data 0)
  end.

Definition read_transaction_chunk_data (transaction_chunk_path : bytes) : kM bytes :=
  data_size ← host (store_value_size transaction_chunk_path);
  if MAX_FILE_CHUNK_SIZE <? data_size then
    data1 ← host (store_read transaction_chunk_path 0 MAX_FILE_CHUNK_SIZE);
    data2 ← host (store_read transaction_chunk_path MAX_FILE_CHUNK_SIZE MAX_FILE_CHUNK_SIZE);
    mret (data1 ++ data2)
  else host (store_read transaction_chunk_path 0 MAX_FILE_CHUNK_SIZE).

(** [for i in i..num_chunks]. *)
Fixpoint get_chunks (chunked_transaction_path : bytes) (ixs : list N) (buffer : bytes) : kM bytes :=
  match ixs with
  | [] => mret buffer
  | i :: ixs =>
      transaction_chunk_path ← transaction_chunk_path chunked_transaction_path i;
      data ← read_transaction_chunk_data transaction_chunk_path;
      get_chunks chunked_transaction_path ixs (buffer ++ data)
  end.
Definition indices (n : N) : list N := map N.of_nat (seq 0 (N.to_nat n)).
Definition get_full_transaction (chunked_transaction_path : bytes) (num_chunks : N) : kM bytes :=
  get_chunks chunked_transaction_path (indices num_chunks) [].

Definition remove_chunked_transaction_by_path (path : bytes) : kM unit := host (store_delete path).
Definition remove_chunked_transaction (tx_hash : bytes) : kM unit :=
  chunked_transaction_path ← chunked_transaction_path tx_hash;
  remove_chunked_transaction_by_path chunked_transaction_path.

Definition store_transaction_chunk (tx_hash : bytes) (i : N) (data : bytes) : kM (option bytes) :=
  chunked_transaction_path ← chunked_transaction_path tx_hash;
  num_chunks ← chunked_transaction_num_chunks_by_path chunked_transaction_path;
  transaction_chunk_path ← transaction_chunk_path chunked_transaction_path i;
  _ ← store_transaction_chunk_data transaction_chunk_path data;
  complete ← is_transaction_complete chunked_transaction_path num_chunks;
  if (complete : bool) then
    data ← get_full_transaction chunked_transaction_path num_chunks;
    _ ← host (store_delete chunked_transaction_path);
    mret (Some data)
  else mret None.

Fixpoint write_chunk_hashes (chunked_transaction_path : bytes) (chunk_hashes : list bytes) : kM unit :=
  match chunk_hashes with
  | [] => mret tt
  | chunk_hash :: chunk_hashes =>
      chunk_hash_path ← chunked_hash_transaction_path chunk_hash chunked_transaction_path;
      _ ← host (store_write chunk_hash_path [Byte.x00] 0);
      write_chunk_hashes chunked_transaction_path chunk_hashes
  end.
Definition create_chunked_transaction (tx_hash : bytes) (num_chunks : N) (chunk_hashes : list bytes) : kM unit :=
  chunked_transaction_path ← chunked_transaction_path tx_hash;
  count ← or_else 0 (store_count_subkeys chunked_transaction_path);
  if 0 <? count then mret tt
  else
    num_chunks_path ← chunked_transaction_num_chunks_path chunked_transaction_path;
    _ ← host (store_write num_chunks_path (le_bytes 2 num_chunks) 0);
    write_chunk_hashes chunked_transaction_path chunk_hashes.
End chunks.

(** * Parameters of the chain *)

Section parameters.
Context {fle : U256FromLe} {b58 : Base58Crate}.

Definition store_chain_id (chain_id : N) : kM unit := write_u256 EVM_CHAIN_ID chain_id.
Definition read_chain_id : kM N := read_u256 EVM_CHAIN_ID.
Definition store_base_fee_per_gas (base_fee_per_gas : N) : kM unit := write_u256 EVM_BASE_FEE_PER_GAS base_fee_per_gas.
Definition read_base_fee_per_gas : kM N := read_u256 EVM_BASE_FEE_PER_GAS.

Definition store_timestamp_path (path : bytes) (timestamp : Z) : kM unit := host (store_write path (i64_le_bytes timestamp) 0).
Definition read_timestamp_path (path : bytes) : kM Z := buffer ← store_read_slice path 8 8; mret (i64_of_le_bytes buffer).
Definition read_last_info_per_level_timestamp : kM Z := read_timestamp_path EVM_INFO_PER_LEVEL_TIMESTAMP.
Definition read_last_info_per_level_timestamp_stats : kM (Z * Z) :=
  buffer ← store_read_slice EVM_INFO_PER_LEVEL_STATS_NUMBERS 8 8;
  let numbers := i64_of_le_bytes buffer in
  buffer ← store_read_slice EVM_INFO_PER_LEVEL_STATS_TOTAL 8 8;
  mret (numbers, i64_of_le_bytes buffer).
(** Sums of [i64] wrap: [i64_le_bytes] takes them modulo [2^64]. *)
Definition store_info_per_level_stats (new_timestamp : Z) : kM unit :=
  old_timestamp ← or_else 0%Z read_last_info_per_level_timestamp;
  let diff := (new_timestamp - old_timestamp)%Z in
  '(numbers, total) ← or_else (0, 0)%Z read_last_info_per_level_timestamp_stats;
  let total := (total + diff)%Z in
  let numbers := (numbers + 1)%Z in
  _ ← host (store_write EVM_INFO_PER_LEVEL_STATS_TOTAL (i64_le_bytes total) 0);
  host (store_write EVM_INFO_PER_LEVEL_STATS_NUMBERS (i64_le_bytes numbers) 0).
Definition store_last_info_per_level_timestamp (timestamp : Z) : kM unit :=
  _ ← store_timestamp_path EVM_INFO_PER_LEVEL_TIMESTAMP timestamp;
  store_info_per_level_stats timestamp.

(** [.ok()] of a result. *)
Definition ok_lift {E A} (o : outcome E A) : kM (option A) := M_ok (lift o).
(** [Option]: errors are dropped. *)
Definition read_b58_kt1 (path : bytes) : kM (option bytes) :=
  buffer ← M_ok (store_read_slice path 36 36);
  match buffer with
  | Some buffer => if utf8_valid buffer then ok_lift (hash_from_b58check ContractKt1Hash buffer) else mret None
  | None => mret None
  end.
Definition read_ticketer : kM (option bytes) := read_b58_kt1 TICKETER.
Definition read_admin : kM (option bytes) := read_b58_kt1 ADMIN.
Definition read_sequencer_admin : kM (option bytes) := read_b58_kt1 SEQUENCER_ADMIN.
Definition read_delayed_transaction_bridge : kM (option bytes) := read_b58_kt1 DELAYED_BRIDGE.

(** [nonce + 1] wraps at [2^32]. *)
Definition get_and_increment_deposit_nonce : kM N :=
  bs ← M_ok (store_read_all DEPOSIT_NONCE);
  let nonce := match bs with Some bs => if length bs =? 4 then of_le_bytes bs else 0%N | None => 0%N end in
  _ ← host (store_write_all DEPOSIT_NONCE (le_bytes 4 ((nonce + 1) mod 2 ^ 32)%N));
  mret nonce.

Definition store_storage_version (storage_version : N) : kM unit := host (store_write_all STORAGE_VERSION_PATH (le_bytes 8 storage_version)).
Definition read_storage_version : kM N :=
  bs ← host (store_read_all STORAGE_VERSION_PATH);
  if length bs =? 8 then mret (of_le_bytes bs) else fail InvalidConversion.
Definition read_kernel_version : kM bytes :=
  bs ← host (store_read_all KERNEL_VERSION_PATH);
  if utf8_valid bs then mret bs else fail InvalidConversion.
Definition store_kernel_version (kernel_version : bytes) : kM unit := host (store_write_all KERNEL_VERSION_PATH kernel_version).

Definition sequencer : kM (option PublicKey) :=
  kind ← host (store_has SEQUENCER);
  match kind with
  | Some _ => bs ← host (store_read_all SEQUENCER); if utf8_valid bs then ok_lift (public_key_from_b58check bs) else mret None
  | None => mret None
  end.
Definition store_sequencer (public_key : PublicKey) : kM unit := host (store_write_all SEQUENCER (public_key_to_b58check public_key)).
End parameters.
End store.
