(* ===== verification/EvmChunks.v ===== *)
(** Transactions received in chunks.

    Models [handle_transaction_chunk] of [etherlink/kernel_evm/kernel/src/inbox.rs] and shows that, with the functions of
    [EvmStore], it assembles transactions: a refinement of a map from the hashes of announced transactions to the chunks
    received so far, whatever the messages and their order, on any lawful host. *)

From S2P Require Import Prelude Endian KernelPath KernelHost KernelRuntime KernelStorage Rlp EvmStorage EthTypes EthSign EvmTx EvmStore.

Definition MAX_SIZE_PER_CHUNK : nat := 4095 - 1 - 20 - 1 - 2 - 32 - 32.

(** The messages of the inbox about chunked transactions ([Input::NewChunkedTransaction], [Input::TransactionChunk]). *)
Inductive ChunkInput : Set :=
  | NewChunkedTransaction (tx_hash : bytes) (num_chunks : N) (chunk_hashes : list bytes)
  | TransactionChunk (tx_hash : bytes) (i : N) (chunk_hash data : bytes).

Section code.
Context {S : Type} {core : SmartRollupCore S} {crate : RlpCrate} {eth : EthCrates} {secp : Secp} {hex : HexCrate}.
Abbreviation kM := (M S Error).

(** The transaction, if its bytes have the announced hash and are valid. *)
Definition check_full_transaction (tx_hash data : bytes) : option Transaction :=
  if bool_decide (keccak256 data = tx_hash) then
    match from_bytes data with Ok tx => Some (mkTransaction tx_hash (Ethereum tx)) | _ => None end
  else None.

Definition handle_transaction_chunk (tx_hash : bytes) (i : N) (chunk_hash data : bytes) : kM (option Transaction) :=
  num_chunks ← M_ok (chunked_transaction_num_chunks tx_hash);
  match num_chunks with
  | None => mret None
  | Some num_chunks =>
      if (num_chunks <=? i)%N then mret None
      else
        path ← chunked_transaction_path tx_hash;
        chunk_hash_path ← chunked_hash_transaction_path chunk_hash path;
        announced ← M_ok (store_read chunk_hash_path 0 0);
        match announced with
        | None => mret None
        | Some _ =>
            if negb (i =? num_chunks - 1)%N && (length data <? MAX_SIZE_PER_CHUNK) then
              _ ← remove_chunked_transaction tx_hash; mret None
            else
              full ← store_transaction_chunk tx_hash i data;
              mret (data ← full; check_full_transaction tx_hash data)
        end
  end.

(** The branches of [read_inbox]: the transactions are pushed in order. *)
Definition handle_chunk_input (m : ChunkInput) : kM (option Transaction) :=
  match m with
  | NewChunkedTransaction tx_hash num_chunks chunk_hashes => _ ← create_chunked_transaction tx_hash num_chunks chunk_hashes; mret None
  | TransactionChunk tx_hash i chunk_hash data => handle_transaction_chunk tx_hash i chunk_hash data
  end.
Fixpoint handle_chunk_inputs (ms : list ChunkInput) : kM (list Transaction) :=
  match ms with
  | [] => mret []
  | m :: ms => tx ← handle_chunk_input m; txs ← handle_chunk_inputs ms; mret (match tx with Some tx => tx :: txs | None => txs end)
  end.
End code.

(** * Specification *)

Record pending : Set := mkPending { p_num : N; p_hashes : list bytes; p_chunks : gmap N bytes }.

Section spec.
Context {crate : RlpCrate} {eth : EthCrates} {secp : Secp}.
Implicit Types (st : gmap bytes pending).

(** The chunks in order. *)
Definition assemble (p : pending) : bytes := mjoin (map (fun i => default [] (p_chunks p !! i)) (indices (p_num p))).
Definition complete (p : pending) : bool := bool_decide (size (p_chunks p) = N.to_nat (p_num p)).
(** The first chunk received for an index stays. *)
Definition add_chunk (i : N) (data : bytes) (p : pending) : pending :=
  mkPending (p_num p) (p_hashes p) (match p_chunks p !! i with Some _ => p_chunks p | None => <[i := data]> (p_chunks p) end).

Definition spec_input (m : ChunkInput) st : option Transaction * gmap bytes pending :=
  match m with
  | NewChunkedTransaction h n hs => (None, match st !! h with Some _ => st | None => <[h := mkPending n hs ∅]> st end)
  | TransactionChunk h i ch data =>
      match st !! h with
      | None => (None, st)
      | Some p =>
          if (p_num p <=? i)%N || negb (bool_decide (ch ∈ p_hashes p)) then (None, st)
          else if negb (i =? p_num p - 1)%N && (length data <? MAX_SIZE_PER_CHUNK) then (None, base.delete h st)
          else let p := add_chunk i data p in
            if complete p then (check_full_transaction h (assemble p), base.delete h st) else (None, <[h := p]> st)
      end
  end.
Fixpoint spec_inputs (ms : list ChunkInput) st : list Transaction * gmap bytes pending :=
  match ms with
  | [] => ([], st)
  | m :: ms =>
      let '(tx, st) := spec_input m st in
      let '(txs, st) := spec_inputs ms st in
      (match tx with Some tx => tx :: txs | None => txs end, st)
  end.

(** What parsing a message of at most 4096 bytes gives. *)
Definition input_ok (m : ChunkInput) : Prop :=
  match m with
  | NewChunkedTransaction h n hs => sized 32 h /\ below 15 n /\ N.of_nat (length hs) = n /\ Forall (sized 32) hs
  | TransactionChunk h i ch data => sized 32 h /\ below 16 i /\ sized 32 ch /\ length data <= 4096
  end.
End spec.

(** * Paths *)

Section paths.
Context {hex : HexCrate} {hlaws : HexLaws hex}.

Definition NUM : bytes := str "num_chunks".
Definition HASHES : bytes := str "chunk_hashes".
Definition base (h : bytes) : list bytes := [str "chunked_transactions"; hex_encode h].
Definition cpath (h : bytes) : bytes := CHUNKED_TRANSACTIONS ++ render [hex_encode h].

Lemma word_step (w : bytes) : w <> [] -> forallb is_allowed_step_byte w = true -> step_ok w.
Proof. intros Hw Ha. split; [done|]. rewrite forallb_forall in Ha. apply Forall_forall. intros b Hb. apply Ha. by apply list_elem_of_In. Qed.
Lemma decimal_fuel_step fuel n : step_ok (decimal (S fuel) n).
Proof.
  split; [|apply decimal_allowed]. cbn [decimal]. destruct (_ <? _)%N; [done|]. intros E. by destruct (app_cons_not_nil _ _ _ (eq_sym E)).
Qed.
Lemma decimal_step n : step_ok (decimal 5 n).
Proof. apply decimal_fuel_step. Qed.
Lemma decimal_5 n : below 16 n -> (n < 10 ^ N.of_nat 5)%N.
Proof. unfold below. intros H. assert ((2 ^ 16 < 10 ^ N.of_nat 5)%N) by (vm_compute; done). lia. Qed.
Lemma decimal_inj i j : below 16 i -> below 16 j -> decimal 5 i = decimal 5 j -> i = j.
Proof. intros Hi%decimal_5 Hj%decimal_5 E. apply (f_equal undecimal) in E. by rewrite !undecimal_decimal in E. Qed.
Lemma decimal_not_word w i : below 16 i -> bool_decide (decimal 5 (undecimal w) = w) = false -> decimal 5 i <> w.
Proof. intros Hi%decimal_5 Hw E. subst w. rewrite undecimal_decimal in Hw by done. by rewrite bool_decide_eq_true_2 in Hw. Qed.
Lemma decimal_not_NUM i : below 16 i -> decimal 5 i <> NUM.
Proof. intros Hi. by apply decimal_not_word. Qed.
Lemma decimal_not_HASHES i : below 16 i -> decimal 5 i <> HASHES.
Proof. intros Hi. by apply decimal_not_word. Qed.

Lemma hex_render h : render [hex_encode h] = str "/" ++ hex_encode h.
Proof. cbn. by rewrite app_nil_r. Qed.

Lemma hex_path_ok b h : path_ok b -> h <> [] -> length b + 1 + 2 * length h <= PATH_MAX_SIZE ->
  hex_path b h = Ok (b ++ render [hex_encode h]) /\ path_ok (b ++ render [hex_encode h]) /\
  path_steps (b ++ render [hex_encode h]) = path_steps b ++ [hex_encode h].
Proof.
  intros Hb Hh Hl. destruct (concat_render b [hex_encode h]) as (H1&H2&H3&H4); [done| | |rewrite hex_render, length_app, hex_length; change (length (str "/")) with 1; lia|].
  - split; [done|]. constructor; [by apply hex_encode_step|done].
  - intros [= E]. by apply hex_not_readonly in E.
  - split_and!; [|done..]. unfold hex_path, try_from. rewrite <- hex_render. apply validate_path_spec in H1. rewrite H1. cbn [mbind outcome_bind].
    by rewrite H2.
Qed.

Lemma cpath_ok h : sized 32 h -> hex_path CHUNKED_TRANSACTIONS h = Ok (cpath h) /\ path_ok (cpath h) /\ path_steps (cpath h) = base h /\
  length (cpath h) = 86.
Proof.
  intros Hh. unfold sized in Hh. destruct (hex_path_ok CHUNKED_TRANSACTIONS h) as (H1&H2&H3).
  - by apply validate_path_spec.
  - by intros ->.
  - rewrite Hh. vm_compute. lia.
  - split_and!; [done..|]. unfold cpath. rewrite length_app, hex_render, length_app, hex_length, Hh. done.
Qed.

(** Paths below that of a transaction. *)
Lemma below_cpath h steps : sized 32 h -> steps_ok steps -> ~ readonly steps -> length (render steps) <= 100 ->
  path_ok (render steps) /\ concat (cpath h) (render steps) = Ok (cpath h ++ render steps) /\ path_ok (cpath h ++ render steps) /\
  path_steps (cpath h ++ render steps) = base h ++ steps.
Proof.
  intros Hh Hs Hr Hl. destruct (cpath_ok h Hh) as (_&Hp&<-&Hlen). apply concat_render; [done..|]. rewrite Hlen. change PATH_MAX_SIZE with 242. lia.
Qed.

Section code.
Context {S : Type} {core : SmartRollupCore S}.
Implicit Types (s : S).

Lemma chunked_transaction_path_eq h s : sized 32 h -> chunked_transaction_path h s = (Ok (cpath h), s).
Proof. intros Hh. unfold chunked_transaction_path, paths, lift. by destruct (cpath_ok h Hh) as (->&_). Qed.

Definition num_path h : bytes := cpath h ++ render [NUM].
Lemma num_path_ok h : sized 32 h -> path_ok (num_path h) /\ path_steps (num_path h) = base h ++ [NUM] /\
  forall s, chunked_transaction_num_chunks_path (cpath h) s = (Ok (num_path h), s).
Proof.
  intros Hh. destruct (below_cpath h [NUM] Hh) as (_&Hc&H2&H3); [split; [done|repeat constructor; by apply word_step]|done|vm_compute; lia|].
  split_and!; [done..|]. intros s. unfold chunked_transaction_num_chunks_path, paths, lift.
  change CHUNKED_TRANSACTION_NUM_CHUNKS with (render [NUM]). by rewrite Hc.
Qed.

Definition hash_path h ch : bytes := cpath h ++ render [HASHES; hex_encode ch].
Lemma hash_path_ok h ch : sized 32 h -> sized 32 ch -> path_ok (hash_path h ch) /\
  path_steps (hash_path h ch) = base h ++ [HASHES; hex_encode ch] /\
  forall s, chunked_hash_transaction_path ch (cpath h) s = (Ok (hash_path h ch), s).
Proof.
  intros Hh Hch. unfold sized in Hch. destruct (hex_path_ok CHUNKED_HASHES ch) as (H1&_&_);
    [by apply validate_path_spec|by intros ->|rewrite Hch; vm_compute; lia|].
  assert (Er : CHUNKED_HASHES ++ render [hex_encode ch] = render [HASHES; hex_encode ch]) by done. rewrite Er in H1.
  destruct (below_cpath h [HASHES; hex_encode ch] Hh) as (_&Hc&H2&H3).
  - split; [done|]. constructor; [by apply word_step|]. constructor; [apply hex_encode_step; by intros ->|done].
  - done.
  - rewrite <- Er, length_app, hex_render, length_app, hex_length, Hch. vm_compute. lia.
  - split_and!; [done..|]. intros s. unfold chunked_hash_transaction_path, paths, lift. rewrite H1. cbn [mbind outcome_bind]. by rewrite Hc.
Qed.

Definition chunk_path h i : bytes := cpath h ++ render [decimal 5 i].
Lemma chunk_path_ok h i : sized 32 h -> below 16 i -> path_ok (chunk_path h i) /\ path_steps (chunk_path h i) = base h ++ [decimal 5 i] /\
  forall s, transaction_chunk_path (cpath h) i s = (Ok (chunk_path h i), s).
Proof.
  intros Hh Hi. assert (Er : render [decimal 5 i] = str "/" ++ decimal 5 i) by (cbn [render map]; cbn -[decimal]; by rewrite app_nil_r).
  destruct (below_cpath h [decimal 5 i] Hh) as (H1&Hc&H2&H3).
  - split; [done|]. constructor; [apply decimal_step|done].
  - unfold readonly. cbn [head]. intros E. assert (E' : decimal 5 i = str "readonly") by congruence. revert E'. by apply decimal_not_word.
  - rewrite Er, length_app. pose proof (length_decimal 5 5 i (decimal_5 i Hi) ltac:(lia)). change (length (str "/")) with 1. lia.
  - split_and!; [done..|]. intros s. unfold transaction_chunk_path, paths, lift, try_from. rewrite <- Er.
    apply validate_path_spec in H1. rewrite H1. cbn [mbind outcome_bind]. by rewrite Hc.
Qed.
End code.
End paths.

(** * The storage of pending transactions *)

Record pending_ok (p : pending) : Prop := {
  po_num : below 15 (p_num p);
  po_length : N.of_nat (length (p_hashes p)) = p_num p;
  po_hashes : Forall (sized 32) (p_hashes p);
  po_chunks i d : p_chunks p !! i = Some d -> (i < p_num p)%N /\ length d <= 4096
}.

Section storage.
Context {crate : RlpCrate} {eth : EthCrates} {secp : Secp} {hex : HexCrate} {hlaws : HexLaws hex}.
Context {S : Type} {core : SmartRollupCore S} {laws : CoreLaws S}.
Implicit Types (s : S) (h ch : bytes) (p : pending) (st : gmap bytes pending).

Record holds s h p : Prop := {
  ho_base : c_value s (base h) = None;
  ho_num : c_value s (base h ++ [NUM]) = Some (le_bytes 2 (p_num p));
  ho_hash ch : sized 32 ch -> is_Some (c_value s (base h ++ [HASHES; hex_encode ch])) <-> ch ∈ p_hashes p;
  ho_chunk i : below 16 i -> c_value s (base h ++ [decimal 5 i]) = p_chunks p !! i;
  ho_nodes x : c_node s (base h ++ [x]) -> x = NUM \/ x = HASHES \/ exists i, below 16 i /\ x = decimal 5 i /\ is_Some (p_chunks p !! i)
}.
Definition holds_option s h (o : option pending) : Prop :=
  match o with Some p => holds s h p /\ pending_ok p | None => forall r, ~ c_node s (base h ++ r) end.
Definition represents s st : Prop := c_ok s /\ forall h, sized 32 h -> holds_option s h (st !! h).

(** Nothing changed below the path of [h], but for nodes that may be gone. *)
Definition same_below s s' h : Prop :=
  (forall r, c_value s' (base h ++ r) = c_value s (base h ++ r)) /\ (forall r, c_node s' (base h ++ r) -> c_node s (base h ++ r)).
Lemma holds_same s s' h o : same_below s s' h -> holds_option s h o -> holds_option s' h o.
Proof.
  intros [Hv Hn]. destruct o as [p|]; cbn [holds_option].
  - intros [[] Hok]. split; [|done]. pose proof (Hv []) as Hv0. rewrite app_nil_r in Hv0. split; intros; rewrite ?Hv, ?Hv0; eauto.
  - intros H r Hr. by apply (H r), Hn.
Qed.
Lemma represents_update s s' st h (o : option pending) : sized 32 h -> represents s st -> c_ok s' ->
  (forall h', h' <> h -> same_below s s' h') -> holds_option s' h o -> represents s' (partial_alter (fun _ => o) h st).
Proof.
  intros Hh [_ Hst] Hs' Hsame Ho. split; [done|]. intros h' Hh'. destruct (decide (h' = h)) as [->|Hne].
  - by rewrite lookup_partial_alter_eq.
  - rewrite lookup_partial_alter_ne by done. eapply holds_same; [by apply Hsame|by apply Hst].
Qed.

Lemma base_inj h h' r r' : base h ++ r = base h' ++ r' -> h = h' /\ r = r'.
Proof. intros [= E ->]. by apply hex_inj in E. Qed.
Lemma prefix_base h h' r r' : base h ++ r `prefix_of` base h' ++ r' -> h = h' /\ r `prefix_of` r'.
Proof. intros [k E]. rewrite <- app_assoc in E. apply base_inj in E as [-> ->]. split; [done|by exists k]. Qed.

(** A value was written at [q]. *)
Definition wrote s (q : list bytes) (v : bytes) s' : Prop :=
  c_ok s' /\ (forall x, c_value s' x = if bool_decide (x = q) then Some v else c_value s x) /\
  (forall x, c_node s' x -> c_node s x \/ x `prefix_of` q).
Lemma wrote_same s h r v s' h' : wrote s (base h ++ r) v s' -> h' <> h -> same_below s s' h'.
Proof.
  intros (_&Hv&Hn) Hne. split; intros x.
  - rewrite Hv, bool_decide_eq_false_2; [done|]. by intros [? _]%base_inj.
  - intros [H|[? _]%prefix_base]%Hn; [done|]. by destruct Hne.
Qed.

(** Nothing changed but below the paths of transactions in chunks. *)
Definition kept s s' : Prop := forall q, (forall h r, q <> base h ++ r) -> c_value s' q = c_value s q.
Lemma kept_refl s : kept s s.
Proof. by intros q. Qed.
Lemma kept_trans s1 s2 s3 : kept s1 s2 -> kept s2 s3 -> kept s1 s3.
Proof. intros H1 H2 q Hq. by rewrite H2, H1. Qed.
Lemma wrote_kept s h r v s' : wrote s (base h ++ r) v s' -> kept s s'.
Proof. intros (_&Hv&_) q Hq. rewrite Hv, bool_decide_eq_false_2; [done|]. apply Hq. Qed.

Lemma host_ok {A} (m : M S RuntimeError A) s a s' : m s = (Ok a, s') -> host m s = (Ok a, s').
Proof. intros E. unfold host, M_map_err. by rewrite E. Qed.
Lemma host_store_write s q (path v : bytes) off : c_ok s -> path_ok path -> path_steps path = q ->
  off <= length (default [] (c_value s q)) -> size_ok (off + length v) ->
  exists s', host (store_write path v off) s = (Ok tt, s') /\ wrote s q (patch (default [] (c_value s q)) off v) s'.
Proof.
  intros Hs Hp <- Ho Hz. destruct (store_write_spec s path v off) as (s'&Hw&Hok&Hv); [done..|]. exists s'.
  split; [by apply host_ok|]. split_and!; [done..|]. intros x Hx. apply (store_write_nodes s path v off); [done|]. by rewrite Hw.
Qed.
Lemma host_store_write_new s q (path v : bytes) : c_ok s -> path_ok path -> path_steps path = q -> c_value s q = None -> size_ok (length v) ->
  exists s', host (store_write path v 0) s = (Ok tt, s') /\ wrote s q v s'.
Proof.
  intros Hs Hp Hq Hv Hz. destruct (host_store_write s q path v 0) as (s'&Hw&H); [done..|lia|done|]. exists s'. split; [done|].
  rewrite Hv in H. cbn -[patch] in H. by rewrite patch_0 in H.
Qed.

(** ** Reading *)

Lemma read_slice_take s path v n : c_ok s -> path_ok path -> c_value s (path_steps path) = Some v -> n <= length v -> n <= MAX_FILE_CHUNK_SIZE ->
  store_read_slice path n n s = (Ok (take n v), s).
Proof.
  intros Hs Hp Hv Hl Hn. unfold store_read_slice, mbind, M_bind.
  assert (E : KernelHost.store_read_slice path 0 (repeat Byte.x00 n) s = (Ok (n, take n v), s)).
  { unfold KernelHost.store_read_slice. rewrite repeat_length, (c_read s path 0 n v) by (done || lia). cbn zeta.
    replace (MAX_FILE_CHUNK_SIZE `min` (n `min` (length v - 0))) with n by lia. unfold host_result. rewrite wrap_nat. cbn [map_err mbind outcome_bind].
    unfold slice. rewrite drop_0, drop_ge, app_nil_r by (rewrite repeat_length, length_take; lia). done. }
  rewrite (host_ok _ _ _ _ E). by rewrite Nat.eqb_refl.
Qed.
Lemma read_slice_ok s path v n : c_ok s -> path_ok path -> c_value s (path_steps path) = Some v -> length v = n -> n <= MAX_FILE_CHUNK_SIZE ->
  store_read_slice path n n s = (Ok v, s).
Proof. intros Hs Hp Hv Hl Hn. rewrite (read_slice_take s path v n) by (done || lia). by rewrite take_ge by lia. Qed.
Lemma read_slice_none s path n k : c_ok s -> path_ok path -> c_value s (path_steps path) = None ->
  store_read_slice path n k s = (Err (error_of_runtime (HostErr StoreNotAValue)), s).
Proof.
  intros Hs Hp Hv. unfold store_read_slice, mbind, M_bind, host, M_map_err, KernelHost.store_read_slice. by rewrite c_read_none.
Qed.


Lemma num_chunks_eq s h o : c_ok s -> sized 32 h -> holds_option s h o ->
  M_ok (F := Error) (chunked_transaction_num_chunks h) s = (Ok (option_map p_num o), s).
Proof.
  intros Hs Hh Ho. destruct (num_path_ok (S := S) h Hh) as (Hp&Hst&Hc).
  unfold M_ok, chunked_transaction_num_chunks, chunked_transaction_num_chunks_by_path, mbind, M_bind.
  rewrite chunked_transaction_path_eq, Hc by done. destruct o as [p|]; cbn [holds_option option_map] in *.
  - destruct Ho as [[_ Hn _ _ _] Hok]. rewrite <- Hst in Hn. rewrite (read_slice_ok s _ _ 2 Hs Hp Hn) by (rewrite ?length_le_bytes; done || (vm_compute; lia)).
    cbn. do 3 f_equal. apply (of_le_bytes_le_bytes 2). pose proof (po_num p Hok) as Hb. unfold below in Hb. change (256 ^ N.of_nat 2)%N with 65536%N. lia.
  - assert (Hn : c_value s (path_steps (num_path h)) = None).
    { rewrite Hst. destruct (c_value s _) as [v|] eqn:E; [|done]. destruct (Ho [NUM]). apply (c_value_node s _ []); [done|]. rewrite app_nil_r. eauto. }
    by rewrite read_slice_none.
Qed.
(** ** Counting subkeys *)

Lemma indices_elem n i : i ∈ indices n <-> (i < n)%N.
Proof. unfold indices. rewrite list_elem_of_fmap. setoid_rewrite elem_of_seq. split; [intros (k&->&?); lia|]. intros Hi. exists (N.to_nat i). lia. Qed.
Lemma length_indices n : length (indices n) = N.to_nat n.
Proof. unfold indices. by rewrite length_map, length_seq. Qed.

(** The indices received so far. *)
Definition received p : list N := (map_to_list (p_chunks p)).*1.
Lemma received_elem p i : i ∈ received p <-> is_Some (p_chunks p !! i).
Proof.
  unfold received. rewrite list_elem_of_fmap. split.
  - intros ([j d]&->&Hd%elem_of_map_to_list). by exists d.
  - intros [d Hd]. exists (i, d). split; [done|]. by apply elem_of_map_to_list.
Qed.
Lemma length_received p : length (received p) = size (p_chunks p).
Proof. unfold received. by rewrite length_fmap, length_map_to_list. Qed.
Definition in_range p : Prop := forall i d, p_chunks p !! i = Some d -> (i < p_num p)%N.
Lemma pending_in_range p : pending_ok p -> in_range p.
Proof. intros Hok i d Hd. by apply (po_chunks p Hok i d). Qed.
Lemma received_sub p : in_range p -> received p ⊆+ indices (p_num p).
Proof.
  intros Hok. apply NoDup_submseteq; [apply NoDup_fst_map_to_list|]. intros i [d Hd]%received_elem. apply indices_elem. by apply (Hok i d).
Qed.
Lemma size_le p : in_range p -> size (p_chunks p) <= N.to_nat (p_num p).
Proof. intros H%received_sub%submseteq_length. by rewrite length_received, length_indices in H. Qed.
Lemma complete_iff p : in_range p -> complete p = true <-> forall i, (i < p_num p)%N -> is_Some (p_chunks p !! i).
Proof.
  intros Hok. unfold complete. rewrite bool_decide_eq_true, <- length_received, <- length_indices. split.
  - intros Hc i Hi. apply received_elem.
    assert (Hp : received p ≡ₚ indices (p_num p)) by (apply submseteq_length_Permutation; [by apply received_sub|lia]).
    rewrite Hp. by apply indices_elem.
  - intros Hall. apply Permutation_length, NoDup_Permutation; [apply NoDup_fst_map_to_list| |].
    + apply NoDup_fmap_2, NoDup_seq. exact _.
    + intros i. rewrite received_elem, indices_elem. split; [|apply Hall]. intros [d Hd]. by apply (Hok i d).
Qed.

Lemma count_subkeys_ok path s n : core_store_list_size path s = Z.of_nat n -> store_count_subkeys path s = (Ok n, s).
Proof. intros E. unfold store_count_subkeys. rewrite E, (proj2 (Z.leb_le _ _)) by lia. by rewrite Nat2Z.id. Qed.


Lemma holds_NUM s h p : c_ok s -> holds s h p -> c_node s (base h ++ [NUM]).
Proof. intros Hs Hh. apply node_of_value; [done|]. rewrite (ho_num s h p Hh). eauto. Qed.
Lemma holds_HASHES s h p : c_ok s -> holds s h p -> pending_ok p -> (0 < p_num p)%N -> c_node s (base h ++ [HASHES]).
Proof.
  intros Hs Hh Hok Hn. destruct (p_hashes p) as [|ch hs] eqn:E; [pose proof (po_length p Hok) as Hl; rewrite E in Hl; cbn in Hl; lia|].
  apply (c_value_node s _ [hex_encode ch]); [done|]. rewrite <- app_assoc. apply (ho_hash s h p Hh); [|rewrite E; by left].
  pose proof (po_hashes p Hok) as Hf. rewrite E in Hf. by apply Forall_cons in Hf as [? _].
Qed.

Lemma count_some s h p : c_ok s -> sized 32 h -> holds s h p -> exists n, store_count_subkeys (cpath h) s = (Ok n, s) /\ 0 < n.
Proof.
  intros Hs Hh Hp. destruct (cpath_ok h Hh) as (_&Hc&Hst&_).
  destruct (c_list_size s (cpath h) Hs Hc) as (l&_&Hl&Hz); [rewrite Hst; by apply (ho_base s h p)|]. rewrite Hst in Hl.
  assert (Hin : NUM ∈ l) by (apply Hl; by eapply holds_NUM). destruct Hz as [Hz|[-> _]]; [|by apply elem_of_nil in Hin].
  exists (length l). split; [by apply count_subkeys_ok|]. destruct l; [by apply elem_of_nil in Hin|cbn; lia].
Qed.
Lemma count_received s h p : c_ok s -> sized 32 h -> holds s h p -> pending_ok p -> (0 < p_num p)%N ->
  store_count_subkeys (cpath h) s = (Ok (2 + size (p_chunks p)), s).
Proof.
  intros Hs Hh Hp Hok Hn. destruct (cpath_ok h Hh) as (_&Hc&Hst&_).
  destruct (c_list_size s (cpath h) Hs Hc) as (l&Hnd&Hl&Hz); [rewrite Hst; by apply (ho_base s h p)|]. rewrite Hst in Hl.
  pose proof (po_num p Hok) as Hb15. assert (Hb : forall i, is_Some (p_chunks p !! i) -> below 16 i).
  { intros i [d [Hi _]%(po_chunks p Hok)]. unfold below in *. lia. }
  assert (Hperm : l ≡ₚ NUM :: HASHES :: map (decimal 5) (received p)).
  { apply NoDup_Permutation; [done| |].
    - apply NoDup_cons. split.
      + rewrite elem_of_cons, list_elem_of_fmap. intros [E|(i&E&Hi%received_elem%Hb)]; [by vm_compute in E|]. by destruct (decimal_not_NUM i Hi).
      + apply NoDup_cons. split; [rewrite list_elem_of_fmap; intros (i&E&Hi%received_elem%Hb); by destruct (decimal_not_HASHES i Hi)|].
        apply NoDup_fmap_2_strong; [|apply NoDup_fst_map_to_list]. intros i j Hi%received_elem%Hb Hj%received_elem%Hb. by apply decimal_inj.
    - intros x. rewrite Hl, !elem_of_cons, list_elem_of_fmap. split.
      + intros [->|[->|(i&_&->&Hi)]]%(ho_nodes s h p Hp); [by left|by right; left|]. do 2 right. exists i. split; [done|]. by apply received_elem.
      + intros [->|[->|(i&->&Hi%received_elem)]]; [by eapply holds_NUM|by eapply holds_HASHES|]. apply node_of_value; [done|].
        rewrite (ho_chunk s h p Hp) by auto. done. }
  destruct Hz as [Hz|[-> _]]; [|by apply Permutation_nil_l in Hperm]. apply count_subkeys_ok. rewrite Hz, Hperm. cbn [length].
  rewrite length_map, length_received. done.
Qed.
(** ** Announcing a transaction *)

Lemma count_none s h : c_ok s -> sized 32 h -> holds_option s h None ->
  or_else (S := S) 0 (store_count_subkeys (cpath h)) s = (Ok 0, s).
Proof.
  intros Hs Hh Hn. cbn [holds_option] in Hn. destruct (cpath_ok h Hh) as (_&Hc&Hst&_).
  destruct (c_list_size s (cpath h) Hs Hc) as (l&_&Hl&Hz).
  - rewrite Hst. destruct (c_value s (base h)) as [v|] eqn:E; [|done]. destruct (Hn []). rewrite app_nil_r. apply node_of_value; [done|]. by exists v.
  - rewrite Hst in Hl. assert (l = []) as -> by (destruct l as [|x l]; [done|]; destruct (Hn [x]); apply Hl; by left).
    unfold or_else, M_ok, mbind, M_bind. destruct Hz as [Hz|[_ Hz]].
    + by rewrite (count_subkeys_ok _ _ 0).
    + unfold store_count_subkeys. by rewrite Hz.
Qed.

Lemma write_hashes_spec h hs : sized 32 h -> Forall (sized 32) hs -> forall s, c_ok s -> exists s',
  write_chunk_hashes (cpath h) hs s = (Ok tt, s') /\ c_ok s' /\
  (forall x, (forall ch, ch ∈ hs -> x <> base h ++ [HASHES; hex_encode ch]) -> c_value s' x = c_value s x) /\
  (forall ch, ch ∈ hs -> is_Some (c_value s' (base h ++ [HASHES; hex_encode ch]))) /\
  (forall x, c_node s' x -> c_node s x \/ exists ch, x `prefix_of` base h ++ [HASHES; hex_encode ch]).
Proof.
  intros Hh Hhs. induction Hhs as [|ch hs Hch Hhs IH]; intros s Hs.
  { exists s. split_and!; [done..| |by left]. intros ch Hch. by apply elem_of_nil in Hch. }
  destruct (hash_path_ok (S := S) h ch Hh Hch) as (Hp&Hst&Hc).
  destruct (host_store_write s (base h ++ [HASHES; hex_encode ch]) (hash_path h ch) [Byte.x00] 0) as (s1&Hw&Hok1&Hv1&Hn1); [done..|lia|done|].
  destruct (IH s1 Hok1) as (s2&E2&Hok2&Hv2&Hi2&Hn2). exists s2. split_and!.
  - cbn [write_chunk_hashes]. unfold mbind, M_bind. by rewrite Hc, Hw.
  - done.
  - intros x Hx. rewrite Hv2 by (intros c Hc'; apply Hx; by right). rewrite Hv1, bool_decide_eq_false_2; [done|]. apply Hx. by left.
  - intros c [->|Hc']%elem_of_cons; [|by apply Hi2]. destruct (decide (ch ∈ hs)) as [|Hni]; [by apply Hi2|].
    rewrite Hv2; [rewrite Hv1, bool_decide_eq_true_2 by done; eauto|]. intros c Hc' [_ E]%base_inj. injection E as E%hex_inj. by subst.
  - intros x [[Hx|Hx]%Hn1|Hx]%Hn2; [by left|right; by exists ch|by right].
Qed.

Lemma hash_word_not_NUM h ch : base h ++ [HASHES; hex_encode ch] <> base h ++ [NUM].
Proof. by intros [_ E]%base_inj. Qed.

Lemma create_spec s st h n hs : represents s st -> input_ok (NewChunkedTransaction h n hs) -> exists s',
  create_chunked_transaction h n hs s = (Ok tt, s') /\ represents s' (spec_input (NewChunkedTransaction h n hs) st).2 /\ kept s s'.
Proof.
  intros Hr (Hh&Hn&Hl&Hhs). pose proof Hr as [Hs Hst]. specialize (Hst h Hh). cbn [spec_input snd].
  unfold create_chunked_transaction, mbind, M_bind. rewrite chunked_transaction_path_eq by done. destruct (st !! h) as [p|] eqn:Ep.
  { destruct Hst as [Hp Hok]. destruct (count_some s h p Hs Hh Hp) as (k&Hk&Hk0). unfold or_else, M_ok, mbind, M_bind. rewrite Hk. cbn [default].
    destruct k; [lia|]. by exists s. }
  rewrite count_none by done. cbn [Nat.ltb Nat.leb]. destruct (num_path_ok (S := S) h Hh) as (Hp&Hps&Hc). rewrite Hc.
  assert (Hno : forall r, c_value s (base h ++ r) = None).
  { intros r. destruct (c_value s (base h ++ r)) eqn:E; [|done]. destruct (Hst r). apply node_of_value; [done|]. rewrite E. by eexists. }
  destruct (host_store_write_new s (base h ++ [NUM]) (num_path h) (le_bytes 2 n)) as (s1&Hw&Hw1); [done..|].
  rewrite Hw. destruct (write_hashes_spec h hs Hh Hhs s1 (proj1 Hw1)) as (s2&E2&Hok2&Hv2&Hi2&Hn2). exists s2. split; [done|].
  split; [|apply (kept_trans s s1); [by eapply wrote_kept|]; intros q Hq; apply Hv2; intros ch _; apply Hq].
  destruct Hw1 as (Hok1&Hv1&Hn1). apply (represents_update s s2 st h (Some (mkPending n hs ∅))); [done..| |].
  - intros h' Hne. split; intros r.
    + rewrite Hv2 by (by intros ch _ [? _]%base_inj). rewrite Hv1, bool_decide_eq_false_2; [done|]. by intros [? _]%base_inj.
    + intros [[Hx|[? _]%prefix_base]%Hn1|[ch [? _]%prefix_base]]%Hn2; [done|by destruct Hne..].
  - assert (Hrest : forall r, r <> [NUM] -> (forall ch, ch ∈ hs -> r <> [HASHES; hex_encode ch]) -> c_value s2 (base h ++ r) = None).
    { intros r H1 H2. rewrite Hv2 by (intros ch Hch [_ E]%base_inj; by apply (H2 ch)). rewrite Hv1, bool_decide_eq_false_2; [done|]. by intros [_ E]%base_inj. }
    cbn [holds_option]. split; [split; cbn [p_num p_hashes p_chunks]|split; cbn [p_num p_hashes p_chunks]; [done..|]].
    + rewrite <- (app_nil_r (base h)). by apply Hrest.
    + rewrite Hv2 by (intros ch _ E; by apply (hash_word_not_NUM h ch)). by rewrite Hv1, bool_decide_eq_true_2.
    + intros ch Hch. split; [|by apply Hi2]. intros Hsome. destruct (decide (ch ∈ hs)) as [|Hni]; [done|]. rewrite Hrest in Hsome; [by destruct Hsome|done|].
      intros c Hc' [= E%hex_inj]. by subst.
    + intros i Hi. rewrite lookup_empty. apply Hrest; [|done]. intros [= E]. by apply (decimal_not_NUM i).
    + intros x [[Hx|[_ Hx]%prefix_base]%Hn1|[ch [_ Hx]%prefix_base]]%Hn2; [by destruct (Hst [x])| |].
      * left. by apply prefix_cons_inv_1 in Hx.
      * right; left. by apply prefix_cons_inv_1 in Hx.
    + intros i d. by rewrite lookup_empty.
Qed.
(** ** Receiving a chunk *)

Lemma forget_spec s h p : c_ok s -> sized 32 h -> holds s h p -> exists s',
  host (store_delete (cpath h)) s = (Ok tt, s') /\ c_ok s' /\ holds_option s' h None /\ (forall h', h' <> h -> same_below s s' h') /\ kept s s'.
Proof.
  intros Hs Hh Hp. destruct (cpath_ok h Hh) as (_&Hc&Hst&_).
  assert (Hex : core_store_has (cpath h) s <> 0%Z) by (apply (value_exists s (cpath h) [NUM]); [done..|]; rewrite Hst, (ho_num s h p Hp); eauto).
  destruct (c_delete s (cpath h) Hs Hc Hex) as (s'&Hd&Hok&Hv). exists s'.
  assert (E : store_delete (cpath h) s = (Ok tt, s')).
  { unfold store_delete, mbind, M_bind. rewrite check_path_exists_spec, (proj2 (Z.eqb_neq _ _)) by done. unfold host_call. by rewrite Hd. }
  assert (Hn : forall q, c_node s' q -> c_node s q /\ strip (base h) q = None).
  { intros q Hq. rewrite <- Hst. apply (store_delete_nodes s (cpath h)); [done..|]. by rewrite E. }
  split_and!; [by apply host_ok|done| | |intros q Hq; rewrite Hv, Hst; destruct (strip (base h) q) as [x|] eqn:Ex; [apply strip_Some in Ex; by destruct (Hq h x)|done]].
  - intros r [_ H]%Hn. by rewrite strip_app in H.
  - intros h' Hne. split; intros r.
    + rewrite Hv, Hst. destruct (strip (base h) _) as [x|] eqn:Ex; [|done]. apply strip_Some, base_inj in Ex as [E' _]. by destruct Hne.
    + intros Hr. by apply Hn in Hr as [Hr _].
Qed.

Lemma wrote_trans s q v v' s1 s2 : wrote s q v s1 -> wrote s1 q v' s2 -> wrote s q v' s2.
Proof.
  intros (_&Hv1&Hn1) (Hok&Hv2&Hn2). split_and!; [done| |].
  - intros x. rewrite Hv2, Hv1. by case_bool_decide.
  - intros x [[Hx|Hx]%Hn1|Hx]%Hn2; [by left|by right..].
Qed.

(** A new chunk is written whole, in one or two parts. *)
Lemma store_data_spec s path q data : c_ok s -> path_ok path -> path_steps path = q -> length data <= 4096 -> exists s',
  store_transaction_chunk_data path data s = (Ok tt, s') /\
  match c_value s q with Some _ => s' = s | None => wrote s q data s' end.
Proof.
  intros Hs Hp Hq Hl. unfold store_transaction_chunk_data, mbind, M_bind. destruct (store_has_spec s path Hs Hp) as (sub&_&_&_&Hh).
  rewrite (host_ok _ _ _ _ Hh), Hq. destruct (c_value s q) as [v|] eqn:Ev.
  { rewrite bool_decide_eq_true_2 by eauto. exists s. by destruct sub. }
  rewrite bool_decide_eq_false_2 by (by intros []). set (m := if _ <? _ then _ else _).
  enough (exists s', m s = (Ok tt, s') /\ wrote s q data s') as (s'&E&Hw) by (exists s'; by destruct sub).
  unfold m. destruct (Nat.ltb_spec MAX_FILE_CHUNK_SIZE (length data)) as [Hgt|Hle].
  - assert (Hz : forall n, n <= 4096 -> size_ok n) by (intros n; unfold size_ok, VALUE_SIZE_LIMIT; lia).
    assert (Ht : length (take MAX_FILE_CHUNK_SIZE data) = MAX_FILE_CHUNK_SIZE) by (rewrite length_take; lia).
    destruct (host_store_write_new s q path (take MAX_FILE_CHUNK_SIZE data)) as (s1&E1&Hw1); [done..|apply Hz; lia|].
    pose proof Hw1 as (Hok1&Hv1&_). specialize (Hv1 q). rewrite bool_decide_eq_true_2 in Hv1 by done.
    destruct (host_store_write s1 q path (drop MAX_FILE_CHUNK_SIZE data) MAX_FILE_CHUNK_SIZE) as (s2&E2&Hw2); [done..|rewrite Hv1; cbn [from_option id]; lia|apply Hz; rewrite length_drop; lia|].
    exists s2. rewrite E1. split; [done|]. eapply wrote_trans; [done|]. rewrite Hv1 in Hw2. cbn [from_option id] in Hw2.
    unfold patch in Hw2. rewrite take_ge in Hw2 by lia. rewrite (drop_ge (take _ data)), app_nil_r, take_drop in Hw2; [done|]. rewrite Ht. lia.
  - apply host_store_write_new; try done. unfold size_ok, VALUE_SIZE_LIMIT. lia.
Qed.

Lemma read_data_spec s path v : c_ok s -> path_ok path -> c_value s (path_steps path) = Some v -> length v <= 4096 ->
  read_transaction_chunk_data path s = (Ok v, s).
Proof.
  intros Hs Hp Hv Hl. unfold read_transaction_chunk_data, mbind, M_bind.
  assert (Hz : size_ok (length v)) by (unfold size_ok, VALUE_SIZE_LIMIT; lia).
  rewrite (host_ok _ _ _ _ (store_value_size_spec s path v Hs Hp Hv Hz)).
  destruct (Nat.ltb_spec MAX_FILE_CHUNK_SIZE (length v)) as [Hgt|Hle].
  - rewrite (host_ok _ _ _ _ (store_read_ok s path v 0 MAX_FILE_CHUNK_SIZE Hs Hp Hv ltac:(lia))).
    rewrite (host_ok _ _ _ _ (store_read_ok s path v MAX_FILE_CHUNK_SIZE MAX_FILE_CHUNK_SIZE Hs Hp Hv ltac:(lia))).
    unfold mret, M_ret. do 2 f_equal. unfold slice. change MAX_FILE_CHUNK_SIZE with 2048 in *. rewrite drop_0.
    replace (2048 `min` (2048 `min` (length v - 0))) with 2048 by lia. rewrite (take_ge (drop 2048 v)); [apply take_drop|]. rewrite length_drop. lia.
  - rewrite (host_ok _ _ _ _ (store_read_ok s path v 0 MAX_FILE_CHUNK_SIZE Hs Hp Hv ltac:(lia))). unfold slice. rewrite drop_0, take_ge by lia. done.
Qed.
(** Reading all chunks of a complete transaction. *)
Lemma get_chunks_spec s h p : c_ok s -> sized 32 h -> holds s h p -> pending_ok p -> forall ixs buffer,
  (forall i, i ∈ ixs -> is_Some (p_chunks p !! i)) ->
  get_chunks (cpath h) ixs buffer s = (Ok (buffer ++ mjoin (map (fun i => default [] (p_chunks p !! i)) ixs)), s).
Proof.
  intros Hs Hh Hp Hok ixs. induction ixs as [|i ixs IH]; intros buffer Hi; [by rewrite app_nil_r|].
  destruct (Hi i ltac:(by left)) as [d Hd]. destruct (po_chunks p Hok i d Hd) as [Hlt Hl].
  assert (Hb : below 16 i) by (pose proof (po_num p Hok); unfold below in *; lia).
  destruct (chunk_path_ok (S := S) h i Hh Hb) as (Hpath&Hst&Hc). cbn [get_chunks]. unfold mbind, M_bind. rewrite Hc.
  rewrite (read_data_spec s _ d) by (done || by rewrite Hst, (ho_chunk s h p Hp)). rewrite IH by (intros j Hj; apply Hi; by right).
  cbn [map]. rewrite Hd. change (mjoin (?a :: ?l)) with (a ++ mjoin l). by rewrite <- app_assoc.
Qed.

Lemma add_chunk_ok i data p : pending_ok p -> (i < p_num p)%N -> length data <= 4096 -> pending_ok (add_chunk i data p).
Proof.
  intros [] Hi Hl. split; cbn [add_chunk p_num p_hashes p_chunks]; [done..|]. intros j d. destruct (p_chunks p !! i) eqn:E; [eauto|].
  rewrite lookup_insert_Some. intros [[<- <-]|[_ Hd]]; eauto.
Qed.
Lemma holds_add s h p i data s' : below 16 i -> holds s h p -> p_chunks p !! i = None -> wrote s (base h ++ [decimal 5 i]) data s' ->
  holds s' h (add_chunk i data p).
Proof.
  intros Hi [Hb Hn Hh Hc Hno] Hnone (_&Hv&Hn'). unfold add_chunk. rewrite Hnone.
  assert (Hne : forall r, r <> [decimal 5 i] -> c_value s' (base h ++ r) = c_value s (base h ++ r))
    by (intros r Hr; rewrite Hv, bool_decide_eq_false_2; [done|]; by intros [_ E]%base_inj).
  split; cbn [p_num p_hashes p_chunks].
  - rewrite <- (app_nil_r (base h)), Hne, app_nil_r by done. done.
  - rewrite Hne; [done|]. intros E%singleton_inj. by apply (decimal_not_NUM i).
  - intros ch Hch. rewrite Hne by (intros E; apply (f_equal length) in E; done). by apply Hh.
  - intros j Hj. destruct (decide (j = i)) as [->|Hji].
    + by rewrite Hv, bool_decide_eq_true_2, lookup_insert_eq.
    + rewrite lookup_insert_ne by done. rewrite Hne; [by apply Hc|]. intros E%singleton_inj%decimal_inj; [by subst|done..].
  - intros x [Hx|[_ Hx]%prefix_base]%Hn'.
    + apply Hno in Hx as [->|[->|(j&Hj&->&Hd)]]; [by left|by right; left|]. do 2 right. exists j. split_and!; [done..|].
      destruct (decide (j = i)) as [->|]; [by rewrite lookup_insert_eq; eexists|by rewrite lookup_insert_ne].
    + apply prefix_cons_inv_1 in Hx as ->. do 2 right. exists i. split_and!; [done..|]. rewrite lookup_insert_eq. eauto.
Qed.

Lemma is_complete_spec s h p : c_ok s -> sized 32 h -> holds s h p -> pending_ok p -> (0 < p_num p)%N ->
  is_transaction_complete (cpath h) (p_num p) s = (Ok (complete p), s).
Proof.
  intros Hs Hh Hp Hok Hn. unfold is_transaction_complete, mbind, M_bind. rewrite (host_ok _ _ _ _ (count_received s h p Hs Hh Hp Hok Hn)).
  unfold mret, M_ret. do 2 f_equal. pose proof (size_le p (pending_in_range p Hok)) as Hle. pose proof (po_num p Hok) as Hb. unfold below in Hb.
  rewrite !N.mod_small by lia. unfold complete. case_bool_decide; [apply N.leb_le|apply N.leb_gt]; lia.
Qed.

(** Storing a chunk of a transaction that was announced. *)
Lemma store_chunk_spec s h p i data : c_ok s -> sized 32 h -> holds s h p -> pending_ok p -> (i < p_num p)%N -> length data <= 4096 ->
  let p' := add_chunk i data p in
  exists s', store_transaction_chunk h i data s = (Ok (if complete p' then Some (assemble p') else None), s') /\
    c_ok s' /\ holds_option s' h (if complete p' then None else Some p') /\ (forall h', h' <> h -> same_below s s' h') /\ kept s s'.
Proof.
  intros Hs Hh Hp Hok Hi Hl. cbn zeta. set (p' := add_chunk i data p). assert (Hb : below 16 i) by (pose proof (po_num p Hok); unfold below in *; lia).
  destruct (chunk_path_ok (S := S) h i Hh Hb) as (Hpath&Hst&Hc).
  pose proof (num_chunks_eq s h (Some p) Hs Hh (conj Hp Hok)) as Hnum. unfold M_ok, chunked_transaction_num_chunks, mbind, M_bind in Hnum.
  rewrite chunked_transaction_path_eq in Hnum by done.
  assert (Hnum' : chunked_transaction_num_chunks_by_path (cpath h) s = (Ok (p_num p), s)).
  { destruct (chunked_transaction_num_chunks_by_path (cpath h) s) as [[n|e|q|] s0]; cbn in Hnum; congruence. }
  destruct (store_data_spec s (chunk_path h i) (base h ++ [decimal 5 i]) data) as (s1&E1&Hw); [done..|].
  rewrite (ho_chunk s h p Hp) in Hw by done.
  assert (H1 : c_ok s1 /\ holds s1 h p' /\ (forall h', h' <> h -> same_below s s1 h') /\ kept s s1).
  { destruct (p_chunks p !! i) eqn:Ei.
    - subst s1. split_and!; [done| |by intros|apply kept_refl]. unfold p', add_chunk. rewrite Ei. by destruct p.
    - split_and!; [apply Hw|by eapply holds_add| |by eapply wrote_kept]. intros h'. by eapply wrote_same. }
  destruct H1 as (Hok1&Hp1&Hsame1&Hk1). assert (Hok' : pending_ok p') by (by apply add_chunk_ok).
  unfold store_transaction_chunk, mbind, M_bind. rewrite chunked_transaction_path_eq, Hnum', Hc, E1 by done.
  change (p_num p) with (p_num p') in Hi |- *. rewrite is_complete_spec by (done || lia). destruct (complete p') eqn:Ec; [|by exists s1].
  unfold get_full_transaction. rewrite (get_chunks_spec s1 h p'); [|done..|].
  2: { intros j Hj%indices_elem. by apply complete_iff; [apply pending_in_range| |]. }
  destruct (forget_spec s1 h p' Hok1 Hh Hp1) as (s2&E2&Hok2&Hno&Hsame2&Hk2). exists s2. rewrite E2. split_and!; [done..| |by eapply kept_trans].
  intros h' Hne. destruct (Hsame1 h' Hne) as [Hv1 Hn1], (Hsame2 h' Hne) as [Hv2 Hn2]. split; intros r; [by rewrite Hv2, Hv1|auto].
Qed.

Lemma chunk_spec s st h i ch data : represents s st -> input_ok (TransactionChunk h i ch data) -> exists s',
  handle_transaction_chunk h i ch data s = (Ok (spec_input (TransactionChunk h i ch data) st).1, s') /\
  represents s' (spec_input (TransactionChunk h i ch data) st).2 /\ kept s s'.
Proof.
  intros Hr (Hh&Hb&Hch&Hl). pose proof Hr as [Hs Hst]. specialize (Hst h Hh). unfold handle_transaction_chunk. unfold mbind at 1, M_bind at 1.
  rewrite (num_chunks_eq s h (st !! h)) by done. cbn [spec_input]. destruct (st !! h) as [p|] eqn:Ep; cbn [option_map]; [|by exists s].
  destruct Hst as [Hp Hok]. destruct (N.leb_spec (p_num p) i) as [|Hi]; cbn [orb]; [by exists s|].
  destruct (hash_path_ok (S := S) h ch Hh Hch) as (Hpath&Hps&Hc). unfold mbind at 1, M_bind at 1. rewrite chunked_transaction_path_eq by done.
  unfold mbind at 1, M_bind at 1. rewrite Hc. unfold mbind at 1, M_bind at 1. pose proof (ho_hash s h p Hp ch Hch) as Hin. rewrite <- Hps in Hin.
  unfold M_ok. destruct (c_value s (path_steps (hash_path h ch))) as [v|] eqn:Ev.
  2: { rewrite store_read_none by done. rewrite bool_decide_eq_false_2 by (rewrite <- Hin; by intros []). by exists s. }
  rewrite (store_read_ok s _ v) by (done || lia). rewrite bool_decide_eq_true_2 by (apply Hin; eauto). cbn [negb].
  destruct (negb (i =? p_num p - 1)%N && (length data <? MAX_SIZE_PER_CHUNK)).
  - destruct (forget_spec s h p Hs Hh Hp) as (s'&E&Hok'&Hno&Hsame&Hk). exists s'. split; [|split; [|done]].
    + unfold remove_chunked_transaction, remove_chunked_transaction_by_path, mbind, M_bind. by rewrite chunked_transaction_path_eq, E.
    + by apply (represents_update s s' st h None).
  - destruct (store_chunk_spec s h p i data) as (s'&E&Hok'&Ho&Hsame&Hk); [done..|]. exists s'. unfold mbind at 1, M_bind at 1. rewrite E.
    destruct (complete (add_chunk i data p)); (split; [done|split; [|done]]); by apply (represents_update s s' st h).
Qed.

Lemma input_spec m s st : represents s st -> input_ok m -> exists s',
  handle_chunk_input m s = (Ok (spec_input m st).1, s') /\ represents s' (spec_input m st).2 /\ kept s s'.
Proof.
  intros Hr Hm. destruct m as [h n hs|h i ch data]; [|by apply chunk_spec].
  destruct (create_spec s st h n hs Hr Hm) as (s'&E&Hr'). exists s'. split; [|done]. cbn [handle_chunk_input]. unfold mbind, M_bind. by rewrite E.
Qed.

Lemma inputs_spec ms : forall s st, represents s st -> Forall input_ok ms -> exists s',
  handle_chunk_inputs ms s = (Ok (spec_inputs ms st).1, s') /\ represents s' (spec_inputs ms st).2.
Proof.
  induction ms as [|m ms IH]; intros s st Hr Hm; [by exists s|]. apply Forall_cons in Hm as [Hm Hms].
  destruct (input_spec m s st Hr Hm) as (s1&E1&Hr1&_). cbn [spec_inputs]. destruct (spec_input m st) as [tx st1]. cbn [fst snd] in *.
  destruct (IH s1 st1 Hr1 Hms) as (s2&E2&Hr2). exists s2. destruct (spec_inputs ms st1) as [txs st2]. cbn [fst snd] in *. split; [|done].
  cbn [handle_chunk_inputs]. unfold mbind, M_bind. by rewrite E1, E2.
Qed.

(** Storage where no transaction was announced. *)
Definition no_chunks s : Prop := c_ok s /\ forall h r, ~ c_node s (base h ++ r).
Lemma no_chunks_represents s : no_chunks s -> represents s ∅.
Proof. intros [Hs Hn]. split; [done|]. intros h _. rewrite lookup_empty. intros r. apply Hn. Qed.

(** C22: chunked transactions are assembled.  Starting from storage without announced transactions, whatever messages the
    inbox holds about chunked transactions, in whatever order, handling them cannot fail and gives the transactions of the
    specification: a transaction is returned when the last of its chunks arrives, as the concatenation of the first chunk
    received for each index, if its hash is the announced one; chunks that are unknown, out of range or not announced are ignored,
    a chunk that is too short discards the transaction, and the storage of a transaction that was returned or
    discarded is empty again. *)
Theorem chunks_are_assembled (ms : list ChunkInput) s : no_chunks s -> Forall input_ok ms ->
  exists s', handle_chunk_inputs ms s = (Ok (spec_inputs ms ∅).1, s') /\ represents s' (spec_inputs ms ∅).2.
Proof. intros Hs%no_chunks_represents. by apply inputs_spec. Qed.

(** ** Delivery *)

(** The chunks of a transaction that can be sent: all but the last one are full. *)
Definition sendable (chunks : list bytes) : Prop :=
  chunks <> [] /\ below 15 (N.of_nat (length chunks)) /\ Forall (fun c => length c <= 4096) chunks /\
  forall i c, chunks !! i = Some c -> i <> length chunks - 1 -> MAX_SIZE_PER_CHUNK <= length c.
(** A message about another transaction, or a chunk of this one. *)
Definition honest (h : bytes) (hashes chunks : list bytes) (m : ChunkInput) : Prop :=
  match m with
  | NewChunkedTransaction h' _ _ => True
  | TransactionChunk h' i ch data => h' = h -> chunks !! N.to_nat i = Some data /\ ch ∈ hashes
  end.
Definition is_chunk (h : bytes) (i : N) (m : ChunkInput) : Prop :=
  match m with TransactionChunk h' j _ _ => h' = h /\ j = i | _ => False end.

Section delivery.
Context (h : bytes) (hashes chunks : list bytes) (tx : Transaction).
Context (Hsend : sendable chunks) (Htx : check_full_transaction h (mjoin chunks) = Some tx).

(** The chunks that arrived are among those sent; those that did not are [missing]. *)
Definition waiting (missing : list N) p : Prop :=
  p_num p = N.of_nat (length chunks) /\ p_hashes p = hashes /\
  (forall i d, p_chunks p !! i = Some d -> chunks !! N.to_nat i = Some d) /\
  (forall i, (i < p_num p)%N -> p_chunks p !! i = None -> i ∈ missing) /\ complete p = false.

Lemma sent_in_range p : p_num p = N.of_nat (length chunks) ->
  (forall i d, p_chunks p !! i = Some d -> chunks !! N.to_nat i = Some d) -> in_range p.
Proof. intros Hn Hc i d Hd%Hc%lookup_lt_Some. lia. Qed.

Lemma assemble_chunks p : p_num p = N.of_nat (length chunks) -> (forall i d, p_chunks p !! i = Some d -> chunks !! N.to_nat i = Some d) ->
  complete p = true -> assemble p = mjoin chunks.
Proof.
  intros Hn Hc Hall. rewrite complete_iff in Hall by (by apply sent_in_range). unfold assemble. f_equal. apply list_eq. intros k.
  unfold indices. rewrite map_map, Hn, Nat2N.id, list_lookup_fmap. destruct (decide (k < length chunks)) as [Hk|Hk].
  - rewrite lookup_seq_lt by done. cbn [fmap option_fmap option_map]. destruct (Hall (N.of_nat (0 + k))) as [d Hd]; [lia|]. rewrite Hd.
    apply Hc in Hd. rewrite Nat2N.id in Hd. cbn [Nat.add] in Hd. by rewrite Hd.
  - rewrite lookup_seq_ge by lia. symmetry. apply lookup_ge_None. lia.
Qed.

(** One message: the transaction is delivered, or the chunks that are missing are still to come. *)
Lemma delivery_step m st missing p : st !! h = Some p -> waiting missing p -> honest h hashes chunks m ->
  (spec_input m st).1 = Some tx \/ exists p' missing', (spec_input m st).2 !! h = Some p' /\ waiting missing' p' /\
    forall i, i ∈ missing' -> i ∈ missing /\ ~ is_chunk h i m.
Proof.
  intros Hst Hw Hm. destruct m as [h' n hs|h' i ch data]; cbn [spec_input].
  { right. exists p, missing. split_and!; [|done|intros i Hi; split; [done|by intros []]]. cbn [snd]. destruct (st !! h') eqn:E; [done|]. by rewrite lookup_insert_ne by congruence. }
  destruct (decide (h' = h)) as [->|Hne].
  2: { right. exists p, missing. split_and!; [|done|by intros j Hj; split; [|intros []]]. destruct (st !! h') as [q|]; [|done]. destruct (_ || _); [done|].
    destruct (_ && _); [|destruct (complete _)]; cbn [snd]; by rewrite ?lookup_delete_ne, ?lookup_insert_ne. }
  destruct (Hm eq_refl) as [Hdata Hch]. pose proof Hw as (Hn&Hhs&Hc&Hmiss&Hinc). pose proof (lookup_lt_Some _ _ _ Hdata) as Hlt.
  rewrite Hst, Hhs, Hn, (proj2 (N.leb_gt _ _)), bool_decide_eq_true_2 by (done || lia). cbn [orb negb].
  assert (Hlong : negb (i =? N.of_nat (length chunks) - 1)%N && (length data <? MAX_SIZE_PER_CHUNK) = false).
  { destruct Hsend as (_&_&_&Hfull). destruct (N.eqb_spec i (N.of_nat (length chunks) - 1)) as [|Hni]; [done|]. cbn [negb andb]. apply Nat.ltb_ge.
    apply (Hfull _ _ Hdata). lia. }
  rewrite Hlong. set (p' := add_chunk i data p).
  assert (Hp' : forall j d, p_chunks p' !! j = Some d -> chunks !! N.to_nat j = Some d).
  { intros j d. unfold p', add_chunk. cbn [p_chunks]. destruct (p_chunks p !! i); [by apply Hc|]. rewrite lookup_insert_Some.
    intros [[<- <-]|[_ Hd]]; [done|by apply Hc]. }
  destruct (complete p') eqn:Ec; [left; cbn [fst]; by rewrite assemble_chunks|right].
  exists p', (filter (fun j => j <> i) missing). cbn [snd]. rewrite lookup_insert_eq. split_and!; [done| |].
  - split_and!; [done..| |done]. intros j Hj Hnone. apply list_elem_of_filter. unfold p', add_chunk in Hnone. cbn [p_chunks] in Hnone.
    destruct (p_chunks p !! i) eqn:Ei; [split; [by intros ->; congruence|by apply Hmiss]|]. apply lookup_insert_None in Hnone as [H1 H2]. split; [done|by apply Hmiss].
  - intros j [Hj Hin]%list_elem_of_filter. split; [done|]. by intros [_ <-].
Qed.

Lemma delivery ms : forall st missing p, st !! h = Some p -> waiting missing p -> Forall (honest h hashes chunks) ms ->
  (forall i, i ∈ missing -> Exists (is_chunk h i) ms) -> tx ∈ (spec_inputs ms st).1.
Proof.
  induction ms as [|m ms IH]; intros st missing p Hst Hw Hms Hall.
  { exfalso. destruct Hw as (Hn&_&Hc&Hmiss&Hinc). apply not_true_iff_false in Hinc. apply Hinc, complete_iff; [by apply sent_in_range|].
    intros i Hi. destruct (p_chunks p !! i) eqn:E; [by eexists|]. apply Hmiss in E; [|done]. apply Hall in E. by apply Exists_nil in E. }
  apply Forall_cons in Hms as [Hm Hms]. cbn [spec_inputs]. pose proof (delivery_step m st missing p Hst Hw Hm) as H.
  destruct (spec_input m st) as [o st1]. cbn [fst snd] in H. destruct H as [->|(p'&missing'&Hst'&Hw'&Hless)].
  - destruct (spec_inputs ms st1). by left.
  - specialize (IH st1 missing' p' Hst' Hw' Hms). destruct (spec_inputs ms st1) as [txs st2]. cbn [fst] in *.
    assert (tx ∈ txs) by (apply IH; intros i [Hi Hno]%Hless; by destruct (proj1 (Exists_cons _ _ _) (Hall i Hi))). destruct o; [by right|done].
Qed.
End delivery.

(** The specification delivers a transaction that was not announced before and whose chunks all come. *)
Lemma spec_delivers_at h hashes chunks eth_tx (ms : list ChunkInput) st : sendable chunks -> keccak256 (mjoin chunks) = h -> from_bytes (mjoin chunks) = Ok eth_tx ->
  st !! h = None -> Forall (honest h hashes chunks) ms -> (forall i, i < length chunks -> Exists (is_chunk h (N.of_nat i)) ms) ->
  mkTransaction h (Ethereum eth_tx) ∈ (spec_inputs (NewChunkedTransaction h (N.of_nat (length chunks)) hashes :: ms) st).1.
Proof.
  intros Hsend Hh Htx Hnone Hms Hall. cbn [spec_inputs spec_input]. rewrite Hnone. set (p := mkPending _ _ _). set (st1 := <[h := p]> st).
  assert (Hin : mkTransaction h (Ethereum eth_tx) ∈ (spec_inputs ms st1).1).
  { eapply (delivery h hashes chunks _ Hsend _ ms st1 (indices (N.of_nat (length chunks))) p); [by apply lookup_insert_eq| |done|].
    - split_and!; [done..|by intros i d Hi; unfold p in Hi; cbn [p_chunks] in Hi; rewrite lookup_empty in Hi|by intros i Hi _; apply indices_elem|].
      unfold complete. cbn [p p_chunks p_num]. rewrite map_size_empty. apply bool_decide_eq_false_2. destruct Hsend as [Hne _]. destruct chunks; [done|cbn; lia].
    - intros i Hi%indices_elem. rewrite <- (N2Nat.id i). apply Hall. lia. }
  by destruct (spec_inputs ms st1).
  Unshelve. unfold check_full_transaction. by rewrite bool_decide_eq_true_2, Htx.
Qed.
Lemma spec_delivers h hashes chunks eth_tx (ms : list ChunkInput) : sendable chunks -> keccak256 (mjoin chunks) = h -> from_bytes (mjoin chunks) = Ok eth_tx ->
  Forall (honest h hashes chunks) ms -> (forall i, i < length chunks -> Exists (is_chunk h (N.of_nat i)) ms) ->
  mkTransaction h (Ethereum eth_tx) ∈ (spec_inputs (NewChunkedTransaction h (N.of_nat (length chunks)) hashes :: ms) ∅).1.
Proof. intros. by apply spec_delivers_at; [..|apply lookup_empty| |]. Qed.

(** Messages that do not announce a transaction leave it unknown. *)
Definition announces (h : bytes) (m : ChunkInput) : Prop := match m with NewChunkedTransaction h' _ _ => h' = h | _ => False end.
Lemma not_announced h ms : forall st, Forall (fun m => ~ announces h m) ms -> st !! h = None -> (spec_inputs ms st).2 !! h = None.
Proof.
  induction ms as [|m ms IH]; intros st Hms Hst; [done|]. apply Forall_cons in Hms as [Hm Hms]. cbn [spec_inputs].
  assert (H : (spec_input m st).2 !! h = None).
  { destruct m as [h' n hs|h' i ch data]; cbn [spec_input].
    - cbn [snd]. destruct (st !! h') eqn:E; [done|]. by rewrite lookup_insert_ne by (intros ->; by apply Hm).
    - destruct (st !! h') as [p|] eqn:E; [|done]. assert (h' <> h) by congruence. repeat case_match; cbn [snd]; by rewrite ?lookup_delete_ne, ?lookup_insert_ne. }
  destruct (spec_input m st) as [o st1]. cbn [snd] in H. specialize (IH st1 Hms H). by destruct (spec_inputs ms st1).
Qed.
Lemma spec_inputs_app ms ms' st : (spec_inputs (ms ++ ms') st).1 = (spec_inputs ms st).1 ++ (spec_inputs ms' (spec_inputs ms st).2).1.
Proof.
  revert st. induction ms as [|m ms IH]; intros st; [done|]. cbn [app spec_inputs]. destruct (spec_input m st) as [o st1]. specialize (IH st1).
  destruct (spec_inputs ms st1) as [txs st2], (spec_inputs (ms ++ ms') st1). cbn [fst snd] in *. rewrite IH. by destruct o.
Qed.

(** A transaction whose chunks all arrive is delivered.  After a transaction is announced, when every one of its
    chunks is in the inbox, the transaction is among those returned: in whatever order the chunks come, repeated or
    not, and mixed with any messages about other transactions. *)
Theorem all_chunks_delivered h hashes chunks eth_tx (ms : list ChunkInput) s :
  sendable chunks -> length hashes = length chunks ->
  keccak256 (mjoin chunks) = h -> from_bytes (mjoin chunks) = Ok eth_tx ->
  no_chunks s -> Forall input_ok (NewChunkedTransaction h (N.of_nat (length chunks)) hashes :: ms) ->
  Forall (honest h hashes chunks) ms -> (forall i, i < length chunks -> Exists (is_chunk h (N.of_nat i)) ms) ->
  exists txs s', handle_chunk_inputs (NewChunkedTransaction h (N.of_nat (length chunks)) hashes :: ms) s = (Ok txs, s') /\
    mkTransaction h (Ethereum eth_tx) ∈ txs.
Proof.
  intros Hsend Hl Hh Htx Hs Hok Hms Hall. destruct (inputs_spec _ s ∅ (no_chunks_represents s Hs) Hok) as (s'&E&_). eexists _, s'. split; [exact E|].
  by apply spec_delivers.
Qed.
End storage.
