(* ===== verification/EvmBlueprints.v ===== *)
(** Blueprints in the durable storage, and the delayed inbox.

    Models [etherlink/kernel_evm/kernel/src/blueprint_storage.rs], the operations of [delayed_inbox.rs] and the configuration of
    [stage_one.rs].  The state of an operation is the delayed inbox kept in memory and the host.

    Then: on any lawful host, the chunks of the next blueprint can be stored in any order; reading the next blueprint gives nothing
    until all are there, and then the blueprint they encode. *)

From S2P Require Import Prelude Endian KernelPath KernelHost KernelRuntime KernelStorage SdkNom SdkMichelson Rlp EvmStorage LinkedList EthTypes EthSign EvmTx EthBlock EvmStore EvmChunks.

(** The delayed inbox of a sequencer is the list in the state. *)
Inductive Configuration : Type := Proxy | Sequencer (delayed_bridge : bytes) (sequencer : PublicKey).

Section blueprints.
Context {S : Type} {core : SmartRollupCore S} {crate : RlpCrate} {eth : EthCrates} {fle : U256FromLe} {hex : HexCrate}.
Abbreviation kM := (M S Error).
Abbreviation inboxM := (M (LinkedList Hash * S) Anyhow).

Definition kernel {A} (m : kM A) : inboxM A := on_host (M_map_err A_Error m).
Definition runtime {A} (m : M S RuntimeError A) : inboxM A := on_host (M_map_err A_Runtime m).

(** * The delayed inbox (delayed_inbox.rs) *)

Definition DELAYED_INBOX_PATH : bytes := str "/delayed-inbox".
Definition DelayedInbox_new : M S Anyhow (LinkedList Hash) := LinkedList.new DELAYED_INBOX_PATH.

Definition save_transaction (tx : Transaction) : inboxM unit :=
  let delayed_transaction := match content tx with Ethereum tx => DEthereum tx | TDeposit deposit => DDeposit deposit end in
  LinkedList.push hash_bytes (mkHash (tx_hash tx)) delayed_transaction.
Definition find_and_remove_transaction (tx_hash : Hash) : inboxM (option Transaction) :=
  delayed ← LinkedList.remove hash_bytes tx_hash;
  mret (option_map (fun delayed =>
    mkTransaction (hash_bytes tx_hash) (match delayed with DEthereum tx => Ethereum tx | DDeposit deposit => TDeposit deposit end)) delayed).

(** * Paths and numbers (blueprint_storage.rs) *)

Definition EVM_BLUEPRINTS : bytes := str "/blueprints".
Definition EVM_BLUEPRINT_NB_CHUNKS : bytes := str "/nb_chunks".
Definition EVM_LAST_BLUEPRINT : bytes := str "/blueprints/last".

Definition read_u256_default (path : bytes) (default : N) : kM N := fun s =>
  match store_read_slice path 8 8 s with
  | (Ok buffer, s) => from_little_endian buffer s
  | (Err (E_Storage (SE_Runtime (PathNotFound | HostErr (StoreNotAValue | StoreInvalidAccess)))), s) => (Ok default, s)
  | (Err e, s) => (Err e, s)
  | (Panic p, s) => (Panic p, s)
  | (Diverge, s) => (Diverge, s)
  end.
Definition U256_max : N := 2 ^ 256 - 1.
Definition read_last_blueprint_number : kM N := read_u256_default EVM_LAST_BLUEPRINT U256_max.
Definition store_last_blueprint_number (number : N) : kM unit := write_u256 EVM_LAST_BLUEPRINT number.

(** [RefPath::assert_from] panics on an invalid path. *)
Definition number_subkey (digits : nat) (n : N) : outcome StorageError bytes := assert_from (str "/" ++ decimal digits n).
Definition blueprint_path (number : N) : kM bytes :=
  lift (map_err E_Storage (number_subkey ← number_subkey 78 number; map_err SE_Path (concat EVM_BLUEPRINTS number_subkey))).
Definition blueprint_chunk_path (blueprint_path : bytes) (chunk_index : N) : kM bytes :=
  lift (map_err E_Storage (chunk_index_subkey ← number_subkey 5 chunk_index; map_err SE_Path (concat blueprint_path chunk_index_subkey))).
Definition blueprint_nb_chunks_path (blueprint_path : bytes) : kM bytes := paths (concat blueprint_path EVM_BLUEPRINT_NB_CHUNKS).

Definition read_blueprint_nb_chunks (blueprint_path : bytes) : kM N :=
  path ← blueprint_nb_chunks_path blueprint_path;
  buffer ← store_read_slice path 2 2;
  mret (of_le_bytes buffer).
Definition store_blueprint_nb_chunks (blueprint_path : bytes) (nb_chunks : N) : kM unit :=
  path ← blueprint_nb_chunks_path blueprint_path;
  host (store_write_all path (le_bytes 2 nb_chunks)).

(** * Storing *)

Definition store_sequencer_blueprint (blueprint : SequencerBlueprint) : kM unit :=
  blueprint_path ← blueprint_path (number (unsigned blueprint));
  _ ← store_blueprint_nb_chunks blueprint_path (nb_chunks (unsigned blueprint));
  blueprint_chunk_path ← blueprint_chunk_path blueprint_path (chunk_index (unsigned blueprint));
  store_rlp (SequencerChunk (chunk (unsigned blueprint))) blueprint_chunk_path.

Definition store_inbox_blueprint (blueprint : Blueprint) : kM unit :=
  number ← read_last_blueprint_number;
  let number := ((number + 1) mod 2 ^ 256)%N in
  blueprint_path ← blueprint_path number;
  _ ← store_last_blueprint_number number;
  _ ← store_blueprint_nb_chunks blueprint_path 1;
  chunk_path ← blueprint_chunk_path blueprint_path 0;
  store_rlp (InboxBlueprint blueprint) chunk_path.

(** * Reading *)

(** [saturating_add]. *)
Definition read_next_blueprint_number : kM N :=
  number ← M_ok read_current_block_number;
  mret (match number with Some number => N.min (number + 1) U256_max | None => 0%N end).

Fixpoint fetch_loop (hashes : list Hash) (delayed_txs : list Transaction) : inboxM (option (list Transaction)) :=
  match hashes with
  | [] => mret (Some delayed_txs)
  | tx_hash :: hashes =>
      tx ← find_and_remove_transaction tx_hash;
      match tx with Some tx => fetch_loop hashes (delayed_txs ++ [tx]) | None => mret None end
  end.
Definition fetch_delayed_txs (blueprint_with_hashes : BlueprintWithDelayedHashes) : inboxM (option Blueprint) :=
  delayed_txs ← fetch_loop (delayed_hashes blueprint_with_hashes) [];
  mret (option_map (fun delayed_txs =>
    mkBlueprint (delayed_txs ++ transactions (blueprint blueprint_with_hashes)) (timestamp (blueprint blueprint_with_hashes))) delayed_txs).

(** The chunks read, or the blueprint of the inbox. *)
Fixpoint read_chunks (blueprint_path : bytes) (ixs : list N) (chunks : bytes) : kM (bytes + Blueprint) :=
  match ixs with
  | [] => mret (inl chunks)
  | i :: ixs =>
      path ← blueprint_chunk_path blueprint_path i;
      stored_chunk ← read_rlp path;
      match stored_chunk with
      | InboxBlueprint blueprint => mret (inr blueprint)
      | SequencerChunk chunk => read_chunks blueprint_path ixs (chunks ++ chunk)
      end
  end.
Definition read_all_chunks (blueprint_path : bytes) (nb_chunks : N) (config : Configuration) : inboxM (option Blueprint) :=
  r ← kernel (read_chunks blueprint_path (indices nb_chunks) []);
  match r with
  | inr blueprint => mret (Some blueprint)
  | inl chunks =>
      match config with
      | Proxy => mret None
      | Sequencer _ _ =>
          blueprint ← match decode (Codec := BlueprintWithDelayedHashes_codec) chunks with
                      | Ok blueprint => b ← M_ok (fetch_delayed_txs blueprint); mret (mjoin b)
                      | _ => mret None
                      end;
          match blueprint with
          | Some _ => mret blueprint
          | None => _ ← runtime (store_delete blueprint_path); mret None
          end
      end
  end.

(** [n_subkeys as u16 - 1] wraps. *)
Definition read_next_blueprint (config : Configuration) : inboxM (option Blueprint) :=
  number ← kernel read_next_blueprint_number;
  blueprint_path ← kernel (blueprint_path number);
  exists_ ← runtime (store_has blueprint_path);
  match exists_ with
  | None => mret None
  | Some _ =>
      nb_chunks ← kernel (read_blueprint_nb_chunks blueprint_path);
      n_subkeys ← runtime (store_count_subkeys blueprint_path);
      let available_chunks := ((N.of_nat n_subkeys mod 2 ^ 16 + 65535) mod 2 ^ 16)%N in
      if (available_chunks =? nb_chunks)%N then read_all_chunks blueprint_path nb_chunks config else mret None
  end.

Definition drop_head_blueprint : kM unit :=
  number ← read_current_block_number;
  path ← blueprint_path number;
  host (store_delete path).
End blueprints.

Section props.
Context {S : Type} {core : SmartRollupCore S} {laws : CoreLaws S}.
Context {crate : RlpCrate} {rlaws : RlpLaws crate} {eth : EthCrates} {elaws : EthLaws eth} {fle : U256FromLe} {hex : HexCrate}.
Implicit Types (s : S) (m : gmap N bytes).

(** * Paths *)

Definition NB : bytes := str "nb_chunks".
Definition bbase (n : N) : list bytes := [str "blueprints"; decimal 78 n].
Definition bpath (n : N) : bytes := EVM_BLUEPRINTS ++ render [decimal 78 n].

Lemma decimal_render f n : render [decimal f n] = str "/" ++ decimal f n.
Proof. cbn [render map]. cbn -[decimal]. by rewrite app_nil_r. Qed.
Lemma u256_digits n : below 256 n -> (n < 10 ^ N.of_nat 78)%N.
Proof. unfold below. intros H. assert ((2 ^ 256 < 10 ^ N.of_nat 78)%N) by (vm_compute; done). lia. Qed.

Lemma number_path base f n : path_ok base -> (n < 10 ^ N.of_nat (Datatypes.S f))%N -> decimal (Datatypes.S f) n <> str "readonly" ->
  length base + 1 + Datatypes.S f <= PATH_MAX_SIZE ->
  (x ← number_subkey (Datatypes.S f) n; map_err SE_Path (concat base x)) = Ok (base ++ render [decimal (Datatypes.S f) n]) /\
  path_ok (base ++ render [decimal (Datatypes.S f) n]) /\
  path_steps (base ++ render [decimal (Datatypes.S f) n]) = path_steps base ++ [decimal (Datatypes.S f) n].
Proof.
  intros Hb Hn Hr Hl. destruct (concat_render base [decimal (Datatypes.S f) n]) as (H1&H2&H3&H4); [done| | | |].
  - split; [done|]. constructor; [apply decimal_fuel_step|done].
  - unfold readonly. cbn [head]. congruence.
  - rewrite decimal_render, length_app. pose proof (length_decimal (Datatypes.S f) (Datatypes.S f) n Hn ltac:(lia)). change (length (str "/")) with 1. lia.
  - split_and!; [|done..]. unfold number_subkey, assert_from. rewrite <- decimal_render. apply validate_path_spec in H1. rewrite H1.
    cbn [mbind outcome_bind]. by rewrite H2.
Qed.
Lemma decimal_not_readonly f n : (n < 10 ^ N.of_nat f)%N -> bool_decide (decimal f (undecimal (str "readonly")) = str "readonly") = false ->
  decimal f n <> str "readonly".
Proof. intros Hn Hb E. apply (f_equal undecimal) in E as Hu. rewrite undecimal_decimal in Hu by done. subst n. by rewrite E, bool_decide_eq_true_2 in Hb. Qed.

Lemma bpath_ok n : below 256 n -> path_ok (bpath n) /\ path_steps (bpath n) = bbase n /\ length (bpath n) <= 90 /\
  forall s, blueprint_path n s = (Ok (bpath n), s).
Proof.
  intros Hn%u256_digits. destruct (number_path EVM_BLUEPRINTS 77 n) as (H1&H2&H3).
  - by apply validate_path_spec.
  - done.
  - apply decimal_not_readonly; [done|]. by vm_compute.
  - vm_compute. lia.
  - split_and!; [done..| |].
    + unfold bpath. rewrite length_app, decimal_render, length_app. pose proof (length_decimal 78 78 n Hn ltac:(lia)).
      change (length EVM_BLUEPRINTS) with 11. change (length (str "/")) with 1. lia.
    + intros s. unfold blueprint_path, lift. by rewrite H1.
Qed.
Lemma nb_path_ok n : below 256 n -> path_ok (bpath n ++ render [NB]) /\ path_steps (bpath n ++ render [NB]) = bbase n ++ [NB] /\
  forall s, blueprint_nb_chunks_path (bpath n) s = (Ok (bpath n ++ render [NB]), s).
Proof.
  intros Hn. destruct (bpath_ok n Hn) as (Hp&<-&Hl&_). destruct (concat_render (bpath n) [NB]) as (_&H2&H3&H4).
  - done.
  - split; [done|]. repeat constructor; by apply word_step.
  - done.
  - change (length (render [NB])) with 10. change PATH_MAX_SIZE with 242. lia.
  - split_and!; [done..|]. intros s. unfold blueprint_nb_chunks_path, paths, lift. change EVM_BLUEPRINT_NB_CHUNKS with (render [NB]). by rewrite H2.
Qed.
Lemma bchunk_path_ok n i : below 256 n -> below 16 i -> exists p, path_ok p /\ path_steps p = bbase n ++ [decimal 5 i] /\
  forall s, blueprint_chunk_path (bpath n) i s = (Ok p, s).
Proof.
  intros Hn Hi%decimal_5. destruct (bpath_ok n Hn) as (Hp&<-&Hl&_). destruct (number_path (bpath n) 4 i) as (H1&H2&H3).
  - done.
  - done.
  - apply decimal_not_readonly; [done|]. by vm_compute.
  - change PATH_MAX_SIZE with 242. lia.
  - eexists. split_and!; [done..|]. intros s. unfold blueprint_chunk_path, lift. by rewrite H1.
Qed.

(** * The storage of a blueprint *)

Record bholds s (n k : N) m : Prop := {
  bh_base : c_value s (bbase n) = None;
  bh_nb : c_value s (bbase n ++ [NB]) = Some (le_bytes 2 k);
  bh_chunk i : below 16 i -> c_value s (bbase n ++ [decimal 5 i]) = (fun c => rlp_bytes (SequencerChunk c)) <$> m !! i;
  bh_nodes x : c_node s (bbase n ++ [x]) -> x = NB \/ exists i, below 16 i /\ x = decimal 5 i /\ is_Some (m !! i)
}.

Lemma host_store_write_all s q (path v : bytes) : c_ok s -> path_ok path -> path_steps path = q -> size_ok (length v) ->
  exists s', host (store_write_all path v) s = (Ok tt, s') /\ wrote s q v s'.
Proof.
  intros Hs Hp <- Hz. destruct (store_write_all_spec s path v) as (s'&Hw&Hok&Hv); [done..|]. exists s'.
  split; [by apply host_ok|]. split_and!; [done..|]. intros x Hx. apply (store_write_all_nodes s path v); [done|]. by rewrite Hw.
Qed.

Definition chunk_message (n : N) (cs : list bytes) (b : SequencerBlueprint) : Prop :=
  number (unsigned b) = n /\ nb_chunks (unsigned b) = N.of_nat (length cs) /\ below 16 (chunk_index (unsigned b)) /\
  cs !! N.to_nat (chunk_index (unsigned b)) = Some (chunk (unsigned b)).

(** Nothing is stored, or the chunks received. *)
Definition bstate s (n : N) (cs : list bytes) m : Prop :=
  (m = ∅ /\ forall r, ~ c_node s (bbase n ++ r)) \/ (bholds s n (N.of_nat (length cs)) m /\ m <> ∅).

Lemma bbase_app n r r' : bbase n ++ r = bbase n ++ r' -> r = r'.
Proof. by intros E%app_inv_head. Qed.
Lemma decimal_not_NB i : below 16 i -> decimal 5 i <> NB.
Proof. intros Hi. by apply decimal_not_word. Qed.

Lemma wrote_chunk s1 s2 n k m i c : below 16 i -> bholds s1 n k m -> wrote s1 (bbase n ++ [decimal 5 i]) (rlp_bytes (SequencerChunk c)) s2 ->
  bholds s2 n k (<[i := c]> m).
Proof.
  intros Hi [Hb Hn Hc Hno] (_&Hv&Hn').
  assert (Hne : forall r, r <> [decimal 5 i] -> c_value s2 (bbase n ++ r) = c_value s1 (bbase n ++ r))
    by (intros r Hr; rewrite Hv, bool_decide_eq_false_2; [done|]; by intros E%bbase_app).
  split.
  - rewrite <- (app_nil_r (bbase n)), Hne, app_nil_r by done. done.
  - rewrite Hne; [done|]. intros E%singleton_inj. by apply (decimal_not_NB i).
  - intros j Hj. destruct (decide (j = i)) as [->|Hji].
    + by rewrite Hv, bool_decide_eq_true_2, lookup_insert_eq.
    + rewrite lookup_insert_ne by done. rewrite Hne; [by apply Hc|]. intros E%singleton_inj%decimal_inj; [by subst|done..].
  - intros x [Hx|[t E]]%Hn'.
    + apply Hno in Hx as [->|(j&Hj&->&Hd)]; [by left|]. right. exists j. split_and!; [done..|].
      destruct (decide (j = i)) as [->|]; [by rewrite lookup_insert_eq; eexists|by rewrite lookup_insert_ne].
    + rewrite <- app_assoc in E. apply bbase_app in E. injection E as Ex _. right. exists i. split_and!; [done..|]. rewrite lookup_insert_eq. eauto.
Qed.

Lemma wrote_nb s1 s2 n cs m : c_ok s1 -> bstate s1 n cs m -> wrote s1 (bbase n ++ [NB]) (le_bytes 2 (N.of_nat (length cs))) s2 ->
  bholds s2 n (N.of_nat (length cs)) m.
Proof.
  intros Hs Hb (_&Hv&Hn'). assert (Hne : forall r, r <> [NB] -> c_value s2 (bbase n ++ r) = c_value s1 (bbase n ++ r))
    by (intros r Hr; rewrite Hv, bool_decide_eq_false_2; [done|]; by intros E%bbase_app).
  assert (Hx : forall x, c_node s2 (bbase n ++ [x]) -> c_node s1 (bbase n ++ [x]) \/ x = NB).
  { intros x [Hx|[t E]]%Hn'; [by left|right]. rewrite <- app_assoc in E. apply bbase_app in E. by injection E. }
  assert (Hnb : forall i, below 16 i -> [decimal 5 i] <> [NB]) by (intros i Hi E%singleton_inj; by apply (decimal_not_NB i)).
  destruct Hb as [[-> Hno]|[[Hb Hk Hc Hno] _]]; split; rewrite ?Hv, ?bool_decide_eq_true_2 by done; try done.
  - rewrite bool_decide_eq_false_2 by (intros E; apply (f_equal length) in E; done). destruct (c_value s1 (bbase n)) eqn:E; [|done].
    destruct (Hno []). rewrite app_nil_r. apply node_of_value; [done|]. rewrite E. eauto.
  - intros i Hi. rewrite Hne by auto. rewrite lookup_empty. destruct (c_value s1 _) eqn:E; [|done]. destruct (Hno [decimal 5 i]).
    apply node_of_value; [done|]. rewrite E. eauto.
  - intros x [H|H]%Hx; [by destruct (Hno [x])|by left].
  - by rewrite bool_decide_eq_false_2 by (intros E; apply (f_equal length) in E; done).
  - intros i Hi. rewrite Hne by auto. by apply Hc.
  - intros x [H|H]%Hx; [by apply Hno|by left].
Qed.
(** ** Storing chunks *)

Fixpoint store_blueprints (bs : list SequencerBlueprint) : M S Error unit :=
  match bs with [] => mret tt | b :: bs => _ ← store_sequencer_blueprint b; store_blueprints bs end.

(** Values outside the blueprint are not touched. *)
Definition outside s s' (n : N) : Prop := forall q, strip (bbase n) q = None -> c_value s' q = c_value s q.
Lemma wrote_outside s s' n r v : wrote s (bbase n ++ r) v s' -> outside s s' n.
Proof. intros (_&Hv&_) q Hq. rewrite Hv, bool_decide_eq_false_2; [done|]. intros ->. by rewrite strip_app in Hq. Qed.

Lemma store_step s n cs m b : below 256 n -> below 16 (N.of_nat (length cs)) -> c_ok s -> bstate s n cs m -> chunk_message n cs b ->
  size_ok (length (rlp_bytes (SequencerChunk (chunk (unsigned b))))) -> exists s',
  store_sequencer_blueprint b s = (Ok tt, s') /\ c_ok s' /\ bstate s' n cs (<[chunk_index (unsigned b) := chunk (unsigned b)]> m) /\ outside s s' n.
Proof.
  intros Hn Hlen Hs Hb (Enum&Enb&Hi&Hc) Hz. destruct (bpath_ok n Hn) as (Hp&Hst&_&Hpath). destruct (nb_path_ok n Hn) as (Hnp&Hnst&Hnpath).
  destruct (bchunk_path_ok n _ Hn Hi) as (cp&Hcp&Hcst&Hcpath).
  destruct (host_store_write_all s (bbase n ++ [NB]) _ (le_bytes 2 (N.of_nat (length cs))) Hs Hnp Hnst) as (s1&E1&Hw1); [by rewrite length_le_bytes|].
  pose proof Hw1 as (Hs1&_). destruct (host_store_write_all s1 (bbase n ++ [decimal 5 (chunk_index (unsigned b))]) cp _ Hs1 Hcp Hcst Hz) as (s2&E2&Hw2).
  pose proof Hw2 as (Hs2&_). exists s2. split_and!; [|done| |].
  - unfold store_sequencer_blueprint, store_blueprint_nb_chunks, store_rlp, mbind, M_bind. rewrite Enum, Hpath, Hnpath, Enb, E1, Hcpath. exact E2.
  - right. split; [|apply insert_non_empty]. apply (wrote_chunk s1); [done| |done]. by apply (wrote_nb s).
  - intros q Hq. rewrite (wrote_outside _ _ _ _ _ Hw2) by done. by apply (wrote_outside _ _ _ _ _ Hw1).
Qed.

(** The chunks of the messages; a later one for the same index replaces an earlier one. *)
Fixpoint stored (bs : list SequencerBlueprint) m : gmap N bytes :=
  match bs with [] => m | b :: bs => stored bs (<[chunk_index (unsigned b) := chunk (unsigned b)]> m) end.

Lemma store_all n cs bs : below 256 n -> below 16 (N.of_nat (length cs)) -> Forall (chunk_message n cs) bs ->
  Forall (fun b => size_ok (length (rlp_bytes (SequencerChunk (chunk (unsigned b)))))) bs -> forall s m, c_ok s -> bstate s n cs m -> exists s',
  store_blueprints bs s = (Ok tt, s') /\ c_ok s' /\ bstate s' n cs (stored bs m) /\ outside s s' n.
Proof.
  intros Hn Hlen Hbs Hzs. induction Hbs as [|b bs Hb Hbs IH]; intros s m Hs Hst; [by exists s|]. apply Forall_cons in Hzs as [Hz Hzs].
  destruct (store_step s n cs m b) as (s1&E1&Hs1&Hst1&Ho1); [done..|]. destruct (IH Hzs s1 _ Hs1 Hst1) as (s2&E2&Hs2&Hst2&Ho2). exists s2.
  split_and!; [|done..|].
  - cbn [store_blueprints]. unfold mbind, M_bind. by rewrite E1.
  - intros q Hq. by rewrite Ho2, Ho1.
Qed.

Lemma stored_spec n cs bs : Forall (chunk_message n cs) bs -> forall m,
  (forall i c, m !! i = Some c -> cs !! N.to_nat i = Some c) -> forall i,
  stored bs m !! i = if bool_decide (is_Some (m !! i) \/ Exists (fun b => chunk_index (unsigned b) = i) bs) then cs !! N.to_nat i else None.
Proof.
  intros Hbs. induction Hbs as [|b bs (_&_&_&Hc) Hbs IH]; intros m Hm i; cbn [stored].
  - destruct (m !! i) as [c|] eqn:E; [rewrite bool_decide_eq_true_2 by (left; eauto); symmetry; by apply Hm|].
    rewrite bool_decide_eq_false_2; [done|]. intros [[]|H%Exists_nil]; done.
  - rewrite IH.
    + set (j := chunk_index (unsigned b)). apply bool_decide_ext || (apply (f_equal (fun x : bool => if x then cs !! N.to_nat i else None)); apply bool_decide_ext).
      rewrite Exists_cons. destruct (decide (i = j)) as [->|Hne]; [rewrite lookup_insert_eq|rewrite lookup_insert_ne by done]; naive_solver.
    + intros k c. rewrite lookup_insert_Some. intros [[<- <-]|[_ Hk]]; [done|by apply Hm].
Qed.
(** ** Reading the next blueprint *)

Definition current_steps : list bytes := [str "blocks"; str "current"; str "number"].
(** The number of the current block, if there is one. *)
Definition current s (o : option N) : Prop :=
  match o with Some k => below 64 k /\ c_value s current_steps = Some (le_bytes 32 k) | None => c_value s current_steps = None end.
Definition next_number (o : option N) : N := match o with Some k => (k + 1)%N | None => 0%N end.
Lemma next_number_bound s o : current s o -> below 256 (next_number o).
Proof. destruct o as [k|]; [intros [Hk _]|intros _]; unfold below in *; cbn [next_number]; [lia|done]. Qed.

Lemma take_le_bytes a b z : take a (le_bytes (a + b) z) = le_bytes a z.
Proof. revert z. induction a as [|a IH]; intros z; [done|]. cbn [Nat.add le_bytes take]. by rewrite IH. Qed.

Lemma read_number s o : c_ok s -> current s o -> read_next_blueprint_number s = (Ok (next_number o), s).
Proof.
  intros Hs Hc. assert (Hp : path_ok (str "/blocks/current/number")) by (by apply validate_path_spec).
  unfold read_next_blueprint_number, mbind, M_bind, M_ok, read_current_block_number, mbind, M_bind, paths, lift.
  change (concat EVM_CURRENT_BLOCK BLOCK_NUMBER) with (Ok (E := PathError) (str "/blocks/current/number")). cbn [map_err].
  destruct o as [k|]; cbn [current] in Hc.
  - destruct Hc as [Hk Hc]. rewrite (read_slice_take s _ _ 8 Hs Hp Hc) by (rewrite ?length_le_bytes; vm_compute; lia).
    change 32 with (8 + 24). rewrite take_le_bytes. unfold from_little_endian, lift. rewrite u256_from_le_spec by (rewrite length_le_bytes; lia).
    cbn [map_err]. rewrite of_le_bytes_le_bytes by done. unfold mret, M_ret. do 2 f_equal. unfold next_number, U256_max. unfold below in Hk. lia.
  - by rewrite read_slice_none.
Qed.

Lemma bcount s n k m : c_ok s -> below 256 n -> bholds s n k m -> (forall i, is_Some (m !! i) -> below 16 i) ->
  store_count_subkeys (bpath n) s = (Ok (1 + size m), s).
Proof.
  intros Hs Hn Hb Hm. destruct (bpath_ok n Hn) as (Hp&Hst&_). destruct (c_list_size s (bpath n) Hs Hp) as (l&Hnd&Hl&Hz); [rewrite Hst; by apply (bh_base s n k m)|].
  rewrite Hst in Hl. set (keys := (map_to_list m).*1). assert (Hkeys : forall i, i ∈ keys <-> is_Some (m !! i)) by (apply (received_elem (mkPending 0 [] m))).
  assert (Hperm : l ≡ₚ NB :: map (decimal 5) keys).
  { apply NoDup_Permutation; [done| |].
    - apply NoDup_cons. split; [rewrite list_elem_of_fmap; intros (i&E&Hi%Hkeys%Hm); by destruct (decimal_not_NB i Hi)|].
      apply NoDup_fmap_2_strong; [|apply NoDup_fst_map_to_list]. intros i j Hi%Hkeys%Hm Hj%Hkeys%Hm. by apply decimal_inj.
    - intros x. rewrite Hl, elem_of_cons, list_elem_of_fmap. split.
      + intros [->|(i&_&->&Hi)]%(bh_nodes s n k m Hb); [by left|right]. exists i. split; [done|]. by apply Hkeys.
      + intros [->|(i&->&Hi%Hkeys)]; apply node_of_value; [done|rewrite (bh_nb s n k m Hb); eauto|done|].
        rewrite (bh_chunk s n k m Hb) by auto. destruct Hi as [c ->]. cbn. eauto. }
  destruct Hz as [Hz|[-> _]]; [|by apply Permutation_nil_l in Hperm]. apply count_subkeys_ok. rewrite Hz, Hperm. cbn [length].
  unfold keys. by rewrite length_map, length_fmap, length_map_to_list.
Qed.

Lemma bread_chunks s n k m : c_ok s -> below 256 n -> bholds s n k m -> forall ixs buffer,
  (forall i, i ∈ ixs -> exists c, below 16 i /\ m !! i = Some c /\ size_ok (length (rlp_bytes (SequencerChunk c)))) ->
  read_chunks (bpath n) ixs buffer s = (Ok (inl (buffer ++ mjoin (map (fun i => default [] (m !! i)) ixs))), s).
Proof.
  intros Hs Hn Hb ixs. induction ixs as [|i ixs IH]; intros buffer Hi; [by rewrite app_nil_r|].
  destruct (Hi i ltac:(by left)) as (c&H16&Hc&Hz). destruct (bchunk_path_ok n i Hn H16) as (p&Hp&Hst&Hpath).
  assert (Hv : c_value s (path_steps p) = Some (rlp_bytes (SequencerChunk c))) by (rewrite Hst, (bh_chunk s n k m Hb), Hc by done; done).
  cbn [read_chunks]. unfold mbind, M_bind. rewrite Hpath. unfold read_rlp, mbind, M_bind, M_map_err, lift.
  rewrite (store_read_all_spec s p _ Hs Hp Hv Hz). cbn [map_err]. unfold from_rlp_bytes. destruct (StoreBlueprint_law (SequencerChunk c) I) as [_ ->].
  cbn [map_err]. rewrite IH by (intros j Hj; apply Hi; by right). cbn [map]. rewrite Hc. change (mjoin (?a :: ?l)) with (a ++ mjoin l).
  by rewrite <- app_assoc.
Qed.
(** All chunks are among the messages. *)
Definition all_chunks (cs : list bytes) (bs : list SequencerBlueprint) : bool :=
  forallb (fun i => existsb (fun b => (chunk_index (unsigned b) =? i)%N) bs) (indices (N.of_nat (length cs))).
Lemma all_chunks_spec cs bs : all_chunks cs bs = true <->
  forall i, (i < N.of_nat (length cs))%N -> Exists (fun b => chunk_index (unsigned b) = i) bs.
Proof.
  unfold all_chunks. rewrite forallb_forall. setoid_rewrite existsb_exists. setoid_rewrite <- list_elem_of_In. setoid_rewrite indices_elem.
  setoid_rewrite Exists_exists. setoid_rewrite N.eqb_eq. done.
Qed.

Section stored.
Context (n : N) (cs : list bytes) (bs : list SequencerBlueprint).
Context (Hn : below 256 n) (Hcs : below 16 (N.of_nat (length cs))) (Hbs : Forall (chunk_message n cs) bs).
Context (Hsizes : Forall (fun c => size_ok (length (rlp_bytes (SequencerChunk c)))) cs).
Local Abbreviation m := (stored bs ∅).

Lemma stored_lookup i c : m !! i = Some c -> cs !! N.to_nat i = Some c.
Proof. rewrite (stored_spec n cs bs Hbs ∅) by (by intros ?? H; rewrite lookup_empty in H). by case_bool_decide. Qed.
Lemma stored_range i : is_Some (m !! i) -> (i < N.of_nat (length cs))%N.
Proof. intros [c Hc%stored_lookup%lookup_lt_Some]. lia. Qed.
Lemma stored_in_range : in_range (mkPending (N.of_nat (length cs)) [] m).
Proof. intros i c Hc. cbn [p_num p_chunks] in *. apply stored_range. by exists c. Qed.
Lemma stored_complete : complete (mkPending (N.of_nat (length cs)) [] m) = all_chunks cs bs.
Proof.
  apply eq_true_iff_eq. rewrite complete_iff, all_chunks_spec by apply stored_in_range. cbn [p_num p_chunks].
  split; intros H i Hi; specialize (H i Hi); rewrite (stored_spec n cs bs Hbs ∅) in *; try (by intros ?? Hx; rewrite lookup_empty in Hx); rewrite lookup_empty in *.
  - case_bool_decide as Hb; [|by destruct H]. destruct Hb as [[]|]; done.
  - rewrite bool_decide_eq_true_2 by (by right). apply lookup_lt_is_Some. lia.
Qed.

(** The chunks are all read, in order. *)
Lemma read_stored s : c_ok s -> bholds s n (N.of_nat (length cs)) m -> all_chunks cs bs = true ->
  read_chunks (bpath n) (indices (N.of_nat (length cs))) [] s = (Ok (inl (mjoin cs)), s).
Proof.
  intros Hs Hb Hall. rewrite <- stored_complete in Hall. rewrite (bread_chunks s n _ m Hs Hn Hb).
  - do 3 f_equal. cbn [app]. apply (assemble_chunks cs (mkPending (N.of_nat (length cs)) [] m)); [done| |done]. intros i d. apply stored_lookup.
  - intros i Hi%indices_elem. destruct (proj1 (complete_iff _ stored_in_range) Hall i Hi) as [c Hc]. cbn [p_chunks] in Hc. exists c.
    split_and!; [unfold below in *; lia|done|]. apply stored_lookup in Hc. by eapply Forall_lookup in Hsizes.
Qed.

Lemma read_next s o (l : LinkedList Hash) bridge seq b : c_ok s -> current s o -> next_number o = n -> bstate s n cs m -> cs <> [] ->
  decode (Codec := BlueprintWithDelayedHashes_codec) (mjoin cs) = Ok (mkBlueprintWithDelayedHashes [] b) ->
  read_next_blueprint (Sequencer bridge seq) (l, s) = (Ok (if all_chunks cs bs then Some b else None), (l, s)).
Proof.
  intros Hs Hcur Hno Hst Hne Hdec. destruct (bpath_ok n Hn) as (Hp&Hps&_&Hpath).
  unfold read_next_blueprint, kernel, EvmBlueprints.runtime, on_host, mbind, M_bind, M_map_err. rewrite (read_number s o), Hno by done. cbn [map_err]. rewrite Hpath. cbn [map_err].
  destruct Hst as [[Hm Hnone]|[Hb Hm]].
  - rewrite (store_has_leaf s (bpath n)) by (done || (intros x; rewrite Hps; apply Hnone)). cbn [map_err]. rewrite bool_decide_eq_false_2.
    + assert (Hf : all_chunks cs bs = false); [|by rewrite Hf]. rewrite <- stored_complete. unfold complete. cbn [p_num p_chunks].
      rewrite Hm, map_size_empty. apply bool_decide_eq_false_2. destruct cs; [done|cbn; lia].
    + rewrite Hps. intros Hv. destruct (Hnone []). rewrite app_nil_r. by apply node_of_value.
  - destruct (store_has_spec s (bpath n) Hs Hp) as (sub&_&Hsub&_&Hhas).
    assert (sub = true) as -> by (apply (Hsub [NB]); [done|]; rewrite Hps, (bh_nb _ _ _ _ Hb); eauto).
    assert (Hex : exists v, store_has (bpath n) s = (Ok (Some v), s)) by (rewrite Hhas; destruct (bool_decide _); eauto).
    destruct Hex as [v ->]. cbn [map_err]. destruct (nb_path_ok n Hn) as (Hnp&Hnst&Hnpath).
    assert (Hnb : read_blueprint_nb_chunks (bpath n) s = (Ok (N.of_nat (length cs)), s)).
    { unfold read_blueprint_nb_chunks, mbind, M_bind. rewrite Hnpath. pose proof (bh_nb _ _ _ _ Hb) as Hv. rewrite <- Hnst in Hv.
      rewrite (read_slice_ok s _ _ 2 Hs Hnp Hv) by (rewrite ?length_le_bytes; done || (vm_compute; lia)). unfold mret, M_ret. do 2 f_equal.
      by apply (of_le_bytes_le_bytes 2). }
    rewrite Hnb. cbn [map_err]. pose proof (size_le _ stored_in_range) as Hsz. cbn [p_num p_chunks] in Hsz. unfold below in Hcs.
    rewrite (bcount s n _ m Hs Hn Hb) by (intros i Hi%stored_range; unfold below; lia). cbn [map_err].
    assert (Hav : ((N.of_nat (1 + size m) mod 2 ^ 16 + 65535) mod 2 ^ 16 = N.of_nat (size m))%N).
    { rewrite N.Div0.add_mod_idemp_l. replace (N.of_nat (1 + size m) + 65535)%N with (N.of_nat (size m) + 1 * 2 ^ 16)%N by lia.
      rewrite N.Div0.mod_add. apply N.mod_small. lia. }
    rewrite Hav. pose proof stored_complete as Hcomp. unfold complete in Hcomp. cbn [p_num p_chunks] in Hcomp.
    destruct (N.eqb_spec (N.of_nat (size m)) (N.of_nat (length cs))) as [Heq|Hneq].
    + rewrite bool_decide_eq_true_2 in Hcomp by lia. rewrite <- Hcomp. unfold read_all_chunks, kernel, on_host, mbind, M_bind, M_map_err.
      rewrite read_stored by done. cbn [map_err]. rewrite Hdec. by destruct b.
    + rewrite bool_decide_eq_false_2 in Hcomp by lia. by rewrite <- Hcomp.
Qed.
End stored.

(** C26: blueprints sent in chunks are read back.  Let the chunks of a blueprint for the next block number be
    stored in any order, with repetitions, where nothing was stored under that number.  Storing them succeeds;
    reading the next blueprint as a sequencer gives nothing as long as a chunk is missing, and the blueprint that the chunks
    encode as soon as all are there (here one that takes no transaction from the delayed inbox). *)
Theorem blueprint_chunks_any_order s o (cs : list bytes) (bs : list SequencerBlueprint) (l : LinkedList Hash) bridge seq b :
  c_ok s -> current s o -> (forall r, ~ c_node s (bbase (next_number o) ++ r)) ->
  cs <> [] -> below 16 (N.of_nat (length cs)) -> Forall (fun c => size_ok (length (rlp_bytes (SequencerChunk c)))) cs ->
  Forall (chunk_message (next_number o) cs) bs ->
  decode (Codec := BlueprintWithDelayedHashes_codec) (mjoin cs) = Ok (mkBlueprintWithDelayedHashes [] b) ->
  exists s', store_blueprints bs s = (Ok tt, s') /\
    read_next_blueprint (Sequencer bridge seq) (l, s') = (Ok (if all_chunks cs bs then Some b else None), (l, s')).
Proof.
  intros Hs Hcur Hnone Hne Hlen Hsz Hbs Hdec. pose proof (next_number_bound s o Hcur) as Hn.
  destruct (store_all (next_number o) cs bs Hn Hlen Hbs) with (s := s) (m := (∅ : gmap N bytes)) as (s'&E&Hs'&Hst&Hout).
  - eapply Forall_impl; [exact Hbs|]. intros x (_&_&_&Hc). by eapply Forall_lookup in Hsz.
  - done.
  - by left.
  - exists s'. split; [done|]. eapply read_next; try done. unfold current in *. by rewrite !Hout by done.
Qed.
End props.
