(* ===== verification/EvmExamples.v ===== *)
(** The storage of the Etherlink kernel on the in-memory host.

    Concrete [rlp] and [hex] crates, logs and a clock, which satisfy the laws the theorems rely on, and runs of the
    theorems and of the code on them: the linked list, blocks, chunked transactions and blueprints. *)

#[local] Set Warnings "-register-all".
From S2P Require Import Prelude Endian KernelPath KernelHost KernelRuntime KernelStore KernelStoreLaws KernelStorage SdkNom SdkMichelson Rlp EvmStorage LinkedList LinkedListProps EthTypes EthSign EvmTx EthBlock EvmStore EvmChunks EvmBlueprints.

(** * An encoding of items

    Brackets around values and lists, and an escape before every byte of a value. *)

Module Brackets.
Definition OPEN : byte := Byte.x00.
Definition CLOSE : byte := Byte.x01.
Definition ESC : byte := Byte.x02.
Definition LOPEN : byte := Byte.xc3.
Definition LCLOSE : byte := Byte.x04.

Definition esc (b : bytes) : bytes := mjoin (map (fun c => [ESC; c]) b).
Definition enc_value (b : bytes) : bytes := OPEN :: esc b ++ [CLOSE].
Definition enc_list (l : list bytes) : bytes := LOPEN :: mjoin l ++ [LCLOSE].

(** The bytes until [n] brackets are closed, and the rest. *)
Fixpoint scan (n : nat) (bs : bytes) : bytes * bytes :=
  match bs with
  | [] => ([], [])
  | t :: r =>
      if bool_decide (t = ESC) then
        match r with
        | [] => ([t], [])
        | c :: r => let '(a, b) := scan n r in (t :: c :: a, b)
        end
      else if bool_decide (t = OPEN) || bool_decide (t = LOPEN) then let '(a, b) := scan (S n) r in (t :: a, b)
      else match n with S (S n) => let '(a, b) := scan (S n) r in (t :: a, b) | _ => ([t], r) end
  end.
Fixpoint items_of (fuel : nat) (bs : bytes) : list bytes :=
  match fuel, bs with
  | S fuel, _ :: _ => let '(a, b) := scan 0 bs in a :: items_of fuel b
  | _, _ => []
  end.
Fixpoint unesc (bs : bytes) : bytes := match bs with _ :: c :: r => c :: unesc r | _ => [] end.
Definition body (r : bytes) : bytes := removelast (tail r).
Definition is_list (r : bytes) : bool := bool_decide (head r = Some LOPEN).
Definition iter (r : bytes) : list bytes := items_of (length r) (body r).

Fixpoint decode_all {A} {C : Codec A} (l : list bytes) : decoded (list A) :=
  match l with [] => Ok [] | x :: l => a ← decode x; l ← decode_all l; Ok (a :: l) end.

#[global] Instance crate : RlpCrate := {
  rlp_value := enc_value;
  rlp_list := enc_list;
  rlp_is_list := is_list;
  rlp_is_empty r := length r =? 2;
  rlp_item_count r := if is_list r then Ok (length (iter r)) else Err (CrateError 0);
  rlp_iter := iter;
  rlp_at r i := ok_or (CrateError 2) (iter r !! i);
  rlp_as_list A C r := decode_all (iter r);
  rlp_data r := if is_list r then Err (CrateError 1) else Ok (unesc (body r))
}.

Definition balanced (w : bytes) : Prop := forall n rest, 0 < n ->
  scan n (w ++ rest) = (w ++ (scan n rest).1, (scan n rest).2).
Definition bracket (w : bytes) : Prop := balanced w /\ w <> [] /\ forall rest, scan 0 (w ++ rest) = (w, rest).

Lemma balanced_nil : balanced [].
Proof. intros n rest _. cbn [app]. by destruct (scan n rest) as [a b]. Qed.
Lemma balanced_app v w : balanced v -> balanced w -> balanced (v ++ w).
Proof. intros Hv Hw n rest Hn. by rewrite <- app_assoc, Hv, Hw, <- app_assoc. Qed.
Lemma balanced_join l : Forall balanced l -> balanced (mjoin l).
Proof. induction 1; cbn; [apply balanced_nil|by apply balanced_app]. Qed.

Lemma bracketed (o c : byte) w : (o = OPEN /\ c = CLOSE) \/ (o = LOPEN /\ c = LCLOSE) -> balanced w ->
  bracket (o :: w ++ [c]).
Proof.
  intros Hoc Hw. assert (E : forall rest, (o :: w ++ [c]) ++ rest = o :: w ++ c :: rest) by (intros rest; cbn; by rewrite <- app_assoc).
  assert (Ho : forall n r, scan n (o :: r) = (o :: (scan (S n) r).1, (scan (S n) r).2))
    by (intros n r; destruct Hoc as [[-> _]|[-> _]]; cbn; by destruct (scan (S n) r)).
  assert (Hc : forall n r, scan (S (S n)) (c :: r) = (c :: (scan (S n) r).1, (scan (S n) r).2))
    by (intros n r; destruct Hoc as [[_ ->]|[_ ->]]; cbn -[scan]; cbn; by destruct (scan (S n) r)).
  assert (Hc1 : forall r, scan 1 (c :: r) = ([c], r)) by (intros r; by destruct Hoc as [[_ ->]|[_ ->]]).
  split_and!; [|done|].
  - intros n rest Hn. destruct n as [|n]; [lia|]. rewrite !E, Ho, Hw, Hc by lia. done.
  - intros rest. by rewrite !E, Ho, Hw, Hc1 by lia.
Qed.

Lemma esc_balanced b : balanced (esc b).
Proof.
  apply balanced_join. apply Forall_map, Forall_forall. intros c _ n rest Hn. cbn. by destruct (scan n rest).
Qed.

Lemma item_bracket x : item x -> bracket x.
Proof.
  revert x. fix IH 2. intros x [b|l Hl].
  - apply bracketed; [by left|apply esc_balanced].
  - apply bracketed; [by right|]. apply balanced_join. induction Hl as [|y l Hy Hl IHl]; constructor; [apply IH, Hy|apply IHl].
Qed.

Lemma items_of_join l fuel : Forall item l -> length (mjoin l) <= fuel -> items_of fuel (mjoin l) = l.
Proof.
  intros Hl. revert fuel. induction Hl as [|x l Hx Hl IH]; intros fuel Hf; [by destruct fuel|].
  apply item_bracket in Hx as (_&Hne&Hs). change (mjoin (x :: l)) with (x ++ mjoin l) in *.
  rewrite length_app in Hf. destruct x as [|c x]; [done|].
  destruct fuel as [|fuel]; [cbn in Hf; lia|].
  change (items_of (S fuel) ((c :: x) ++ mjoin l)) with (let '(a, b) := scan 0 ((c :: x) ++ mjoin l) in a :: items_of fuel b).
  rewrite Hs. f_equal. apply IH. cbn [length] in Hf. lia.
Qed.

Lemma body_enc o w c : body (o :: w ++ [c]) = w.
Proof. unfold body. cbn. apply removelast_last. Qed.
Lemma unesc_esc b : unesc (esc b) = b.
Proof. induction b as [|c b IH]; [done|]. change (esc (c :: b)) with (ESC :: c :: esc b). cbn [unesc]. by rewrite IH. Qed.
Lemma length_esc b : length (esc b) = 2 * length b.
Proof. induction b as [|c b IH]; [done|]. change (esc (c :: b)) with (ESC :: c :: esc b). cbn [length]. rewrite IH. lia. Qed.

Lemma iter_list l : Forall item l -> iter (enc_list l) = l.
Proof.
  intros Hl. unfold iter, enc_list. rewrite body_enc. apply items_of_join; [done|].
  cbn [length]. rewrite length_app. lia.
Qed.

Lemma length_enc_value b : length (enc_value b) = 2 * length b + 2.
Proof. unfold enc_value. cbn [length]. rewrite length_app, length_esc. cbn [length]. lia. Qed.
Lemma length_join (l : list bytes) : length (mjoin l) = sum_list_with length l.
Proof. induction l as [|x l IH]; [done|]. change (mjoin (x :: l)) with (x ++ mjoin l). rewrite length_app, IH. done. Qed.
Lemma length_enc_list l : length (enc_list l) = sum_list_with length l + 2.
Proof. unfold enc_list. cbn [length]. rewrite length_app, length_join. cbn [length]. lia. Qed.

#[global] Instance bracket_laws : RlpLaws crate.
Proof.
  split; cbn [rlp_value rlp_list rlp_is_list rlp_is_empty rlp_item_count rlp_iter rlp_at rlp_data rlp_as_list crate].
  - done.
  - done.
  - intros l Hl. rewrite iter_list by done. done.
  - apply iter_list.
  - intros l i x Hl Hi. by rewrite iter_list, Hi.
  - intros A C l Hl. rewrite iter_list by (apply Forall_map; eapply Forall_impl; [exact Hl|by intros a []]).
    induction Hl as [|a l [_ Ha] Hl IH]; [done|]. cbn. rewrite Ha. cbn. by rewrite IH.
  - intros b. unfold enc_value. rewrite body_enc, unesc_esc. done.
  - intros b. rewrite length_enc_value. destruct b; [done|]. rewrite bool_decide_eq_false_2 by done.
    apply Nat.eqb_neq. cbn [length]. lia.
  - intros l Hl. rewrite length_enc_list. destruct Hl as [|x l Hx Hl]; [done|].
    apply item_bracket in Hx as (_&Hne&_). destruct x; [done|]. rewrite bool_decide_eq_false_2 by done.
    apply Nat.eqb_neq. cbn [sum_list_with length]. lia.
  - intros b. rewrite length_enc_value. lia.
  - intros l. rewrite length_enc_list. lia.
Qed.
End Brackets.

(** * Hexadecimal digits *)

Module Hex.
Definition digits : bytes := str "0123456789abcdef".
Definition digit (n : N) : byte := nth (N.to_nat n) digits Byte.x00.
Definition encode (b : bytes) : bytes := mjoin (map (fun c => [digit (Byte.to_N c / 16); digit (Byte.to_N c mod 16)]) b).
#[global] Instance crate : HexCrate := { hex_encode := encode }.

Definition undigit (c : byte) : N := let n := Byte.to_N c in (if n <? 97 then n - 48 else n - 87)%N.
Lemma undigit_digits c : byte_of_N (16 * undigit (digit (Byte.to_N c / 16)) + undigit (digit (Byte.to_N c mod 16))) = c.
Proof. by destruct c. Qed.

#[global] Instance hex_laws : HexLaws crate.
Proof.
  split; cbn [hex_encode crate].
  - intros a. induction a as [|c a IH]; intros [|d b]; try done.
    assert (Hc : forall x l, encode (x :: l) = digit (Byte.to_N x / 16) :: digit (Byte.to_N x mod 16) :: encode l) by done.
    rewrite !Hc. intros [= E1 E2 E3]. f_equal; [|by apply IH].
    rewrite <- (undigit_digits c), <- (undigit_digits d). by rewrite E1, E2.
  - intros b. apply Forall_join, Forall_map, Forall_forall. intros c _. destruct c; repeat constructor; apply (bool_decide_unpack _); reflexivity.
  - intros b. induction b as [|c b IH]; [done|]. change (length (encode (c :: b))) with (2 + length (encode b)). rewrite IH. cbn. lia.
Qed.
End Hex.

(** * A list of byte strings, identified by one byte *)

#[global] Instance byte_id_codec : Codec byte := {
  rlp_bytes b := rlp_value [b];
  decode r := bs ← rlp_data r; match bs with [b] => Ok b | _ => Err (Custom (str "id")) end
}.
#[global] Instance byte_id_laws : CodecLaws byte.
Proof.
  split; intros b; cbn [rlp_bytes decode byte_id_codec].
  - constructor.
  - by rewrite rlp_value_is_empty.
  - by rewrite rlp_value_data.
Qed.

Definition id_bytes (b : byte) : bytes := [b].
Definition list_path : bytes := str "/delayed-inbox".
Lemma list_ids_fit : ids_fit id_bytes 1 list_path.
Proof.
  split.
  - by apply path_ok_compute.
  - by intros i j [= ->].
  - done.
  - done.
  - vm_compute. lia.
  - intros i. by destruct i.
Qed.

Definition empty_host : Store := mkStore node_default [].
Lemma empty_host_ok : c_ok empty_host.
Proof. apply tree_ok_default. Qed.
Lemma no_node x r : node_from_path (x :: r) node_default = None.
Proof. cbn. by rewrite lookup_empty. Qed.
Lemma empty_host_value q : c_value empty_host q = None.
Proof. cbn. unfold store_value, legal_value. destruct (decide _); [apply value_at_default|done]. Qed.

Lemma empty_host_untouched : untouched list_path empty_host.
Proof.
  split_and!; [apply empty_host_ok|intros r; apply empty_host_value|].
  intros x r [_ Hn]. change (path_steps list_path ++ x :: r) with (str "delayed-inbox" :: x :: r) in Hn.
  cbn [durable empty_host] in Hn. rewrite no_node in Hn. by destruct Hn.
Qed.

Lemma bytes_decode (e : bytes) : decode (rlp_bytes e) = Ok e.
Proof. apply rlp_value_data. Qed.

Definition ID_A : byte := Byte.x61.
Definition ID_B : byte := Byte.x62.
Definition ID_C : byte := Byte.x63.
Definition ID_D : byte := Byte.x64.

Lemma linked_list_refines_sequence_witness : exists self self' s',
  new list_path empty_host = (Ok self, empty_host) /\
  run id_bytes list_path [Push ID_A (str "1"); Push ID_B (str "2"); Push ID_A (str "3"); Reload; PopFirst; Push ID_C (str "4");
     Remove ID_B; Find ID_C; First; IsEmpty] (self, empty_host) =
    (Ok [RUnit; RUnit; RUnit; RUnit; RElt (Some (str "1")); RUnit; RElt (Some (str "2")); RElt (Some (str "4"));
        RElt (Some (str "4")); RBool false], (self', s')).
Proof.
  edestruct (linked_list_refines_sequence (S := Store) bytes_decode id_bytes 1 list_path list_ids_fit
    [Push ID_A (str "1"); Push ID_B (str "2"); Push ID_A (str "3"); Reload; PopFirst; Push ID_C (str "4");
     Remove ID_B; Find ID_C; First; IsEmpty] empty_host) as (self&self'&s'&H1&H2&_); [exact empty_host_untouched|vm_compute; reflexivity|].
  exists self, self', s'. split; [exact H1|exact H2].
Defined.

(** Removing the last but one element damages a list.  After [a], [b], [c] are pushed and [b] is removed,
    pushing [d] writes the stale back pointer, whose predecessor is [b], over the one of [c].  Removing [c] then takes
    it for the first element: the list starts at [d], and once [d] is popped it is empty, although
    [a] was never removed and can still be found by its identifier. *)
Theorem remove_loses_elements :
  (run (S := Store) id_bytes list_path
    [Push ID_A (str "1"); Push ID_B (str "2"); Push ID_C (str "3"); Remove ID_B; Push ID_D (str "4"); Remove ID_C;
     PopFirst; IsEmpty; PopFirst; Find ID_A] (mkLinkedList list_path None, empty_host)).1 =
  Ok [RUnit; RUnit; RUnit; RElt (Some (str "2")); RUnit; RElt (Some (str "3")); RElt (Some (str "4")); RBool true;
      RElt None; RElt (Some (str "1"))].
Proof. vm_compute. reflexivity. Qed.

Lemma indexable_storage_is_array_witness : exists s',
  push_values (str "/blocks") [str "genesis"; []; str "second"] empty_host = (Ok tt, s') /\
  length_of (str "/blocks") s' = (Ok 3%N, s') /\
  get_value (str "/blocks") 2 s' = (Ok (str "second"), s') /\
  get_value (str "/blocks") 3 s' = (Err IndexOutOfBounds, s').
Proof.
  assert (Hp : path_ok (str "/blocks")) by (apply path_ok_compute; reflexivity).
  edestruct (indexable_storage_is_array (S := Store) (str "/blocks") Hp) as (s'&H1&H2&H3).
  - vm_compute. lia.
  - exact empty_host_ok.
  - apply empty_host_value.
  - instantiate (1 := [str "genesis"; []; str "second"]). vm_compute. reflexivity.
  - repeat constructor; vm_compute; reflexivity.
  - exists s'. split; [exact H1|]. split; [exact H2|]. split; apply H3; vm_compute; reflexivity.
Defined.

(** * Numbers, hashes and signatures *)

Module Eth.
Definition num (w : nat) : Codec N := {|
  rlp_bytes n := rlp_value (le_bytes w n);
  decode d := bs ← rlp_data d; if length bs =? w then Ok (of_le_bytes bs) else Err RlpInvalidLength
|}.
Definition blob (w : nat) : Codec bytes := {|
  rlp_bytes b := rlp_value b;
  decode d := bs ← rlp_data d; if length bs =? w then Ok bs else Err RlpInvalidLength
|}.
#[global] Instance crates : EthCrates := {
  u256_codec := num 32; u64_codec := num 8; u32_codec := num 4; u8_codec := num 1;
  h160_codec := blob 20; h256_codec := blob 32; bloom_codec := blob 256
}.

Lemma num_law w bits : (2 ^ bits = 256 ^ N.of_nat w)%N -> codec_on (num w) (below bits).
Proof.
  intros Hb n Hn. unfold below in Hn. cbn [rlp_bytes decode num]. split; [constructor|]. rewrite rlp_value_data. cbn [mbind outcome_bind].
  rewrite length_le_bytes, Nat.eqb_refl, of_le_bytes_le_bytes; [done|]. by rewrite <- Hb.
Qed.
Lemma num_range w bits : (2 ^ bits = 256 ^ N.of_nat w)%N -> codec_range (num w) (below bits).
Proof.
  intros Hb d n (bs&_&H)%outcome_bind_ok. destruct (Nat.eqb_spec (length bs) w); [|done]. injection H as <-. unfold below.
  rewrite Hb. subst. apply of_le_bytes_bound.
Qed.
Lemma blob_law w : codec_on (blob w) (sized w).
Proof.
  intros b Hb. cbn [rlp_bytes decode blob]. split; [constructor|]. rewrite rlp_value_data. cbn [mbind outcome_bind]. by rewrite Hb, Nat.eqb_refl.
Qed.
Lemma blob_range w : codec_range (blob w) (sized w).
Proof. intros d b (bs&_&H)%outcome_bind_ok. destruct (Nat.eqb_spec (length bs) w); [|done]. by injection H as <-. Qed.
Lemma decode_all_range {A} (C : Codec A) P l (r : list A) : codec_range C P -> Brackets.decode_all (C := C) l = Ok r -> Forall P r.
Proof.
  intros HC. revert r. induction l as [|x l IH]; intros r H; cbn in H; [injection H as <-; constructor|].
  apply outcome_bind_ok in H as (a&Ha&H). apply outcome_bind_ok in H as (r'&Hr&H). injection H as <-. constructor; [by eapply HC|by apply IH].
Qed.

#[global] Instance eth_laws : EthLaws crates.
Proof.
  split; cbn [u256_codec u64_codec u32_codec u8_codec h160_codec h256_codec bloom_codec crates];
    try (by apply num_law) || (by apply num_range) || apply blob_law || apply blob_range.
  - intros A C P d l HC. apply decode_all_range, HC.
  - intros b Hb. cbn [rlp_bytes blob]. rewrite rlp_value_is_empty. apply bool_decide_eq_false_2. by intros ->.
  - done.
  - intros l. eexists _, _. split; [reflexivity|]. vm_compute. discriminate.
Qed.

(** Two keys; a signature says which one made it. *)
Definition key_bytes (sk : bool) : bytes := Byte.x04 :: repeat (if sk then Byte.xaa else Byte.xbb) 64.
#[global] Instance secp : Secp := {
  Scalar := byte; SecretKey := bool;
  scalar_set_b32 bs := default Byte.x00 (head bs);
  scalar_b32 s := s :: repeat Byte.x00 31;
  is_high s := (128 <=? Byte.to_N s)%N;
  recovery_id_parse n := if (n <? 4)%N then Ok n else Err 1;
  secret_key_parse bs := match bs with [b] => Ok (bool_decide (b = Byte.x01)) | _ => Err 2 end;
  public_key := key_bytes;
  secp_sign msg sk := (Byte.x07, if sk then Byte.x01 else Byte.x02, 1%N);
  secp_recover msg sig ri := Ok (key_bytes (bool_decide (sig.2 = Byte.x01)));
  keccak256 bs := take 32 (bs ++ repeat Byte.x00 32);
  hex_decode bs := Ok bs
}.
#[global] Instance secp_laws : SecpLaws secp.
Proof.
  split; cbn [scalar_set_b32 scalar_b32 is_high recovery_id_parse secret_key_parse public_key secp_sign secp_recover keccak256 secp].
  - done.
  - done.
  - intros n Hn. by rewrite (proj2 (N.ltb_lt _ _)).
  - intros bs. unfold sized. rewrite length_take, length_app, repeat_length. lia.
  - intros msg sk r s ri [= <- <- <-]. destruct sk; by vm_compute.
Qed.

#[global] Instance from_le : U256FromLe := { u256_from_le bs := Ok (of_le_bytes bs); u256_from_le_spec bs _ := eq_refl }.

(** A legacy transaction that creates a contract, and a transaction with an access list. *)
Definition create : EthereumTransactionCommon := mkTx Legacy (Some 1337%N) 5 21 21 30000 None 1000 (str "code") [] None.
Definition call : EthereumTransactionCommon :=
  mkTx Eip1559 (Some 1337%N) 6 1 21 30000 (Some (repeat Byte.x0a 20)) 7 [] [mkAccessListItem (repeat Byte.x0b 20) [repeat Byte.x0c 32]]
    (Some (mkTxSignature 1 (repeat Byte.x01 32) (repeat Byte.x02 32))).
Lemma create_fits : tx_fits create.
Proof. by split. Qed.
Lemma call_fits : tx_fits call.
Proof. split; try done. by repeat constructor. Qed.
End Eth.

Lemma transactions_survive_encoding_witness :
  (bs ← to_bytes Eth.call; from_bytes bs) = Ok Eth.call /\ (bs ← to_bytes Eth.create; from_bytes bs) = Ok Eth.create.
Proof.
  split; apply (proj1 transactions_survive_encoding); [exact Eth.call_fits|done|exact Eth.create_fits|done].
Defined.

Lemma caller_is_signer_witness : exists tx',
  sign_transaction Eth.create [Byte.x01] = Ok tx' /\ option_map sig_v (signature tx') = Some 2710%N /\
  caller tx' = Ok (repeat Byte.xaa 20) /\ (bs ← to_bytes tx'; from_bytes bs) = Ok tx'.
Proof.
  eexists. split; [vm_compute; reflexivity|]. split; [vm_compute; reflexivity|].
  eapply (caller_is_signer (secp := Eth.secp) Eth.create [Byte.x01] [Byte.x01] _ true Byte.x07 Byte.x01 1%N); [vm_compute; reflexivity..| | |].
  - vm_compute; reflexivity.
  - exact Eth.create_fits.
  - done.
Defined.

Lemma kernel_values_survive_encoding_witness :
  let b := InboxBlueprint (mkBlueprint [mkTransaction (repeat Byte.x05 32) (Ethereum Eth.create);
    mkTransaction (repeat Byte.x06 32) (TDeposit (mkDeposit 12 (repeat Byte.x0d 20)))] (-1)) in
  decode (rlp_bytes b) = Ok b.
Proof.
  intros b. apply (proj1 (proj2 (proj2 (proj2 (proj2 kernel_values_survive_encoding))))).
  split; [|done]. repeat constructor; try done.
Defined.

(** * Logs without data, a bloom filter of one byte, a clock that prints seconds *)

Module Logs.
Definition codec : Codec (bytes * list bytes) := {|
  rlp_bytes l := rlp_list (map rlp_value (l.1 :: l.2));
  decode d := match Brackets.decode_all (A := bytes) (rlp_iter d) with
              | Ok (address :: topics) => Ok (address, topics)
              | _ => Err RlpIncorrectListLen
              end
|}.
#[global] Instance crates : LogCrates := {
  Log := bytes * list bytes; log_address := fst; log_topics := snd; log_codec := codec;
  bloom_default := repeat Byte.x00 256;
  bloom_accrue b x := match b, x with _ :: b, c :: _ => c :: b | _, _ => b end;
  bloom_accrue_bloom a b := zip_with (fun x y => byte_of_N (N.lor (Byte.to_N x) (Byte.to_N y))) a b
}.
Lemma codec_law : codec_on codec (fun _ => True).
Proof.
  intros [a ts] _. cbn [rlp_bytes decode codec fst snd log_codec crates].
  assert (Hv : Forall item (map rlp_value (a :: ts))) by (apply Forall_map, Forall_forall; intros; constructor).
  split; [by constructor|]. rewrite rlp_list_iter by done.
  assert (H : forall l : list bytes, Brackets.decode_all (map rlp_value l) = Ok l) by
    (intros l; induction l as [|x l IH]; [done|]; cbn [map Brackets.decode_all]; change (decode (rlp_value x)) with (rlp_data (rlp_value x)); rewrite rlp_value_data; cbn [mbind outcome_bind]; by rewrite IH).
  by rewrite H.
Qed.
Lemma accrue_sized (a x : bytes) : sized 256 a -> sized 256 (bloom_accrue a x).
Proof. unfold sized. by destruct a, x. Qed.
Lemma accrue_bloom_sized (a b : bytes) : sized 256 a -> sized 256 b -> sized 256 (bloom_accrue_bloom a b).
Proof. unfold sized. cbn [bloom_accrue_bloom crates]. rewrite length_zip_with. lia. Qed.
#[global] Instance log_laws : LogLaws crates := {|
  log_ok := fun _ => True; log_law := codec_law; bloom_default_sized := eq_refl;
  bloom_accrue_sized := accrue_sized; bloom_accrue_bloom_sized := accrue_bloom_sized
|}.
#[global] Instance rfc : Rfc3339 := { rfc3339 t := if bool_decide (0 <= t)%Z then Ok (decimal 20 (Z.to_N t)) else Err (str "out of range") }.
End Logs.

Lemma blocks_survive_encoding_witness :
  let log := mkIndexedLog ((repeat Byte.x0a 20, [str "topic"]) : Log) 3 in
  let r := mkReceipt (repeat Byte.x05 32) 1 7 (repeat Byte.x0a 20) None 42000 21 21000 (Some (repeat Byte.x0b 20)) [log]
    (logs_to_bloom [log]) Eip1559 Success in
  let b := mkL2Block 7 (repeat Byte.x01 32) (repeat Byte.x02 32) bloom_default (str "t") [] [] None (Some (str "x")) (Some 5%N) 42000 (-3)
    [repeat Byte.x05 32] in
  decode (rlp_bytes r) = Ok r /\ decode (rlp_bytes b) = Ok b.
Proof.
  intros log r b. destruct blocks_survive_encoding as (Hr&_&Hb). split; [apply Hr|apply Hb]; split; try done; repeat constructor.
Defined.

Lemma block_hash_commits_witness :
  (([], [], [], [], [], 7%N, 42%N) : bytes * bytes * bytes * bytes * bytes * N * N) = ([], [], [], [], [], 7%N, 42%N) /\
  timestamp_to_string 12 = timestamp_to_string 12 \/ collision.
Proof. apply (block_hash_commits 7 [] 12 [] [] [] [] [] 42 7 [str "t"] 12 [] [] [] [] [] 42); try (vm_compute; reflexivity). Defined.

(** * A transaction in two chunks *)

Module Chunked.
Definition tx : EthereumTransactionCommon := mkTx Legacy (Some 1337%N) 5 21 21 30000 None 1000 (repeat Byte.x2a 2500) [] None.
Definition data : bytes := Eval vm_compute in match to_bytes tx with Ok bs => bs | _ => [] end.
Definition tx_hash : bytes := keccak256 data.
Definition chunks : list bytes := [take MAX_SIZE_PER_CHUNK data; drop MAX_SIZE_PER_CHUNK data].
Definition hashes : list bytes := [repeat Byte.x01 32; repeat Byte.x02 32].
(** The last chunk first, a chunk of another transaction, and the last chunk again. *)
Definition messages : list ChunkInput :=
  [TransactionChunk tx_hash 1 (repeat Byte.x02 32) (drop MAX_SIZE_PER_CHUNK data);
   TransactionChunk (repeat Byte.x09 32) 0 (repeat Byte.x02 32) (str "unknown");
   TransactionChunk tx_hash 1 (repeat Byte.x02 32) (drop MAX_SIZE_PER_CHUNK data);
   TransactionChunk tx_hash 0 (repeat Byte.x01 32) (take MAX_SIZE_PER_CHUNK data)].

Lemma no_chunks_empty : no_chunks empty_host.
Proof.
  split; [apply empty_host_ok|]. intros h r [_ Hn]. unfold base in Hn. rewrite <- app_comm_cons in Hn. cbn [durable empty_host] in Hn. rewrite no_node in Hn.
  by destruct Hn.
Qed.
Lemma messages_ok : Forall input_ok (NewChunkedTransaction tx_hash 2 hashes :: messages).
Proof. repeat (apply Forall_cons_2; [unfold input_ok, sized, below; split_and!; apply (bool_decide_unpack _); vm_compute; reflexivity|]). apply Forall_nil_2. Qed.
Lemma chunks_sendable : sendable chunks.
Proof.
  split_and!; [done|done| |].
  - repeat (apply Forall_cons_2; [apply (bool_decide_unpack _); vm_compute; reflexivity|]). apply Forall_nil_2.
  - intros [|[|i]] c Hc Hi; try done. injection Hc as <-. apply (bool_decide_unpack _). vm_compute. reflexivity.
Qed.
End Chunked.

Lemma chunks_are_assembled_witness : exists s',
  handle_chunk_inputs (NewChunkedTransaction Chunked.tx_hash 2 Chunked.hashes :: Chunked.messages) empty_host =
    (Ok [mkTransaction Chunked.tx_hash (Ethereum Chunked.tx)], s').
Proof.
  edestruct (chunks_are_assembled (S := Store) (NewChunkedTransaction Chunked.tx_hash 2 Chunked.hashes :: Chunked.messages) empty_host) as (s'&H&_);
    [exact Chunked.no_chunks_empty|exact Chunked.messages_ok|].
  exists s'. rewrite H. vm_compute. reflexivity.
Defined.

Lemma all_chunks_delivered_witness : exists txs s',
  handle_chunk_inputs (NewChunkedTransaction Chunked.tx_hash 2 Chunked.hashes :: Chunked.messages) empty_host = (Ok txs, s') /\
  mkTransaction Chunked.tx_hash (Ethereum Chunked.tx) ∈ txs.
Proof.
  apply (all_chunks_delivered (S := Store) Chunked.tx_hash Chunked.hashes Chunked.chunks Chunked.tx Chunked.messages empty_host).
  - exact Chunked.chunks_sendable.
  - reflexivity.
  - vm_compute. reflexivity.
  - vm_compute. reflexivity.
  - exact Chunked.no_chunks_empty.
  - exact Chunked.messages_ok.
  - repeat constructor; intros; try discriminate; vm_compute; (reflexivity || (apply (bool_decide_unpack _); reflexivity)).
  - intros [|[|i]] Hi; [| |exfalso; vm_compute in Hi; lia].
    + do 3 apply Exists_cons_tl. apply Exists_cons_hd. split; reflexivity.
    + apply Exists_cons_hd. split; reflexivity.
Defined.

(** * Blueprints *)

Module Blueprints.
Definition plain : Blueprint := mkBlueprint [mkTransaction (repeat Byte.x05 32) (Ethereum Eth.create)] 12.
Definition encoded (hashes : list Hash) : bytes := rlp_bytes (Codec := BlueprintWithDelayedHashes_codec) (mkBlueprintWithDelayedHashes hashes plain).
Definition chunk_of (cs : list bytes) (i : nat) : SequencerBlueprint :=
  mkSequencerBlueprint (mkUnsigned (default [] (cs !! i)) 0 (N.of_nat (length cs)) (N.of_nat i)) [].
Definition two : list bytes := [take 50 (encoded []); drop 50 (encoded [])].
Definition inbox : LinkedList Hash := mkLinkedList DELAYED_INBOX_PATH None.
End Blueprints.

Lemma blueprint_chunks_any_order_witness : exists s',
  store_blueprints [Blueprints.chunk_of Blueprints.two 1; Blueprints.chunk_of Blueprints.two 0; Blueprints.chunk_of Blueprints.two 1] empty_host = (Ok tt, s') /\
  read_next_blueprint (Sequencer [] (PK_Ed25519 [])) (Blueprints.inbox, s') = (Ok (Some Blueprints.plain), (Blueprints.inbox, s')).
Proof.
  apply (blueprint_chunks_any_order (S := Store) empty_host None Blueprints.two
    [Blueprints.chunk_of Blueprints.two 1; Blueprints.chunk_of Blueprints.two 0; Blueprints.chunk_of Blueprints.two 1]
    Blueprints.inbox [] (PK_Ed25519 []) Blueprints.plain).
  - exact empty_host_ok.
  - apply empty_host_value.
  - intros r [_ Hn]. cbn [bbase durable empty_host app] in Hn. rewrite no_node in Hn. by destruct Hn.
  - discriminate.
  - reflexivity.
  - repeat (apply Forall_cons_2; [vm_compute; reflexivity|]). apply Forall_nil_2.
  - repeat (apply Forall_cons_2; [repeat split; vm_compute; reflexivity|]). apply Forall_nil_2.
  - vm_compute. reflexivity.
Defined.

(** A blueprint that names an unknown delayed transaction loses the others.  A deposit waits in the delayed inbox; a blueprint
    lists it, followed by a hash that is not in the inbox.  Reading the blueprint gives none and deletes it, and
    the deposit is gone: it is not part of any blueprint, and the delayed inbox, in memory and in storage, is empty. *)
Lemma delayed_transactions_lost :
  let deposit := mkTransaction (repeat Byte.x07 32) (TDeposit (mkDeposit 12 (repeat Byte.x0d 20))) in
  let chunk := Blueprints.encoded [mkHash (tx_hash deposit); mkHash (repeat Byte.x08 32)] in
  let m : M (LinkedList Hash * Store) Anyhow (option Blueprint * option DelayedTransaction * bool * option Blueprint) :=
    _ ← save_transaction deposit;
    _ ← kernel (store_sequencer_blueprint (Blueprints.chunk_of [chunk] 0));
    blueprint ← read_next_blueprint (Sequencer [] (PK_Ed25519 []));
    reloaded ← on_host DelayedInbox_new;
    found ← on_host (LinkedList.find hash_bytes reloaded (mkHash (tx_hash deposit)));
    again ← read_next_blueprint (Sequencer [] (PK_Ed25519 []));
    mret (blueprint, found, LinkedList.is_empty reloaded, again) in
  (m (Blueprints.inbox, empty_host)).1 = Ok (None, None, true, None).
Proof. vm_compute. reflexivity. Qed.
