(* ===== verification/EvmParsing.v ===== *)
(** The inputs of the Etherlink kernel.

    Models [etherlink/kernel_evm/kernel/src/parsing.rs], the layer one contracts of [inbox.rs] and [eth_from_mutez] of [ethereum/src/wei.rs].  Parsing
    only uses the host for its logs, which are left out.  Then: who can send each input, and the messages from which the kernel reads each input back. *)

From S2P Require Import Prelude Endian KernelPath KernelHost KernelRuntime KernelStorage KernelInput SdkNom SdkMicheline SdkMichelineProps SdkMichelson SdkMessages Rlp EvmStorage EthTypes EthSign EvmTx EthBlock EvmStore EvmChunks.

(** * Contracts of layer one (inbox.rs) *)

(** Contracts are their hashes. *)
Record TezosContracts : Set := mkTezosContracts { ticketer : option bytes; admin : option bytes; sequencer_admin : option bytes }.
Definition contains (contract : option bytes) (expected : bytes) : bool :=
  match contract with Some kt1 => bool_decide (kt1 = expected) | None => false end.
Definition is_admin (self : TezosContracts) (contract : bytes) : bool := contains (admin self) contract.
Definition is_sequencer_admin (self : TezosContracts) (contract : bytes) : bool := contains (sequencer_admin self) contract.
Definition is_ticketer (self : TezosContracts) (contract : bytes) : bool := contains (ticketer self) contract.

(** * Inputs *)

Inductive Input : Type :=
  | SimpleTransaction (tx : Transaction)
  | InputDeposit (d : Deposit)
  | Upgrade (u : KernelUpgrade)
  | NewSequencer (pk : PublicKey)
  | NewChunked (tx_hash : bytes) (num_chunks : N) (chunk_hashes : list bytes)
  | Chunk (tx_hash : bytes) (i : N) (chunk_hash data : bytes)
  | Simulation
  | Info (i : InfoPerLevel)
  | InputBlueprint (b : SequencerBlueprint).
Inductive InputResult : Type := NoInput | Parsed (i : Input) | Unparsable.

Definition FA2_1Ticket : Type := Ticket (MichelsonPair MichelsonInt (MichelsonOption MichelsonBytes)).
Definition RollupType : Type := MichelsonOr (MichelsonOr (MichelsonPair MichelsonBytes FA2_1Ticket) MichelsonBytes) MichelsonBytes.

Definition SIMULATION_TAG : byte := Byte.xff.
Definition SIMPLE_TRANSACTION_TAG : byte := Byte.x00.
Definition NEW_CHUNKED_TRANSACTION_TAG : byte := Byte.x01.
Definition TRANSACTION_CHUNK_TAG : byte := Byte.x02.
Definition SEQUENCER_BLUEPRINT_TAG : byte := Byte.x03.

(** The macro [parsable!]: an error makes the input unparsable. *)
Definition parsable {E A} (o : outcome E A) (k : A -> outcome Error InputResult) : outcome Error InputResult :=
  match o with Ok a => k a | Err _ => Ok Unparsable | Panic p => Panic p | Diverge => Diverge end.
Definition split_at (bs : bytes) (mid : nat) : option (bytes * bytes) :=
  if mid <=? length bs then Some (take mid bs, drop mid bs) else None.
(** [parsable!(split_at(bytes, mid))]. *)
Definition parsable_split (bs : bytes) (mid : nat) (k : bytes -> bytes -> outcome Error InputResult) : outcome Error InputResult :=
  parsable (ok_or tt (split_at bs mid)) (fun '(left_, right_) => k left_ right_).

(** [BigInt::to_bytes_le], without the sign: zero takes one byte. *)
Definition to_bytes_le (z : Z) : bytes := let n := Z.abs_N z in le_bytes (Nat.max 1 (N.to_nat ((N.size n + 7) / 8))) n.
(** [U256::as_u64] panics when the number does not fit. *)
Definition as_u64 {E} (n : N) : outcome E N := if (n <? 2 ^ 64)%N then Ok n else Panic POverflow.
Definition eth_from_mutez (mutez : N) : N := (mutez * 10 ^ 12)%N.

Section parsing.
Context {nom : NomCrate} {de : DataEncoding} {b58 : Base58Crate} {crypto : CryptoCrate} {crate : RlpCrate} {eth : EthCrates} {secp : Secp} {fle : U256FromLe}.
Abbreviation parsed := (outcome Error InputResult).

Definition parse_simple_transaction (bs : bytes) : parsed :=
  parsable_split bs TRANSACTION_HASH_SIZE (fun tx_hash remaining =>
    let produced_hash := keccak256 remaining in
    if negb (bool_decide (tx_hash = produced_hash)) then Ok Unparsable
    else parsable (from_bytes remaining) (fun tx => Ok (Parsed (SimpleTransaction (mkTransaction tx_hash (Ethereum tx)))))).

(** [for _ in 0..num_chunks]. *)
Fixpoint parse_hashes (num_chunks : nat) (remaining : bytes) (chunk_hashes : list bytes) (k : list bytes -> parsed) : parsed :=
  match num_chunks with
  | O => k chunk_hashes
  | S num_chunks => parsable_split remaining TRANSACTION_HASH_SIZE (fun chunk_hash remaining => parse_hashes num_chunks remaining (chunk_hashes ++ [chunk_hash]) k)
  end.
Definition parse_new_chunked_transaction (bs : bytes) : parsed :=
  parsable_split bs TRANSACTION_HASH_SIZE (fun tx_hash remaining =>
  parsable_split remaining 2 (fun num_chunks remaining =>
    let num_chunks := of_le_bytes num_chunks in
    if negb (length remaining =? TRANSACTION_HASH_SIZE * N.to_nat num_chunks) then Ok Unparsable
    else parse_hashes (N.to_nat num_chunks) remaining [] (fun chunk_hashes => Ok (Parsed (NewChunked tx_hash num_chunks chunk_hashes))))).
Definition parse_transaction_chunk (bs : bytes) : parsed :=
  parsable_split bs TRANSACTION_HASH_SIZE (fun tx_hash remaining =>
  parsable_split remaining 2 (fun i remaining =>
  parsable_split remaining TRANSACTION_HASH_SIZE (fun chunk_hash remaining =>
    let data_hash := keccak256 remaining in
    if negb (bool_decide (chunk_hash = data_hash)) then Ok Unparsable
    else Ok (Parsed (Chunk tx_hash (of_le_bytes i) chunk_hash remaining))))).

Definition parse_kernel_upgrade (bs : bytes) : parsed :=
  parsable (from_rlp_bytes (C := KernelUpgrade_codec) bs) (fun kernel_upgrade => Ok (Parsed (Upgrade kernel_upgrade))).
Definition parse_sequencer_update (bs : bytes) : parsed :=
  if negb (utf8_valid bs) then Ok Unparsable
  else parsable (public_key_from_b58check bs) (fun pk => Ok (Parsed (NewSequencer pk))).
(** [unwrap], then [unwrap_or(false)]. *)
Definition parse_sequencer_blueprint_input (sequencer : PublicKey) (bs : bytes) : parsed :=
  parsable (from_rlp_bytes (C := SequencerBlueprint_codec) bs) (fun seq_blueprint =>
    match digest_256 (unsigned_rlp_bytes (unsigned seq_blueprint)) with
    | Ok msg =>
        match verify_signature sequencer (seq_signature seq_blueprint) msg with
        | Ok true => Ok (Parsed (InputBlueprint seq_blueprint))
        | Ok false | Err _ => Ok Unparsable
        | Panic p => Panic p
        | Diverge => Diverge
        end
    | Err _ => Panic PUnwrap
    | Panic p => Panic p
    | Diverge => Diverge
    end).
Definition parse_transaction_from_delayed_inbox (source : bytes) (delayed_bridge : option bytes) (bs : bytes) : parsed :=
  if contains delayed_bridge source then
    parsable (from_bytes bs) (fun tx => Ok (Parsed (SimpleTransaction (mkTransaction (keccak256 bs) (Ethereum tx)))))
  else Ok Unparsable.

(** Tags for transactions are only allowed without a sequencer, those of blueprints only with one. *)
Definition parse_external (input smart_rollup_address : bytes) (sequencer : option PublicKey) : parsed :=
  match frame_parse input with
  | Ok (Targetted address contents) =>
      if bool_decide (sr_hash address = smart_rollup_address) then
        match contents with
        | [] => Ok Unparsable
        | tag :: remaining =>
            match sequencer with
            | None =>
                if Byte.eqb tag SIMPLE_TRANSACTION_TAG then parse_simple_transaction remaining
                else if Byte.eqb tag NEW_CHUNKED_TRANSACTION_TAG then parse_new_chunked_transaction remaining
                else if Byte.eqb tag TRANSACTION_CHUNK_TAG then parse_transaction_chunk remaining
                else Ok Unparsable
            | Some sequencer =>
                if Byte.eqb tag SEQUENCER_BLUEPRINT_TAG then parse_sequencer_blueprint_input sequencer remaining else Ok Unparsable
            end
        end
      else Ok Unparsable
  | Err _ => Ok Unparsable
  | Panic p => Panic p
  | Diverge => Diverge
  end.

Definition parse_simulation (input : bytes) : parsed := match input with [] => Ok (Parsed Simulation) | _ => Ok Unparsable end.

Definition parse_deposit (ticket : FA2_1Ticket) (receiver : MichelsonBytes) (ticketer : option bytes) : parsed :=
  match mc_contract (ticket_creator ticket) with
  | Originated kt1 =>
      if contains ticketer kt1 then
        amount ← map_err error_of_decoder (u256_from_le (to_bytes_le (ticket_amount ticket)));
        amount ← as_u64 amount;
        let amount := eth_from_mutez amount in
        let receiver_bytes := mb_bytes receiver in
        if negb (length receiver_bytes =? 20) then Ok Unparsable
        else Ok (Parsed (InputDeposit (mkDeposit amount receiver_bytes)))
      else Ok Unparsable
  | Implicit _ => Ok Unparsable
  end.

Definition parse_internal_transfer (transfer : Transfer RollupType) (smart_rollup_address : bytes) (tezos_contracts : TezosContracts)
    (delayed_bridge : option bytes) : parsed :=
  if negb (bool_decide (sr_hash (destination transfer) = smart_rollup_address)) then Ok Unparsable
  else
    let source := sender transfer in
    match SdkMessages.payload transfer with
    | Or_Left (Or_Left (mkMichelsonPair receiver ticket)) => parse_deposit ticket receiver (ticketer tezos_contracts)
    | Or_Left (Or_Right (mkMichelsonBytes bs)) => parse_transaction_from_delayed_inbox source delayed_bridge bs
    | Or_Right (mkMichelsonBytes bs) =>
        if is_admin tezos_contracts source then parse_kernel_upgrade bs
        else if is_sequencer_admin tezos_contracts source then parse_sequencer_update bs
        else Ok Unparsable
    end.
Definition parse_internal (message : InternalInboxMessage RollupType) (smart_rollup_address : bytes) (tezos_contracts : TezosContracts)
    (delayed_bridge : option bytes) : parsed :=
  match message with
  | Internal_InfoPerLevel info => Ok (Parsed (Info info))
  | Internal_Transfer transfer => parse_internal_transfer transfer smart_rollup_address tezos_contracts delayed_bridge
  | _ => Ok Unparsable
  end.

(** [InboxMessage::<RollupType>::parse]. *)
Definition parse_message : reader (InboxMessage RollupType) := SdkMessages.parse (Expr := RollupType).
Definition parse (input smart_rollup_address : bytes) (tezos_contracts : TezosContracts) (delayed_bridge : option bytes) (sequencer : option PublicKey) : parsed :=
  match input with
  | [] => Ok Unparsable
  | input_tag :: remaining =>
      if Byte.eqb input_tag SIMULATION_TAG then parse_simulation remaining
      else
        parsable (parse_message input) (fun '(message, _) =>
          match message with
          | External message => parse_external message smart_rollup_address sequencer
          | Internal message => parse_internal message smart_rollup_address tezos_contracts delayed_bridge
          end)
  end.
End parsing.

Section props.
Context {nom : NomCrate} {de : DataEncoding} {b58 : Base58Crate} {crypto : CryptoCrate} {crate : RlpCrate} {eth : EthCrates} {secp : Secp} {fle : U256FromLe}.

(** * Authority *)

(** The input is a transfer of layer one to the rollup. *)
Definition is_transfer (input address : bytes) (t : Transfer RollupType) : Prop :=
  exists rest, parse_message input = Ok (Internal (Internal_Transfer t), rest) /\ sr_hash (destination t) = address.
(** The input is an external message for the rollup, with these contents. *)
Definition is_external (input address contents : bytes) : Prop :=
  exists m rest a, parse_message input = Ok (External m, rest) /\ frame_parse m = Ok (Targetted a contents) /\ sr_hash a = address.

(** What entitles an input to be treated. *)
Definition authorized (input address : bytes) (contracts : TezosContracts) (bridge : option bytes) (seq : option PublicKey) (i : Input) : Prop :=
  match i with
  | SimpleTransaction tx => exists e bs, content tx = Ethereum e /\ from_bytes bs = Ok e /\ tx_hash tx = keccak256 bs /\
      (seq = None /\ is_external input address (SIMPLE_TRANSACTION_TAG :: tx_hash tx ++ bs) \/
       exists t, is_transfer input address t /\ SdkMessages.payload t = Or_Left (Or_Right (mkMichelsonBytes bs)) /\ bridge = Some (sender t))
  | InputDeposit d => exists t r ticket kt1 n, is_transfer input address t /\ SdkMessages.payload t = Or_Left (Or_Left (mkMichelsonPair r ticket)) /\
      mc_contract (ticket_creator ticket) = Originated kt1 /\ ticketer contracts = Some kt1 /\
      u256_from_le (to_bytes_le (SdkMichelson.ticket_amount ticket)) = Ok n /\ (n < 2 ^ 64)%N /\ d = mkDeposit (n * 10 ^ 12) (mb_bytes r) /\ sized 20 (mb_bytes r)
  | Upgrade u => exists t bs, is_transfer input address t /\ SdkMessages.payload t = Or_Right (mkMichelsonBytes bs) /\ admin contracts = Some (sender t) /\
      from_rlp_bytes (C := KernelUpgrade_codec) bs = Ok u
  | NewSequencer pk => exists t bs, is_transfer input address t /\ SdkMessages.payload t = Or_Right (mkMichelsonBytes bs) /\
      sequencer_admin contracts = Some (sender t) /\ public_key_from_b58check bs = Ok pk
  | NewChunked h n hs => seq = None /\ exists contents, is_external input address (NEW_CHUNKED_TRANSACTION_TAG :: contents)
  | Chunk h i ch data => seq = None /\ ch = keccak256 data /\ exists contents, is_external input address (TRANSACTION_CHUNK_TAG :: contents)
  | Simulation => input = [SIMULATION_TAG]
  | Info info => exists rest, parse_message input = Ok (Internal (Internal_InfoPerLevel info), rest)
  | InputBlueprint b => exists pk contents msg, seq = Some pk /\ is_external input address (SEQUENCER_BLUEPRINT_TAG :: contents) /\
      digest_256 (unsigned_rlp_bytes (unsigned b)) = Ok msg /\ verify_signature pk (seq_signature b) msg = Ok true
  end.

Lemma parsable_Parsed {E A} (o : outcome E A) k i : parsable o k = Ok (Parsed i) -> exists a, o = Ok a /\ k a = Ok (Parsed i).
Proof. destruct o; naive_solver. Qed.
Lemma split_Parsed bs mid k i : parsable_split bs mid k = Ok (Parsed i) -> exists l r, bs = l ++ r /\ length l = mid /\ k l r = Ok (Parsed i).
Proof.
  unfold parsable_split, split_at. destruct (Nat.leb_spec mid (length bs)) as [Hl|]; [|done]. cbn. intros H. exists (take mid bs), (drop mid bs).
  split_and!; [by rewrite take_drop|by rewrite length_take_le|done].
Qed.
Lemma contains_Some o x : contains o x = true <-> o = Some x.
Proof. destruct o as [y|]; cbn; [|done]. rewrite bool_decide_eq_true. naive_solver. Qed.
Lemma eqb_tag a b : Byte.eqb a b = true -> a = b.
Proof. apply Byte.byte_dec_bl. Qed.

Context (input address : bytes) (contracts : TezosContracts) (bridge : option bytes) (seq : option PublicKey).
Abbreviation ok := (authorized input address contracts bridge seq).

Lemma external_authorized m rest i : parse_message input = Ok (External m, rest) -> parse_external m address seq = Ok (Parsed i) -> ok i.
Proof.
  intros Hm. unfold parse_external. destruct (frame_parse m) as [[a contents]|?|?|] eqn:Ef; try done. case_bool_decide as Ha; [|done].
  destruct contents as [|tag bs]; [done|]. assert (Hx : is_external input address (tag :: bs)) by (by exists m, rest, a).
  destruct seq as [pk|].
  - destruct (Byte.eqb tag SEQUENCER_BLUEPRINT_TAG) eqn:Et; [|done]. apply eqb_tag in Et as ->. intros (b&_&H)%parsable_Parsed.
    destruct (digest_256 _) as [msg|?|?|] eqn:Ed; try done. destruct (verify_signature _ _ _) as [[]|?|?|] eqn:Ev; try done. injection H as <-. by exists pk, bs, msg.
  - destruct (Byte.eqb tag SIMPLE_TRANSACTION_TAG) eqn:Et.
    { apply eqb_tag in Et as ->. intros (h&r&->&_&H)%split_Parsed. cbn beta zeta in H. case_bool_decide as Hh; [|done]. cbn in H. apply parsable_Parsed in H as (e&He&[= <-]).
      exists e, r. split_and!; [done..|]. left. split; [done|]. done. }
    clear Et. destruct (Byte.eqb tag NEW_CHUNKED_TRANSACTION_TAG) eqn:Et.
    { apply eqb_tag in Et as ->. intros (h&r&->&_&H)%split_Parsed. apply split_Parsed in H as (n&r'&->&_&H). cbn beta zeta in H. destruct (negb _); [done|].
      assert (Hi : exists hs, i = NewChunked h (of_le_bytes n) hs).
      { revert H. generalize (@nil bytes) as acc, r' as rem. induction (N.to_nat (of_le_bytes n)) as [|k IH]; intros acc rem H; cbn [parse_hashes] in H; [injection H as <-; by eexists|].
        apply split_Parsed in H as (x&y&_&_&H). by apply IH in H. }
      destruct Hi as [hs ->]. split; [done|]. by eexists. }
    clear Et. destruct (Byte.eqb tag TRANSACTION_CHUNK_TAG) eqn:Et; [|done]. apply eqb_tag in Et as ->. intros (h&r&->&_&H)%split_Parsed.
    apply split_Parsed in H as (n&r'&->&_&H). apply split_Parsed in H as (ch&data&->&_&H). cbn beta zeta in H. case_bool_decide as Hc; [|done]. injection H as <-.
    split_and!; [done..|]. by eexists.
Qed.

Lemma transfer_authorized t rest i : parse_message input = Ok (Internal (Internal_Transfer t), rest) ->
  parse_internal_transfer t address contracts bridge = Ok (Parsed i) -> ok i.
Proof.
  intros Hm. unfold parse_internal_transfer. case_bool_decide as Ha; [|done]. cbn [negb]. assert (Ht : is_transfer input address t) by (by exists rest).
  destruct (SdkMessages.payload t) as [[[r ticket]|[bs]]|[bs]] eqn:Ep.
  - unfold parse_deposit. destruct (mc_contract _) as [|kt1] eqn:Ec; [done|]. destruct (contains _ kt1) eqn:Ek; [|done]. apply contains_Some in Ek.
    intros (n&Hn&H)%outcome_bind_ok. apply outcome_bind_ok in H as (n'&Hn'&H). unfold as_u64 in Hn'. destruct (N.ltb_spec n (2 ^ 64)) as [Hlt|]; [|done]. injection Hn' as <-.
    destruct (Nat.eqb_spec (length (mb_bytes r)) 20) as [Hl|]; [|done]. injection H as <-. exists t, r, ticket, kt1, n. split_and!; try done.
    destruct (u256_from_le _); naive_solver.
  - unfold parse_transaction_from_delayed_inbox. destruct (contains bridge _) eqn:Eb; [|done]. apply contains_Some in Eb. intros (e&He&[= <-])%parsable_Parsed.
    exists e, bs. split_and!; [done..|]. right. by exists t.
  - unfold is_admin, is_sequencer_admin. destruct (contains (admin _) _) eqn:Eadm.
    { apply contains_Some in Eadm. intros (u&Hu&[= <-])%parsable_Parsed. by exists t, bs. }
    destruct (contains (sequencer_admin _) _) eqn:Es; [|done]. apply contains_Some in Es. unfold parse_sequencer_update. destruct (negb _); [done|].
    intros (pk&Hpk&[= <-])%parsable_Parsed. by exists t, bs.
Qed.

(** C13: every input has the authority it needs.  Upgrades come from transfers of the administrator to the rollup, changes of sequencer from those of the
    administrator of the sequencer, deposits from tickets of the ticketer, with the amount of the ticket in wei and a receiver of twenty bytes.  Without a sequencer, transactions and their
    chunks come from external messages for the rollup that hash to what they announce; with one, only blueprints that it signed do, and transactions
    come from transfers of the delayed bridge. *)
Theorem parsed_inputs_are_authorized i : parse input address contracts bridge seq = Ok (Parsed i) -> ok i.
Proof.
  unfold parse. destruct input as [|tag bs] eqn:Ei; [done|]. rewrite <- Ei. destruct (Byte.eqb tag SIMULATION_TAG) eqn:Et.
  { apply eqb_tag in Et as ->. destruct bs as [|b bs]; [|done]. intros [= <-]. exact Ei. }
  intros ([m rest]&Hm&H)%parsable_Parsed. destruct m as [m|m]; [|by eapply external_authorized].
  destruct m as [t| | |info]; try done; [by eapply transfer_authorized|]. injection H as <-. by exists rest.
Qed.
End props.

(** * External messages *)

Section external.
Context {nom : NomCrate} {nlaws : NomLaws nom} {de : DataEncoding} {dlaws : DataLaws de} {b58 : Base58Crate} {crypto : CryptoCrate} {crate : RlpCrate} {rlaws : RlpLaws crate}
  {eth : EthCrates} {elaws : EthLaws eth} {secp : Secp} {fle : U256FromLe}.

(** The tag of external messages, the frame, and the contents. *)
Definition EXTERNAL_TAG : byte := Byte.x01.
Definition external_input (address contents : bytes) : bytes := EXTERNAL_TAG :: TARGETTED_TAG :: address ++ contents.

(** The contents that stand for an input, with or without a sequencer. *)
Inductive sent : option PublicKey -> Input -> bytes -> Prop :=
  | sent_simple e bs : from_bytes bs = Ok e -> sized 32 (keccak256 bs) ->
      sent None (SimpleTransaction (mkTransaction (keccak256 bs) (Ethereum e))) (SIMPLE_TRANSACTION_TAG :: keccak256 bs ++ bs)
  | sent_new h hs : sized 32 h -> Forall (sized 32) hs -> below 16 (N.of_nat (length hs)) ->
      sent None (NewChunked h (N.of_nat (length hs)) hs) (NEW_CHUNKED_TRANSACTION_TAG :: h ++ le_bytes 2 (N.of_nat (length hs)) ++ mjoin hs)
  | sent_chunk h i data : sized 32 h -> below 16 i -> sized 32 (keccak256 data) ->
      sent None (Chunk h i (keccak256 data) data) (TRANSACTION_CHUNK_TAG :: h ++ le_bytes 2 i ++ keccak256 data ++ data)
  | sent_blueprint pk b msg : sequencer_ok b -> digest_256 (unsigned_rlp_bytes (unsigned b)) = Ok msg -> verify_signature pk (seq_signature b) msg = Ok true ->
      sent (Some pk) (InputBlueprint b) (SEQUENCER_BLUEPRINT_TAG :: rlp_bytes b).

Lemma split_app l r n k : length l = n -> parsable_split (l ++ r) n k = k l r.
Proof.
  intros <-. unfold parsable_split, split_at. rewrite length_app, (proj2 (Nat.leb_le _ _)) by lia. cbn. by rewrite take_app_length, drop_app_length.
Qed.
Lemma length_hashes hs : Forall (sized 32) hs -> length (mjoin hs) = 32 * length hs.
Proof. induction 1 as [|h hs Hh _ IH]; [done|]. unfold sized in Hh. change (mjoin (h :: hs)) with (h ++ mjoin hs). rewrite length_app, IH, Hh. cbn. lia. Qed.
Lemma hashes_parsed hs k : Forall (sized 32) hs -> forall acc, parse_hashes (length hs) (mjoin hs) acc k = k (acc ++ hs).
Proof.
  induction 1 as [|h hs Hh _ IH]; intros acc; cbn [length parse_hashes]; [by rewrite app_nil_r|]. change (mjoin (h :: hs)) with (h ++ mjoin hs).
  rewrite split_app by done. rewrite IH. by rewrite <- app_assoc.
Qed.

Lemma external_parsed address contents contracts bridge seq : length address = hash_size SmartRollupHash ->
  parse (external_input address contents) address contracts bridge seq = parse_external (TARGETTED_TAG :: address ++ contents) address seq.
Proof.
  intros Ha. unfold parse, external_input. change (Byte.eqb EXTERNAL_TAG SIMULATION_TAG) with false. cbn beta iota.
  assert (Em : parse_message (EXTERNAL_TAG :: TARGETTED_TAG :: address ++ contents) = Ok (External (TARGETTED_TAG :: address ++ contents), [])).
  { unfold parse_message, SdkMessages.parse, nom_read, InboxMessageRepr_read. erewrite tagged_read; [|by right; left|repeat constructor; set_solver].
    rewrite success_read. cbn. by rewrite map_read, rest_read. }
  by rewrite Em.
Qed.
Lemma frame_parsed address contents : length address = hash_size SmartRollupHash ->
  frame_parse (TARGETTED_TAG :: address ++ contents) = Ok (Targetted (mkSmartRollupAddress address) contents).
Proof.
  intros Ha. unfold frame_parse. rewrite map_read, preceded_read. rewrite (tag_read [TARGETTED_TAG] (address ++ contents)). cbn. rewrite pair_read.
  unfold nom_read, SmartRollupAddress_read. rewrite map_read, hash_reads by done. cbn. by rewrite rest_read.
Qed.

(** The kernel reads the external messages meant for it.  A message in the documented format (the tag of external messages, the address of the rollup, the tag of the
    input and its data) is read as the input it stands for: a transaction with its hash, the announcement of a transaction in chunks with the hashes of the chunks, a chunk with its
    hash, or a blueprint that the sequencer signed. *)
Lemma external_inputs_parsed address contracts bridge seq i contents : length address = hash_size SmartRollupHash -> sent seq i contents ->
  parse (external_input address contents) address contracts bridge seq = Ok (Parsed i).
Proof.
  intros Ha Hi. rewrite external_parsed by done. unfold parse_external. rewrite frame_parsed by done. cbn [sr_hash]. rewrite bool_decide_eq_true_2 by done.
  destruct Hi as [e bs He Hk|h hs Hh Hhs Hn|h i data Hh Hi Hk|pk b msg Hb Hd Hv]; cbn -[le_bytes mjoin app rlp_bytes parse_simple_transaction parse_new_chunked_transaction parse_transaction_chunk parse_sequencer_blueprint_input].
  - unfold parse_simple_transaction. rewrite split_app by done. rewrite bool_decide_eq_true_2 by done. cbn. by rewrite He.
  - unfold parse_new_chunked_transaction. rewrite split_app by done. rewrite split_app by apply length_le_bytes.
    rewrite of_le_bytes_le_bytes by done. rewrite length_hashes, Nat2N.id by done. unfold TRANSACTION_HASH_SIZE. rewrite Nat.eqb_refl. cbn [negb].
    by rewrite hashes_parsed.
  - unfold parse_transaction_chunk. rewrite split_app by done. rewrite split_app by apply length_le_bytes. rewrite split_app by done.
    rewrite bool_decide_eq_true_2 by done. cbn [negb]. by rewrite of_le_bytes_le_bytes.
  - unfold parse_sequencer_blueprint_input, from_rlp_bytes. destruct (SequencerBlueprint_law b Hb) as [_ Hdec]. rewrite Hdec. cbn [parsable]. by rewrite Hd, Hv.
Qed.
(** The largest chunk fills a message. *)
Lemma largest_chunk address h ch i data : length address = 20 -> sized 32 h -> sized 32 ch -> length data = MAX_SIZE_PER_CHUNK ->
  length (external_input address (TRANSACTION_CHUNK_TAG :: h ++ le_bytes 2 i ++ ch ++ data)) = MAX_INPUT_MESSAGE_SIZE.
Proof.
  unfold sized. intros Ha Hh Hc Hd. unfold external_input. cbn [length]. rewrite !length_app. cbn [length]. rewrite !length_app, length_le_bytes, Ha, Hh, Hc, Hd. vm_compute. reflexivity.
Qed.
End external.
