(* ===== verification/EvmAccounts.v ===== *)
(** Ethereum accounts in the durable storage.

    Models [etherlink/kernel_evm/evm_execution/src/account_storage.rs].  An [EthereumAccount] is its path; nonces and balances are
    numbers below [2^256], hashes and storage values are 32 bytes.  Keccak is a parameter ([Secp]), as is [hex]. *)

From S2P Require Import Prelude Endian KernelPath KernelHost KernelRuntime KernelStorage EvmErrors Rlp EvmStorage EthTypes EthSign EvmTx EvmStore.

(** Whether the value before an update, and the one after it, is the default. *)
Record StorageEffect : Set := mkStorageEffect { from_default : bool; to_default : bool }.

Definition EVM_ACCOUNTS_PATH : bytes := str "/eth_accounts".
Definition NONCE_PATH : bytes := str "/nonce".
Definition BALANCE_PATH : bytes := str "/balance".
Definition CODE_HASH_PATH : bytes := str "/code.hash".
Definition CODE_PATH : bytes := str "/code".
Definition STORAGE_ROOT_PATH : bytes := str "/storage".
Definition INDEXED_PATH : bytes := str "/indexed".
Definition STORAGE_DEFAULT_VALUE : bytes := H256_zero.
Definition BALANCE_DEFAULT_VALUE : N := 0.
Definition NONCE_DEFAULT_VALUE : N := 0.
Definition CODE_HASH_DEFAULT : bytes := map byte_of_N
  [197; 210; 70; 1; 134; 247; 35; 60; 146; 126; 125; 178; 220; 199; 3; 192; 229; 0; 182; 83; 202; 130; 39; 59; 123; 250; 216; 4; 93; 133; 164; 112]%N.

(** [checked_add], [checked_sub] of [U256]. *)
Definition u256_checked_add (a b : N) : option N := if (a + b <? 2 ^ 256)%N then Some (a + b)%N else None.
Definition u256_checked_sub (a b : N) : option N := if (b <=? a)%N then Some (a - b)%N else None.
Definition u256_checked_mul (a b : N) : option N := if (a * b <? 2 ^ 256)%N then Some (a * b)%N else None.

Section accounts.
Context {S : Type} {core : SmartRollupCore S} {hex : HexCrate} {secp : Secp} {fle : U256FromLe}.
Abbreviation acM := (M S AccountStorageError).

Definition ac_runtime {A} (m : M S RuntimeError A) : acM A := M_map_err account_error_of_runtime m.
Definition ac_path {A} (o : outcome PathError A) : acM A := lift (map_err account_error_of_path o).

(** [U256::from_little_endian] of 32 bytes. *)
Definition u256_of_word (bs : bytes) : N := match u256_from_le bs with Ok n => n | _ => 0%N end.

(** A word, or the default value when there is none of 32 bytes. *)
Definition read_word {A} (of_word : bytes -> A) (path : bytes) (default : A) : acM A := fun s =>
  match store_read path 0 WORD_SIZE s with
  | (Ok bs, s) => (Ok (if length bs =? WORD_SIZE then of_word bs else default), s)
  | (Err PathNotFound, s) => (Ok default, s)
  | (Err e, s) => (Err (account_error_of_runtime e), s)
  | (Panic p, s) => (Panic p, s)
  | (Diverge, s) => (Diverge, s)
  end.
Definition read_u256 (path : bytes) (default : N) : acM N := read_word u256_of_word path default.
Definition read_h256 (path : bytes) (default : bytes) : acM bytes := read_word id path default.

Definition path_from_h256 (index : bytes) : acM bytes := ac_path (try_from (str "/" ++ hex_encode index)).
Definition bytes_hash (bs : bytes) : bytes := keccak256 bs.
Definition account_path (address : bytes) : outcome DurableStorageError bytes := map_err DSE_PathError (try_from (str "/" ++ hex_encode address)).
Definition from_address (address : bytes) : outcome DurableStorageError bytes :=
  path ← account_path address; map_err DSE_PathError (concat EVM_ACCOUNTS_PATH path).

(** * Nonces and balances *)

Definition nonce (self : bytes) : acM N := path ← ac_path (concat self NONCE_PATH); read_u256 path NONCE_DEFAULT_VALUE.
Definition increment_nonce (self : bytes) : acM unit :=
  path ← ac_path (concat self NONCE_PATH);
  old_value ← nonce self;
  new_value ← lift (ok_or NonceOverflow (u256_checked_add old_value 1));
  ac_runtime (store_write path (le_bytes WORD_SIZE new_value) 0).
Definition set_nonce (self : bytes) (nonce : N) : acM unit :=
  path ← ac_path (concat self NONCE_PATH);
  ac_runtime (store_write path (le_bytes WORD_SIZE nonce) 0).

Definition balance (self : bytes) : acM N := path ← ac_path (concat self BALANCE_PATH); read_u256 path BALANCE_DEFAULT_VALUE.
Definition balance_add (self : bytes) (amount : N) : acM unit :=
  path ← ac_path (concat self BALANCE_PATH);
  value ← balance self;
  match u256_checked_add value amount with
  | Some new_value => ac_runtime (store_write path (le_bytes WORD_SIZE new_value) 0)
  | None => fail BalanceOverflow
  end.
Definition balance_remove (self : bytes) (amount : N) : acM bool :=
  path ← ac_path (concat self BALANCE_PATH);
  value ← balance self;
  match u256_checked_sub value amount with
  | Some new_value => _ ← ac_runtime (store_write path (le_bytes WORD_SIZE new_value) 0); mret true
  | None => mret false
  end.

(** * Storage of contracts *)

Definition storage_path (self index : bytes) : acM bytes :=
  storage_path ← ac_path (concat self STORAGE_ROOT_PATH);
  index_path ← path_from_h256 index;
  ac_path (concat storage_path index_path).
Definition get_storage (self index : bytes) : acM bytes := path ← storage_path self index; read_h256 path STORAGE_DEFAULT_VALUE.
Definition set_storage_checked (self index value : bytes) : acM StorageEffect :=
  path ← storage_path self index;
  old_value ← get_storage self index;
  let from_default := bool_decide (old_value = STORAGE_DEFAULT_VALUE) in
  let to_default := bool_decide (value = STORAGE_DEFAULT_VALUE) in
  _ ← (if negb from_default && to_default then ac_runtime (store_delete path) else mret tt);
  _ ← (if negb to_default then ac_runtime (store_write path value 0) else mret tt);
  mret (mkStorageEffect from_default to_default).
Definition set_storage (self index value : bytes) : acM unit :=
  path ← storage_path self index; ac_runtime (store_write path value 0).

(** * Code *)

Definition code_exists (self : bytes) : acM bool :=
  path ← ac_path (concat self CODE_PATH);
  kind ← ac_runtime (store_has path);
  mret (match kind with Some (Value | ValueWithSubtree) => true | _ => false end).
Definition not_found_or {A} (d : A) (m : M S RuntimeError A) : acM A := fun s =>
  match m s with
  | (Err PathNotFound, s) => (Ok d, s)
  | (o, s) => (map_err account_error_of_runtime o, s)
  end.
Definition code (self : bytes) : acM bytes := path ← ac_path (concat self CODE_PATH); not_found_or [] (store_read_all path).
Definition code_hash (self : bytes) : acM bytes := path ← ac_path (concat self CODE_HASH_PATH); read_h256 path CODE_HASH_DEFAULT.
Definition code_size (self : bytes) : acM N :=
  path ← ac_path (concat self CODE_PATH);
  size ← not_found_or 0 (store_value_size path);
  mret (N.of_nat size).
Definition set_code (self code : bytes) : acM unit :=
  code_hash_path ← ac_path (concat self CODE_HASH_PATH);
  _ ← ac_runtime (store_write code_hash_path (bytes_hash code) 0);
  code_path ← ac_path (concat self CODE_PATH);
  store_has_program ← ac_runtime (store_has code_path);
  _ ← match store_has_program with Some _ => ac_runtime (store_delete code_path) | None => mret tt end;
  ac_runtime (store_write_all code_path code).
(** [if let Some(Value | ValueWithSubtree) = store_has(path)? { store_delete(path)? }]. *)
Definition delete_if_value (path : bytes) : acM unit :=
  kind ← ac_runtime (store_has path);
  match kind with Some (Value | ValueWithSubtree) => ac_runtime (store_delete path) | _ => mret tt end.
Definition delete_code (self : bytes) : acM unit :=
  code_hash_path ← ac_path (concat self CODE_HASH_PATH);
  _ ← delete_if_value code_hash_path;
  code_path ← ac_path (concat self CODE_PATH);
  delete_if_value code_path.

(** * Indexed accounts *)

Definition indexed (self : bytes) : M S DurableStorageError bool :=
  path ← lift (map_err DSE_PathError (concat self INDEXED_PATH));
  kind ← M_map_err DSE_RuntimeError (store_has path);
  mret (match kind with Some _ => true | None => false end).
Definition set_indexed (self : bytes) : M S DurableStorageError unit :=
  path ← lift (map_err DSE_PathError (concat self INDEXED_PATH));
  M_map_err DSE_RuntimeError (store_write path [] 0).
End accounts.
Definition init_account_storage : Storage := init EVM_ACCOUNTS_PATH.
