(* ===== verification/EvmApply.v ===== *)
(** Applying transactions.

    Models [etherlink/kernel_evm/kernel/src/apply.rs], [index_account] of [storage.rs], the gas price and limit of a transaction
    ([ethereum/src/tx_common.rs]) and [Withdrawal] ([ethereum/src/withdrawal.rs]).  Running a transaction on the virtual
    machine is an interface ([EvmExecution]).  The serialization of outbox messages ([OutboxCrate]) and the configuration of
    the virtual machine ([EvmConfig]) belong to crates outside of the repository. *)

From S2P Require Import Prelude Endian SdkNom SdkMichelson KernelPath KernelHost KernelRuntime KernelStorage EvmErrors Rlp EvmStorage EthTypes EthSign EvmTx EthBlock EvmStore EvmAccounts.

(** The fields of [Config::shanghai()] that are used. *)
Class EvmConfig := {
  gas_transaction_create : N; gas_transaction_call : N; gas_transaction_zero_data : N; gas_transaction_non_zero_data : N;
  stack_limit : nat; call_l64_after_gas : bool; call_stipend : N
}.

(** A contract on layer one is its encoding. *)
Record Withdrawal : Set := mkWithdrawal { target : bytes; w_amount : N }.

(** [bin_write] of an [AtomicTransactionBatch] that sends a ticket of the ticketer, of the given amount and for the target, to the
    entrypoint [burn] of the ticketer. *)
Class OutboxCrate := { burn_message : bytes -> bytes -> N -> outcome nat bytes }.

Record ExecutionOutcome {lc : LogCrates} : Type := mkOutcome {
  gas_used : N; is_success : bool; reason : ExitReason; new_address : option bytes; e_logs : list Log; result : option bytes;
  withdrawals : list Withdrawal; estimated_ticks_used : N
}.

Section apply.
Context {S : Type} {core : SmartRollupCore S} {hex : HexCrate} {secp : Secp} {crate : RlpCrate} {eth : EthCrates} {fle : U256FromLe}.
Context {lc : LogCrates} {b58 : Base58Crate}.

(** [run_transaction]: block, address, caller, data of the call, gas limit, gas price, value, whether gas is paid, ticks allocated. *)
Class EvmExecution := {
  run_transaction : BlockConstants -> option bytes -> bytes -> bytes -> option N -> N -> option N -> bool -> N ->
    M (Storage * S) EthereumError (option ExecutionOutcome)
}.

Context {conf : EvmConfig} {outbox : OutboxCrate} {exec : EvmExecution}.
Abbreviation kM := (M S Error).
Abbreviation evmM := (M (Storage * S) Anyhow).

Definition on_state {E A} (m : M S E A) : M (Storage * S) E A := fun '(st, s) => let '(o, s) := m s in (o, (st, s)).
Definition kernel_error {A} (m : M (Storage * S) Error A) : evmM A := M_map_err A_Error m.

(** * Transactions *)

Definition overall_gas_price_tx (tx : EthereumTransactionCommon) (block_base_fee_per_gas : N) : outcome Anyhow N :=
  if (block_base_fee_per_gas <=? max_fee_per_gas tx)%N then Ok block_base_fee_per_gas
  else Err (A_Message (str "Underflow when calculating gas price")).
Definition execution_gas_limit (tx : EthereumTransactionCommon) : N := gas_limit tx.

Definition t_to (t : Transaction) : option bytes := match content t with TDeposit d => Some (receiver d) | Ethereum tx => to_ tx end.
Definition t_data (t : Transaction) : bytes := match content t with TDeposit _ => [] | Ethereum tx => data tx end.
Definition overall_gas_price (t : Transaction) (block_fees : N) : outcome Anyhow N :=
  match content t with TDeposit _ => Ok 0%N | Ethereum tx => overall_gas_price_tx tx block_fees end.
Definition t_value (t : Transaction) : N := match content t with TDeposit d => amount d | Ethereum tx => value tx end.
Definition t_nonce (t : Transaction) : N := match content t with TDeposit _ => 0 | Ethereum tx => EthTypes.nonce tx end.
Definition t_signature (t : Transaction) : option TxSignature := match content t with TDeposit _ => None | Ethereum tx => signature tx end.

Record TransactionReceiptInfo : Type := mkReceiptInfo {
  ri_tx_hash : bytes; ri_index : N; execution_outcome : option ExecutionOutcome; ri_caller : bytes; ri_to : option bytes; ri_effective_gas_price : N
}.
Record TransactionObjectInfo : Type := mkObjectInfo {
  oi_from : bytes; oi_gas_used : N; oi_gas_price : N; oi_hash : bytes; oi_input : bytes; oi_nonce : N; oi_to : option bytes; oi_index : N;
  oi_value : N; oi_signature : option TxSignature
}.
Definition make_object_info (transaction : Transaction) (from : bytes) (index gas_used block_fees : N) : outcome Anyhow TransactionObjectInfo :=
  gas_price ← overall_gas_price transaction block_fees;
  Ok (mkObjectInfo from gas_used gas_price (tx_hash transaction) (t_data transaction) (t_nonce transaction) (t_to transaction) index
    (t_value transaction) (t_signature transaction)).

(** * Indexing accounts *)

Definition index_account (address index : bytes) : kM unit :=
  account ← lift (map_err error_of_durable (from_address address));
  indexed ← M_map_err error_of_durable (indexed account);
  if (indexed : bool) then mret tt
  else _ ← M_map_err E_Storage (push_value index address); M_map_err error_of_durable (set_indexed account).
Definition index_new_accounts (accounts_index : bytes) (receipt : TransactionReceiptInfo) : kM unit :=
  _ ← index_account (ri_caller receipt) accounts_index;
  _ ← match ri_to receipt with Some to => index_account to accounts_index | None => mret tt end;
  match o ← execution_outcome receipt; new_address o with Some to => index_account to accounts_index | None => mret tt end.

(** * Validity *)

Definition account (caller : bytes) : M (Storage * S) Error (option bytes) :=
  caller_account_path ← lift (map_err error_of_durable (account_path caller));
  M_map_err error_of_storage (KernelStorage.get caller_account_path).

Inductive Validity : Set := Valid (caller : bytes) | InvalidChainId | InvalidSignature | InvalidNonce | InvalidPrePay | InvalidCode_ | InvalidMaxBaseFee.

Definition u256_saturating_mul (a b : N) : N := N.min (a * b) (2 ^ 256 - 1).

Definition account_values (account : option bytes) : M (Storage * S) Error (N * N * bool) :=
  match account with
  | None => mret (0%N, 0%N, false)
  | Some account => on_state (M_map_err error_of_account (
      nonce ← EvmAccounts.nonce account;
      balance ← balance account;
      code_exists ← code_exists account;
      mret (nonce, balance, code_exists)))
  end.
Definition is_valid_ethereum_transaction_common (transaction : EthereumTransactionCommon) (block_constant : BlockConstants) (effective_gas_price : N) :
    M (Storage * S) Error Validity :=
  if match chain_id transaction with Some c => negb (bc_chain_id block_constant =? c)%N | None => false end then mret InvalidChainId
  else match caller transaction with
  | Ok caller =>
      account ← account caller;
      '(nonce, balance, code_exists) ← account_values account;
      if negb (nonce =? EthTypes.nonce transaction)%N then mret InvalidNonce
      else
        let execution_gas_limit := execution_gas_limit transaction in
        let cost := u256_saturating_mul execution_gas_limit effective_gas_price in
        let max_fee := u256_saturating_mul execution_gas_limit (max_fee_per_gas transaction) in
        if (balance <? cost)%N || (balance <? max_fee)%N then mret InvalidPrePay
        else if (code_exists : bool) then mret InvalidCode_
        else if (max_fee_per_gas transaction <? base_fee_per_gas block_constant)%N then mret InvalidMaxBaseFee
        else mret (Valid caller)
  | Err _ => mret InvalidSignature
  | Panic p => panicked p
  | Diverge => diverge
  end.

(** * Execution *)

Inductive ExecutionResult (T : Type) : Type := Executed (v : T) | Invalid | NotEnoughTicks.
Arguments Executed {T}. Arguments Invalid {T}. Arguments NotEnoughTicks {T}.

Record TransactionResult : Type := mkTransactionResult {
  tr_caller : bytes; tr_outcome : option ExecutionOutcome; tr_gas_used : N; tr_ticks : N
}.

(** The result of [run_transaction]. *)
Definition execution_result (caller : bytes) (m : M (Storage * S) EthereumError (option ExecutionOutcome)) : evmM (ExecutionResult TransactionResult) := fun st =>
  match m st with
  | (Ok execution_outcome, st) =>
      let '(gas_used, ticks) := match execution_outcome with Some o => (gas_used o, estimated_ticks_used o) | None => (0%N, 0%N) end in
      (Ok (Executed (mkTransactionResult caller execution_outcome gas_used ticks)), st)
  | (Err OutOfTicks, st) => (Ok NotEnoughTicks, st)
  | (Err err, st) => (Err (A_Error (InvalidRunTransaction err)), st)
  | (Panic p, st) => (Panic p, st)
  | (Diverge, st) => (Diverge, st)
  end.
Definition apply_ethereum_transaction_common (block_constants : BlockConstants) (transaction : EthereumTransactionCommon) (allocated_ticks : N) :
    evmM (ExecutionResult TransactionResult) :=
  let effective_gas_price := base_fee_per_gas block_constants in
  validity ← kernel_error (is_valid_ethereum_transaction_common transaction block_constants effective_gas_price);
  match validity with
  | Valid caller => execution_result caller (run_transaction block_constants (to_ transaction) caller (data transaction)
      (Some (execution_gas_limit transaction)) effective_gas_price (Some (value transaction)) true allocated_ticks)
  | _ => mret Invalid
  end.

Definition TICKS_FOR_DEPOSIT : N := 2000000.

Definition do_deposit (deposit : Deposit) : M (Storage * S) Error (option unit) :=
  match account_path (receiver deposit) with
  | Ok path =>
      to_account ← M_ok (get_or_create path);
      match to_account with
      | Some to_account => on_state (M_ok (balance_add to_account (amount deposit)))
      | None => mret None
      end
  | _ => mret None
  end.
Definition apply_deposit (deposit : Deposit) : M (Storage * S) Error (option TransactionResult) :=
  done ← do_deposit deposit;
  let is_success := match done with Some _ => true | None => false end in
  let reason := if is_success then ExitSucceeded Returned else ExitFailed (ExitErrorOther (str "Deposit failed")) in
  let gas_used := gas_transaction_call in
  let estimated_ticks_used := TICKS_FOR_DEPOSIT in
  let execution_outcome := mkOutcome _ gas_used is_success reason None [] None [] estimated_ticks_used in
  mret (Some (mkTransactionResult H160_zero (Some execution_outcome) gas_used estimated_ticks_used)).

(** * Withdrawals *)

(** [Ticket::new] refuses amounts that are not positive. *)
Definition ticket_amount (amount : N) : outcome Error N := if (0 <? amount)%N then Ok amount else Err (E_Encoding (InvalidAmount amount)).
Fixpoint post_each (destination : bytes) (withdrawals : list Withdrawal) : kM unit :=
  match withdrawals with
  | [] => mret tt
  | withdrawal :: withdrawals =>
      let amount := (w_amount withdrawal / 10 ^ 12)%N in
      if (amount <? 2 ^ 64 - 1)%N then
        amount ← lift (ticket_amount amount);
        encoded ← lift (map_err (fun n => E_Encoding (BinError n)) (burn_message destination (target withdrawal) amount));
        _ ← host (write_output encoded);
        post_each destination withdrawals
      else fail InvalidConversion
  end.
Definition post_withdrawals (withdrawals : list Withdrawal) : kM unit :=
  match withdrawals with
  | [] => mret tt
  | _ =>
      ticketer ← read_ticketer;
      match ticketer with Some destination => post_each destination withdrawals | None => fail InvalidParsing end
  end.

Record ExecutionInfo : Type := mkExecutionInfo { receipt_info : TransactionReceiptInfo; object_info : TransactionObjectInfo; info_ticks : N }.

Definition apply_transaction (block_constants : BlockConstants) (transaction : Transaction) (index : N) (accounts_index : bytes)
    (allocated_ticks : N) : evmM (ExecutionResult ExecutionInfo) :=
  apply_result ← match content transaction with
    | Ethereum tx => apply_ethereum_transaction_common block_constants tx allocated_ticks
    | TDeposit deposit =>
        r ← kernel_error (apply_deposit deposit);
        mret (match r with Some v => Executed v | None => Invalid end)
    end;
  match apply_result with
  | Executed (mkTransactionResult caller execution_outcome gas_used ticks_used) =>
      _ ← match execution_outcome with
          | Some o => kernel_error (on_state (post_withdrawals (withdrawals o)))
          | None => mret tt
          end;
      object_info ← lift (make_object_info transaction caller index gas_used (base_fee_per_gas block_constants));
      let receipt_info := mkReceiptInfo (tx_hash transaction) index execution_outcome caller (t_to transaction) (oi_gas_price object_info) in
      _ ← kernel_error (on_state (index_new_accounts accounts_index receipt_info));
      mret (Executed (mkExecutionInfo receipt_info object_info ticks_used))
  | Invalid => mret Invalid
  | NotEnoughTicks => mret NotEnoughTicks
  end.
End apply.
Arguments Executed {T}. Arguments Invalid {T}. Arguments NotEnoughTicks {T}.
