(* ===== verification/EvmTicks.v ===== *)
(** Ticks of the opcodes of the virtual machine.

    Models [etherlink/kernel_evm/evm_execution/src/tick_model_opcodes.rs]: an estimate of the ticks that a step takes, from its opcode and
    the gas it used.  The arithmetic of [u64] wraps around, as in the build that is deployed. *)

From S2P Require Import Prelude.

Definition u64_wrap (n : N) : N := n mod 2 ^ 64.
Definition u64_add (a b : N) : N := u64_wrap (a + b).
Definition u64_mul (a b : N) : N := u64_wrap (a * b).
Definition u64_sub (a b : N) : N := u64_wrap (2 ^ 64 + a - b).

Definition DEFAULT_TICKS_PER_GAS : N := 10000.
Definition ARITHMETIC_TICKS_PER_GAS : N := 3600.
Definition PUSH_DEFAULT : N := 2680.
Definition DUP_DEFAULT : N := 1500.
Definition SWAP_DEFAULT : N := 1427.
Definition MODEL_0X00 : N := 4710.
Definition MODEL_0X01 : N := 3896.
Definition MODEL_0X02 : N := 2958.
Definition MODEL_0X03 : N := 3959.
Definition MODEL_0X04 : N := 3411.
Definition MODEL_0X05 : N := ARITHMETIC_TICKS_PER_GAS.
Definition MODEL_0X06 : N := 3915.
Definition MODEL_0X07 : N := ARITHMETIC_TICKS_PER_GAS.
Definition MODEL_0X08 : N := ARITHMETIC_TICKS_PER_GAS.
Definition MODEL_0X09 : N := ARITHMETIC_TICKS_PER_GAS.
Definition MODEL_0X0A : N := 4635.
Definition MODEL_0X0B : N := ARITHMETIC_TICKS_PER_GAS.
Definition MODEL_0X10 : N := 3594.
Definition MODEL_0X11 : N := 3596.
Definition MODEL_0X12 : N := 7621.
Definition MODEL_0X13 : N := 7591.
Definition MODEL_0X14 : N := 6484.
Definition MODEL_0X15 : N := 5605.
Definition MODEL_0X16 : N := 3816.
Definition MODEL_0X17 : N := 3816.
Definition MODEL_0X18 : N := 3816.
Definition MODEL_0X19 : N := 2725.
Definition MODEL_0X1A : N := 24812.
Definition MODEL_0X1B : N := 11862.
Definition MODEL_0X1C : N := 14561.
Definition MODEL_0X1D : N := 13000.
Definition MODEL_0X20 : N := 4607.
Definition MODEL_0X30 : N := 2380.
Definition MODEL_0X31 : N := 1307.
Definition MODEL_0X32 : N := 2374.
Definition MODEL_0X33 : N := 2380.
Definition MODEL_0X34 : N := 2715.
Definition MODEL_0X35 : N := 32436.
Definition MODEL_0X36 : N := 7645.
Definition MODEL_0X37 : N := 18419.
Definition MODEL_0X38 : N := 2495.
Definition MODEL_0X39 : N := 2363.
Definition MODEL_0X3A : N := 2703.
Definition MODEL_0X3B : N := 1184.
Definition MODEL_0X3C : N := 739.
Definition MODEL_0X3D : N := 13071.
Definition MODEL_0X3E : N := 46790.
Definition MODEL_0X3F : N := DEFAULT_TICKS_PER_GAS.
Definition MODEL_0X40 : N := DEFAULT_TICKS_PER_GAS.
Definition MODEL_0X41 : N := 2383.
Definition MODEL_0X42 : N := 2721.
Definition MODEL_0X43 : N := 2721.
Definition MODEL_0X44 : N := DEFAULT_TICKS_PER_GAS.
Definition MODEL_0X45 : N := 2833.
Definition MODEL_0X46 : N := 12956.
Definition MODEL_0X47 : N := 26528.
Definition MODEL_0X48 : N := 12956.
Definition MODEL_0X50 : N := 1719.
Definition MODEL_0X51 : N := 16023.
Definition MODEL_0X52 : N := 22352.
Definition MODEL_0X53 : N := MODEL_0X52.
Definition MODEL_0X54 : N := 2280.
Definition MODEL_0X55 : N := 620_000.
Definition MODEL_0X56 : N := 954.
Definition MODEL_0X57 : N := 1379.
Definition MODEL_0X58 : N := DEFAULT_TICKS_PER_GAS.
Definition MODEL_0X59 : N := 2395.
Definition MODEL_0X5A : N := 2969.
Definition MODEL_0X5B : N := 3354.
Definition MODEL_0X5F : N := PUSH_DEFAULT.
Definition MODEL_0X60 : N := 1602.
Definition MODEL_0X61 : N := 1694.
Definition MODEL_0X62 : N := 2679.
Definition MODEL_0X63 : N := 1574.
Definition MODEL_0X64 : N := PUSH_DEFAULT.
Definition MODEL_0X65 : N := PUSH_DEFAULT.
Definition MODEL_0X66 : N := PUSH_DEFAULT.
Definition MODEL_0X67 : N := 2680.
Definition MODEL_0X68 : N := PUSH_DEFAULT.
Definition MODEL_0X69 : N := PUSH_DEFAULT.
Definition MODEL_0X6A : N := PUSH_DEFAULT.
Definition MODEL_0X6B : N := PUSH_DEFAULT.
Definition MODEL_0X6C : N := PUSH_DEFAULT.
Definition MODEL_0X6D : N := PUSH_DEFAULT.
Definition MODEL_0X6E : N := PUSH_DEFAULT.
Definition MODEL_0X6F : N := PUSH_DEFAULT.
Definition MODEL_0X70 : N := PUSH_DEFAULT.
Definition MODEL_0X71 : N := PUSH_DEFAULT.
Definition MODEL_0X72 : N := PUSH_DEFAULT.
Definition MODEL_0X73 : N := 2917.
Definition MODEL_0X74 : N := PUSH_DEFAULT.
Definition MODEL_0X75 : N := PUSH_DEFAULT.
Definition MODEL_0X76 : N := PUSH_DEFAULT.
Definition MODEL_0X77 : N := PUSH_DEFAULT.
Definition MODEL_0X78 : N := PUSH_DEFAULT.
Definition MODEL_0X79 : N := PUSH_DEFAULT.
Definition MODEL_0X7A : N := PUSH_DEFAULT.
Definition MODEL_0X7B : N := 2007.
Definition MODEL_0X7C : N := PUSH_DEFAULT.
Definition MODEL_0X7D : N := PUSH_DEFAULT.
Definition MODEL_0X7E : N := PUSH_DEFAULT.
Definition MODEL_0X7F : N := 1975.
Definition MODEL_0X80 : N := 1560.
Definition MODEL_0X81 : N := 1724.
Definition MODEL_0X82 : N := 1532.
Definition MODEL_0X83 : N := 1762.
Definition MODEL_0X84 : N := 3660.
Definition MODEL_0X85 : N := 1764.
Definition MODEL_0X86 : N := 2074.
Definition MODEL_0X87 : N := 1446.
Definition MODEL_0X88 : N := 1446.
Definition MODEL_0X89 : N := 1446.
Definition MODEL_0X8A : N := 1446.
Definition MODEL_0X8B : N := 1446.
Definition MODEL_0X8C : N := 1444.
Definition MODEL_0X8D : N := DUP_DEFAULT.
Definition MODEL_0X8E : N := DUP_DEFAULT.
Definition MODEL_0X8F : N := DUP_DEFAULT.
Definition MODEL_0X90 : N := 1427.
Definition MODEL_0X91 : N := 1427.
Definition MODEL_0X92 : N := 1427.
Definition MODEL_0X93 : N := 1427.
Definition MODEL_0X94 : N := 1427.
Definition MODEL_0X95 : N := 1427.
Definition MODEL_0X96 : N := 1427.
Definition MODEL_0X97 : N := 1427.
Definition MODEL_0X98 : N := 1425.
Definition MODEL_0X99 : N := SWAP_DEFAULT.
Definition MODEL_0X9A : N := SWAP_DEFAULT.
Definition MODEL_0X9B : N := SWAP_DEFAULT.
Definition MODEL_0X9C : N := SWAP_DEFAULT.
Definition MODEL_0X9D : N := SWAP_DEFAULT.
Definition MODEL_0X9E : N := SWAP_DEFAULT.
Definition MODEL_0X9F : N := SWAP_DEFAULT.
Definition MODEL_0XA0 : N := 200.
Definition MODEL_0XA1 : N := 114.
Definition MODEL_0XA2 : N := 52.
Definition MODEL_0XA3 : N := 51.
Definition MODEL_0XA4 : N := 50.
Definition MODEL_0XF0 : N := 34.
Definition MODEL_0XF1 : N := 687.
Definition MODEL_0XF2 : N := 700.
Definition MODEL_0XF3 : N := 49659.
Definition MODEL_0XF4 : N := 3951.
Definition MODEL_0XF5 : N := 123.
Definition MODEL_0XFA : N := 6524.
Definition MODEL_0XFD : N := 55427.
Definition MODEL_0XFE : N := DEFAULT_TICKS_PER_GAS.
Definition MODEL_0XFF : N := 101.

Definition ticks (opcode : byte) (gas : N) : N :=
  (match Byte.to_N opcode with
  | 0 => MODEL_0X00
  | 1 => u64_mul MODEL_0X01 gas
  | 2 => u64_mul MODEL_0X02 gas
  | 3 => u64_mul MODEL_0X03 gas
  | 4 => u64_mul MODEL_0X04 gas
  | 5 => u64_mul MODEL_0X05 gas
  | 6 => u64_mul MODEL_0X06 gas
  | 7 => u64_mul MODEL_0X07 gas
  | 8 => u64_mul MODEL_0X08 gas
  | 9 => u64_mul MODEL_0X09 gas
  | 10 => u64_mul MODEL_0X0A gas
  | 11 => u64_mul MODEL_0X0B gas
  | 16 => u64_mul MODEL_0X10 gas
  | 17 => u64_mul MODEL_0X11 gas
  | 18 => u64_mul MODEL_0X12 gas
  | 19 => u64_mul MODEL_0X13 gas
  | 20 => u64_mul MODEL_0X14 gas
  | 21 => u64_mul MODEL_0X15 gas
  | 22 => u64_mul MODEL_0X16 gas
  | 23 => u64_mul MODEL_0X17 gas
  | 24 => u64_mul MODEL_0X18 gas
  | 25 => u64_mul MODEL_0X19 gas
  | 26 => u64_mul MODEL_0X1A gas
  | 27 => u64_mul MODEL_0X1B gas
  | 28 => u64_mul MODEL_0X1C gas
  | 29 => u64_mul MODEL_0X1D gas
  | 32 => u64_mul MODEL_0X20 gas
  | 48 => u64_mul MODEL_0X30 gas
  | 49 => u64_mul MODEL_0X31 gas
  | 50 => u64_mul MODEL_0X32 gas
  | 51 => u64_mul MODEL_0X33 gas
  | 52 => u64_mul MODEL_0X34 gas
  | 53 => u64_mul MODEL_0X35 gas
  | 54 => u64_mul MODEL_0X36 gas
  | 55 => u64_mul MODEL_0X37 gas
  | 56 => u64_mul MODEL_0X38 gas
  | 57 => u64_mul MODEL_0X39 gas
  | 58 => u64_mul MODEL_0X3A gas
  | 59 => u64_mul MODEL_0X3B gas
  | 60 => u64_mul MODEL_0X3C gas
  | 61 => u64_mul MODEL_0X3D gas
  | 62 => u64_mul MODEL_0X3E gas
  | 63 => u64_mul MODEL_0X3F gas
  | 64 => u64_mul MODEL_0X40 gas
  | 65 => u64_mul MODEL_0X41 gas
  | 66 => u64_mul MODEL_0X42 gas
  | 67 => u64_mul MODEL_0X43 gas
  | 68 => u64_mul MODEL_0X44 gas
  | 69 => u64_mul MODEL_0X45 gas
  | 70 => u64_mul MODEL_0X46 gas
  | 71 => u64_mul MODEL_0X47 gas
  | 72 => u64_mul MODEL_0X48 gas
  | 80 => u64_mul MODEL_0X50 gas
  | 81 => u64_mul MODEL_0X51 gas
  | 82 => u64_mul MODEL_0X52 gas
  | 83 => u64_mul MODEL_0X53 gas
  | 84 => u64_mul MODEL_0X54 gas
  | 85 => MODEL_0X55
  | 86 => u64_mul MODEL_0X56 gas
  | 87 => u64_mul MODEL_0X57 gas
  | 88 => u64_mul MODEL_0X58 gas
  | 89 => u64_mul MODEL_0X59 gas
  | 90 => u64_mul MODEL_0X5A gas
  | 91 => u64_mul MODEL_0X5B gas
  | 95 => u64_mul MODEL_0X5F gas
  | 96 => u64_mul MODEL_0X60 gas
  | 97 => u64_mul MODEL_0X61 gas
  | 98 => u64_mul MODEL_0X62 gas
  | 99 => u64_mul MODEL_0X63 gas
  | 100 => u64_mul MODEL_0X64 gas
  | 101 => u64_mul MODEL_0X65 gas
  | 102 => u64_mul MODEL_0X66 gas
  | 103 => u64_mul MODEL_0X67 gas
  | 104 => u64_mul MODEL_0X68 gas
  | 105 => u64_mul MODEL_0X69 gas
  | 106 => u64_mul MODEL_0X6A gas
  | 107 => u64_mul MODEL_0X6B gas
  | 108 => u64_mul MODEL_0X6C gas
  | 109 => u64_mul MODEL_0X6D gas
  | 110 => u64_mul MODEL_0X6E gas
  | 111 => u64_mul MODEL_0X6F gas
  | 112 => u64_mul MODEL_0X70 gas
  | 113 => u64_mul MODEL_0X71 gas
  | 114 => u64_mul MODEL_0X72 gas
  | 115 => u64_mul MODEL_0X73 gas
  | 116 => u64_mul MODEL_0X74 gas
  | 117 => u64_mul MODEL_0X75 gas
  | 118 => u64_mul MODEL_0X76 gas
  | 119 => u64_mul MODEL_0X77 gas
  | 120 => u64_mul MODEL_0X78 gas
  | 121 => u64_mul MODEL_0X79 gas
  | 122 => u64_mul MODEL_0X7A gas
  | 123 => u64_mul MODEL_0X7B gas
  | 124 => u64_mul MODEL_0X7C gas
  | 125 => u64_mul MODEL_0X7D gas
  | 126 => u64_mul MODEL_0X7E gas
  | 127 => u64_mul MODEL_0X7F gas
  | 128 => u64_mul MODEL_0X80 gas
  | 129 => u64_mul MODEL_0X81 gas
  | 130 => u64_mul MODEL_0X82 gas
  | 131 => u64_mul MODEL_0X83 gas
  | 132 => u64_mul MODEL_0X84 gas
  | 133 => u64_mul MODEL_0X85 gas
  | 134 => u64_mul MODEL_0X86 gas
  | 135 => u64_mul MODEL_0X87 gas
  | 136 => u64_mul MODEL_0X88 gas
  | 137 => u64_mul MODEL_0X89 gas
  | 138 => u64_mul MODEL_0X8A gas
  | 139 => u64_mul MODEL_0X8B gas
  | 140 => u64_mul MODEL_0X8C gas
  | 141 => u64_mul MODEL_0X8D gas
  | 142 => u64_mul MODEL_0X8E gas
  | 143 => u64_mul MODEL_0X8F gas
  | 144 => u64_mul MODEL_0X90 gas
  | 145 => u64_mul MODEL_0X91 gas
  | 146 => u64_mul MODEL_0X92 gas
  | 147 => u64_mul MODEL_0X93 gas
  | 148 => u64_mul MODEL_0X94 gas
  | 149 => u64_mul MODEL_0X95 gas
  | 150 => u64_mul MODEL_0X96 gas
  | 151 => u64_mul MODEL_0X97 gas
  | 152 => u64_mul MODEL_0X98 gas
  | 153 => u64_mul MODEL_0X99 gas
  | 154 => u64_mul MODEL_0X9A gas
  | 155 => u64_mul MODEL_0X9B gas
  | 156 => u64_mul MODEL_0X9C gas
  | 157 => u64_mul MODEL_0X9D gas
  | 158 => u64_mul MODEL_0X9E gas
  | 159 => u64_mul MODEL_0X9F gas
  | 160 => u64_mul MODEL_0XA0 gas
  | 161 => u64_mul MODEL_0XA1 gas
  | 162 => u64_mul MODEL_0XA2 gas
  | 163 => u64_mul MODEL_0XA3 gas
  | 164 => u64_mul MODEL_0XA4 gas
  | 240 => u64_mul MODEL_0XF0 gas
  | 241 => u64_mul MODEL_0XF1 gas
  | 242 => u64_mul MODEL_0XF2 gas
  | 243 => MODEL_0XF3
  | 244 => u64_mul MODEL_0XF4 gas
  | 245 => u64_mul MODEL_0XF5 gas
  | 250 => u64_mul MODEL_0XFA gas
  | 253 => MODEL_0XFD
  | 254 => u64_mul MODEL_0XFE gas
  | 255 => u64_mul MODEL_0XFF gas
  | _ => u64_mul DEFAULT_TICKS_PER_GAS gas
  end)%N.

(** Opcodes whose estimate does not depend on the gas: [STOP], [SSTORE], [RETURN] and [REVERT]. *)
Definition constant_ticks (opcode : byte) : bool := bool_decide (Byte.to_N opcode ∈ [0; 0x55; 0xf3; 0xfd]%N).

(** The other steps take no ticks when they use no gas. *)
Lemma ticks_no_gas opcode : constant_ticks opcode = false -> ticks opcode 0 = 0%N.
Proof. by destruct opcode. Qed.
