(* ===== verification/EvmBlockHashes.v ===== *)
(** Hashes of the last blocks.

    Models the module [blocks] of [etherlink/kernel_evm/evm_execution/src/storage.rs]: the hashes that the opcode [BLOCKHASH] reads, one
    for each of the last 257 blocks.  Numbers and timestamps are below [2^256]. *)

From S2P Require Import Prelude Endian KernelPath KernelHost KernelRuntime KernelStorage EvmErrors Rlp EvmStorage EthTypes EthSign EvmTx EthBlock EvmStore EvmAccounts.

Inductive EvmBlockStorageError : Set :=
  | EBS_RuntimeError (e : RuntimeError) | EBS_PathError (e : PathError) | NonSequentialBlockLevels (current new : N) | MalformedBlockHash (size : nat).

Definition ROOT_PATH : bytes := str "/evm/blocks".
Definition CURRENT_NUMBER_PATH : bytes := str "/evm/blocks/current/number".
Definition CURRENT_TIMESTAMP_PATH : bytes := str "/evm/blocks/current/timestamp".
Definition BLOCKS_STORED : N := 256 + 1.

Section blocks.
Context {S : Type} {core : SmartRollupCore S}.
Abbreviation bhM := (M S EvmBlockStorageError).

Definition bh_runtime {A} (m : M S RuntimeError A) : bhM A := M_map_err EBS_RuntimeError m.
Definition bh_path {A} (o : outcome PathError A) : bhM A := lift (map_err EBS_PathError o).

Definition to_block_hash_path (block_number : N) : bhM bytes :=
  owned_path ← bh_path (try_from (str "/" ++ u256_to_string block_number ++ str "/hash"));
  bh_path (concat ROOT_PATH owned_path).
Definition delete_block_hash (block_number : N) : bhM unit :=
  block_hash_path ← to_block_hash_path block_number; bh_runtime (store_delete block_hash_path).
Definition bh_write_u256 (path : bytes) (x : N) : bhM unit := bh_runtime (store_write path (be_bytes 32 x) 0).
Definition bh_write_h256 (path hash : bytes) : bhM unit := bh_runtime (store_write path hash 0).

Definition add_new_block (block_number : N) (hash : bytes) (timestamp : N) : bhM unit :=
  current_number_exist ← bh_runtime (store_has CURRENT_NUMBER_PATH);
  _ ← match current_number_exist with
      | Some (Value | ValueWithSubtree) =>
          number_vec ← bh_runtime (store_read CURRENT_NUMBER_PATH 0 32);
          let current_number := of_be_bytes number_vec in
          next ← lift (expect POverflow (u256_checked_add current_number 1));
          if negb (block_number =? next)%N then fail (NonSequentialBlockLevels current_number block_number) else mret tt
      | _ => mret tt
      end;
  block_hash_path ← to_block_hash_path block_number;
  _ ← bh_write_h256 block_hash_path hash;
  _ ← bh_write_u256 CURRENT_NUMBER_PATH block_number;
  _ ← bh_write_u256 CURRENT_TIMESTAMP_PATH timestamp;
  match u256_checked_sub block_number BLOCKS_STORED with
  | Some old_block_num => delete_block_hash old_block_num
  | None => mret tt
  end.

Definition get_current_number_n_timestamp : bhM (N * N) :=
  number ← bh_runtime (store_read CURRENT_NUMBER_PATH 0 32);
  timestamp ← bh_runtime (store_read CURRENT_TIMESTAMP_PATH 0 32);
  mret (of_be_bytes number, of_be_bytes timestamp).

Definition get_block_hash (block_number : N) : bhM bytes :=
  block_path ← to_block_hash_path block_number;
  block_hash ← bh_runtime (store_read block_path 0 32);
  if length block_hash =? 32 then mret block_hash else fail (MalformedBlockHash (length block_hash)).
End blocks.
