(* ===== verification/EvmHandler.v ===== *)
(** The handler of the virtual machine: its state, gas, accounts and transactions.

    Models the first half of [etherlink/kernel_evm/evm_execution/src/handler.rs]: the data of transaction layers, gas accounting, transfers,
    and the begin, commit and rollback of transactions.  [EvmPrecompiles] models the precompiled contracts, [EvmExec] the execution of
    contracts.  The gasometer belongs to the crate [evm] and is a parameter; memory is not bounded, so that [try_reserve_exact]
    succeeds; the state of the host is part of the handler. *)

From S2P Require Import Prelude Endian KernelPath KernelHost KernelRuntime KernelStorage Comparable EvmErrors Rlp EvmStorage EthTypes EthSign EvmTx EthBlock EvmStore EvmAccounts EvmApply EvmTicks.

(** * The crate evm *)

Record Context : Set := mkContext { ctx_address : bytes; ctx_caller : bytes; apparent_value : N }.
Record Transfer : Set := mkTransfer { source : bytes; tr_target : bytes; tr_value : N }.
Inductive CreateScheme : Set := SchemeCreate2 (caller code_hash salt : bytes) | SchemeLegacy (caller : bytes) | SchemeFixed (address : bytes).

(** [Gasometer], for the configuration in use. *)
Class GasometerCrate := {
  Gasometer : Type; GasCost : Type; MemoryCost : Type;
  gasometer_new : N -> Gasometer;
  total_used_gas : Gasometer -> N;
  gas : Gasometer -> N;
  gasometer_record_cost : N -> M Gasometer ExitError unit;
  gasometer_record_deposit : nat -> M Gasometer ExitError unit;
  gasometer_record_dynamic_cost : GasCost -> option MemoryCost -> M Gasometer ExitError unit;
  gasometer_record_stipend : N -> M Gasometer ExitError unit
}.

(** [format!("{:?}", err)]. *)
Class DebugFormat := { debug_error : EthereumError -> bytes }.

(** The result of a computation, as a value. *)
Definition M_result {S E F A} (m : M S E A) : M S F (E + A) := fun s =>
  match m s with
  | (Ok a, s) => (Ok (inr a), s)
  | (Err e, s) => (Ok (inl e), s)
  | (Panic p, s) => (Panic p, s)
  | (Diverge, s) => (Diverge, s)
  end.

(** A [BTreeSet] of addresses: ascending, without duplicates. *)
Fixpoint set_insert (x : bytes) (l : list bytes) : list bytes :=
  match l with
  | [] => [x]
  | y :: l => match bytes_cmp x y with Lt => x :: y :: l | Eq => y :: l | Gt => y :: set_insert x l end
  end.

(** * The state *)

Section layer.
Context {gc : GasometerCrate} {lc : LogCrates}.

Record TransactionLayerData : Type := mkLayer {
  gasometer : option Gasometer; l_is_static : bool; l_logs : list Log; deleted_contracts : list bytes; l_withdrawals : list Withdrawal
}.
Definition layer_new (is_static : bool) (gas_limit : option N) : TransactionLayerData := mkLayer (gasometer_new <$> gas_limit) is_static [] [] [].
End layer.

(** The fields that do not change. *)
Record HandlerEnv : Type := mkEnv { h_origin : bytes; h_block : BlockConstants; ticks_allocated : N; effective_gas_price : N }.

(** The result of creating a contract, and of calling one when the address is [None]. *)
Abbreviation CreateOutcome := (ExitReason * option bytes * bytes)%type.

Inductive TransferExitReason : Set := TransferReturned | TransferOutOfFund.

Section handler.
Context {S : Type} {core : SmartRollupCore S} {hex : HexCrate} {secp : Secp} {crate : RlpCrate} {eth : EthCrates} {fle : U256FromLe}.
Context {lc : LogCrates} {conf : EvmConfig} {gc : GasometerCrate} {dbg : DebugFormat}.

(** The last layer of the vector is the head of [transaction_data]. *)
Record Handler : Type := mkHandler { evm_account_storage : Storage; h_host : S; transaction_data : list TransactionLayerData; h_ticks_used : N }.

Definition handler_new (st : Storage) (s : S) : Handler := mkHandler st s [] 0.

Abbreviation hM := (M Handler EthereumError).
Abbreviation xM := (M Handler ExitError).

Definition on_accounts {E A} (m : M (Storage * S) E A) : M Handler E A := fun h =>
  let '(o, (st, s)) := m (evm_account_storage h, h_host h) in (o, mkHandler st s (transaction_data h) (h_ticks_used h)).
Definition with_host {E A} (m : M S E A) : M Handler E A := fun h =>
  let '(o, s) := m (h_host h) in (o, mkHandler (evm_account_storage h) s (transaction_data h) (h_ticks_used h)).
Definition set_data (l : list TransactionLayerData) (h : Handler) : Handler := mkHandler (evm_account_storage h) (h_host h) l (h_ticks_used h).
Definition set_ticks (n : N) (h : Handler) : Handler := mkHandler (evm_account_storage h) (h_host h) (transaction_data h) n.
Definition hget {E} : M Handler E Handler := fun h => (Ok h, h).
Definition update {E} (f : Handler -> Handler) : M Handler E unit := fun h => (Ok tt, f h).
(** The account of a path, with the errors of accounts. *)
Definition on_account {A} (m : M S AccountStorageError A) : hM A := with_host (M_map_err EthereumAccountError m).
Definition storage_result {A} (m : M (Storage * S) KernelStorage.StorageError A) : hM A := on_accounts (M_map_err EthereumStorageError m).
Definition depth (h : Handler) : nat := stack_depth (evm_account_storage h).

Definition ethereum_error_to_exit_reason (e : EthereumError) : ExitReason := ExitFatally (ExitFatalOther (debug_error e)).

(** * Gas *)

Definition h_gas_used (h : Handler) : N := default 0%N (total_used_gas <$> (layer ← head (transaction_data h); gasometer layer)).
Definition gas_remaining (h : Handler) : N := default 0%N (gas <$> (layer ← head (transaction_data h); gasometer layer)).

(** A change of the gasometer of the last layer, if it has one. *)
Definition on_gasometer (op : M Gasometer ExitError unit) : xM unit := fun h =>
  match transaction_data h with
  | [] => (Err (ExitErrorOther (str "Recording cost, but there is no transaction in progress")), h)
  | layer :: rest =>
      match gasometer layer with
      | Some g =>
          let '(o, g) := op g in
          (o, set_data (mkLayer (Some g) (l_is_static layer) (l_logs layer) (deleted_contracts layer) (l_withdrawals layer) :: rest) h)
      | None => (Ok tt, h)
      end
  end.
Definition record_cost (cost : N) : xM unit := on_gasometer (gasometer_record_cost cost).
Definition record_deposit (len : nat) : xM unit := on_gasometer (gasometer_record_deposit len).
Definition record_dynamic_cost (cost : GasCost) (memory_cost : option MemoryCost) : xM unit := on_gasometer (gasometer_record_dynamic_cost cost memory_cost).
Definition record_stipend (stipend : N) : hM unit := fun h =>
  match transaction_data h with
  | [] => (Err (InconsistentTransactionStack 0 false false), h)
  | _ => M_map_err (fun _ => InconsistentState (str "Recording a stipend returned an error")) (on_gasometer (gasometer_record_stipend stipend)) h
  end.

Definition data_cost (data : bytes) : N :=
  foldl (fun sum datum => u64_add sum (if (Byte.to_N datum =? 0)%N then gas_transaction_zero_data else gas_transaction_non_zero_data)) 0%N data.
Definition record_base_gas_cost (is_create : bool) (data : bytes) : xM unit :=
  let base_cost := if is_create then gas_transaction_create else gas_transaction_call in
  record_cost (u64_add base_cost (data_cost data)).

Definition is_static (h : Handler) : bool := match transaction_data h with layer :: _ => l_is_static layer | [] => false end.

(** * Accounts *)

Definition get_or_create_account (address : bytes) : hM bytes :=
  path ← lift (map_err (fun e => EthereumAccountError (ASE_DurableStorageError e)) (account_path address));
  storage_result (get_or_create path).
Definition get_account_with (find : bytes -> M (Storage * S) KernelStorage.StorageError (option bytes)) (address : bytes) : hM (option bytes) :=
  match account_path address with
  | Ok path => account ← on_accounts (M_ok (find path)); mret (mjoin account)
  | _ => mret None
  end.
Definition get_account (address : bytes) : hM (option bytes) := get_account_with KernelStorage.get address.
Definition get_original_account (address : bytes) : hM (option bytes) := get_account_with get_original address.

Definition increment_nonce (address : bytes) : hM unit := account ← get_or_create_account address; on_account (EvmAccounts.increment_nonce account).
Definition set_contract_code (address code : bytes) : hM unit := account ← get_or_create_account address; on_account (set_code account code).
(** [.unwrap_or_default()]. *)
Definition account_or {A} (d : A) (read : bytes -> M S AccountStorageError A) (account : option bytes) : hM A :=
  match account with
  | Some account => v ← with_host (M_ok (read account)); mret (default d v)
  | None => mret d
  end.
Definition get_nonce (address : bytes) : hM N := account ← get_account address; account_or 0%N EvmAccounts.nonce account.
Definition delete_contract (address : bytes) : hM unit :=
  path ← lift (map_err (fun e => EthereumAccountError (ASE_DurableStorageError e)) (account_path address));
  storage_result (KernelStorage.delete path).

Definition is_colliding (address : bytes) : hM bool :=
  account ← get_account address;
  match account with
  | None => mret false
  | Some account =>
      code_size ← on_account (code_size account);
      nonce ← on_account (EvmAccounts.nonce account);
      mret (negb (code_size =? 0)%N || negb (nonce =? 0)%N)
  end.

(** Paying for gas: whether the caller has the funds. *)
Definition pre_pay_transactions (caller : bytes) (gas_limit : option N) (effective_gas_price : N) : hM bool :=
  match gas_limit with
  | None => mret true
  | Some gas_limit =>
      amount ← lift (ok_or (ArithmeticError FeeOverflow) (u256_checked_mul gas_limit effective_gas_price));
      account ← get_or_create_account caller;
      on_account (balance_remove account amount)
  end.
Definition repay_gas (caller : bytes) (unused_gas : option N) (effective_gas_price : N) : hM unit :=
  match unused_gas with
  | None => mret tt
  | Some unused_gas =>
      amount ← lift (ok_or (ArithmeticError FeeOverflow) (u256_checked_mul unused_gas effective_gas_price));
      account ← get_or_create_account caller;
      on_account (balance_add account amount)
  end.

Definition add_withdrawals (withdrawals : list Withdrawal) : hM unit := fun h =>
  match transaction_data h with
  | layer :: rest =>
      (Ok tt, set_data (mkLayer (gasometer layer) (l_is_static layer) (l_logs layer) (deleted_contracts layer) (l_withdrawals layer ++ withdrawals) :: rest) h)
  | [] => (Err (InconsistentTransactionStack 0 false false), h)
  end.

Definition account_for_ticks (env : HandlerEnv) (opcode : byte) (gas : N) : hM unit := fun h =>
  let h := set_ticks (u64_add (h_ticks_used h) (ticks opcode gas)) h in
  (if (ticks_allocated env <? h_ticks_used h)%N then Err OutOfTicks else Ok tt, h).

Definition execute_transfer (from to : bytes) (value : N) : hM TransferExitReason :=
  if (value =? 0)%N then mret TransferReturned
  else
    from_account ← get_account from;
    match from_account with
    | Some from_account =>
        to_account ← get_or_create_account to;
        removed ← on_account (balance_remove from_account value);
        if (removed : bool) then _ ← on_account (balance_add to_account value); mret TransferReturned
        else mret TransferOutOfFund
    | None => mret TransferOutOfFund
    end.

(** * Transactions *)

Definition push_layer (is_static' : bool) (gas_limit : option N) : hM unit :=
  update (fun h => set_data (layer_new (is_static h || is_static') gas_limit :: transaction_data h) h).
Definition begin_initial_transaction (is_static : bool) (gas_limit : option N) : hM unit :=
  h ← hget;
  if 0 <? depth h then fail (InconsistentTransactionStack (depth h) true true)
  else _ ← push_layer is_static gas_limit; storage_result begin_transaction.

Fixpoint delete_contracts (addresses : list bytes) : hM unit :=
  match addresses with
  | [] => mret tt
  | address :: addresses => _ ← M_ok (delete_contract address); delete_contracts addresses
  end.

(** The checks of the initial transaction when it ends. *)
Definition check_initial (h : Handler) : outcome EthereumError unit :=
  if negb (depth h =? 1) then Err (InconsistentTransactionStack (depth h) true false)
  else if negb (depth h =? length (transaction_data h)) then Err (InconsistentTransactionData (depth h) (length (transaction_data h)))
  else Ok tt.
Definition commit_initial_transaction (new_address : option bytes) (result : bytes) (reason : ExitReason) : hM ExecutionOutcome :=
  h ← hget;
  _ ← lift (check_initial h);
  match transaction_data h with
  | last_layer :: rest =>
      _ ← update (set_data rest);
      _ ← delete_contracts (deleted_contracts last_layer);
      _ ← storage_result commit_transaction;
      mret (mkOutcome lc (h_gas_used h) true reason new_address (l_logs last_layer) (Some result) (l_withdrawals last_layer) (h_ticks_used h))
  | [] => fail (InconsistentState (str "The transaction data stack is empty when committing the initial transaction"))
  end.
Definition rollback_initial_transaction (result : option bytes) (reason : ExitReason) : hM ExecutionOutcome :=
  h ← hget;
  _ ← lift (check_initial h);
  _ ← storage_result rollback_transaction;
  _ ← update (fun h => set_data (tail (transaction_data h)) h);
  mret (mkOutcome lc (h_gas_used h) false reason None [] result [] (h_ticks_used h)).
Definition end_initial_transaction (execution_result : EthereumError + CreateOutcome) : hM ExecutionOutcome :=
  match execution_result with
  | inr (ExitSucceeded r, new_address, result) => commit_initial_transaction new_address result (ExitSucceeded r)
  | inr (ExitReverted r, _, result) => rollback_initial_transaction (Some result) (ExitReverted r)
  | inr (ExitFailed error, _, _) => rollback_initial_transaction None (ExitFailed error)
  | inr (ExitFatally (ExitFatalOther cow_str), _, _) =>
      _ ← rollback_initial_transaction None (ExitFatally (ExitFatalOther cow_str)); fail (WrappedError cow_str)
  | inr (ExitFatally fatal_error, _, _) => rollback_initial_transaction None (ExitFatally fatal_error)
  | inl err => _ ← rollback_initial_transaction None (ethereum_error_to_exit_reason err); fail err
  end.

Definition begin_inter_transaction (is_static : bool) (gas_limit : option N) : hM unit :=
  h ← hget;
  if depth h =? 0 then fail (InconsistentTransactionStack 0 false true)
  else _ ← push_layer is_static gas_limit; storage_result begin_transaction.

Definition commit_inter_transaction : hM unit :=
  h ← hget;
  if depth h <? 2 then fail (InconsistentTransactionStack (depth h) false false)
  else
    _ ← storage_result commit_transaction;
    match transaction_data h with
    | committed_data :: top_layer :: rest =>
        let logs := l_logs top_layer ++ l_logs committed_data in
        let withdrawals := l_withdrawals top_layer ++ l_withdrawals committed_data in
        let deleted := foldl (fun set x => set_insert x set) (deleted_contracts top_layer) (deleted_contracts committed_data) in
        _ ← update (set_data (mkLayer (gasometer top_layer) (l_is_static top_layer) logs deleted withdrawals :: rest));
        record_stipend (gas_remaining h)
    | [_] => _ ← update (set_data []); fail (InconsistentState (str "The transaction data stack is empty"))
    | [] => fail (InconsistentState (str "The transaction data stack is empty at commit"))
    end.
Definition rollback_inter_transaction (refund_gas : bool) : hM unit :=
  h ← hget;
  if depth h <? 2 then fail (InconsistentTransactionStack (depth h) false false)
  else
    _ ← update (set_data (tail (transaction_data h)));
    _ ← (if refund_gas then record_stipend (gas_remaining h) else mret tt);
    storage_result rollback_transaction.

(** The end of a nested transaction never fails: errors become the exit reason. *)
Definition end_inter_transaction (execution_result : EthereumError + CreateOutcome) : hM CreateOutcome :=
  ended ← M_result match execution_result with
    | inr (ExitSucceeded _, _, _) => commit_inter_transaction
    | inr (ExitReverted _, _, _) => rollback_inter_transaction true
    | _ => rollback_inter_transaction false
    end;
  mret match ended, execution_result with
       | inl err, _ => (ethereum_error_to_exit_reason err, None, [])
       | inr _, inr res => res
       | inr _, inl err => (ethereum_error_to_exit_reason err, None, [])
       end.

(** Part of EIP-150. *)
Definition nested_call_gas_limit (target_gas : option N) (h : Handler) : option N :=
  (fun gas =>
    let gas_remaining := gas_remaining h in
    let max_gas_limit := (if call_l64_after_gas then gas_remaining - gas_remaining / 64 else gas_remaining)%N in
    N.min gas max_gas_limit) <$> target_gas.
End handler.
