(* ===== verification/EvmPrecompiles.v ===== *)
(** Precompiled contracts.

    Models [etherlink/kernel_evm/evm_execution/src/precompiles.rs], [modexp.rs], [zk_precompiled.rs], [abi.rs] and [utilities.rs]: the contracts that
    the kernel implements itself, at the addresses 1 to 8 and [ff00...01], where withdrawals to layer one are made.  Hash functions,
    the modular exponentiation, the curve [bn128] and the notation of contracts of layer one belong to crates outside of the
    repository. *)

From S2P Require Import Prelude Endian KernelPath KernelHost KernelRuntime KernelStorage EvmErrors Rlp EvmStorage EthTypes EthSign EvmTx EthBlock EvmStore EvmAccounts EvmApply EvmTicks EvmBlockHashes EvmHandler.

(** * Crates *)

Class PrecompileCrates := {
  sha256 : bytes -> bytes;
  ripemd160 : bytes -> bytes;
  modexp : bytes -> bytes -> bytes -> bytes;
  (** [Contract::from_b58check], the contract being its encoding. *)
  contract_from_b58check : bytes -> option bytes;
  Fq : Type; Fq2 : Type; Fr : Type; G1 : Type; G2 : Type; Gt : Type;
  fq_from_slice : bytes -> option Fq; fq_is_zero : Fq -> bool; fq_to_big_endian : Fq -> bytes;
  fr_from_slice : bytes -> option Fr;
  g1_zero : G1; g1_add : G1 -> G1 -> G1; g1_mul : G1 -> Fr -> G1;
  (** [AffineG1::new] and its conversion, [AffineG1::from_jacobian] with the coordinates. *)
  affine_g1_new : Fq -> Fq -> option G1; affine_g1_from_jacobian : G1 -> option (Fq * Fq);
  fq2_new : Fq -> Fq -> Fq2; fq2_is_zero : Fq2 -> bool;
  g2_zero : G2; affine_g2_new : Fq2 -> Fq2 -> option G2;
  gt_one : Gt; gt_mul : Gt -> Gt -> Gt; gt_eqb : Gt -> Gt -> bool; pairing : G1 -> G2 -> Gt
}.

(** * Parameters of calls (abi.rs) *)

(** [get] of a range of a slice. *)
Definition get_range (bs : bytes) (start len : N) : option bytes :=
  if (start + len <=? N.of_nat (length bs))%N then Some (slice (N.to_nat start) (N.to_nat len) bs) else None.
(** [usize::try_from]: kernels run on a machine whose [usize] has 32 bits. *)
Definition usize_max : N := 2 ^ 32 - 1.
Definition to_usize (n : N) : option N := if (n <=? usize_max)%N then Some n else None.

Definition u256_parameter (input_data : bytes) (parameter_number : N) : option N :=
  of_be_bytes <$> get_range input_data (parameter_number * 32) 32.
Definition bytes_parameter (input_data : bytes) (parameter_number : N) : option bytes :=
  location ← u256_parameter input_data parameter_number ≫= to_usize;
  length ← (of_be_bytes <$> get_range input_data location 32) ≫= to_usize;
  get_range input_data (location + 32) length.
Definition string_parameter (input_data : bytes) (parameter_number : N) : option bytes :=
  bs ← bytes_parameter input_data parameter_number; if utf8_valid bs then Some bs else None.

(** * Padding (utilities.rs) *)

Definition zeros (n : nat) : bytes := repeat Byte.x00 n.
Definition get_right_padded_vec (data : bytes) (offset len : N) : bytes :=
  let start := N.min offset (N.of_nat (length data)) in
  let end_ := N.min (N.min (start + len) usize_max) (N.of_nat (length data)) in
  let part := slice (N.to_nat start) (N.to_nat (end_ - start)) data in
  part ++ zeros (N.to_nat len - length part).
Definition get_right_padded (s : nat) (data : bytes) (offset : N) : bytes := get_right_padded_vec data offset (N.of_nat s).
Definition left_padding_vec (data : bytes) (len : nat) : bytes := zeros (len - length data) ++ take len data.
Definition left_padding (s : nat) (data : bytes) : bytes := left_padding_vec data s.

(** * Gas of the modular exponentiation (modexp.rs) *)

Definition calculate_iteration_count (exp_length exp_highp : N) : N :=
  let iteration_count :=
    (if (exp_length <=? 32) && (exp_highp =? 0) then 0
     else if exp_length <=? 32 then N.size exp_highp - 1
     else u64_sub (u64_add (u64_mul 8 (exp_length - 32)) (N.max 1 (N.size exp_highp))) 1)%N in
  N.max iteration_count 1.
Definition calculate_multiplication_complexity (base_length mod_length : N) : N :=
  let max_length := N.max base_length mod_length in
  let words := (max_length / 8 + if 0 <? max_length mod 8 then 1 else 0)%N in
  (words * words)%N.
Definition gas_calc (base_length exp_length mod_length exp_highp : N) : N :=
  let multiplication_complexity := calculate_multiplication_complexity base_length mod_length in
  let iteration_count := calculate_iteration_count exp_length exp_highp in
  let gas := (multiplication_complexity * iteration_count / 3)%N in
  if (2 ^ 64 <=? gas)%N then (2 ^ 64 - 1)%N else N.max 200 gas.

Definition HEADER_LENGTH : nat := 96.
Definition ADD_INPUT_LEN : nat := 128.
Definition MUL_INPUT_LEN : nat := 128.
Definition PAIR_ELEMENT_LEN : nat := 192.

(** * Ticks *)

Definition size_of (data : bytes) : N := N.of_nat (length data).
Definition ticks_of_sha256 (data_size : N) : N := (75000 + 30000 * (data_size / 64))%N.
Definition ticks_of_ripemd160 (data_size : N) : N := (70000 + 20000 * (data_size / 64))%N.
Definition ticks_of_identity (data_size : N) : N := (42000 + 35 * data_size)%N.
Definition ticks_of_withdraw : N := 1000000.
Definition ticks_of_ecrecover : N := 30000000.

Record PrecompileOutcome : Set := mkPrecompileOutcome { exit_status : ExitReason; p_output : bytes; p_withdrawals : list Withdrawal; estimated_ticks : N }.

Definition precompile_failure (msg : bytes) : EthereumError := PrecompileFailed (ExitErrorOther msg).

(** [vec.resize(len, 0)]. *)
Definition resize (len : nat) (bs : bytes) : bytes := take len (bs ++ zeros len).

Section precompiles.
Context {S : Type} {core : SmartRollupCore S} {secp : Secp} {lc : LogCrates} {conf : EvmConfig} {gc : GasometerCrate} {pc : PrecompileCrates}.
Context (env : HandlerEnv).
Abbreviation hM := (M (Handler (S := S)) EthereumError).
Abbreviation PrecompileFn := (bytes -> Context -> bool -> option Transfer -> hM PrecompileOutcome).

Definition fail_if_too_much (ticks : N) : hM N :=
  h ← hget; if (ticks_allocated env <? u64_add ticks (h_ticks_used h))%N then fail OutOfTicks else mret ticks.
(** [if let Err(err) = handler.record_cost(cost) { return Ok(...) }]. *)
Definition charged (cost ticks : N) (k : hM PrecompileOutcome) : hM PrecompileOutcome :=
  recorded ← M_result (record_cost cost);
  match recorded with
  | inl err => mret (mkPrecompileOutcome (ExitFailed err) [] [] ticks)
  | inr _ => k
  end.
Definition returned (output : bytes) (ticks : N) : hM PrecompileOutcome := mret (mkPrecompileOutcome (ExitSucceeded Returned) output [] ticks).

(** When a contract fails, its gas is used up. *)
Definition call_precompile_with_gas_draining (input : bytes) (precompile_contract_without_gas : bytes -> hM PrecompileOutcome) : hM PrecompileOutcome :=
  precompile_outcome ← M_result (precompile_contract_without_gas input);
  match precompile_outcome with
  | inr precompile_outcome => mret precompile_outcome
  | inl err => h ← hget; charged (gas_remaining h) 0 (fail err)
  end.

(** * Contracts of Ethereum *)

Definition erec_output_for_wrong_input : hM PrecompileOutcome := returned [] 0.
Definition erec_parse_inputs (input : bytes) : bytes * byte * bytes * bytes :=
  let clean_input := resize 128 input in
  (slice 0 32 clean_input, nth 31 (slice 32 32 clean_input) Byte.x00, slice 64 32 clean_input, slice 96 32 clean_input).
Definition ecrecover_precompile : PrecompileFn := fun input _ _ _ =>
  estimated_ticks ← fail_if_too_much ticks_of_ecrecover;
  charged 3000 estimated_ticks (
    let '(hash, v_raw, r_array, s_array) := erec_parse_inputs input in
    if (Byte.to_N v_raw <? 27)%N then erec_output_for_wrong_input
    else match recovery_id_parse (Byte.to_N v_raw - 27) with
    | Ok ri =>
        match secp_recover hash (scalar_set_b32 r_array, scalar_set_b32 s_array) ri with
        | Ok pubk =>
            let add := address_of pubk in
            if length add =? 20 then returned (zeros 12 ++ add) estimated_ticks else erec_output_for_wrong_input
        | Err _ => erec_output_for_wrong_input
        | Panic p => panicked p
        | Diverge => diverge
        end
    | Err _ => erec_output_for_wrong_input
    | Panic p => panicked p
    | Diverge => diverge
    end).

Definition identity_precompile : PrecompileFn := fun input _ _ _ =>
  estimated_ticks ← fail_if_too_much (ticks_of_identity (size_of input));
  let data_word_size := ((size_of input + 31) / 32)%N in
  charged (15 + 3 * data_word_size) estimated_ticks (returned input estimated_ticks).
Definition sha256_precompile : PrecompileFn := fun input _ _ _ =>
  estimated_ticks ← fail_if_too_much (ticks_of_sha256 (size_of input));
  let data_word_size := ((31 + size_of input) / 32)%N in
  charged (60 + 12 * data_word_size) estimated_ticks (returned (sha256 input) estimated_ticks).
Definition ripemd160_precompile : PrecompileFn := fun input _ _ _ =>
  estimated_ticks ← fail_if_too_much (ticks_of_ripemd160 (size_of input));
  let data_word_size := ((31 + size_of input) / 32)%N in
  charged (600 + 120 * data_word_size) estimated_ticks (returned (zeros 12 ++ ripemd160 input) estimated_ticks).

Definition modexp_overflow : EthereumError := precompile_failure (str "modexp mod overflow").
Definition modexp_precompile : PrecompileFn := fun input _ _ _ =>
  let estimated_ticks := 1000000%N in
  base_len ← lift (ok_or modexp_overflow (to_usize (of_be_bytes (get_right_padded 32 input 0))));
  mod_len ← lift (ok_or modexp_overflow (to_usize (of_be_bytes (get_right_padded 32 input 64))));
  if (base_len =? 0)%N && (mod_len =? 0)%N then charged 200 estimated_ticks (returned [] estimated_ticks)
  else
    exp_len ← lift (ok_or modexp_overflow (to_usize (of_be_bytes (get_right_padded 32 input 32))));
    let exp_highp_len := N.min exp_len 32 in
    let input := drop HEADER_LENGTH input in
    let exp_highp := of_be_bytes (left_padding 32 (take (N.to_nat exp_highp_len) (get_right_padded 32 input base_len))) in
    charged (gas_calc base_len exp_len mod_len exp_highp) estimated_ticks (
      let base := get_right_padded_vec input 0 base_len in
      let exponent := get_right_padded_vec input base_len exp_len in
      let modulus := get_right_padded_vec input (N.min (base_len + exp_len) usize_max) mod_len in
      returned (left_padding_vec (modexp base exponent modulus) (N.to_nat mod_len)) estimated_ticks).

(** * The curve bn128 (zk_precompiled.rs) *)

Definition bn128_field_point_not_a_member_error : EthereumError := precompile_failure (str "Bn128FieldPointNotAMember").
Definition bn128_affine_g_failed_to_create_error : EthereumError := precompile_failure (str "Bn128AffineGFailedToCreate").
Definition read_fq (input : bytes) (pos : nat) : outcome EthereumError Fq :=
  ok_or bn128_field_point_not_a_member_error (fq_from_slice (slice pos 32 input)).
Definition read_point (input : bytes) (pos : nat) : outcome EthereumError G1 :=
  px ← read_fq input pos;
  py ← read_fq input (pos + 32);
  if fq_is_zero px && fq_is_zero py then Ok g1_zero
  else ok_or bn128_affine_g_failed_to_create_error (affine_g1_new px py).
(** The coordinates of a point, or zeros. *)
Definition point_output (p : G1) : bytes :=
  match affine_g1_from_jacobian p with
  | Some (x, y) => fq_to_big_endian x ++ fq_to_big_endian y
  | None => zeros 64
  end.

Definition ecadd_precompile_without_gas_draining (input : bytes) : hM PrecompileOutcome :=
  let estimated_ticks := 1000000%N in
  charged 150 estimated_ticks (
    let input := resize ADD_INPUT_LEN input in
    p1 ← lift (read_point input 0);
    p2 ← lift (read_point input 64);
    returned (point_output (g1_add p1 p2)) estimated_ticks).
Definition ecadd_precompile : PrecompileFn := fun input _ _ _ => call_precompile_with_gas_draining input ecadd_precompile_without_gas_draining.

Definition ecmul_precompile_without_gas_draining (input : bytes) : hM PrecompileOutcome :=
  let estimated_ticks := 1000000%N in
  charged 6000 estimated_ticks (
    let input := resize MUL_INPUT_LEN input in
    p ← lift (read_point input 0);
    fr ← lift (expect PUnwrap (fr_from_slice (slice 64 32 input)));
    returned (point_output (g1_mul p fr)) estimated_ticks).
Definition ecmul_precompile : PrecompileFn := fun input _ _ _ => call_precompile_with_gas_draining input ecmul_precompile_without_gas_draining.

Definition read_pair (input : bytes) (idx : nat) : outcome EthereumError (G1 * G2) :=
  let pos := idx * PAIR_ELEMENT_LEN in
  ax ← read_fq input pos;
  ay ← read_fq input (pos + 32);
  bay ← read_fq input (pos + 64);
  bax ← read_fq input (pos + 96);
  bby ← read_fq input (pos + 128);
  bbx ← read_fq input (pos + 160);
  a ← (if fq_is_zero ax && fq_is_zero ay then Ok g1_zero else ok_or bn128_affine_g_failed_to_create_error (affine_g1_new ax ay));
  let ba := fq2_new bax bay in
  let bb := fq2_new bbx bby in
  b ← (if fq2_is_zero ba && fq2_is_zero bb then Ok g2_zero else ok_or bn128_affine_g_failed_to_create_error (affine_g2_new ba bb));
  Ok (a, b).
Definition pairing_output (vals : list (G1 * G2)) : N :=
  let mul := foldl (fun s '(a, b) => gt_mul s (pairing a b)) gt_one vals in
  if gt_eqb mul gt_one then 1 else 0.
Definition ecpairing_precompile_without_gas_draining (input : bytes) : hM PrecompileOutcome :=
  let estimated_ticks := 1000000%N in
  let elements := length input / PAIR_ELEMENT_LEN in
  charged (N.of_nat elements * 34000 + 45000)%N estimated_ticks (
    if negb (length input mod PAIR_ELEMENT_LEN =? 0) then fail (precompile_failure (str "Bn128PairLength"))
    else
      output ← (if length input =? 0 then mret 1%N
                else vals ← mapM (fun idx => lift (read_pair input idx)) (seq 0 elements); mret (pairing_output vals));
      returned (be_bytes 32 output) estimated_ticks).
Definition ecpairing_precompile : PrecompileFn := fun input _ _ _ => call_precompile_with_gas_draining input ecpairing_precompile_without_gas_draining.

(** * Withdrawals *)

Definition withdrawal_selector : bytes := map byte_of_N [0xcd; 0xa4; 0xfe; 0xe2]%N.
Definition revert_withdrawal : PrecompileOutcome := mkPrecompileOutcome (ExitReverted Reverted) [] [] ticks_of_withdraw.
(** [Withdrawal::address_from_str]. *)
Definition address_from_str (s : bytes) : option bytes := contract_from_b58check s.
Definition withdrawal_precompile : PrecompileFn := fun input _ _ transfer =>
  estimated_ticks ← fail_if_too_much ticks_of_withdraw;
  mret match transfer with
  | None => revert_withdrawal
  | Some transfer =>
      if (tr_value transfer =? 0)%N then revert_withdrawal
      else if bool_decide (take 4 input = withdrawal_selector) then
        match string_parameter (drop 4 input) 0 ≫= address_from_str with
        | Some target => mkPrecompileOutcome (ExitSucceeded Returned) [] [mkWithdrawal target (tr_value transfer)] estimated_ticks
        | None => revert_withdrawal
        end
      else revert_withdrawal
  end.

(** * The set of contracts *)

Definition from_low_u64_be (n : N) : bytes := zeros 12 ++ be_bytes 8 n.
Definition WITHDRAWAL_ADDRESS : bytes := [Byte.xff] ++ zeros 18 ++ [Byte.x01].
Definition precompile_set : list (bytes * PrecompileFn) :=
  [(from_low_u64_be 1, ecrecover_precompile); (from_low_u64_be 2, sha256_precompile); (from_low_u64_be 3, ripemd160_precompile);
   (from_low_u64_be 4, identity_precompile); (from_low_u64_be 5, modexp_precompile); (from_low_u64_be 6, ecadd_precompile);
   (from_low_u64_be 7, ecmul_precompile); (from_low_u64_be 8, ecpairing_precompile); (WITHDRAWAL_ADDRESS, withdrawal_precompile)].

Fixpoint find_precompile (address : bytes) (set : list (bytes * PrecompileFn)) : option PrecompileFn :=
  match set with
  | [] => None
  | (a, f) :: set => if bool_decide (a = address) then Some f else find_precompile address set
  end.
(** [PrecompileSet::execute]: [None] when there is no contract. *)
Definition precompiles_execute (set : list (bytes * PrecompileFn)) (address input : bytes) (context : Context) (is_static : bool) (transfer : option Transfer) :
    option (hM PrecompileOutcome) :=
  (fun precompile => precompile input context is_static transfer) <$> find_precompile address set.
Definition is_precompile (set : list (bytes * PrecompileFn)) (address : bytes) : bool := match find_precompile address set with Some _ => true | None => false end.
End precompiles.
