(* ===== verification/EvmExec.v ===== *)
(** Execution of contracts.

    Models the second half of [etherlink/kernel_evm/evm_execution/src/handler.rs] (the loop on the steps of the virtual machine, calls and
    creations of contracts, the implementation of the trait [Handler]) and [run_transaction] of [lib.rs].

    The virtual machine is a parameter.  One of its steps calls the methods of the handler: it is a program of requests ([HandlerE],
    a constructor for each method of the trait), and the answers are those of the handler.  The loop, and the nested loops of
    calls, recurse on fuel. *)

From S2P Require Import Prelude Endian KernelPath KernelHost KernelRuntime KernelStorage EvmErrors Rlp EvmStorage EthTypes EthSign EvmTx EthBlock EvmStore EvmAccounts EvmApply EvmTicks EvmBlockHashes EvmHandler EvmPrecompiles.

(** * Requests of the machine *)

(** Requests that change nothing. *)
Inductive QueryE : Type -> Type :=
  | QBalance (address : bytes) : QueryE N
  | QCodeSize (address : bytes) : QueryE N
  | QCodeHash (address : bytes) : QueryE bytes
  | QCode (address : bytes) : QueryE bytes
  | QStorage (address index : bytes) : QueryE bytes
  | QOriginalStorage (address index : bytes) : QueryE bytes
  | QGasLeft : QueryE N
  | QGasPrice : QueryE N
  | QOrigin : QueryE bytes
  | QBlockHash (number : N) : QueryE bytes
  | QBlockNumber : QueryE N
  | QBlockCoinbase : QueryE bytes
  | QBlockTimestamp : QueryE N
  | QBlockDifficulty : QueryE N
  | QBlockGasLimit : QueryE N
  | QBlockBaseFee : QueryE N
  | QBlockRandomness : QueryE (option bytes)
  | QChainId : QueryE N
  | QExists (address : bytes) : QueryE bool
  | QDeleted (address : bytes) : QueryE bool
  | QIsCold (address : bytes) (index : option bytes) : QueryE (ExitError + bool).

Inductive HandlerE (Stack : Type) : Type -> Type :=
  | Query {X} (q : QueryE X) : HandlerE Stack X
  | SetStorage (address index value : bytes) : HandlerE Stack (ExitError + unit)
  | LogEvent (address : bytes) (topics : list bytes) (data : bytes) : HandlerE Stack (ExitError + unit)
  | MarkDelete (address target : bytes) : HandlerE Stack (ExitError + unit)
  | Create (caller : bytes) (scheme : CreateScheme) (value : N) (init_code : bytes) (target_gas : option N) : HandlerE Stack CreateOutcome
  | Call (code_address : bytes) (transfer : option Transfer) (input : bytes) (target_gas : option N) (is_static : bool) (context : Context) :
      HandlerE Stack (ExitReason * bytes)
  | PreValidate (context : Context) (opcode : byte) (stack : Stack) : HandlerE Stack (ExitError + unit).
Arguments Query {Stack X}. Arguments SetStorage {Stack}. Arguments LogEvent {Stack}. Arguments MarkDelete {Stack}. Arguments Create {Stack}.
Arguments Call {Stack}. Arguments PreValidate {Stack}.

(** Programs that make requests. *)
Inductive Prog (E : Type -> Type) (A : Type) : Type := Ret (a : A) | Ask {X : Type} (e : E X) (k : X -> Prog E A).
Arguments Ret {E A}. Arguments Ask {E A X}.

(** The result of a step: [Ok(())], [Capture::Exit], [Capture::Trap]. *)
Inductive StepResult : Set := Continue | Exit (reason : ExitReason) | Trap.

(** [evm::Runtime] and the costs of opcodes, for the configuration in use; [Log]. *)
Class Sputnik {gc : GasometerCrate} {lc : LogCrates} := {
  Machine : Type; Stack : Type;
  (** From the code, the data and the context. *)
  machine_new : bytes -> bytes -> Context -> Machine;
  inspect : Machine -> option byte;
  step : Machine -> Prog (HandlerE Stack) (Machine * StepResult);
  return_value : Machine -> bytes;
  static_opcode_cost : byte -> option N;
  dynamic_opcode_cost : bytes -> byte -> Stack -> bool -> Prog QueryE (ExitError + GasCost * option MemoryCost);
  log_new : bytes -> list bytes -> bytes -> Log
}.

Definition MAX_CODE_SIZE : nat := N.to_nat 24576.

Section exec.
Context {S : Type} {core : SmartRollupCore S} {hex : HexCrate} {secp : Secp} {crate : RlpCrate} {eth : EthCrates} {fle : U256FromLe}.
Context {lc : LogCrates} {conf : EvmConfig} {gc : GasometerCrate} {dbg : DebugFormat} {pc : PrecompileCrates} {vm : Sputnik}.
Context (env : HandlerEnv).
Abbreviation Handler := (EvmHandler.Handler (S := S)).
Abbreviation hM := (M Handler EthereumError).

(** * Queries *)

Fixpoint interp {E : Type -> Type} (answer : forall X, E X -> hM X) {A} (p : Prog E A) : hM A :=
  match p with
  | Ret a => mret a
  | Ask e k => x ← answer _ e; interp answer (k x)
  end.

Definition account_value {A} (d : A) (read : bytes -> M S AccountStorageError A) (address : bytes) : hM A :=
  account ← get_account address; account_or d read account.
Definition h_balance (address : bytes) : hM N := account_value 0%N balance address.
Definition h_code_size (address : bytes) : hM N := account_value 0%N code_size address.
Definition h_exists (address : bytes) : hM bool :=
  size ← h_code_size address;
  if (0 <? size)%N then mret true
  else nonce ← get_nonce address; if (0 <? nonce)%N then mret true else balance ← h_balance address; mret (0 <? balance)%N.
Definition h_code_hash (address : bytes) : hM bytes :=
  exists_ ← h_exists address; if (exists_ : bool) then account_value CODE_HASH_DEFAULT code_hash address else mret H256_zero.
Definition h_code (address : bytes) : hM bytes := account_value [] code address.
Definition h_storage (address index : bytes) : hM bytes := account_value H256_zero (fun a => EvmAccounts.get_storage a index) address.
Definition h_original_storage (address index : bytes) : hM bytes :=
  account ← get_original_account address; account_or H256_zero (fun a => EvmAccounts.get_storage a index) account.
Definition h_block_hash (number : N) : hM bytes :=
  match u256_checked_sub (bc_number (h_block env)) number with
  | Some block_diff =>
      if (block_diff <=? 256)%N && negb (block_diff =? 0)%N then hash ← with_host (M_ok (get_block_hash number)); mret (default H256_zero hash)
      else mret H256_zero
  | None => mret H256_zero
  end.
Definition deleted (address : bytes) (h : Handler) : bool :=
  existsb (fun data => bool_decide (address ∈ deleted_contracts data)) (transaction_data h).

Definition query {X} (q : QueryE X) : hM X :=
  match q in QueryE X return hM X with
  | QBalance address => h_balance address
  | QCodeSize address => h_code_size address
  | QCodeHash address => h_code_hash address
  | QCode address => h_code address
  | QStorage address index => h_storage address index
  | QOriginalStorage address index => h_original_storage address index
  | QGasLeft => h ← hget; mret (gas_remaining h)
  | QGasPrice => mret (effective_gas_price env)
  | QOrigin => mret (h_origin env)
  | QBlockHash number => h_block_hash number
  | QBlockNumber => mret (bc_number (h_block env))
  | QBlockCoinbase => mret (coinbase (h_block env))
  | QBlockTimestamp => mret (bc_timestamp (h_block env))
  | QBlockDifficulty => mret 0%N
  | QBlockGasLimit => mret (bc_gas_limit (h_block env))
  | QBlockBaseFee => mret (base_fee_per_gas (h_block env))
  | QBlockRandomness => mret None
  | QChainId => mret (bc_chain_id (h_block env))
  | QExists address => h_exists address
  | QDeleted address => h ← hget; mret (deleted address h)
  | QIsCold _ _ => mret (inr false)
  end.

(** * Updates *)

(** [.map_err(|_| ExitError::Other(msg))]. *)
Definition or_exit {A} (msg : bytes) (m : hM A) : hM (ExitError + A) :=
  r ← M_result m; mret (match r with inl _ => inl (ExitErrorOther msg) | inr a => inr a end).
Definition h_set_storage (address index value : bytes) : hM (ExitError + unit) :=
  account ← or_exit (str "Could not get account for set_storage") (get_or_create_account address);
  match account with
  | inl e => mret (inl e)
  | inr account => or_exit (str "Could not set_storage in handler") (on_account (EvmAccounts.set_storage account index value))
  end.
(** A change of the last layer. *)
Definition on_top_layer (msg : bytes) (f : TransactionLayerData -> TransactionLayerData) : hM (ExitError + unit) := fun h =>
  match transaction_data h with
  | layer :: rest => (Ok (inr tt), set_data (f layer :: rest) h)
  | [] => (Ok (inl (ExitErrorOther msg)), h)
  end.
Definition h_log (address : bytes) (topics : list bytes) (data : bytes) : hM (ExitError + unit) :=
  on_top_layer (str "No transaction data for log") (fun layer =>
    mkLayer (gasometer layer) (l_is_static layer) (l_logs layer ++ [log_new address topics data]) (deleted_contracts layer) (l_withdrawals layer)).
Definition mark_delete (address target : bytes) : hM (ExitError + unit) :=
  balance ← h_balance address;
  transferred ← or_exit (str "Could not execute transfer on contract delete") (execute_transfer address target balance);
  match transferred with
  | inl e => mret (inl e)
  | inr _ =>
      on_top_layer (str "No transaction data for delete") (fun layer =>
        mkLayer (gasometer layer) (l_is_static layer) (l_logs layer) (set_insert address (deleted_contracts layer)) (l_withdrawals layer))
  end.
Definition pre_validate (context : Context) (opcode : byte) (stack : Stack) : hM (ExitError + unit) :=
  match static_opcode_cost opcode with
  | Some cost => M_result (record_cost cost)
  | None =>
      h ← hget;
      cost ← interp (@query) (dynamic_opcode_cost (ctx_address context) opcode stack (is_static h));
      match cost with
      | inl e => mret (inl e)
      | inr (cost, memory_cost) => M_result (record_dynamic_cost cost memory_cost)
      end
  end.

(** * Calls and creations, given how to run a machine *)

Section contracts.
Context (execute : Machine -> hM (Machine * ExitReason)).

Definition create_address_legacy (caller : bytes) (nonce : N) : bytes := drop 12 (keccak256 (rlp_list [rlp_value caller; append_u256 nonce])).
Definition create_address (scheme : CreateScheme) : hM bytes :=
  match scheme with
  | SchemeCreate2 caller code_hash salt => mret (drop 12 (keccak256 ([Byte.xff] ++ caller ++ salt ++ code_hash)))
  | SchemeLegacy caller => nonce ← get_nonce caller; mret (create_address_legacy caller nonce)
  | SchemeFixed address => mret address
  end.

Definition end_create (sub_context_result : EthereumError + (Machine * ExitReason)) (address : bytes) : hM CreateOutcome :=
  match sub_context_result with
  | inr (_, ExitSucceeded Suicided) => mret (ExitSucceeded Suicided, Some address, [])
  | inr (runtime, ExitSucceeded r) =>
      let code_out := return_value runtime in
      if bool_decide (head code_out = Some Byte.xef) then mret (ExitFailed (InvalidCode Byte.xef), None, [])
      else if MAX_CODE_SIZE <? length code_out then mret (ExitFailed CreateContractLimit, None, [])
      else
        deposited ← M_result (record_deposit (length code_out));
        match deposited with
        | inl err => mret (ExitFailed err, None, [])
        | inr _ =>
            _ ← set_contract_code address code_out;
            _ ← increment_nonce address;
            mret (ExitSucceeded r, Some address, [])
        end
  | inr (runtime, ExitReverted r) => mret (ExitReverted r, None, return_value runtime)
  | inr (_, ExitFailed e) => mret (ExitFailed e, None, [])
  | inr (_, ExitFatally e) => mret (ExitFatally e, None, [])
  | inl err => fail err
  end.

Definition execute_create (caller : bytes) (scheme : CreateScheme) (value : N) (initial_code : bytes) (create_opcode : bool) : hM CreateOutcome :=
  address ← create_address scheme;
  h ← hget;
  if deleted address h && create_opcode && match scheme with SchemeCreate2 _ _ _ => true | _ => false end then
    _ ← increment_nonce caller; mret (ExitSucceeded Stopped, Some H160_zero, [])
  else if stack_limit <=? depth h then mret (ExitFatally (CallErrorAsFatal CallTooDeep), None, [])
  else
    colliding ← is_colliding address;
    if (colliding : bool) then mret (ExitFailed CreateCollision, None, [])
    else
      transferred ← execute_transfer caller address value;
      match transferred with
      | TransferOutOfFund => mret (ExitFailed OutOfFund, None, [])
      | TransferReturned =>
          _ ← (if create_opcode then increment_nonce caller else mret tt);
          let runtime := machine_new initial_code [] (mkContext address caller value) in
          result ← M_result (execute runtime);
          end_create result address
      end.

Definition execute_call (address : bytes) (transfer : option Transfer) (input : bytes) (transaction_context : Context) : hM CreateOutcome :=
  h ← hget;
  if stack_limit <? depth h then mret (ExitFatally (CallErrorAsFatal CallTooDeep), None, [])
  else
    transferred ← match transfer with
      | Some transfer => execute_transfer (ctx_caller transaction_context) address (tr_value transfer)
      | None => mret TransferReturned
      end;
    match transferred with
    | TransferOutOfFund => mret (ExitFailed OutOfFund, None, [])
    | TransferReturned =>
        h ← hget;
        match precompiles_execute (precompile_set env) address input transaction_context (is_static h) transfer with
        | Some precompile_result =>
            outcome ← precompile_result;
            _ ← add_withdrawals (p_withdrawals outcome);
            _ ← update (fun h => set_ticks (u64_add (h_ticks_used h) (estimated_ticks outcome)) h);
            mret (exit_status outcome, None, p_output outcome)
        | None =>
            if negb (deleted address h) then
              code ← h_code address;
              '(runtime, result) ← execute (machine_new code input transaction_context);
              mret (result, None, return_value runtime)
            else mret (ExitSucceeded Stopped, None, [])
        end
    end.

Definition out_of_gas_before (what : bytes) : ExitReason := ExitFatally (ExitFatalOther (str "Out of gas before recursive " ++ what)).
Definition create (caller : bytes) (scheme : CreateScheme) (value : N) (init_code : bytes) (target_gas : option N) : hM CreateOutcome :=
  h ← hget;
  let gas_limit := nested_call_gas_limit target_gas h in
  begun ← M_result (begin_inter_transaction false gas_limit);
  match begun with
  | inl _ => mret (out_of_gas_before (str "create"), None, [])
  | inr _ =>
      result ← M_result (execute_create caller scheme value init_code true);
      end_inter_transaction result
  end.
Definition call (code_address : bytes) (transfer : option Transfer) (input : bytes) (target_gas : option N) (is_static : bool) (context : Context) :
    hM (ExitReason * bytes) :=
  h ← hget;
  let gas_limit := nested_call_gas_limit target_gas h in
  recorded ← M_result (record_cost (default 0%N gas_limit));
  match recorded with
  | inl _ => mret (out_of_gas_before (str "call"), [])
  | inr _ =>
      let stipend := match transfer with Some transfer => (0 <? tr_value transfer)%N | None => false end in
      let gas_limit := if stipend then (fun v => N.min (v + call_stipend) (2 ^ 64 - 1))%N <$> gas_limit else gas_limit in
      begun ← M_result (begin_inter_transaction is_static gas_limit);
      match begun with
      | inl err => mret (ethereum_error_to_exit_reason err, [])
      | inr _ =>
          result ← M_result (execute_call code_address transfer input context);
          '(reason, _, value) ← end_inter_transaction result;
          mret (reason, value)
      end
  end.

(** The trait [Handler]. *)
Definition handle {X} (e : HandlerE Stack X) : hM X :=
  match e in HandlerE _ X return hM X with
  | Query q => query q
  | SetStorage address index value => h_set_storage address index value
  | LogEvent address topics data => h_log address topics data
  | MarkDelete address target => mark_delete address target
  | Create caller scheme value init_code target_gas => create caller scheme value init_code target_gas
  | Call code_address transfer input target_gas is_static context => call code_address transfer input target_gas is_static context
  | PreValidate context opcode stack => pre_validate context opcode stack
  end.

(** One turn of the loop of [execute]. *)
Definition execute_step (runtime : Machine) : hM (Machine * StepResult) :=
  let opcode := inspect runtime in
  before ← hget;
  '(runtime, step_result) ← interp (@handle) (step runtime);
  after ← hget;
  _ ← match opcode with
      | Some opcode => account_for_ticks env opcode (u64_sub (h_gas_used after) (h_gas_used before))
      | None => mret tt
      end;
  mret (runtime, step_result).
Definition execute_body (runtime : Machine) : hM (Machine * ExitReason) :=
  '(runtime, step_result) ← execute_step runtime;
  match step_result with
  | Continue => execute runtime
  | Exit reason => mret (runtime, reason)
  | Trap => fail InternalTrapError
  end.
End contracts.

Fixpoint execute (fuel : nat) (runtime : Machine) : hM (Machine * ExitReason) :=
  match fuel with
  | 0 => diverge
  | Datatypes.S fuel => execute_body (execute fuel) runtime
  end.

(** * Transactions *)

Context (fuel : nat).

Definition call_contract (caller callee : bytes) (value : option N) (input : bytes) (gas_limit : option N) (is_static : bool) : hM ExecutionOutcome :=
  _ ← begin_initial_transaction is_static gas_limit;
  recorded ← M_result (record_base_gas_cost false input);
  match recorded with
  | inl err => end_initial_transaction (inr (ExitFailed err, None, []))
  | inr _ =>
      result ← M_result (execute_call (execute fuel) callee (mkTransfer caller callee <$> value) input (mkContext callee caller (default 0%N value)));
      end_initial_transaction result
  end.
Definition create_contract (caller : bytes) (value : option N) (input : bytes) (gas_limit : option N) : hM ExecutionOutcome :=
  _ ← begin_initial_transaction false gas_limit;
  recorded ← M_result (record_base_gas_cost true input);
  match recorded with
  | inl err => end_initial_transaction (inr (ExitFailed err, None, []))
  | inr _ =>
      result ← M_result (execute_create (execute fuel) caller (SchemeLegacy caller) (default 0%N value) input false);
      end_initial_transaction result
  end.

Definition do_refund (outcome : ExecutionOutcome) (pay_for_gas : bool) : bool :=
  match reason outcome with
  | ExitReverted _ => pay_for_gas
  | _ => pay_for_gas && is_success outcome
  end.
Definition run_in_handler (address : option bytes) (caller call_data : bytes) (gas_limit : option N) (value : option N) (pay_for_gas : bool) :
    hM (option ExecutionOutcome) :=
  let price := effective_gas_price env in
  paid ← (if negb pay_for_gas then mret true else pre_pay_transactions caller gas_limit price);
  if (paid : bool) then
    result ← M_result (match address with
      | Some address => call_contract caller address value call_data gas_limit false
      | None => create_contract caller value call_data gas_limit
      end);
    match result with
    | inr result =>
        _ ← increment_nonce caller;
        _ ← (if do_refund result pay_for_gas then repay_gas caller ((fun gl => u64_sub gl (gas_used result)) <$> gas_limit) price else mret tt);
        mret (Some result)
    | inl OutOfTicks =>
        _ ← (if pay_for_gas then repay_gas caller gas_limit price else mret tt);
        fail OutOfTicks
    | inl e => fail e
    end
  else mret None.
End exec.

(** [run_transaction], which the rest of the kernel calls. *)
Definition run_transaction_with {S} {core : SmartRollupCore S} {hex : HexCrate} {secp : Secp} {crate : RlpCrate} {eth : EthCrates} {fle : U256FromLe}
    {lc : LogCrates} {conf : EvmConfig} {gc : GasometerCrate} {dbg : DebugFormat} {pc : PrecompileCrates} {vm : Sputnik} (fuel : nat)
    (block : BlockConstants) (address : option bytes) (caller call_data : bytes) (gas_limit : option N) (effective_gas_price : N)
    (value : option N) (pay_for_gas : bool) (allocated_ticks : N) : M (Storage * S) EthereumError (option ExecutionOutcome) := fun '(st, s) =>
  let env := mkEnv caller block allocated_ticks effective_gas_price in
  let '(o, h) := run_in_handler env fuel address caller call_data gas_limit value pay_for_gas (handler_new st s) in
  (o, (evm_account_storage h, h_host h)).

(** The interface of [EvmApply]. *)
Definition SputnikExecution {S} {core : SmartRollupCore S} {hex : HexCrate} {secp : Secp} {crate : RlpCrate} {eth : EthCrates} {fle : U256FromLe}
    {lc : LogCrates} {conf : EvmConfig} {gc : GasometerCrate} {dbg : DebugFormat} {pc : PrecompileCrates} {vm : Sputnik} (fuel : nat) : EvmExecution (S := S) :=
  {| run_transaction := run_transaction_with fuel |}.
