(* ===== verification/EvmWorld.v ===== *)
(** The world state: accounts in a layer of the storage.

    A layer is a map from paths to values ([view], of [KernelTransactions]).  This file says what the functions of [EvmAccounts]
    read and write there: the balance of an account is a word under its path, and so on; and which steps the stack of
    layers can take while a transaction is executed ([world_step]). *)

From stdpp Require Import relations.
From S2P Require Import Prelude Endian KernelPath KernelHost KernelRuntime KernelStorage KernelTransactions EvmErrors Rlp EvmStorage EthTypes EthSign EvmTx EthBlock EvmStore EvmAccounts.

(** * Accounts of a map *)

(** A word as [read_u256] reads it. *)
Definition word_value (o : option bytes) : N :=
  match o with Some v => if length (take 32 v) =? 32 then of_le_bytes (take 32 v) else 0%N | None => 0%N end.
(** [store_write] of a word at a path: what was longer keeps its tail. *)
Definition set_word (r : list bytes) (n : N) (m : view) : view := set_view r (patch (default [] (m r)) 0 (le_bytes 32 n)) m.

Lemma take_patch v w : take (length w) (patch v 0 w) = w.
Proof. unfold patch. change (take 0 v ++ w ++ drop (0 + length w) v) with (w ++ drop (length w) v). apply take_app_length. Qed.
Lemma set_word_same r n m : (n < 2 ^ 256)%N -> word_value (set_word r n m r) = n.
Proof.
  intros Hn. unfold set_word, set_view. rewrite bool_decide_eq_true_2 by done. unfold word_value.
  pose proof (take_patch (default [] (m r)) (le_bytes 32 n)) as E. rewrite length_le_bytes in E. rewrite E, length_le_bytes. cbn [Nat.eqb].
  by apply of_le_bytes_le_bytes.
Qed.
Lemma set_word_other r n m q : q <> r -> set_word r n m q = m q.
Proof. intros H. unfold set_word, set_view. by rewrite bool_decide_eq_false_2. Qed.
Lemma word_value_bound o : (word_value o < 2 ^ 256)%N.
Proof.
  unfold word_value. destruct o as [v|]; [|done]. destruct (Nat.eqb_spec (length (take 32 v)) 32) as [E|]; [|done].
  pose proof (of_le_bytes_bound (take 32 v)) as H. by rewrite E in H.
Qed.

Section accounts.
Context {hex : HexCrate} {hlaws : HexLaws hex}.

Definition account_steps (a : bytes) : list bytes := [hex_encode a].
Definition balance_steps (a : bytes) : list bytes := [hex_encode a; str "balance"].
Definition nonce_steps (a : bytes) : list bytes := [hex_encode a; str "nonce"].
Definition balance_of (m : view) (a : bytes) : N := word_value (m (balance_steps a)).
Definition nonce_of (m : view) (a : bytes) : N := word_value (m (nonce_steps a)).

Definition debit (a : bytes) (v : N) (m : view) : view := set_word (balance_steps a) (balance_of m a - v) m.
Definition credit (a : bytes) (v : N) (m : view) : view := set_word (balance_steps a) (balance_of m a + v) m.

Lemma balance_steps_inj a b : balance_steps a = balance_steps b -> a = b.
Proof. intros [= E]. by apply hex_inj. Qed.
Lemma nonce_not_balance a b : nonce_steps a <> balance_steps b.
Proof. intros [= _ E]. Qed.

Lemma balance_of_set_word m a n b : (n < 2 ^ 256)%N ->
  balance_of (set_word (balance_steps a) n m) b = if bool_decide (b = a) then n else balance_of m b.
Proof.
  intros Hn. unfold balance_of. case_bool_decide as E; [subst; by apply set_word_same|].
  rewrite set_word_other; [done|]. by intros ?%balance_steps_inj.
Qed.
Lemma balance_of_debit m a v b : balance_of (debit a v m) b = if bool_decide (b = a) then (balance_of m a - v)%N else balance_of m b.
Proof. apply balance_of_set_word. pose proof (word_value_bound (m (balance_steps a))). unfold balance_of. lia. Qed.
Lemma balance_of_credit m a v b : (balance_of m a + v < 2 ^ 256)%N ->
  balance_of (credit a v m) b = if bool_decide (b = a) then (balance_of m a + v)%N else balance_of m b.
Proof. apply balance_of_set_word. Qed.

(** * Steps of the world *)

(** What a contract can do to the map: change values that are not balances, remove a subtree, and move value, which may
    be lost on the way. *)
Inductive access (m : view) : view -> Prop :=
  | access_write r v : (forall a, r <> balance_steps a) -> access m (set_view r v m)
  | access_cut r : access m (cut_view r m)
  | access_debit a v : (v <= balance_of m a)%N -> access m (debit a v m)
  | access_transfer a b v : (v <= balance_of m a)%N -> (balance_of (debit a v m) b + v < 2 ^ 256)%N -> access m (credit b v (debit a v m)).

(** Inside of a transaction, over the map of the storage. *)
Inductive world_step : list view -> list view -> Prop :=
  | world_access m m' b stack : access m m' -> world_step (m :: b :: stack) (m' :: b :: stack)
  | world_begin m b stack : world_step (m :: b :: stack) (m :: m :: b :: stack)
  | world_commit a b c stack : world_step (a :: b :: c :: stack) (a :: c :: stack)
  | world_rollback a b c stack : world_step (a :: b :: c :: stack) (b :: c :: stack).

(** The map of the storage is not changed by the steps of a transaction. *)
Lemma world_steps_bottom stack stack' : rtc world_step stack stack' -> last stack' = last stack.
Proof. induction 1 as [|? ? ? [] _ IH]; [done|..]; by rewrite IH. Qed.
Lemma world_steps_open m b stack stack' : rtc world_step (m :: b :: stack) stack' -> exists m' b' rest, stack' = m' :: b' :: rest.
Proof. intros H. remember (m :: b :: stack) as l eqn:E. revert m b stack E. induction H as [|? ? ? [] _ IH]; intros; simplify_eq; eauto. Qed.

(** ** The total of balances *)

(** No set of accounts holds more than [total]. *)
Definition supply_at_most (m : view) (total : N) : Prop := forall l, NoDup l -> (sum_list_with (fun a => N.to_nat (balance_of m a)) l <= N.to_nat total)%nat.

Lemma sum_change (f g : bytes -> nat) a l : NoDup l -> (forall b, b <> a -> g b = f b) ->
  sum_list_with g l + (if bool_decide (a ∈ l) then f a else 0) = sum_list_with f l + (if bool_decide (a ∈ l) then g a else 0).
Proof.
  intros Hl Hg. induction Hl as [|b l Hb _ IH]; [done|]. cbn [sum_list_with]. destruct (decide (b = a)) as [->|Hne].
  - rewrite bool_decide_eq_false_2 in IH by done. rewrite bool_decide_eq_true_2 by set_solver. lia.
  - rewrite (Hg b Hne). replace (bool_decide (a ∈ b :: l)) with (bool_decide (a ∈ l)); [lia|]. apply bool_decide_ext. set_solver.
Qed.

Lemma supply_le m m' total : supply_at_most m total -> (forall a, (balance_of m' a <= balance_of m a)%N) -> supply_at_most m' total.
Proof.
  intros H Hle l Hl. etransitivity; [|by apply H]. clear Hl. induction l as [|a l IH]; [done|]. cbn. pose proof (Hle a). lia.
Qed.
Lemma supply_mono m t t' : (t <= t')%N -> supply_at_most m t -> supply_at_most m t'.
Proof. intros Ht H l Hl. pose proof (H l Hl). lia. Qed.

Lemma supply_debit m a v total : supply_at_most m total -> (v <= balance_of m a)%N -> supply_at_most (debit a v m) (total - v).
Proof.
  intros H Hv l Hl. pose proof (sum_change (fun a => N.to_nat (balance_of m a)) (fun b => N.to_nat (balance_of (debit a v m) b)) a l Hl) as Hs.
  cbv beta in Hs. specialize (Hs ltac:(intros b Hb; by rewrite balance_of_debit, bool_decide_eq_false_2)).
  rewrite (balance_of_debit m a v a), (bool_decide_eq_true_2 (a = a)) in Hs by done. case_bool_decide as Hin.
  - pose proof (H l Hl). lia.
  - pose proof (H (a :: l) ltac:(by constructor)) as Ht. cbn in Ht. lia.
Qed.
Lemma supply_credit m a v total : supply_at_most m total -> (balance_of m a + v < 2 ^ 256)%N -> supply_at_most (credit a v m) (total + v).
Proof.
  intros H Hv l Hl. pose proof (sum_change (fun a => N.to_nat (balance_of m a)) (fun b => N.to_nat (balance_of (credit a v m) b)) a l Hl) as Hs.
  cbv beta in Hs. specialize (Hs ltac:(intros b Hb; by rewrite balance_of_credit, bool_decide_eq_false_2)).
  rewrite (balance_of_credit m a v a), (bool_decide_eq_true_2 (a = a)) in Hs by done. pose proof (H l Hl). case_bool_decide; lia.
Qed.

Lemma supply_access m m' total : access m m' -> supply_at_most m total -> supply_at_most m' total.
Proof.
  intros [r v Hr|r|a v Hv|a b v Hv Hb] H.
  - eapply supply_le; [done|]. intros a. unfold balance_of, set_view. rewrite bool_decide_eq_false_2; [done|]. intros E. by apply (Hr a).
  - eapply supply_le; [done|]. intros a. unfold balance_of, cut_view. destruct (strip _ _); [cbn; lia|done].
  - eapply supply_mono; [|by apply supply_debit]. lia.
  - assert (v <= total)%N.
    { pose proof (H [a] ltac:(repeat constructor; by apply not_elem_of_nil)) as Ha. cbn in Ha. lia. }
    replace total with (total - v + v)%N by lia. apply supply_credit; [by apply supply_debit|done].
Qed.
Lemma supply_steps stack stack' total : rtc world_step stack stack' -> Forall (fun m => supply_at_most m total) stack ->
  Forall (fun m => supply_at_most m total) stack'.
Proof.
  induction 1 as [|? ? ? Hstep _ IH]; [done|]. intros H. apply IH. destruct Hstep; rewrite ?Forall_cons in *; try tauto.
  intuition. by eapply supply_access.
Qed.
End accounts.

(** * Computations that only read *)

Definition only_reads {S E A} (m : M S E A) : Prop := forall s, (m s).2 = s.

Section reads.
Context {S E : Type}.

Lemma reads_lift {A} (o : outcome E A) : only_reads (S := S) (lift o).
Proof. done. Qed.
Lemma reads_ret {A} (a : A) : only_reads (S := S) (E := E) (mret a).
Proof. done. Qed.
Lemma only_reads_bind {A B} (m : M S E A) (k : A -> M S E B) : only_reads m -> (forall a, only_reads (k a)) -> only_reads (m ≫= k).
Proof. intros Hm Hk s. pose proof (Hm s) as H. unfold mbind, M_bind. destruct (m s) as [[a|e|p|] s']; cbn in *; subst; [apply Hk|done..]. Qed.
Lemma reads_map_err {F A} (f : E -> F) (m : M S E A) : only_reads m -> only_reads (M_map_err f m).
Proof. intros Hm s. pose proof (Hm s) as H. unfold M_map_err. by destruct (m s). Qed.
Lemma reads_ok {F A} (m : M S E A) : only_reads m -> only_reads (M_ok (F := F) m).
Proof. intros Hm s. pose proof (Hm s) as H. unfold M_ok. by destruct (m s) as [[]]. Qed.
End reads.
Create HintDb reads.
#[export] Hint Resolve reads_lift reads_ret only_reads_bind reads_map_err reads_ok : reads.

Section account_reads.
Context {S : Type} {core : SmartRollupCore S} {hex : HexCrate} {secp : Secp} {fle : U256FromLe}.

Lemma reads_store_has p : only_reads (store_has (S := S) p).
Proof. done. Qed.
Lemma reads_store_read p off max : only_reads (store_read (S := S) p off max).
Proof.
  intros s. unfold store_read, mbind, M_bind, check_path_has_value, KernelHost.store_read_slice. destruct (store_has p s) as [[[[]|]| | |] s']; try done;
    destruct (core_store_read _ _ _ _) as [c bs]; by destruct (host_result c).
Qed.
Lemma reads_check_path_exists p : only_reads (check_path_exists (S := S) p).
Proof. intros s. unfold check_path_exists. by destruct (store_has p s) as [[[]| | |] ?]. Qed.
Lemma reads_store_value_size p : only_reads (store_value_size (S := S) p).
Proof. apply only_reads_bind; [apply reads_check_path_exists|done]. Qed.
Lemma reads_read_chunks fuel p len : forall buffer, only_reads (read_chunks (S := S) fuel p len buffer).
Proof.
  induction fuel as [|fuel IH]; intros buffer; cbn [read_chunks]; destruct (_ <? _); try done. apply only_reads_bind; [|done].
  intros s. unfold read_chunk. by destruct (core_store_read _ _ _ _).
Qed.
Lemma reads_store_read_all p : only_reads (store_read_all (S := S) p).
Proof. apply only_reads_bind; [apply reads_store_value_size|]. intros len. apply reads_read_chunks. Qed.
Hint Resolve reads_store_has reads_store_read reads_store_value_size reads_store_read_all : reads.

Lemma reads_read_word {A} (f : bytes -> A) p d : only_reads (read_word (S := S) f p d).
Proof. intros s. pose proof (reads_store_read p 0 WORD_SIZE s) as H. unfold read_word. by destruct (store_read _ _ _ s) as [[|[]| |]]. Qed.
Lemma reads_not_found {A} (d : A) m : only_reads m -> only_reads (not_found_or (S := S) d m).
Proof. intros Hm s. pose proof (Hm s) as H. unfold not_found_or. by destruct (m s) as [[|[]| |]]. Qed.
Hint Resolve reads_read_word reads_not_found : reads.
Hint Unfold ac_path ac_runtime nonce balance EvmAccounts.storage_path path_from_h256 EvmAccounts.get_storage read_h256 read_u256 EvmAccounts.code code_hash
  code_size : reads.

Lemma reads_nonce p : only_reads (nonce (S := S) p).
Proof. autounfold with reads. eauto with reads. Qed.
Lemma reads_balance p : only_reads (balance (S := S) p).
Proof. autounfold with reads. eauto with reads. Qed.
Lemma reads_get_storage p i : only_reads (EvmAccounts.get_storage (S := S) p i).
Proof. autounfold with reads. eauto 10 with reads. Qed.
Lemma reads_code p : only_reads (EvmAccounts.code (S := S) p).
Proof. autounfold with reads. eauto with reads. Qed.
Lemma reads_code_hash p : only_reads (code_hash (S := S) p).
Proof. autounfold with reads. eauto with reads. Qed.
Lemma reads_code_size p : only_reads (code_size (S := S) p).
Proof. autounfold with reads. eauto with reads. Qed.
End account_reads.
#[export] Hint Resolve reads_store_has reads_store_read reads_nonce reads_balance reads_get_storage reads_code reads_code_hash reads_code_size : reads.

(** * Total correctness, errors included *)

Definition ends {S E A} (c : M S E A) (s : S) (Q : A -> S -> Prop) (QE : E -> S -> Prop) : Prop :=
  match c s with (Ok a, s') => Q a s' | (Err e, s') => QE e s' | _ => False end.

Section ends.
Context {S E : Type}.

Lemma ends_bind {A B} (c : M S E A) (k : A -> M S E B) s Q QE :
  ends c s (fun a s' => ends (k a) s' Q QE) QE -> ends (c ≫= k) s Q QE.
Proof. unfold ends, mbind, M_bind. by destruct (c s) as [[a|e|p|] s']. Qed.
Lemma ends_mono {A} (c : M S E A) s (Q Q' : A -> S -> Prop) (QE QE' : E -> S -> Prop) : ends c s Q QE ->
  (forall a s', Q a s' -> Q' a s') -> (forall e s', QE e s' -> QE' e s') -> ends c s Q' QE'.
Proof. unfold ends. destruct (c s) as [[a|e|p|] s']; auto. Qed.
Lemma ends_map_err {F A} (f : E -> F) (c : M S E A) s Q QE : ends c s Q (fun e => QE (f e)) -> ends (M_map_err f c) s Q QE.
Proof. unfold ends, M_map_err. by destruct (c s) as [[a|e|p|] s']. Qed.
Lemma ends_ok {A} (c : M S E A) s a s' Q QE : c s = (Ok a, s') -> Q a s' -> ends c s Q QE.
Proof. unfold ends. by intros ->. Qed.
End ends.

(** * Accounts in the top layer *)

Section top.
Context {S : Type} {core : SmartRollupCore S} {laws : CoreLaws S} {hex : HexCrate} {hlaws : HexLaws hex} {fle : U256FromLe}.
Context {crate : RlpCrate} {eth : EthCrates} {secp : Secp} {slaws : SecpLaws secp}.
Abbreviation pre := EVM_ACCOUNTS_PATH.
Implicit Types (s : S) (m : view).

Lemma accounts_path_ok : path_ok pre.
Proof. by apply validate_path_spec. Qed.
Lemma accounts_room : length pre + 11 <= PATH_MAX_SIZE.
Proof. apply (bool_decide_unpack _). by vm_compute. Qed.
Lemma nonce_path_ok : path_ok NONCE_PATH. Proof. by apply validate_path_spec. Qed.
Lemma balance_path_ok : path_ok BALANCE_PATH. Proof. by apply validate_path_spec. Qed.
Lemma code_path_ok : path_ok CODE_PATH. Proof. by apply validate_path_spec. Qed.
Lemma code_hash_path_ok : path_ok CODE_HASH_PATH. Proof. by apply validate_path_spec. Qed.
Lemma storage_root_path_ok : path_ok STORAGE_ROOT_PATH. Proof. by apply validate_path_spec. Qed.

Lemma try_from_inv p q : try_from p = Ok q -> q = p /\ path_ok p.
Proof. unfold try_from. rewrite outcome_bind_ok. intros ([]&H%validate_path_spec&[= <-]). done. Qed.
Lemma try_from_total p : (exists q, try_from p = Ok q) \/ exists e, try_from p = Err e.
Proof.
  assert (Hs : forall path prev, (exists q, validate_steps prev path = Ok q) \/ exists e, validate_steps prev path = Err e).
  { induction path as [|c path IH]; intros prev; cbn; [by left; eexists|]. repeat case_on_goal; eauto. }
  assert (Hi : (exists q, validate_path_internal p = Ok q) \/ exists e, validate_path_internal p = Err e).
  { unfold validate_path_internal. repeat case_on_goal; eauto. }
  unfold try_from, validate_path. destruct Hi as [[q ->]|[e ->]]; cbn; [destruct (_ || _); cbn|]; eauto.
Qed.
(** Paths of hexadecimal digits. *)
Lemma hex_path_steps a : path_ok (str "/" ++ hex_encode a) -> path_steps (str "/" ++ hex_encode a) = [hex_encode a].
Proof.
  intros H. assert (Ha : a <> []).
  { intros ->. assert (E : hex_encode [] = []) by (apply length_zero_iff_nil; by rewrite hex_length). rewrite E in H. by apply validate_path_spec in H. }
  assert (E : str "/" ++ hex_encode a = render [hex_encode a]) by (cbn; by rewrite app_nil_r). rewrite E. apply path_steps_render.
  constructor; [by apply hex_encode_step|done].
Qed.

Lemma concat_in i p r q x : in_layer pre i p r -> path_ok q -> concat p q = Ok x -> in_layer pre i x (r ++ path_steps q).
Proof.
  intros [Hp Hst] Hq Hc. assert (Hl : length p + length q <= PATH_MAX_SIZE).
  { unfold concat in Hc. rewrite length_app in Hc. by destruct (Nat.leb_spec (length p + length q) PATH_MAX_SIZE). }
  destruct (concat_ok p q Hp Hq Hl) as (E&Hok&Hs). rewrite E in Hc. injection Hc as <-. split; [done|]. by rewrite Hs, Hst, app_assoc.
Qed.

(** A path below an account, unless it is too long. *)
Definition too_long (p : bytes) : Prop := PATH_MAX_SIZE < length p + 20.
Lemma ends_concat i p r q s : in_layer pre i p r -> path_ok q ->
  ends (ac_path (concat p q)) s (fun x s' => s' = s /\ in_layer pre i x (r ++ path_steps q)) (fun _ s' => s' = s /\ (length q <= 20 -> too_long p)).
Proof.
  intros Hp Hq. unfold ends, ac_path, lift. destruct (concat p q) as [x|e|pn|] eqn:E; cbn.
  - split; [done|]. by eapply concat_in.
  - split; [done|]. unfold concat in E. rewrite length_app in E. destruct (Nat.leb_spec (length p + length q) PATH_MAX_SIZE); [done|]. unfold too_long. lia.
  - unfold concat in E. by destruct (_ <=? _).
  - unfold concat in E. by destruct (_ <=? _).
Qed.

Section layer.
Context (st : Storage) (stack : list view).
Abbreviation n := (1 + length stack).
(** The top layer holds [m]. *)
Abbreviation top s m := (sim pre st s (m :: stack)).

Lemma top_write s m p r v : top s m -> in_layer pre n p r -> length v <= 2048 ->
  ends (ac_runtime (store_write p v 0)) s (fun _ s' => top s' (set_view r (patch (default [] (m r)) 0 v) m)) (fun _ _ => False).
Proof.
  intros H Hp Hv. pose proof (sim_ok _ _ _ _ H) as Hs. destruct (store_write_spec s p v 0) as (s'&Hw&Hset); [done|apply Hp|lia|unfold size_ok, VALUE_SIZE_LIMIT; lia|].
  eapply ends_map_err, ends_ok; [done|]. assert (Hm : c_value s (path_steps p) = m r) by (rewrite (in_layer_steps _ _ _ _ Hp); apply (sim_top _ _ _ _ _ H)).
  rewrite Hm in Hset. apply (sim_sets pre accounts_path_ok accounts_room st s m stack p r _ s' H Hp Hset).
  rewrite length_patch by lia. destruct (m r) as [w|] eqn:E; cbn; [|unfold size_ok, VALUE_SIZE_LIMIT; lia].
  assert (Hw' : size_ok (length w)) by (eapply (sim_size _ _ _ _ H m); [set_solver|done]). unfold size_ok, VALUE_SIZE_LIMIT in *. lia.
Qed.
Lemma top_write_word s m p r v : top s m -> in_layer pre n p r ->
  ends (ac_runtime (store_write p (le_bytes WORD_SIZE v) 0)) s (fun _ s' => top s' (set_word r v m)) (fun _ _ => False).
Proof. intros H Hp. apply top_write; [done..|]. rewrite length_le_bytes. unfold WORD_SIZE. lia. Qed.
Lemma top_write_all s m p r v : top s m -> in_layer pre n p r -> size_ok (length v) ->
  ends (ac_runtime (store_write_all p v)) s (fun _ s' => top s' (set_view r v m)) (fun _ _ => False).
Proof.
  intros H Hp Hv. destruct (store_write_all_spec s p v) as (s'&Hw&Hset); [apply (sim_ok _ _ _ _ H)|apply Hp|done|].
  eapply ends_map_err, ends_ok; [done|]. by apply (sim_sets pre accounts_path_ok accounts_room st s m stack p r _ s' H Hp Hset).
Qed.
Lemma top_delete s m p r : top s m -> in_layer pre n p r ->
  ends (ac_runtime (store_delete p)) s (fun _ s' => top s' (cut_view r m)) (fun _ s' => top s' (cut_view r m)).
Proof.
  intros H Hp. destruct (store_delete_spec p s) as (s'&Hd&Hs'&Hv); [apply (sim_ok _ _ _ _ H)|apply Hp|].
  apply ends_map_err. unfold ends. rewrite Hd. pose proof (sim_cut pre accounts_path_ok accounts_room st s m stack p r s' H Hp Hs' Hv).
  by destruct (_ =? _)%Z.
Qed.
Lemma top_has s m p r : top s m -> in_layer pre n p r -> ends (ac_runtime (store_has p)) s (fun _ s' => s' = s) (fun _ _ => False).
Proof.
  intros H Hp. destruct (store_has_spec s p) as (sub&_&_&_&Hr); [apply (sim_ok _ _ _ _ H)|apply Hp|]. eapply ends_map_err, ends_ok; [apply Hr|done].
Qed.
Lemma top_read_u256 s m p r : top s m -> in_layer pre n p r -> read_u256 p 0 s = (Ok (word_value (m r)), s).
Proof.
  intros H Hp. pose proof (sim_ok _ _ _ _ H) as Hs. assert (Hm : c_value s (path_steps p) = m r) by (rewrite (in_layer_steps _ _ _ _ Hp); apply (sim_top _ _ _ _ _ H)).
  unfold read_u256, read_word. destruct (m r) as [v|]; cbn [word_value].
  - rewrite (store_read_ok s p v) by (done || apply Hp || lia).
    assert (E : slice 0 (MAX_FILE_CHUNK_SIZE `min` (WORD_SIZE `min` (length v - 0))) v = take 32 v).
    { unfold slice, WORD_SIZE. rewrite drop_0. replace (MAX_FILE_CHUNK_SIZE `min` (32 `min` (length v - 0))) with (32 `min` length v) by (unfold MAX_FILE_CHUNK_SIZE; lia).
      destruct (Nat.le_ge_cases 32 (length v)); [by rewrite Nat.min_l|]. by rewrite Nat.min_r, !take_ge by lia. }
    rewrite E. unfold WORD_SIZE. destruct (Nat.eqb_spec (length (take 32 v)) 32) as [Hl|]; [|done]. unfold u256_of_word. rewrite u256_from_le_spec by lia. done.
  - by rewrite store_read_none by (done || apply Hp).
Qed.

(** The account of an address, at the path [p]. *)
Context (a p : bytes).

Lemma top_word q s m {B} (k : N -> M S AccountStorageError B) Q QE : path_ok q -> top s m -> in_layer pre n p (account_steps a) ->
  (forall e, (length q <= 20 -> too_long p) -> QE e s) -> (forall x, in_layer pre n x (account_steps a ++ path_steps q) -> ends (k (word_value (m (account_steps a ++ path_steps q)))) s Q QE) ->
  ends ((path ← ac_path (concat p q); read_u256 path 0) ≫= k) s Q QE.
Proof.
  intros Hq H Hp He Hk. apply ends_bind, ends_bind. eapply ends_mono; [by apply ends_concat| |intros e _ [-> Hl]; by apply He].
  intros x _ [-> Hx]. eapply ends_ok; [by eapply top_read_u256|]. eauto.
Qed.

Lemma balance_remove_spec s m v : top s m -> in_layer pre n p (account_steps a) ->
  ends (balance_remove p v) s
    (fun b s' => exists m', top s' m' /\ if b then (v <= balance_of m a)%N /\ m' = debit a v m else (balance_of m a < v)%N /\ m' = m)
    (fun _ s' => top s' m /\ too_long p).
Proof.
  assert (Hlen : length BALANCE_PATH <= 20) by (apply (bool_decide_unpack _); by vm_compute).
  intros H Hp. apply ends_bind. eapply ends_mono; [by apply ends_concat, balance_path_ok| |intros e _ [-> Hl]; eauto].
  intros x _ [-> Hx]. apply (top_word BALANCE_PATH s m); [apply balance_path_ok|done..|eauto|]. intros _ _. change (word_value _) with (balance_of m a).
  unfold u256_checked_sub. destruct (N.leb_spec v (balance_of m a)) as [Hle|Hlt].
  - apply ends_bind. eapply ends_mono; [by eapply top_write_word|cbv beta|done]. intros [] s' Hs'. eapply ends_ok; [done|]. eauto.
  - eapply ends_ok; [done|]. eauto.
Qed.
Lemma balance_add_spec s m v : top s m -> in_layer pre n p (account_steps a) ->
  ends (balance_add p v) s (fun _ s' => (balance_of m a + v < 2 ^ 256)%N /\ top s' (credit a v m))
    (fun _ s' => top s' m /\ (too_long p \/ (2 ^ 256 <= balance_of m a + v)%N)).
Proof.
  assert (Hlen : length BALANCE_PATH <= 20) by (apply (bool_decide_unpack _); by vm_compute).
  intros H Hp. apply ends_bind. eapply ends_mono; [by apply ends_concat, balance_path_ok| |intros e _ [-> Hl]; eauto].
  intros x _ [-> Hx]. apply (top_word BALANCE_PATH s m); [apply balance_path_ok|done..|eauto|]. intros _ _. change (word_value _) with (balance_of m a).
  unfold u256_checked_add. destruct (N.ltb_spec (balance_of m a + v) (2 ^ 256)) as [Hlt|Hge]; [|split; [done|by right]].
  eapply ends_mono; [by eapply top_write_word|cbv beta|done]. done.
Qed.
Lemma increment_nonce_spec s m : top s m -> in_layer pre n p (account_steps a) ->
  ends (EvmAccounts.increment_nonce p) s (fun _ s' => (nonce_of m a + 1 < 2 ^ 256)%N /\ top s' (set_word (nonce_steps a) (nonce_of m a + 1) m))
    (fun _ s' => top s' m /\ (too_long p \/ (2 ^ 256 <= nonce_of m a + 1)%N)).
Proof.
  assert (Hlen : length NONCE_PATH <= 20) by (apply (bool_decide_unpack _); by vm_compute).
  intros H Hp. apply ends_bind. eapply ends_mono; [by apply ends_concat, nonce_path_ok| |intros e _ [-> Hl]; eauto].
  intros x _ [-> Hx]. apply (top_word NONCE_PATH s m); [apply nonce_path_ok|done..|eauto|]. intros _ _. change (word_value _) with (nonce_of m a).
  apply ends_bind. unfold ends at 1, lift, u256_checked_add. destruct (N.ltb_spec (nonce_of m a + 1) (2 ^ 256)) as [Hlt|Hge]; cbn [ok_or]; [|split; [done|by right]].
  eapply ends_mono; [by eapply top_write_word|cbv beta|done]. done.
Qed.
Lemma set_storage_spec s m index v : top s m -> in_layer pre n p (account_steps a) -> length v <= 2048 ->
  ends (EvmAccounts.set_storage p index v) s (fun _ s' => exists m', top s' m' /\ access m m') (fun _ s' => top s' m).
Proof.
  intros H Hp Hv. apply ends_bind, ends_bind. eapply ends_mono; [by apply ends_concat, storage_root_path_ok| |by intros e _ [-> _]].
  intros x _ [-> Hx]. apply ends_bind. unfold path_from_h256, ac_path, lift. unfold ends at 1. cbn beta.
  destruct (try_from_total (str "/" ++ hex_encode index)) as [[q E]|[e E]]; rewrite E; cbn [map_err]; [|done].
  apply try_from_inv in E as [-> Hq]. eapply ends_mono; [by apply ends_concat| |by intros e _ [-> _]].
  intros y _ [-> Hy]. eapply ends_mono; [by eapply top_write|cbv beta|done]. intros [] s' Hs'. eexists. split; [done|].
  rewrite hex_path_steps by done. apply access_write. intros b. by intros [=].
Qed.
Lemma set_code_spec s m code : top s m -> in_layer pre n p (account_steps a) -> size_ok (length code) ->
  ends (set_code p code) s (fun _ s' => exists m', top s' m' /\ rtc access m m') (fun _ s' => exists m', top s' m' /\ rtc access m m').
Proof.
  intros H Hp Hc. apply ends_bind. eapply ends_mono; [by apply ends_concat, code_hash_path_ok| |intros e _ [-> _]; by exists m].
  intros x _ [-> Hx]. apply ends_bind. eapply ends_mono; [eapply top_write; [done..|]|cbv beta|done].
  { unfold bytes_hash. pose proof (keccak_sized (secp := secp) code) as Hk. unfold sized in Hk. lia. }
  intros [] s1 H1. set (m1 := set_view _ _ m) in H1.
  assert (A1 : access m m1) by (apply access_write; intros b; by intros [=]).
  apply ends_bind. eapply ends_mono; [by apply ends_concat, code_path_ok| |intros e _ [-> _]; exists m1; split; [done|by apply rtc_once]].
  intros y _ [-> Hy]. apply ends_bind. eapply ends_mono; [by eapply top_has|cbv beta|done]. intros kind s2 ->.
  assert (Hw : forall m2 s3, top s3 m2 -> rtc access m m2 ->
    ends (ac_runtime (store_write_all y code)) s3 (fun _ s' => exists m', top s' m' /\ rtc access m m') (fun _ s' => exists m', top s' m' /\ rtc access m m')).
  { intros m2 s3 H3 A. eapply ends_mono; [by eapply top_write_all|cbv beta|done]. intros [] s4 H4. eexists. split; [done|].
    eapply rtc_r; [done|]. apply access_write. intros b. by intros [=]. }
  apply ends_bind. destruct kind as [k|].
  - eapply ends_mono; [by eapply top_delete|cbv beta|cbv beta].
    + intros [] s3 H3. eapply Hw; [done|]. eapply rtc_l; [done|]. apply rtc_once, access_cut.
    + intros e s3 H3. eexists. split; [done|]. eapply rtc_l; [done|]. apply rtc_once, access_cut.
  - eapply ends_ok; [done|]. eapply Hw; [done|]. by apply rtc_once.
Qed.
End layer.
End top.
