(* ===== verification/EvmExecProps.v ===== *)
(** What the execution of a transaction does to the world.

    Whatever contracts do, an execution is a sequence of steps of the world ([world_step]): changes of the top layer, and the begin, commit
    and rollback of nested transactions.  The theorems follow: a transaction that fails leaves no trace but its cost, and no
    transaction creates value.  They hold for any virtual machine and any fuel. *)

From stdpp Require Import relations.
From S2P Require Import Prelude Endian KernelPath KernelHost KernelRuntime KernelStorage KernelTransactions EvmErrors Rlp EvmStorage EthTypes EthSign EvmTx EthBlock EvmStore EvmAccounts EvmApply EvmTicks EvmBlockHashes EvmHandler EvmPrecompiles EvmExec EvmWorld.

(** * Laws of the crate evm *)

(** A gasometer has a limit, that it keeps and that bounds what it counts: it must not be given back, as a stipend, more than was taken from it, which
    the handler does not do, since a nested call gives back at most what it was paid and a transfer of value costs more than the stipend. *)
Class GasLaws (gc : GasometerCrate) := {
  g_limit : Gasometer -> N;
  limit_new l : g_limit (gasometer_new l) = l;
  limit_used g : (total_used_gas g <= g_limit g)%N;
  limit_cost c g : g_limit (gasometer_record_cost c g).2 = g_limit g;
  limit_deposit n g : g_limit (gasometer_record_deposit n g).2 = g_limit g;
  limit_dynamic_cost c mc g : g_limit (gasometer_record_dynamic_cost c mc g).2 = g_limit g;
  limit_stipend n g : g_limit (gasometer_record_stipend n g).2 = g_limit g
}.

(** The values of storage are words of 32 bytes, as their type says. *)
Definition typed {Stack X} (e : HandlerE Stack X) : Prop := match e with SetStorage _ _ value => length value = 32 | _ => True end.
Inductive typed_prog {Stack A} : Prog (HandlerE Stack) A -> Prop :=
  | typed_ret a : typed_prog (Ret a)
  | typed_ask {X} (e : HandlerE Stack X) k : typed e -> (forall x, typed_prog (k x)) -> typed_prog (Ask e k).
Class SputnikLaws {gc : GasometerCrate} {lc : LogCrates} (vm : Sputnik) := { step_typed m : typed_prog (step m) }.

Create HintDb tracks.

Section execution.
Context {S : Type} {core : SmartRollupCore S} {laws : CoreLaws S} {hex : HexCrate} {hlaws : HexLaws hex} {fle : U256FromLe}.
Context {crate : RlpCrate} {eth : EthCrates} {secp : Secp} {slaws : SecpLaws secp}.
Context {lc : LogCrates} {conf : EvmConfig} {gc : GasometerCrate} {glaws : GasLaws gc} {dbg : DebugFormat} {pc : PrecompileCrates}.
Context {vm : Sputnik} {vlaws : SputnikLaws vm}.
Context (Hlimit : small (stack_limit + 4)).
Abbreviation Handler := (EvmHandler.Handler (S := S)).
Abbreviation hM := (M Handler EthereumError).
Abbreviation pre := EVM_ACCOUNTS_PATH.
Implicit Types (h : Handler) (m : view).

(** The layers of the handler hold [stack]. *)
Definition hsim h (stack : list view) : Prop := sim pre (evm_account_storage h) (h_host h) stack.

Lemma hsim_depth h stack : hsim h stack -> depth h = length stack - 1.
Proof. intros H. unfold depth, stack_depth. rewrite (sim_layers _ _ _ _ H). by rewrite length_map, length_seq. Qed.

(** * Data of the layers *)

Definition same_limit (l l' : TransactionLayerData) : Prop := g_limit <$> gasometer l' = g_limit <$> gasometer l.
(** The layers below the last one are the same. *)
Definition data_kept (d d' : list TransactionLayerData) : Prop :=
  match d, d' with
  | [], [] => True
  | l :: d, l' :: d' => d' = d /\ same_limit l l'
  | _, _ => False
  end.
Lemma data_kept_refl d : data_kept d d.
Proof. by destruct d. Qed.
Lemma data_kept_trans d1 d2 d3 : data_kept d1 d2 -> data_kept d2 d3 -> data_kept d1 d3.
Proof. destruct d1, d2, d3; cbn; try done. unfold same_limit. intros [-> H1] [-> H2]. split; [done|]. congruence. Qed.

(** * Tracking *)

Section tracking.
(** A bound on the number of layers. *)
Context (P : nat).

(** A transaction is in progress. *)
Definition running h (stack : list view) : Prop := hsim h stack /\ 2 <= length stack <= P.

(** What is between two states of the handler. *)
Definition evolves h (stack : list view) h' : Prop :=
  exists stack', running h' stack' /\ rtc world_step stack stack' /\ length stack <= length stack' /\ data_kept (transaction_data h) (transaction_data h').
Definition tracks {E A} (c : M Handler E A) : Prop := forall h stack, running h stack ->
  match c h with (Ok _, h') | (Err _, h') => evolves h stack h' | _ => True end.

Lemma evolves_refl h stack : running h stack -> evolves h stack h.
Proof. intros H. exists stack. split_and!; [done..|apply data_kept_refl]. Qed.
Lemma evolves_trans h1 s1 h2 h3 : evolves h1 s1 h2 -> (forall s2, running h2 s2 -> evolves h2 s2 h3) -> evolves h1 s1 h3.
Proof.
  intros (s2&H2&Hst&Hl&Hd) H. destruct (H s2 H2) as (s3&H3&Hst3&Hl3&Hd3). exists s3. split_and!; [done..| |lia|].
  - by etransitivity.
  - by eapply data_kept_trans.
Qed.

Section rules.
Context {E : Type}.

Lemma tracks_lift {A} (o : outcome E A) : tracks (lift o).
Proof. intros h stack H. unfold lift. destruct o; try done; by apply evolves_refl. Qed.
Lemma tracks_ret {A} (a : A) : tracks (E := E) (mret a).
Proof. apply (tracks_lift (Ok a)). Qed.
Lemma tracks_fail {A} (e : E) : tracks (A := A) (fail e).
Proof. apply (tracks_lift (Err e)). Qed.
Lemma tracks_bind {A B} (c : M Handler E A) (k : A -> M Handler E B) : tracks c -> (forall a, tracks (k a)) -> tracks (c ≫= k).
Proof.
  intros Hc Hk h stack H. specialize (Hc h stack H). unfold mbind, M_bind. destruct (c h) as [[a|e|p|] h1]; try done.
  pose proof (Hk a h1) as Hk1. destruct (k a h1) as [[b|e|p|] h2]; try done; by eapply evolves_trans.
Qed.
Lemma tracks_result {F A} (c : M Handler E A) : tracks c -> tracks (E := F) (M_result c).
Proof. intros Hc h stack H. specialize (Hc h stack H). unfold M_result. by destruct (c h) as [[a|e|p|] h1]. Qed.
Lemma tracks_ok {F A} (c : M Handler E A) : tracks c -> tracks (E := F) (M_ok c).
Proof. intros Hc h stack H. specialize (Hc h stack H). unfold M_ok. by destruct (c h) as [[a|e|p|] h1]. Qed.
Lemma tracks_map_err {F A} (f : E -> F) (c : M Handler E A) : tracks c -> tracks (M_map_err f c).
Proof. intros Hc h stack H. specialize (Hc h stack H). unfold M_map_err. by destruct (c h) as [[a|e|p|] h1]. Qed.
Lemma tracks_reads {A} (c : M Handler E A) : only_reads c -> tracks c.
Proof.
  intros Hc h stack H. specialize (Hc h). destruct (c h) as [[a|e|p|] h1]; cbn in Hc; subst; try done; by apply evolves_refl.
Qed.
(** A change of the data of layers or of the ticks. *)
Lemma evolves_data h stack h' : running h stack -> evm_account_storage h' = evm_account_storage h -> h_host h' = h_host h ->
  data_kept (transaction_data h) (transaction_data h') -> evolves h stack h'.
Proof. intros [H Hl] E1 E2 Hd. exists stack. split_and!; [split; [|done]; unfold hsim; by rewrite E1, E2|done|done|done]. Qed.
Lemma tracks_update (f : Handler -> Handler) : (forall h, evm_account_storage (f h) = evm_account_storage h /\ h_host (f h) = h_host h /\
  data_kept (transaction_data h) (transaction_data (f h))) -> tracks (E := E) (update f).
Proof. intros Hf h stack H. destruct (Hf h) as (H1&H2&H3). by apply evolves_data. Qed.
End rules.
Lemma reads_hget {E} : only_reads (S := Handler) (E := E) hget.
Proof. done. Qed.
Lemma reads_on_accounts {E A} (c : M (Storage * S) E A) : only_reads c -> only_reads (on_accounts c).
Proof. intros Hc [st s d t]. specialize (Hc (st, s)). unfold on_accounts. cbn. destruct (c (st, s)) as [o [st' s']]. cbn in *. by simplify_eq. Qed.
Lemma reads_with_host {E A} (c : M S E A) : only_reads c -> only_reads (with_host c).
Proof. intros Hc [st s d t]. specialize (Hc s). unfold with_host. cbn. destruct (c s) as [o s']. cbn in *. by simplify_eq. Qed.
Lemma reads_layer (l : Storage -> option bytes) {A} (f : bytes -> M S KernelStorage.StorageError A) : (forall p, only_reads (f p)) ->
  only_reads (st ← KernelStorage.get_storage; on_layer (l st) f).
Proof.
  intros Hf [st s]. unfold mbind, M_bind, KernelStorage.get_storage, on_layer. destruct (l st) as [p|]; [|done]. unfold on_host.
  specialize (Hf p s). destruct (f p s). cbn in *. by subst.
Qed.
Lemma reads_layer_get id p : only_reads (layer_get (S := S) p id).
Proof. apply only_reads_bind; [apply reads_lift|]. intros x. by apply only_reads_bind. Qed.
Hint Resolve reads_hget reads_on_accounts reads_with_host tracks_lift tracks_ret tracks_fail tracks_bind tracks_result tracks_ok tracks_map_err : tracks.
Hint Resolve tracks_reads | 5 : tracks.

(** * Gas and layers *)

Lemma tracks_gasometer op : (forall g, g_limit (op g).2 = g_limit g) -> tracks (on_gasometer op).
Proof.
  intros Hop h stack H. unfold on_gasometer. destruct (transaction_data h) as [|l rest] eqn:E; [by apply evolves_refl|].
  destruct (gasometer l) as [g|] eqn:Eg; [|by apply evolves_refl]. specialize (Hop g). destruct (op g) as [o g']. cbn in Hop.
  assert (evolves h stack (set_data (mkLayer (Some g') (l_is_static l) (l_logs l) (deleted_contracts l) (l_withdrawals l) :: rest) h)).
  { apply evolves_data; [done..|]. rewrite E. cbn. split; [done|]. unfold same_limit. rewrite Eg. cbn. by rewrite Hop. }
  by destruct o.
Qed.
Lemma tracks_record_cost c : tracks (record_cost c).
Proof. apply tracks_gasometer, limit_cost. Qed.
Lemma tracks_record_deposit n : tracks (record_deposit n).
Proof. apply tracks_gasometer, limit_deposit. Qed.
Lemma tracks_record_dynamic_cost c mc : tracks (record_dynamic_cost c mc).
Proof. apply tracks_gasometer, limit_dynamic_cost. Qed.
Lemma tracks_top_layer msg f : (forall l, gasometer (f l) = gasometer l) -> tracks (on_top_layer msg f).
Proof.
  intros Hf h stack H. unfold on_top_layer. destruct (transaction_data h) as [|l rest] eqn:E; [by apply evolves_refl|].
  apply evolves_data; [done..|]. rewrite E. cbn. split; [done|]. unfold same_limit. by rewrite Hf.
Qed.
Lemma tracks_add_withdrawals l : tracks (add_withdrawals l).
Proof.
  intros h stack H. unfold add_withdrawals. destruct (transaction_data h) as [|d rest] eqn:E; [by apply evolves_refl|].
  apply evolves_data; [done..|]. by rewrite E.
Qed.
Lemma tracks_set_ticks (f : Handler -> N) : tracks (E := EthereumError) (update (fun h => set_ticks (f h) h)).
Proof. apply tracks_update. intros h. split_and!; [done..|apply data_kept_refl]. Qed.
Lemma tracks_account_for_ticks env opcode gas : tracks (account_for_ticks env opcode gas).
Proof.
  intros h stack H. unfold account_for_ticks. set (h' := set_ticks _ h). assert (evolves h stack h') by (apply evolves_data; [done..|apply data_kept_refl]).
  by destruct (_ <? _)%N.
Qed.
Hint Resolve tracks_record_cost tracks_record_deposit tracks_record_dynamic_cost tracks_add_withdrawals tracks_set_ticks tracks_account_for_ticks : tracks.

(** * Accounts *)

Lemma account_path_inv a id : account_path a = Ok id -> id = str "/" ++ hex_encode a /\ path_ok id.
Proof.
  unfold account_path. destruct (try_from_total (str "/" ++ hex_encode a)) as [[q E]|[e E]]; rewrite E; [|done]. intros [= <-].
  apply try_from_inv in E as [-> Hok]. done.
Qed.
Lemma account_path_total a : (exists id, account_path a = Ok id) \/ exists e, account_path a = Err e.
Proof. unfold account_path. destruct (try_from_total (str "/" ++ hex_encode a)) as [[q E]|[e E]]; rewrite E; cbn; eauto. Qed.

Lemma layer_account i a id x : small i -> account_path a = Ok id -> concat (layer_name pre i) id = Ok x -> in_layer pre i x (account_steps a).
Proof.
  intros Hi [-> Hid]%account_path_inv Hc. destruct (layer_name_ok pre accounts_path_ok accounts_room i Hi) as [Hok _].
  assert (Hl : in_layer pre i (layer_name pre i) []) by (split; [done|by rewrite app_nil_r]).
  pose proof (concat_in i _ [] _ x Hl Hid Hc) as H. by rewrite hex_path_steps in H.
Qed.
Lemma concat_total p q : (exists x, concat p q = Ok x) \/ exists e, concat p q = Err e.
Proof. unfold concat. destruct (_ <=? _); eauto. Qed.

(** The account of an address of 20 bytes has a path, short enough for what is below it. *)
Lemma address_path a : length a = 20 -> exists id, account_path a = Ok id.
Proof.
  intros Ha. unfold account_path, try_from. rewrite (proj2 (validate_path_spec _)); [by eexists|]. exists [hex_encode a]. split_and!.
  - cbn. by rewrite app_nil_r.
  - split; [done|]. constructor; [|done]. apply hex_encode_step. by intros ->.
  - intros [= E]. by apply hex_not_readonly in E.
  - rewrite length_app, hex_length, Ha. apply (bool_decide_unpack _). by vm_compute.
Qed.
Lemma address_concat i a id : small i -> length a = 20 -> account_path a = Ok id -> exists p, concat (layer_name pre i) id = Ok p /\ ~ too_long p.
Proof.
  intros Hi Ha [-> _]%account_path_inv. destruct (layer_name_ok pre accounts_path_ok accounts_room i Hi) as [_ Hl]. change (length pre) with 13 in Hl.
  exists (layer_name pre i ++ str "/" ++ hex_encode a). assert (E : length (layer_name pre i ++ str "/" ++ hex_encode a) <= 65).
  { rewrite !length_app, hex_length, Ha. change (length (str "/")) with 1. lia. }
  assert (85 <= PATH_MAX_SIZE) by (apply (bool_decide_unpack _); by vm_compute).
  unfold concat, too_long. rewrite (proj2 (Nat.leb_le _ _)) by lia. split; [done|lia].
Qed.

Lemma get_or_create_account_spec h m stack a : hsim h (m :: stack) ->
  (exists p, get_or_create_account a h = (Ok p, h) /\ in_layer pre (1 + length stack) p (account_steps a) /\ (length a = 20 -> ~ too_long p)) \/
  exists e, e <> OutOfTicks /\ get_or_create_account a h = (Err e, h) /\ length a <> 20.
Proof.
  intros H. pose proof (sim_small _ _ _ _ H) as Hsm. unfold get_or_create_account, mbind, M_bind, lift.
  destruct (account_path_total a) as [[id Ei]|[e Ei]]; rewrite Ei; cbn [map_err].
  2: { right. eexists. split_and!; [|reflexivity|intros Ha]; [done|]. destruct (address_path a Ha) as [id Ei']. congruence. }
  unfold storage_result, on_accounts, M_map_err, get_or_create, mbind, M_bind, KernelStorage.get_storage.
  rewrite (sim_last pre accounts_room _ _ _ _ H). unfold on_layer, on_host, layer_get_or_create, path_result, lift.
  destruct (concat_total (layer_name pre (length (m :: stack))) id) as [[x Ex]|[e Ex]]; rewrite Ex; cbn [map_err]; destruct h; [left|right]; eexists.
  - split_and!; [reflexivity|by eapply layer_account|]. intros Ha. destruct (address_concat _ a id Hsm Ha Ei) as (p&Ep&Hl). congruence.
  - split_and!; [|reflexivity|]; [done|]. intros Ha. destruct (address_concat _ a id Hsm Ha Ei) as (p&Ep&Hl). congruence.
Qed.
Lemma reads_get_account a : only_reads (get_account (S := S) a).
Proof.
  unfold get_account, get_account_with. destruct (account_path a); try done. apply only_reads_bind; [|intros; apply reads_ret].
  apply reads_on_accounts, reads_ok, reads_layer. intros p. apply reads_layer_get.
Qed.
Lemma reads_get_original_account a : only_reads (get_original_account (S := S) a).
Proof.
  unfold get_original_account, get_account_with. destruct (account_path a); try done. apply only_reads_bind; [|intros; apply reads_ret].
  apply reads_on_accounts, reads_ok, reads_layer. intros p. apply reads_layer_get.
Qed.
(** An account is found when it has values. *)
Lemma get_account_spec h m stack a : hsim h (m :: stack) ->
  exists o, get_account a h = (Ok o, h) /\ match o with
    | Some p => in_layer pre (1 + length stack) p (account_steps a) /\ (length a = 20 -> ~ too_long p)
    | None => length a = 20 -> forall r, r <> [] -> m (account_steps a ++ r) = None
    end.
Proof.
  intros H. pose proof (sim_small _ _ _ _ H) as Hsm. unfold get_account, get_account_with.
  destruct (account_path_total a) as [[id Ei]|[e Ei]]; rewrite Ei.
  2: { exists None. split; [done|]. intros Ha. destruct (address_path a Ha) as [id Ei']. congruence. }
  unfold on_accounts, M_ok, KernelStorage.get, mbind, M_bind, KernelStorage.get_storage. rewrite (sim_last pre accounts_room _ _ _ _ H).
  unfold on_layer, on_host, layer_get, mbind, M_bind, path_result, has_subtree, lift.
  destruct (concat_total (layer_name pre (length (m :: stack))) id) as [[x Ex]|[e Ex]]; rewrite Ex; cbn [map_err].
  2: { exists None. destruct h. split; [done|]. intros Ha. destruct (address_concat _ a id Hsm Ha Ei) as (p&Ep&Hl). congruence. }
  assert (Hx : in_layer pre (length (m :: stack)) x (account_steps a)) by (by eapply layer_account).
  destruct (store_has_spec (h_host h) x) as (sub&_&Hsub&_&Hr); [apply (sim_ok _ _ _ _ H)|apply Hx|]. rewrite Hr. destruct sub.
  - exists (Some x). split; [by destruct h, (bool_decide _)|]. split; [done|]. intros Ha. destruct (address_concat _ a id Hsm Ha Ei) as (p&Ep&Hl). congruence.
  - exists None. split; [by destruct h, (bool_decide _)|]. intros _ r Hne. destruct (m (account_steps a ++ r)) as [v|] eqn:Em; [|done]. exfalso.
    enough (false = true) by done. apply (Hsub r Hne). rewrite (in_layer_steps _ _ _ _ Hx), <- app_assoc, (sim_top _ _ _ _ _ H), Em. eauto.
Qed.

(** ** Updates *)

Definition set_host (s : S) h : Handler := mkHandler (evm_account_storage h) s (transaction_data h) (h_ticks_used h).

Lemma ends_on_account {A} (c : M S AccountStorageError A) h Q QE :
  ends c (h_host h) (fun a s => Q a (set_host s h)) (fun e s => QE (EthereumAccountError e) (set_host s h)) -> ends (on_account c) h Q QE.
Proof. unfold ends, on_account, with_host, M_map_err. by destruct (c (h_host h)) as [[a|e|p|] s']. Qed.
Lemma tracks_ends {E A} (c : M Handler E A) :
  (forall h m b stack, running h (m :: b :: stack) -> ends c h (fun _ h' => evolves h (m :: b :: stack) h') (fun _ h' => evolves h (m :: b :: stack) h')) -> tracks c.
Proof.
  intros Hc h stack [H Hl]. destruct stack as [|m [|b stack]]; [cbn in Hl; lia..|]. specialize (Hc h m b stack (conj H Hl)). unfold ends in Hc.
  by destruct (c h) as [[a|e|p|] h'].
Qed.
Lemma access_steps m m' b stack : rtc access m m' -> rtc world_step (m :: b :: stack) (m' :: b :: stack).
Proof. induction 1 as [|m1 m2 m3 Ha _ IH]; [done|]. eapply rtc_l; [by apply world_access|done]. Qed.
Lemma evolves_host h m b stack s' m' : running h (m :: b :: stack) -> sim pre (evm_account_storage h) s' (m' :: b :: stack) -> rtc access m m' ->
  evolves h (m :: b :: stack) (set_host s' h).
Proof. intros [H Hl] Hs Ha. exists (m' :: b :: stack). split_and!; [split; [exact Hs|exact Hl]|by apply access_steps|done|apply data_kept_refl]. Qed.

(** An operation on an account. *)
Lemma tracks_account {A} a (op : bytes -> M S AccountStorageError A) :
  (forall st stack s m p, sim pre st s (m :: stack) -> in_layer pre (1 + length stack) p (account_steps a) ->
     ends (op p) s (fun _ s' => exists m', sim pre st s' (m' :: stack) /\ rtc access m m') (fun _ s' => exists m', sim pre st s' (m' :: stack) /\ rtc access m m')) ->
  tracks (account ← get_or_create_account a; on_account (op account)).
Proof.
  intros Hop. apply tracks_ends. intros h m b stack H. apply ends_bind. unfold ends at 1.
  destruct (get_or_create_account_spec h m (b :: stack) a (proj1 H)) as [(p&E&Hp&_)|(e&_&E&_)]; rewrite E; [|by apply evolves_refl].
  apply ends_on_account. eapply ends_mono; [apply (Hop (evm_account_storage h) (b :: stack) (h_host h) m p); [apply H|done]|..]; cbv beta.
  - intros _ s' (m'&Hs&Ha). by eapply evolves_host.
  - intros _ s' (m'&Hs&Ha). by eapply evolves_host.
Qed.

Lemma tracks_increment_nonce a : tracks (increment_nonce a).
Proof.
  apply (tracks_account a EvmAccounts.increment_nonce). intros st stack s m p H Hp. eapply ends_mono; [by apply (increment_nonce_spec st stack a p s m)|..]; cbv beta.
  - intros _ s' [_ Hs]. eexists. split; [done|]. apply rtc_once, access_write, nonce_not_balance.
  - intros _ s' [Hs _]. by exists m.
Qed.
Lemma tracks_set_contract_code a code : length code <= MAX_CODE_SIZE -> tracks (set_contract_code a code).
Proof.
  intros Hc. apply (tracks_account a (fun p => set_code p code)). intros st stack s m p H Hp. apply (set_code_spec st stack a p s m code); [done..|].
  unfold size_ok, VALUE_SIZE_LIMIT. unfold MAX_CODE_SIZE in Hc. lia.
Qed.
Lemma tracks_set_storage a index v : length v = 32 -> tracks (h_set_storage a index v).
Proof.
  intros Hv. assert (Hop : tracks (account ← get_or_create_account a; on_account (EvmAccounts.set_storage account index v))).
  { apply (tracks_account a (fun p => EvmAccounts.set_storage p index v)). intros st stack s m p H Hp.
    eapply ends_mono; [apply (set_storage_spec st stack a p s m index v); [done..|lia]|..]; cbv beta.
    - intros _ s' (m'&Hs&Ha). exists m'. split; [done|by apply rtc_once].
    - intros _ s' Hs. by exists m. }
  intros h stack H. specialize (Hop h stack H). unfold h_set_storage, or_exit, M_result, mbind, M_bind in *. cbn in *.
  destruct (get_or_create_account a h) as [[p|e|pn|] h']; try done. cbn. by destruct (on_account _ h') as [[]].
Qed.

(** Deleting an account, in any layer. *)
Lemma delete_contract_spec h m stack a : hsim h (m :: stack) -> exists s' m' o, delete_contract a h = (o, set_host s' h) /\
  (is_ok o = true \/ exists e, o = Err e) /\ hsim (set_host s' h) (m' :: stack) /\ rtc access m m'.
Proof.
  intros H.
  unfold delete_contract, mbind, M_bind, lift. destruct (account_path_total a) as [[id Ei]|[e Ei]]; rewrite Ei; cbn [map_err].
  - unfold storage_result, on_accounts, M_map_err, KernelStorage.delete, mbind, M_bind, KernelStorage.get_storage. rewrite (sim_last pre accounts_room _ _ _ _ H).
    unfold on_layer, on_host, layer_delete, mbind, M_bind, path_result, lift.
    destruct (concat_total (layer_name pre (length (m :: stack))) id) as [[x Ex]|[e Ex]]; rewrite Ex; cbn [map_err].
    + assert (Hx : in_layer pre (1 + length stack) x (account_steps a)) by (eapply layer_account; [apply (sim_small _ _ _ _ H)|done..]).
      destruct (store_delete_spec x (h_host h)) as (s'&Hd&Hs'&Hv); [apply (sim_ok _ _ _ _ H)|apply Hx|].
      pose proof (sim_cut pre accounts_path_ok accounts_room _ _ m stack x _ s' H Hx Hs' Hv) as Hcut.
      unfold runtime, M_map_err. rewrite Hd. exists s', (cut_view (account_steps a) m). destruct (_ =? _)%Z; eexists; (split; [reflexivity|]);
        (split_and!; [by eauto|exact Hcut|apply rtc_once, access_cut]).
    + exists (h_host h), m. eexists. destruct h. split_and!; [reflexivity|by eauto|done|done].
  - exists (h_host h), m. eexists. destruct h. split_and!; [reflexivity|by eauto|done|done].
Qed.

(** ** Transfers *)

Definition with_map h stack (R : view -> Prop) h' : Prop := exists s' m', h' = set_host s' h /\ hsim h' (m' :: stack) /\ R m'.

Lemma with_map_same h stack m (R : view -> Prop) : hsim h (m :: stack) -> R m -> with_map h stack R h.
Proof. intros H HP. exists (h_host h), m. by destruct h. Qed.
Lemma ends_account {A} h m stack p (op : bytes -> M S AccountStorageError A) (Q : A -> view -> Prop) (QE : view -> Prop) : hsim h (m :: stack) ->
  ends (op p) (h_host h) (fun a s' => exists m', sim pre (evm_account_storage h) s' (m' :: stack) /\ Q a m')
    (fun _ s' => exists m', sim pre (evm_account_storage h) s' (m' :: stack) /\ QE m') ->
  ends (on_account (op p)) h (fun a => with_map h stack (Q a)) (fun e h' => e <> OutOfTicks /\ with_map h stack QE h').
Proof.
  intros H Hop. apply ends_on_account. eapply ends_mono; [done|..]; cbv beta.
  - intros a s' (m'&Hs&HQ). by exists s', m'.
  - intros e s' (m'&Hs&HQ). split; [done|]. by exists s', m'.
Qed.
(** Two changes, one after the other. *)
Lemma with_map_then h stack R s1 m1 h' : hsim (set_host s1 h) (m1 :: stack) -> with_map (set_host s1 h) stack R h' -> with_map h stack R h'.
Proof. intros _ (s'&m'&->&H&HP). by exists s', m'. Qed.

Definition moved (from to : bytes) (v : N) (m m' : view) : Prop :=
  (v <= balance_of m from)%N /\ (balance_of (debit from v m) to + v < 2 ^ 256)%N /\ m' = credit to v (debit from v m).
(** Why a transfer can fail. *)
Definition unfunded (from : bytes) (v : N) (m : view) : Prop := length from <> 20 \/ (balance_of m from < v)%N.
Definition misdirected (from to : bytes) (v : N) (m : view) : Prop := length from <> 20 \/ length to <> 20 \/ (2 ^ 256 <= balance_of (debit from v m) to + v)%N.
Lemma execute_transfer_spec h m stack from to v : hsim h (m :: stack) ->
  ends (execute_transfer from to v) h
    (fun r => with_map h stack (fun m' => match r with
      | TransferReturned => v = 0%N /\ m' = m \/ moved from to v m m'
      | TransferOutOfFund => m' = m /\ unfunded from v m end))
    (fun _ => with_map h stack (fun m' => (m' = m \/ (v <= balance_of m from)%N /\ m' = debit from v m) /\ misdirected from to v m)).
Proof.
  intros H. unfold execute_transfer. destruct (N.eqb_spec v 0) as [->|Hv]; [eapply ends_ok; [done|]; by eapply with_map_same; [|left]|].
  apply ends_bind. destruct (get_account_spec h m stack from H) as (o&E&Hfrom). eapply ends_ok; [done|]. destruct o as [pf|].
  2: { eapply ends_ok, with_map_same; [done..|]. split; [done|]. unfold unfunded. destruct (decide (length from = 20)) as [Hl|]; [|by left]. right.
       unfold balance_of. change (balance_steps from) with (account_steps from ++ [str "balance"]). rewrite (Hfrom Hl) by done. cbn. lia. }
  destruct Hfrom as [Hfrom Hshort]. apply ends_bind. unfold ends at 1.
  destruct (get_or_create_account_spec h m stack to H) as [(pt&E'&Hto&Hshort')|(e&_&E'&Hto)]; rewrite E'; [|eapply with_map_same; [done|]; split; [by left|right; by left]].
  apply ends_bind. eapply ends_mono; [apply (ends_account h m stack pf (fun p => balance_remove p v) (fun b m' =>
    if b then (v <= balance_of m from)%N /\ m' = debit from v m else (balance_of m from < v)%N /\ m' = m) (fun m' => m' = m /\ length from <> 20)); [done|]|..]; cbv beta.
  - eapply ends_mono; [by apply (balance_remove_spec (evm_account_storage h) stack from pf (h_host h) m v)|done|]. intros e s' [Hs Hl]. exists m. naive_solver.
  - intros removed h1 (s1&m1&->&H1&Hm1). destruct removed; destruct Hm1 as [Hle ->].
    + apply ends_bind. eapply ends_mono; [apply (ends_account (set_host s1 h) (debit from v m) stack pt (fun p => balance_add p v) (fun _ m' => moved from to v m m')
        (fun m' => m' = debit from v m /\ misdirected from to v m)); [done|]|..]; cbv beta.
      * eapply ends_mono; [by apply (balance_add_spec (evm_account_storage h) stack to pt s1 (debit from v m) v)|..]; cbv beta.
        -- intros [] s' [Hb Hs]. eexists. split; [exact Hs|]. done.
        -- intros _ s' [Hs Hl]. eexists. split; [exact Hs|]. split; [done|]. unfold misdirected. naive_solver.
      * intros [] h2 H2. eapply ends_ok; [done|]. eapply with_map_then; [exact H1|]. destruct H2 as (s2&m2&->&H2&Hm). exists s2, m2. eauto.
      * intros e h2 [_ H2]. eapply with_map_then; [exact H1|]. destruct H2 as (s2&m2&->&H2&->&Hm). exists s2, (debit from v m). eauto 6.
    + eapply ends_ok; [done|]. exists s1, m. split_and!; [done..|by right].
  - intros e h1 [_ (s1&m1&->&H1&->&Hl)]. exists s1, m. split_and!; [done..|by left|by left].
Qed.
Lemma moved_access from to v m m' : moved from to v m m' -> access m m'.
Proof. intros (Hv&Hb&->). by apply access_transfer. Qed.
Lemma tracks_execute_transfer from to v : tracks (execute_transfer from to v).
Proof.
  apply tracks_ends. intros h m b stack H. eapply ends_mono; [by apply (execute_transfer_spec h m (b :: stack)), H|..]; cbv beta.
  - intros r h' (s'&m'&->&Hs&Hm). eapply evolves_host; [done..|]. destruct r; [destruct Hm as [[_ ->]|Hm]|by destruct Hm as [-> _]]; [done|].
    by eapply rtc_once, moved_access.
  - intros e h' (s'&m'&->&Hs&[->|[Hv ->]]&_); eapply evolves_host; try done. by apply rtc_once, access_debit.
Qed.
End tracking.

(** * Transactions *)

Lemma begin_layer h m stack static gas_limit : hsim h (m :: stack) -> small (2 + length stack) ->
  exists h1, (_ ← push_layer static gas_limit; storage_result begin_transaction) h = (Ok tt, h1) /\ hsim h1 (m :: m :: stack) /\
    transaction_data h1 = layer_new (is_static h || static) gas_limit :: transaction_data h.
Proof.
  intros H Hsm. destruct (begin_spec pre accounts_path_ok accounts_room _ _ m stack H) as (st'&s'&E&H'); [by rewrite Nat.add_comm|].
  unfold push_layer, update, mbind, M_bind, storage_result, on_accounts, M_map_err. cbn. rewrite E. by eexists.
Qed.

(** The end of a nested transaction, whose layer is the head of the data; [sure] when a layer is removed for sure. *)
Definition closes (sure : bool) {E A} (c : M Handler E A) : Prop := forall h a b b' stack l d, hsim h (a :: b :: b' :: stack) -> transaction_data h = l :: d ->
  match c h with
  | (Ok _, h') | (Err _, h') => exists stack', hsim h' stack' /\ rtc world_step (a :: b :: b' :: stack) stack' /\
      2 + length stack <= length stack' <= (if sure then 2 else 3) + length stack /\ data_kept d (transaction_data h')
  | _ => True
  end.

Lemma record_stipend_data n h : match record_stipend n h with
  | (Ok _, h') | (Err _, h') => evm_account_storage h' = evm_account_storage h /\ h_host h' = h_host h /\ data_kept (transaction_data h) (transaction_data h')
  | _ => True
  end.
Proof.
  unfold record_stipend. destruct (transaction_data h) as [|l d] eqn:E; [by rewrite E|]. unfold M_map_err, on_gasometer. rewrite E.
  destruct (gasometer l) as [g|] eqn:Eg.
  - pose proof (limit_stipend n g) as Hg. destruct (gasometer_record_stipend n g) as [o g']. cbn in Hg.
    destruct o; try done; cbn; (split_and!; [done..|]); unfold same_limit; rewrite Eg; cbn; by rewrite Hg.
  - cbn. by rewrite E.
Qed.

Lemma closes_rollback refund : closes (negb refund) (rollback_inter_transaction refund).
Proof.
  intros h a b b' stack l d H Hd. unfold rollback_inter_transaction, mbind, M_bind, hget. rewrite (hsim_depth _ _ H). cbn [length Nat.sub Nat.ltb Nat.leb].
  unfold update. rewrite Hd. cbn [tail]. set (h1 := set_data d h).
  assert (Hk : match (if refund then record_stipend (gas_remaining h) else mret tt) h1 with
    | (Ok _, h') | (Err _, h') => evm_account_storage h' = evm_account_storage h /\ h_host h' = h_host h /\ data_kept d (transaction_data h') | _ => True end).
  { destruct refund; [apply (record_stipend_data _ h1)|]. cbn. split_and!; [done..|apply data_kept_refl]. }
  destruct ((if refund then record_stipend (gas_remaining h) else mret tt) h1) as [[[]|e|pn|] h2] eqn:Eh; [|..|done|done].
  - destruct Hk as (E1&E2&Hk). destruct (rollback_spec pre accounts_path_ok accounts_room _ _ a b (b' :: stack) H) as (st'&s'&Er&H').
    unfold storage_result, on_accounts, M_map_err. rewrite E1, E2, Er. exists (b :: b' :: stack). split_and!; [exact H'| |cbn; lia|destruct refund; cbn; lia|done].
    apply rtc_once, world_rollback.
  - destruct refund; [|done]. destruct Hk as (E1&E2&Hk). exists (a :: b :: b' :: stack). split_and!; [unfold hsim; by rewrite E1, E2|done|cbn; lia..|done].
Qed.
Lemma closes_commit : closes true commit_inter_transaction.
Proof.
  intros h a b b' stack l d H Hd. unfold commit_inter_transaction. unfold mbind at 1, M_bind at 1, hget. rewrite (hsim_depth _ _ H). cbn [length Nat.sub Nat.ltb Nat.leb].
  destruct (commit_spec pre accounts_path_ok accounts_room _ _ a b (b' :: stack) H) as (st'&s'&Ec&H').
  unfold mbind at 1, M_bind at 1. unfold storage_result, on_accounts, M_map_err at 1. rewrite Ec. cbn [map_err]. rewrite Hd.
  assert (Hstep : rtc world_step (a :: b :: b' :: stack) (a :: b' :: stack)) by apply rtc_once, world_commit.
  destruct d as [|top rest].
  - cbn. exists (a :: b' :: stack). split_and!; [exact H'|done|cbn; lia..|done].
  - unfold update, mbind, M_bind, set_data. set (h1 := mkHandler _ _ _ _).
    pose proof (record_stipend_data (gas_remaining h) h1) as Hr. destruct (record_stipend _ h1) as [[[]|e|pn|] h2]; [..|done|done];
      destruct Hr as (E1&E2&Hr); exists (a :: b' :: stack); (split_and!; [unfold hsim; rewrite E1, E2; exact H'|done|cbn; lia..|]);
      cbn in Hr; destruct (transaction_data h2); [done| |done|]; by destruct Hr as [-> Hr].
Qed.
Lemma closes_result sure (c : hM unit) (f : (EthereumError + unit) -> CreateOutcome) : closes sure c -> closes sure (E := EthereumError) (ended ← M_result c; mret (f ended)).
Proof. intros Hc h a b b' stack l d H Hd. specialize (Hc h a b b' stack l d H Hd). unfold mbind, M_bind, M_result. by destruct (c h) as [[]]. Qed.
Definition reverted (r : EthereumError + CreateOutcome) : bool := match r with inr (ExitReverted _, _, _) => true | _ => false end.
Lemma closes_end r : closes (negb (reverted r)) (end_inter_transaction r).
Proof. destruct r as [e|[[[x|x|x|x] o] v]]; apply closes_result; first [apply closes_commit|apply (closes_rollback false)|apply (closes_rollback true)]. Qed.

Hint Resolve reads_hget reads_on_accounts reads_with_host reads_get_account reads_get_original_account : reads.
Hint Resolve tracks_lift tracks_ret tracks_fail tracks_result tracks_ok tracks_map_err tracks_record_cost tracks_record_deposit tracks_record_dynamic_cost
  tracks_add_withdrawals tracks_set_ticks tracks_account_for_ticks tracks_increment_nonce tracks_execute_transfer : tracks.

(** * Requests *)

Section requests.
Context (env : HandlerEnv).

Lemma reads_account_value {A} (d : A) read a : (forall p, only_reads (read p)) -> only_reads (account_value (S := S) d read a).
Proof. intros Hr. apply only_reads_bind; [apply reads_get_account|]. intros [p|]; [|done]. apply only_reads_bind; [|done]. apply reads_with_host, reads_ok, Hr. Qed.
Hint Resolve reads_account_value : reads.
Lemma reads_exists a : only_reads (h_exists (S := S) a).
Proof.
  apply only_reads_bind; [apply reads_account_value, reads_code_size|]. intros size. destruct (_ <? _)%N; [done|].
  apply only_reads_bind; [apply (reads_account_value 0%N), reads_nonce|]. intros nonce. destruct (_ <? _)%N; [done|].
  apply only_reads_bind; [apply reads_account_value, reads_balance|done].
Qed.
Lemma reads_query {X} (q : QueryE X) : only_reads (query (S := S) env q).
Proof.
  assert (Hs : forall i, forall p, only_reads (EvmAccounts.get_storage (S := S) p i)) by (intros; apply reads_get_storage).
  destruct q; cbn [query]; try done.
  - apply reads_account_value, reads_balance.
  - apply reads_account_value, reads_code_size.
  - apply only_reads_bind; [apply reads_exists|]. intros []; [|done]. apply reads_account_value, reads_code_hash.
  - apply reads_account_value, reads_code.
  - by apply reads_account_value.
  - apply only_reads_bind; [apply reads_get_original_account|]. intros [p|]; [|done]. apply only_reads_bind; [|done]. by apply reads_with_host, reads_ok.
  - unfold h_block_hash. destruct (u256_checked_sub _ _); [|done]. destruct (_ && _); [|done]. apply only_reads_bind; [|done].
    apply reads_with_host, reads_ok. unfold get_block_hash, to_block_hash_path, bh_path, bh_runtime.
    apply only_reads_bind; [by apply only_reads_bind|]. intros path. apply only_reads_bind; [apply reads_map_err, reads_store_read|]. intros bs. by destruct (_ =? _).
  - apply reads_exists.
Qed.
Lemma reads_interp {A} (p : Prog QueryE A) : only_reads (interp (S := S) (@query _ _ _ _ _ _ env) p).
Proof. induction p as [a|X e k IH]; cbn [interp]; [done|]. apply only_reads_bind; [apply reads_query|done]. Qed.

Context (P : nat).

Lemma tracks_pre_validate context opcode stack : tracks P (pre_validate env context opcode stack).
Proof.
  unfold pre_validate. destruct (static_opcode_cost opcode); [eauto with tracks|]. apply tracks_bind; [by apply tracks_reads|]. intros h.
  apply tracks_bind; [apply tracks_reads, reads_interp|]. intros [e|[cost mc]]; eauto with tracks.
Qed.
Lemma tracks_mark_delete a t : tracks P (mark_delete a t).
Proof.
  apply tracks_bind; [apply tracks_reads, (reads_query (QBalance a))|]. intros balance.
  apply tracks_bind; [apply tracks_bind; eauto with tracks|]. intros [e|r]; [eauto with tracks|]. by apply tracks_top_layer.
Qed.

(** ** Precompiled contracts *)

Lemma tracks_charged cost ticks k : tracks P k -> tracks P (charged cost ticks k).
Proof. intros Hk. apply tracks_bind; [eauto with tracks|]. intros [e|[]]; eauto with tracks. Qed.
Lemma tracks_fail_if n : tracks P (fail_if_too_much env n).
Proof. apply tracks_bind; [by apply tracks_reads|]. intros h. destruct (_ <? _)%N; eauto with tracks. Qed.
Lemma tracks_draining input c : (forall i, tracks P (c i)) -> tracks P (call_precompile_with_gas_draining input c).
Proof.
  intros Hc. apply tracks_bind; [by apply tracks_result|]. intros [e|o]; [|eauto with tracks]. apply tracks_bind; [by apply tracks_reads|]. intros h.
  apply tracks_charged. eauto with tracks.
Qed.
Lemma tracks_mapM_lift {A B} (f : A -> outcome EthereumError B) l : tracks P (mapM (fun x => lift (f x)) l).
Proof. induction l as [|x l IH]; cbn [mapM]; [eauto with tracks|]. apply tracks_bind; [eauto with tracks|]. intros y. apply tracks_bind; eauto with tracks. Qed.
Hint Resolve tracks_charged tracks_fail_if tracks_draining : tracks.

(** Bindings whose first part is known. *)
Ltac track := repeat (cbv zeta; first
  [ progress eauto with tracks | apply tracks_bind; [solve [eauto with tracks]|intros ?] | apply tracks_charged
  | match goal with |- tracks _ (match ?x with _ => _ end) => destruct x end | match goal with |- tracks _ (if ?x then _ else _) => destruct x end ]).

Lemma tracks_precompile address input context static transfer c :
  precompiles_execute (precompile_set env) address input context static transfer = Some c -> tracks P c.
Proof.
  unfold precompiles_execute. cbn [find_precompile precompile_set].
  repeat match goal with |- context [bool_decide ?x] => destruct (bool_decide x); cbn [fmap option_fmap option_map] end; intros [= <-].
  - unfold ecrecover_precompile, erec_output_for_wrong_input, returned, panicked, diverge. track; destruct (erec_parse_inputs input) as [[[hash v] r] s]; track; done.
  - unfold sha256_precompile, returned. track.
  - unfold ripemd160_precompile, returned. track.
  - unfold identity_precompile, returned. track.
  - unfold modexp_precompile, returned. track.
  - apply tracks_draining. intros i. unfold ecadd_precompile_without_gas_draining, returned. track.
  - apply tracks_draining. intros i. unfold ecmul_precompile_without_gas_draining, returned. track.
  - apply tracks_draining. intros i. unfold ecpairing_precompile_without_gas_draining, returned. track. apply tracks_bind; [|eauto with tracks].
    destruct (_ =? _); [eauto with tracks|]. apply tracks_bind; [apply tracks_mapM_lift|eauto with tracks].
  - unfold withdrawal_precompile. track.
Qed.
End requests.

(** * Contracts *)

Section contracts.
Context (env : HandlerEnv).

Section bounded.
Context (P : nat) (exec : Machine -> hM (Machine * ExitReason)) (Hexec : forall r, tracks P (exec r)).

Lemma tracks_end_create r a : tracks P (end_create r a).
Proof.
  destruct r as [e|[runtime [[| |]|r|e|e]]]; cbn [end_create]; eauto with tracks.
  - destruct (bool_decide _); [eauto with tracks|]. destruct (Nat.ltb_spec MAX_CODE_SIZE (length (return_value runtime))); [eauto with tracks|].
    apply tracks_bind; [eauto with tracks|]. intros [e|[]]; [eauto with tracks|].
    apply tracks_bind; [by apply tracks_set_contract_code|]. intros []. apply tracks_bind; eauto with tracks.
  - destruct (bool_decide _); [eauto with tracks|]. destruct (Nat.ltb_spec MAX_CODE_SIZE (length (return_value runtime))); [eauto with tracks|].
    apply tracks_bind; [eauto with tracks|]. intros [e|[]]; [eauto with tracks|].
    apply tracks_bind; [by apply tracks_set_contract_code|]. intros []. apply tracks_bind; eauto with tracks.
Qed.
Lemma reads_create_address scheme : only_reads (create_address (S := S) scheme).
Proof. destruct scheme; try done. apply only_reads_bind; [apply (reads_account_value 0%N), reads_nonce|done]. Qed.
Lemma reads_is_colliding a : only_reads (is_colliding (S := S) a).
Proof.
  apply only_reads_bind; [apply reads_get_account|]. intros [p|]; [|done]. apply only_reads_bind; [apply reads_with_host, reads_map_err, reads_code_size|]. intros size.
  apply only_reads_bind; [apply reads_with_host, reads_map_err, reads_nonce|done].
Qed.
Lemma tracks_execute_create caller scheme value code opcode : tracks P (execute_create exec caller scheme value code opcode).
Proof.
  apply tracks_bind; [apply tracks_reads, reads_create_address|]. intros address. apply tracks_bind; [by apply tracks_reads|]. intros h.
  destruct (_ && _); [apply tracks_bind; eauto with tracks|]. destruct (_ <=? _); [eauto with tracks|].
  apply tracks_bind; [apply tracks_reads, reads_is_colliding|]. intros []; [eauto with tracks|].
  apply tracks_bind; [eauto with tracks|]. intros []; [|eauto with tracks].
  apply tracks_bind; [destruct opcode; eauto with tracks|]. intros []. apply tracks_bind; [eauto with tracks|]. intros r. apply tracks_end_create.
Qed.
Lemma tracks_execute_call address transfer input context : tracks P (execute_call env exec address transfer input context).
Proof.
  apply tracks_bind; [by apply tracks_reads|]. intros h. destruct (_ <? _); [eauto with tracks|].
  apply tracks_bind; [destruct transfer; eauto with tracks|]. intros []; [|eauto with tracks].
  apply tracks_bind; [by apply tracks_reads|]. intros h'. destruct (precompiles_execute _ _ _ _ _ _) as [c|] eqn:E.
  - apply tracks_bind; [by eapply tracks_precompile|]. intros o. apply tracks_bind; [eauto with tracks|]. intros []. apply tracks_bind; eauto with tracks.
  - destruct (negb _); [|eauto with tracks]. apply tracks_bind; [apply tracks_reads, (reads_query env (QCode address))|]. intros code.
    apply tracks_bind; [done|]. intros [runtime r]. eauto with tracks.
Qed.
End bounded.

(** Too deep, contracts are not run. *)
Lemma execute_call_deep exec address transfer input context h : stack_limit < depth h ->
  execute_call (S := S) env exec address transfer input context h = (Ok (ExitFatally (CallErrorAsFatal CallTooDeep), None, []), h).
Proof. intros H. unfold execute_call, mbind, M_bind, hget. by rewrite (proj2 (Nat.ltb_lt _ _)). Qed.
Lemma execute_create_deep exec caller scheme value code opcode h : stack_limit <= depth h ->
  execute_create exec caller scheme value code opcode h = execute_create (S := S) (fun _ => diverge) caller scheme value code opcode h /\
  forall r v h', execute_create exec caller scheme value code opcode h <> (Ok (ExitReverted r, v.1, v.2), h').
Proof.
  intros H. pose proof (reads_create_address scheme h) as Hr. unfold execute_create, mbind, M_bind, hget.
  destruct (create_address scheme h) as [[a|e|pn|] h']; cbn in Hr; subst; try done. rewrite (proj2 (Nat.leb_le _ _) H).
  destruct (_ && _); [|done]. destruct (increment_nonce caller h) as [[]]; done.
Qed.

Context (exec : Machine -> hM (Machine * ExitReason)) (Hexec : forall r, tracks (stack_limit + 2) (exec r)).
Abbreviation tracks' := (tracks (stack_limit + 2)).

(** A nested transaction around [c]. *)
Lemma nested_tracks h stack static gas_limit c :
  running (stack_limit + 2) h stack -> tracks' c ->
  (forall h1, stack_limit < depth h1 -> exists c', tracks (stack_limit + 3) c' /\ c h1 = c' h1 /\ forall r v h', c h1 <> (Ok (ExitReverted r, v.1, v.2), h')) ->
  match (_ ← (_ ← push_layer static gas_limit; storage_result begin_transaction); result ← M_result c; end_inter_transaction result) h with
  | (Ok _, h') => evolves (stack_limit + 2) h stack h'
  | (Err _, _) => False
  | _ => True
  end.
Proof.
  intros [H Hl] Hc Hdeep. destruct stack as [|m [|b stack]]; [cbn in Hl; lia..|].
  destruct (begin_layer h m (b :: stack) static gas_limit H) as (h1&E1&H1&Hd1); [unfold small in *; cbn in *; lia|].
  unfold mbind at 1, M_bind at 1. rewrite E1. unfold mbind, M_bind, M_result.
  (* where [c] ends *)
  assert (Hrun : match c h1 with
    | (Ok _, h2) | (Err _, h2) => exists stack2, hsim h2 stack2 /\ rtc world_step (m :: m :: b :: stack) stack2 /\ 3 + length stack <= length stack2 /\
        data_kept (transaction_data h1) (transaction_data h2) /\
        (length stack2 <= stack_limit + 2 \/ length stack2 <= stack_limit + 3 /\ forall r v h', c h1 <> (Ok (ExitReverted r, v.1, v.2), h'))
    | _ => True end).
  { destruct (Nat.le_gt_cases (depth h1) stack_limit) as [Hd|Hd].
    - rewrite (hsim_depth _ _ H1) in Hd. cbn [length] in Hd.
      assert (R1 : running (stack_limit + 2) h1 (m :: m :: b :: stack)) by (split; [done|cbn in *; lia]). specialize (Hc h1 _ R1).
      destruct (c h1) as [[r|e|pn|] h2]; try done; destruct Hc as (s2&[Hs2 Hl2]&Hst&Hle&Hk); exists s2; cbn in *; (split_and!; [done..|lia|done|left; lia]).
    - destruct (Hdeep h1 Hd) as (c'&Hc'&E&Hrev).
      assert (R1 : running (stack_limit + 3) h1 (m :: m :: b :: stack)) by (split; [done|cbn in *; lia]). specialize (Hc' h1 _ R1). rewrite <- E in Hc'.
      destruct (c h1) as [[r|e|pn|] h2]; try done; destruct Hc' as (s2&[Hs2 Hl2]&Hst&Hle&Hk); exists s2; cbn in *; (split_and!; [done..|lia|done|right; split; [lia|done]]). }
  (* then the transaction is closed *)
  assert (Hend : forall r h2 stack2, hsim h2 stack2 -> rtc world_step (m :: m :: b :: stack) stack2 -> 3 + length stack <= length stack2 ->
    data_kept (transaction_data h1) (transaction_data h2) -> (length stack2 <= stack_limit + 2 \/ length stack2 <= stack_limit + 3 /\ reverted r = false) ->
    match end_inter_transaction r h2 with (Ok _, h') => evolves (stack_limit + 2) h (m :: b :: stack) h' | (Err _, _) => False | _ => True end).
  { intros r h2 s2 Hs2 Hst Hle Hk Hbound. destruct s2 as [|x [|y [|z s2]]]; [cbn in Hle; lia..|].
    rewrite Hd1 in Hk. destruct (transaction_data h2) as [|l2 d2] eqn:Ed2; [done|]. destruct Hk as [-> _].
    pose proof (closes_end r h2 x y z s2 l2 _ Hs2 Ed2) as Hcl.
    assert (Hne : forall e h', end_inter_transaction r h2 <> (Err e, h')).
    { intros e h'. unfold end_inter_transaction, mbind, M_bind, M_result. by destruct (_ h2) as [[]]. }
    destruct (end_inter_transaction r h2) as [[o|e|pn|] h3]; [|by destruct (Hne e h3)|done|done].
    destruct Hcl as (s3&Hs3&Hst3&Hl3&Hk3). exists s3. cbn in *. split_and!; [split; [done|]|..]; [|etransitivity; [apply rtc_once, world_begin|by etransitivity]|lia|done].
    destruct (reverted r); cbn in Hl3; destruct Hbound as [|[? ?]]; try done; lia. }
  destruct (c h1) as [[[[r o] v]|e|pn|] h2]; [| |done|done]; destruct Hrun as (s2&Hs2&Hst&Hle&Hk&Hb); apply (Hend _ h2 s2); try done.
  - destruct Hb as [|[Hb Hrev]]; [by left|]. right. split; [done|]. cbn. destruct r as [r|r|r|r]; try done. exfalso. by apply (Hrev r (o, v) h2).
  - destruct Hb as [|[Hb _]]; [by left|]. by right.
Qed.

Lemma nested_inter h stack static gas_limit c (k : EthereumError -> hM CreateOutcome) : running (stack_limit + 2) h stack -> tracks' c ->
  (forall h1, stack_limit < depth h1 -> exists c', tracks (stack_limit + 3) c' /\ c h1 = c' h1 /\ forall r v h', c h1 <> (Ok (ExitReverted r, v.1, v.2), h')) ->
  match (begun ← M_result (begin_inter_transaction static gas_limit);
         match begun with inl e => k e | inr _ => result ← M_result c; end_inter_transaction result end) h with
  | (Ok _, h') => evolves (stack_limit + 2) h stack h'
  | (Err _, _) => False
  | _ => True
  end.
Proof.
  intros Hr Hc Hdeep. pose proof (nested_tracks h stack static gas_limit c Hr Hc Hdeep) as H. destruct Hr as [Hs Hl].
  destruct stack as [|m stack]; [cbn in Hl; lia|]. unfold mbind at 1, M_bind at 1, M_result at 1, begin_inter_transaction. unfold mbind at 1, M_bind at 1, hget.
  rewrite (hsim_depth _ _ Hs). destruct (Nat.eqb_spec (length (m :: stack) - 1) 0) as [E|_]; [cbn in *; lia|].
  unfold mbind at 1, M_bind at 1 in H. destruct ((_ ← push_layer static gas_limit; storage_result begin_transaction) h) as [[[]|e|pn|] h1]; try done.
Qed.

Lemma evolves_weaken {A} (c : hM A) h stack :
  match c h with (Ok _, h') => evolves (stack_limit + 2) h stack h' | (Err _, _) => False | _ => True end ->
  match c h with (Ok _, h') | (Err _, h') => evolves (stack_limit + 2) h stack h' | _ => True end.
Proof. by destruct (c h) as [[]]. Qed.
Lemma tracks_create caller scheme value code target_gas : tracks' (create exec caller scheme value code target_gas).
Proof.
  intros h stack H. unfold create. unfold mbind at 1, M_bind at 1, hget.
  apply evolves_weaken, (nested_inter h stack false _ (execute_create exec caller scheme value code true)
    (fun _ => mret (out_of_gas_before (str "create"), None, [])) H); [by apply tracks_execute_create|].
  intros h1 Hd. exists (execute_create (fun _ => diverge) caller scheme value code true). split; [apply tracks_execute_create; intros r ? ? ?; done|].
  apply execute_create_deep. lia.
Qed.
Lemma tracks_call code_address transfer input target_gas static context : tracks' (call env exec code_address transfer input target_gas static context).
Proof.
  apply tracks_bind; [by apply tracks_reads|]. intros h0. cbv zeta. set (gas_limit := nested_call_gas_limit target_gas h0). clearbody gas_limit.
  apply tracks_bind; [eauto with tracks|]. intros [e|[]]; [eauto with tracks|]. match goal with |- tracks _ (_ ← M_result (begin_inter_transaction _ ?g); _) => generalize g end. intros gl.
  intros h stack H.
  pose proof (nested_inter h stack static gl (execute_call env exec code_address transfer input context)
    (fun err => mret (ethereum_error_to_exit_reason err, None, [])) H) as Hn.
  specialize (Hn ltac:(by apply tracks_execute_call)). assert (Hdeep : forall h1, stack_limit < depth h1 -> exists c' : hM CreateOutcome, tracks (stack_limit + 3) c' /\
    execute_call env exec code_address transfer input context h1 = c' h1 /\
    forall r v h', execute_call env exec code_address transfer input context h1 <> (Ok (ExitReverted r, v.1, v.2), h')).
  { intros h1 Hd. exists (mret (ExitFatally (CallErrorAsFatal CallTooDeep), None, [])).
    rewrite execute_call_deep by done. split_and!; [eauto with tracks|done|done]. }
  specialize (Hn Hdeep). clear Hdeep. unfold mbind, M_bind in *. destruct (M_result (begin_inter_transaction static gl) h) as [[[e|[]]|e|pn|] h1]; try done.
  destruct (M_result (execute_call _ _ _ _ _ _) h1) as [[r|e|pn|] h2]; try done. by destruct (end_inter_transaction r h2) as [[[[reason o] v]|e|pn|] h3].
Qed.

Lemma tracks_handle {X} (e : HandlerE Stack X) : typed e -> tracks' (handle env exec e).
Proof.
  destruct e; cbn [handle typed]; intros Ht.
  - apply tracks_reads, reads_query.
  - by apply tracks_set_storage.
  - by apply tracks_top_layer.
  - apply (tracks_mark_delete env).
  - apply tracks_create.
  - apply tracks_call.
  - apply tracks_pre_validate.
Qed.
Lemma tracks_interp {A} (p : Prog (HandlerE Stack) A) : typed_prog p -> tracks' (interp (fun X => handle (X := X) env exec) p).
Proof. induction 1 as [a|X e k He _ IH]; cbn [interp]; [eauto with tracks|]. apply tracks_bind; [by apply tracks_handle|done]. Qed.
Lemma tracks_execute_body runtime : tracks' (execute_body env exec runtime).
Proof.
  apply tracks_bind.
  - apply tracks_bind; [by apply tracks_reads|]. intros before. apply tracks_bind; [apply tracks_interp, step_typed|]. intros [rt r].
    apply tracks_bind; [by apply tracks_reads|]. intros after. apply tracks_bind; [destruct (inspect runtime); eauto with tracks|]. eauto with tracks.
  - intros [rt []]; [done|eauto with tracks..].
Qed.
End contracts.

Lemma tracks_execute env fuel runtime : tracks (stack_limit + 2) (execute env fuel runtime).
Proof. revert runtime. induction fuel as [|fuel IH]; intros runtime; cbn [execute]; [by intros ? ? ?|]. by apply tracks_execute_body. Qed.

(** * Transactions *)

(** ** Operations on one account, in any layer *)

(** An error is due to the address, or to [bad]. *)
Definition unchanged (bad : Prop) (a : bytes) h m stack : EthereumError -> Handler -> Prop :=
  fun e h' => e <> OutOfTicks /\ with_map h stack (fun m' => m' = m) h' /\ (length a <> 20 \/ bad).
Lemma ends_get_account {A} h m stack a (op : bytes -> M S AccountStorageError A) (Q : A -> view -> Prop) (bad : Prop) : hsim h (m :: stack) ->
  (forall p, in_layer pre (1 + length stack) p (account_steps a) -> ends (op p) (h_host h)
    (fun x s' => exists m', sim pre (evm_account_storage h) s' (m' :: stack) /\ Q x m')
    (fun _ s' => sim pre (evm_account_storage h) s' (m :: stack) /\ (too_long p \/ bad))) ->
  ends (account ← get_or_create_account a; on_account (op account)) h (fun x => with_map h stack (Q x)) (unchanged bad a h m stack).
Proof.
  intros H Hop. apply ends_bind. unfold ends at 1. destruct (get_or_create_account_spec h m stack a H) as [(p&E&Hp&Hl)|(e&Hne&E&Ha)]; rewrite E.
  - eapply ends_on_account, ends_mono; [by apply Hop|cbv beta|cbv beta].
    + intros x s' (m'&Hs&HQ). by exists s', m'.
    + intros e s' [Hs Hbad]. split_and!; [done|by exists s', m|]. destruct (decide (length a = 20)) as [Ha|]; [|by left]. right. destruct Hbad; [|done]. by destruct (Hl Ha).
  - split_and!; [done|by eapply with_map_same|by left].
Qed.
Lemma pay_spec h m stack a amount : hsim h (m :: stack) ->
  ends (account ← get_or_create_account a; on_account (balance_remove account amount)) h
    (fun b => with_map h stack (fun m' => if b then (amount <= balance_of m a)%N /\ m' = debit a amount m else (balance_of m a < amount)%N /\ m' = m)) (unchanged False a h m stack).
Proof.
  intros H. apply (ends_get_account h m stack a (fun p => balance_remove p amount)); [done|]. intros p Hp.
  eapply ends_mono; [by apply (balance_remove_spec (evm_account_storage h) stack a p (h_host h) m amount)|done|]. cbv beta. naive_solver.
Qed.
Lemma receive_spec h m stack a amount : hsim h (m :: stack) ->
  ends (account ← get_or_create_account a; on_account (balance_add account amount)) h
    (fun _ => with_map h stack (fun m' => (balance_of m a + amount < 2 ^ 256)%N /\ m' = credit a amount m))
    (unchanged (2 ^ 256 <= balance_of m a + amount)%N a h m stack).
Proof.
  intros H. apply (ends_get_account h m stack a (fun p => balance_add p amount)); [done|]. intros p Hp.
  eapply ends_mono; [by apply (balance_add_spec (evm_account_storage h) stack a p (h_host h) m amount)| |done]. cbv beta. intros [] s' [Hb Hs]. eexists. by split.
Qed.
Lemma nonce_spec h m stack a : hsim h (m :: stack) ->
  ends (increment_nonce a) h
    (fun _ => with_map h stack (fun m' => (nonce_of m a + 1 < 2 ^ 256)%N /\ m' = set_word (nonce_steps a) (nonce_of m a + 1) m))
    (unchanged (2 ^ 256 <= nonce_of m a + 1)%N a h m stack).
Proof.
  intros H. apply (ends_get_account h m stack a EvmAccounts.increment_nonce); [done|]. intros p Hp.
  eapply ends_mono; [by apply (increment_nonce_spec (evm_account_storage h) stack a p (h_host h) m)| |done]. cbv beta. intros [] s' [Hb Hs]. eexists. by split.
Qed.

(** ** The initial transaction *)

Lemma delete_contracts_spec l : forall h m stack, hsim h (m :: stack) ->
  exists h', delete_contracts l h = (Ok tt, h') /\ with_map h stack (fun m' => rtc access m m') h'.
Proof.
  induction l as [|a l IH]; intros h m stack H; cbn [delete_contracts]; [exists h; split; [done|]; by eapply with_map_same|].
  destruct (delete_contract_spec h m stack a H) as (s1&m1&o&E&Ho&H1&Ha). destruct (IH (set_host s1 h) m1 stack H1) as (h'&E'&Hm).
  exists h'. split.
  - unfold mbind, M_bind, M_ok. rewrite E. destruct o as [[]|e|pn|]; [done|done|..]; by destruct Ho as [|[]].
  - destruct Hm as (s2&m2&->&H2&Ha'). exists s2, m2. split_and!; [done..|by etransitivity].
Qed.

(** How the initial transaction can end. *)
Definition outcome_ok (gas_limit : option N) (m : view) (o : ExecutionOutcome) h' : Prop :=
  transaction_data h' = [] /\ (forall gl, gas_limit = Some gl -> (gas_used o <= gl)%N) /\
  if is_success o then exists a, rtc world_step [m; m] [a; m] /\ hsim h' [a] else hsim h' [m].
(** Errors leave the map of the storage as it was; layers may be left open when they are inconsistent. *)
Definition error_ok (m : view) (e : EthereumError) h' : Prop :=
  hsim h' [m] \/ e <> OutOfTicks /\ exists stack, hsim h' stack /\ rtc world_step [m; m] stack.

Lemma gas_used_limit h l gl : transaction_data h = [l] -> g_limit <$> gasometer l = Some gl -> (h_gas_used h <= gl)%N.
Proof. intros E Hl. unfold h_gas_used. rewrite E. cbn. destruct (gasometer l) as [g|]; [|done]. cbn in *. simplify_eq. apply limit_used. Qed.

Section initial.
Context (m : view) (gas_limit : option N) (h : Handler) (stack : list view) (l : TransactionLayerData).
Context (H : hsim h stack) (Hsteps : rtc world_step [m; m] stack) (Hopen : 2 <= length stack) (Hdata : transaction_data h = [l])
  (Hgas : g_limit <$> gasometer l = gas_limit).

Lemma initial_stack : match check_initial h with Ok _ => exists a, stack = [a; m] | Err e => error_ok m e h | _ => False end.
Proof.
  unfold check_initial. rewrite (hsim_depth _ _ H), Hdata. destruct (Nat.eqb_spec (length stack - 1) 1) as [E|_]; cbn [negb length].
  - rewrite E. cbn. pose proof (world_steps_bottom _ _ Hsteps) as Hb. destruct stack as [|a [|b [|]]]; cbn in *; try lia. exists a. by simplify_eq.
  - right. eauto.
Qed.
Lemma used_limit gl : gas_limit = Some gl -> (h_gas_used h <= gl)%N.
Proof. intros E. eapply gas_used_limit; [done|]. by rewrite Hgas. Qed.

Lemma commit_initial_spec addr res reason :
  ends (commit_initial_transaction addr res reason) h (fun o h' => is_success o = true /\ outcome_ok gas_limit m o h') (fun e h' => error_ok m e h').
Proof.
  pose proof initial_stack as Hi. apply ends_bind. eapply ends_ok; [done|]. apply ends_bind. unfold ends at 1, lift.
  destruct (check_initial h); [|done..]. destruct Hi as [b ->]. rewrite Hdata. apply ends_bind. eapply ends_ok; [done|].
  apply ends_bind. destruct (delete_contracts_spec (deleted_contracts l) (set_data [] h) b [m] H) as (h'&E&s'&b'&->&H'&Ha). eapply ends_ok; [done|].
  destruct (commit_spec pre accounts_path_ok accounts_room _ _ b' m [] H') as (st'&s2&Ec&H2).
  apply ends_bind. eapply ends_ok; [unfold storage_result, on_accounts, M_map_err; by rewrite Ec|]. eapply ends_ok; [done|].
  split; [done|]. split_and!; [done|cbn; intros gl; apply used_limit|]. exists b'. split; [|exact H2].
  etransitivity; [done|]. by apply access_steps.
Qed.
Lemma rollback_initial_spec res reason :
  ends (rollback_initial_transaction res reason) h (fun o h' => is_success o = false /\ outcome_ok gas_limit m o h') (fun e h' => error_ok m e h').
Proof.
  pose proof initial_stack as Hi. apply ends_bind. eapply ends_ok; [done|]. apply ends_bind. unfold ends at 1, lift.
  destruct (check_initial h); [|done..]. destruct Hi as [b ->].
  destruct (rollback_spec pre accounts_path_ok accounts_room _ _ b m [] H) as (st'&s2&Ec&H2).
  apply ends_bind. eapply ends_ok; [unfold storage_result, on_accounts, M_map_err; by rewrite Ec|]. cbn [map_err].
  apply ends_bind. eapply ends_ok; [done|]. eapply ends_ok; [done|]. split; [done|]. split_and!; [cbn; by rewrite Hdata|cbn; intros gl; apply used_limit|exact H2].
Qed.
Lemma end_initial_spec r : ends (end_initial_transaction r) h (fun o h' => outcome_ok gas_limit m o h') (fun e h' => error_ok m e h').
Proof.
  assert (Hro : forall res reason, ends (rollback_initial_transaction res reason) h (fun o h' => outcome_ok gas_limit m o h') (fun e h' => error_ok m e h')).
  { intros res reason. eapply ends_mono; [apply rollback_initial_spec|naive_solver|done]. }
  assert (Hrf : forall reason e, ends (_ ← rollback_initial_transaction None reason; fail e) h (fun o h' => outcome_ok gas_limit m o h') (fun e h' => error_ok m e h')).
  { intros reason e. apply ends_bind. eapply ends_mono; [apply rollback_initial_spec| |done]. cbv beta. intros o h' [Hs (_&_&Ho)]. rewrite Hs in Ho. by left. }
  destruct r as [e|[[[x|x|x|[e|msg|n]] o] v]]; cbn [end_initial_transaction]; try done.
  eapply ends_mono; [apply commit_initial_spec|naive_solver|done].
Qed.
End initial.

(** What is known of a result when it returns. *)
Definition returns {E A} (c : M Handler E A) h (Q : A -> Handler -> Prop) (QE : E -> Handler -> Prop) : Prop :=
  match c h with (Ok a, h') => Q a h' | (Err e, h') => QE e h' | _ => True end.
Lemma returns_bind {E A B} (c : M Handler E A) (k : A -> M Handler E B) h Q QE :
  returns c h (fun a h' => returns (k a) h' Q QE) QE -> returns (c ≫= k) h Q QE.
Proof. unfold returns, mbind, M_bind. by destruct (c h) as [[]]. Qed.
Lemma returns_mono {E A} (c : M Handler E A) h (Q Q' : A -> Handler -> Prop) (QE QE' : E -> Handler -> Prop) : returns c h Q QE ->
  (forall a h', Q a h' -> Q' a h') -> (forall e h', QE e h' -> QE' e h') -> returns c h Q' QE'.
Proof. unfold returns. destruct (c h) as [[]]; auto. Qed.
Lemma returns_ends {E A} (c : M Handler E A) h Q QE : ends c h Q QE -> returns c h Q QE.
Proof. unfold ends, returns. by destruct (c h) as [[]]. Qed.
Lemma returns_result {E F A} (c : M Handler E A) h Q (QE : F -> Handler -> Prop) :
  returns c h (fun a => Q (inr a)) (fun e => Q (inl e)) -> returns (M_result c) h Q QE.
Proof. unfold returns, M_result. by destruct (c h) as [[]]. Qed.

Section contract.
Context (env : HandlerEnv) (fuel : nat) (m : view) (gas_limit : option N).

(** Inside of the initial transaction. *)
Definition inside h : Prop := exists stack l, running (stack_limit + 2) h stack /\ rtc world_step [m; m] stack /\ transaction_data h = [l] /\
  g_limit <$> gasometer l = gas_limit.
Lemma inside_tracks {E A} (c : M Handler E A) h : inside h -> tracks (stack_limit + 2) c -> returns c h (fun _ => inside) (fun _ => inside).
Proof.
  intros (stack&l&Hr&Hst&Hd&Hg) Hc. specialize (Hc h stack Hr). unfold returns.
  assert (Hin : forall h', evolves (stack_limit + 2) h stack h' -> inside h').
  { intros h' (s'&Hr'&Hst'&_&Hk). rewrite Hd in Hk. destruct (transaction_data h') as [|l' d'] eqn:Ed; [done|]. destruct Hk as [-> Hl].
    exists s', l'. split_and!; [done|by etransitivity|done|]. by rewrite Hl. }
  destruct (c h) as [[]]; auto.
Qed.
Lemma inside_result {E F A} (c : M Handler E A) h : inside h -> tracks (stack_limit + 2) c -> returns (M_result (F := F) c) h (fun _ => inside) (fun _ _ => False).
Proof. intros Hin Hc. apply returns_result. by apply inside_tracks. Qed.
Lemma inside_end r h : inside h -> returns (end_initial_transaction r) h (outcome_ok gas_limit m) (error_ok m).
Proof. intros (stack&l&[H Hl]&Hst&Hd&Hg). apply returns_ends. eapply end_initial_spec; [done..|lia|done|done]. Qed.

Lemma initial_spec h static create data (c : hM CreateOutcome) : hsim h [m] -> transaction_data h = [] -> tracks (stack_limit + 2) c ->
  returns (_ ← begin_initial_transaction static gas_limit;
           recorded ← M_result (record_base_gas_cost create data);
           match recorded with
           | inl err => end_initial_transaction (inr (ExitFailed err, None, []))
           | inr _ => result ← M_result c; end_initial_transaction result
           end) h (outcome_ok gas_limit m) (error_ok m).
Proof.
  intros H Hd Hc. apply returns_bind. unfold begin_initial_transaction. apply returns_bind. cbv [returns hget]. rewrite (hsim_depth _ _ H). cbn [length Nat.sub Nat.ltb Nat.leb].
  destruct (begin_layer h m [] static gas_limit H) as (h1&E1&H1&Hd1); [unfold small; cbn; lia|]. rewrite E1. fold (returns (E := EthereumError) (A := ExecutionOutcome)).
  assert (Hin : inside h1).
  { exists [m; m]. eexists. split_and!; [split; [done|cbn; lia]|done|by rewrite Hd1, Hd|]. cbn. destruct gas_limit; [|done]. cbn. by rewrite limit_new. }
  change (returns (recorded ← M_result (F := EthereumError) (record_base_gas_cost create data);
     match recorded with
     | inl err => end_initial_transaction (inr (ExitFailed err, None, []))
     | inr _ => result ← M_result c; end_initial_transaction result
     end) h1 (outcome_ok gas_limit m) (error_ok m)).
  apply returns_bind. eapply returns_mono; [apply inside_result; [done|apply tracks_record_cost]|cbv beta|done].
  intros [err|[]] h2 Hin2; [by apply inside_end|]. apply returns_bind. eapply returns_mono; [by apply inside_result|cbv beta|done].
  intros r h3 Hin3. by apply inside_end.
Qed.

Lemma contract_spec address caller value data h : hsim h [m] -> transaction_data h = [] ->
  returns (match address with
           | Some address => call_contract env fuel caller address value data gas_limit false
           | None => create_contract env fuel caller value data gas_limit
           end) h (outcome_ok gas_limit m) (error_ok m).
Proof.
  intros H Hd. destruct address as [address|]; apply initial_spec; try done.
  - apply tracks_execute_call. intros r. apply tracks_execute.
  - apply tracks_execute_create. intros r. apply tracks_execute.
Qed.
End contract.

(** ** Costs *)

Section run.
Context (env : HandlerEnv) (fuel : nat) (caller : bytes) (gas_limit : option N) (pay_for_gas : bool).
Abbreviation price := (effective_gas_price env).

(** The payment of gas and its refund. *)
Definition paid (m m1 : view) : Prop :=
  match gas_limit with
  | Some gl => if pay_for_gas then (gl * price <= balance_of m caller)%N /\ m1 = debit caller (gl * price) m else m1 = m
  | None => m1 = m
  end.
Definition refunded (unused : option N) (m m1 : view) : Prop :=
  match unused with Some n => (balance_of m caller + n * price < 2 ^ 256)%N /\ m1 = credit caller (n * price) m | None => m1 = m end.
Definition counted (m m1 : view) : Prop := (nonce_of m caller + 1 < 2 ^ 256)%N /\ m1 = set_word (nonce_steps caller) (nonce_of m caller + 1) m.

Lemma pre_pay_spec h m : hsim h [m] ->
  ends (if negb pay_for_gas then mret true else pre_pay_transactions caller gas_limit price) h
    (fun b => with_map h [] (fun m1 => if b then paid m m1 else m1 = m)) (fun e h' => e <> OutOfTicks /\ with_map h [] (fun m1 => m1 = m) h').
Proof.
  intros H. unfold paid. destruct pay_for_gas; cbn [negb]; [|eapply ends_ok; [done|]; eapply with_map_same; [done|by destruct gas_limit]].
  unfold pre_pay_transactions. destruct gas_limit as [gl|]; [|by eapply ends_ok, with_map_same]. apply ends_bind. unfold ends at 1, lift, u256_checked_mul.
  destruct (_ <? _)%N; cbn [ok_or]; [|split; [done|by eapply with_map_same]].
  eapply ends_mono; [by apply pay_spec|cbv beta|unfold unchanged; tauto]. intros b h' (s'&m'&->&Hs&Hm). exists s', m'. split_and!; [done..|]. destruct b; [done|apply Hm].
Qed.
Lemma repay_spec h m unused : hsim h [m] ->
  ends (repay_gas caller unused price) h (fun _ => with_map h [] (refunded unused m)) (fun e h' => e <> OutOfTicks /\ with_map h [] (fun m1 => m1 = m) h').
Proof.
  intros H. unfold repay_gas, refunded. destruct unused as [n|]; [|by eapply ends_ok, with_map_same]. apply ends_bind. unfold ends at 1, lift, u256_checked_mul.
  destruct (_ <? _)%N; cbn [ok_or]; [|split; [done|by eapply with_map_same]].
  eapply ends_mono; [by apply receive_spec|done|unfold unchanged; tauto].
Qed.

(** What a run leaves, from the map [m]. *)
Definition executed (m : view) (o : ExecutionOutcome) (m3 : view) : Prop := exists m1 a m2, paid m m1 /\
  (if is_success o then rtc world_step [m1; m1] [a; m1] else a = m1) /\ counted a m2 /\
  (if do_refund o pay_for_gas then refunded ((fun gl => u64_sub gl (gas_used o)) <$> gas_limit) m2 m3 else m3 = m2) /\
  (forall gl, gas_limit = Some gl -> (gas_used o <= gl)%N).
Definition ran (m : view) (r : option ExecutionOutcome) h : Prop :=
  match r with
  | Some o => exists m3, executed m o m3 /\ hsim h [m3]
  | None => hsim h [m]
  end.
(** Errors.  Out of ticks, the payment is given back; other errors leave layers that hold no more than the map. *)
Definition stopped (m : view) (e : EthereumError) h : Prop :=
  match e with
  | OutOfTicks => exists m1 m2, paid m m1 /\ (if pay_for_gas then refunded gas_limit m1 m2 else m2 = m1) /\ hsim h [m2]
  | _ => exists stack, (forall total, supply_at_most m total -> Forall (fun m' => supply_at_most m' total) stack) /\ hsim h stack
  end.

Lemma paid_supply m m1 total : paid m m1 -> supply_at_most m total -> supply_at_most m1 total.
Proof.
  unfold paid. intros Hp Ht. destruct gas_limit as [gl|]; [|by subst]. destruct pay_for_gas; [|by subst]. destruct Hp as [Hle ->].
  eapply supply_mono; [|by apply supply_debit]. lia.
Qed.
Lemma counted_supply m m1 total : counted m m1 -> supply_at_most m total -> supply_at_most m1 total.
Proof. intros [_ ->]. apply supply_access, access_write, nonce_not_balance. Qed.
Lemma stopped_other m e h stack : e <> OutOfTicks -> (forall total, supply_at_most m total -> Forall (fun m' => supply_at_most m' total) stack) -> hsim h stack -> stopped m e h.
Proof. intros He Hs H. destruct e; try done; by exists stack. Qed.
Lemma steps_supply m m1 total stack : paid m m1 -> rtc world_step [m1; m1] stack -> supply_at_most m total -> Forall (fun m' => supply_at_most m' total) stack.
Proof. intros Hp Hst Ht. apply (supply_steps _ _ _ Hst). pose proof (paid_supply _ _ _ Hp Ht). by repeat constructor. Qed.

Lemma settle_spec m m1 o a h : paid m m1 -> outcome_ok gas_limit m1 o h -> (if is_success o then rtc world_step [m1; m1] [a; m1] else a = m1) -> hsim h [a] ->
  returns (_ ← increment_nonce caller;
           _ ← (if do_refund o pay_for_gas then repay_gas caller ((fun gl => u64_sub gl (gas_used o)) <$> gas_limit) price else mret tt);
           mret (Some o)) h (ran m) (stopped m).
Proof.
  intros Hp (_&Hgas&_) Ha H. assert (Hsup : forall total, supply_at_most m total -> supply_at_most a total).
  { intros total Ht. destruct (is_success o); [|subst; by eapply paid_supply]. pose proof (steps_supply _ _ _ _ Hp Ha Ht) as Hf. by apply Forall_cons in Hf as [? _]. }
  apply returns_ends, ends_bind. eapply ends_mono; [by apply nonce_spec|cbv beta|cbv beta].
  - intros [] h1 (s1&m2&->&H1&Hc). apply ends_bind. eapply ends_mono with (Q := fun _ => with_map (set_host s1 h) [] (fun m3 =>
      if do_refund o pay_for_gas then refunded ((fun gl => u64_sub gl (gas_used o)) <$> gas_limit) m2 m3 else m3 = m2))
      (QE := fun e h' => e <> OutOfTicks /\ with_map (set_host s1 h) [] (fun m3 => m3 = m2) h'); [|cbv beta|cbv beta].
    + destruct (do_refund o pay_for_gas); [by apply repay_spec|]. by eapply ends_ok, with_map_same.
    + intros [] h2 (s2&m3&->&H2&Hr). eapply ends_ok; [done|]. exists m3. split; [|done]. exists m1, a, m2. done.
    + intros e h2 [He (s2&m3&->&H2&->)]. eapply stopped_other; [done| |done]. intros total Ht. repeat constructor. eapply counted_supply; [done|]. by apply Hsup.
  - intros e h1 (He&(s1&m2&->&H1&->)&_). eapply stopped_other; [done| |done]. intros total Ht. repeat constructor. by apply Hsup.
Qed.

Lemma run_spec address value data h m : hsim h [m] -> transaction_data h = [] ->
  returns (run_in_handler env fuel address caller data gas_limit value pay_for_gas) h (ran m) (stopped m).
Proof.
  intros H Hd. unfold run_in_handler. apply returns_bind. eapply returns_mono; [apply returns_ends; by apply pre_pay_spec|cbv beta|cbv beta].
  2: { intros e h1 [He (s1&m1&->&H1&->)]. eapply stopped_other; [done| |done]. intros total Ht. by repeat constructor. }
  intros [] h1 (s1&m1&->&H1&Hp); [|subst; done]. apply returns_bind, returns_result.
  eapply returns_mono; [apply (contract_spec env fuel m1 gas_limit address caller value data); [done|exact Hd]|cbv beta|cbv beta].
  - intros o h2 Ho. destruct (is_success o) eqn:Es; pose proof Ho as (_&_&Hs); rewrite Es in Hs.
    + destruct Hs as (a&Hst&Ha). eapply settle_spec; [done..| |done]. by rewrite Es.
    + eapply settle_spec; [done..| |done]. by rewrite Es.
  - intros e h2 He. assert (e = OutOfTicks \/ e <> OutOfTicks) as [->|Hne] by (destruct e; first [by left|by right]).
    + destruct He as [He|[]]; [|done]. apply returns_ends, ends_bind.
      eapply ends_mono with (Q := fun _ => with_map h2 [] (fun m2 => if pay_for_gas then refunded gas_limit m1 m2 else m2 = m1))
        (QE := fun e h' => e <> OutOfTicks /\ with_map h2 [] (fun m2 => m2 = m1) h'); [|cbv beta|cbv beta].
      * destruct pay_for_gas; [by apply repay_spec|]. by eapply ends_ok, with_map_same.
      * intros [] h3 (s3&m2&->&H3&Hr). by exists m1, m2.
      * intros e h3 [Hne (s3&m2&->&H3&->)]. eapply stopped_other; [done| |done]. intros total Ht. repeat constructor. by eapply paid_supply.
    + assert (Hstop : stopped m e h2).
      { destruct He as [He|[_ (stack&Hs&Hst)]]; (eapply stopped_other; [done| |done]); intros total Ht; [repeat constructor; by eapply paid_supply|by eapply steps_supply]. }
      by destruct e.
Qed.

(** The gas that is paid: a transaction that fails without [REVERT] loses its limit. *)
Definition gas_paid (o : ExecutionOutcome) : N :=
  if pay_for_gas then match gas_limit with Some gl => if do_refund o pay_for_gas then gas_used o else gl | None => 0%N end else 0%N.

Definition only_account (a : bytes) (m m' : view) : Prop := forall r, r <> balance_steps a -> r <> nonce_steps a -> m' r = m r.

Lemma u64_sub_le a b : (b <= a < 2 ^ 64)%N -> u64_sub a b = (a - b)%N.
Proof. intros H. unfold u64_sub, u64_wrap. replace (2 ^ 64 + a - b)%N with (a - b + 1 * 2 ^ 64)%N by lia. rewrite N.Div0.mod_add. apply N.mod_small. lia. Qed.

Lemma only_paid m m1 : paid m m1 -> only_account caller m m1 /\ nonce_of m1 caller = nonce_of m caller.
Proof.
  unfold paid. intros Hp. assert (Hd : forall v, only_account caller m (debit caller v m) /\ nonce_of (debit caller v m) caller = nonce_of m caller).
  { intros v. split; [intros r Hb _; by apply set_word_other|]. unfold nonce_of, debit. rewrite set_word_other; [done|apply nonce_not_balance]. }
  destruct gas_limit as [gl|]; [|by subst]. destruct pay_for_gas; [|by subst]. destruct Hp as [_ ->]. apply Hd.
Qed.
Lemma only_refunded n m m1 : refunded n m m1 -> only_account caller m m1 /\ nonce_of m1 caller = nonce_of m caller.
Proof.
  unfold refunded. destruct n as [n|]; [|by intros ->]. intros [Hb ->]. split; [intros r Hr _; by apply set_word_other|].
  unfold nonce_of, credit. rewrite set_word_other; [done|apply nonce_not_balance].
Qed.
Lemma only_counted m m1 : counted m m1 -> only_account caller m m1 /\ nonce_of m1 caller = (nonce_of m caller + 1)%N /\ forall a, balance_of m1 a = balance_of m a.
Proof.
  intros [Hn ->]. split_and!; [intros r _ Hr; by apply set_word_other|by apply set_word_same|]. intros a. unfold balance_of. rewrite set_word_other; [done|].
  intros E. by apply (nonce_not_balance caller a).
Qed.
Lemma only_trans a m1 m2 m3 : only_account a m1 m2 -> only_account a m2 m3 -> only_account a m1 m3.
Proof. intros H1 H2 r Hb Hn. rewrite H2, H1 by done. done. Qed.

(** What is left of the balance of the caller. *)
Definition fee_paid (fee : N) (m m1 : view) : Prop := (fee <= balance_of m caller)%N /\ balance_of m1 caller = (balance_of m caller - fee)%N.
Lemma paid_balance m m1 : paid m m1 -> fee_paid (if pay_for_gas then match gas_limit with Some gl => gl * price | None => 0 end else 0)%N m m1.
Proof.
  unfold paid, fee_paid. destruct gas_limit as [gl|], pay_for_gas; intros Hp; try (subst; split; lia). destruct Hp as [Hle ->]. split; [done|].
  by rewrite balance_of_debit, bool_decide_eq_true_2.
Qed.
Lemma refunded_balance n m m1 : refunded n m m1 -> balance_of m1 caller = (balance_of m caller + match n with Some n => n * price | None => 0 end)%N.
Proof. unfold refunded. destruct n as [n|]; [|intros ->; lia]. intros [Hb ->]. by rewrite balance_of_credit, bool_decide_eq_true_2. Qed.

Lemma failed_spec m o m3 : executed m o m3 -> is_success o = false -> (forall gl, gas_limit = Some gl -> (gl < 2 ^ 64)%N) ->
  only_account caller m m3 /\ nonce_of m3 caller = (nonce_of m caller + 1)%N /\ fee_paid (gas_paid o * price) m m3.
Proof.
  intros (m1&a&m2&Hp&Ha&Hc&Hr&Hgas) Hs Hgl. rewrite Hs in Ha. subst a. destruct (only_paid _ _ Hp) as [O1 N1], (only_counted _ _ Hc) as (O2&N2&B2).
  destruct (paid_balance _ _ Hp) as [Hle B1]. unfold gas_paid, fee_paid. destruct (do_refund o pay_for_gas) eqn:Er.
  - destruct (only_refunded _ _ _ Hr) as [O3 N3]. pose proof (refunded_balance _ _ _ Hr) as B3. rewrite B2 in B3.
    assert (Hpay : pay_for_gas = true) by (unfold do_refund in Er; destruct (reason o), pay_for_gas; done).
    split_and!; [eapply only_trans; [exact O1|by eapply only_trans]|lia|..]; rewrite Hpay in *; destruct gas_limit as [gl|]; cbn [fmap option_fmap option_map] in *; try lia;
      specialize (Hgas gl eq_refl); specialize (Hgl gl eq_refl); rewrite u64_sub_le in B3 by lia; nia.
  - subst m3. split_and!; [by eapply only_trans|lia|..]; destruct pay_for_gas, gas_limit as [gl|]; rewrite ?B2; lia.
Qed.
Lemma ticks_spec m m1 m2 : paid m m1 -> (if pay_for_gas then refunded gas_limit m1 m2 else m2 = m1) ->
  only_account caller m m2 /\ nonce_of m2 caller = nonce_of m caller /\ balance_of m2 caller = balance_of m caller.
Proof.
  intros Hp Hr. destruct (only_paid _ _ Hp) as [O1 N1], (paid_balance _ _ Hp) as [Hle B1]. destruct pay_for_gas.
  - destruct (only_refunded _ _ _ Hr) as [O2 N2]. pose proof (refunded_balance _ _ _ Hr) as B2.
    split_and!; [by eapply only_trans|congruence|]. destruct gas_limit; lia.
  - subst. split_and!; [done..|lia].
Qed.

Lemma executed_supply m o m3 total : executed m o m3 -> (forall gl, gas_limit = Some gl -> (gl < 2 ^ 64)%N) -> supply_at_most m total ->
  (gas_paid o * price <= total)%N /\ supply_at_most m3 (total - gas_paid o * price).
Proof.
  intros (m1&a&m2&Hp&Ha&Hc&Hr&Hgas) Hgl Ht. destruct (paid_balance _ _ Hp) as [Hle _]. set (fee := (if pay_for_gas then _ else _)) in Hle.
  assert (Hft : (fee <= total)%N).
  { pose proof (Ht [caller] ltac:(repeat constructor; by apply not_elem_of_nil)) as H1. cbn in H1. lia. }
  assert (S1 : supply_at_most m1 (total - fee)).
  { unfold paid in Hp. subst fee. destruct gas_limit as [gl|], pay_for_gas; try (subst; by rewrite N.sub_0_r). destruct Hp as [Hg ->]. by apply supply_debit. }
  assert (S2 : supply_at_most m2 (total - fee)).
  { eapply counted_supply; [done|]. destruct (is_success o); [|by subst]. pose proof (supply_steps _ _ (total - fee) Ha) as Hf.
    by apply Forall_cons in Hf as [? _]; [|repeat constructor]. }
  unfold gas_paid. destruct (do_refund o pay_for_gas) eqn:Er.
  - assert (Hpay : pay_for_gas = true) by (unfold do_refund in Er; destruct (reason o), pay_for_gas; done). subst fee. rewrite Hpay in *.
    destruct gas_limit as [gl|]; cbn [fmap option_fmap option_map refunded] in Hr; [|subst; rewrite N.mul_0_l; split; [lia|done]].
    specialize (Hgas gl eq_refl). specialize (Hgl gl eq_refl). rewrite u64_sub_le in Hr by lia. destruct Hr as [Hb ->]. split; [nia|].
    replace (total - gas_used o * price)%N with (total - gl * price + (gl - gas_used o) * price)%N by nia. by apply supply_credit.
  - subst m3 fee. destruct pay_for_gas, gas_limit as [gl|]; rewrite ?N.mul_0_l; (split; [lia|done]).
Qed.
Lemma ticks_supply m m1 m2 total : paid m m1 -> (if pay_for_gas then refunded gas_limit m1 m2 else m2 = m1) -> supply_at_most m total -> supply_at_most m2 total.
Proof.
  intros Hp Hr Ht. destruct pay_for_gas eqn:Epay; [|subst; by eapply paid_supply]. unfold paid in Hp. destruct gas_limit as [gl|]; cbn [refunded] in Hr; [|by subst].
  destruct Hr as [Hb ->]. rewrite Epay in Hp. destruct Hp as [Hle ->].
  assert (gl * price <= total)%N.
  { pose proof (Ht [caller] ltac:(repeat constructor; by apply not_elem_of_nil)) as H1. cbn in H1. lia. }
  replace total with (total - gl * price + gl * price)%N by lia. apply supply_credit; [by apply supply_debit|done].
Qed.
End run.

(** C9: failed transactions leave no trace but their cost.  From a storage with no transaction in progress, whatever the contracts that run
    do and however their calls nest and fail: when the transaction fails, every value of every account is what it was, except that the
    nonce of the caller is incremented and its balance is less by the price of the gas it pays (the gas used when it
    reverts, its whole limit otherwise); when the caller cannot pay, nothing changes; and when ticks run out, the payment is
    given back and nothing changes, so that the transaction can be tried again. *)
Theorem failed_transactions_leave_no_trace fuel block address caller data gas_limit price value pay ticks st s m :
  sim pre st s [m] -> (forall gl, gas_limit = Some gl -> (gl < 2 ^ 64)%N) ->
  match run_transaction_with (S := S) fuel block address caller data gas_limit price value pay ticks (st, s) with
  | (Ok (Some o), (st', s')) => is_success o = false -> exists m', sim pre st' s' [m'] /\ only_account caller m m' /\
      nonce_of m' caller = (nonce_of m caller + 1)%N /\
      (gas_paid gas_limit pay o * price <= balance_of m caller)%N /\ balance_of m' caller = (balance_of m caller - gas_paid gas_limit pay o * price)%N
  | (Ok None, (st', s')) => sim pre st' s' [m]
  | (Err OutOfTicks, (st', s')) => exists m', sim pre st' s' [m'] /\ only_account caller m m' /\
      nonce_of m' caller = nonce_of m caller /\ balance_of m' caller = balance_of m caller
  | _ => True
  end.
Proof.
  intros H Hgl. set (env := mkEnv caller block ticks price).
  pose proof (run_spec env fuel caller gas_limit pay address value data (handler_new st s) m H eq_refl) as Hr. unfold run_transaction_with. fold env.
  unfold returns in Hr. destruct (run_in_handler _ _ _ _ _ _ _ _ _) as [[[o|]|e|pn|] h']; [..|done|done].
  - intros Hs. destruct Hr as (m3&Hex&Hm). exists m3. split; [done|]. by apply (failed_spec env).
  - done.
  - destruct e; try done. destruct Hr as (m1&m2&Hp&Hrf&Hm). exists m2. split; [done|]. by eapply (ticks_spec env).
Qed.

(** C10: executing a transaction creates no value.  If no set of accounts holds more than a total, then after any transaction no set of
    accounts holds more than the total minus the gas that was paid, whatever the contracts do (nested calls and creations, self-destruction,
    transfers to themselves, withdrawals); and when the execution stops with an error, no layer that it leaves
    holds more than the total. *)
Theorem no_value_is_created fuel block address caller data gas_limit price value pay ticks st s m total :
  sim pre st s [m] -> supply_at_most m total -> (forall gl, gas_limit = Some gl -> (gl < 2 ^ 64)%N) ->
  match run_transaction_with (S := S) fuel block address caller data gas_limit price value pay ticks (st, s) with
  | (Ok r, (st', s')) => let paid := match r with Some o => (gas_paid gas_limit pay o * price)%N | None => 0%N end in
      exists m', sim pre st' s' [m'] /\ (paid <= total)%N /\ supply_at_most m' (total - paid)
  | (Err _, (st', s')) => exists stack, sim pre st' s' stack /\ Forall (fun m' => supply_at_most m' total) stack
  | _ => True
  end.
Proof.
  intros H Ht Hgl. set (env := mkEnv caller block ticks price).
  pose proof (run_spec env fuel caller gas_limit pay address value data (handler_new st s) m H eq_refl) as Hr. unfold run_transaction_with. fold env.
  unfold returns in Hr. destruct (run_in_handler _ _ _ _ _ _ _ _ _) as [[[o|]|e|pn|] h']; [..|done|done]; cbn zeta.
  - destruct Hr as (m3&Hex&Hm). exists m3. split; [done|]. by apply (executed_supply env caller gas_limit pay m).
  - exists m. rewrite N.sub_0_r. split_and!; [done|lia|done].
  - assert (Hother : (exists stack, (forall total, supply_at_most m total -> Forall (fun m' => supply_at_most m' total) stack) /\ hsim h' stack) ->
      exists stack, sim pre (evm_account_storage h') (h_host h') stack /\ Forall (fun m' => supply_at_most m' total) stack) by (intros (stack&Hs&Hm); eauto).
    destruct e; try (by apply Hother). destruct Hr as (m1&m2&Hp&Hrf&Hm). exists [m2]. split; [done|]. repeat constructor. by eapply (ticks_supply env).
Qed.
End execution.

(** * Layers that count no gas *)

Section unmetered.
Context {S : Type} {core : SmartRollupCore S} {hex : HexCrate} {fle : U256FromLe} {crate : RlpCrate} {eth : EthCrates} {secp : Secp}.
Context {lc : LogCrates} {conf : EvmConfig} {gc : GasometerCrate} {dbg : DebugFormat} {pc : PrecompileCrates} {vm : Sputnik}.
Abbreviation Handler := (EvmHandler.Handler (S := S)).
Implicit Types (h : Handler) (env : HandlerEnv).

(** Machines that loop: each step validates an opcode of constant cost, whose ticks are proportional to its gas, and goes on to another one of them.  (So do [JUMPDEST], [JUMP],
    and the opcodes for the stack and for arithmetic.) *)
Definition loops (L : Machine -> Prop) : Prop := forall m, L m -> exists context opcode stack cost k m',
  inspect m = Some opcode /\ static_opcode_cost opcode = Some cost /\ ticks opcode 0 = 0%N /\
  step m = Ask (PreValidate context opcode stack) k /\ k (inr tt) = Ret (m', Continue) /\ L m'.

(** The last layer counts no gas, and the ticks are not used up. *)
Definition free env h : Prop :=
  match transaction_data h with l :: _ => gasometer l = None | [] => False end /\ (h_ticks_used h <= ticks_allocated env < 2 ^ 64)%N.

Lemma free_costs env h context opcode stack cost : free env h -> static_opcode_cost opcode = Some cost -> ticks opcode 0 = 0%N ->
  pre_validate env context opcode stack h = (Ok (inr tt), h) /\ account_for_ticks env opcode (u64_sub (h_gas_used h) (h_gas_used h)) h = (Ok tt, h).
Proof.
  intros [Hd Ht] Hc Hop. destruct h as [st s [|l d] t]; [done|]. cbn in Hd, Ht. split.
  - unfold pre_validate. rewrite Hc. unfold M_result, record_cost, on_gasometer. cbn. by rewrite Hd.
  - assert (Hg : u64_sub (h_gas_used (mkHandler st s (l :: d) t)) (h_gas_used (mkHandler st s (l :: d) t)) = 0%N) by (unfold h_gas_used; cbn; rewrite Hd; done).
    rewrite Hg. unfold account_for_ticks, set_ticks. cbn [h_ticks_used transaction_data evm_account_storage h_host]. rewrite Hop.
    assert (Ea : u64_add t 0 = t) by (unfold u64_add, u64_wrap; rewrite N.add_0_r; apply N.mod_small; lia).
    rewrite Ea. cbn [h_ticks_used]. rewrite (proj2 (N.ltb_ge _ _)) by lia. done.
Qed.
Lemma free_loop env L fuel : loops L -> forall m h, L m -> free env h -> execute env fuel m h = (Diverge, h).
Proof.
  intros HL. induction fuel as [|fuel IH]; intros m h Hm Hh; [done|].
  destruct (HL m Hm) as (context&opcode&stack&cost&k&m'&Hi&Hc&Hop&Hs&Hk&Hm'). destruct (free_costs env h context opcode stack cost Hh Hc Hop) as [Hp Ht].
  cbn [execute]. unfold execute_body, execute_step, mbind, M_bind, hget. rewrite Hs, Hi. cbn [interp handle]. unfold mbind, M_bind. rewrite Hp, Hk. cbn [interp].
  unfold mret, M_ret. rewrite Ht. by apply IH.
Qed.

(** Programs that touch the accounts only. *)
Definition keeps {E A} (c : M Handler E A) : Prop := forall h, transaction_data (c h).2 = transaction_data h /\ h_ticks_used (c h).2 = h_ticks_used h.
Lemma keeps_bind {E A B} (c : M Handler E A) (k : A -> M Handler E B) : keeps c -> (forall a, keeps (k a)) -> keeps (c ≫= k).
Proof. intros Hc Hk h. specialize (Hc h). unfold mbind, M_bind. destruct (c h) as [[a|e|p|] h1]; try done. destruct (Hk a h1) as [-> ->]. done. Qed.
Lemma keeps_accounts {E A} (c : M (Storage * S) E A) : keeps (on_accounts c).
Proof. intros h. unfold on_accounts. by destruct (c _) as [o [st s]]. Qed.
Lemma keeps_host {E A} (c : M S E A) : keeps (with_host c).
Proof. intros h. unfold with_host. by destruct (c _) as [o s]. Qed.
Lemma keeps_pure {E A} (c : M Handler E A) : (forall h, (c h).2 = h) -> keeps c.
Proof. intros Hc h. by rewrite Hc. Qed.
Ltac keep := repeat match goal with
  | |- keeps (_ ≫= _) => apply keeps_bind
  | |- keeps (on_accounts _) => apply keeps_accounts
  | |- keeps (storage_result _) => apply keeps_accounts
  | |- keeps (with_host _) => apply keeps_host
  | |- keeps (on_account _) => apply keeps_host
  | |- forall _, keeps _ => intros ?
  | |- keeps (match ?x with _ => _ end) => destruct x
  | |- keeps _ => by apply keeps_pure
  end.
Lemma keeps_get_account a : keeps (get_account a).
Proof. unfold get_account, get_account_with. keep. Qed.
Lemma keeps_get_or_create a : keeps (get_or_create_account a).
Proof. unfold get_or_create_account. keep. Qed.
Lemma keeps_increment a : keeps (increment_nonce a).
Proof. unfold increment_nonce. apply keeps_bind; [apply keeps_get_or_create|keep]. Qed.
Lemma keeps_address scheme : keeps (create_address scheme).
Proof. destruct scheme; cbn [create_address]; keep. unfold get_nonce, account_or. apply keeps_bind; [apply keeps_get_account|keep]. Qed.
Lemma keeps_colliding a : keeps (is_colliding a).
Proof. unfold is_colliding. apply keeps_bind; [apply keeps_get_account|keep]. Qed.
Lemma keeps_transfer from to value : keeps (execute_transfer from to value).
Proof.
  unfold execute_transfer. destruct (_ =? _)%N; [keep|]. apply keeps_bind; [apply keeps_get_account|]. intros [p|]; [|keep].
  apply keeps_bind; [apply keeps_get_or_create|keep].
Qed.

(** Two programs that begin alike, and do the same in the states that are free. *)
Lemma free_bind {E A B} env (c : M Handler E A) (k k' : A -> M Handler E B) h : keeps c -> free env h ->
  (forall a h', free env h' -> k a h' = k' a h') -> (c ≫= k) h = (c ≫= k') h.
Proof.
  intros Hc Hh Hk. specialize (Hc h). unfold mbind, M_bind. destruct (c h) as [[a|e|p|] h1]; try done. apply Hk. destruct Hc as [Hd Ht]. unfold free in *. cbn in Hd, Ht. by rewrite Hd, Ht.
Qed.
Lemma free_create env L caller scheme value code b fuel h : loops L -> (forall context, L (machine_new code [] context)) -> free env h ->
  execute_create (execute env fuel) caller scheme value code b h = execute_create (fun _ => diverge) caller scheme value code b h.
Proof.
  intros HL Hcode Hh. unfold execute_create. apply (free_bind env); [apply keeps_address|done|]. clear h Hh. intros address h Hh.
  apply (free_bind env); [by apply keeps_pure|done|]. clear h Hh. intros h' h Hh. destruct (_ && _); [done|]. destruct (_ <=? _); [done|].
  apply (free_bind env); [apply keeps_colliding|done|]. clear h Hh. intros colliding h Hh. destruct colliding; [done|].
  apply (free_bind env); [apply keeps_transfer|done|]. clear h Hh. intros transferred h Hh. destruct transferred; [|done].
  apply (free_bind env); [destruct b; [apply keeps_increment|by apply keeps_pure]|done|]. clear h Hh. intros _ h Hh.
  unfold mbind, M_bind, M_result. by rewrite (free_loop env L fuel HL _ h).
Qed.

(** C37: contracts are created without counting gas.  The opcode [CREATE] asks the handler for a creation with no target gas, and [create] then begins a layer that counts no gas, in which
    opcodes of constant cost take neither gas nor ticks, which are computed from the gas.  So init code that loops over such opcodes is not stopped: for any virtual
    machine, from any state, and whatever the gas limit of the transaction and the ticks allocated to it, with any fuel [create] does what it would do if running the init code never returned. *)
Theorem create_runs_unmetered env (L : Machine -> Prop) caller scheme value init_code fuel h : loops L -> (forall context, L (machine_new init_code [] context)) ->
  (h_ticks_used h <= ticks_allocated env < 2 ^ 64)%N ->
  create (execute env fuel) caller scheme value init_code None h = create (fun _ => diverge) caller scheme value init_code None h.
Proof.
  intros HL Hcode Ht. assert (Hc : forall exec, create exec caller scheme value init_code None h =
    match M_result (begin_inter_transaction false None) h with
    | (Ok (inl _), h1) => (Ok (out_of_gas_before (str "create"), None, []), h1)
    | (Ok (inr _), h1) => (result ← M_result (execute_create exec caller scheme value init_code true); end_inter_transaction result) h1
    | (Err e, h1) => (Err e, h1) | (Panic p, h1) => (Panic p, h1) | (Diverge, h1) => (Diverge, h1)
    end).
  { intros exec. unfold create, mbind, M_bind, hget. cbn [nested_call_gas_limit fmap option_fmap option_map]. by destruct (M_result _ h) as [[[]|?|?|] ?]. }
  rewrite !Hc. clear Hc. destruct (M_result _ h) as [[[e|[]]|e|p|] h1] eqn:E; try done.
  assert (Hh : free env h1); [|unfold mbind, M_bind, M_result; by rewrite (free_create env L caller scheme value init_code true fuel h1 HL Hcode Hh)].
  unfold begin_inter_transaction, M_result, mbind, M_bind, hget in E. destruct (depth h =? 0); [done|].
  unfold push_layer, update, storage_result, on_accounts, M_map_err in E. cbn in E. destruct (begin_transaction _) as [[[]|e|p|] [st s]]; try done. injection E as <-. split; done.
Qed.
End unmetered.
