(* ===== verification/EvmTransfers.v ===== *)
(** Plain transfers, and calls of precompiled contracts that return an error.

    The most common transactions: value is sent to an account without code.  They succeed when the caller can pay for the value and for its
    gas limit, cost the base gas, and change nothing but the balances of the two accounts and the nonce of the caller.  A call of a precompiled
    contract that returns an error makes the whole transaction return it. *)

From stdpp Require Import relations.
From S2P Require Import Prelude Endian KernelPath KernelHost KernelRuntime KernelStorage KernelTransactions EvmErrors Rlp EvmStorage EthTypes EthSign EvmTx EthBlock EvmStore EvmAccounts EvmApply EvmTicks EvmBlockHashes EvmHandler EvmPrecompiles EvmExec EvmWorld EvmExecProps.

(** A new gasometer counts a cost within its limit. *)
Class GasCountLaws (gc : GasometerCrate) := {
  cost_counted c l : (c <= l)%N -> exists g', gasometer_record_cost c (gasometer_new l) = (Ok tt, g') /\ total_used_gas g' = c
}.
(** A machine stops at the end of its code. *)
Class EmptyCodeLaws {gc : GasometerCrate} {lc : LogCrates} (vm : Sputnik) := {
  empty_inspect data context : inspect (machine_new [] data context) = None;
  empty_step data context : exists r, step (machine_new [] data context) = Ret (r, Exit (ExitSucceeded Stopped)) /\ return_value r = []
}.

Section transfers.
Context {S : Type} {core : SmartRollupCore S} {laws : CoreLaws S} {hex : HexCrate} {hlaws : HexLaws hex} {fle : U256FromLe}.
Context {crate : RlpCrate} {eth : EthCrates} {secp : Secp} {slaws : SecpLaws secp}.
Context {lc : LogCrates} {conf : EvmConfig} {gc : GasometerCrate} {glaws : GasLaws gc} {claws : GasCountLaws gc} {dbg : DebugFormat} {pc : PrecompileCrates}.
Context {vm : Sputnik} {elaws : EmptyCodeLaws vm}.
Context (Hlimit : small (stack_limit + 4)) (Hdepth : 0 < stack_limit).
Abbreviation Handler := (EvmHandler.Handler (S := S)).
Abbreviation pre := EVM_ACCOUNTS_PATH.
Implicit Types (h : Handler) (m : view).

Lemma ends_result {E F A} (c : M Handler E A) h Q (QE : F -> Handler -> Prop) : ends c h (fun a => Q (inr a)) (fun e => Q (inl e)) -> ends (M_result c) h Q QE.
Proof. unfold ends, M_result. by destruct (c h) as [[]]. Qed.

(** An account without code. *)
Definition code_steps (a : bytes) : list bytes := account_steps a ++ [str "code"].
Lemma read_no_code h m stack a p : hsim h (m :: stack) -> in_layer pre (1 + length stack) p (account_steps a) -> m (code_steps a) = None ->
  exists o, EvmAccounts.code p (h_host h) = (o, h_host h) /\ (o = Ok [] \/ exists e, o = Err e).
Proof.
  intros H Hp Hm. unfold EvmAccounts.code, mbind, M_bind, ac_path, lift.
  destruct (concat_total p CODE_PATH) as [[q Eq]|[e Eq]]; rewrite Eq; cbn [map_err]; [|by eauto].
  pose proof (concat_in _ p _ _ q Hp code_path_ok Eq) as Hq. unfold not_found_or. rewrite store_read_all_none; [|apply (sim_ok _ _ _ _ H)|apply Hq|].
  - destruct (_ =? _)%Z; eauto.
  - rewrite (in_layer_steps _ _ _ _ Hq), (sim_top _ _ _ _ _ H). exact Hm.
Qed.
Lemma no_code h m stack a : hsim h (m :: stack) -> m (code_steps a) = None -> h_code a h = (Ok [], h).
Proof.
  intros H Hm. destruct (get_account_spec h m stack a H) as (o&E&Ho). unfold h_code, account_value, mbind, M_bind. rewrite E. destruct o as [p|]; [|done].
  destruct (read_no_code h m stack a p H (proj1 Ho) Hm) as (o&Ec&Hc). unfold account_or, mbind, M_bind, with_host, M_ok. rewrite Ec.
  destruct h. by destruct Hc as [->|[e ->]].
Qed.

(** * A transfer *)

Section transfer.
Context (block : BlockConstants) (caller to data : bytes) (gl price value ticks : N) (fuel : nat).
Abbreviation env := (mkEnv caller block ticks price).
Definition base_gas : N := u64_add gas_transaction_call (data_cost data).
Context (Hcaller : length caller = 20) (Hto : length to = 20) (Hpre : is_precompile (precompile_set (S := S) env) to = false).

(** The transfer, or nothing when the value is zero. *)
Definition sent m m' : Prop := value = 0%N /\ m' = m \/ moved caller to value m m'.
Definition funded m : Prop := (value <= balance_of m caller)%N /\ (balance_of (debit caller value m) to + value < 2 ^ 256)%N.

Lemma transfer_ok h m stack : hsim h (m :: stack) -> funded m ->
  ends (execute_transfer caller to value) h (fun r h' => r = TransferReturned /\ with_map h stack (sent m) h') (fun _ _ => False).
Proof.
  intros H [Hv Hb]. eapply ends_mono; [by apply execute_transfer_spec|cbv beta|cbv beta].
  - intros [|] h' (s'&m'&->&Hs&Hm); [split; [done|]; by exists s', m'|]. destruct Hm as [_ [|]]; [done|lia].
  - intros e h' (s'&m'&->&Hs&_&[?|[?|?]]); [done..|lia].
Qed.

(** The call of an account without code. *)
Lemma call_ok h m stack l : hsim h (m :: stack) -> depth h = 1 -> transaction_data h = [l] -> deleted_contracts l = [] -> funded m -> m (code_steps to) = None ->
  ends (execute_call env (execute env (Datatypes.S fuel)) to (Some (mkTransfer caller to value)) data (mkContext to caller value)) h
    (fun r h' => r = (ExitSucceeded Stopped, None, []) /\ with_map h stack (sent m) h') (fun _ _ => False).
Proof.
  intros H Hd Hl Hdel Hf Hc. apply ends_bind. eapply ends_ok; [done|]. rewrite Hd, (proj2 (Nat.ltb_ge _ _)) by lia. cbn [ctx_caller tr_value].
  apply ends_bind. eapply ends_mono; [by apply transfer_ok|cbv beta|done]. intros r h' [-> (s'&m'&->&Hs&Hm)].
  apply ends_bind. eapply ends_ok; [done|]. unfold precompiles_execute, is_precompile in *. destruct (find_precompile _ _); [done|]. cbn [fmap option_fmap option_map].
  assert (Hnd : deleted to (set_host s' h) = false) by (unfold deleted; cbn; rewrite Hl; cbn; by rewrite Hdel). rewrite Hnd. cbn [negb].
  assert (Hc' : m' (code_steps to) = None).
  { destruct Hm as [[_ ->]|(_&_&->)]; [done|]. unfold credit, debit. rewrite !set_word_other; [done|..]; by intros [=]. }
  apply ends_bind. eapply ends_ok; [by eapply no_code|]. destruct (empty_step data (mkContext to caller value)) as (r&Er&Hr).
  apply ends_bind. eapply ends_ok with (a := (r, ExitSucceeded Stopped)) (s' := set_host s' h).
  - cbn [execute]. unfold execute_body, execute_step, mbind, M_bind, hget. by rewrite Er, empty_inspect.
  - eapply ends_ok; [done|]. rewrite Hr. split; [done|]. by exists s', m'.
Qed.

Definition receipt_ok (o : ExecutionOutcome) : Prop := is_success o = true /\ gas_used o = base_gas /\ e_logs o = [] /\ withdrawals o = [] /\ reason o = ExitSucceeded Stopped.

Lemma commit_ok h m m' l : hsim h [m'; m] -> transaction_data h = [l] -> deleted_contracts l = [] -> l_logs l = [] -> l_withdrawals l = [] -> h_gas_used h = base_gas ->
  ends (commit_initial_transaction None [] (ExitSucceeded Stopped)) h (fun o h' => receipt_ok o /\ hsim h' [m']) (fun _ _ => False).
Proof.
  intros H Hl Hdel Hlog Hw Hg. apply ends_bind. eapply ends_ok; [done|]. apply ends_bind. eapply ends_ok with (a := tt) (s' := h).
  { unfold lift, check_initial. by rewrite (hsim_depth _ _ H), Hl. }
  rewrite Hl, Hdel. apply ends_bind. eapply ends_ok; [done|]. apply ends_bind. eapply ends_ok; [done|].
  destruct (commit_spec pre accounts_path_ok accounts_room _ _ m' m [] H) as (st'&s2&Ec&H2).
  apply ends_bind. eapply ends_ok; [unfold storage_result, on_accounts, M_map_err; cbn [evm_account_storage h_host set_data]; by rewrite Ec|]. eapply ends_ok; [done|].
  unfold receipt_ok. cbn. split; [done|exact H2].
Qed.
Lemma call_contract_ok h m : hsim h [m] -> transaction_data h = [] -> (base_gas <= gl)%N -> funded m -> m (code_steps to) = None ->
  ends (call_contract env (Datatypes.S fuel) caller to (Some value) data (Some gl) false) h (fun o h' => receipt_ok o /\ exists m', sent m m' /\ hsim h' [m']) (fun _ _ => False).
Proof.
  intros H Hd Hgas Hf Hc. apply ends_bind. unfold begin_initial_transaction. apply ends_bind. eapply ends_ok; [done|].
  rewrite (hsim_depth _ _ H). cbn [length Nat.sub Nat.ltb Nat.leb].
  destruct (begin_layer h m [] false (Some gl) H) as (h1&E1&H1&Hd1); [unfold small; cbn; lia|]. eapply ends_ok; [done|]. rewrite Hd in Hd1.
  destruct (cost_counted base_gas gl Hgas) as (g&Eg&Hg).
  apply ends_bind, ends_result. eapply ends_ok.
  { unfold record_base_gas_cost, record_cost, on_gasometer. rewrite Hd1. cbn [gasometer layer_new fmap option_fmap option_map]. fold base_gas. by rewrite Eg. }
  cbv beta iota. apply ends_bind, ends_result. set (h2 := set_data _ h1). assert (H2 : hsim h2 [m; m]) by exact H1.
  eapply ends_mono; [eapply call_ok; [exact H2|by rewrite (hsim_depth _ _ H2)|reflexivity|done..]|cbv beta|done].
  intros r h3 [-> (s3&m3&->&H3&Hs)]. cbn [end_initial_transaction]. eapply ends_mono; [eapply commit_ok; [exact H3|reflexivity|done..|]|cbv beta|done].
  - unfold h_gas_used. cbn. done.
  - intros o h4 [Ho H4]. eauto.
Qed.

(** The balances after a transfer. *)
Lemma sent_balances m m' a : sent m m' -> balance_of m' a =
  (balance_of m a + (if bool_decide (a = to) then value else 0) - (if bool_decide (a = caller) then value else 0))%N.
Proof.
  intros [[-> ->]|(Hv&Hb&->)]; [destruct (bool_decide (a = to)), (bool_decide (a = caller)); lia|].
  rewrite balance_of_credit, !balance_of_debit by done. destruct (decide (a = to)) as [->|Hne].
  - rewrite (bool_decide_eq_true_2 (to = to)) by done. destruct (bool_decide (to = caller)) eqn:E; [|lia]. apply bool_decide_eq_true in E. subst caller. lia.
  - rewrite (bool_decide_eq_false_2 (a = to)) by done. case_bool_decide; subst; lia.
Qed.
Lemma sent_others m m' r : sent m m' -> r <> balance_steps caller -> r <> balance_steps to -> m' r = m r.
Proof. intros [[_ ->]|(_&_&->)] Hc Ht; [done|]. unfold credit, debit. by rewrite !set_word_other. Qed.

(** Paying for the gas limit, and the refund of what is left of it. *)
Lemma pre_pay_ok h m : hsim h [m] -> (gl * price <= balance_of m caller)%N ->
  ends (pre_pay_transactions caller (Some gl) price) h (fun b h' => b = true /\ with_map h [] (fun m1 => m1 = debit caller (gl * price) m) h') (fun _ _ => False).
Proof.
  intros H Hle. pose proof (word_value_bound (m (balance_steps caller))) as Hb. fold (balance_of m caller) in Hb.
  apply ends_bind. unfold ends at 1, lift, u256_checked_mul. rewrite (proj2 (N.ltb_lt _ _)) by lia. cbn [ok_or].
  eapply ends_mono; [by apply pay_spec|cbv beta|intros e h' (_&_&[|[]]); done].
  intros b h' (s'&m'&->&Hs&Hm). destruct b; [|lia]. destruct Hm as [_ ->]. split; [done|]. by exists s', (debit caller (gl * price) m).
Qed.
Lemma repay_ok h m n : hsim h [m] -> (balance_of m caller + n * price < 2 ^ 256)%N ->
  ends (repay_gas caller (Some n) price) h (fun _ => with_map h [] (fun m1 => m1 = credit caller (n * price) m)) (fun _ _ => False).
Proof.
  intros H Hle. apply ends_bind. unfold ends at 1, lift, u256_checked_mul. rewrite (proj2 (N.ltb_lt _ _)) by lia. cbn [ok_or].
  eapply ends_mono; [by apply receive_spec|cbv beta|intros e h' (_&_&[|]); [done|lia]].
  intros [] h' (s'&m'&->&Hs&_&->). by exists s', (credit caller (n * price) m).
Qed.
Lemma count_ok h m : hsim h [m] -> (nonce_of m caller + 1 < 2 ^ 256)%N -> ends (increment_nonce caller) h (fun _ => with_map h [] (counted caller m)) (fun _ _ => False).
Proof. intros H Hn. eapply ends_mono; [by apply nonce_spec|done|cbv beta]. intros e h' (_&_&[|]); [done|lia]. Qed.

(** The map after a transfer: the payment, the transfer, the nonce and the refund. *)
Definition settled m m' : Prop := exists m2 m3, sent (debit caller (gl * price) m) m2 /\ counted caller m2 m3 /\
  (balance_of m3 caller + (gl - base_gas) * price < 2 ^ 256)%N /\ m' = credit caller ((gl - base_gas) * price) m3.
Context (Hgas : (base_gas <= gl < 2 ^ 64)%N).
(** The caller can pay, and neither balance nor nonce overflows. *)
Definition affordable m : Prop :=
  (gl * price + value <= balance_of m caller)%N /\ (balance_of m to + value < 2 ^ 256)%N /\ (nonce_of m caller + 1 < 2 ^ 256)%N.

Lemma affordable_funded m : affordable m -> funded (debit caller (gl * price) m).
Proof.
  intros (Hp&Ht&_). pose proof (word_value_bound (m (balance_steps caller))) as Hb. fold (balance_of m caller) in Hb. unfold funded. rewrite !balance_of_debit, bool_decide_eq_true_2 by done. split; [lia|]. case_bool_decide; lia.
Qed.
Lemma settled_nonce m m2 : sent m m2 -> nonce_of m2 caller = nonce_of m caller.
Proof. intros Hs. unfold nonce_of. by rewrite (sent_others _ _ _ Hs) by apply nonce_not_balance. Qed.
Lemma debit_nonce m v : nonce_of (debit caller v m) caller = nonce_of m caller.
Proof. unfold nonce_of, debit. rewrite set_word_other; [done|apply nonce_not_balance]. Qed.
Lemma sent_below m m2 : affordable m -> sent (debit caller (gl * price) m) m2 -> (balance_of m2 caller + gl * price <= balance_of m caller)%N.
Proof.
  intros (Hp&_&_) Hs. rewrite (sent_balances _ _ caller Hs), balance_of_debit, !(bool_decide_eq_true_2 (caller = caller)) by done. case_bool_decide; lia.
Qed.

Lemma run_ok h m : hsim h [m] -> transaction_data h = [] -> affordable m -> m (code_steps to) = None ->
  ends (run_in_handler env (Datatypes.S fuel) (Some to) caller data (Some gl) (Some value) true) h
    (fun r h' => exists o m', r = Some o /\ receipt_ok o /\ settled m m' /\ hsim h' [m']) (fun _ _ => False).
Proof.
  intros H Hd Hf Hc. pose proof (affordable_funded m Hf) as Hfund. pose proof Hf as (Hp&_&Hn).
  pose proof (word_value_bound (m (balance_steps caller))) as Hb. fold (balance_of m caller) in Hb.
  apply ends_bind. cbn [negb]. eapply ends_mono; [apply pre_pay_ok; [done|lia]|cbv beta|done]. intros b h1 [-> (s1&m1&->&H1&->)]. cbv beta iota.
  apply ends_bind, ends_result. eapply ends_mono; [apply (call_contract_ok _ _ H1); [exact Hd|lia|exact Hfund|]|cbv beta|done].
  { unfold debit. rewrite set_word_other; [exact Hc|by intros [=]]. }
  intros o h2 (Ho&m2&Hs&H2). cbv beta iota. apply ends_bind. eapply ends_mono; [apply (count_ok _ _ H2)|cbv beta|done].
  { rewrite (settled_nonce _ _ Hs), debit_nonce. exact Hn. }
  intros [] h3 (s3&m3&->&H3&Hct). pose proof (only_counted caller _ _ Hct) as (_&_&B3). pose proof (sent_below m m2 Hf Hs) as Hle. pose proof Ho as (Hok&Hg&_&_&Hr).
  assert (Hrefund : do_refund o true = true) by (unfold do_refund; by rewrite Hr, Hok). rewrite Hrefund, Hg. cbn [fmap option_fmap option_map]. rewrite u64_sub_le by lia.
  assert (Hb3 : (balance_of m3 caller + (gl - base_gas) * price < 2 ^ 256)%N) by (rewrite B3; nia).
  apply ends_bind. eapply ends_mono; [by apply repay_ok|cbv beta|done]. intros [] h4 (s4&m4&->&H4&->). eapply ends_ok; [done|].
  eexists o, _. split_and!; [done..| |exact H4]. exists m2, m3. done.
Qed.

Lemma settled_balances m m' a : affordable m -> settled m m' -> balance_of m' a =
  (balance_of m a + (if bool_decide (a = to) then value else 0) - (if bool_decide (a = caller) then value + base_gas * price else 0))%N.
Proof.
  intros Hf (m2&m3&Hs&Hct&Hb&->). pose proof Hf as (Hp&_). pose proof (only_counted caller _ _ Hct) as (_&_&B3).
  rewrite balance_of_credit, !B3, !(sent_balances _ _ _ Hs), !balance_of_debit by done.
  destruct (decide (a = caller)) as [->|Hne]; [|rewrite (bool_decide_eq_false_2 (a = caller)) by done; lia].
  rewrite !(bool_decide_eq_true_2 (caller = caller)) by done. destruct (bool_decide (caller = to)); nia.
Qed.
Lemma settled_nonces m m' : settled m m' -> nonce_of m' caller = (nonce_of m caller + 1)%N.
Proof.
  intros (m2&m3&Hs&Hct&Hb&->). pose proof (only_counted caller _ _ Hct) as (_&Hn&_). unfold nonce_of at 1, credit.
  rewrite set_word_other by apply nonce_not_balance. fold (nonce_of m3 caller). by rewrite Hn, (settled_nonce _ _ Hs), debit_nonce.
Qed.
Lemma settled_others m m' r : settled m m' -> r <> balance_steps caller -> r <> balance_steps to -> r <> nonce_steps caller -> m' r = m r.
Proof.
  intros (m2&m3&Hs&Hct&Hb&->) Hc Ht Hn. pose proof (only_counted caller _ _ Hct) as (Ho&_). unfold credit. rewrite set_word_other, Ho by done.
  rewrite (sent_others _ _ _ Hs) by done. unfold debit. by rewrite set_word_other.
Qed.

(** C12: plain transfers succeed.  A transaction that sends value to an account without code, which is not a precompiled contract, by a caller that can pay
    the value and its gas limit, is executed and committed whatever the other contracts are: the receipt is a success with no
    logs that uses the base gas; the value goes from the caller to the destination, the caller pays the gas used and no more, its nonce is
    incremented, and every other value of every account is what it was. *)
Theorem plain_transfer_succeeds st s m :
  sim pre st s [m] -> affordable m -> m (code_steps to) = None ->
  exists o st' s' m', run_transaction_with (Datatypes.S fuel) block (Some to) caller data (Some gl) price (Some value) true ticks (st, s) = (Ok (Some o), (st', s')) /\
    receipt_ok o /\ sim pre st' s' [m'] /\ nonce_of m' caller = (nonce_of m caller + 1)%N /\
    (forall a, balance_of m' a = (balance_of m a + (if bool_decide (a = to) then value else 0) - (if bool_decide (a = caller) then value + base_gas * price else 0))%N) /\
    (forall r, r <> balance_steps caller -> r <> balance_steps to -> r <> nonce_steps caller -> m' r = m r).
Proof.
  intros H Hf Hc. pose proof (run_ok (handler_new st s) m H eq_refl Hf Hc) as Hr. unfold ends in Hr. unfold run_transaction_with.
  destruct (run_in_handler _ _ _ _ _ _ _ _ _) as [[r|e|pn|] h']; [|done..]. destruct Hr as (o&m'&->&Ho&Hs&Hm).
  exists o, (evm_account_storage h'), (h_host h'), m'. split_and!; [done|done|done|by apply settled_nonces|intros a; by apply settled_balances|intros r; by apply settled_others].
Qed.
End transfer.

(** * Precompiled contracts that return an error *)

Section precompile_error.
Context (block : BlockConstants) (caller to data : bytes) (gl price value ticks : N) (fuel : nat).
Abbreviation env := (mkEnv caller block ticks price).
Context (Hcaller : length caller = 20) (Hto : length to = 20) (Hgas : (base_gas data <= gl)%N).
(** The contract returns the error, in any state. *)
Context (e : EthereumError) (f : bytes -> Context -> bool -> option Transfer -> M Handler EthereumError PrecompileOutcome) (Hfind : find_precompile to (precompile_set env) = Some f).
Context (Herr : forall context static transfer h, f data context static transfer h = (Err e, h)) (Hticks : e <> OutOfTicks).
(** The error, in a state whose accounts hold the map. *)
Abbreviation failing m := (fun err h' => err = e /\ hsim h' [m]).

Lemma call_fails h m stack : hsim h (m :: stack) -> depth h = 1 -> funded caller to value m ->
  ends (execute_call env (execute env fuel) to (Some (mkTransfer caller to value)) data (mkContext to caller value)) h
    (fun _ _ => False) (fun err h' => err = e /\ with_map h stack (fun _ => True) h').
Proof.
  intros H Hd Hf. apply ends_bind. eapply ends_ok; [done|]. rewrite Hd, (proj2 (Nat.ltb_ge _ _)) by lia. cbn [ctx_caller tr_value].
  apply ends_bind. eapply ends_mono; [by apply transfer_ok|cbv beta|done]. intros r h' [-> (s'&m'&->&Hs&_)].
  apply ends_bind. eapply ends_ok; [done|]. unfold precompiles_execute. rewrite Hfind. cbn [fmap option_fmap option_map].
  apply ends_bind. unfold ends at 1. rewrite Herr. split; [done|]. by exists s', m'.
Qed.
Lemma call_contract_fails h m : hsim h [m] -> transaction_data h = [] -> funded caller to value m ->
  ends (call_contract env fuel caller to (Some value) data (Some gl) false) h (fun _ _ => False) (failing m).
Proof.
  intros H Hd Hf. apply ends_bind. unfold begin_initial_transaction. apply ends_bind. eapply ends_ok; [done|].
  rewrite (hsim_depth _ _ H). cbn [length Nat.sub Nat.ltb Nat.leb].
  destruct (begin_layer h m [] false (Some gl) H) as (h1&E1&H1&Hd1); [unfold small; cbn; lia|]. eapply ends_ok; [done|]. rewrite Hd in Hd1.
  destruct (cost_counted (base_gas data) gl Hgas) as (g&Eg&_).
  apply ends_bind, ends_result. eapply ends_ok.
  { unfold record_base_gas_cost, record_cost, on_gasometer. rewrite Hd1. cbn [gasometer layer_new fmap option_fmap option_map]. fold (base_gas data). by rewrite Eg. }
  cbv beta iota. apply ends_bind, ends_result. set (h2 := set_data _ h1). assert (H2 : hsim h2 [m; m]) by exact H1.
  eapply ends_mono; [eapply call_fails; [exact H2|by rewrite (hsim_depth _ _ H2)|done]|done|cbv beta].
  intros err h3 [-> (s3&m3&->&H3&_)]. cbn [end_initial_transaction]. apply ends_bind. unfold rollback_initial_transaction.
  apply ends_bind. eapply ends_ok; [done|]. apply ends_bind. eapply ends_ok with (a := tt).
  { unfold lift, check_initial. rewrite (hsim_depth _ _ H3). reflexivity. }
  destruct (rollback_spec pre accounts_path_ok accounts_room _ _ m3 m [] H3) as (st'&s4&Ec&H4).
  apply ends_bind. eapply ends_ok; [unfold storage_result, on_accounts, M_map_err; by rewrite Ec|].
  apply ends_bind. eapply ends_ok; [done|]. eapply ends_ok; [done|]. split; [done|exact H4].
Qed.
Lemma run_fails h m : hsim h [m] -> transaction_data h = [] -> (gl * price + value <= balance_of m caller)%N -> (balance_of m to + value < 2 ^ 256)%N ->
  ends (run_in_handler env fuel (Some to) caller data (Some gl) (Some value) true) h (fun _ _ => False) (failing (debit caller (gl * price) m)).
Proof.
  intros H Hd Hp Ht. pose proof (word_value_bound (m (balance_steps caller))) as Hb. fold (balance_of m caller) in Hb.
  assert (Hfund : funded caller to value (debit caller (gl * price) m))
    by (unfold funded; rewrite !balance_of_debit, bool_decide_eq_true_2 by done; split; [lia|case_bool_decide; lia]).
  apply ends_bind. cbn [negb]. eapply ends_mono; [apply (pre_pay_ok caller to gl price Hcaller Hto h m H); lia|cbv beta|done]. intros b h1 [-> (s1&m1&->&H1&->)]. cbv beta iota.
  apply ends_bind, ends_result. eapply ends_mono; [apply (call_contract_fails _ _ H1); [exact Hd|exact Hfund]|done|cbv beta].
  intros err h2 [-> H2]. destruct e; try done; by split.
Qed.
End precompile_error.

(** C38: a malformed call of a precompiled contract makes [run_transaction] fail.  Let a transaction call the modular exponentiation with data in which the
    length of the base or of the modulus is [2^32] or more, by a caller that can pay the value and the gas limit.  Instead of a failed call that takes its gas, [run_transaction]
    returns an error, from any state of the accounts, whatever the gas limit, the price and the ticks; only the payment of the gas limit is left, and the nonce of the
    caller is not incremented. *)
Theorem malformed_precompile_call_fails block caller data gl price value ticks fuel st s m :
  length caller = 20 -> (base_gas data <= gl)%N ->
  (2 ^ 32 <= of_be_bytes (get_right_padded 32 data 0))%N \/ (2 ^ 32 <= of_be_bytes (get_right_padded 32 data 64))%N ->
  sim pre st s [m] -> (gl * price + value <= balance_of m caller)%N -> (balance_of m (from_low_u64_be 5) + value < 2 ^ 256)%N ->
  exists st' s', run_transaction_with fuel block (Some (from_low_u64_be 5)) caller data (Some gl) price (Some value) true ticks (st, s) =
    (Err modexp_overflow, (st', s')) /\ sim pre st' s' [debit caller (gl * price) m].
Proof.
  intros Hcaller Hgas Hlen H Hp Ht. unfold run_transaction_with.
  assert (Herr : forall context static transfer (h : Handler), modexp_precompile data context static transfer h = (Err modexp_overflow, h)).
  { intros context static transfer h. unfold modexp_precompile, mbind, M_bind, lift, to_usize, usize_max.
    destruct (N.leb_spec (of_be_bytes (get_right_padded 32 data 0)) (2 ^ 32 - 1)); [|done]. cbn [ok_or].
    destruct (N.leb_spec (of_be_bytes (get_right_padded 32 data 64)) (2 ^ 32 - 1)); [|done]. exfalso. destruct Hlen; lia. }
  pose proof (run_fails block caller (from_low_u64_be 5) data gl price value ticks fuel Hcaller eq_refl Hgas modexp_overflow modexp_precompile eq_refl Herr ltac:(done)
    (handler_new st s) m H eq_refl Hp Ht) as Hr. unfold ends in Hr.
  destruct (run_in_handler _ _ _ _ _ _ _ _ _) as [[r|e|pn|] h']; [done| |done..]. destruct Hr as [-> Hs].
  exists (evm_account_storage h'), (h_host h'). split; [done|exact Hs].
Qed.
End transfers.
