(* ===== verification/EvmBlock.v ===== *)
(** Producing blocks.

    Models [tick_model.rs], [block_in_progress.rs], [block.rs], [upgrade.rs] and the storage of a block in progress
    ([storage.rs]) of [etherlink/kernel_evm/kernel/src].  Hashes of the durable storage ([ExtendedRuntime]) come from a host
    function of the rollup node; upgrades evaluate the configuration of [SdkInstaller]. *)

From S2P Require Import Prelude SdkDac SdkInstaller Endian SdkNom SdkMichelson KernelPath KernelHost KernelRuntime KernelStorage EvmErrors Rlp EvmStorage LinkedList EthTypes EthSign EvmTx EthBlock EvmStore EvmAccounts EvmBlueprints EvmApply.

(** * Ticks (tick_model.rs) *)

Definition u64 (n : N) : N := (n mod 2 ^ 64)%N.
Definition u64_max : N := 2 ^ 64 - 1.
Definition saturating_add (a b : N) : N := N.min (a + b) u64_max.
Definition saturating_mul (a b : N) : N := N.min (a * b) u64_max.

Definition MAX_TICKS : N := 11000000000.
Definition TICKS_PER_GAS : N := 2000.
Definition TICKS_FOR_CRYPTO : N := 25000000.
Definition QUEUE_STORING_UPPER_BOUND : N := 1000000000.
Definition SAFETY_MARGIN : N := QUEUE_STORING_UPPER_BOUND + 1000000000.
Definition QUEUE_READ_UPPER_BOUND : N := 500000000.
Definition KERNEL_INITIALIZATION : N := 50000000.
Definition INITIALISATION_OVERHEAD : N := QUEUE_READ_UPPER_BOUND + KERNEL_INITIALIZATION.
Definition MAX_ALLOWED_TICKS : N := MAX_TICKS - SAFETY_MARGIN - INITIALISATION_OVERHEAD.
Definition FINALIZE_UPPER_BOUND : N := 150000000.
Definition RECEIPT_TICKS_COEF : N := 960.
Definition RECEIPT_TICKS_INTERCEPT : N := 200000.
Definition TX_OBJ_TICKS_COEF : N := 880.
Definition TX_OBJ_TICKS_INTERCEPT : N := 200000.
Definition BLOOM_TICKS_INTERCEPT : N := 10000.
Definition BLOOM_TICKS_COEF : N := 85000.
Definition TRANSACTION_OVERHEAD_INTERCEPT : N := 1150000.
Definition TRANSACTION_OVERHEAD_COEF : N := 880.
Definition TRANSFERT_OBJ_SIZE : N := 347.

Section ticks.
Context {lc : LogCrates} {conf : EvmConfig}.

Definition BASE_GAS : N := gas_transaction_call.
Definition ticks_of_transaction_overhead (tx_data_size : N) : N :=
  let tx_obj_size := u64 (tx_data_size + TRANSFERT_OBJ_SIZE) in
  saturating_add (saturating_mul tx_obj_size TRANSACTION_OVERHEAD_COEF) TRANSACTION_OVERHEAD_INTERCEPT.
(** [saturating_sub] is subtraction. *)
Definition estimate_remaining_ticks_for_transaction_execution (ticks tx_data_size : N) : N :=
  MAX_ALLOWED_TICKS - ticks_of_transaction_overhead tx_data_size - ticks.
Definition ticks_of_invalid_transaction (tx_data_size : N) : N :=
  saturating_add (saturating_mul BASE_GAS TICKS_PER_GAS) (ticks_of_transaction_overhead tx_data_size).
Definition ticks_of_valid_transaction_ethereum (resulting_ticks tx_data_size : N) : N :=
  saturating_add (saturating_add resulting_ticks TICKS_FOR_CRYPTO) (ticks_of_transaction_overhead tx_data_size).
Definition ticks_of_valid_transaction (transaction : Transaction) (resulting_ticks : N) : N :=
  match content transaction with
  | Ethereum _ => ticks_of_valid_transaction_ethereum resulting_ticks (data_size transaction)
  | TDeposit _ => resulting_ticks
  end.
Definition bloom_size (logs : list IndexedLog) : nat := fold_left (fun size item => size + length (log_topics (log item))) logs (length logs).
Definition ticks_of_register (receipt_size obj_size bloom_size : N) : N :=
  let receipt_ticks := saturating_add (saturating_mul receipt_size RECEIPT_TICKS_COEF) RECEIPT_TICKS_INTERCEPT in
  let obj_ticks := saturating_add (saturating_mul obj_size TX_OBJ_TICKS_COEF) TX_OBJ_TICKS_INTERCEPT in
  let bloom_ticks := saturating_add (saturating_mul bloom_size BLOOM_TICKS_COEF) BLOOM_TICKS_INTERCEPT in
  saturating_add (saturating_add receipt_ticks obj_ticks) bloom_ticks.
End ticks.

(** * Blocks in progress (block_in_progress.rs) *)

Record BlockInProgress : Set := mkBip {
  bip_number : N; tx_queue : list Transaction; valid_txs : list bytes; cumulative_gas : N; bip_index : N; bip_gas_price : N;
  bip_parent_hash : bytes; estimated_ticks : N; bip_logs_bloom : bytes; logs_offset : N; bip_timestamp : Z
}.

Section codec.
Context {crate : RlpCrate} {eth : EthCrates}.

Definition append_queue (queue : list Transaction) : bytes := rlp_list (map rlp_bytes queue).
Definition append_txs (valid_txs : list bytes) : bytes := rlp_list (map rlp_value valid_txs).
(** [with_capacity(decoder.item_count()?)] and a loop over the items. *)
Fixpoint decode_items {A} (f : bytes -> decoded A) (items : list bytes) : decoded (list A) :=
  match items with [] => Ok [] | item :: items => a ← f item; l ← decode_items f items; Ok (a :: l) end.
Definition decode_all_items {A} (f : bytes -> decoded A) (decoder : bytes) : decoded (list A) :=
  if negb (rlp_is_list decoder) then Err RlpExpectedToBeList
  else _ ← rlp_item_count decoder; decode_items f (rlp_iter decoder).
Definition decode_valid_txs (decoder : bytes) : decoded (list bytes) := decode_all_items decode_tx_hash decoder.
Definition decode_queue (decoder : bytes) : decoded (list Transaction) := decode_all_items decode decoder.

(** The estimated ticks are not stored. *)
#[global] Instance BlockInProgress_codec : Codec BlockInProgress := {
  rlp_bytes b := rlp_list [rlp_bytes (Codec := u256_codec) (bip_number b); append_queue (tx_queue b); append_txs (valid_txs b);
    rlp_bytes (Codec := u256_codec) (cumulative_gas b); rlp_bytes (Codec := u32_codec) (bip_index b);
    rlp_bytes (Codec := u256_codec) (bip_gas_price b); rlp_bytes (Codec := h256_codec) (bip_parent_hash b);
    rlp_bytes (Codec := bloom_codec) (bip_logs_bloom b); rlp_bytes (Codec := u64_codec) (logs_offset b); append_timestamp (bip_timestamp b)];
  decode decoder := expect_list 10 RlpIncorrectListLen decoder (fun it =>
    '(x, it) ← next it; number ← decode_field (C := u256_codec) x (str "number");
    '(x, it) ← next it; tx_queue ← decode_queue x;
    '(x, it) ← next it; valid_txs ← decode_valid_txs x;
    '(x, it) ← next it; cumulative_gas ← decode_field (C := u256_codec) x (str "cumulative_gas");
    '(x, it) ← next it; index ← decode_field (C := u32_codec) x (str "index");
    '(x, it) ← next it; gas_price ← decode_field (C := u256_codec) x (str "gas_price");
    '(x, it) ← next it; parent_hash ← decode_field (C := h256_codec) x (str "parent_hash");
    '(x, it) ← next it; logs_bloom ← decode_field (C := bloom_codec) x (str "logs_bloom");
    '(x, it) ← next it; logs_offset ← decode_field (C := u64_codec) x (str "logs_offset");
    '(x, it) ← next it; timestamp ← decode_timestamp x;
    Ok (mkBip number tx_queue valid_txs cumulative_gas index gas_price parent_hash 0 logs_bloom logs_offset timestamp))
}.
End codec.

(** The hash of the value or directory at a path, or of the whole storage. *)
Class ExtendedRuntime (S : Type) := { store_get_hash : option bytes -> M S RuntimeError bytes }.
(** [Runtime::mark_for_reboot], which not every runtime implements with a write in its own storage. *)
Class RebootRuntime (S : Type) := { mark_for_reboot : M S RuntimeError unit }.
#[global] Instance host_reboot {S} {core : SmartRollupCore S} : RebootRuntime S := {| mark_for_reboot := KernelHost.mark_for_reboot |}.

Section production.
Context {S : Type} {core : SmartRollupCore S} {ext : ExtendedRuntime S} {reboot : RebootRuntime S} {rc : RevealCore} {hex : HexCrate} {secp : Secp} {crate : RlpCrate}
  {eth : EthCrates} {fle : U256FromLe} {lc : LogCrates} {b58 : Base58Crate} {rfc : Rfc3339} {conf : EvmConfig} {outbox : OutboxCrate}
  {exec : EvmExecution (S := S)}.
Abbreviation kM := (M S Error).
Abbreviation hM := (M S Anyhow).
Abbreviation evmM := (M (Storage * S) Anyhow).

Definition new_with_ticks (number : N) (parent_hash : bytes) (gas_price : N) (transactions : list Transaction) (estimated_ticks : N) (timestamp : Z) :
    BlockInProgress :=
  mkBip number transactions [] 0 0 gas_price parent_hash estimated_ticks bloom_default 0 timestamp.
Definition from_blueprint (blueprint : Blueprint) (current_block_number : N) (parent_hash : bytes) (constants : BlockConstants) (tick_counter : N) :
    BlockInProgress :=
  new_with_ticks current_block_number parent_hash (base_fee_per_gas constants) (transactions blueprint) tick_counter (timestamp blueprint).

Definition set_queue (queue : list Transaction) (self : BlockInProgress) : BlockInProgress :=
  mkBip (bip_number self) queue (valid_txs self) (cumulative_gas self) (bip_index self) (bip_gas_price self) (bip_parent_hash self)
    (estimated_ticks self) (bip_logs_bloom self) (logs_offset self) (bip_timestamp self).
Definition add_ticks (ticks : N) (self : BlockInProgress) : BlockInProgress :=
  mkBip (bip_number self) (tx_queue self) (valid_txs self) (cumulative_gas self) (bip_index self) (bip_gas_price self) (bip_parent_hash self)
    (u64 (estimated_ticks self + ticks)) (bip_logs_bloom self) (logs_offset self) (bip_timestamp self).
Definition add_gas (gas : N) (self : BlockInProgress) : outcome Error BlockInProgress :=
  cumulative_gas ← ok_or (E_Transfer CumulativeGasUsedOverflow) (u256_checked_add (cumulative_gas self) gas);
  Ok (mkBip (bip_number self) (tx_queue self) (valid_txs self) cumulative_gas (bip_index self) (bip_gas_price self) (bip_parent_hash self)
    (estimated_ticks self) (bip_logs_bloom self) (logs_offset self) (bip_timestamp self)).
(** [valid_txs.push(tx_hash); index += 1]. *)
Definition push_valid (tx_hash : bytes) (self : BlockInProgress) : BlockInProgress :=
  mkBip (bip_number self) (tx_queue self) (valid_txs self ++ [tx_hash]) (cumulative_gas self) ((bip_index self + 1) mod 2 ^ 32) (bip_gas_price self)
    (bip_parent_hash self) (estimated_ticks self) (bip_logs_bloom self) (logs_offset self) (bip_timestamp self).
Definition add_logs (bloom : bytes) (offset : N) (self : BlockInProgress) : BlockInProgress :=
  mkBip (bip_number self) (tx_queue self) (valid_txs self) (cumulative_gas self) (bip_index self) (bip_gas_price self) (bip_parent_hash self)
    (estimated_ticks self) bloom offset (bip_timestamp self).

(** The receipt, and the offset of the logs of the next transaction. *)
Definition make_receipt (self : BlockInProgress) (info : TransactionReceiptInfo) : TransactionReceipt * N :=
  let '(mkReceiptInfo hash index execution_outcome from to effective_gas_price) := info in
  match execution_outcome with
  | Some outcome =>
      let logs := imap (fun i log => mkIndexedLog log (u64 (N.of_nat i + logs_offset self))) (e_logs outcome) in
      (mkReceipt hash index (bip_number self) from to (cumulative_gas self) effective_gas_price (gas_used outcome) (new_address outcome) logs
         (logs_to_bloom logs) Legacy (if is_success outcome then Success else Failure),
       u64 (logs_offset self + N.of_nat (length logs)))
  | None =>
      (mkReceipt hash index (bip_number self) from to (cumulative_gas self) effective_gas_price 0 None [] bloom_default Legacy Failure, logs_offset self)
  end.
Definition make_object (self : BlockInProgress) (info : TransactionObjectInfo) : TransactionObject :=
  mkObject (bip_number self) (oi_from info) (oi_gas_used info) (oi_gas_price info) (oi_hash info) (oi_input info) (oi_nonce info) (oi_to info)
    (oi_index info) (oi_value info) (oi_signature info).

Definition register_valid_transaction (self : BlockInProgress) (transaction : Transaction) (object_info : TransactionObjectInfo)
    (receipt_info : TransactionReceiptInfo) (ticks_used : N) : hM BlockInProgress :=
  self ← lift (map_err A_Error (add_gas (oi_gas_used object_info) self));
  let self := add_ticks (ticks_of_valid_transaction transaction ticks_used) self in
  let self := push_valid (tx_hash transaction) self in
  let '(receipt, offset) := make_receipt self receipt_info in
  let receipt_bloom_size := N.of_nat (bloom_size (logs receipt)) in
  let self := add_logs (bloom_accrue_bloom (bip_logs_bloom self) (r_logs_bloom receipt)) offset self in
  receipt_size ← M_map_err A_Error (store_transaction_receipt receipt);
  obj_size ← M_map_err A_Error (store_transaction_object (make_object self object_info));
  mret (add_ticks (ticks_of_register receipt_size obj_size receipt_bloom_size) self).
Definition account_for_invalid_transaction (tx_data_size : N) (self : BlockInProgress) : BlockInProgress :=
  add_ticks (ticks_of_invalid_transaction tx_data_size) self.

Definition safe_store_get_hash (path : bytes) : hM bytes := hash ← M_ok (store_get_hash (Some path)); mret (default dummy_hash hash).
Definition finalize_and_store (self : BlockInProgress) : hM L2Block :=
  state_root ← safe_store_get_hash EVM_ACCOUNTS_PATH;
  receipts_root ← safe_store_get_hash EVM_TRANSACTIONS_RECEIPTS;
  transactions_root ← safe_store_get_hash EVM_TRANSACTIONS_OBJECTS;
  let new_block := L2Block_new (bip_number self) (valid_txs self) (bip_timestamp self) (bip_parent_hash self) (bip_logs_bloom self) transactions_root
    state_root receipts_root (cumulative_gas self) in
  _ ← M_map_err A_Error (store_current_block new_block);
  mret new_block.

Definition store_block_in_progress (bip : BlockInProgress) : hM unit := M_map_err A_Runtime (store_write_all EVM_BLOCK_IN_PROGRESS (rlp_bytes bip)).
Definition read_block_in_progress : hM (option BlockInProgress) :=
  kind ← M_map_err A_Runtime (store_has EVM_BLOCK_IN_PROGRESS);
  match kind with
  | Some Value =>
      bs ← M_map_err A_Runtime (store_read_all EVM_BLOCK_IN_PROGRESS);
      bip ← lift (map_err A_Decoder (decode bs));
      mret (Some bip)
  | _ => mret None
  end.
Definition delete_block_in_progress : hM unit := M_map_err A_Runtime (store_delete EVM_BLOCK_IN_PROGRESS).

(** * Upgrades (upgrade.rs) *)

Definition KERNEL_UPGRADE : bytes := str "/kernel_upgrade".
Definition store_kernel_upgrade (kernel_upgrade : KernelUpgrade) : hM unit := M_map_err A_Runtime (store_write_all KERNEL_UPGRADE (rlp_bytes kernel_upgrade)).
Definition read_kernel_upgrade : hM (option KernelUpgrade) := read_optional_rlp KERNEL_UPGRADE.
Definition delete_kernel_upgrade : hM unit := M_map_err A_Runtime (store_delete KERNEL_UPGRADE).
Definition upgrade (root_hash : bytes) : hM unit :=
  _ ← M_map_err (fun msg => A_Error (UpgradeError (InternalUpgrade msg))) (InstallerConfig.evaluate (InstallerConfig.upgrade_reveal_flow root_hash));
  _ ← delete_kernel_upgrade;
  M_map_err A_Runtime mark_for_reboot.

(** * Computing a block (block.rs) *)

Inductive ComputationResult : Set := RebootNeeded | Finished.

(** The loop of [compute] over the transactions left in the queue. *)
Fixpoint compute_loop (queue : list Transaction) (bip : BlockInProgress) (block_constants : BlockConstants) (accounts_index : bytes)
    (is_first_transaction is_first_block_of_reboot : bool) : evmM (ComputationResult * BlockInProgress) :=
  match queue with
  | [] => mret (Finished, set_queue [] bip)
  | transaction :: queue =>
      let bip := set_queue queue bip in
      let data_size := data_size transaction in
      let allocated_ticks := estimate_remaining_ticks_for_transaction_execution (estimated_ticks bip) data_size in
      r ← apply_transaction block_constants transaction (bip_index bip) accounts_index allocated_ticks;
      match r with
      | Executed (mkExecutionInfo receipt_info object_info ticks) =>
          bip ← on_state (register_valid_transaction bip transaction object_info receipt_info ticks);
          compute_loop queue bip block_constants accounts_index false is_first_block_of_reboot
      | Invalid =>
          compute_loop queue (account_for_invalid_transaction data_size bip) block_constants accounts_index false is_first_block_of_reboot
      | NotEnoughTicks =>
          if is_first_transaction && is_first_block_of_reboot
          then compute_loop queue bip block_constants accounts_index false is_first_block_of_reboot
          else mret (RebootNeeded, set_queue (transaction :: queue) bip)
      end
  end.
Definition compute (bip : BlockInProgress) (block_constants : BlockConstants) (accounts_index : bytes) (is_first_block_of_reboot : bool) :
    evmM (ComputationResult * BlockInProgress) :=
  compute_loop (tx_queue bip) bip block_constants accounts_index true is_first_block_of_reboot.

(** * Producing blocks (block.rs) *)

(** The variables that [compute_bip] updates. *)
Record Current : Set := mkCurrent {
  current_constants : BlockConstants; current_block_number : N; current_block_parent_hash : bytes; tick_counter : N; first_block_of_reboot : bool
}.

(** [U256 + 1] panics on overflow. *)
Definition u256_succ {E} (n : N) : outcome E N := expect POverflow (u256_checked_add n 1).
Definition finalize_ticks (consumed_ticks : N) : N := u64 (consumed_ticks + FINALIZE_UPPER_BOUND).

Definition compute_bip (bip : BlockInProgress) (accounts_index : bytes) (cur : Current) : evmM (ComputationResult * Current) :=
  '(result, bip) ← compute bip (current_constants cur) accounts_index (first_block_of_reboot cur);
  match result with
  | RebootNeeded =>
      _ ← on_state (store_block_in_progress bip);
      _ ← on_state (M_map_err A_Runtime mark_for_reboot);
      mret (RebootNeeded, cur)
  | Finished =>
      new_block ← on_state (finalize_and_store bip);
      number ← lift (u256_succ (b_number new_block));
      let cur := mkCurrent (constants new_block (bc_chain_id (current_constants cur)) (base_fee_per_gas (current_constants cur))) number (b_hash new_block)
        (finalize_ticks (estimated_ticks bip)) false in
      _ ← on_state (M_map_err A_Error drop_head_blueprint);
      mret (Finished, cur)
  end.

(** The state of [produce]: the delayed inbox, the account storage and the host. *)
Abbreviation prodM := (M (LinkedList Hash * (Storage * S)) Anyhow).
Definition on_evm {A} (m : evmM A) : prodM A := fun '(inbox, st) => let '(o, st) := m st in (o, (inbox, st)).
Definition on_inbox {A} (m : M (LinkedList Hash * S) Anyhow A) : prodM A := fun '(inbox, (st, s)) =>
  let '(o, (inbox, s)) := m (inbox, s) in (o, (inbox, (st, s))).

Definition next_bip_from_blueprints (cur : Current) (config : Configuration) (kernel_upgrade : option KernelUpgrade) : prodM (option BlockInProgress) :=
  blueprint ← on_inbox (read_next_blueprint config);
  match blueprint with
  | Some blueprint =>
      let bip := from_blueprint blueprint (current_block_number cur) (current_block_parent_hash cur) (current_constants cur) (tick_counter cur) in
      match kernel_upgrade with
      | Some kernel_upgrade =>
          if (activation_timestamp kernel_upgrade <=? timestamp blueprint)%Z
          then _ ← on_evm (on_state (upgrade (preimage_hash kernel_upgrade))); mret None
          else mret (Some bip)
      | None => mret (Some bip)
      end
  | None => mret None
  end.

(** [while let Some(block_in_progress) = next_bip_from_blueprints(..)?]; each round makes a block. *)
Fixpoint produce_loop (fuel : nat) (accounts_index : bytes) (cur : Current) (config : Configuration) (kernel_upgrade : option KernelUpgrade) :
    prodM ComputationResult :=
  match fuel with
  | 0 => diverge
  | Datatypes.S fuel =>
      bip ← next_bip_from_blueprints cur config kernel_upgrade;
      match bip with
      | None => mret Finished
      | Some bip =>
          '(result, cur) ← on_evm (compute_bip bip accounts_index cur);
          match result with RebootNeeded => mret RebootNeeded | Finished => produce_loop fuel accounts_index cur config kernel_upgrade end
      end
  end.

(** lib.rs.  Division of [i64] truncates; [numbers] is at least 1 when it was stored. *)
Definition to_i64 (z : Z) : Z := ((z + 2 ^ 63) mod 2 ^ 64 - 2 ^ 63)%Z.
Definition current_timestamp : hM Z :=
  timestamp ← M_ok read_last_info_per_level_timestamp;
  let timestamp := default 0%Z timestamp in
  stats ← M_ok read_last_info_per_level_timestamp_stats;
  let '(numbers, total) := default (1, 0)%Z stats in
  if (numbers =? 0)%Z then panicked POverflow
  else
    let average_block_time := Z.quot total numbers in
    mret (to_i64 (timestamp + average_block_time)).

Definition FIRST_PARENT_HASH : bytes := repeat Byte.xff 32.
Definition initial_state (chain_id block_fees : N) : hM Current := fun s =>
  match read_current_block s with
  | (Ok block, s) => (number ← u256_succ (b_number block); Ok (mkCurrent (constants block chain_id block_fees) number (b_hash block) 0 true), s)
  | (Err _, s) =>
      (timestamp ← current_timestamp;
       mret (mkCurrent (first_block (Z.to_N (timestamp mod 2 ^ 64)) chain_id block_fees) 0 FIRST_PARENT_HASH 0 true)) s
  | (Panic p, s) => (Panic p, s)
  | (Diverge, s) => (Diverge, s)
  end.

(** The account storage is made anew in each run. *)
Definition produce (fuel : nat) (chain_id block_fees : N) (config : Configuration) : M (LinkedList Hash * S) Anyhow ComputationResult := fun '(inbox, s) =>
  let m : prodM ComputationResult :=
    kernel_upgrade ← on_evm (on_state read_kernel_upgrade);
    cur ← on_evm (on_state (initial_state chain_id block_fees));
    accounts_index ← on_evm (on_state (M_map_err A_Error init_account_index));
    bip ← on_evm (on_state read_block_in_progress);
    match bip with
    | None => produce_loop fuel accounts_index cur config kernel_upgrade
    | Some bip =>
        '(result, cur) ← on_evm (compute_bip bip accounts_index cur);
        match result with
        | Finished => _ ← on_evm (on_state delete_block_in_progress); produce_loop fuel accounts_index cur config kernel_upgrade
        | RebootNeeded => mret RebootNeeded
        end
    end in
  let '(o, (inbox, (_, s))) := m (inbox, (init_account_storage, s)) in (o, (inbox, s)).
End production.
