(* ===== verification/EvmBlockProps.v ===== *)
(** What producing a block preserves.

    The accounting of a block in progress, its survival of reboots, and the withdrawals that stop the kernel. *)

From S2P Require Import Prelude SdkDac Endian SdkNom SdkMichelson KernelPath KernelHost KernelRuntime KernelStorage EvmErrors Rlp EvmStorage LinkedList EthTypes EthSign EvmTx EthBlock EvmStore EvmAccounts EvmBlueprints EvmApply EvmBlock.

(** * Blocks in progress survive a reboot *)

Section codec.
Context {crate : RlpCrate} {rlaws : RlpLaws crate} {eth : EthCrates} {elaws : EthLaws eth}.

Lemma decode_items_ok {A} (f : bytes -> decoded A) (enc : A -> bytes) l : Forall (fun a => item (enc a) /\ f (enc a) = Ok a) l ->
  decode_all_items f (rlp_list (map enc l)) = Ok l.
Proof.
  intros Hl. assert (Hi : Forall item (map enc l)) by (apply Forall_map; eapply Forall_impl; [exact Hl|by intros a []]).
  unfold decode_all_items. rewrite rlp_list_is_list, rlp_list_count, rlp_list_iter by done. cbn [negb mbind outcome_bind].
  clear Hi. induction Hl as [|a l [_ Ha] Hl IH]; [done|]. cbn [map decode_items]. rewrite Ha. cbn [mbind outcome_bind]. by rewrite IH.
Qed.

Record bip_ok (b : BlockInProgress) : Prop := {
  bk_number : below 256 (bip_number b); bk_queue : Forall Transaction_ok (tx_queue b); bk_txs : Forall (sized 32) (valid_txs b);
  bk_gas : below 256 (cumulative_gas b); bk_index : below 32 (bip_index b); bk_price : below 256 (bip_gas_price b);
  bk_parent : sized 32 (bip_parent_hash b); bk_bloom : sized 256 (bip_logs_bloom b); bk_offset : below 64 (logs_offset b);
  bk_timestamp : is_i64 (bip_timestamp b)
}.

(** The ticks of a kernel run do not count for the next one. *)
Definition reset_ticks (b : BlockInProgress) : BlockInProgress :=
  mkBip (bip_number b) (tx_queue b) (valid_txs b) (cumulative_gas b) (bip_index b) (bip_gas_price b) (bip_parent_hash b) 0
    (bip_logs_bloom b) (logs_offset b) (bip_timestamp b).

Lemma bip_roundtrip b : bip_ok b -> item (rlp_bytes b) /\ decode (rlp_bytes b) = Ok (reset_ticks b).
Proof.
  destruct b as [n q v g i p ph t lb lo ts]. intros []. cbn in * |-. cbn [rlp_bytes decode BlockInProgress_codec bip_number tx_queue valid_txs
    cumulative_gas bip_index bip_gas_price bip_parent_hash bip_logs_bloom logs_offset bip_timestamp].
  assert (Hq : Forall (fun t => item (rlp_bytes t) /\ decode (rlp_bytes t) = Ok t) q)
    by (eapply Forall_impl; [exact bk_queue0|]; intros x Hx; by apply Transaction_law).
  assert (Hv : Forall (fun h => item (rlp_value h) /\ decode_tx_hash (rlp_value h) = Ok h) v)
    by (eapply Forall_impl; [exact bk_txs0|]; intros x Hx; split; [constructor|by apply decode_tx_hash_ok]).
  assert (Hqi : item (append_queue q)) by (constructor; apply Forall_map; eapply Forall_impl; [exact Hq|by intros a []]).
  assert (Hvi : item (append_txs v)) by (constructor; apply Forall_map; eapply Forall_impl; [exact Hv|by intros a []]).
  set (l := [rlp_bytes n; _; _; _; _; _; _; _; _; _]).
  assert (Hit : Forall item l) by (unfold l; forall_elements ltac:(first [assumption | by apply item_value | by apply u256_law | by apply h256_law
    | by apply bloom_law | by apply u32_law | by apply u64_law])).
  split; [by constructor|]. rewrite expect_list_ok by done. unfold l. cbn [next mbind outcome_bind].
  rewrite (decode_field_on _ _ n _ u256_law) by done. cbn [mbind outcome_bind]. unfold decode_queue, decode_valid_txs, append_queue, append_txs.
  rewrite (decode_items_ok _ _ q), (decode_items_ok _ _ v) by done. cbn [mbind outcome_bind].
  rewrite (decode_field_on _ _ g _ u256_law), (decode_field_on _ _ i _ u32_law), (decode_field_on _ _ p _ u256_law), (decode_field_on _ _ ph _ h256_law),
    (decode_field_on _ _ lb _ bloom_law), (decode_field_on _ _ lo _ u64_law), decode_timestamp_ok by done. done.
Qed.
End codec.

(** * Accounting *)

Section accounting.
Context {S : Type} {core : SmartRollupCore S} {ext : ExtendedRuntime S} {rc : RevealCore} {hex : HexCrate} {secp : Secp} {crate : RlpCrate}
  {eth : EthCrates} {fle : U256FromLe} {lc : LogCrates} {b58 : Base58Crate} {rfc : Rfc3339} {conf : EvmConfig} {outbox : OutboxCrate}
  {exec : EvmExecution (S := S)} {llaws : LogLaws lc}.
Abbreviation evmM := (M (Storage * S) Anyhow).
Abbreviation any := (fun _ : panic => True).

Lemma wp_on_state {E A} (m : M S E A) st s (Q : A -> Storage * S -> Prop) : wp any m s (fun a s' => Q a (st, s')) -> wp any (on_state m) (st, s) Q.
Proof. unfold wp, on_state. by destruct (m s) as [[] s']. Qed.
Lemma wp_true {T E A} (m : M T E A) s (Q : A -> T -> Prop) : (forall a s', Q a s') -> wp any m s Q.
Proof. intros H. unfold wp. by destruct (m s) as [[] s']. Qed.
(** The postcondition may mention the run itself. *)
Lemma wp_run {T E A} (m : M T E A) s (Q : A -> T -> Prop) : wp any m s Q -> wp any m s (fun a s' => Q a s' /\ m s = (Ok a, s')).
Proof. unfold wp. by destruct (m s) as [[] s']. Qed.
Lemma wp_call {T E E' A} (f : E -> E') (m : M T E A) s (Q : A -> T -> Prop) : (forall a s', m s = (Ok a, s') -> Q a s') -> wp any (M_map_err f m) s Q.
Proof. intros H. unfold wp, M_map_err. destruct (m s) as [[a|e|pn|] s'] eqn:Em; cbn; auto. Qed.

(** What is known of the result of applying a transaction: the hash and the index are those of the transaction, and the gas of the
    object is the gas of the outcome. *)
Definition info_ok (transaction : Transaction) (index : N) (info : ExecutionInfo) : Prop :=
  ri_tx_hash (receipt_info info) = tx_hash transaction /\ ri_index (receipt_info info) = index /\
  oi_gas_used (object_info info) = match execution_outcome (receipt_info info) with Some o => gas_used o | None => 0%N end.
Definition result_ok (r : TransactionResult) : Prop := tr_gas_used r = match tr_outcome r with Some o => gas_used o | None => 0%N end.

Lemma apply_ethereum_ok bc tx ticks st : wp any (apply_ethereum_transaction_common bc tx ticks) st
  (fun r _ => match r with Executed r => result_ok r | _ => True end).
Proof.
  unfold apply_ethereum_transaction_common. apply wp_bind, wp_true. intros v st1. destruct v; try by apply wp_ret.
  unfold execution_result, wp. destruct (run_transaction _ _ _ _ _ _ _ _ _ _) as [[[o|]|e|p|] st2]; try done. by destruct e.
Qed.
Lemma apply_transaction_ok bc tx index accounts ticks st : wp any (apply_transaction bc tx index accounts ticks) st
  (fun r _ => match r with Executed info => info_ok tx index info | _ => True end).
Proof.
  unfold apply_transaction. apply wp_bind. eapply (wp_mono _ _ _ (fun r _ => match r with Executed r => result_ok r | _ => True end)).
  - destruct (content tx) as [e|d]; [apply apply_ethereum_ok|]. apply wp_bind, wp_map_err. unfold apply_deposit. apply wp_bind, wp_true. intros a s'. by apply wp_ret.
  - intros [[c o g t]| |] st1 Hr; try by apply wp_ret. apply wp_bind, wp_true. intros _ st2. apply wp_bind, wp_lift.
    unfold make_object_info. destruct (overall_gas_price _ _); cbn [mbind outcome_bind]; try done.
    apply wp_bind, wp_true. intros _ st3. apply wp_ret. split_and!; [done..|]. exact Hr.
Qed.

(** What becomes of a transaction. *)
Inductive fate : Type := Registered (r : TransactionReceipt) | Rejected | Discarded.
Definition receipts_of (fs : list (Transaction * fate)) : list TransactionReceipt :=
  omap (fun '(_, f) => match f with Registered r => Some r | _ => None end) fs.
Definition sum_gas (rs : list TransactionReceipt) : N := foldr (fun r => N.add (r_gas_used r)) 0%N rs.

Definition next_index (index : N) (_ : TransactionReceipt) : N := ((index + 1) mod 2 ^ 32)%N.
Definition next_offset (offset : N) (r : TransactionReceipt) : N := u64 (offset + N.of_nat (length (logs r))).

(** The receipts of a block, one after the other: they are numbered, they add up the gas, and their logs are numbered. *)
Fixpoint receipts_ok (index gas offset : N) (rs : list TransactionReceipt) : Prop :=
  match rs with
  | [] => True
  | r :: rs =>
      r_index r = index /\ cumulative_gas_used r = (gas + r_gas_used r)%N /\
      map log_index (logs r) = imap (fun i _ => u64 (N.of_nat i + offset)) (logs r) /\
      r_logs_bloom r = logs_to_bloom (logs r) /\
      receipts_ok (next_index index r) (gas + r_gas_used r) (next_offset offset r) rs
  end.

(** The block in progress after the transactions with these fates. *)
Record accounted (b : BlockInProgress) (fs : list (Transaction * fate)) (b' : BlockInProgress) : Prop := {
  ac_fixed : (bip_number b', bip_parent_hash b', bip_gas_price b', bip_timestamp b') = (bip_number b, bip_parent_hash b, bip_gas_price b, bip_timestamp b);
  ac_txs : valid_txs b' = valid_txs b ++ map r_hash (receipts_of fs);
  ac_hashes : Forall (fun '(tx, f) => match f with Registered r => r_hash r = tx_hash tx /\ r_block_number r = bip_number b | _ => True end) fs;
  ac_receipts : receipts_ok (bip_index b) (cumulative_gas b) (logs_offset b) (receipts_of fs);
  ac_gas : cumulative_gas b' = (cumulative_gas b + sum_gas (receipts_of fs))%N;
  ac_bloom : bip_logs_bloom b' = foldl bloom_accrue_bloom (bip_logs_bloom b) (map r_logs_bloom (receipts_of fs));
  ac_index : bip_index b' = foldl next_index (bip_index b) (receipts_of fs);
  ac_offset : logs_offset b' = foldl next_offset (logs_offset b) (receipts_of fs)
}.

(** ** What happened to each transaction *)

(** The receipt reports the execution: its transaction, the gas used, the address created, the logs, and whether it succeeded. *)
Record reports (info : TransactionReceiptInfo) (r : TransactionReceipt) : Prop := {
  rp_fields : (r_hash r, r_index r, r_from r, r_to r, effective_gas_price r) =
    (ri_tx_hash info, ri_index info, ri_caller info, ri_to info, ri_effective_gas_price info);
  rp_outcome : (r_gas_used r, contract_address r, map log (logs r), status r) =
    match execution_outcome info with
    | Some o => (gas_used o, new_address o, e_logs o, if is_success o then Success else Failure)
    | None => (0%N, None, [], Failure)
    end
}.
(** The object describes the transaction in the block. *)
Definition describes (number : N) (info : TransactionObjectInfo) (o : TransactionObject) : Prop :=
  o_block_number o = number /\
  (o_from o, o_gas_used o, gas_price o, o_hash o, o_input o, o_nonce o, o_to o, o_index o, o_value o, o_signature o) =
  (oi_from info, oi_gas_used info, oi_gas_price info, oi_hash info, oi_input info, oi_nonce info, oi_to info, oi_index info, oi_value info, oi_signature info).

(** The transactions of a block are dealt with one after the other, from the state that the previous ones left, with some ticks
    allocated to each: applying a transaction gives its execution, whose receipt and object are then stored, or says that it is invalid,
    or that it needs more ticks. *)
Inductive dealt (bc : BlockConstants) (accounts : bytes) (number : N) : N -> Storage * S -> list (Transaction * fate) -> Storage * S -> Prop :=
  | dealt_nil index st : dealt bc accounts number index st [] st
  | dealt_registered index st tx ticks info a s r n s1 o n' s2 fs st' :
      apply_transaction bc tx index accounts ticks st = (Ok (Executed info), (a, s)) -> reports (receipt_info info) r -> describes number (object_info info) o ->
      store_transaction_receipt r s = (Ok n, s1) -> store_transaction_object o s1 = (Ok n', s2) ->
      dealt bc accounts number (next_index index r) (a, s2) fs st' -> dealt bc accounts number index st ((tx, Registered r) :: fs) st'
  | dealt_rejected index st tx ticks st1 fs st' :
      apply_transaction bc tx index accounts ticks st = (Ok Invalid, st1) ->
      dealt bc accounts number index st1 fs st' -> dealt bc accounts number index st ((tx, Rejected) :: fs) st'
  | dealt_discarded index st tx ticks st1 fs st' :
      apply_transaction bc tx index accounts ticks st = (Ok NotEnoughTicks, st1) ->
      dealt bc accounts number index st1 fs st' -> dealt bc accounts number index st ((tx, Discarded) :: fs) st'.

(** When transactions are left, the first of them was applied and needs more ticks. *)
Definition stopped_at (bc : BlockConstants) (accounts : bytes) (index : N) (st1 : Storage * S) (queue : list Transaction) (st' : Storage * S) : Prop :=
  match queue with
  | [] => st' = st1
  | tx :: _ => exists ticks, apply_transaction bc tx index accounts ticks st1 = (Ok NotEnoughTicks, st')
  end.

(** Only the first transaction of a run may be given up. *)
Definition discards_ok (first : bool) (fs : list (Transaction * fate)) : Prop :=
  Forall (fun '(_, f) => f <> Discarded) (if first then tail fs else fs).

Lemma logs_index_imap offset (ls : list Log) :
  map log_index (imap (fun i log => mkIndexedLog log (u64 (N.of_nat i + offset))) ls) =
  imap (fun i _ => u64 (N.of_nat i + offset)) (imap (fun i log => mkIndexedLog log (u64 (N.of_nat i + offset))) ls).
Proof. apply list_eq. intros i. rewrite list_lookup_fmap, !list_lookup_imap. by destruct (ls !! i). Qed.

Lemma logs_to_bloom_sized ls : sized 256 (logs_to_bloom ls).
Proof.
  unfold logs_to_bloom. assert (Hd : sized 256 bloom_default) by apply bloom_default_sized. revert Hd. generalize bloom_default.
  induction ls as [|l ls IH]; intros b Hb; [done|]. cbn [fold_left]. apply IH. generalize (log_topics (log l)). intros ts.
  assert (Ha : sized 256 (bloom_accrue b (log_address (log l)))) by (by apply bloom_accrue_sized). revert Ha. generalize (bloom_accrue b (log_address (log l))).
  induction ts as [|t ts IHt]; intros c Hc; [done|]. cbn [fold_left]. apply IHt. by apply bloom_accrue_sized.
Qed.

Lemma make_receipt_reports b info r offset : make_receipt b info = (r, offset) -> reports info r.
Proof.
  destruct info as [h i o f t p]. destruct o as [o|]; intros [= <- <-]; split; cbn; try done. do 2 f_equal. clear.
  generalize (logs_offset b). intros k. apply list_eq. intros i. rewrite list_lookup_fmap, list_lookup_imap. by destruct (e_logs o !! i).
Qed.

(** Registering a transaction adds its receipt, and stores it with the object. *)
Lemma register_ok b tx info s : info_ok tx (bip_index b) info -> below 64 (logs_offset b) ->
  wp any (register_valid_transaction b tx (object_info info) (receipt_info info) (info_ticks info)) s (fun b' s2 => exists r,
    tx_queue b' = tx_queue b /\ accounted b [(tx, Registered r)] b' /\ (bip_ok b -> Transaction_ok tx -> bip_ok b') /\
    exists n s1 o n', reports (receipt_info info) r /\ describes (bip_number b) (object_info info) o /\
      store_transaction_receipt r s = (Ok n, s1) /\ store_transaction_object o s1 = (Ok n', s2)).
Proof.
  intros (Hh&Hi&Hg) Hoff. unfold register_valid_transaction. apply wp_bind, wp_lift. unfold add_gas, u256_checked_add.
  destruct (N.ltb_spec (cumulative_gas b + oi_gas_used (object_info info)) (2 ^ 256)) as [Hlt|]; [|done]. cbn [ok_or mbind outcome_bind map_err].
  destruct (receipt_info info) as [h i o f t p]. cbn in Hh, Hi, Hg. subst h i. set (b1 := push_valid _ _).
  destruct (make_receipt b1 _) as [r offset] eqn:Er. apply wp_bind, wp_call. intros rs s1 E1. apply wp_bind, wp_call. intros os s2 E2. apply wp_ret. exists r.
  assert (H : offset = u64 (logs_offset b + N.of_nat (length (logs r))) /\ r_index r = bip_index b /\ r_hash r = tx_hash tx /\ r_block_number r = bip_number b /\
    cumulative_gas_used r = (cumulative_gas b + oi_gas_used (object_info info))%N /\ r_gas_used r = oi_gas_used (object_info info) /\
    map log_index (logs r) = imap (fun i _ => u64 (N.of_nat i + logs_offset b)) (logs r) /\ r_logs_bloom r = logs_to_bloom (logs r)).
  { destruct o as [o|]; injection Er as <- <-; split_and!; try done; try apply logs_index_imap.
    cbn. unfold u64. rewrite N.add_0_r, N.mod_small by done. done. }
  destruct H as (->&Ei&Eh&En&Ec&Eg&El&Eb). split_and!; [done| | |].
  - split; cbn [receipts_of omap list_omap map receipts_ok foldl sum_gas foldr]; try done.
    + by rewrite Eh.
    + by constructor.
    + by rewrite Ec, Eg.
    + by rewrite Eg, N.add_0_r.
  - intros [] [Htx _]. split; try done.
    + apply Forall_app. split; [done|]. by constructor.
    + apply N.mod_lt. done.
    + apply bloom_accrue_bloom_sized; [done|]. rewrite Eb. apply logs_to_bloom_sized.
    + apply N.mod_lt. done.
  - eexists rs, s1, (make_object _ (object_info info)), os. split; [by eapply make_receipt_reports|]. split; [|split; [exact E1|exact E2]]. done.
Qed.

Lemma accounted_nil b b' :
  (bip_number b', bip_parent_hash b', bip_gas_price b', bip_timestamp b', valid_txs b', cumulative_gas b', bip_logs_bloom b', bip_index b', logs_offset b') =
  (bip_number b, bip_parent_hash b, bip_gas_price b, bip_timestamp b, valid_txs b, cumulative_gas b, bip_logs_bloom b, bip_index b, logs_offset b) ->
  accounted b [] b'.
Proof. intros [= H1 H2 H3 H4 H5 H6 H7 H8 H9]. split; cbn; rewrite ?app_nil_r, ?N.add_0_r; try done. congruence. Qed.

Lemma receipts_of_app fs gs : receipts_of (fs ++ gs) = receipts_of fs ++ receipts_of gs.
Proof. apply omap_app. Qed.
Lemma sum_gas_app rs rs' : sum_gas (rs ++ rs') = (sum_gas rs + sum_gas rs')%N.
Proof. induction rs as [|r rs IH]; [done|]. cbn [app sum_gas foldr]. change (foldr _ _ ?l) with (sum_gas l). rewrite IH. lia. Qed.
Lemma receipts_ok_app rs rs' : forall index gas offset, receipts_ok index gas offset (rs ++ rs') <->
  receipts_ok index gas offset rs /\ receipts_ok (foldl next_index index rs) (gas + sum_gas rs) (foldl next_offset offset rs) rs'.
Proof.
  induction rs as [|r rs IH]; intros index gas offset; cbn [app receipts_ok foldl sum_gas foldr]; [rewrite N.add_0_r; naive_solver|].
  rewrite IH, N.add_assoc. change (foldr _ _ ?l) with (sum_gas l). tauto.
Qed.

(** Accounts compose. *)
Lemma accounted_app b fs b1 gs b2 : accounted b fs b1 -> accounted b1 gs b2 -> accounted b (fs ++ gs) b2.
Proof.
  intros [[= F1 F2 F3 F4] T1 Hh1 Hr1 G1 B1 I1 O1] [[= F1' F2' F3' F4'] T2 Hh2 Hr2 G2 B2 I2 O2]. split; rewrite ?receipts_of_app.
  - congruence.
  - by rewrite T2, T1, map_app, app_assoc.
  - apply Forall_app. split; [done|]. eapply Forall_impl; [exact Hh2|]. intros [tx [r| |]]; [|done..]. by rewrite F1.
  - apply receipts_ok_app. split; [done|]. by rewrite <- I1, <- O1, <- G1.
  - rewrite G2, G1, sum_gas_app. lia.
  - by rewrite B2, B1, map_app, foldl_app.
  - by rewrite I2, I1, foldl_app.
  - by rewrite O2, O1, foldl_app.
Qed.
Lemma accounted_skip b tx f b' : receipts_of [(tx, f)] = [] -> accounted b [] b' -> accounted b [(tx, f)] b'.
Proof. intros E []. split; rewrite ?E; try done. constructor; [|done]. by destruct f. Qed.
Lemma accounted_offset b fs b' : accounted b fs b' -> below 64 (logs_offset b) -> below 64 (logs_offset b').
Proof.
  intros Ha Hb. rewrite (ac_offset _ _ _ Ha). destruct (receipts_of fs) as [|r rs] using rev_ind; [done|]. rewrite foldl_app. cbn. apply N.mod_lt. done.
Qed.

(** Where a run of the loop ends. *)
Definition loop_post (bc : BlockConstants) (accounts : bytes) (b : BlockInProgress) (queue : list Transaction) (fresh : bool) (st : Storage * S)
    (r : ComputationResult * BlockInProgress) (st' : Storage * S) : Prop :=
  let '(result, b') := r in
  exists fs, queue = map fst fs ++ tx_queue b' /\ (result = Finished <-> tx_queue b' = []) /\ accounted b fs b' /\ discards_ok fresh fs /\
    (exists st1, dealt bc accounts (bip_number b) (bip_index b) st fs st1 /\ stopped_at bc accounts (bip_index b') st1 (tx_queue b') st') /\
    (fresh = true -> queue <> [] -> fs <> []) /\ (bip_ok b -> Forall Transaction_ok queue -> bip_ok b').

Lemma loop_step bc accounts b b1 tx f queue fresh st st1 r st' : discards_ok fresh [(tx, f)] -> accounted b [(tx, f)] b1 ->
  (bip_ok b -> Transaction_ok tx -> Forall Transaction_ok queue -> bip_ok b1) ->
  (forall fs st2, dealt bc accounts (bip_number b) (bip_index b1) st1 fs st2 -> dealt bc accounts (bip_number b) (bip_index b) st ((tx, f) :: fs) st2) ->
  loop_post bc accounts b1 queue false st1 r st' ->
  loop_post bc accounts b (tx :: queue) fresh st r st'.
Proof.
  destruct r as [result b']. intros Hd Ha Hk Hdealt (fs&Eq&Hr&Ha'&Hd'&(st2&Hst&Hstop)&_&Hk'). exists ((tx, f) :: fs). split_and!; try done.
  - cbn. by rewrite Eq.
  - by apply (accounted_app _ [(tx, f)] b1).
  - unfold discards_ok in *. destruct fresh; cbn [tail] in *; [done|]. apply Forall_cons in Hd as [Hd _]. by constructor.
  - exists st2. split; [|done]. apply Hdealt. pose proof (ac_fixed _ _ _ Ha) as [= E _ _ _]. by rewrite <- E.
  - intros Hb [Ht Hq]%Forall_cons. by apply Hk'; [apply Hk|].
Qed.

Lemma loop_ok queue : forall b bc accounts first fb st, below 64 (logs_offset b) ->
  wp any (compute_loop queue b bc accounts first fb) st (loop_post bc accounts b queue (first && fb) st).
Proof.
  induction queue as [|tx queue IH]; intros b bc accounts first fb st Hoff; cbn [compute_loop].
  { apply wp_ret. exists []. split_and!; try done; [by apply accounted_nil|unfold discards_ok; destruct (first && fb); constructor| |by intros [] ?; split].
    exists st. by split; [constructor|]. }
  set (b0 := set_queue queue b). assert (Hb0 : accounted b [] b0) by (by apply accounted_nil).
  assert (Hk0 : bip_ok b -> Forall Transaction_ok queue -> bip_ok b0) by (intros [] ?; by split).
  apply wp_bind. eapply wp_mono; [apply wp_run, apply_transaction_ok|]. intros [[ri oi t]| |] st1 [Hinfo Hrun]; cbn beta iota in Hinfo.
  - apply wp_bind. destruct st1 as [a s1]. apply wp_on_state. eapply wp_mono; [apply (register_ok b0 tx (mkExecutionInfo ri oi t)); done|].
    intros b1 s2 (r&_&Ha&Hk&n&s1'&o&n'&Hrep&Hdes&E1&E2). eapply wp_mono; [apply IH; by eapply (accounted_offset b0)|].
    intros res s3 Hres. apply (loop_step _ _ b b1 tx (Registered r) _ _ _ (a, s2)).
    + unfold discards_ok. destruct (first && fb); by repeat constructor.
    + apply (accounted_app _ _ _ _ _ Hb0 Ha).
    + intros Hb Ht Hq. apply Hk; [by apply Hk0|done].
    + intros fs st2. rewrite (ac_index _ _ _ Ha). by eapply dealt_registered.
    + by rewrite andb_false_l in Hres.
  - eapply wp_mono; [by apply IH|]. intros res s3 Hres. eapply (loop_step _ _ b _ tx Rejected); [| | | |by rewrite andb_false_l in Hres].
    + unfold discards_ok. destruct (first && fb); by repeat constructor.
    + by apply accounted_skip, accounted_nil.
    + intros Hb Ht Hq. destruct (Hk0 Hb Hq). by split.
    + intros fs st2. by eapply dealt_rejected.
  - destruct (first && fb) eqn:Ef.
    + eapply wp_mono; [by apply IH|]. intros res s3 Hres. eapply (loop_step _ _ b _ tx Discarded); [| | | |by rewrite andb_false_l in Hres].
      * by repeat constructor.
      * by apply accounted_skip.
      * auto.
      * intros fs st2. by eapply dealt_discarded.
    + apply wp_ret. exists []. split_and!; try done; [by apply accounted_nil|constructor| |intros [] Hq; by split].
      exists st. split; [constructor|]. eexists. exact Hrun.
Qed.
Lemma compute_post b bc accounts fb st : below 64 (logs_offset b) ->
  wp any (compute b bc accounts fb) st (loop_post bc accounts b (tx_queue b) fb st).
Proof. intros Hb. apply (loop_ok (tx_queue b) b bc accounts true fb st Hb). Qed.

(** C16: the accounts of a block are right.  When computing a block in progress returns, the queue was split in transactions that were
    dealt with, in order, and transactions that are left, and none is left exactly when the block is finished.  Each
    transaction dealt with was applied, with the next index, in the state the previous ones left: either it was executed, and a receipt that reports
    this execution (sender, gas used, address created, logs, success) and an object that describes it were stored; or it was
    invalid and rejected; or it needed more ticks and was discarded, which only the first transaction of the first
    block of a kernel run can be.  When transactions are left, the first of them was applied and needs more ticks.  The hashes of the
    block are those of the receipts, which carry the hashes of their transactions and the number of the block; the receipts are
    numbered in order, their cumulative gas is the sum of the gas used so far, which is what the block reports at the end, their logs are
    numbered through the block, and the bloom filter of the block accrues theirs. *)
Theorem block_accounting b bc accounts fb st result b' st' : below 64 (logs_offset b) ->
  compute b bc accounts fb st = (Ok (result, b'), st') ->
  exists fs st1, tx_queue b = map fst fs ++ tx_queue b' /\ (result = Finished <-> tx_queue b' = []) /\ accounted b fs b' /\ discards_ok fb fs /\
    dealt bc accounts (bip_number b) (bip_index b) st fs st1 /\ stopped_at bc accounts (bip_index b') st1 (tx_queue b') st'.
Proof.
  intros Hb E. pose proof (compute_post b bc accounts fb st Hb) as H. unfold wp in H. rewrite E in H. destruct H as (fs&?&?&?&?&(st1&?&?)&_). eauto 10.
Qed.

(** ** Reboots *)

(** At most [n] kernel runs that work on a block in progress, which is encoded and decoded between them.  This is not a function of the kernel: [compute_bip], [produce], [store_block_in_progress]
    and [read_block_in_progress] do the same around [compute], with the encoding in a value of the durable storage. *)
Fixpoint resume (n : nat) (b : BlockInProgress) (bc : BlockConstants) (accounts : bytes) : evmM (option BlockInProgress) :=
  match n with
  | 0 => mret None
  | Datatypes.S n =>
      '(result, b) ← compute b bc accounts true;
      match result with
      | Finished => mret (Some b)
      | RebootNeeded => b ← lift (map_err A_Decoder (decode (rlp_bytes b))); resume n b bc accounts
      end
  end.

Lemma reset_accounted b : accounted b [] (reset_ticks b).
Proof. by apply accounted_nil. Qed.

(** C17: reboots lose no transaction, and a block is finished after at most as many kernel runs as it has transactions, and one.
    Whatever transactions run out of ticks, and so wherever reboots happen, unless there is an error the block gets finished, and
    then its accounts are those of the whole queue: every transaction has exactly one fate, in the order of the queue, and the
    receipts, hashes, gas, logs and bloom filter are those of one block. *)
Theorem reboots_finish_block {rlaws : RlpLaws crate} {elaws : EthLaws eth} n b bc accounts st : bip_ok b -> length (tx_queue b) <= n ->
  match resume (Datatypes.S n) b bc accounts st with
  | (Ok (Some b'), _) => exists fs, tx_queue b = map fst fs /\ tx_queue b' = [] /\ accounted b fs b'
  | (Ok None, _) => False
  | _ => True
  end.
Proof.
  revert b st. induction n as [|n IH]; intros b st Hb Hn; cbn [resume]; unfold mbind, M_bind;
    pose proof (compute_post b bc accounts true st (bk_offset b Hb)) as H; unfold wp in H; destruct (compute b bc accounts true st) as [[[result b1]|e|p|] st1];
    try done; destruct H as (fs&Eq&Hr&Ha&_&_&Hp&Hk); (destruct result; [|exists fs; split_and!; [by rewrite Eq, (proj1 Hr eq_refl), app_nil_r|by apply Hr|done]]).
  all: assert (Hne : tx_queue b1 <> []) by (by intros E%Hr).
  - exfalso. destruct (tx_queue b); [|cbn in Hn; lia]. symmetry in Eq. apply app_eq_nil in Eq as [_ Eq]. done.
  - assert (Hb1 : bip_ok b1) by (apply Hk; [done|apply Hb]). unfold lift. rewrite (proj2 (bip_roundtrip b1 Hb1)). cbn [map_err].
    assert (Hfs : fs <> []) by (apply Hp; [done|]; intros E; rewrite E in Eq; symmetry in Eq; apply app_eq_nil in Eq as [_ Eq]; done).
    specialize (IH (reset_ticks b1) st1). cbn [resume] in IH. unfold mbind, M_bind in IH.
    assert (Hlen : length (tx_queue (reset_ticks b1)) <= n) by (cbn; rewrite Eq, length_app, length_map in Hn; destruct fs; [done|]; cbn in Hn; lia).
    specialize (IH ltac:(by destruct Hb1; split) Hlen). destruct (match _ with (Ok _, _) => _ | _ => _ end) as [[[b2|]|e|p|] st2]; try done.
    destruct IH as (gs&Eq2&E2&Ha2). exists (fs ++ gs). split_and!; [by rewrite map_app, Eq, <- Eq2|done|].
    rewrite <- (app_nil_l gs), app_assoc. apply (accounted_app _ _ (reset_ticks b1)); [|done]. by apply (accounted_app _ _ b1), reset_accounted.
Qed.
(** * Withdrawals *)

(** C39: a withdrawal of less than one mutez stops the kernel.  Let the next transaction of the queue be executed with
    success, with a first withdrawal of less than [10^12] wei.  Then computing the block fails with an error, because a
    ticket must have a positive amount: the transaction is neither registered nor rejected, and neither are those that follow.
    (An error of [compute] makes the kernel drop all the changes of the run.) *)
Theorem dust_withdrawal_stops_kernel b bc accounts fb tx e queue r o w ws ticketer st a s s' : tx_queue b = tx :: queue -> content tx = Ethereum e ->
  apply_ethereum_transaction_common bc e (estimate_remaining_ticks_for_transaction_execution (estimated_ticks b) (data_size tx)) st = (Ok (Executed r), (a, s)) ->
  tr_outcome r = Some o -> withdrawals o = w :: ws -> (w_amount w < 10 ^ 12)%N -> read_ticketer s = (Ok (Some ticketer), s') ->
  compute b bc accounts fb st = (Err (A_Error (E_Encoding (InvalidAmount 0))), (a, s')).
Proof.
  intros Eq Ec Ea Eo Ew Hw Et. unfold compute. rewrite Eq. cbn [compute_loop]. unfold mbind, M_bind, apply_transaction. rewrite Ec. unfold mbind, M_bind.
  cbn [set_queue estimated_ticks]. rewrite Ea. destruct r as [c ro g t]. cbn in Eo. subst ro. unfold kernel_error, on_state, M_map_err, post_withdrawals. rewrite Ew.
  unfold mbind, M_bind. rewrite Et. cbn [post_each]. rewrite (N.div_small _ _ Hw). done.
Qed.
End accounting.
