(* ===== verification/EvmExecRuns.v ===== *)
(** Transactions executed on the in-memory host.

    A virtual machine that does what the data of the transaction say, with which blocks are computed; then a small machine with a few opcodes and
    a gasometer; and runs of the theorems and of the code with them. *)

From S2P Require Import Prelude Endian KernelPath KernelHost KernelRuntime KernelStore KernelStoreLaws KernelStorage KernelTransactions SdkNom SdkMichelson Rlp EvmErrors EvmStorage LinkedList EthTypes EthSign EvmTx EthBlock EvmStore EvmBlueprints EvmExamples EvmAccounts EvmApply EvmTicks EvmBlockHashes EvmHandler EvmPrecompiles EvmExec EvmWorld EvmExecProps EvmTransfers EvmBlock EvmBlockProps.

Module Machine.
#[global] Instance conf : EvmConfig := {
  gas_transaction_create := 53000; gas_transaction_call := 21000; gas_transaction_zero_data := 4; gas_transaction_non_zero_data := 16;
  stack_limit := 1024; call_l64_after_gas := true; call_stipend := 2300
}.
#[global] Instance outbox : OutboxCrate := { burn_message ticketer target amount := Ok (ticketer ++ target ++ le_bytes 8 amount) }.
#[global] Instance b58 : Base58Crate := {
  B58Err := unit; InvalidBase58 := tt; from_base58check := Ok; base58check_prefix _ := []; hash_from_b58check _ := Ok; hash_to_b58check _ := id
}.

(** The ticks that were allocated are added to a list at [/allocated]. *)
Definition SPENT : bytes := str "/allocated".
Definition note (ticks : N) : M Store EthereumError unit :=
  size ← M_ok (store_value_size SPENT);
  _ ← M_ok (store_write SPENT (le_bytes 8 ticks) (default 0 size));
  mret tt.
Definition outcome (ws : list Withdrawal) (ticks : N) : ExecutionOutcome :=
  mkOutcome _ 21000 true (ExitSucceeded Returned) None [(repeat Byte.x0a 20, [str "topic"])] None ws ticks.
#[global] Instance exec : EvmExecution (S := Store) := {
  run_transaction bc to caller data gas price value pay ticks :=
    _ ← on_state (note ticks);
    if bool_decide (data = str "slow") then fail OutOfTicks
    else if bool_decide (data = str "dust") then mret (Some (outcome [mkWithdrawal (str "tz1") 5] 1000))
    else if bool_decide (data = str "busy") then mret (Some (outcome [] ticks))
    else mret (Some (outcome [] 1000))
}.

(** A signed transaction with the data. *)
Definition tx (h : byte) (data : bytes) : Transaction :=
  let unsigned := mkTx Legacy (Some 1337%N) 0 0 0 30000 None 0 data [] None in
  mkTransaction (repeat h 32) (Ethereum (match sign_transaction unsigned [Byte.x01] with Ok tx => tx | _ => unsigned end)).
Definition bc : BlockConstants := first_block 12 1337 0.
Definition bip (queue : list Transaction) : BlockInProgress := new_with_ticks 0 (repeat Byte.xff 32) 0 queue 0 12.
Definition state : Storage * Store := (init_account_storage, empty_host).
Definition deposit : Transaction := mkTransaction (repeat Byte.x07 32) (TDeposit (mkDeposit 12 (repeat Byte.x0d 20))).
Definition accounts : bytes := str "/indexes/accounts".
End Machine.

Module Queue.
Definition queue : list Transaction := [Machine.tx Byte.x01 (str "ok"); Machine.deposit; Machine.tx Byte.x02 (str "slow"); Machine.tx Byte.x03 []].
Abbreviation run := (compute (S := Store) (Machine.bip queue) Machine.bc Machine.accounts true Machine.state).
Lemma run_left : match run.1 with Ok (RebootNeeded, b) => map tx_hash (tx_queue b) | _ => [] end = [repeat Byte.x02 32; repeat Byte.x03 32].
Proof. vm_compute. reflexivity. Qed.
End Queue.

(** Two transactions are registered; the third needs too many ticks and waits for the next run with the last. *)
Lemma block_accounting_witness : exists fs b' st1 st', Queue.queue = map fst fs ++ tx_queue b' /\ accounted (Machine.bip Queue.queue) fs b' /\
  dealt (S := Store) Machine.bc Machine.accounts 0 0 Machine.state fs st1 /\
  stopped_at (S := Store) Machine.bc Machine.accounts (bip_index b') st1 (tx_queue b') st' /\
  map tx_hash (tx_queue b') = [repeat Byte.x02 32; repeat Byte.x03 32].
Proof.
  pose proof Queue.run_left as Hrun. destruct Queue.run as [[[[] b']|e|p|] st'] eqn:E; try discriminate Hrun.
  destruct (block_accounting (S := Store) (Machine.bip Queue.queue) Machine.bc Machine.accounts true Machine.state RebootNeeded b' st')
    as (fs&st1&H1&_&H2&_&H3&H4); [vm_compute; reflexivity|exact E|].
  exists fs, b', st1, st'. split; [exact H1|]. split; [exact H2|]. split; [exact H3|]. split; [exact H4|exact Hrun].
Defined.

Module Reboots.
Lemma tx_ok h (d : bytes) : (d = str "ok" \/ d = str "slow" \/ d = []) -> Transaction_ok (Machine.tx h d).
Proof.
  intros Hd. split; [done|]. destruct Hd as [->|[->| ->]]; (split; [split; vm_compute; try done; constructor|vm_compute; try done]).
Qed.
Lemma queue_ok : bip_ok (Machine.bip Queue.queue).
Proof.
  split; try (by vm_compute); try (by constructor).
  unfold Queue.queue. cbn [tx_queue Machine.bip new_with_ticks]. repeat (apply Forall_cons_2; [first [apply tx_ok; by auto | split; [done|by split]]|]). apply Forall_nil_2.
Qed.
Lemma run_ends : match (resume (S := Store) 5 (Machine.bip Queue.queue) Machine.bc Machine.accounts Machine.state).1 with
  | Ok (Some b) => valid_txs b | _ => [] end = [repeat Byte.x01 32; repeat Byte.x07 32; repeat Byte.x03 32].
Proof. vm_compute. reflexivity. Qed.
End Reboots.

(** The second run gives up the transaction that needs too many ticks. *)
Lemma reboots_finish_block_witness : exists fs b', Queue.queue = map fst fs /\ accounted (Machine.bip Queue.queue) fs b' /\
  valid_txs b' = [repeat Byte.x01 32; repeat Byte.x07 32; repeat Byte.x03 32].
Proof.
  pose proof Reboots.run_ends as Hrun.
  pose proof (reboots_finish_block (S := Store) 4 (Machine.bip Queue.queue) Machine.bc Machine.accounts Machine.state Reboots.queue_ok ltac:(vm_compute; lia)) as H.
  destruct (resume (S := Store) 5 (Machine.bip Queue.queue) Machine.bc Machine.accounts Machine.state) as [[[b'|]|e|p|] st'] eqn:E; try discriminate Hrun.
  destruct H as (fs&H1&_&H2). exists fs, b'. split; [exact H1|]. split; [exact H2|exact Hrun].
Defined.

(** A transaction that is given up is not paid for.  The first transaction of a kernel run needs more ticks than a run has and is discarded;
    the ticks it was allocated are not added to the estimate, so the next transaction is allocated as many again.  Together they
    may spend more ticks than the rollup node allows for a kernel run. *)
Theorem discarded_ticks_not_counted :
  let r := compute (S := Store) (Machine.bip [Machine.tx Byte.x01 (str "slow"); Machine.tx Byte.x02 (str "busy")]) Machine.bc Machine.accounts true Machine.state in
  exists t1 t2, (store_read_all Machine.SPENT r.2.2).1 = Ok (le_bytes 8 t1 ++ le_bytes 8 t2) /\
    match r.1 with Ok (Finished, b) => valid_txs b | _ => [] end = [repeat Byte.x02 32] /\ (MAX_ALLOWED_TICKS < MAX_TICKS < t1 + t2)%N.
Proof. exists 8448541120%N, 8448541120%N. vm_compute. repeat split; reflexivity. Qed.

Module Dust.
Definition tx : Transaction := Machine.tx Byte.x01 (str "dust").
Definition eth_tx : EthereumTransactionCommon := match content tx with Ethereum e => e | _ => Eth.create end.
Definition state : Storage * Store := (init_account_storage, (store_write TICKETER (repeat Byte.x4b 36) 0 empty_host).2).
Definition ticks : N := estimate_remaining_ticks_for_transaction_execution 0 4.
Abbreviation applied := (apply_ethereum_transaction_common (S := Store) Machine.bc eth_tx ticks state).
Lemma applied_ws : match applied.1 with Ok (Executed r) => withdrawals <$> tr_outcome r | _ => None end = Some [mkWithdrawal (str "tz1") 5].
Proof. vm_compute. reflexivity. Qed.
Lemma ticketer : (read_ticketer applied.2.2).1 = Ok (Some (repeat Byte.x4b 36)).
Proof. vm_compute. reflexivity. Qed.
End Dust.

Lemma dust_withdrawal_stops_kernel_witness :
  (compute (S := Store) (Machine.bip [Dust.tx; Machine.deposit]) Machine.bc Machine.accounts true Dust.state).1 = Err (A_Error (E_Encoding (InvalidAmount 0))).
Proof.
  pose proof Dust.applied_ws as Hw. pose proof Dust.ticketer as Ht. destruct Dust.applied as [[[r| |]|e|p|] [a s]] eqn:E; try discriminate Hw.
  cbn [fst snd] in Hw, Ht. destruct (tr_outcome r) as [o|] eqn:Eo; [|cbn in Hw; discriminate Hw]. cbn [fmap option_fmap option_map] in Hw. injection Hw as Hw.
  destruct (read_ticketer s) as [t s'] eqn:Es. cbn [fst] in Ht. subst t.
  rewrite (dust_withdrawal_stops_kernel (S := Store) (Machine.bip [Dust.tx; Machine.deposit]) Machine.bc Machine.accounts true Dust.tx Dust.eth_tx [Machine.deposit] r o
    (mkWithdrawal (str "tz1") 5) [] (repeat Byte.x4b 36) Dust.state a s s' eq_refl eq_refl E Eo Hw eq_refl Es). reflexivity.
Defined.

(** * The crates *)

Module Toy.
(** The gas limit and the gas used. *)
Definition meter : Type := N * N.
Definition used (g : meter) : N := N.min g.2 g.1.
Definition spend (c : N) : M meter ExitError unit := fun g =>
  if (used g + c <=? g.1)%N then (Ok tt, (g.1, used g + c)%N) else (Err (CrateExitError 1), (g.1, g.1)).
#[global] Instance gasometer_crate : GasometerCrate := {
  Gasometer := meter; GasCost := N; MemoryCost := unit; gasometer_new l := (l, 0%N); total_used_gas := used; gas g := (g.1 - used g)%N;
  gasometer_record_cost := spend; gasometer_record_deposit n := spend (200 * N.of_nat n); gasometer_record_dynamic_cost c _ := spend c;
  gasometer_record_stipend n := fun g => (Ok tt, (g.1, used g - n)%N)
}.
Lemma spend_limit c g : (spend c g).2.1 = g.1.
Proof. unfold spend. by destruct (_ <=? _)%N. Qed.
#[global] Instance gas_laws : GasLaws gasometer_crate.
Proof. refine {| g_limit := fst : Gasometer -> N |}; intros; try done; try apply spend_limit. cbn. unfold used. lia. Defined.
#[global] Instance gas_count_laws : GasCountLaws gasometer_crate.
Proof.
  split. intros c l H. cbn in *. unfold spend, used. cbn. rewrite (proj2 (N.leb_le _ _)) by lia. eexists. split; [done|]. cbn. lia.
Qed.
#[global] Instance debug : DebugFormat := { debug_error _ := str "error" }.

(** Numbers for the points of the curve. *)
#[global] Instance precompile_crates : PrecompileCrates := {
  sha256 bs := take 32 (bs ++ repeat Byte.x00 32); ripemd160 bs := take 20 (bs ++ repeat Byte.x00 20); modexp b e m := m; contract_from_b58check := Some;
  Fq := N; Fq2 := N * N; Fr := N; G1 := N * N; G2 := N; Gt := N;
  fq_from_slice bs := let n := of_be_bytes bs in if (n <? 97)%N then Some n else None; fq_is_zero := N.eqb 0; fq_to_big_endian := be_bytes 32;
  fr_from_slice bs := Some (of_be_bytes bs); g1_zero := (0, 0)%N; g1_add a b := ((a.1 + b.1) mod 97, (a.2 + b.2) mod 97)%N; g1_mul a n := ((a.1 * n) mod 97, (a.2 * n) mod 97)%N;
  affine_g1_new x y := if (x =? y)%N then Some (x, y) else None; affine_g1_from_jacobian p := if (p.1 =? 0)%N then None else Some p;
  fq2_new := pair; fq2_is_zero p := (p.1 =? 0)%N && (p.2 =? 0)%N; g2_zero := 0%N; affine_g2_new a b := Some a.1;
  gt_one := 1%N; gt_mul := N.mul; gt_eqb := N.eqb; pairing a b := (a.1 + b + 1)%N
}.

(** The code left to execute, the whole code, the context and the returned value. *)
Record machine : Set := mkMachine { left_code : bytes; all_code : bytes; context : Context; returned : bytes }.
Definition jump (code : bytes) (m : machine) : machine := mkMachine code (all_code m) (context m) (returned m).
Definition SLOT : bytes := repeat Byte.x01 32.
(** The init code of [CREATE]: two opcodes that loop. *)
Definition LOOP : bytes := [Byte.x5b; Byte.x56].
Definition result_of {A} (m : machine) (k : Prog (HandlerE unit) (machine * StepResult)) (r : ExitError + A) : Prog (HandlerE unit) (machine * StepResult) :=
  match r with inl e => Ret (m, Exit (ExitFailed e)) | inr _ => k end.
(** After the cost of the opcode is recorded: [SSTORE], [JUMP] to the beginning, [CREATE], [REVERT]; others do nothing. *)
Definition effect (op : byte) (next m : machine) : Prog (HandlerE unit) (machine * StepResult) :=
  if bool_decide (op = Byte.x55) then Ask (SetStorage (ctx_address (context m)) SLOT SLOT) (result_of m (Ret (next, Continue)))
  else if bool_decide (op = Byte.x56) then Ret (jump (all_code m) m, Continue)
  else if bool_decide (op = Byte.xf0) then
    let caller := ctx_address (context m) in Ask (Create caller (SchemeLegacy caller) 0 LOOP None) (fun _ => Ret (next, Continue))
  else if bool_decide (op = Byte.xfd) then Ret (m, Exit (ExitReverted Reverted))
  else Ret (next, Continue).
#[global] Instance vm : Sputnik := {
  Machine := machine; Stack := unit; machine_new code data context := mkMachine code code context []; inspect m := head (left_code m);
  step m := match left_code m with
    | [] => Ret (m, Exit (ExitSucceeded Stopped))
    | op :: code => Ask (PreValidate (context m) op tt) (result_of m (effect op (jump code m) m))
    end;
  return_value := returned; static_opcode_cost op := if bool_decide (op = Byte.x55) then None else Some 3%N;
  dynamic_opcode_cost address op stack static := Ask (QStorage address SLOT) (fun v => Ret (inr (if bool_decide (v = SLOT) then 100%N else 20000%N, None)));
  log_new address topics data := (address, topics)
}.
#[global] Instance empty_code : EmptyCodeLaws vm.
Proof. split; [done|]. intros data ctx. by eexists. Qed.
#[global] Instance vm_laws : SputnikLaws vm.
Proof.
  split. intros m. cbn [step vm]. destruct (left_code m) as [|op code]; [constructor|]. constructor; [done|]. intros [e|[]]; cbn [result_of]; [constructor|]. unfold effect.
  repeat case_bool_decide; repeat constructor. intros [e|[]]; constructor.
Qed.
End Toy.

(** * Worlds with one caller and one contract *)

Module World.
Abbreviation pre := EVM_ACCOUNTS_PATH.
Definition caller : bytes := repeat Byte.xca 20.
Definition contract : bytes := repeat Byte.xc0 20.
Definition funds : N := 10 ^ 18.
Definition account_file (a name : bytes) : bytes := pre ++ str "/" ++ hex_encode a ++ str "/" ++ name.
Definition rich : Store := (store_write (account_file caller (str "balance")) (le_bytes 32 funds) 0 empty_host).2.
Definition host (code : bytes) : Store := (store_write_all (account_file contract (str "code")) code rich).2.
Definition nothing : view := fun _ => None.
Definition rich_map : view := credit caller funds nothing.
Definition map_with (code : bytes) : view := set_view (code_steps contract) code rich_map.

Lemma nothing_sim : sim pre init_account_storage empty_host [nothing].
Proof.
  apply sim_intro; try done.
  - apply empty_host_ok.
  - intros r. apply empty_host_value.
  - intros j r _ _. apply empty_host_value.
  - intros m r v Hm. apply list_elem_of_singleton in Hm as ->. done.
Qed.
Lemma file_in_layer a name r : path_ok (account_file a name) -> path_steps (account_file a name) = path_steps pre ++ r -> in_layer pre 1 (account_file a name) r.
Proof. by split. Qed.
Lemma rich_sim : sim pre init_account_storage rich [rich_map].
Proof.
  pose proof (top_write_word init_account_storage [] empty_host nothing (account_file caller (str "balance")) (balance_steps caller) funds nothing_sim) as H.
  unfold ends, ac_runtime, M_map_err in H. unfold rich. change (le_bytes WORD_SIZE funds) with (le_bytes 32 funds) in H.
  assert (Hl : in_layer pre 1 (account_file caller (str "balance")) (balance_steps caller)) by (apply file_in_layer; [apply path_ok_compute|]; by vm_compute).
  specialize (H Hl). destruct (store_write _ _ _ _) as [[[]|e|p|] s']; done.
Qed.
Lemma host_sim code : size_ok (length code) -> sim pre init_account_storage (host code) [map_with code].
Proof.
  intros Hc. pose proof (top_write_all init_account_storage [] rich rich_map (account_file contract (str "code")) (code_steps contract) code rich_sim) as H.
  unfold ends, ac_runtime, M_map_err in H. unfold host.
  assert (Hl : in_layer pre 1 (account_file contract (str "code")) (code_steps contract)) by (apply file_in_layer; [apply path_ok_compute|]; by vm_compute).
  specialize (H Hl Hc). destruct (store_write_all _ _ _) as [[[]|e|p|] s']; done.
Qed.
Lemma supply code : supply_at_most (map_with code) funds.
Proof.
  eapply supply_access; [apply access_write; intros a; by intros [=]|]. change funds with (0 + funds)%N. apply supply_credit; [|by vm_compute].
  intros l _. induction l as [|a l IH]; [done|]. cbn. exact IH.
Qed.

Definition price : N := 10.
Abbreviation run fuel code to data gas ticks :=
  (run_transaction_with (S := Store) fuel Machine.bc (Some to) caller data (Some gas%N) price (Some 7%N) true ticks%N (init_account_storage, host code)).
End World.

(** * Runs of the theorems *)

Lemma layers_fit : small (stack_limit + 4).
Proof. vm_compute. reflexivity. Qed.
Lemma caller_funds code : balance_of (World.map_with code) World.caller = World.funds.
Proof. vm_compute. reflexivity. Qed.

(** A contract that is sent value, writes to its storage and reverts. *)
Module Reverts.
Definition code : bytes := [Byte.x55; Byte.xfd].
Abbreviation run := (World.run 5 code World.contract [] 50000 1000000000).
Lemma reverts_outcome : match run.1 with Ok (Some o) => (is_success o, gas_used o, reason o) | _ => (true, 0%N, ExitSucceeded Stopped) end = (false, 41003%N, ExitReverted Reverted).
Proof. vm_compute. reflexivity. Qed.
End Reverts.
Lemma failed_transactions_leave_no_trace_witness : exists st s m, sim World.pre st s [m] /\ only_account World.caller (World.map_with Reverts.code) m /\
  balance_of m World.caller = (World.funds - 410030)%N.
Proof.
  pose proof Reverts.reverts_outcome as Hrun.
  pose proof (failed_transactions_leave_no_trace (S := Store) layers_fit 5 Machine.bc (Some World.contract) World.caller [] (Some 50000%N) World.price (Some 7%N) true 1000000000
    init_account_storage (World.host Reverts.code) (World.map_with Reverts.code) (World.host_sim Reverts.code ltac:(vm_compute; done)) ltac:(intros gl [= <-]; vm_compute; done)) as H.
  destruct (run_transaction_with _ _ _ _ _ _ _ _ _ _ _) as [[[o|]|e|p|] [st' s']]; try discriminate Hrun. injection Hrun as Hs Hg Hr.
  destruct (H Hs) as (m&Hm&Ho&_&_&Hb). exists st', s', m. split; [exact Hm|]. split; [exact Ho|]. rewrite Hb, caller_funds. unfold gas_paid, do_refund. rewrite Hr, Hg.
  reflexivity.
Defined.

(** A contract that is sent value and writes to its storage. *)
Module Writes.
Definition code : bytes := [Byte.x55].
Abbreviation run := (World.run 5 code World.contract [] 50000 1000000000).
Lemma writes_outcome : match run.1 with Ok (Some o) => (is_success o, gas_used o, reason o) | _ => (false, 0%N, ExitSucceeded Stopped) end = (true, 41000%N, ExitSucceeded Stopped).
Proof. vm_compute. reflexivity. Qed.
End Writes.
Lemma no_value_is_created_witness : exists st s m, sim World.pre st s [m] /\ supply_at_most m (World.funds - 410000).
Proof.
  pose proof Writes.writes_outcome as Hrun.
  pose proof (no_value_is_created (S := Store) layers_fit 5 Machine.bc (Some World.contract) World.caller [] (Some 50000%N) World.price (Some 7%N) true 1000000000
    init_account_storage (World.host Writes.code) (World.map_with Writes.code) World.funds (World.host_sim Writes.code ltac:(vm_compute; done)) (World.supply Writes.code)
    ltac:(intros gl [= <-]; vm_compute; done)) as H.
  destruct (run_transaction_with _ _ _ _ _ _ _ _ _ _ _) as [[[o|]|e|p|] [st' s']]; try discriminate Hrun. injection Hrun as Hs Hg Hr.
  destruct H as (m&Hm&_&Hsup). exists st', s', m. split; [exact Hm|]. revert Hsup. unfold gas_paid, do_refund. rewrite Hs, Hg, Hr. intros Hsup. exact Hsup.
Defined.

Lemma plain_transfer_succeeds_witness : exists o st s m,
  World.run 1 [] (repeat Byte.xdd 20) (str "hi") 30000 0 = (Ok (Some o), (st, s)) /\ gas_used o = 21032%N /\ sim World.pre st s [m] /\
  balance_of m (repeat Byte.xdd 20) = 7%N /\ balance_of m World.caller = (World.funds - 7 - 210320)%N.
Proof.
  destruct (plain_transfer_succeeds (S := Store) ltac:(apply Nat.ltb_lt; vm_compute; reflexivity) Machine.bc World.caller (repeat Byte.xdd 20) (str "hi") 30000 World.price 7 0 0
    eq_refl eq_refl ltac:(vm_compute; reflexivity) ltac:(vm_compute; split; [discriminate|reflexivity]) init_account_storage (World.host []) (World.map_with [])
    (World.host_sim [] ltac:(vm_compute; done)) ltac:(vm_compute; repeat split; discriminate) ltac:(vm_compute; reflexivity)) as (o&st&s&m&E&Ho&Hm&_&Hb&_).
  exists o, st, s, m. split; [exact E|]. split; [apply Ho|]. split; [exact Hm|]. split; rewrite Hb; vm_compute; reflexivity.
Defined.

(** * What the runs show *)

(** A call of the modular exponentiation whose lengths do not fit in 32 bits. *)
Module Malformed.
Definition MODEXP : bytes := from_low_u64_be 5.
Definition input : bytes := repeat Byte.xff 32.
Definition tx : Transaction :=
  let unsigned := mkTx Legacy (Some 1337%N) 0 0 0 1000000 (Some MODEXP) 0 input [] None in
  mkTransaction (repeat Byte.x08 32) (Ethereum (match sign_transaction unsigned [Byte.x01] with Ok tx => tx | _ => unsigned end)).
Abbreviation block := (compute (S := Store) (exec := SputnikExecution 10) (Machine.bip [Machine.deposit; tx]) Machine.bc Machine.accounts true Machine.state).
(** The whole block is abandoned, with the deposit that precedes the transaction in it. *)
Lemma block_abandoned : block.1 = Err (A_Error (InvalidRunTransaction modexp_overflow)).
Proof. vm_compute. reflexivity. Qed.
End Malformed.
Lemma malformed_precompile_call_fails_witness : (World.run 5 [] Malformed.MODEXP Malformed.input 1000000 1000000000).1 = Err modexp_overflow.
Proof.
  destruct (malformed_precompile_call_fails (S := Store) ltac:(apply Nat.ltb_lt; vm_compute; reflexivity) Machine.bc World.caller Malformed.input 1000000 World.price 7 1000000000 5
    init_account_storage (World.host []) (World.map_with []) eq_refl ltac:(vm_compute; discriminate) ltac:(left; vm_compute; discriminate)
    (World.host_sim [] ltac:(vm_compute; done)) ltac:(vm_compute; discriminate) ltac:(vm_compute; reflexivity)) as (st'&s'&E&_).
  unfold Malformed.MODEXP. rewrite E. reflexivity.
Defined.

(** A contract that calls the code of a library, sending value to itself ([CALLCODE]). *)
Module CallCode.
Definition library : bytes := repeat Byte.xb0 20.
Definition env : HandlerEnv := mkEnv World.caller Machine.bc 1000000000 World.price.
Definition run : M (Handler (S := Store)) EthereumError (N * N) :=
  _ ← begin_initial_transaction false (Some 100000%N);
  let me := World.caller in
  _ ← handle env (execute env 5) (Call library (Some (mkTransfer me me 5)) [] (Some 1000%N) false (mkContext me me 5));
  mine ← h_balance me; library ← h_balance library; mret (mine, library).
Lemma moves_value : (run (handler_new init_account_storage World.rich)).1 = Ok (World.funds - 5, 5)%N.
Proof. vm_compute. reflexivity. Qed.
End CallCode.

(** A contract that creates another one, whose init code loops. *)
Module Unmetered.
Definition code : bytes := [Byte.xf0].
Definition env : HandlerEnv := mkEnv World.caller Machine.bc 1000000000 World.price.
Abbreviation Handler := (EvmHandler.Handler (S := Store)).
Definition diverges {E A} (c : M Handler E A) (h : Handler) : Prop := (c h).1 = Diverge.
Lemma diverges_bind {E A B} (c : M Handler E A) (k : A -> M Handler E B) h : diverges c h -> diverges (c ≫= k) h.
Proof. unfold diverges, mbind, M_bind. by destruct (c h) as [[]]. Qed.
Lemma diverges_then {E A B} (c : M Handler E A) (k : A -> M Handler E B) h a : (c h).1 = Ok a -> diverges (k a) (c h).2 -> diverges (c ≫= k) h.
Proof. unfold diverges, mbind, M_bind. destruct (c h) as [[]]; try done. by intros [= ->]. Qed.
Lemma diverges_get {E A} (k : Handler -> M Handler E A) h : diverges (k h) h -> diverges (hget ≫= k) h.
Proof. done. Qed.
Lemma diverges_result {E F A} (c : M Handler E A) h : diverges c h -> diverges (M_result (F := F) c) h.
Proof. unfold diverges, M_result. by destruct (c h) as [[]]. Qed.

(** The init code: [JUMPDEST], and [JUMP] to it. *)
Definition looping (m : Toy.machine) : Prop := Toy.all_code m = Toy.LOOP /\ (Toy.left_code m = Toy.LOOP \/ Toy.left_code m = [Byte.x56]).
Lemma toy_loops : loops (vm := Toy.vm) looping.
Proof.
  intros [lc ac ctx ret] [Ha Hl]. cbn in Ha, Hl. subst ac. destruct Hl as [-> | ->].
  - exists ctx, Byte.x5b, tt, 3%N. eexists _, (Toy.mkMachine [Byte.x56] Toy.LOOP ctx ret). split_and!; try reflexivity. split; [done|by right].
  - exists ctx, Byte.x56, tt, 3%N. eexists _, (Toy.mkMachine Toy.LOOP Toy.LOOP ctx ret). split_and!; try reflexivity. split; [done|by left].
Qed.
Lemma loop_diverges fuel m h : looping m -> free env h -> diverges (execute env fuel m) h.
Proof. intros Hm Hh. unfold diverges. by rewrite (free_loop (vm := Toy.vm) env looping fuel toy_loops m h). Qed.

(** One computed step, and the state. *)
Ltac computed x := apply (diverges_then _ _ _ x); [vm_compute; reflexivity|]; cbv beta iota.
Ltac current := apply diverges_get; cbv beta iota.
Ltac test c b := replace c with b by (vm_compute; reflexivity); cbv beta iota.

(** The contract, then the init code. *)
Abbreviation opened :=
  ((execute_transfer World.caller World.contract 7
    (M_result (F := EthereumError) (record_base_gas_cost false [])
      (begin_initial_transaction false (Some 50000%N)
        (pre_pay_transactions World.caller (Some 50000%N) World.price (handler_new init_account_storage (World.host code))).2).2).2).2).
Definition creator : Machine := machine_new code [] (mkContext World.contract World.caller 7).
Lemma creation_diverges fuel : diverges (create (execute env fuel) World.contract (SchemeLegacy World.contract) 0 Toy.LOOP None)
  (pre_validate env (Toy.context creator) Byte.xf0 tt opened).2.
Proof.
  unfold create. current. computed (inr tt : EthereumError + unit). apply diverges_bind, diverges_result. unfold execute_create.
  computed (create_address_legacy World.contract 0). current.
  match goal with |- diverges (if ?b then _ else _) _ => test b false end. match goal with |- diverges (if ?b then _ else _) _ => test b false end.
  computed false. computed TransferReturned. computed tt. apply diverges_bind, diverges_result, loop_diverges; [split; [done|by left]|].
  vm_compute. split; [reflexivity|split; [discriminate|reflexivity]].
Qed.
Lemma creator_diverges fuel : diverges (execute env fuel creator) opened.
Proof.
  destruct fuel as [|fuel]; [done|]. cbn [execute]. apply diverges_bind. unfold execute_step. current. apply diverges_bind.
  change (step creator) with (Ask (PreValidate (Toy.context creator) Byte.xf0 tt) (Toy.result_of creator (Toy.effect Byte.xf0 (Toy.jump [] creator) creator))).
  cbn [interp handle]. computed (inr tt : ExitError + unit). cbn [Toy.result_of].
  change (Toy.effect Byte.xf0 (Toy.jump [] creator) creator) with
    (Ask (Create World.contract (SchemeLegacy World.contract) 0 Toy.LOOP None) (fun _ : CreateOutcome => Ret (E := HandlerE unit) (Toy.jump [] creator, Continue))).
  cbn [interp handle]. apply diverges_bind, creation_diverges.
Qed.
Lemma run_diverges fuel : (World.run fuel code World.contract [] 50000 1000000000).1 = Diverge.
Proof.
  assert (H : diverges (run_in_handler env fuel (Some World.contract) World.caller [] (Some 50000%N) (Some 7%N) true) (handler_new init_account_storage (World.host code))).
  - unfold run_in_handler. change (effective_gas_price env) with World.price. cbn [negb]. computed true. apply diverges_bind, diverges_result. unfold call_contract. computed tt. computed (inr tt : ExitError + unit).
    apply diverges_bind, diverges_result. unfold execute_call. change (mkTransfer World.caller World.contract <$> Some 7%N) with (Some (mkTransfer World.caller World.contract 7)).
    cbn [default ctx_caller tr_value id]. current. match goal with |- diverges (if ?b then _ else _) _ => test b false end.
    computed TransferReturned. current. match goal with |- context [precompiles_execute ?s ?a ?i ?c ?b ?t] => test (precompiles_execute (S := Store) s a i c b t) (@None (M Handler EthereumError PrecompileOutcome)) end.
    match goal with |- diverges (if negb ?b then _ else _) _ => test b false end. computed code. unfold h_code.
    rewrite (reads_account_value (S := Store) [] EvmAccounts.code World.contract reads_code). apply diverges_bind, creator_diverges.
  - unfold diverges in H. unfold run_transaction_with. fold env. by destruct (run_in_handler _ _ _ _ _ _ _ _ _) as [[]].
Qed.
End Unmetered.
(** A contract that was called creates one whose init code loops: the creation does not return, whatever the fuel. *)
Lemma create_runs_unmetered_witness :
  let h := (begin_initial_transaction (S := Store) false (Some 50000%N) (handler_new init_account_storage World.rich)).2 in
  (create (execute Unmetered.env 100) World.caller (SchemeLegacy World.caller) 0 Toy.LOOP None h).1 = Diverge.
Proof.
  cbn zeta. rewrite (create_runs_unmetered (vm := Toy.vm) Unmetered.env Unmetered.looping World.caller (SchemeLegacy World.caller) 0 Toy.LOOP 100).
  - vm_compute. reflexivity.
  - exact Unmetered.toy_loops.
  - intros context. split; [reflexivity|left; reflexivity].
  - vm_compute. split; [discriminate|reflexivity].
Defined.
