(* ===== verification/EvmStageZero.v ===== *)
(** Parameters of the chain and migrations of its storage.

    Models [etherlink/kernel_evm/kernel/src/migration.rs] and, from [lib.rs], the stage zero of the kernel and the retrieval of the parameters of the
    chain.  The version of the kernel is set when it is built ([Build]). *)

From S2P Require Import Prelude Endian SdkNom SdkMichelson KernelPath KernelHost KernelRuntime KernelStorage EvmErrors Rlp EvmStorage LinkedList EthTypes EthSign EvmTx EthBlock EvmStore EvmBlueprints.

Definition CHAIN_ID : N := 1337.
Definition BASE_FEE_PER_GAS : N := 21000.
(** [env!("GIT_HASH")]. *)
Class Build := { KERNEL_VERSION : bytes }.

(** * Migrations (migration.rs) *)

Inductive MigrationStatus : Set := NoMigration | InProgress | MigrationDone.

Section stage_zero.
Context {S : Type} {core : SmartRollupCore S} {crate : RlpCrate} {eth : EthCrates} {fle : U256FromLe} {b58 : Base58Crate} {build : Build}.
Abbreviation kM := (M S Error).

Definition GHOSTNET_SEQUENCER_ADMIN : bytes := str "KT1UwK4znfwrsqheq9EoBd4KFYtmbsf85eb2".
Definition store_sequencer_admin : kM unit := host (store_write_all SEQUENCER_ADMIN GHOSTNET_SEQUENCER_ADMIN).
(** [current_version + 1] wraps at [2^64]. *)
Definition migration : kM MigrationStatus :=
  current_version ← read_storage_version;
  if (STORAGE_VERSION =? (current_version + 1) mod 2 ^ 64)%N then
    _ ← store_sequencer_admin;
    _ ← store_storage_version STORAGE_VERSION;
    mret MigrationDone
  else mret NoMigration.
Definition storage_migration : kM MigrationStatus := M_map_err (fun _ => UpgradeError Fallback) migration.

(** * Parameters (lib.rs) *)

Definition init_storage_versioning : kM unit :=
  version ← M_ok (store_read STORAGE_VERSION_PATH 0 0);
  match version with Some _ => mret tt | None => store_storage_version STORAGE_VERSION end.
Definition stage_zero : kM MigrationStatus := _ ← init_storage_versioning; storage_migration.

Definition set_kernel_version : kM unit :=
  version ← M_ok read_kernel_version;
  match version with
  | Some kernel_version => if bool_decide (kernel_version = KERNEL_VERSION) then mret tt else store_kernel_version KERNEL_VERSION
  | None => store_kernel_version KERNEL_VERSION
  end.
Definition retrieve_chain_id : kM N :=
  chain_id ← M_ok read_chain_id;
  match chain_id with Some chain_id => mret chain_id | None => _ ← store_chain_id CHAIN_ID; mret CHAIN_ID end.
(** [BlockFees] holds the base fee. *)
Definition retrieve_block_fees : kM N :=
  base_fee ← M_ok read_base_fee_per_gas;
  match base_fee with Some base_fee => mret base_fee | None => _ ← store_base_fee_per_gas BASE_FEE_PER_GAS; mret BASE_FEE_PER_GAS end.

Definition DEFAULT_DELAYED_BRIDGE : bytes := str "KT18amZmM5W7qDWVt2pH6uj7sCEd3kbzLrHT".
(** The configuration, and the delayed inbox of a sequencer; a proxy has none, which is an empty list here. *)
Definition fetch_configuration : M S Anyhow (Configuration * LinkedList Hash) :=
  pk ← M_map_err A_Error sequencer;
  match pk with
  | Some pk =>
      bridge ← M_map_err A_Error read_delayed_transaction_bridge;
      bridge ← match bridge with
               | Some bridge => mret bridge
               | None => fun s => (match hash_from_b58check ContractKt1Hash DEFAULT_DELAYED_BRIDGE with Ok kt1 => Ok kt1 | _ => Panic PUnwrap end, s)
               end;
      delayed_inbox ← DelayedInbox_new;
      mret (Sequencer bridge pk, delayed_inbox)
  | None => mret (Proxy, mkLinkedList DELAYED_INBOX_PATH None)
  end.
End stage_zero.
