(* ===== verification/EvmSimulation.v ===== *)
(** The simulation mode of the kernel.

    Models [etherlink/kernel_evm/kernel/src/simulation.rs]: the messages of the node that ask for the evaluation of a call or the validation of a
    transaction, in one input or in chunks, and what the kernel stores in answer. *)

From S2P Require Import Prelude Endian SdkNom SdkMicheline SdkMichelson SdkMessages KernelPath KernelHost KernelRuntime KernelInput KernelStorage EvmErrors Rlp EvmStorage LinkedList EthTypes EthSign EvmTx EthBlock EvmStore EvmAccounts EvmBlueprints EvmApply EvmBlock EvmParsing EvmStageZero.

(** * Messages *)

Record Evaluation : Set := mkEvaluation {
  ev_from : option bytes; ev_to : option bytes; ev_gas : option N; ev_gas_price : option N; ev_value : option N; ev_data : bytes
}.
Record TxValidation : Set := mkTxValidation { transaction : EthereumTransactionCommon }.
Inductive TxValidationOutcome : Set :=
  | TxValid (caller : bytes) | TxNonceTooLow | TxNotCorrectSignature | TxInvalidChainId | TxMaxGasFeeTooLow | TxOutOfTicks.
Inductive SimMessage : Set := SimEvaluation (e : Evaluation) | SimTxValidation (v : TxValidation).
Inductive SimInput : Set := SimUnparsable | SimSimple (m : SimMessage) | SimNewChunked (num_chunks : N) | SimChunk (i : N) (data : bytes).

Definition SIMULATION_SIMPLE_TAG : byte := Byte.x01.
Definition SIMULATION_CREATE_TAG : byte := Byte.x02.
Definition SIMULATION_CHUNK_TAG : byte := Byte.x03.
Definition EVALUATION_TAG : byte := Byte.x00.
Definition VALIDATION_TAG : byte := Byte.x01.

Section parsing.
Context {crate : RlpCrate} {eth : EthCrates} {fle : U256FromLe}.

(** [u64_from_le]: bytes of another size give zero. *)
Definition u64_from_le (v : bytes) : N := if length v =? 8 then of_le_bytes v else 0.
Definition decode_option_u256_le (decoder field_name : bytes) : decoded (option N) :=
  v ← decode_option (C := bytes_codec) decoder field_name;
  match v with Some v => n ← u256_from_le v; Ok (Some n) | None => Ok None end.
Definition evaluation_decode (decoder : bytes) : decoded Evaluation :=
  if rlp_is_list decoder then
    match rlp_item_count decoder with
    | Ok 6 =>
        let it := rlp_iter decoder in
        '(x, it) ← next it; from ← decode_option (C := h160_codec) x (str "from");
        '(x, it) ← next it; to ← decode_option (C := h160_codec) x (str "to");
        '(x, it) ← next it; gas ← decode_option (C := bytes_codec) x (str "gas");
        '(x, it) ← next it; gas_price ← decode_option (C := bytes_codec) x (str "gas_price");
        '(x, it) ← next it; value ← decode_option_u256_le x (str "value");
        '(x, it) ← next it; data ← decode_field (C := bytes_codec) x (str "data");
        Ok (mkEvaluation from to (u64_from_le <$> gas) (u64_from_le <$> gas_price) value data)
    | Panic p => Panic p
    | Diverge => Diverge
    | _ => Err RlpIncorrectListLen
    end
  else Err RlpExpectedToBeList.

(** [TryFrom<&[u8]>]. *)
Definition message_try_from (bs : bytes) : decoded SimMessage :=
  match bs with
  | [] => Err (Custom (str "Empty simulation message"))
  | tag :: bs =>
      if Byte.eqb tag EVALUATION_TAG then e ← evaluation_decode bs; Ok (SimEvaluation e)
      else if Byte.eqb tag VALIDATION_TAG then tx ← from_bytes bs; Ok (SimTxValidation (mkTxValidation tx))
      else Err (Custom (str "Unknown message to simulate"))
  end.

Definition parse_new_chunk_simulation (bs : bytes) : SimInput := if length bs =? 2 then SimNewChunked (of_le_bytes bs) else SimUnparsable.
Definition parse_simulation_chunk (bs : bytes) : SimInput :=
  match split_at bs 2 with Some (num, remaining) => SimChunk (of_le_bytes num) remaining | None => SimUnparsable end.
Definition parse_simple_simulation (bs : bytes) : decoded SimInput :=
  match message_try_from bs with Ok message => Ok (SimSimple message) | Err _ => Ok SimUnparsable | Panic p => Panic p | Diverge => Diverge end.
Definition sim_parse (input : bytes) : decoded SimInput :=
  match input with
  | internal :: message :: data =>
      if length input <=? 3 then Ok SimUnparsable
      else if negb (Byte.eqb internal SIMULATION_TAG) then Ok SimUnparsable
      else if Byte.eqb message SIMULATION_SIMPLE_TAG then parse_simple_simulation data
      else if Byte.eqb message SIMULATION_CREATE_TAG then Ok (parse_new_chunk_simulation data)
      else if Byte.eqb message SIMULATION_CHUNK_TAG then Ok (parse_simulation_chunk data)
      else Ok SimUnparsable
  | _ => Ok SimUnparsable
  end.
End parsing.

(** * Reading the inbox *)

Section reading.
Context {S : Type} {input : InputCore S} {crate : RlpCrate} {eth : EthCrates} {fle : U256FromLe}.
Abbreviation kM := (M S Error).

Definition sim_read_input : kM SimInput :=
  message ← M_map_err error_of_runtime read_input;
  match message with Some message => lift (map_err error_of_decoder (sim_parse (payload message))) | None => mret SimUnparsable end.
(** [for n in 0..num_chunks]. *)
Fixpoint sim_read_chunks (ns : list N) (buffer : bytes) : kM bytes :=
  match ns with
  | [] => mret buffer
  | n :: ns =>
      input ← sim_read_input;
      match input with
      | SimChunk i data => if negb (i =? n)%N then fail InvalidConversion else sim_read_chunks ns (buffer ++ data)
      | _ => fail InvalidConversion
      end
  end.
Definition read_chunks (num_chunks : N) : kM SimMessage :=
  buffer ← sim_read_chunks (indices num_chunks) [];
  lift (map_err error_of_decoder (message_try_from buffer)).
Definition parse_inbox : kM SimMessage :=
  input ← sim_read_input;
  match input with
  | SimSimple s => mret s
  | SimNewChunked num_chunks => read_chunks num_chunks
  | _ => fail InvalidConversion
  end.
End reading.

(** * Running *)

Section running.
Context {S : Type} {core : SmartRollupCore S} {input : InputCore S} {hex : HexCrate} {secp : Secp} {crate : RlpCrate}
  {eth : EthCrates} {fle : U256FromLe} {lc : LogCrates} {conf : EvmConfig} {exec : EvmExecution (S := S)}.
Abbreviation hM := (M S Anyhow).
Definition kernel_call {A} (m : M S Error A) : hM A := M_map_err A_Error m.

(** A fresh account storage. *)
Definition with_account_storage {E A} (m : M (Storage * S) E A) : M S E A := fun s =>
  let '(o, (_, s)) := m (init_account_storage, s) in (o, s).

Definition simulation_constants (chain_id block_fees : N) : hM BlockConstants :=
  block ← M_ok read_current_block;
  match block with
  | Some block => mret (constants block chain_id block_fees)
  | None => timestamp ← current_timestamp; mret (first_block (Z.to_N (timestamp mod 2 ^ 64)) chain_id block_fees)
  end.

Definition evaluation_run (self : Evaluation) : hM (option ExecutionOutcome) :=
  chain_id ← kernel_call retrieve_chain_id;
  block_fees ← kernel_call retrieve_block_fees;
  current_constants ← simulation_constants chain_id block_fees;
  let tx_data_size := N.of_nat (length (ev_data self)) in
  let allocated_ticks := estimate_remaining_ticks_for_transaction_execution 0 tx_data_size in
  let gas_price := default block_fees (ev_gas_price self) in
  M_map_err (fun e => A_Error (E_Simulation e)) (with_account_storage
    (run_transaction current_constants (ev_to self) (default H160_zero (ev_from self)) (ev_data self) (Some (default u64_max (ev_gas self))) gas_price
       (ev_value self) false allocated_ticks)).

(** [match .. { Err(OutOfTicks) => Ok(true), _ => Ok(false) }]. *)
Definition is_out_of_ticks {A} (m : M S EthereumError A) : hM bool := fun s =>
  match m s with
  | (Err OutOfTicks, s) => (Ok true, s)
  | (Ok _, s) | (Err _, s) => (Ok false, s)
  | (Panic p, s) => (Panic p, s)
  | (Diverge, s) => (Diverge, s)
  end.
Definition would_exhaust_ticks (transaction : EthereumTransactionCommon) (caller : bytes) : hM bool :=
  chain_id ← kernel_call retrieve_chain_id;
  block_fees ← kernel_call retrieve_block_fees;
  current_constants ← simulation_constants chain_id block_fees;
  let tx_data_size := N.of_nat (length (data transaction)) in
  let allocated_ticks := estimate_remaining_ticks_for_transaction_execution 0 tx_data_size in
  let gas_price := match overall_gas_price_tx transaction block_fees with Ok gas_price => gas_price | _ => block_fees end in
  is_out_of_ticks (with_account_storage (run_transaction current_constants (to_ transaction) caller (data transaction) (Some (execution_gas_limit transaction))
    gas_price (Some (value transaction)) false allocated_ticks)).

Definition caller_nonce (caller : bytes) : hM N :=
  account ← kernel_call (with_account_storage (account caller));
  match account with
  | Some account => kernel_call (M_map_err error_of_account (EvmAccounts.nonce account))
  | None => mret 0%N
  end.
Definition tx_validation_run (self : TxValidation) : hM TxValidationOutcome :=
  let tx := transaction self in
  match caller tx with
  | Ok caller =>
      caller_nonce ← caller_nonce caller;
      block_fees ← kernel_call retrieve_block_fees;
      chain_id ← kernel_call read_chain_id;
      if (EthTypes.nonce tx <? caller_nonce)%N then mret TxNonceTooLow
      else if match EthTypes.chain_id tx with Some c => negb (c =? chain_id)%N | None => false end then mret TxInvalidChainId
      else
        exhausts ← M_ok (would_exhaust_ticks tx caller);
        if bool_decide (exhausts = Some true) then mret TxOutOfTicks
        else if (max_fee_per_gas tx <? block_fees)%N then mret TxMaxGasFeeTooLow
        else mret (TxValid caller)
  | Err _ => mret TxNotCorrectSignature
  | Panic p => panicked p
  | Diverge => diverge
  end.

Definition store_simulation_outcome (outcome : option ExecutionOutcome) : hM unit :=
  match outcome with
  | Some outcome =>
      _ ← kernel_call (store_simulation_status (is_success outcome));
      _ ← kernel_call (store_evaluation_gas (gas_used outcome));
      kernel_call (store_simulation_result (result outcome))
  | None => mret tt
  end.
Definition OUT_OF_TICKS : bytes :=
  str "The transaction would exhaust all the ticks it is allocated. Try reducing its gas consumption or splitting the call in multiple steps, if possible.".
Definition store_tx_validation_outcome (outcome : TxValidationOutcome) : hM unit :=
  let store_result status result :=
    _ ← kernel_call (store_simulation_status status); kernel_call (store_simulation_result (Some result)) in
  match outcome with
  | TxValid caller => store_result true caller
  | TxNonceTooLow => store_result false (str "Nonce too low.")
  | TxNotCorrectSignature => store_result false (str "Incorrect signature.")
  | TxInvalidChainId => store_result false (str "Invalid chain id.")
  | TxMaxGasFeeTooLow => store_result false (str "Max gas fee too low.")
  | TxOutOfTicks => store_result false OUT_OF_TICKS
  end.

Definition start_simulation_mode : hM unit :=
  simulation ← kernel_call parse_inbox;
  match simulation with
  | SimEvaluation simulation => outcome ← evaluation_run simulation; store_simulation_outcome outcome
  | SimTxValidation tx_validation => outcome ← tx_validation_run tx_validation; store_tx_validation_outcome outcome
  end.
End running.
