(* ===== verification/EvmInbox.v ===== *)
(** Reading the inbox: the stage one of the kernel.

    Models [read_input], [handle_deposit] and [read_inbox] of [etherlink/kernel_evm/kernel/src/inbox.rs], and [stage_one.rs].  The messages about chunked
    transactions are those of [EvmChunks].  Then: [InboxLaws] states what a host promises of its inbox, and a transaction sent in chunks, as external
    messages for the rollup, is read by the kernel. *)

From S2P Require Import Prelude Endian KernelPath KernelHost KernelRuntime KernelStore KernelStoreLaws KernelStorage KernelInput SdkNom SdkMicheline SdkMichelson SdkMessages Rlp EvmErrors EvmStorage LinkedList EthTypes EthSign EvmTx EthBlock EvmStore EvmChunks EvmParsing EvmBlueprints EvmAccounts EvmApply EvmBlock EvmStageZero EvmSimulation.

Record InboxContent : Type := mkInboxContent {
  kernel_upgrade : option KernelUpgrade; inbox_transactions : list Transaction; sequencer_blueprints : list SequencerBlueprint
}.

Section inbox.
Context {S : Type} {core : SmartRollupCore S} {input : InputCore S} {nom : NomCrate} {de : DataEncoding} {b58 : Base58Crate} {crypto : CryptoCrate}
  {hex : HexCrate} {secp : Secp} {crate : RlpCrate} {eth : EthCrates} {fle : U256FromLe} {lc : LogCrates} {conf : EvmConfig} {exec : EvmExecution (S := S)}.
Abbreviation kM := (M S Error).
Abbreviation hM := (M S Anyhow).

(** What does not change while the inbox is read. *)
Record InboxConfig : Type := mkInboxConfig {
  smart_rollup_address : bytes; tezos_contracts : TezosContracts; cfg_delayed_bridge : option bytes; cfg_sequencer : option PublicKey
}.

(** [inbox_is_empty] is cleared when there is an input: the result is not [NoInput]. *)
Definition read_input (cfg : InboxConfig) : kM InputResult :=
  input ← host KernelInput.read_input;
  match input with
  | Some input => lift (parse (KernelInput.payload input) (smart_rollup_address cfg) (tezos_contracts cfg) (cfg_delayed_bridge cfg) (cfg_sequencer cfg))
  | None => mret NoInput
  end.

Definition handle_deposit (deposit : Deposit) : kM Transaction :=
  deposit_nonce ← get_and_increment_deposit_nonce;
  let to_hash := le_bytes 32 (amount deposit) ++ receiver deposit ++ le_bytes 4 deposit_nonce in
  let kec := keccak256 to_hash in
  if length kec =? TRANSACTION_HASH_SIZE then mret (mkTransaction kec (TDeposit deposit)) else fail InvalidConversion.

Definition push_transaction (tx : Transaction) (res : InboxContent) : InboxContent :=
  mkInboxContent (kernel_upgrade res) (inbox_transactions res ++ [tx]) (sequencer_blueprints res).

(** A turn of the loop on an input that was read: the content so far, or [None] after a simulation. *)
Definition handle_input (i : Input) (res : InboxContent) : hM (option InboxContent) :=
  match i with
  | SimpleTransaction tx => mret (Some (push_transaction tx res))
  | NewChunked tx_hash num_chunks chunk_hashes => _ ← kernel_call (create_chunked_transaction tx_hash num_chunks chunk_hashes); mret (Some res)
  | Chunk tx_hash i chunk_hash data =>
      tx ← kernel_call (handle_transaction_chunk tx_hash i chunk_hash data);
      mret (Some (match tx with Some tx => push_transaction tx res | None => res end))
  | Upgrade upgrade => mret (Some (mkInboxContent (Some upgrade) (inbox_transactions res) (sequencer_blueprints res)))
  | NewSequencer sequencer => _ ← kernel_call (store_sequencer sequencer); mret (Some res)
  | Simulation => _ ← start_simulation_mode; mret None
  | Info info => _ ← kernel_call (store_last_info_per_level_timestamp (ts_i64 (predecessor_timestamp info))); mret (Some res)
  | InputDeposit deposit => tx ← kernel_call (handle_deposit deposit); mret (Some (push_transaction tx res))
  | InputBlueprint blueprint => mret (Some (mkInboxContent (kernel_upgrade res) (inbox_transactions res) (sequencer_blueprints res ++ [blueprint])))
  end.

(** [loop]: each turn reads an input. *)
Fixpoint read_loop (fuel : nat) (cfg : InboxConfig) (inbox_is_empty : bool) (res : InboxContent) : hM (option InboxContent) :=
  match fuel with
  | O => diverge
  | Datatypes.S fuel =>
      input ← kernel_call (read_input cfg);
      match input with
      | NoInput => mret (if inbox_is_empty then None else Some res)
      | Unparsable => read_loop fuel cfg false res
      | Parsed i =>
          r ← handle_input i res;
          match r with Some res => read_loop fuel cfg false res | None => mret None end
      end
  end.
Definition read_inbox (fuel : nat) (cfg : InboxConfig) : hM (option InboxContent) := read_loop fuel cfg true (mkInboxContent None [] []).

(** * Stage one (stage_one.rs) *)

Definition store_upgrade (upgrade : option KernelUpgrade) : hM unit :=
  match upgrade with Some kernel_upgrade => store_kernel_upgrade kernel_upgrade | None => mret tt end.

Definition fetch_inbox_blueprints (fuel : nat) (address : bytes) (contracts : TezosContracts) : hM unit :=
  content ← read_inbox fuel (mkInboxConfig address contracts None None);
  match content with
  | Some (mkInboxContent upgrade transactions _) =>
      timestamp ← current_timestamp;
      _ ← kernel_call (store_inbox_blueprint (mkBlueprint transactions timestamp));
      store_upgrade upgrade
  | None => mret tt
  end.

Abbreviation inboxM := (M (LinkedList Hash * S) Anyhow).
Fixpoint save_transactions (transactions : list Transaction) : inboxM unit :=
  match transactions with [] => mret tt | transaction :: transactions => _ ← save_transaction transaction; save_transactions transactions end.
Fixpoint store_sequencer_blueprints (blueprints : list SequencerBlueprint) : hM unit :=
  match blueprints with
  | [] => mret tt
  | seq_blueprint :: blueprints => _ ← kernel_call (store_sequencer_blueprint seq_blueprint); store_sequencer_blueprints blueprints
  end.
Definition fetch_sequencer_blueprints (fuel : nat) (address : bytes) (contracts : TezosContracts) (delayed_bridge : bytes) (sequencer : PublicKey) : inboxM unit :=
  content ← on_host (read_inbox fuel (mkInboxConfig address contracts (Some delayed_bridge) (Some sequencer)));
  match content with
  | Some (mkInboxContent upgrade transactions blueprints) =>
      _ ← save_transactions transactions;
      _ ← on_host (store_sequencer_blueprints blueprints);
      on_host (store_upgrade upgrade)
  | None => mret tt
  end.

Definition fetch (fuel : nat) (address : bytes) (contracts : TezosContracts) (config : Configuration) : inboxM unit :=
  match config with
  | Sequencer delayed_bridge sequencer => fetch_sequencer_blueprints fuel address contracts delayed_bridge sequencer
  | Proxy => on_host (fetch_inbox_blueprints fuel address contracts)
  end.
End inbox.

(** * The inbox of a host *)

Class InboxLaws (S : Type) {core : SmartRollupCore S} {laws : CoreLaws S} {input : InputCore S} := {
  (** The messages left to read. *)
  i_left : S -> list bytes;
  i_next s m ms : c_ok s -> i_left s = m :: ms -> length m <= MAX_INPUT_MESSAGE_SIZE -> exists info s',
    core_read_input MAX_INPUT_MESSAGE_SIZE s = (Z.of_nat (length m), info, m, s') /\ i_left s' = ms /\ c_ok s' /\
    (forall q, c_value s' q = c_value s q) /\ (forall q, c_node s' q -> c_node s q);
  i_none s : i_left s = [] -> exists info bs s', core_read_input MAX_INPUT_MESSAGE_SIZE s = (0%Z, info, bs, s') /\ i_left s' = [];
  (** The storage and the inbox are apart. *)
  i_write s p off bs : i_left (core_store_write p off bs s).2 = i_left s;
  i_delete s p : i_left (core_store_delete p s).2 = i_left s;
  i_delete_value s p : i_left (core_store_delete_value p s).2 = i_left s
}.

(** The mock host. *)
#[global] Program Instance MockHost_inbox : InboxLaws HostState := {| i_left h := drop (curr_input_id h) (KernelInput.input h) |}.
Next Obligation.
  intros h m ms Hs E Hl. cbn in E. exists (Z.of_N (curr_level h), Z.of_N (N.of_nat (curr_input_id h))). eexists. cbn. unfold handle_read_input.
  assert (Em : KernelInput.input h !! curr_input_id h = Some m).
  { pose proof (f_equal (lookup 0) E) as H. rewrite lookup_drop, Nat.add_0_r in H. exact H. }
  rewrite Em. cbn. rewrite take_ge by done. split_and!; [done| |done..]. cbn. rewrite <- (Nat.add_1_r (curr_input_id h)), <- drop_drop, E. done.
Qed.
Next Obligation.
  intros h E. cbn in E. do 3 eexists. cbn. unfold handle_read_input. assert (Hn : length (KernelInput.input h) <= curr_input_id h).
  { pose proof (f_equal length E) as H. rewrite length_drop in H. cbn in H. lia. }
  rewrite lookup_ge_None_2 by done. cbn. split; [done|]. cbn. apply drop_ge. lia.
Qed.
Next Obligation. intros h p off bs. change (core_store_write p off bs h) with (on_store (core_store_write p off bs) h). by rewrite on_store_state. Qed.
Next Obligation. intros h p. change (core_store_delete p h) with (on_store (core_store_delete p) h). by rewrite on_store_state. Qed.
Next Obligation. intros h p. change (core_store_delete_value p h) with (on_store (core_store_delete_value p) h). by rewrite on_store_state. Qed.

(** * Programs that leave the inbox alone *)

Section leaves.
Context {S : Type} {core : SmartRollupCore S} {laws : CoreLaws S} {input : InputCore S} {inbox : InboxLaws S}.
Context {crate : RlpCrate} {eth : EthCrates} {secp : Secp} {hex : HexCrate}.

Definition leaves {E A} (m : M S E A) : Prop := forall s, i_left (m s).2 = i_left s.

Lemma leaves_bind {E A B} (m : M S E A) (k : A -> M S E B) : leaves m -> (forall a, leaves (k a)) -> leaves (m ≫= k).
Proof. intros Hm Hk s. specialize (Hm s). unfold mbind, M_bind. destruct (m s) as [[a|e|p|] s']; try done. cbn in Hm. by rewrite Hk. Qed.
Lemma leaves_pure {E A} (m : M S E A) : (forall s, (m s).2 = s) -> leaves m.
Proof. intros Hm s. by rewrite Hm. Qed.
Lemma leaves_map_err {E F A} (f : E -> F) (m : M S E A) : leaves m -> leaves (M_map_err f m).
Proof. intros Hm s. specialize (Hm s). unfold M_map_err. by destruct (m s). Qed.
Lemma leaves_ok {E F A} (m : M S E A) : leaves m -> leaves (M_ok (F := F) m).
Proof. intros Hm s. specialize (Hm s). unfold M_ok. by destruct (m s) as [[] ?]. Qed.
Lemma leaves_call f : (forall s, i_left (f s).2 = i_left s) -> leaves (host_call f).
Proof. intros Hf s. specialize (Hf s). unfold host_call. by destruct (f s). Qed.

(** The host functions, by the head of the program. *)
Ltac leave := repeat match goal with
  | |- leaves (_ ≫= _) => apply leaves_bind
  | |- leaves (host _) => apply leaves_map_err
  | |- leaves (M_map_err _ _) => apply leaves_map_err
  | |- leaves (M_ok _) => apply leaves_ok
  | |- leaves (or_else _ _) => apply leaves_bind
  | |- leaves (host_call (core_store_write _ _ _)) => apply leaves_call; intros ?; apply i_write
  | |- leaves (host_call (core_store_delete _)) => apply leaves_call; intros ?; apply i_delete
  | |- leaves (host_call (core_store_delete_value _)) => apply leaves_call; intros ?; apply i_delete_value
  | |- forall _, leaves _ => intros ?
  | |- leaves (match ?x with _ => _ end) => destruct x
  | |- leaves (mret _) => by apply leaves_pure
  | |- leaves (fail _) => by apply leaves_pure
  | |- leaves (lift _) => by apply leaves_pure
  | |- leaves (paths _) => by apply leaves_pure
  | |- leaves (chunked_hash_transaction_path _ _) => by apply leaves_pure
  | |- leaves (store_has _) => by apply leaves_pure
  | |- leaves (store_count_subkeys _) => by apply leaves_pure
  | |- leaves (host_query _) => by apply leaves_pure
  end.

Lemma leaves_check_exists p : leaves (check_path_exists p).
Proof. apply leaves_pure. intros s. unfold check_path_exists. by repeat case_match. Qed.
Lemma leaves_check_value p : leaves (check_path_has_value p).
Proof. apply leaves_pure. intros s. unfold check_path_has_value. by repeat case_match. Qed.
Lemma leaves_read_slice p off buffer : leaves (KernelHost.store_read_slice p off buffer).
Proof. apply leaves_pure. intros s. unfold KernelHost.store_read_slice. by destruct (core_store_read _ _ _ _). Qed.
Lemma leaves_read p off max : leaves (store_read p off max).
Proof. unfold store_read. leave; [apply leaves_check_value|apply leaves_read_slice]. Qed.
Lemma leaves_value_size p : leaves (store_value_size p).
Proof. unfold store_value_size. leave. apply leaves_check_exists. Qed.
Lemma leaves_delete p : leaves (store_delete p).
Proof. unfold store_delete. leave. apply leaves_check_exists. Qed.
Lemma leaves_write_chunks fuel p : forall src off, leaves (write_chunks fuel p src off).
Proof. induction fuel as [|fuel IH]; intros src off; cbn [write_chunks]; leave; try apply IH; by apply leaves_pure. Qed.
Lemma leaves_write p src off : leaves (store_write p src off).
Proof. unfold store_write. leave. apply leaves_write_chunks. Qed.
Lemma leaves_slice path n k : leaves (EvmStore.store_read_slice path n k).
Proof. unfold EvmStore.store_read_slice. leave. apply leaves_read_slice. Qed.
Lemma leaves_read_chunks fuel p len : forall buffer, leaves (KernelHost.read_chunks fuel p len buffer).
Proof.
  induction fuel as [|fuel IH]; intros buffer; cbn [KernelHost.read_chunks]; leave; try apply IH; try by apply leaves_pure.
  apply leaves_pure. intros s. unfold read_chunk. by destruct (core_store_read _ _ _ _).
Qed.
Ltac leave_store := leave; try first [apply leaves_read | apply leaves_value_size | apply leaves_delete | apply leaves_write | apply leaves_slice].

Lemma leaves_hashes path hs : leaves (write_chunk_hashes path hs).
Proof. induction hs as [|h hs IH]; cbn [write_chunk_hashes]; leave_store. apply IH. Qed.
Lemma leaves_create h n hs : leaves (create_chunked_transaction h n hs).
Proof. unfold create_chunked_transaction, chunked_transaction_path, chunked_transaction_num_chunks_path. leave_store. apply leaves_hashes. Qed.
Lemma leaves_get_chunks path ixs : forall buffer, leaves (get_chunks path ixs buffer).
Proof.
  induction ixs as [|i ixs IH]; intros buffer; cbn [get_chunks]; [by apply leaves_pure|]. unfold transaction_chunk_path, read_transaction_chunk_data. leave_store. apply IH.
Qed.
Lemma leaves_chunk h i ch data : leaves (handle_transaction_chunk h i ch data).
Proof.
  unfold handle_transaction_chunk, chunked_transaction_num_chunks, chunked_transaction_num_chunks_by_path, chunked_transaction_path,
    chunked_transaction_num_chunks_path, chunked_hash_transaction_path, remove_chunked_transaction, remove_chunked_transaction_by_path, store_transaction_chunk,
    chunked_transaction_path, store_transaction_chunk_data, is_transaction_complete, get_full_transaction, chunked_transaction_num_chunks_by_path,
    chunked_transaction_num_chunks_path, transaction_chunk_path. leave_store. apply leaves_get_chunks.
Qed.
Lemma leaves_input c : leaves (handle_chunk_input c).
Proof. destruct c as [h n hs|h i ch data]; [|apply leaves_chunk]. cbn [handle_chunk_input]. leave. apply leaves_create. Qed.
End leaves.

(** * Transactions in chunks *)

(** The input that a message about a chunked transaction is, and back. *)
Definition of_chunk (c : ChunkInput) : Input :=
  match c with NewChunkedTransaction h n hs => NewChunked h n hs | TransactionChunk h i ch data => Chunk h i ch data end.
Definition to_chunk (r : outcome Error InputResult) : option ChunkInput :=
  match r with
  | Ok (Parsed (NewChunked h n hs)) => Some (NewChunkedTransaction h n hs)
  | Ok (Parsed (Chunk h i ch data)) => Some (TransactionChunk h i ch data)
  | _ => None
  end.

Section inbox.
Context {S : Type} {core : SmartRollupCore S} {laws : CoreLaws S} {input : InputCore S} {inbox : InboxLaws S}.
Context {nom : NomCrate} {nlaws : NomLaws nom} {de : DataEncoding} {dlaws : DataLaws de} {b58 : Base58Crate} {crypto : CryptoCrate} {hex : HexCrate} {hlaws : HexLaws hex} {secp : Secp}
  {crate : RlpCrate} {rlaws : RlpLaws crate} {eth : EthCrates} {elaws : EthLaws eth} {slaws : SecpLaws secp} {fle : U256FromLe} {lc : LogCrates} {conf : EvmConfig} {exec : EvmExecution (S := S)}.
Implicit Types (s : S) (c : ChunkInput) (st : gmap bytes pending) (cfg : InboxConfig) (m : bytes).

(** What the kernel takes a message for. *)
Definition reads_as cfg m : outcome Error InputResult :=
  parse m (smart_rollup_address cfg) (tezos_contracts cfg) (cfg_delayed_bridge cfg) (cfg_sequencer cfg).

(** The messages that the loop treats and goes on, which are not empty: all that the kernel cannot parse, and all inputs but simulations, which end the loop.  The sizes asked of the inputs about chunks are
    those that messages of the inbox have, and a new sequencer has a key of a legal size. *)
Definition treatable cfg m : Prop :=
  m <> [] /\ length m <= MAX_INPUT_MESSAGE_SIZE /\
  match reads_as cfg m with
  | Ok Unparsable => True
  | Ok (Parsed (NewChunked h n hs)) => input_ok (NewChunkedTransaction h n hs)
  | Ok (Parsed (Chunk h i ch data)) => input_ok (TransactionChunk h i ch data)
  | Ok (Parsed (NewSequencer pk)) => size_ok (length (public_key_to_b58check pk))
  | Ok (Parsed Simulation) => False
  | Ok (Parsed _) => True
  | _ => False
  end.
(** The messages about chunked transactions, as the kernel reads them. *)
Definition chunk_inputs cfg (ms : list bytes) : list ChunkInput := omap (fun m => to_chunk (reads_as cfg m)) ms.

(** A message of the inbox in the documented format for [c]. *)
Definition carries cfg c m : Prop :=
  exists contents, m = external_input (smart_rollup_address cfg) contents /\ sent None (of_chunk c) contents /\ length m <= MAX_INPUT_MESSAGE_SIZE.

Lemma carries_ok cfg c m : carries cfg c m -> input_ok c.
Proof.
  intros (contents&->&Hs&Hl). unfold external_input in Hl. cbn [length] in Hl. rewrite length_app in Hl. unfold MAX_INPUT_MESSAGE_SIZE in Hl.
  destruct c as [h n hs|h i ch data]; inversion Hs; subst; cbn [length] in Hl; rewrite !length_app in Hl.
  - rewrite length_hashes in Hl by done. split_and!; try done. unfold below. change (2 ^ 15)%N with 32768%N. lia.
  - split_and!; try done. lia.
Qed.
Lemma carries_reads cfg c m : length (smart_rollup_address cfg) = hash_size SmartRollupHash -> cfg_sequencer cfg = None -> carries cfg c m ->
  reads_as cfg m = Ok (Parsed (of_chunk c)).
Proof. intros Ha Hseq (contents&->&Hsent&_). unfold reads_as. rewrite Hseq. by apply external_inputs_parsed. Qed.
Lemma to_of_chunk c : to_chunk (Ok (Parsed (of_chunk c))) = Some c.
Proof. by destruct c. Qed.
Lemma to_chunk_Some r c : to_chunk r = Some c -> r = Ok (Parsed (of_chunk c)).
Proof. destruct r as [[|[]|]|?|?|]; cbn; congruence || by intros [= <-]. Qed.
Lemma treatable_carried cfg c m : length (smart_rollup_address cfg) = hash_size SmartRollupHash -> cfg_sequencer cfg = None -> carries cfg c m -> treatable cfg m.
Proof.
  intros Ha Hseq Hc. pose proof (carries_ok cfg c m Hc) as Hok. unfold treatable. rewrite (carries_reads cfg c m Ha Hseq Hc).
  destruct Hc as (contents&->&_&Hl). split; [done|]. split; [done|]. by destruct c.
Qed.

(** ** The state of the storage while the inbox is read *)

Record readable s st : Prop := {
  rd_chunks : represents s st;
  rd_nonce v : c_value s (path_steps DEPOSIT_NONCE) = Some v -> size_ok (length v)
}.
Lemma rd_ok s st : readable s st -> c_ok s.
Proof. intros [[H _] _]. exact H. Qed.

Definition elsewhere (q : list bytes) : Prop := exists x q', q = x :: q' /\ x <> str "chunked_transactions".
Lemma readable_wrote s st q v s' : readable s st -> elsewhere q -> wrote s q v s' -> (path_steps DEPOSIT_NONCE = q -> size_ok (length v)) -> readable s' st.
Proof.
  intros [[Hs Hst] Hn] (x&q'&->&Hx) (Hs'&Hv&Hno) Hz. split.
  - split; [done|]. intros h Hh. eapply holds_same; [|by apply Hst]. split; intros r.
    + rewrite Hv, bool_decide_eq_false_2; [done|]. intros [= E _]. by rewrite E in Hx.
    + intros [H|[k [= E _]]]%Hno; [done|]. by rewrite E in Hx.
  - intros w. rewrite Hv. case_bool_decide; [intros [= <-]; auto|apply Hn].
Qed.
Lemma readable_kept s st s' st' : readable s st -> represents s' st' -> kept s s' -> readable s' st'.
Proof. intros [_ Hn] Hr Hk. split; [done|]. intros v. rewrite Hk; [apply Hn|]. by intros h r [=]. Qed.
Lemma readable_same s s' st : c_ok s' -> (forall q, c_value s' q = c_value s q) -> (forall q, c_node s' q -> c_node s q) -> readable s st -> readable s' st.
Proof.
  intros Hs' Hv Hno [[_ H] Hn]. split; [|intros v; rewrite Hv; apply Hn]. split; [done|]. intros h Hh. eapply holds_same; [|by apply H]. split; intros r; [apply Hv|apply Hno].
Qed.

(** Programs that succeed, and leave the transactions in chunks and the inbox alone. *)
Definition settles {E A} (p : M S E A) : Prop := leaves p /\ forall s st, readable s st -> exists a s', p s = (Ok a, s') /\ readable s' st.
Lemma settles_bind {E A B} (p : M S E A) (k : A -> M S E B) : settles p -> (forall a, settles (k a)) -> settles (p ≫= k).
Proof.
  intros [Hl Hp] Hk. split; [apply leaves_bind; [done|apply Hk]|]. intros s st Hr. destruct (Hp s st Hr) as (a&s1&E1&Hr1).
  destruct (proj2 (Hk a) s1 st Hr1) as (b&s2&E2&Hr2). exists b, s2. split; [|done]. unfold mbind, M_bind. by rewrite E1.
Qed.
Lemma settles_pure {E A} (p : M S E A) : (forall s, c_ok s -> exists a, p s = (Ok a, s)) -> leaves p -> settles p.
Proof. intros Hp Hl. split; [done|]. intros s st Hr. destruct (Hp s (rd_ok s st Hr)) as [a Ea]. by exists a, s. Qed.
Lemma settles_ret {E A} (a : A) : settles (E := E) (mret a).
Proof. apply settles_pure; [by exists a|by apply leaves_pure]. Qed.

(** Writing at a path apart. *)
Definition apart (path : bytes) : Prop := path_ok path /\ elsewhere (path_steps path).
Lemma leaves_write_all p v : leaves (store_write_all p v).
Proof. unfold store_write_all, store_delete_value. apply leaves_bind; [apply leaves_call; intros ?; apply i_delete_value|intros _; apply leaves_write]. Qed.
Lemma settles_write path v : apart path -> path_steps DEPOSIT_NONCE <> path_steps path -> size_ok (length v) -> settles (host (store_write path v 0)).
Proof.
  intros [Hp He] Hne Hv. split; [apply leaves_map_err, leaves_write|]. intros s st Hr.
  destruct (host_store_write s _ path v 0 (rd_ok s st Hr) Hp eq_refl) as (s'&E&Hw); [lia|done|]. exists tt, s'. split; [done|]. by eapply readable_wrote.
Qed.
Lemma settles_write_all path v : apart path -> size_ok (length v) -> settles (host (store_write_all path v)).
Proof.
  intros [Hp He] Hv. split; [apply leaves_map_err, leaves_write_all|]. intros s st Hr.
  destruct (store_write_all_spec s path v (rd_ok s st Hr) Hp Hv) as (s'&E&Hs'&Hset). exists tt, s'. split; [by apply host_ok|].
  eapply (readable_wrote s st (path_steps path) v); [done..| |done]. split_and!; [done..|]. intros q Hq. apply (store_write_all_nodes s path v); [done|]. by rewrite E.
Qed.
(** Reading cannot panic. *)
Lemma slice_total path s : c_ok s -> path_ok path -> (exists b, store_read_slice path 8 8 s = (Ok b, s)) \/ (exists e, store_read_slice path 8 8 s = (Err e, s)).
Proof.
  intros Hs Hp. destruct (c_value s (path_steps path)) as [v|] eqn:Ev; [|right; eexists; by apply read_slice_none].
  unfold store_read_slice, mbind, M_bind, host, M_map_err, KernelHost.store_read_slice. rewrite repeat_length, (c_read s path 0 8 v) by (done || lia). cbn zeta.
  unfold host_result. rewrite wrap_nat. cbn [map_err mbind outcome_bind]. destruct (_ =? 8); [left|right]; by eexists.
Qed.
Lemma settles_timestamp : settles (or_else 0%Z read_last_info_per_level_timestamp).
Proof.
  unfold read_last_info_per_level_timestamp, read_timestamp_path. apply settles_pure.
  - intros s Hs. unfold or_else, M_ok, mbind, M_bind.
    destruct (slice_total EVM_INFO_PER_LEVEL_TIMESTAMP s Hs) as [[a ->]|[e ->]]; [by apply path_ok_compute| |]; by eexists.
  - apply leaves_bind; [apply leaves_ok, leaves_bind; [apply leaves_slice|]|]; intros ?; by apply leaves_pure.
Qed.
Lemma settles_stats : settles (or_else (0, 0)%Z read_last_info_per_level_timestamp_stats).
Proof.
  apply settles_pure.
  - intros s Hs. unfold or_else, read_last_info_per_level_timestamp_stats, M_ok, mbind, M_bind. 
    destruct (slice_total EVM_INFO_PER_LEVEL_STATS_NUMBERS s Hs) as [[a ->]|[e ->]]; [by apply path_ok_compute| |by eexists].
    destruct (slice_total EVM_INFO_PER_LEVEL_STATS_TOTAL s Hs) as [[b ->]|[e ->]]; [by apply path_ok_compute| |]; by eexists.
  - unfold or_else, read_last_info_per_level_timestamp_stats.
    apply leaves_bind; [apply leaves_ok, leaves_bind; [apply leaves_slice|intros ?; apply leaves_bind; [apply leaves_slice|intros ?; by apply leaves_pure]]|intros ?; by apply leaves_pure].
Qed.

Ltac apart := split; [by apply path_ok_compute|eexists _, _; split; [reflexivity|vm_compute; discriminate]].
Lemma i64_size t : size_ok (length (i64_le_bytes t)).
Proof. unfold i64_le_bytes. rewrite length_le_bytes. by vm_compute. Qed.
Lemma settles_info t : settles (store_last_info_per_level_timestamp t).
Proof.
  unfold store_last_info_per_level_timestamp, store_timestamp_path, store_info_per_level_stats.
  apply settles_bind; [apply settles_write; [apart|done|apply i64_size]|intros _]. apply settles_bind; [apply settles_timestamp|intros old].
  apply settles_bind; [apply settles_stats|intros [numbers total]]. apply settles_bind; [apply settles_write; [apart|done|apply i64_size]|intros _].
  apply settles_write; [apart|done|apply i64_size].
Qed.
Lemma settles_nonce : settles get_and_increment_deposit_nonce.
Proof.
  unfold get_and_increment_deposit_nonce. apply settles_bind; [|intros bs; apply settles_bind; [|intros _; apply settles_ret]].
  - assert (Hp : path_ok DEPOSIT_NONCE) by (by apply path_ok_compute). assert (E : forall s st, readable s st -> exists o, M_ok (F := Error) (store_read_all DEPOSIT_NONCE) s = (Ok o, s)).
    { intros s st Hr. unfold M_ok. destruct (c_value s (path_steps DEPOSIT_NONCE)) as [v|] eqn:Ev.
      - rewrite (store_read_all_spec s _ v) by (try done; by eapply rd_nonce || by eapply rd_ok). by eexists.
      - rewrite store_read_all_none by (done || by eapply rd_ok). by eexists. }
    split; [|intros s st Hr; destruct (E s st Hr) as [o ->]; by exists o, s]. apply leaves_ok. unfold store_read_all. apply leaves_bind; [apply leaves_value_size|].
    intros len. apply leaves_read_chunks.
  - apply settles_write_all; [apart|]. rewrite length_le_bytes. by vm_compute.
Qed.
Lemma settles_deposit d : settles (handle_deposit d).
Proof.
  unfold handle_deposit. apply settles_bind; [apply settles_nonce|intros n]. cbn zeta. rewrite (proj2 (Nat.eqb_eq _ _) (keccak_sized _)). apply settles_ret.
Qed.
Lemma settles_kernel {A} (p : M S Error A) : settles p -> settles (kernel_call p).
Proof.
  intros [Hl Hp]. split; [by apply leaves_map_err|]. intros s st Hr. destruct (Hp s st Hr) as (a&s'&E&Hr'). exists a, s'. split; [|done]. unfold kernel_call, M_map_err. by rewrite E.
Qed.

(** ** A turn of the loop *)

(** Inputs that are not about chunks. *)
Lemma handle_other i res s st : readable s st -> match i with NewChunked _ _ _ | Chunk _ _ _ _ | Simulation => False | NewSequencer pk => size_ok (length (public_key_to_b58check pk)) | _ => True end ->
  exists res' s', handle_input i res s = (Ok (Some res'), s') /\ readable s' st /\ i_left s' = i_left s /\ inbox_transactions res ⊆ inbox_transactions res'.
Proof.
  intros Hr Hi. assert (Hcall : forall A (p : M S Error A) (k : A -> InboxContent), settles p -> (forall a, inbox_transactions res ⊆ inbox_transactions (k a)) ->
    exists res' s', (a ← kernel_call p; mret (Some (k a))) s = (Ok (Some res'), s') /\ readable s' st /\ i_left s' = i_left s /\ inbox_transactions res ⊆ inbox_transactions res').
  { intros A p k Hp Hk. destruct (proj2 (settles_kernel p Hp) s st Hr) as (a&s'&E&Hr'). exists (k a), s'. unfold mbind, M_bind. rewrite E. split_and!; [done..| |apply Hk].
    pose proof (proj1 (settles_kernel p Hp) s) as Hl. by rewrite E in Hl. }
  assert (Hpure : forall res', inbox_transactions res ⊆ inbox_transactions res' -> exists res'' s', (mret (Some res') : M S Anyhow _) s = (Ok (Some res''), s') /\ readable s' st /\
    i_left s' = i_left s /\ inbox_transactions res ⊆ inbox_transactions res'') by (intros res' H; by exists res', s).
  destruct i as [tx|d|u|pk| | | |info|b]; try done; cbn [handle_input].
  - apply Hpure. cbn. set_solver.
  - apply (Hcall _ (handle_deposit d) (fun tx => push_transaction tx res)); [apply settles_deposit|]. intros tx. cbn. set_solver.
  - by apply Hpure.
  - apply (Hcall _ (store_sequencer pk) (fun _ => res)); [|done]. apply settles_write_all; [apart|done].
  - apply (Hcall _ (store_last_info_per_level_timestamp _) (fun _ => res)); [apply settles_info|done].
  - by apply Hpure.
Qed.

Lemma handle_of_chunk c res s : handle_input (of_chunk c) res s =
  (tx ← kernel_call (handle_chunk_input c); mret (Some (match tx with Some tx => push_transaction tx res | None => res end))) s.
Proof.
  destruct c as [h n hs|h i ch data]; [|done]. cbn [of_chunk handle_input handle_chunk_input]. unfold mbind, M_bind, kernel_call, M_map_err.
  by destruct (create_chunked_transaction h n hs s) as [[] ?].
Qed.
Lemma handle_chunk c res s st : readable s st -> input_ok c -> exists res' s', handle_input (of_chunk c) res s = (Ok (Some res'), s') /\
  readable s' (spec_input c st).2 /\ i_left s' = i_left s /\ inbox_transactions res ++ option_list (spec_input c st).1 ⊆ inbox_transactions res'.
Proof.
  intros Hr Hc. destruct (input_spec c s st (rd_chunks s st Hr) Hc) as (s'&E&Hr'&Hk). rewrite handle_of_chunk. unfold mbind, M_bind, kernel_call, M_map_err. rewrite E.
  eexists _, s'. split_and!; [done|by eapply readable_kept| |].
  - pose proof (leaves_input c s) as H. by rewrite E in H.
  - destruct (spec_input c st).1; cbn; [done|]. by rewrite app_nil_r.
Qed.

(** A message is read. *)
Lemma read_message cfg m ms s st : treatable cfg m -> i_left s = m :: ms -> readable s st -> exists r s', reads_as cfg m = Ok r /\
  kernel_call (read_input cfg) s = (Ok r, s') /\ i_left s' = ms /\ readable s' st.
Proof.
  intros (Hne&Hl&Ht) Hleft Hr. destruct (i_next s m ms (rd_ok s st Hr) Hleft Hl) as (info&s'&E&Hl'&Hs'&Hv&Hn).
  assert (Hr' : exists r, reads_as cfg m = Ok r) by (destruct (reads_as cfg m); by eauto). destruct Hr' as [r Hm]. exists r, s'. split_and!; [done| |done|by eapply readable_same].
  unfold kernel_call, read_input, M_map_err, mbind, M_bind, host, M_map_err, KernelInput.read_input. rewrite E.
  destruct info as [l i]. unfold host_result. rewrite wrap_nat. cbn -[Nat.eqb parse]. rewrite (proj2 (Nat.eqb_neq _ _)) by (by destruct m). cbn -[parse]. rewrite take_ge by done.
  unfold lift. fold (reads_as cfg m). by rewrite Hm.
Qed.

Definition spec_message (o : option ChunkInput) st : option Transaction * gmap bytes pending := match o with Some c => spec_input c st | None => (None, st) end.
Lemma turn_ok cfg m ms fuel empty res s st : treatable cfg m -> i_left s = m :: ms -> readable s st -> exists res' s',
  read_loop (Datatypes.S fuel) cfg empty res s = read_loop fuel cfg false res' s' /\ i_left s' = ms /\
  readable s' (spec_message (to_chunk (reads_as cfg m)) st).2 /\
  inbox_transactions res ++ option_list (spec_message (to_chunk (reads_as cfg m)) st).1 ⊆ inbox_transactions res'.
Proof.
  intros Ht Hleft Hr. destruct (read_message cfg m ms s st Ht Hleft Hr) as (r&s1&Hm&E&Hl1&Hr1). destruct Ht as (_&_&Ht). rewrite Hm in Ht |- *.
  destruct (to_chunk (Ok r)) as [c|] eqn:Ec; cbn [spec_message].
  - apply to_chunk_Some in Ec. injection Ec as ->. assert (Hc : input_ok c) by (by destruct c). destruct (handle_chunk c res s1 st Hr1 Hc) as (res'&s2&E2&Hr2&Hl2&Hsub).
    exists res', s2. split_and!; [|congruence|done..]. cbn [read_loop]. unfold mbind at 1, M_bind at 1. rewrite E. cbn beta iota. unfold mbind, M_bind. by rewrite E2.
  - cbn [fst snd option_list]. rewrite app_nil_r. destruct r as [|i|]; [done| |].
    + assert (Hi : match i with NewChunked _ _ _ | Chunk _ _ _ _ | Simulation => False | NewSequencer pk => size_ok (length (public_key_to_b58check pk)) | _ => True end) by (by destruct i).
      destruct (handle_other i res s1 st Hr1 Hi) as (res'&s2&E2&Hr2&Hl2&Hsub). exists res', s2. split_and!; [|congruence|done..].
      cbn [read_loop]. unfold mbind at 1, M_bind at 1. rewrite E. cbn beta iota. unfold mbind, M_bind. by rewrite E2.
    + exists res, s1. split_and!; [|done..]. cbn [read_loop]. unfold mbind, M_bind. by rewrite E.
Qed.

(** The whole inbox is read. *)
Lemma read_loop_all cfg ms : forall fuel empty res s st, Forall (treatable cfg) ms -> i_left s = ms -> readable s st -> length ms < fuel -> (empty = true -> ms <> []) ->
  exists content s', read_loop fuel cfg empty res s = (Ok (Some content), s') /\ i_left s' = [] /\
    inbox_transactions res ++ (spec_inputs (chunk_inputs cfg ms) st).1 ⊆ inbox_transactions content.
Proof.
  induction ms as [|m ms IH]; intros fuel empty res s st Hms Hleft Hr Hf Hempty; (destruct fuel as [|fuel]; [cbn in Hf; lia|]).
  - destruct empty; [by destruct (Hempty eq_refl)|]. destruct (i_none s Hleft) as (info&bs&s'&E&Hl). exists res, s'. split_and!; [|done|by rewrite app_nil_r]. cbn [read_loop].
    unfold mbind, M_bind, kernel_call, read_input, M_map_err, mbind, M_bind, host, M_map_err, KernelInput.read_input. rewrite E. by destruct info.
  - apply Forall_cons in Hms as [Hm Hms]. destruct (turn_ok cfg m ms fuel empty res s st Hm Hleft Hr) as (res'&s1&E&Hl&Hr1&Hsub).
    destruct (IH fuel false res' s1 _ Hms Hl Hr1) as (content&s'&E'&Hl'&Hsub'); [cbn in Hf; lia|done|]. exists content, s'. split_and!; [by rewrite E|done|].
    assert (Hspec : (spec_inputs (chunk_inputs cfg (m :: ms)) st).1 = option_list (spec_message (to_chunk (reads_as cfg m)) st).1 ++
      (spec_inputs (chunk_inputs cfg ms) (spec_message (to_chunk (reads_as cfg m)) st).2).1).
    { unfold chunk_inputs. cbn [omap list_omap]. destruct (to_chunk _) as [c|]; cbn [spec_message]; [|done]. cbn [spec_inputs]. destruct (spec_input c st) as [o st1]. cbn [fst snd].
      destruct (spec_inputs _ st1). by destruct o. }
    rewrite Hspec. set_solver.
Qed.

(** C23: a transaction sent in chunks is read from the inbox, by a kernel without a sequencer.  The inbox holds any messages that the kernel can treat (those it cannot parse, those of each level, transactions, deposits,
    upgrades, announcements and chunks of any transactions), among which a message that announces the transaction, which was not announced before, and then each
    of its chunks, in any order and repeated or not; all that is sent as a chunk of this transaction after the announcement is one of its chunks at its place.
    Then the kernel reads the whole inbox without an error and the transaction is among those of the content; fuel for one more turn than there are messages is enough. *)
Theorem sent_transaction_is_read cfg h hashes chunks eth_tx before announcement after fuel s st :
  length (smart_rollup_address cfg) = hash_size SmartRollupHash -> cfg_sequencer cfg = None -> readable s st -> st !! h = None ->
  sendable chunks -> keccak256 (mjoin chunks) = h -> from_bytes (mjoin chunks) = Ok eth_tx ->
  i_left s = before ++ announcement :: after -> length (i_left s) < fuel ->
  Forall (treatable cfg) before -> Forall (fun c => ~ announces h c) (chunk_inputs cfg before) ->
  carries cfg (NewChunkedTransaction h (N.of_nat (length chunks)) hashes) announcement ->
  Forall (treatable cfg) after -> Forall (honest h hashes chunks) (chunk_inputs cfg after) ->
  (forall i, i < length chunks -> Exists (fun m => exists ch data, carries cfg (TransactionChunk h (N.of_nat i) ch data) m) after) ->
  exists content s', read_inbox fuel cfg s = (Ok (Some content), s') /\ i_left s' = [] /\ mkTransaction h (Ethereum eth_tx) ∈ inbox_transactions content.
Proof.
  intros Ha Hseq Hr Hnone Hsend Hh Htx Hleft Hf Hbefore Hnew Hann Hafter Hhon Hall.
  assert (Hms : Forall (treatable cfg) (before ++ announcement :: after))
    by (apply Forall_app; split; [done|]; constructor; [by eapply treatable_carried|done]).
  destruct (read_loop_all cfg _ fuel true (mkInboxContent None [] []) s st Hms Hleft Hr) as (content&s'&E&Hl&Hsub); [congruence|by destruct before|].
  exists content, s'. split_and!; [exact E|done|]. apply Hsub. cbn [inbox_transactions app]. unfold chunk_inputs. rewrite omap_app. fold (chunk_inputs cfg before).
  rewrite spec_inputs_app. apply elem_of_app. right. cbn [omap list_omap]. rewrite (carries_reads cfg _ _ Ha Hseq Hann), to_of_chunk. fold (chunk_inputs cfg after).
  apply spec_delivers_at; [done..|by apply not_announced|done|]. intros i Hi. specialize (Hall i Hi). apply Exists_exists in Hall as (m&Hin&ch&data&Hc).
  apply Exists_exists. exists (TransactionChunk h (N.of_nat i) ch data). split; [|done]. apply list_elem_of_omap. exists m. split; [done|].
  rewrite (carries_reads cfg _ _ Ha Hseq Hc). done.
Qed.
End inbox.
