(* ===== verification/EvmSafe.v ===== *)
(** The safe storage of the Etherlink kernel.

    Models [etherlink/kernel_evm/kernel/src/safe_storage.rs].  The kernel runs on a host whose paths are all below [/tmp], a copy of the storage that
    is promoted when the run succeeds.  [SafeStorage] is such a host, a state that was reached from that of the host below by the operations it passes on. *)

From stdpp Require Import relations.
From S2P Require Import Prelude SdkInstaller Endian KernelPath KernelHost KernelRuntime KernelInput KernelStorage EvmErrors Rlp EvmStorage LinkedList EthTypes EthSign EvmTx EthBlock EvmStore EvmAccounts EvmBlueprints EvmApply EvmBlock.

Definition BACKUP_KERNEL_BOOT_PATH : bytes := str "/__backup_kernel/boot.wasm".
Definition TMP_PATH : bytes := str "/tmp".
Definition STORE_HASH_SIZE : nat := 32.

Definition safe_path (path : bytes) : outcome RuntimeError bytes := map_err (fun _ => PathNotFound) (concat TMP_PATH path).

(** The host function [__internal_store_get_hash]: the code and the bytes written in the buffer. *)
Class InternalRuntime (S : Type) := { core_store_get_hash : bytes -> nat -> S -> Z * bytes }.

Section methods.
Context {S : Type} {core : SmartRollupCore S} {internal : InternalRuntime S}.
Abbreviation runM := (M S RuntimeError).

Definition internal_store_get_hash (path : bytes) : runM bytes := fun s =>
  let '(result, bs) := core_store_get_hash path STORE_HASH_SIZE s in
  (_ ← host_result result; Ok (bs ++ drop (length bs) (repeat Byte.x00 STORE_HASH_SIZE)), s).
Definition extended_store_get_hash (path : option bytes) : runM bytes :=
  match path with
  | Some p => path ← lift (safe_path p); internal_store_get_hash path
  | None => internal_store_get_hash TMP_PATH
  end.

(** * The methods of [Runtime] *)

Definition with_safe_path {A} (path : bytes) (k : bytes -> runM A) : runM A := path ← lift (safe_path path); k path.
Definition safe_store_has (path : bytes) : runM (option ValueType) := with_safe_path path store_has.
Definition safe_store_read (path : bytes) (from_offset max_bytes : nat) : runM bytes := with_safe_path path (fun path => store_read path from_offset max_bytes).
Definition safe_store_read_slice (path : bytes) (from_offset : nat) (buffer : bytes) : runM (nat * bytes) :=
  with_safe_path path (fun path => KernelHost.store_read_slice path from_offset buffer).
Definition safe_store_read_all (path : bytes) : runM bytes := with_safe_path path store_read_all.
Definition safe_store_write (path src : bytes) (at_offset : nat) : runM unit := with_safe_path path (fun path => store_write path src at_offset).
Definition safe_store_write_all (path src : bytes) : runM unit := with_safe_path path (fun path => store_write_all path src).
Definition safe_store_delete (path : bytes) : runM unit := with_safe_path path store_delete.
Definition safe_store_delete_value (path : bytes) : runM unit := with_safe_path path store_delete_value.
Definition safe_store_count_subkeys (prefix : bytes) : runM nat := with_safe_path prefix store_count_subkeys.
Definition safe_store_value_size (path : bytes) : runM nat := with_safe_path path store_value_size.
Definition safe_store_move (from_path to_path : bytes) : runM unit :=
  from_path ← lift (safe_path from_path); to_path ← lift (safe_path to_path); store_move from_path to_path.
Definition safe_store_copy (from_path to_path : bytes) : runM unit :=
  from_path ← lift (safe_path from_path); to_path ← lift (safe_path to_path); store_copy from_path to_path.

(** * Promotion *)

Definition backup_current_kernel : runM unit := store_copy KERNEL_BOOT_PATH BACKUP_KERNEL_BOOT_PATH.
Definition fallback_backup_kernel : runM unit := store_move BACKUP_KERNEL_BOOT_PATH KERNEL_BOOT_PATH.
Definition clean_backup_kernel : runM unit := store_delete BACKUP_KERNEL_BOOT_PATH.
Definition promote_upgrade : runM unit :=
  safe_kernel_boot_path ← lift (safe_path KERNEL_BOOT_PATH);
  upgrade ← M_ok (store_read safe_kernel_boot_path 0 0);
  match upgrade with
  | Some _ => _ ← backup_current_kernel; store_move safe_kernel_boot_path KERNEL_BOOT_PATH
  | None =>
      backup ← M_ok (store_read BACKUP_KERNEL_BOOT_PATH 0 0);
      match backup with Some _ => clean_backup_kernel | None => mret tt end
  end.
Definition promote (path : bytes) : runM unit := store_move TMP_PATH path.
Definition revert : runM unit := store_delete TMP_PATH.
End methods.

(** * Safe storage as a host *)

(** The path below [/tmp] of a path, which is valid, as values of [Path] are. *)
Definition safe_key (path : bytes) : option bytes :=
  match try_from path with
  | Ok path => match concat TMP_PATH path with Ok key => Some key | _ => None end
  | _ => None
  end.

Section host.
Context {S : Type} {core : SmartRollupCore S} {input : InputCore S} {internal : InternalRuntime S}.

(** What is passed on to the host: the operations on paths, prefixed with [/tmp], and those that have no path. *)
Inductive safe_step : S -> S -> Prop :=
  | step_write p k off bs s : safe_key p = Some k -> safe_step s (core_store_write k off bs s).2
  | step_delete p k s : safe_key p = Some k -> safe_step s (core_store_delete k s).2
  | step_delete_value p k s : safe_key p = Some k -> safe_step s (core_store_delete_value k s).2
  | step_move p q k l s : safe_key p = Some k -> safe_key q = Some l -> safe_step s (core_store_move k l s).2
  | step_copy p q k l s : safe_key p = Some k -> safe_key q = Some l -> safe_step s (core_store_copy k l s).2
  | step_output o s : safe_step s (core_write_output o s).2
  | step_input n s : safe_step s (core_read_input n s).2
  | step_reboot s : safe_step s (KernelHost.mark_for_reboot s).2.

(** [SafeStorage { host, internal }], from the state [s0] of the host. *)
Record SafeStorage (s0 : S) : Type := mkSafe { safe_host : S; reached : rtc safe_step s0 safe_host }.
#[global] Arguments mkSafe {_} _ _.
#[global] Arguments safe_host {_} _.
#[global] Arguments reached {_} _.
Definition safe_start (s0 : S) : SafeStorage s0 := mkSafe s0 (rtc_refl _ _).

(** A call that is passed on. *)
Definition pass {A} (f : S -> A * S) (Hf : forall s, rtc safe_step s (f s).2) {s0} (self : SafeStorage s0) : A * SafeStorage s0 :=
  let r := f (safe_host self) in (r.1, mkSafe r.2 (rtc_trans _ _ _ (reached self) (Hf _))).

(** No path of the kernel is as long as to be refused below [/tmp]; such paths give the error of an invalid key. *)
Definition with_key {A} (path : bytes) (d : A) (k : bytes -> A) : A := match safe_key path with Some key => k key | None => d end.
Definition refused : S -> Z * S := fun s => (KernelHost.code StoreInvalidKey, s).
Definition safe_write p off bs : S -> Z * S := with_key p refused (fun k => core_store_write k off bs).
Definition safe_delete p : S -> Z * S := with_key p refused core_store_delete.
Definition safe_delete_value p : S -> Z * S := with_key p refused core_store_delete_value.
Definition safe_move p q : S -> Z * S := with_key p refused (fun k => with_key q refused (core_store_move k)).
Definition safe_copy p q : S -> Z * S := with_key p refused (fun k => with_key q refused (core_store_copy k)).

Ltac passed := unfold safe_write, safe_delete, safe_delete_value, safe_move, safe_copy, with_key; repeat case_match; try reflexivity; apply rtc_once; econstructor; eassumption.
Lemma safe_write_steps p off bs s : rtc safe_step s (safe_write p off bs s).2.
Proof. passed. Qed.
Lemma safe_delete_steps p s : rtc safe_step s (safe_delete p s).2.
Proof. passed. Qed.
Lemma safe_delete_value_steps p s : rtc safe_step s (safe_delete_value p s).2.
Proof. passed. Qed.
Lemma safe_move_steps p q s : rtc safe_step s (safe_move p q s).2.
Proof. passed. Qed.
Lemma safe_copy_steps p q s : rtc safe_step s (safe_copy p q s).2.
Proof. passed. Qed.
Lemma output_steps o s : rtc safe_step s (core_write_output o s).2.
Proof. apply rtc_once, step_output. Qed.
Lemma reboot_steps s : rtc safe_step s (KernelHost.mark_for_reboot s).2.
Proof. apply rtc_once, step_reboot. Qed.
Lemma input_steps n s : rtc safe_step s (core_read_input n s).2.
Proof. apply rtc_once, step_input. Qed.

#[global] Instance SafeStorage_core s0 : SmartRollupCore (SafeStorage s0) := {
  core_store_has p self := with_key p (KernelHost.code StoreInvalidKey) (fun k => core_store_has k (safe_host self));
  core_store_read p off max self := with_key p (KernelHost.code StoreInvalidKey, []) (fun k => core_store_read k off max (safe_host self));
  core_store_write p off bs := pass (safe_write p off bs) (safe_write_steps p off bs);
  core_store_delete p := pass (safe_delete p) (safe_delete_steps p);
  core_store_delete_value p := pass (safe_delete_value p) (safe_delete_value_steps p);
  core_store_list_size p self := with_key p (KernelHost.code StoreInvalidKey) (fun k => core_store_list_size k (safe_host self));
  core_store_move p q := pass (safe_move p q) (safe_move_steps p q);
  core_store_copy p q := pass (safe_copy p q) (safe_copy_steps p q);
  core_store_value_size p self := with_key p (KernelHost.code StoreInvalidKey) (fun k => core_store_value_size k (safe_host self));
  core_write_output o := pass (core_write_output o) (output_steps o)
}.
#[global] Instance SafeStorage_input s0 : InputCore (SafeStorage s0) := {
  core_read_input n := pass (core_read_input n) (input_steps n);
  core_reveal_metadata n self := core_reveal_metadata n (safe_host self)
}.
#[global] Instance SafeStorage_reboot s0 : RebootRuntime (SafeStorage s0) := {| mark_for_reboot := pass KernelHost.mark_for_reboot reboot_steps |}.
#[global] Instance SafeStorage_extended s0 : ExtendedRuntime (SafeStorage s0) := {|
  store_get_hash path self := ((extended_store_get_hash path (safe_host self)).1, self)
|}.
End host.

(** * The methods are those of the source *)

Section agreement.
Context {S : Type} {core : SmartRollupCore S} {input : InputCore S} {internal : InternalRuntime S} {s0 : S}.

(** A program on the safe storage does what another does on the host. *)
Definition agrees {E A} (m : M (SafeStorage s0) E A) (m' : M S E A) : Prop :=
  forall self, ((m self).1, safe_host (m self).2) = m' (safe_host self).

Lemma agrees_bind {E A B} (m : M (SafeStorage s0) E A) m' (k : A -> M (SafeStorage s0) E B) k' :
  agrees m m' -> (forall a, agrees (k a) (k' a)) -> agrees (m ≫= k) (m' ≫= k').
Proof.
  intros Hm Hk self. specialize (Hm self). unfold mbind, M_bind. destruct (m self) as [o self']. cbn in Hm. rewrite <- Hm.
  destruct o as [a|e|p|]; [apply Hk|done..].
Qed.
Lemma agrees_ret {E A} (a : A) : agrees (E := E) (mret a) (mret a).
Proof. done. Qed.
Lemma agrees_call (f : SafeStorage s0 -> Z * SafeStorage s0) f' : (forall self, ((f self).1, safe_host (f self).2) = f' (safe_host self)) ->
  agrees (host_call f) (host_call f').
Proof. intros H self. specialize (H self). unfold host_call. rewrite <- H. by destruct (f self). Qed.
Lemma agrees_query (f : SafeStorage s0 -> Z) f' : (forall self, f self = f' (safe_host self)) -> agrees (host_query f) (host_query f').
Proof. intros H self. unfold host_query. cbn. by rewrite H. Qed.

Context (p k : bytes) (Hk : safe_key p = Some k).
Lemma has_key (self : SafeStorage s0) : core_store_has p self = core_store_has k (safe_host self).
Proof. cbn. unfold with_key. by rewrite Hk. Qed.
Lemma read_key off max (self : SafeStorage s0) : core_store_read p off max self = core_store_read k off max (safe_host self).
Proof. cbn. unfold with_key. by rewrite Hk. Qed.
Lemma write_key off bs : agrees (host_call (core_store_write p off bs)) (host_call (core_store_write k off bs)).
Proof. apply agrees_call. intros self. cbn. unfold safe_write, with_key. rewrite Hk. by destruct (core_store_write k off bs (safe_host self)). Qed.
Lemma delete_key : agrees (host_call (core_store_delete p)) (host_call (core_store_delete k)).
Proof. apply agrees_call. intros self. cbn. unfold safe_delete, with_key. rewrite Hk. by destruct (core_store_delete k (safe_host self)). Qed.
Lemma delete_value_key : agrees (store_delete_value p) (store_delete_value k).
Proof. apply agrees_call. intros self. cbn. unfold safe_delete_value, with_key. rewrite Hk. by destruct (core_store_delete_value k (safe_host self)). Qed.

Lemma has_agrees : agrees (store_has p) (store_has k).
Proof. intros self. unfold store_has. cbn [fst snd]. by rewrite has_key. Qed.
Lemma check_exists_agrees : agrees (check_path_exists p) (check_path_exists k).
Proof.
  intros self. unfold check_path_exists. pose proof (has_agrees self) as H. destruct (store_has p self) as [o self']. cbn in H. rewrite <- H.
  by destruct o as [[]| | |].
Qed.
Lemma check_value_agrees : agrees (check_path_has_value p) (check_path_has_value k).
Proof.
  intros self. unfold check_path_has_value. pose proof (has_agrees self) as H. destruct (store_has p self) as [o self']. cbn in H. rewrite <- H.
  by destruct o as [[[]|]| | |].
Qed.
Lemma read_slice_agrees off buffer : agrees (KernelHost.store_read_slice p off buffer) (KernelHost.store_read_slice k off buffer).
Proof. intros self. unfold KernelHost.store_read_slice. rewrite read_key. by destruct (core_store_read k off (length buffer) (safe_host self)). Qed.
Lemma read_chunk_agrees off max : agrees (read_chunk p off max) (read_chunk k off max).
Proof. intros self. unfold read_chunk. rewrite read_key. by destruct (core_store_read k off max (safe_host self)). Qed.
Lemma read_chunks_agree fuel len : forall buffer, agrees (KernelHost.read_chunks fuel p len buffer) (KernelHost.read_chunks fuel k len buffer).
Proof.
  induction fuel as [|fuel IH]; intros buffer; cbn [KernelHost.read_chunks]; destruct (_ <? _); try done.
  apply agrees_bind; [apply read_chunk_agrees|]. intros chunk. apply IH.
Qed.
Lemma write_chunks_agree fuel : forall src off, agrees (write_chunks fuel p src off) (write_chunks fuel k src off).
Proof.
  induction fuel as [|fuel IH]; intros src off; cbn [write_chunks]; destruct (_ <? _); try done; try (destruct src; [done|apply write_key]).
  apply agrees_bind; [apply write_key|]. intros _. apply IH.
Qed.
Lemma value_size_agrees : agrees (store_value_size p) (store_value_size k).
Proof. apply agrees_bind; [apply check_exists_agrees|]. intros _. apply agrees_query. intros self. cbn. unfold with_key. by rewrite Hk. Qed.
Lemma write_agrees src off : agrees (store_write p src off) (store_write k src off).
Proof. unfold store_write. destruct (_ <=? _); [apply write_key|apply write_chunks_agree]. Qed.
End agreement.

(** The safe storage that programs run on is the one of the source: for paths that are not too long below [/tmp], each method of [Runtime] on it does to the host
    what the method of the source does. *)
Theorem safe_storage_methods {S : Type} {core : SmartRollupCore S} {input : InputCore S} {s0 : S} (p q : bytes) :
  path_ok p -> path_ok q -> length TMP_PATH + length p <= PATH_MAX_SIZE -> length TMP_PATH + length q <= PATH_MAX_SIZE ->
  agrees (s0 := s0) (store_has p) (safe_store_has p) /\ (forall off max, agrees (s0 := s0) (store_read p off max) (safe_store_read p off max)) /\
  (forall off buffer, agrees (s0 := s0) (KernelHost.store_read_slice p off buffer) (safe_store_read_slice p off buffer)) /\
  agrees (s0 := s0) (store_read_all p) (safe_store_read_all p) /\ agrees (s0 := s0) (store_value_size p) (safe_store_value_size p) /\
  agrees (s0 := s0) (store_count_subkeys p) (safe_store_count_subkeys p) /\
  (forall src off, agrees (s0 := s0) (store_write p src off) (safe_store_write p src off)) /\
  (forall src, agrees (s0 := s0) (store_write_all p src) (safe_store_write_all p src)) /\
  agrees (s0 := s0) (store_delete p) (safe_store_delete p) /\ agrees (s0 := s0) (store_delete_value p) (safe_store_delete_value p) /\
  agrees (s0 := s0) (store_move p q) (safe_store_move p q) /\ agrees (s0 := s0) (store_copy p q) (safe_store_copy p q).
Proof.
  assert (Hpath : forall x, length TMP_PATH + length x <= PATH_MAX_SIZE -> safe_path x = Ok (TMP_PATH ++ x)).
  { intros x Hl. unfold safe_path, concat. rewrite length_app. by rewrite (proj2 (Nat.leb_le _ _)). }
  assert (Hkey : forall x, path_ok x -> length TMP_PATH + length x <= PATH_MAX_SIZE -> safe_key x = Some (TMP_PATH ++ x)).
  { intros x Hx Hl. unfold safe_key, try_from. rewrite (proj2 (validate_path_spec x) Hx). cbn [mbind outcome_bind]. unfold concat. rewrite length_app.
    by rewrite (proj2 (Nat.leb_le _ _)). }
  intros Hp Hq Lp Lq. pose proof (Hkey p Hp Lp) as Kp. pose proof (Hkey q Hq Lq) as Kq.
  assert (Hsafe : forall A (m : M (SafeStorage s0) RuntimeError A) f, agrees m (f (TMP_PATH ++ p)) -> agrees m (with_safe_path p f)).
  { intros A m f Hm self. rewrite Hm. unfold with_safe_path. by rewrite Hpath. }
  assert (Hboth : forall f, agrees (s0 := s0) f (store_move (TMP_PATH ++ p) (TMP_PATH ++ q)) -> agrees f (safe_store_move p q)).
  { intros f Hf self. rewrite Hf. unfold safe_store_move. by rewrite !Hpath. }
  assert (Hboth' : forall f, agrees (s0 := s0) f (store_copy (TMP_PATH ++ p) (TMP_PATH ++ q)) -> agrees f (safe_store_copy p q)).
  { intros f Hf self. rewrite Hf. unfold safe_store_copy. by rewrite !Hpath. }
  split_and!; intros; first [apply Hboth | apply Hboth' | apply Hsafe].
  - by apply has_agrees.
  - apply agrees_bind; [by apply check_value_agrees|]. intros _. apply agrees_bind; [by apply read_slice_agrees|]. by intros [].
  - by apply read_slice_agrees.
  - apply agrees_bind; [by apply value_size_agrees|]. intros len. by apply read_chunks_agree.
  - by apply value_size_agrees.
  - intros self. unfold store_count_subkeys. cbn. unfold with_key. by rewrite Kp.
  - by apply write_agrees.
  - apply agrees_bind; [by apply delete_value_key|]. intros _. by apply write_agrees.
  - apply agrees_bind; [by apply check_exists_agrees|]. intros _. by apply delete_key.
  - by apply delete_value_key.
  - apply agrees_bind; [by apply check_exists_agrees|]. intros _. apply agrees_call. intros self. cbn. unfold safe_move, with_key. rewrite Kp, Kq.
    by destruct (core_store_move _ _ (safe_host self)).
  - apply agrees_bind; [by apply check_exists_agrees|]. intros _. apply agrees_call. intros self. cbn. unfold safe_copy, with_key. rewrite Kp, Kq.
    by destruct (core_store_copy _ _ (safe_host self)).
Qed.
