(* ===== verification/EvmKernel.v ===== *)
(** The main loop of the kernel.

    Models [main], [log_error] and [kernel_loop] of [etherlink/kernel_evm/kernel/src/lib.rs].  The text
    of errors ([DebugAnyhow]) is that of crates outside of the repository.  Logs are left out. *)

From S2P Require Import Prelude SdkDac Endian SdkNom SdkMicheline SdkMichelson SdkMessages KernelPath KernelHost KernelRuntime KernelInput KernelStorage EvmErrors Rlp EvmStorage LinkedList EthTypes EthSign EvmTx EthBlock EvmStore EvmChunks EvmAccounts EvmBlueprints EvmApply EvmBlock EvmParsing EvmStageZero EvmSimulation EvmInbox EvmSafe.

(** * A run of the kernel (main) *)

Section main.
Context {S : Type} {core : SmartRollupCore S} {input : InputCore S} {ext : ExtendedRuntime S} {reboot : RebootRuntime S} {rc : RevealCore}
  {nom : NomCrate} {de : DataEncoding} {b58 : Base58Crate} {crypto : CryptoCrate} {hex : HexCrate} {secp : Secp} {crate : RlpCrate}
  {eth : EthCrates} {fle : U256FromLe} {lc : LogCrates} {rfc : Rfc3339} {conf : EvmConfig} {outbox : OutboxCrate} {build : Build}
  {exec : EvmExecution (S := S)}.
Abbreviation hM := (M S Anyhow).

(** The delayed inbox is a local variable. *)
Definition with_delayed_inbox {A} (inbox : LinkedList Hash) (m : M (LinkedList Hash * S) Anyhow A) : hM A := fun s =>
  let '(o, (_, s)) := m (inbox, s) in (o, s).
Definition ask_reboot : hM unit := M_map_err A_Runtime mark_for_reboot.
Definition retrieve_smart_rollup_address : hM bytes := fun s => (Ok (raw_rollup_address (reveal_metadata s)), s).

(** After stage zero: stages one and two. *)
Definition run_stages (fuel : nat) (chain_id : N) : hM unit :=
  smart_rollup_address ← retrieve_smart_rollup_address;
  ticketer ← kernel_call read_ticketer;
  admin ← kernel_call read_admin;
  sequencer_admin ← kernel_call read_sequencer_admin;
  '(configuration, delayed_inbox) ← fetch_configuration;
  block_fees ← kernel_call retrieve_block_fees;
  with_delayed_inbox delayed_inbox (
    _ ← fetch fuel smart_rollup_address (mkTezosContracts ticketer admin sequencer_admin) configuration;
    _ ← produce fuel chain_id block_fees configuration;
    mret tt).
Definition main (fuel : nat) : hM unit :=
  chain_id ← kernel_call retrieve_chain_id;
  status ← kernel_call stage_zero;
  match status with
  | NoMigration => _ ← kernel_call set_kernel_version; run_stages fuel chain_id
  | InProgress => ask_reboot
  | MigrationDone => _ ← kernel_call set_kernel_version; ask_reboot
  end.
End main.

(** * The loop *)

(** The virtual machine, on any host. *)
Class Executor {lc : LogCrates} := execute_on : forall S, SmartRollupCore S -> EvmExecution (S := S).
(** [format!("{:?}", err)]. *)
Class DebugAnyhow := { debug_anyhow : Anyhow -> bytes }.

Definition EVM_PATH : bytes := str "/evm".
Definition ERRORS_PATH : bytes := str "/errors".
Definition FIRST_RUN : bytes := str "Un festival de GADT".
Definition is_fallback (e : Anyhow) : bool := match e with A_Error (UpgradeError Fallback) => true | _ => false end.

Section kernel_loop.
Context {S : Type} {core : SmartRollupCore S} {input : InputCore S} {internal : InternalRuntime S}
  {nom : NomCrate} {de : DataEncoding} {b58 : Base58Crate} {crypto : CryptoCrate} {hex : HexCrate} {secp : Secp} {crate : RlpCrate}
  {eth : EthCrates} {fle : U256FromLe} {lc : LogCrates} {rfc : Rfc3339} {conf : EvmConfig} {outbox : OutboxCrate} {build : Build}
  {rc : RevealCore} {executor : Executor} {debug : DebugAnyhow}.
Abbreviation hM := (M S Anyhow).

(** [.expect(..)], [.unwrap()]. *)
Definition expect_ok {E A} (m : M S E A) : hM A := fun s =>
  match m s with
  | (Ok a, s) => (Ok a, s) | (Err _, s) => (Panic PUnwrap, s) | (Panic p, s) => (Panic p, s) | (Diverge, s) => (Diverge, s)
  end.

(** [log_error(host.host, &e)]: on the host itself. *)
Definition error_message (current_level : N) (err : Anyhow) : bytes :=
  str "Error during block " ++ decimal 78 current_level ++ str ": " ++ debug_anyhow err.
Definition log_error (err : Anyhow) : hM unit :=
  current_level ← M_ok read_current_block_number;
  let err_msg := error_message (default 0%N current_level) err in
  nb_errors ← M_map_err A_Runtime (store_count_subkeys ERRORS_PATH);
  error_path ← lift (map_err A_Path (try_from (str "/" ++ decimal 20 (N.of_nat nb_errors + 1))));
  error_path ← lift (map_err A_Path (concat ERRORS_PATH error_path));
  M_map_err A_Runtime (store_write_all error_path err_msg).

(** [main] on the safe storage above the host: what it returns, and the host it leaves. *)
Definition run_main (fuel : nat) (s : S) : outcome Anyhow unit * S :=
  let '(o, self) := main (S := SafeStorage s) (reboot := SafeStorage_reboot s) (exec := execute_on _ _) fuel (safe_start s) in (o, safe_host self).

(** The copy of the storage on which [main] runs. *)
Definition set_up : hM unit :=
  evm_subkeys ← expect_ok (store_count_subkeys EVM_PATH);
  _ ← (if evm_subkeys =? 0 then expect_ok (store_write EVM_PATH FIRST_RUN 0) else mret tt);
  expect_ok (store_copy EVM_PATH TMP_PATH).
(** What follows the run of [main]. *)
Definition settle (result : outcome Anyhow unit) : hM unit :=
  match result with
  | Ok _ => _ ← expect_ok promote_upgrade; expect_ok (promote EVM_PATH)
  | Err e =>
      if is_fallback e then _ ← expect_ok revert; expect_ok fallback_backup_kernel
      else _ ← expect_ok (log_error e); expect_ok revert
  | Panic p => panicked p
  | Diverge => diverge
  end.
Definition kernel_loop (fuel : nat) : hM unit :=
  _ ← set_up;
  result ← (fun s => let '(o, s) := run_main fuel s in (Ok o, s)) : hM (outcome Anyhow unit);
  settle result.
End kernel_loop.
