(* ===== verification/EvmKernelProps.v ===== *)
(** What a run of the kernel does to the storage.

    Whatever [main] does, on any lawful host, the storage of the rollup changes only when the run succeeds, and then all at once; a new kernel is
    installed with the old one kept aside, to which a failed migration falls back. *)

From stdpp Require Import relations.
From S2P Require Import Prelude SdkDac SdkInstaller Endian SdkNom SdkMicheline SdkMichelson SdkMessages KernelPath KernelHost KernelRuntime KernelInput KernelStorage EvmErrors Rlp EvmStorage LinkedList EthTypes EthSign EvmTx EthBlock EvmStore EvmChunks EvmAccounts EvmBlueprints EvmApply EvmBlock EvmParsing EvmStageZero EvmSimulation EvmInbox EvmSafe EvmKernel.

(** * Places of the storage *)

Definition EVM : list bytes := [str "evm"].
Definition TMP : list bytes := [str "tmp"].
Definition BOOT : list bytes := [str "kernel"; str "boot.wasm"].
Definition BACKUP : list bytes := [str "__backup_kernel"; str "boot.wasm"].
Definition REBOOT : list bytes := [str "kernel"; str "env"; str "reboot"].
Definition ERRORS : list bytes := [str "errors"].

Lemma fixed_path p : validate_path p = Ok tt -> path_ok p.
Proof. apply validate_path_spec. Qed.
Ltac fixed := apply fixed_path; vm_compute; reflexivity.
Lemma evm_path : path_ok EVM_PATH. Proof. fixed. Qed.
Lemma tmp_path : path_ok TMP_PATH. Proof. fixed. Qed.
Lemma boot_path : path_ok KERNEL_BOOT_PATH. Proof. fixed. Qed.
Lemma safe_boot_path : path_ok (TMP_PATH ++ KERNEL_BOOT_PATH). Proof. fixed. Qed.
Lemma backup_path : path_ok BACKUP_KERNEL_BOOT_PATH. Proof. fixed. Qed.
Lemma reboot_path : path_ok REBOOT_PATH. Proof. fixed. Qed.
Lemma errors_path : path_ok ERRORS_PATH. Proof. fixed. Qed.

(** Steps below others. *)
Definition under (p q : list bytes) : Prop := exists r, q = p ++ r.
Lemma strip_under p q : strip p q = None <-> ~ under p q.
Proof. rewrite strip_None. unfold under. naive_solver. Qed.

Section frame.
Context {S : Type} {core : SmartRollupCore S} {laws : CoreLaws S} {input : InputCore S} {frame : HostFrame S}.
Implicit Types (s : S) (P : list bytes -> Prop).

(** * The safe storage only writes below [/tmp] *)

Lemma safe_key_ok p k : safe_key p = Some k -> path_ok k /\ exists r, path_steps k = TMP ++ r.
Proof.
  unfold safe_key, try_from. destruct (validate_path p) as [[]|e|x|] eqn:E; cbn [mbind outcome_bind]; try done. apply validate_path_spec in E.
  unfold concat. destruct (Nat.leb_spec (length (TMP_PATH ++ p)) PATH_MAX_SIZE) as [Hl|]; [|done]. intros [= <-].
  destruct (concat_ok TMP_PATH p tmp_path E) as (_&Hk&Hs); [by rewrite <- length_app|]. split; [done|]. exists (path_steps p). exact Hs.
Qed.
Lemma key_outside p k q : safe_key p = Some k -> ~ under TMP q -> outside_of k q.
Proof.
  intros [_ [r Hr]]%safe_key_ok Hq. unfold outside_of. rewrite Hr. apply strip_under. intros [x ->]. apply Hq. exists (r ++ x). by rewrite app_assoc.
Qed.
Lemma outside_ne p q : outside_of p q -> q <> path_steps p.
Proof. intros H ->. unfold outside_of in H. by rewrite strip_refl in H. Qed.

Definition outside_safe (q : list bytes) : Prop := ~ under TMP q /\ q <> REBOOT.
Lemma safe_step_keeps s s' : c_ok s -> safe_step s s' -> keeps outside_safe s s'.
Proof.
  intros Hs H. revert Hs. destruct H; intros Hs; try (match goal with H : safe_key _ = Some _ |- _ => pose proof (safe_key_ok _ _ H) as [? _] end).
  - eapply keeps_weaken; [by apply f_write|]. intros x [Hx _]. by eapply outside_ne, key_outside.
  - eapply keeps_weaken; [by apply f_delete|]. intros x [Hx _]. by eapply key_outside.
  - eapply keeps_weaken; [by apply f_delete_value|]. intros x [Hx _]. by eapply outside_ne, key_outside.
  - pose proof (safe_key_ok _ _ H) as [? _]. eapply keeps_weaken; [by apply f_move|]. intros x [Hx _]. split; by eapply key_outside.
  - pose proof (safe_key_ok _ _ H) as [? _]. eapply keeps_weaken; [by apply f_copy|]. intros x [Hx _]. by eapply key_outside.
  - eapply keeps_weaken; [by apply f_output|done].
  - eapply keeps_weaken; [by apply f_input|done].
  - assert (E : (KernelHost.mark_for_reboot s).2 = (core_store_write REBOOT_PATH 0 [Byte.x00] s).2).
    { unfold KernelHost.mark_for_reboot, store_write, host_call. change (length [Byte.x00] <=? MAX_FILE_CHUNK_SIZE) with true. cbn. by destruct (core_store_write _ _ _ _). }
    rewrite E. eapply keeps_weaken; [by apply f_write, reboot_path|]. by intros x [_ Hx].
Qed.
Lemma safe_steps_keep s s' : c_ok s -> rtc safe_step s s' -> keeps outside_safe s s'.
Proof.
  intros Hs H. induction H as [s|s s1 s2 H _ IH]; [by apply keeps_refl|]. pose proof (safe_step_keeps s s1 Hs H) as Hk.
  eapply keeps_trans; [exact Hk|]. apply IH, Hk.
Qed.

(** * Before and after the run of [main] *)

Context {internal : InternalRuntime S} {eth : EthCrates} {fle : U256FromLe} {debug : DebugAnyhow}.

Lemma keepsM_expect {E A} P (m : M S E A) : keepsM P m -> keepsM P (expect_ok m).
Proof. intros Hm s Hs. specialize (Hm s Hs). unfold expect_ok. by destruct (m s) as [[] ?]. Qed.
Ltac keep := repeat first [apply keepsM_expect | keep_step].

(** The copy of the storage. *)
Lemma set_up_keeps : keepsM (fun q => ~ under TMP q /\ q <> EVM) set_up.
Proof.
  unfold set_up. keep.
  - eapply keepsM_weaken; [apply store_write_keeps, evm_path|]. by intros q [_ Hq].
  - eapply keepsM_weaken; [apply store_copy_keeps; [apply evm_path|apply tmp_path]|]. intros q [Hq _]. by apply strip_under.
Qed.
Lemma bind_ok_inv {E A B} (m : M S E A) (k : A -> M S E B) s b s' : (m ≫= k) s = (Ok b, s') ->
  exists a s1, m s = (Ok a, s1) /\ k a s1 = (Ok b, s').
Proof. unfold mbind, M_bind. destruct (m s) as [[a|e|p|] s1]; naive_solver. Qed.
Lemma keepsM_run {E A} P (m : M S E A) s o s' : keepsM P m -> c_ok s -> m s = (o, s') -> keeps P s s'.
Proof. intros Hm Hs Hr. specialize (Hm s Hs). by rewrite Hr in Hm. Qed.
Lemma set_up_copies s s1 : c_ok s -> set_up s = (Ok tt, s1) -> c_ok s1 /\ forall r, c_value s1 (TMP ++ r) = c_value s1 (EVM ++ r).
Proof.
  intros Hs (n&s'&E1&E)%bind_ok_inv. eapply (keepsM_run (fun _ => True)) in E1 as [Hs' _]; [|keep|done].
  apply bind_ok_inv in E as ([]&s2&E2&E). eapply (keepsM_run (fun q => q <> EVM)) in E2 as [Hs2 _]; [|keep; apply store_write_keeps, evm_path|done].
  unfold expect_ok in E. destruct (Z.eq_dec (core_store_has EVM_PATH s2) 0%Z) as [Hh|Hh].
  { unfold store_copy in E. by rewrite missing in E by (done || apply evm_path). }
  destruct (store_copy_ok s2 EVM_PATH TMP_PATH Hs2 evm_path tmp_path Hh) as (s3&E3&Hs3&Hv). rewrite E3 in E. injection E as <-. split; [done|].
  intros r. rewrite !Hv. change (path_steps TMP_PATH) with TMP. change (path_steps EVM_PATH) with EVM. by rewrite strip_app.
Qed.

(** The log of errors. *)
Lemma read_number_state s : (read_current_block_number s).2 = s.
Proof.
  apply bind_state; [done|]. intros p. apply bind_state; [|done]. apply bind_state; [|by intros [n b]; destruct (_ =? _)].
  unfold host, M_map_err. pose proof (read_slice_state p 0 (repeat Byte.x00 8) s) as H. by destruct (KernelHost.store_read_slice _ _ _ s).
Qed.
Lemma error_path_ok b p q : try_from b = Ok p -> concat ERRORS_PATH p = Ok q -> path_ok q /\ under ERRORS (path_steps q).
Proof.
  unfold try_from, concat. intros (u&Ev&[= <-])%outcome_bind_ok. destruct u. apply validate_path_spec in Ev.
  destruct (Nat.leb_spec (length (ERRORS_PATH ++ b)) PATH_MAX_SIZE) as [Hl|]; [|done]. intros [= <-].
  destruct (concat_ok ERRORS_PATH b errors_path Ev) as (_&Hq&Hst); [by rewrite <- length_app|]. split; [done|]. exists (path_steps b). exact Hst.
Qed.
Lemma map_err_success {E F A} (f : E -> F) (o : outcome E A) a : map_err f o = Ok a -> o = Ok a.
Proof. destruct o; naive_solver. Qed.
Lemma log_error_keeps e : keepsM (fun q => ~ under ERRORS q) (log_error e).
Proof.
  unfold log_error. keep; [apply keepsM_read, read_number_state|].
  repeat match goal with H : map_err _ _ = Ok _ |- _ => apply map_err_success in H end. edestruct error_path_ok as [Hq Hu]; [eassumption..|].
  eapply keepsM_weaken; [by apply store_write_all_keeps|]. by intros x Hx ->.
Qed.

(** * Promotion *)

Definition not_kernels (q : list bytes) : Prop := ~ under (TMP ++ BOOT) q /\ ~ under BOOT q /\ ~ under BACKUP q.
Lemma promote_upgrade_keeps : keepsM not_kernels promote_upgrade.
Proof.
  unfold promote_upgrade. keep.
  - injection H as <-. eapply keepsM_weaken; [apply store_copy_keeps; [apply boot_path|apply backup_path]|]. intros q (_&_&Hq). by apply strip_under.
  - injection H as <-. eapply keepsM_weaken; [apply store_move_keeps; [apply safe_boot_path|apply boot_path]|]. intros q (H1&H2&_). by split; apply strip_under.
  - eapply keepsM_weaken; [apply store_delete_keeps, backup_path|]. intros q (_&_&Hq). by apply strip_under.
Qed.

Lemma read_value s p v : c_ok s -> path_ok p -> c_value s (path_steps p) = Some v -> M_ok (F := RuntimeError) (store_read p 0 0) s = (Ok (Some []), s).
Proof. intros Hs Hp Hv. unfold M_ok. by rewrite (store_read_ok s p v) by (done || lia). Qed.
Lemma read_no_value s p : c_ok s -> path_ok p -> c_value s (path_steps p) = None -> M_ok (F := RuntimeError) (store_read p 0 0) s = (Ok None, s).
Proof. intros Hs Hp Hv. unfold M_ok. by rewrite (store_read_none s p). Qed.

(** A new kernel is installed, and the current one is kept. *)
Lemma promote_installs s new : c_ok s -> c_value s (TMP ++ BOOT) = Some new -> core_store_has KERNEL_BOOT_PATH s <> 0%Z ->
  exists s', promote_upgrade s = (Ok tt, s') /\ c_ok s' /\ forall q, c_value s' q =
    match strip BOOT q with
    | Some r => c_value s (TMP ++ BOOT ++ r)
    | None => match strip (TMP ++ BOOT) q with
              | Some _ => None
              | None => match strip BACKUP q with Some r => c_value s (BOOT ++ r) | None => c_value s q end
              end
    end.
Proof.
  intros Hs Hnew Hboot. destruct (store_copy_ok s KERNEL_BOOT_PATH BACKUP_KERNEL_BOOT_PATH Hs boot_path backup_path Hboot) as (s1&E1&Hs1&Hv1).
  assert (Hnew1 : c_value s1 (TMP ++ BOOT) = Some new) by (by rewrite Hv1).
  destruct (store_move_ok s1 (TMP_PATH ++ KERNEL_BOOT_PATH) KERNEL_BOOT_PATH Hs1 safe_boot_path boot_path) as (s2&E2&Hs2&Hv2).
  { eapply (value_exists s1 _ []); [done|apply safe_boot_path|]. rewrite app_nil_r. by exists new. }
  exists s2. split_and!; [|done|].
  - unfold promote_upgrade. unfold mbind at 1, M_bind at 1. change (lift (safe_path KERNEL_BOOT_PATH) s) with (Ok (E := RuntimeError) (TMP_PATH ++ KERNEL_BOOT_PATH), s).
    cbn beta iota. unfold mbind at 1, M_bind at 1. rewrite (read_value s _ new Hs safe_boot_path) by done. cbn beta iota.
    unfold mbind, M_bind, backup_current_kernel. by rewrite E1.
  - intros q. rewrite Hv2. change (path_steps KERNEL_BOOT_PATH) with BOOT. change (path_steps (TMP_PATH ++ KERNEL_BOOT_PATH)) with (TMP ++ BOOT).
    destruct (strip BOOT q) as [r|]; [|destruct (strip (TMP ++ BOOT) q); [done|by rewrite Hv1]]. rewrite <- app_assoc. by rewrite Hv1.
Qed.
(** Without a new kernel, the copy of the old one is dropped. *)
Lemma promote_cleans s : c_ok s -> c_value s (TMP ++ BOOT) = None ->
  exists s', promote_upgrade s = (Ok tt, s') /\ keeps (fun q => ~ under BACKUP q) s s' /\ c_value s' BACKUP = None.
Proof.
  intros Hs Hnone. unfold promote_upgrade. unfold mbind at 1, M_bind at 1.
  change (lift (safe_path KERNEL_BOOT_PATH) s) with (Ok (E := RuntimeError) (TMP_PATH ++ KERNEL_BOOT_PATH), s). cbn beta iota. unfold mbind at 1, M_bind at 1.
  rewrite (read_no_value s _ Hs safe_boot_path) by done. cbn beta iota. unfold mbind, M_bind.
  destruct (c_value s BACKUP) as [old|] eqn:Eb.
  - rewrite (read_value s _ old Hs backup_path) by done. destruct (store_delete_ok s BACKUP_KERNEL_BOOT_PATH Hs backup_path) as (s'&E&Hs'&Hv).
    { eapply (value_exists s _ []); [done|apply backup_path|]. rewrite app_nil_r. by exists old. }
    exists s'. split_and!; [done| |].
    + split; [done|]. intros q Hq%strip_under. rewrite Hv. change (path_steps BACKUP_KERNEL_BOOT_PATH) with BACKUP. by rewrite Hq.
    + by rewrite Hv.
  - rewrite (read_no_value s _ Hs backup_path) by done. exists s. split_and!; [done|by apply keeps_refl|done].
Qed.
End frame.

(** * Runs of the kernel *)

Section kernel.
Context {S : Type} {core : SmartRollupCore S} {laws : CoreLaws S} {input : InputCore S} {frame : HostFrame S} {internal : InternalRuntime S}
  {nom : NomCrate} {de : DataEncoding} {b58 : Base58Crate} {crypto : CryptoCrate} {hex : HexCrate} {secp : Secp} {crate : RlpCrate}
  {eth : EthCrates} {fle : U256FromLe} {lc : LogCrates} {rfc : Rfc3339} {conf : EvmConfig} {outbox : OutboxCrate} {build : Build}
  {rc : RevealCore} {executor : Executor} {debug : DebugAnyhow}.
Implicit Types (s : S).

(** The values of the rollup, and those that no run touches. *)
Definition below_evm (q : list bytes) : Prop := exists r, r <> [] /\ q = EVM ++ r.
Definition untouched (q : list bytes) : Prop :=
  ~ under EVM q /\ ~ under TMP q /\ q <> REBOOT /\ ~ under ERRORS q /\ ~ under BOOT q /\ ~ under BACKUP q.
Definition stable (q : list bytes) : Prop := below_evm q \/ untouched q.

Lemma stable_places q : stable q -> ~ under TMP q /\ q <> EVM /\ q <> REBOOT /\ ~ under ERRORS q /\ not_kernels q.
Proof.
  intros [(r&Hr&->)|(H1&H2&H3&H4&H5&H6)].
  - split_and!; try (intros [x E]; discriminate E); try discriminate; [|split_and!; intros [x E]; discriminate E].
    intros E. apply Hr. by injection E.
  - split_and!; try done; [|split_and!; try done].
    + intros ->. apply H1. by exists [].
    + intros [x ->]. apply H2. exists (BOOT ++ x). by rewrite app_assoc.
Qed.

Lemma run_main_keeps fuel s : c_ok s -> keeps outside_safe s (run_main fuel s).2.
Proof. intros Hs. unfold run_main. destruct (main _ _) as [o self]. cbn. apply safe_steps_keep; [done|apply (reached self)]. Qed.

Lemma settle_failure_keeps o : (forall u, o <> Ok u) -> keepsM stable (settle o).
Proof.
  intros Ho. destruct o as [u|e|p|]; [by destruct (Ho u)| |by intros s Hs; apply keeps_refl..]. cbn [settle].
  assert (Hr : keepsM stable (expect_ok revert)).
  { apply keepsM_expect. eapply keepsM_weaken; [apply store_delete_keeps, tmp_path|]. intros q (Hq&_)%stable_places. by apply strip_under. }
  destruct (is_fallback e); (apply keepsM_bind; [|intros _]); try done; apply keepsM_expect.
  - eapply keepsM_weaken; [apply store_move_keeps; [apply backup_path|apply boot_path]|]. intros q (_&_&_&_&_&H1&H2)%stable_places. by split; apply strip_under.
  - eapply keepsM_weaken; [apply log_error_keeps|]. by intros q (_&_&_&Hq&_)%stable_places.
Qed.

(** Promotion fails and changes no value of the rollup, or it replaces them all. *)
Lemma settle_success s o s' : c_ok s -> settle (Ok tt) s = (o, s') ->
  keeps stable s s' \/ o = Ok tt /\ keeps untouched s s' /\ forall r, ~ under BOOT r -> c_value s' (EVM ++ r) = c_value s (TMP ++ r).
Proof.
  intros Hs E. cbn [settle] in E. unfold mbind, M_bind in E. destruct (expect_ok promote_upgrade s) as [o1 s1] eqn:E1.
  assert (Hk1 : keeps not_kernels s s1) by (eapply keepsM_run; [|done|exact E1]; apply keepsM_expect, promote_upgrade_keeps).
  assert (Hst : keeps stable s s1) by (eapply keeps_weaken; [exact Hk1|]; by intros q (_&_&_&_&Hq)%stable_places).
  destruct o1 as [[]|e|p|]; [|injection E as _ <-; by left..]. destruct (Z.eq_dec (core_store_has TMP_PATH s1) 0%Z) as [Hh|Hh].
  { unfold expect_ok, promote, store_move in E. rewrite missing in E by (apply Hk1 || apply tmp_path || done). injection E as _ <-. by left. }
  destruct (store_move_ok s1 TMP_PATH EVM_PATH (proj1 Hk1) tmp_path evm_path Hh) as (s2&E2&Hs2&Hv). unfold expect_ok, promote in E. rewrite E2 in E.
  injection E as <- <-. right. split_and!; [done| |].
  - split; [done|]. intros q Hq. rewrite Hv. pose proof Hq as (He&Ht&_). apply strip_under in He, Ht. change (path_steps EVM_PATH) with EVM. change (path_steps TMP_PATH) with TMP.
    rewrite He, Ht. apply Hst. by right.
  - intros r Hr. rewrite Hv. change (path_steps EVM_PATH) with EVM. rewrite strip_app. apply Hk1. split_and!; intros [x E]; try discriminate E.
    apply Hr. exists x. by injection E.
Qed.

(** C8: a run of the kernel changes the storage of the rollup all at once or not at all.  Whatever [main] does, and whether it returns, fails or traps: the values
    below [/evm] stay as they were, or the run returned, [main] succeeded on a copy of them, and they are what it left in the copy, a new kernel
    apart.  Other values of the storage are untouched, except for those of the copy, the kernels, the log of errors and the request for a reboot. *)
Theorem kernel_run_is_atomic fuel s o s' : c_ok s -> kernel_loop fuel s = (o, s') ->
  c_ok s' /\ (forall q, untouched q -> c_value s' q = c_value s q) /\
  ((forall r, r <> [] -> c_value s' (EVM ++ r) = c_value s (EVM ++ r)) \/
   o = Ok tt /\ exists s1 s2, (forall r, c_value s1 (TMP ++ r) = c_value s1 (EVM ++ r)) /\
     (forall r, r <> [] -> c_value s1 (EVM ++ r) = c_value s (EVM ++ r)) /\ run_main fuel s1 = (Ok tt, s2) /\
     forall r, ~ under BOOT r -> c_value s' (EVM ++ r) = c_value s2 (TMP ++ r)).
Proof.
  intros Hs E. unfold kernel_loop in E. unfold mbind at 1, M_bind at 1 in E. destruct (set_up s) as [o1 s1] eqn:E1.
  assert (H1 : keeps stable s s1).
  { eapply keeps_weaken; [eapply keepsM_run; [apply set_up_keeps|done|exact E1]|]. by intros q (H1&H2&_)%stable_places. }
  assert (Hleft : keeps stable s s' -> c_ok s' /\ (forall q, untouched q -> c_value s' q = c_value s q) /\
    (forall r, r <> [] -> c_value s' (EVM ++ r) = c_value s (EVM ++ r))).
  { intros [Hk Hv]. split_and!; [done|intros q Hq; apply Hv; by right|]. intros r Hr. apply Hv. left. by exists r. }
  destruct o1 as [[]|e|p|]; [|injection E as _ <-; naive_solver..]. unfold mbind, M_bind in E. pose proof (run_main_keeps fuel s1 (proj1 H1)) as H2.
  destruct (run_main fuel s1) as [r s2] eqn:E2. cbn in H2. assert (H2' : keeps stable s1 s2) by (eapply keeps_weaken; [exact H2|]; by intros q (Hq1&_&Hq2&_)%stable_places).
  pose proof (keeps_trans _ _ _ _ H1 H2') as H12. destruct r as [[]|e|p|].
  2-4: assert (H3 : keeps stable s2 s') by (eapply keepsM_run; [|exact (proj1 H2)|exact E]; by apply settle_failure_keeps);
    pose proof (keeps_trans _ _ _ _ H12 H3); naive_solver.
  destruct (settle_success s2 o s' (proj1 H2) E) as [H3|(->&[Hs' H3]&Hv)]; [pose proof (keeps_trans _ _ _ _ H12 H3); naive_solver|].
  split_and!; [done|intros q Hq; rewrite H3 by done; apply H12; by right|]. right. split; [done|]. exists s1, s2.
  destruct (set_up_copies s s1 Hs E1) as [_ Hc]. split_and!; [done| |done..]. intros r Hr. apply H1. left. by exists r.
Qed.

Lemma kernel_loop_runs fuel s s1 r s2 : set_up s = (Ok tt, s1) -> run_main fuel s1 = (r, s2) -> kernel_loop fuel s = settle r s2.
Proof. intros E1 E2. unfold kernel_loop, mbind, M_bind. by rewrite E1, E2. Qed.
(** A value outside of what [main] can reach. *)
Lemma run_value fuel s s1 r s2 q : c_ok s -> set_up s = (Ok tt, s1) -> run_main fuel s1 = (r, s2) -> ~ under TMP q -> q <> EVM -> q <> REBOOT ->
  c_ok s2 /\ c_value s2 q = c_value s q.
Proof.
  intros Hs E1 E2 Ht He Hr. pose proof (keepsM_run _ _ _ _ _ set_up_keeps Hs E1) as [Hs1 H1]. pose proof (run_main_keeps fuel s1 Hs1) as [Hs2 H2].
  rewrite E2 in Hs2, H2. cbn in Hs2, H2. split; [done|]. by rewrite H2, H1.
Qed.

(** C11: a successful run is promoted.  When [main] succeeds, leaves some value in its copy of the storage, and the kernel has an image, the run returns: the
    values below [/evm] are those of the copy, nothing is left of the copy, and the kernel is the one that the run installed, with the previous one kept
    aside; if it installed none, the kernel is the same and no other is kept. *)
Theorem successful_run_is_promoted fuel s s1 s2 r old : c_ok s -> set_up s = (Ok tt, s1) -> run_main fuel s1 = (Ok tt, s2) ->
  ~ under BOOT r -> is_Some (c_value s2 (TMP ++ r)) -> c_value s BOOT = Some old ->
  exists s', kernel_loop fuel s = (Ok tt, s') /\ (forall x, ~ under BOOT x -> c_value s' (EVM ++ x) = c_value s2 (TMP ++ x)) /\
    (forall x, c_value s' (TMP ++ x) = None) /\
    match c_value s2 (TMP ++ BOOT) with
    | Some new => c_value s' BOOT = Some new /\ c_value s' BACKUP = Some old
    | None => c_value s' BOOT = Some old /\ c_value s' BACKUP = None
    end.
Proof.
  intros Hs E1 E2 Hr Hne Hold. destruct (run_value fuel s s1 _ s2 BOOT Hs E1 E2) as [Hs2 Hold2]; [by intros [x Hx]|done..|]. rewrite Hold in Hold2.
  assert (Hp : exists s3, promote_upgrade s2 = (Ok tt, s3) /\ c_ok s3 /\ (forall x, ~ under BOOT x -> c_value s3 (TMP ++ x) = c_value s2 (TMP ++ x)) /\
    match c_value s2 (TMP ++ BOOT) with
    | Some new => c_value s3 BOOT = Some new /\ c_value s3 BACKUP = Some old
    | None => c_value s3 BOOT = Some old /\ c_value s3 BACKUP = None
    end).
  { destruct (c_value s2 (TMP ++ BOOT)) as [new|] eqn:En.
    - destruct (promote_installs s2 new Hs2 En) as (s3&E3&Hs3&Hv).
      { eapply (value_exists s2 _ []); [done|apply boot_path|]. rewrite app_nil_r. by exists old. }
      exists s3. split_and!; [done..| | |]; [|rewrite Hv; exact En|rewrite Hv; exact Hold2]. intros x Hx. rewrite Hv.
      assert (Hst : strip (TMP ++ BOOT) (TMP ++ x) = None) by (apply strip_under; intros [y Hy]; apply Hx; exists y; by injection Hy). by rewrite Hst.
    - destruct (promote_cleans s2 Hs2 En) as (s3&E3&[Hs3 Hv]&Hb). exists s3. split_and!; [done..| | |done]; [intros x _|rewrite <- Hold2]; apply Hv; by intros [y Hy]. }
  destruct Hp as (s3&E3&Hs3&Ht&Hk). destruct (store_move_ok s3 TMP_PATH EVM_PATH Hs3 tmp_path evm_path) as (s'&E4&Hs'&Hv).
  { eapply (value_exists s3 _ r); [done|apply tmp_path|]. change (path_steps TMP_PATH) with TMP. by rewrite Ht. }
  exists s'. change (path_steps TMP_PATH) with TMP in Hv. change (path_steps EVM_PATH) with EVM in Hv. split_and!.
  - rewrite (kernel_loop_runs fuel s s1 _ s2 E1 E2). cbn [settle]. unfold mbind, M_bind, expect_ok at 1. rewrite E3. unfold expect_ok, promote. by rewrite E4.
  - intros x Hx. rewrite Hv, strip_app. by apply Ht.
  - intros x. rewrite Hv. cbn [strip EVM TMP app]. rewrite bool_decide_eq_false_2 by done. by rewrite bool_decide_eq_true_2.
  - by destruct (c_value s2 (TMP ++ BOOT)); rewrite !Hv.
Qed.

(** A migration that fails gives back the kernel that was kept aside, and what it did to the storage is lost. *)
Lemma failed_migration_falls_back fuel s s1 s2 e r old : c_ok s -> set_up s = (Ok tt, s1) -> run_main fuel s1 = (Err e, s2) -> is_fallback e = true ->
  is_Some (c_value s2 (TMP ++ r)) -> c_value s BACKUP = Some old ->
  exists s', kernel_loop fuel s = (Ok tt, s') /\ c_value s' BOOT = Some old /\ c_value s' BACKUP = None /\
    (forall x, x <> [] -> c_value s' (EVM ++ x) = c_value s (EVM ++ x)) /\ forall x, c_value s' (TMP ++ x) = None.
Proof.
  intros Hs E1 E2 He Ht Hold. destruct (run_value fuel s s1 _ s2 BACKUP Hs E1 E2) as [Hs2 Hold2]; [by intros [x Hx]|done..|].
  destruct (store_delete_ok s2 TMP_PATH Hs2 tmp_path (value_exists s2 _ r Hs2 tmp_path Ht)) as (s3&E3&Hs3&Hv3).
  destruct (store_move_ok s3 BACKUP_KERNEL_BOOT_PATH KERNEL_BOOT_PATH Hs3 backup_path boot_path) as (s'&E4&_&Hv).
  { eapply (value_exists s3 _ []); [done|apply backup_path|]. rewrite app_nil_r. change (path_steps BACKUP_KERNEL_BOOT_PATH) with BACKUP. rewrite Hv3.
    change (strip (path_steps TMP_PATH) BACKUP) with (@None (list bytes)). rewrite Hold2. by exists old. }
  exists s'. change (path_steps KERNEL_BOOT_PATH) with BOOT in Hv. change (path_steps BACKUP_KERNEL_BOOT_PATH) with BACKUP in Hv. split_and!.
  - rewrite (kernel_loop_runs fuel s s1 _ s2 E1 E2). cbn [settle]. rewrite He. unfold mbind, M_bind, expect_ok at 1, revert. rewrite E3.
    unfold expect_ok, fallback_backup_kernel. by rewrite E4.
  - rewrite Hv. change (strip BOOT BOOT) with (Some (@nil bytes)). cbn [app]. rewrite Hv3. rewrite <- Hold, <- Hold2. done.
  - by rewrite Hv.
  - intros x Hx. destruct (run_value fuel s s1 _ s2 (EVM ++ x) Hs E1 E2) as [_ <-]; [by intros [y Hy]|intros E; apply Hx; by injection E|done|].
    rewrite Hv. change (strip BOOT (EVM ++ x)) with (@None (list bytes)). change (strip BACKUP (EVM ++ x)) with (@None (list bytes)). cbn beta iota. by rewrite Hv3.
  - intros x. rewrite Hv. change (strip BOOT (TMP ++ x)) with (@None (list bytes)). change (strip BACKUP (TMP ++ x)) with (@None (list bytes)). cbn beta iota.
    rewrite Hv3. change (path_steps TMP_PATH) with TMP. by rewrite strip_app.
Qed.

(** * The log of errors *)

Definition CURRENT_NUMBER : list bytes := [str "blocks"; str "current"; str "number"].
Lemma no_current_number s : c_ok s -> c_value s CURRENT_NUMBER = None -> M_ok (F := Anyhow) read_current_block_number s = (Ok None, s).
Proof.
  intros Hs Hn. assert (Hp : path_ok (EVM_CURRENT_BLOCK ++ BLOCK_NUMBER)) by fixed. unfold M_ok, read_current_block_number, EvmStore.store_read_slice, mbind, M_bind, host, M_map_err.
  change (paths (concat EVM_CURRENT_BLOCK BLOCK_NUMBER) s) with (Ok (E := Error) (EVM_CURRENT_BLOCK ++ BLOCK_NUMBER), s). cbn beta iota.
  unfold KernelHost.store_read_slice. rewrite c_read_none by done. done.
Qed.
Lemma error_path n : (n < 2 ^ 63)%N -> let p := ERRORS_PATH ++ str "/" ++ decimal 20 n in
  try_from (str "/" ++ decimal 20 n) = Ok (str "/" ++ decimal 20 n) /\ concat ERRORS_PATH (str "/" ++ decimal 20 n) = Ok p /\ path_ok p /\
  path_steps p = ERRORS ++ [decimal 20 n].
Proof.
  intros Hn. cbn zeta. assert (Hl : (n < 10 ^ N.of_nat 20)%N) by (assert ((2 ^ 63 < 10 ^ N.of_nat 20)%N) by (vm_compute; done); lia).
  assert (Er : render [decimal 20 n] = str "/" ++ decimal 20 n) by (unfold render; cbn [map mjoin list_join]; by rewrite app_nil_r).
  destruct (concat_render ERRORS_PATH [decimal 20 n]) as (H1&H2&H3&H4).
  - apply errors_path.
  - split; [done|]. constructor; [apply decimal_fuel_step|done].
  - unfold readonly. cbn [head]. intros E. assert (E' : decimal 20 n = str "readonly") by congruence. revert E'. by apply decimal_not_readonly.
  - rewrite Er, length_app. pose proof (length_decimal 20 20 n Hl ltac:(lia)). change (length ERRORS_PATH) with 7. change (length (str "/")) with 1.
    change PATH_MAX_SIZE with 242. lia.
  - rewrite Er in H1, H2, H3, H4. split_and!; [|done..]. unfold try_from. apply validate_path_spec in H1. by rewrite H1.
Qed.

(** C40: the log of errors always names block zero.  When a run fails, the kernel logs the error with the number of the current block, but it looks for the number on the
    host, and not below [/evm] where the blocks are.  With nothing there, the message says block 0 whatever the current block is.  The rest is as
    intended: the error is numbered, the values of the rollup are unchanged and the copy is gone. *)
Theorem errors_name_block_zero fuel s s1 s2 e n r : c_ok s -> set_up s = (Ok tt, s1) -> run_main fuel s1 = (Err e, s2) -> is_fallback e = false ->
  is_Some (c_value s2 (TMP ++ r)) -> c_value s CURRENT_NUMBER = None -> core_store_list_size ERRORS_PATH s2 = Z.of_nat n -> (Z.of_nat n < 2 ^ 31)%Z ->
  size_ok (length (error_message 0 e)) ->
  exists s', kernel_loop fuel s = (Ok tt, s') /\ c_value s' (ERRORS ++ [decimal 20 (N.of_nat n + 1)]) = Some (error_message 0 e) /\
    (forall x, x <> [] -> c_value s' (EVM ++ x) = c_value s (EVM ++ x)) /\ forall x, c_value s' (TMP ++ x) = None.
Proof.
  intros Hs E1 E2 He Ht Hnum Hn Hn31 Hz. destruct (run_value fuel s s1 _ s2 CURRENT_NUMBER Hs E1 E2) as [Hs2 Hnum2]; [by intros [x Hx]|done..|].
  rewrite Hnum in Hnum2. destruct (error_path (N.of_nat n + 1) ltac:(lia)) as (P1&P2&P3&P4). set (p := ERRORS_PATH ++ _) in *.
  destruct (store_write_all_spec s2 p (error_message 0 e) Hs2 P3 Hz) as (s3&E3&Hs3&Hv3).
  assert (Hother : forall q, ~ under ERRORS q -> c_value s3 q = c_value s2 q).
  { intros q Hq. rewrite Hv3, bool_decide_eq_false_2; [done|]. intros ->. apply Hq. rewrite P4. by eexists. }
  destruct (store_delete_ok s3 TMP_PATH Hs3 tmp_path) as (s'&E4&_&Hv).
  { eapply (value_exists s3 _ r); [done|apply tmp_path|]. change (path_steps TMP_PATH) with TMP. rewrite Hother; [done|]. by intros [x Hx]. }
  exists s'. change (path_steps TMP_PATH) with TMP in Hv. split_and!.
  - rewrite (kernel_loop_runs fuel s s1 _ s2 E1 E2). cbn [settle]. rewrite He.
    assert (El : log_error e s2 = (Ok tt, s3)).
    { unfold log_error. unfold mbind at 1, M_bind at 1. rewrite no_current_number by done. cbn beta iota. unfold mbind at 1, M_bind at 1, M_map_err at 1, store_count_subkeys.
      rewrite Hn, (proj2 (Z.leb_le 0 _)), Nat2Z.id by lia. cbn beta iota. unfold mbind, M_bind, lift, map_err at 1. cbn [default]. cbn beta iota.
      rewrite P1. cbn [map_err]. rewrite P2. cbn [map_err]. fold p. unfold M_map_err. by rewrite E3. }
    unfold mbind, M_bind, expect_ok at 1. rewrite El. unfold expect_ok, revert. by rewrite E4.
  - rewrite Hv. change (strip TMP (ERRORS ++ [decimal 20 (N.of_nat n + 1)])) with (@None (list bytes)). cbn beta iota. rewrite <- P4, Hv3. by rewrite bool_decide_eq_true_2.
  - intros x Hx. destruct (run_value fuel s s1 _ s2 (EVM ++ x) Hs E1 E2) as [_ <-]; [by intros [y Hy]|intros E; apply Hx; by injection E|done|].
    rewrite Hv. change (strip TMP (EVM ++ x)) with (@None (list bytes)). cbn beta iota. apply Hother. by intros [y Hy].
  - intros x. by rewrite Hv, strip_app.
Qed.
End kernel.
