(* ===== verification/EvmKernelRuns.v ===== *)
(** Runs of the kernel on the mock host.

    A host that reveals a new kernel, a database of hashes and the crates of the other runs, with which the theorems about the inbox and the main loop and the code are run. *)

From stdpp Require Import relations.
From S2P Require Import Prelude Endian SdkNom SdkMicheline SdkMichelson SdkMessages SdkDac SdkDacProps SdkInstaller SdkRuns KernelPath KernelHost KernelRuntime KernelStore KernelStoreLaws KernelInput KernelStorage EvmErrors Rlp EvmStorage LinkedList EthTypes EthSign EvmTx EthBlock EvmStore EvmChunks EvmAccounts EvmBlueprints EvmApply EvmExec EvmBlock EvmParsing EvmStageZero EvmSimulation EvmInbox EvmSafe EvmKernel EvmKernelProps EvmExamples EvmExecRuns.

Module Setup.
#[global] Instance crypto : CryptoCrate := Accounts.crypto.
(** Hashes of contracts are padded to the size of their notation. *)
Definition padding : bytes := repeat Byte.x30 16.
#[global] Instance b58 : Base58Crate := {
  B58Err := unit; InvalidBase58 := tt; from_base58check := Ok; base58check_prefix _ := []; hash_from_b58check _ bs := Ok (take 20 bs); hash_to_b58check _ h := h ++ padding
}.
#[global] Instance build : Build := { KERNEL_VERSION := str "v1" }.
#[global] Instance internal : InternalRuntime HostState := { core_store_get_hash _ n _ := (Z.of_nat n, repeat Byte.x2a n) }.
(** The host knows the pages of the new kernel. *)
Definition new_kernel : bytes := str "new kernel".
Definition pages : list (bytes * bytes) := Eval vm_compute in (prepare_preimages log_page new_kernel []).2.
Definition new_root : bytes := Eval vm_compute in default [] (fst <$> last pages).
#[global] Instance reveals : RevealCore := Payload.reveal_known pages.
#[global] Instance executor : Executor := fun S core => SputnikExecution 5.
#[global] Instance exec : EvmExecution (S := HostState) := execute_on _ _.
#[global] Instance debug : DebugAnyhow := { debug_anyhow _ := str "error" }.

Definition ADDRESS : bytes := repeat Byte.x5a 20.
(** A host with files and an inbox. *)
Definition with_file (h : HostState) (f : bytes * bytes) : HostState := (store_write_all f.1 f.2 h).2.
Definition start (inputs : list bytes) : HostState := mkHostState empty_host (mkMetadata ADDRESS 3) 7 0 inputs.
Definition host (files : list (bytes * bytes)) (inputs : list bytes) : HostState := foldl with_file (start inputs) files.
Lemma files_ok files : Forall (fun f => validate_path f.1 = Ok tt) files -> forall h, c_ok h -> c_ok (foldl with_file h files).
Proof.
  induction 1 as [|f files Hf _ IH]; intros h Hh; [done|]. apply IH, store_write_all_keeps; [by apply validate_path_spec|done].
Qed.
Lemma setup_ok files inputs : Forall (fun f => validate_path f.1 = Ok tt) files -> c_ok (host files inputs).
Proof. intros H. apply files_ok; [done|]. apply empty_host_ok. Qed.

Definition transaction (data : bytes) : bytes :=
  external_input ADDRESS (SIMPLE_TRANSACTION_TAG :: keccak256 data ++ data).
Definition signed : EthereumTransactionCommon := match content (Machine.tx Byte.x01 (str "ok")) with Ethereum tx => tx | _ => Eth.create end.
Definition encoded : bytes := match to_bytes (E := unit) signed with Ok bs => bs | _ => [] end.

Definition old_kernel : bytes := str "old kernel".
Lemma pairs {A B} (p : A * B) a b : p.1 = a -> b = p.2 -> p = (a, b).
Proof. destruct p. cbn. by intros <- ->. Qed.
Lemma not_under p q : strip p q = None -> ~ under p q.
Proof. apply strip_under. Qed.
Lemma some_value (o : option bytes) v : o = Some v -> is_Some o.
Proof. by exists v. Qed.
End Setup.

(** * A new kernel *)

(** An upgrade is due; the transaction of the inbox makes a block. *)
Module Upgrading.
Definition h : HostState := Setup.host
  [(KERNEL_BOOT_PATH, Setup.old_kernel); (EVM_PATH ++ KERNEL_UPGRADE, rlp_bytes (mkKernelUpgrade Setup.new_root 0))] [Setup.transaction Setup.encoded].
Definition h1 : HostState := (set_up (S := HostState) h).2.
Definition h2 : HostState := (run_main (S := HostState) 20 h1).2.
Lemma h_ok : c_ok h.
Proof. apply Setup.setup_ok. repeat constructor. Qed.
End Upgrading.

Lemma successful_run_is_promoted_witness : exists h', kernel_loop (S := HostState) 20 Upgrading.h = (Ok tt, h') /\
  c_value h' BOOT = Some Setup.new_kernel /\ c_value h' BACKUP = Some Setup.old_kernel /\ c_value h' (EVM ++ [str "chain_id"]) = Some (le_bytes 32 1337).
Proof.
  destruct (successful_run_is_promoted (S := HostState) 20 Upgrading.h Upgrading.h1 Upgrading.h2 [str "chain_id"] Setup.old_kernel) as (h'&E&Hv&_&Hk).
  - exact Upgrading.h_ok.
  - apply Setup.pairs; [vm_compute; reflexivity|unfold Upgrading.h1; reflexivity].
  - apply Setup.pairs; [vm_compute; reflexivity|unfold Upgrading.h2; reflexivity].
  - apply Setup.not_under. vm_compute. reflexivity.
  - apply (Setup.some_value _ (le_bytes 32 1337)). vm_compute. reflexivity.
  - vm_compute. reflexivity.
  - exists h'. split; [exact E|]. rewrite (Hv [str "chain_id"]) by (apply Setup.not_under; vm_compute; reflexivity).
    replace (c_value Upgrading.h2 (TMP ++ BOOT)) with (Some Setup.new_kernel) in Hk by (vm_compute; reflexivity). destruct Hk as [H1 H2].
    split; [exact H1|]. split; [exact H2|]. vm_compute. reflexivity.
Defined.

(** * A run that traps *)

(** A deposit of more than fits in 64 bits. *)
Module Trapping.
Definition kt1 : bytes := repeat Byte.x4b 20.
Definition ticket (amount : Z) : FA2_1Ticket := mkTicket (mkMichelsonPair (mkMichelsonContract (Originated kt1))
  (mkMichelsonPair (mkMichelsonPair (mkMichelsonInt 0) (mkMichelsonOption None)) (mkMichelsonInt amount))).
Definition deposit (receiver : bytes) (amount : Z) : bytes := (serialize (Internal (Internal_Transfer (mkTransfer (Expr := RollupType)
  (Or_Left (Or_Left (mkMichelsonPair (mkMichelsonBytes receiver) (ticket amount)))) kt1 (PKH_P256 Accounts.tz3) (mkSmartRollupAddress Setup.ADDRESS)))) []).2.
Definition h : HostState := Setup.host [(KERNEL_BOOT_PATH, Setup.old_kernel); (EVM_PATH ++ TICKETER, kt1 ++ Setup.padding)]
  [Setup.transaction Setup.encoded; deposit (repeat Byte.x0d 20) (2 ^ 64)].
Definition h' : HostState := (kernel_loop (S := HostState) 20 h).2.
Lemma run : kernel_loop (S := HostState) 20 h = (Panic POverflow, h').
Proof. apply Setup.pairs; [vm_compute; reflexivity|unfold h'; reflexivity]. Qed.
End Trapping.

Lemma kernel_run_is_atomic_witness : c_ok Trapping.h' /\ forall r, r <> [] -> c_value Trapping.h' (EVM ++ r) = c_value Trapping.h (EVM ++ r).
Proof.
  destruct (kernel_run_is_atomic (S := HostState) 20 Trapping.h (Panic POverflow) Trapping.h') as (Hok&_&[Hv|[Ho _]]).
  - apply Setup.setup_ok. repeat constructor.
  - exact Trapping.run.
  - split; [exact Hok|exact Hv].
  - discriminate Ho.
Defined.

(** * A run that fails *)

(** The stored upgrade cannot be read. *)
Module Failing.
Definition h : HostState := Setup.host
  [(KERNEL_BOOT_PATH, Setup.old_kernel); (EVM_PATH ++ KERNEL_UPGRADE, str "not an upgrade"); (EVM_PATH ++ EVM_CURRENT_BLOCK ++ BLOCK_NUMBER, le_bytes 8 7);
   (ERRORS_PATH ++ str "/1", str "the first error")] [Setup.transaction Setup.encoded].
Definition h1 : HostState := (set_up (S := HostState) h).2.
Definition h2 : HostState := (run_main (S := HostState) 20 h1).2.
Definition e : Anyhow := A_Error InvalidConversion.
Definition message : bytes := str "Error during block 0: error".
End Failing.

(** The block is the seventh; the message says block 0. *)
Lemma errors_name_block_zero_witness : exists h', kernel_loop (S := HostState) 20 Failing.h = (Ok tt, h') /\ c_value h' (ERRORS ++ [str "2"]) = Some Failing.message /\
  c_value h' (EVM ++ CURRENT_NUMBER) = Some (le_bytes 8 7).
Proof.
  destruct (errors_name_block_zero (S := HostState) 20 Failing.h Failing.h1 Failing.h2 Failing.e 1 [str "chain_id"]) as (h'&E&Hm&Hv&_).
  - apply Setup.setup_ok. repeat constructor.
  - apply Setup.pairs; [vm_compute; reflexivity|unfold Failing.h1; reflexivity].
  - apply Setup.pairs; [vm_compute; reflexivity|unfold Failing.h2; reflexivity].
  - reflexivity.
  - apply (Setup.some_value _ (le_bytes 32 1337)). vm_compute. reflexivity.
  - vm_compute. reflexivity.
  - vm_compute. reflexivity.
  - reflexivity.
  - vm_compute. reflexivity.
  - exists h'. split; [exact E|]. split; [exact Hm|]. rewrite Hv by done. vm_compute. reflexivity.
Defined.

(** * A migration that fails *)

(** The version of the storage is not a number; the kernel that was kept aside is back. *)
Module Corrupt.
Definition h : HostState := Setup.host
  [(KERNEL_BOOT_PATH, Setup.new_kernel); (BACKUP_KERNEL_BOOT_PATH, Setup.old_kernel); (EVM_PATH ++ STORAGE_VERSION_PATH, str "not")] [].
Definition h1 : HostState := (set_up (S := HostState) h).2.
Definition h2 : HostState := (run_main (S := HostState) 20 h1).2.
Example falls_back : exists h', kernel_loop (S := HostState) 20 h = (Ok tt, h') /\ c_value h' BOOT = Some Setup.old_kernel /\ c_value h' BACKUP = None.
Proof.
  destruct (failed_migration_falls_back (S := HostState) 20 h h1 h2 (A_Error (UpgradeError Fallback)) [str "chain_id"] Setup.old_kernel) as (h'&E&H1&H2&_).
  - apply Setup.setup_ok. repeat constructor.
  - apply Setup.pairs; [vm_compute; reflexivity|unfold h1; reflexivity].
  - apply Setup.pairs; [vm_compute; reflexivity|unfold h2; reflexivity].
  - reflexivity.
  - apply (Setup.some_value _ (le_bytes 32 1337)). vm_compute. reflexivity.
  - vm_compute. reflexivity.
  - exists h'. split; [exact E|]. split; [exact H1|exact H2].
Qed.
End Corrupt.

(** * Inputs *)

Lemma parsed_inputs_are_authorized_witness : exists t : Transfer RollupType,
  is_transfer (Trapping.deposit (repeat Byte.x0d 20) 5) Setup.ADDRESS t /\ SdkMessages.payload t = Or_Left (Or_Left (mkMichelsonPair (mkMichelsonBytes (repeat Byte.x0d 20)) (Trapping.ticket 5))).
Proof.
  destruct (parsed_inputs_are_authorized (Trapping.deposit (repeat Byte.x0d 20) 5) Setup.ADDRESS (mkTezosContracts (Some Trapping.kt1) None None) None None
    (InputDeposit (mkDeposit (5 * 10 ^ 12) (repeat Byte.x0d 20)))) as (t&r&ticket&kt1&n&Ht&_); [vm_compute; reflexivity|].
  exists t. split; [exact Ht|]. destruct Ht as (rest&Hm&_).
  assert (E : match parse_message (Trapping.deposit (repeat Byte.x0d 20) 5) with Ok (Internal (Internal_Transfer t), _) => SdkMessages.payload t | _ => SdkMessages.payload t end =
    Or_Left (Or_Left (mkMichelsonPair (mkMichelsonBytes (repeat Byte.x0d 20)) (Trapping.ticket 5)))) by (vm_compute; reflexivity).
  by rewrite Hm in E.
Defined.

(** A transaction in two chunks: the last chunk, a chunk of an unknown transaction, the last chunk again, and the first one. *)
Module Sent.
Definition cfg : InboxConfig := mkInboxConfig Setup.ADDRESS (mkTezosContracts None None None) None None.
Definition chunk (h : bytes) (i : N) (data : bytes) : ChunkInput := TransactionChunk h i (keccak256 data) data.
Definition first_ : bytes := take MAX_SIZE_PER_CHUNK Chunked.data.
Definition last_ : bytes := drop MAX_SIZE_PER_CHUNK Chunked.data.
Definition hashes : list bytes := [keccak256 first_; keccak256 last_].
Definition unknown : bytes := repeat Byte.x09 32.
Definition chunks : list ChunkInput :=
  [chunk Chunked.tx_hash 1 last_; chunk unknown 0 (str "unknown"); chunk Chunked.tx_hash 1 last_; chunk Chunked.tx_hash 0 first_].
Definition contents (c : ChunkInput) : bytes :=
  match c with
  | NewChunkedTransaction h n hs => NEW_CHUNKED_TRANSACTION_TAG :: h ++ le_bytes 2 n ++ mjoin hs
  | TransactionChunk h i ch data => TRANSACTION_CHUNK_TAG :: h ++ le_bytes 2 i ++ ch ++ data
  end.
Definition announce : ChunkInput := NewChunkedTransaction Chunked.tx_hash 2 hashes.
Definition message (c : ChunkInput) : bytes := external_input Setup.ADDRESS (contents c).
(** The messages of a level: its start, its information and its end. *)
Definition start_of_level : bytes := [Byte.x00; Byte.x01].
Definition end_of_level : bytes := [Byte.x00; Byte.x02].
Definition info_per_level : bytes := [Byte.x00; Byte.x03] ++ repeat Byte.x01 8 ++ repeat Byte.x02 32.
Definition before : list bytes := [start_of_level; info_per_level; str "unparsable"; message (chunk Chunked.tx_hash 0 (str "early"))].
Definition after : list bytes := map message chunks ++ [end_of_level].
Definition h : HostState := Setup.start (before ++ message announce :: after).

Lemma chunk_carried hash i data : (length hash =? 32) = true -> (i <? 2 ^ 16)%N = true -> (length data <=? MAX_SIZE_PER_CHUNK) = true ->
  carries cfg (chunk hash i data) (external_input Setup.ADDRESS (contents (chunk hash i data))).
Proof.
  intros Hh%Nat.eqb_eq Hi%N.ltb_lt Hd%Nat.leb_le. eexists. pose proof (keccak_sized data) as Hk. split_and!; [done|by apply sent_chunk|].
  unfold sized in Hk. unfold external_input, contents, chunk. cbn [length]. rewrite !length_app. cbn [length]. rewrite !length_app, length_le_bytes, Hh, Hk.
  transitivity (67 + 2 + MAX_SIZE_PER_CHUNK + 20); [change (length Setup.ADDRESS) with 20; lia|]. apply Nat.leb_le. vm_compute. reflexivity.
Qed.
Lemma announced : carries cfg announce (message announce).
Proof.
  eexists. split_and!; [done|apply (sent_new Chunked.tx_hash hashes)|apply Nat.leb_le; vm_compute; reflexivity]; [apply keccak_sized| |by vm_compute].
  repeat (apply Forall_cons_2; [apply keccak_sized|]). apply Forall_nil_2.
Qed.
Lemma chunk_treatable hash i data : (length hash =? 32) = true -> (i <? 2 ^ 16)%N = true -> (length data <=? MAX_SIZE_PER_CHUNK) = true ->
  treatable cfg (message (chunk hash i data)).
Proof. intros Hh Hi Hd. by apply (treatable_carried _ (chunk hash i data)), chunk_carried. Qed.
Lemma before_treatable : Forall (treatable cfg) before.
Proof.
  repeat (apply Forall_cons_2; [first [apply chunk_treatable; vm_compute; reflexivity | split; [done|]; split; [apply Nat.leb_le; vm_compute; reflexivity|vm_compute; exact I]]|]).
  apply Forall_nil_2.
Qed.
Lemma after_treatable : Forall (treatable cfg) after.
Proof.
  repeat (apply Forall_cons_2; [first [apply chunk_treatable; vm_compute; reflexivity | split; [done|]; split; [apply Nat.leb_le; vm_compute; reflexivity|vm_compute; exact I]]|]).
  apply Forall_nil_2.
Qed.
Lemma before_inputs : chunk_inputs cfg before = [chunk Chunked.tx_hash 0 (str "early")].
Proof. vm_compute. reflexivity. Qed.
Lemma after_inputs : chunk_inputs cfg after = chunks.
Proof. vm_compute. reflexivity. Qed.
Lemma info_read : match reads_as cfg info_per_level with Ok (Parsed (Info _)) => true | _ => false end = true.
Proof. vm_compute. reflexivity. Qed.
End Sent.

(** The messages of a level, one that cannot be parsed and a chunk that comes too early do not matter. *)
Lemma sent_transaction_is_read_witness : exists content h', read_inbox (S := HostState) 11 Sent.cfg Sent.h = (Ok (Some content), h') /\
  mkTransaction Chunked.tx_hash (Ethereum Chunked.tx) ∈ inbox_transactions content.
Proof.
  destruct (sent_transaction_is_read (S := HostState) Sent.cfg Chunked.tx_hash Sent.hashes Chunked.chunks Chunked.tx Sent.before (Sent.message Sent.announce) Sent.after 11 Sent.h ∅)
    as (content&h'&E&_&Hin).
  - reflexivity.
  - reflexivity.
  - split; [apply no_chunks_represents; exact Chunked.no_chunks_empty|]. intros v Hv. vm_compute in Hv. discriminate Hv.
  - reflexivity.
  - exact Chunked.chunks_sendable.
  - vm_compute. reflexivity.
  - vm_compute. reflexivity.
  - reflexivity.
  - apply Nat.ltb_lt. vm_compute. reflexivity.
  - exact Sent.before_treatable.
  - rewrite Sent.before_inputs. apply Forall_cons_2; [intros []|apply Forall_nil_2].
  - exact Sent.announced.
  - exact Sent.after_treatable.
  - rewrite Sent.after_inputs. repeat constructor; intros; try discriminate; vm_compute; (reflexivity || (apply (bool_decide_unpack _); reflexivity)).
  - intros [|[|i]] Hi; [| |exfalso; vm_compute in Hi; lia]; unfold Sent.after, Sent.chunks; cbn [map app].
    + do 3 apply Exists_cons_tl. apply Exists_cons_hd. do 2 eexists. apply (Sent.chunk_carried Chunked.tx_hash 0 Sent.first_); vm_compute; reflexivity.
    + apply Exists_cons_hd. do 2 eexists. apply (Sent.chunk_carried Chunked.tx_hash 1 Sent.last_); vm_compute; reflexivity.
  - exists content, h'. split; [exact E|exact Hin].
Defined.

Example chunk_message_is_parsed :
  parse (external_input Setup.ADDRESS (Sent.contents (Sent.chunk Sent.unknown 3 (str "data")))) Setup.ADDRESS (mkTezosContracts None None None) None None =
  Ok (Parsed (Chunk Sent.unknown 3 (keccak256 (str "data")) (str "data"))).
Proof. apply external_inputs_parsed; [reflexivity|]. apply sent_chunk; [reflexivity|vm_compute; reflexivity|apply keccak_sized]. Qed.
